(* ===== verification/_CoqProject ===== *)
-Q . S2P
Prelude.v
RustStd.v
Endpoints.v
OverlayTypes.v
Instances.v
Multihop.v
ReplayWindow.v
OverlayForwarder.v
BTree.v
SortBy.v
Hashing.v
F32.v
Stun.v
NatClass.v
PathTypes.v
Signal.v
SignalRegistry.v
OverlayFragments.v
OverlayTransit.v
OverlayClient.v
OverlayPeer.v
Quorum.v
QuorumInstances.v
QuorumRotation.v
QuorumSudo.v
QuorumEngine.v
RelayWire.v
RelayTable.v
RelayHistory.v
RelayService.v
Bfs.v
IndexedSearch.v
TopologyGraph.v
Articulation.v
TopologySynthesis.v
TopologyHierarchy.v
TopologyLinks.v
TopologyRepresentatives.v
TopologyRings.v
TopologyBlocks.v
TopologySound.v
TopologyRouting.v
Flow.v
TopologyDisjoint.v
TopologyPaths.v
JoinTokens.v
Base64.v
Crypto.v
ControlTypes.v
TokenLedger.v
RequestAuth.v
AdminLedger.v
ControlStore.v
ControlRules.v
MeshMailbox.v
ControlAcl.v
ControlPlane.v
TimedSteps.v
HttpMesh.v
