(* ===== verification/Prelude.v ===== *)
(** * HeteroNetwork: verification of the overlay network, its control plane, relays and quorum

    This library models parts of the HeteroNetwork workspace ([src/crates]) as functions of
    Rocq and proves what makes them correct. Every definition that stands for code carries
    the name of the code where the language allows it.

    ** The program and its parts

    Nodes of a cluster form an overlay. The control plane computes a topology in which every
    node has few neighbors ([ipars-control-plane/src/bounded_topology.rs]) and hands out
    neighbor maps and paths ([ipars-types/src/lib.rs]). An agent seals WireGuard datagrams
    into frames that name their path ([ipars-relay/src/multihop.rs]), checks and forwards the
    frames of its neighbors ([ipars-agent/src/overlay_forwarder.rs]), cuts them into datagrams
    and puts them together again, fails over to a second path and proxies the local WireGuard
    ([ipars-agent/src/overlay_transit.rs]). Nodes that cannot reach each other use a relay
    ([ipars-relay/src/lib.rs]); a node learns from STUN servers under which address it is seen
    and what its NAT lets pass ([ipars-stun/src/lib.rs]). The signalling service tells two
    nodes which path between them to try ([ipars-signal/src/lib.rs]). Nodes join with a signed
    token and are registered, authenticated and removed by the control plane
    ([ipars-control-plane/src/lib.rs], [ipars-crypto/src/lib.rs]); nodes that speak nothing but
    HTTP exchange their packets through a mailbox it keeps
    ([ipars-control-plane/src/http_mesh.rs]). Administrative mutations,
    changes of the signing group and privilege grants need the threshold signature of a
    majority of a frozen group ([ipars-quorum]), which the control plane checks and uses up
    ([ipars-control-plane-http/src/quorum.rs]).

    ** Files

    - [Prelude]: results and the [?] operator, machine integers, bytes, slices, proof
      automation. [RustStd]: strings, IP and socket addresses and their parsers as the
      standard library has them. [BTree]: [BTreeMap] and [BTreeSet] as sorted lists.
      [SortBy]: stable sorting. [Hashing]: decimal and hexadecimal text, digests. [F32]:
      32-bit floats, bit for bit.
    - [Endpoints] (module [Endpoints]): endpoint and bootstrap validation; [OverlayTypes]
      (module [Overlay]): node records, neighbor maps, paths and relay capabilities with
      their validators, all of [ipars-types/src/lib.rs].
    - [Stun]: [ipars-stun/src/lib.rs]. The codec, the two servers as functions of a datagram
      to counters, an answer and a result, and the client as a function of what arrives on
      its socket; [NatClass]: the classification of [ipars-types/src/lib.rs] that is made of
      the client's observations.
    - [Multihop]: the envelope of [multihop.rs], its validation, encoder, decoder and hop
      counter.
    - [ReplayWindow] (module [Replay]) and [OverlayForwarder] (module [Forwarder]):
      [overlay_forwarder.rs]. The engine is a record of the current and retained maps and the
      replay window; [encapsulate], [receive] and [update_neighbor_map] are its operations.
    - [OverlayFragments] (module [Fragments]), [OverlayTransit] (module [Transit]),
      [OverlayClient] (module [Client]) and [OverlayPeer] (module [Peer]):
      [overlay_transit.rs]. The receive loop is a function of one datagram to a new state and
      a list of effects. The client is a task over state shared with other tasks: at every
      await point an arbitrary function of the shared state is applied, and a task ends with
      a value, waits, or panics. The peer proxy is a step function on the events of its
      [select!] loop.
    - [RelayWire], [RelayTable], [RelayService]: the datagram codec, the session table with
      its WireGuard return routes and rate limit, and the admission service of
      [ipars-relay/src/lib.rs]; [RelayHistory]: the table as the result of the calls made on
      it, to which its addresses are traced.
    - [Quorum], [QuorumRotation] (module [Rotation]), [QuorumSudo] (module [Sudo]) and
      [QuorumEngine] (module [Engine]): [ipars-quorum/src/lib.rs], [rotation.rs] and
      [sudo.rs]. The engine's rounds are functions of its state, the request, the time and
      the random numbers drawn.
    - [TopologyGraph], [Bfs], [IndexedSearch], [Articulation], [TopologySynthesis],
      [TopologyHierarchy], [TopologyLinks], [TopologyRepresentatives], [TopologyRings],
      [TopologyBlocks], [TopologySound], [TopologyRouting], [Flow], [TopologyDisjoint] and
      [TopologyPaths]: [bounded_topology.rs]. [TopologySynthesis], [TopologyGraph],
      [Articulation], [TopologyRouting], [Flow], [TopologyDisjoint] and [TopologyPaths] hold
      the code's functions; the others the lemmas on the steps of synthesis.
    - [PathTypes]: path states, metrics and scores, access rules and the policy of a cluster,
      of [ipars-types/src/lib.rs]; [Signal]: the rules of [ipars-signal/src/lib.rs] by which a
      path is chosen; [SignalRegistry] (module [Registry]): its registry, whose updates are
      sequences of single writes that interleave.
    - [JoinTokens]: claims, signed tokens and ledger records of [ipars-types/src/lib.rs];
      [Crypto]: keys, identities and signatures of [ipars-crypto/src/lib.rs]; [Base64]: an
      instance of base64 for the examples.
    - [ControlTypes], [TokenLedger], [RequestAuth], [AdminLedger], [ControlStore],
      [ControlRules] and [ControlPlane]: [ipars-control-plane/src/lib.rs]. Errors; the token
      ledger with the issuers' keys; signed requests and the nonces remembered; anchored
      manifests and capabilities; the in-memory store, whose operations are single steps; the
      checks of policies and requests; and the asynchronous operations of [ControlPlane] and
      the join service as trees of atomic accesses ([prog]) that run alone ([run_prog]) or
      interleaved by a schedule ([exec]).
    - [ControlAcl]: the access rules of the same file; [MeshMailbox] (module [Mailbox]): the
      in-memory mailbox of [http_mesh.rs], whose operations are single steps; [HttpMesh]: the
      requests of that file as [prog]s over the state of [ControlPlane]. The turns of a poll's
      loop, with the readings of the clock, are an argument ([Round]). Their runs are those of
      [TimedSteps]: between two accesses anything else may change the state, and claims name
      the times at which accesses happen.
    - [Instances] and [QuorumInstances]: concrete instances of the interfaces for examples.

    ** Interfaces

    Code outside the workspace is a type class with the documented facts the code relies on:
    [UrlOps] and [UrlOriginOps] (crate url), [IpNetOps], [IpNetBuildOps] and [Ipv4NetOps]
    (ipnet, the last with the bounds of a network as laws; [IpNetLaws] says that two prefixes
    that share an address are nested), [UuidOps] (uuid), [DigestOps] (sha2 and hex: a
    digest has 32 bytes, a byte two digits), [FrostOps] (frost-ed25519), [EdOps] and
    [EdSignOps] (ed25519-dalek; the laws of the last say that what is signed verifies),
    [X25519Ops] (x25519-dalek), [Base64Ops] (base64, decoding inverts encoding), [ToJson] and
    [RevocationJsonOps] (serde_json). [FrostOps], [EdOps], [X25519Ops], [UuidOps], [ToJson] and
    [RevocationJsonOps] have no law. The theorems hold for every instance; the examples
    evaluate them at concrete ones. Clocks, random numbers, the outcome of sending on a socket,
    of a call on the store that may time out, and the interference of other tasks are arguments.

    ** What the theorems show

    - Frames: encoding and decoding are inverse and canonical, and the payload is released
      only at the destination after every relay in order ([Multihop]).
    - Forwarding: what the engine accepts, exactly; its invariant from creation on; a frame
      handed from node to node along its path arrives ([OverlayForwarder]). The sliding
      bitmap implements a set of seen numbers and no number is accepted twice
      ([ReplayWindow]).
    - Transport: a fragmented frame is delivered by its last missing fragment whatever the
      order, the reassembler stays within its bounds, fragmentation is transparent to a hop,
      only neighbors cause effects, and acknowledgements return ([OverlayFragments],
      [OverlayTransit]). A datagram goes out at most twice, on the two paths in order, with
      two numbers; a suppressed primary route is not used ([OverlayClient]); the proxy never
      reuses a number ([OverlayPeer]).
    - Relays: the codec's round trip; the table's invariant; what is forwarded, exactly, and
      only within an admitted session; raw traffic only between addresses traced to
      admissions and to frames with the token; rates and counters; the service's limits
      ([RelayWire], [RelayTable], [RelayHistory], [RelayService]).
    - Topology: synthesis neither loops nor panics, succeeds on well-behaved input, and what
      it publishes is symmetric, within the degree bound, connected and survives any single
      failure ([TopologySound]); the low-link test equals the brute-force one
      ([Articulation]); next hops, cached paths and disjoint paths are correct
      ([TopologyRouting], [TopologyDisjoint], [TopologyPaths]).
    - Quorum: what a capability, a rotation and a redemption verification accept, exactly;
      rotations move forward only; nothing signed can be read in two ways; a signer gives
      shares only for what it approved, one per nonce, and an open session can be completed;
      two decisions share a member ([Quorum] and following).
    - NAT discovery: a STUN exchange tells the client its address, the client and the servers
      end on every input ([Stun]); what is concluded about mapping and filtering is so, and a
      public address is one the observations confirm ([NatClass]).
    - Signalling: the registry's invariant under any interleaving; what a negotiation offers is
      allowed, fresh and usable, and two nodes that need a relay try the same ones in the same
      order ([SignalRegistry]).
    - Joining: a token verifies exactly while it is valid ([Crypto]); the ledger implements an
      abstract contract and admits no token more often than it allows ([TokenLedger]); a
      join leaves exactly the node the token and the request describe; routes follow the
      policy however the operations interleave; addresses are distinct while the allocator is
      not reset under a join and none is drawn at random ([ControlPlane]).
    - The control plane's store: its routing epoch identifies what routing depends on, and a
      heartbeat is applied once ([ControlStore]). Its administrative ledger: the same
      capability is good for one request of the anchored group while clocks agree within five
      minutes, and the anchor moves by rotations only ([AdminLedger]). Authentication: exactly when a request can be replayed
      ([RequestAuth]).
    - Access rules: what a peer map shows can be reached, address by address ([ControlAcl]).
    - The HTTP mesh: an accepted batch is delivered, not twice to a recipient that
      acknowledges, and sending it again is recognised ([MeshMailbox]); however requests
      interleave with each other and with changes of the policy, the nodes and the gateways,
      the mailbox stays within its bounds and carries only what registered nodes signed,
      batches are delivered and traffic is forwarded only between nodes that may talk by what
      is stored at that time, and the pages of the member list are complete ([HttpMesh]).
    - Some theorems show defects of the code: [RelayTable.announcement_payload_relayed_uncounted],
      [Fragments.last_fragment_underflow], [Client.direct_secondary_panics],
      [Stun.late_answer_starves], [Stun.refused_answer_ends_server],
      [RequestAuth.replay_window], [ControlPlane.PlaneExample.addresses_collide],
      [ControlPlane.spent_allocator_refuses], and [NatClass.filtering_found] for a conclusion
      that is never reached.

    ** Panics, fuel and bounds

    A function that may panic returns [option], with [None] for the panic ([Panicked] for a
    task). Loops without a structural measure take fuel: a search one unit for every node the
    graph mentions, since it visits none twice; the hierarchy the number of nodes, since a
    child has fewer members than its parent; the walks along predecessors and flows the number
    of vertices; decimal text twenty digits; the attributes of a STUN message its length, since
    each takes four bytes; the allocator the addresses left in its pool
    ([allocate_next_spec]); the insertion of a node one attempt, since the in-memory store
    refuses no address ([routes_follow_policy] shows that no operation is ever [Stuck]); the
    pages of members one unit for every member and one for the last page. A poll of the mesh
    takes the turns it is given and is [Stuck] after the last; [mailbox_safe] shows that it is
    not when one of them is past its deadline. The theorems of totality ([synthesize_total],
    [two_disjoint_paths_exact], [next_hops_reliable], [stun_total] and others) show that this
    fuel suffices, so [None] is never a lack of fuel. Integers are [Z] with their width written
    out where the code can overflow; byte strings are assumed shorter than [2^64] where a length is cast.

    ** Not modelled

    Sockets, timers, task spawning, HTTP routing, serialisation derived by serde, databases,
    Kubernetes, netlink and WireGuard devices are input and output around the modelled code.
    Of the control plane, the processing of heartbeats before they reach the store, sponsored
    clients, the check for a client gateway, service leases and directories, the maps of peers
    and relays in a response, topology caches and metrics are not modelled; of the
    HTTP mesh, the notifiers that end a wait early; of the cryptographic crate, sealed payloads and the signing of requests by a node. The SQL
    stores are decided by their databases; the agent's path selection, peer probes, the eBPF
    program, the HTTP tunnel, the route manager and the Kubernetes controller are mostly input
    and output and are left out, and so are the native clients, the web console and the
    scripts. A poisoned lock is not modelled: nothing panics while holding one. *)

From Stdlib Require Export ZArith Lia ZifyBool.
From Stdlib Require Export Init.Byte.
From coqutil Require Import Byte Word.LittleEndianList.
From stdpp Require Export prelude list gmap.

#[global] Open Scope Z_scope.
#[global] Set Default Goal Selector "!".
#[global] Set Warnings "-clear-no-such-hyp,-level-tolerance".

(** ** Results

    Rust's [Result<T, E>], with the [?] operator as a binding notation. *)

Inductive result (A E : Type) : Type :=
  | Ok (a : A)
  | Err (e : E).
Arguments Ok {A E} a.
Arguments Err {A E} e.

Declare Scope rust_scope.
Delimit Scope rust_scope with rust.
Notation "'let?' x ':=' c 'in' k" :=
  (match c with Ok x => k | Err e => Err e end)
  (at level 10, x pattern, c at level 200, k at level 200,
   format "'[v' 'let?'  x  ':='  c  'in' '/' k ']'") : rust_scope.
#[global] Open Scope rust_scope.

Lemma Ok_inj {A E} (a b : A) : @Ok A E a = Ok b -> a = b.
Proof. congruence. Qed.

(** [ok_or]: Rust's [Option::ok_or]. *)
Definition ok_or {A E} (o : option A) (e : E) : result A E :=
  match o with Some a => Ok a | None => Err e end.

Definition map_err {A E F} (f : E -> F) (r : result A E) : result A F :=
  match r with Ok a => Ok a | Err e => Err (f e) end.

(** Fallible methods of [&mut self]: the state after the call next to the result; the
    [?] operator keeps the changes made before the error. *)
Notation "'let!' s , x ':=' c 'in' k" :=
  (match c with (s, Ok x) => k | (s, Err e) => (s, Err e) end)
  (at level 10, s name, x pattern, c at level 200, k at level 200,
   format "'[v' 'let!'  s ,  x  ':='  c  'in' '/' k ']'") : rust_scope.

Definition is_ok {A E} (r : result A E) : bool :=
  match r with Ok _ => true | Err _ => false end.

(** ** Machine integers

    A [w]-bit unsigned integer is a [Z] between 0 and [2^w - 1]. *)

Definition in_width (w z : Z) : Prop := 0 <= z < 2 ^ w.
Abbreviation is_u8 := (in_width 8).
Abbreviation is_u16 := (in_width 16).
Abbreviation is_u32 := (in_width 32).
Abbreviation is_u64 := (in_width 64).
Abbreviation is_u128 := (in_width 128).

Definition as_width (w z : Z) : Z := z mod 2 ^ w.

Lemma as_width_id w z : in_width w z -> as_width w z = z.
Proof. intros H. by apply Z.mod_small. Qed.

Definition checked_add (w a b : Z) : option Z :=
  if a + b <? 2 ^ w then Some (a + b) else None.

Definition saturating_add (w a b : Z) : Z := Z.min (a + b) (2 ^ w - 1).

Definition saturating_sub (a b : Z) : Z := Z.max (a - b) 0.

Definition saturating_mul (w a b : Z) : Z := Z.min (a * b) (2 ^ w - 1).

Abbreviation lenZ l := (Z.of_nat (length l)) (only parsing).

(** ** Proof automation

    [inv_res H] splits a hypothesis on nested matches and conditionals down to its
    leaves; [crush_if] does the same for the goal. *)

Create HintDb ipars discriminated.
#[global] Hint Constants Opaque : ipars.

Ltac inv_res H :=
  repeat (match type of H with
          | context [match ?x with _ => _ end] =>
              let E := fresh "E" in destruct x eqn:E; simplify_eq H; try discriminate H
          end); simplify_eq.

Ltac bool_to_prop :=
  repeat match goal with
  | H : (_ || _)%bool = true |- _ => apply orb_true_iff in H
  | H : (_ || _)%bool = false |- _ => apply orb_false_iff in H as [? ?]
  | H : (_ && _)%bool = true |- _ => apply andb_true_iff in H as [? ?]
  | H : (_ && _)%bool = false |- _ => apply andb_false_iff in H
  | H : negb _ = true |- _ => apply negb_true_iff in H
  | H : negb _ = false |- _ => apply negb_false_iff in H
  | H : (_ =? _) = true |- _ => apply Z.eqb_eq in H
  | H : (_ =? _) = false |- _ => apply Z.eqb_neq in H
  | H : (_ <? _) = true |- _ => apply Z.ltb_lt in H
  | H : (_ <? _) = false |- _ => apply Z.ltb_ge in H
  | H : (_ <=? _) = true |- _ => apply Z.leb_le in H
  | H : (_ <=? _) = false |- _ => apply Z.leb_gt in H
  | H : bool_decide _ = true |- _ => apply bool_decide_eq_true in H
  | H : bool_decide _ = false |- _ => apply bool_decide_eq_false in H
  end.

(** [lia] with the equations of division and modulo by constants. *)
Ltac dlia := Z.to_euclidean_division_equations; lia.

(** [reflect_rw] rewrites boolean tests equal to a constant into propositions. *)
Create Rewrite HintDb reflect.
#[global] Hint Rewrite orb_true_iff orb_false_iff andb_true_iff andb_false_iff
  negb_true_iff negb_false_iff Z.eqb_eq Z.eqb_neq Z.ltb_lt Z.ltb_ge Z.leb_le Z.leb_gt
  @bool_decide_eq_true @bool_decide_eq_false : reflect.
Ltac reflect_rw := autorewrite with reflect in *.

Lemma bool_decide_ne_false {A} `{EqDecision A} (a b : A) :
  bool_decide (a <> b) = false <-> a = b.
Proof. rewrite bool_decide_eq_false. split; [apply dec_stable|tauto]. Qed.

Lemma forallb_Forall {A} (f : A -> bool) l :
  forallb f l = true <-> Forall (fun x => f x = true) l.
Proof. rewrite forallb_forall, List.Forall_forall. done. Qed.

Lemma forallb_false_Exists {A} (f : A -> bool) l :
  forallb f l = false <-> Exists (fun x => f x = false) l.
Proof.
  induction l as [|a l IH]; simpl; [split; [done|by inversion 1]|].
  rewrite andb_false_iff, IH, Exists_cons. done.
Qed.

(** [if b then Err e else r] succeeds only when [b] is false. *)
Lemma guard_ok {A E} (b : bool) (e : E) (r : result A E) a :
  (if b then Err e else r) = Ok a <-> b = false /\ r = Ok a.
Proof. destruct b; intuition congruence. Qed.

Lemma bind_ok {A B E} (c : result A E) (k : A -> result B E) b :
  match c with Ok a => k a | Err e => Err e end = Ok b <->
  exists a, c = Ok a /\ k a = Ok b.
Proof. destruct c; split; [eauto|by intros (? & [= ->] & ?)|done|by intros (? & ? & ?)]. Qed.

Lemma map_err_ok {A E F} (g : E -> F) (r : result A E) a : map_err g r = Ok a <-> r = Ok a.
Proof. destruct r; simpl; split; congruence. Qed.

Lemma ok_or_ok {A E} (o : option A) (e : E) a : ok_or o e = Ok a <-> o = Some a.
Proof. destruct o; simpl; split; congruence. Qed.

(** Steps over the checks of the goal whose condition [lia] refutes. *)
Ltac skip_guards :=
  repeat match goal with
  | |- context [if ?b then Err _ else _] =>
      replace b with false by (symmetry; lia); cbv iota
  end.

Lemma lenZ_pos {A} (l : list A) : l <> [] <-> 1 <= lenZ l.
Proof. destruct l; simpl; split; [done|lia|lia|done]. Qed.

(** Masking with [n] ones above [k] zeros. *)
Lemma land_shifted_ones x n k :
  0 <= n -> 0 <= k -> Z.land x (Z.shiftl (Z.ones n) k) = (x / 2 ^ k) mod 2 ^ n * 2 ^ k.
Proof.
  intros Hn Hk. rewrite <- Z.land_ones, <- Z.shiftr_div_pow2, <- Z.shiftl_mul_pow2 by done.
  apply Z.bits_inj'. intros i Hi. rewrite !Z.land_spec, !Z.shiftl_spec by done.
  destruct (decide (k <= i)).
  - rewrite Z.land_spec, Z.shiftr_spec by lia. by replace (i - k + k) with i by lia.
  - by rewrite !(Z.testbit_neg_r _ (i - k)), andb_false_r by lia.
Qed.

(** ** Bytes and strings

    Byte strings are lists of [byte]; a Rust [String] is the list of its UTF-8 bytes. *)

Abbreviation bytes := (list byte).

#[global] Instance byte_eq_dec : EqDecision byte := Byte.byte_eq_dec.

#[global, refine] Instance byte_countable : Countable byte :=
  {| encode b := encode (Byte.to_N b);
     decode p := decode p ≫= Byte.of_N |}.
Proof.
  intros b. by rewrite decode_encode; simpl; rewrite Byte.of_to_N.
Defined.

Abbreviation byteZ := byte.unsigned.
Abbreviation Zbyte := byte.of_Z.

Lemma byteZ_bound b : 0 <= byteZ b < 256.
Proof. pose proof (byte.unsigned_range b); lia. Qed.

Lemma byteZ_inj a b : byteZ a = byteZ b -> a = b.
Proof. apply byte.unsigned_inj. Qed.

Lemma byteZ_Zbyte z : 0 <= z < 256 -> byteZ (Zbyte z) = z.
Proof.
  intros Hz. rewrite byte.unsigned_of_Z. unfold byte.wrap. by rewrite Z.mod_small.
Qed.

Lemma Zbyte_byteZ b : Zbyte (byteZ b) = b.
Proof. apply byte.of_Z_unsigned. Qed.

(** *** Big-endian and little-endian integers *)

Definition be_bytes (n : nat) (z : Z) : bytes := rev (le_split n z).
Definition be_value (bs : bytes) : Z := le_combine (rev bs).
Definition le_value (bs : bytes) : Z := le_combine bs.

#[global] Arguments be_bytes : simpl never.
#[global] Arguments be_value : simpl never.
#[global] Arguments le_value : simpl never.

Lemma length_be_bytes n z : length (be_bytes n z) = n.
Proof. unfold be_bytes. by rewrite length_rev, length_le_split. Qed.

Lemma be_value_bound bs : 0 <= be_value bs < 2 ^ (8 * lenZ bs).
Proof.
  unfold be_value. pose proof (le_combine_bound (rev bs)) as H.
  by rewrite length_rev in H.
Qed.

Lemma be_value_be_bytes n z :
  0 <= z < 2 ^ (8 * Z.of_nat n) -> be_value (be_bytes n z) = z.
Proof.
  intros Hz. unfold be_value, be_bytes. rewrite rev_involutive, le_combine_split.
  apply Z.mod_small. by rewrite Z.mul_comm.
Qed.

Lemma be_bytes_be_value n bs : length bs = n -> be_bytes n (be_value bs) = bs.
Proof.
  intros <-. unfold be_value, be_bytes.
  rewrite split_le_combine' by apply length_rev. apply rev_involutive.
Qed.

Lemma be_bytes_mod n z : be_bytes n (z mod 2 ^ (8 * Z.of_nat n)) = be_bytes n z.
Proof. unfold be_bytes. rewrite Z.mul_comm, <- le_split_mod. done. Qed.

Lemma be_bytes_inj n x y :
  0 <= x < 2 ^ (8 * Z.of_nat n) -> 0 <= y < 2 ^ (8 * Z.of_nat n) ->
  be_bytes n x = be_bytes n y -> x = y.
Proof.
  intros Hx Hy H. by rewrite <- (be_value_be_bytes n x), H, be_value_be_bytes.
Qed.

Create Rewrite HintDb len.
#[global] Hint Rewrite length_be_bytes @length_app @length_cons @length_map : len.

Lemma pair_snd {A B} (p : A * B) b : p.2 = b -> p = (p.1, b).
Proof. by intros <-; destruct p. Qed.

(** ** Lists *)

(** Rust's [slice.get(a..b)]. *)
Definition slice_get {A} (l : list A) (a b : Z) : option (list A) :=
  if (0 <=? a) && (a <=? b) && (b <=? lenZ l)
  then Some (take (Z.to_nat (b - a)) (drop (Z.to_nat a) l)) else None.

Lemma slice_get_some {A} (l s : list A) a b :
  slice_get l a b = Some s ->
  0 <= a <= b /\ b <= lenZ l /\ lenZ s = b - a /\
  drop (Z.to_nat a) l = s ++ drop (Z.to_nat b) l.
Proof.
  unfold slice_get. intros H. destruct (_ && _ && _)%bool eqn:E; [|done].
  bool_to_prop. simplify_eq. split_and!; try lia.
  - rewrite length_take, length_drop. lia.
  - rewrite <- (take_drop (Z.to_nat (b - a)) (drop (Z.to_nat a) l)) at 1.
    rewrite drop_drop. do 2 f_equal. lia.
Qed.

Lemma slice_get_mid {A} (p s q : list A) a b :
  a = lenZ p -> b = a + lenZ s -> slice_get (p ++ s ++ q) a b = Some s.
Proof.
  intros -> ->. unfold slice_get. rewrite !length_app.
  destruct (_ && _ && _)%bool eqn:E; [|lia].
  rewrite Nat2Z.id, drop_app_length. f_equal.
  rewrite take_app_le by lia. apply take_ge. lia.
Qed.

(** Indexing [l[a..b]] where the code has checked the bounds. *)
Definition slice {A} (l : list A) (a b : Z) : list A := default [] (slice_get l a b).

Lemma slice_split {A} (l : list A) a b :
  0 <= a <= b -> b <= lenZ l ->
  drop (Z.to_nat a) l = slice l a b ++ drop (Z.to_nat b) l /\ lenZ (slice l a b) = b - a.
Proof.
  intros Hab Hb. unfold slice. destruct (slice_get l a b) as [s|] eqn:E.
  - apply slice_get_some in E. simpl. tauto.
  - unfold slice_get in E. destruct (_ && _ && _)%bool eqn:Eg; [done|lia].
Qed.

Lemma slice_at {A} (l s r : list A) a b :
  0 <= a -> drop (Z.to_nat a) l = s ++ r -> b = a + lenZ s ->
  slice l a b = s /\ drop (Z.to_nat b) l = r.
Proof.
  intros Ha Hd ->. destruct (decide (s ++ r = [])) as [Hn|Hn].
  { apply app_nil in Hn as [-> ->]. simpl. rewrite Z.add_0_r. split; [|done].
    unfold slice, slice_get. destruct (_ && _ && _)%bool; [|done].
    by rewrite Z.sub_diag. }
  assert (Hl : length (drop (Z.to_nat a) l) = length (s ++ r)) by by rewrite Hd.
  assert (1 <= lenZ (s ++ r)) by by apply lenZ_pos.
  rewrite length_drop in Hl. rewrite length_app in *.
  unfold slice, slice_get. destruct (_ && _ && _)%bool eqn:E; [|lia]. simpl.
  replace (Z.to_nat (a + lenZ s - a)) with (length s) by lia.
  rewrite Hd, take_app_length. split; [done|].
  replace (Z.to_nat (a + lenZ s)) with (Z.to_nat a + length s)%nat by lia.
  by rewrite <- drop_drop, Hd, drop_app_length.
Qed.

Definition starts_with (l p : bytes) : bool :=
  bool_decide (take (length p) l = p).

Lemma starts_with_app p q : starts_with (p ++ q) p = true.
Proof. unfold starts_with. rewrite take_app_length. by apply bool_decide_eq_true. Qed.

Lemma starts_with_true l p :
  starts_with l p = true -> l = p ++ drop (length p) l.
Proof.
  unfold starts_with. intros H%bool_decide_eq_true.
  rewrite <- (take_drop (length p) l) at 1. by rewrite H.
Qed.

(** ** Loops that collect what they have seen *)

Lemma Forall_fresh {A B} `{Countable B} (g : A -> B) (k : B) (seen : gset B) (l : list A) :
  Forall (fun x => g x ∉ ({[ k ]} ∪ seen)) l <->
  (k ∉ map g l) /\ Forall (fun x => g x ∉ seen) l.
Proof.
  induction l as [|x l IH]; simpl.
  { rewrite !Forall_nil. split; [intros _; split; [apply not_elem_of_nil|done]|done]. }
  rewrite !Forall_cons, IH, not_elem_of_union, not_elem_of_singleton, not_elem_of_cons.
  intuition congruence.
Qed.

Lemma Forall_fresh_map {A B C} `{Countable B} (g : A -> B) (k : B) (c : C) (seen : gmap B C)
    (l : list A) :
  Forall (fun x => <[k := c]> seen !! g x = None) l <->
  (k ∉ map g l) /\ Forall (fun x => seen !! g x = None) l.
Proof.
  induction l as [|x l IH]; simpl.
  { rewrite !Forall_nil. split; [intros _; split; [apply not_elem_of_nil|done]|done]. }
  rewrite !Forall_cons, IH, lookup_insert_None, not_elem_of_cons. intuition congruence.
Qed.

Lemma Forall_fresh_empty {A B} `{Countable B} (g : A -> B) (l : list A) :
  Forall (fun x => g x ∉ (∅ : gset B)) l.
Proof. apply Forall_true. intros. apply not_elem_of_empty. Qed.
