(* ===== verification/RustStd.v ===== *)
(** * The parts of the Rust standard library the sources rely on

    ASCII classes and UTF-8 validation of byte strings, IP and socket addresses with
    the classification predicates of [std::net], and byte-string literals. *)

From S2P Require Import Prelude.
From Stdlib Require String.
Export String.StringSyntax.

(** ** Byte-string literals and ASCII *)

(** [bstr "text"] is Rust's byte-string literal [b"text"]. *)
Definition bstr (s : String.string) : bytes := String.list_byte_of_string s.
#[global] Arguments bstr s%_string_scope.

Definition byte_in (lo hi : Z) (b : byte) : bool :=
  (lo <=? byteZ b) && (byteZ b <=? hi).

Definition is_ascii_digit (b : byte) : bool := byte_in 48 57 b.

Definition is_ascii_alphanumeric (b : byte) : bool :=
  byte_in 48 57 b || byte_in 65 90 b || byte_in 97 122 b.

Definition is_ascii (b : byte) : bool := byteZ b <? 128.

(** ** UTF-8

    [utf8_valid] accepts exactly the byte sequences [std::str::from_utf8] accepts. *)

Definition utf8_cont (b : byte) : bool := byte_in 128 191 b.

Fixpoint utf8_valid (l : bytes) : bool :=
  match l with
  | [] => true
  | a :: l1 =>
      if is_ascii a then utf8_valid l1 else
      match l1 with
      | [] => false
      | b :: l2 =>
          if byte_in 194 223 a then utf8_cont b && utf8_valid l2 else
          match l2 with
          | [] => false
          | c :: l3 =>
              if byte_in 224 239 a then
                (if byteZ a =? 224 then byte_in 160 191 b
                 else if byteZ a =? 237 then byte_in 128 159 b
                 else utf8_cont b) && utf8_cont c && utf8_valid l3
              else
              match l3 with
              | [] => false
              | d :: l4 =>
                  byte_in 240 244 a &&
                  (if byteZ a =? 240 then byte_in 144 191 b
                   else if byteZ a =? 244 then byte_in 128 143 b
                   else utf8_cont b) && utf8_cont c && utf8_cont d && utf8_valid l4
              end
          end
      end
  end.

Lemma utf8_valid_ascii l : forallb is_ascii l = true -> utf8_valid l = true.
Proof.
  induction l as [|a l IH]; [done|]. simpl. intros [Ha Hl]%andb_true_iff.
  rewrite Ha. auto.
Qed.

Lemma is_ascii_alphanumeric_ascii b : is_ascii_alphanumeric b = true -> is_ascii b = true.
Proof. unfold is_ascii_alphanumeric, byte_in, is_ascii. lia. Qed.

(** ** Node identifiers

    [NodeId], [ClusterId] and the like are newtypes around [String]. *)

Abbreviation NodeId := bytes.

(** ** IP and socket addresses *)

Inductive IpAddr : Type :=
  | IpV4 (addr : Z)
  | IpV6 (addr : Z).

Definition IpAddr_wf (ip : IpAddr) : Prop :=
  match ip with IpV4 a => is_u32 a | IpV6 a => is_u128 a end.

#[global] Instance IpAddr_eq_dec : EqDecision IpAddr.
Proof. solve_decision. Defined.

#[global] Instance IpAddr_countable : Countable IpAddr.
Proof.
  refine (inj_countable'
            (fun ip => match ip with IpV4 a => inl a | IpV6 a => inr a end)
            (fun s => match s with inl a => IpV4 a | inr a => IpV6 a end) _).
  by intros [].
Defined.

Definition is_unspecified (ip : IpAddr) : bool :=
  match ip with IpV4 a => a =? 0 | IpV6 a => a =? 0 end.

Definition is_multicast (ip : IpAddr) : bool :=
  match ip with
  | IpV4 a => let o := Z.shiftr a 24 in (224 <=? o) && (o <=? 239)
  | IpV6 a => Z.shiftr a 120 =? 255
  end.

Definition is_loopback (ip : IpAddr) : bool :=
  match ip with
  | IpV4 a => Z.shiftr a 24 =? 127
  | IpV6 a => a =? 1
  end.

Definition is_broadcast (ip : IpAddr) : bool :=
  match ip with IpV4 a => a =? 2 ^ 32 - 1 | IpV6 _ => false end.

(** [SocketAddr]: an IPv6 socket address also carries flow information and a scope,
    which take part in equality. *)
Inductive SocketAddr : Type :=
  | SockV4 (addr port : Z)
  | SockV6 (addr port flowinfo scope_id : Z).

Definition SocketAddr_wf (a : SocketAddr) : Prop :=
  match a with
  | SockV4 ip p => is_u32 ip /\ is_u16 p
  | SockV6 ip p f s => is_u128 ip /\ is_u16 p /\ is_u32 f /\ is_u32 s
  end.

#[global] Instance SocketAddr_eq_dec : EqDecision SocketAddr.
Proof. solve_decision. Defined.

#[global] Instance SocketAddr_countable : Countable SocketAddr.
Proof.
  refine (inj_countable'
            (fun s => match s with
                      | SockV4 a p => inl (a, p) | SockV6 a p f c => inr (a, p, f, c) end)
            (fun s => match s with
                      | inl (a, p) => SockV4 a p | inr (a, p, f, c) => SockV6 a p f c end) _).
  by intros [].
Defined.

Definition socket_ip (a : SocketAddr) : IpAddr :=
  match a with SockV4 ip _ => IpV4 ip | SockV6 ip _ _ _ => IpV6 ip end.

Definition socket_port (a : SocketAddr) : Z :=
  match a with SockV4 _ p => p | SockV6 _ p _ _ => p end.

(** [SocketAddr::new]. *)
Definition socket_new (ip : IpAddr) (port : Z) : SocketAddr :=
  match ip with IpV4 a => SockV4 a port | IpV6 a => SockV6 a port 0 0 end.

Lemma socket_new_ip ip p : socket_ip (socket_new ip p) = ip.
Proof. by destruct ip. Qed.

Lemma socket_new_port ip p : socket_port (socket_new ip p) = p.
Proof. by destruct ip. Qed.

Definition is_ipv6 (a : SocketAddr) : bool :=
  match a with SockV4 _ _ => false | SockV6 _ _ _ _ => true end.

(** [Ipv4Addr::octets] and [Ipv6Addr::segments], by position. *)
Definition octet (a i : Z) : Z := Z.shiftr a (24 - 8 * i) mod 256.
Definition segment (a i : Z) : Z := Z.shiftr a (112 - 16 * i) mod 65536.

(** [Ipv4Addr::is_private] and [is_link_local]; [Ipv6Addr::is_unique_local] and
    [is_unicast_link_local]; [Ipv6Addr::to_ipv4_mapped]. *)
Definition v4_is_private (a : Z) : bool :=
  (octet a 0 =? 10)
  || (octet a 0 =? 172) && (16 <=? octet a 1) && (octet a 1 <=? 31)
  || (octet a 0 =? 192) && (octet a 1 =? 168).
Definition v4_is_link_local (a : Z) : bool := (octet a 0 =? 169) && (octet a 1 =? 254).
Definition v6_is_unique_local (a : Z) : bool := Z.land (segment a 0) 65024 =? 64512.
Definition v6_is_unicast_link_local (a : Z) : bool := Z.land (segment a 0) 65472 =? 65152.
Definition to_ipv4_mapped (a : Z) : option Z :=
  if Z.shiftr a 32 =? 65535 then Some (a mod 2 ^ 32) else None.

(** ** Parsing addresses ([IpAddr::from_str])

    The parser of [std::net]: a reader over the remaining bytes, where a step that
    fails consumes nothing. *)

Definition digit_value (radix : Z) (b : byte) : option Z :=
  let z := byteZ b in
  let v := if (48 <=? z) && (z <=? 57) then z - 48
           else if (97 <=? z) && (z <=? 122) then z - 87
           else if (65 <=? z) && (z <=? 90) then z - 55 else 99 in
  if v <? radix then Some v else None.

Fixpoint read_digits (radix : Z) (limit : nat) (value : Z) (count : nat) (l : bytes)
  : Z * nat * bytes :=
  match limit, l with
  | S limit, b :: l' =>
      match digit_value radix b with
      | Some d => read_digits radix limit (value * radix + d) (S count) l'
      | None => (value, count, l)
      end
  | _, _ => (value, count, l)
  end.

(** One octet: at most three decimal digits, at most 255, no superfluous zero. *)
Definition read_octet (l : bytes) : option (Z * bytes) :=
  let '(value, count, rest) := read_digits 10 3 0 0 l in
  let more := match rest with b :: _ => is_ascii_digit b | [] => false end in
  if bool_decide (count = 0%nat) || more || (255 <? value)
     || starts_with l [x30] && bool_decide (1 < count)%nat
  then None else Some (value, rest).

Definition read_byte (b : byte) (l : bytes) : option bytes :=
  match l with
  | c :: rest => if bool_decide (c = b) then Some rest else None
  | [] => None
  end.

Definition read_ipv4 (l : bytes) : option (Z * bytes) :=
  '(a, l) ← read_octet l; l ← read_byte x2e l;
  '(b, l) ← read_octet l; l ← read_byte x2e l;
  '(c, l) ← read_octet l; l ← read_byte x2e l;
  '(d, l) ← read_octet l;
  Some (a * 2 ^ 24 + b * 2 ^ 16 + c * 2 ^ 8 + d, l).

(** One group: one to four hexadecimal digits. *)
Definition read_group (l : bytes) : option (Z * bytes) :=
  let '(value, count, rest) := read_digits 16 4 0 0 l in
  let more := match rest with
              | b :: _ => match digit_value 16 b with Some _ => true | None => false end
              | [] => false end in
  if bool_decide (count = 0%nat) || more then None else Some (value, rest).

(** [read_separator(':', index, ..)]: a colon is expected except before the first. *)
Definition read_separated {A} (index : nat) (inner : bytes -> option (A * bytes)) (l : bytes)
  : option (A * bytes) :=
  match index with
  | O => inner l
  | S _ => l ← read_byte x3a l; inner l
  end.

(** [read_groups]: the groups read (at most [limit]) and whether they end in an embedded
    IPv4 address, which needs two groups of room. *)
Fixpoint read_groups (limit : nat) (index : nat) (l : bytes) : list Z * bool * bytes :=
  match limit with
  | O => ([], false, l)
  | S limit' =>
      match (match limit' with O => None | S _ => read_separated index read_ipv4 l end) with
      | Some (v4, rest) => ([v4 / 65536; v4 mod 65536], true, rest)
      | None =>
          match read_separated index read_group l with
          | Some (g, rest) =>
              let '(gs, embedded, rest) := read_groups limit' (S index) rest in
              (g :: gs, embedded, rest)
          | None => ([], false, l)
          end
      end
  end.

Definition groups_value (gs : list Z) : Z := foldl (fun acc g => acc * 65536 + g) 0 gs.

Definition read_ipv6 (l : bytes) : option (Z * bytes) :=
  let '(head, head_ipv4, l) := read_groups 8 0 l in
  if bool_decide (length head = 8%nat) then Some (groups_value head, l)
  else if (head_ipv4 : bool) then None
  else
    l ← read_byte x3a l; l ← read_byte x3a l;
    let '(tail, _, l) := read_groups (8 - (length head + 1)) 0 l in
    Some (groups_value (head ++ replicate (8 - length head - length tail) 0 ++ tail), l).

Definition parse_ip_addr (s : bytes) : option IpAddr :=
  match read_ipv4 s with
  | Some (a, []) => Some (IpV4 a)
  | Some (_, _ :: _) => None
  | None =>
      match read_ipv6 s with
      | Some (a, []) => Some (IpV6 a)
      | _ => None
      end
  end.

(** [str.chars().any(char::is_control)] on the UTF-8 bytes: C0, DEL and C1. *)
Fixpoint has_control_char (l : bytes) : bool :=
  match l with
  | [] => false
  | a :: l' =>
      (byteZ a <? 32) || (byteZ a =? 127)
      || (byteZ a =? 194) && match l' with b :: _ => byteZ b <? 160 | [] => false end
      || has_control_char l'
  end.

(** [str.trim_end_matches(c)] for an ASCII character. *)
Definition trim_end_matches (c : byte) (l : bytes) : bytes :=
  rev ((fix go (r : bytes) : bytes :=
          match r with
          | b :: r' => if bool_decide (b = c) then go r' else r
          | [] => []
          end) (rev l)).

Definition ends_with (l p : bytes) : bool := starts_with (rev l) (rev p).

(** [str.chars().any(char::is_whitespace)] on the UTF-8 bytes: the characters with the
    Unicode property [White_Space]. *)
Fixpoint has_whitespace (l : bytes) : bool :=
  match l with
  | [] => false
  | a :: l' =>
      byte_in 9 13 a || (byteZ a =? 32)
      || match l' with
         | b :: c :: _ =>
             ((byteZ a =? 225) && (byteZ b =? 154) && (byteZ c =? 128))
             || ((byteZ a =? 226) && (byteZ b =? 128)
                 && (byte_in 128 138 c || byte_in 168 169 c || (byteZ c =? 175)))
             || ((byteZ a =? 226) && (byteZ b =? 129) && (byteZ c =? 159))
             || ((byteZ a =? 227) && (byteZ b =? 128) && (byteZ c =? 128))
         | _ => false
         end
      || match l' with
         | b :: _ => (byteZ a =? 194) && ((byteZ b =? 133) || (byteZ b =? 160))
         | [] => false
         end
      || has_whitespace l'
  end.
