(* ===== verification/Endpoints.v ===== *)
(** * Endpoint addresses and bootstrap endpoints (crates/ipars-types/src/lib.rs)

    Which socket addresses are usable, globally routable or on one private subnet, and
    the validation of the bootstrap endpoint list that join tokens and neighbor maps
    carry. URL parsing is the [url] crate's: the operations of [UrlOps] stand for it. *)

From S2P Require Import Prelude RustStd.

(** ** The [url] crate *)

Inductive UrlHost : Type :=
  | HostDomain (domain : bytes)
  | HostIpv4 (addr : Z)
  | HostIpv6 (addr : Z).

(** [url::Url] and the accessors the sources use. *)
Class UrlOps : Type := {
  Url : Type;
  url_parse : bytes -> option Url;
  url_scheme : Url -> bytes;
  url_username : Url -> bytes;
  url_password : Url -> option bytes;
  url_query : Url -> option bytes;
  url_fragment : Url -> option bytes;
  url_path : Url -> bytes;
  url_host : Url -> option UrlHost;
  url_port : Url -> option Z;
  url_port_or_known_default : Url -> option Z;
  url_as_str : Url -> bytes
}.

Module Endpoints.

(** ** Addresses *)

Definition endpoint_addr_is_usable (addr : SocketAddr) : bool :=
  if (socket_port addr =? 0) || is_unspecified (socket_ip addr)
     || is_multicast (socket_ip addr)
  then false
  else match socket_ip addr with
       | IpV4 a => negb (is_broadcast (IpV4 a))
       | IpV6 _ => true
       end.

Definition ipv4_addr_is_globally_routable (ip : Z) : bool :=
  let first := octet ip 0 in
  let second := octet ip 1 in
  let third := octet ip 2 in
  negb ((first =? 0)
        || (first =? 10)
        || (first =? 100) && (64 <=? second) && (second <=? 127)
        || (first =? 127)
        || (first =? 169) && (second =? 254)
        || (first =? 172) && (16 <=? second) && (second <=? 31)
        || (first =? 192) && (second =? 0) && (third =? 0)
        || (first =? 192) && (second =? 0) && (third =? 2)
        || (first =? 192) && (second =? 88) && (third =? 99)
        || (first =? 192) && (second =? 168)
        || (first =? 198) && (18 <=? second) && (second <=? 19)
        || (first =? 198) && (second =? 51) && (third =? 100)
        || (first =? 203) && (second =? 0) && (third =? 113)
        || (224 <=? first) && (first <=? 255)).

Definition ipv6_addr_is_globally_routable (ip : Z) : bool :=
  match to_ipv4_mapped ip with
  | Some mapped => ipv4_addr_is_globally_routable mapped
  | None =>
      let s0 := segment ip 0 in
      let s1 := segment ip 1 in
      if negb (Z.land s0 57344 =? 8192) then false
      else if (s0 =? 8193) && (s1 <? 512) then false
      else if (s0 =? 8193) && (s1 =? 3512) then false
      else if s0 =? 8194 then false
      else if (s0 =? 16383) && (Z.land s1 61440 =? 0) then false
      else true
  end.

Definition ip_addr_is_globally_routable (ip : IpAddr) : bool :=
  match ip with
  | IpV4 ip => ipv4_addr_is_globally_routable ip
  | IpV6 ip => ipv6_addr_is_globally_routable ip
  end.

Definition socket_addr_is_globally_routable (addr : SocketAddr) : bool :=
  negb (socket_port addr =? 0) && ip_addr_is_globally_routable (socket_ip addr).

Definition private_ip_addrs_share_subnet (l r : IpAddr) : bool :=
  match l, r with
  | IpV4 l, IpV4 r =>
      (v4_is_private l || v4_is_link_local l)
      && (v4_is_private r || v4_is_link_local r)
      && (Z.land l 4294967040 =? Z.land r 4294967040)
  | IpV6 l, IpV6 r =>
      (v6_is_unique_local l || v6_is_unicast_link_local l)
      && (v6_is_unique_local r || v6_is_unicast_link_local r)
      && (Z.shiftr l 64 =? Z.shiftr r 64)
  | _, _ => false
  end.

Inductive EndpointCandidateKind : Type := PublicUdp | Ipv6 | StunReflexive | LocalUdp | RelayCandidate.
Inductive CandidateSource : Type := InterfaceScan | StunProbe | ControlPlaneSource | RelayMap.

#[global] Instance EndpointCandidateKind_eq_dec : EqDecision EndpointCandidateKind.
Proof. solve_decision. Defined.
#[global] Instance CandidateSource_eq_dec : EqDecision CandidateSource.
Proof. solve_decision. Defined.

Record EndpointCandidate : Type := {
  candidate_node_id : NodeId;
  candidate_kind : EndpointCandidateKind;
  candidate_addr : SocketAddr;
  observed_at : Z;
  priority : Z;
  cost : Z;
  candidate_source : CandidateSource
}.

#[global] Instance EndpointCandidate_eq_dec : EqDecision EndpointCandidate.
Proof. solve_decision. Defined.

Inductive KindAddressError : Type := PublicUdpNotRoutable | Ipv6NotIpv6.

Definition validate_kind_address (c : EndpointCandidate) : result unit KindAddressError :=
  match candidate_kind c with
  | PublicUdp =>
      if negb (socket_addr_is_globally_routable (candidate_addr c))
      then Err PublicUdpNotRoutable else Ok tt
  | Ipv6 => if negb (is_ipv6 (candidate_addr c)) then Err Ipv6NotIpv6 else Ok tt
  | _ => Ok tt
  end.

(** ** Bootstrap endpoints *)

Definition MAX_JOIN_TOKEN_BOOTSTRAP_ENDPOINTS : Z := 40.
Definition MAX_JOIN_TOKEN_BOOTSTRAP_ENDPOINTS_PER_KIND : Z := 8.
Definition MAX_JOIN_TOKEN_BOOTSTRAP_URL_BYTES : Z := 2048.

Inductive BootstrapEndpointKind : Type := ControlPlane | Signal | Stun | Relay | WebUi.

#[global] Instance BootstrapEndpointKind_eq_dec : EqDecision BootstrapEndpointKind.
Proof. solve_decision. Defined.

#[global, refine] Instance BootstrapEndpointKind_countable : Countable BootstrapEndpointKind :=
  inj_countable
    (fun k => match k with ControlPlane => 0 | Signal => 1 | Stun => 2 | Relay => 3 | WebUi => 4 end)
    (fun z => match z with
              | 0 => Some ControlPlane | 1 => Some Signal | 2 => Some Stun | 3 => Some Relay
              | 4 => Some WebUi | _ => None end) _.
Proof. by intros []. Defined.

Record BootstrapEndpoint : Type := { url : bytes; kind : BootstrapEndpointKind }.

#[global] Instance BootstrapEndpoint_eq_dec : EqDecision BootstrapEndpoint.
Proof. solve_decision. Defined.

(** The messages of [JoinTokenBootstrapValidationError], without their rendering. *)
Inductive JoinTokenBootstrapValidationError : Type :=
  | TooManyEndpoints (count : Z)
  | TooManyOfKind (k : BootstrapEndpointKind) (count : Z)
  | UrlEmpty (index : Z)
  | UrlTooLong (index : Z)
  | UrlControlCharacters (index : Z)
  | UrlNotAbsolute (index : Z)
  | UrlHasExtraComponents (index : Z)
  | UrlKindMismatch (index : Z) (k : BootstrapEndpointKind)
  | UrlDuplicate (index : Z) (k : BootstrapEndpointKind).

Definition bootstrap_endpoints_include_core_services (endpoints : list BootstrapEndpoint) : bool :=
  forallb (fun k => existsb (fun endpoint => bool_decide (kind endpoint = k)) endpoints)
    [ControlPlane; Signal; Stun].

Section Bootstrap.
Context `{UrlOps}.

Definition canonical_bootstrap_endpoint_url (u : bytes) : option bytes :=
  match url_parse u with
  | Some parsed => Some (trim_end_matches x2f (url_as_str parsed))
  | None => None
  end.

Definition http_url_is_usable_endpoint (value : bytes) : bool :=
  match url_parse value with
  | None => false
  | Some u =>
      if negb (bool_decide (url_scheme u = bstr "http") || bool_decide (url_scheme u = bstr "https"))
      then false else
      match url_host u with
      | None => false
      | Some host =>
          match url_port_or_known_default u with
          | None => false
          | Some port =>
              if port =? 0 then false else
              match host with
              | HostDomain _ => true
              | HostIpv4 ip => endpoint_addr_is_usable (socket_new (IpV4 ip) port)
              | HostIpv6 ip => endpoint_addr_is_usable (socket_new (IpV6 ip) port)
              end
          end
      end
  end.

Definition relay_admission_url_is_usable (value : bytes) : bool :=
  http_url_is_usable_endpoint value.

Definition path_is_root (p : bytes) : bool := bool_decide (p = []) || bool_decide (p = [x2f]).

Definition udp_bootstrap_url_is_usable (u : Url) : bool :=
  if bool_decide (url_scheme u <> bstr "udp") || bool_decide (url_port u = None)
     || negb (path_is_root (url_path u))
  then false else
  match url_host u with
  | None => false
  | Some host =>
      match url_port u with
      | None => false
      | Some port =>
          match host with
          | HostDomain domain =>
              match parse_ip_addr domain with
              | Some ip => endpoint_addr_is_usable (socket_new ip port)
              | None => negb (bool_decide (domain = []))
              end
          | HostIpv4 ip => endpoint_addr_is_usable (socket_new (IpV4 ip) port)
          | HostIpv6 ip => endpoint_addr_is_usable (socket_new (IpV6 ip) port)
          end
      end
  end.

(** A URL without credentials, query, fragment or path, on its literal address. *)
Definition literal_socket_addr (u : Url) (port : option Z) : option SocketAddr :=
  if negb (bool_decide (url_username u = [])) || bool_decide (is_Some (url_password u))
     || bool_decide (is_Some (url_query u)) || bool_decide (is_Some (url_fragment u))
     || negb (path_is_root (url_path u))
  then None else
  port ← port;
  host ← url_host u;
  ip ← match host with
       | HostDomain domain => parse_ip_addr domain
       | HostIpv4 ip => Some (IpV4 ip)
       | HostIpv6 ip => Some (IpV6 ip)
       end;
  let addr := socket_new ip port in
  if endpoint_addr_is_usable addr then Some addr else None.

Definition literal_udp_bootstrap_socket_addr (value : bytes) : option SocketAddr :=
  parsed ← url_parse value;
  if bool_decide (url_scheme parsed <> bstr "udp") then None
  else literal_socket_addr parsed (url_port parsed).

Definition literal_http_bootstrap_socket_addr (value : bytes) : option SocketAddr :=
  parsed ← url_parse value;
  if negb (bool_decide (url_scheme parsed = bstr "http") || bool_decide (url_scheme parsed = bstr "https"))
  then None
  else literal_socket_addr parsed (url_port_or_known_default parsed).

Fixpoint validate_bootstrap_loop (index : Z) (counts : gmap BootstrapEndpointKind Z)
    (seen : gset (BootstrapEndpointKind * bytes)) (endpoints : list BootstrapEndpoint)
  : result unit JoinTokenBootstrapValidationError :=
  match endpoints with
  | [] => Ok tt
  | endpoint :: rest =>
      let count := default 0 (counts !! kind endpoint) + 1 in
      let counts := <[kind endpoint := count]> counts in
      if MAX_JOIN_TOKEN_BOOTSTRAP_ENDPOINTS_PER_KIND <? count
      then Err (TooManyOfKind (kind endpoint) count)
      else if bool_decide (url endpoint = []) then Err (UrlEmpty index)
      else if MAX_JOIN_TOKEN_BOOTSTRAP_URL_BYTES <? lenZ (url endpoint) then Err (UrlTooLong index)
      else if has_control_char (url endpoint) then Err (UrlControlCharacters index) else
      let? parsed := ok_or (url_parse (url endpoint)) (UrlNotAbsolute index) in
      if negb (bool_decide (url_username parsed = [])) || bool_decide (is_Some (url_password parsed))
         || bool_decide (is_Some (url_query parsed)) || bool_decide (is_Some (url_fragment parsed))
      then Err (UrlHasExtraComponents index) else
      let valid := match kind endpoint with
                   | ControlPlane | Signal | WebUi => http_url_is_usable_endpoint (url endpoint)
                   | Stun | Relay => udp_bootstrap_url_is_usable parsed
                   end in
      if negb valid then Err (UrlKindMismatch index (kind endpoint)) else
      let? normalized :=
        ok_or (canonical_bootstrap_endpoint_url (url endpoint)) (UrlNotAbsolute index) in
      if bool_decide ((kind endpoint, normalized) ∈ seen)
      then Err (UrlDuplicate index (kind endpoint))
      else validate_bootstrap_loop (index + 1) counts
             ({[ (kind endpoint, normalized) ]} ∪ seen) rest
  end.

Definition validate_join_token_bootstrap_endpoints (endpoints : list BootstrapEndpoint)
  : result unit JoinTokenBootstrapValidationError :=
  if MAX_JOIN_TOKEN_BOOTSTRAP_ENDPOINTS <? lenZ endpoints
  then Err (TooManyEndpoints (lenZ endpoints))
  else validate_bootstrap_loop 0 ∅ ∅ endpoints.

(** ** What a validated list guarantees *)

(** One endpoint, by itself. *)
Definition endpoint_wf (e : BootstrapEndpoint) : Prop :=
  1 <= lenZ (url e) <= 2048 /\ has_control_char (url e) = false /\
  exists parsed, url_parse (url e) = Some parsed /\
    url_username parsed = [] /\ url_password parsed = None /\
    url_query parsed = None /\ url_fragment parsed = None /\
    match kind e with
    | ControlPlane | Signal | WebUi => http_url_is_usable_endpoint (url e) = true
    | Stun | Relay => udp_bootstrap_url_is_usable parsed = true
    end.

(** The identity under which duplicates are detected. *)
Definition endpoint_key (e : BootstrapEndpoint) : BootstrapEndpointKind * bytes :=
  (kind e, default [] (canonical_bootstrap_endpoint_url (url e))).

Definition count_kind (k : BootstrapEndpointKind) (es : list BootstrapEndpoint) : Z :=
  lenZ (filter (fun e => kind e = k) es).

Lemma count_kind_cons k e es :
  count_kind k (e :: es) = (if decide (kind e = k) then 1 else 0) + count_kind k es.
Proof. unfold count_kind. rewrite filter_cons. case_decide; simpl; lia. Qed.

Lemma count_kind_nonneg k es : 0 <= count_kind k es.
Proof. unfold count_kind. lia. Qed.

Lemma is_Some_bool {A} (o : option A) : bool_decide (is_Some o) = false <-> o = None.
Proof. rewrite bool_decide_eq_false, <- eq_None_not_Some. done. Qed.

Lemma validate_bootstrap_loop_cons index counts seen e es u :
  validate_bootstrap_loop index counts seen (e :: es) = Ok u <->
  default 0 (counts !! kind e) + 1 <= 8 /\ endpoint_wf e /\ endpoint_key e ∉ seen /\
  validate_bootstrap_loop (index + 1) (<[kind e := (default 0 (counts !! kind e) + 1)]> counts)
    ({[ endpoint_key e ]} ∪ seen) es = Ok u.
Proof.
  cbn [validate_bootstrap_loop]. unfold endpoint_wf, endpoint_key, canonical_bootstrap_endpoint_url.
  unfold MAX_JOIN_TOKEN_BOOTSTRAP_ENDPOINTS_PER_KIND, MAX_JOIN_TOKEN_BOOTSTRAP_URL_BYTES.
  rewrite !guard_ok.
  destruct (url_parse (url e)) as [parsed|]; simpl; [|split; [naive_solver|]].
  2:{ intros (_ & (_ & _ & ? & ? & _) & _). done. }
  rewrite !guard_ok.
  autorewrite with reflect. rewrite <- !eq_None_not_Some, <- lenZ_pos.
  destruct (kind e); naive_solver lia.
Qed.

Lemma validate_bootstrap_loop_ok index counts seen es u :
  validate_bootstrap_loop index counts seen es = Ok u <->
  (forall k, 0 < count_kind k es -> default 0 (counts !! k) + count_kind k es <= 8) /\
  Forall endpoint_wf es /\ NoDup (map endpoint_key es) /\
  Forall (fun e => endpoint_key e ∉ seen) es.
Proof.
  revert index counts seen. induction es as [|e es IH]; intros index counts seen.
  { simpl. destruct u. split; [|done]. intros _. split_and!; try constructor.
    intros k. unfold count_kind. simpl. lia. }
  rewrite validate_bootstrap_loop_cons, IH, !Forall_cons. cbn [map]. rewrite NoDup_cons.
  assert ((forall k, 0 < count_kind k (e :: es) ->
             default 0 (counts !! k) + count_kind k (e :: es) <= 8) <->
          default 0 (counts !! kind e) + 1 <= 8 /\
          (forall k, 0 < count_kind k es ->
             default 0 (<[kind e := (default 0 (counts !! kind e) + 1)]> counts !! k)
             + count_kind k es <= 8)) as ->.
  { split.
    - intros Hk. split.
      + specialize (Hk (kind e)). rewrite count_kind_cons, decide_True in Hk by done.
        pose proof (count_kind_nonneg (kind e) es). lia.
      + intros k Hpos. specialize (Hk k). rewrite count_kind_cons in Hk.
        case_decide; [subst k; rewrite lookup_insert_eq|rewrite lookup_insert_ne by done]; simpl; lia.
    - intros [H1 Hk] k. specialize (Hk k). rewrite count_kind_cons.
      pose proof (count_kind_nonneg k es).
      case_decide; [subst k; rewrite lookup_insert_eq in Hk|rewrite lookup_insert_ne in Hk by done];
        simpl in *; lia. }
  rewrite Forall_fresh. tauto.
Qed.

(** [validate_join_token_bootstrap_endpoints] accepts exactly the lists of at most 40
    endpoints, at most 8 of each kind, each of them an absolute URL without credentials,
    query or fragment that fits its service kind, no two of one kind with the same
    canonical URL. *)
Theorem bootstrap_endpoints_valid_iff es :
  validate_join_token_bootstrap_endpoints es = Ok tt <->
  lenZ es <= 40 /\ (forall k, count_kind k es <= 8) /\
  Forall endpoint_wf es /\ NoDup (map endpoint_key es).
Proof.
  unfold validate_join_token_bootstrap_endpoints, MAX_JOIN_TOKEN_BOOTSTRAP_ENDPOINTS.
  rewrite guard_ok, validate_bootstrap_loop_ok, Z.ltb_ge.
  assert ((forall k, 0 < count_kind k es ->
            default 0 ((∅ : gmap BootstrapEndpointKind Z) !! k) + count_kind k es <= 8)
          <-> (forall k, count_kind k es <= 8)) as ->.
  { split; intros Hk k; specialize (Hk k); rewrite ?lookup_empty in *; simpl in *; lia. }
  pose proof (Forall_fresh_empty endpoint_key es). tauto.
Qed.

End Bootstrap.

(** ** Classes of addresses *)

Lemma octet_bound a i : 0 <= octet a i < 256.
Proof. unfold octet. by apply Z.mod_pos_bound. Qed.
Lemma segment_bound a i : 0 <= segment a i < 65536.
Proof. unfold segment. by apply Z.mod_pos_bound. Qed.

Lemma octet_0 a : is_u32 a -> octet a 0 = Z.shiftr a 24.
Proof.
  intros [? ?]. unfold octet. change (24 - 8 * 0) with 24.
  rewrite Z.shiftr_div_pow2 by lia. apply Z.mod_small. dlia.
Qed.

Lemma segment_0 a : is_u128 a -> segment a 0 = Z.shiftr a 112.
Proof.
  intros [? ?]. unfold segment. change (112 - 16 * 0) with 112.
  rewrite Z.shiftr_div_pow2 by lia. apply Z.mod_small. dlia.
Qed.

Lemma v4_routable_first_octet a :
  ipv4_addr_is_globally_routable a = true -> octet a 0 <> 0 /\ octet a 0 < 224.
Proof.
  unfold ipv4_addr_is_globally_routable. cbv zeta. rewrite negb_true_iff, !orb_false_iff.
  intros H. destruct_and! H. pose proof (octet_bound a 0). split; [by apply Z.eqb_neq|].
  match goal with
  | H : (224 <=? _) && _ = false, Hb : 0 <= octet a 0 < 256 |- _ =>
      clear -H Hb; apply andb_false_iff in H; lia
  end.
Qed.

Lemma v4_routable_usable a p :
  is_u32 a -> ipv4_addr_is_globally_routable a = true -> p <> 0 ->
  endpoint_addr_is_usable (SockV4 a p) = true.
Proof.
  intros Ha Hr%v4_routable_first_octet Hp. rewrite octet_0 in Hr by done.
  unfold endpoint_addr_is_usable, is_unspecified, is_multicast, is_broadcast.
  cbn [socket_port socket_ip]. rewrite Z.shiftr_div_pow2 in * by lia. unfold in_width in Ha.
  destruct (p =? 0) eqn:?; [lia|]. destruct (a =? 0) eqn:?; [dlia|]. cbn [orb].
  destruct (_ && _) eqn:?; [lia|]. destruct (a =? 2 ^ 32 - 1) eqn:?; [dlia|done].
Qed.

(** A first segment that [2000::/3] accepts, and one of the private ranges. *)
Lemma v6_global_unicast s : Z.land s 57344 = 8192 <-> (s / 8192) mod 8 = 1.
Proof.
  change 57344 with (Z.shiftl (Z.ones 3) 13). rewrite land_shifted_ones by lia. dlia.
Qed.
Lemma v6_unique_local_segment a :
  v6_is_unique_local a = true <-> (segment a 0 / 512) mod 128 = 126.
Proof.
  unfold v6_is_unique_local. change 65024 with (Z.shiftl (Z.ones 7) 9).
  rewrite land_shifted_ones, Z.eqb_eq by lia. dlia.
Qed.
Lemma v6_link_local_segment a :
  v6_is_unicast_link_local a = true <-> (segment a 0 / 64) mod 1024 = 1018.
Proof.
  unfold v6_is_unicast_link_local. change 65472 with (Z.shiftl (Z.ones 10) 6).
  rewrite land_shifted_ones, Z.eqb_eq by lia. dlia.
Qed.

Lemma v6_routable_segment a :
  to_ipv4_mapped a = None -> ipv6_addr_is_globally_routable a = true ->
  (segment a 0 / 8192) mod 8 = 1.
Proof.
  unfold ipv6_addr_is_globally_routable. intros ->. cbv zeta.
  destruct (_ =? 8192) eqn:E; [|done]. intros _. by apply v6_global_unicast, Z.eqb_eq.
Qed.

Lemma mapped_segment a v : is_u128 a -> to_ipv4_mapped a = Some v -> segment a 0 = 0.
Proof.
  intros Ha. unfold to_ipv4_mapped. destruct (_ =? _) eqn:E; [|done]. intros _.
  rewrite segment_0 by done. rewrite Z.shiftr_div_pow2 in * by lia. bool_to_prop. dlia.
Qed.

(** Every globally routable socket address is a usable endpoint: routability is the
    stricter class, as its documentation says. *)
Theorem routable_is_usable addr :
  SocketAddr_wf addr -> socket_addr_is_globally_routable addr = true ->
  endpoint_addr_is_usable addr = true.
Proof.
  unfold socket_addr_is_globally_routable. intros Hwf [Hp%negb_true_iff%Z.eqb_neq Hr]%andb_true_iff.
  destruct addr as [a p|a p f s]; simpl in *; [destruct Hwf; by apply v4_routable_usable|].
  destruct Hwf as [Ha _].
  assert (a <> 0 /\ segment a 0 < 65280) as [Hz Hm].
  { pose proof (segment_bound a 0). destruct (to_ipv4_mapped a) as [v|] eqn:E.
    - rewrite (mapped_segment a v Ha E) in *. split; [intros ->; discriminate E|lia].
    - apply v6_routable_segment in Hr; [|done]. split; [intros ->; discriminate Hr|dlia]. }
  rewrite segment_0, Z.shiftr_div_pow2 in Hm by (done || lia).
  unfold endpoint_addr_is_usable. cbn [socket_port socket_ip is_unspecified is_multicast].
  rewrite Z.shiftr_div_pow2 by lia. unfold in_width in Ha.
  destruct (p =? 0) eqn:?; [lia|]. destruct (a =? 0) eqn:?; [lia|].
  destruct (_ =? 255) eqn:?; [dlia|done].
Qed.

(** Two addresses are taken for one private subnet only if neither is globally
    routable and they agree on the /24 (IPv4) or /64 (IPv6) prefix; the relation is
    symmetric. *)
Theorem share_subnet_is_private l r :
  IpAddr_wf l -> IpAddr_wf r -> private_ip_addrs_share_subnet l r = true ->
  ip_addr_is_globally_routable l = false /\ ip_addr_is_globally_routable r = false /\
  private_ip_addrs_share_subnet r l = true /\
  match l, r with
  | IpV4 a, IpV4 b => a / 2 ^ 8 = b / 2 ^ 8
  | IpV6 a, IpV6 b => a / 2 ^ 64 = b / 2 ^ 64
  | _, _ => False
  end.
Proof.
  assert (forall a, v4_is_private a || v4_is_link_local a = true ->
            ipv4_addr_is_globally_routable a = false) as H4.
  { intros a. unfold v4_is_private, v4_is_link_local, ipv4_addr_is_globally_routable. cbv zeta.
    rewrite negb_false_iff, !orb_true_iff. tauto. }
  assert (forall a, is_u128 a -> v6_is_unique_local a || v6_is_unicast_link_local a = true ->
            ipv6_addr_is_globally_routable a = false) as H6.
  { intros a Ha Hp. destruct (ipv6_addr_is_globally_routable a) eqn:Hr; [|done]. exfalso.
    rewrite orb_true_iff, v6_unique_local_segment, v6_link_local_segment in Hp.
    destruct (to_ipv4_mapped a) as [v|] eqn:E.
    - rewrite (mapped_segment a v Ha E) in Hp. by destruct Hp.
    - apply v6_routable_segment in Hr; [|done]. pose proof (segment_bound a 0). dlia. }
  intros Hl Hr H. destruct l as [a|a], r as [b|b]; try discriminate H;
    cbn [IpAddr_wf ip_addr_is_globally_routable private_ip_addrs_share_subnet] in *.
  - destruct (v4_is_private a || _) eqn:Ha, (v4_is_private b || _) eqn:Hb; try discriminate H;
      cbn [andb] in *.
    rewrite !H4 by done. rewrite Z.eqb_sym. apply Z.eqb_eq in H as H'.
    change 4294967040 with (Z.shiftl (Z.ones 24) 8) in H'.
    rewrite !land_shifted_ones in H' by lia. split_and!; try done. unfold in_width in *. dlia.
  - destruct (v6_is_unique_local a || _) eqn:Ha, (v6_is_unique_local b || _) eqn:Hb;
      try discriminate H; cbn [andb] in *. rewrite !H6 by done. rewrite Z.eqb_sym. apply Z.eqb_eq in H as H'.
    rewrite !Z.shiftr_div_pow2 in H' by lia. done.
Qed.

End Endpoints.
