(* ===== verification/OverlayTypes.v ===== *)
(** * Overlay maps and paths (crates/ipars-types/src/lib.rs)

    Node records, neighbor maps and overlay paths with their validators. CIDR arithmetic
    is the [ipnet] crate's: the operations of [IpNetOps] stand for it. *)

From S2P Require Import Prelude RustStd Endpoints.
From Stdlib Require Import Sorting.Sorted.

(** ** The [ipnet] crate *)

(** [ipnet::IpNet] and the operations the sources use. *)
Class IpNetOps : Type := {
  IpNet : Type;
  ipnet_eq_dec :: EqDecision IpNet;
  ipnet_countable :: Countable IpNet;
  ipnet_is_v4 : IpNet -> bool;
  ipnet_addr : IpNet -> IpAddr;
  ipnet_network : IpNet -> IpAddr;
  ipnet_prefix_len : IpNet -> Z;
  ipnet_trunc : IpNet -> IpNet;
  ipnet_contains : IpNet -> IpAddr -> bool
}.

Module Overlay.

Definition MAX_NODE_HOSTNAME_BYTES : Z := 253.
Definition MAX_JOIN_TOKEN_IDENTIFIER_BYTES : Z := 255.
Definition MAX_OVERLAY_DEGREE : Z := 64.
Definition MAX_OVERLAY_NEIGHBORS : Z := MAX_OVERLAY_DEGREE.
Definition MAX_OVERLAY_PINNED_PEERS : Z := MAX_OVERLAY_DEGREE.
Definition MAX_OVERLAY_ROUTE_SCOPES : Z := 64.
Definition MAX_AGGREGATE_OVERLAY_ROUTES : Z := MAX_OVERLAY_ROUTE_SCOPES.
Definition MAX_OVERLAY_CLIENT_ROUTE_PEERS : Z := 4096.
Definition MAX_OVERLAY_PATH_NODES : Z := 514.
Definition MAX_OVERLAY_NODE_ENDPOINT_CANDIDATES : Z := 64.
Definition MAX_OVERLAY_NODE_ROUTES : Z := 256.

Definition role_is_client (role : bytes) : bool := bool_decide (role = bstr "client").

(** The character class of overlay identifiers: alphanumerics, ['_'], ['.'] and ['-']. *)
Definition identifier_byte (b : byte) : bool :=
  is_ascii_alphanumeric b
  || bool_decide (b = x5f) || bool_decide (b = x2e) || bool_decide (b = x2d).

(** [str.contains("..")] *)
Fixpoint contains_double_dot (l : bytes) : bool :=
  match l with
  | x2e :: (x2e :: _) => true
  | _ :: l => contains_double_dot l
  | [] => false
  end.

Definition node_hostname_is_valid (value : bytes) : bool :=
  negb (bool_decide (value = []))
  && (lenZ value <=? MAX_NODE_HOSTNAME_BYTES)
  && negb (starts_with value [x2e])
  && negb (ends_with value [x2e])
  && negb (contains_double_dot value)
  && forallb identifier_byte value.

Definition node_display_name_is_valid (value : bytes) : bool := node_hostname_is_valid value.

(** The messages of [OverlayValidationError], without their rendering. *)
Inductive OverlayReason : Type :=
  | IdentifierEmpty
  | IdentifierTooLong
  | IdentifierCharacters
  | EndpointCandidateCount (count : Z)
  | RouteCount (count : Z)
  | RouteNotCanonical
  | MaxDegreeRange
  | OnDemandPeerLimit
  | VpnCidrNotCanonical
  | NeighborCount (count : Z)
  | PinnedPeerCount (count : Z)
  | AggregateRouteCount (count : Z)
  | ClientRoutePeerCount (count : Z)
  | BootstrapInvalid (e : Endpoints.JoinTokenBootstrapValidationError)
  | ItemInvalid (index : Z) (reason : OverlayReason)
  | WrongCluster (node : NodeId)
  | OwnNeighbor
  | DuplicateNode (node : NodeId)
  | DuplicateVpnAddress (ip : IpAddr)
  | OutsideVpnCidr (node : NodeId)
  | NeighborAdvertisesRoutes (node : NodeId)
  | NonClientProjection (node : NodeId)
  | DefaultRoute
  | OverlapsVpnCidr
  | DuplicateRoute
  | OverlapsRoute
  | DestinationUnusable
  | TargetIsSource
  | WrongTermination
  | DestinationNotOwned
  | SecondaryEqualsPrimary
  | SecondaryTermination
  | PathEmpty
  | PathTooLong (count : Z)
  | PathWrongStart
  | PathRepeats (node : NodeId) (index : Z).

Record OverlayValidationError : Type := { field : bytes; reason : OverlayReason }.

Definition error (f : bytes) (r : OverlayReason) : OverlayValidationError :=
  {| field := f; reason := r |}.

Inductive OverlayNeighborKind : Type := BackbonePrimary | BackboneSecondary | DirectShortcut.

Section Records.
Context `{IpNetOps}.

Record Route : Type := {
  route_id : bytes;
  cidr : IpNet;
  advertised_by : NodeId;
  via : option NodeId;
  metric : Z;
  route_tags : list bytes
}.

Record RelayCapability : Type := {
  enabled_by_policy : bool;
  public_endpoint : option SocketAddr;
  admission_url : option bytes;
  max_sessions : Z;
  active_sessions : Z;
  max_mbps : Z;
  e2e_only : bool
}.

Record TokenPolicy : Type := {
  allow_join : bool;
  allow_relay : bool;
  allowed_routes : list IpNet;
  allowed_tags : list bytes;
  max_token_uses : option Z
}.

Record NodeRecord : Type := {
  node_id : NodeId;
  display_name : option bytes;
  hostname : option bytes;
  cluster_id : bytes;
  vpn_ip : IpAddr;
  identity_public_key : bytes;
  wireguard_public_key : bytes;
  role : bytes;
  tags : list bytes;
  endpoint_candidates : list Endpoints.EndpointCandidate;
  relay_capability : option RelayCapability;
  token_policy : TokenPolicy;
  routes : list Route;
  registered_at : Z
}.

Definition is_http_only (n : NodeRecord) : bool :=
  existsb (fun tag => bool_decide (tag = bstr "heteronetwork-http-only")) (tags n).

Definition is_administratively_stopped (n : NodeRecord) : bool :=
  existsb (fun tag => bool_decide (tag = bstr "heteronetwork-stopped")) (tags n).

Record OverlayNeighbor : Type := { neighbor_node : NodeRecord; neighbor_kind : OverlayNeighborKind }.

Record NeighborMap : Type := {
  map_cluster_id : bytes;
  map_node_id : NodeId;
  topology_epoch : Z;
  routing_epoch : Z;
  max_degree : Z;
  on_demand_peer_limit : Z;
  vpn_cidr : IpNet;
  neighbors : list OverlayNeighbor;
  pinned_peers : list NodeRecord;
  aggregate_routes : list IpNet;
  client_route_peers : list NodeRecord;
  bootstrap_endpoints : list Endpoints.BootstrapEndpoint;
  map_generated_at : Z
}.

Record OverlayPath : Type := {
  path_topology_epoch : Z;
  path_routing_epoch : Z;
  path_source : NodeId;
  destination : IpAddr;
  target : NodeRecord;
  ordered_nodes : list NodeId;
  secondary_ordered_nodes : option (list NodeId);
  path_generated_at : Z
}.

(** ** Identifiers, records and routes *)

Definition validate_overlay_identifier (value : bytes) (f : bytes)
  : result unit OverlayValidationError :=
  if bool_decide (value = []) then Err (error f IdentifierEmpty)
  else if MAX_JOIN_TOKEN_IDENTIFIER_BYTES <? lenZ value then Err (error f IdentifierTooLong)
  else if negb (forallb identifier_byte value) then Err (error f IdentifierCharacters)
  else Ok tt.

Definition validate_overlay_node_record (node : NodeRecord) (f : bytes)
  : result unit OverlayValidationError :=
  let? _ := validate_overlay_identifier (node_id node) f in
  let? _ := validate_overlay_identifier (cluster_id node) f in
  if MAX_OVERLAY_NODE_ENDPOINT_CANDIDATES <? lenZ (endpoint_candidates node)
  then Err (error f (EndpointCandidateCount (lenZ (endpoint_candidates node))))
  else if MAX_OVERLAY_NODE_ROUTES <? lenZ (routes node)
  then Err (error f (RouteCount (lenZ (routes node))))
  else Ok tt.

Definition validate_aggregate_route (r : IpNet) : result unit OverlayValidationError :=
  let canonical := ipnet_trunc r in
  if bool_decide (r <> canonical) then Err (error (bstr "aggregate_routes") RouteNotCanonical)
  else Ok tt.

Definition aggregate_overlay_route_cidrs_overlap (l r : IpNet) : bool :=
  if eqb (ipnet_is_v4 l) (ipnet_is_v4 r)
  then ipnet_contains l (ipnet_network r) || ipnet_contains r (ipnet_network l)
  else false.

Definition overlay_route_is_host (c : IpNet) : bool :=
  if ipnet_is_v4 c then ipnet_prefix_len c =? 32 else ipnet_prefix_len c =? 128.

Definition validate_overlay_destination (d : IpAddr) : result unit OverlayValidationError :=
  let usable := match d with
                | IpV4 _ => negb (is_unspecified d) && negb (is_multicast d) && negb (is_broadcast d)
                | IpV6 _ => negb (is_unspecified d) && negb (is_multicast d)
                end in
  if negb usable then Err (error (bstr "destination") DestinationUnusable) else Ok tt.

(** [.map_err] of the list loops: the field of the list and the index in the message. *)
Definition at_index {A} (f : bytes) (index : Z) (r : result A OverlayValidationError)
  : result A OverlayValidationError :=
  map_err (fun e => error f (ItemInvalid index (reason e))) r.

(** ** The neighbor map *)

Definition f_neighbors : bytes := bstr "neighbors".
Definition f_pinned : bytes := bstr "pinned_peers".
Definition f_clients : bytes := bstr "client_route_peers".
Definition f_aggregate : bytes := bstr "aggregate_routes".

Fixpoint validate_neighbors (m : NeighborMap) (index : Z)
    (kinds : gmap NodeId OverlayNeighborKind) (ips : gset IpAddr) (l : list OverlayNeighbor)
  : result (gmap NodeId OverlayNeighborKind) OverlayValidationError :=
  match l with
  | [] => Ok kinds
  | neighbor :: rest =>
      let node := neighbor_node neighbor in
      let? _ := at_index f_neighbors index (validate_overlay_node_record node f_neighbors) in
      if bool_decide (cluster_id node <> map_cluster_id m)
      then Err (error f_neighbors (WrongCluster (node_id node)))
      else if bool_decide (node_id node = map_node_id m)
      then Err (error f_neighbors OwnNeighbor)
      else if bool_decide (is_Some (kinds !! node_id node))
      then Err (error f_neighbors (DuplicateNode (node_id node)))
      else if bool_decide (vpn_ip node ∈ ips)
      then Err (error f_neighbors (DuplicateVpnAddress (vpn_ip node)))
      else if negb (ipnet_contains (vpn_cidr m) (vpn_ip node))
      then Err (error f_neighbors (OutsideVpnCidr (node_id node)))
      else if negb (bool_decide (routes node = []))
      then Err (error f_neighbors (NeighborAdvertisesRoutes (node_id node)))
      else validate_neighbors m (index + 1) (<[node_id node := neighbor_kind neighbor]> kinds)
             ({[ vpn_ip node ]} ∪ ips) rest
  end.

Fixpoint validate_pinned (m : NeighborMap) (kinds : gmap NodeId OverlayNeighborKind) (index : Z)
    (ids : gset NodeId) (ips : gset IpAddr) (l : list NodeRecord)
  : result unit OverlayValidationError :=
  match l with
  | [] => Ok tt
  | peer :: rest =>
      let? _ := at_index f_pinned index (validate_overlay_node_record peer f_pinned) in
      if bool_decide (cluster_id peer <> map_cluster_id m)
      then Err (error f_pinned (WrongCluster (node_id peer)))
      else if bool_decide (node_id peer = map_node_id m)
      then Err (error f_pinned OwnNeighbor)
      else if bool_decide (is_Some (kinds !! node_id peer)) || bool_decide (node_id peer ∈ ids)
      then Err (error f_pinned (DuplicateNode (node_id peer)))
      else if bool_decide (vpn_ip peer ∈ ips)
      then Err (error f_pinned (DuplicateVpnAddress (vpn_ip peer)))
      else if negb (ipnet_contains (vpn_cidr m) (vpn_ip peer))
      then Err (error f_pinned (OutsideVpnCidr (node_id peer)))
      else validate_pinned m kinds (index + 1) ({[ node_id peer ]} ∪ ids)
             ({[ vpn_ip peer ]} ∪ ips) rest
  end.

(** A route of a non-client projection that is not a self-owned client host route. *)
Definition foreign_projection_route (m : NeighborMap) (peer : NodeRecord) (route : Route) : bool :=
  negb (starts_with (route_id route) (bstr "client-"))
  || negb (overlay_route_is_host (cidr route))
  || negb (ipnet_contains (vpn_cidr m) (ipnet_addr (cidr route)))
  || bool_decide (advertised_by route <> node_id peer)
  || bool_decide (via route <> Some (node_id peer)).

Fixpoint validate_client_peers (m : NeighborMap) (index : Z)
    (ids : gset NodeId) (ips : gset IpAddr) (l : list NodeRecord)
  : result unit OverlayValidationError :=
  match l with
  | [] => Ok tt
  | peer :: rest =>
      let? _ := at_index f_clients index (validate_overlay_node_record peer f_clients) in
      if bool_decide (cluster_id peer <> map_cluster_id m)
      then Err (error f_clients (WrongCluster (node_id peer)))
      else if bool_decide (node_id peer = map_node_id m)
      then Err (error f_clients OwnNeighbor)
      else if bool_decide (node_id peer ∈ ids)
      then Err (error f_clients (DuplicateNode (node_id peer)))
      else if bool_decide (vpn_ip peer ∈ ips)
      then Err (error f_clients (DuplicateVpnAddress (vpn_ip peer)))
      else if negb (ipnet_contains (vpn_cidr m) (vpn_ip peer))
      then Err (error f_clients (OutsideVpnCidr (node_id peer)))
      else if negb (role_is_client (role peer))
              && (bool_decide (routes peer = [])
                  || existsb (foreign_projection_route m peer) (routes peer))
      then Err (error f_clients (NonClientProjection (node_id peer)))
      else validate_client_peers m (index + 1) ({[ node_id peer ]} ∪ ids)
             ({[ vpn_ip peer ]} ∪ ips) rest
  end.

Fixpoint validate_aggregate_routes (m : NeighborMap) (index : Z) (seen : gset IpNet)
    (accepted l : list IpNet) : result unit OverlayValidationError :=
  match l with
  | [] => Ok tt
  | route :: rest =>
      let? _ := at_index f_aggregate index (validate_aggregate_route route) in
      if ipnet_prefix_len route =? 0 then Err (error f_aggregate DefaultRoute)
      else if aggregate_overlay_route_cidrs_overlap (vpn_cidr m) route
      then Err (error f_aggregate OverlapsVpnCidr)
      else if bool_decide (route ∈ seen) then Err (error f_aggregate DuplicateRoute)
      else if existsb (fun existing => aggregate_overlay_route_cidrs_overlap existing route) accepted
      then Err (error f_aggregate OverlapsRoute)
      else validate_aggregate_routes m (index + 1) ({[ route ]} ∪ seen) (accepted ++ [route]) rest
  end.

Section WithUrl.
Context `{UrlOps}.

Definition available_capacity (c : RelayCapability) : Z :=
  saturating_sub (max_sessions c) (active_sessions c).

Definition is_eligible_relay (c : RelayCapability) : bool :=
  enabled_by_policy c
  && match public_endpoint c with
     | Some addr => Endpoints.endpoint_addr_is_usable addr | None => false end
  && match admission_url c with
     | Some u => Endpoints.relay_admission_url_is_usable u | None => false end
  && e2e_only c && (0 <? max_sessions c) && (0 <? max_mbps c).

Definition can_admit (c : RelayCapability) : bool :=
  is_eligible_relay c && (0 <? available_capacity c).

Definition validate (m : NeighborMap) : result unit OverlayValidationError :=
  let? _ := validate_overlay_identifier (map_cluster_id m) (bstr "cluster_id") in
  let? _ := validate_overlay_identifier (map_node_id m) (bstr "node_id") in
  if (max_degree m =? 0) || (MAX_OVERLAY_DEGREE <? max_degree m)
  then Err (error (bstr "max_degree") MaxDegreeRange)
  else if MAX_OVERLAY_DEGREE <? on_demand_peer_limit m
  then Err (error (bstr "on_demand_peer_limit") OnDemandPeerLimit)
  else if bool_decide (vpn_cidr m <> ipnet_trunc (vpn_cidr m))
  then Err (error (bstr "vpn_cidr") VpnCidrNotCanonical)
  else if (max_degree m <? lenZ (neighbors m)) || (MAX_OVERLAY_NEIGHBORS <? lenZ (neighbors m))
  then Err (error f_neighbors (NeighborCount (lenZ (neighbors m))))
  else if MAX_OVERLAY_PINNED_PEERS <? lenZ (pinned_peers m)
  then Err (error f_pinned (PinnedPeerCount (lenZ (pinned_peers m))))
  else if MAX_AGGREGATE_OVERLAY_ROUTES <? lenZ (aggregate_routes m)
  then Err (error f_aggregate (AggregateRouteCount (lenZ (aggregate_routes m))))
  else if MAX_OVERLAY_CLIENT_ROUTE_PEERS <? lenZ (client_route_peers m)
  then Err (error f_clients (ClientRoutePeerCount (lenZ (client_route_peers m)))) else
  let? _ := map_err (fun e => error (bstr "bootstrap_endpoints") (BootstrapInvalid e))
              (Endpoints.validate_join_token_bootstrap_endpoints (bootstrap_endpoints m)) in
  let? kinds := validate_neighbors m 0 ∅ ∅ (neighbors m) in
  let? _ := validate_pinned m kinds 0 ∅ ∅ (pinned_peers m) in
  let? _ := validate_client_peers m 0 ∅ ∅ (client_route_peers m) in
  validate_aggregate_routes m 0 ∅ [] (aggregate_routes m).

End WithUrl.

(** ** Overlay paths *)

Fixpoint validate_path_loop (f : bytes) (index : Z) (seen : gset NodeId) (nodes : list NodeId)
  : result unit OverlayValidationError :=
  match nodes with
  | [] => Ok tt
  | node :: rest =>
      let? _ := validate_overlay_identifier node f in
      if bool_decide (node ∈ seen) then Err (error f (PathRepeats node index))
      else validate_path_loop f (index + 1) ({[ node ]} ∪ seen) rest
  end.

Definition validate_ordered_overlay_nodes (f : bytes) (source : NodeId) (nodes : list NodeId)
  : result unit OverlayValidationError :=
  if bool_decide (nodes = []) then Err (error f PathEmpty)
  else if MAX_OVERLAY_PATH_NODES <? lenZ nodes then Err (error f (PathTooLong (lenZ nodes)))
  else if bool_decide (head nodes <> Some source) then Err (error f PathWrongStart)
  else validate_path_loop f 0 ∅ nodes.

Definition target_owns_destination (p : OverlayPath) : bool :=
  bool_decide (vpn_ip (target p) = destination p)
  || existsb (fun route => bool_decide (advertised_by route = node_id (target p))
                           && ipnet_contains (cidr route) (destination p))
       (routes (target p)).

Definition validate_path (p : OverlayPath) : result unit OverlayValidationError :=
  let? _ := validate_overlay_identifier (path_source p) (bstr "source") in
  let? _ := validate_overlay_destination (destination p) in
  let? _ := validate_overlay_node_record (target p) (bstr "target") in
  if bool_decide (node_id (target p) = path_source p)
  then Err (error (bstr "target") TargetIsSource) else
  let? _ := validate_ordered_overlay_nodes (bstr "ordered_nodes") (path_source p)
              (ordered_nodes p) in
  if bool_decide (last (ordered_nodes p) <> Some (node_id (target p)))
  then Err (error (bstr "ordered_nodes") WrongTermination)
  else if negb (target_owns_destination p)
  then Err (error (bstr "target") DestinationNotOwned)
  else match secondary_ordered_nodes p with
       | None => Ok tt
       | Some secondary =>
           let f := bstr "secondary_ordered_nodes" in
           let? _ := validate_ordered_overlay_nodes f (path_source p) secondary in
           if bool_decide (secondary = ordered_nodes p) then Err (error f SecondaryEqualsPrimary)
           else if bool_decide (last secondary <> last (ordered_nodes p))
           then Err (error f SecondaryTermination)
           else Ok tt
       end.

(** ** What the validators guarantee *)

Definition identifier_wf (value : bytes) : Prop :=
  1 <= lenZ value <= 255 /\ Forall (fun b => identifier_byte b = true) value.

Definition record_wf (n : NodeRecord) : Prop :=
  identifier_wf (node_id n) /\ identifier_wf (cluster_id n) /\
  lenZ (endpoint_candidates n) <= 64 /\ lenZ (routes n) <= 256.

Lemma validate_identifier_ok value f u :
  validate_overlay_identifier value f = Ok u <-> identifier_wf value.
Proof.
  destruct u. unfold validate_overlay_identifier, identifier_wf, MAX_JOIN_TOKEN_IDENTIFIER_BYTES.
  rewrite !guard_ok. autorewrite with reflect. rewrite lenZ_pos, forallb_Forall. tauto.
Qed.

Lemma validate_record_ok n f u :
  validate_overlay_node_record n f = Ok u <-> record_wf n.
Proof.
  unfold validate_overlay_node_record, record_wf, MAX_OVERLAY_NODE_ENDPOINT_CANDIDATES,
    MAX_OVERLAY_NODE_ROUTES.
  rewrite <- (validate_identifier_ok (node_id n) f tt), <- (validate_identifier_ok (cluster_id n) f tt).
  destruct (validate_overlay_identifier (node_id n) f) as [[]|]; [|naive_solver].
  destruct (validate_overlay_identifier (cluster_id n) f) as [[]|]; [|naive_solver].
  rewrite !guard_ok. autorewrite with reflect. destruct u. tauto.
Qed.

Lemma at_index_ok {A} f index (r : result A OverlayValidationError) a :
  at_index f index r = Ok a <-> r = Ok a.
Proof. by destruct r. Qed.

(** What every listed peer of a map satisfies. *)
Definition peer_wf (m : NeighborMap) (n : NodeRecord) : Prop :=
  record_wf n /\ cluster_id n = map_cluster_id m /\ node_id n <> map_node_id m /\
  ipnet_contains (vpn_cidr m) (vpn_ip n) = true.

Definition neighbor_id (n : OverlayNeighbor) : NodeId := node_id (neighbor_node n).
Definition neighbor_ip (n : OverlayNeighbor) : IpAddr := vpn_ip (neighbor_node n).

Lemma validate_neighbors_ok m index kinds ips l kinds' :
  validate_neighbors m index kinds ips l = Ok kinds' <->
  Forall (fun n => peer_wf m (neighbor_node n) /\ routes (neighbor_node n) = []) l /\
  NoDup (map neighbor_id l) /\ NoDup (map neighbor_ip l) /\
  Forall (fun n => kinds !! neighbor_id n = None) l /\ Forall (fun n => neighbor_ip n ∉ ips) l /\
  kinds' = foldl (fun k n => <[neighbor_id n := neighbor_kind n]> k) kinds l.
Proof.
  revert index kinds ips. induction l as [|n l IH]; intros index kinds ips; simpl.
  { split; [intros [= <-]; split_and!; done || constructor|naive_solver]. }
  rewrite !Forall_cons, !NoDup_cons. unfold peer_wf.
  rewrite <- (validate_record_ok (neighbor_node n) f_neighbors tt).
  destruct (validate_overlay_node_record (neighbor_node n) f_neighbors) as [[]|]; simpl; [|naive_solver].
  rewrite !guard_ok, IH, Forall_fresh_map, Forall_fresh, bool_decide_ne_false.
  autorewrite with reflect. rewrite <- eq_None_not_Some.
  fold (neighbor_id n) (neighbor_ip n). tauto.
Qed.

(** The kinds collected by the neighbor loop name exactly the neighbors. *)
Lemma neighbor_kinds_lookup (l : list OverlayNeighbor) (kinds : gmap NodeId OverlayNeighborKind)
    (id : NodeId) :
  is_Some (foldl (fun k n => <[neighbor_id n := neighbor_kind n]> k) kinds l !! id) <->
  is_Some (kinds !! id) \/ id ∈ map neighbor_id l.
Proof.
  revert kinds. induction l as [|n l IH]; intros kinds; simpl.
  { rewrite elem_of_nil. tauto. }
  rewrite IH, lookup_insert_is_Some, elem_of_cons.
  destruct (decide (neighbor_id n = id)); naive_solver.
Qed.

Lemma validate_pinned_ok m kinds index ids ips l u :
  validate_pinned m kinds index ids ips l = Ok u <->
  Forall (peer_wf m) l /\ NoDup (map node_id l) /\ NoDup (map vpn_ip l) /\
  Forall (fun n => kinds !! node_id n = None) l /\
  Forall (fun n => node_id n ∉ ids) l /\ Forall (fun n => vpn_ip n ∉ ips) l.
Proof.
  destruct u. revert index ids ips. induction l as [|n l IH]; intros index ids ips; simpl.
  { split; [intros _; split_and!; constructor|done]. }
  rewrite !Forall_cons, !NoDup_cons. unfold peer_wf at 1.
  rewrite <- (validate_record_ok n f_pinned tt).
  destruct (validate_overlay_node_record n f_pinned) as [[]|]; simpl; [|naive_solver].
  rewrite !guard_ok, IH, !Forall_fresh, bool_decide_ne_false.
  autorewrite with reflect. rewrite <- eq_None_not_Some. tauto.
Qed.

(** A projected peer that is not a client carries only its own client host routes. *)
Definition projection_wf (m : NeighborMap) (n : NodeRecord) : Prop :=
  role n = bstr "client" \/
  routes n <> [] /\ Forall (fun r => foreign_projection_route m n r = false) (routes n).

Lemma projection_ok m n :
  negb (role_is_client (role n))
  && (bool_decide (routes n = []) || existsb (foreign_projection_route m n) (routes n)) = false <->
  projection_wf m n.
Proof.
  unfold role_is_client, projection_wf. rewrite andb_false_iff, negb_false_iff, orb_false_iff.
  rewrite bool_decide_eq_true, bool_decide_eq_false.
  assert (existsb (foreign_projection_route m n) (routes n) = false <->
          Forall (fun r => foreign_projection_route m n r = false) (routes n)) as ->; [|done].
  induction (routes n) as [|r rs IH]; simpl; [done|].
  by rewrite orb_false_iff, Forall_cons, IH.
Qed.

Lemma validate_client_peers_ok m index ids ips l u :
  validate_client_peers m index ids ips l = Ok u <->
  Forall (fun n => peer_wf m n /\ projection_wf m n) l /\
  NoDup (map node_id l) /\ NoDup (map vpn_ip l) /\
  Forall (fun n => node_id n ∉ ids) l /\ Forall (fun n => vpn_ip n ∉ ips) l.
Proof.
  destruct u. revert index ids ips. induction l as [|n l IH]; intros index ids ips; simpl.
  { split; [intros _; split_and!; constructor|done]. }
  rewrite !Forall_cons, !NoDup_cons. unfold peer_wf at 1.
  rewrite <- (validate_record_ok n f_clients tt).
  destruct (validate_overlay_node_record n f_clients) as [[]|]; simpl; [|naive_solver].
  rewrite !guard_ok, projection_ok, IH, !Forall_fresh, bool_decide_ne_false.
  autorewrite with reflect. tauto.
Qed.

(** Aggregate routes: canonical, not a default route, apart from the VPN range. *)
Definition aggregate_wf (m : NeighborMap) (r : IpNet) : Prop :=
  ipnet_trunc r = r /\ ipnet_prefix_len r <> 0 /\
  aggregate_overlay_route_cidrs_overlap (vpn_cidr m) r = false.

Definition disjoint_routes (a b : IpNet) : Prop :=
  aggregate_overlay_route_cidrs_overlap a b = false.

Lemma existsb_false_Forall {A} (f : A -> bool) l :
  existsb f l = false <-> Forall (fun x => f x = false) l.
Proof. induction l as [|x l IH]; simpl; [done|]. by rewrite orb_false_iff, Forall_cons, IH. Qed.

Lemma StronglySorted_cons_iff {A} (R : A -> A -> Prop) x l :
  StronglySorted R (x :: l) <-> StronglySorted R l /\ Forall (R x) l.
Proof. split; [apply StronglySorted_inv|intros [? ?]; by constructor]. Qed.

Lemma validate_aggregate_ok m index seen accepted l u :
  validate_aggregate_routes m index seen accepted l = Ok u <->
  Forall (aggregate_wf m) l /\ NoDup l /\ Forall (fun r => r ∉ seen) l /\
  StronglySorted disjoint_routes l /\
  Forall (fun r => Forall (fun a => disjoint_routes a r) accepted) l.
Proof.
  destruct u. revert index seen accepted.
  induction l as [|r l IH]; intros index seen accepted; simpl.
  { split; [intros _; split_and!; constructor|done]. }
  rewrite !Forall_cons, NoDup_cons. unfold at_index, map_err, validate_aggregate_route, aggregate_wf at 1.
  destruct (bool_decide (r <> ipnet_trunc r)) eqn:Hc.
  { apply bool_decide_eq_true in Hc. split; [done|]. intros (((Hc' & _) & _) & _). congruence. }
  rewrite bool_decide_ne_false in Hc. rewrite !guard_ok, IH. setoid_rewrite Forall_app.
  rewrite existsb_false_Forall, StronglySorted_cons_iff. autorewrite with reflect.
  rewrite (Forall_fresh (fun x => x)), map_id, Forall_and. setoid_rewrite Forall_singleton.
  unfold disjoint_routes. assert (ipnet_trunc r = r) by congruence. tauto.
Qed.

(** A map as the control plane promises it. *)
Record neighbor_map_wf `{UrlOps} (m : NeighborMap) : Prop := {
  nm_cluster : identifier_wf (map_cluster_id m);
  nm_node : identifier_wf (map_node_id m);
  nm_degree : 0 < max_degree m <= 64;
  nm_on_demand : on_demand_peer_limit m <= 64;
  nm_cidr : ipnet_trunc (vpn_cidr m) = vpn_cidr m;
  nm_neighbor_count : lenZ (neighbors m) <= max_degree m;
  nm_pinned_count : lenZ (pinned_peers m) <= 64;
  nm_route_count : lenZ (aggregate_routes m) <= 64;
  nm_client_count : lenZ (client_route_peers m) <= 4096;
  nm_bootstrap :
    Endpoints.validate_join_token_bootstrap_endpoints (bootstrap_endpoints m) = Ok tt;
  nm_neighbors :
    Forall (fun n => peer_wf m (neighbor_node n) /\ routes (neighbor_node n) = []) (neighbors m);
  nm_pinned : Forall (peer_wf m) (pinned_peers m);
  nm_clients : Forall (fun n => peer_wf m n /\ projection_wf m n) (client_route_peers m);
  nm_ids : NoDup (map neighbor_id (neighbors m) ++ map node_id (pinned_peers m));
  nm_neighbor_ips : NoDup (map neighbor_ip (neighbors m));
  nm_pinned_ips : NoDup (map vpn_ip (pinned_peers m));
  nm_client_ids : NoDup (map node_id (client_route_peers m));
  nm_client_ips : NoDup (map vpn_ip (client_route_peers m));
  nm_routes : Forall (aggregate_wf m) (aggregate_routes m);
  nm_routes_distinct : NoDup (aggregate_routes m);
  nm_routes_disjoint : StronglySorted disjoint_routes (aggregate_routes m)
}.

Lemma pinned_apart m :
  Forall (fun n => foldl (fun k n => <[neighbor_id n := neighbor_kind n]> k)
                     (∅ : gmap NodeId OverlayNeighborKind) (neighbors m)
                   !! node_id n = None) (pinned_peers m) <->
  (forall id, id ∈ map neighbor_id (neighbors m) -> id ∉ map node_id (pinned_peers m)).
Proof.
  rewrite Forall_forall. setoid_rewrite eq_None_not_Some.
  setoid_rewrite neighbor_kinds_lookup. setoid_rewrite lookup_empty. split.
  - intros Hp id Hid (n & -> & Hn)%list_elem_of_fmap. apply (Hp n Hn). by right.
  - intros Hp n Hn [[? ?]|Hid]; [done|]. apply (Hp _ Hid). apply list_elem_of_fmap. eauto.
Qed.

Lemma validate_map_ok `{UrlOps} m : validate m = Ok tt <-> neighbor_map_wf m.
Proof.
  unfold validate, MAX_OVERLAY_NEIGHBORS, MAX_OVERLAY_PINNED_PEERS, MAX_AGGREGATE_OVERLAY_ROUTES,
    MAX_OVERLAY_CLIENT_ROUTE_PEERS, MAX_OVERLAY_ROUTE_SCOPES, MAX_OVERLAY_DEGREE. split.
  - intros H1. destruct (validate_overlay_identifier (map_cluster_id m) _) eqn:E1; [|done].
    destruct (validate_overlay_identifier (map_node_id m) _) eqn:E2; [|done].
    apply validate_identifier_ok in E1, E2. rewrite !guard_ok in H1.
    destruct H1 as (Hd & Ho & Hc & Hn & Hp & Ha & Hcl & H1).
    destruct (Endpoints.validate_join_token_bootstrap_endpoints _) as [[]|] eqn:Hb; [simpl in H1|done].
    destruct (validate_neighbors _ _ _ _ _) as [kinds|] eqn:Hns; [|done].
    destruct (validate_pinned _ _ _ _ _ _) eqn:Hps; [|done].
    destruct (validate_client_peers _ _ _ _ _) eqn:Hcs; [|done].
    apply validate_neighbors_ok in Hns as (? & ? & ? & _ & _ & ->).
    apply validate_pinned_ok in Hps as (? & ? & ? & Hap & _).
    pose proof (proj1 (pinned_apart m) Hap) as Hapart.
    apply validate_client_peers_ok in Hcs as (? & ? & ? & _).
    apply validate_aggregate_ok in H1 as (? & ? & _ & ? & _).
    rewrite bool_decide_ne_false in Hc. bool_to_prop.
    split; try done; try lia. apply NoDup_app. done.
  - intros []. rewrite !(proj2 (validate_identifier_ok _ _ tt)) by done. rewrite !guard_ok.
    autorewrite with reflect. rewrite nm_bootstrap0. simpl.
    rewrite (proj2 (validate_neighbors_ok m 0 ∅ ∅ _
      (foldl (fun k n => <[neighbor_id n := neighbor_kind n]> k) ∅ (neighbors m)))).
    2:{ split_and!; try done; try apply Forall_fresh_empty.
        - by apply NoDup_app in nm_ids0 as (? & _).
        - by apply Forall_true. }
    apply NoDup_app in nm_ids0 as (? & Hap & ?).
    rewrite (proj2 (validate_pinned_ok m _ 0 ∅ ∅ _ tt)).
    2:{ split_and!; try done; try apply Forall_fresh_empty. by apply pinned_apart. }
    rewrite (proj2 (validate_client_peers_ok m 0 ∅ ∅ _ tt)).
    2:{ split_and!; try done; apply Forall_fresh_empty. }
    split_and!; try lia; [by rewrite nm_cidr0; intros []|].
    apply validate_aggregate_ok. split_and!; try done; [apply (Forall_fresh_empty (fun x => x))|].
    apply Forall_true. constructor.
Qed.

(** [NeighborMap::validate] accepts exactly the well-formed maps: degree at most 64 and
    not exceeded, every neighbor, pinned and projected peer of the same cluster, not the
    node itself and inside the VPN range, no identifier listed twice among neighbors and
    pinned peers, and aggregate routes canonical, distinct, pairwise disjoint and apart
    from the VPN range. *)
Theorem neighbor_map_valid_iff `{UrlOps} m : validate m = Ok tt <-> neighbor_map_wf m.
Proof. apply validate_map_ok. Qed.

(** ** Valid paths *)

(** A loop-free node sequence from [source] to [dest]. *)
Record route_wf (source dest : NodeId) (nodes : list NodeId) : Prop := {
  rt_length : lenZ nodes <= 514;
  rt_first : head nodes = Some source;
  rt_last : last nodes = Some dest;
  rt_identifiers : Forall identifier_wf nodes;
  rt_loop_free : NoDup nodes
}.

Record overlay_path_wf (p : OverlayPath) : Prop := {
  op_source : identifier_wf (path_source p);
  op_destination : is_unspecified (destination p) = false /\
    is_multicast (destination p) = false /\ is_broadcast (destination p) = false;
  op_target : record_wf (target p);
  op_distinct : node_id (target p) <> path_source p;
  op_primary : route_wf (path_source p) (node_id (target p)) (ordered_nodes p);
  op_owner : vpn_ip (target p) = destination p \/
    Exists (fun r => advertised_by r = node_id (target p) /\
                     ipnet_contains (cidr r) (destination p) = true) (routes (target p));
  op_secondary : forall s, secondary_ordered_nodes p = Some s ->
    route_wf (path_source p) (node_id (target p)) s /\ s <> ordered_nodes p
}.

Lemma validate_path_loop_ok f index seen nodes u :
  validate_path_loop f index seen nodes = Ok u <->
  Forall identifier_wf nodes /\ NoDup nodes /\ Forall (fun n => n ∉ seen) nodes.
Proof.
  destruct u. revert index seen. induction nodes as [|n nodes IH]; intros index seen; simpl.
  { split; [intros _; split_and!; constructor|done]. }
  rewrite !Forall_cons, NoDup_cons, <- (validate_identifier_ok n f tt).
  destruct (validate_overlay_identifier n f) as [[]|]; [|naive_solver].
  rewrite guard_ok, IH, (Forall_fresh (fun x => x)), map_id, bool_decide_eq_false. tauto.
Qed.

Lemma validate_ordered_ok f source nodes u :
  validate_ordered_overlay_nodes f source nodes = Ok u <->
  lenZ nodes <= 514 /\ head nodes = Some source /\ Forall identifier_wf nodes /\ NoDup nodes.
Proof.
  unfold validate_ordered_overlay_nodes, MAX_OVERLAY_PATH_NODES.
  rewrite !guard_ok, validate_path_loop_ok, bool_decide_ne_false. autorewrite with reflect.
  pose proof (Forall_fresh_empty (fun x : NodeId => x) nodes).
  destruct nodes; simpl in *; naive_solver.
Qed.

Lemma validate_destination_ok d u :
  validate_overlay_destination d = Ok u <->
  is_unspecified d = false /\ is_multicast d = false /\ is_broadcast d = false.
Proof.
  destruct u. unfold validate_overlay_destination. rewrite guard_ok.
  assert (forall a, is_broadcast (IpV6 a) = false) as Hb by done.
  destruct d as [a|a]; rewrite negb_false_iff, !andb_true_iff, !negb_true_iff; [tauto|].
  specialize (Hb a). tauto.
Qed.

Lemma target_owns_ok p :
  target_owns_destination p = true <->
  vpn_ip (target p) = destination p \/
  Exists (fun r => advertised_by r = node_id (target p) /\
                   ipnet_contains (cidr r) (destination p) = true) (routes (target p)).
Proof.
  unfold target_owns_destination. rewrite orb_true_iff, bool_decide_eq_true, existsb_exists.
  rewrite List.Exists_exists. setoid_rewrite andb_true_iff. setoid_rewrite bool_decide_eq_true. done.
Qed.

Lemma validate_path_ok p : validate_path p = Ok tt <-> overlay_path_wf p.
Proof.
  unfold validate_path. split.
  - intros Hv. destruct (validate_overlay_identifier _ _) eqn:E1; [|done].
    destruct (validate_overlay_destination _) eqn:E2; [|done].
    destruct (validate_overlay_node_record _ _) eqn:E3; [|done].
    apply validate_identifier_ok in E1. apply validate_destination_ok in E2.
    apply validate_record_ok in E3. rewrite guard_ok in Hv. destruct Hv as [Hts Hv].
    destruct (validate_ordered_overlay_nodes _ _ _) eqn:E4; [|done].
    apply validate_ordered_ok in E4 as (? & ? & ? & ?).
    rewrite !guard_ok, bool_decide_ne_false in Hv. destruct Hv as (Hl & Ho & Hs).
    apply negb_false_iff, target_owns_ok in Ho. apply bool_decide_eq_false in Hts.
    split; try done. intros s E. rewrite E in Hs. simpl in Hs.
    destruct (validate_ordered_overlay_nodes _ _ s) eqn:E5; [|done].
    apply validate_ordered_ok in E5 as (? & ? & ? & ?).
    rewrite !guard_ok, bool_decide_ne_false, bool_decide_eq_false in Hs.
    destruct Hs as (? & Hl2 & _). rewrite Hl in Hl2. done.
  - intros [H1 H2 H3 H4 [? ? Hl ? ?] H6 H7].
    rewrite (proj2 (validate_identifier_ok _ _ tt)), (proj2 (validate_destination_ok _ tt)),
      (proj2 (validate_record_ok _ _ tt)) by done.
    rewrite guard_ok, (proj2 (validate_ordered_ok _ _ _ tt)) by done.
    rewrite !guard_ok, bool_decide_ne_false, negb_false_iff, target_owns_ok, bool_decide_eq_false.
    split_and!; try done. destruct (secondary_ordered_nodes p) as [s|]; [|done].
    destruct (H7 s eq_refl) as [[? ? Hl2 ? ?] ?].
    rewrite (proj2 (validate_ordered_ok _ _ _ tt)) by done. cbv zeta.
    rewrite !guard_ok, bool_decide_ne_false, bool_decide_eq_false. by rewrite Hl, Hl2.
Qed.

(** [OverlayPath::validate] accepts exactly the paths whose primary and secondary node
    sequences are loop-free, start at the source and end at the target, differ from each
    other, and whose target owns a usable destination address. *)
Theorem overlay_path_valid_iff p : validate_path p = Ok tt <-> overlay_path_wf p.
Proof. apply validate_path_ok. Qed.

End Records.
Arguments validate_overlay_identifier : simpl never.
Arguments validate_overlay_node_record : simpl never.

End Overlay.
