(* ===== verification/Instances.v ===== *)
(** * Concrete library operations for the examples

    CIDR blocks as family, address and prefix length, with the arithmetic the [ipnet]
    documentation gives, and a URL parser that knows no URL. The theorems quantify over
    every [IpNetOps] and [UrlOps]; the examples evaluate them at these. *)

From S2P Require Import Prelude RustStd Endpoints OverlayTypes.

Module Instances.

Record Cidr : Type := { is_v4 : bool; address : Z; prefix : Z }.

#[global] Instance Cidr_eq_dec : EqDecision Cidr.
Proof. solve_decision. Defined.
#[global, refine] Instance Cidr_countable : Countable Cidr :=
  inj_countable' (fun c => (is_v4 c, address c, prefix c))
    (fun '(v, a, p) => {| is_v4 := v; address := a; prefix := p |}) _.
Proof. by intros []. Defined.

(** A prefix has at most the bits of an address. *)
Definition width (c : Cidr) : Z := if is_v4 c then 32 else 128.
Definition prefix_bits (c : Cidr) : Z := Z.max 0 (Z.min (width c) (prefix c)).
Definition host_bits (c : Cidr) : Z := width c - prefix_bits c.
Definition masked (c : Cidr) (a : Z) : Z := a / 2 ^ host_bits c * 2 ^ host_bits c.
Definition to_ip (v4 : bool) (a : Z) : IpAddr := if v4 then IpV4 a else IpV6 a.

#[global] Instance cidr_ops : IpNetOps := {|
  IpNet := Cidr;
  ipnet_is_v4 := is_v4;
  ipnet_addr := fun c => to_ip (is_v4 c) (address c);
  ipnet_network := fun c => to_ip (is_v4 c) (masked c (address c));
  ipnet_prefix_len := prefix_bits;
  ipnet_trunc := fun c => {| is_v4 := is_v4 c; address := masked c (address c); prefix := prefix c |};
  ipnet_contains := fun c ip =>
    match ip with
    | IpV4 a => is_v4 c && (masked c a =? masked c (address c))
    | IpV6 a => negb (is_v4 c) && (masked c a =? masked c (address c))
    end
|}.

Lemma masked_coarser c c' x y : host_bits c <= host_bits c' -> masked c x = masked c y -> masked c' x = masked c' y.
Proof.
  unfold masked. intros Hle E. assert (H0 : 0 <= host_bits c) by (unfold host_bits, prefix_bits, width; destruct (is_v4 c); lia).
  apply Z.mul_reg_r in E; [|apply Z.pow_nonzero; lia]. f_equal.
  replace (host_bits c') with (host_bits c + (host_bits c' - host_bits c)) by lia. rewrite Z.pow_add_r by lia.
  by rewrite <- !Z.div_div, E by (try apply Z.pow_nonzero; try apply Z.pow_pos_nonneg; lia).
Qed.

Lemma cidr_member c ip : ipnet_contains c ip = true <-> exists x, ip = to_ip (is_v4 c) x /\ masked c x = masked c (address c).
Proof.
  cbn. destruct ip as [x|x], (is_v4 c); cbn; rewrite ?Z.eqb_eq; (split; [try done; by exists x|intros (y & E & H); by inv E]).
Qed.

Lemma cidr_shared a b d : ipnet_contains a d = true -> ipnet_contains b d = true -> ipnet_prefix_len a <= ipnet_prefix_len b ->
  ipnet_is_v4 a = ipnet_is_v4 b /\ ipnet_contains a (ipnet_addr b) = true.
Proof.
  rewrite !cidr_member. intros (x & -> & Ha) (y & E & Hb) Hle.
  assert (Hv : is_v4 a = is_v4 b /\ x = y) by (by destruct (is_v4 a), (is_v4 b); inv E). destruct Hv as [Hv ->]. split; [done|].
  exists (address b). split; [cbn; by rewrite Hv|]. rewrite <- Ha. symmetry. apply (masked_coarser b); [|done].
  cbn in Hle. unfold host_bits, width in *. rewrite Hv. lia.
Qed.

Lemma cidr_nested a b d : ipnet_is_v4 a = ipnet_is_v4 b -> ipnet_prefix_len a <= ipnet_prefix_len b ->
  ipnet_contains a (ipnet_addr b) = true -> ipnet_contains b d = true -> ipnet_contains a d = true.
Proof.
  rewrite !cidr_member. intros Hv Hle (x & E & Ha) (y & -> & Hb). cbn in *. exists y. split; [by rewrite Hv|].
  assert (x = address b) as -> by (by destruct (is_v4 a), (is_v4 b); inv E). rewrite <- Ha. apply (masked_coarser b); [|done].
  unfold host_bits, width in *. rewrite Hv. lia.
Qed.

#[global] Instance no_urls : UrlOps := {|
  Url := unit;
  url_parse := fun _ => None;
  url_scheme := fun _ => [];
  url_username := fun _ => [];
  url_password := fun _ => None;
  url_query := fun _ => None;
  url_fragment := fun _ => None;
  url_path := fun _ => [];
  url_host := fun _ => None;
  url_port := fun _ => None;
  url_port_or_known_default := fun _ => None;
  url_as_str := fun _ => []
|}.

(** A node of cluster [c] with a VPN address, and a map listing its neighbors. *)
Definition sample_node (id : NodeId) (ip : Z) : Overlay.NodeRecord := {|
  Overlay.node_id := id; Overlay.display_name := None; Overlay.hostname := None;
  Overlay.cluster_id := bstr "c"; Overlay.vpn_ip := IpV4 ip;
  Overlay.identity_public_key := []; Overlay.wireguard_public_key := [];
  Overlay.role := bstr "edge"; Overlay.tags := []; Overlay.endpoint_candidates := [];
  Overlay.relay_capability := None;
  Overlay.token_policy := {| Overlay.allow_join := true; Overlay.allow_relay := false;
    Overlay.allowed_routes := []; Overlay.allowed_tags := []; Overlay.max_token_uses := None |};
  Overlay.routes := []; Overlay.registered_at := 0 |}.

Definition sample_map (id : NodeId) (ns : list (NodeId * Z)) : Overlay.NeighborMap := {|
  Overlay.map_cluster_id := bstr "c"; Overlay.map_node_id := id;
  Overlay.topology_epoch := 7; Overlay.routing_epoch := 1; Overlay.max_degree := 4;
  Overlay.on_demand_peer_limit := 4;
  Overlay.vpn_cidr := {| is_v4 := true; address := 167772160; prefix := 8 |};
  Overlay.neighbors := map (fun '(n, ip) => {| Overlay.neighbor_node := sample_node n ip;
    Overlay.neighbor_kind := Overlay.BackbonePrimary |}) ns;
  Overlay.pinned_peers := []; Overlay.aggregate_routes := []; Overlay.client_route_peers := [];
  Overlay.bootstrap_endpoints := []; Overlay.map_generated_at := 0 |}.

(** The path [a -> r -> b] to [b]'s VPN address 10.0.0.2. *)
Definition sample_path : Overlay.OverlayPath := {|
  Overlay.path_topology_epoch := 7; Overlay.path_routing_epoch := 1;
  Overlay.path_source := bstr "a"; Overlay.destination := IpV4 167772162;
  Overlay.target := sample_node (bstr "b") 167772162;
  Overlay.ordered_nodes := [bstr "a"; bstr "r"; bstr "b"];
  Overlay.secondary_ordered_nodes := None; Overlay.path_generated_at := 0 |}.

(** A parser that knows the URL of one relay. *)
Definition relay_url : bytes := Eval vm_compute in bstr "https://192.0.2.7/".

Definition relay_url_ops : UrlOps := {|
  Url := unit;
  url_parse := fun s => if bool_decide (s = relay_url) then Some tt else None;
  url_scheme := fun _ => bstr "https";
  url_username := fun _ => [];
  url_password := fun _ => None;
  url_query := fun _ => None;
  url_fragment := fun _ => None;
  url_path := fun _ => bstr "/";
  url_host := fun _ => Some (HostIpv4 3221225991);
  url_port := fun _ => None;
  url_port_or_known_default := fun _ => Some 443;
  url_as_str := fun _ => relay_url
|}.

(** An eligible relay with room for four sessions at 8 Mbit/s. *)
Definition sample_capability : Overlay.RelayCapability := {|
  Overlay.enabled_by_policy := true; Overlay.public_endpoint := Some (SockV4 3221225991 51820);
  Overlay.admission_url := Some relay_url; Overlay.max_sessions := 4;
  Overlay.active_sessions := 0; Overlay.max_mbps := 8; Overlay.e2e_only := true |}.

End Instances.
