(* ===== verification/Multihop.v ===== *)
(** * Multi-hop relay envelopes (crates/ipars-relay/src/multihop.rs)

    The versioned frame that relays forward: the [FrameReader], the validation of an
    envelope, its only canonical encoding and the decoder, the hop counter and the
    release of the payload at the destination. *)

From S2P Require Import Prelude RustStd.

Module Multihop.

(** ** Constants *)

Definition MULTIHOP_FRAME_VERSION : Z := 2.
Definition MULTIHOP_PATH_ID_BYTES : Z := 16.
Definition MAX_MULTIHOP_NODE_ID_BYTES : Z := 128.
Definition MAX_MULTIHOP_PATH_NODES : Z := 512.
Definition MAX_MULTIHOP_PAYLOAD_BYTES : Z := 65000.
Definition MAX_MULTIHOP_FRAME_BYTES : Z := 65507.
Definition MULTIHOP_FRAME_MAGIC : bytes := Eval vm_compute in bstr "IPARS-MH".
Definition VERSION_OFFSET : Z := lenZ MULTIHOP_FRAME_MAGIC.
Definition FLAGS_OFFSET : Z := VERSION_OFFSET + 1.
Definition TOPOLOGY_EPOCH_OFFSET : Z := FLAGS_OFFSET + 1.
Definition PATH_ID_OFFSET : Z := TOPOLOGY_EPOCH_OFFSET + 8.
Definition SEQUENCE_OFFSET : Z := PATH_ID_OFFSET + MULTIHOP_PATH_ID_BYTES.
Definition HOP_INDEX_OFFSET : Z := SEQUENCE_OFFSET + 8.
Definition HOP_LIMIT_OFFSET : Z := HOP_INDEX_OFFSET + 2.
Definition PATH_COUNT_OFFSET : Z := HOP_LIMIT_OFFSET + 2.
Definition RESERVED_OFFSET : Z := PATH_COUNT_OFFSET + 2.
Definition SOURCE_LENGTH_OFFSET : Z := RESERVED_OFFSET + 1.
Definition DESTINATION_LENGTH_OFFSET : Z := SOURCE_LENGTH_OFFSET + 2.
Definition PAYLOAD_LENGTH_OFFSET : Z := DESTINATION_LENGTH_OFFSET + 2.
Definition FIXED_HEADER_BYTES : Z := PAYLOAD_LENGTH_OFFSET + 4.

Inductive MultiHopCodecError : Type :=
  | MalformedFrame
  | UnsupportedVersion (version : Z)
  | NonCanonicalFrame
  | TrailingBytes
  | FrameTooLarge
  | InvalidNodeId
  | InvalidPath
  | PathTooLong
  | InvalidPathId
  | ExpiredFrame
  | StaleTopologyEpoch
  | LoopDetected
  | UnexpectedHop
  | RouteComplete
  | PayloadUnavailable.

#[global] Instance MultiHopCodecError_eq_dec : EqDecision MultiHopCodecError.
Proof. solve_decision. Defined.

Record MultiHopEnvelope : Type := {
  topology_epoch : Z;
  path_id : bytes;
  sequence : Z;
  hop_index : Z;
  hop_limit : Z;
  source : NodeId;
  destination : NodeId;
  path : list NodeId;
  opaque_payload : bytes
}.

#[global] Instance MultiHopEnvelope_eq_dec : EqDecision MultiHopEnvelope.
Proof. solve_decision. Defined.

(** The Rust field types of an envelope: integer widths and the 16-byte path id. *)
Definition envelope_typed (e : MultiHopEnvelope) : Prop :=
  is_u64 (topology_epoch e) /\ lenZ (path_id e) = 16 /\ is_u64 (sequence e) /\
  is_u16 (hop_index e) /\ is_u16 (hop_limit e).

(** ** Node identifiers *)

Definition validate_declared_node_length (node_len : Z) : result unit MultiHopCodecError :=
  if node_len =? 0 then Err InvalidNodeId
  else if MAX_MULTIHOP_NODE_ID_BYTES <? node_len then Err FrameTooLarge
  else Ok tt.

(** The character class of node identifiers: alphanumerics, ['.'], ['_'] and ['-']. *)
Definition node_id_byte (b : byte) : bool :=
  is_ascii_alphanumeric b
  || bool_decide (b = x2e) || bool_decide (b = x5f) || bool_decide (b = x2d).

Definition validate_node_id (node_id : NodeId) : result unit MultiHopCodecError :=
  let? _ := validate_declared_node_length (lenZ node_id) in
  if bool_decide (node_id = [x2e]) || bool_decide (node_id = [x2e; x2e])
     || starts_with node_id [x2d]
     || negb (forallb node_id_byte node_id)
  then Err InvalidNodeId
  else Ok tt.

Definition decode_node_id (bs : bytes) : result NodeId MultiHopCodecError :=
  if negb (utf8_valid bs) then Err MalformedFrame else
  let node_id := bs in
  let? _ := validate_node_id node_id in
  Ok node_id.

(** ** The frame reader *)

Record FrameReader : Type := { frame : bytes; offset : Z }.

Definition reader_new (fr : bytes) : FrameReader := {| frame := fr; offset := 0 |}.

Definition reader_take (len : Z) (r : FrameReader)
  : result (bytes * FrameReader) MultiHopCodecError :=
  let? end_ := ok_or (checked_add 64 (offset r) len) MalformedFrame in
  let? bs := ok_or (slice_get (frame r) (offset r) end_) MalformedFrame in
  Ok (bs, {| frame := frame r; offset := end_ |}).

Definition read_u8 (r : FrameReader) : result (Z * FrameReader) MultiHopCodecError :=
  let? (bs, r) := reader_take 1 r in
  let? b := ok_or (head bs) MalformedFrame in
  Ok (byteZ b, r).

Definition read_u16 (r : FrameReader) : result (Z * FrameReader) MultiHopCodecError :=
  let? (bs, r) := reader_take 2 r in Ok (be_value bs, r).

Definition read_u32 (r : FrameReader) : result (Z * FrameReader) MultiHopCodecError :=
  let? (bs, r) := reader_take 4 r in Ok (be_value bs, r).

Definition read_u64 (r : FrameReader) : result (Z * FrameReader) MultiHopCodecError :=
  let? (bs, r) := reader_take 8 r in Ok (be_value bs, r).

Definition reader_is_complete (r : FrameReader) : bool := offset r =? lenZ (frame r).

(** ** Validation *)

Fixpoint validate_path_nodes (src dst : NodeId) (before nodes : list NodeId)
  : result unit MultiHopCodecError :=
  match nodes with
  | [] => Ok tt
  | node :: rest =>
      let? _ := validate_node_id node in
      if bool_decide (node = src) || bool_decide (node = dst) || bool_decide (node ∈ before)
      then Err LoopDetected
      else validate_path_nodes src dst (before ++ [node]) rest
  end.

Fixpoint add_path_lengths (encoded_len : Z) (nodes : list NodeId)
  : result Z MultiHopCodecError :=
  match nodes with
  | [] => Ok encoded_len
  | node :: rest =>
      let? len := ok_or (checked_add 64 encoded_len 2) FrameTooLarge in
      let? len := ok_or (checked_add 64 len (lenZ node)) FrameTooLarge in
      add_path_lengths len rest
  end.

Definition validate (e : MultiHopEnvelope) (minimum_topology_epoch : Z)
  : result Z MultiHopCodecError :=
  if (topology_epoch e =? 0) || (topology_epoch e <? minimum_topology_epoch)
  then Err StaleTopologyEpoch
  else if forallb (fun b => byteZ b =? 0) (path_id e) then Err InvalidPathId else
  let? _ := validate_node_id (source e) in
  let? _ := validate_node_id (destination e) in
  if bool_decide (source e = destination e) then Err LoopDetected
  else if bool_decide (path e = []) then Err InvalidPath
  else if MAX_MULTIHOP_PATH_NODES <? lenZ (path e) then Err PathTooLong
  else if (hop_limit e =? 0) || (MAX_MULTIHOP_PATH_NODES <? hop_limit e)
  then Err InvalidPath
  else if (hop_limit e <? lenZ (path e)) || (hop_limit e <? hop_index e)
  then Err ExpiredFrame
  else if lenZ (path e) <? hop_index e then Err MalformedFrame else
  let? _ := validate_path_nodes (source e) (destination e) [] (path e) in
  if bool_decide (opaque_payload e = []) then Err MalformedFrame
  else if MAX_MULTIHOP_PAYLOAD_BYTES <? lenZ (opaque_payload e) then Err FrameTooLarge else
  let? len := ok_or (checked_add 64 FIXED_HEADER_BYTES (lenZ (source e))) FrameTooLarge in
  let? len := ok_or (checked_add 64 len (lenZ (destination e))) FrameTooLarge in
  let? len := add_path_lengths len (path e) in
  let? len := ok_or (checked_add 64 len (lenZ (opaque_payload e))) FrameTooLarge in
  if MAX_MULTIHOP_FRAME_BYTES <? len then Err FrameTooLarge else Ok len.

Definition new (epoch : Z) (pid : bytes) (seq limit : Z) (src dst : NodeId)
    (nodes : list NodeId) (payload : bytes) : result MultiHopEnvelope MultiHopCodecError :=
  let envelope := {| topology_epoch := epoch; path_id := pid; sequence := seq;
                     hop_index := 0; hop_limit := limit; source := src;
                     destination := dst; path := nodes; opaque_payload := payload |} in
  let? _ := validate envelope 1 in
  Ok envelope.

(** ** Encoding and decoding *)

Definition encode_path_node (node : NodeId) : bytes :=
  be_bytes 2 (as_width 16 (lenZ node)) ++ node.

Definition encode (e : MultiHopEnvelope) : result bytes MultiHopCodecError :=
  let? _ := validate e 1 in
  Ok (MULTIHOP_FRAME_MAGIC
      ++ [Zbyte MULTIHOP_FRAME_VERSION]
      ++ [Zbyte 0]
      ++ be_bytes 8 (topology_epoch e)
      ++ path_id e
      ++ be_bytes 8 (sequence e)
      ++ be_bytes 2 (hop_index e)
      ++ be_bytes 2 (hop_limit e)
      ++ be_bytes 2 (as_width 16 (lenZ (path e)))
      ++ [Zbyte 0]
      ++ be_bytes 2 (as_width 16 (lenZ (source e)))
      ++ be_bytes 2 (as_width 16 (lenZ (destination e)))
      ++ be_bytes 4 (as_width 32 (lenZ (opaque_payload e)))
      ++ source e
      ++ destination e
      ++ concat (map encode_path_node (path e))
      ++ opaque_payload e).

Fixpoint decode_path (count : nat) (r : FrameReader)
  : result (list NodeId * FrameReader) MultiHopCodecError :=
  match count with
  | O => Ok ([], r)
  | S count =>
      let? (node_len, r) := read_u16 r in
      let? _ := validate_declared_node_length node_len in
      let? (bs, r) := reader_take node_len r in
      let? node := decode_node_id bs in
      let? (nodes, r) := decode_path count r in
      Ok (node :: nodes, r)
  end.

Definition decode (fr : bytes) (minimum_topology_epoch : Z)
  : result MultiHopEnvelope MultiHopCodecError :=
  if MAX_MULTIHOP_FRAME_BYTES <? lenZ fr then Err FrameTooLarge
  else if lenZ fr <? FIXED_HEADER_BYTES then Err MalformedFrame else
  let? (magic, r) := reader_take (lenZ MULTIHOP_FRAME_MAGIC) (reader_new fr) in
  if bool_decide (magic <> MULTIHOP_FRAME_MAGIC) then Err MalformedFrame else
  let? (version, r) := read_u8 r in
  if negb (version =? MULTIHOP_FRAME_VERSION) then Err (UnsupportedVersion version) else
  let? (flags, r) := read_u8 r in
  if negb (flags =? 0) then Err NonCanonicalFrame else
  let? (epoch, r) := read_u64 r in
  let? (pid, r) := reader_take MULTIHOP_PATH_ID_BYTES r in
  let? (seq, r) := read_u64 r in
  let? (index, r) := read_u16 r in
  let? (limit, r) := read_u16 r in
  let? (path_count, r) := read_u16 r in
  let? (reserved, r) := read_u8 r in
  if negb (reserved =? 0) then Err NonCanonicalFrame else
  let? (source_len, r) := read_u16 r in
  let? (destination_len, r) := read_u16 r in
  let? (payload_len, r) := read_u32 r in
  let? _ := validate_declared_node_length source_len in
  let? _ := validate_declared_node_length destination_len in
  if path_count =? 0 then Err InvalidPath
  else if MAX_MULTIHOP_PATH_NODES <? path_count then Err PathTooLong
  else if payload_len =? 0 then Err MalformedFrame
  else if MAX_MULTIHOP_PAYLOAD_BYTES <? payload_len then Err FrameTooLarge else
  let? (src_bytes, r) := reader_take source_len r in
  let? src := decode_node_id src_bytes in
  let? (dst_bytes, r) := reader_take destination_len r in
  let? dst := decode_node_id dst_bytes in
  let? (nodes, r) := decode_path (Z.to_nat path_count) r in
  let? (payload, r) := reader_take payload_len r in
  if negb (reader_is_complete r) then Err TrailingBytes else
  let envelope := {| topology_epoch := epoch; path_id := pid; sequence := seq;
                     hop_index := index; hop_limit := limit; source := src;
                     destination := dst; path := nodes; opaque_payload := payload |} in
  let? _ := validate envelope minimum_topology_epoch in
  Ok envelope.

(** ** Hop processing *)

Definition set_hop_index (e : MultiHopEnvelope) (i : Z) : MultiHopEnvelope :=
  {| topology_epoch := topology_epoch e; path_id := path_id e; sequence := sequence e;
     hop_index := i; hop_limit := hop_limit e; source := source e;
     destination := destination e; path := path e; opaque_payload := opaque_payload e |}.

Definition next_hop (e : MultiHopEnvelope) : option NodeId :=
  path e !! Z.to_nat (hop_index e).

Definition remaining_hops (e : MultiHopEnvelope) : Z :=
  saturating_sub (lenZ (path e)) (hop_index e).

Definition is_route_complete (e : MultiHopEnvelope) : bool :=
  hop_index e =? lenZ (path e).

Definition advance_hop (e : MultiHopEnvelope) (forwarding_node : NodeId)
    (minimum_topology_epoch : Z) : result MultiHopEnvelope MultiHopCodecError :=
  let? _ := validate e minimum_topology_epoch in
  let current_index := hop_index e in
  if lenZ (path e) <=? current_index then Err RouteComplete
  else if hop_limit e <=? hop_index e then Err ExpiredFrame
  else if bool_decide (path e !! Z.to_nat current_index <> Some forwarding_node) then
    if bool_decide (forwarding_node = source e)
       || bool_decide (forwarding_node = destination e)
       || bool_decide (forwarding_node ∈ take (Z.to_nat current_index) (path e))
    then Err LoopDetected
    else Err UnexpectedHop
  else
    let? next_index := ok_or (checked_add 16 (hop_index e) 1) ExpiredFrame in
    if hop_limit e <? next_index then Err ExpiredFrame
    else Ok (set_hop_index e next_index).

Definition payload_for_destination (e : MultiHopEnvelope) (local_node : NodeId)
  : result bytes MultiHopCodecError :=
  if bool_decide (local_node <> destination e) || negb (is_route_complete e)
  then Err PayloadUnavailable
  else Ok (opaque_payload e).

Definition into_payload_for_destination (e : MultiHopEnvelope) (local_node : NodeId)
  : result bytes MultiHopCodecError :=
  if bool_decide (local_node <> destination e) || negb (is_route_complete e)
  then Err PayloadUnavailable
  else Ok (opaque_payload e).

(** ** Well-formed envelopes

    The declarative counterpart of [validate]. *)

Definition node_id_wf (n : NodeId) : Prop :=
  1 <= lenZ n <= 128 /\ n <> [x2e] /\ n <> [x2e; x2e] /\ head n <> Some x2d /\
  Forall (fun b => node_id_byte b = true) n.

Definition encoded_path_length (nodes : list NodeId) : Z :=
  foldr (fun n acc => 2 + lenZ n + acc) 0 nodes.

Definition encoded_length (e : MultiHopEnvelope) : Z :=
  57 + lenZ (source e) + lenZ (destination e) + encoded_path_length (path e)
  + lenZ (opaque_payload e).

Record envelope_wf (minimum : Z) (e : MultiHopEnvelope) : Prop := {
  wf_epoch : minimum <= topology_epoch e;
  wf_epoch_nonzero : topology_epoch e <> 0;
  wf_path_id : Exists (fun b => byteZ b <> 0) (path_id e);
  wf_source : node_id_wf (source e);
  wf_destination : node_id_wf (destination e);
  wf_path_nodes : Forall node_id_wf (path e);
  wf_loop_free : NoDup (source e :: destination e :: path e);
  wf_path_count : 1 <= lenZ (path e) <= hop_limit e;
  wf_hop_limit : hop_limit e <= 512;
  wf_hop_index : hop_index e <= lenZ (path e);
  wf_payload : 1 <= lenZ (opaque_payload e) <= 65000;
  wf_frame : encoded_length e <= 65507
}.

Lemma validate_declared_node_length_ok n u :
  0 <= n -> validate_declared_node_length n = Ok u <-> 1 <= n <= 128.
Proof.
  intros Hn. destruct u. unfold validate_declared_node_length, MAX_MULTIHOP_NODE_ID_BYTES.
  split; [intros H; inv_res H; bool_to_prop; lia|].
  intros H. destruct (n =? 0) eqn:?; [lia|]. by destruct (128 <? n) eqn:?; [lia|].
Qed.

Lemma declared_node_length_ok n :
  1 <= n <= 128 -> validate_declared_node_length n = Ok tt.
Proof. intros H. apply validate_declared_node_length_ok; lia. Qed.

Lemma starts_with_1 l b : starts_with l [b] = true <-> head l = Some b.
Proof.
  unfold starts_with. rewrite bool_decide_eq_true.
  destruct l; simpl; [split; discriminate|]. rewrite take_0. naive_solver.
Qed.

Lemma validate_node_id_ok n u : validate_node_id n = Ok u <-> node_id_wf n.
Proof.
  destruct u. unfold validate_node_id, node_id_wf.
  rewrite <- (validate_declared_node_length_ok (lenZ n) tt) by lia.
  destruct (validate_declared_node_length _) as [[]|]; [|naive_solver].
  rewrite guard_ok, <- not_true_iff_false.
  autorewrite with reflect. rewrite starts_with_1, <- forallb_Forall.
  destruct (forallb _ n); naive_solver.
Qed.

Lemma validate_path_nodes_ok src dst before nodes u :
  validate_path_nodes src dst before nodes = Ok u <->
  Forall node_id_wf nodes /\ NoDup nodes /\
  Forall (fun n => n <> src /\ n <> dst /\ n ∉ before) nodes.
Proof.
  destruct u. revert before.
  induction nodes as [|n nodes IH]; intros before; simpl.
  { split; [|done]. intros _. split_and!; constructor. }
  rewrite !Forall_cons, NoDup_cons, <- (validate_node_id_ok n tt).
  destruct (validate_node_id n) as [[]|]; [|naive_solver].
  rewrite guard_ok, IH. autorewrite with reflect.
  rewrite !Forall_forall. set_solver.
Qed.

Lemma encoded_path_length_bound nodes :
  Forall node_id_wf nodes -> 0 <= encoded_path_length nodes <= 130 * lenZ nodes.
Proof. induction 1 as [|n nodes (? & _) _ IH]; simpl; lia. Qed.

Lemma add_path_lengths_ok len nodes :
  0 <= len -> len + encoded_path_length nodes < 2 ^ 64 ->
  add_path_lengths len nodes = Ok (len + encoded_path_length nodes).
Proof.
  revert len. induction nodes as [|n nodes IH]; intros len H0 H; simpl in *.
  { f_equal; lia. }
  assert (0 <= encoded_path_length nodes) by (clear; induction nodes; simpl; lia).
  unfold checked_add.
  destruct (len + 2 <? _) eqn:?; [|lia]. simpl.
  destruct (len + 2 + _ <? _) eqn:?; [|lia]. simpl.
  rewrite IH by lia. f_equal; lia.
Qed.

Lemma length_sum_ok (e : MultiHopEnvelope) :
  lenZ (source e) <= 128 -> lenZ (destination e) <= 128 ->
  lenZ (path e) <= 512 -> Forall node_id_wf (path e) ->
  lenZ (opaque_payload e) <= 65000 ->
  (let? len := ok_or (checked_add 64 FIXED_HEADER_BYTES (lenZ (source e))) FrameTooLarge in
   let? len := ok_or (checked_add 64 len (lenZ (destination e))) FrameTooLarge in
   let? len := add_path_lengths len (path e) in
   let? len := ok_or (checked_add 64 len (lenZ (opaque_payload e))) FrameTooLarge in
   if MAX_MULTIHOP_FRAME_BYTES <? len then Err FrameTooLarge else Ok len)
  = if MAX_MULTIHOP_FRAME_BYTES <? encoded_length e then Err FrameTooLarge
    else Ok (encoded_length e).
Proof.
  intros Hs Hd Hp Hn Hy. pose proof (encoded_path_length_bound _ Hn).
  change FIXED_HEADER_BYTES with 57. unfold encoded_length, checked_add.
  destruct (57 + _ <? 2 ^ 64) eqn:?; [|lia]. simpl ok_or. cbv iota.
  destruct (57 + _ + _ <? 2 ^ 64) eqn:?; [|lia]. simpl ok_or. cbv iota.
  rewrite add_path_lengths_ok by lia.
  destruct (57 + _ + _ + _ + _ <? 2 ^ 64) eqn:?; [|lia]. done.
Qed.

Lemma validate_ok e minimum n :
  0 <= hop_index e ->
  validate e minimum = Ok n <-> envelope_wf minimum e /\ n = encoded_length e.
Proof.
  intros Hi. unfold validate. rewrite !guard_ok. split.
  - intros [Hep [Hpid H]].
    destruct (validate_node_id (source e)) as [[]|] eqn:Hs; [|done].
    destruct (validate_node_id (destination e)) as [[]|] eqn:Hd; [|done].
    rewrite !guard_ok in H. destruct H as (Hsd & Hp0 & Hp & Hl & Hx & Hip & H).
    destruct (validate_path_nodes _ _ _ _) as [[]|] eqn:Hn; [|done].
    rewrite !guard_ok in H. destruct H as (Hy0 & Hy & H).
    apply validate_node_id_ok in Hs, Hd. apply validate_path_nodes_ok in Hn as (Hn & Hnd & Hne).
    pose proof Hs as [? _]. pose proof Hd as [? _]. bool_to_prop.
    apply lenZ_pos in Hp0, Hy0.
    unfold MAX_MULTIHOP_PATH_NODES, MAX_MULTIHOP_PAYLOAD_BYTES in *.
    rewrite length_sum_ok, guard_ok in H by (done || lia). destruct H as [Hf [= <-]].
    apply forallb_false_Exists in Hpid. unfold MAX_MULTIHOP_FRAME_BYTES in Hf.
    split; [|done]. constructor; try done; try lia.
    + eapply Exists_impl; [exact Hpid|]. simpl. intros b ?. lia.
    + rewrite Forall_forall in Hne. rewrite !NoDup_cons. set_solver.
  - intros [[Hep1 Hep2 Hpid Hs Hd Hn Hnd Hp Hl Hix Hy Hf] ->].
    pose proof Hs as [? _]. pose proof Hd as [? _].
    rewrite !NoDup_cons in Hnd. destruct Hnd as (Hsn & Hdn & Hnd).
    apply (validate_node_id_ok _ tt) in Hs as ->, Hd as ->.
    rewrite !guard_ok.
    unshelve epose proof (proj2 (validate_path_nodes_ok (source e) (destination e) [] (path e) tt) _) as ->.
    { split_and!; [done..|]. rewrite Forall_forall. set_solver. }
    rewrite !guard_ok, length_sum_ok, guard_ok by (done || lia).
    unfold MAX_MULTIHOP_PATH_NODES, MAX_MULTIHOP_PAYLOAD_BYTES, MAX_MULTIHOP_FRAME_BYTES.
    autorewrite with reflect. split_and!; try done; try lia.
    + apply forallb_false_Exists. eapply Exists_impl; [exact Hpid|]. simpl. intros b ?. lia.
    + set_solver.
    + apply lenZ_pos; lia.
    + apply lenZ_pos; lia.
Qed.

(** ** The reader as a cursor

    [reader_at r rest]: the reader stands in front of [rest], the suffix of its frame. *)

Definition reader_at (r : FrameReader) (rest : bytes) : Prop :=
  exists pre, frame r = pre ++ rest /\ offset r = lenZ pre /\ lenZ (frame r) < 2 ^ 64.

Lemma reader_at_new fr : lenZ fr < 2 ^ 64 -> reader_at (reader_new fr) fr.
Proof. exists []. done. Qed.

Lemma reader_at_complete r rest :
  reader_at r rest -> reader_is_complete r = true <-> rest = [].
Proof.
  intros (pre & Hf & Ho & _). unfold reader_is_complete.
  rewrite Ho, Hf, length_app, Z.eqb_eq. split; [|intros ->; simpl; lia].
  destruct rest; [done|simpl; lia].
Qed.

Lemma reader_take_ok r rest n s r' :
  0 <= n -> reader_at r rest ->
  reader_take n r = Ok (s, r') <->
  exists rest', rest = s ++ rest' /\ lenZ s = n /\ reader_at r' rest' /\
    r' = {| frame := frame r; offset := offset r + n |}.
Proof.
  intros Hn (pre & Hf & Ho & Hw). unfold reader_take, checked_add. split.
  - intros H. destruct (_ <? _) eqn:Hlt; [|done]. simpl in H.
    destruct (slice_get _ _ _) as [s'|] eqn:Hs; [|done]. simpl in H. simplify_eq.
    apply slice_get_some in Hs as (? & ? & Hl & Hd).
    rewrite Hf, Ho, Nat2Z.id, drop_app_length in Hd.
    eexists. split_and!; [done|lia| |done].
    exists (pre ++ s). rewrite <- app_assoc, <- Hd, length_app. simpl. split_and!; [done|lia|done].
  - intros (rest' & -> & Hl & _ & ->). rewrite Hf in Hw |- *. rewrite !length_app in Hw.
    destruct (_ <? _) eqn:Hlt; [|lia]. simpl.
    by rewrite slice_get_mid by lia.
Qed.

Lemma reader_take_fwd r s rest n :
  reader_at r (s ++ rest) -> lenZ s = n ->
  exists r', reader_take n r = Ok (s, r') /\ reader_at r' rest.
Proof.
  intros Hr Hn. pose proof Hr as (pre & Hf & Ho & Hw).
  assert (reader_at {| frame := frame r; offset := offset r + n |} rest) as Hr'.
  { exists (pre ++ s). rewrite <- app_assoc, length_app. simpl. split_and!; [done|lia|done]. }
  exists {| frame := frame r; offset := offset r + n |}. split; [|done].
  eapply reader_take_ok; [lia|done|]. eauto.
Qed.

Lemma reader_take_inv r rest n s r' :
  reader_take n r = Ok (s, r') -> 0 <= n -> reader_at r rest ->
  exists rest', rest = s ++ rest' /\ lenZ s = n /\ reader_at r' rest'.
Proof. intros H Hn Hr. apply (reader_take_ok _ rest) in H; naive_solver. Qed.

(** The four integer readers, uniformly: [read_int n] reads [n] big-endian bytes. *)
Definition read_int (n : nat) (r : FrameReader) : result (Z * FrameReader) MultiHopCodecError :=
  let? (bs, r) := reader_take (Z.of_nat n) r in Ok (be_value bs, r).

Lemma be_value_1 b : be_value [b] = byteZ b.
Proof. by destruct b. Qed.

Lemma read_u8_int r : read_u8 r = read_int 1 r.
Proof.
  unfold read_u8, read_int, reader_take, checked_add.
  destruct (_ <? _); [simpl|done].
  destruct (slice_get _ _ _) as [s|] eqn:Hg; [simpl|done].
  apply slice_get_some in Hg as (_ & _ & Hl & _).
  destruct s as [|b [|? ?]]; simpl in Hl; try lia. simpl. by rewrite be_value_1.
Qed.

Lemma read_int_fwd n r z rest :
  reader_at r (be_bytes n z ++ rest) -> in_width (8 * Z.of_nat n) z ->
  exists r', read_int n r = Ok (z, r') /\ reader_at r' rest.
Proof.
  intros Hr Hz. unfold read_int.
  destruct (reader_take_fwd _ _ _ (Z.of_nat n) Hr) as (r' & -> & Hr').
  { by rewrite length_be_bytes. }
  exists r'. by rewrite be_value_be_bytes.
Qed.

Lemma read_int_inv n r rest z r' :
  read_int n r = Ok (z, r') -> reader_at r rest ->
  exists rest', rest = be_bytes n z ++ rest' /\ in_width (8 * Z.of_nat n) z /\ reader_at r' rest'.
Proof.
  unfold read_int. intros H Hr. destruct (reader_take _ _) as [[s r1]|] eqn:E; [|done].
  simplify_eq. destruct (reader_take_inv _ rest _ _ _ E) as (rest' & -> & Hl & Hr'); [lia|done|].
  exists rest'. rewrite be_bytes_be_value by lia. split_and!; [done| |done].
  pose proof (be_value_bound s) as Hb. rewrite Hl in Hb. done.
Qed.

Lemma read_u16_int r : read_u16 r = read_int 2 r.
Proof. done. Qed.
Lemma read_u32_int r : read_u32 r = read_int 4 r.
Proof. done. Qed.
Lemma read_u64_int r : read_u64 r = read_int 8 r.
Proof. done. Qed.

Arguments encode_path_node : simpl never.
Arguments read_int : simpl never.
Arguments read_u16 : simpl never.
Arguments reader_take : simpl never.
Arguments validate_declared_node_length : simpl never.
Arguments decode_node_id : simpl never.

(** [rd_fwd] executes the next read of a goal forwards; [rd_inv H] inverts it in [H]. *)
Ltac rd_fwd :=
  rewrite ?read_u8_int, ?read_u16_int, ?read_u32_int, ?read_u64_int;
  match goal with
  | Hr : reader_at ?r (be_bytes ?n ?z ++ _) |- context [read_int ?n ?r] =>
      let r' := fresh "r" in let Hr' := fresh "Hr" in
      destruct (read_int_fwd n r z _ Hr) as (r' & -> & Hr'); [|clear Hr; cbv beta iota]
  | Hr : reader_at ?r (?s ++ _) |- context [reader_take ?n ?r] =>
      let r' := fresh "r" in let Hr' := fresh "Hr" in
      destruct (reader_take_fwd r s _ n Hr) as (r' & -> & Hr'); [|clear Hr; cbv beta iota]
  end.

Ltac rd_inv H :=
  rewrite ?read_u8_int, ?read_u16_int, ?read_u32_int, ?read_u64_int in H;
  lazymatch type of H with
  | context [read_int ?n ?r] =>
      let z := fresh "z" in let r' := fresh "r" in let E := fresh "E" in
      destruct (read_int n r) as [[z r']|] eqn:E; [|discriminate H];
      match goal with Hr : reader_at r ?rest |- _ =>
        let rest' := fresh "rest" in let Hz := fresh "Hz" in let Hr' := fresh "Hr" in
        destruct (read_int_inv _ _ _ _ _ E Hr) as (rest' & -> & Hz & Hr'); clear E Hr
      end
  | context [reader_take ?n ?r] =>
      let s := fresh "s" in let r' := fresh "r" in let E := fresh "E" in
      destruct (reader_take n r) as [[s r']|] eqn:E; [|discriminate H];
      match goal with Hr : reader_at r ?rest |- _ =>
        let rest' := fresh "rest" in let Hl := fresh "Hl" in let Hr' := fresh "Hr" in
        destruct (reader_take_inv _ _ _ _ _ E ltac:(unfold in_width in *; lia) Hr)
          as (rest' & -> & Hl & Hr'); clear E Hr
      end
  end; cbv beta iota in H.

Lemma node_id_wf_utf8 n : node_id_wf n -> utf8_valid n = true.
Proof.
  intros (_ & _ & _ & _ & H). apply utf8_valid_ascii. apply forallb_Forall.
  eapply Forall_impl; [exact H|]. clear. intros b. unfold node_id_byte. simpl.
  rewrite !orb_true_iff, !bool_decide_eq_true.
  intros [[[H| ->]| ->]| ->]; [by apply is_ascii_alphanumeric_ascii|done..].
Qed.

Lemma decode_node_id_ok bs n : decode_node_id bs = Ok n <-> n = bs /\ node_id_wf bs.
Proof.
  unfold decode_node_id. rewrite guard_ok. split.
  - intros [_ H]. destruct (validate_node_id bs) eqn:E; [|done].
    apply validate_node_id_ok in E. by simplify_eq.
  - intros [-> H]. rewrite node_id_wf_utf8 by done.
    by rewrite (proj2 (validate_node_id_ok bs tt) H).
Qed.

Lemma encode_path_cons n nodes rest :
  node_id_wf n ->
  concat (map encode_path_node (n :: nodes)) ++ rest
  = be_bytes 2 (lenZ n) ++ n ++ concat (map encode_path_node nodes) ++ rest.
Proof.
  intros [? _]. cbn [concat map]. unfold encode_path_node at 1.
  rewrite as_width_id by (unfold in_width; lia). by rewrite <- !app_assoc.
Qed.

Lemma decode_path_fwd nodes rest r :
  Forall node_id_wf nodes ->
  reader_at r (concat (map encode_path_node nodes) ++ rest) ->
  exists r', decode_path (length nodes) r = Ok (nodes, r') /\ reader_at r' rest.
Proof.
  intros Hn. revert r. induction Hn as [|n nodes Hn Hns IH]; intros r Hr; [by eauto|].
  rewrite encode_path_cons in Hr by done. pose proof Hn as [? _]. simpl.
  rd_fwd; [unfold in_width; lia|].
  rewrite declared_node_length_ok by lia.
  rd_fwd; [done|].
  rewrite (proj2 (decode_node_id_ok n n)) by done.
  edestruct IH as (r' & -> & ?); [eassumption|]. eauto.
Qed.

Lemma decode_path_inv count r rest nodes r' :
  decode_path count r = Ok (nodes, r') -> reader_at r rest ->
  exists rest', rest = concat (map encode_path_node nodes) ++ rest' /\
    length nodes = count /\ reader_at r' rest'.
Proof.
  revert r rest nodes. induction count as [|count IH]; simpl; intros r rest nodes H Hr.
  { simplify_eq. eauto. }
  rd_inv H. destruct (validate_declared_node_length _) eqn:Hv; [|done].
  rd_inv H. destruct (decode_node_id _) eqn:Hd; [|done].
  apply decode_node_id_ok in Hd as [-> Hd].
  destruct (decode_path _ _) as [[ns r2]|] eqn:Hp; [|done]. simplify_eq.
  destruct (IH _ _ _ Hp Hr) as (rest' & -> & <- & Hr').
  exists rest'. by rewrite encode_path_cons by done.
Qed.

(** ** Encoding and decoding are inverse *)

Lemma Zbyte_be z : [Zbyte z] = be_bytes 1 z.
Proof. done. Qed.

Lemma concat_encoded_path_length nodes :
  lenZ (concat (map encode_path_node nodes)) = encoded_path_length nodes.
Proof.
  induction nodes as [|n nodes IH]; [done|]. cbn [concat map encoded_path_length foldr].
  fold (encoded_path_length nodes). unfold encode_path_node at 1.
  rewrite !length_app, length_be_bytes. lia.
Qed.

Lemma encode_ok e fr :
  envelope_typed e -> encode e = Ok fr -> envelope_wf 1 e /\ lenZ fr = encoded_length e.
Proof.
  intros (_ & Hpid & _ & [Hix _] & _) H. unfold encode in H.
  destruct (validate e 1) eqn:Hv; [|done].
  apply validate_ok in Hv as [Hwf _]; [|done]. split; [done|].
  apply Ok_inj in H as <-. unfold encoded_length.
  autorewrite with len. rewrite <- concat_encoded_path_length. simpl. lia.
Qed.

Lemma encode_then_decode e minimum fr :
  envelope_typed e -> minimum <= topology_epoch e -> encode e = Ok fr ->
  decode fr minimum = Ok e.
Proof.
  intros Hty Hmin Henc. destruct (encode_ok _ _ Hty Henc) as [Hwf Hlen].
  assert (envelope_wf minimum e) as Hwf' by (destruct Hwf; by constructor).
  destruct Hty as (Hep & Hpid & Hseq & Hidx & Hlim).
  pose proof Hwf as [_ _ _ Hs Hd Hn _ Hpc Hhl _ Hy Hfr].
  pose proof Hs as [Hsl _]. pose proof Hd as [Hdl _].
  assert (0 <= encoded_path_length (path e)) by (by apply encoded_path_length_bound).
  unfold encode in Henc. destruct (validate e 1) eqn:Hv1; [|done].
  rewrite !as_width_id, !Zbyte_be in Henc by (unfold in_width; lia).
  apply Ok_inj in Henc as Hfrm. unfold encoded_length in *.
  unfold decode, MAX_MULTIHOP_FRAME_BYTES. change FIXED_HEADER_BYTES with 57.
  apply guard_ok; split; [lia|]. apply guard_ok; split; [lia|].
  assert (reader_at (reader_new fr) fr) as Hr by (apply reader_at_new; lia).
  rewrite <- Hfrm in Hr at 2.
  rd_fwd; [done|]. apply guard_ok; split; [reflexivity|].
  rd_fwd; [done|]. apply guard_ok; split; [done|].
  rd_fwd; [done|]. apply guard_ok; split; [done|].
  rd_fwd; [done|]. rd_fwd; [done|]. rd_fwd; [done|]. rd_fwd; [done|]. rd_fwd; [done|].
  rd_fwd; [unfold in_width; lia|]. rd_fwd; [done|]. apply guard_ok; split; [done|].
  do 3 (rd_fwd; [unfold in_width; lia|]).
  rewrite !declared_node_length_ok by lia.
  unfold MAX_MULTIHOP_PATH_NODES, MAX_MULTIHOP_PAYLOAD_BYTES.
  do 4 (apply guard_ok; split; [lia|]).
  rd_fwd; [done|]. rewrite (proj2 (decode_node_id_ok _ (source e))) by done.
  rd_fwd; [done|]. rewrite (proj2 (decode_node_id_ok _ (destination e))) by done.
  rewrite Nat2Z.id.
  edestruct decode_path_fwd as (r' & -> & Hr'); [exact Hn|eassumption|].
  rewrite <- (app_nil_r (opaque_payload e)) in Hr'. rd_fwd; [done|].
  rewrite (proj2 (reader_at_complete _ _ Hr)) by done.
  assert (validate e minimum = Ok (encoded_length e)) as Hv
    by (apply validate_ok; [apply Hidx|done]).
  destruct e. cbn [negb topology_epoch path_id sequence hop_index hop_limit source
    destination path opaque_payload] in *. by rewrite Hv.
Qed.

(** A successful decode determines the frame: its bytes are the fields in order. *)
Lemma decode_inv fr minimum e :
  decode fr minimum = Ok e ->
  envelope_typed e /\ envelope_wf minimum e /\
  fr = MULTIHOP_FRAME_MAGIC ++ be_bytes 1 MULTIHOP_FRAME_VERSION ++ be_bytes 1 0 ++ be_bytes 8 (topology_epoch e)
       ++ path_id e ++ be_bytes 8 (sequence e) ++ be_bytes 2 (hop_index e)
       ++ be_bytes 2 (hop_limit e) ++ be_bytes 2 (lenZ (path e)) ++ be_bytes 1 0
       ++ be_bytes 2 (lenZ (source e)) ++ be_bytes 2 (lenZ (destination e))
       ++ be_bytes 4 (lenZ (opaque_payload e)) ++ source e ++ destination e
       ++ concat (map encode_path_node (path e)) ++ opaque_payload e.
Proof.
  unfold decode, MAX_MULTIHOP_FRAME_BYTES. rewrite !guard_ok. intros (Hmax & _ & H).
  assert (reader_at (reader_new fr) fr) as Hr by (apply reader_at_new; lia).
  rd_inv H. rewrite guard_ok in H. destruct H as [Hm H].
  apply bool_decide_eq_false, dec_stable in Hm as ->.
  do 2 (rd_inv H; rewrite guard_ok in H; destruct H as [?%negb_false_iff%Z.eqb_eq H]; subst).
  unfold MULTIHOP_PATH_ID_BYTES in H. do 6 rd_inv H.
  rd_inv H. rewrite guard_ok in H; destruct H as [?%negb_false_iff%Z.eqb_eq H]; subst.
  do 3 rd_inv H.
  destruct (validate_declared_node_length _) eqn:Hv1; [|done].
  destruct (validate_declared_node_length _) eqn:Hv2 in H; [|done].
  rewrite !guard_ok in H. destruct H as (? & ? & ? & ? & H).
  rd_inv H. destruct (decode_node_id _) eqn:Hd1; [|done].
  rd_inv H. destruct (decode_node_id _) eqn:Hd2 in H; [|done].
  apply decode_node_id_ok in Hd1 as [-> _], Hd2 as [-> _].
  destruct (decode_path _ _) as [[nodes r']|] eqn:Hp; [|done].
  match goal with Hr : reader_at _ _ |- _ =>
    destruct (decode_path_inv _ _ _ _ _ Hp Hr) as (rest' & -> & Hnl & Hr'); clear Hr end.
  rd_inv H. rewrite guard_ok in H. destruct H as [Hc%negb_false_iff H].
  apply (reader_at_complete _ _ Hr) in Hc as ->.
  destruct (validate _ _) eqn:Hv; [|done]. apply Ok_inj in H as <-.
  unfold in_width in *.
  apply validate_ok in Hv as [Hwf _]; [|simpl; lia].
  cbn [topology_epoch path_id sequence hop_index hop_limit source destination path opaque_payload].
  split_and!; [|done|].
  - unfold envelope_typed, in_width. simpl. lia.
  - rewrite Hnl, Z2Nat.id, app_nil_r by lia. congruence.
Qed.

Lemma decode_then_encode fr minimum e :
  decode fr minimum = Ok e -> encode e = Ok fr.
Proof.
  intros H. apply decode_inv in H as ((Hep & _ & _ & Hix & _) & Hwf & ->).
  pose proof Hwf as [He1 He2 Hpi [? ?] [? ?] Hn Hnd Hpc Hhl Hi Hy Hf].
  assert (envelope_wf 1 e) as Hwf1.
  { destruct Hwf; constructor; try done. unfold in_width in Hep. lia. }
  unfold encode. rewrite (proj2 (validate_ok e 1 _ (proj1 Hix)) (conj Hwf1 eq_refl)).
  unfold in_width in *. by rewrite !as_width_id by (unfold in_width; lia).
Qed.

Lemma decode_wf fr minimum e :
  decode fr minimum = Ok e ->
  envelope_typed e /\ envelope_wf minimum e /\ lenZ fr = encoded_length e.
Proof.
  intros H. pose proof (decode_then_encode _ _ _ H) as He.
  apply decode_inv in H as (Hty & Hwf & _). split_and!; [done..|]. by apply encode_ok.
Qed.

Lemma wf_encode e :
  envelope_typed e -> envelope_wf 1 e -> exists fr, encode e = Ok fr /\ lenZ fr = encoded_length e.
Proof.
  intros Hty Hwf. pose proof Hty as (_ & _ & _ & [Hi _] & _).
  pose proof (proj2 (validate_ok e 1 _ Hi) (conj Hwf eq_refl)) as Hv.
  destruct (encode e) as [fr|] eqn:He; [|by unfold encode in He; rewrite Hv in He].
  exists fr. split; [done|]. by apply encode_ok.
Qed.

(** C35: [decode] is the inverse of [encode]: it yields an envelope exactly from the one frame
    [encode] makes of it, under any minimum epoch the envelope meets. So every encoded
    envelope is read back as it was, and no two frames carry the same envelope. *)
Theorem decode_iff_encoded fr minimum e :
  decode fr minimum = Ok e <-> envelope_typed e /\ minimum <= topology_epoch e /\ encode e = Ok fr.
Proof.
  split.
  - intros H. pose proof (decode_inv _ _ _ H) as (Hty & Hwf & _). pose proof (wf_epoch _ _ Hwf).
    split_and!; [done..|]. by eapply decode_then_encode.
  - intros (Hty & Hmin & Henc). by apply encode_then_decode.
Qed.

(** ** Walking the route *)

(** The relays that process a frame one after the other. *)
Fixpoint advance_all (e : MultiHopEnvelope) (nodes : list NodeId) (minimum : Z)
  : result MultiHopEnvelope MultiHopCodecError :=
  match nodes with
  | [] => Ok e
  | n :: nodes => let? e := advance_hop e n minimum in advance_all e nodes minimum
  end.

Lemma advance_hop_ok e n minimum e' :
  0 <= hop_index e ->
  advance_hop e n minimum = Ok e' <->
  envelope_wf minimum e /\ next_hop e = Some n /\ e' = set_hop_index e (hop_index e + 1).
Proof.
  intros Hi. unfold advance_hop, next_hop. split.
  - intros H. destruct (validate e minimum) eqn:Hv; [|done].
    apply validate_ok in Hv as [Hwf _]; [|done].
    rewrite !guard_ok in H. destruct H as (Hlt & Hlim & H).
    destruct (bool_decide _) eqn:Hn; [by destruct (_ || _)|].
    apply bool_decide_eq_false, dec_stable in Hn.
    unfold checked_add in H. destruct (_ <? 2 ^ 16); [simpl in H|done].
    rewrite guard_ok in H. destruct H as [_ [= <-]]. done.
  - intros (Hwf & Hn & ->). rewrite (proj2 (validate_ok e _ _ Hi) (conj Hwf eq_refl)).
    destruct Hwf as [_ _ _ _ _ _ _ Hpc Hhl _ _ _].
    pose proof (lookup_lt_Some _ _ _ Hn).
    do 2 (apply guard_ok; split; [lia|]).
    rewrite Hn, bool_decide_false by tauto. unfold checked_add.
    destruct (_ <? 2 ^ 16) eqn:?; [simpl|lia]. apply guard_ok; split; [lia|done].
Qed.

Lemma envelope_wf_set_hop_index minimum e i :
  envelope_wf minimum e -> i <= lenZ (path e) -> envelope_wf minimum (set_hop_index e i).
Proof. intros [] ?. by constructor. Qed.
#[local] Hint Resolve envelope_wf_set_hop_index : ipars.

(** From a well-formed envelope the accepted walks are the prefixes of what is left of
    the path. *)
Lemma advance_all_ok nodes e minimum e' :
  0 <= hop_index e -> envelope_wf minimum e ->
  advance_all e nodes minimum = Ok e' <->
  (exists rest, drop (Z.to_nat (hop_index e)) (path e) = nodes ++ rest) /\
  e' = set_hop_index e (hop_index e + lenZ nodes).
Proof.
  revert e. induction nodes as [|n nodes IH]; intros e Hi Hwf; simpl.
  - rewrite Z.add_0_r. destruct e; simpl. unfold set_hop_index; simpl.
    split; [intros [= <-]; eauto|by intros [_ ->]].
  - split.
    + intros H. destruct (advance_hop _ _ _) as [e1|] eqn:Ha; [|done].
      apply advance_hop_ok in Ha as (_ & Hn & ->); [|done]. unfold next_hop in Hn.
      pose proof (lookup_lt_Some _ _ _ Hn).
      apply IH in H as [[rest Hr] ->]; simpl; [|lia|apply envelope_wf_set_hop_index; [done|lia]].
      simpl in Hr. split.
      * exists rest. rewrite (drop_S _ n) by done. simpl. rewrite <- Hr. do 2 f_equal. lia.
      * unfold set_hop_index; simpl. f_equal. lia.
    + intros [[rest Hr] ->].
      assert (path e !! Z.to_nat (hop_index e) = Some n) as Hn.
      { rewrite <- (Nat.add_0_r (Z.to_nat _)), <- lookup_drop, Hr. done. }
      pose proof (lookup_lt_Some _ _ _ Hn).
      rewrite (proj2 (advance_hop_ok e n minimum _ Hi)) by done.
      apply IH; simpl; [lia|apply envelope_wf_set_hop_index; [done|lia]|]. split.
      * exists rest. rewrite (drop_S _ n) in Hr by done. simplify_list_eq.
        rewrite <- Hr. f_equal. lia.
      * unfold set_hop_index; simpl. f_equal. lia.
Qed.

(** The payload of a fresh envelope is released exactly when the relays that
    processed it are the nodes of its path, in order and completely, and the node asking
    is the declared destination; the released payload is the one sealed in it. *)
Theorem payload_released_iff e minimum nodes d p :
  hop_index e = 0 -> envelope_wf minimum e ->
  (exists e', advance_all e nodes minimum = Ok e' /\ payload_for_destination e' d = Ok p) <->
  nodes = path e /\ d = destination e /\ p = opaque_payload e.
Proof.
  intros H0 Hwf. pose proof (advance_all_ok nodes e minimum) as Hadv.
  unfold payload_for_destination, is_route_complete. rewrite H0, drop_0 in Hadv. split.
  - intros (e' & Ha & Hp). apply Hadv in Ha as [[rest Hr] ->]; [|lia|done].
    rewrite guard_ok in Hp. simpl in Hp. destruct Hp as [Hc [= <-]].
    bool_to_prop. apply dec_stable in H. subst d. rewrite Hr in *.
    rewrite length_app in *. destruct rest; [|simpl in *; lia]. by rewrite app_nil_r.
  - intros (-> & -> & ->). exists (set_hop_index e (lenZ (path e))). split.
    + apply Hadv; [lia|done|]. rewrite Z.add_0_l. split; [|done].
      exists []. by rewrite app_nil_r.
    + simpl. rewrite bool_decide_false by tauto. by rewrite Z.eqb_refl.
Qed.

(** [encode] succeeds exactly on the well-formed envelopes (epoch and path id set,
    canonical and pairwise distinct node names, limits respected, a non-empty payload),
    and the frame has exactly the length [validate] computed. *)
Theorem encode_iff_wf e n :
  envelope_typed e ->
  (exists fr, encode e = Ok fr /\ validate e 1 = Ok n /\ lenZ fr = n) <->
  envelope_wf 1 e /\ n = encoded_length e.
Proof.
  intros Hty. pose proof Hty as (_ & _ & _ & [Hi _] & _). split.
  - intros (fr & He & _ & <-). by apply encode_ok.
  - intros [Hwf ->]. destruct (wf_encode e Hty Hwf) as (fr & He & Hl). exists fr.
    split_and!; [done| |done]. by apply validate_ok.
Qed.

(** ** A concrete route *)

Definition sample : MultiHopEnvelope :=
  {| topology_epoch := 7; path_id := x01 :: replicate 15 x00; sequence := 42;
     hop_index := 0; hop_limit := 4; source := bstr "alpha"; destination := bstr "omega";
     path := [bstr "r1"; bstr "r2.eu"]; opaque_payload := [xde; xad; xbe; xef] |}.

Definition sample_frame : bytes :=
  Eval vm_compute in match encode sample with Ok fr => fr | Err _ => [] end.

Lemma sample_typed : envelope_typed sample.
Proof. unfold envelope_typed, in_width. simpl. lia. Qed.

Lemma sample_wf : envelope_wf 1 sample.
Proof.
  apply (validate_ok sample 1 (encoded_length sample)); [by vm_compute|]. by vm_compute.
Qed.

Lemma payload_released_iff_witness :
  exists e', advance_all sample [bstr "r1"; bstr "r2.eu"] 1 = Ok e' /\
    payload_for_destination e' (bstr "omega") = Ok [xde; xad; xbe; xef].
Proof. apply (payload_released_iff sample 1); [done|apply sample_wf|done]. Defined.

Lemma encode_iff_wf_witness : envelope_wf 1 sample /\ lenZ sample_frame = encoded_length sample.
Proof.
  apply (encode_iff_wf sample (lenZ sample_frame)); [apply sample_typed|].
  exists sample_frame. by vm_compute.
Defined.

End Multihop.
