(* ===== verification/ReplayWindow.v ===== *)
(** * Replay protection of the overlay forwarder
      (crates/ipars-agent/src/overlay_forwarder.rs, [ReplayWindow])

    Per path, a window of the last 1024 sequence numbers kept as sixteen 64-bit words;
    across paths, a bounded map with a recency queue that decides what is evicted. The
    bitmap is shown to implement the set of sequence numbers accepted so far. *)

From S2P Require Import Prelude RustStd.
From Stdlib Require Import Sorting.Sorted.

Module Replay.

Definition OVERLAY_PEER_MAX_IN_FLIGHT_DATAGRAMS : Z := 256.
Definition OVERLAY_SEQUENCE_RESERVATIONS_PER_DATAGRAM : Z := 2.
Definition OVERLAY_REPLAY_SEQUENCE_WINDOW_BITS : Z :=
  OVERLAY_PEER_MAX_IN_FLIGHT_DATAGRAMS * OVERLAY_SEQUENCE_RESERVATIONS_PER_DATAGRAM * 2.
Definition OVERLAY_REPLAY_SEQUENCE_WINDOW_WORDS : Z :=
  OVERLAY_REPLAY_SEQUENCE_WINDOW_BITS / 64.

(** ** The bitmap of one path *)

Record ReplaySequenceWindow : Type := { highest : Z; seen : list Z }.

Definition empty_words : list Z :=
  replicate (Z.to_nat OVERLAY_REPLAY_SEQUENCE_WINDOW_WORDS) 0.

(** [self.seen[index]]; every access of the code is below the sixteen words. *)
Definition word_at (words : list Z) (index : nat) : Z := nth index words 0.

(** [self.seen[index] |= bits] on a 64-bit word. *)
Definition or_word (words : list Z) (index : Z) (bits : Z) : list Z :=
  alter (fun w => Z.lor w bits) (Z.to_nat index) words.

Definition window_new (h : Z) : ReplaySequenceWindow :=
  {| highest := h; seen := <[0%nat := 1]> empty_words |}.

Fixpoint shift_loop (previous : list Z) (source_index word_shift bit_shift : Z)
    (words : list Z) : list Z :=
  match previous with
  | [] => words
  | word :: previous =>
      let target_index := source_index + word_shift in
      if lenZ words <=? target_index then words else
      let words := or_word words target_index (as_width 64 (Z.shiftl word bit_shift)) in
      let words :=
        if (0 <? bit_shift) && (target_index + 1 <? lenZ words)
        then or_word words (target_index + 1) (Z.shiftr word (64 - bit_shift))
        else words in
      shift_loop previous (source_index + 1) word_shift bit_shift words
  end.

Definition shift_older (w : ReplaySequenceWindow) (distance : Z) : ReplaySequenceWindow :=
  let previous := seen w in
  let word_shift := distance / 64 in
  let bit_shift := distance mod 64 in
  {| highest := highest w;
     seen := shift_loop previous 0 word_shift bit_shift empty_words |}.

Definition advance_to (w : ReplaySequenceWindow) (sequence : Z) : ReplaySequenceWindow :=
  let advance := sequence - highest w in
  let w :=
    if OVERLAY_REPLAY_SEQUENCE_WINDOW_BITS <=? advance
    then {| highest := highest w; seen := empty_words |}
    else shift_older w advance in
  {| highest := sequence; seen := or_word (seen w) 0 1 |}.

Definition contains (w : ReplaySequenceWindow) (distance : Z) : bool :=
  let word_index := distance / 64 in
  let bit_index := distance mod 64 in
  negb (Z.land (word_at (seen w) (Z.to_nat word_index)) (Z.shiftl 1 bit_index) =? 0).

Definition insert (w : ReplaySequenceWindow) (distance : Z) : ReplaySequenceWindow :=
  let word_index := distance / 64 in
  let bit_index := distance mod 64 in
  {| highest := highest w; seen := or_word (seen w) word_index (Z.shiftl 1 bit_index) |}.

(** ** The window over all paths *)

Record ReplayPathKey : Type := {
  topology_epoch : Z;
  source : NodeId;
  path_id : bytes
}.

#[global] Instance ReplayPathKey_eq_dec : EqDecision ReplayPathKey.
Proof. solve_decision. Defined.

#[global, refine] Instance ReplayPathKey_countable : Countable ReplayPathKey :=
  inj_countable' (fun k => (topology_epoch k, source k, path_id k))
    (fun '(t, s, p) => {| topology_epoch := t; source := s; path_id := p |}) _.
Proof. by intros []. Defined.

Record ReplayWindow : Type := {
  capacity : Z;
  sequences : gmap ReplayPathKey ReplaySequenceWindow;
  recency : list (ReplayPathKey * Z)
}.

(** The one error the window raises, [OverlayForwarderError::ReplayRejected]. *)
Record ReplayRejected : Type := { source_node : NodeId; rejected : Z; rejected_highest : Z }.

Definition new (cap : Z) : ReplayWindow :=
  {| capacity := cap; sequences := ∅; recency := [] |}.

Definition len (r : ReplayWindow) : Z := Z.of_nat (size (sequences r)).

(** [sequences.get(key).is_some_and(|window| window.highest == observed)] *)
Definition entry_live (m : gmap ReplayPathKey ReplaySequenceWindow)
    (entry : ReplayPathKey * Z) : bool :=
  match m !! entry.1 with
  | Some window => highest window =? entry.2
  | None => false
  end.

Definition compact_recency (r : ReplayWindow) : ReplayWindow :=
  {| capacity := capacity r; sequences := sequences r;
     recency := filter (fun entry => entry_live (sequences r) entry = true) (recency r) |}.

Fixpoint evict_loop (cap : Z) (m : gmap ReplayPathKey ReplaySequenceWindow)
    (queue : list (ReplayPathKey * Z))
  : gmap ReplayPathKey ReplaySequenceWindow * list (ReplayPathKey * Z) :=
  if cap <? Z.of_nat (size m) then
    match queue with
    | [] => (m, [])
    | entry :: queue =>
        let m := if entry_live m entry then delete entry.1 m else m in
        evict_loop cap m queue
    end
  else (m, queue).

Definition evict_to_capacity (r : ReplayWindow) : ReplayWindow :=
  let '(m, queue) := evict_loop (capacity r) (sequences r) (recency r) in
  {| capacity := capacity r; sequences := m; recency := queue |}.

Definition retain_epochs (r : ReplayWindow) (retained_epochs : gset Z) : ReplayWindow :=
  compact_recency
    {| capacity := capacity r;
       sequences := filter (fun kw => topology_epoch kw.1 ∈ retained_epochs) (sequences r);
       recency := recency r |}.

Definition push_recency (r : ReplayWindow) (key : ReplayPathKey) (seq : Z) : ReplayWindow :=
  let r := if saturating_mul 64 (capacity r) 2 <=? lenZ (recency r)
           then compact_recency r else r in
  {| capacity := capacity r; sequences := sequences r; recency := recency r ++ [(key, seq)] |}.

Definition set_window (r : ReplayWindow) (key : ReplayPathKey) (w : ReplaySequenceWindow)
  : ReplayWindow :=
  {| capacity := capacity r; sequences := <[key := w]> (sequences r); recency := recency r |}.

Definition observe (r : ReplayWindow) (epoch : Z) (src : NodeId) (pid : bytes) (sequence : Z)
  : ReplayWindow * result unit ReplayRejected :=
  let key := {| topology_epoch := epoch; source := src; path_id := pid |} in
  match sequences r !! key with
  | Some window =>
      if highest window <? sequence then
        let window := advance_to window sequence in
        let r := push_recency (set_window r key window) key (highest window) in
        (evict_to_capacity r, Ok tt)
      else
        let distance := highest window - sequence in
        if OVERLAY_REPLAY_SEQUENCE_WINDOW_BITS <=? distance then
          (r, Err {| source_node := src; rejected := sequence;
                     rejected_highest := highest window |})
        else if contains window distance then
          (r, Err {| source_node := src; rejected := sequence;
                     rejected_highest := highest window |})
        else
          (evict_to_capacity (set_window r key (insert window distance)), Ok tt)
  | None =>
      let r := push_recency (set_window r key (window_new sequence)) key sequence in
      (evict_to_capacity r, Ok tt)
  end.

Arguments push_recency : simpl never.
Arguments evict_to_capacity : simpl never.
Arguments advance_to : simpl never.

(** ** Bits *)

(** A window's words: sixteen of them, each of 64 bits. *)
Definition words_wf (words : list Z) : Prop :=
  length words = 16%nat /\ Forall is_u64 words.

Definition bit_at (words : list Z) (d : Z) : bool :=
  Z.testbit (word_at words (Z.to_nat (d / 64))) (d mod 64).

Lemma land_bit_test w i :
  0 <= i -> negb (Z.land w (Z.shiftl 1 i) =? 0) = Z.testbit w i.
Proof.
  intros Hi. destruct (Z.testbit w i) eqn:Hb; bool_to_prop; apply eq_true_iff_eq; reflect_rw.
  - split; [done|]. intros _ H.
    assert (Z.testbit (Z.land w (Z.shiftl 1 i)) i = true) as H1
      by (rewrite Z.land_spec, Hb, Z.shiftl_spec, Z.sub_diag by done; done).
    rewrite H, Z.bits_0 in H1. done.
  - split; [|done]. intros []. apply Z.bits_inj. intros j. rewrite Z.bits_0, Z.land_spec.
    destruct (decide (j = i)) as [->|Hj]; [by rewrite Hb|].
    destruct (Z.testbit (Z.shiftl 1 i) j) eqn:E; [|by rewrite andb_false_r]. exfalso.
    destruct (decide (0 <= j)); [|by rewrite Z.testbit_neg_r in E by lia].
    rewrite Z.shiftl_1_l, Z.pow2_bits_eqb in E by lia. lia.
Qed.

Lemma contains_bit w d : contains w d = bit_at (seen w) d.
Proof. unfold contains, bit_at. apply land_bit_test. dlia. Qed.

Lemma or_word_at words i bits t :
  0 <= i < lenZ words ->
  word_at (or_word words i bits) t
  = if decide (t = Z.to_nat i) then Z.lor (word_at words t) bits else word_at words t.
Proof.
  intros Hi. unfold or_word, word_at. rewrite !nth_lookup.
  case_decide as Ht.
  - subst t. rewrite list_lookup_alter_eq.
    destruct (lookup_lt_is_Some_2 words (Z.to_nat i)) as [x ->]; [lia|done].
  - by rewrite list_lookup_alter_ne by done.
Qed.

Lemma length_or_word words i bits : length (or_word words i bits) = length words.
Proof. apply length_alter. Qed.

(** What the source words contribute to word [t] of the shifted bitmap. *)
Definition low_part (previous : list Z) (i ws bs : Z) (t : nat) : Z :=
  if i + ws <=? Z.of_nat t
  then as_width 64 (Z.shiftl (word_at previous (Z.to_nat (Z.of_nat t - ws - i))) bs) else 0.
Definition carry_part (previous : list Z) (i ws bs : Z) (t : nat) : Z :=
  if (0 <? bs) && (i + ws + 1 <=? Z.of_nat t)
  then Z.shiftr (word_at previous (Z.to_nat (Z.of_nat t - ws - 1 - i))) (64 - bs) else 0.

Lemma word_at_cons w l k j :
  k = j + 1 -> 0 <= j -> word_at (w :: l) (Z.to_nat k) = word_at l (Z.to_nat j).
Proof. intros -> Hj. by rewrite Z2Nat.inj_add, Nat.add_comm by lia. Qed.

Lemma low_part_0 l i ws bs t : Z.of_nat t < i + ws -> low_part l i ws bs t = 0.
Proof. intros. unfold low_part. by destruct (_ <=? _) eqn:?; [lia|]. Qed.
Lemma carry_part_0 l i ws bs t : Z.of_nat t < i + ws + 1 -> carry_part l i ws bs t = 0.
Proof. intros. unfold carry_part. by destruct (_ && _) eqn:?; [lia|]. Qed.

Lemma low_part_cons w l i ws bs t :
  low_part (w :: l) i ws bs t
  = if Z.of_nat t =? i + ws then as_width 64 (Z.shiftl w bs) else low_part l (i + 1) ws bs t.
Proof.
  unfold low_part. destruct (_ =? _) eqn:E1.
  - destruct (_ <=? _) eqn:?; [|lia]. by replace (Z.of_nat t - ws - i) with 0 by lia.
  - destruct (i + ws <=? _) eqn:?, (i + 1 + ws <=? _) eqn:?; try lia; try done.
    by rewrite (word_at_cons _ _ _ (Z.of_nat t - ws - (i + 1))) by lia.
Qed.

Lemma carry_part_cons w l i ws bs t :
  carry_part (w :: l) i ws bs t
  = if (0 <? bs) && (Z.of_nat t =? i + ws + 1) then Z.shiftr w (64 - bs)
    else carry_part l (i + 1) ws bs t.
Proof.
  unfold carry_part. destruct (0 <? bs); simpl; [|done].
  destruct (_ =? _) eqn:E1.
  - destruct (_ <=? _) eqn:?; [|lia]. by replace (Z.of_nat t - ws - 1 - i) with 0 by lia.
  - destruct (i + ws + 1 <=? _) eqn:?, (i + 1 + ws + 1 <=? _) eqn:?; try lia; try done.
    by rewrite (word_at_cons _ _ _ (Z.of_nat t - ws - 1 - (i + 1))) by lia.
Qed.

Lemma shift_loop_word previous i ws bs words t :
  0 <= i -> 0 <= ws -> (t < length words)%nat ->
  word_at (shift_loop previous i ws bs words) t
  = Z.lor (word_at words t) (Z.lor (low_part previous i ws bs t) (carry_part previous i ws bs t)).
Proof.
  intros Hi Hws. revert i words Hi. induction previous as [|word previous IH];
    intros i words Hi Ht; cbn [shift_loop].
  - unfold low_part, carry_part, word_at. rewrite !nth_lookup, !lookup_nil. simpl.
    rewrite Z.shiftl_0_l, Z.shiftr_0_l. unfold as_width. rewrite Zmod_0_l.
    by destruct (_ <=? _), (_ && _); rewrite ?Z.lor_0_r.
  - destruct (_ <=? i + ws) eqn:Hbr.
    { unfold low_part, carry_part. destruct (i + ws <=? Z.of_nat t) eqn:?; [lia|].
      destruct (_ && _) eqn:?; [lia|]. by rewrite !Z.lor_0_r. }
    bool_to_prop. rewrite low_part_cons, carry_part_cons.
    rewrite IH; [|lia|destruct (_ && _); by rewrite ?length_or_word].
    rewrite length_or_word.
    destruct (0 <? bs) eqn:Hbs; simpl;
      [destruct (i + ws + 1 <? _) eqn:?; bool_to_prop|];
      rewrite ?or_word_at by (rewrite ?length_or_word; lia);
      repeat case_decide; destruct (_ =? i + ws) eqn:?; try destruct (_ =? i + ws + 1) eqn:?; try lia.
    + rewrite (carry_part_0 _ (i + 1)), Z.lor_0_r by lia. rewrite <- Z.lor_assoc. f_equal.
      apply Z.lor_comm.
    + rewrite (low_part_0 _ (i + 1)), Z.lor_0_l, Z.lor_assoc by lia. done.
    + rewrite (low_part_0 _ (i + 1)), Z.lor_0_l, Z.lor_assoc by lia. done.
    + rewrite (low_part_0 _ (i + 1)), Z.lor_0_l, Z.lor_assoc by lia. done.
Qed.

Lemma length_shift_loop previous i ws bs words :
  length (shift_loop previous i ws bs words) = length words.
Proof.
  revert i words. induction previous as [|w l IH]; intros i words; simpl; [done|].
  destruct (_ <=? _); [done|]. rewrite IH. destruct (_ && _); by rewrite ?length_or_word.
Qed.

Lemma word_at_u64 words t : words_wf words -> is_u64 (word_at words t).
Proof.
  intros [_ Hw]. unfold word_at. rewrite nth_lookup.
  destruct (words !! t) eqn:E; simpl; [by eapply Forall_lookup|by unfold in_width].
Qed.

Lemma testbit_u64_high w b : is_u64 w -> 64 <= b -> Z.testbit w b = false.
Proof.
  intros Hw Hb. rewrite <- (Z.mod_small w (2 ^ 64)) by done. by apply Z.mod_pow2_bits_high.
Qed.

Lemma word_at_empty t : word_at empty_words t = 0.
Proof.
  unfold word_at. rewrite nth_lookup. destruct (empty_words !! t) eqn:E; [|done].
  by apply lookup_replicate in E as [-> _].
Qed.

(** The word-by-word shift moves every bit by [distance] and fills with zeros. *)
Lemma shift_older_bit w distance d :
  words_wf (seen w) -> 0 <= distance -> 0 <= d < 1024 ->
  bit_at (seen (shift_older w distance)) d
  = (distance <=? d) && bit_at (seen w) (d - distance).
Proof.
  intros Hw Hdist Hd. unfold shift_older, bit_at. simpl seen.
  assert (0 <= d mod 64 < 64 /\ 0 <= distance mod 64 < 64 /\ 0 <= d / 64 < 16 /\ 0 <= distance / 64
    /\ d = 64 * (d / 64) + d mod 64 /\ distance = 64 * (distance / 64) + distance mod 64)
    as (Hb & Hbs & Ht & Hws & Hde & Hse) by dlia.
  rewrite shift_loop_word by (done || simpl; lia). rewrite word_at_empty, Z.lor_0_l, Z.lor_spec.
  generalize dependent (d mod 64). generalize dependent (d / 64).
  generalize dependent (distance mod 64). generalize dependent (distance / 64).
  intros ws Hws bs Hbs Hse t Ht b Hb Hde. unfold low_part, carry_part. rewrite Z2Nat.id by lia.
  assert (Z.testbit (as_width 64 (Z.shiftl (word_at (seen w) (Z.to_nat (t - ws - 0))) bs)) b
          = Z.testbit (word_at (seen w) (Z.to_nat (t - ws))) (b - bs)) as Hlow.
  { unfold as_width. rewrite Z.mod_pow2_bits_low, Z.shiftl_spec by lia. by rewrite Z.sub_0_r. }
  destruct (decide (bs <= b)).
  - replace ((d - distance) / 64) with (t - ws) by dlia.
    replace ((d - distance) mod 64) with (b - bs) by dlia.
    destruct (0 + ws <=? t) eqn:?, (distance <=? d) eqn:?; try lia; rewrite ?Hlow.
    + destruct (_ && _); [|by rewrite Z.bits_0, orb_false_r].
      rewrite Z.shiftr_spec, (testbit_u64_high _ (b + (64 - bs))), orb_false_r; [done| |lia..].
      by apply word_at_u64.
    + destruct (_ && _) eqn:?; [lia|]. by rewrite Z.bits_0.
  - rewrite (Z.testbit_neg_r _ (b - bs)) in Hlow by lia.
    replace ((d - distance) / 64) with (t - ws - 1) by dlia.
    replace ((d - distance) mod 64) with (b + (64 - bs)) by dlia.
    destruct (0 + ws <=? t); rewrite ?Hlow, ?Z.bits_0; simpl;
      destruct (_ && _) eqn:?, (distance <=? d) eqn:?; try lia;
      rewrite ?Z.bits_0, ?Z.shiftr_spec, ?Z.sub_0_r by lia; done.
Qed.

Lemma insert_bit words i d :
  words_wf words -> 0 <= i < 1024 -> 0 <= d < 1024 ->
  bit_at (or_word words (i / 64) (Z.shiftl 1 (i mod 64))) d
  = (d =? i) || bit_at words d.
Proof.
  intros [Hl _] Hi Hd. unfold bit_at. rewrite or_word_at by (rewrite Hl; dlia).
  case_decide as Ht.
  - rewrite Z.lor_spec, Z.shiftl_1_l, Z.pow2_bits_eqb by dlia.
    rewrite orb_comm. f_equal. destruct (d =? i) eqn:?, (i mod 64 =? d mod 64) eqn:?; try done; dlia.
  - destruct (d =? i) eqn:?; [|done]. exfalso. apply Ht. f_equal. dlia.
Qed.

Lemma is_u64_lor a b : is_u64 a -> is_u64 b -> is_u64 (Z.lor a b).
Proof.
  intros [Ha Ha'] [Hb Hb']. split; [by apply Z.lor_nonneg|].
  destruct (decide (Z.lor a b = 0)) as [->|]; [lia|].
  apply Z.log2_lt_pow2; [pose proof (Z.lor_nonneg a b); lia|]. rewrite Z.log2_lor by done.
  apply Z.max_lub_lt; [destruct (decide (a = 0)) as [->|]|destruct (decide (b = 0)) as [->|]];
    try done; apply Z.log2_lt_pow2; lia.
Qed.

Lemma or_word_wf words i bits : words_wf words -> is_u64 bits -> words_wf (or_word words i bits).
Proof.
  intros [Hl Hw] Hb. split; [by rewrite length_or_word|].
  apply Forall_alter; [done|]. intros x _ Hx. by apply is_u64_lor.
Qed.

Lemma is_u64_shiftr w k : is_u64 w -> 0 <= k -> is_u64 (Z.shiftr w k).
Proof.
  intros [H0 H1] Hk. rewrite Z.shiftr_div_pow2 by done. split; [apply Z.div_pos; lia|].
  pose proof (Z.pow_pos_nonneg 2 k ltac:(lia) Hk).
  pose proof (Z.div_le_upper_bound w (2 ^ k) w ltac:(lia) ltac:(nia)). lia.
Qed.

Lemma shift_loop_wf previous i ws bs words :
  Forall is_u64 previous -> 0 <= bs < 64 -> words_wf words ->
  words_wf (shift_loop previous i ws bs words).
Proof.
  intros Hp Hbs. revert i words. induction Hp as [|w l Hw Hl IH]; intros i words Hwf; simpl; [done|].
  destruct (_ <=? _); [done|]. apply IH.
  assert (words_wf (or_word words (i + ws) (as_width 64 (Z.shiftl w bs)))).
  { apply or_word_wf; [done|]. by apply Z.mod_pos_bound. }
  destruct (_ && _) eqn:E; [|done]. apply or_word_wf; [done|]. apply is_u64_shiftr; [done|lia].
Qed.

Lemma empty_words_wf : words_wf empty_words.
Proof. split; [done|]. by apply Forall_replicate. Qed.

(** ** One path: the bitmap is the set of accepted sequence numbers *)

(** [window_rel w A]: the window [w] represents the set [A] of sequence numbers. *)
Record window_rel (w : ReplaySequenceWindow) (A : gset Z) : Prop := {
  wr_words : words_wf (seen w);
  wr_highest : highest w ∈ A;
  wr_below : forall s, s ∈ A -> 0 <= s <= highest w;
  wr_bits : forall d, 0 <= d < 1024 -> contains w d = true <-> highest w - d ∈ A
}.

Lemma window_new_rel s : 0 <= s -> window_rel (window_new s) {[ s ]}.
Proof.
  intros Hs. split; simpl; [|set_solver|set_solver by lia|].
  - by apply (or_word_wf empty_words 0 1 empty_words_wf).
  - intros d Hd. rewrite contains_bit.
    assert (seen (window_new s) = or_word empty_words (0 / 64) (Z.shiftl 1 (0 mod 64))) as -> by done.
    rewrite insert_bit by (apply empty_words_wf || lia). unfold bit_at.
    rewrite word_at_empty, Z.bits_0, orb_false_r, elem_of_singleton. lia.
Qed.

Lemma insert_rel w A d :
  window_rel w A -> 0 <= d < 1024 -> d <= highest w ->
  window_rel (insert w d) ({[ highest w - d ]} ∪ A).
Proof.
  intros [Hw Hh Hb Hc] Hd Hdh. split; simpl.
  - apply or_word_wf; [done|]. rewrite Z.shiftl_1_l.
    split; [lia|]. apply Z.pow_lt_mono_r; dlia.
  - set_solver.
  - intros s [->%elem_of_singleton|Hs]%elem_of_union; [lia|by apply Hb].
  - intros d' Hd'. rewrite contains_bit. simpl seen. rewrite insert_bit by done.
    rewrite elem_of_union, elem_of_singleton, orb_true_iff, <- contains_bit, Hc, Z.eqb_eq by done.
    assert (highest w - d' = highest w - d <-> d' = d) as -> by lia. done.
Qed.

Lemma advance_to_rel w A s :
  window_rel w A -> highest w < s -> window_rel (advance_to w s) ({[ s ]} ∪ A).
Proof.
  intros [Hw Hh Hb Hc] Hs. pose proof (Hb _ Hh).
  set (base := if OVERLAY_REPLAY_SEQUENCE_WINDOW_BITS <=? s - highest w
               then {| highest := highest w; seen := empty_words |}
               else shift_older w (s - highest w)).
  assert (words_wf (seen base)) as Hbase.
  { unfold base. destruct (_ <=? _); [apply empty_words_wf|].
    apply shift_loop_wf; [apply Hw|dlia|apply empty_words_wf]. }
  assert (forall d, 0 <= d < 1024 -> bit_at (seen base) d = true <-> s - d ∈ A) as Hbit.
  { intros d Hd. unfold base. change OVERLAY_REPLAY_SEQUENCE_WINDOW_BITS with 1024.
    destruct (1024 <=? _) eqn:E.
    - unfold bit_at. simpl. rewrite word_at_empty, Z.bits_0. split; [done|].
      intros Hin%Hb. lia.
    - rewrite shift_older_bit by (done || lia). rewrite andb_true_iff, <- contains_bit. split.
      + intros [Hle Hin]. apply Hc in Hin; [|lia]. by replace (s - d) with (highest w - (d - (s - highest w))) by lia.
      + intros Hin. pose proof (Hb _ Hin). split; [lia|]. apply Hc; [lia|].
        by replace (highest w - (d - (s - highest w))) with (s - d) by lia. }
  split; simpl; fold base.
  - by apply or_word_wf.
  - set_solver.
  - intros x [->%elem_of_singleton|Hx%Hb]%elem_of_union; lia.
  - intros d Hd. rewrite contains_bit. 
    assert (seen (advance_to w s) = or_word (seen base) (0 / 64) (Z.shiftl 1 (0 mod 64))) as -> by done.
    rewrite insert_bit, orb_true_iff, Hbit by (done || lia). set_solver by lia.
Qed.

(** ** All paths: eviction order and the accepted history *)

(** The recency queue of a table: its entries belong to live paths and never exceed
    their highest sequence, every path has its current entry, and the entries of one
    path increase. *)
Definition entry_lt (a b : ReplayPathKey * Z) : Prop := a.1 = b.1 -> a.2 < b.2.

Record queue_ok (m : gmap ReplayPathKey ReplaySequenceWindow)
    (q : list (ReplayPathKey * Z)) : Prop := {
  q_live : forall k h, (k, h) ∈ q -> exists w, m !! k = Some w /\ h <= highest w;
  q_cover : forall k w, m !! k = Some w -> (k, highest w) ∈ q;
  q_sorted : StronglySorted entry_lt q
}.

Lemma entry_live_true m k h :
  entry_live m (k, h) = true <-> exists w, m !! k = Some w /\ highest w = h.
Proof.
  unfold entry_live. simpl. destruct (m !! k) as [w|]; [rewrite Z.eqb_eq|]; naive_solver.
Qed.

Lemma StronglySorted_filter {A} (R : A -> A -> Prop) P `{!forall x, Decision (P x)} l :
  StronglySorted R l -> StronglySorted R (filter P l).
Proof.
  induction 1 as [|a l Hs IH Ha]; [constructor|]. rewrite filter_cons.
  case_decide; [|done]. constructor; [done|].
  rewrite Forall_forall in *. intros x [_ Hx]%list_elem_of_filter. auto.
Qed.

Lemma StronglySorted_snoc {A} (R : A -> A -> Prop) l x :
  StronglySorted R l -> Forall (fun a => R a x) l -> StronglySorted R (l ++ [x]).
Proof.
  induction 1 as [|a l Hs IH Ha]; intros Hx; simpl; [by repeat constructor|].
  apply Forall_cons in Hx as [? ?]. constructor; [by apply IH|].
  rewrite Forall_app. by repeat constructor.
Qed.

(** Live entries of an increasing queue name each path once. *)
Lemma live_entries_length m (m0 : gmap ReplayPathKey ReplaySequenceWindow) q :
  StronglySorted entry_lt q ->
  (forall e, e ∈ q -> entry_live m e = true /\ is_Some (m0 !! e.1)) ->
  (length q <= size m0)%nat.
Proof.
  intros Hs Hq. rewrite <- size_dom, <- (length_map fst q).
  assert (NoDup (map fst q)) as Hnd.
  { induction Hs as [|[k h] q Hs IH Ha]; simpl; [constructor|].
    constructor; [|apply IH; set_solver]. intros ([k' h'] & E & Hin)%list_elem_of_fmap.
    simpl in E. subst k'. rewrite Forall_forall in Ha. specialize (Ha _ Hin eq_refl). simpl in Ha.
    destruct (Hq (k, h)) as [(w & Hw & Hh)%entry_live_true _]; [set_solver|].
    destruct (Hq (k, h')) as [(w' & Hw' & Hh')%entry_live_true _]; [set_solver|].
    simplify_eq. lia. }
  rewrite <- (size_list_to_set (C := gset ReplayPathKey)) by done.
  apply subseteq_size. intros k. rewrite elem_of_list_to_set, list_elem_of_fmap.
  intros (e & -> & He). by apply elem_of_dom, Hq.
Qed.

Lemma compact_queue m q :
  StronglySorted entry_lt q -> (forall k w, m !! k = Some w -> (k, highest w) ∈ q) ->
  queue_ok m (filter (fun e => entry_live m e = true) q).
Proof.
  intros Hs Hc. split.
  - intros k h [Hl _]%list_elem_of_filter. apply entry_live_true in Hl as (w & Hw & <-).
    exists w. split; [done|lia].
  - intros k w Hw. apply list_elem_of_filter. split; [|by apply Hc].
    apply entry_live_true. eauto.
  - by apply StronglySorted_filter.
Qed.

Lemma evict_loop_spec cap m q :
  0 <= cap -> queue_ok m q ->
  let '(m', q') := evict_loop cap m q in
  queue_ok m' q' /\ m' ⊆ m /\ Z.of_nat (size m') <= cap /\ (length q' <= length q)%nat /\
  (Z.of_nat (size m) <= cap -> m' = m /\ q' = q).
Proof.
  intros Hcap. revert m. induction q as [|[k h] q IH]; intros m Hq; cbn [evict_loop].
  - destruct (_ <? _) eqn:E; [|split_and!; try done; lia].
    assert (m = ∅) as ->. { apply map_empty. intros k. destruct (m !! k) eqn:Hk; [|done].
      by apply (q_cover _ _ Hq), elem_of_nil in Hk. }
    rewrite map_size_empty in E. lia.
  - destruct (_ <? _) eqn:E; [|split_and!; try done; lia]. destruct Hq as [Hl Hc Hs].
    apply StronglySorted_inv in Hs as [Hs Ha]. rewrite Forall_forall in Ha.
    simpl. destruct (entry_live m (k, h)) eqn:Hlive.
    + apply entry_live_true in Hlive as (w & Hw & <-).
      specialize (IH (delete k m)). destruct (evict_loop _ _ _) as [m' q'].
      destruct IH as (Hq & Hsub & Hsz & Hlen & _); [split; [| |done]|].
      * intros k' h' Hin. destruct (Hl k' h') as (w' & Hw' & ?); [set_solver|].
        destruct (decide (k' = k)) as [->|]; [|exists w'; by rewrite lookup_delete_ne].
        specialize (Ha _ Hin eq_refl). simpl in Ha. simplify_eq. lia.
      * intros k' w' [Hne Hk']%lookup_delete_Some. apply Hc in Hk'.
        apply elem_of_cons in Hk' as [[=]|]; naive_solver.
      * split_and!; [done| |done|simpl; lia|lia]. etrans; [done|apply delete_subseteq].
    + specialize (IH m). destruct (evict_loop _ _ _) as [m' q'].
      destruct IH as (Hq & Hsub & Hsz & Hlen & _); [split; [| |done]|].
      * intros k' h' Hin. apply Hl. set_solver.
      * intros k' w' Hk'. pose proof (Hc _ _ Hk') as [[=]|?]%elem_of_cons; [subst|done].
        rewrite (proj2 (entry_live_true _ _ _)) in Hlive by eauto. done.
      * split_and!; [done..|simpl; lia|lia].
Qed.

(** The history a table represents: the accepted sequence numbers of each live path. *)
Abbreviation History := (gmap ReplayPathKey (gset Z)).

Record replay_inv (r : ReplayWindow) (H : History) : Prop := {
  ri_capacity : 1 <= capacity r < 2 ^ 62;
  ri_windows : map_Forall2 (fun _ w A => window_rel w A) (sequences r) H;
  ri_size : len r <= capacity r;
  ri_queue : queue_ok (sequences r) (recency r);
  ri_recency : lenZ (recency r) <= 2 * capacity r
}.

Definition key_of (epoch : Z) (src : NodeId) (pid : bytes) : ReplayPathKey :=
  {| topology_epoch := epoch; source := src; path_id := pid |}.

(** The specification: a path accepts a sequence number it has not accepted before and
    that is less than 1024 behind the highest one. *)
Definition spec_accepts (H : History) (k : ReplayPathKey) (s : Z) : bool :=
  match H !! k with
  | None => true
  | Some A => bool_decide (s ∉ A) && bool_decide (set_Forall (fun a => a - s < 1024) A)
  end.

Definition spec_record (H : History) (k : ReplayPathKey) (s : Z) : History :=
  <[k := {[ s ]} ∪ default ∅ (H !! k)]> H.

(** The queue in front of a push: what the optional compaction leaves. *)
Lemma compacted_queue r (m0 : gmap ReplayPathKey ReplaySequenceWindow) k w q1 :
  queue_ok m0 (recency r) -> sequences r = <[k := w]> m0 ->
  Z.of_nat (size m0) <= capacity r -> 1 <= capacity r ->
  lenZ (recency r) <= 2 * capacity r ->
  q1 = recency (if capacity r * 2 <=? lenZ (recency r) then compact_recency r else r) ->
  StronglySorted entry_lt q1 /\ (forall e, e ∈ q1 -> e ∈ recency r) /\
  lenZ q1 + 1 <= 2 * capacity r /\
  (forall k' w', k' <> k -> m0 !! k' = Some w' -> (k', highest w') ∈ q1).
Proof.
  intros [Hl Hc Hs] Hm Hsz Hcap Hlen ->.
  destruct (_ <=? _) eqn:E; simpl; [|split_and!; [done..|lia|eauto]]. split_and!.
  - by apply StronglySorted_filter.
  - by intros e [_ ?]%list_elem_of_filter.
  - assert (length (filter (fun e => entry_live (sequences r) e = true) (recency r)) <= size m0)%nat;
      [|lia].
    eapply live_entries_length; [by apply StronglySorted_filter|].
    intros [k' h'] [? Hin]%list_elem_of_filter. split; [done|].
    destruct (Hl _ _ Hin) as (? & ? & _). eauto.
  - intros k' w' Hne Hw'. apply list_elem_of_filter. split; [|by apply Hc].
    apply entry_live_true. exists w'. by rewrite Hm, lookup_insert_ne.
Qed.

Lemma push_queue r (m0 : gmap ReplayPathKey ReplaySequenceWindow) k w :
  queue_ok m0 (recency r) -> sequences r = <[k := w]> m0 ->
  (forall w0, m0 !! k = Some w0 -> highest w0 < highest w) ->
  Z.of_nat (size m0) <= capacity r -> 1 <= capacity r < 2 ^ 62 ->
  lenZ (recency r) <= 2 * capacity r ->
  let r' := push_recency r k (highest w) in
  queue_ok (sequences r') (recency r') /\ lenZ (recency r') <= 2 * capacity r' /\
  sequences r' = sequences r /\ capacity r' = capacity r.
Proof.
  intros Hq Hm Hlt Hsz Hcap Hlen. unfold push_recency, saturating_mul. cbv zeta.
  rewrite Z.min_l by lia.
  edestruct (compacted_queue r m0 k w) as (Hs & Hin & Hq1 & Hcov); [done..|lia|done|done|].
  revert Hs Hin Hq1 Hcov. set (r1 := if _ <=? _ then compact_recency r else r).
  assert (sequences r1 = sequences r /\ capacity r1 = capacity r) as [E1 E2]
    by (unfold r1; by destruct (_ <=? _)).
  clearbody r1. simpl. rewrite E1, E2, Hm. intros Hs Hin Hq1 Hcov.
  assert (forall h, (k, h) ∈ recency r1 -> h < highest w) as Hold.
  { intros h (w0 & Hw0 & ?)%Hin%(q_live _ _ Hq). specialize (Hlt _ Hw0). lia. }
  split_and!; [|rewrite length_app; simpl; lia|done..]. split.
  - intros k' h' [Hk|[= -> ->]%list_elem_of_singleton]%elem_of_app.
    + destruct (decide (k' = k)) as [->|].
      * exists w. rewrite lookup_insert_eq. split; [done|]. specialize (Hold _ Hk). lia.
      * rewrite lookup_insert_ne by done. by apply (q_live _ _ Hq), Hin.
    + exists w. rewrite lookup_insert_eq. split; [done|lia].
  - intros k' w' [[-> ->]|[? ?]]%lookup_insert_Some; apply elem_of_app; [right; set_solver|].
    left. by apply Hcov.
  - apply StronglySorted_snoc; [done|].
    apply Forall_forall. intros [k' h'] Hk ?. simpl in *. subst. by apply Hold.
Qed.

(** Eviction after an update keeps the representation, up to the evicted paths. *)
Lemma evict_rel r H :
  1 <= capacity r < 2 ^ 62 -> lenZ (recency r) <= 2 * capacity r ->
  map_Forall2 (fun _ w A => window_rel w A) (sequences r) H ->
  queue_ok (sequences r) (recency r) ->
  exists H', replay_inv (evict_to_capacity r) H' /\ H' ⊆ H /\
    capacity (evict_to_capacity r) = capacity r /\
    (Z.of_nat (size H) <= capacity r -> H' = H).
Proof.
  intros Hcap Hlen Hw Hq. unfold evict_to_capacity.
  pose proof (evict_loop_spec (capacity r) (sequences r) (recency r) ltac:(lia) Hq) as Hev.
  destruct (evict_loop _ _ _) as [m q]. destruct Hev as (Hq' & Hsub & Hsz & Hl & Hsame).
  exists (filter (fun kA => is_Some (m !! kA.1)) H). split; [|split_and!].
  - split; simpl; [done| |done|done|lia].
    intros k. specialize (Hw k). destruct (m !! k) as [w|] eqn:Hm.
    + pose proof (lookup_weaken _ _ _ _ Hm Hsub) as Hs. rewrite Hs in Hw.
      inversion Hw as [? A HA E1 E2|]; subst.
      rewrite (map_lookup_filter_Some_2 _ _ _ A); [by constructor|done|]. simpl. rewrite Hm. eauto.
    + rewrite map_lookup_filter_None_2; [constructor|]. right. simpl. intros A _ [? ?]. congruence.
  - apply map_filter_subseteq.
  - done.
  - intros Hs. assert (size H = size (sequences r)) as Hsize.
    { rewrite <- !size_dom. f_equal. symmetry. by eapply map_Forall2_dom_L. }
    rewrite Hsize in Hs. destruct (Hsame Hs) as [-> _].
    apply map_filter_id. intros k A HA. specialize (Hw k). rewrite HA in Hw. simpl.
    inversion Hw; eauto.
Qed.

Lemma windows_insert m (H : History) k w A :
  map_Forall2 (fun _ w A => window_rel w A) m H -> window_rel w A ->
  map_Forall2 (fun _ w A => window_rel w A) (<[k := w]> m) (<[k := A]> H).
Proof. intros. by apply map_Forall2_insert_2. Qed.

(** In a represented window, "fresh" is what the bitmap answers. *)
Lemma window_accepts w A s :
  window_rel w A -> 0 <= s ->
  bool_decide (s ∉ A) && bool_decide (set_Forall (fun a => a - s < 1024) A)
  = (highest w <? s) || negb (1024 <=? highest w - s) && negb (contains w (highest w - s)).
Proof.
  intros [_ Hh Hb Hc] Hs. pose proof (Hb _ Hh).
  assert (set_Forall (fun a => a - s < 1024) A <-> highest w - s < 1024) as Hall.
  { split; [intros Hf; by apply Hf|]. intros ? a ?%Hb. lia. }
  destruct (highest w <? s) eqn:Hlt; simpl.
  - rewrite !bool_decide_true; [done|apply Hall; lia|]. intros ?%Hb. lia.
  - destruct (1024 <=? highest w - s) eqn:Hd; simpl.
    { rewrite (bool_decide_false (set_Forall _ _)), andb_false_r by (rewrite Hall; lia). done. }
    rewrite (bool_decide_true (set_Forall _ _)), andb_true_r by (rewrite Hall; lia).
    apply eq_true_iff_eq. rewrite bool_decide_eq_true, negb_true_iff, <- not_true_iff_false.
    rewrite Hc by lia. by replace (highest w - (highest w - s)) with s by lia.
Qed.

Definition observe_key (r : ReplayWindow) (k : ReplayPathKey) (s : Z)
  : ReplayWindow * result unit ReplayRejected :=
  observe r (topology_epoch k) (source k) (path_id k) s.

Lemma observe_key_refines r H k s :
  replay_inv r H -> 0 <= s ->
  let '(r', res) := observe_key r k s in
  is_ok res = spec_accepts H k s /\ capacity r' = capacity r /\
  if is_ok res then
    exists H', replay_inv r' H' /\ H' ⊆ spec_record H k s /\
      (Z.of_nat (size (spec_record H k s)) <= capacity r -> H' = spec_record H k s)
  else r' = r.
Proof.
  intros [Hcap Hw Hsz Hq Hlen] Hs. destruct k as [ep src pid]. unfold observe_key, observe. simpl.
  set (k := {| topology_epoch := ep; source := src; path_id := pid |}).
  unfold spec_accepts, spec_record. pose proof (Hw k) as Hk.
  change OVERLAY_REPLAY_SEQUENCE_WINDOW_BITS with 1024.
  destruct (sequences r !! k) as [w|] eqn:Hwk, (H !! k) as [A|] eqn:HA; rewrite ?HA in Hk;
    try (by inversion Hk); [assert (window_rel w A) as Hrel by (by inversion Hk)|]; simpl.
  - rewrite (window_accepts w A s Hrel Hs). destruct (highest w <? s) eqn:Hlt; simpl; bool_to_prop.
    + edestruct (push_queue (set_window r k (advance_to w s)) (sequences r) k (advance_to w s))
        as (Hq' & Hl' & Es & Ec); simpl; [done|done|intros; simplify_eq; lia|done..|].
      change (highest (advance_to w s)) with s in *.
      edestruct (evict_rel (push_recency (set_window r k (advance_to w s)) k s))
        as (H' & Hi & Hsub & Hc & Hid); [by rewrite Ec|done| |done|].
      { rewrite Es. apply windows_insert; [done|]. by apply advance_to_rel. }
      rewrite Ec in Hc, Hid. split_and!; [done|exact Hc|]. exists H'. done.
    + destruct (1024 <=? _) eqn:Hd; simpl; [done|].
      destruct (contains w _) eqn:Hct; simpl; [done|].
      pose proof (wr_highest _ _ Hrel) as ?%(wr_below _ _ Hrel).
      edestruct (evict_rel (set_window r k (insert w (highest w - s))))
        as (H' & Hi & Hsub & Hc & Hid); simpl; [done|done| | |split_and!; [done|exact Hc|by exists H']].
      * apply windows_insert; [done|].
        replace ({[s]} ∪ A) with ({[highest w - (highest w - s)]} ∪ A) by (do 2 f_equal; lia).
        apply insert_rel; [done|lia..].
      * destruct Hq as [Hl Hcv Hst]. split; [| |done].
        -- intros k' h' (w' & Hw' & ?)%Hl. destruct (decide (k' = k)) as [->|].
           ++ rewrite lookup_insert_eq. simplify_eq. eauto.
           ++ rewrite lookup_insert_ne by done. eauto.
        -- intros k' w' [[-> <-]|[? ?]]%lookup_insert_Some; [exact (Hcv _ _ Hwk)|by apply Hcv].
  - edestruct (push_queue (set_window r k (window_new s)) (sequences r) k (window_new s))
      as (Hq' & Hl' & Es & Ec); simpl; [done|done|by rewrite Hwk|done..|].
    change (highest (window_new s)) with s in *.
    edestruct (evict_rel (push_recency (set_window r k (window_new s)) k s)
        (<[k := {[ s ]} ∪ ∅]> H))
      as (H' & Hi & Hsub & Hc & Hid); [by rewrite Ec|done| |done|].
    { rewrite Es. apply windows_insert; [done|]. rewrite union_empty_r_L. by apply window_new_rel. }
    rewrite Ec in Hc, Hid. split_and!; [done|exact Hc|]. exists H'. done.
Qed.

Lemma retain_epochs_refines r H epochs :
  replay_inv r H ->
  replay_inv (retain_epochs r epochs) (filter (fun kA => topology_epoch kA.1 ∈ epochs) H).
Proof.
  intros [Hcap Hw Hsz Hq Hlen]. unfold retain_epochs, compact_recency. simpl.
  set (m := filter _ (sequences r)).
  assert (m ⊆ sequences r) as Hsub by apply map_filter_subseteq.
  split; simpl; [done| | | |].
  - intros k. specialize (Hw k). destruct (decide (topology_epoch k ∈ epochs)) as [Hin|Hout].
    + destruct (sequences r !! k) eqn:Hk, (H !! k) eqn:HA; inversion Hw; subst.
      * unfold m. erewrite !map_lookup_filter_Some_2 by done. by constructor.
      * unfold m. rewrite !map_lookup_filter_None_2 by (by left). constructor.
    + unfold m. rewrite !map_lookup_filter_None_2 by (right; intros; done). constructor.
  - unfold len in *. simpl. apply map_subseteq_size in Hsub. lia.
  - apply compact_queue; [apply (q_sorted _ _ Hq)|].
    intros k w Hk. apply (q_cover _ _ Hq). by eapply lookup_weaken.
  - pose proof (length_filter (fun e => entry_live m e = true) (recency r)). lia.
Qed.

Lemma new_inv cap : 1 <= cap < 2 ^ 62 -> replay_inv (new cap) ∅.
Proof.
  intros Hcap. split; simpl; [done|apply map_Forall2_empty| | |lia].
  - unfold len. simpl. rewrite map_size_empty. lia.
  - split; [set_solver|by intros ? ? ?%lookup_empty_Some|constructor].
Qed.

(** C36: The bitmap implements the specification: in every represented state, [observe]
    accepts exactly the sequence numbers that are fresh for their path and less than 1024
    behind the highest accepted one; an accepted number is recorded (forgetting other
    paths only when the capacity is exceeded) and a rejection changes nothing. *)
Theorem observe_refines r H epoch src pid s :
  replay_inv r H -> 0 <= s ->
  let k := key_of epoch src pid in
  let '(r', res) := observe r epoch src pid s in
  is_ok res = spec_accepts H k s /\
  if is_ok res then
    exists H', replay_inv r' H' /\ H' ⊆ spec_record H k s /\
      (Z.of_nat (size (spec_record H k s)) <= capacity r -> H' = spec_record H k s)
  else r' = r.
Proof.
  intros Hr Hs k. pose proof (observe_key_refines r H k s Hr Hs) as Ho.
  unfold observe_key in Ho. simpl in Ho. destruct (observe r epoch src pid s) as [r' res].
  destruct Ho as (H1 & _ & H2). done.
Qed.

(** ** Runs *)

(** The observations of a run that were accepted, in order. *)
Fixpoint accepted (r : ReplayWindow) (obs : list (ReplayPathKey * Z)) : list (ReplayPathKey * Z) :=
  match obs with
  | [] => []
  | (k, s) :: obs =>
      let '(r', res) := observe_key r k s in
      if is_ok res then (k, s) :: accepted r' obs else accepted r' obs
  end.

Definition keys_of (obs : list (ReplayPathKey * Z)) : gset ReplayPathKey :=
  list_to_set (map fst obs).

Lemma accepted_fresh obs r H :
  replay_inv r H -> Forall (fun o => 0 <= o.2) obs ->
  Z.of_nat (size (dom H ∪ keys_of obs)) <= capacity r ->
  NoDup (accepted r obs) /\
  forall k s A, (k, s) ∈ accepted r obs -> H !! k = Some A -> s ∉ A.
Proof.
  revert r H. induction obs as [|[k s] obs IH]; intros r H Hr Hs Hsz; simpl.
  { split; [constructor|set_solver]. }
  apply Forall_cons in Hs as [Hs Hobs]. simpl in Hs.
  pose proof (observe_key_refines r H k s Hr Hs) as Ho.
  destruct (observe_key r k s) as [r' res]. destruct Ho as (Hacc & Hcap & Ho).
  unfold keys_of in *. simpl in Hsz.
  destruct (is_ok res) eqn:Hres.
  - destruct Ho as (H' & Hr' & _ & Hid).
    assert (dom (spec_record H k s) = {[ k ]} ∪ dom H) as Hdom.
    { unfold spec_record. apply dom_insert_L. }
    rewrite Hid in Hr'.
    2:{ rewrite <- size_dom, Hdom. etrans; [|exact Hsz]. apply inj_le, subseteq_size. set_solver. }
    destruct (IH _ _ Hr' Hobs) as [Hnd Hin].
    { rewrite Hdom, Hcap. etrans; [|exact Hsz]. apply inj_le, subseteq_size. set_solver. }
    split.
    + constructor; [|done]. intros Hks. eapply (Hin k s); [done|apply lookup_insert_eq|set_solver].
    + intros k' s' A Hks HA. apply elem_of_cons in Hks as [[= -> ->]|Hks].
      * unfold spec_accepts in Hacc. rewrite HA in Hacc. symmetry in Hacc. bool_to_prop. done.
      * destruct (decide (k' = k)) as [->|Hne].
        -- intros HsA. eapply (Hin k s'); [done|apply lookup_insert_eq|]. rewrite HA. set_solver.
        -- eapply Hin; [done|]. unfold spec_record. by rewrite lookup_insert_ne.
  - subst r'. apply (IH r H); [done..|].
    etrans; [|exact Hsz]. apply inj_le, subseteq_size. set_solver.
Qed.

(** C29: As long as a run uses no more paths than the replay cache holds, no sequence
    number of any path is accepted twice, in whatever order frames arrive. *)
Theorem never_accepted_twice cap obs :
  1 <= cap < 2 ^ 62 -> Forall (fun o => 0 <= o.2) obs ->
  Z.of_nat (size (keys_of obs)) <= cap ->
  NoDup (accepted (new cap) obs).
Proof.
  intros Hcap Hobs Hsz. eapply accepted_fresh; [by apply new_inv|done|].
  by rewrite dom_empty_L, union_empty_l_L.
Qed.

Inductive replay_step : ReplayWindow -> ReplayWindow -> Prop :=
  | step_observe r epoch src pid s :
      0 <= s -> replay_step r (observe r epoch src pid s).1
  | step_retain r epochs : replay_step r (retain_epochs r epochs).

Lemma replay_step_inv r r' H :
  replay_step r r' -> replay_inv r H -> exists H', replay_inv r' H' /\ capacity r' = capacity r.
Proof.
  intros [r0 ep src pid s Hs|r0 epochs] Hr.
  - pose proof (observe_key_refines r0 H (key_of ep src pid) s Hr Hs) as Ho.
    unfold observe_key in Ho. simpl in Ho. destruct (observe _ _ _ _ _) as [r1 res]. simpl.
    destruct Ho as (_ & Hcap' & Ho). destruct (is_ok res); [|subst; eauto].
    destruct Ho as (H' & Hr' & _). eauto.
  - eexists. split; [by apply retain_epochs_refines|done].
Qed.

Lemma replay_steps_inv r r' H :
  rtc replay_step r r' -> replay_inv r H -> exists H', replay_inv r' H' /\ capacity r' = capacity r.
Proof.
  intros Hsteps. revert H. induction Hsteps as [r|r r1 r2 Hs _ IH]; intros H Hr; [eauto|].
  destruct (replay_step_inv _ _ _ Hs Hr) as (H1 & Hr1 & <-). eauto.
Qed.

(** Whatever is observed and whichever epochs are dropped, the replay state stays
    bounded: at most [capacity] paths and at most twice as many recency entries, every
    stored bitmap representing a set of accepted numbers. *)
Theorem replay_bounded cap r :
  1 <= cap < 2 ^ 62 -> rtc replay_step (new cap) r ->
  len r <= cap /\ lenZ (recency r) <= 2 * cap /\
  (exists H, map_Forall2 (fun _ w A => window_rel w A) (sequences r) H).
Proof.
  intros Hcap Hsteps.
  destruct (replay_steps_inv _ _ _ Hsteps (new_inv cap Hcap)) as (H & [_ Hw Hsz _ Hlen] & E).
  simpl in E. rewrite E in *.
  split_and!; [done..|eauto].
Qed.

(** ** Witnesses *)

Definition path_a : ReplayPathKey := key_of 3 [x61] (replicate 16 x01).

Lemma observe_refines_witness :
  is_ok (observe (new 4) 3 [x61] (replicate 16 x01) 9).2
  = spec_accepts ∅ (key_of 3 [x61] (replicate 16 x01)) 9.
Proof.
  pose proof (observe_refines (new 4) ∅ 3 [x61] (replicate 16 x01) 9
    (new_inv 4 ltac:(lia)) ltac:(lia)) as H.
  cbv zeta in H. destruct (observe _ _ _ _ _) as [r' res]. apply H.
Defined.

Lemma never_accepted_twice_witness :
  accepted (new 1) [(path_a, 5); (path_a, 7); (path_a, 5); (path_a, 6); (path_a, 7)]
    = [(path_a, 5); (path_a, 7); (path_a, 6)] /\
  NoDup (accepted (new 1) [(path_a, 5); (path_a, 7); (path_a, 5); (path_a, 6); (path_a, 7)]).
Proof.
  split; [by vm_compute|].
  apply (never_accepted_twice 1); [lia|repeat constructor; simpl; lia|by vm_compute].
Defined.

Lemma replay_bounded_witness :
  len (observe (new 1) 3 [x61] (replicate 16 x01) 9).1 <= 1.
Proof.
  apply (replay_bounded 1 (observe (new 1) 3 [x61] (replicate 16 x01) 9).1); [lia|].
  apply rtc_once. constructor. lia.
Defined.

End Replay.
