(* ===== verification/OverlayForwarder.v ===== *)
(** * The bounded overlay forwarder (crates/ipars-agent/src/overlay_forwarder.rs)

    One node's engine: it encapsulates datagrams on validated paths, forwards frames
    hop by hop, delivers at the destination, and keeps recent topology epochs alive for
    a grace period. Clock readings are arguments, one per [Instant::now()]. *)

From S2P Require Import Prelude RustStd Endpoints OverlayTypes Instances Multihop ReplayWindow.

Module Forwarder.

(** 120 seconds in nanoseconds. *)
Definition PREVIOUS_TOPOLOGY_EPOCH_GRACE : Z := 120 * 10 ^ 9.
Definition MAX_RETAINED_TOPOLOGY_EPOCHS : Z := 8.
Definition DEFAULT_OVERLAY_REPLAY_CACHE_CAPACITY : Z := 4096.
Definition MAX_OVERLAY_REPLAY_CACHE_CAPACITY : Z := 65536.

Record OverlayForwarderConfig : Type := {
  max_frame_bytes : Z;
  max_relay_hops : Z;
  replay_cache_capacity : Z
}.

Definition default_config : OverlayForwarderConfig :=
  {| max_frame_bytes := Multihop.MAX_MULTIHOP_FRAME_BYTES;
     max_relay_hops := as_width 16 Multihop.MAX_MULTIHOP_PATH_NODES;
     replay_cache_capacity := DEFAULT_OVERLAY_REPLAY_CACHE_CAPACITY |}.

Inductive OverlayPathSelection : Type := Primary | Secondary.

Inductive OverlayForwardAction : Type :=
  | Forward (next_hop : NodeId) (datagram : bytes)
  | Deliver (source : NodeId) (payload : bytes)
  | DirectNeighbor (peer : NodeId) (datagram : bytes).

Inductive ConfigField : Type := MaxFrameBytes | MaxRelayHops | ReplayCacheCapacity.

(** Errors; where the code stores a rendered error, the value itself. *)
Inductive OverlayForwarderError : Type :=
  | InvalidConfig (f : ConfigField)
  | InvalidNeighborMap (e : Overlay.OverlayValidationError)
  | NeighborMapNodeMismatch (local_node map_node : NodeId)
  | ZeroTopologyEpoch
  | NeighborMapClusterChanged (current_cluster received_cluster : bytes)
  | InvalidOverlayPath (e : Overlay.OverlayValidationError)
  | PathSourceMismatch (local_node path_source : NodeId)
  | PathClusterMismatch (local_cluster target_cluster : bytes)
  | PathTargetsSource (node : NodeId)
  | SecondaryPathUnavailable
  | StaleTopologyEpoch (current_epoch received_epoch : Z)
  | FutureTopologyEpoch (current_epoch received_epoch : Z)
  | RelayPathTooLong (actual maximum : Z)
  | InvalidPathId
  | EmptyInnerDatagram
  | InnerDatagramTooLarge (maximum : Z)
  | FrameTooLarge (actual maximum : Z)
  | InvalidHopLimit (expected actual : Z)
  | UnexpectedLocalHop (expected actual : NodeId)
  | UnexpectedDestination (expected actual : NodeId)
  | PreviousHopMismatch (expected actual : NodeId)
  | PreviousHopNotNeighbor (node : NodeId)
  | NextHopNotNeighbor (node : NodeId)
  | ReplayError (e : Replay.ReplayRejected)
  | Codec (e : Multihop.MultiHopCodecError).

Definition validate_config (c : OverlayForwarderConfig)
  : result OverlayForwarderConfig OverlayForwarderError :=
  if (max_frame_bytes c =? 0) || (Multihop.MAX_MULTIHOP_FRAME_BYTES <? max_frame_bytes c)
  then Err (InvalidConfig MaxFrameBytes)
  else if (max_relay_hops c =? 0) || (Multihop.MAX_MULTIHOP_PATH_NODES <? max_relay_hops c)
  then Err (InvalidConfig MaxRelayHops)
  else if (replay_cache_capacity c =? 0)
          || (MAX_OVERLAY_REPLAY_CACHE_CAPACITY <? replay_cache_capacity c)
  then Err (InvalidConfig ReplayCacheCapacity)
  else Ok c.

Section Engine.
Context `{IpNetOps, UrlOps}.

Record RetainedNeighborMap : Type := {
  retained_map : Overlay.NeighborMap;
  retained_ids : gset NodeId;
  expires_at : Z
}.

Record BoundedOverlayForwarder : Type := {
  local_node : NodeId;
  neighbor_map : Overlay.NeighborMap;
  neighbor_ids : gset NodeId;
  retained_neighbor_maps : list RetainedNeighborMap;
  config : OverlayForwarderConfig;
  replay_window : Replay.ReplayWindow
}.

Definition validate_neighbor_map (local : NodeId) (m : Overlay.NeighborMap)
  : result (gset NodeId) OverlayForwarderError :=
  let? _ := map_err InvalidNeighborMap (Overlay.validate m) in
  if bool_decide (Overlay.map_node_id m <> local)
  then Err (NeighborMapNodeMismatch local (Overlay.map_node_id m))
  else if Overlay.topology_epoch m =? 0 then Err ZeroTopologyEpoch
  else Ok (list_to_set (map Overlay.neighbor_id (Overlay.neighbors m))).

Definition new (local : NodeId) (m : Overlay.NeighborMap) (c : OverlayForwarderConfig)
  : result BoundedOverlayForwarder OverlayForwarderError :=
  let? c := validate_config c in
  let? ids := validate_neighbor_map local m in
  Ok {| local_node := local; neighbor_map := m; neighbor_ids := ids;
        retained_neighbor_maps := []; config := c;
        replay_window := Replay.new (replay_cache_capacity c) |}.

Definition set_replay (f : BoundedOverlayForwarder) (r : Replay.ReplayWindow)
  : BoundedOverlayForwarder :=
  {| local_node := local_node f; neighbor_map := neighbor_map f; neighbor_ids := neighbor_ids f;
     retained_neighbor_maps := retained_neighbor_maps f; config := config f;
     replay_window := r |}.

Definition set_retained (f : BoundedOverlayForwarder) (l : list RetainedNeighborMap)
  : BoundedOverlayForwarder :=
  {| local_node := local_node f; neighbor_map := neighbor_map f; neighbor_ids := neighbor_ids f;
     retained_neighbor_maps := l; config := config f; replay_window := replay_window f |}.

Definition set_current (f : BoundedOverlayForwarder) (m : Overlay.NeighborMap) (ids : gset NodeId)
  : BoundedOverlayForwarder :=
  {| local_node := local_node f; neighbor_map := m; neighbor_ids := ids;
     retained_neighbor_maps := retained_neighbor_maps f; config := config f;
     replay_window := replay_window f |}.

(** The epochs a frame may carry: the current one and the retained ones. *)
Definition live_epochs (f : BoundedOverlayForwarder) : gset Z :=
  {[ Overlay.topology_epoch (neighbor_map f) ]}
  ∪ list_to_set (map (fun r => Overlay.topology_epoch (retained_map r)) (retained_neighbor_maps f)).

Definition retain_replay_epochs (f : BoundedOverlayForwarder) : BoundedOverlayForwarder :=
  set_replay f (Replay.retain_epochs (replay_window f) (live_epochs f)).

Definition expire_retained_neighbor_maps (now : Z) (f : BoundedOverlayForwarder)
  : BoundedOverlayForwarder :=
  let previous_len := length (retained_neighbor_maps f) in
  let f := set_retained f (filter (fun r => now < expires_at r) (retained_neighbor_maps f)) in
  if bool_decide (length (retained_neighbor_maps f) <> previous_len)
  then retain_replay_epochs f else f.

(** [while retained.len() > MAX { retained.pop_front() }] *)
Definition cap_retained (l : list RetainedNeighborMap) : list RetainedNeighborMap :=
  drop (length l - Z.to_nat MAX_RETAINED_TOPOLOGY_EPOCHS) l.

Definition update_neighbor_map (now1 now2 : Z) (f : BoundedOverlayForwarder)
    (m : Overlay.NeighborMap) : BoundedOverlayForwarder * result unit OverlayForwarderError :=
  let! f, ids := (f, validate_neighbor_map (local_node f) m) in
  if bool_decide (Overlay.map_cluster_id m <> Overlay.map_cluster_id (neighbor_map f))
  then (f, Err (NeighborMapClusterChanged (Overlay.map_cluster_id (neighbor_map f))
                  (Overlay.map_cluster_id m))) else
  let f := expire_retained_neighbor_maps now1 f in
  if negb (Overlay.topology_epoch m =? Overlay.topology_epoch (neighbor_map f)) then
    let incoming_epoch := Overlay.topology_epoch m in
    let kept := filter (fun r => Overlay.topology_epoch (retained_map r) <> incoming_epoch)
                  (retained_neighbor_maps f) in
    let retained_neighbor_map := neighbor_map f in
    let retained_neighbor_ids := neighbor_ids f in
    let retained_epoch := Overlay.topology_epoch retained_neighbor_map in
    let kept := filter (fun r => Overlay.topology_epoch (retained_map r) <> retained_epoch) kept in
    let kept := kept ++ [{| retained_map := retained_neighbor_map;
                            retained_ids := retained_neighbor_ids;
                            expires_at := now2 + PREVIOUS_TOPOLOGY_EPOCH_GRACE |}] in
    let f := set_retained (set_current f m ids) (cap_retained kept) in
    (retain_replay_epochs f, Ok tt)
  else (set_current f m ids, Ok tt).

Definition neighbor_ids_for_epoch (f : BoundedOverlayForwarder) (epoch : Z)
  : option (gset NodeId) :=
  if epoch =? Overlay.topology_epoch (neighbor_map f) then Some (neighbor_ids f)
  else match List.find (fun r => Overlay.topology_epoch (retained_map r) =? epoch)
               (retained_neighbor_maps f) with
       | Some r => Some (retained_ids r)
       | None => None
       end.

Definition validate_topology_epoch (now : Z) (f : BoundedOverlayForwarder) (received_epoch : Z)
  : BoundedOverlayForwarder * result unit OverlayForwarderError :=
  let f := expire_retained_neighbor_maps now f in
  let current_epoch := Overlay.topology_epoch (neighbor_map f) in
  match neighbor_ids_for_epoch f received_epoch with
  | Some _ => (f, Ok tt)
  | None => (f, Err (StaleTopologyEpoch current_epoch received_epoch))
  end.

Definition validate_inbound_topology_epoch (now : Z) (f : BoundedOverlayForwarder)
    (received_epoch : Z) : BoundedOverlayForwarder * result unit OverlayForwarderError :=
  validate_topology_epoch now f received_epoch.

Definition validate_relay_count (f : BoundedOverlayForwarder) (relay_count : Z)
  : result unit OverlayForwarderError :=
  if max_relay_hops (config f) <? relay_count
  then Err (RelayPathTooLong relay_count (max_relay_hops (config f))) else Ok tt.

Definition validate_envelope_hop_limit (f : BoundedOverlayForwarder) (e : Multihop.MultiHopEnvelope)
  : result unit OverlayForwarderError :=
  let? _ := validate_relay_count f (lenZ (Multihop.path e)) in
  let expected := as_width 16 (lenZ (Multihop.path e)) in
  if negb (Multihop.hop_limit e =? expected)
  then Err (InvalidHopLimit expected (Multihop.hop_limit e)) else Ok tt.

Definition validate_previous_hop (f : BoundedOverlayForwarder) (actual expected : NodeId)
    (epoch : Z) : result unit OverlayForwarderError :=
  if bool_decide (actual <> expected) then Err (PreviousHopMismatch expected actual)
  else match neighbor_ids_for_epoch f epoch with
       | Some ids => if bool_decide (expected ∈ ids) then Ok tt
                     else Err (PreviousHopNotNeighbor expected)
       | None => Err (PreviousHopNotNeighbor expected)
       end.

Definition require_next_neighbor (f : BoundedOverlayForwarder) (next_hop : NodeId) (epoch : Z)
  : result unit OverlayForwarderError :=
  match neighbor_ids_for_epoch f epoch with
  | Some ids => if bool_decide (next_hop ∈ ids) then Ok tt else Err (NextHopNotNeighbor next_hop)
  | None => Err (NextHopNotNeighbor next_hop)
  end.

Definition validate_inner_datagram (f : BoundedOverlayForwarder) (datagram : bytes)
  : result unit OverlayForwarderError :=
  if bool_decide (datagram = []) then Err EmptyInnerDatagram
  else let maximum := Z.min (max_frame_bytes (config f)) Multihop.MAX_MULTIHOP_PAYLOAD_BYTES in
       if maximum <? lenZ datagram then Err (InnerDatagramTooLarge maximum) else Ok tt.

Definition validate_frame_size (f : BoundedOverlayForwarder) (actual : Z)
  : result unit OverlayForwarderError :=
  if max_frame_bytes (config f) <? actual
  then Err (FrameTooLarge actual (max_frame_bytes (config f))) else Ok tt.

(** [self.replay_window.observe(..)?] *)
Definition observe (f : BoundedOverlayForwarder) (epoch : Z) (source : NodeId) (path_id : bytes)
    (sequence : Z) : BoundedOverlayForwarder * result unit OverlayForwarderError :=
  let '(r, res) := Replay.observe (replay_window f) epoch source path_id sequence in
  (set_replay f r, map_err ReplayError res).

Definition validate_selected_path (now : Z) (f : BoundedOverlayForwarder)
    (p : Overlay.OverlayPath) (selection : OverlayPathSelection)
  : BoundedOverlayForwarder * result (list NodeId) OverlayForwarderError :=
  let! f, _ := (f, map_err InvalidOverlayPath (Overlay.validate_path p)) in
  let! f, _ := validate_topology_epoch now f (Overlay.path_topology_epoch p) in
  if bool_decide (Overlay.path_source p <> local_node f)
  then (f, Err (PathSourceMismatch (local_node f) (Overlay.path_source p)))
  else if bool_decide (Overlay.cluster_id (Overlay.target p)
                       <> Overlay.map_cluster_id (neighbor_map f))
  then (f, Err (PathClusterMismatch (Overlay.map_cluster_id (neighbor_map f))
                  (Overlay.cluster_id (Overlay.target p))))
  else if bool_decide (Overlay.node_id (Overlay.target p) = local_node f)
  then (f, Err (PathTargetsSource (local_node f))) else
  let! f, nodes := (f, match selection with
                       | Primary => Ok (Overlay.ordered_nodes p)
                       | Secondary => ok_or (Overlay.secondary_ordered_nodes p)
                                        SecondaryPathUnavailable
                       end) in
  let relay_count := saturating_sub (lenZ nodes) 2 in
  let! f, _ := (f, if 0 <? relay_count then validate_relay_count f relay_count else Ok tt) in
  (f, Ok nodes).

Definition encapsulate_selected (now : Z) (f : BoundedOverlayForwarder) (p : Overlay.OverlayPath)
    (selection : OverlayPathSelection) (path_id : bytes) (sequence : Z) (inner : bytes)
  : BoundedOverlayForwarder * result OverlayForwardAction OverlayForwarderError :=
  let! f, _ := (f, validate_inner_datagram f inner) in
  if forallb (fun b => byteZ b =? 0) path_id then (f, Err InvalidPathId) else
  let epoch := Overlay.path_topology_epoch p in
  let! f, nodes := validate_selected_path now f p selection in
  let! f, next_hop := (f, ok_or (nodes !! 1%nat) (PathTargetsSource (local_node f))) in
  let! f, _ := (f, require_next_neighbor f next_hop epoch) in
  if bool_decide (length nodes = 2%nat) then
    let! f, _ := observe f epoch (local_node f) path_id sequence in
    (f, Ok (DirectNeighbor next_hop inner))
  else
    let relay_nodes := take (length nodes - 2) (drop 1 nodes) in
    let! f, _ := (f, validate_relay_count f (lenZ relay_nodes)) in
    let hop_limit := as_width 16 (lenZ relay_nodes) in
    let! f, envelope := (f, map_err Codec
      (Multihop.new epoch path_id sequence hop_limit (local_node f)
         (Overlay.node_id (Overlay.target p)) relay_nodes inner)) in
    let! f, datagram := (f, map_err Codec (Multihop.encode envelope)) in
    let! f, _ := (f, validate_frame_size f (lenZ datagram)) in
    let! f, _ := observe f epoch (local_node f) path_id sequence in
    (f, Ok (Forward next_hop datagram)).

Definition encapsulate (now : Z) (f : BoundedOverlayForwarder) (p : Overlay.OverlayPath)
    (path_id : bytes) (sequence : Z) (inner : bytes)
  : BoundedOverlayForwarder * result OverlayForwardAction OverlayForwarderError :=
  encapsulate_selected now f p Primary path_id sequence inner.

Definition deliver (f : BoundedOverlayForwarder) (previous_hop : NodeId)
    (e : Multihop.MultiHopEnvelope) (epoch : Z)
  : BoundedOverlayForwarder * result OverlayForwardAction OverlayForwarderError :=
  if bool_decide (Multihop.destination e <> local_node f)
  then (f, Err (UnexpectedDestination (Multihop.destination e) (local_node f))) else
  let! f, expected_previous := (f, ok_or (last (Multihop.path e)) (Codec Multihop.InvalidPath)) in
  let! f, _ := (f, validate_previous_hop f previous_hop expected_previous epoch) in
  let! f, payload := (f, map_err Codec (Multihop.payload_for_destination e (local_node f))) in
  let! f, _ := observe f epoch (Multihop.source e) (Multihop.path_id e) (Multihop.sequence e) in
  (f, Ok (Deliver (Multihop.source e) payload)).

(** The relay branch of [receive]: the frame has not completed its path. *)
Definition receive_relay (f : BoundedOverlayForwarder) (previous_hop : NodeId)
    (e : Multihop.MultiHopEnvelope) (epoch : Z)
  : BoundedOverlayForwarder * result OverlayForwardAction OverlayForwarderError :=
  let! f, expected_local := (f, ok_or (Multihop.next_hop e) (Codec Multihop.UnexpectedHop)) in
  if bool_decide (expected_local <> local_node f)
  then (f, Err (UnexpectedLocalHop expected_local (local_node f))) else
  let hop_index := Multihop.hop_index e in
  let! f, expected_previous :=
    (f, if hop_index =? 0 then Ok (Multihop.source e)
        else ok_or (Multihop.path e !! Z.to_nat (hop_index - 1)) (Codec Multihop.UnexpectedHop)) in
  let! f, _ := (f, validate_previous_hop f previous_hop expected_previous epoch) in
  let! f, e := (f, map_err Codec (Multihop.advance_hop e (local_node f) epoch)) in
  let next_hop := default (Multihop.destination e) (Multihop.next_hop e) in
  let! f, _ := (f, require_next_neighbor f next_hop epoch) in
  let! f, forwarded := (f, map_err Codec (Multihop.encode e)) in
  let! f, _ := (f, validate_frame_size f (lenZ forwarded)) in
  let! f, _ := observe f epoch (Multihop.source e) (Multihop.path_id e) (Multihop.sequence e) in
  (f, Ok (Forward next_hop forwarded)).

Definition receive (now : Z) (f : BoundedOverlayForwarder) (previous_hop : NodeId)
    (datagram : bytes)
  : BoundedOverlayForwarder * result OverlayForwardAction OverlayForwarderError :=
  let! f, _ := (f, validate_frame_size f (lenZ datagram)) in
  let! f, e := (f, map_err Codec (Multihop.decode datagram 1)) in
  let epoch := Multihop.topology_epoch e in
  let! f, _ := validate_inbound_topology_epoch now f epoch in
  let! f, _ := (f, validate_envelope_hop_limit f e) in
  if Multihop.is_route_complete e then deliver f previous_hop e epoch
  else receive_relay f previous_hop e epoch.

(** ** What an accepted frame satisfies *)

(** The node that sent the frame to its current holder, the node that must process it
    and the node after that. *)
Definition previous_node (e : Multihop.MultiHopEnvelope) : option NodeId :=
  if Multihop.hop_index e =? 0 then Some (Multihop.source e)
  else Multihop.path e !! Z.to_nat (Multihop.hop_index e - 1).

Definition node_at (e : Multihop.MultiHopEnvelope) (i : Z) : NodeId :=
  default (Multihop.destination e) (Multihop.path e !! Z.to_nat i).

Definition current_node (e : Multihop.MultiHopEnvelope) : NodeId := node_at e (Multihop.hop_index e).

Definition advanced (e : Multihop.MultiHopEnvelope) : Multihop.MultiHopEnvelope :=
  Multihop.set_hop_index e (Multihop.hop_index e + 1).

(** The action an accepting node takes on the frame. *)
Definition expected_action (e : Multihop.MultiHopEnvelope) (a : OverlayForwardAction) : Prop :=
  if Multihop.is_route_complete e
  then a = Deliver (Multihop.source e) (Multihop.opaque_payload e)
  else exists fr, Multihop.encode (advanced e) = Ok fr /\
         a = Forward (node_at e (Multihop.hop_index e + 1)) fr.

(** The frame [e] is acceptable to [f], coming from [prev]: it is this node's turn, the
    hop limit is the path length, the frame and the path fit the configuration, and the
    nodes on both sides are neighbors in the frame's epoch. *)
Record acceptable (f : BoundedOverlayForwarder) (prev : NodeId) (e : Multihop.MultiHopEnvelope)
  : Prop := {
  ac_size : Multihop.encoded_length e <= max_frame_bytes (config f);
  ac_hops : lenZ (Multihop.path e) <= max_relay_hops (config f);
  ac_limit : Multihop.hop_limit e = lenZ (Multihop.path e);
  ac_turn : local_node f = current_node e;
  ac_previous : previous_node e = Some prev;
  ac_adjacent : exists ids,
    neighbor_ids_for_epoch f (Multihop.topology_epoch e) = Some ids /\ prev ∈ ids /\
    (Multihop.is_route_complete e = false -> node_at e (Multihop.hop_index e + 1) ∈ ids)
}.

Lemma expire_same now f :
  local_node (expire_retained_neighbor_maps now f) = local_node f /\
  config (expire_retained_neighbor_maps now f) = config f /\
  neighbor_map (expire_retained_neighbor_maps now f) = neighbor_map f /\
  neighbor_ids (expire_retained_neighbor_maps now f) = neighbor_ids f.
Proof. unfold expire_retained_neighbor_maps. by destruct (bool_decide _). Qed.

Lemma let_pure {S A B E} (s s' : S) (r : result A E) (k : A -> S * result B E) b :
  (match r with Ok a => k a | Err e => (s, Err e) end) = (s', Ok b) <->
  exists a, r = Ok a /\ k a = (s', Ok b).
Proof. destruct r; naive_solver. Qed.

Lemma guard_pure {S B E} (s s' : S) (c : bool) (e : E) (k : S * result B E) b :
  (if c then (s, Err e) else k) = (s', Ok b) <-> c = false /\ k = (s', Ok b).
Proof. destruct c; naive_solver. Qed.

Lemma previous_hop_ok f actual expected epoch u :
  validate_previous_hop f actual expected epoch = Ok u <->
  actual = expected /\ exists ids, neighbor_ids_for_epoch f epoch = Some ids /\ expected ∈ ids.
Proof.
  destruct u. unfold validate_previous_hop. rewrite guard_ok, bool_decide_ne_false.
  destruct (neighbor_ids_for_epoch f epoch) as [ids|]; [|naive_solver].
  case_bool_decide; naive_solver.
Qed.

Lemma next_neighbor_ok f next epoch u :
  require_next_neighbor f next epoch = Ok u <->
  exists ids, neighbor_ids_for_epoch f epoch = Some ids /\ next ∈ ids.
Proof.
  destruct u. unfold require_next_neighbor.
  destruct (neighbor_ids_for_epoch f epoch) as [ids|]; [|naive_solver].
  case_bool_decide; naive_solver.
Qed.

Lemma hop_limit_ok f e u :
  lenZ (Multihop.path e) <= 512 ->
  validate_envelope_hop_limit f e = Ok u <->
  lenZ (Multihop.path e) <= max_relay_hops (config f) /\
  Multihop.hop_limit e = lenZ (Multihop.path e).
Proof.
  intros Hp. destruct u. unfold validate_envelope_hop_limit, validate_relay_count.
  rewrite as_width_id by (unfold in_width; lia).
  destruct (_ <? _) eqn:E; bool_to_prop.
  - split; [done|]. intros [? ?]. lia.
  - rewrite guard_ok, negb_false_iff, Z.eqb_eq. naive_solver.
Qed.

Lemma frame_size_ok f n u : validate_frame_size f n = Ok u <-> n <= max_frame_bytes (config f).
Proof. destruct u. unfold validate_frame_size. rewrite guard_ok, Z.ltb_ge. tauto. Qed.

Lemma observe_ok f epoch src pid seq f' u :
  observe f epoch src pid seq = (f', Ok u) <->
  exists r, Replay.observe (replay_window f) epoch src pid seq = (r, Ok u) /\ f' = set_replay f r.
Proof.
  unfold observe. destruct (Replay.observe _ _ _ _ _) as [r [[]|]]; simpl; naive_solver.
Qed.

Lemma epoch_ok now f epoch f' u :
  validate_topology_epoch now f epoch = (f', Ok u) <->
  f' = expire_retained_neighbor_maps now f /\ is_Some (neighbor_ids_for_epoch f' epoch).
Proof.
  destruct u. unfold validate_topology_epoch.
  destruct (neighbor_ids_for_epoch _ _) eqn:E; split; intros H1; simplify_eq; eauto.
  - destruct H1 as [-> _]. done.
  - destruct H1 as [-> [? ?]]. congruence.
Qed.

(** Facts about a decoded frame that several steps of [receive] rely on. *)
Lemma decoded_facts dg e :
  Multihop.decode dg 1 = Ok e ->
  Multihop.envelope_typed e /\ Multihop.envelope_wf 1 e /\
  lenZ dg = Multihop.encoded_length e /\ lenZ (Multihop.path e) <= 512 /\
  0 <= Multihop.hop_index e <= lenZ (Multihop.path e) /\ 1 <= lenZ (Multihop.path e).
Proof.
  intros Hd. destruct (Multihop.decode_wf _ _ _ Hd) as (Hty & Hwf & Hl).
  pose proof Hty as (_ & _ & _ & [Hi _] & _).
  pose proof (Multihop.wf_path_count _ _ Hwf). pose proof (Multihop.wf_hop_limit _ _ Hwf).
  pose proof (Multihop.wf_hop_index _ _ Hwf). split_and!; done || lia.
Qed.

Lemma deliver_ok f prev e f' a :
  Multihop.is_route_complete e = true -> 1 <= lenZ (Multihop.path e) ->
  deliver f prev e (Multihop.topology_epoch e) = (f', Ok a) <->
  local_node f = current_node e /\ previous_node e = Some prev /\
  (exists ids, neighbor_ids_for_epoch f (Multihop.topology_epoch e) = Some ids /\ prev ∈ ids) /\
  (exists r, Replay.observe (replay_window f) (Multihop.topology_epoch e) (Multihop.source e)
     (Multihop.path_id e) (Multihop.sequence e) = (r, Ok tt) /\ f' = set_replay f r) /\
  a = Deliver (Multihop.source e) (Multihop.opaque_payload e).
Proof.
  intros Hc Hp. pose proof Hc as Hc'. unfold Multihop.is_route_complete in Hc'. apply Z.eqb_eq in Hc'.
  assert (current_node e = Multihop.destination e) as ->.
  { unfold current_node, node_at. rewrite Hc', Nat2Z.id, lookup_ge_None_2 by done. done. }
  assert (previous_node e = last (Multihop.path e)) as ->.
  { unfold previous_node. destruct (_ =? 0) eqn:E; [lia|]. rewrite Hc', last_lookup. f_equal. lia. }
  unfold deliver. rewrite guard_pure, bool_decide_ne_false.
  destruct (last (Multihop.path e)) as [expected|]; [|naive_solver]. cbn [ok_or].
  destruct (validate_previous_hop f prev expected _) as [[]|] eqn:Hv.
  - apply previous_hop_ok in Hv as (-> & ids & Hids & Hin).
    unfold Multihop.payload_for_destination. rewrite Hc. cbn [negb].
    rewrite orb_false_r. case_bool_decide as Hd.
    { split; [intros [E _]|intros (E & _)]; congruence. }
    cbn [map_err]. destruct (observe f _ _ _ _) as [f1 [[]|]] eqn:Ho.
    + apply observe_ok in Ho as (r & Hr & ->). split.
      * intros [E [= <- <-]]. split_and!; [congruence|done|eauto..].
      * intros (E & _ & _ & (r' & Hr' & ->) & ->). rewrite Hr in Hr'. split; congruence.
    + split; [by intros [_ ?]|]. intros (_ & _ & _ & (r & Hr & ->) & _). exfalso.
      rewrite (proj2 (observe_ok f _ _ _ _ _ tt)) in Ho by eauto. done.
  - split; [by intros [_ ?]|]. intros (_ & [= ->] & (ids & Hids & Hin) & _). exfalso.
    rewrite (proj2 (previous_hop_ok f prev prev _ tt)) in Hv by eauto. done.
Qed.

(** The envelope after this node's hop is well formed, and of the same length. *)
Lemma advance_ok e epoch :
  Multihop.envelope_typed e -> Multihop.envelope_wf 1 e ->
  Multihop.topology_epoch e = epoch -> Multihop.is_route_complete e = false ->
  Multihop.next_hop e = Some (current_node e) /\
  Multihop.advance_hop e (current_node e) epoch = Ok (advanced e) /\
  exists fr, Multihop.encode (advanced e) = Ok fr /\ lenZ fr = Multihop.encoded_length e.
Proof.
  intros Hty Hwf <- Hc. pose proof Hty as (Hep & Hpid & Hseq & [Hi Hi'] & Hl).
  unfold Multihop.is_route_complete in Hc. apply Z.eqb_neq in Hc.
  pose proof (Multihop.wf_hop_index _ _ Hwf). pose proof (Multihop.wf_path_count _ _ Hwf).
  pose proof (Multihop.wf_hop_limit _ _ Hwf).
  assert (Multihop.next_hop e = Some (current_node e)) as Hn.
  { unfold current_node, node_at, Multihop.next_hop.
    destruct (lookup_lt_is_Some_2 (Multihop.path e) (Z.to_nat (Multihop.hop_index e))) as [x ->];
      [lia|done]. }
  split; [done|]. split.
  - apply Multihop.advance_hop_ok; [done|]. split_and!; [|done|done].
    destruct Hwf; constructor; done || lia.
  - destruct (Multihop.wf_encode (advanced e)) as (fr & He & Hlen).
    + unfold Multihop.envelope_typed, in_width in *. simpl. split_and!; lia.
    + apply Multihop.envelope_wf_set_hop_index; [done|lia].
    + eauto.
Qed.

Lemma next_hop_advanced e :
  0 <= Multihop.hop_index e ->
  default (Multihop.destination (advanced e)) (Multihop.next_hop (advanced e))
  = node_at e (Multihop.hop_index e + 1).
Proof. intros. done. Qed.

Lemma relay_ok f prev e f' a :
  Multihop.envelope_typed e -> Multihop.envelope_wf 1 e ->
  Multihop.encoded_length e <= max_frame_bytes (config f) ->
  Multihop.is_route_complete e = false ->
  receive_relay f prev e (Multihop.topology_epoch e) = (f', Ok a) <->
  local_node f = current_node e /\ previous_node e = Some prev /\
  (exists ids, neighbor_ids_for_epoch f (Multihop.topology_epoch e) = Some ids /\ prev ∈ ids /\
     node_at e (Multihop.hop_index e + 1) ∈ ids) /\
  (exists r, Replay.observe (replay_window f) (Multihop.topology_epoch e) (Multihop.source e)
     (Multihop.path_id e) (Multihop.sequence e) = (r, Ok tt) /\ f' = set_replay f r) /\
  exists fr, Multihop.encode (advanced e) = Ok fr /\
    a = Forward (node_at e (Multihop.hop_index e + 1)) fr.
Proof.
  intros Hty Hwf Hsz Hc. destruct (advance_ok e _ Hty Hwf eq_refl Hc) as (Hn & Hadv & fr & Hfr & Hlen).
  pose proof Hty as (_ & _ & _ & [Hi _] & _).
  unfold receive_relay. rewrite Hn. cbn [ok_or]. rewrite guard_pure, bool_decide_ne_false.
  assert ((if Multihop.hop_index e =? 0 then Ok (Multihop.source e)
           else ok_or (Multihop.path e !! Z.to_nat (Multihop.hop_index e - 1))
                  (Codec Multihop.UnexpectedHop))
          = ok_or (previous_node e) (Codec Multihop.UnexpectedHop)) as ->
    by (unfold previous_node; by destruct (_ =? 0)).
  destruct (previous_node e) as [expected|]; [cbn [ok_or]|naive_solver].
  split.
  - intros [El Hr]. rewrite <- El in Hr.
    destruct (validate_previous_hop f prev expected _) as [[]|] eqn:Hv; [|done].
    apply previous_hop_ok in Hv as (-> & ids & Hids & Hin). rewrite Hadv in Hr. cbn [map_err] in Hr.
    rewrite next_hop_advanced in Hr by done.
    destruct (require_next_neighbor f _ _) as [[]|] eqn:Hq; [|done].
    apply next_neighbor_ok in Hq as (ids' & Hids' & Hin'). rewrite Hids in Hids'. simplify_eq.
    rewrite Hfr in Hr. cbn [map_err] in Hr. rewrite (proj2 (frame_size_ok f _ tt)) in Hr by lia.
    destruct (observe f _ _ _ _) as [f1 [[]|]] eqn:Ho; [|done]. simplify_eq.
    apply observe_ok in Ho as (r & Hr & ->). split_and!; eauto.
  - intros (El & [= ->] & (ids & Hids & Hin & Hin') & (r & Hr & ->) & fr' & Hfr' & ->).
    split; [done|]. rewrite (proj2 (previous_hop_ok f prev prev _ tt)) by eauto.
    rewrite El, Hadv. cbn [map_err]. rewrite next_hop_advanced by done.
    rewrite (proj2 (next_neighbor_ok f _ _ tt)) by eauto. rewrite Hfr. cbn [map_err].
    rewrite (proj2 (frame_size_ok f _ tt)) by lia.
    rewrite (proj2 (observe_ok f _ _ _ _ (set_replay f r) tt)) by eauto. congruence.
Qed.

Lemma receive_ok now f prev dg f' a :
  receive now f prev dg = (f', Ok a) <->
  exists e r, Multihop.decode dg 1 = Ok e /\
    acceptable (expire_retained_neighbor_maps now f) prev e /\
    Replay.observe (replay_window (expire_retained_neighbor_maps now f))
      (Multihop.topology_epoch e) (Multihop.source e) (Multihop.path_id e) (Multihop.sequence e)
      = (r, Ok tt) /\
    f' = set_replay (expire_retained_neighbor_maps now f) r /\ expected_action e a.
Proof.
  unfold receive, validate_inbound_topology_epoch.
  destruct (expire_same now f) as (Hloc & Hcfg & _).
  destruct (Multihop.decode dg 1) as [e|] eqn:Hd.
  2:{ split; [|naive_solver]. by destruct (validate_frame_size _ _). }
  destruct (decoded_facts dg e Hd) as (Hty & Hwf & Hl & Hp & Hi & Hp1). cbn [map_err].
  set (f1 := expire_retained_neighbor_maps now f) in *.
  split.
  - intros Hr. destruct (validate_frame_size f _) eqn:Hs; [|done]. apply frame_size_ok in Hs.
    destruct (validate_topology_epoch now f _) as [f2 [u|]] eqn:He; [|done].
    apply epoch_ok in He as [-> Hids]. fold f1 in Hr, Hids.
    destruct (validate_envelope_hop_limit f1 e) eqn:Hh; [|done].
    apply hop_limit_ok in Hh as [Hh1 Hh2]; [|done].
    destruct (Multihop.is_route_complete e) eqn:Hc.
    + apply deliver_ok in Hr as (? & ? & (ids & ? & ?) & (r & Ho & ->) & ->); [|done|done].
      exists e, r. split_and!; [done| |done|done|unfold expected_action; by rewrite Hc].
      split; try done; [congruence|]. exists ids. rewrite Hc. done.
    + apply relay_ok in Hr as (? & ? & (ids & ? & ? & ?) & (r & Ho & ->) & fr & ? & ->);
        [|done|done|congruence|done].
      exists e, r. split_and!; [done| |done|done|unfold expected_action; rewrite Hc; eauto].
      split; try done; [congruence|]. exists ids. done.
  - intros (e' & r & [= <-] & [Hs Hh1 Hh2 Ht Hpv (ids & Hids & Hin & Hnx)] & Ho & -> & Ha).
    rewrite (proj2 (frame_size_ok f _ tt)) by (rewrite Hl, <- Hcfg; done).
    rewrite (proj2 (epoch_ok now f _ f1 tt)) by (split; [done|eauto]).
    rewrite (proj2 (hop_limit_ok f1 e tt Hp)) by done.
    unfold expected_action in Ha. destruct (Multihop.is_route_complete e) eqn:Hc.
    + apply deliver_ok; [done..|]. split_and!; eauto.
    + apply relay_ok; [done..|]. split_and!; eauto 6.
Qed.

(** C28: A node accepts a received frame exactly when it decodes, fits the configured
    limits, carries a live topology epoch, it is this node's turn on the path, it came
    from the node before it, the nodes on both sides are neighbors in that epoch, and the
    replay window takes the sequence number. It then delivers the payload (at the
    destination, path complete) or forwards the same envelope with the hop index
    advanced to the next node of the path. *)
Theorem receive_accepts_iff now f prev dg f' a :
  receive now f prev dg = (f', Ok a) <->
  exists e r, Multihop.decode dg 1 = Ok e /\
    acceptable (expire_retained_neighbor_maps now f) prev e /\
    Replay.observe (replay_window (expire_retained_neighbor_maps now f))
      (Multihop.topology_epoch e) (Multihop.source e) (Multihop.path_id e) (Multihop.sequence e)
      = (r, Ok tt) /\
    f' = set_replay (expire_retained_neighbor_maps now f) r /\ expected_action e a.
Proof. apply receive_ok. Qed.

(** ** From the source to the destination *)

(** The nodes of a route process a frame in turn; each hop hands it to the node the
    previous one named. *)
Fixpoint relay_chain (now : Z) (fs : list BoundedOverlayForwarder) (prev : NodeId) (dg : bytes)
  : option (NodeId * bytes) :=
  match fs with
  | [] => None
  | f :: fs =>
      match (receive now f prev dg).2 with
      | Ok (Deliver src payload) => Some (src, payload)
      | Ok (Forward next dg') =>
          match fs with
          | g :: _ => if bool_decide (next = local_node g)
                      then relay_chain now fs (local_node f) dg' else None
          | [] => None
          end
      | _ => None
      end
  end.

(** Every node of the chain is willing to take the frame at its turn. *)
Fixpoint chain_ready (now : Z) (fs : list BoundedOverlayForwarder) (prev : NodeId)
    (e : Multihop.MultiHopEnvelope) : Prop :=
  match fs with
  | [] => True
  | f :: fs =>
      acceptable (expire_retained_neighbor_maps now f) prev e /\
      is_ok (Replay.observe (replay_window (expire_retained_neighbor_maps now f))
        (Multihop.topology_epoch e) (Multihop.source e) (Multihop.path_id e)
        (Multihop.sequence e)).2 = true /\
      chain_ready now fs (local_node f) (advanced e)
  end.

Lemma advanced_typed e :
  Multihop.envelope_typed e -> Multihop.envelope_wf 1 e -> Multihop.is_route_complete e = false ->
  Multihop.envelope_typed (advanced e) /\ Multihop.envelope_wf 1 (advanced e).
Proof.
  intros (Hep & Hpid & Hseq & Hi & Hl) Hwf Hc.
  unfold Multihop.is_route_complete in Hc. apply Z.eqb_neq in Hc.
  pose proof (Multihop.wf_hop_index _ _ Hwf). pose proof (Multihop.wf_path_count _ _ Hwf).
  pose proof (Multihop.wf_hop_limit _ _ Hwf). split.
  - unfold Multihop.envelope_typed, in_width in *. simpl. split_and!; lia.
  - apply Multihop.envelope_wf_set_hop_index; [done|lia].
Qed.

Lemma relay_chain_delivers now fs prev e fr :
  Multihop.envelope_typed e -> Multihop.envelope_wf 1 e -> Multihop.encode e = Ok fr ->
  map local_node fs
    = drop (Z.to_nat (Multihop.hop_index e)) (Multihop.path e) ++ [Multihop.destination e] ->
  chain_ready now fs prev e ->
  relay_chain now fs prev fr = Some (Multihop.source e, Multihop.opaque_payload e).
Proof.
  revert prev e fr. induction fs as [|f fs IH]; intros prev e fr Hty Hwf Hfr Hnodes Hready.
  { simpl in Hnodes. by destruct (drop _ _). }
  destruct Hready as (Hacc & Hob & Hrest).
  destruct (Replay.observe _ _ _ _ _) as [r [[]|]] eqn:Ho; [clear Hob|done].
  pose proof (Multihop.encode_then_decode e 1 fr Hty (Multihop.wf_epoch _ _ Hwf) Hfr) as Hd.
  destruct (decoded_facts _ _ Hd) as (_ & _ & _ & _ & Hi & _).
  cbn [relay_chain]. destruct (Multihop.is_route_complete e) eqn:Hc.
  - rewrite (proj2 (receive_ok now f prev fr (set_replay (expire_retained_neighbor_maps now f) r) (Deliver (Multihop.source e) (Multihop.opaque_payload e)))).
    2:{ exists e, r. split_and!; [done..|]. unfold expected_action. by rewrite Hc. }
    done.
  - destruct (advance_ok e _ Hty Hwf eq_refl Hc) as (_ & _ & fr' & Hfr' & _).
    rewrite (proj2 (receive_ok now f prev fr (set_replay (expire_retained_neighbor_maps now f) r) (Forward (node_at e (Multihop.hop_index e + 1)) fr'))).
    2:{ exists e, r. split_and!; [done..|]. unfold expected_action. rewrite Hc. eauto. }
    destruct (advanced_typed e Hty Hwf Hc) as [Hty' Hwf'].
    assert (map local_node fs = drop (Z.to_nat (Multihop.hop_index (advanced e)))
              (Multihop.path (advanced e)) ++ [Multihop.destination (advanced e)]) as Hnodes'.
    { simpl. unfold Multihop.is_route_complete in Hc. apply Z.eqb_neq in Hc.
      destruct (lookup_lt_is_Some_2 (Multihop.path e) (Z.to_nat (Multihop.hop_index e))) as [x Hx]; [lia|].
      rewrite (drop_S _ x) in Hnodes by done. cbn [map app] in Hnodes. injection Hnodes as _ ->.
      do 2 f_equal. lia. }
    simpl. destruct fs as [|g fs']; [by apply app_cons_not_nil in Hnodes'|].
    rewrite bool_decide_true; [by eapply (IH (local_node f) (advanced e))|].
    simpl in Hnodes'. unfold node_at. rewrite <- (Nat.add_0_r (Z.to_nat _)), <- lookup_drop.
    destruct (drop (Z.to_nat (Multihop.hop_index e + 1)) (Multihop.path e)); simpl in *; congruence.
Qed.

(** The node sequence a selection names. *)
Definition selected_nodes (p : Overlay.OverlayPath) (selection : OverlayPathSelection)
  : option (list NodeId) :=
  match selection with
  | Primary => Some (Overlay.ordered_nodes p)
  | Secondary => Overlay.secondary_ordered_nodes p
  end.

Lemma selected_path_ok now f p selection f' nodes :
  validate_selected_path now f p selection = (f', Ok nodes) ->
  f' = expire_retained_neighbor_maps now f /\ selected_nodes p selection = Some nodes /\
  Overlay.route_wf (local_node f) (Overlay.node_id (Overlay.target p)) nodes /\
  Overlay.overlay_path_wf p /\
  is_Some (neighbor_ids_for_epoch f' (Overlay.path_topology_epoch p)).
Proof.
  unfold validate_selected_path. destruct (expire_same now f) as (Hloc & _ & _).
  destruct (Overlay.validate_path p) as [[]|] eqn:Hv; [cbn [map_err]|done].
  apply Overlay.validate_path_ok in Hv.
  destruct (validate_topology_epoch _ _ _) as [f1 [[]|]] eqn:He; [|done].
  apply epoch_ok in He as [-> Hids]. rewrite !guard_pure, bool_decide_ne_false. intros (Hs & _ & _ & Hr).
  rewrite Hloc in Hs.
  assert (exists ns, selected_nodes p selection = Some ns /\
    Overlay.route_wf (local_node f) (Overlay.node_id (Overlay.target p)) ns) as (ns & Hns & Hrt).
  { rewrite <- Hs. destruct selection; simpl in *.
    - eexists. split; [done|]. apply Hv.
    - destruct (Overlay.secondary_ordered_nodes p) as [ns|] eqn:E; [|done].
      exists ns. split; [done|]. by apply Hv. }
  assert ((match selection with
           | Primary => Ok (Overlay.ordered_nodes p)
           | Secondary => ok_or (Overlay.secondary_ordered_nodes p) SecondaryPathUnavailable
           end) = Ok ns) as E by (destruct selection; simpl in *; [congruence|by rewrite Hns]).
  rewrite E in Hr. destruct (0 <? _); [destruct (validate_relay_count _ _); [|done]|]; by simplify_eq.
Qed.

Lemma route_shape source dest nodes :
  Overlay.route_wf source dest nodes -> (2 < length nodes)%nat ->
  nodes = source :: take (length nodes - 2) (drop 1 nodes) ++ [dest].
Proof.
  intros [_ Hh Hl _ _] Hlen. destruct nodes as [|x nodes]; simplify_eq/=. f_equal.
  rewrite drop_0. apply last_Some in Hl as [l' Hl].
  destruct l' as [|y l']; simplify_eq/=; [lia|].
  rewrite length_app, take_app_le, take_ge by (simpl; lia). done.
Qed.

(** What [encapsulate_selected] puts on the wire. *)
Lemma encapsulate_ok now f p selection pid seq inner f' next dg :
  encapsulate_selected now f p selection pid seq inner = (f', Ok (Forward next dg)) ->
  is_u64 (Overlay.path_topology_epoch p) -> lenZ pid = 16 -> is_u64 seq ->
  exists e, Multihop.encode e = Ok dg /\ Multihop.envelope_typed e /\ Multihop.envelope_wf 1 e /\
    Multihop.topology_epoch e = Overlay.path_topology_epoch p /\ Multihop.path_id e = pid /\
    Multihop.sequence e = seq /\ Multihop.hop_index e = 0 /\
    Multihop.hop_limit e = lenZ (Multihop.path e) /\
    Multihop.opaque_payload e = inner /\ Multihop.source e = local_node f /\
    selected_nodes p selection
      = Some (local_node f :: Multihop.path e ++ [Multihop.destination e]) /\
    Multihop.destination e = Overlay.node_id (Overlay.target p) /\
    node_at e 0 = next /\
    exists ids, neighbor_ids_for_epoch (expire_retained_neighbor_maps now f)
                  (Overlay.path_topology_epoch p) = Some ids /\ next ∈ ids.
Proof.
  intros H1 Hep Hpid Hseq. unfold encapsulate_selected in H1.
  destruct (validate_inner_datagram f inner) as [[]|]; [|done].
  rewrite guard_pure in H1. destruct H1 as [_ H1].
  destruct (validate_selected_path now f p selection) as [f1 [nodes|]] eqn:Hsel; [|done].
  apply selected_path_ok in Hsel as (-> & Hnodes & Hrt & _ & _).
  destruct (expire_same now f) as (Hloc & _ & _).
  destruct (nodes !! 1%nat) as [nh|] eqn:Hnh; [cbn [ok_or] in H1|done].
  destruct (require_next_neighbor _ nh _) as [[]|] eqn:Hnn; [|done].
  apply next_neighbor_ok in Hnn.
  case_bool_decide as Hlen; [by destruct (observe _ _ _ _ _) as [? [[]|]]|].
  destruct (validate_relay_count _ _) as [[]|]; [|done].
  destruct (Multihop.new _ _ _ _ _ _ _ _) as [e|] eqn:Hnew; [cbn [map_err] in H1|done].
  destruct (Multihop.encode e) as [fr|] eqn:Henc; [cbn [map_err] in H1|done].
  destruct (validate_frame_size _ _) as [[]|]; [|done].
  destruct (observe _ _ _ _ _) as [f2 [[]|]]; [|done]. simplify_eq.
  pose proof (lookup_lt_Some _ _ _ Hnh) as Hlt. pose proof (Overlay.rt_length _ _ _ Hrt) as Hmax.
  pose proof (route_shape _ _ _ Hrt ltac:(lia)) as Hshape.
  set (relays := take (length nodes - 2) (drop 1 nodes)) in *.
  assert (length relays = length nodes - 2)%nat as Hrl
    by (unfold relays; rewrite length_take, length_drop; lia).
  rewrite Hloc, as_width_id in Hnew by (unfold in_width; lia). unfold Multihop.new in Hnew.
  destruct (Multihop.validate _ 1) eqn:Hv; [|done]. apply Ok_inj in Hnew. subst e.
  apply Multihop.validate_ok in Hv as [Hwf _]; [|done].
  eexists. split; [exact Henc|]. cbn -[node_at]. split_and!; try done.
  - unfold Multihop.envelope_typed, in_width in *. cbn. split_and!; lia.
  - by rewrite Hnodes, Hshape at 1.
  - unfold node_at. cbn. rewrite Hshape in Hnh. destruct relays; simpl in *; [lia|congruence].
Qed.

(** C1: End to end: when the source encapsulates a datagram onto the selected path and
    every node of that path (relays and target, in order) is willing to take the frame at
    its turn, the target delivers exactly the datagram that was encapsulated, attributed
    to the source. *)
Theorem end_to_end_delivery now f p selection pid seq inner f' next dg fs :
  encapsulate_selected now f p selection pid seq inner = (f', Ok (Forward next dg)) ->
  is_u64 (Overlay.path_topology_epoch p) -> lenZ pid = 16 -> is_u64 seq ->
  selected_nodes p selection = Some (local_node f :: map local_node fs) ->
  (forall e, Multihop.decode dg 1 = Ok e -> chain_ready now fs (local_node f) e) ->
  relay_chain now fs (local_node f) dg = Some (local_node f, inner).
Proof.
  intros He Hep Hpid Hseq Hsel Hready.
  destruct (encapsulate_ok _ _ _ _ _ _ _ _ _ _ He Hep Hpid Hseq)
    as (e & Henc & Hty & Hwf & _ & _ & _ & Hix & _ & <- & Hsrc & Hnodes & _).
  pose proof (Multihop.encode_then_decode e 1 dg Hty (Multihop.wf_epoch _ _ Hwf) Henc) as Hd.
  rewrite <- Hsrc at 2. eapply relay_chain_delivers; [done..| |by apply Hready].
  rewrite Hix, drop_0. congruence.
Qed.

(** What a source emits onto a relayed path is a well-formed frame that names the
    selected nodes in order, starts unconsumed with the path length as hop limit, seals
    the datagram unchanged, and goes to the first relay, a neighbor in the path's epoch. *)
Theorem encapsulate_frame now f p selection pid seq inner f' next dg :
  encapsulate_selected now f p selection pid seq inner = (f', Ok (Forward next dg)) ->
  is_u64 (Overlay.path_topology_epoch p) -> lenZ pid = 16 -> is_u64 seq ->
  exists e, Multihop.decode dg 1 = Ok e /\ Multihop.hop_index e = 0 /\
    Multihop.hop_limit e = lenZ (Multihop.path e) /\ Multihop.opaque_payload e = inner /\
    selected_nodes p selection
      = Some (Multihop.source e :: Multihop.path e ++ [Multihop.destination e]) /\
    Multihop.source e = local_node f /\ head (Multihop.path e) = Some next /\
    exists ids, neighbor_ids_for_epoch (expire_retained_neighbor_maps now f)
                  (Multihop.topology_epoch e) = Some ids /\ next ∈ ids.
Proof.
  intros He Hep Hpid Hseq.
  destruct (encapsulate_ok _ _ _ _ _ _ _ _ _ _ He Hep Hpid Hseq)
    as (e & Henc & Hty & Hwf & Hepo & _ & _ & Hix & Hlim & Hpay & Hsrc & Hnodes & _ & Hat & Hids).
  exists e. rewrite Hsrc, Hepo. split_and!; try done.
  - eapply Multihop.encode_then_decode; [done|apply Hwf|done].
  - pose proof (Multihop.wf_path_count _ _ Hwf). unfold node_at in Hat.
    destruct (Multihop.path e); simpl in *; [lia|congruence].
Qed.

(** ** The invariant of the engine *)

Definition retained_epoch (r : RetainedNeighborMap) : Z := Overlay.topology_epoch (retained_map r).

Record forwarder_inv (f : BoundedOverlayForwarder) : Prop := {
  fi_config : validate_config (config f) = Ok (config f);
  fi_map : validate_neighbor_map (local_node f) (neighbor_map f) = Ok (neighbor_ids f);
  fi_retained : Forall (fun r =>
    validate_neighbor_map (local_node f) (retained_map r) = Ok (retained_ids r) /\
    Overlay.map_cluster_id (retained_map r) = Overlay.map_cluster_id (neighbor_map f))
    (retained_neighbor_maps f);
  fi_count : lenZ (retained_neighbor_maps f) <= 8;
  fi_epochs : NoDup (Overlay.topology_epoch (neighbor_map f)
                     :: map retained_epoch (retained_neighbor_maps f));
  fi_replay : exists H, Replay.replay_inv (replay_window f) H;
  fi_capacity : Replay.capacity (replay_window f) = replay_cache_capacity (config f);
  fi_live : forall k w, Replay.sequences (replay_window f) !! k = Some w ->
    Replay.topology_epoch k ∈ live_epochs f
}.

Lemma retain_replay_inv f :
  validate_config (config f) = Ok (config f) ->
  validate_neighbor_map (local_node f) (neighbor_map f) = Ok (neighbor_ids f) ->
  Forall (fun r =>
    validate_neighbor_map (local_node f) (retained_map r) = Ok (retained_ids r) /\
    Overlay.map_cluster_id (retained_map r) = Overlay.map_cluster_id (neighbor_map f))
    (retained_neighbor_maps f) ->
  lenZ (retained_neighbor_maps f) <= 8 ->
  NoDup (Overlay.topology_epoch (neighbor_map f) :: map retained_epoch (retained_neighbor_maps f)) ->
  (exists H, Replay.replay_inv (replay_window f) H) ->
  Replay.capacity (replay_window f) = replay_cache_capacity (config f) ->
  forwarder_inv (retain_replay_epochs f).
Proof.
  intros Hc Hm Hr Hn He [HH Hi] Hcap. split; try done.
  - eexists. by apply Replay.retain_epochs_refines.
  - intros k w Hk. simpl in Hk. apply map_lookup_filter_Some in Hk as [_ Hk]. exact Hk.
Qed.

Lemma filter_same_length {A} (P : A -> Prop) `{!forall x, Decision (P x)} (l : list A) :
  length (filter P l) = length l -> filter P l = l.
Proof.
  induction l as [|x l IH]; [done|]. rewrite filter_cons. case_decide; simpl; intros Hl.
  - f_equal. apply IH. lia.
  - pose proof (length_filter P l). lia.
Qed.

Lemma Forall_filter_weaken {A} (Q P : A -> Prop) `{!forall x, Decision (P x)} (l : list A) :
  Forall Q l -> Forall Q (filter P l).
Proof. rewrite !Forall_forall. intros Hl x [_ Hx]%list_elem_of_filter. auto. Qed.

Lemma NoDup_epochs_filter P `{!forall x, Decision (P x)} l :
  NoDup (map retained_epoch l) -> NoDup (map retained_epoch (filter P l)).
Proof.
  induction l as [|r l IH]; [done|]. rewrite filter_cons. simpl. rewrite NoDup_cons. intros [Hn Hl].
  case_decide; [|by apply IH]. simpl. constructor; [|by apply IH].
  intros (r' & E & [_ Hr']%list_elem_of_filter)%list_elem_of_fmap.
  apply Hn, list_elem_of_fmap. eauto.
Qed.

Lemma expire_inv now f : forwarder_inv f -> forwarder_inv (expire_retained_neighbor_maps now f).
Proof.
  intros [Hc Hm Hr Hn He Hrp Hcap Hl]. unfold expire_retained_neighbor_maps. cbv zeta.
  case_bool_decide as Hlen; simpl in Hlen.
  - apply NoDup_cons in He as [Hne He].
    apply retain_replay_inv; simpl; try done.
    + by apply Forall_filter_weaken.
    + pose proof (length_filter (fun r => now < expires_at r) (retained_neighbor_maps f)). lia.
    + constructor; [|by apply NoDup_epochs_filter].
      intros (r & E & [_ Hin]%list_elem_of_filter)%list_elem_of_fmap.
      apply Hne, list_elem_of_fmap. eauto.
  - apply filter_same_length in Hlen. destruct f; unfold set_retained; simpl in *.
    rewrite Hlen. by split.
Qed.

Lemma observe_keys r Hist epoch src pid seq r' res k w :
  Replay.replay_inv r Hist -> 0 <= seq ->
  Replay.observe r epoch src pid seq = (r', res) ->
  Replay.sequences r' !! k = Some w ->
  k = Replay.key_of epoch src pid \/ is_Some (Replay.sequences r !! k).
Proof.
  intros Hr Hs Ho Hk.
  pose proof (Replay.observe_key_refines r Hist (Replay.key_of epoch src pid) seq Hr Hs) as Hrf.
  unfold Replay.observe_key in Hrf. simpl in Hrf. rewrite Ho in Hrf. destruct Hrf as (_ & _ & Hrf).
  destruct (is_ok res); [|subst; eauto]. destruct Hrf as (H' & Hr' & Hsub & _).
  pose proof (Replay.ri_windows _ _ Hr' k) as Hw. rewrite Hk in Hw.
  inversion Hw as [? A HA E1 E2|]; subst. symmetry in E2.
  pose proof (lookup_weaken _ _ _ _ E2 Hsub) as HsA. unfold Replay.spec_record in HsA.
  apply lookup_insert_Some in HsA as [[<- _]|[_ HsA]]; [by left|]. right.
  pose proof (Replay.ri_windows _ _ Hr k) as Hw0. rewrite HsA in Hw0. inversion Hw0; eauto.
Qed.

Lemma epoch_live f epoch :
  is_Some (neighbor_ids_for_epoch f epoch) <-> epoch ∈ live_epochs f.
Proof.
  unfold neighbor_ids_for_epoch, live_epochs.
  rewrite elem_of_union, elem_of_singleton, elem_of_list_to_set, list_elem_of_fmap.
  destruct (_ =? _) eqn:E; bool_to_prop; [by split; [left|eauto]|].
  destruct (List.find _ _) as [r|] eqn:Hf.
  - apply List.find_some in Hf as [Hin Heq]. apply Z.eqb_eq in Heq.
    split; [|eauto]. intros _. right. exists r. split; [done|]. by apply list_elem_of_In.
  - split; [by intros [? ?]|]. intros [?|(r & -> & Hin)]; [done|]. exfalso.
    apply list_elem_of_In in Hin. pose proof (List.find_none _ _ Hf r Hin). simpl in *. lia.
Qed.

Lemma observe_inv f epoch src pid seq :
  forwarder_inv f -> 0 <= seq -> epoch ∈ live_epochs f ->
  forwarder_inv (observe f epoch src pid seq).1.
Proof.
  intros [Hc Hm Hr Hn He [HH Hrp] Hcap Hl] Hs Hlive. unfold observe.
  destruct (Replay.observe _ _ _ _ _) as [r res] eqn:Ho. simpl.
  pose proof (Replay.observe_key_refines _ _ (Replay.key_of epoch src pid) seq Hrp Hs) as Hrf.
  unfold Replay.observe_key in Hrf. simpl in Hrf. rewrite Ho in Hrf. destruct Hrf as (_ & Hc' & Hrf).
  split; simpl; try done.
  - destruct (is_ok res); [destruct Hrf as (H' & ? & _)|subst]; eauto.
  - by rewrite Hc'.
  - intros k w Hk. destruct (observe_keys _ _ _ _ _ _ _ _ _ _ Hrp Hs Ho Hk) as [->|[w' Hw']]; [done|].
    by eapply Hl.
Qed.

(** Every path through the data operations leaves the engine unchanged, expires old maps,
    or in addition records one sequence number of a live epoch. *)
Inductive evolves (now : Z) (f : BoundedOverlayForwarder) : BoundedOverlayForwarder -> Prop :=
  | ev_same : evolves now f f
  | ev_expire : evolves now f (expire_retained_neighbor_maps now f)
  | ev_observe epoch src pid seq :
      0 <= seq ->
      is_Some (neighbor_ids_for_epoch (expire_retained_neighbor_maps now f) epoch) ->
      evolves now f (observe (expire_retained_neighbor_maps now f) epoch src pid seq).1.
#[local] Hint Constructors evolves : core.

Lemma evolves_inv now f f' : forwarder_inv f -> evolves now f f' -> forwarder_inv f'.
Proof.
  intros Hf [| |epoch src pid seq Hs Hl]; [done|by apply expire_inv|].
  apply observe_inv; [by apply expire_inv|done|by apply epoch_live].
Qed.

Lemma epoch_step now f epoch :
  exists res, validate_topology_epoch now f epoch = (expire_retained_neighbor_maps now f, res) /\
    (is_ok res = true -> is_Some (neighbor_ids_for_epoch (expire_retained_neighbor_maps now f) epoch)).
Proof.
  unfold validate_topology_epoch. cbv zeta.
  destruct (neighbor_ids_for_epoch (expire_retained_neighbor_maps now f) epoch);
    (eexists; split; [done|]; simpl); [eauto|done].
Qed.

(** A trailing [observe]: whatever it answers, the state is its own. *)
Lemma observe_tail now f epoch src pid seq (k : OverlayForwardAction) :
  0 <= seq -> is_Some (neighbor_ids_for_epoch (expire_retained_neighbor_maps now f) epoch) ->
  evolves now f
    (match observe (expire_retained_neighbor_maps now f) epoch src pid seq with
     | (f1, Ok _) => (f1, Ok k)
     | (f1, Err e) => (f1, Err e)
     end : BoundedOverlayForwarder * result OverlayForwardAction OverlayForwarderError).1.
Proof.
  intros Hs Hl. pose proof (ev_observe now f epoch src pid seq Hs Hl) as He.
  by destruct (observe _ _ _ _ _) as [f1 [u|]].
Qed.

Lemma deliver_evolves now f prev e :
  0 <= Multihop.sequence e ->
  is_Some (neighbor_ids_for_epoch (expire_retained_neighbor_maps now f) (Multihop.topology_epoch e)) ->
  evolves now f (deliver (expire_retained_neighbor_maps now f) prev e (Multihop.topology_epoch e)).1.
Proof.
  intros Hs Hl. unfold deliver. destruct (bool_decide _); [done|].
  destruct (ok_or _ _); [|done]. destruct (validate_previous_hop _ _ _ _); [|done].
  destruct (map_err _ _); [|done]. by apply observe_tail.
Qed.

Lemma relay_evolves now f prev e :
  0 <= Multihop.hop_index e -> 0 <= Multihop.sequence e ->
  is_Some (neighbor_ids_for_epoch (expire_retained_neighbor_maps now f) (Multihop.topology_epoch e)) ->
  evolves now f (receive_relay (expire_retained_neighbor_maps now f) prev e (Multihop.topology_epoch e)).1.
Proof.
  intros Hi Hs Hl. unfold receive_relay. destruct (ok_or _ _); [|done]. destruct (bool_decide _); [done|].
  cbv zeta. destruct (if Multihop.hop_index e =? 0 then _ else _); [|done].
  destruct (validate_previous_hop _ _ _ _); [|done].
  destruct (Multihop.advance_hop _ _ _) as [e'|] eqn:Ha; [cbn [map_err]|done].
  apply Multihop.advance_hop_ok in Ha as (_ & _ & ->); [|done].
  destruct (require_next_neighbor _ _ _); [|done].
  destruct (Multihop.encode _); [cbn [map_err]|done].
  destruct (validate_frame_size _ _); [|done]. by apply observe_tail.
Qed.

Lemma receive_evolves now f prev dg : evolves now f (receive now f prev dg).1.
Proof.
  unfold receive, validate_inbound_topology_epoch. destruct (validate_frame_size _ _); [|done].
  destruct (Multihop.decode dg 1) as [e|] eqn:Hd; [cbn [map_err]|done].
  destruct (Multihop.decode_wf _ _ _ Hd) as ((_ & _ & [Hs _] & [Hi _] & _) & _ & _).
  destruct (epoch_step now f (Multihop.topology_epoch e)) as ([u|] & -> & Hl); [|done].
  specialize (Hl eq_refl). destruct (validate_envelope_hop_limit _ _); [|done].
  destruct (Multihop.is_route_complete e); [by apply deliver_evolves|by apply relay_evolves].
Qed.

Lemma selected_path_step now f p selection :
  exists f' res, validate_selected_path now f p selection = (f', res) /\ evolves now f f' /\
    (is_ok res = true -> f' = expire_retained_neighbor_maps now f /\
       is_Some (neighbor_ids_for_epoch f' (Overlay.path_topology_epoch p))).
Proof.
  destruct (validate_selected_path now f p selection) as [f' [nodes|err]] eqn:E.
  { exists f', (Ok nodes). apply selected_path_ok in E as (-> & _ & _ & _ & Hl). eauto. }
  exists f', (Err err). split; [done|]. split; [|done].
  unfold validate_selected_path in E. destruct (map_err _ _); [|by simplify_eq].
  destruct (epoch_step now f (Overlay.path_topology_epoch p)) as ([u|] & Hst & _); rewrite Hst in E;
    [|by simplify_eq].
  assert (f' = expire_retained_neighbor_maps now f) as ->; [|done].
  repeat case_match; by simplify_eq.
Qed.

Lemma encapsulate_evolves now f p selection pid seq inner :
  0 <= seq -> evolves now f (encapsulate_selected now f p selection pid seq inner).1.
Proof.
  intros Hs. unfold encapsulate_selected. destruct (validate_inner_datagram _ _); [|done].
  destruct (forallb _ _); [done|]. cbv zeta.
  destruct (selected_path_step now f p selection) as (f' & [nodes|] & -> & He & Hl); [|done].
  destruct (Hl eq_refl) as [-> Hlive]. destruct (ok_or _ _); [|done].
  destruct (require_next_neighbor _ _ _); [|done].
  case_bool_decide; [by apply observe_tail|].
  destruct (validate_relay_count _ _); [|done]. destruct (map_err _ _); [|done].
  destruct (map_err _ _); [|done]. destruct (validate_frame_size _ _); [|done].
  by apply observe_tail.
Qed.

Lemma cap_retained_sub l : length (cap_retained l) = Nat.min (length l) 8 /\
  forall P : RetainedNeighborMap -> Prop, Forall P l -> Forall P (cap_retained l).
Proof.
  unfold cap_retained, MAX_RETAINED_TOPOLOGY_EPOCHS. split; [rewrite length_drop; simpl; lia|].
  intros P Hl. by apply Forall_drop.
Qed.

Lemma validate_neighbor_map_epoch local m ids :
  validate_neighbor_map local m = Ok ids -> Overlay.topology_epoch m <> 0.
Proof.
  unfold validate_neighbor_map. destruct (map_err _ _); [|done]. rewrite !guard_ok. lia.
Qed.

Lemma update_inv now1 now2 f m :
  forwarder_inv f -> forwarder_inv (update_neighbor_map now1 now2 f m).1.
Proof.
  intros Hf. unfold update_neighbor_map.
  destruct (validate_neighbor_map (local_node f) m) as [ids|] eqn:Hv; [|done].
  destruct (bool_decide _) eqn:Hcl; [done|]. rewrite bool_decide_ne_false in Hcl.
  pose proof (expire_inv now1 f Hf) as Hx. destruct (expire_same now1 f) as (Hloc & _ & Hmap & _).
  revert Hx. set (g := expire_retained_neighbor_maps now1 f) in *. intros Hx.
  destruct Hx as [Hc Hm Hr Hn He Hrp Hcap Hl]. rewrite Hloc in *.
  destruct (_ =? _) eqn:Hep; cbn [negb fst]; bool_to_prop.
  - split; simpl; rewrite ?Hloc; try done; [|by rewrite Hep|].
    + eapply Forall_impl; [exact Hr|]. intros r [? ?]. split; [done|]. congruence.
    + intros k w Hk. specialize (Hl k w Hk). unfold live_epochs in *. simpl. by rewrite Hep.
  - set (kept := filter _ (filter _ (retained_neighbor_maps g)) ++ _).
    apply NoDup_cons in He as [_ He].
    assert (Forall (fun r => retained_epoch r <> Overlay.topology_epoch m) kept) as Hne.
    { apply Forall_app. split; [|by repeat constructor; simpl; auto].
      apply Forall_filter_weaken, Forall_forall. by intros r [? _]%list_elem_of_filter. }
    assert (NoDup (map retained_epoch kept)) as Hnd.
    { unfold kept. rewrite map_app. apply NoDup_app. split_and!.
      - by apply NoDup_epochs_filter, NoDup_epochs_filter.
      - intros x (r & -> & [Hx _]%list_elem_of_filter)%list_elem_of_fmap.
        simpl. rewrite list_elem_of_singleton. exact Hx.
      - repeat constructor. set_solver. }
    destruct (cap_retained_sub kept) as [Hlen Hsub].
    apply retain_replay_inv; simpl; rewrite ?Hloc; try done; [|lia|].
    + apply Hsub, Forall_app. split; [|repeat constructor; simpl; [done|congruence]].
      do 2 apply Forall_filter_weaken. eapply Forall_impl; [exact Hr|].
      intros r [? ?]. split; [done|congruence].
    + constructor.
      * intros (r & E & Hin)%list_elem_of_fmap. apply Hsub in Hne. rewrite Forall_forall in Hne.
        by apply (Hne r Hin).
      * unfold cap_retained. rewrite <- (take_drop (length kept - Z.to_nat MAX_RETAINED_TOPOLOGY_EPOCHS) kept),
          map_app in Hnd. by apply NoDup_app in Hnd as (_ & _ & ?).
Qed.

Lemma engine_new_inv local m c f : new local m c = Ok f -> 0 <= replay_cache_capacity c -> forwarder_inv f.
Proof.
  unfold new. destruct (validate_config c) as [c'|] eqn:Hc; [|done].
  assert (c' = c) as -> by (unfold validate_config in Hc; repeat case_match; congruence).
  destruct (validate_neighbor_map local m) as [ids|] eqn:Hv; [|done]. intros [= <-] Hcap.
  unfold validate_config in Hc. rewrite !guard_ok in Hc.
  destruct Hc as (Hc1 & Hc2 & Hc3 & _).
  split; simpl; try done.
  - unfold validate_config. by rewrite Hc1, Hc2, Hc3.
  - repeat constructor. set_solver.
  - eexists. apply Replay.new_inv. unfold MAX_OVERLAY_REPLAY_CACHE_CAPACITY in Hc3. lia.
Qed.

(** The operations of the engine; each carries the clock readings it takes. *)
Inductive engine_step : BoundedOverlayForwarder -> BoundedOverlayForwarder -> Prop :=
  | st_update now1 now2 f m : engine_step f (update_neighbor_map now1 now2 f m).1
  | st_encapsulate now f p selection pid seq inner :
      0 <= seq -> engine_step f (encapsulate_selected now f p selection pid seq inner).1
  | st_receive now f prev dg : engine_step f (receive now f prev dg).1.

(** From creation on, whatever maps, paths and frames arrive, the engine keeps its
    invariant: valid maps of one cluster for this node, at most eight retained epochs, all
    epochs distinct, the configured replay capacity, and replay state only for epochs that
    are still live. *)
Theorem forwarder_invariant local m c f f' :
  new local m c = Ok f -> 0 <= replay_cache_capacity c -> rtc engine_step f f' ->
  forwarder_inv f'.
Proof.
  intros Hn Hc Hsteps. pose proof (engine_new_inv _ _ _ _ Hn Hc) as Hf. clear Hn Hc.
  induction Hsteps as [f|f f1 f2 Hst _ IH]; [done|]. apply IH.
  destruct Hst as [now1 now2 f m'|now f p sel pid seq inner Hs|now f prev dg].
  - by apply update_inv.
  - eapply evolves_inv; [exact Hf|]. by apply encapsulate_evolves.
  - eapply evolves_inv; [exact Hf|]. apply receive_evolves.
Qed.

(** A successful [receive] witnesses that the node was willing. *)
Lemma receive_ready now f prev dg f' a e :
  receive now f prev dg = (f', Ok a) -> Multihop.decode dg 1 = Ok e ->
  acceptable (expire_retained_neighbor_maps now f) prev e /\
  is_ok (Replay.observe (replay_window (expire_retained_neighbor_maps now f))
    (Multihop.topology_epoch e) (Multihop.source e) (Multihop.path_id e)
    (Multihop.sequence e)).2 = true.
Proof.
  intros (e' & r & Hd & Hacc & Ho & _)%receive_ok Hd'. rewrite Hd in Hd'. simplify_eq.
  by rewrite Ho.
Qed.

End Engine.

(** ** Example: the route [a -> r -> b] *)

Definition engine_of (local : NodeId) (ns : list (NodeId * Z)) : BoundedOverlayForwarder :=
  match new local (Instances.sample_map local ns) default_config with
  | Ok f => f
  | Err _ => {| local_node := local; neighbor_map := Instances.sample_map local ns;
                neighbor_ids := ∅; retained_neighbor_maps := []; config := default_config;
                replay_window := Replay.new 1 |}
  end.

Lemma engine_of_ok local ns :
  is_ok (new local (Instances.sample_map local ns) default_config) = true ->
  new local (Instances.sample_map local ns) default_config = Ok (engine_of local ns).
Proof. unfold engine_of. by destruct (new _ _ _). Qed.

Definition engine_a := engine_of (bstr "a") [(bstr "r", 167772163)].
Definition engine_r := engine_of (bstr "r") [(bstr "a", 167772161); (bstr "b", 167772162)].
Definition engine_b := engine_of (bstr "b") [(bstr "r", 167772163)].
Definition sample_pid : bytes := x01 :: replicate 15 x00.

Definition sent := encapsulate_selected 0 engine_a Instances.sample_path Primary sample_pid 5 [xaa; xbb].
Definition sent_frame : bytes :=
  Eval vm_compute in match sent.2 with Ok (Forward _ dg) => dg | _ => [] end.
Definition relayed := receive 0 engine_r (bstr "a") sent_frame.
Definition relayed_frame : bytes :=
  Eval vm_compute in match relayed.2 with Ok (Forward _ dg) => dg | _ => [] end.

Lemma sample_encapsulated : sent = (sent.1, Ok (Forward (bstr "r") sent_frame)).
Proof. apply pair_snd. by vm_compute. Qed.

Lemma sample_relayed : relayed = (relayed.1, Ok (Forward (bstr "b") relayed_frame)).
Proof. apply pair_snd. by vm_compute. Qed.

Definition delivered := receive 0 engine_b (bstr "r") relayed_frame.

Lemma sample_delivered : delivered = (delivered.1, Ok (Deliver (bstr "a") [xaa; xbb])).
Proof. apply pair_snd. by vm_compute. Qed.

Lemma receive_accepts_iff_witness :
  exists e r, Multihop.decode sent_frame 1 = Ok e /\
    acceptable (expire_retained_neighbor_maps 0 engine_r) (bstr "a") e /\
    Replay.observe (replay_window (expire_retained_neighbor_maps 0 engine_r))
      (Multihop.topology_epoch e) (Multihop.source e) (Multihop.path_id e) (Multihop.sequence e)
      = (r, Ok tt) /\
    relayed.1 = set_replay (expire_retained_neighbor_maps 0 engine_r) r /\
    expected_action e (Forward (bstr "b") relayed_frame).
Proof.
  apply (receive_accepts_iff 0 engine_r (bstr "a") sent_frame). apply sample_relayed.
Defined.

Lemma end_to_end_delivery_witness :
  relay_chain 0 [engine_r; engine_b] (bstr "a") sent_frame = Some (bstr "a", [xaa; xbb]).
Proof.
  apply (end_to_end_delivery 0 engine_a Instances.sample_path Primary sample_pid 5 [xaa; xbb]
           sent.1 (bstr "r") sent_frame [engine_r; engine_b]).
  - apply sample_encapsulated.
  - unfold in_width. simpl. lia.
  - done.
  - unfold in_width. lia.
  - by vm_compute.
  - intros e He. cbn [chain_ready].
    pose proof (receive_ready 0 engine_r (bstr "a") sent_frame relayed.1
      (Forward (bstr "b") relayed_frame) e sample_relayed He) as [H1 H2].
    pose proof (receive_ready 0 engine_b (bstr "r") relayed_frame
      delivered.1 (Deliver (bstr "a") [xaa; xbb]) (advanced e) sample_delivered) as H3.
    destruct H3 as [H3 H4]; [|by split_and!].
    vm_compute in He. injection He as <-. by vm_compute.
Defined.

Lemma encapsulate_frame_witness :
  exists e, Multihop.decode sent_frame 1 = Ok e /\ head (Multihop.path e) = Some (bstr "r").
Proof.
  destruct (encapsulate_frame 0 engine_a Instances.sample_path Primary sample_pid 5 [xaa; xbb]
    sent.1 (bstr "r") sent_frame) as (e & Hd & _ & _ & _ & _ & _ & Hh & _).
  - apply sample_encapsulated.
  - unfold in_width. simpl. lia.
  - done.
  - unfold in_width. lia.
  - exists e. split; [exact Hd|exact Hh].
Defined.

Lemma forwarder_invariant_witness : forwarder_inv relayed.1.
Proof.
  apply (forwarder_invariant (bstr "r")
    (Instances.sample_map (bstr "r") [(bstr "a", 167772161); (bstr "b", 167772162)])
    default_config engine_r).
  - apply engine_of_ok. by vm_compute.
  - vm_compute. discriminate.
  - apply rtc_once. apply st_receive.
Defined.

End Forwarder.
