(* ===== verification/BTree.v ===== *)
(** * Ordered maps (std::collections::BTreeMap)

    A [BTreeMap] as the list of its entries in increasing key order, so that iteration,
    [find] over the values and [retain] visit the entries in the order the code sees.
    The order of keys is a class: integers, bytes and strings are the instances. *)

From Stdlib Require Import Sorting.Sorted.
From S2P Require Import Prelude.

(** ** Ordered keys (Rust's [Ord]) *)

Class KeyOrd (K : Type) : Type := {
  kcmp : K -> K -> comparison;
  kcmp_eq : forall a b, kcmp a b = Eq <-> a = b;
  kcmp_flip : forall a b, kcmp b a = CompOpp (kcmp a b);
  kcmp_trans : forall a b c, kcmp a b = Lt -> kcmp b c = Lt -> kcmp a c = Lt
}.

#[global, refine] Instance Z_ord : KeyOrd Z := {| kcmp := Z.compare |}.
Proof.
  - apply Z.compare_eq_iff.
  - intros a b. apply Z.compare_antisym.
  - intros a b c. rewrite !Z.compare_lt_iff. lia.
Defined.

#[global, refine] Instance nat_ord : KeyOrd nat := {| kcmp := Nat.compare |}.
Proof.
  - apply Nat.compare_eq_iff.
  - apply Nat.compare_antisym.
  - intros x y z. rewrite !Nat.compare_lt_iff. lia.
Defined.

#[global, refine] Instance byte_ord : KeyOrd byte :=
  {| kcmp a b := Z.compare (byteZ a) (byteZ b) |}.
Proof.
  - intros a b. rewrite Z.compare_eq_iff. split; [apply byteZ_inj|by intros ->].
  - intros a b. apply Z.compare_antisym.
  - intros a b c. rewrite !Z.compare_lt_iff. lia.
Defined.

(** The order of the images: fieldless enums by the position of their constructors,
    structs by their fields. *)
Definition ord_by {K K'} `{KeyOrd K'} (f : K -> K') (f_inj : forall a b, f a = f b -> a = b)
  : KeyOrd K.
Proof.
  refine {| kcmp := fun a b => kcmp (f a) (f b) |}.
  - intros a b. rewrite kcmp_eq. split; [apply f_inj|by intros ->].
  - intros a b. apply kcmp_flip.
  - intros a b c. apply kcmp_trans.
Defined.

#[global, refine] Instance prod_ord {A B} `{KeyOrd A, KeyOrd B} : KeyOrd (A * B) :=
  {| kcmp p q := match kcmp p.1 q.1 with Eq => kcmp p.2 q.2 | c => c end |}.
Proof.
  - intros [a b] [a' b']. simpl. destruct (kcmp a a') eqn:E.
    + apply kcmp_eq in E as ->. rewrite kcmp_eq. split; [by intros ->|by intros [= ->]].
    + split; [done|]. intros [= <- _]. by rewrite (proj2 (kcmp_eq a a) eq_refl) in E.
    + split; [done|]. intros [= <- _]. by rewrite (proj2 (kcmp_eq a a) eq_refl) in E.
  - intros [a b] [a' b']. simpl. rewrite (kcmp_flip a a'). destruct (kcmp a a'); simpl; auto.
    apply kcmp_flip.
  - intros [a1 b1] [a2 b2] [a3 b3]. simpl.
    destruct (kcmp a1 a2) eqn:E1; try done; destruct (kcmp a2 a3) eqn:E2; try done; intros H1 H2.
    + apply kcmp_eq in E1 as ->. apply kcmp_eq in E2 as ->.
      rewrite (proj2 (kcmp_eq a3 a3) eq_refl). by eapply kcmp_trans.
    + apply kcmp_eq in E1 as ->. by rewrite E2.
    + apply kcmp_eq in E2 as ->. by rewrite E1.
    + by rewrite (kcmp_trans _ _ _ E1 E2).
Defined.

Section Lexicographic.
  Context {K : Type} `{KeyOrd K}.

Fixpoint lex_cmp (l l' : list K) : comparison :=
  match l, l' with
  | [], [] => Eq
  | [], _ => Lt
  | _, [] => Gt
  | a :: l, b :: l' => match kcmp a b with Eq => lex_cmp l l' | c => c end
  end.

Lemma lex_cmp_eq l l' : lex_cmp l l' = Eq <-> l = l'.
Proof.
  revert l'. induction l as [|a l IH]; intros [|b l']; simpl; try done.
  destruct (kcmp a b) eqn:E.
  - apply kcmp_eq in E as ->. rewrite IH. split; [by intros ->|by intros [= ->]].
  - split; [done|]. intros [= <- _]. by rewrite (proj2 (kcmp_eq a a)) in E.
  - split; [done|]. intros [= <- _]. by rewrite (proj2 (kcmp_eq a a)) in E.
Qed.

Lemma lex_cmp_flip l l' : lex_cmp l' l = CompOpp (lex_cmp l l').
Proof.
  revert l'. induction l as [|a l IH]; intros [|b l']; simpl; try done.
  rewrite (kcmp_flip a b). destruct (kcmp a b); simpl; auto.
Qed.

Lemma lex_cmp_trans l1 l2 l3 :
  lex_cmp l1 l2 = Lt -> lex_cmp l2 l3 = Lt -> lex_cmp l1 l3 = Lt.
Proof.
  revert l2 l3. induction l1 as [|a l1 IH]; intros [|b l2] [|c l3]; simpl; try done.
  destruct (kcmp a b) eqn:E1; try done; destruct (kcmp b c) eqn:E2; try done; intros H1 H2.
  - apply kcmp_eq in E1 as ->. apply kcmp_eq in E2 as ->.
    rewrite (proj2 (kcmp_eq c c) eq_refl). eauto.
  - apply kcmp_eq in E1 as ->. by rewrite E2.
  - apply kcmp_eq in E2 as ->. by rewrite E1.
  - by rewrite (kcmp_trans _ _ _ E1 E2).
Qed.

#[global, refine] Instance lex_ord : KeyOrd (list K) := {| kcmp := lex_cmp |}.
Proof. all: [> apply lex_cmp_eq | apply lex_cmp_flip | apply lex_cmp_trans ]. Defined.

End Lexicographic.

(** ** Maps *)

Definition btree (K V : Type) : Type := list (K * V).

Section Maps.
  Context {K V : Type} `{KeyOrd K}.
  Implicit Types (k : K) (v : V) (m : btree K V).

Fixpoint bt_get k m : option V :=
  match m with
  | [] => None
  | (k', v) :: m =>
      match kcmp k k' with Lt => None | Eq => Some v | Gt => bt_get k m end
  end.

Fixpoint bt_insert k v m : btree K V :=
  match m with
  | [] => [(k, v)]
  | (k', v') :: m' =>
      match kcmp k k' with
      | Lt => (k, v) :: m
      | Eq => (k, v) :: m'
      | Gt => (k', v') :: bt_insert k v m'
      end
  end.

Fixpoint bt_remove k m : btree K V :=
  match m with
  | [] => []
  | (k', v') :: m' =>
      match kcmp k k' with
      | Lt => m
      | Eq => m'
      | Gt => (k', v') :: bt_remove k m'
      end
  end.

Definition bt_retain (p : K -> V -> bool) m : btree K V :=
  List.filter (fun kv => p kv.1 kv.2) m.

(** [m.values_mut().find(p)]: the first entry in key order whose value satisfies [p]. *)
Definition bt_find (p : V -> bool) m : option (K * V) :=
  List.find (fun kv => p kv.2) m.

Definition bt_values m : list V := map snd m.
Definition bt_keys m : list K := map fst m.

(** [m.entry(k).or_default()] followed by an update of the value. *)
Definition bt_entry (d : V) (f : V -> V) k m : btree K V :=
  bt_insert k (f (default d (bt_get k m))) m.

Definition bt_wf m : Prop := StronglySorted (fun a b => kcmp a.1 b.1 = Lt) m.

Lemma kcmp_refl k : kcmp k k = Eq.
Proof. by apply kcmp_eq. Qed.

Lemma kcmp_gt k k' : kcmp k k' = Gt <-> kcmp k' k = Lt.
Proof. rewrite (kcmp_flip k k'). by destruct (kcmp k k'). Qed.

Lemma kcmp_lt_ne k k' : kcmp k k' = Lt -> k <> k'.
Proof. intros Hlt ->. by rewrite kcmp_refl in Hlt. Qed.

Lemma bt_get_insert k v m : bt_get k (bt_insert k v m) = Some v.
Proof.
  induction m as [|[k' v'] m IH]; simpl; [by rewrite kcmp_refl|].
  destruct (kcmp k k') eqn:E; simpl; rewrite ?kcmp_refl, ?E; done.
Qed.

Lemma bt_get_insert_ne k k' v m :
  k <> k' -> bt_get k' (bt_insert k v m) = bt_get k' m.
Proof.
  intros Hne. induction m as [|[k1 v1] m IH]; simpl.
  { destruct (kcmp k' k) eqn:E; try done. apply kcmp_eq in E. by subst. }
  destruct (kcmp k k1) eqn:E; simpl.
  - apply kcmp_eq in E as ->. destruct (kcmp k' k1) eqn:E'; try done.
    apply kcmp_eq in E'. by subst.
  - destruct (kcmp k' k) eqn:E'; try done.
    + apply kcmp_eq in E'. by subst.
    + by rewrite (kcmp_trans _ _ _ E' E).
  - by rewrite IH.
Qed.

Lemma bt_get_insert_case k k' v m `{EqDecision K} :
  bt_get k' (bt_insert k v m) = if decide (k = k') then Some v else bt_get k' m.
Proof.
  destruct (decide (k = k')) as [->|Hne]; [apply bt_get_insert|].
  by apply bt_get_insert_ne.
Qed.

Lemma bt_get_entry_case d f k k' m `{EqDecision K} :
  bt_get k' (bt_entry d f k m) =
  if decide (k = k') then Some (f (default d (bt_get k m))) else bt_get k' m.
Proof. apply bt_get_insert_case. Qed.

Lemma bt_insert_elem k v m kv :
  kv ∈ bt_insert k v m -> kv = (k, v) \/ kv ∈ m.
Proof.
  induction m as [|[k' v'] m IH]; simpl; [by rewrite list_elem_of_singleton; left|].
  destruct (kcmp k k'); rewrite !elem_of_cons; naive_solver.
Qed.

Lemma bt_remove_elem k m kv : kv ∈ bt_remove k m -> kv ∈ m.
Proof.
  induction m as [|[k' v'] m IH]; simpl; [done|].
  destruct (kcmp k k'); rewrite !elem_of_cons; naive_solver.
Qed.

Lemma bt_wf_nil : bt_wf [].
Proof. constructor. Qed.

Lemma bt_wf_cons k v m :
  bt_wf ((k, v) :: m) <-> bt_wf m /\ forall kv, kv ∈ m -> kcmp k kv.1 = Lt.
Proof.
  unfold bt_wf. split.
  - intros Hs. inversion Hs as [|? ? Hm Hall]; subst. split; [done|].
    by apply Forall_forall.
  - intros [Hm Hall]. constructor; [done|]. by apply Forall_forall.
Qed.

Lemma bt_wf_cons_2 k v m :
  bt_wf m -> (forall kv, kv ∈ m -> kcmp k kv.1 = Lt) -> bt_wf ((k, v) :: m).
Proof. intros. by rewrite bt_wf_cons. Qed.

Lemma bt_wf_insert k v m : bt_wf m -> bt_wf (bt_insert k v m).
Proof.
  induction m as [|[k' v'] m IH]; intros Hwf; simpl; [apply bt_wf_cons_2; [constructor|by intros ? ?%not_elem_of_nil]|].
  apply bt_wf_cons in Hwf as [Hm Hall]. destruct (kcmp k k') eqn:E.
  - apply kcmp_eq in E as ->. by apply bt_wf_cons_2.
  - apply bt_wf_cons_2; [by apply bt_wf_cons_2|].
    intros kv [->|Hkv]%elem_of_cons; [done|]. by apply (kcmp_trans _ _ _ E), Hall.
  - apply bt_wf_cons_2; [auto|].
    intros kv [->|Hkv]%bt_insert_elem; [by apply kcmp_gt|auto].
Qed.

Lemma bt_wf_remove k m : bt_wf m -> bt_wf (bt_remove k m).
Proof.
  induction m as [|[k' v'] m IH]; intros Hwf; simpl; [done|].
  apply bt_wf_cons in Hwf as [Hm Hall] . destruct (kcmp k k') eqn:E; [done|by apply bt_wf_cons_2|].
  apply bt_wf_cons_2; [auto|]. intros kv Hkv%bt_remove_elem. auto.
Qed.

Lemma bt_wf_retain p m : bt_wf m -> bt_wf (bt_retain p m).
Proof.
  induction m as [|[k' v'] m IH]; intros Hwf; simpl; [done|].
  apply bt_wf_cons in Hwf as [Hm Hall]. destruct (p k' v'); [|auto].
  apply bt_wf_cons_2; [auto|]. intros kv Hkv. apply Hall.
  unfold bt_retain in Hkv. apply list_elem_of_In, filter_In in Hkv as [Hkv _].
  by apply list_elem_of_In.
Qed.

Lemma bt_wf_entry d f k m : bt_wf m -> bt_wf (bt_entry d f k m).
Proof. apply bt_wf_insert. Qed.

Lemma bt_get_in k v m : bt_get k m = Some v -> (k, v) ∈ m.
Proof.
  induction m as [|[k' v'] m IH]; simpl; [done|]. rewrite elem_of_cons.
  destruct (kcmp k k') eqn:E; [|done|auto]. apply kcmp_eq in E as ->. intros [= ->]. auto.
Qed.

(** In a well-formed map, [bt_get] finds exactly the entries. *)
Lemma bt_get_elem k v m : bt_wf m -> bt_get k m = Some v <-> (k, v) ∈ m.
Proof.
  induction m as [|[k' v'] m IH]; intros Hwf; simpl.
  { split; [done|by intros ?%not_elem_of_nil]. }
  apply bt_wf_cons in Hwf as [Hm Hall]. rewrite elem_of_cons.
  destruct (kcmp k k') eqn:E.
  - apply kcmp_eq in E as ->. split; [intros [= ->]; auto|].
    intros [[= ->]|Hin]; [done|]. apply Hall in Hin. simpl in Hin. by rewrite kcmp_refl in Hin.
  - split; [done|]. intros [[= -> ->]|Hin]; [by rewrite kcmp_refl in E|].
    apply Hall in Hin. simpl in Hin. apply kcmp_gt in Hin. congruence.
  - rewrite IH by done. split; [auto|]. intros [[= -> ->]|Hin]; [|done].
    by rewrite kcmp_refl in E.
Qed.

Lemma bt_get_remove k m : bt_wf m -> bt_get k (bt_remove k m) = None.
Proof.
  induction m as [|[k' v'] m IH]; intros Hwf; simpl; [done|].
  pose proof Hwf as [Hm Hall]%bt_wf_cons. destruct (kcmp k k') eqn:E; simpl; rewrite ?E; auto.
  apply kcmp_eq in E as ->. destruct (bt_get k' m) as [v|] eqn:Eg; [|done].
  apply bt_get_elem, Hall in Eg; [|done]. simpl in Eg. by rewrite kcmp_refl in Eg.
Qed.

Lemma bt_get_remove_ne k k' m : bt_wf m -> k <> k' -> bt_get k' (bt_remove k m) = bt_get k' m.
Proof.
  intros Hwf Hne. induction m as [|[k1 v1] m IH]; simpl; [done|].
  apply bt_wf_cons in Hwf as [Hm Hall]. destruct (kcmp k k1) eqn:E; simpl.
  - apply kcmp_eq in E as ->. destruct (kcmp k' k1) eqn:E'.
    + apply kcmp_eq in E'. by subst.
    + destruct (bt_get k' m) as [v|] eqn:Eg; [|done].
      apply bt_get_elem, Hall in Eg; [|done]. apply kcmp_gt in Eg. simpl in Eg. congruence.
    + done.
  - done.
  - by rewrite IH.
Qed.

Lemma bt_get_retain p k m :
  bt_wf m ->
  bt_get k (bt_retain p m) =
  match bt_get k m with Some v => if p k v then Some v else None | None => None end.
Proof.
  intros Hwf. apply option_eq. intros v.
  rewrite bt_get_elem by by apply bt_wf_retain.
  unfold bt_retain. rewrite list_elem_of_In, filter_In, <- list_elem_of_In, <- bt_get_elem by done.
  simpl. destruct (bt_get k m) as [v'|]; [|intuition congruence].
  destruct (p k v') eqn:E; intuition congruence.
Qed.

Lemma bt_find_some p m k v :
  bt_wf m -> bt_find p m = Some (k, v) -> bt_get k m = Some v /\ p v = true.
Proof.
  unfold bt_find. intros Hwf Hf. apply find_some in Hf as [Hin Hp].
  rewrite bt_get_elem by done. by apply list_elem_of_In in Hin.
Qed.

Lemma bt_find_none p m k v :
  bt_wf m -> bt_find p m = None -> bt_get k m = Some v -> p v = false.
Proof.
  unfold bt_find. intros Hwf Hf Hg. apply bt_get_elem, list_elem_of_In in Hg; [|done].
  by apply (find_none _ _ Hf) in Hg.
Qed.

Lemma bt_retain_length p m : (length (bt_retain p m) <= length m)%nat.
Proof. apply filter_length_le. Qed.

(** A [retain] that removes nothing leaves the map as it is. *)
Lemma bt_retain_same_length p m : length (bt_retain p m) = length m -> bt_retain p m = m.
Proof.
  induction m as [|[k v] m IH]; simpl; [done|].
  destruct (p k v); simpl; intros Hl; [f_equal; apply IH; lia|].
  pose proof (bt_retain_length p m). unfold bt_retain in *. lia.
Qed.

(** ** Sums over the values *)

Definition bt_sum (f : V -> Z) m : Z := foldr (fun kv acc => f kv.2 + acc) 0 m.

Lemma bt_sum_cons f k v m : bt_sum f ((k, v) :: m) = f v + bt_sum f m.
Proof. done. Qed.

Lemma bt_sum_nonneg f m : (forall v, 0 <= f v) -> 0 <= bt_sum f m.
Proof. intros Hf. induction m as [|[k v] m IH]; [done|]. rewrite bt_sum_cons. specialize (Hf v). lia. Qed.

Lemma bt_sum_insert f k v m :
  bt_sum f (bt_insert k v m) =
  bt_sum f m - match bt_get k m with Some v' => f v' | None => 0 end + f v.
Proof.
  induction m as [|[k' v'] m IH]; simpl; [lia|]. destruct (kcmp k k'); simpl; lia.
Qed.

Lemma bt_sum_remove f k m : (forall v, 0 <= f v) -> bt_sum f (bt_remove k m) <= bt_sum f m.
Proof.
  intros Hf. induction m as [|[k' v'] m IH]; simpl; [lia|]. specialize (Hf v').
  destruct (kcmp k k'); simpl; lia.
Qed.

Lemma bt_sum_retain f p m : (forall v, 0 <= f v) -> bt_sum f (bt_retain p m) <= bt_sum f m.
Proof.
  intros Hf. induction m as [|[k' v'] m IH]; simpl; [lia|]. specialize (Hf v').
  unfold bt_retain in *. destruct (p k' v'); simpl; lia.
Qed.

Lemma bt_sum_retain_drop f p k v m :
  (forall v, 0 <= f v) -> bt_get k m = Some v -> p k v = false ->
  bt_sum f (bt_retain p m) + f v <= bt_sum f m.
Proof.
  intros Hf Hg Hp. induction m as [|[k' v'] m IH]; simpl in *; [done|].
  pose proof (Hf v') as Hv'. destruct (kcmp k k') eqn:E; [|done|].
  - apply kcmp_eq in E as <-. simplify_eq. rewrite Hp.
    pose proof (bt_sum_retain f p m Hf). unfold bt_retain in *. lia.
  - specialize (IH Hg). unfold bt_retain in *. destruct (p k' v'); simpl; lia.
Qed.

Lemma bt_sum_length m : bt_sum (fun _ => 1) m = lenZ m.
Proof. induction m; simpl; lia. Qed.

Lemma bt_sum_filter (p : V -> bool) m :
  bt_sum (fun v => if p v then 1 else 0) m = lenZ (List.filter p (bt_values m)).
Proof. induction m as [|[k v] m IH]; simpl; [done|]. destruct (p v); simpl; lia. Qed.

Lemma bt_sum_get f k v m : (forall v, 0 <= f v) -> bt_get k m = Some v -> f v <= bt_sum f m.
Proof.
  intros Hf. induction m as [|[k' v'] m IH]; simpl; [done|].
  assert (0 <= bt_sum f m) by (clear -Hf; induction m as [|[? w] m IH]; simpl;
    [lia|specialize (Hf w); lia]).
  specialize (Hf v'). destruct (kcmp k k'); [intros [= <-]; lia|done|]. intros Hg. apply IH in Hg. lia.
Qed.

End Maps.

(** ** Sets (BTreeSet) and maps over the values *)

Abbreviation btset K := (btree K unit).

Section Sets.
  Context {K : Type} `{KeyOrd K}.

Definition bs_mem (k : K) (s : btset K) : bool :=
  match bt_get k s with Some _ => true | None => false end.

Definition bs_insert (k : K) (s : btset K) : btset K := bt_insert k tt s.

Definition bs_of_list (l : list K) : btset K := foldl (fun s k => bs_insert k s) [] l.

Lemma bs_mem_insert k k' s : bs_mem k' (bs_insert k s) = true <-> k' = k \/ bs_mem k' s = true.
Proof.
  unfold bs_mem, bs_insert. destruct (kcmp k k') eqn:E.
  - apply kcmp_eq in E as ->. rewrite bt_get_insert. tauto.
  - assert (k <> k') by by apply kcmp_lt_ne. rewrite bt_get_insert_ne by done. intuition congruence.
  - assert (k <> k') by (apply kcmp_gt, kcmp_lt_ne in E; congruence).
    rewrite bt_get_insert_ne by done. intuition congruence.
Qed.

Lemma bs_mem_keys k s : bt_wf s -> bs_mem k s = true <-> k ∈ bt_keys s.
Proof.
  intros Hwf. unfold bs_mem, bt_keys. destruct (bt_get k s) as [[]|] eqn:E.
  - split; [|done]. intros _. apply bt_get_elem in E; [|done].
    by apply (list_elem_of_fmap_2 fst) in E.
  - split; [done|]. intros ([? []] & -> & Hin)%list_elem_of_fmap.
    apply bt_get_elem in Hin; [|done]. simpl in *. congruence.
Qed.

Lemma bs_of_list_mem l k : bs_mem k (bs_of_list l) = true <-> k ∈ l.
Proof.
  unfold bs_of_list. assert (Hg : forall s, bs_mem k (foldl (fun s k => bs_insert k s) s l) = true
    <-> k ∈ l \/ bs_mem k s = true).
  { induction l as [|x l IH]; intros s; simpl; [rewrite elem_of_nil; tauto|].
    rewrite IH, bs_mem_insert, elem_of_cons. tauto. }
  rewrite Hg. unfold bs_mem at 1. simpl. intuition congruence.
Qed.

Lemma bt_keys_get {V} k (m : btree K V) : bt_wf m -> k ∈ bt_keys m <-> is_Some (bt_get k m).
Proof.
  intros Hwf. split.
  - intros ([k' v] & -> & Hk)%list_elem_of_fmap. exists v. by apply bt_get_elem.
  - intros [v Hv%bt_get_in]. by apply (list_elem_of_fmap_2 fst) in Hv.
Qed.

Lemma bt_keys_nodup {V} (m : btree K V) : bt_wf m -> NoDup (bt_keys m).
Proof.
  induction m as [|[k v] m IH]; simpl; [constructor|]. intros [Hm Hall]%bt_wf_cons.
  constructor; [|auto]. intros ([k' v'] & -> & Hin)%list_elem_of_fmap.
  by apply Hall, kcmp_lt_ne in Hin.
Qed.

Definition bt_map {V W} (f : V -> W) (m : btree K V) : btree K W :=
  map (fun kv => (kv.1, f kv.2)) m.

Lemma bt_get_map {V W} (f : V -> W) k m : bt_get k (bt_map f m) = f <$> bt_get k m.
Proof. induction m as [|[k' v'] m IH]; simpl; [done|]. by destruct (kcmp k k'). Qed.

Lemma bt_map_insert {V W} (f : V -> W) k v m :
  bt_map f (bt_insert k v m) = bt_insert k (f v) (bt_map f m).
Proof.
  induction m as [|[k' v'] m IH]; simpl; [done|]. destruct (kcmp k k'); simpl; [done..|].
  by rewrite <- IH.
Qed.

End Sets.

#[global] Hint Resolve bt_wf_nil bt_wf_insert bt_wf_remove bt_wf_retain bt_wf_entry : ipars.
