(* ===== verification/SortBy.v ===== *)
(** * Stable sorting ([slice::sort] and [slice::sort_by])

    The standard sort of slices as a stable insertion sort, and what its clients rely on:
    the result is an ordered permutation of the input, and sorting a sorted list changes
    nothing. *)

From S2P Require Import Prelude BTree.
From Stdlib Require Import Sorting.Sorted.

Section SortBy.
  Context {A : Type} (cmp : A -> A -> comparison).

(** [x] goes before the first element that is not less than it. *)
Fixpoint insert_by (x : A) (l : list A) : list A :=
  match l with
  | [] => [x]
  | y :: l' => match cmp x y with Gt => y :: insert_by x l' | _ => x :: l end
  end.

Definition sort_by (l : list A) : list A := foldr insert_by [] l.

Lemma insert_by_perm x l : insert_by x l ≡ₚ x :: l.
Proof.
  induction l as [|y l IH]; simpl; [done|]. destruct (cmp x y); [done..|].
  rewrite IH. by constructor.
Qed.

Lemma sort_by_perm l : sort_by l ≡ₚ l.
Proof. induction l as [|x l IH]; simpl; [done|]. by rewrite insert_by_perm, IH. Qed.

Lemma elem_of_sort_by x l : x ∈ sort_by l <-> x ∈ l.
Proof. by rewrite sort_by_perm. Qed.

Lemma length_sort_by l : length (sort_by l) = length l.
Proof. by rewrite sort_by_perm. Qed.

Definition le_by (x y : A) : Prop := cmp x y <> Gt.

Hypothesis cmp_flip : forall x y, cmp x y = Gt -> cmp y x <> Gt.
Hypothesis cmp_trans : forall x y z, le_by x y -> le_by y z -> le_by x z.

Lemma insert_by_sorted x l : StronglySorted le_by l -> StronglySorted le_by (insert_by x l).
Proof.
  induction 1 as [|y l Hl IH Hall]; simpl; [by repeat constructor|].
  destruct (cmp x y) eqn:E; [| |constructor; [done|]].
  1, 2: constructor; [by constructor|]; assert (Hxy : le_by x y) by (unfold le_by; congruence);
        constructor; [done|]; eapply Forall_impl; [exact Hall|]; intros z Hz; by eapply cmp_trans.
  rewrite Forall_forall in *. intros z Hz. rewrite insert_by_perm in Hz.
  apply elem_of_cons in Hz as [->|Hz]; [by apply cmp_flip|auto].
Qed.

Lemma sort_by_sorted l : StronglySorted le_by (sort_by l).
Proof. induction l; simpl; [constructor|]. by apply insert_by_sorted. Qed.

Lemma sort_by_id l : StronglySorted le_by l -> sort_by l = l.
Proof.
  induction 1 as [|x l Hl IH Hall]; simpl; [done|]. rewrite IH.
  destruct Hall as [|y l Hxy Hall]; simpl; [done|]. unfold le_by in Hxy. by destruct (cmp x y).
Qed.

End SortBy.

(** [sort] on a totally ordered key. *)
Lemma sort_by_ext {A} (cmp cmp' : A -> A -> comparison) l : (forall x y, cmp x y = cmp' x y) -> sort_by cmp l = sort_by cmp' l.
Proof.
  intros E. induction l as [|x l IH]; simpl; [done|]. rewrite IH. clear IH. induction (sort_by cmp' l) as [|y l' IH]; simpl; [done|].
  rewrite E. destruct (cmp' x y); [done..|]. by rewrite IH.
Qed.

Section SortKey.
  Context `{KeyOrd K}.

Definition vec_sort (l : list K) : list K := sort_by kcmp l.

Lemma kcmp_flip_gt (x y : K) : kcmp x y = Gt -> kcmp y x <> Gt.
Proof. rewrite kcmp_gt. congruence. Qed.

Lemma kcmp_le_trans (x y z : K) : le_by kcmp x y -> le_by kcmp y z -> le_by kcmp x z.
Proof.
  unfold le_by. intros Hxy Hyz. destruct (kcmp x y) eqn:E1; [apply kcmp_eq in E1 as ->; done| |done].
  destruct (kcmp y z) eqn:E2; [apply kcmp_eq in E2 as <-; congruence| |done].
  rewrite (kcmp_trans x y z); done.
Qed.

Lemma sort_sorted (l : list K) : StronglySorted (le_by kcmp) (vec_sort l).
Proof. apply sort_by_sorted; [apply kcmp_flip_gt|apply kcmp_le_trans]. Qed.

(** A sorted list without repetition lists the keys of an ordered map. *)
Lemma sort_strict (l : list K) :
  NoDup l -> StronglySorted (fun x y => kcmp x y = Lt) (vec_sort l).
Proof.
  intros Hnd. assert (Hnd' : NoDup (vec_sort l)) by (unfold vec_sort; by rewrite sort_by_perm).
  pose proof (sort_sorted l) as Hs. induction Hs as [|x s Hs IH Hall]; constructor.
  - apply NoDup_cons in Hnd' as [_ ?]. auto.
  - apply NoDup_cons in Hnd' as [Hx _]. rewrite Forall_forall in *. intros y Hy.
    specialize (Hall y Hy). unfold le_by in Hall. destruct (kcmp x y) eqn:E; [|done..].
    apply kcmp_eq in E as ->. done.
Qed.

End SortKey.
