(* ===== verification/Hashing.v ===== *)
(** * Text of numbers and digests (crates/ipars-crypto/src/lib.rs, the standard formatter)

    Decimal and hexadecimal renderings of unsigned integers, hexadecimal parsing, the
    interface of the [sha2] and [hex] crates, and the identifiers derived from digests. *)

From S2P Require Import Prelude RustStd.
From coqutil Require Import Byte Word.LittleEndianList.

(** ** Formatting *)

(** [u64::to_string]: at most twenty digits. *)
Fixpoint decimal_digits (fuel : nat) (z : Z) (acc : bytes) : bytes :=
  match fuel with
  | O => acc
  | S fuel =>
      let acc := Zbyte (48 + z mod 10) :: acc in
      if z <? 10 then acc else decimal_digits fuel (z / 10) acc
  end.

Definition u64_to_string (z : Z) : bytes := decimal_digits 20 z [].

Definition hex_digit (d : Z) : byte := Zbyte (if d <? 10 then 48 + d else 87 + d).

(** [format!("{:016x}", z)] *)
Definition format_016x (z : Z) : bytes :=
  map (fun i => hex_digit (Z.shiftr z (4 * (15 - Z.of_nat i)) mod 16)) (seq 0 16).

Definition hex_of_byte (b : byte) : bytes := [hex_digit (byteZ b / 16); hex_digit (byteZ b mod 16)].

(** The digits of [u64::from_str_radix(s, 16)], with its overflow check. *)
Fixpoint hex_value (value : Z) (l : bytes) : option Z :=
  match l with
  | [] => Some value
  | b :: l =>
      match digit_value 16 b with
      | None => None
      | Some d => if value * 16 + d <? 2 ^ 64 then hex_value (value * 16 + d) l else None
      end
  end.

Definition u64_from_hex (l : bytes) : option Z :=
  match l with
  | [] => None
  | b :: rest =>
      if byteZ b =? 43 then match rest with [] => None | _ => hex_value 0 rest end
      else hex_value 0 l
  end.

Lemma hex_value_bound value l z : 0 <= value < 2 ^ 64 -> hex_value value l = Some z -> 0 <= z < 2 ^ 64.
Proof.
  revert value. induction l as [|b l IH]; intros value Hv; simpl; [by intros [= <-]|].
  destruct (digit_value 16 b) as [d|] eqn:Ed; [|done].
  destruct (value * 16 + d <? 2 ^ 64) eqn:E; [|done]. apply IH.
  assert (0 <= d); [|lia]. unfold digit_value in Ed. pose proof (byteZ_bound b).
  repeat case_match; simplify_eq; lia.
Qed.

Lemma u64_from_hex_bound l z : u64_from_hex l = Some z -> 0 <= z < 2 ^ 64.
Proof. unfold u64_from_hex. intros H. repeat case_match; try done; by eapply hex_value_bound. Qed.

(** ** Digests *)

(** SHA-256 of the [sha2] crate and [hex::encode]: a digest has 32 bytes, and a byte is
    encoded as two lower-case digits. *)
Class DigestOps : Type := {
  sha256 : bytes -> bytes;
  hex_encode : bytes -> bytes;
  sha256_length : forall m, length (sha256 m) = 32%nat;
  hex_encode_spec : forall bs, hex_encode bs = concat (map hex_of_byte bs)
}.

Definition strip_prefix (p l : bytes) : option bytes :=
  if starts_with l p then Some (drop (length p) l) else None.

Lemma lor_shiftl_add x y n : 0 <= n -> 0 <= x < 2 ^ n -> Z.lor x (Z.shiftl y n) = x + y * 2 ^ n.
Proof.
  intros Hn Hx. assert (Hland : Z.land x (Z.shiftl y n) = 0).
  { apply Z.bits_inj'. intros i Hi. rewrite Z.land_spec, Z.bits_0, Z.shiftl_spec by done.
    destruct (Z.lt_ge_cases i n) as [Hlt|Hge].
    - rewrite (Z.testbit_neg_r y) by lia. apply andb_false_r.
    - rewrite <- (Z.mod_small x (2 ^ n)), Z.mod_pow2_bits_high by lia. done. }
  rewrite <- Z.lxor_lor, <- Z.add_nocarry_lxor, Z.shiftl_mul_pow2 by done. done.
Qed.

Lemma be_value_cons b bs : be_value (b :: bs) = byteZ b * 2 ^ (8 * lenZ bs) + be_value bs.
Proof.
  unfold be_value. simpl. rewrite le_combine_app, le_combine_1, length_rev.
  pose proof (le_combine_bound (rev bs)) as Hb. rewrite length_rev in Hb.
  rewrite Z.mul_comm, lor_shiftl_add; lia.
Qed.

Module Hashing.
Section Digests.
Context `{DigestOps}.

Definition node_id_from_public_key (public_key : bytes) : NodeId :=
  bstr "node-" ++ hex_encode (take 16 (sha256 public_key)).

(** A length prefix before each field keeps the material of different fields apart. *)
Definition append_hash_field (material field : bytes) : bytes :=
  material ++ be_bytes 8 (lenZ field) ++ field.

Definition cryptographic_hash_u64 (material : bytes) : Z :=
  default 0
    (hex ← strip_prefix (bstr "node-") (node_id_from_public_key material);
     hex ← slice_get hex 0 16;
     u64_from_hex hex).

Definition hash_fields (fields : list bytes) : Z :=
  cryptographic_hash_u64 (foldl append_hash_field [] fields).

Lemma digit_value_hex_digit d : 0 <= d < 16 -> digit_value 16 (hex_digit d) = Some d.
Proof.
  intros Hd. unfold digit_value, hex_digit.
  destruct (d <? 10) eqn:E; rewrite byteZ_Zbyte by lia; repeat case_match; simplify_eq; lia || f_equal; lia.
Qed.

Lemma byte_hex_value b : digit_value 16 (hex_digit (byteZ b / 16)) = Some (byteZ b / 16) /\
  digit_value 16 (hex_digit (byteZ b mod 16)) = Some (byteZ b mod 16).
Proof. pose proof (byteZ_bound b). split; apply digit_value_hex_digit; dlia. Qed.

Lemma hex_value_bytes bs v :
  0 <= v -> (v + 1) * 2 ^ (8 * lenZ bs) <= 2 ^ 64 ->
  hex_value v (concat (map hex_of_byte bs)) = Some (v * 2 ^ (8 * lenZ bs) + be_value bs).
Proof.
  revert v. induction bs as [|b bs IH]; intros v Hv Hb.
  { simpl. f_equal. change (be_value []) with 0. simpl length. rewrite Z.mul_0_r, Z.pow_0_r. lia. }
  simpl. destruct (byte_hex_value b) as [-> ->]. pose proof (byteZ_bound b) as Hbyte.
  rewrite length_cons in *. replace (8 * Z.of_nat (S (length bs))) with (8 + 8 * lenZ bs) in * by lia.
  rewrite Z.pow_add_r in * by lia. change (2 ^ 8) with 256 in *.
  assert (Hp : 0 < 2 ^ (8 * lenZ bs)) by (apply Z.pow_pos_nonneg; lia).
  assert (Hsplit : (v * 16 + byteZ b / 16) * 16 + byteZ b mod 16 = v * 256 + byteZ b)
    by (pose proof (Z.div_mod (byteZ b) 16); lia).
  assert (Hmid : v * 16 + byteZ b / 16 <= (v + 1) * 256 - 1) by dlia.
  rewrite Hsplit. rewrite be_value_cons.
  destruct (v * 16 + byteZ b / 16 <? 2 ^ 64) eqn:E1; [|nia].
  destruct (v * 256 + byteZ b <? 2 ^ 64) eqn:E2; [|nia].
  rewrite IH; [f_equal; lia|lia|nia].
Qed.

Lemma concat_hex_take n bs :
  take (2 * n) (concat (map hex_of_byte bs)) = concat (map hex_of_byte (take n bs)).
Proof.
  revert bs. induction n as [|n IH]; intros [|b bs]; [done..|].
  replace (2 * S n)%nat with (S (S (2 * n))) by lia. simpl. by rewrite <- IH.
Qed.

Lemma concat_hex_length bs : length (concat (map hex_of_byte bs)) = (2 * length bs)%nat.
Proof. induction bs as [|b bs IH]; [done|]. simpl in *. lia. Qed.

(** The digest as a number: the first eight bytes in big-endian order. *)
Lemma hash_value material : cryptographic_hash_u64 material = be_value (take 8 (sha256 material)).
Proof.
  unfold cryptographic_hash_u64, node_id_from_public_key, strip_prefix.
  rewrite starts_with_app, drop_app_length, hex_encode_spec.
  assert (Hs : slice_get (concat (map hex_of_byte (take 16 (sha256 material)))) 0 16 =
               Some (concat (map hex_of_byte (take 8 (sha256 material))))).
  { unfold slice_get. rewrite concat_hex_length, length_take, sha256_length.
    change (Some (take (2 * 8) (concat (map hex_of_byte (take 16 (sha256 material))))) =
            Some (concat (map hex_of_byte (take 8 (sha256 material))))).
    by rewrite concat_hex_take, take_take. }
  change (default 0 (slice_get (concat (map hex_of_byte (take 16 (sha256 material)))) 0 16 ≫= u64_from_hex)
          = be_value (take 8 (sha256 material))).
  rewrite Hs. change (default 0 (u64_from_hex (concat (map hex_of_byte (take 8 (sha256 material)))))
          = be_value (take 8 (sha256 material))).
  assert (Hl8 : length (take 8 (sha256 material)) = 8%nat) by (rewrite length_take, sha256_length; lia).
  destruct (take 8 (sha256 material)) as [|b bs] eqn:E; [done|]. rewrite <- E in *.
  unfold u64_from_hex. destruct (concat (map hex_of_byte (take 8 (sha256 material)))) as [|d ds] eqn:Ec.
  { apply (f_equal length) in Ec. rewrite concat_hex_length, Hl8 in Ec. done. }
  assert (Hd : byteZ d =? 43 = false).
  { rewrite E in Ec. simpl in Ec. injection Ec as <- _. pose proof (byteZ_bound b).
    unfold hex_digit. destruct (byteZ b / 16 <? 10) eqn:E10; rewrite byteZ_Zbyte by dlia; dlia. }
  rewrite Hd, <- Ec, hex_value_bytes; [|lia|rewrite Hl8; lia]. simpl default. lia.
Qed.

Lemma hash_bound material : 0 <= cryptographic_hash_u64 material < 2 ^ 64.
Proof.
  unfold cryptographic_hash_u64. destruct (strip_prefix _ _) as [h|]; simpl; [|lia].
  destruct (slice_get h 0 16) as [h'|]; simpl; [|lia].
  destruct (u64_from_hex h') as [z|] eqn:E; simpl; [by apply u64_from_hex_bound in E|lia].
Qed.

End Digests.
End Hashing.

(** A multiplicative hash that stands for SHA-256 in the examples. *)
Definition sample_hash (m : bytes) : bytes :=
  let h := foldl (fun h b => Z.land (Z.lxor h (byteZ b) * 1099511628211) 18446744073709551615)
             14695981039346656037 m in
  let d := be_bytes 8 (Z.lxor h (Z.shiftr h 32)) in d ++ d ++ d ++ d.

#[refine] Definition sample_digest : DigestOps := {|
  sha256 := sample_hash;
  hex_encode := fun bs => concat (map hex_of_byte bs)
|}.
Proof.
  - intros m. unfold sample_hash. cbv zeta. by rewrite !length_app, !length_be_bytes.
  - done.
Defined.
