(* ===== verification/F32.v ===== *)
(** * Binary32 numbers ([f32])

    The operations of [f32] that the code uses, as the IEEE 754 operations of the Standard
    Library's specification at 24 bits of mantissa and exponents up to 128. Literals are
    quotients of integers, correctly rounded. *)

From S2P Require Import Prelude BTree.
From Stdlib Require Import Floats.SpecFloat.

Definition f32 : Type := spec_float.

#[global] Instance f32_eq_dec : EqDecision f32.
Proof. solve_decision. Defined.

Module F32.

(** [z as f32] *)
Definition of_Z (z : Z) : f32 := binary_normalize 24 128 z 0 false.

Definition add : f32 -> f32 -> f32 := SFadd 24 128.
Definition sub : f32 -> f32 -> f32 := SFsub 24 128.
Definition mul : f32 -> f32 -> f32 := SFmul 24 128.
Definition div : f32 -> f32 -> f32 := SFdiv 24 128.
Definition le : f32 -> f32 -> bool := SFleb.
Definition lt : f32 -> f32 -> bool := SFltb.

(** The literal [n / d], for integers that [f32] represents exactly. *)
Definition lit (n d : Z) : f32 := div (of_Z n) (of_Z d).

Definition is_nan (x : f32) : bool := match x with S754_nan => true | _ => false end.

Definition is_finite (x : f32) : bool := match x with S754_zero _ | S754_finite _ _ _ => true | _ => false end.

(** [f32::min]: the other argument when one is not a number. *)
Definition min (x y : f32) : f32 := if is_nan x then y else if is_nan y then x else if lt y x then y else x.

(** [f32::clamp] *)
Definition clamp (x low high : f32) : f32 := if lt x low then low else if lt high x then high else x.

(** [(low..=high).contains(&x)] *)
Definition within (low high x : f32) : bool := le low x && le x high.

Definition zero : f32 := S754_zero false.
Definition one : f32 := of_Z 1.

(** ** Signs *)

(** The numbers from 0 on, infinity included. *)
Definition nonneg (x : f32) : Prop := match x with S754_nan => False | S754_zero s | S754_infinity s | S754_finite s _ _ => s = false end.

Lemma shr_1_nonneg r : 0 <= shr_m r -> 0 <= shr_m (shr_1 r).
Proof. destruct r as [m r s]. simpl. intros H. destruct m as [|[p|p|]|p]; simpl; lia. Qed.

Lemma iter_shr_nonneg n r : 0 <= shr_m r -> 0 <= shr_m (iter_pos shr_1 n r).
Proof. revert r. induction n; intros r H; simpl; auto using shr_1_nonneg. Qed.

Lemma shr_fexp_nonneg m e l : 0 <= m -> 0 <= shr_m (shr_fexp 24 128 m e l).1.
Proof.
  intros H. unfold shr_fexp, shr. assert (0 <= shr_m (shr_record_of_loc m l)) by (by destruct l as [|[]]).
  case_match; simpl; auto using iter_shr_nonneg.
Qed.

(** Rounding keeps the sign and yields a number. *)
Lemma round_aux_sign s m e l : 0 <= m ->
  match binary_round_aux 24 128 s m e l with S754_nan => False | S754_zero s' | S754_infinity s' | S754_finite s' _ _ => s' = s end.
Proof.
  intros H. unfold binary_round_aux. pose proof (shr_fexp_nonneg m e l H) as H1.
  destruct (shr_fexp 24 128 m e l) as [r e'] eqn:E1. simpl in H1.
  assert (0 <= round_nearest_even (shr_m r) (loc_of_shr_record r)) as H2
    by (unfold round_nearest_even; repeat case_match; lia).
  pose proof (shr_fexp_nonneg _ e' loc_Exact H2) as H3.
  destruct (shr_fexp 24 128 (round_nearest_even _ _) e' loc_Exact) as [r' e''] eqn:E2. simpl in H3.
  destruct (shr_m r'); [done| |lia]. by destruct (Z.leb _ _).
Qed.

Lemma round_nonneg m e l : 0 <= m -> nonneg (binary_round_aux 24 128 false m e l).
Proof. intros H. by pose proof (round_aux_sign false m e l H). Qed.

Lemma normalize_nonneg m e : 0 <= m -> nonneg (binary_normalize 24 128 m e false).
Proof.
  destruct m as [|m|m]; [done| |lia]. intros _. simpl. unfold binary_round.
  destruct (shl_align _ _ _) as [mz ez]. by apply round_nonneg.
Qed.

Lemma of_Z_nonneg z : 0 <= z -> nonneg (of_Z z).
Proof. apply normalize_nonneg. Qed.

Lemma add_nonneg x y : nonneg x -> nonneg y -> nonneg (add x y).
Proof.
  destruct x as [[]|[]| |[] mx ex], y as [[]|[]| |[] my ey]; try done. intros _ _. unfold add, SFadd.
  apply normalize_nonneg. simpl. lia.
Qed.

Lemma mul_nonneg x m e : nonneg x -> nonneg (mul x (S754_finite false m e)).
Proof. destruct x as [[]|[]| |[] mx ex]; try done. intros _. unfold mul, SFmul. by apply round_nonneg. Qed.

Lemma div_nonneg x m e : nonneg x -> nonneg (div x (S754_finite false m e)).
Proof.
  destruct x as [[]|[]| |[] mx ex]; try done. intros _. unfold div, SFdiv.
  destruct (SFdiv_core_binary 24 128 (Zpos mx) ex (Zpos m) e) as [[q ez] lz] eqn:E. apply round_nonneg.
  unfold SFdiv_core_binary in E. destruct (Z.div_eucl _ _) as [q' r] eqn:Ed. simplify_eq.
  match type of Ed with Z.div_eucl ?a ?b = _ => pose proof (Z_div_mod a b) as H; rewrite Ed in H; destruct H as [H1 H2]; [lia|];
    assert (0 <= a) by (case_match; [lia|by apply Z.shiftl_nonneg|lia]) end.
  nia.
Qed.

(** ** Order *)

Lemma nonneg_le x : nonneg x -> le zero x = true.
Proof. by destruct x as [[]|[]| |[] m e]. Qed.

Lemma nonneg_number x : nonneg x -> is_nan x = false.
Proof. by destruct x. Qed.

Lemma compare_flip x y : SFcompare y x = CompOpp <$> SFcompare x y.
Proof.
  destruct x as [[]|[]| |[] mx ex], y as [[]|[]| |[] my ey]; try done; simpl; rewrite (Z.compare_antisym ex ey);
    rewrite (Pos.compare_antisym mx my : Pos.compare_cont Eq my mx = _); change (Pos.compare_cont Eq mx my) with (mx ?= my)%positive;
    by destruct (ex ?= ey), (mx ?= my)%positive.
Qed.

Lemma le_refl x : is_nan x = false -> le x x = true.
Proof.
  intros H. pose proof (compare_flip x x) as E. unfold le, SFleb.
  destruct (SFcompare x x) as [[]|] eqn:Ec; try done; by destruct x as [[]|[]| |[] m e].
Qed.

Lemma le_number x y : le x y = true -> is_nan x = false /\ is_nan y = false.
Proof. by destruct x, y. Qed.

Lemma not_lt_le x y : is_nan x = false -> is_nan y = false -> lt y x = false -> le x y = true.
Proof.
  unfold lt, le, SFltb, SFleb. rewrite (compare_flip x y). intros Hx Hy.
  destruct (SFcompare x y) as [[]|] eqn:E; try done. by destruct x, y.
Qed.

(** The lesser of two numbers: one of them, and not above the second. *)
Lemma min_spec x y : is_nan x = false -> is_nan y = false -> (min x y = x \/ min x y = y) /\ le (min x y) y = true.
Proof.
  intros Hx Hy. unfold min. rewrite Hx, Hy. destruct (lt y x) eqn:E; (split; [auto|]); [by apply le_refl|by apply not_lt_le].
Qed.

Lemma min_nonneg x y : nonneg x -> nonneg y -> nonneg (min x y) /\ le (min x y) y = true.
Proof.
  intros Hx Hy. destruct (min_spec x y) as [[->| ->] H]; [by apply nonneg_number|by apply nonneg_number|done|done].
Qed.

(** The order as a lexicographic one: class, exponent, mantissa. *)
Definition key (x : f32) : Z * (Z * Z) :=
  match x with
  | S754_infinity s => (if s then -2 else 2, (0, 0))
  | S754_finite s m e => if s then (-1, (- e, - Zpos m)) else (1, (e, Zpos m))
  | _ => (0, (0, 0))
  end.

Lemma compare_key x y : is_nan x = false -> is_nan y = false -> SFcompare x y = Some (kcmp (key x) (key y)).
Proof.
  destruct x as [[]|[]| |[] mx ex], y as [[]|[]| |[] my ey]; try done; intros _ _; cbn -[Z.compare].
  rewrite Z.compare_opp, (Z.compare_antisym ex ey). by destruct (ex ?= ey).
Qed.

Lemma le_trans x y z : le x y = true -> le y z = true -> le x z = true.
Proof.
  intros H1 H2. destruct (le_number _ _ H1) as [Hx Hy], (le_number _ _ H2) as [_ Hz]. revert H1 H2.
  unfold le, SFleb. rewrite !compare_key by done.
  destruct (kcmp (key x) (key y)) eqn:E1; try done; destruct (kcmp (key y) (key z)) eqn:E2; try done; intros _ _.
  - apply kcmp_eq in E1 as ->. by rewrite E2.
  - apply kcmp_eq in E1 as ->. by rewrite E2.
  - apply kcmp_eq in E2 as <-. by rewrite E1.
  - by rewrite (kcmp_trans _ _ _ E1 E2).
Qed.

(** The numbers from 0 to 1. *)
Definition unit_interval (x : f32) : Prop := nonneg x /\ le x one = true.

Lemma unit_within x : unit_interval x -> is_finite x = true /\ within zero one x = true.
Proof.
  intros [H1 H2]. split; [by destruct x as [[]|[]| |[] m e]|]. unfold within. by rewrite (nonneg_le x), H2.
Qed.

(** A nonnegative number cut off at a literal of the interval is in it. *)
Lemma min_unit x y : nonneg x -> unit_interval y -> unit_interval (min x y).
Proof. intros Hx [Hy1 Hy2]. destruct (min_nonneg x y) as [H1 H2]; [done..|]. split; [done|]. by eapply le_trans. Qed.

End F32.
