(* ===== verification/Stun.v ===== *)
(** * STUN (crates/ipars-stun/src/lib.rs)

    The codec of binding requests and responses, the two servers, and the client that
    learns its addresses from them. Sockets are queues of datagrams; the local address of a
    route, what a socket takes and what arrives are arguments. A receive that the operating
    system fails, and the shutdown of a server, are not modelled. *)

From S2P Require Import Prelude RustStd Endpoints.

Module Stun.

Definition BINDING_REQUEST : Z := 0x0001.
Definition BINDING_SUCCESS_RESPONSE : Z := 0x0101.
Definition CHANGE_REQUEST : Z := 0x0003.
Definition XOR_MAPPED_ADDRESS : Z := 0x0020.
Definition RESPONSE_ORIGIN : Z := 0x802b.
Definition OTHER_ADDRESS : Z := 0x802c.
Definition STUN_HEADER_LEN : Z := 20.
Definition MAGIC_COOKIE : Z := 0x2112A442.
Definition CHANGE_REQUEST_CHANGE_IP : Z := 0x04.
Definition CHANGE_REQUEST_CHANGE_PORT : Z := 0x02.

(** The texts of [InvalidResponse]. *)
Inductive invalid : Type :=
  | ShorterThanHeader | LeadingBits | LengthExceedsDatagram | NotAligned | CookieMismatch
  | ExpectedRequest (message_type : Z) | ExpectedResponse (message_type : Z) | TransactionMismatch
  | AttributeExceedsMessage | MappedAddressMissing | MalformedChangeRequest
  | MalformedAddress (xor : bool) | MalformedIpv4 (xor : bool) | MalformedIpv6 (xor : bool)
  | UnsupportedFamily (xor : bool) (family : Z)
  | ValueTooLarge | ServerUnusable (server : SocketAddr) | NoObservation.

Inductive StunError : Type :=
  | Socket
  | InvalidResponse (reason : invalid)
  | Timeout (stun_server : SocketAddr).

Record BindingRequestOptions : Type := {
  change_ip : bool;
  change_port : bool
}.

Definition same_address : BindingRequestOptions := {| change_ip := false; change_port := false |}.
Definition only_change_port : BindingRequestOptions := {| change_ip := false; change_port := true |}.
Definition change_address_and_port : BindingRequestOptions := {| change_ip := true; change_port := true |}.

Record BindingRequest : Type := {
  transaction_id : bytes;
  options : BindingRequestOptions
}.

Record BindingResponse : Type := {
  mapped_addr : SocketAddr;
  response_origin : option SocketAddr;
  other_address : option SocketAddr
}.

(** ** Writing *)

Definition padding_len (value_len : Z) : Z := (4 - value_len mod 4) mod 4.

(** [write_attribute(attributes, ..)]: what is appended. *)
Definition write_attribute (attr_type : Z) (value : bytes) : result bytes StunError :=
  if 65535 <? lenZ value then Err (InvalidResponse ValueTooLarge)
  else Ok (be_bytes 2 attr_type ++ be_bytes 2 (lenZ value) ++ value ++ replicate (Z.to_nat (padding_len (lenZ value))) x00).

Definition write_header (message_type message_len : Z) (tid : bytes) : bytes :=
  be_bytes 2 message_type ++ be_bytes 2 message_len ++ be_bytes 4 MAGIC_COOKIE ++ tid.

Definition ipv6_xor_mask (tid : bytes) : bytes := be_bytes 4 MAGIC_COOKIE ++ tid.

Definition xor_byte (a b : byte) : byte := Zbyte (Z.lxor (byteZ a) (byteZ b)).

Definition xor_port (port : Z) : Z := Z.lxor port (Z.shiftr MAGIC_COOKIE 16).

Definition write_xor_mapped_address (tid : bytes) (addr : SocketAddr) : result bytes StunError :=
  write_attribute XOR_MAPPED_ADDRESS
    (match socket_ip addr with
     | IpV4 ip => [x00; x01] ++ be_bytes 2 (xor_port (socket_port addr)) ++ be_bytes 4 (Z.lxor ip MAGIC_COOKIE)
     | IpV6 ip => [x00; x02] ++ be_bytes 2 (xor_port (socket_port addr))
                  ++ zip_with xor_byte (be_bytes 16 ip) (ipv6_xor_mask tid)
     end).

Definition write_change_request (o : BindingRequestOptions) : result bytes StunError :=
  let flags := if change_ip o then Z.lor 0 CHANGE_REQUEST_CHANGE_IP else 0 in
  let flags := if change_port o then Z.lor flags CHANGE_REQUEST_CHANGE_PORT else flags in
  write_attribute CHANGE_REQUEST (be_bytes 4 flags).

Definition write_address_attribute (attr_type : Z) (addr : SocketAddr) : result bytes StunError :=
  write_attribute attr_type
    (match socket_ip addr with
     | IpV4 ip => [x00; x01] ++ be_bytes 2 (socket_port addr) ++ be_bytes 4 ip
     | IpV6 ip => [x00; x02] ++ be_bytes 2 (socket_port addr) ++ be_bytes 16 ip
     end).

Definition encode_binding_request (tid : bytes) (o : BindingRequestOptions) : result bytes StunError :=
  let? attributes := (if change_ip o || change_port o then write_change_request o else Ok []) in
  Ok (write_header BINDING_REQUEST (as_width 16 (lenZ attributes)) tid ++ attributes).

Definition encode_binding_success_response_with_attrs (tid : bytes) (mapped : SocketAddr)
    (origin other : option SocketAddr) : result bytes StunError :=
  let? mapped := write_xor_mapped_address tid mapped in
  let? origin := match origin with Some a => write_address_attribute RESPONSE_ORIGIN a | None => Ok [] end in
  let? other := match other with Some a => write_address_attribute OTHER_ADDRESS a | None => Ok [] end in
  let attributes := mapped ++ origin ++ other in
  Ok (write_header BINDING_SUCCESS_RESPONSE (as_width 16 (lenZ attributes)) tid ++ attributes).

(** ** Reading *)

Definition read_header (message : bytes) : result (Z * Z * bytes) StunError :=
  if lenZ message <? STUN_HEADER_LEN then Err (InvalidResponse ShorterThanHeader)
  else
    let message_type := be_value (slice message 0 2) in
    if negb (Z.land message_type 0xC000 =? 0) then Err (InvalidResponse LeadingBits)
    else
      let message_len := be_value (slice message 2 4) in
      if lenZ message <? STUN_HEADER_LEN + message_len then Err (InvalidResponse LengthExceedsDatagram)
      else if negb (message_len mod 4 =? 0) then Err (InvalidResponse NotAligned)
      else if negb (be_value (slice message 4 8) =? MAGIC_COOKIE) then Err (InvalidResponse CookieMismatch)
      else Ok (message_type, message_len, slice message 8 20).

(** The loop over the attributes of both decoders: [rest] is what lies between the cursor and
    the end of the attributes, and [None] stands for a lack of fuel. *)
Fixpoint attributes_loop {A} (attribute : A -> Z -> bytes -> result A StunError) (fuel : nat) (rest : bytes) (acc : A)
  : option (result A StunError) :=
  match fuel with
  | O => None
  | S fuel =>
      if lenZ rest <? 4 then Some (Ok acc)
      else
        let attr_type := be_value (slice rest 0 2) in
        let attr_len := be_value (slice rest 2 4) in
        let body := drop 4 rest in
        if lenZ body <? attr_len then Some (Err (InvalidResponse AttributeExceedsMessage))
        else
          match attribute acc attr_type (take (Z.to_nat attr_len) body) with
          | Err e => Some (Err e)
          | Ok acc => attributes_loop attribute fuel (drop (Z.to_nat (attr_len + padding_len attr_len)) body) acc
          end
  end.

Definition decode_change_request (value : bytes) : result BindingRequestOptions StunError :=
  if negb (lenZ value =? 4) then Err (InvalidResponse MalformedChangeRequest)
  else
    let flags := be_value value in
    Ok {| change_ip := negb (Z.land flags CHANGE_REQUEST_CHANGE_IP =? 0);
          change_port := negb (Z.land flags CHANGE_REQUEST_CHANGE_PORT =? 0) |}.

Definition request_attribute (o : BindingRequestOptions) (attr_type : Z) (value : bytes)
  : result BindingRequestOptions StunError :=
  if attr_type =? CHANGE_REQUEST then decode_change_request value else Ok o.

(** The attributes of a message: [message[20..20 + message_len]]. *)
Definition attributes_of (message : bytes) (message_len : Z) : bytes :=
  slice message STUN_HEADER_LEN (STUN_HEADER_LEN + message_len).

Definition decode_binding_request (message : bytes) : option (result BindingRequest StunError) :=
  match read_header message with
  | Err e => Some (Err e)
  | Ok (message_type, message_len, tid) =>
      if negb (message_type =? BINDING_REQUEST) then Some (Err (InvalidResponse (ExpectedRequest message_type)))
      else
        o ← attributes_loop request_attribute (S (length message)) (attributes_of message message_len) same_address;
        Some (let? o := o in Ok {| transaction_id := tid; options := o |})
  end.

(** The part [decode_address_attribute] and [decode_xor_mapped_address] share: they differ in
    how the port and the address are read. *)
Definition decode_address (xor : bool) (port : Z -> Z) (v4 : Z -> Z) (v6 : bytes -> bytes) (value : bytes) : result SocketAddr StunError :=
  if (lenZ value <? 4) || negb (be_value (slice value 0 1) =? 0) then Err (InvalidResponse (MalformedAddress xor))
  else
    let p := port (be_value (slice value 2 4)) in
    let family := be_value (slice value 1 2) in
    if family =? 1 then
      if negb (lenZ value =? 8) then Err (InvalidResponse (MalformedIpv4 xor))
      else Ok (socket_new (IpV4 (v4 (be_value (slice value 4 8)))) p)
    else if family =? 2 then
      if negb (lenZ value =? 20) then Err (InvalidResponse (MalformedIpv6 xor))
      else Ok (socket_new (IpV6 (be_value (v6 (slice value 4 20)))) p)
    else Err (InvalidResponse (UnsupportedFamily xor family)).

Definition decode_address_attribute (value : bytes) : result SocketAddr StunError :=
  decode_address false (fun p => p) (fun a => a) (fun a => a) value.

Definition decode_xor_mapped_address (value tid : bytes) : result SocketAddr StunError :=
  decode_address true xor_port (fun a => Z.lxor a MAGIC_COOKIE) (fun a => zip_with xor_byte a (ipv6_xor_mask tid)) value.

Definition response_attribute (tid : bytes) (acc : option SocketAddr * option SocketAddr * option SocketAddr)
    (attr_type : Z) (value : bytes) : result (option SocketAddr * option SocketAddr * option SocketAddr) StunError :=
  let '(mapped, origin, other) := acc in
  if attr_type =? XOR_MAPPED_ADDRESS then let? a := decode_xor_mapped_address value tid in Ok (Some a, origin, other)
  else if attr_type =? RESPONSE_ORIGIN then let? a := decode_address_attribute value in Ok (mapped, Some a, other)
  else if attr_type =? OTHER_ADDRESS then let? a := decode_address_attribute value in Ok (mapped, origin, Some a)
  else Ok acc.

Definition decode_binding_success_response_details (message expected : bytes) : option (result BindingResponse StunError) :=
  match read_header message with
  | Err e => Some (Err e)
  | Ok (message_type, message_len, tid) =>
      if negb (message_type =? BINDING_SUCCESS_RESPONSE) then Some (Err (InvalidResponse (ExpectedResponse message_type)))
      else if bool_decide (tid <> expected) then Some (Err (InvalidResponse TransactionMismatch))
      else
        r ← attributes_loop (response_attribute tid) (S (length message)) (attributes_of message message_len) (None, None, None);
        Some (let? (mapped, origin, other) := r in
              let? mapped := ok_or mapped (InvalidResponse MappedAddressMissing) in
              Ok {| mapped_addr := mapped; response_origin := origin; other_address := other |})
  end.

(** ** Servers *)

Inductive server_stat : Type :=
  | binding_request_count | binding_response_count | invalid_packet_count
  | socket_receive_error_count | socket_send_error_count.

(** What a server does with a datagram: the counters it increments, the datagram it hands to
    a socket (which one, by its bound address, for whom) and its result. *)
Record Served : Type := {
  counted : list server_stat;
  sent : option (SocketAddr * SocketAddr * bytes);
  outcome : result unit StunError
}.

(** The operating system: the local address of a route to a peer (an I/O error when there is
    none), and whether a socket takes a datagram for a peer. *)
Record System : Type := {
  route_ip : SocketAddr -> option IpAddr;
  send_ok : SocketAddr -> SocketAddr -> bytes -> bool
}.

Definition concrete_local_addr (sys : System) (bound_addr remote_addr : SocketAddr) : result SocketAddr StunError :=
  if negb (is_unspecified (socket_ip bound_addr)) then Ok bound_addr
  else match route_ip sys remote_addr with
       | None => Err Socket
       | Some ip => Ok (socket_new ip (socket_port bound_addr))
       end.

Definition failed (counted : list server_stat) (e : StunError) : Served := {| counted := counted; sent := None; outcome := Err e |}.

Definition answer (sys : System) (socket peer : SocketAddr) (r : result bytes StunError) : Served :=
  match r with
  | Err e => failed [binding_request_count] e
  | Ok response =>
      if send_ok sys socket peer response
      then {| counted := [binding_request_count; binding_response_count]; sent := Some (socket, peer, response); outcome := Ok tt |}
      else {| counted := [binding_request_count; socket_send_error_count]; sent := None; outcome := Err Socket |}
  end.

Definition ignored : Served := {| counted := [invalid_packet_count]; sent := None; outcome := Ok tt |}.

Definition optional_local_addr (sys : System) (addr : option SocketAddr) (peer : SocketAddr) : result (option SocketAddr) StunError :=
  match addr with
  | Some a => let? a := concrete_local_addr sys a peer in Ok (Some a)
  | None => Ok None
  end.

(** [respond_to_binding_request], with the server's only socket. *)
Definition respond_to_binding_request (sys : System) (socket : SocketAddr) (request_bytes : bytes) (peer : SocketAddr)
    (origin other : option SocketAddr) : option Served :=
  r ← decode_binding_request request_bytes;
  Some (match r with
        | Err _ => ignored
        | Ok request =>
            answer sys socket peer
              (let? origin := optional_local_addr sys origin peer in
               let? other := optional_local_addr sys other peer in
               encode_binding_success_response_with_attrs (transaction_id request) peer origin other)
        end).

(** [Rfc5780StunServer::respond_to_request]: a request to change the address or the port is
    answered from the other socket. *)
Definition respond_to_request (sys : System) (received_on other_socket : SocketAddr) (request_bytes : bytes)
    (peer : SocketAddr) : option Served :=
  r ← decode_binding_request request_bytes;
  Some (match r with
        | Err _ => ignored
        | Ok request =>
            let response_socket :=
              if change_ip (options request) || change_port (options request) then other_socket else received_on in
            answer sys response_socket peer
              (let? response_origin := concrete_local_addr sys response_socket peer in
               let? other_address := concrete_local_addr sys other_socket peer in
               encode_binding_success_response_with_attrs (transaction_id request) peer (Some response_origin)
                 (Some other_address))
        end).

(** ** The client *)

Record NatProbeObservation : Type := {
  local_addr : SocketAddr;
  stun_server : SocketAddr;
  reflexive_addr : SocketAddr;
  observed_at : Z
}.

(** One exchange on a socket: the transaction drawn, whether the request could be sent, what
    arrives on the socket before the deadline (behind what is queued already) and the clock. *)
Record Exchange : Type := {
  drawn : bytes;
  request_sent : bool;
  arrivals : list bytes;
  clock : Z
}.

(** [observe_binding_details_with_socket]: the first datagram of the queue is the answer,
    whoever sent it; it is cut to the buffer of 1500 bytes. *)
Definition observe_details (x : Exchange) (server : SocketAddr) (o : BindingRequestOptions) (queue : list bytes)
  : option (list bytes * result BindingResponse StunError) :=
  match encode_binding_request (drawn x) o with
  | Err e => Some (queue, Err e)
  | Ok request =>
      if negb (request_sent x) then Some (queue, Err Socket)
      else match queue ++ arrivals x with
           | [] => Some ([], Err (Timeout server))
           | datagram :: queue =>
               r ← decode_binding_success_response_details (take 1500 datagram) (drawn x);
               Some (queue, r)
           end
  end.

Definition observation_from_response (sys : System) (bound server : SocketAddr) (r : BindingResponse) (now : Z)
  : result NatProbeObservation StunError :=
  let? local := concrete_local_addr sys bound server in
  Ok {| local_addr := local; stun_server := server; reflexive_addr := mapped_addr r; observed_at := now |}.

Definition observe_binding_with_socket (sys : System) (bound : SocketAddr) (x : Exchange) (server : SocketAddr)
    (queue : list bytes) : option (list bytes * result NatProbeObservation StunError) :=
  '(q, r) ← observe_details x server same_address queue;
  Some (q, let? response := r in observation_from_response sys bound server response (clock x)).

Definition validate_stun_server (server : SocketAddr) : result unit StunError :=
  if negb (Endpoints.endpoint_addr_is_usable server) then Err (InvalidResponse (ServerUnusable server)) else Ok tt.

Fixpoint validate_stun_servers (servers : list SocketAddr) : result unit StunError :=
  match servers with
  | [] => Ok tt
  | server :: servers => let? _ := validate_stun_server server in validate_stun_servers servers
  end.

Definition observe_binding (sys : System) (bound : SocketAddr) (x : Exchange) (server : SocketAddr)
  : option (result NatProbeObservation StunError) :=
  match validate_stun_server server with
  | Err e => Some (Err e)
  | Ok _ => '(_, r) ← observe_binding_with_socket sys bound x server []; Some r
  end.

(** What [observe_binding_many] has collected. *)
Record Progress : Type := {
  queue : list bytes;
  observations : list NatProbeObservation;
  alternates : list SocketAddr;
  first_error : option StunError
}.

Definition note_error (e : StunError) (q : list bytes) (p : Progress) : Progress :=
  {| queue := q; observations := observations p; alternates := alternates p;
     first_error := Some (default e (first_error p)) |}.

Definition note_alternate (all : list SocketAddr) (server : SocketAddr) (other : option SocketAddr) (alternates : list SocketAddr)
  : list SocketAddr :=
  match other with
  | Some a =>
      if Endpoints.endpoint_addr_is_usable a && negb (bool_decide (a = server)) && negb (bool_decide (a ∈ all))
         && negb (bool_decide (a ∈ alternates))
      then alternates ++ [a] else alternates
  | None => alternates
  end.

(** The loop over the configured servers; the [k]-th exchange of the socket comes next. *)
Fixpoint observe_servers (sys : System) (bound : SocketAddr) (x : nat -> Exchange) (all servers : list SocketAddr)
    (k : nat) (p : Progress) : option (result (nat * Progress) StunError) :=
  match servers with
  | [] => Some (Ok (k, p))
  | server :: servers =>
      '(q, r) ← observe_details (x k) server same_address (queue p);
      match r with
      | Ok response =>
          match observation_from_response sys bound server response (clock (x k)) with
          | Err e => Some (Err e)
          | Ok observation =>
              observe_servers sys bound x all servers (S k)
                {| queue := q; observations := observations p ++ [observation];
                   alternates := note_alternate all server (other_address response) (alternates p);
                   first_error := first_error p |}
          end
      | Err e => observe_servers sys bound x all servers (S k) (note_error e q p)
      end
  end.

(** The loop over the alternate servers, left as soon as there are two observations. *)
Fixpoint observe_alternates (sys : System) (bound : SocketAddr) (x : nat -> Exchange) (servers : list SocketAddr)
    (k : nat) (p : Progress) : option Progress :=
  match servers with
  | [] => Some p
  | server :: servers =>
      '(q, r) ← observe_binding_with_socket sys bound (x k) server (queue p);
      let p := match r with
               | Ok observation => {| queue := q; observations := observations p ++ [observation];
                                      alternates := alternates p; first_error := first_error p |}
               | Err e => note_error e q p
               end in
      if 2 <=? lenZ (observations p) then Some p else observe_alternates sys bound x servers (S k) p
  end.

Definition observe_binding_many (sys : System) (bound : SocketAddr) (x : nat -> Exchange) (servers : list SocketAddr)
  : option (result (list NatProbeObservation) StunError) :=
  match validate_stun_servers servers with
  | Err e => Some (Err e)
  | Ok _ =>
      r ← observe_servers sys bound x servers servers O {| queue := []; observations := []; alternates := []; first_error := None |};
      match r with
      | Err e => Some (Err e)
      | Ok (k, p) =>
          p ← (if lenZ (observations p) <? 2 then observe_alternates sys bound x (alternates p) k p else Some p);
          Some (if bool_decide (lenZ (observations p) = 0) then Err (default (InvalidResponse NoObservation) (first_error p))
                else Ok (observations p))
      end
  end.

Inductive NatFilteringProbeKind : Type := SameAddress | ChangePort | ChangeAddressAndPort.

#[global] Instance NatFilteringProbeKind_eq_dec : EqDecision NatFilteringProbeKind.
Proof. solve_decision. Defined.

Record NatFilteringObservation : Type := {
  filter_local_addr : SocketAddr;
  filter_server : SocketAddr;
  probe : NatFilteringProbeKind;
  filter_origin : option SocketAddr;
  filter_other : option SocketAddr;
  filter_observed_at : Z
}.

(** An exchange under the shorter timeout of the filtering probes: nothing within it is
    [None], and the inner timeout never fires first. *)
Definition filtering_details (x : Exchange) (server : SocketAddr) (o : BindingRequestOptions) (queue : list bytes)
  : option (list bytes * option (result BindingResponse StunError)) :=
  '(q, r) ← observe_details x server o queue;
  Some (q, match r with Err (Timeout _) => None | r => Some r end).

Definition observe_filtering_probe (sys : System) (bound : SocketAddr) (x : Exchange) (server : SocketAddr)
    (kind : NatFilteringProbeKind) (o : BindingRequestOptions) (other : option SocketAddr) (queue : list bytes)
  : option (list bytes * result NatFilteringObservation StunError) :=
  '(q, r) ← filtering_details x server o queue;
  Some (q,
    let? response := match r with Some (Ok response) => Ok (Some response) | Some (Err e) => Err e | None => Ok None end in
    let? local := concrete_local_addr sys bound server in
    Ok {| filter_local_addr := local; filter_server := server; probe := kind;
          filter_origin := response ≫= response_origin;
          filter_other := match response ≫= other_address with Some a => Some a | None => other end;
          filter_observed_at := clock x |}).

Definition observe_filtering (sys : System) (bound : SocketAddr) (x : nat -> Exchange) (server : SocketAddr)
  : option (result (list NatFilteringObservation) StunError) :=
  match validate_stun_server server with
  | Err e => Some (Err e)
  | Ok _ =>
      '(q, baseline) ← filtering_details (x O) server same_address [];
      match baseline with
      | Some (Err e) => Some (Err e)
      | None => Some (Ok [])
      | Some (Ok baseline) =>
          match other_address baseline, concrete_local_addr sys bound server with
          | None, _ => Some (Ok [])
          | Some _, Err e => Some (Err e)
          | Some other, Ok local =>
              let first := {| filter_local_addr := local; filter_server := server; probe := SameAddress;
                              filter_origin := Some (default server (response_origin baseline));
                              filter_other := Some other; filter_observed_at := clock (x O) |} in
              '(q, changed) ← observe_filtering_probe sys bound (x 1%nat) server ChangeAddressAndPort
                                change_address_and_port (Some other) q;
              match changed with
              | Err e => Some (Err e)
              | Ok changed =>
                  if bool_decide (filter_origin changed = None) then
                    '(q, port) ← observe_filtering_probe sys bound (x 2%nat) server ChangePort only_change_port (Some other) q;
                    Some (let? port := port in Ok [first; changed; port])
                  else Some (Ok [first; changed])
              end
          end
      end
  end.

(** [BindingStunServer::serve_inner] on the datagrams it receives: it goes on after a datagram
    it ignores and ends with the first error. *)
Fixpoint serve (sys : System) (socket : SocketAddr) (received : list (bytes * SocketAddr)) : option (list Served) :=
  match received with
  | [] => Some []
  | (datagram, peer) :: received =>
      s ← respond_to_binding_request sys socket (take 1500 datagram) peer (Some socket) None;
      match outcome s with
      | Err _ => Some [s]
      | Ok _ => rest ← serve sys socket received; Some (s :: rest)
      end
  end.

(** [Rfc5780StunServer::serve_inner], on the datagrams of its two sockets in the order it takes
    them: [true] marks those of the primary one. *)
Fixpoint serve_both (sys : System) (primary alternate : SocketAddr) (received : list (bool * bytes * SocketAddr))
  : option (list Served) :=
  match received with
  | [] => Some []
  | (on_primary, datagram, peer) :: received =>
      s ← (if (on_primary : bool) then respond_to_request sys primary alternate (take 1500 datagram) peer
           else respond_to_request sys alternate primary (take 1500 datagram) peer);
      match outcome s with
      | Err _ => Some [s]
      | Ok _ => rest ← serve_both sys primary alternate received; Some (s :: rest)
      end
  end.

(** ** Reading what was written *)

Lemma slice_front (a r : bytes) n : lenZ a = n -> slice (a ++ r) 0 n = a.
Proof. intros <-. unfold slice. by rewrite (slice_get_mid [] a r). Qed.

Lemma slice_after (p a r : bytes) i n : lenZ p = i -> i + lenZ a = n -> slice (p ++ a ++ r) i n = a.
Proof. intros <- <-. unfold slice. by rewrite (slice_get_mid p a r). Qed.

Lemma slice_last (p a : bytes) i n : lenZ p = i -> i + lenZ a = n -> slice (p ++ a) i n = a.
Proof. intros Hp Ha. pose proof (slice_after p a [] i n Hp Ha) as H. by rewrite app_nil_r in H. Qed.

Lemma padding_bound n : 0 <= padding_len n < 4.
Proof. unfold padding_len. dlia. Qed.

(** The loop never lacks fuel: every turn consumes four bytes. *)
Lemma attributes_loop_total {A} (f : A -> Z -> bytes -> result A StunError) fuel rest acc :
  (length rest < fuel)%nat -> exists r, attributes_loop f fuel rest acc = Some r.
Proof.
  revert rest acc. induction fuel as [|fuel IH]; intros rest acc Hf; [lia|]. cbn [attributes_loop].
  destruct (_ <? 4) eqn:E4; [eauto|]. destruct (_ <? be_value _); [eauto|].
  destruct (f _ _ _) as [acc'|]; [|eauto]. apply IH. rewrite !length_drop. lia.
Qed.

Lemma attributes_loop_cons {A} (f : A -> Z -> bytes -> result A StunError) fuel ty value bs rest acc :
  is_u16 ty -> write_attribute ty value = Ok bs ->
  attributes_loop f (S fuel) (bs ++ rest) acc =
  match f acc ty value with Err e => Some (Err e) | Ok acc => attributes_loop f fuel rest acc end.
Proof.
  intros Ht [Hl <-%Ok_inj]%guard_ok. bool_to_prop. cbn [attributes_loop].
  rewrite <- !app_assoc. set (tail := replicate _ _ ++ rest).
  assert (H4 : lenZ (be_bytes 2 ty ++ be_bytes 2 (lenZ value) ++ value ++ tail) = 4 + lenZ (value ++ tail)).
  { rewrite !length_app, !length_be_bytes. lia. }
  rewrite H4. destruct (_ <? 4) eqn:E; [lia|]. clear E.
  rewrite (slice_front (be_bytes 2 ty)), (slice_after (be_bytes 2 ty) (be_bytes 2 (lenZ value))) by by rewrite !length_be_bytes.
  unfold in_width in Ht. rewrite !be_value_be_bytes by lia.
  assert (Hd : drop 4 (be_bytes 2 ty ++ be_bytes 2 (lenZ value) ++ value ++ tail) = value ++ tail).
  { rewrite app_assoc. apply drop_app_length'. by rewrite length_app, !length_be_bytes. }
  rewrite Hd, length_app. destruct (_ <? lenZ value) eqn:E; [lia|]. rewrite Nat2Z.id, take_app_length.
  destruct (f acc ty value); [|done]. f_equal. unfold tail.
  pose proof (padding_bound (lenZ value)). rewrite app_assoc. apply drop_app_length'.
  rewrite length_app, length_replicate. lia.
Qed.

Lemma read_written ty tid attributes :
  0 <= ty < 0x4000 -> length tid = 12%nat -> lenZ attributes < 65536 -> lenZ attributes mod 4 = 0 ->
  read_header (write_header ty (as_width 16 (lenZ attributes)) tid ++ attributes) = Ok (ty, lenZ attributes, tid) /\
  attributes_of (write_header ty (as_width 16 (lenZ attributes)) tid ++ attributes) (lenZ attributes) = attributes.
Proof.
  intros Hty Htid Hl Hm. rewrite as_width_id by (unfold in_width; lia). unfold write_header.
  set (n := lenZ attributes) in *. set (m := (_ ++ attributes)).
  assert (Em : m = be_bytes 2 ty ++ be_bytes 2 n ++ be_bytes 4 MAGIC_COOKIE ++ tid ++ attributes).
  { unfold m. by rewrite <- !app_assoc. }
  assert (Lm : lenZ m = 20 + n). { rewrite Em, !length_app, !length_be_bytes. unfold n. lia. }
  assert (S1 : slice m 0 2 = be_bytes 2 ty) by (rewrite Em; by apply slice_front; rewrite length_be_bytes).
  assert (S2 : slice m 2 4 = be_bytes 2 n) by (rewrite Em; by apply slice_after; rewrite !length_be_bytes).
  assert (S3 : slice m 4 8 = be_bytes 4 MAGIC_COOKIE).
  { rewrite Em, app_assoc. by apply slice_after; rewrite ?length_app, !length_be_bytes. }
  assert (S4 : slice m 8 20 = tid).
  { rewrite Em, !app_assoc, <- (app_assoc _ tid). apply slice_after; rewrite ?length_app, ?length_be_bytes; lia. }
  split.
  - unfold read_header. rewrite S1, S2, S3, S4, Lm, !be_value_be_bytes by (unfold MAGIC_COOKIE; lia). cbv zeta.
    unfold STUN_HEADER_LEN. skip_guards.
    assert (Hb : Z.land ty 0xC000 = 0).
    { change 0xC000 with (Z.shiftl (Z.ones 2) 14). rewrite land_shifted_ones by lia.
      rewrite (Z.div_small ty) by lia. done. }
    rewrite ?Hb. by skip_guards.
  - unfold attributes_of, STUN_HEADER_LEN. rewrite Em, !app_assoc.
    apply slice_last; rewrite ?length_app, ?length_be_bytes; unfold n in *; lia.
Qed.

(** ** Exclusive or *)

Lemma lxor_width w a b : 0 <= w -> in_width w a -> in_width w b -> in_width w (Z.lxor a b).
Proof.
  unfold in_width. intros Hw Ha Hb. assert (H : Z.lxor a b = Z.lxor a b mod 2 ^ w).
  { apply Z.bits_inj'. intros i Hi. destruct (decide (i < w)).
    - by rewrite Z.mod_pow2_bits_low.
    - rewrite Z.mod_pow2_bits_high, Z.lxor_spec by lia.
      rewrite <- (Z.mod_small a (2 ^ w)), <- (Z.mod_small b (2 ^ w)) by done.
      by rewrite !Z.mod_pow2_bits_high by lia. }
  rewrite H. apply Z.mod_pos_bound. lia.
Qed.

Lemma lxor_twice a k : Z.lxor (Z.lxor a k) k = a.
Proof. by rewrite Z.lxor_assoc, Z.lxor_nilpotent, Z.lxor_0_r. Qed.

Lemma xor_byte_twice a k : xor_byte (xor_byte a k) k = a.
Proof.
  unfold xor_byte. rewrite byteZ_Zbyte; [by rewrite lxor_twice, Zbyte_byteZ|].
  apply (lxor_width 8); [lia|apply byteZ_bound..].
Qed.

Lemma zip_xor_twice l k : length l = length k -> zip_with xor_byte (zip_with xor_byte l k) k = l.
Proof.
  revert k. induction l as [|a l IH]; intros [|b k] H; try done. simpl in *. rewrite xor_byte_twice, IH; [done|lia].
Qed.

Lemma xor_port_width p : is_u16 p -> is_u16 (xor_port p).
Proof. intros H. apply lxor_width; [lia|done|]. by vm_compute. Qed.

(** ** Round trips *)

(** A socket address without flow information and scope. *)
Definition plain (a : SocketAddr) : SocketAddr := socket_new (socket_ip a) (socket_port a).

Lemma decode_address_v4 xor port v4 v6 p a : is_u16 p -> is_u32 a ->
  decode_address xor port v4 v6 ([x00; x01] ++ be_bytes 2 p ++ be_bytes 4 a) = Ok (socket_new (IpV4 (v4 a)) (port p)).
Proof.
  unfold in_width. intros Hp Ha. unfold decode_address. set (value := _ ++ _).
  assert (L : lenZ value = 8). { unfold value. by rewrite !length_app, !length_be_bytes. }
  assert (S0 : slice value 0 1 = [x00]) by (by apply (slice_front [x00] ([x01] ++ _))).
  assert (S1 : slice value 1 2 = [x01]) by (by apply (slice_after [x00] [x01])).
  assert (S2 : slice value 2 4 = be_bytes 2 p) by (apply (slice_after [x00; x01]); by rewrite ?length_be_bytes).
  assert (S4 : slice value 4 8 = be_bytes 4 a).
  { unfold value. rewrite app_assoc. apply slice_last; by rewrite ?length_app, ?length_be_bytes. }
  rewrite L, S0, S1, S2, S4, !be_value_be_bytes by lia. done.
Qed.

Lemma decode_address_v6 xor port v4 v6 p l : is_u16 p -> length l = 16%nat ->
  decode_address xor port v4 v6 ([x00; x02] ++ be_bytes 2 p ++ l) = Ok (socket_new (IpV6 (be_value (v6 l))) (port p)).
Proof.
  unfold in_width. intros Hp Hl. unfold decode_address. set (value := _ ++ _).
  assert (L : lenZ value = 20). { unfold value. by rewrite !length_app, !length_be_bytes, Hl. }
  assert (S0 : slice value 0 1 = [x00]) by (by apply (slice_front [x00] ([x02] ++ _))).
  assert (S1 : slice value 1 2 = [x02]) by (by apply (slice_after [x00] [x02])).
  assert (S2 : slice value 2 4 = be_bytes 2 p) by (apply (slice_after [x00; x02]); by rewrite ?length_be_bytes).
  assert (S4 : slice value 4 20 = l).
  { unfold value. rewrite app_assoc. apply slice_last; by rewrite ?length_app, ?length_be_bytes, ?Hl. }
  rewrite L, S0, S1, S2, S4, !be_value_be_bytes by lia. done.
Qed.

(** An attribute whose value the reader [f] reads as [x]. *)
Definition readable_attribute {A} (ty : Z) (f : bytes -> result A StunError) (x : A) (w : result bytes StunError) : Prop :=
  exists bs value, w = Ok bs /\ write_attribute ty value = Ok bs /\ f value = Ok x /\
    lenZ bs mod 4 = 0 /\ lenZ bs <= 24.

Lemma attribute_readable {A} ty (f : bytes -> result A StunError) x value :
  f value = Ok x -> lenZ value mod 4 = 0 -> lenZ value <= 20 -> readable_attribute ty f x (write_attribute ty value).
Proof.
  intros Hf Hm Hl. unfold write_attribute. destruct (_ <? _) eqn:E; [lia|]. eexists _, value. unfold write_attribute.
  rewrite E. split_and!; try done; rewrite !length_app, length_replicate, !length_be_bytes; unfold padding_len;
    rewrite Hm; change (Z.to_nat ((4 - 0) mod 4)) with O; dlia.
Qed.

Lemma address_readable ty a : SocketAddr_wf a ->
  readable_attribute ty decode_address_attribute (plain a) (write_address_attribute ty a).
Proof.
  intros Ha. unfold write_address_attribute. apply attribute_readable.
  - destruct a as [ip p|ip p fl sc]; cbn [socket_ip socket_port]; unfold decode_address_attribute.
    + destruct Ha. by rewrite decode_address_v4.
    + destruct Ha as (? & ? & _). rewrite decode_address_v6 by (done || apply length_be_bytes).
      by rewrite be_value_be_bytes.
  - destruct a; cbn [socket_ip]; by rewrite !length_app, !length_be_bytes.
  - destruct a; cbn [socket_ip]; by rewrite !length_app, !length_be_bytes.
Qed.

Lemma xor_address_readable tid a : length tid = 12%nat -> SocketAddr_wf a ->
  readable_attribute XOR_MAPPED_ADDRESS (fun v => decode_xor_mapped_address v tid) (plain a) (write_xor_mapped_address tid a).
Proof.
  intros Ht Ha. unfold write_xor_mapped_address.
  assert (Hk : length (ipv6_xor_mask tid) = 16%nat) by (unfold ipv6_xor_mask; by rewrite length_app, length_be_bytes, Ht).
  assert (Hz : forall ip, length (zip_with xor_byte (be_bytes 16 ip) (ipv6_xor_mask tid)) = 16%nat).
  { intros ip. by rewrite length_zip_with_l_eq; rewrite length_be_bytes, ?Hk. }
  apply attribute_readable.
  - destruct a as [ip p|ip p fl sc]; cbn [socket_ip socket_port]; unfold decode_xor_mapped_address.
    + destruct Ha as [Hi Hp]. rewrite decode_address_v4 by (by apply xor_port_width || (apply lxor_width; [lia|done|by vm_compute])).
      unfold xor_port. by rewrite !lxor_twice.
    + destruct Ha as (Hi & Hp & _). rewrite decode_address_v6 by (by apply xor_port_width || apply Hz).
      rewrite zip_xor_twice by by rewrite length_be_bytes. unfold xor_port. by rewrite lxor_twice, be_value_be_bytes.
  - destruct a; cbn [socket_ip]; by rewrite !length_app, !length_be_bytes, ?Hz.
  - destruct a; cbn [socket_ip]; by rewrite !length_app, !length_be_bytes, ?Hz.
Qed.

Lemma change_request_readable o : readable_attribute CHANGE_REQUEST decode_change_request o (write_change_request o).
Proof. apply attribute_readable; destruct o as [[] []]; by vm_compute. Qed.

Lemma loop_readable {A B} (g : A -> Z -> bytes -> result A StunError) ty (f : bytes -> result B StunError) (x : B) (k : A -> B -> A)
    fuel bs rest acc value :
  is_u16 ty -> write_attribute ty value = Ok bs -> f value = Ok x ->
  (forall v, g acc ty v = match f v with Ok y => Ok (k acc y) | Err e => Err e end) ->
  attributes_loop g (S fuel) (bs ++ rest) acc = attributes_loop g fuel rest (k acc x).
Proof. intros Ht Hw Hf Hg. rewrite (attributes_loop_cons _ _ _ _ _ _ _ Ht Hw), Hg, Hf. done. Qed.

Lemma attributes_loop_nil {A} (g : A -> Z -> bytes -> result A StunError) fuel acc :
  attributes_loop g (S fuel) [] acc = Some (Ok acc).
Proof. done. Qed.

Lemma decode_encoded_request tid o : length tid = 12%nat ->
  exists bs, encode_binding_request tid o = Ok bs /\ lenZ bs <= 1500 /\
    decode_binding_request bs = Some (Ok {| transaction_id := tid; options := o |}).
Proof.
  intros Ht. unfold encode_binding_request. destruct (change_ip o || change_port o) eqn:Ec.
  - destruct (change_request_readable o) as (bs & value & -> & Hw & Hf & Hm & Hl). eexists. split; [reflexivity|].
    destruct (read_written BINDING_REQUEST tid bs) as [Hr Ha]; [by vm_compute|done|lia|done|].
    split; [rewrite length_app; unfold write_header; rewrite !length_app, !length_be_bytes; lia|].
    assert (L : forall fuel, attributes_loop request_attribute (S fuel) bs same_address =
      attributes_loop request_attribute fuel [] o).
    { intros fuel. rewrite <- (app_nil_r bs).
      apply (loop_readable _ CHANGE_REQUEST decode_change_request o (fun _ y => y) _ bs [] _ value); [by vm_compute|done|done|].
      intros v. unfold request_attribute. by destruct (decode_change_request v). }
    unfold decode_binding_request. rewrite Hr, Ha. change (BINDING_REQUEST =? BINDING_REQUEST) with true. cbn [negb].
    rewrite L, length_app. unfold write_header. by rewrite !length_app, !length_be_bytes, Ht.
  - eexists. split; [reflexivity|]. destruct (read_written BINDING_REQUEST tid []) as [Hr Ha]; [by vm_compute|done|done|done|].
    split; [rewrite length_app; unfold write_header; rewrite !length_app, !length_be_bytes; simpl; lia|].
    unfold decode_binding_request. rewrite Hr, Ha. simpl. destruct o as [[] []]; done.
Qed.

Lemma decode_encoded_response tid mapped origin other : length tid = 12%nat ->
  SocketAddr_wf mapped -> SocketAddr_wf origin -> SocketAddr_wf other ->
  exists bs, encode_binding_success_response_with_attrs tid mapped (Some origin) (Some other) = Ok bs /\ lenZ bs <= 1500 /\
    forall expected, decode_binding_success_response_details bs expected =
      Some (if bool_decide (tid <> expected) then Err (InvalidResponse TransactionMismatch)
            else Ok {| mapped_addr := plain mapped; response_origin := Some (plain origin);
                       other_address := Some (plain other) |}).
Proof.
  intros Ht Hm Ho Hx. unfold encode_binding_success_response_with_attrs.
  destruct (xor_address_readable tid mapped Ht Hm) as (b1 & v1 & -> & W1 & F1 & M1 & L1).
  destruct (address_readable RESPONSE_ORIGIN origin Ho) as (b2 & v2 & -> & W2 & F2 & M2 & L2).
  destruct (address_readable OTHER_ADDRESS other Hx) as (b3 & v3 & -> & W3 & F3 & M3 & L3).
  eexists. split; [reflexivity|]. set (attrs := b1 ++ b2 ++ b3).
  assert (La : lenZ attrs = lenZ b1 + lenZ b2 + lenZ b3) by (unfold attrs; rewrite !length_app; lia).
  destruct (read_written BINDING_SUCCESS_RESPONSE tid attrs) as [Hr Ha]; [by vm_compute|done|lia|rewrite La; dlia|].
  split; [rewrite length_app; unfold write_header; rewrite !length_app, !length_be_bytes; lia|].
  intros expected. unfold decode_binding_success_response_details. rewrite Hr, Ha. cbn [negb Z.eqb].
  change (BINDING_SUCCESS_RESPONSE =? BINDING_SUCCESS_RESPONSE) with true. cbn [negb].
  destruct (bool_decide (tid <> expected)); [done|].
  assert (L : forall fuel, attributes_loop (response_attribute tid) (S (S (S fuel))) attrs (None, None, None) =
    attributes_loop (response_attribute tid) fuel [] (Some (plain mapped), Some (plain origin), Some (plain other))).
  { intros fuel. unfold attrs. rewrite <- (app_nil_r b3).
    etrans; [eapply (loop_readable _ XOR_MAPPED_ADDRESS _ (plain mapped) (fun '(_, o, x) y => (Some y, o, x)));
      [by vm_compute|exact W1|exact F1|done]|].
    etrans; [eapply (loop_readable _ RESPONSE_ORIGIN _ (plain origin) (fun '(m, _, x) y => (m, Some y, x)));
      [by vm_compute|exact W2|exact F2|done]|].
    etrans; [eapply (loop_readable _ OTHER_ADDRESS _ (plain other) (fun '(m, o, _) y => (m, o, Some y)));
      [by vm_compute|exact W3|exact F3|done]|reflexivity]. }
  rewrite length_app. unfold write_header. rewrite !length_app, !length_be_bytes, Ht. cbn [Nat.add]. by rewrite L.
Qed.

(** ** Totality *)

Lemma slice_length (l : bytes) a b : (length (slice l a b) <= length l)%nat.
Proof.
  unfold slice, slice_get. destruct (_ && _ && _)%bool; simpl; [|lia]. rewrite length_take, length_drop. lia.
Qed.

Lemma decode_request_total message : exists r, decode_binding_request message = Some r.
Proof.
  unfold decode_binding_request. destruct (read_header message) as [[[ty len] tid]|e]; [|eauto].
  destruct (negb _); [eauto|]. pose proof (slice_length message STUN_HEADER_LEN (STUN_HEADER_LEN + len)).
  destruct (attributes_loop_total request_attribute (S (length message)) (attributes_of message len) same_address) as [r ->];
    [unfold attributes_of; lia|]. simpl. eauto.
Qed.

Lemma decode_response_total message expected : exists r, decode_binding_success_response_details message expected = Some r.
Proof.
  unfold decode_binding_success_response_details. destruct (read_header message) as [[[ty len] tid]|e]; [|eauto].
  destruct (negb _); [eauto|]. destruct (bool_decide _); [eauto|].
  pose proof (slice_length message STUN_HEADER_LEN (STUN_HEADER_LEN + len)).
  destruct (attributes_loop_total (response_attribute tid) (S (length message)) (attributes_of message len)
              (None, None, None)) as [r ->]; [unfold attributes_of; lia|]. simpl. eauto.
Qed.

Lemma observe_details_total x server o q : exists r, observe_details x server o q = Some r.
Proof.
  unfold observe_details. destruct (encode_binding_request _ _); [|eauto]. destruct (negb _); [eauto|].
  destruct (q ++ arrivals x) as [|dg q']; [eauto|].
  destruct (decode_response_total (take 1500 dg) (drawn x)) as [r ->]. simpl. eauto.
Qed.

Lemma observe_servers_total sys bound x all servers k p : exists r, observe_servers sys bound x all servers k p = Some r.
Proof.
  revert k p. induction servers as [|server servers IH]; intros k p; cbn [observe_servers]; [eauto|].
  destruct (observe_details_total (x k) server same_address (queue p)) as [[q [r|e]] ->]; simpl; [|eauto].
  destruct (observation_from_response _ _ _ _ _); eauto.
Qed.

Lemma observe_alternates_total sys bound x servers k p : exists r, observe_alternates sys bound x servers k p = Some r.
Proof.
  revert k p. induction servers as [|server servers IH]; intros k p; cbn [observe_alternates]; [eauto|].
  unfold observe_binding_with_socket.
  destruct (observe_details_total (x k) server same_address (queue p)) as [[q r] ->]. simpl. case_match; eauto.
Qed.

Lemma observe_many_total sys bound x servers : exists r, observe_binding_many sys bound x servers = Some r.
Proof.
  unfold observe_binding_many. destruct (validate_stun_servers servers); [|eauto].
  destruct (observe_servers_total sys bound x servers servers O
    {| queue := []; observations := []; alternates := []; first_error := None |}) as [[[k p]|e] ->]; simpl; [|eauto].
  destruct (_ <? 2); simpl; [|eauto]. destruct (observe_alternates_total sys bound x (alternates p) k p) as [p' ->]. simpl. eauto.
Qed.

Lemma observe_filtering_total sys bound x server : exists r, observe_filtering sys bound x server = Some r.
Proof.
  assert (D : forall y o q, exists r, filtering_details y server o q = Some r).
  { intros y o q. unfold filtering_details. destruct (observe_details_total y server o q) as [[q' r] ->]. simpl. eauto. }
  assert (P : forall y kind o other q, exists r, observe_filtering_probe sys bound y server kind o other q = Some r).
  { intros y kind o other q. unfold observe_filtering_probe. destruct (D y o q) as [[q' r] ->]. simpl. eauto. }
  unfold observe_filtering. destruct (validate_stun_server server); [|eauto].
  destruct (D (x O) same_address []) as [[q [[b|e]|]] ->]; simpl; [|eauto..].
  destruct (other_address b) as [other|]; [|eauto]. destruct (concrete_local_addr sys bound server); [|eauto].
  destruct (P (x 1%nat) ChangeAddressAndPort change_address_and_port (Some other) q) as [[q' [ch|e]] ->]; simpl; [|eauto].
  case_bool_decide; [|eauto].
  destruct (P (x 2%nat) ChangePort only_change_port (Some other) q') as [[q'' r] ->]. simpl. eauto.
Qed.

Lemma serve_total sys socket received : exists r, serve sys socket received = Some r.
Proof.
  induction received as [|[dg peer] received [r IH]]; cbn [serve]; [eauto|]. unfold respond_to_binding_request.
  destruct (decode_request_total (take 1500 dg)) as [q ->]. simpl. case_match; [|eauto]. rewrite IH. simpl. eauto.
Qed.

Lemma serve_both_total sys primary alternate received : exists r, serve_both sys primary alternate received = Some r.
Proof.
  induction received as [|[[on dg] peer] received [r IH]]; cbn [serve_both]; [eauto|]. unfold respond_to_request.
  destruct (decode_request_total (take 1500 dg)) as [q ->].
  destruct on; simpl; (case_match; [|eauto]); rewrite IH; simpl; eauto.
Qed.

(** Whatever arrives, from whomever, the STUN client and server end with an answer: they
    neither loop nor read outside a datagram. *)
Theorem stun_total sys bound other x servers server received received_both :
  (exists r, observe_binding_many sys bound x servers = Some r) /\
  (exists r, observe_filtering sys bound x server = Some r) /\
  (exists r, serve sys bound received = Some r) /\
  (exists r, serve_both sys bound other received_both = Some r).
Proof. split_and!; [apply observe_many_total|apply observe_filtering_total|apply serve_total|apply serve_both_total]. Qed.

(** ** Exchanges *)

Lemma observe_answer x server o response rest queue r :
  length (drawn x) = 12%nat -> request_sent x = true -> queue ++ arrivals x = response :: rest -> lenZ response <= 1500 ->
  decode_binding_success_response_details response (drawn x) = Some r -> observe_details x server o queue = Some (rest, r).
Proof.
  intros Ht Hs Hq Hl Hr. unfold observe_details. destruct (decode_encoded_request (drawn x) o Ht) as (bs & -> & _).
  rewrite Hs, Hq. cbn [negb]. rewrite take_ge by lia. by rewrite Hr.
Qed.

(** The answer to a request, and what any client reads in it. *)
Lemma binding_answered sys tid o received_on other_socket peer origin other :
  let response_socket := if change_ip o || change_port o then other_socket else received_on in
  length tid = 12%nat -> SocketAddr_wf peer -> SocketAddr_wf origin -> SocketAddr_wf other ->
  concrete_local_addr sys response_socket peer = Ok origin -> concrete_local_addr sys other_socket peer = Ok other ->
  (forall bs, send_ok sys response_socket peer bs = true) ->
  exists request response,
    encode_binding_request tid o = Ok request /\
    respond_to_request sys received_on other_socket request peer =
      Some {| counted := [binding_request_count; binding_response_count]; sent := Some (response_socket, peer, response);
              outcome := Ok tt |} /\
    lenZ response <= 1500 /\
    forall expected, decode_binding_success_response_details response expected =
      Some (if bool_decide (tid <> expected) then Err (InvalidResponse TransactionMismatch)
            else Ok {| mapped_addr := plain peer; response_origin := Some (plain origin); other_address := Some (plain other) |}).
Proof.
  cbv zeta. intros Ht Hp Ho Hx Co Cx Hs.
  destruct (decode_encoded_request tid o Ht) as (request & Er & _ & Dr).
  destruct (decode_encoded_response tid peer origin other Ht Hp Ho Hx) as (response & Es & Hl & Ds).
  exists request, response. split_and!; [done| |done|done].
  unfold respond_to_request. rewrite Dr. cbn [mbind option_bind options transaction_id]. rewrite Co, Cx, Es.
  cbn [answer]. by rewrite Hs.
Qed.

(** A STUN exchange tells a client where it is seen. The server understands every request
    the client encodes; a request to change address or port is answered from the other
    socket; and the client reads from the answer the address its request came from, the
    address that answered and the other one. Under any other transaction the answer is
    refused. *)
Theorem binding_exchange sys tid o received_on other_socket peer origin other :
  let response_socket := if change_ip o || change_port o then other_socket else received_on in
  length tid = 12%nat -> SocketAddr_wf peer -> SocketAddr_wf origin -> SocketAddr_wf other ->
  concrete_local_addr sys response_socket peer = Ok origin -> concrete_local_addr sys other_socket peer = Ok other ->
  (forall bs, send_ok sys response_socket peer bs = true) ->
  exists request response,
    encode_binding_request tid o = Ok request /\
    respond_to_request sys received_on other_socket request peer =
      Some {| counted := [binding_request_count; binding_response_count]; sent := Some (response_socket, peer, response);
              outcome := Ok tt |} /\
    (forall x server rest, drawn x = tid -> request_sent x = true -> arrivals x = response :: rest ->
      observe_details x server o [] =
        Some (rest, Ok {| mapped_addr := plain peer; response_origin := Some (plain origin); other_address := Some (plain other) |})) /\
    (forall tid', tid' <> tid -> decode_binding_success_response_details response tid' =
      Some (Err (InvalidResponse TransactionMismatch))).
Proof.
  cbv zeta. intros Ht Hp Ho Hx Co Cx Hs.
  destruct (binding_answered sys tid o received_on other_socket peer origin other) as (request & response & Er & Es & Hl & Ds);
    [done..|]. exists request, response. split_and!; [done|done| |].
  - intros x server rest <- Hq Ha. eapply observe_answer; [done|done|exact Ha|done|]. rewrite Ds.
    by rewrite bool_decide_eq_false_2 by tauto.
  - intros tid' Hne. rewrite Ds. by rewrite bool_decide_eq_true_2 by congruence.
Qed.

(** A host with one route, whose sockets refuse datagrams for port 0. *)
Definition sample_system : System :=
  {| route_ip := fun _ => Some (IpV4 0x0A000001); send_ok := fun _ peer _ => negb (socket_port peer =? 0) |}.

Lemma binding_exchange_witness :
  let tid := replicate 12 x07 in
  let peer := SockV6 0x20010db8000000000000000000000001 54321 7 0 in
  exists request response,
    encode_binding_request tid only_change_port = Ok request /\
    respond_to_request sample_system (SockV4 0 3478) (SockV4 0 3479) request peer =
      Some {| counted := [binding_request_count; binding_response_count]; sent := Some (SockV4 0 3479, peer, response);
              outcome := Ok tt |} /\
    observe_details {| drawn := tid; request_sent := true; arrivals := [response]; clock := 5 |} (SockV4 0x0A000001 3478)
      only_change_port [] =
      Some ([], Ok {| mapped_addr := SockV6 0x20010db8000000000000000000000001 54321 0 0;
                      response_origin := Some (SockV4 0x0A000001 3479); other_address := Some (SockV4 0x0A000001 3479) |}).
Proof.
  intros tid peer.
  destruct (binding_exchange sample_system tid only_change_port (SockV4 0 3478) (SockV4 0 3479) peer
    (SockV4 0x0A000001 3479) (SockV4 0x0A000001 3479)) as (request & response & H1 & H2 & H3 & _);
    try reflexivity; try (subst peer; unfold SocketAddr_wf, is_u128, is_u32, is_u16, in_width; lia).
  exists request, response. split; [exact H1|]. split; [exact H2|]. by rewrite H3 with (rest := []).
Defined.

(** ** Two weaknesses *)

Lemma response_of_transaction message tid r :
  decode_binding_success_response_details message tid = Some (Ok r) ->
  forall tid', tid' <> tid ->
  decode_binding_success_response_details message tid' = Some (Err (InvalidResponse TransactionMismatch)).
Proof.
  unfold decode_binding_success_response_details. destruct (read_header message) as [[[ty len] t]|e]; [|done].
  destruct (negb _); [done|]. case_bool_decide; [done|]. intros _ tid' Hne. by rewrite bool_decide_eq_true_2 by naive_solver.
Qed.

(** An answer that comes after its deadline takes the place of the next server's: the client
    reads one datagram per request, so with two servers of which the first is late and the
    second answers in time it reports a timeout and no observation. *)
Theorem late_answer_starves sys bound x s1 s2 a1 a2 r1 r2 :
  Endpoints.endpoint_addr_is_usable s1 = true -> Endpoints.endpoint_addr_is_usable s2 = true ->
  length (drawn (x O)) = 12%nat -> length (drawn (x 1%nat)) = 12%nat -> drawn (x 1%nat) <> drawn (x O) ->
  request_sent (x O) = true -> request_sent (x 1%nat) = true -> lenZ a1 <= 1500 -> lenZ a2 <= 1500 ->
  decode_binding_success_response_details a1 (drawn (x O)) = Some (Ok r1) ->
  decode_binding_success_response_details a2 (drawn (x 1%nat)) = Some (Ok r2) ->
  arrivals (x O) = [] -> arrivals (x 1%nat) = [a1; a2] ->
  observe_binding_many sys bound x [s1; s2] = Some (Err (Timeout s1)).
Proof.
  intros U1 U2 L1 L2 Hne S1 S2 La1 La2 D1 D2 A1 A2. unfold observe_binding_many.
  cbn [validate_stun_servers]. unfold validate_stun_server. rewrite U1, U2. cbn [negb observe_servers].
  assert (observe_details (x O) s1 same_address [] = Some ([], Err (Timeout s1))) as E1.
  { unfold observe_details. destruct (decode_encoded_request _ same_address L1) as (bs & -> & _). by rewrite S1, A1. }
  assert (observe_details (x 1%nat) s2 same_address [] = Some ([a2], Err (InvalidResponse TransactionMismatch))) as E2.
  { eapply observe_answer; [done|done|exact A2|done|]. by eapply response_of_transaction. }
  cbn [queue]. rewrite E1. cbn [mbind option_bind note_error queue]. by rewrite E2.
Qed.

(** One datagram ends the server: when the answer to a request is refused by the socket (a
    request whose source port is 0 has such an answer), nothing after it is served. *)
Theorem refused_answer_ends_server sys socket datagram peer request :
  decode_binding_request (take 1500 datagram) = Some (Ok request) -> (forall bs, send_ok sys socket peer bs = false) ->
  exists s e, outcome s = Err e /\ forall later, serve sys socket ((datagram, peer) :: later) = Some [s].
Proof.
  intros Hd Hs. cbn [serve]. unfold respond_to_binding_request. rewrite Hd. cbn [mbind option_bind].
  match goal with |- context [answer sys socket peer ?r] => destruct r as [bs|e] end; cbn [answer failed outcome].
  - rewrite Hs. cbn [outcome]. eexists _, _. split; [|intros later; reflexivity]. reflexivity.
  - eexists _, _. split; [|intros later; reflexivity]. reflexivity.
Qed.

End Stun.
