(* ===== verification/NatClass.v ===== *)
(** * NAT classification (crates/ipars-types/src/lib.rs)

    What a node concludes from its STUN observations: how its NAT maps and filters, which way
    of traversal follows, how sure it is, and whether the node has a public address. *)

From S2P Require Import Prelude RustStd Endpoints F32 Stun.

Module NatClass.
Import Stun Endpoints.

Inductive NatMappingBehavior : Type :=
  | MappingUnknown | NoNat | MappingEndpointIndependent | MappingAddressDependent | MappingAddressAndPortDependent.

Inductive NatFilteringBehavior : Type :=
  | FilteringUnknown | FilteringEndpointIndependent | FilteringAddressDependent | FilteringAddressAndPortDependent.

Inductive NatTraversalStrategy : Type :=
  | DirectCandidate | CoordinatedHolePunch | RelayPreferred | InsufficientData.

Inductive NatConnectivityState : Type :=
  | StateUnknown | Public | MappedPublic | Private | Nat | DoubleNat | RelayOnly.

#[global] Instance NatMappingBehavior_eq_dec : EqDecision NatMappingBehavior.
Proof. solve_decision. Defined.
#[global] Instance NatFilteringBehavior_eq_dec : EqDecision NatFilteringBehavior.
Proof. solve_decision. Defined.
#[global] Instance NatTraversalStrategy_eq_dec : EqDecision NatTraversalStrategy.
Proof. solve_decision. Defined.
#[global] Instance NatConnectivityState_eq_dec : EqDecision NatConnectivityState.
Proof. solve_decision. Defined.

Record NatClassification : Type := {
  class_local_addr : SocketAddr;
  mapping_behavior : NatMappingBehavior;
  filtering_behavior : NatFilteringBehavior;
  observed_endpoint : option SocketAddr;
  class_observations : list NatProbeObservation;
  filtering_observations : list NatFilteringObservation;
  strategy : NatTraversalStrategy;
  connectivity_state : NatConnectivityState;
  confidence : f32;
  assessed_at : Z
}.

(** ** Mapping *)

Definition all_reflexive (a : SocketAddr) (observations : list NatProbeObservation) : bool :=
  forallb (fun o => bool_decide (reflexive_addr o = a)) observations.

(** [same_stun_address_different_port_changes_mapping]: every observation against those after it. *)
Fixpoint same_stun_address_different_port_changes_mapping (observations : list NatProbeObservation) : bool :=
  match observations with
  | [] => false
  | l :: rest =>
      existsb (fun r =>
        bool_decide (socket_ip (stun_server l) = socket_ip (stun_server r))
        && negb (socket_port (stun_server l) =? socket_port (stun_server r))
        && negb (bool_decide (reflexive_addr l = reflexive_addr r))) rest
      || same_stun_address_different_port_changes_mapping rest
  end.

Definition classify_nat_mapping (local : SocketAddr) (observations : list NatProbeObservation) : NatMappingBehavior :=
  match observations with
  | [] => MappingUnknown
  | first :: others =>
      if negb (is_unspecified (socket_ip local)) && all_reflexive local observations then NoNat
      else match others with
           | [] => MappingUnknown
           | _ =>
               if all_reflexive (reflexive_addr first) observations then MappingEndpointIndependent
               else if same_stun_address_different_port_changes_mapping observations then MappingAddressAndPortDependent
               else MappingAddressDependent
           end
  end.

Definition stable_observed_endpoint (observations : list NatProbeObservation) : option SocketAddr :=
  match observations with
  | [] => None
  | first :: _ => if all_reflexive (reflexive_addr first) observations then Some (reflexive_addr first) else None
  end.

(** ** Filtering *)

Definition filtering_probe_received (observations : list NatFilteringObservation) (kind : NatFilteringProbeKind) : bool :=
  existsb (fun o => bool_decide (probe o = kind) && bool_decide (is_Some (filter_origin o))) observations.

Definition classify_nat_filtering (observations : list NatFilteringObservation) : NatFilteringBehavior :=
  if bool_decide (observations = []) then FilteringUnknown
  else if filtering_probe_received observations ChangeAddressAndPort then FilteringEndpointIndependent
  else if filtering_probe_received observations ChangePort then FilteringAddressDependent
  else if filtering_probe_received observations SameAddress then FilteringAddressAndPortDependent
  else FilteringUnknown.

(** ** The assessment *)

Definition nat_traversal_strategy (m : NatMappingBehavior) (f : NatFilteringBehavior) : NatTraversalStrategy :=
  match m with
  | NoNat => DirectCandidate
  | MappingUnknown => InsufficientData
  | MappingAddressAndPortDependent => RelayPreferred
  | _ => match f with
         | FilteringAddressAndPortDependent => RelayPreferred
         | FilteringEndpointIndependent | FilteringAddressDependent => CoordinatedHolePunch
         | FilteringUnknown => InsufficientData
         end
  end.

Definition local_is_private (local : SocketAddr) : bool :=
  match socket_ip local with
  | IpV4 ip => v4_is_private ip || is_loopback (IpV4 ip) || v4_is_link_local ip
  | IpV6 ip => is_loopback (IpV6 ip) || v6_is_unique_local ip || v6_is_unicast_link_local ip
  end.

Definition distinct_reflexive_endpoints (observations : list NatProbeObservation) : Z :=
  lenZ (remove_dups (map reflexive_addr observations)).

Definition nat_connectivity_state (local : SocketAddr) (observations : list NatProbeObservation) (m : NatMappingBehavior)
    (s : NatTraversalStrategy) : NatConnectivityState :=
  if bool_decide (m = NoNat) then
    if socket_addr_is_globally_routable local
       && forallb (fun o => socket_addr_is_globally_routable (reflexive_addr o)) observations
    then Public else Private
  else if bool_decide (s = RelayPreferred) then RelayOnly
  else if bool_decide (observations = []) then StateUnknown
  else if bool_decide (m = MappingUnknown) then
    if existsb (fun o => negb (bool_decide (reflexive_addr o = local_addr o))
                         && socket_addr_is_globally_routable (reflexive_addr o)) observations
    then Nat else StateUnknown
  else if local_is_private local && bool_decide (m = MappingAddressDependent) && (1 <? distinct_reflexive_endpoints observations)
  then DoubleNat else Nat.

(** [(base + count as f32 * 0.1).min(cap)], the common form of the confidences. *)
Definition grown (base cap : f32) (count : Z) : f32 := F32.min (F32.add base (F32.mul (F32.of_Z count) (F32.lit 1 10))) cap.

Definition nat_classification_confidence (m : NatMappingBehavior) (observation_count : Z) (f : NatFilteringBehavior)
    (filtering_observation_count : Z) : f32 :=
  let mapping_confidence :=
    match m with
    | MappingUnknown => if observation_count =? 0 then F32.zero else F32.lit 25 100
    | NoNat => F32.one
    | MappingEndpointIndependent => grown (F32.lit 6 10) (F32.lit 95 100) observation_count
    | MappingAddressDependent => grown (F32.lit 55 100) (F32.lit 9 10) observation_count
    | MappingAddressAndPortDependent => grown (F32.lit 65 100) (F32.lit 95 100) observation_count
    end in
  let filtering_confidence :=
    match f with
    | FilteringUnknown => if filtering_observation_count =? 0 then mapping_confidence else F32.lit 25 100
    | FilteringEndpointIndependent => grown (F32.lit 6 10) (F32.lit 95 100) filtering_observation_count
    | FilteringAddressDependent => grown (F32.lit 55 100) (F32.lit 9 10) filtering_observation_count
    | FilteringAddressAndPortDependent => grown (F32.lit 65 100) (F32.lit 95 100) filtering_observation_count
    end in
  if filtering_observation_count =? 0 then mapping_confidence
  else F32.min (F32.div (F32.add mapping_confidence filtering_confidence) (F32.of_Z 2)) (F32.lit 98 100).

Definition from_observations_with_filtering (local : SocketAddr) (observations : list NatProbeObservation)
    (filtering : list NatFilteringObservation) (now : Z) : NatClassification :=
  let m := classify_nat_mapping local observations in
  let f := classify_nat_filtering filtering in
  let s := nat_traversal_strategy m f in
  {| class_local_addr := local; mapping_behavior := m; filtering_behavior := f;
     observed_endpoint := stable_observed_endpoint observations; class_observations := observations;
     filtering_observations := filtering; strategy := s;
     connectivity_state := nat_connectivity_state local observations m s;
     confidence := nat_classification_confidence m (lenZ observations) f (lenZ filtering); assessed_at := now |}.

Definition from_observations (local : SocketAddr) (observations : list NatProbeObservation) (now : Z) : NatClassification :=
  from_observations_with_filtering local observations [] now.

(** ** The public address *)

Definition public_state_is_supported (c : NatClassification) : bool :=
  match connectivity_state c with
  | Public =>
      bool_decide (mapping_behavior c = NoNat) && bool_decide (strategy c = DirectCandidate)
      && socket_addr_is_globally_routable (class_local_addr c) && bool_decide (observed_endpoint c = Some (class_local_addr c))
      && negb (bool_decide (class_observations c = []))
      && forallb (fun o => bool_decide (local_addr o = class_local_addr c) && bool_decide (reflexive_addr o = class_local_addr c)
                           && socket_addr_is_globally_routable (reflexive_addr o)) (class_observations c)
  | MappedPublic =>
      match observed_endpoint c with
      | None => false
      | Some endpoint =>
          bool_decide (mapping_behavior c = MappingEndpointIndependent) && negb (socket_addr_is_globally_routable (class_local_addr c))
          && socket_addr_is_globally_routable endpoint && negb (bool_decide (socket_ip (class_local_addr c) = socket_ip endpoint))
          && negb (bool_decide (class_observations c = []))
          && forallb (fun o => bool_decide (local_addr o = class_local_addr c)
                               && bool_decide (socket_ip (reflexive_addr o) = socket_ip endpoint)
                               && socket_addr_is_globally_routable (reflexive_addr o)) (class_observations c)
      end
  | _ => true
  end.

Definition publicly_reachable_ip (c : NatClassification) : option IpAddr :=
  if negb (public_state_is_supported c) then None
  else match connectivity_state c with
       | Public => Some (socket_ip (class_local_addr c))
       | MappedPublic => socket_ip <$> observed_endpoint c
       | _ => None
       end.

Inductive DeclareError : Type :=
  | NotGloballyRoutable (expected : IpAddr)
  | NoStableEndpoint
  | DoesNotMatch (expected observed : IpAddr)
  | RequiresStableMapping.

Definition with_state (c : NatClassification) (s : NatConnectivityState) : NatClassification :=
  {| class_local_addr := class_local_addr c; mapping_behavior := mapping_behavior c; filtering_behavior := filtering_behavior c;
     observed_endpoint := observed_endpoint c; class_observations := class_observations c;
     filtering_observations := filtering_observations c; strategy := strategy c; connectivity_state := s;
     confidence := confidence c; assessed_at := assessed_at c |}.

(** [declare_mapped_public_ip(&mut self, ..)]: the classification afterwards and the result. *)
Definition declare_mapped_public_ip (c : NatClassification) (expected : IpAddr) : NatClassification * result unit DeclareError :=
  if negb (socket_addr_is_globally_routable (socket_new expected 1)) then (c, Err (NotGloballyRoutable expected))
  else match socket_ip <$> observed_endpoint c with
       | None => (c, Err NoStableEndpoint)
       | Some observed =>
           if negb (bool_decide (observed = expected)) then (c, Err (DoesNotMatch expected observed))
           else
             let previous_state := connectivity_state c in
             let c := with_state c MappedPublic in
             if negb (public_state_is_supported c) then (with_state c previous_state, Err RequiresStableMapping)
             else (c, Ok tt)
       end.

Fixpoint declare_all (c : NatClassification) (declared : list IpAddr) : NatClassification :=
  match declared with
  | [] => c
  | ip :: declared => declare_all (declare_mapped_public_ip c ip).1 declared
  end.

(** ** Lemmas *)

Lemma all_reflexive_iff a observations :
  all_reflexive a observations = true <-> Forall (fun o => reflexive_addr o = a) observations.
Proof.
  unfold all_reflexive. rewrite forallb_Forall. apply Forall_iff. intros o. apply bool_decide_eq_true.
Qed.

Lemma stable_iff observations e :
  stable_observed_endpoint observations = Some e <->
  observations <> [] /\ Forall (fun o => reflexive_addr o = e) observations.
Proof.
  destruct observations as [|o observations]; [naive_solver|]. cbn [stable_observed_endpoint].
  destruct (all_reflexive _ _) eqn:E.
  - apply all_reflexive_iff in E. split; [by intros [= <-]|]. intros [_ H%Forall_inv]. by rewrite H.
  - split; [done|]. intros [_ H]. pose proof (Forall_inv H) as He. cbv beta in He. subst e.
    apply all_reflexive_iff in H. congruence.
Qed.

Lemma no_nat_iff local observations :
  classify_nat_mapping local observations = NoNat <->
  observations <> [] /\ is_unspecified (socket_ip local) = false /\ Forall (fun o => reflexive_addr o = local) observations.
Proof.
  destruct observations as [|o observations]; [naive_solver|]. cbn [classify_nat_mapping].
  rewrite <- all_reflexive_iff. destruct (is_unspecified _), (all_reflexive local _); simpl; try naive_solver;
    repeat case_match; naive_solver.
Qed.

Lemma endpoint_independent_iff local observations :
  classify_nat_mapping local observations = MappingEndpointIndependent <->
  classify_nat_mapping local observations <> NoNat /\ (2 <= length observations)%nat /\
  exists e, Forall (fun o => reflexive_addr o = e) observations.
Proof.
  destruct observations as [|o observations]; [simpl; split; [done|intros (_ & ? & _); lia]|]. cbn [classify_nat_mapping].
  destruct (_ && _); [naive_solver|]. destruct observations as [|o' observations]; [simpl; split; [done|intros (_ & ? & _); lia]|].
  destruct (all_reflexive (reflexive_addr o) _) eqn:E.
  - apply all_reflexive_iff in E. split; [|done]. intros _. split_and!; [done|simpl; lia|eauto].
  - split; [case_match; done|]. intros (_ & _ & e & H). pose proof (Forall_inv H) as He. cbv beta in He. subst e.
    apply all_reflexive_iff in H. congruence.
Qed.

Lemma routable_specified a : socket_addr_is_globally_routable a = true -> is_unspecified (socket_ip a) = false.
Proof.
  unfold socket_addr_is_globally_routable. intros [_ H]%andb_true_iff. destruct (socket_ip a) as [ip|ip]; simpl in *;
    (destruct (Z.eqb_spec ip 0) as [->|]; [discriminate H|done]).
Qed.

Lemma routable_port a p : socket_addr_is_globally_routable a = true -> p <> 0 ->
  socket_addr_is_globally_routable (socket_new (socket_ip a) p) = true.
Proof.
  unfold socket_addr_is_globally_routable. intros [_ H]%andb_true_iff Hp. destruct (socket_ip a) as [ip|ip] eqn:E; simpl in *;
    rewrite H; destruct (Z.eqb_spec p 0); done.
Qed.

(** The states an assessment gives are public only without a NAT. *)
Lemma assessed_state local observations m s :
  (nat_connectivity_state local observations m s = Public <->
   m = NoNat /\ socket_addr_is_globally_routable local = true /\
   Forall (fun o => socket_addr_is_globally_routable (reflexive_addr o) = true) observations) /\
  nat_connectivity_state local observations m s <> MappedPublic.
Proof.
  unfold nat_connectivity_state. rewrite <- forallb_Forall. case_bool_decide as Hm.
  - destruct (_ && _) eqn:E.
    + apply andb_true_iff in E. naive_solver.
    + apply andb_false_iff in E. split; [|done]. split; [done|]. intros (_ & H1 & H2). destruct E; congruence.
  - split; [|repeat case_match; done]. split; [repeat case_match; done|naive_solver].
Qed.

Lemma with_own_state c : with_state c (connectivity_state c) = c.
Proof. by destruct c. Qed.

Lemma with_state_twice c s s' : with_state (with_state c s) s' = with_state c s'.
Proof. by destruct c. Qed.

(** When a declared address is supported. *)
Lemma mapped_supported_iff c :
  public_state_is_supported (with_state c MappedPublic) = true <->
  exists e, observed_endpoint c = Some e /\ mapping_behavior c = MappingEndpointIndependent /\
    socket_addr_is_globally_routable (class_local_addr c) = false /\ socket_addr_is_globally_routable e = true /\
    socket_ip (class_local_addr c) <> socket_ip e /\ class_observations c <> [] /\
    Forall (fun o => local_addr o = class_local_addr c /\ socket_ip (reflexive_addr o) = socket_ip e /\
                     socket_addr_is_globally_routable (reflexive_addr o) = true) (class_observations c).
Proof.
  unfold public_state_is_supported. destruct c as [local m f endpoint obs fobs st cs t]; cbn. destruct endpoint as [e|]; [|naive_solver].
  rewrite !andb_true_iff, !negb_true_iff, !bool_decide_eq_false, bool_decide_eq_true, forallb_Forall.
  assert (forall o, bool_decide (local_addr o = local) && bool_decide (socket_ip (reflexive_addr o) = socket_ip e)
      && socket_addr_is_globally_routable (reflexive_addr o) = true <->
    local_addr o = local /\ socket_ip (reflexive_addr o) = socket_ip e /\ socket_addr_is_globally_routable (reflexive_addr o) = true)
    as E by (intros o; rewrite !andb_true_iff, !bool_decide_eq_true; tauto).
  rewrite (Forall_iff _ _ _ E). naive_solver.
Qed.

(** A declaration either is refused and changes nothing, or confirms the observed address. *)
Lemma declare_cases c ip :
  (declare_mapped_public_ip c ip).1 =
    if public_state_is_supported (with_state c MappedPublic) && bool_decide (socket_ip <$> observed_endpoint c = Some ip)
    then with_state c MappedPublic else c.
Proof.
  unfold declare_mapped_public_ip. destruct (public_state_is_supported (with_state c MappedPublic)) eqn:Hs; cbn [andb negb].
  - pose proof Hs as (e & -> & _ & _ & Hr & _)%mapped_supported_iff. cbn.
    destruct (decide (socket_ip e = ip)) as [<-|Hb].
    + rewrite (routable_port _ 1) by done. by rewrite !bool_decide_eq_true_2.
    + rewrite !bool_decide_eq_false_2 by congruence. by destruct (negb (socket_addr_is_globally_routable _)).
  - destruct (negb _); [done|]. destruct (socket_ip <$> _); [|done]. destruct (negb _); [done|]. cbn [fst].
    by rewrite with_state_twice, with_own_state.
Qed.

Lemma declare_all_cases c declared :
  let confirmed := public_state_is_supported (with_state c MappedPublic) = true /\
                   exists e, observed_endpoint c = Some e /\ socket_ip e ∈ declared in
  (confirmed /\ declare_all c declared = with_state c MappedPublic) \/ (~ confirmed /\ declare_all c declared = c).
Proof.
  cbv zeta. revert c. induction declared as [|ip declared IH]; intros c; cbn [declare_all].
  { right. split; [|done]. intros (_ & e & _ & H). by apply not_elem_of_nil in H. }
  rewrite declare_cases. destruct (public_state_is_supported (with_state c MappedPublic)) eqn:Hs; cbn [andb].
  - case_bool_decide as Hb.
    + left. split; [|destruct (IH (with_state c MappedPublic)) as [[_ ->]|[_ ->]]; by rewrite ?with_state_twice].
      split; [done|]. destruct (observed_endpoint c) as [e|]; [|done]. exists e. split; [done|].
      simplify_eq/=. by left.
    + destruct (IH c) as [[(H & e & He & Hin) ->]|[Hn ->]]; [left|right]; (split; [|done]).
      * split; [done|]. exists e. split; [done|]. by right.
      * intros (_ & e & He & Hin). rewrite He in Hb. apply elem_of_cons in Hin as [Hin|Hin]; [by subst|].
        apply Hn. eauto.
  - right. split; [naive_solver|]. destruct (IH c) as [[(H & _) _]|[_ ->]]; [congruence|done].
Qed.

(** Whether an assessment is public. *)
Lemma public_iff local observations filtering now :
  let c := from_observations_with_filtering local observations filtering now in
  connectivity_state c = Public <->
  observations <> [] /\ Forall (fun o => reflexive_addr o = local) observations /\ socket_addr_is_globally_routable local = true.
Proof.
  cbv zeta. cbn [connectivity_state from_observations_with_filtering]. rewrite (proj1 (assessed_state _ _ _ _)), no_nat_iff.
  split; [tauto|]. intros (Hne & Hall & Hr). split_and!; try done; [by apply routable_specified|].
  eapply Forall_impl; [exact Hall|]. by intros o ->.
Qed.

Lemma public_supported_iff local observations filtering now :
  let c := from_observations_with_filtering local observations filtering now in
  connectivity_state c = Public ->
  (public_state_is_supported c = true <-> Forall (fun o => local_addr o = local) observations).
Proof.
  cbv zeta. intros Hc. pose proof Hc as (Hne & Hall & Hr)%public_iff. unfold public_state_is_supported. rewrite Hc.
  cbn [mapping_behavior strategy class_local_addr observed_endpoint class_observations from_observations_with_filtering].
  assert (classify_nat_mapping local observations = NoNat) as ->
    by (apply no_nat_iff; split_and!; [done|by apply routable_specified|done]).
  assert (stable_observed_endpoint observations = Some local) as -> by (by apply stable_iff).
  cbn [nat_traversal_strategy]. rewrite Hr, !bool_decide_eq_true_2, bool_decide_eq_false_2 by done. cbn [andb negb].
  rewrite forallb_Forall. clear Hc Hne. induction Hall as [|o observations Ho _ IH]; [done|].
  rewrite !Forall_cons, IH, !andb_true_iff, !bool_decide_eq_true, Ho. tauto.
Qed.

(** ** Properties *)

(** The observations confirm that the node itself holds a public address, or that it is
    reached under one that was declared for it. *)
Definition own_address (local : SocketAddr) (observations : list NatProbeObservation) (ip : IpAddr) : Prop :=
  socket_addr_is_globally_routable local = true /\ socket_ip local = ip /\
  Forall (fun o => reflexive_addr o = local) observations.

Definition mapped_address (local : SocketAddr) (observations : list NatProbeObservation) (declared : list IpAddr)
    (ip : IpAddr) : Prop :=
  ip ∈ declared /\ socket_addr_is_globally_routable local = false /\ socket_ip local <> ip /\ (2 <= length observations)%nat /\
  exists e, socket_addr_is_globally_routable e = true /\ socket_ip e = ip /\ Forall (fun o => reflexive_addr o = e) observations.

Lemma mapped_confirmed_iff local observations filtering now declared :
  let c := from_observations_with_filtering local observations filtering now in
  (public_state_is_supported (with_state c MappedPublic) = true /\
   exists e, observed_endpoint c = Some e /\ socket_ip e ∈ declared) <->
  exists ip, Forall (fun o => local_addr o = local) observations /\ mapped_address local observations declared ip.
Proof.
  cbv zeta. rewrite mapped_supported_iff.
  cbn [mapping_behavior class_local_addr observed_endpoint class_observations from_observations_with_filtering]. split.
  - intros ((e & He & (_ & Hlen & _)%endpoint_independent_iff & Hl & Hr & Hne & _ & Hall) & e' & He' & Hin). simplify_eq.
    exists (socket_ip e). split; [eapply Forall_impl; [exact Hall|]; naive_solver|]. unfold mapped_address.
    split_and!; try done. exists e. split_and!; try done. by apply stable_iff.
  - intros (ip & Hloc & Hin & Hl & Hne & Hlen & e & Hr & <- & Hall).
    assert (stable_observed_endpoint observations = Some e) as ->
      by (apply stable_iff; split; [|done]; by destruct observations; [simpl in Hlen; lia|]).
    split; [|by exists e]. exists e. split_and!; try done.
    + apply endpoint_independent_iff. split_and!; [|done|by eexists]. intros (Hnil & _ & Hall')%no_nat_iff.
      destruct observations as [|o observations]; [done|]. apply Forall_inv in Hall, Hall'. congruence.
    + by destruct observations; [simpl in Hlen; lia|].
    + apply Forall_forall. intros o Ho. rewrite Forall_forall in Hloc, Hall. rewrite (Hall o Ho). split_and!; auto.
Qed.

(** The address of an assessment itself, and of one with a confirmed declaration. *)
Lemma assessed_address local observations filtering now ip :
  let c := from_observations_with_filtering local observations filtering now in
  publicly_reachable_ip c = Some ip <->
  observations <> [] /\ Forall (fun o => local_addr o = local) observations /\ own_address local observations ip.
Proof.
  cbv zeta. set (c := from_observations_with_filtering _ _ _ _). unfold publicly_reachable_ip.
  destruct (decide (connectivity_state c = Public)) as [Hp|Hp].
  - pose proof Hp as (Hne & Hall & Hr)%public_iff. pose proof (public_supported_iff _ _ _ _ Hp) as Hsup.
    rewrite Hp. cbn [class_local_addr c from_observations_with_filtering]. fold c in Hsup.
    destruct (public_state_is_supported c); cbn [negb]; unfold own_address; naive_solver.
  - split; [|intros (Hne & _ & Hr & _ & Hall); by destruct Hp; apply public_iff].
    destruct (negb _); [done|]. pose proof (proj2 (assessed_state local observations (mapping_behavior c) (strategy c))) as Hm.
    change (connectivity_state c <> MappedPublic) in Hm. by destruct (connectivity_state c).
Qed.

Lemma mapped_unique local observations declared declared' ip ip' :
  mapped_address local observations declared ip -> mapped_address local observations declared' ip' -> ip = ip'.
Proof.
  intros (_ & _ & _ & Hlen & e & _ & <- & H) (_ & _ & _ & _ & e' & _ & <- & H').
  destruct observations as [|o observations]; [simpl in Hlen; lia|]. apply Forall_inv in H, H'. congruence.
Qed.

(** A node has a public address exactly when its own observations show one. However often
    an operator declares addresses, the address is the node's own, which every observation
    confirmed, or a declared one, which at least two observations from a node without a
    public address agree on. *)
Theorem public_ip_iff local observations filtering now declared ip :
  publicly_reachable_ip (declare_all (from_observations_with_filtering local observations filtering now) declared) = Some ip <->
  observations <> [] /\ Forall (fun o => local_addr o = local) observations /\
  (own_address local observations ip \/ mapped_address local observations declared ip).
Proof.
  set (c := from_observations_with_filtering _ _ _ _). pose proof (mapped_confirmed_iff local observations filtering now declared) as Hm.
  fold c in Hm. cbv zeta in Hm. destruct (declare_all_cases c declared) as [[Hc ->]|[Hn ->]].
  - pose proof Hc as (ip0 & Hloc & Hmap)%Hm. destruct Hc as (Hs & e & He & _).
    assert (ip0 = socket_ip e) as ->.
    { pose proof Hmap as (_ & _ & _ & Hlen & e' & _ & <- & Hall'). apply stable_iff in He as [Hne Hall].
      destruct observations as [|o observations]; [done|]. apply Forall_inv in Hall, Hall'. congruence. }
    unfold publicly_reachable_ip. rewrite Hs. cbn [negb connectivity_state with_state observed_endpoint]. rewrite He. cbn.
    split.
    + intros [= <-]. split_and!; [|done|by right]. destruct Hmap as (_ & _ & _ & Hlen & _). by intros ->; simpl in Hlen; lia.
    + intros (_ & _ & [(Hr & _)|H]); [destruct Hmap as (_ & Hr' & _); congruence|].
      f_equal. by eapply mapped_unique.
  - unfold c. rewrite assessed_address. split; [naive_solver|]. intros (Hne & Hloc & [H|H]); [done|].
    destruct Hn. apply Hm. by exists ip.
Qed.

(** A state that says public is supported by what it was concluded from, whatever was
    declared. *)
Lemma supported_declared local observations filtering now declared :
  Forall (fun o => local_addr o = local) observations ->
  public_state_is_supported (declare_all (from_observations_with_filtering local observations filtering now) declared) = true.
Proof.
  intros Hloc. set (c := from_observations_with_filtering _ _ _ _).
  destruct (declare_all_cases c declared) as [[[Hs _] ->]|[_ ->]]; [done|].
  destruct (decide (connectivity_state c = Public)) as [Hp|Hp]; [by apply public_supported_iff|].
  pose proof (proj2 (assessed_state local observations (mapping_behavior c) (strategy c))) as Hm.
  change (connectivity_state c <> MappedPublic) in Hm. unfold public_state_is_supported. by destruct (connectivity_state c).
Qed.

(** Observations through a NAT that uses the external address [m server] towards a server. *)
Definition seen_through (m : SocketAddr -> SocketAddr) (observations : list NatProbeObservation) : Prop :=
  Forall (fun o => reflexive_addr o = m (stun_server o)) observations.

Lemma port_changes_mapping_iff observations :
  same_stun_address_different_port_changes_mapping observations = true ->
  exists l r, l ∈ observations /\ r ∈ observations /\ socket_ip (stun_server l) = socket_ip (stun_server r) /\
    reflexive_addr l <> reflexive_addr r.
Proof.
  induction observations as [|o observations IH]; [done|]. cbn [same_stun_address_different_port_changes_mapping].
  intros [(r & Hr & H)%existsb_exists|(l & r & H)%IH]%orb_true_iff.
  - rewrite !andb_true_iff, !negb_true_iff, bool_decide_eq_true, bool_decide_eq_false in H.
    exists o, r. apply list_elem_of_In in Hr. split_and!; [by left|by right|apply H|apply H].
  - exists l, r. rewrite !elem_of_cons. naive_solver.
Qed.

(** ** Confidence *)

Lemma grown_unit base cap count : F32.nonneg base -> F32.unit_interval cap -> 0 <= count -> F32.unit_interval (grown base cap count).
Proof.
  intros Hb Hc Hn. apply F32.min_unit; [|done]. apply F32.add_nonneg; [done|].
  change (F32.lit 1 10) with (SpecFloat.S754_finite false 13421773 (-27)). by apply F32.mul_nonneg, F32.of_Z_nonneg.
Qed.

Lemma confidence_unit m n f k : 0 <= n -> 0 <= k -> F32.unit_interval (nat_classification_confidence m n f k).
Proof.
  intros Hn Hk. unfold nat_classification_confidence.
  assert (forall m, F32.unit_interval (match m with
    | MappingUnknown => if n =? 0 then F32.zero else F32.lit 25 100
    | NoNat => F32.one
    | MappingEndpointIndependent => grown (F32.lit 6 10) (F32.lit 95 100) n
    | MappingAddressDependent => grown (F32.lit 55 100) (F32.lit 9 10) n
    | MappingAddressAndPortDependent => grown (F32.lit 65 100) (F32.lit 95 100) n
    end)) as Hm by (intros []; try (destruct (n =? 0)); try (by apply grown_unit); by split).
  specialize (Hm m). destruct (k =? 0) eqn:Ek; [done|]. set (c := match m with MappingUnknown => _ | _ => _ end) in *.
  apply F32.min_unit; [|by split]. change (F32.of_Z 2) with (SpecFloat.S754_finite false 8388608 (-22)).
  apply F32.div_nonneg, F32.add_nonneg; [apply Hm|]. destruct f; try done; by apply grown_unit.
Qed.

(** No NAT is taken for a less usable one: what is concluded about the mapping is so for the
    servers that were asked. A mapping that depends on nothing is never found dependent, one
    that depends on the address of the server only is never found to depend on its port, and
    two answers are enough for a conclusion. *)
Theorem mapping_sound m local observations :
  seen_through m observations ->
  ((forall a b, m a = m b) -> classify_nat_mapping local observations ∈ [MappingUnknown; NoNat; MappingEndpointIndependent]) /\
  ((forall a b, socket_ip a = socket_ip b -> m a = m b) ->
    classify_nat_mapping local observations <> MappingAddressAndPortDependent) /\
  (classify_nat_mapping local observations = MappingUnknown -> (length observations < 2)%nat) /\
  (classify_nat_mapping local observations = MappingEndpointIndependent ->
    forall l r, l ∈ observations -> r ∈ observations -> m (stun_server l) = m (stun_server r)).
Proof.
  unfold seen_through. rewrite Forall_forall. intros Hm. split_and!.
  - intros Hc. destruct observations as [|o [|o' observations]]; [left| |]; cbn [classify_nat_mapping].
    + destruct (_ && _); [right; left|left].
    + destruct (_ && _); [right; left|]. replace (all_reflexive _ _) with true; [right; right; left|].
      symmetry. apply all_reflexive_iff, Forall_forall. intros x Hx. rewrite !Hm by set_solver. apply Hc.
  - intros Hc H. assert (same_stun_address_different_port_changes_mapping observations = true) as Hs.
    { unfold classify_nat_mapping in H. repeat case_match; congruence. }
    apply port_changes_mapping_iff in Hs as (l & r & Hl & Hr & Hip & Hne). rewrite !Hm in Hne by done. by apply Hne, Hc.
  - destruct observations as [|o [|o' observations]]; cbn [classify_nat_mapping length]; [lia..|]. repeat case_match; done.
  - intros (_ & _ & e & He)%endpoint_independent_iff l r Hl Hr. rewrite Forall_forall in He.
    by rewrite <- !Hm, !He by done.
Qed.

(** ** Discovery through a NAT

    The client's probes go to the primary socket of a two-socket server and come back through
    a NAT that lets datagrams from some of the server's sockets pass. *)
Section Discovery.
Context (server_sys client_sys : System) (primary alternate bound server peer : SocketAddr).
Context (passes : SocketAddr -> bool) (tids : nat -> bytes) (now : Z).
Context (primary_addr alternate_addr local : SocketAddr).

Definition delivered (s : option Served) : list bytes :=
  match s with
  | Some {| sent := Some (socket, _, response) |} => if passes socket then [response] else []
  | _ => []
  end.

Definition exchange_with (tid : bytes) (o : BindingRequestOptions) : Exchange :=
  {| drawn := tid; request_sent := true;
     arrivals := match encode_binding_request tid o with
                 | Ok request => delivered (respond_to_request server_sys primary alternate request peer)
                 | Err _ => []
                 end;
     clock := now |}.

(** The exchanges of [observe_filtering], in its order. *)
Definition probes (k : nat) : Exchange :=
  exchange_with (tids k) (match k with 0 => same_address | 1 => change_address_and_port | _ => only_change_port end)%nat.

Hypothesis server_usable : endpoint_addr_is_usable server = true.
Hypothesis tids_length : forall k, length (tids k) = 12%nat.
Hypothesis peer_wf : SocketAddr_wf peer.
Hypothesis primary_wf : SocketAddr_wf primary_addr.
Hypothesis alternate_wf : SocketAddr_wf alternate_addr.
Hypothesis primary_local : concrete_local_addr server_sys primary peer = Ok primary_addr.
Hypothesis alternate_local : concrete_local_addr server_sys alternate peer = Ok alternate_addr.
Hypothesis server_sends : forall socket bs, send_ok server_sys socket peer bs = true.
Hypothesis client_local : concrete_local_addr client_sys bound server = Ok local.

Lemma exchange_outcome tid o : length tid = 12%nat ->
  exists r, filtering_details (exchange_with tid o) server o [] =
    Some ([], if passes (if change_ip o || change_port o then alternate else primary) then Some (Ok r) else None) /\
    is_Some (response_origin r) /\ is_Some (other_address r).
Proof.
  intros Ht. set (socket := if change_ip o || change_port o then alternate else primary).
  set (origin := if change_ip o || change_port o then alternate_addr else primary_addr).
  destruct (binding_answered server_sys tid o primary alternate peer origin alternate_addr) as (request & response & Er & Es & Hl & Ds);
    try done; try (unfold origin; by destruct (_ || _)).
  exists {| mapped_addr := plain peer; response_origin := Some (plain origin); other_address := Some (plain alternate_addr) |}.
  split; [|by split; eexists]. unfold filtering_details, observe_details. cbn [exchange_with drawn request_sent].
  rewrite Er. cbn [negb app]. unfold exchange_with. cbn [arrivals]. rewrite Er, Es. cbn [delivered sent]. fold socket.
  destruct (passes socket); [|done]. rewrite take_ge, Ds by lia. cbn. by rewrite bool_decide_eq_false_2 by tauto.
Qed.

(** C37: Filtering discovery against the two-socket server: through any NAT, the conclusion is
    endpoint independent when the NAT lets both sockets pass, address and port dependent
    when it lets only the first one pass, and unknown when it lets none pass. Filtering by
    address alone is never concluded: a request to change the port is answered from the same
    socket as one to change both. *)
Theorem filtering_found :
  exists observations, observe_filtering client_sys bound probes server = Some (Ok observations) /\
    classify_nat_filtering observations =
      if passes primary then if passes alternate then FilteringEndpointIndependent else FilteringAddressAndPortDependent
      else FilteringUnknown.
Proof.
  destruct (exchange_outcome (tids 0) same_address) as (r0 & E0 & [o0 O0] & [x0 X0]); [done|].
  destruct (exchange_outcome (tids 1) change_address_and_port) as (r1 & E1 & [o1 O1] & _); [done|].
  destruct (exchange_outcome (tids 2) only_change_port) as (r2 & E2 & _ & _); [done|].
  change (exchange_with (tids 0) same_address) with (probes 0) in E0.
  change (exchange_with (tids 1) change_address_and_port) with (probes 1) in E1.
  change (exchange_with (tids 2) only_change_port) with (probes 2) in E2.
  unfold observe_filtering, validate_stun_server. rewrite server_usable. cbn [negb]. rewrite E0.
  cbn [change_ip change_port same_address orb mbind option_bind]. destruct (passes primary); [|by exists []].
  rewrite X0, client_local. unfold observe_filtering_probe. rewrite E1.
  cbn [change_ip change_port change_address_and_port orb mbind option_bind]. rewrite client_local.
  destruct (passes alternate) eqn:Ha.
  - cbn. rewrite O1. cbn. eexists. split; [done|]. done.
  - cbn. rewrite E2. cbn. rewrite Ha. eexists. split; [done|]. done.
Qed.

End Discovery.

(** A NAT that lets datagrams of one address pass, and a server with two addresses. *)
Lemma filtering_found_witness :
  exists observations,
    observe_filtering sample_system (SockV4 0 40000)
      (probes sample_system (SockV4 0x08080808 3478) (SockV4 0x08080404 3479) (SockV4 0x01010101 61000)
         (fun socket => match socket_ip socket with IpV4 ip => ip =? 0x08080808 | IpV6 _ => false end) (fun k => replicate 12 (Zbyte (Z.of_nat k))) 9)
      (SockV4 0x08080808 3478) = Some (Ok observations) /\
    classify_nat_filtering observations = FilteringAddressAndPortDependent.
Proof.
  apply (filtering_found sample_system sample_system (SockV4 0x08080808 3478) (SockV4 0x08080404 3479) (SockV4 0 40000)
    (SockV4 0x08080808 3478) (SockV4 0x01010101 61000) (fun socket => match socket_ip socket with IpV4 ip => ip =? 0x08080808 | IpV6 _ => false end)
    (fun k => replicate 12 (Zbyte (Z.of_nat k))) 9 (SockV4 0x08080808 3478) (SockV4 0x08080404 3479) (SockV4 0x0A000001 40000));
    try reflexivity; unfold SocketAddr_wf, is_u32, is_u16, in_width; lia.
Defined.

End NatClass.
