(* ===== verification/PathTypes.v ===== *)
(** * Paths, policy and health (crates/ipars-types/src/lib.rs)

    The states, metrics and scores of paths between nodes, the cluster policy with its access
    rules, health reports, and the order in which two nodes try relays. Times are
    nanoseconds. *)

From S2P Require Import Prelude RustStd Endpoints OverlayTypes BTree Hashing F32.

Module PathTypes.

Inductive PathState : Type := DirectPublic | DirectIpv6 | DirectNatTraversal | RelayPath | Unreachable.

#[global] Instance PathState_eq_dec : EqDecision PathState.
Proof. solve_decision. Defined.

Definition is_direct (s : PathState) : bool :=
  match s with DirectPublic | DirectIpv6 | DirectNatTraversal => true | _ => false end.

Definition allows_selected_candidate_kind (s : PathState) (kind : Endpoints.EndpointCandidateKind) : bool :=
  match s, kind with
  | DirectPublic, Endpoints.PublicUdp => true
  | DirectIpv6, Endpoints.Ipv6 => true
  | DirectNatTraversal, Endpoints.StunReflexive => true
  | DirectNatTraversal, Endpoints.LocalUdp => true
  | _, _ => false
  end.

Record PathMetrics : Type := {
  latency_ms : option f32;
  loss_ppm : Z;
  jitter_ms : option f32;
  relay_load : option f32;
  stability : f32
}.

Definition default_metrics : PathMetrics :=
  {| latency_ms := None; loss_ppm := 0; jitter_ms := None; relay_load := None; stability := F32.one |}.

Record PathQualityObservation : Type := {
  selected_state : PathState;
  selected_candidate : option Endpoints.EndpointCandidate;
  relay_node : option NodeId;
  metrics : PathMetrics;
  sample_count : Z;
  successful_sample_count : Z;
  quality_observed_at : Z
}.

(** The field that [PathMetricsValidationError] names. *)
Inductive metric_field : Type := FieldLatency | FieldJitter | FieldRelayLoad | FieldStability.

Definition validate_optional_non_negative_metric (field : metric_field) (value : option f32) : result unit metric_field :=
  match value with
  | Some v => if negb (F32.is_finite v) || F32.lt v F32.zero then Err field else Ok tt
  | None => Ok tt
  end.

Definition validate_unit_metric (field : metric_field) (value : f32) : result unit metric_field :=
  if negb (F32.is_finite value) || negb (F32.within F32.zero F32.one value) then Err field else Ok tt.

Definition validate_optional_unit_metric (field : metric_field) (value : option f32) : result unit metric_field :=
  match value with Some v => validate_unit_metric field v | None => Ok tt end.

Definition validate_metrics (m : PathMetrics) : result unit metric_field :=
  let? _ := validate_optional_non_negative_metric FieldLatency (latency_ms m) in
  let? _ := validate_optional_non_negative_metric FieldJitter (jitter_ms m) in
  let? _ := validate_optional_unit_metric FieldRelayLoad (relay_load m) in
  let? _ := validate_unit_metric FieldStability (stability m) in
  Ok tt.

(** ** Scores *)

(** The texts of [PathScore::reasons]. *)
Inductive score_reason : Type :=
  | ReasonPolicyDenied | ReasonState (s : PathState) | ReasonLatency (v : f32) | ReasonLoss (ppm : Z) | ReasonJitter (v : f32)
  | ReasonRelayLoad (v : f32) | ReasonStability (v : f32) | ReasonCost (cost : Z).

Record PathScore : Type := {
  score_value : f32;
  reasons : list score_reason
}.

Definition bounded_metric (value low high fallback : f32) : f32 :=
  if F32.is_finite value then F32.clamp value low high else fallback.

Definition base_score (s : PathState) : f32 :=
  F32.of_Z (match s with
            | DirectIpv6 => 120 | DirectPublic => 115 | DirectNatTraversal => 105 | RelayPath => 70 | Unreachable => -1000
            end).

(** [value -= penalty; reasons.push(..)] *)
Definition lower (p : f32 * list score_reason) (penalty : f32) (why : score_reason) : f32 * list score_reason :=
  (F32.sub p.1 penalty, p.2 ++ [why]).

Definition calculate (s : PathState) (m : PathMetrics) (policy_allowed : bool) (cost : Z) : PathScore :=
  if negb policy_allowed then {| score_value := SpecFloat.S754_infinity true; reasons := [ReasonPolicyDenied] |}
  else
    let f := F32.of_Z in
    let p := (base_score s, [ReasonState s]) in
    let p := match latency_ms m with
             | Some v => lower p (F32.div (bounded_metric v (f 0) (f 500) (f 500)) (f 10)) (ReasonLatency v)
             | None => p end in
    let p := if 0 <? loss_ppm m
             then lower p (F32.min (F32.div (f (loss_ppm m)) (f 10000)) (f 50)) (ReasonLoss (loss_ppm m)) else p in
    let p := match jitter_ms m with
             | Some v => lower p (F32.div (bounded_metric v (f 0) (f 200) (f 200)) (f 20)) (ReasonJitter v)
             | None => p end in
    let p := match relay_load m with
             | Some v => lower p (F32.mul (bounded_metric v (f 0) (f 1) (f 1)) (f 20)) (ReasonRelayLoad v)
             | None => p end in
    let stability := bounded_metric (stability m) (f 0) (f 1) (f 0) in
    let p := (F32.add p.1 (F32.mul stability (f 15)), p.2 ++ [ReasonStability stability]) in
    let p := lower p (F32.div (f (Z.min cost 10000)) (f 100)) (ReasonCost cost) in
    {| score_value := p.1; reasons := p.2 |}.

Record PeerPathKey : Type := { local : NodeId; remote : NodeId }.

(** ** Policy, health *)

Inductive TransportProtocol : Type := Any | IpInIp | Tcp | Udp | Sctp | Icmp | Ipv6Encap | Gre | Esp | Ah.

#[global] Instance TransportProtocol_eq_dec : EqDecision TransportProtocol.
Proof. solve_decision. Defined.

Inductive AclAction : Type := Allow | Deny.

Section WithNets.
Context {Net : IpNetOps}.

Record AclRule : Type := {
  acl_id : bytes;
  from_roles : list bytes;
  from_tags : list bytes;
  to_roles : list bytes;
  to_tags : list bytes;
  acl_routes : list IpNet;
  protocol : TransportProtocol;
  action : AclAction
}.

Record ClusterPolicy : Type := {
  allow_ipv6_direct : bool;
  allow_nat_traversal : bool;
  allow_relay_fallback : bool;
  idle_timeout_seconds : Z;
  overlay_block_size : Z;
  overlay_max_degree : Z;
  overlay_direct_shortcut_limit : Z;
  overlay_on_demand_peer_limit : Z;
  overlay_route_scopes : list IpNet;
  relay_health_ttl_seconds : Z;
  endpoint_candidate_ttl_seconds : Z;
  path_state_ttl_seconds : Z;
  path_quality_observation_ttl_seconds : Z;
  nat_classification_ttl_seconds : Z;
  nat_classification_min_confidence_percent : Z;
  pinned_roles : list bytes;
  pinned_tags : list bytes;
  acl_rules : list AclRule
}.

Definition default_policy : ClusterPolicy :=
  {| allow_ipv6_direct := true; allow_nat_traversal := true; allow_relay_fallback := true; idle_timeout_seconds := 300;
     overlay_block_size := 4; overlay_max_degree := 4; overlay_direct_shortcut_limit := 0; overlay_on_demand_peer_limit := 4;
     overlay_route_scopes := []; relay_health_ttl_seconds := 90; endpoint_candidate_ttl_seconds := 120;
     path_state_ttl_seconds := 600; path_quality_observation_ttl_seconds := 120; nat_classification_ttl_seconds := 300;
     nat_classification_min_confidence_percent := 50; pinned_roles := [bstr "control-plane"];
     pinned_tags := [bstr "kubernetes-control-plane"; bstr "route-provider"]; acl_rules := [] |}.

End WithNets.

Inductive HealthState : Type := Healthy | Degraded | Unhealthy.

#[global] Instance HealthState_eq_dec : EqDecision HealthState.
Proof. solve_decision. Defined.

Record NodeHealth : Type := {
  state : HealthState;
  last_seen_at : Z;
  health_latency_ms : option f32;
  health_relay_load : option f32;
  message : option bytes
}.

(** ** Rendezvous order of relays *)

Section Rendezvous.
Context `{DigestOps}.

Definition relay_pair_rendezvous_score (first second relay : NodeId) : bytes :=
  let '(first, second) := match kcmp first second with Gt => (second, first) | _ => (first, second) end in
  sha256 (bstr "heteronetwork-relay-pair-rendezvous-v1"
          ++ concat (map (fun node => be_bytes 8 (as_width 64 (lenZ node)) ++ node) [first; second; relay])).

Definition relay_pair_rendezvous_ordering (first second left_relay right_relay : NodeId) : comparison :=
  match kcmp (relay_pair_rendezvous_score first second right_relay) (relay_pair_rendezvous_score first second left_relay) with
  | Eq => kcmp left_relay right_relay
  | c => c
  end.

End Rendezvous.
End PathTypes.
