(* ===== verification/Signal.v ===== *)
(** * Path negotiation (crates/ipars-signal/src/lib.rs)

    What the signalling service answers when a node asks for a path to another one: access
    rules, the checks on what nodes report, the choice between direct paths and relays, and
    hole-punch plans. Times are nanoseconds. *)

From S2P Require Import Prelude RustStd Endpoints OverlayTypes BTree SortBy Hashing F32 Stun NatClass PathTypes.

(** The operations of the ipnet crate that build and bound networks. *)
Class IpNetBuildOps {Net : IpNetOps} : Type := {
  ipnet_broadcast : IpNet -> IpAddr;
  ipnet_new_assert : IpAddr -> Z -> IpNet
}.

Module Signal.
Import Endpoints PathTypes NatClass.

Definition SIGNAL_TIMESTAMP_MAX_FUTURE_SKEW_SECONDS : Z := 300.
Definition MAX_PATH_QUALITY_OBSERVATION_SAMPLES : Z := 64.
Definition SECOND : Z := 1000000000.

(** [now.signed_duration_since(t).to_std()] against a number of seconds: what is not in the
    past is fresh. *)
Definition fresh (ttl_seconds t now : Z) : bool := (now - t <? 0) || (now - t <=? ttl_seconds * SECOND).

Definition timestamp_not_after_skew (timestamp now max_skew_seconds : Z) : bool := timestamp <=? now + max_skew_seconds * SECOND.

(** The texts of the errors on reported data. *)
Inductive observation_error : Type :=
  | MetricInvalid (field : metric_field) | RelayLoadGiven | SampleCountRange | TooManySuccesses | LossMismatch (expected : Z)
  | MetricsWithoutSuccess | OneSampleMetrics | ManySamplesMetrics | DirectWithRelay | DirectWithoutCandidate
  | CandidateNotOfTarget | CandidateKindMismatch | CandidateKindAddress (reason : KindAddressError) | CandidateUnusable
  | RelayWithCandidate | RelayWithoutNode | RelayIsEndpoint | UnreachableObserved | ObservedInFuture.

Inductive nat_error : Type :=
  | PublicStateUnsupported | LocalUnusable | ObservedUnusable | ProbeLocalUnusable | ProbeServerUnusable | ProbeReflexiveUnusable
  | FilteringLocalUnusable | FilteringServerUnusable | FilteringOriginUnusable | FilteringOtherUnusable | AssessedInFuture
  | ConfidenceRange | ProbeInFuture | FilteringInFuture.

Inductive candidate_error : Type := KindAddress (reason : KindAddressError) | CandidateInFuture.
Inductive health_error : Type := SeenInFuture | LatencyRange | RelayLoadRange.
Inductive desired_error : Type := NotCanonical | RepeatsCidr | NotAdvertised.
Inductive route_error : Type :=
  | IdEmpty | IdTooLong | IdDots | IdCharacters | IdDuplicated | NotOwnRoute | MetricZero | CidrRestricted | CidrNotCanonical
  | CidrDuplicated.

Section WithNets.
Context {Net : IpNetOps} {Build : IpNetBuildOps} {Url : UrlOps} {Digest : DigestOps}.

Inductive SignalError : Type :=
  | NodeNotFound (id : NodeId)
  | CandidateOwnerMismatch (id candidate : NodeId)
  | CandidateInvalid (id : NodeId) (kind : EndpointCandidateKind) (addr : SocketAddr) (reason : candidate_error)
  | HealthInvalid (id : NodeId) (reason : health_error)
  | NatClassificationInvalid (id : NodeId) (reason : nat_error)
  | DesiredRouteInvalid (id : NodeId) (route : IpNet) (reason : desired_error)
  | RouteInvalid (id : NodeId) (route : bytes) (reason : route_error)
  | PathQualityObservationInvalid (source target : NodeId) (reason : observation_error).

(** ** Access rules *)

(** [ipnet_contains(outer, inner)] of this crate. *)
Definition net_contains (outer inner : IpNet) : bool :=
  eqb (ipnet_is_v4 outer) (ipnet_is_v4 inner)
  && ((ipnet_prefix_len outer <=? ipnet_prefix_len inner) && ipnet_contains outer (ipnet_addr inner)).

Definition intersects (l r : list bytes) : bool := existsb (fun x => bool_decide (x ∈ r)) l.

Definition acl_rule_matches (rule : AclRule) (source target : Overlay.NodeRecord) (route : option IpNet) : bool :=
  if negb (bool_decide (protocol rule = Any)) then false
  else if negb (bool_decide (from_roles rule = [])) && negb (bool_decide (Overlay.role source ∈ from_roles rule)) then false
  else if negb (bool_decide (to_roles rule = [])) && negb (bool_decide (Overlay.role target ∈ to_roles rule)) then false
  else if negb (bool_decide (from_tags rule = [])) && negb (intersects (from_tags rule) (Overlay.tags source)) then false
  else if negb (bool_decide (to_tags rule = [])) && negb (intersects (to_tags rule) (Overlay.tags target)) then false
  else match route with
       | Some route => bool_decide (acl_routes rule = []) || existsb (fun allowed => net_contains allowed route) (acl_routes rule)
       | None => bool_decide (acl_routes rule = [])
       end.

(** The loop of [acl_decision] over the rules, with the decision so far. *)
Fixpoint acl_loop (source target : Overlay.NodeRecord) (route : option IpNet) (allowed : option bool) (rules : list AclRule)
  : option bool :=
  match rules with
  | [] => allowed
  | rule :: rules =>
      if negb (acl_rule_matches rule source target route) then acl_loop source target route allowed rules
      else match action rule with
           | Deny => Some false
           | Allow => acl_loop source target route (Some true) rules
           end
  end.

Definition acl_decision (source target : Overlay.NodeRecord) (route : option IpNet) (policy : ClusterPolicy) : option bool :=
  acl_loop source target route None (acl_rules policy).

Definition acl_allows_peer (source target : Overlay.NodeRecord) (policy : ClusterPolicy) : bool :=
  if bool_decide (acl_rules policy = []) then true else default false (acl_decision source target None policy).

Definition acl_allows_path (source target : Overlay.NodeRecord) (desired_routes : list IpNet) (policy : ClusterPolicy) : bool :=
  if bool_decide (desired_routes = []) then acl_allows_peer source target policy
  else if bool_decide (acl_rules policy = []) then true
  else forallb (fun route => default false (acl_decision source target (Some route) policy)) desired_routes.

Definition acl_allows_hole_punch_plan (source target : Overlay.NodeRecord) (policy : ClusterPolicy) : bool :=
  acl_allows_peer source target policy
  || existsb (fun route => bool_decide (Overlay.advertised_by route = Overlay.node_id target)
                           && default false (acl_decision source target (Some (Overlay.cidr route)) policy))
       (Overlay.routes target).

(** ** Checks on reported data *)

(** [for x in l { f(x)?; }] *)
Fixpoint each {A} (f : A -> result unit SignalError) (l : list A) : result unit SignalError :=
  match l with
  | [] => Ok tt
  | x :: l => let? _ := f x in each f l
  end.

Definition validate_endpoint_candidates (id : NodeId) (candidates : list EndpointCandidate) (now : Z) : result unit SignalError :=
  match List.find (fun c => negb (bool_decide (candidate_node_id c = id))) candidates with
  | Some c => Err (CandidateOwnerMismatch id (candidate_node_id c))
  | None =>
      let invalid c := match validate_kind_address c with Err _ => true | Ok _ => false end in
      match List.find invalid candidates with
      | Some c => match validate_kind_address c with
                  | Err reason => Err (CandidateInvalid id (candidate_kind c) (candidate_addr c) (KindAddress reason))
                  | Ok _ => Ok tt
                  end
      | None =>
          match List.find (fun c => negb (timestamp_not_after_skew (observed_at c) now SIGNAL_TIMESTAMP_MAX_FUTURE_SKEW_SECONDS))
                  candidates with
          | Some c => Err (CandidateInvalid id (candidate_kind c) (candidate_addr c) CandidateInFuture)
          | None => Ok tt
          end
      end
  end.

Definition validate_health_report (id : NodeId) (h : NodeHealth) (now : Z) : result unit SignalError :=
  if negb (timestamp_not_after_skew (last_seen_at h) now SIGNAL_TIMESTAMP_MAX_FUTURE_SKEW_SECONDS)
  then Err (HealthInvalid id SeenInFuture)
  else if match health_latency_ms h with Some v => negb (F32.is_finite v) || F32.lt v F32.zero | None => false end
  then Err (HealthInvalid id LatencyRange)
  else if match health_relay_load h with
          | Some v => negb (F32.is_finite v) || negb (F32.within F32.zero F32.one v) | None => false end
  then Err (HealthInvalid id RelayLoadRange)
  else Ok tt.

Definition validate_nat_addr (id : NodeId) (addr : SocketAddr) (reason : nat_error) : result unit SignalError :=
  if endpoint_addr_is_usable addr then Ok tt else Err (NatClassificationInvalid id reason).

Definition validate_optional_nat_addr (id : NodeId) (addr : option SocketAddr) (reason : nat_error) : result unit SignalError :=
  match addr with Some addr => validate_nat_addr id addr reason | None => Ok tt end.

Definition validate_nat_classification (id : NodeId) (c : NatClassification) (now : Z) : result unit SignalError :=
  let in_future t := negb (timestamp_not_after_skew t now SIGNAL_TIMESTAMP_MAX_FUTURE_SKEW_SECONDS) in
  if negb (public_state_is_supported c) then Err (NatClassificationInvalid id PublicStateUnsupported)
  else
    let? _ := validate_nat_addr id (class_local_addr c) LocalUnusable in
    let? _ := validate_optional_nat_addr id (observed_endpoint c) ObservedUnusable in
    let? _ := each (fun o =>
                let? _ := validate_nat_addr id (Stun.local_addr o) ProbeLocalUnusable in
                let? _ := validate_nat_addr id (Stun.stun_server o) ProbeServerUnusable in
                validate_nat_addr id (Stun.reflexive_addr o) ProbeReflexiveUnusable) (class_observations c) in
    let? _ := each (fun o =>
                let? _ := validate_nat_addr id (Stun.filter_local_addr o) FilteringLocalUnusable in
                let? _ := validate_nat_addr id (Stun.filter_server o) FilteringServerUnusable in
                let? _ := validate_optional_nat_addr id (Stun.filter_origin o) FilteringOriginUnusable in
                validate_optional_nat_addr id (Stun.filter_other o) FilteringOtherUnusable) (filtering_observations c) in
    if in_future (assessed_at c) then Err (NatClassificationInvalid id AssessedInFuture)
    else if negb (F32.is_finite (confidence c)) || negb (F32.within F32.zero F32.one (confidence c))
    then Err (NatClassificationInvalid id ConfidenceRange)
    else if existsb (fun o => in_future (Stun.observed_at o)) (class_observations c)
    then Err (NatClassificationInvalid id ProbeInFuture)
    else if existsb (fun o => in_future (Stun.filter_observed_at o)) (filtering_observations c)
    then Err (NatClassificationInvalid id FilteringInFuture)
    else Ok tt.

(** The loop of [validate_desired_routes], with [seen_routes]. *)
Fixpoint desired_loop (target : Overlay.NodeRecord) (seen : list IpNet) (desired : list IpNet) : result unit SignalError :=
  match desired with
  | [] => Ok tt
  | route :: desired =>
      let invalid reason := Err (DesiredRouteInvalid (Overlay.node_id target) route reason) in
      if negb (bool_decide (route = ipnet_trunc route)) then invalid NotCanonical
      else if bool_decide (route ∈ seen) then invalid RepeatsCidr
      else if negb (existsb (fun advertised => bool_decide (Overlay.advertised_by advertised = Overlay.node_id target)
                                               && net_contains (Overlay.cidr advertised) route) (Overlay.routes target))
      then invalid NotAdvertised
      else desired_loop target (route :: seen) desired
  end.

Definition validate_desired_routes (target : Overlay.NodeRecord) (desired : list IpNet) : result unit SignalError :=
  desired_loop target [] desired.

Definition route_id_byte (b : byte) : bool :=
  is_ascii_alphanumeric b || bool_decide (b ∈ [x2e; x5f; x2d; x3a]).

Definition validate_signal_route_id (id : NodeId) (route_id : bytes) : result unit SignalError :=
  let invalid reason := Err (RouteInvalid id route_id reason) in
  if bool_decide (route_id = []) then invalid IdEmpty
  else if 128 <? lenZ route_id then invalid IdTooLong
  else if bool_decide (route_id ∈ [[x2e]; [x2e; x2e]]) then invalid IdDots
  else if negb (forallb route_id_byte route_id) then invalid IdCharacters
  else Ok tt.

(** [ipv4_cidrs_overlap] and [ipv6_cidrs_overlap] *)
Definition cidrs_overlap (l r : IpNet) : bool :=
  ipnet_contains l (ipnet_network r) || ipnet_contains l (ipnet_broadcast r)
  || ipnet_contains r (ipnet_network l) || ipnet_contains r (ipnet_broadcast l).

Definition restricted_v4 : list IpNet :=
  map (fun '(a, p) => ipnet_new_assert (IpV4 a) p)
    [(0, 8); (0x7F000000, 8); (0xA9FE0000, 16); (0xE0000000, 4); (0xFFFFFFFF, 32)].

Definition restricted_v6 : list IpNet :=
  map (fun '(a, p) => ipnet_new_assert (IpV6 a) p)
    [(0, 128); (1, 128); (0xFE800000000000000000000000000000, 10); (0xFF000000000000000000000000000000, 8)].

(** [restricted_advertised_route_cidr_reason(cidr).is_some()] *)
Definition route_cidr_restricted (cidr : IpNet) : bool :=
  (ipnet_prefix_len cidr =? 0)
  || existsb (cidrs_overlap cidr) (if ipnet_is_v4 cidr then restricted_v4 else restricted_v6).

Fixpoint routes_loop (id : NodeId) (seen_ids : list bytes) (seen_cidrs : list IpNet) (routes : list Overlay.Route)
  : result unit SignalError :=
  match routes with
  | [] => Ok tt
  | route :: routes =>
      let invalid reason := Err (RouteInvalid id (Overlay.route_id route) reason) in
      let? _ := validate_signal_route_id id (Overlay.route_id route) in
      if bool_decide (Overlay.route_id route ∈ seen_ids) then invalid IdDuplicated
      else if negb (bool_decide (Overlay.advertised_by route = id)) then invalid NotOwnRoute
      else if Overlay.metric route =? 0 then invalid MetricZero
      else if route_cidr_restricted (Overlay.cidr route) then invalid CidrRestricted
      else if negb (bool_decide (Overlay.cidr route = ipnet_trunc (Overlay.cidr route))) then invalid CidrNotCanonical
      else if bool_decide (Overlay.cidr route ∈ seen_cidrs) then invalid CidrDuplicated
      else routes_loop id (Overlay.route_id route :: seen_ids) (Overlay.cidr route :: seen_cidrs) routes
  end.

Definition validate_signal_routes (id : NodeId) (routes : list Overlay.Route) : result unit SignalError :=
  routes_loop id [] [] routes.

(** The part of [validate_path_quality_observation] on the samples. *)
Definition validate_samples (m : PathMetrics) (samples successes : Z) : result unit observation_error :=
  if (samples =? 0) || (MAX_PATH_QUALITY_OBSERVATION_SAMPLES <? samples) then Err SampleCountRange
  else if samples <? successes then Err TooManySuccesses
  else
    let expected_loss_ppm := as_width 32 ((samples - successes) * 1000000 / samples) in
    if negb (loss_ppm m =? expected_loss_ppm) then Err (LossMismatch expected_loss_ppm)
    else
      let latency := bool_decide (is_Some (latency_ms m)) in
      let jitter := bool_decide (is_Some (jitter_ms m)) in
      if successes =? 0 then if latency || jitter then Err MetricsWithoutSuccess else Ok tt
      else if successes =? 1 then if negb latency || jitter then Err OneSampleMetrics else Ok tt
      else if negb latency || negb jitter then Err ManySamplesMetrics else Ok tt.

(** The part on the path that was observed. *)
Definition validate_observed_path (source target : NodeId) (o : PathQualityObservation) : result unit observation_error :=
  if is_direct (selected_state o) then
    if bool_decide (is_Some (relay_node o)) then Err DirectWithRelay
    else
      let? c := ok_or (selected_candidate o) DirectWithoutCandidate in
      if negb (bool_decide (candidate_node_id c = target)) then Err CandidateNotOfTarget
      else if negb (allows_selected_candidate_kind (selected_state o) (candidate_kind c)) then Err CandidateKindMismatch
      else
        let? _ := map_err CandidateKindAddress (validate_kind_address c) in
        if negb (endpoint_addr_is_usable (candidate_addr c)) then Err CandidateUnusable else Ok tt
  else match selected_state o with
       | RelayPath =>
           if bool_decide (is_Some (selected_candidate o)) then Err RelayWithCandidate
           else
             let? relay := ok_or (relay_node o) RelayWithoutNode in
             if bool_decide (relay = source) || bool_decide (relay = target) then Err RelayIsEndpoint else Ok tt
       | _ => Err UnreachableObserved
       end.

Definition validate_path_quality_observation (source target : NodeId) (o : PathQualityObservation) (now : Z)
  : result unit SignalError :=
  map_err (PathQualityObservationInvalid source target)
    (let? _ := map_err MetricInvalid (validate_metrics (metrics o)) in
     if bool_decide (is_Some (relay_load (metrics o))) then Err RelayLoadGiven
     else
       let? _ := validate_samples (metrics o) (sample_count o) (successful_sample_count o) in
       let? _ := validate_observed_path source target o in
       if now + SIGNAL_TIMESTAMP_MAX_FUTURE_SKEW_SECONDS * SECOND <? quality_observed_at o then Err ObservedInFuture else Ok tt).

(** ** Freshness *)

Definition nat_classification_is_fresh (c : NatClassification) (now ttl_seconds : Z) : bool := fresh ttl_seconds (assessed_at c) now.

Definition fresh_stored_nat_classification (stored requested : option NatClassification) (now ttl_seconds : Z)
  : option NatClassification :=
  let keep c := c ≫= (fun c => if nat_classification_is_fresh c now ttl_seconds then Some c else None) in
  match keep stored with Some c => Some c | None => keep requested end.

Definition endpoint_candidate_is_fresh (c : EndpointCandidate) (now ttl_seconds : Z) : bool := fresh ttl_seconds (observed_at c) now.

Definition fresh_endpoint_candidates (candidates : list EndpointCandidate) (now ttl_seconds : Z) : list EndpointCandidate :=
  List.filter (fun c => endpoint_candidate_is_fresh c now ttl_seconds && endpoint_addr_is_usable (candidate_addr c)) candidates.

Definition path_quality_observation_is_fresh (o : PathQualityObservation) (now ttl_seconds : Z) : bool :=
  fresh ttl_seconds (quality_observed_at o) now.

Definition health_report_is_fresh (h : NodeHealth) (now ttl_seconds : Z) : bool := fresh ttl_seconds (last_seen_at h) now.

Definition relay_health_allows (h : option NodeHealth) (now ttl_seconds : Z) : bool :=
  match h with
  | None => false
  | Some h => bool_decide (state h = Healthy) && health_report_is_fresh h now ttl_seconds
  end.

Definition eligible (n : Overlay.NodeRecord) : bool :=
  match Overlay.relay_capability n with Some c => Overlay.is_eligible_relay c | None => false end.

Definition relay_candidate_allowed (n : Overlay.NodeRecord) (h : option NodeHealth) (now : Z) (policy : ClusterPolicy) : bool :=
  eligible n && relay_health_allows h now (relay_health_ttl_seconds policy).

(** ** NAT traversal *)

Definition nat_classification_meets_confidence (c : NatClassification) (min_confidence_percent : Z) : bool :=
  F32.is_finite (confidence c) && F32.le (F32.of_Z min_confidence_percent) (F32.mul (confidence c) (F32.of_Z 100)).

Definition nat_classification_allows_hole_punch (c : option NatClassification) (min_confidence_percent : Z) : bool :=
  match c with
  | None => true
  | Some c =>
      if bool_decide (strategy c = InsufficientData) then true
      else if negb (nat_classification_meets_confidence c min_confidence_percent) then false
      else match strategy c with DirectCandidate | CoordinatedHolePunch => true | _ => false end
  end.

Definition nat_classifications_allow_hole_punch (source target : option NatClassification) (min_confidence_percent : Z) : bool :=
  nat_classification_allows_hole_punch source min_confidence_percent
  && nat_classification_allows_hole_punch target min_confidence_percent.

Definition nat_classification_hole_punch_suppression_strategy (c : option NatClassification) (min_confidence_percent : Z)
  : option NatTraversalStrategy :=
  c ≫= fun c => if nat_classification_allows_hole_punch (Some c) min_confidence_percent then None else Some (strategy c).

(** [candidates.iter().any(kind == k && ..)] *)
Definition has_kind (k : EndpointCandidateKind) (candidates : list EndpointCandidate) : bool :=
  existsb (fun c => bool_decide (candidate_kind c = k)) candidates.

Definition routable_kind (k : EndpointCandidateKind) (c : EndpointCandidate) : bool :=
  bool_decide (candidate_kind c = k) && socket_addr_is_globally_routable (candidate_addr c).

Definition public_source_can_reach_port_stable_nat_target (source target : list EndpointCandidate)
    (target_nat : option NatClassification) (min_confidence_percent : Z) : bool :=
  existsb (routable_kind PublicUdp) source
  && existsb (routable_kind StunReflexive) target
  && match target_nat with
     | Some c => nat_classification_meets_confidence c min_confidence_percent
                 && bool_decide (mapping_behavior c = MappingEndpointIndependent)
     | None => false
     end.

Definition local_udp_candidates_share_private_subnet (source target : list EndpointCandidate) : bool :=
  existsb (fun s =>
    bool_decide (candidate_kind s = LocalUdp) && endpoint_addr_is_usable (candidate_addr s)
    && existsb (fun t =>
         bool_decide (candidate_kind t = LocalUdp) && endpoint_addr_is_usable (candidate_addr t)
         && private_ip_addrs_share_subnet (socket_ip (candidate_addr s)) (socket_ip (candidate_addr t))) target) source.

(** ** Choosing a path *)

Definition preferred_state (policy : ClusterPolicy) (source : list EndpointCandidate) (source_nat : option NatClassification)
    (target : list EndpointCandidate) (target_nat : option NatClassification) : PathState :=
  let min_confidence := nat_classification_min_confidence_percent policy in
  if allow_ipv6_direct policy && has_kind Ipv6 source && has_kind Ipv6 target then DirectIpv6
  else if has_kind PublicUdp target then DirectPublic
  else if allow_nat_traversal policy && local_udp_candidates_share_private_subnet source target then DirectNatTraversal
  else if allow_nat_traversal policy && public_source_can_reach_port_stable_nat_target source target target_nat min_confidence
  then DirectNatTraversal
  else if allow_nat_traversal policy && existsb (routable_kind StunReflexive) source && existsb (routable_kind StunReflexive) target
          && nat_classifications_allow_hole_punch source_nat target_nat min_confidence
  then DirectNatTraversal
  else Unreachable.

(** [Iterator::min_by]: the first of the least elements. *)
Definition min_by {A} (cmp : A -> A -> comparison) (l : list A) : option A :=
  foldl (fun least x => match least with
                        | None => Some x
                        | Some y => match cmp y x with Gt => Some x | _ => Some y end
                        end) None l.

Definition candidate_cmp (l r : EndpointCandidate) : comparison :=
  match cost l ?= cost r with Eq => priority r ?= priority l | c => c end.

Definition selected_target_candidate (s : PathState) (target : list EndpointCandidate) : option EndpointCandidate :=
  min_by candidate_cmp (List.filter (fun c => allows_selected_candidate_kind s (candidate_kind c)) target).

Definition endpoint_candidate_identity_matches (l r : EndpointCandidate) : bool :=
  bool_decide (candidate_node_id l = candidate_node_id r) && bool_decide (candidate_kind l = candidate_kind r)
  && bool_decide (candidate_addr l = candidate_addr r).

Definition matching_path_observation_metrics (s : PathState) (target : list EndpointCandidate) (relays : list Overlay.NodeRecord)
    (observation : option PathQualityObservation) (now ttl_seconds : Z) : option PathMetrics :=
  o ← observation;
  if negb (bool_decide (selected_state o = s)) || negb (path_quality_observation_is_fresh o now ttl_seconds) then None
  else
    let matches_path :=
      if is_direct s then
        match selected_target_candidate s target, selected_candidate o with
        | Some selected, Some observed => endpoint_candidate_identity_matches selected observed
        | _, _ => false
        end
      else if bool_decide (s = RelayPath) then
        match relays with relay :: _ => bool_decide (relay_node o = Some (Overlay.node_id relay)) | [] => false end
      else false in
    if matches_path then Some (metrics o) else None.

Definition endpoint_kind_min_cost (candidates : list EndpointCandidate) (kind : EndpointCandidateKind) : Z :=
  default 0 (min_by Z.compare (map cost (List.filter (fun c => bool_decide (candidate_kind c = kind)) candidates))).

Definition path_candidate_cost (s : PathState) (source target : list EndpointCandidate) : Z :=
  match s with
  | DirectIpv6 => saturating_add 32 (endpoint_kind_min_cost source Ipv6) (endpoint_kind_min_cost target Ipv6)
  | DirectPublic => endpoint_kind_min_cost target PublicUdp
  | DirectNatTraversal =>
      saturating_add 32 (endpoint_kind_min_cost source StunReflexive) (endpoint_kind_min_cost target StunReflexive)
  | RelayPath | Unreachable => 0
  end.

Record SignalPathRequest : Type := {
  request_source : NodeId;
  request_target : NodeId;
  source_candidates : list EndpointCandidate;
  source_nat_classification : option NatClassification;
  desired_routes : list IpNet
}.

Record SignalPathResponse : Type := {
  key : PeerPathKey;
  target_candidates : list EndpointCandidate;
  relay_candidates : list Overlay.NodeRecord;
  response_state : PathState;
  score : PathScore
}.

(** The relays a pair of nodes may use, in the order it tries them. *)
Definition ordered_relays (source target : NodeId) (relays : list Overlay.NodeRecord) : list Overlay.NodeRecord :=
  sort_by (fun l r => relay_pair_rendezvous_ordering source target (Overlay.node_id l) (Overlay.node_id r))
    (List.filter (fun relay => negb (bool_decide (Overlay.node_id relay = source)) && negb (bool_decide (Overlay.node_id relay = target))
                               && eligible relay) relays).

Definition first_relay_load (relays : list Overlay.NodeRecord) : option f32 :=
  relay ← head relays;
  c ← Overlay.relay_capability relay;
  Some (if Overlay.max_sessions c =? 0 then F32.one
        else F32.div (F32.of_Z (Overlay.active_sessions c)) (F32.of_Z (Overlay.max_sessions c))).

(** [SignalCoordinator::negotiate_with_observation] *)
Definition coordinate (policy : ClusterPolicy) (request : SignalPathRequest) (target : Overlay.NodeRecord)
    (target_nat : option NatClassification) (relays : list Overlay.NodeRecord) (observation : option PathQualityObservation) (now : Z)
  : SignalPathResponse :=
  let source_candidates := fresh_endpoint_candidates (source_candidates request) now (endpoint_candidate_ttl_seconds policy) in
  let target_candidates := fresh_endpoint_candidates (Overlay.endpoint_candidates target) now (endpoint_candidate_ttl_seconds policy) in
  let preferred := preferred_state policy source_candidates (source_nat_classification request) target_candidates target_nat in
  let relay_candidates := ordered_relays (request_source request) (request_target request) relays in
  let usable_state :=
    if bool_decide (preferred = Unreachable) && allow_relay_fallback policy && negb (bool_decide (relay_candidates = []))
    then RelayPath else preferred in
  let metrics := default default_metrics
    (matching_path_observation_metrics usable_state target_candidates relay_candidates observation now
       (path_quality_observation_ttl_seconds policy)) in
  let metrics := {| latency_ms := latency_ms metrics; loss_ppm := loss_ppm metrics; jitter_ms := jitter_ms metrics;
                    relay_load := first_relay_load relay_candidates; stability := stability metrics |} in
  {| key := {| local := request_source request; remote := request_target request |};
     target_candidates := target_candidates; relay_candidates := relay_candidates; response_state := usable_state;
     score := calculate usable_state metrics true (path_candidate_cost usable_state source_candidates target_candidates) |}.

Definition acl_denied_signal_path_response (request : SignalPathRequest) : SignalPathResponse :=
  {| key := {| local := request_source request; remote := request_target request |};
     target_candidates := []; relay_candidates := []; response_state := Unreachable;
     score := calculate Unreachable default_metrics false 0 |}.

(** ** Hole punching *)

Record HolePunchPlan : Type := {
  source_reflexive : option EndpointCandidate;
  target_reflexive : option EndpointCandidate;
  start_after_millis : Z;
  expires_at : Z
}.

Definition punch_plan (policy : ClusterPolicy) (source : list EndpointCandidate) (source_nat : option NatClassification)
    (target : list EndpointCandidate) (target_nat : option NatClassification) (now : Z) : HolePunchPlan :=
  let ttl := endpoint_candidate_ttl_seconds policy in
  if negb (nat_classifications_allow_hole_punch source_nat target_nat (nat_classification_min_confidence_percent policy))
  then {| source_reflexive := None; target_reflexive := None; start_after_millis := 50; expires_at := now + 5 * SECOND |}
  else {| source_reflexive := List.find (routable_kind StunReflexive) (fresh_endpoint_candidates source now ttl);
          target_reflexive := List.find (routable_kind StunReflexive) (fresh_endpoint_candidates target now ttl);
          start_after_millis := 50; expires_at := now + 5 * SECOND |}.

(** ** Access decisions *)

Definition rule_hits (source target : Overlay.NodeRecord) (route : option IpNet) (a : AclAction) (rule : AclRule) : bool :=
  acl_rule_matches rule source target route && match a, action rule with Allow, Allow | Deny, Deny => true | _, _ => false end.

Lemma acl_loop_spec source target route allowed rules :
  acl_loop source target route allowed rules =
    if existsb (rule_hits source target route Deny) rules then Some false
    else if existsb (rule_hits source target route Allow) rules then Some true else allowed.
Proof.
  revert allowed. induction rules as [|rule rules IH]; intros allowed; [done|]. cbn [acl_loop existsb].
  unfold rule_hits at 1 3. destruct (acl_rule_matches _ _ _ _); cbn [negb andb orb]; [|apply IH].
  destruct (action rule); [|done]. rewrite IH. cbn [orb]. by repeat case_match.
Qed.

(** A deny rule that matches decides, whatever the order of the rules; otherwise an allow
    rule that matches does. *)
Theorem acl_deny_overrides source target route policy policy' :
  acl_rules policy ≡ₚ acl_rules policy' ->
  acl_decision source target route policy = acl_decision source target route policy' /\
  (acl_decision source target route policy = Some false <-> Exists (rule_hits source target route Deny) (acl_rules policy)) /\
  (acl_decision source target route policy = Some true <->
     Exists (rule_hits source target route Allow) (acl_rules policy) /\
     ~ Exists (rule_hits source target route Deny) (acl_rules policy)).
Proof.
  intros Hp. unfold acl_decision. rewrite !acl_loop_spec.
  assert (forall f, existsb f (acl_rules policy) = existsb f (acl_rules policy')) as E.
  { intros f. apply eq_true_iff_eq. rewrite !existsb_exists. setoid_rewrite <- list_elem_of_In. by setoid_rewrite Hp. }
  rewrite !E. split; [done|]. assert (forall f, existsb f (acl_rules policy') = true <-> Exists f (acl_rules policy)) as X.
  { intros f. rewrite <- E, existsb_exists, Exists_exists. setoid_rewrite <- list_elem_of_In.
    split; intros (x & ? & ?); exists x; (split; [done|]); by apply Is_true_true. }
  rewrite <- !X. destruct (existsb _ _), (existsb _ _); naive_solver.
Qed.

(** ** Candidates *)

Lemma min_by_fold {A} (cmp : A -> A -> comparison) l acc : acc <> None \/ l <> [] ->
  exists x, foldl (fun least x => match least with
              | None => Some x
              | Some y => match cmp y x with Gt => Some x | _ => Some y end
              end) acc l = Some x /\ (x ∈ l \/ acc = Some x).
Proof.
  revert acc. induction l as [|y l IH]; intros acc H; cbn [foldl].
  { destruct acc as [x|]; [|naive_solver]. exists x. auto. }
  destruct (IH (match acc with None => Some y | Some z => match cmp z y with Gt => Some y | _ => Some z end end)) as (x & -> & Hx).
  { left. repeat case_match; done. }
  exists x. split; [done|]. destruct Hx as [Hx|Hx]; [left; by right|]. destruct acc as [z|]; [|simplify_eq; left; by left].
  destruct (cmp z y); simplify_eq; auto; left; by left.
Qed.

Lemma min_by_elem {A} (cmp : A -> A -> comparison) l : l <> [] -> exists x, min_by cmp l = Some x /\ x ∈ l.
Proof. intros H. destruct (min_by_fold cmp l None) as (x & E & [Hx|Hx]); [by right|by exists x|done]. Qed.

Lemma fresh_candidates_elem c candidates now ttl :
  c ∈ fresh_endpoint_candidates candidates now ttl <->
  c ∈ candidates /\ endpoint_candidate_is_fresh c now ttl = true /\ endpoint_addr_is_usable (candidate_addr c) = true.
Proof.
  unfold fresh_endpoint_candidates. rewrite list_elem_of_In, filter_In, <- list_elem_of_In, andb_true_iff. done.
Qed.

(** A state that is preferred can be dialled: there is a candidate of a kind it allows. *)
Lemma preferred_has_candidate policy source source_nat target target_nat s :
  preferred_state policy source source_nat target target_nat = s -> s <> Unreachable ->
  is_direct s = true /\ exists c, c ∈ target /\ allows_selected_candidate_kind s (candidate_kind c) = true.
Proof.
  assert (forall k s, has_kind k target = true -> allows_selected_candidate_kind s k = true ->
    exists c, c ∈ target /\ allows_selected_candidate_kind s (candidate_kind c) = true) as K.
  { intros k s' (c & Hc & <-%bool_decide_eq_true)%existsb_exists Hs. exists c. by rewrite list_elem_of_In. }
  assert (existsb (routable_kind StunReflexive) target = true ->
    exists c, c ∈ target /\ allows_selected_candidate_kind DirectNatTraversal (candidate_kind c) = true) as R.
  { intros (c & Hc & [E%bool_decide_eq_true _]%andb_true_iff)%existsb_exists. exists c. rewrite list_elem_of_In, E. done. }
  unfold preferred_state. intros <- Hne. destruct (allow_ipv6_direct policy && _ && _) eqn:E1.
  { apply andb_true_iff in E1 as [_ E1]. split; [done|]. by eapply K. }
  destruct (has_kind PublicUdp target) eqn:E2; [split; [done|]; by eapply K|].
  destruct (allow_nat_traversal policy && _) eqn:E3.
  { apply andb_true_iff in E3 as [_ (x & _ & [_ (c & Hc & H)%existsb_exists]%andb_true_iff)%existsb_exists].
    rewrite !andb_true_iff, bool_decide_eq_true in H. destruct H as [[H _] _].
    split; [done|]. exists c. rewrite list_elem_of_In, H. done. }
  destruct (allow_nat_traversal policy && public_source_can_reach_port_stable_nat_target _ _ _ _) eqn:E4.
  { split; [done|]. apply R. unfold public_source_can_reach_port_stable_nat_target in E4. rewrite !andb_true_iff in E4. tauto. }
  destruct (_ && _) eqn:E5 in Hne; [|done]. rewrite E5. split; [done|]. apply R. rewrite !andb_true_iff in E5. tauto.
Qed.

Lemma selected_candidate_spec s target c :
  selected_target_candidate s target = Some c -> c ∈ target /\ allows_selected_candidate_kind s (candidate_kind c) = true.
Proof.
  unfold selected_target_candidate. set (l := List.filter _ _). intros H.
  destruct (decide (l = [])) as [E|E]; [by rewrite E in H|]. destruct (min_by_elem candidate_cmp l E) as (c' & H' & Hin).
  rewrite H' in H. simplify_eq. unfold l in Hin. rewrite list_elem_of_In, filter_In, <- list_elem_of_In in Hin. done.
Qed.

Lemma selected_candidate_exists s target c :
  c ∈ target -> allows_selected_candidate_kind s (candidate_kind c) = true -> is_Some (selected_target_candidate s target).
Proof.
  intros Hc Ha. unfold selected_target_candidate. set (l := List.filter _ _).
  destruct (min_by_elem candidate_cmp l) as (x & -> & _); [|by eexists]. intros E.
  assert (c ∈ l) as H by (unfold l; rewrite list_elem_of_In, filter_In, <- list_elem_of_In; done).
  rewrite E in H. by apply not_elem_of_nil in H.
Qed.

(** ** Relays *)

Lemma rendezvous_score_sym a b relay : relay_pair_rendezvous_score a b relay = relay_pair_rendezvous_score b a relay.
Proof.
  unfold relay_pair_rendezvous_score. rewrite (kcmp_flip a b). destruct (kcmp a b) eqn:E; try done.
  apply kcmp_eq in E as ->. done.
Qed.

Lemma rendezvous_sym a b l r : relay_pair_rendezvous_ordering a b l r = relay_pair_rendezvous_ordering b a l r.
Proof. unfold relay_pair_rendezvous_ordering. by rewrite !(rendezvous_score_sym a b). Qed.

Lemma ordered_relays_elem source target relays n :
  n ∈ ordered_relays source target relays <->
  n ∈ relays /\ Overlay.node_id n <> source /\ Overlay.node_id n <> target /\ eligible n = true.
Proof.
  unfold ordered_relays. rewrite elem_of_sort_by, list_elem_of_In, filter_In, <- list_elem_of_In, !andb_true_iff,
    !negb_true_iff, !bool_decide_eq_false. tauto.
Qed.

(** Two nodes try the same relays in the same order. *)
Lemma ordered_relays_sym a b relays : ordered_relays a b relays = ordered_relays b a relays.
Proof.
  unfold ordered_relays. rewrite (sort_by_ext _ (fun l r => relay_pair_rendezvous_ordering b a (Overlay.node_id l) (Overlay.node_id r)))
    by (intros; apply rendezvous_sym).
  f_equal. apply filter_ext. intros n. by rewrite (andb_comm (negb (bool_decide (Overlay.node_id n = a)))).
Qed.

End WithNets.
End Signal.
