(* ===== verification/SignalRegistry.v ===== *)
(** * The signalling registry (crates/ipars-signal/src/lib.rs)

    The nodes, NAT classifications and health reports the service stores, each map under its
    own lock, and the two queries it answers from them. An update writes the maps one after
    the other and a query reads them one after the other, so updates and queries are given as
    the single accesses that other tasks may come between. *)

From S2P Require Import Prelude RustStd Endpoints OverlayTypes BTree SortBy Hashing F32 Stun NatClass PathTypes Signal Instances.

Module Registry.
Import Endpoints PathTypes NatClass Signal.

(** The counters of the registry. *)
Inductive SignalCounter : Type :=
  | node_upserts | path_negotiations | path_acl_denials | relay_candidate_acl_denials
  | path_quality_observation_accepted | path_quality_observation_stale | path_quality_observation_path_mismatch
  | path_quality_observation_rejected | negotiations (s : PathState) | hole_punch_plans | hole_punch_acl_denials
  | hole_punch_nat_suppressions | hole_punch_nat_suppression (s : NatTraversalStrategy).

Section WithNets.
Context {Net : IpNetOps} {Build : IpNetBuildOps} {Url : UrlOps} {Digest : DigestOps}.

Record SignalRegistry : Type := {
  policy : ClusterPolicy;
  nodes : btree NodeId Overlay.NodeRecord;
  nat_classifications : btree NodeId NatClassification;
  health : btree NodeId NodeHealth
}.

Definition new (policy : ClusterPolicy) : SignalRegistry :=
  {| policy := policy; nodes := []; nat_classifications := []; health := [] |}.

(** ** Updates *)

(** One access under the write lock of a map. *)
Inductive Write : Type :=
  | PutNat (id : NodeId) (c : NatClassification) | DropNat (id : NodeId)
  | PutHealth (id : NodeId) (h : NodeHealth) | DropHealth (id : NodeId)
  | PutNode (id : NodeId) (n : Overlay.NodeRecord) | DropNode (id : NodeId).

Definition with_nodes s ns := {| policy := policy s; nodes := ns; nat_classifications := nat_classifications s; health := health s |}.
Definition with_nat s cs := {| policy := policy s; nodes := nodes s; nat_classifications := cs; health := health s |}.
Definition with_health s hs := {| policy := policy s; nodes := nodes s; nat_classifications := nat_classifications s; health := hs |}.

Definition apply_write (w : Write) (s : SignalRegistry) : SignalRegistry :=
  match w with
  | PutNat id c => with_nat s (bt_insert id c (nat_classifications s))
  | DropNat id => with_nat s (bt_remove id (nat_classifications s))
  | PutHealth id h => with_health s (bt_insert id h (health s))
  | DropHealth id => with_health s (bt_remove id (health s))
  | PutNode id n => with_nodes s (bt_insert id n (nodes s))
  | DropNode id => with_nodes s (bt_remove id (nodes s))
  end.

Definition normalize_relay_capability (n : Overlay.NodeRecord) : Overlay.NodeRecord :=
  if eligible n then n
  else {| Overlay.node_id := Overlay.node_id n; Overlay.display_name := Overlay.display_name n;
          Overlay.hostname := Overlay.hostname n; Overlay.cluster_id := Overlay.cluster_id n; Overlay.vpn_ip := Overlay.vpn_ip n;
          Overlay.identity_public_key := Overlay.identity_public_key n;
          Overlay.wireguard_public_key := Overlay.wireguard_public_key n; Overlay.role := Overlay.role n;
          Overlay.tags := Overlay.tags n; Overlay.endpoint_candidates := Overlay.endpoint_candidates n;
          Overlay.relay_capability := None; Overlay.token_policy := Overlay.token_policy n; Overlay.routes := Overlay.routes n;
          Overlay.registered_at := Overlay.registered_at n |}.

(** [upsert_node_with_nat_and_health]: the writes of an accepted update, in order, and the
    record it answers with. *)
Definition upsert_node_with_nat_and_health (node : Overlay.NodeRecord) (nat : option NatClassification) (report : option NodeHealth)
    (now : Z) : result (list Write * Overlay.NodeRecord) SignalError :=
  let id := Overlay.node_id node in
  let? _ := validate_signal_routes id (Overlay.routes node) in
  let? _ := validate_endpoint_candidates id (Overlay.endpoint_candidates node) now in
  let? _ := match report with Some h => validate_health_report id h now | None => Ok tt end in
  let? _ := match nat with Some c => validate_nat_classification id c now | None => Ok tt end in
  let node := normalize_relay_capability node in
  Ok ([match nat with Some c => PutNat id c | None => DropNat id end;
       match report with Some h => PutHealth id h | None => DropHealth id end;
       PutNode id node], node).

(** [remove_node] *)
Definition remove_node (id : NodeId) : list Write := [DropNat id; DropHealth id; DropNode id].

(** ** Queries *)

Definition get_node (s : SignalRegistry) (id : NodeId) : option Overlay.NodeRecord := bt_get id (nodes s).

Definition relay_candidates_at (s : SignalRegistry) (now : Z) : list Overlay.NodeRecord :=
  List.filter (fun n => relay_candidate_allowed n (bt_get (Overlay.node_id n) (health s)) now (policy s)) (bt_values (nodes s)).

(** [record_path_quality_observation_result] *)
Definition observation_counters (policy : ClusterPolicy) (observation : option PathQualityObservation) (response : SignalPathResponse)
    (now : Z) : list SignalCounter :=
  match observation with
  | None => []
  | Some o =>
      let ttl := path_quality_observation_ttl_seconds policy in
      if negb (path_quality_observation_is_fresh o now ttl) then [path_quality_observation_stale]
      else match matching_path_observation_metrics (response_state response) (target_candidates response) (relay_candidates response)
                   (Some o) now ttl with
           | Some _ => [path_quality_observation_accepted]
           | None => [path_quality_observation_path_mismatch]
           end
  end.

(** The registry at the four accesses of a negotiation, and the two readings of the clock. *)
Record Views : Type := {
  at_source : SignalRegistry;
  at_target : SignalRegistry;
  at_nat : SignalRegistry;
  at_relays : SignalRegistry;
  now : Z;
  relays_now : Z
}.

Definition with_source_nat (request : SignalPathRequest) (nat : option NatClassification) : SignalPathRequest :=
  {| request_source := request_source request; request_target := request_target request;
     source_candidates := source_candidates request; source_nat_classification := nat; desired_routes := desired_routes request |}.

(** [negotiate_with_observation] of the registry: what it counts and its result. *)
Definition negotiate (v : Views) (request : SignalPathRequest) (observation : option PathQualityObservation)
  : list SignalCounter * result SignalPathResponse SignalError :=
  let source := request_source request in
  let target := request_target request in
  match get_node (at_source v) source with
  | None => ([path_negotiations], Err (NodeNotFound source))
  | Some source_node =>
  match (let? _ := validate_endpoint_candidates source (source_candidates request) (now v) in
         match source_nat_classification request with
         | Some c => validate_nat_classification source c (now v) | None => Ok tt end) with
  | Err e => ([path_negotiations], Err e)
  | Ok _ =>
  match get_node (at_target v) target with
  | None => ([path_negotiations], Err (NodeNotFound target))
  | Some target_node =>
  match match observation with Some o => validate_path_quality_observation source target o (now v) | None => Ok tt end with
  | Err e => ([path_negotiations; path_quality_observation_rejected], Err e)
  | Ok _ =>
  match validate_desired_routes target_node (desired_routes request) with
  | Err e => ([path_negotiations], Err e)
  | Ok _ =>
      let p := policy (at_source v) in
      if negb (acl_allows_path source_node target_node (desired_routes request) p) then
        let response := acl_denied_signal_path_response request in
        ([path_negotiations; path_acl_denials] ++ observation_counters p observation response (now v)
           ++ [negotiations (response_state response)], Ok response)
      else
        let ttl := nat_classification_ttl_seconds p in
        let source_nat := fresh_stored_nat_classification (bt_get source (nat_classifications (at_nat v)))
                            (source_nat_classification request) (now v) ttl in
        let target_nat := bt_get target (nat_classifications (at_nat v)) ≫= fun c =>
                            if nat_classification_is_fresh c (now v) ttl then Some c else None in
        let request := with_source_nat request source_nat in
        let relay_allowed relay := acl_allows_peer source_node relay p && acl_allows_peer target_node relay p in
        let candidates := relay_candidates_at (at_relays v) (relays_now v) in
        let response := coordinate p request target_node target_nat (List.filter relay_allowed candidates) observation (now v) in
        ([path_negotiations]
           ++ replicate (length (List.filter (fun relay => negb (relay_allowed relay)) candidates)) relay_candidate_acl_denials
           ++ observation_counters p observation response (now v) ++ [negotiations (response_state response)], Ok response)
  end end end end end.

(** [hole_punch_plan], with the clock as the registry and as the coordinator read it. *)
Definition hole_punch_plan (v : Views) (plan_now : Z) (source target : NodeId)
  : list SignalCounter * result (PeerPathKey * HolePunchPlan) SignalError :=
  let key := {| local := source; remote := target |} in
  match get_node (at_source v) source, get_node (at_target v) target with
  | None, _ => ([hole_punch_plans], Err (NodeNotFound source))
  | _, None => ([hole_punch_plans], Err (NodeNotFound target))
  | Some source_node, Some target_node =>
      let p := policy (at_source v) in
      if negb (acl_allows_hole_punch_plan source_node target_node p) then
        ([hole_punch_plans; hole_punch_acl_denials],
         Ok (key, {| source_reflexive := None; target_reflexive := None; start_after_millis := 0; expires_at := now v |}))
      else
        let min_confidence := nat_classification_min_confidence_percent p in
        let stored id := bt_get id (nat_classifications (at_nat v)) ≫= fun c =>
                           if nat_classification_is_fresh c (now v) (nat_classification_ttl_seconds p) then Some c else None in
        let suppressed :=
          if negb (nat_classifications_allow_hole_punch (stored source) (stored target) min_confidence)
          then hole_punch_nat_suppressions
               :: map hole_punch_nat_suppression
                    (omap (fun c => nat_classification_hole_punch_suppression_strategy c min_confidence) [stored source; stored target])
          else [] in
        (hole_punch_plans :: suppressed,
         Ok (key, punch_plan p (Overlay.endpoint_candidates source_node) (stored source)
                    (Overlay.endpoint_candidates target_node) (stored target) plan_now))
  end.

(** ** Invariant *)

(** Where the writes of a run come from. *)
Definition issued (w : Write) : Prop :=
  (exists node nat report t ws node', upsert_node_with_nat_and_health node nat report t = Ok (ws, node') /\ w ∈ ws) \/
  (exists id, w ∈ remove_node id).

(** The registries of a run: the writes of accepted updates and removals, in any order and
    interleaved in any way. *)
Inductive reachable (p : ClusterPolicy) : SignalRegistry -> Prop :=
  | reachable_new : reachable p (new p)
  | reachable_write w s : reachable p s -> issued w -> reachable p (apply_write w s).

Definition node_ok (id : NodeId) (n : Overlay.NodeRecord) : Prop :=
  Overlay.node_id n = id /\
  Forall (fun c => candidate_node_id c = id /\ validate_kind_address c = Ok tt) (Overlay.endpoint_candidates n) /\
  Forall (fun r => Overlay.advertised_by r = id /\ Overlay.metric r <> 0 /\ route_cidr_restricted (Overlay.cidr r) = false /\
                   Overlay.cidr r = ipnet_trunc (Overlay.cidr r)) (Overlay.routes n) /\
  NoDup (map Overlay.route_id (Overlay.routes n)) /\ NoDup (map Overlay.cidr (Overlay.routes n)) /\
  (Overlay.relay_capability n <> None -> eligible n = true).

Definition nat_ok (c : NatClassification) : Prop :=
  public_state_is_supported c = true /\ endpoint_addr_is_usable (class_local_addr c) = true /\
  F32.is_finite (confidence c) = true /\ F32.within F32.zero F32.one (confidence c) = true.

Record registry_ok (s : SignalRegistry) : Prop := {
  nodes_wf : bt_wf (nodes s);
  nat_wf : bt_wf (nat_classifications s);
  health_wf : bt_wf (health s);
  nodes_ok : forall id n, bt_get id (nodes s) = Some n -> node_ok id n;
  nats_ok : forall id c, bt_get id (nat_classifications s) = Some c -> nat_ok c
}.

Lemma find_none_Forall {A} (f : A -> bool) l : List.find f l = None <-> Forall (fun x => f x = false) l.
Proof.
  induction l as [|x l IH]; simpl; [by split; [constructor|]|]. rewrite Forall_cons. destruct (f x) eqn:E; [|by rewrite IH; naive_solver].
  split; [done|naive_solver].
Qed.

Lemma validate_endpoint_candidates_ok id candidates t :
  validate_endpoint_candidates id candidates t = Ok tt ->
  Forall (fun c => candidate_node_id c = id /\ validate_kind_address c = Ok tt) candidates.
Proof.
  unfold validate_endpoint_candidates. destruct (List.find _ _) eqn:E1; [done|].
  destruct (List.find (fun c => match validate_kind_address c with Err _ => true | Ok _ => false end) _) as [c|] eqn:E2.
  { apply find_some in E2 as [_ E2]. by destruct (validate_kind_address c). }
  intros _. apply find_none_Forall in E1, E2. apply Forall_forall. intros c Hc. rewrite Forall_forall in E1, E2.
  specialize (E1 c Hc). specialize (E2 c Hc). cbv beta in *. split.
  - by apply negb_false_iff, bool_decide_eq_true in E1.
  - by destruct (validate_kind_address c) as [[]|].
Qed.

Lemma routes_loop_ok id seen_ids seen_cidrs routes :
  routes_loop id seen_ids seen_cidrs routes = Ok tt ->
  Forall (fun r => Overlay.advertised_by r = id /\ Overlay.metric r <> 0 /\ route_cidr_restricted (Overlay.cidr r) = false /\
                   Overlay.cidr r = ipnet_trunc (Overlay.cidr r)) routes /\
  NoDup (map Overlay.route_id routes) /\ NoDup (map Overlay.cidr routes) /\
  Forall (fun r => Overlay.route_id r ∉ seen_ids /\ Overlay.cidr r ∉ seen_cidrs) routes.
Proof.
  revert seen_ids seen_cidrs. induction routes as [|r routes IH]; intros seen_ids seen_cidrs; cbn [routes_loop]; [by repeat constructor|].
  destruct (validate_signal_route_id _ _); [|done]. rewrite !guard_ok. intros (H1 & H2 & H3 & H4 & H5 & H6 & H).
  apply IH in H as (Ha & Hb & Hc & Hd). bool_to_prop. cbn [map]. rewrite !Forall_cons, !NoDup_cons. rewrite !Forall_forall in *.
  split_and!; try done.
  - intros (r' & E & Hr')%list_elem_of_fmap. destruct (Hd r' Hr') as [Hd' _]. apply Hd'. rewrite <- E. by left.
  - intros (r' & E & Hr')%list_elem_of_fmap. destruct (Hd r' Hr') as [_ Hd']. apply Hd'. rewrite <- E. by left.
  - intros r' Hr'. destruct (Hd r' Hr') as [Hd1 Hd2]. split; intros Hin; [apply Hd1|apply Hd2]; by right.
Qed.

Lemma each_ok {A} (f : A -> result unit SignalError) l : each f l = Ok tt <-> Forall (fun x => f x = Ok tt) l.
Proof.
  induction l as [|x l IH]; simpl; [by split; [constructor|]|]. rewrite Forall_cons, <- IH. destruct (f x) as [[]|]; naive_solver.
Qed.

Lemma validate_nat_addr_ok id a e : validate_nat_addr id a e = Ok tt <-> endpoint_addr_is_usable a = true.
Proof. unfold validate_nat_addr. destruct (endpoint_addr_is_usable a); naive_solver. Qed.

Lemma validate_optional_nat_addr_ok id a e :
  validate_optional_nat_addr id a e = Ok tt <-> forall x, a = Some x -> endpoint_addr_is_usable x = true.
Proof. destruct a as [a|]; simpl; [rewrite validate_nat_addr_ok|]; naive_solver. Qed.

Lemma then_ok {E} (a b : result unit E) : (let? _ := a in b) = Ok tt <-> a = Ok tt /\ b = Ok tt.
Proof. destruct a as [[]|]; naive_solver. Qed.

Definition not_future (t now : Z) : Prop := t <= now + 300 * 1000000000.

Lemma in_future_false t now :
  negb (timestamp_not_after_skew t now SIGNAL_TIMESTAMP_MAX_FUTURE_SKEW_SECONDS) = false <-> not_future t now.
Proof. unfold timestamp_not_after_skew. rewrite negb_false_iff, Z.leb_le. done. Qed.

Lemma existsb_future {A} (f : A -> Z) l now :
  existsb (fun o => negb (timestamp_not_after_skew (f o) now SIGNAL_TIMESTAMP_MAX_FUTURE_SKEW_SECONDS)) l = false <->
  Forall (fun o => not_future (f o) now) l.
Proof.
  induction l as [|x l IH]; simpl; [by split; [constructor|]|]. by rewrite orb_false_iff, in_future_false, IH, Forall_cons.
Qed.

Definition probe_usable (o : Stun.NatProbeObservation) : Prop :=
  endpoint_addr_is_usable (Stun.local_addr o) = true /\ endpoint_addr_is_usable (Stun.stun_server o) = true /\
  endpoint_addr_is_usable (Stun.reflexive_addr o) = true.

Definition filtering_usable (o : Stun.NatFilteringObservation) : Prop :=
  endpoint_addr_is_usable (Stun.filter_local_addr o) = true /\ endpoint_addr_is_usable (Stun.filter_server o) = true /\
  (forall a, Stun.filter_origin o = Some a -> endpoint_addr_is_usable a = true) /\
  (forall a, Stun.filter_other o = Some a -> endpoint_addr_is_usable a = true).

(** What [validate_nat_classification] accepts. *)
Lemma validate_nat_classification_ok id c t :
  validate_nat_classification id c t = Ok tt <->
  public_state_is_supported c = true /\ endpoint_addr_is_usable (class_local_addr c) = true /\
  (forall e, observed_endpoint c = Some e -> endpoint_addr_is_usable e = true) /\
  Forall probe_usable (class_observations c) /\ Forall filtering_usable (filtering_observations c) /\
  not_future (assessed_at c) t /\ F32.is_finite (confidence c) = true /\ F32.within F32.zero F32.one (confidence c) = true /\
  Forall (fun o => not_future (Stun.observed_at o) t) (class_observations c) /\
  Forall (fun o => not_future (Stun.filter_observed_at o) t) (filtering_observations c).
Proof.
  assert (forall A (f g : A -> Prop) l, (forall x, f x <-> g x) -> Forall f l <-> Forall g l) as FI
    by (intros A f g l H; by apply Forall_iff).
  unfold validate_nat_classification. rewrite guard_ok, negb_false_iff, !then_ok, !guard_ok, !each_ok, !in_future_false,
    !existsb_future, orb_false_iff, !negb_false_iff, validate_nat_addr_ok, validate_optional_nat_addr_ok.
  rewrite (FI _ _ probe_usable (class_observations c)) by (intros o; by rewrite !then_ok, !validate_nat_addr_ok).
  rewrite (FI _ _ filtering_usable (filtering_observations c))
    by (intros o; by rewrite !then_ok, !validate_nat_addr_ok, !validate_optional_nat_addr_ok).
  tauto.
Qed.

(** ** Properties *)

Lemma normalize_ok id n :
  Overlay.node_id n = id -> Overlay.node_id (normalize_relay_capability n) = id /\
  Overlay.endpoint_candidates (normalize_relay_capability n) = Overlay.endpoint_candidates n /\
  Overlay.routes (normalize_relay_capability n) = Overlay.routes n /\
  (Overlay.relay_capability (normalize_relay_capability n) <> None -> eligible (normalize_relay_capability n) = true).
Proof. intros <-. unfold normalize_relay_capability. by destruct (eligible n) eqn:E; split_and!. Qed.

(** What an issued write stores was checked. *)
Lemma issued_ok w : issued w ->
  match w with PutNat _ c => nat_ok c | PutNode id n => node_ok id n | _ => True end.
Proof.
  intros [(node & nat & report & t & ws & node' & H & Hw)|(id & Hw)].
  2: { unfold remove_node in Hw. rewrite !elem_of_cons, elem_of_nil in Hw. by destruct Hw as [->|[->|[->|[]]]]. }
  unfold upsert_node_with_nat_and_health in H.
  apply bind_ok in H as ([] & Hr & H). apply bind_ok in H as ([] & Hc & H). apply bind_ok in H as ([] & _ & H).
  apply bind_ok in H as ([] & Hn & H). simplify_eq. rewrite !elem_of_cons, elem_of_nil in Hw. destruct Hw as [->|[->|[->|[]]]].
  - destruct nat as [c|]; [|done]. apply validate_nat_classification_ok in Hn. unfold nat_ok. tauto.
  - by destruct report.
  - apply routes_loop_ok in Hr as (R1 & R2 & R3 & _). apply validate_endpoint_candidates_ok in Hc.
    destruct (normalize_ok (Overlay.node_id node) node) as (E1 & E2 & E3 & E4); [done|].
    unfold node_ok. by rewrite E2, E3.
Qed.

Lemma registry_ok_reachable p s : reachable p s -> registry_ok s /\ policy s = p.
Proof.
  induction 1 as [|w s _ [IH Hp] Hw]; [split; [|done]; constructor; cbn; (apply bt_wf_nil || done)|].
  destruct IH as [W1 W2 W3 N C]. apply issued_ok in Hw. split; [|by destruct w].
  destruct w; constructor; cbn [apply_write nodes nat_classifications health with_nodes with_nat with_health]; auto with ipars;
    intros id' x; try (by eauto); (destruct (decide (id' = id)) as [->|Hne]; [rewrite ?bt_get_insert, ?bt_get_remove by done; naive_solver|]).
  all: rewrite ?bt_get_insert_ne, ?bt_get_remove_ne by done; eauto.
Qed.

(** Whatever updates and removals come, and however their writes to the three maps are
    interleaved, the registry holds under an identifier only the record of that node, with
    candidates of its own that fit their kind, routes of its own that are canonical, unique
    and unrestricted, and a relay capability only if it is eligible; and only NAT
    classifications whose public state is supported and whose confidence is between 0 and 1. *)
Theorem registry_invariant p s : reachable p s -> registry_ok s /\ policy s = p.
Proof. apply registry_ok_reachable. Qed.

(** The branches of a negotiation that answers. *)
Lemma negotiate_inv v request observation counters response :
  negotiate v request observation = (counters, Ok response) ->
  exists source_node target_node,
    get_node (at_source v) (request_source request) = Some source_node /\
    get_node (at_target v) (request_target request) = Some target_node /\
    let p := policy (at_source v) in
    if acl_allows_path source_node target_node (desired_routes request) p then
      exists source_nat target_nat,
      response = coordinate p (with_source_nat request source_nat) target_node target_nat
        (List.filter (fun relay => acl_allows_peer source_node relay p && acl_allows_peer target_node relay p)
           (relay_candidates_at (at_relays v) (relays_now v))) observation (now v)
    else response = acl_denied_signal_path_response request.
Proof.
  unfold negotiate. destruct (get_node (at_source v) _) as [source_node|]; [|done].
  destruct (let? _ := _ in _); [|done]. destruct (get_node (at_target v) _) as [target_node|]; [|done].
  destruct (match observation with Some _ => _ | None => _ end); [|done]. destruct (validate_desired_routes _ _); [|done].
  cbv zeta. intros H. exists source_node, target_node. split_and!; [done..|].
  destruct (acl_allows_path _ _ _ _); cbn [negb] in H; [|congruence]. eexists _, _. injection H as _ H. exact (eq_sym H).
Qed.

Lemma relay_candidates_at_elem s t n :
  registry_ok s -> n ∈ relay_candidates_at s t ->
  get_node s (Overlay.node_id n) = Some n /\ eligible n = true /\
  exists h, bt_get (Overlay.node_id n) (health s) = Some h /\ state h = Healthy /\
    health_report_is_fresh h t (relay_health_ttl_seconds (policy s)) = true.
Proof.
  intros Hok. unfold relay_candidates_at. rewrite list_elem_of_In, filter_In, <- list_elem_of_In. intros [Hin H].
  apply list_elem_of_fmap in Hin as ([id n'] & -> & Hin). cbn [snd] in *. apply bt_get_elem in Hin; [|apply Hok].
  pose proof (nodes_ok _ Hok _ _ Hin) as (<- & _). split; [done|].
  unfold relay_candidate_allowed, relay_health_allows in H. apply andb_true_iff in H as [He H]. split; [done|].
  destruct (bt_get _ (health s)) as [h|]; [|done]. exists h. by apply andb_true_iff in H as [H1%bool_decide_eq_true H2].
Qed.

(** The answer of the coordinator to a node about another one. *)
Lemma coordinate_direct p request target target_nat relays observation t response :
  node_ok (request_target request) target -> coordinate p request target target_nat relays observation t = response ->
  is_direct (response_state response) = true ->
  exists c, selected_target_candidate (response_state response) (target_candidates response) = Some c /\
    c ∈ Overlay.endpoint_candidates target /\ candidate_node_id c = request_target request /\ validate_kind_address c = Ok tt /\
    allows_selected_candidate_kind (response_state response) (candidate_kind c) = true /\
    endpoint_candidate_is_fresh c t (endpoint_candidate_ttl_seconds p) = true /\ endpoint_addr_is_usable (candidate_addr c) = true.
Proof.
  intros (_ & Hc & _) <-. cbn [response_state target_candidates coordinate].
  set (targets := fresh_endpoint_candidates (Overlay.endpoint_candidates target) t _). set (preferred := preferred_state _ _ _ _ _).
  destruct (bool_decide (preferred = Unreachable) && _ && _) eqn:E; [done|]. intros Hd.
  destruct (preferred_has_candidate _ _ _ _ _ preferred eq_refl) as [_ (c & Hin & Ha)]; [by intros Hu; rewrite Hu in Hd|].
  destruct (selected_candidate_exists preferred targets c Hin Ha) as [c' Hs]. exists c'. split; [done|].
  apply selected_candidate_spec in Hs as [Hin' Ha']. apply fresh_candidates_elem in Hin' as (Hin' & Hf & Hu).
  rewrite Forall_forall in Hc. destruct (Hc c' Hin'). done.
Qed.

Lemma coordinate_relayed p request target target_nat relays observation t response :
  coordinate p request target target_nat relays observation t = response ->
  (response_state response = RelayPath -> relay_candidates response <> []) /\
  relay_candidates response = ordered_relays (request_source request) (request_target request) relays.
Proof.
  intros <-. cbn [response_state relay_candidates coordinate]. split; [|done].
  destruct (bool_decide _ && _ && negb (bool_decide _)) eqn:E.
  - apply andb_true_iff in E as [_ E%negb_true_iff%bool_decide_eq_false]. done.
  - intros Hp. destruct (preferred_has_candidate _ _ _ _ _ _ Hp) as [H _]; done.
Qed.

(** C19: What a negotiation answers can be used and is allowed. A path is offered only when the
    access rules allow it. A direct path comes with a candidate of the target to dial, fresh,
    usable and of a kind and address class that fit the path. A relayed path comes with
    relays; each of them is a registered, eligible relay with a fresh healthy report, is
    neither end of the path, and both ends may use it. Other tasks may change the registry
    between the accesses of the negotiation. *)
Theorem negotiation_sound p v request observation counters response :
  reachable p (at_source v) -> reachable p (at_target v) -> reachable p (at_relays v) ->
  negotiate v request observation = (counters, Ok response) ->
  exists source_node target_node,
    get_node (at_source v) (request_source request) = Some source_node /\
    get_node (at_target v) (request_target request) = Some target_node /\
    (response_state response <> Unreachable -> acl_allows_path source_node target_node (desired_routes request) p = true) /\
    (is_direct (response_state response) = true ->
      exists c, selected_target_candidate (response_state response) (target_candidates response) = Some c /\
        c ∈ Overlay.endpoint_candidates target_node /\ candidate_node_id c = request_target request /\
        validate_kind_address c = Ok tt /\ allows_selected_candidate_kind (response_state response) (candidate_kind c) = true /\
        endpoint_candidate_is_fresh c (now v) (endpoint_candidate_ttl_seconds p) = true /\
        endpoint_addr_is_usable (candidate_addr c) = true) /\
    (response_state response = RelayPath -> relay_candidates response <> []) /\
    (forall relay, relay ∈ relay_candidates response ->
      Overlay.node_id relay <> request_source request /\ Overlay.node_id relay <> request_target request /\
      get_node (at_relays v) (Overlay.node_id relay) = Some relay /\ eligible relay = true /\
      acl_allows_peer source_node relay p = true /\ acl_allows_peer target_node relay p = true /\
      exists h, bt_get (Overlay.node_id relay) (health (at_relays v)) = Some h /\ state h = Healthy /\
        health_report_is_fresh h (relays_now v) (relay_health_ttl_seconds p) = true).
Proof.
  intros R1 R2 R3 H. destruct (registry_ok_reachable _ _ R1) as [O1 P1], (registry_ok_reachable _ _ R2) as [O2 _],
    (registry_ok_reachable _ _ R3) as [O3 P3].
  destruct (negotiate_inv _ _ _ _ _ H) as (source_node & target_node & Hs & Ht & Hr). rewrite P1 in Hr. cbv zeta in Hr.
  exists source_node, target_node. split; [done|]. split; [done|].
  destruct (acl_allows_path _ _ _ _); [|subst response; split_and!; try done; intros relay Hin; by apply not_elem_of_nil in Hin].
  destruct Hr as (source_nat & target_nat & Hr). symmetry in Hr. split; [done|].
  pose proof (nodes_ok _ O2 _ _ Ht) as Hok.
  split; [by eapply coordinate_direct with (request := with_source_nat request source_nat)|].
  destruct (coordinate_relayed _ _ _ _ _ _ _ _ Hr) as [Hne Hl]. split; [done|].
  intros relay. rewrite Hl. intros (Hin & N1 & N2 & _)%ordered_relays_elem.
  rewrite list_elem_of_In, filter_In, <- list_elem_of_In, andb_true_iff in Hin. destruct Hin as [Hin [A1 A2]].
  apply relay_candidates_at_elem in Hin as (G & E & h & Hh & Hst & Hf); [|done]. rewrite P3 in Hf. split_and!; try done. eauto.
Qed.

(** A registry that does not change during a negotiation. *)
Definition steady (s : SignalRegistry) (t relays_t : Z) : Views :=
  {| at_source := s; at_target := s; at_nat := s; at_relays := s; now := t; relays_now := relays_t |}.

(** Two nodes meet at a relay. When each of them asks for a path to the other and is told
    to use a relay, both get the same relays in the same order, whatever routes they ask for
    and whatever they report about themselves. *)
Theorem relays_agree s t t' relays_t request request' o o' counters counters' response response' :
  request_source request' = request_target request -> request_target request' = request_source request ->
  negotiate (steady s t relays_t) request o = (counters, Ok response) ->
  negotiate (steady s t' relays_t) request' o' = (counters', Ok response') ->
  response_state response = RelayPath -> response_state response' = RelayPath ->
  relay_candidates response = relay_candidates response' /\ relay_candidates response <> [].
Proof.
  intros E1 E2 H H' S S'. destruct (negotiate_inv _ _ _ _ _ H) as (a & b & Ha & Hb & Hr).
  destruct (negotiate_inv _ _ _ _ _ H') as (b' & a' & Hb' & Ha' & Hr'). rewrite E1 in Hb'. rewrite E2 in Ha'.
  cbn [steady at_source at_target at_relays relays_now] in *. simplify_eq. cbv zeta in *.
  destruct (acl_allows_path a b _ _); [|by subst]. destruct (acl_allows_path b a _ _); [|by subst].
  destruct Hr as (? & ? & Hr), Hr' as (? & ? & Hr'). symmetry in Hr, Hr'.
  apply coordinate_relayed in Hr as [Hne Hl], Hr' as [_ Hl']. split; [|auto]. rewrite Hl, Hl'.
  cbn [with_source_nat request_source request_target]. rewrite E1, E2, ordered_relays_sym. f_equal. apply filter_ext.
  intros n. apply andb_comm.
Qed.

Lemma declare_all_fields c declared :
  exists s, declare_all c declared = with_state c s.
Proof.
  destruct (declare_all_cases c declared) as [[_ ->]|[_ ->]]; [by eexists|]. exists (connectivity_state c). by rewrite with_own_state.
Qed.

(** What a node concludes about its NAT from its own observations, with any declared
    addresses, is accepted by the registry, provided the addresses in it are usable and its
    clock is at most five minutes ahead. *)
Theorem own_classification_accepted id local observations filtering assessed declared t :
  endpoint_addr_is_usable local = true -> Forall (fun o => Stun.local_addr o = local) observations ->
  Forall probe_usable observations -> Forall filtering_usable filtering ->
  not_future assessed t -> Forall (fun o => not_future (Stun.observed_at o) t) observations ->
  Forall (fun o => not_future (Stun.filter_observed_at o) t) filtering ->
  validate_nat_classification id (declare_all (from_observations_with_filtering local observations filtering assessed) declared) t = Ok tt.
Proof.
  intros Hl Hloc Hp Hf Ha Ho Hfo. apply validate_nat_classification_ok. split; [by apply supported_declared|].
  destruct (declare_all_fields (from_observations_with_filtering local observations filtering assessed) declared) as [st ->].
  cbn [with_state class_local_addr observed_endpoint class_observations filtering_observations confidence assessed_at
    from_observations_with_filtering].
  destruct (F32.unit_within (nat_classification_confidence (classify_nat_mapping local observations) (lenZ observations)
    (classify_nat_filtering filtering) (lenZ filtering))) as [C1 C2]; [apply confidence_unit; lia|].
  split_and!; try done. intros e (Hne & He)%stable_iff. destruct observations as [|o observations]; [done|].
  apply Forall_inv in He, Hp. destruct Hp as (_ & _ & Hp). by subst e.
Qed.

Lemma reachable_writes p s ws : reachable p s -> Forall issued ws -> reachable p (foldl (fun s w => apply_write w s) s ws).
Proof. intros Hs Hw. revert s Hs. induction Hw; intros s Hs; cbn [foldl]; [done|]. by eauto using reachable_write. Qed.

Lemma upsert_issued node nat report t ws node' :
  upsert_node_with_nat_and_health node nat report t = Ok (ws, node') -> Forall issued ws.
Proof. intros H. apply Forall_forall. intros w Hw. left. by exists node, nat, report, t, ws, node'. Qed.

End WithNets.

(** ** An example: two nodes and two relays *)

Module RegistryExample.
Import Instances.

#[local] Instance cidr_build : IpNetBuildOps := {|
  ipnet_broadcast := fun c => to_ip (is_v4 c) (masked c (address c) + 2 ^ host_bits c - 1);
  ipnet_new_assert := fun ip p => match ip with
    | IpV4 a => {| is_v4 := true; address := a; prefix := p |} | IpV6 a => {| is_v4 := false; address := a; prefix := p |} end
|}.
#[local] Existing Instance relay_url_ops.
#[local] Existing Instance sample_digest.

Definition relay_node (id : NodeId) : Overlay.NodeRecord :=
  let n := sample_node id 167772170 in
  {| Overlay.node_id := Overlay.node_id n; Overlay.display_name := None; Overlay.hostname := None; Overlay.cluster_id := bstr "c";
     Overlay.vpn_ip := IpV4 167772170; Overlay.identity_public_key := []; Overlay.wireguard_public_key := [];
     Overlay.role := bstr "edge"; Overlay.tags := []; Overlay.endpoint_candidates := [];
     Overlay.relay_capability := Some sample_capability; Overlay.token_policy := Overlay.token_policy n; Overlay.routes := [];
     Overlay.registered_at := 0 |}.

Definition healthy : NodeHealth :=
  {| state := Healthy; last_seen_at := 0; health_latency_ms := None; health_relay_load := None; message := None |}.

Definition writes_of (n : Overlay.NodeRecord) (h : option NodeHealth) : list Write :=
  match upsert_node_with_nat_and_health n None h 0 with Ok (ws, _) => ws | Err _ => [] end.

Definition example_writes : list Write :=
  writes_of (sample_node (bstr "a") 167772161) None ++ writes_of (sample_node (bstr "b") 167772162) None
  ++ writes_of (relay_node (bstr "r")) (Some healthy) ++ writes_of (relay_node (bstr "s")) (Some healthy).

Definition example : SignalRegistry := foldl (fun s w => apply_write w s) (new default_policy) example_writes.

Lemma example_reachable : reachable default_policy example.
Proof.
  apply reachable_writes; [constructor|]. unfold example_writes. rewrite !Forall_app.
  split_and!; unfold writes_of; destruct (upsert_node_with_nat_and_health _ _ _ _) as [[ws n]|] eqn:E; try done; by eapply upsert_issued.
Qed.

Definition ask (a b : NodeId) : SignalPathRequest :=
  {| request_source := a; request_target := b; source_candidates := []; source_nat_classification := None; desired_routes := [] |}.

Definition asked (a b : NodeId) : list SignalCounter * result SignalPathResponse SignalError :=
  negotiate (steady example 5 6) (ask a b) None.

Lemma registry_invariant_witness : registry_ok example /\ policy example = default_policy.
Proof. apply (registry_invariant default_policy example). apply example_reachable. Defined.

Definition answer (a b : NodeId) : SignalPathResponse :=
  match asked a b with (_, Ok r) => r | _ => acl_denied_signal_path_response (ask a b) end.

Lemma asked_a_b : asked (bstr "a") (bstr "b") = ([path_negotiations; negotiations RelayPath], Ok (answer (bstr "a") (bstr "b"))).
Proof. by vm_compute. Qed.

Lemma asked_b_a : asked (bstr "b") (bstr "a") = ([path_negotiations; negotiations RelayPath], Ok (answer (bstr "b") (bstr "a"))).
Proof. by vm_compute. Qed.

Lemma negotiation_sound_witness :
  exists source_node target_node,
    get_node example (bstr "a") = Some source_node /\ get_node example (bstr "b") = Some target_node /\
    relay_candidates (answer (bstr "a") (bstr "b")) <> [].
Proof.
  destruct (negotiation_sound default_policy (steady example 5 6) (ask (bstr "a") (bstr "b")) None _ _
    example_reachable example_reachable example_reachable asked_a_b) as (source_node & target_node & Hs & Ht & _ & _ & Hr & _).
  exists source_node, target_node. split; [exact Hs|]. split; [exact Ht|]. apply Hr. by vm_compute.
Defined.

Lemma relays_agree_witness :
  relay_candidates (answer (bstr "a") (bstr "b")) = relay_candidates (answer (bstr "b") (bstr "a")) /\
  relay_candidates (answer (bstr "a") (bstr "b")) <> [].
Proof.
  apply (relays_agree example 5 5 6 (ask (bstr "a") (bstr "b")) (ask (bstr "b") (bstr "a")) None None _ _ _ _
    eq_refl eq_refl asked_a_b asked_b_a); by vm_compute.
Defined.

Lemma own_classification_accepted_witness :
  let probe := {| Stun.local_addr := SockV4 0x0A000001 40000; Stun.stun_server := SockV4 0x08080808 3478;
                  Stun.reflexive_addr := SockV4 0x01010101 61000; Stun.observed_at := 0 |} in
  validate_nat_classification (bstr "a")
    (declare_all (from_observations_with_filtering (SockV4 0x0A000001 40000) [probe; probe] [] 0) [IpV4 0x01010101]) 0 = Ok tt.
Proof.
  intros probe. apply (own_classification_accepted (bstr "a") (SockV4 0x0A000001 40000) [probe; probe] [] 0 [IpV4 0x01010101] 0);
    repeat constructor; unfold not_future; cbn; lia.
Defined.

End RegistryExample.
End Registry.
