(* ===== verification/OverlayFragments.v ===== *)
(** * Transport fragments of overlay frames (crates/ipars-agent/src/overlay_transit.rs)

    A frame that does not fit a hop datagram is sent as numbered fragments that carry a
    digest of the whole frame; the receiver collects them per source and digest within
    bounds on their number, their bytes and their age. Time is the instant in nanoseconds.
    [usize] subtraction panics on underflow when overflow checks are on and wraps when
    they are off; [None] stands for a panic. *)

From S2P Require Import Prelude RustStd Hashing Multihop.

Module Fragments.

Definition MAX_OVERLAY_TRANSIT_DATAGRAM_BYTES : Z := 1024.
Definition OVERLAY_FRAGMENT_MAGIC : bytes := bstr "IPARS-FG".
Definition OVERLAY_FRAGMENT_VERSION : Z := 1.
Definition OVERLAY_FRAGMENT_DIGEST_BYTES : Z := 16.
Definition OVERLAY_FRAGMENT_HEADER_BYTES : Z := 8 + 1 + 1 + 2 + 2 + 4 + 16.
Definition OVERLAY_FRAGMENT_PAYLOAD_BYTES : Z :=
  MAX_OVERLAY_TRANSIT_DATAGRAM_BYTES - OVERLAY_FRAGMENT_HEADER_BYTES.
Definition MAX_PENDING_FRAGMENTED_FRAMES : Z := 256.
Definition MAX_PENDING_FRAGMENTED_FRAME_BYTES : Z :=
  MAX_PENDING_FRAGMENTED_FRAMES * Multihop.MAX_MULTIHOP_FRAME_BYTES.
Definition OVERLAY_FRAGMENT_REASSEMBLY_TIMEOUT : Z := 5 * 1000000000.

(** [usize] division rounding up. *)
Definition div_ceil (a b : Z) : Z := (a + b - 1) / b.

(** [usize] subtraction, with or without overflow checks. *)
Definition usize_sub (overflow_checks : bool) (a b : Z) : option Z :=
  if b <=? a then Some (a - b) else if overflow_checks then None else Some (a - b + 2 ^ 64).

(** [slice::chunks] *)
Fixpoint chunks (fuel : nat) (n : nat) (l : bytes) : list bytes :=
  match fuel, l with
  | _, [] => []
  | O, _ => []
  | S fuel, _ => take n l :: chunks fuel n (drop n l)
  end.

Section Transport.
Context `{DigestOps}.

Definition overlay_fragment_digest (frame : bytes) : bytes :=
  take (Z.to_nat OVERLAY_FRAGMENT_DIGEST_BYTES) (sha256 frame).

Definition encode_overlay_fragment (index count frame_len : Z) (digest payload : bytes) : bytes :=
  OVERLAY_FRAGMENT_MAGIC ++ [Zbyte OVERLAY_FRAGMENT_VERSION; Zbyte 0] ++
  be_bytes 2 index ++ be_bytes 2 count ++ be_bytes 4 frame_len ++ digest ++ payload.

(** The fragments from an index on; [None] when an index does not fit 16 bits. *)
Fixpoint encode_chunks (index count frame_len : Z) (digest : bytes) (l : list bytes) : option (list bytes) :=
  match l with
  | [] => Some []
  | chunk :: l =>
      if index <? 2 ^ 16
      then rest ← encode_chunks (index + 1) count frame_len digest l;
           Some (encode_overlay_fragment index count frame_len digest chunk :: rest)
      else None
  end.

(** The datagrams sent for a frame; [None] for the errors of [send_frame] that a frame too
    long for the header gives. *)
Definition frame_datagrams (frame : bytes) : option (list bytes) :=
  if lenZ frame <=? MAX_OVERLAY_TRANSIT_DATAGRAM_BYTES then Some [frame]
  else
    let fragment_count := div_ceil (lenZ frame) OVERLAY_FRAGMENT_PAYLOAD_BYTES in
    if 2 ^ 16 <=? fragment_count then None
    else if 2 ^ 32 <=? lenZ frame then None
    else encode_chunks 0 fragment_count (lenZ frame) (overlay_fragment_digest frame)
           (chunks (length frame) (Z.to_nat OVERLAY_FRAGMENT_PAYLOAD_BYTES) frame).

(** ** The receiver *)

Abbreviation fragment_key := (SocketAddr * bytes)%type.

Record PendingOverlayFrame : Type := {
  expires_at : Z;
  frame_len : Z;
  fragment_count : Z;
  received_count : Z;
  fragments : list (option bytes)
}.

Record OverlayFragmentReassembler : Type := {
  pending : gmap fragment_key PendingOverlayFrame;
  reserved_bytes : Z
}.

Definition reassembler_new : OverlayFragmentReassembler := {| pending := ∅; reserved_bytes := 0 |}.

Definition remove (key : fragment_key) (st : OverlayFragmentReassembler) : OverlayFragmentReassembler :=
  match pending st !! key with
  | Some frame => {| pending := delete key (pending st);
                     reserved_bytes := saturating_sub (reserved_bytes st) (frame_len frame) |}
  | None => st
  end.

Definition prune_expired (now : Z) (st : OverlayFragmentReassembler) : OverlayFragmentReassembler :=
  let expired := omap (fun '(key, frame) => if expires_at frame <=? now then Some key else None)
                   (map_to_list (pending st)) in
  foldl (fun st key => remove key st) st expired.

Record fragment_header : Type := {
  fh_index : Z;
  fh_count : Z;
  fh_frame_len : Z;
  fh_digest : bytes;
  fh_payload : bytes
}.

Definition parse_fragment (overflow_checks : bool) (datagram : bytes) : option (result fragment_header unit) :=
  if (lenZ datagram <=? OVERLAY_FRAGMENT_HEADER_BYTES)
     || (MAX_OVERLAY_TRANSIT_DATAGRAM_BYTES <? lenZ datagram)
     || negb (bool_decide (slice_get datagram 0 8 = Some OVERLAY_FRAGMENT_MAGIC))
     || negb (be_value (slice datagram 8 9) =? OVERLAY_FRAGMENT_VERSION)
     || negb (be_value (slice datagram 9 10) =? 0)
  then Some (Err tt)
  else
    let index := be_value (slice datagram 10 12) in
    let count := be_value (slice datagram 12 14) in
    let len := be_value (slice datagram 14 18) in
    let digest := slice datagram 18 OVERLAY_FRAGMENT_HEADER_BYTES in
    let payload := drop (Z.to_nat OVERLAY_FRAGMENT_HEADER_BYTES) datagram in
    if (len <=? MAX_OVERLAY_TRANSIT_DATAGRAM_BYTES) || (Multihop.MAX_MULTIHOP_FRAME_BYTES <? len)
       || (count <? 2) || (count <=? index)
    then Some (Err tt)
    else
      let expected_count := div_ceil len OVERLAY_FRAGMENT_PAYLOAD_BYTES in
      expected_payload_len ←
        (if index + 1 =? count
         then usize_sub overflow_checks len (OVERLAY_FRAGMENT_PAYLOAD_BYTES * (count - 1))
         else Some OVERLAY_FRAGMENT_PAYLOAD_BYTES);
      if negb (count =? expected_count) || negb (lenZ payload =? expected_payload_len)
      then Some (Err tt)
      else Some (Ok {| fh_index := index; fh_count := count; fh_frame_len := len;
                       fh_digest := digest; fh_payload := payload |}).

(** Reserves an entry for a key that has none. *)
Definition reserve (key : fragment_key) (len count now : Z) (st : OverlayFragmentReassembler)
  : result OverlayFragmentReassembler unit :=
  match pending st !! key with
  | Some _ => Ok st
  | None =>
      if (MAX_PENDING_FRAGMENTED_FRAMES <=? Z.of_nat (size (pending st)))
         || (MAX_PENDING_FRAGMENTED_FRAME_BYTES <? saturating_add 64 (reserved_bytes st) len)
      then Err tt
      else Ok {| pending := <[key := {| expires_at := now + OVERLAY_FRAGMENT_REASSEMBLY_TIMEOUT;
                                        frame_len := len; fragment_count := count; received_count := 0;
                                        fragments := replicate (Z.to_nat count) None |}]> (pending st);
                 reserved_bytes := reserved_bytes st + len |}
  end.

Definition store (frame : PendingOverlayFrame) (index : nat) (payload : bytes) : PendingOverlayFrame :=
  {| expires_at := expires_at frame; frame_len := frame_len frame; fragment_count := fragment_count frame;
     received_count := received_count frame + 1;
     fragments := <[index := Some payload]> (fragments frame) |}.

(** The frame from its fragments, when the length and the digest agree. *)
Definition assemble (frame : PendingOverlayFrame) (digest : bytes) : result (option bytes) unit :=
  match mapM id (fragments frame) with
  | None => Err tt
  | Some parts =>
      let reassembled := concat parts in
      if negb (lenZ reassembled =? frame_len frame)
         || negb (bool_decide (overlay_fragment_digest reassembled = digest))
      then Err tt
      else Ok (Some reassembled)
  end.

Definition push (overflow_checks : bool) (source : SocketAddr) (datagram : bytes) (now : Z)
    (st : OverlayFragmentReassembler) : option (OverlayFragmentReassembler * result (option bytes) unit) :=
  let st := prune_expired now st in
  header ← parse_fragment overflow_checks datagram;
  match header with
  | Err e => Some (st, Err e)
  | Ok h =>
      let key := (source, fh_digest h) in
      match reserve key (fh_frame_len h) (fh_count h) now st with
      | Err e => Some (st, Err e)
      | Ok st =>
          match pending st !! key with
          | None => Some (st, Err tt)
          | Some frame =>
              if negb (frame_len frame =? fh_frame_len h) || negb (fragment_count frame =? fh_count h)
              then Some (remove key st, Err tt)
              else
                slot ← fragments frame !! Z.to_nat (fh_index h);
                match slot with
                | Some existing =>
                    if bool_decide (existing = fh_payload h) then Some (st, Ok None)
                    else Some (remove key st, Err tt)
                | None =>
                    let frame := store frame (Z.to_nat (fh_index h)) (fh_payload h) in
                    if negb (received_count frame =? fh_count h)
                    then Some ({| pending := <[key := frame]> (pending st);
                                  reserved_bytes := reserved_bytes st |}, Ok None)
                    else Some ({| pending := delete key (pending st);
                                  reserved_bytes := saturating_sub (reserved_bytes st) (frame_len frame) |},
                               assemble frame (fh_digest h))
                end
          end
      end
  end.

(** ** Cutting a frame *)

Abbreviation P := 990%nat.

(** The payload of fragment [i]. *)
Definition part (frame : bytes) (i : nat) : bytes := take P (drop (i * P) frame).

Lemma chunks_parts fuel n l :
  (0 < n)%nat -> (length l <= fuel)%nat ->
  chunks fuel n l = map (fun i => take n (drop (i * n) l)) (seq 0 (Z.to_nat (div_ceil (lenZ l) (Z.of_nat n)))).
Proof.
  intros Hn. revert l. induction fuel as [|fuel IH]; intros l Hl.
  { destruct l; [|simpl in Hl; lia]. simpl. unfold div_ceil. rewrite Z.div_small by (simpl; lia). done. }
  destruct l as [|b l]; [simpl; unfold div_ceil; by rewrite Z.div_small by (simpl; lia)|].
  cbn [chunks]. rewrite IH by (rewrite length_drop; simpl in *; lia).
  assert (Hc : Z.to_nat (div_ceil (lenZ (b :: l)) (Z.of_nat n)) =
               S (Z.to_nat (div_ceil (lenZ (drop n (b :: l))) (Z.of_nat n)))).
  { unfold div_ceil. rewrite length_drop.
    destruct (Nat.le_gt_cases (length (b :: l)) n) as [Hle|Hgt].
    - replace (length (b :: l) - n)%nat with O by lia.
      rewrite (Z.div_small (Z.of_nat 0 + Z.of_nat n - 1)) by lia.
      assert (1 <= lenZ (b :: l)) by (simpl; lia).
      rewrite <- (Z.div_unique (lenZ (b :: l) + Z.of_nat n - 1) (Z.of_nat n) 1 (lenZ (b :: l) - 1)); [done|lia|lia].
    - replace (lenZ (b :: l) + Z.of_nat n - 1) with (Z.of_nat (length (b :: l) - n) + Z.of_nat n - 1 + 1 * Z.of_nat n) by lia.
      rewrite Z.div_add by lia. rewrite Z2Nat.inj_add; [lia|apply Z.div_pos; lia|lia]. }
  rewrite Hc. cbn [seq map]. f_equal. rewrite <- seq_shift, map_map.
  apply map_ext. intros i. rewrite drop_drop. f_equal.
Qed.

Lemma parts_concat frame k : concat (map (part frame) (seq 0 k)) = take (k * P) frame.
Proof.
  induction k as [|k IH]; [done|]. rewrite seq_S, map_app, concat_app, IH. simpl concat. rewrite app_nil_r.
  unfold part. change (0 + k)%nat with k. symmetry. rewrite <- (take_drop (k * P) (take (S k * P) frame)) at 1.
  rewrite take_take. f_equal; [f_equal; lia|]. rewrite skipn_firstn_comm. f_equal. lia.
Qed.

Definition frame_count (frame : bytes) : nat := Z.to_nat (div_ceil (lenZ frame) OVERLAY_FRAGMENT_PAYLOAD_BYTES).

Definition fragment_of (frame : bytes) (i : nat) : bytes :=
  encode_overlay_fragment (Z.of_nat i) (Z.of_nat (frame_count frame)) (lenZ frame)
    (overlay_fragment_digest frame) (part frame i).

(** Frames that are sent in fragments and accepted by the receiver. *)
Definition fragmentable (frame : bytes) : Prop :=
  MAX_OVERLAY_TRANSIT_DATAGRAM_BYTES < lenZ frame <= Multihop.MAX_MULTIHOP_FRAME_BYTES.

Lemma frame_count_eq frame : fragmentable frame -> Z.of_nat (frame_count frame) = (lenZ frame + 989) / 990.
Proof.
  intros Hf. unfold frame_count, div_ceil. change OVERLAY_FRAGMENT_PAYLOAD_BYTES with 990.
  rewrite Z2Nat.id; [f_equal; lia|]. apply Z.div_pos; lia.
Qed.

Lemma frame_count_bound frame : fragmentable frame ->
  2 <= Z.of_nat (frame_count frame) <= 67 /\
  990 * (Z.of_nat (frame_count frame) - 1) < lenZ frame <= 990 * Z.of_nat (frame_count frame).
Proof.
  intros Hf. rewrite frame_count_eq by done. unfold fragmentable in Hf.
  change MAX_OVERLAY_TRANSIT_DATAGRAM_BYTES with 1024 in Hf. change Multihop.MAX_MULTIHOP_FRAME_BYTES with 65507 in Hf. dlia.
Qed.

Lemma encode_chunks_eq count len digest l i :
  i + lenZ l <= 2 ^ 16 -> 0 <= i ->
  encode_chunks i count len digest l =
  Some (imap (fun j c => encode_overlay_fragment (i + Z.of_nat j) count len digest c) l).
Proof.
  revert i. induction l as [|c l IH]; intros i Hi H0; [done|]. cbn [encode_chunks imap].
  rewrite length_cons in Hi. destruct (Z.ltb_spec i (2 ^ 16)); [|lia]. rewrite IH by lia. cbn [mbind option_bind].
  rewrite Z.add_0_r. do 2 f_equal. apply imap_ext. intros j c' _. simpl. f_equal. lia.
Qed.

(** A long frame is sent as its numbered fragments. *)
Lemma frame_datagrams_fragments frame :
  fragmentable frame -> frame_datagrams frame = Some (map (fragment_of frame) (seq 0 (frame_count frame))).
Proof.
  intros Hf. pose proof (frame_count_bound frame Hf) as [Hc Hl]. unfold frame_datagrams. unfold fragmentable in Hf.
  destruct (Z.leb_spec (lenZ frame) MAX_OVERLAY_TRANSIT_DATAGRAM_BYTES); [lia|].
  assert (Hdc : div_ceil (lenZ frame) OVERLAY_FRAGMENT_PAYLOAD_BYTES = Z.of_nat (frame_count frame)).
  { rewrite frame_count_eq by done. unfold div_ceil. change OVERLAY_FRAGMENT_PAYLOAD_BYTES with 990. f_equal. lia. }
  rewrite Hdc. destruct (Z.leb_spec (2 ^ 16) (Z.of_nat (frame_count frame))); [lia|].
  change Multihop.MAX_MULTIHOP_FRAME_BYTES with 65507 in Hf. destruct (Z.leb_spec (2 ^ 32) (lenZ frame)); [lia|].
  rewrite chunks_parts by (change (Z.to_nat OVERLAY_FRAGMENT_PAYLOAD_BYTES) with P; lia).
  change (Z.to_nat OVERLAY_FRAGMENT_PAYLOAD_BYTES) with P.
  change (Z.to_nat (div_ceil (lenZ frame) (Z.of_nat P))) with (frame_count frame).
  rewrite encode_chunks_eq by (rewrite ?length_map, ?length_seq; lia). f_equal.
  apply list_eq. intros i. rewrite list_lookup_imap, !list_lookup_fmap.
  destruct (seq 0 (frame_count frame) !! i) as [j|] eqn:E; simpl; [|done].
  apply lookup_seq in E as [-> _]. simpl. unfold fragment_of, part. by rewrite Z.add_0_l.
Qed.

(** ** Reading a fragment *)

Lemma part_length frame i : fragmentable frame -> (i < frame_count frame)%nat ->
  lenZ (part frame i) =
  if decide (S i = frame_count frame) then lenZ frame - 990 * (Z.of_nat (frame_count frame) - 1) else 990.
Proof.
  intros Hf Hi. pose proof (frame_count_bound frame Hf) as [Hc Hl]. unfold part. rewrite length_take, length_drop.
  case_decide; lia.
Qed.

Lemma digest_length frame : length (overlay_fragment_digest frame) = 16%nat.
Proof. unfold overlay_fragment_digest. rewrite length_take, sha256_length. done. Qed.

(** The fields of an encoded fragment are read back; what remains are the checks on them. *)
Lemma parse_encoded checks i c len dig payload :
  0 <= i < 2 ^ 16 -> 0 <= c < 2 ^ 16 -> 0 <= len < 2 ^ 32 -> length dig = 16%nat -> 0 < lenZ payload <= 990 ->
  parse_fragment checks (encode_overlay_fragment i c len dig payload) =
  if (len <=? 1024) || (65507 <? len) || (c <? 2) || (c <=? i) then Some (Err tt)
  else
    expected ← (if i + 1 =? c then usize_sub checks len (990 * (c - 1)) else Some 990);
    if negb (c =? div_ceil len 990) || negb (lenZ payload =? expected) then Some (Err tt)
    else Some (Ok {| fh_index := i; fh_count := c; fh_frame_len := len; fh_digest := dig; fh_payload := payload |}).
Proof.
  intros Hi Hc Hlen Hd Hp. set (dg := encode_overlay_fragment i c len dig payload).
  assert (Hdg : lenZ dg = 34 + lenZ payload).
  { unfold dg, encode_overlay_fragment. autorewrite with len. rewrite Hd. simpl. lia. }
  assert (H0 : drop (Z.to_nat 0) dg = OVERLAY_FRAGMENT_MAGIC ++ [Zbyte 1] ++ [Zbyte 0] ++ be_bytes 2 i ++
    be_bytes 2 c ++ be_bytes 4 len ++ dig ++ payload) by done.
  destruct (slice_at dg _ _ 0 8 ltac:(lia) H0 eq_refl) as [S0 H8].
  destruct (slice_at dg _ _ 8 9 ltac:(lia) H8 eq_refl) as [S8 H9].
  destruct (slice_at dg _ _ 9 10 ltac:(lia) H9 eq_refl) as [S9 H10].
  destruct (slice_at dg _ _ 10 12 ltac:(lia) H10) as [S10 H12]; [by rewrite length_be_bytes|].
  destruct (slice_at dg _ _ 12 14 ltac:(lia) H12) as [S12 H14]; [by rewrite length_be_bytes|].
  destruct (slice_at dg _ _ 14 18 ltac:(lia) H14) as [S14 H18]; [by rewrite length_be_bytes|].
  destruct (slice_at dg _ _ 18 34 ltac:(lia) H18) as [S18 H34]; [by rewrite Hd|].
  assert (Hmagic : slice_get dg 0 8 = Some OVERLAY_FRAGMENT_MAGIC).
  { unfold slice in S0. destruct (slice_get dg 0 8) as [s|] eqn:E; [simpl in S0; by f_equal|].
    unfold slice_get in E. destruct (_ && _ && _)%bool eqn:Eg; [done|]. lia. }
  unfold parse_fragment. change OVERLAY_FRAGMENT_HEADER_BYTES with 34. change OVERLAY_FRAGMENT_PAYLOAD_BYTES with 990.
  change OVERLAY_FRAGMENT_VERSION with 1. change MAX_OVERLAY_TRANSIT_DATAGRAM_BYTES with 1024.
  change Multihop.MAX_MULTIHOP_FRAME_BYTES with 65507.
  rewrite Hdg, S8, S9, S10, S12, S14, S18, H34. rewrite (bool_decide_true _ Hmagic).
  rewrite !be_value_be_bytes by lia. change (be_value [Zbyte 1]) with 1. change (be_value [Zbyte 0]) with 0.
  replace (34 + lenZ payload <=? 34) with false by lia. by replace (1024 <? 34 + lenZ payload) with false by lia.
Qed.

Lemma parse_fragment_of checks frame i :
  fragmentable frame -> (i < frame_count frame)%nat ->
  parse_fragment checks (fragment_of frame i) =
  Some (Ok {| fh_index := Z.of_nat i; fh_count := Z.of_nat (frame_count frame); fh_frame_len := lenZ frame;
              fh_digest := overlay_fragment_digest frame; fh_payload := part frame i |}).
Proof.
  intros Hf Hi. pose proof (frame_count_bound frame Hf) as [Hc Hl]. pose proof (part_length frame i Hf Hi) as Hp.
  pose proof (frame_count_eq frame Hf) as Hec. unfold fragmentable in Hf.
  change MAX_OVERLAY_TRANSIT_DATAGRAM_BYTES with 1024 in *. change Multihop.MAX_MULTIHOP_FRAME_BYTES with 65507 in *.
  unfold fragment_of. rewrite parse_encoded; [|lia|lia|lia|apply digest_length|rewrite Hp; case_decide; lia].
  replace ((lenZ frame <=? 1024) || (65507 <? lenZ frame) || (Z.of_nat (frame_count frame) <? 2)
    || (Z.of_nat (frame_count frame) <=? Z.of_nat i)) with false by lia.
  replace (div_ceil (lenZ frame) 990) with (Z.of_nat (frame_count frame)) by (rewrite Hec; unfold div_ceil; f_equal; lia).
  rewrite Z.eqb_refl. destruct (decide (S i = frame_count frame)) as [E|E].
  - replace (Z.of_nat i + 1 =? Z.of_nat (frame_count frame)) with true by lia.
    unfold usize_sub. replace (990 * (Z.of_nat (frame_count frame) - 1) <=? lenZ frame) with true by lia.
    cbn [mbind option_bind]. by rewrite Hp, Z.eqb_refl.
  - replace (Z.of_nat i + 1 =? Z.of_nat (frame_count frame)) with false by lia.
    cbn [mbind option_bind]. by rewrite Hp.
Qed.

(** Every fragment fits a hop datagram. *)
Lemma fragment_length frame i : fragmentable frame -> (i < frame_count frame)%nat ->
  lenZ (fragment_of frame i) <= MAX_OVERLAY_TRANSIT_DATAGRAM_BYTES.
Proof.
  intros Hf Hi. pose proof (frame_count_bound frame Hf) as [Hc Hl]. pose proof (part_length frame i Hf Hi) as Hp.
  unfold fragment_of, encode_overlay_fragment. autorewrite with len. rewrite digest_length.
  change (length OVERLAY_FRAGMENT_MAGIC) with 8%nat. change MAX_OVERLAY_TRANSIT_DATAGRAM_BYTES with 1024.
  destruct (decide (S i = frame_count frame)); cbn [length]; lia.
Qed.

(** ** The reassembler *)

Definition total (m : gmap fragment_key PendingOverlayFrame) : Z :=
  map_fold (fun _ f z => frame_len f + z) 0 m.

Lemma total_insert m k f : m !! k = None -> total (<[k := f]> m) = frame_len f + total m.
Proof. intros Hk. unfold total. rewrite map_fold_insert_L; [done| |done]. intros. lia. Qed.

Lemma total_delete m k f : m !! k = Some f -> total m = frame_len f + total (delete k m).
Proof. intros Hk. unfold total. rewrite (map_fold_delete_L _ _ k f m); [done| |done]. intros. lia. Qed.

Lemma total_update m k f f' :
  m !! k = Some f -> frame_len f' = frame_len f -> total (<[k := f']> m) = total m.
Proof.
  intros Hk Hl. rewrite (total_delete m k f Hk), (total_delete (<[k := f']> m) k f') by by rewrite lookup_insert_eq.
  by rewrite delete_insert_eq, Hl.
Qed.

Definition received (l : list (option bytes)) : Z := lenZ (filter is_Some l).

(** A pending frame: one slot per expected fragment, some of them still empty. *)
Record frame_ok (f : PendingOverlayFrame) : Prop := {
  fo_len : 1024 < frame_len f <= 65507;
  fo_count : fragment_count f = div_ceil (frame_len f) 990;
  fo_slots : lenZ (fragments f) = fragment_count f;
  fo_received : received_count f = received (fragments f);
  fo_missing : received_count f < fragment_count f
}.

Record reassembler_ok (st : OverlayFragmentReassembler) : Prop := {
  ra_size : Z.of_nat (size (pending st)) <= MAX_PENDING_FRAGMENTED_FRAMES;
  ra_reserved : reserved_bytes st = total (pending st);
  ra_frames : map_Forall (fun _ f => frame_ok f) (pending st)
}.

Lemma total_bounds m : map_Forall (fun _ f => frame_ok f) m -> 0 <= total m <= 65507 * Z.of_nat (size m).
Proof.
  induction m as [|k f m Hk IH] using map_ind; intros Hm; [done|].
  apply map_Forall_insert in Hm as [Hf Hm]; [|done]. rewrite total_insert, map_size_insert_None by done.
  specialize (IH Hm). destruct Hf as [? _ _ _ _]. lia.
Qed.

(** The reserved bytes never exceed their bound. *)
Lemma reserved_bound st : reassembler_ok st -> 0 <= reserved_bytes st <= MAX_PENDING_FRAGMENTED_FRAME_BYTES.
Proof.
  intros [Hs -> Hf]. apply total_bounds in Hf. unfold MAX_PENDING_FRAGMENTED_FRAME_BYTES, MAX_PENDING_FRAGMENTED_FRAMES in *.
  change Multihop.MAX_MULTIHOP_FRAME_BYTES with 65507. lia.
Qed.

Lemma remove_spec st k :
  reassembler_ok st -> reassembler_ok (remove k st) /\ pending (remove k st) = delete k (pending st).
Proof.
  intros [H1 H2 H3]. unfold remove. destruct (pending st !! k) as [f|] eqn:E.
  - split; [|done]. pose proof (total_delete _ _ _ E) as Ht.
    assert (Hd : map_Forall (fun _ f => frame_ok f) (delete k (pending st))) by by apply map_Forall_delete.
    pose proof (total_bounds _ Hd). split; simpl.
    + rewrite map_size_delete_Some by by rewrite E. lia.
    + unfold saturating_sub. lia.
    + done.
  - split; [by split|]. by rewrite delete_id.
Qed.

Lemma remove_all_spec st ks :
  reassembler_ok st ->
  reassembler_ok (foldl (fun st k => remove k st) st ks) /\
  forall k, pending (foldl (fun st k => remove k st) st ks) !! k = if decide (k ∈ ks) then None else pending st !! k.
Proof.
  revert st. induction ks as [|x ks IH]; intros st Hst; cbn [foldl].
  { split; [done|]. intros k. by rewrite decide_False by apply not_elem_of_nil. }
  destruct (remove_spec st x Hst) as [Hr Hp]. destruct (IH _ Hr) as [H1 H2]. split; [done|].
  intros k. rewrite H2, Hp. destruct (decide (k ∈ ks)) as [Hk|Hk].
  - rewrite decide_True by by constructor. done.
  - destruct (decide (k = x)) as [->|Hkx].
    + rewrite decide_True by constructor. apply lookup_delete_eq.
    + rewrite decide_False by (by apply not_elem_of_cons). by rewrite lookup_delete_ne by congruence.
Qed.

(** Pruning drops exactly the expired frames. *)
Lemma prune_spec now st :
  reassembler_ok st ->
  reassembler_ok (prune_expired now st) /\
  forall k, pending (prune_expired now st) !! k =
    match pending st !! k with
    | Some f => if expires_at f <=? now then None else Some f
    | None => None
    end.
Proof.
  intros Hst. unfold prune_expired.
  set (ks := omap _ _). destruct (remove_all_spec st ks Hst) as [H1 H2]. split; [done|].
  intros k. rewrite H2.
  assert (Hk : k ∈ ks <-> exists f, pending st !! k = Some f /\ (expires_at f <=? now) = true).
  { unfold ks. rewrite list_elem_of_omap. split.
    - intros ([k' f] & Hin & Hx). apply elem_of_map_to_list in Hin.
      destruct (expires_at f <=? now) eqn:E; [|done]. injection Hx as ->. by exists f.
    - intros (f & Hf & Hx). exists (k, f). rewrite Hx. by rewrite elem_of_map_to_list. }
  case_decide as Hd.
  - apply Hk in Hd as (f & -> & ->). done.
  - destruct (pending st !! k) as [f|] eqn:E; [|done]. destruct (expires_at f <=? now) eqn:Ex; [|done].
    destruct Hd. apply Hk. by exists f.
Qed.

Lemma received_replicate n : received (replicate n None) = 0.
Proof. unfold received. induction n as [|n IH]; [done|]. cbn [replicate]. by rewrite filter_cons_False by (by intros [? ?]). Qed.

Lemma received_insert l i p : l !! i = Some None -> received (<[i := Some p]> l) = received l + 1.
Proof.
  unfold received. revert i. induction l as [|o l IH]; intros [|i] Hi; try done.
  - injection Hi as ->. change (<[O := Some p]> (None :: l)) with (Some p :: l).
    rewrite (filter_cons_True is_Some (Some p)) by by eexists. rewrite filter_cons_False by (by intros [? ?]).
    rewrite length_cons. lia.
  - change (<[S i := Some p]> (o :: l)) with (o :: <[i := Some p]> l). rewrite !filter_cons. specialize (IH i Hi). destruct (decide (is_Some o)); simpl; lia.
Qed.

Lemma parse_fragment_header checks dg h :
  parse_fragment checks dg = Some (Ok h) ->
  1024 < fh_frame_len h <= 65507 /\ fh_count h = div_ceil (fh_frame_len h) 990 /\ 0 <= fh_index h < fh_count h /\
  fh_digest h = slice dg 18 34.
Proof.
  unfold parse_fragment. change OVERLAY_FRAGMENT_PAYLOAD_BYTES with 990. change OVERLAY_FRAGMENT_HEADER_BYTES with 34.
  change MAX_OVERLAY_TRANSIT_DATAGRAM_BYTES with 1024. change Multihop.MAX_MULTIHOP_FRAME_BYTES with 65507.
  set (index := be_value (slice dg 10 12)). assert (0 <= index) by apply be_value_bound. clearbody index.
  do 2 match goal with |- (if ?b then _ else _) = _ -> _ => destruct b eqn:?; [done|] end.
  destruct (if index + 1 =? _ then _ else _) as [n|]; [|done]. cbn [mbind option_bind].
  match goal with |- (if ?b then _ else _) = _ -> _ => destruct b eqn:?; [done|] end. intros [= <-]. cbn [fh_frame_len fh_count fh_index fh_digest].
  bool_to_prop. split_and!; try lia. done.
Qed.

Lemma parse_total dg : exists r, parse_fragment false dg = Some r.
Proof.
  unfold parse_fragment, usize_sub. cbv zeta.
  repeat match goal with |- context [if ?b then _ else _] => destruct b end; cbn [mbind option_bind];
    repeat match goal with |- context [if ?b then _ else _] => destruct b end; by eexists.
Qed.

Lemma reserve_spec key len count now st st' :
  reassembler_ok st -> 1024 < len <= 65507 -> count = div_ceil len 990 ->
  reserve key len count now st = Ok st' ->
  reassembler_ok st' /\ (exists f, pending st' !! key = Some f) /\
  forall k, k <> key -> pending st' !! k = pending st !! k.
Proof.
  intros Hst Hlen Hc. unfold reserve. destruct (pending st !! key) as [f|] eqn:E.
  { intros [= <-]. split_and!; [done|by exists f|done]. }
  destruct (_ || _)%bool eqn:Eg; [done|]. intros [= <-]. bool_to_prop. destruct Hst as [S1 S2 S3].
  split_and!; simpl.
  - split; simpl.
    + rewrite map_size_insert_None by done. unfold MAX_PENDING_FRAGMENTED_FRAMES in *. lia.
    + rewrite total_insert by done. simpl. lia.
    + apply map_Forall_insert_2; [|done]. split; simpl; [done|done| | |].
      * rewrite length_replicate. subst count. unfold div_ceil. rewrite Z2Nat.id; [done|]. apply Z.div_pos; lia.
      * by rewrite received_replicate.
      * subst count. unfold div_ceil. dlia.
  - rewrite lookup_insert_eq. by eexists.
  - intros k Hk. by rewrite lookup_insert_ne.
Qed.

Lemma assemble_intact f digest frame :
  assemble f digest = Ok (Some frame) ->
  lenZ frame = frame_len f /\ overlay_fragment_digest frame = digest.
Proof.
  unfold assemble. destruct (mapM id (fragments f)) as [parts|]; [|done].
  destruct (_ || _)%bool eqn:E; [done|]. intros [= <-]. bool_to_prop. done.
Qed.

(** One datagram: the bounds are kept, what is delivered is intact, and only the frame
    the datagram belongs to changes. *)
Lemma push_spec checks source dg now st st' r :
  reassembler_ok st -> push checks source dg now st = Some (st', r) ->
  reassembler_ok st' /\
  (forall frame, r = Ok (Some frame) -> fragmentable frame /\ overlay_fragment_digest frame = slice dg 18 34) /\
  (forall k, k <> (source, slice dg 18 34) -> pending st' !! k = pending (prune_expired now st) !! k).
Proof.
  intros Hst. unfold push. destruct (prune_spec now st Hst) as [Hp _]. set (st0 := prune_expired now st) in *. clearbody st0.
  destruct (parse_fragment checks dg) as [[h|e]|] eqn:Eh; [| |done]; cbn [mbind option_bind].
  2:{ intros [= <- <-]. split_and!; [done|done|done]. }
  destruct (parse_fragment_header _ _ _ Eh) as (Hlen & Hcount & Hidx & Hdig). rewrite <- Hdig.
  destruct (reserve _ _ _ _ _) as [st1|e] eqn:Er; [|intros [= <- <-]; by split_and!].
  destruct (reserve_spec _ _ _ _ _ _ Hp Hlen Hcount Er) as (Hst1 & [f Hf] & Hother). rewrite Hf.
  set (key := (source, fh_digest h)) in *.
  destruct (remove_spec st1 key Hst1) as [Hrm Hrmp].
  assert (Hrmo : forall k, k <> key -> pending (remove key st1) !! k = pending st0 !! k).
  { intros k Hk. rewrite Hrmp, lookup_delete_ne by congruence. by apply Hother. }
  destruct (_ || _)%bool eqn:Em; [intros [= <- <-]; by split_and!|]. bool_to_prop.
  destruct (fragments f !! Z.to_nat (fh_index h)) as [slot|] eqn:Es; [|done]. cbn [mbind option_bind].
  destruct slot as [ex|]; [case_bool_decide; intros [= <- <-]; by split_and!|].
  pose proof (ra_frames _ Hst1 _ _ Hf) as Hfo. destruct Hfo as [F1 F2 F3 F4 F5].
  set (g := store f (Z.to_nat (fh_index h)) (fh_payload h)).
  assert (Hrec : received_count g = received (fragments g)) by (simpl; rewrite received_insert by done; lia).
  destruct (received_count g =? fh_count h) eqn:Ec; simpl negb; cbv iota; intros [= <- <-].
  - destruct Hrm as [R1 R2 R3]. unfold remove in R1, R2, R3, Hrmo. rewrite Hf in R1, R2, R3, Hrmo.
    split_and!; [by split| |done]. intros frame [Hfl Hfd]%assemble_intact. split; [|done].
    unfold fragmentable. change MAX_OVERLAY_TRANSIT_DATAGRAM_BYTES with 1024. change Multihop.MAX_MULTIHOP_FRAME_BYTES with 65507.
    simpl in Hfl. lia.
  - bool_to_prop. split_and!; [|done|].
    + destruct Hst1 as [S1 S2 S3]. split; simpl.
      * rewrite map_size_insert_Some by by rewrite Hf. done.
      * by rewrite (total_update _ _ f).
      * apply map_Forall_insert_2; [|done]. split; try done; [by simpl; rewrite length_insert|]. simpl in *. lia.
    + intros k Hk. simpl. rewrite lookup_insert_ne by congruence. by apply Hother.
Qed.

Lemma push_total source dg now st : reassembler_ok st -> exists st' r, push false source dg now st = Some (st', r).
Proof.
  intros Hst. unfold push. destruct (prune_spec now st Hst) as [Hp _]. set (st0 := prune_expired now st) in *. clearbody st0.
  destruct (parse_total dg) as [[h|e] Eh]; rewrite Eh; cbn [mbind option_bind]; [|by eexists _, _].
  destruct (parse_fragment_header _ _ _ Eh) as (Hlen & Hcount & Hidx & _).
  destruct (reserve _ _ _ _ _) as [st1|e] eqn:Er; [|by eexists _, _].
  destruct (reserve_spec _ _ _ _ _ _ Hp Hlen Hcount Er) as (Hst1 & [f Hf] & _). rewrite Hf.
  destruct (_ || _)%bool eqn:Em; [by eexists _, _|]. bool_to_prop.
  destruct (lookup_lt_is_Some_2 (fragments f) (Z.to_nat (fh_index h))) as [slot ->].
  { pose proof (ra_frames _ Hst1 _ _ Hf) as [_ _ F3 _ _]. lia. }
  cbn [mbind option_bind]. destruct slot; [case_bool_decide|destruct (negb _)]; by eexists _, _.
Qed.

(** ** Runs *)

Record arrival : Type := { from_addr : SocketAddr; datagram : bytes; at_time : Z }.

Definition push_arrival (checks : bool) (e : arrival) : OverlayFragmentReassembler -> _ :=
  push checks (from_addr e) (datagram e) (at_time e).

Fixpoint push_all (checks : bool) (es : list arrival) (st : OverlayFragmentReassembler)
  : option (OverlayFragmentReassembler * list (result (option bytes) unit)) :=
  match es with
  | [] => Some (st, [])
  | e :: es =>
      '(st, r) ← push_arrival checks e st;
      '(st, rs) ← push_all checks es st;
      Some (st, r :: rs)
  end.

(** What a delivered frame promises. *)
Definition intact (e : arrival) (r : result (option bytes) unit) : Prop :=
  forall frame, r = Ok (Some frame) -> fragmentable frame /\ overlay_fragment_digest frame = slice (datagram e) 18 34.

Lemma push_all_spec es st :
  reassembler_ok st ->
  exists st' rs, push_all false es st = Some (st', rs) /\ reassembler_ok st' /\ Forall2 intact es rs.
Proof.
  revert st. induction es as [|e es IH]; intros st Hst; [by exists st, []|]. cbn [push_all].
  destruct (push_total (from_addr e) (datagram e) (at_time e) st Hst) as (st1 & r & E).
  unfold push_arrival. rewrite E. cbn [mbind option_bind].
  destruct (push_spec _ _ _ _ _ _ _ Hst E) as (H1 & Hi & _).
  destruct (IH st1 H1) as (st' & rs & E' & H' & Hrs). rewrite E'. cbn [mbind option_bind].
  exists st', (r :: rs). split_and!; [done|done|by constructor].
Qed.

Lemma new_ok : reassembler_ok reassembler_new.
Proof. split; simpl; [by rewrite map_size_empty|done|by apply map_Forall_empty]. Qed.

(** whatever datagrams arrive, from whichever senders and at whatever times, the
    release build's reassembler answers each of them, never holds more than
    [MAX_PENDING_FRAGMENTED_FRAMES] frames, accounts exactly for the bytes it reserved and
    keeps them within [MAX_PENDING_FRAGMENTED_FRAME_BYTES], and every frame it delivers
    has a legal length and the digest its last fragment carries. *)
Theorem reassembler_bounded (es : list arrival) :
  exists st rs, push_all false es reassembler_new = Some (st, rs) /\
    Z.of_nat (size (pending st)) <= MAX_PENDING_FRAGMENTED_FRAMES /\
    reserved_bytes st = total (pending st) /\
    0 <= reserved_bytes st <= MAX_PENDING_FRAGMENTED_FRAME_BYTES /\
    Forall2 intact es rs.
Proof.
  destruct (push_all_spec es _ new_ok) as (st & rs & E & Hst & Hi). exists st, rs.
  split_and!; try done; try by apply reserved_bound. all: apply Hst.
Qed.

(** ** A frame that arrives in fragments *)

(** The slots of a frame of which the fragments [seen] arrived. *)
Definition slots (frame : bytes) (seen : list nat) : list (option bytes) :=
  map (fun i => if decide (i ∈ seen) then Some (part frame i) else None) (seq 0 (frame_count frame)).

Definition pending_frame (frame : bytes) (t0 : Z) (seen : list nat) : PendingOverlayFrame :=
  {| expires_at := t0 + OVERLAY_FRAGMENT_REASSEMBLY_TIMEOUT; frame_len := lenZ frame;
     fragment_count := Z.of_nat (frame_count frame); received_count := received (slots frame seen);
     fragments := slots frame seen |}.

Definition all_seen (frame : bytes) (seen : list nat) : Prop := forall i, (i < frame_count frame)%nat -> i ∈ seen.

Lemma slots_lookup frame seen i : (i < frame_count frame)%nat ->
  slots frame seen !! i = Some (if decide (i ∈ seen) then Some (part frame i) else None).
Proof. intros Hi. unfold slots. rewrite list_lookup_fmap, lookup_seq_lt by done. done. Qed.

Lemma slots_insert frame seen i : <[i := Some (part frame i)]> (slots frame seen) = slots frame (i :: seen).
Proof.
  apply list_eq. intros j. destruct (decide (j < frame_count frame)%nat) as [Hj|Hj].
  - rewrite (slots_lookup _ (i :: seen)) by done. destruct (decide (j = i)) as [->|Hji].
    + rewrite list_lookup_insert_eq by (unfold slots; by rewrite length_map, length_seq).
      by rewrite decide_True by constructor.
    + rewrite list_lookup_insert_ne, slots_lookup by done. f_equal.
      destruct (decide (j ∈ seen)); [rewrite decide_True by by constructor|rewrite decide_False by by apply not_elem_of_cons]; done.
  - rewrite !lookup_ge_None_2; [done| |]; unfold slots; rewrite ?length_insert, length_map, length_seq; lia.
Qed.

Lemma received_full l : received l = lenZ l <-> Forall is_Some l.
Proof.
  unfold received. induction l as [|o l IH]; [done|]. rewrite filter_cons, Forall_cons.
  pose proof (length_filter is_Some l). destruct (decide (is_Some o)); simpl; split; intros; destruct_and?; try lia.
  - split; [done|]. apply IH. lia.
  - pose proof (proj2 IH ltac:(done)). lia.
  - done.
Qed.

Lemma slots_full frame seen : received (slots frame seen) = Z.of_nat (frame_count frame) <-> all_seen frame seen.
Proof.
  replace (Z.of_nat (frame_count frame)) with (lenZ (slots frame seen)) by (unfold slots; by rewrite length_map, length_seq).
  rewrite received_full. split; intros Hall.
  - intros i Hi. eapply Forall_lookup_1 in Hall; [|by apply slots_lookup]. case_decide; [done|by destruct Hall].
  - apply Forall_lookup. intros i o Ho.
    assert (Hi : (i < frame_count frame)%nat).
    { apply lookup_lt_Some in Ho. unfold slots in Ho. by rewrite length_map, length_seq in Ho. }
    rewrite slots_lookup in Ho by done. injection Ho as <-. rewrite decide_True by by apply Hall. by eexists.
Qed.

#[local] Instance all_seen_dec frame seen : Decision (all_seen frame seen).
Proof.
  destruct (decide (received (slots frame seen) = Z.of_nat (frame_count frame))); [left|right]; by rewrite <- slots_full.
Defined.

Lemma slots_none frame : slots frame [] = replicate (frame_count frame) None.
Proof. unfold slots. generalize 0%nat. induction (frame_count frame) as [|n IH]; intros k; [done|]. cbn [seq map replicate]. by rewrite IH. Qed.

Lemma slots_concat frame seen : fragmentable frame -> all_seen frame seen ->
  exists parts, mapM id (slots frame seen) = Some parts /\ concat parts = frame.
Proof.
  intros Hf Hs. exists (map (part frame) (seq 0 (frame_count frame))). split.
  - apply mapM_Some_2. apply Forall2_same_length_lookup_2; unfold slots; [by rewrite !length_map|].
    intros i x y Hx Hy. rewrite list_lookup_fmap in Hx. rewrite (list_lookup_fmap (part frame)) in Hy.
    destruct (seq 0 (frame_count frame) !! i) as [j|] eqn:E; [|done]. simpl in *.
    apply lookup_seq in E as [-> E]. simplify_eq. simpl. rewrite decide_True by by apply Hs. done.
  - rewrite parts_concat. apply take_ge. pose proof (frame_count_bound frame Hf). lia.
Qed.

Lemma assemble_complete frame t0 seen : fragmentable frame -> all_seen frame seen ->
  assemble (pending_frame frame t0 seen) (overlay_fragment_digest frame) = Ok (Some frame).
Proof.
  intros Hf Hs. unfold assemble. simpl. destruct (slots_concat frame seen Hf Hs) as (parts & -> & ->).
  rewrite Z.eqb_refl, bool_decide_true by done. done.
Qed.

Lemma slots_again frame seen i : i ∈ seen -> slots frame (i :: seen) = slots frame seen.
Proof.
  intros Hi. unfold slots. apply map_ext. intros j. destruct (decide (j ∈ seen)) as [Hj|Hj].
  - by rewrite decide_True by by constructor.
  - rewrite decide_False; [done|]. rewrite not_elem_of_cons. split; [congruence|done].
Qed.

(** A fragment of a frame whose entry is there: it completes the frame or is recorded. *)
Lemma push_fragment checks s frame i now st st1 t0 seen (key := (s, overlay_fragment_digest frame)) :
  fragmentable frame -> (i < frame_count frame)%nat ->
  reserve key (lenZ frame) (Z.of_nat (frame_count frame)) now (prune_expired now st) = Ok st1 ->
  pending st1 !! key = Some (pending_frame frame t0 seen) ->
  exists st' r, push checks s (fragment_of frame i) now st = Some (st', r) /\
    if decide (i ∉ seen /\ all_seen frame (i :: seen)) then r = Ok (Some frame) /\ pending st' !! key = None
    else r = Ok None /\ pending st' !! key = Some (pending_frame frame t0 (i :: seen)).
Proof.
  intros Hf Hi Hr Hp. unfold push. rewrite parse_fragment_of by done. cbn [mbind option_bind fh_digest fh_frame_len fh_count fh_index fh_payload].
  fold key. rewrite Hr, Hp. cbn [pending_frame frame_len fragment_count fragments]. rewrite !Z.eqb_refl. cbn [negb orb].
  rewrite Nat2Z.id, slots_lookup by done. cbn [mbind option_bind].
  destruct (decide (i ∈ seen)) as [Hin|Hin].
  - rewrite bool_decide_true by done. eexists _, _. split; [done|]. rewrite decide_False by tauto. split; [done|].
    rewrite Hp. unfold pending_frame. by rewrite slots_again.
  - assert (Hst : store (pending_frame frame t0 seen) i (part frame i) = pending_frame frame t0 (i :: seen)).
    { unfold store, pending_frame. simpl. rewrite <- slots_insert, received_insert; [done|].
      rewrite slots_lookup by done. by rewrite decide_False. }
    fold (pending_frame frame t0 seen). rewrite Hst. cbn [pending_frame received_count].
    destruct (Z.eqb_spec (received (slots frame (i :: seen))) (Z.of_nat (frame_count frame))) as [E|E]; cbn [negb];
      rewrite slots_full in E; fold (pending_frame frame t0 (i :: seen)); eexists _, _; (split; [done|]).
    + rewrite decide_True by done. split; [by apply assemble_complete|]. apply lookup_delete_eq.
    + rewrite decide_False by tauto. split; [done|]. apply lookup_insert_eq.
Qed.

(** Datagram [i] of the frame, as its sender cut it, arriving from [s]. *)
Definition fragment_arrival (s : SocketAddr) (frame : bytes) (e : arrival) (i : nat) : Prop :=
  from_addr e = s /\ exists sent, frame_datagrams frame = Some sent /\ sent !! i = Some (datagram e).

(** Arrivals of fragments of the frame, each before the entry made at [t0] expires,
    among datagrams of other senders and other frames. *)
Inductive interleaved (s : SocketAddr) (frame : bytes) (t0 : Z) : list arrival -> list nat -> Prop :=
| interleaved_nil : interleaved s frame t0 [] []
| interleaved_fragment e es i seen :
    fragment_arrival s frame e i -> at_time e < t0 + OVERLAY_FRAGMENT_REASSEMBLY_TIMEOUT ->
    interleaved s frame t0 es seen -> interleaved s frame t0 (e :: es) (i :: seen)
| interleaved_other e es seen :
    (from_addr e, slice (datagram e) 18 34) <> (s, overlay_fragment_digest frame) ->
    at_time e < t0 + OVERLAY_FRAGMENT_REASSEMBLY_TIMEOUT ->
    interleaved s frame t0 es seen -> interleaved s frame t0 (e :: es) seen.

Lemma fragment_arrival_inv s frame e i : fragmentable frame -> fragment_arrival s frame e i ->
  from_addr e = s /\ datagram e = fragment_of frame i /\ (i < frame_count frame)%nat.
Proof.
  intros Hf (Hs & sent & Hd & Hi). rewrite frame_datagrams_fragments in Hd by done. injection Hd as <-.
  rewrite list_lookup_fmap in Hi. destruct (seq 0 (frame_count frame) !! i) as [j|] eqn:E; [|done].
  apply lookup_seq in E as [-> E]. by injection Hi as <-.
Qed.

Lemma kept_entry now st key f : reassembler_ok st -> pending st !! key = Some f -> now < expires_at f ->
  pending (prune_expired now st) !! key = Some f.
Proof.
  intros Hst Hk Hn. rewrite (proj2 (prune_spec now st Hst)), Hk.
  destruct (Z.leb_spec (expires_at f) now); [lia|done].
Qed.

Lemma reserve_present key len count now st f : pending st !! key = Some f -> reserve key len count now st = Ok st.
Proof. intros Hk. unfold reserve. by rewrite Hk. Qed.

Lemma reserve_frame s frame now st (key := (s, overlay_fragment_digest frame)) :
  fragmentable frame -> reassembler_ok st -> pending st !! key = None ->
  Z.of_nat (size (pending st)) < MAX_PENDING_FRAGMENTED_FRAMES ->
  exists st1, reserve key (lenZ frame) (Z.of_nat (frame_count frame)) now (prune_expired now st) = Ok st1 /\
    pending st1 !! key = Some (pending_frame frame now []).
Proof.
  intros Hf Hst Hk Hsz. destruct (prune_spec now st Hst) as [Hp Hl]. set (st0 := prune_expired now st) in *. clearbody st0.
  assert (Hsub : pending st0 ⊆ pending st).
  { apply map_subseteq_spec. intros k f. rewrite Hl. destruct (pending st !! k); [|done]. by destruct (_ <=? _). }
  apply map_subseteq_size in Hsub. unfold reserve. rewrite Hl, Hk.
  pose proof (ra_reserved _ Hp) as Hr. pose proof (total_bounds _ (ra_frames _ Hp)) as Hb.
  unfold fragmentable, MAX_PENDING_FRAGMENTED_FRAME_BYTES, MAX_PENDING_FRAGMENTED_FRAMES, saturating_add in *.
  change Multihop.MAX_MULTIHOP_FRAME_BYTES with 65507 in *.
  destruct (Z.leb_spec 256 (Z.of_nat (size (pending st0)))); [lia|].
  destruct (Z.ltb_spec (256 * 65507) (Z.min (reserved_bytes st0 + lenZ frame) (2 ^ 64 - 1))); [lia|].
  eexists. split; [done|]. cbn [pending]. rewrite lookup_insert_eq. unfold pending_frame.
  by rewrite slots_none, received_replicate, Nat2Z.id.
Qed.

Lemma not_complete frame last i seen :
  (last < frame_count frame)%nat -> last ∉ i :: seen -> ~ (i ∉ seen /\ all_seen frame (i :: seen)).
Proof. intros Hl Hn [_ Ha]. by apply Hn, Ha. Qed.

Lemma run_tracked s frame t0 last es js (key := (s, overlay_fragment_digest frame)) :
  fragmentable frame -> (last < frame_count frame)%nat -> interleaved s frame t0 es js -> last ∉ js ->
  forall st seen, reassembler_ok st -> pending st !! key = Some (pending_frame frame t0 seen) -> last ∉ seen ->
  exists st' rs seen', push_all false es st = Some (st', rs) /\ reassembler_ok st' /\
    pending st' !! key = Some (pending_frame frame t0 seen') /\ (forall i, i ∈ seen' <-> i ∈ js \/ i ∈ seen) /\
    (length js = length es -> Forall (eq (Ok None)) rs).
Proof.
  intros Hf Hlast Hil. assert (Hlen : (length js <= length es)%nat) by (induction Hil; simpl; lia). revert Hlen. induction Hil as [|e es i js Ha Ht Hil IH|e es js Ho Ht Hil IH]; intros Hlen Hjs st seen Hst Hk Hs.
  { exists st, [], seen. split_and!; [done|done|done| |by constructor]. intros i. rewrite elem_of_nil. tauto. }
  - apply not_elem_of_cons in Hjs as [Hne Hjs]. apply fragment_arrival_inv in Ha as (Hs' & Hd & Hi); [|done].
    pose proof (kept_entry (at_time e) st key _ Hst Hk Ht) as Hk'.
    destruct (push_fragment false s frame i (at_time e) st _ t0 seen Hf Hi (reserve_present _ _ _ _ _ _ Hk') Hk') as (st1 & r & E & Hr).
    rewrite decide_False in Hr by (apply (not_complete frame last); [done|by apply not_elem_of_cons]). destruct Hr as [-> Hk1].
    destruct (push_spec _ _ _ _ _ _ _ Hst E) as [Hst1 _].
    destruct (IH ltac:(simpl in Hlen; lia) Hjs st1 (i :: seen) Hst1 Hk1) as (st' & rs & seen' & E' & Hst' & Hk2 & Hseen & Hrs);
      [by apply not_elem_of_cons|].
    exists st', (Ok None :: rs), seen'. split_and!; [|done|done| |].
    + cbn [push_all]. unfold push_arrival. rewrite Hs', Hd, E. cbn [mbind option_bind]. by rewrite E'.
    + intros j. rewrite Hseen, !elem_of_cons. tauto.
    + intros Hl. constructor; [done|]. apply Hrs. simpl in Hl. lia.
  - destruct (push_total (from_addr e) (datagram e) (at_time e) st Hst) as (st1 & r & E).
    destruct (push_spec _ _ _ _ _ _ _ Hst E) as (Hst1 & _ & Hother).
    assert (Hk1 : pending st1 !! key = Some (pending_frame frame t0 seen)).
    { rewrite Hother by (unfold key; congruence). by apply kept_entry. }
    assert (Hle : (length js <= length es)%nat) by (clear -Hil; induction Hil; simpl; lia).
    destruct (IH Hle Hjs st1 seen Hst1 Hk1 Hs) as (st' & rs & seen' & E' & Hst' & Hk2 & Hseen & Hrs).
    exists st', (r :: rs), seen'. split_and!; [|done|done|done|simpl; lia].
    cbn [push_all]. unfold push_arrival. rewrite E. cbn [mbind option_bind]. by rewrite E'.
Qed.

(** The fragments of a frame complete it; without other datagrams in between, all but the
    last answer that more is needed. *)
Lemma fragments_complete s frame st first mid final first_index mid_indexes final_index sent
    (key := (s, overlay_fragment_digest frame)) :
  fragmentable frame -> frame_datagrams frame = Some sent ->
  reassembler_ok st -> pending st !! key = None -> Z.of_nat (size (pending st)) < MAX_PENDING_FRAGMENTED_FRAMES ->
  fragment_arrival s frame first first_index ->
  interleaved s frame (at_time first) mid mid_indexes ->
  fragment_arrival s frame final final_index ->
  at_time final < at_time first + OVERLAY_FRAGMENT_REASSEMBLY_TIMEOUT ->
  final_index ∉ first_index :: mid_indexes ->
  (forall i, (i < length sent)%nat -> i ∈ final_index :: first_index :: mid_indexes) ->
  exists st1 rs st2, push_all false (first :: mid) st = Some (st1, rs) /\
    push_arrival false final st1 = Some (st2, Ok (Some frame)) /\ pending st2 !! key = None /\
    (length mid_indexes = length mid -> Forall (eq (Ok None)) rs).
Proof.
  intros Hf Hsent Hst Hk Hroom H0 Hmid Hfin Ht Hnew Hall.
  rewrite frame_datagrams_fragments in Hsent by done. injection Hsent as <-. rewrite length_map, length_seq in Hall.
  apply fragment_arrival_inv in H0 as (Hs0 & Hd0 & Hi0); [|done].
  apply fragment_arrival_inv in Hfin as (Hs1 & Hd1 & Hi1); [|done].
  destruct (reserve_frame s frame (at_time first) st Hf Hst Hk Hroom) as (sta & Hra & Hka).
  destruct (push_fragment false s frame first_index (at_time first) st sta _ [] Hf Hi0 Hra Hka) as (stb & r & E & Hr).
  apply not_elem_of_cons in Hnew as [Hne Hnew].
  rewrite decide_False in Hr by (eapply not_complete; [apply Hi1|apply not_elem_of_cons; split; [done|apply not_elem_of_nil]]).
  destruct Hr as [-> Hkb]. destruct (push_spec _ _ _ _ _ _ _ Hst E) as [Hstb _].
  destruct (run_tracked s frame _ final_index mid mid_indexes Hf Hi1 Hmid Hnew stb _ Hstb Hkb)
    as (st1 & rs & seen & E1 & Hst1 & Hk1 & Hseen & Hrs); [apply not_elem_of_cons; split; [done|apply not_elem_of_nil]|].
  pose proof (kept_entry (at_time final) st1 key _ Hst1 Hk1 Ht) as Hk'.
  destruct (push_fragment false s frame final_index (at_time final) st1 _ _ seen Hf Hi1 (reserve_present _ _ _ _ _ _ Hk') Hk')
    as (st2 & r & E2 & Hr).
  rewrite decide_True in Hr; [destruct Hr as [-> Hk2]|].
  - exists st1, (Ok None :: rs), st2. unfold push_arrival. split_and!; [|by rewrite Hs1, Hd1|done|by constructor; auto].
    cbn [push_all]. unfold push_arrival. rewrite Hs0, Hd0, E. cbn [mbind option_bind]. by rewrite E1.
  - split.
    + rewrite Hseen, list_elem_of_singleton. tauto.
    + intros i Hi. specialize (Hall i Hi). rewrite !elem_of_cons in Hall. rewrite elem_of_cons, Hseen, list_elem_of_singleton. tauto.
Qed.

(** C6: a frame cut by [send_frame] into datagrams is delivered. The receiver has room for
    it when a first fragment arrives; then, in any order, with duplicates, and among
    whatever other senders and other frames put on the socket, the remaining fragments
    arrive before the entry expires. The datagram that brings the last missing fragment
    makes [push] return exactly the frame that was sent, and its entry is released. *)
Theorem fragments_delivered s frame st first mid final first_index mid_indexes final_index sent
    (key := (s, overlay_fragment_digest frame)) :
  fragmentable frame -> frame_datagrams frame = Some sent ->
  reassembler_ok st -> pending st !! key = None -> Z.of_nat (size (pending st)) < MAX_PENDING_FRAGMENTED_FRAMES ->
  fragment_arrival s frame first first_index ->
  interleaved s frame (at_time first) mid mid_indexes ->
  fragment_arrival s frame final final_index ->
  at_time final < at_time first + OVERLAY_FRAGMENT_REASSEMBLY_TIMEOUT ->
  final_index ∉ first_index :: mid_indexes ->
  (forall i, (i < length sent)%nat -> i ∈ final_index :: first_index :: mid_indexes) ->
  exists st1 rs st2, push_all false (first :: mid) st = Some (st1, rs) /\
    push_arrival false final st1 = Some (st2, Ok (Some frame)) /\ pending st2 !! key = None.
Proof.
  intros Hf Hsent Hst Hk Hroom H0 Hmid Hfin Ht Hnew Hall.
  destruct (fragments_complete _ _ _ _ _ _ _ _ _ _ Hf Hsent Hst Hk Hroom H0 Hmid Hfin Ht Hnew Hall)
    as (st1 & rs & st2 & H1 & H2 & H3 & _). by exists st1, rs, st2.
Qed.

(** a datagram that announces more fragments than its frame length needs and carries
    the last of them makes [push] subtract below zero before the fragment count is
    compared: the receiver panics where overflow checks are on, and rejects the datagram
    where the subtraction wraps. *)
Theorem last_fragment_underflow source now st count len digest payload :
  1024 < len <= 65507 -> len < 990 * (count - 1) -> count < 2 ^ 16 ->
  length digest = 16%nat -> 0 < lenZ payload <= 990 ->
  let datagram := encode_overlay_fragment (count - 1) count len digest payload in
  push true source datagram now st = None /\
  push false source datagram now st = Some (prune_expired now st, Err tt).
Proof.
  intros Hlen Hu Hc Hd Hp. cbv zeta. unfold push. rewrite !parse_encoded by (done || lia).
  replace ((len <=? 1024) || (65507 <? len) || (count <? 2) || (count <=? count - 1)) with false by lia.
  replace (count - 1 + 1 =? count) with true by lia. unfold usize_sub.
  replace (990 * (count - 1) <=? len) with false by lia. split; [done|]. cbn [mbind option_bind].
  assert (Hne : (count =? div_ceil len 990) = false) by (unfold div_ceil; dlia). by rewrite Hne.
Qed.

End Transport.

(** ** Witnesses *)

Definition sample_source : SocketAddr := SockV4 167772167 51900.

Lemma last_fragment_underflow_witness :
  @push sample_digest true sample_source
    (encode_overlay_fragment 65534 65535 2000 (replicate 16 Byte.x00) [Byte.x01]) 0 reassembler_new = None.
Proof.
  apply (@last_fragment_underflow sample_digest sample_source 0 reassembler_new 65535 2000
           (replicate 16 Byte.x00) [Byte.x01]); simpl; lia.
Defined.

Definition sample_frame : bytes := replicate 1500 Byte.x2a.

Definition sample_arrival (index : nat) (time : Z) : arrival :=
  {| from_addr := sample_source; datagram := @fragment_of sample_digest sample_frame index; at_time := time |}.

Definition sample_noise : arrival :=
  {| from_addr := SockV4 167772168 51900; datagram := [Byte.x00]; at_time := 2 |}.

Lemma fragments_delivered_witness :
  exists st1 rs st2,
    @push_all sample_digest false [sample_arrival 1 1; sample_noise; sample_arrival 1 3] reassembler_new = Some (st1, rs) /\
    @push_arrival sample_digest false (sample_arrival 0 4) st1 = Some (st2, Ok (Some sample_frame)) /\
    pending st2 !! (sample_source, @overlay_fragment_digest sample_digest sample_frame) = None.
Proof.
  assert (Hf : fragmentable sample_frame) by (split; vm_compute; done).
  pose proof (@frame_datagrams_fragments sample_digest sample_frame Hf) as Hsent.
  assert (Hc : frame_count sample_frame = 2%nat) by (vm_compute; reflexivity).
  assert (Hfr : forall i t, (i < 2)%nat -> @fragment_arrival sample_digest sample_source sample_frame (sample_arrival i t) i).
  { intros i t Hi. split; [reflexivity|]. eexists. split; [exact Hsent|].
    rewrite list_lookup_fmap, lookup_seq_lt; [reflexivity|]. by rewrite Hc. }
  apply (@fragments_delivered sample_digest sample_source sample_frame reassembler_new (sample_arrival 1 1)
           [sample_noise; sample_arrival 1 3] (sample_arrival 0 4) 1 [1%nat] 0 _ Hf Hsent).
  - apply new_ok.
  - apply lookup_empty.
  - reflexivity.
  - apply Hfr. lia.
  - apply interleaved_other; [intros [=]|reflexivity|]. apply interleaved_fragment; [apply Hfr; lia|reflexivity|apply interleaved_nil].
  - apply Hfr. lia.
  - reflexivity.
  - rewrite !not_elem_of_cons. split_and!; [lia|lia|apply not_elem_of_nil].
  - intros i Hi. rewrite length_map, length_seq, Hc in Hi. destruct i as [|[|i]]; [| |lia]; repeat constructor.
Defined.

End Fragments.
