(* ===== verification/OverlayTransit.v ===== *)
(** * The overlay transit of a node (crates/ipars-agent/src/overlay_transit.rs)

    The directory that maps bounded neighbors to UDP endpoints and back, the handling of
    one datagram by the receive loop (source lookup, reassembly, forwarding, delivery and
    acknowledgements) and the acknowledgement a destination sends back. What the socket
    does with a frame handed to it is an argument. *)

From S2P Require Import Prelude RustStd Endpoints OverlayTypes Instances Multihop ReplayWindow OverlayForwarder Hashing OverlayFragments.

Module Transit.

Definition OVERLAY_ACK_PAYLOAD : bytes := bstr "IPARS-MH-ACK-V1".

(** ** The endpoint directory *)

Record OverlayNeighborEndpoint : Type := {
  node_id : NodeId;
  vpn_ip : IpAddr;
  udp_endpoint : SocketAddr
}.

Record EndpointIndexes : Type := {
  by_node : gmap NodeId SocketAddr;
  by_endpoint : gmap SocketAddr NodeId
}.

Inductive EndpointReason : Type := PortZero | IpMismatch | NotUnicast.

Inductive DirectoryError : Type :=
  | InvalidEndpoint (node : NodeId) (reason : EndpointReason)
  | DuplicateNeighbor (node : NodeId)
  | DuplicateEndpoint (endpoint : SocketAddr) (first second : NodeId).

Definition no_endpoints : EndpointIndexes := {| by_node := ∅; by_endpoint := ∅ |}.

Definition validate_endpoint (e : OverlayNeighborEndpoint) : result unit DirectoryError :=
  if socket_port (udp_endpoint e) =? 0 then Err (InvalidEndpoint (node_id e) PortZero)
  else if bool_decide (socket_ip (udp_endpoint e) <> vpn_ip e) then Err (InvalidEndpoint (node_id e) IpMismatch)
  else if is_unspecified (vpn_ip e) || is_multicast (vpn_ip e) then Err (InvalidEndpoint (node_id e) NotUnicast)
  else Ok tt.

Fixpoint replace_loop (replacement : EndpointIndexes) (endpoints : list OverlayNeighborEndpoint)
  : result EndpointIndexes DirectoryError :=
  match endpoints with
  | [] => Ok replacement
  | e :: endpoints =>
      let? _ := validate_endpoint e in
      match by_node replacement !! node_id e with
      | Some _ => Err (DuplicateNeighbor (node_id e))
      | None =>
          match by_endpoint replacement !! udp_endpoint e with
          | Some existing => Err (DuplicateEndpoint (udp_endpoint e) existing (node_id e))
          | None =>
              replace_loop {| by_node := <[node_id e := udp_endpoint e]> (by_node replacement);
                              by_endpoint := <[udp_endpoint e := node_id e]> (by_endpoint replacement) |}
                endpoints
          end
      end
  end.

Definition replace (directory : EndpointIndexes) (endpoints : list OverlayNeighborEndpoint)
  : EndpointIndexes * result unit DirectoryError :=
  match replace_loop no_endpoints endpoints with
  | Err e => (directory, Err e)
  | Ok replacement => (replacement, Ok tt)
  end.

Definition endpoint_for (directory : EndpointIndexes) (neighbor : NodeId) : option SocketAddr :=
  by_node directory !! neighbor.

Definition neighbor_for_endpoint (directory : EndpointIndexes) (endpoint : SocketAddr) : option NodeId :=
  by_endpoint directory !! endpoint.

(** The entries a directory was built from. *)
Record indexes_of (es : list OverlayNeighborEndpoint) (d : EndpointIndexes) : Prop := {
  ix_node n a : by_node d !! n = Some a <-> exists e, e ∈ es /\ node_id e = n /\ udp_endpoint e = a;
  ix_endpoint a n : by_endpoint d !! a = Some n <-> exists e, e ∈ es /\ node_id e = n /\ udp_endpoint e = a
}.

(** A set of endpoints that may be installed: valid entries, no node and no address twice. *)
Record installable (es : list OverlayNeighborEndpoint) : Prop := {
  is_valid : Forall (fun e => validate_endpoint e = Ok tt) es;
  is_nodes : NoDup (map node_id es);
  is_addresses : NoDup (map udp_endpoint es)
}.

Lemma insert_index {A B} `{Countable A} (m : gmap A B) (k : A) (v : B) (P : A -> B -> Prop) :
  m !! k = None -> (forall a b, m !! a = Some b <-> P a b) ->
  forall a b, <[k := v]> m !! a = Some b <-> P a b \/ (a = k /\ b = v).
Proof.
  intros Hk HP a b. rewrite lookup_insert_Some, HP. split.
  - intros [[<- <-]|[_ Ha]]; [by right|by left].
  - intros [Ha|[-> ->]]; [|by left]. right. split; [|done]. intros <-. apply HP in Ha. congruence.
Qed.

Lemma indexes_of_snoc es e d :
  indexes_of es d -> by_node d !! node_id e = None -> by_endpoint d !! udp_endpoint e = None ->
  indexes_of (es ++ [e]) {| by_node := <[node_id e := udp_endpoint e]> (by_node d);
                            by_endpoint := <[udp_endpoint e := node_id e]> (by_endpoint d) |}.
Proof.
  intros [H1 H2] Hn Ha.
  assert (Hin : forall n a, (exists x, x ∈ es ++ [e] /\ node_id x = n /\ udp_endpoint x = a) <->
    (exists x, x ∈ es /\ node_id x = n /\ udp_endpoint x = a) \/ (n = node_id e /\ a = udp_endpoint e)).
  { intros n a. setoid_rewrite elem_of_app. setoid_rewrite list_elem_of_singleton. naive_solver. }
  split; simpl.
  - intros n a. rewrite Hin. apply (insert_index _ _ _ _ Hn H1).
  - intros a n. rewrite Hin, (insert_index _ _ _ _ Ha H2). tauto.
Qed.

Lemma installable_app es e todo :
  installable (es ++ e :: todo) -> installable (es ++ [e]) /\ validate_endpoint e = Ok tt /\
  node_id e ∉ map node_id es /\ udp_endpoint e ∉ map udp_endpoint es.
Proof.
  intros [Hv Hn Ha]. rewrite (cons_middle e es todo), app_assoc in Hv, Hn, Ha. rewrite !map_app in Hn, Ha.
  apply Forall_app in Hv as [Hv _]. apply NoDup_app in Hn as [Hn _], Ha as [Ha _].
  split; [by split; rewrite ?map_app|]. apply Forall_app in Hv as [_ Hv]. apply Forall_cons in Hv as [Hv _].
  split; [done|]. apply NoDup_app in Hn as (_ & Hn & _), Ha as (_ & Ha & _).
  split; intros Hin; [apply (Hn _ Hin)|apply (Ha _ Hin)]; constructor.
Qed.

Lemma installable_snoc es e :
  installable es -> validate_endpoint e = Ok tt -> node_id e ∉ map node_id es -> udp_endpoint e ∉ map udp_endpoint es ->
  installable (es ++ [e]).
Proof.
  intros [Hv Hn Ha] He Hne Hae. split; [apply Forall_app; by rewrite Forall_singleton|..].
  all: rewrite map_app; apply NoDup_app; split_and!; [done| |apply NoDup_singleton].
  all: intros x Hx Hx'; apply list_elem_of_singleton in Hx'; congruence.
Qed.

Lemma index_absent es d e : indexes_of es d ->
  (by_node d !! node_id e = None <-> node_id e ∉ map node_id es) /\
  (by_endpoint d !! udp_endpoint e = None <-> udp_endpoint e ∉ map udp_endpoint es).
Proof.
  intros [H1 H2]. rewrite !eq_None_not_Some, !list_elem_of_fmap. unfold is_Some.
  setoid_rewrite H1. setoid_rewrite H2. split; naive_solver.
Qed.

Lemma replace_loop_spec es todo d : indexes_of es d -> installable es ->
  match replace_loop d todo with
  | Ok d' => installable (es ++ todo) /\ indexes_of (es ++ todo) d'
  | Err _ => ~ installable (es ++ todo)
  end.
Proof.
  revert es d. induction todo as [|e todo IH]; intros es d Hd Hes; cbn [replace_loop]; [by rewrite app_nil_r|].
  destruct (index_absent es d e Hd) as [Hn Ha].
  destruct (validate_endpoint e) as [[]|] eqn:Hv; [|by intros (_ & ? & _)%installable_app; congruence].
  destruct (by_node d !! node_id e) as [a|] eqn:En; [intros (_ & _ & Hx & _)%installable_app; by apply Hn in Hx|].
  destruct (by_endpoint d !! udp_endpoint e) as [n|] eqn:Ea; [intros (_ & _ & _ & Hx)%installable_app; by apply Ha in Hx|].
  rewrite (cons_middle e es todo), app_assoc. apply IH; [by apply indexes_of_snoc|].
  apply installable_snoc; [done..|by apply Hn|by apply Ha].
Qed.

Lemma no_endpoints_index : indexes_of [] no_endpoints.
Proof. split; simpl; intros; rewrite lookup_empty; split; [done| |done|]; intros (? & ?%not_elem_of_nil & _); done. Qed.

(** [replace] installs a set of endpoints exactly when all are valid and no node and no
    address occurs twice; the two lookups are then inverse to each other and know exactly
    the given entries. A set that is refused leaves the directory as it was. *)
Theorem directory_replace d es :
  match replace d es with
  | (d', Ok _) => installable es /\ forall n a,
      (endpoint_for d' n = Some a <-> neighbor_for_endpoint d' a = Some n) /\
      (endpoint_for d' n = Some a <-> exists e, e ∈ es /\ node_id e = n /\ udp_endpoint e = a)
  | (d', Err _) => ~ installable es /\ d' = d
  end.
Proof.
  unfold replace. assert (Hnil : installable []) by (split; constructor).
  pose proof (replace_loop_spec [] es no_endpoints no_endpoints_index Hnil) as Hs. simpl in Hs.
  destruct (replace_loop no_endpoints es) as [d'|e]; [|done]. destruct Hs as [Hi [H1 H2]].
  split; [done|]. intros n a. unfold endpoint_for, neighbor_for_endpoint. by rewrite H1, H2.
Qed.

(** ** The receive loop *)

Inductive stat : Type :=
  | received_frames | forwarded_frames | delivered_frames | invalid_frames_dropped
  | unknown_sources_dropped | delivery_queue_drops | send_failures | acknowledgements_sent
  | acknowledgements_received | acknowledgement_timeouts.

#[global] Instance stat_eq_dec : EqDecision stat.
Proof. solve_decision. Defined.

(** The counters, 64-bit atomics that wrap. *)
Definition stats : Type := stat -> Z.

Definition fetch_add (which : stat) (s : stats) : stats :=
  fun other => if decide (other = which) then as_width 64 (s other + 1) else s other.

(** Epoch, path identifier, sequence number and remote node. *)
Abbreviation acknowledgement_key := (Z * bytes * Z * NodeId)%type.

(** What the loop asks of others: a frame for the socket, a payload for the delivery
    queue (with the envelope its acknowledgement is made from), a waiter to wake. *)
Inductive effect : Type :=
  | SendFrame (next_hop : NodeId) (frame : bytes)
  | DeliverPayload (source : NodeId) (payload : bytes) (delivered : Multihop.MultiHopEnvelope)
  | WakeWaiter (waiter : nat).

(** The surroundings of one datagram: clock readings, whether the socket takes a frame and
    whether the delivery queue takes a payload. *)
Record surroundings : Type := {
  reassembly_time : Z;
  receive_time : Z;
  frame_sent : NodeId -> bytes -> bool;
  delivery_accepted : bool
}.

Section Loop.
Context {Net : IpNetOps} {Url : UrlOps} {Dig : DigestOps}.

Record ReceiveState : Type := {
  endpoints : EndpointIndexes;
  forwarder : Forwarder.BoundedOverlayForwarder;
  reassembler : Fragments.OverlayFragmentReassembler;
  pending_acknowledgements : gmap acknowledgement_key nat;
  counters : stats
}.

Definition with_forwarder (st : ReceiveState) (f : Forwarder.BoundedOverlayForwarder) : ReceiveState :=
  {| endpoints := endpoints st; forwarder := f; reassembler := reassembler st;
     pending_acknowledgements := pending_acknowledgements st; counters := counters st |}.

Definition with_reassembler (st : ReceiveState) (r : Fragments.OverlayFragmentReassembler) : ReceiveState :=
  {| endpoints := endpoints st; forwarder := forwarder st; reassembler := r;
     pending_acknowledgements := pending_acknowledgements st; counters := counters st |}.

Definition with_pending (st : ReceiveState) (p : gmap acknowledgement_key nat) : ReceiveState :=
  {| endpoints := endpoints st; forwarder := forwarder st; reassembler := reassembler st;
     pending_acknowledgements := p; counters := counters st |}.

Definition count (which : stat) (st : ReceiveState) : ReceiveState :=
  {| endpoints := endpoints st; forwarder := forwarder st; reassembler := reassembler st;
     pending_acknowledgements := pending_acknowledgements st; counters := fetch_add which (counters st) |}.

Definition handle_acknowledgement (e : Multihop.MultiHopEnvelope) (source : NodeId) (st : ReceiveState)
  : ReceiveState * list effect :=
  let acknowledgement := (Multihop.topology_epoch e, Multihop.path_id e, Multihop.sequence e, source) in
  match pending_acknowledgements st !! acknowledgement with
  | Some waiter =>
      (count acknowledgements_received (with_pending st (delete acknowledgement (pending_acknowledgements st))),
       [WakeWaiter waiter])
  | None => (count acknowledgements_received st, [])
  end.

(** What follows the reassembly: the frame of a neighbor is received. *)
Definition handle_frame (env : surroundings) (previous_hop : NodeId) (frame : bytes) (st : ReceiveState)
  : ReceiveState * list effect :=
  let st := count received_frames st in
  let decoded := Multihop.decode frame 1 in
  let '(f, action) := Forwarder.receive (receive_time env) (forwarder st) previous_hop frame in
  let st := with_forwarder st f in
  match action with
  | Ok (Forwarder.Forward next_hop datagram) =>
      (count (if frame_sent env next_hop datagram then forwarded_frames else send_failures) st,
       [SendFrame next_hop datagram])
  | Ok (Forwarder.Deliver source payload) =>
      match decoded with
      | Err _ => (count invalid_frames_dropped st, [])
      | Ok envelope =>
          if bool_decide (payload = OVERLAY_ACK_PAYLOAD) then handle_acknowledgement envelope source st
          else if delivery_accepted env
          then (count delivered_frames st, [DeliverPayload source payload envelope])
          else (count delivery_queue_drops st, [])
      end
  | Ok (Forwarder.DirectNeighbor _ _) => (count invalid_frames_dropped st, [])
  | Err _ => (count invalid_frames_dropped st, [])
  end.

(** One datagram of the socket; [None] when the reassembler panics. The buffer holds
    [MAX_MULTIHOP_FRAME_BYTES]; the socket drops what does not fit. *)
Definition handle_datagram (overflow_checks : bool) (env : surroundings) (source_endpoint : SocketAddr)
    (received : bytes) (st : ReceiveState) : option (ReceiveState * list effect) :=
  let datagram := take (Z.to_nat Multihop.MAX_MULTIHOP_FRAME_BYTES) received in
  match neighbor_for_endpoint (endpoints st) source_endpoint with
  | None => Some (count unknown_sources_dropped st, [])
  | Some previous_hop =>
      if starts_with datagram Fragments.OVERLAY_FRAGMENT_MAGIC then
        '(r, pushed) ← Fragments.push overflow_checks source_endpoint datagram (reassembly_time env) (reassembler st);
        let st := with_reassembler st r in
        match pushed with
        | Ok (Some frame) => Some (handle_frame env previous_hop frame st)
        | Ok None => Some (st, [])
        | Err _ => Some (count invalid_frames_dropped st, [])
        end
      else Some (handle_frame env previous_hop datagram st)
  end.

(** [send_overlay_acknowledgement], up to the frame handed to the socket; [None] is
    [MissingReversePath]. *)
Definition overlay_acknowledgement (delivered : Multihop.MultiHopEnvelope)
  : option (result (NodeId * bytes) Multihop.MultiHopCodecError) :=
  let reverse_path := reverse (Multihop.path delivered) in
  next_hop ← head reverse_path;
  Some (
    let? acknowledgement :=
      Multihop.new (Multihop.topology_epoch delivered) (Multihop.path_id delivered) (Multihop.sequence delivered)
        (as_width 16 (lenZ reverse_path)) (Multihop.destination delivered) (Multihop.source delivered)
        reverse_path OVERLAY_ACK_PAYLOAD in
    let? frame := Multihop.encode acknowledgement in
    Ok (next_hop, frame)).

(** ** Fragmentation is transparent *)

(** The datagrams one neighbor sends, each with its surroundings. *)
Fixpoint handle_all (overflow_checks : bool) (source_endpoint : SocketAddr)
    (received : list (surroundings * bytes)) (st : ReceiveState) : option (ReceiveState * list effect) :=
  match received with
  | [] => Some (st, [])
  | (env, datagram) :: received =>
      '(st, effects) ← handle_datagram overflow_checks env source_endpoint datagram st;
      '(st, more) ← handle_all overflow_checks source_endpoint received st;
      Some (st, effects ++ more)
  end.

Definition arrival_of (source_endpoint : SocketAddr) (r : surroundings * bytes) : Fragments.arrival :=
  {| Fragments.from_addr := source_endpoint; Fragments.datagram := r.2;
     Fragments.at_time := reassembly_time r.1 |}.

(** A datagram that goes to the reassembler whole. *)
Definition fragment_shaped (datagram : bytes) : Prop :=
  starts_with datagram Fragments.OVERLAY_FRAGMENT_MAGIC = true /\ lenZ datagram <= Multihop.MAX_MULTIHOP_FRAME_BYTES.

Lemma handle_fragment checks env s dg st prev : fragment_shaped dg ->
  neighbor_for_endpoint (endpoints st) s = Some prev ->
  handle_datagram checks env s dg st =
  '(r, pushed) ← Fragments.push checks s dg (reassembly_time env) (reassembler st);
  match pushed with
  | Ok (Some frame) => Some (handle_frame env prev frame (with_reassembler st r))
  | Ok None => Some (with_reassembler st r, [])
  | Err _ => Some (count invalid_frames_dropped (with_reassembler st r), [])
  end.
Proof.
  intros [Hm Hl] Hs. unfold handle_datagram. rewrite take_ge by lia. by rewrite Hs, Hm.
Qed.

Lemma handle_fragments checks s prev received st r' rs :
  Forall (fun r => fragment_shaped r.2) received ->
  neighbor_for_endpoint (endpoints st) s = Some prev ->
  Fragments.push_all checks (map (arrival_of s) received) (reassembler st) = Some (r', rs) ->
  Forall (eq (Ok None)) rs ->
  handle_all checks s received st = Some (with_reassembler st r', []).
Proof.
  revert st rs. induction received as [|[env dg] received IH]; intros st rs Hsh Hs E Hrs.
  { cbn in E. injection E as <- <-. by destruct st. }
  apply Forall_cons in Hsh as [Hd Hsh]. cbn [map Fragments.push_all] in E. unfold Fragments.push_arrival in E. cbn in E.
  destruct (Fragments.push checks s dg (reassembly_time env) (reassembler st)) as [[r1 o]|] eqn:E1; [|done].
  cbn [mbind option_bind] in E.
  destruct (Fragments.push_all checks (map (arrival_of s) received) r1) as [[r2 rs2]|] eqn:E2; [|done].
  injection E as <- <-. apply Forall_cons in Hrs as [<- Hrs].
  cbn [handle_all]. rewrite (handle_fragment checks env s dg st prev Hd Hs), E1. cbn [mbind option_bind].
  by rewrite (IH (with_reassembler st r1) rs2 Hsh Hs E2 Hrs).
Qed.

Lemma handle_frame_reassembler env prev frame st r :
  handle_frame env prev frame (with_reassembler st r) =
  (with_reassembler (handle_frame env prev frame st).1 r, (handle_frame env prev frame st).2).
Proof.
  unfold handle_frame. cbn [with_reassembler count forwarder].
  destruct (Forwarder.receive _ _ _ _) as [f [[next dg|src pl|peer dg]|err]]; try done.
  destruct (Multihop.decode frame 1) as [e|]; [|done]. case_bool_decide; [|by destruct (delivery_accepted env)].
  unfold handle_acknowledgement. cbn. by destruct (pending_acknowledgements st !! _).
Qed.

Lemma decode_not_fragment frame e : Multihop.decode frame 1 = Ok e ->
  starts_with frame Fragments.OVERLAY_FRAGMENT_MAGIC = false.
Proof. intros (_ & _ & ->)%Multihop.decode_inv. done. Qed.

Lemma decode_sent frame e : Multihop.decode frame 1 = Ok e ->
  lenZ frame <= Fragments.MAX_OVERLAY_TRANSIT_DATAGRAM_BYTES \/ Fragments.fragmentable frame.
Proof.
  intros (_ & Hwf & Hl)%Multihop.decode_wf. pose proof (Multihop.wf_frame _ _ Hwf). unfold Fragments.fragmentable.
  change Multihop.MAX_MULTIHOP_FRAME_BYTES with 65507. lia.
Qed.

Lemma fragment_is_shaped frame i : Fragments.fragmentable frame -> (i < Fragments.frame_count frame)%nat ->
  fragment_shaped (Fragments.fragment_of frame i).
Proof.
  intros Hf Hi. split; [apply starts_with_app|]. pose proof (Fragments.fragment_length frame i Hf Hi).
  change Fragments.MAX_OVERLAY_TRANSIT_DATAGRAM_BYTES with 1024 in *. change Multihop.MAX_MULTIHOP_FRAME_BYTES with 65507. lia.
Qed.

Lemma fragment_arrives s frame r i : Fragments.fragmentable frame -> (i < Fragments.frame_count frame)%nat ->
  r.2 = Fragments.fragment_of frame i -> Fragments.fragment_arrival s frame (arrival_of s r) i.
Proof.
  intros Hf Hi Hr. split; [done|]. eexists. split; [by apply Fragments.frame_datagrams_fragments|].
  rewrite list_lookup_fmap, lookup_seq_lt by done. simpl. by rewrite Hr.
Qed.

Lemma only_fragments s frame t0 received js :
  Fragments.fragmentable frame -> Forall (fun i => i < Fragments.frame_count frame)%nat js ->
  map snd received = map (Fragments.fragment_of frame) js ->
  Forall (fun r => reassembly_time r.1 < t0 + Fragments.OVERLAY_FRAGMENT_REASSEMBLY_TIMEOUT) received ->
  Fragments.interleaved s frame t0 (map (arrival_of s) received) js.
Proof.
  intros Hf. revert js. induction received as [|r received IH]; intros [|j js] Hjs Hm Ht; try done; [constructor|].
  injection Hm as Hr Hm. apply Forall_cons in Hjs as [Hj Hjs], Ht as [Htr Ht]. constructor; [|done|by apply IH].
  by apply fragment_arrives.
Qed.

Lemma handle_all_snoc checks s received env dg st st1 effects r :
  handle_all checks s received st = Some (st1, effects) ->
  handle_datagram checks env s dg st1 = Some r ->
  handle_all checks s (received ++ [(env, dg)]) st = Some (r.1, effects ++ r.2).
Proof.
  revert st effects. induction received as [|[env' dg'] received IH]; intros st effects H1 H2.
  - injection H1 as <- <-. cbn. rewrite H2. cbn. destruct r. by rewrite app_nil_r.
  - cbn [handle_all app] in *. destruct (handle_datagram checks env' s dg' st) as [[st2 e2]|]; [|done]. cbn [mbind option_bind] in *.
    destruct (handle_all checks s received st2) as [[st3 e3]|] eqn:E3; [|done]. cbn [mbind option_bind] in *. injection H1 as <- <-.
    rewrite (IH st2 e3 E3 H2). cbn [mbind option_bind]. by rewrite app_assoc.
Qed.

Lemma shaped_list frame (received : list (surroundings * bytes)) js :
  Fragments.fragmentable frame -> Forall (fun i => i < Fragments.frame_count frame)%nat js ->
  map snd received = map (Fragments.fragment_of frame) js -> Forall (fun r => fragment_shaped r.2) received.
Proof.
  intros Hf. revert js. induction received as [|r received IH]; intros [|j js] Hjs Hm; try done.
  injection Hm as Hr Hm. apply Forall_cons in Hjs as [Hj Hjs]. constructor; [|by apply (IH js)].
  rewrite Hr. by apply fragment_is_shaped.
Qed.

(** At least two elements: a first, a last and those between. *)
Lemma ends_split {A} (l : list A) : (2 <= length l)%nat -> exists first mid final, l = first :: mid ++ [final].
Proof.
  destruct l as [|first l]; simpl; [lia|]. destruct l as [|final mid _] using rev_ind; simpl; [lia|].
  intros _. by exists first, mid, final.
Qed.

(** The fragments of a frame in another order, by their indexes. *)
Lemma permuted_fragments frame ds :
  Permutation ds (map (Fragments.fragment_of frame) (seq 0 (Fragments.frame_count frame))) ->
  exists js, ds = map (Fragments.fragment_of frame) js /\ NoDup js /\ length js = Fragments.frame_count frame /\
    forall i, i ∈ js <-> (i < Fragments.frame_count frame)%nat.
Proof.
  intros Hp. apply Permutation_map_inv in Hp as (js & Hjs & Hp). exists js. split_and!; [done|..].
  - rewrite <- Hp. apply NoDup_seq.
  - apply Permutation_length in Hp. by rewrite length_seq in Hp.
  - intros i. rewrite <- Hp, elem_of_seq. lia.
Qed.

Lemma long_frame_transparent s prev frame received st first final :
  Fragments.fragmentable frame ->
  Permutation (map snd received) (map (Fragments.fragment_of frame) (seq 0 (Fragments.frame_count frame))) ->
  neighbor_for_endpoint (endpoints st) s = Some prev ->
  Fragments.reassembler_ok (reassembler st) ->
  Fragments.pending (reassembler st) !! (s, Fragments.overlay_fragment_digest frame) = None ->
  Z.of_nat (size (Fragments.pending (reassembler st))) < Fragments.MAX_PENDING_FRAGMENTED_FRAMES ->
  head received = Some first -> last received = Some final ->
  Forall (fun r => reassembly_time r.1 < reassembly_time first.1 + Fragments.OVERLAY_FRAGMENT_REASSEMBLY_TIMEOUT) received ->
  exists r', handle_all false s received st =
    Some (with_reassembler (handle_frame final.1 prev frame st).1 r', (handle_frame final.1 prev frame st).2).
Proof.
  intros Hf Hperm Hs Hok Hnone Hroom Hfirst Hfinal Ht.
  apply permuted_fragments in Hperm as (js & Hjs & Hnd & Hlen & Hin).
  pose proof (Fragments.frame_count_bound frame Hf) as [Hc _].
  assert (Hlt : Forall (fun i => i < Fragments.frame_count frame)%nat js) by (apply Forall_forall; apply Hin).
  assert (Hlr : length received = length js) by by rewrite <- (length_map snd), Hjs, length_map.
  destruct (ends_split received) as (r0 & mid & r1 & ->); [lia|]. destruct (ends_split js) as (j0 & jm & j1 & ->); [lia|].
  rewrite app_comm_cons, last_snoc in Hfinal. simpl in Hfirst. injection Hfirst as ->. injection Hfinal as ->.
  injection Hjs as Hj0 Hjs. rewrite !map_app in Hjs.
  apply app_inj_2 in Hjs as [Hjm Hj1]; [|done]. injection Hj1 as Hj1.
  apply Forall_cons in Hlt as [Hl0 Hlt]. apply Forall_app in Hlt as [Hlm Hl1]. rewrite Forall_singleton in Hl1.
  apply Forall_cons in Ht as [Ht0 Ht]. apply Forall_app in Ht as [Htm Ht1]. rewrite Forall_singleton in Ht1.
  destruct (Fragments.fragments_complete s frame (reassembler st) (arrival_of s first) (map (arrival_of s) mid)
    (arrival_of s final) j0 jm j1 _ Hf (Fragments.frame_datagrams_fragments frame Hf) Hok Hnone Hroom
    (fragment_arrives s frame first j0 Hf Hl0 Hj0) (only_fragments s frame _ mid jm Hf Hlm Hjm Htm)
    (fragment_arrives s frame final j1 Hf Hl1 Hj1) Ht1) as (ra & rs & rb & E1 & E2 & _ & Hrs).
  { apply NoDup_cons in Hnd as [Hn0 Hnd]. apply NoDup_app in Hnd as (_ & Hnm & _). apply not_elem_of_cons. split.
    - intros ->. apply Hn0. rewrite elem_of_app, list_elem_of_singleton. by right.
    - intros Hj. apply (Hnm _ Hj). constructor. }
  { intros i Hi. rewrite length_map, length_seq in Hi. apply Hin in Hi.
    rewrite !elem_of_cons, elem_of_app, list_elem_of_singleton in *. tauto. }
  exists rb. destruct final as [env dg]. rewrite app_comm_cons.
  rewrite (handle_all_snoc _ _ _ env dg _ (with_reassembler st ra) [] (handle_frame env prev frame (with_reassembler st rb))).
  - by rewrite handle_frame_reassembler.
  - apply (handle_fragments _ _ prev _ _ _ rs); [|done|done|].
    + apply Forall_cons. split; [rewrite Hj0; by apply fragment_is_shaped|]. by apply (shaped_list frame mid jm).
    + apply Hrs. by rewrite length_map, <- (length_map snd mid), Hjm, length_map.
  - rewrite (handle_fragment _ _ _ _ _ prev); [|simpl in Hj1; rewrite Hj1; by apply fragment_is_shaped|done].
    unfold Fragments.push_arrival in E2. cbn in E2. cbn [with_reassembler reassembler]. by rewrite E2.
Qed.

(** Fragmentation is transparent to a hop. Whatever frame a neighbor sends, once its
    datagrams (the frame itself or its fragments, in any order) have been handled, the
    receive loop is in the state and has caused the effects that handling the frame in one
    piece gives; only the reassembler differs. *)
Theorem hop_transparent s prev frame e sent received st first final :
  Multihop.decode frame 1 = Ok e -> Fragments.frame_datagrams frame = Some sent ->
  Permutation (map snd received) sent ->
  neighbor_for_endpoint (endpoints st) s = Some prev ->
  Fragments.reassembler_ok (reassembler st) ->
  Fragments.pending (reassembler st) !! (s, Fragments.overlay_fragment_digest frame) = None ->
  Z.of_nat (size (Fragments.pending (reassembler st))) < Fragments.MAX_PENDING_FRAGMENTED_FRAMES ->
  head received = Some first -> last received = Some final ->
  Forall (fun r => reassembly_time r.1 < reassembly_time first.1 + Fragments.OVERLAY_FRAGMENT_REASSEMBLY_TIMEOUT) received ->
  exists r', handle_all false s received st =
    Some (with_reassembler (handle_frame final.1 prev frame st).1 r', (handle_frame final.1 prev frame st).2).
Proof.
  intros Hd Hsent Hperm Hs Hok Hnone Hroom Hfirst Hfinal Ht.
  destruct (decide (lenZ frame <= Fragments.MAX_OVERLAY_TRANSIT_DATAGRAM_BYTES)) as [Hshort|Hlong].
  - unfold Fragments.frame_datagrams in Hsent. rewrite (proj2 (Z.leb_le _ _) Hshort) in Hsent. injection Hsent as <-.
    apply Permutation_singleton_r in Hperm. destruct received as [|[env dg] [|]]; try done.
    injection Hperm as ->. injection Hfinal as <-. exists (reassembler st). cbn [handle_all]. unfold handle_datagram.
    change Fragments.MAX_OVERLAY_TRANSIT_DATAGRAM_BYTES with 1024 in Hshort.
    rewrite take_ge by (change Multihop.MAX_MULTIHOP_FRAME_BYTES with 65507; lia).
    rewrite Hs, (decode_not_fragment _ _ Hd). cbn [mbind option_bind fst].
    pose proof (handle_frame_reassembler env prev frame st (reassembler st)) as Hr. replace (with_reassembler st (reassembler st)) with st in Hr by by destruct st.
    destruct (handle_frame env prev frame st) as [x effects]. cbn in *. rewrite app_nil_r. congruence.
  - destruct (decode_sent _ _ Hd) as [|Hf]; [done|]. rewrite Fragments.frame_datagrams_fragments in Hsent by done.
    injection Hsent as <-. by apply (long_frame_transparent s prev frame received st first final).
Qed.

(** ** Only neighbors are heard *)

(** The frame a datagram completes: itself, or the one whose last fragment it brings. *)
Definition completes (checks : bool) (env : surroundings) (s : SocketAddr) (received : bytes) (st : ReceiveState)
    (frame : bytes) : Prop :=
  let datagram := take (Z.to_nat Multihop.MAX_MULTIHOP_FRAME_BYTES) received in
  if starts_with datagram Fragments.OVERLAY_FRAGMENT_MAGIC
  then exists r, Fragments.push checks s datagram (reassembly_time env) (reassembler st) = Some (r, Ok (Some frame))
  else frame = datagram.

(** What an accepted envelope justifies. *)
Definition justified (st : ReceiveState) (e : Multihop.MultiHopEnvelope) (x : effect) : Prop :=
  match x with
  | SendFrame next frame => Forwarder.expected_action e (Forwarder.Forward next frame)
  | DeliverPayload source payload delivered =>
      delivered = e /\ Forwarder.expected_action e (Forwarder.Deliver source payload)
  | WakeWaiter waiter =>
      Forwarder.expected_action e (Forwarder.Deliver (Multihop.source e) OVERLAY_ACK_PAYLOAD) /\
      pending_acknowledgements st !!
        (Multihop.topology_epoch e, Multihop.path_id e, Multihop.sequence e, Multihop.source e) = Some waiter
  end.

Lemma delivered_source e src payload :
  Forwarder.expected_action e (Forwarder.Deliver src payload) -> src = Multihop.source e.
Proof. unfold Forwarder.expected_action. destruct (Multihop.is_route_complete e); [by intros [= -> ->]|by intros (? & _ & ?)]. Qed.

Lemma handle_frame_justified env prev frame st st' effects x :
  handle_frame env prev frame st = (st', effects) -> x ∈ effects ->
  exists e, Multihop.decode frame 1 = Ok e /\ justified st e x /\
    Forwarder.acceptable (Forwarder.expire_retained_neighbor_maps (receive_time env) (forwarder st)) prev e.
Proof.
  unfold handle_frame. cbn [forwarder count].
  destruct (Forwarder.receive _ _ _ _) as [f [a|err]] eqn:E; [|by intros [= <- <-] ?%not_elem_of_nil].
  apply Forwarder.receive_ok in E as (e & r & Hd & Ha & _ & _ & He). rewrite Hd.
  destruct a as [next dg|src payload|peer dg].
  - intros [= <- <-] ->%list_elem_of_singleton. by exists e.
  - pose proof (delivered_source _ _ _ He) as ->. case_bool_decide as Hack.
    + subst payload. unfold handle_acknowledgement. cbn [pending_acknowledgements with_forwarder count].
      destruct (pending_acknowledgements st !! _) as [w|] eqn:Ew; [|by intros [= <- <-] ?%not_elem_of_nil].
      intros [= <- <-] ->%list_elem_of_singleton. by exists e.
    + destruct (delivery_accepted env); [|by intros [= <- <-] ?%not_elem_of_nil].
      intros [= <- <-] ->%list_elem_of_singleton. by exists e.
  - by intros [= <- <-] ?%not_elem_of_nil.
Qed.

(** C8: Only neighbors are heard. Whenever a datagram makes the loop send a frame, deliver
    a payload or wake a waiter, its source address is assigned to a node by the directory,
    the frame it completes is one the forwarder accepts from that very node, and the
    effect is the one the frame calls for. *)
Theorem effects_authenticated checks env s dg st st' effects x :
  handle_datagram checks env s dg st = Some (st', effects) -> x ∈ effects ->
  exists prev frame e, neighbor_for_endpoint (endpoints st) s = Some prev /\
    completes checks env s dg st frame /\ Multihop.decode frame 1 = Ok e /\ justified st e x /\
    Forwarder.acceptable (Forwarder.expire_retained_neighbor_maps (receive_time env) (forwarder st)) prev e.
Proof.
  unfold handle_datagram, completes. destruct (neighbor_for_endpoint _ s) as [prev|]; [|by intros [= <- <-] ?%not_elem_of_nil].
  destruct (starts_with _ _).
  - destruct (Fragments.push _ _ _ _ _) as [[r pushed]|]; [|done]. cbn [mbind option_bind].
    destruct pushed as [[frame|]|err]; intros [= E]; [|by simplify_eq; intros ?%not_elem_of_nil..]. intros Hx.
    destruct (handle_frame_justified env prev frame _ _ _ _ E Hx) as (e & Hd & Hj & Ha).
    exists prev, frame, e. split_and!; [done|by exists r|done|by destruct x|done].
  - intros [= E] Hx. destruct (handle_frame_justified env prev _ _ _ _ _ E Hx) as (e & Hd & Hj & Ha).
    by eexists prev, _, e.
Qed.

(** ** Acknowledgements find their way back *)

(** The envelope of the acknowledgement of a delivered one. *)
Definition acknowledgement_of (delivered : Multihop.MultiHopEnvelope) : Multihop.MultiHopEnvelope :=
  {| Multihop.topology_epoch := Multihop.topology_epoch delivered; Multihop.path_id := Multihop.path_id delivered;
     Multihop.sequence := Multihop.sequence delivered; Multihop.hop_index := 0;
     Multihop.hop_limit := lenZ (Multihop.path delivered); Multihop.source := Multihop.destination delivered;
     Multihop.destination := Multihop.source delivered; Multihop.path := reverse (Multihop.path delivered);
     Multihop.opaque_payload := OVERLAY_ACK_PAYLOAD |}.

Lemma encoded_path_length_rev nodes : Multihop.encoded_path_length (reverse nodes) = Multihop.encoded_path_length nodes.
Proof.
  assert (Happ : forall a b, Multihop.encoded_path_length (a ++ b) = Multihop.encoded_path_length a + Multihop.encoded_path_length b).
  { intros a b. unfold Multihop.encoded_path_length. induction a as [|x a IH]; simpl; [done|]. rewrite IH. lia. }
  induction nodes as [|x nodes IH]; [done|]. rewrite reverse_cons, Happ, IH. unfold Multihop.encoded_path_length. simpl. lia.
Qed.

(** The bytes an acknowledgement takes. *)
Definition acknowledgement_length (e : Multihop.MultiHopEnvelope) : Z :=
  Multihop.encoded_length e - lenZ (Multihop.opaque_payload e) + 15.

Lemma acknowledgement_wf e : Multihop.envelope_typed e -> Multihop.envelope_wf 1 e -> acknowledgement_length e <= 65507 ->
  Multihop.envelope_typed (acknowledgement_of e) /\ Multihop.envelope_wf 1 (acknowledgement_of e).
Proof.
  intros (T1 & T2 & T3 & T4 & T5) [W1 W2 W3 W4 W5 W6 W7 W8 W9 W10 W11 W12] Hlen.
  unfold acknowledgement_length, Multihop.encoded_length in *. split.
  - unfold Multihop.envelope_typed, in_width in *. cbn -[Z.pow]. split_and!; try done; lia.
  - split; cbn -[OVERLAY_ACK_PAYLOAD]; rewrite ?length_reverse; try done; try lia.
    + by apply Forall_reverse.
    + apply NoDup_cons in W7 as [Hs W7]. apply NoDup_cons in W7 as [Hd W7]. rewrite !NoDup_cons, !not_elem_of_cons in *.
      rewrite !elem_of_reverse, (reverse_Permutation (Multihop.path e)). destruct Hs. by split_and!.
    + unfold Multihop.encoded_length. cbn -[OVERLAY_ACK_PAYLOAD]. rewrite encoded_path_length_rev.
      change (length OVERLAY_ACK_PAYLOAD) with 15%nat. lia.
Qed.

(** The acknowledgement is made whenever it fits a frame; it starts at the last relay. *)
Lemma acknowledgement_made e : Multihop.envelope_typed e -> Multihop.envelope_wf 1 e -> acknowledgement_length e <= 65507 ->
  exists next frame, overlay_acknowledgement e = Some (Ok (next, frame)) /\ last (Multihop.path e) = Some next /\
    Multihop.encode (acknowledgement_of e) = Ok frame.
Proof.
  intros Hty Hwf Hlen. destruct (acknowledgement_wf e Hty Hwf Hlen) as [Hta Hwa].
  destruct (Multihop.wf_encode _ Hta Hwa) as (frame & Hfr & _).
  pose proof (Multihop.wf_path_count _ _ Hwf) as Hpc. pose proof (Multihop.wf_hop_limit _ _ Hwf) as Hhl.
  destruct (Multihop.path e) as [|final nodes _] eqn:Hp using rev_ind; [simpl in Hpc; lia|].
  exists final, frame. unfold overlay_acknowledgement, Multihop.new. rewrite Hp, reverse_snoc. cbn [head mbind option_bind].
  rewrite <- reverse_snoc, <- Hp. rewrite length_reverse, as_width_id by (unfold in_width; rewrite Hp; lia).
  fold (acknowledgement_of e). rewrite (proj2 (Multihop.validate_ok (acknowledgement_of e) 1 _ (Z.le_refl 0)) (conj Hwa eq_refl)).
  rewrite Hfr, Hp, last_snoc. done.
Qed.

(** A frame handed through relays in turn: each forwards it to the next, the last one to
    [to]. *)
Fixpoint carry (now : Z) (relays : list Forwarder.BoundedOverlayForwarder) (to prev : NodeId) (frame : bytes)
  : option (NodeId * bytes) :=
  match relays with
  | [] => Some (prev, frame)
  | f :: relays =>
      match (Forwarder.receive now f prev frame).2 with
      | Ok (Forwarder.Forward next frame) =>
          if bool_decide (next = default to (head (map Forwarder.local_node relays)))
          then carry now relays to (Forwarder.local_node f) frame else None
      | _ => None
      end
  end.

Lemma node_after e i relays :
  map Forwarder.local_node relays = drop (Z.to_nat i) (Multihop.path e) -> 
  Forwarder.node_at e i = default (Multihop.destination e) (head (map Forwarder.local_node relays)).
Proof.
  intros Hr. unfold Forwarder.node_at. by rewrite Hr, head_lookup, lookup_drop, Nat.add_0_r.
Qed.

Lemma carried now relays prev e frame g :
  Multihop.envelope_typed e -> Multihop.envelope_wf 1 e -> Multihop.encode e = Ok frame ->
  map Forwarder.local_node relays = drop (Z.to_nat (Multihop.hop_index e)) (Multihop.path e) ->
  Forwarder.chain_ready now (relays ++ [g]) prev e ->
  exists prev' frame' e', carry now relays (Multihop.destination e) prev frame = Some (prev', frame') /\
    e' = Multihop.set_hop_index e (lenZ (Multihop.path e)) /\ Multihop.decode frame' 1 = Ok e' /\
    Forwarder.chain_ready now [g] prev' e'.
Proof.
  revert prev e frame. induction relays as [|f relays IH]; intros prev e frame Hty Hwf Hfr Hnodes Hready.
  - assert (Hi : Multihop.hop_index e = lenZ (Multihop.path e)).
    { pose proof (Multihop.wf_hop_index _ _ Hwf). destruct Hty as (_ & _ & _ & [Hi _] & _).
      assert (length (drop (Z.to_nat (Multihop.hop_index e)) (Multihop.path e)) = O) as Hl by by rewrite <- Hnodes.
      rewrite length_drop in Hl. lia. }
    exists prev, frame, e. rewrite <- Hi. split_and!; [done|by destruct e| |done].
    apply Multihop.encode_then_decode; [done|apply Hwf|done].
  - destruct Hready as (Hacc & Hob & Hrest).
    destruct (Replay.observe _ _ _ _ _) as [r [[]|]] eqn:Ho; [clear Hob|done].
    assert (Hc : Multihop.is_route_complete e = false).
    { unfold Multihop.is_route_complete. apply Z.eqb_neq. intros Hi. by rewrite Hi, Nat2Z.id, drop_all in Hnodes. }
    destruct (Forwarder.advance_ok e _ Hty Hwf eq_refl Hc) as (_ & _ & fr' & Hfr' & _).
    destruct (Forwarder.advanced_typed e Hty Hwf Hc) as [Hty' Hwf'].
    assert (Hnodes' : map Forwarder.local_node relays = drop (Z.to_nat (Multihop.hop_index e + 1)) (Multihop.path e)).
    { destruct Hty as (_ & _ & _ & [Hi _] & _). replace (Z.to_nat (Multihop.hop_index e + 1)) with (S (Z.to_nat (Multihop.hop_index e))) by lia.
      apply (f_equal (drop 1)) in Hnodes. rewrite drop_drop, Nat.add_1_r in Hnodes. exact Hnodes. }
    cbn [carry].
    rewrite (proj2 (Forwarder.receive_ok now f prev frame (Forwarder.set_replay (Forwarder.expire_retained_neighbor_maps now f) r)
      (Forwarder.Forward (Forwarder.node_at e (Multihop.hop_index e + 1)) fr'))).
    2:{ exists e, r. split_and!; [|done..|].
        - apply Multihop.encode_then_decode; [done|apply Hwf|done].
        - unfold Forwarder.expected_action. rewrite Hc. eauto. }
    cbn [snd]. rewrite bool_decide_true by by apply node_after.
    apply (IH _ (Forwarder.advanced e) fr' Hty' Hwf' Hfr' Hnodes' Hrest).
Qed.

(** The last hop of an acknowledgement wakes the waiter of its key. *)
Lemma acknowledgement_wakes env prev frame st e waiter
    (key := (Multihop.topology_epoch e, Multihop.path_id e, Multihop.sequence e, Multihop.source e)) :
  Multihop.decode frame 1 = Ok e -> Multihop.is_route_complete e = true ->
  Multihop.opaque_payload e = OVERLAY_ACK_PAYLOAD ->
  Forwarder.chain_ready (receive_time env) [forwarder st] prev e ->
  pending_acknowledgements st !! key = Some waiter ->
  exists st', handle_frame env prev frame st = (st', [WakeWaiter waiter]) /\ pending_acknowledgements st' !! key = None.
Proof.
  intros Hd Hc Hp (Hacc & Hob & _) Hw. destruct (Replay.observe _ _ _ _ _) as [r [[]|]] eqn:Ho; [clear Hob|done].
  unfold handle_frame. cbn [forwarder count].
  rewrite (proj2 (Forwarder.receive_ok (receive_time env) (forwarder st) prev frame
    (Forwarder.set_replay (Forwarder.expire_retained_neighbor_maps (receive_time env) (forwarder st)) r)
    (Forwarder.Deliver (Multihop.source e) (Multihop.opaque_payload e)))).
  2:{ exists e, r. split_and!; [done..|]. unfold Forwarder.expected_action. by rewrite Hc. }
  rewrite Hd, bool_decide_true by done. unfold handle_acknowledgement. cbn [pending_acknowledgements with_forwarder count].
  fold key. rewrite Hw. eexists. split; [done|]. apply lookup_delete_eq.
Qed.

(** A delivery is confirmed. When a datagram of at least the length of an
    acknowledgement was encapsulated on a path and delivered at its end, the destination
    makes an acknowledgement; relays willing to take it carry it back along the reversed
    path, and at the source it wakes exactly the waiter that was registered for the
    datagram's epoch, path, sequence number and target, which is thereby released. *)
Theorem acknowledgement_returns now f p selection pid seq inner f' next dg e relays st env waiter
    (delivered := Multihop.set_hop_index e (lenZ (Multihop.path e)))
    (target := Overlay.node_id (Overlay.target p))
    (key := (Overlay.path_topology_epoch p, pid, seq, target)) :
  Forwarder.encapsulate_selected now f p selection pid seq inner = (f', Ok (Forwarder.Forward next dg)) ->
  is_u64 (Overlay.path_topology_epoch p) -> lenZ pid = 16 -> is_u64 seq -> 15 <= lenZ inner ->
  Multihop.decode dg 1 = Ok e ->
  map Forwarder.local_node relays = reverse (Multihop.path e) ->
  Forwarder.chain_ready (receive_time env) (relays ++ [forwarder st]) target (acknowledgement_of delivered) ->
  pending_acknowledgements st !! key = Some waiter ->
  exists first ack prev frame st',
    overlay_acknowledgement delivered = Some (Ok (first, ack)) /\
    head (map Forwarder.local_node relays) = Some first /\
    carry (receive_time env) relays (Forwarder.local_node f) target ack = Some (prev, frame) /\
    handle_frame env prev frame st = (st', [WakeWaiter waiter]) /\ pending_acknowledgements st' !! key = None.
Proof.
  intros Henc Hep Hpid Hseq Hinner Hd Hrelays Hready Hw.
  destruct (Forwarder.encapsulate_ok _ _ _ _ _ _ _ _ _ _ Henc Hep Hpid Hseq)
    as (e0 & He0 & Hty & Hwf & Hepoch & Hpath & Hsequence & _ & Hlim & Hpayload & Hsrc & _ & Hdst & _).
  assert (e0 = e) as ->.
  { pose proof (Multihop.encode_then_decode e0 1 dg Hty (Multihop.wf_epoch _ _ Hwf) He0). congruence. }
  subst key target inner pid seq. rewrite <- Hepoch, <- Hdst in *. rewrite <- Hsrc.
  assert (Hlen : lenZ (Multihop.path delivered) <= 512) by (pose proof (Multihop.wf_path_count _ _ Hwf); pose proof (Multihop.wf_hop_limit _ _ Hwf); simpl; lia).
  assert (Hty' : Multihop.envelope_typed delivered).
  { destruct Hty as (T1 & T2 & T3 & _ & T5). unfold Multihop.envelope_typed, in_width in *. simpl in *. split_and!; lia. }
  assert (Hwf' : Multihop.envelope_wf 1 delivered) by (apply Multihop.envelope_wf_set_hop_index; [done|lia]).
  destruct (acknowledgement_made delivered Hty' Hwf') as (first & ack & Hack & Hfirst & Henca).
  { unfold acknowledgement_length. pose proof (Multihop.wf_frame _ _ Hwf'). simpl. lia. }
  destruct (acknowledgement_wf delivered Hty' Hwf') as [Hta Hwa].
  { unfold acknowledgement_length. pose proof (Multihop.wf_frame _ _ Hwf'). simpl. lia. }
  destruct (carried (receive_time env) relays _ (acknowledgement_of delivered) ack (forwarder st) Hta Hwa Henca Hrelays Hready)
    as (prev & frame & e' & Hcarry & -> & Hdec & Hlast).
  destruct (acknowledgement_wakes env prev frame st _ waiter Hdec) as (st' & Hst & Hnone); [|done|done|done|].
  { unfold Multihop.is_route_complete. simpl. by rewrite Z.eqb_refl. }
  exists first, ack, prev, frame, st'. split_and!; [done| |done|done|done].
  rewrite Hrelays. rewrite <- Hfirst. simpl. by rewrite head_reverse.
Qed.

End Loop.

(** ** Example: the route [a -> r -> b] with a datagram that needs fragments *)

Definition sample_inner : bytes := replicate 1200 x5a.

Definition sample_sent :=
  Forwarder.encapsulate_selected 0 Forwarder.engine_a Instances.sample_path Forwarder.Primary
    Forwarder.sample_pid 5 sample_inner.

Definition forwarded_frame (r : result Forwarder.OverlayForwardAction Forwarder.OverlayForwarderError) : bytes :=
  match r with Ok (Forwarder.Forward _ frame) => frame | _ => [] end.

Definition sample_frame : bytes := forwarded_frame sample_sent.2.
Definition sample_address : SocketAddr := SockV4 167772161 51822.
Definition sample_relayed := Forwarder.receive 0 Forwarder.engine_r (bstr "a") sample_frame.

Definition sample_surroundings (time : Z) : surroundings :=
  {| reassembly_time := time; receive_time := 0; frame_sent := fun _ _ => true; delivery_accepted := true |}.

Definition sample_state : ReceiveState :=
  {| endpoints := (replace no_endpoints [{| node_id := bstr "a"; vpn_ip := IpV4 167772161;
                                            udp_endpoint := sample_address |}]).1;
     forwarder := Forwarder.engine_r; reassembler := Fragments.reassembler_new;
     pending_acknowledgements := ∅; counters := fun _ => 0 |}.

Lemma sample_decodes : is_ok (Multihop.decode sample_frame 1) = true.
Proof. by vm_compute. Qed.

Lemma sample_received :
  sample_relayed = (sample_relayed.1, Ok (Forwarder.Forward (bstr "b") (forwarded_frame sample_relayed.2))).
Proof. apply pair_snd. by vm_compute. Qed.

Lemma hop_transparent_witness :
  exists received r', map snd received = rev (map (@Fragments.fragment_of sample_digest sample_frame) [0; 1]%nat) /\
    handle_all (Dig := sample_digest) false sample_address received sample_state =
    Some (with_reassembler (handle_frame (sample_surroundings 1) (bstr "a") sample_frame sample_state).1 r',
          (handle_frame (sample_surroundings 1) (bstr "a") sample_frame sample_state).2).
Proof.
  pose proof sample_decodes as Hd. destruct (Multihop.decode sample_frame 1) as [e|] eqn:E; [clear Hd|discriminate Hd].
  assert (Hf : Fragments.fragmentable sample_frame) by (split; vm_compute; done).
  assert (Hc : Fragments.frame_count sample_frame = 2%nat) by (vm_compute; reflexivity).
  pose proof (@Fragments.frame_datagrams_fragments sample_digest sample_frame Hf) as Hsent. rewrite Hc in Hsent.
  exists [(sample_surroundings 0, @Fragments.fragment_of sample_digest sample_frame 1);
          (sample_surroundings 1, @Fragments.fragment_of sample_digest sample_frame 0)].
  destruct (hop_transparent (Dig := sample_digest) sample_address (bstr "a") sample_frame e _
    [(sample_surroundings 0, @Fragments.fragment_of sample_digest sample_frame 1);
     (sample_surroundings 1, @Fragments.fragment_of sample_digest sample_frame 0)] sample_state
    _ _ E Hsent (perm_swap _ _ _) ltac:(vm_compute; reflexivity) (@Fragments.new_ok) (lookup_empty _) eq_refl eq_refl eq_refl)
    as [r' Hr].
  - repeat constructor.
  - exists r'. split; [reflexivity|exact Hr].
Defined.

Lemma effects_authenticated_witness :
  exists prev frame e, neighbor_for_endpoint (endpoints sample_state) sample_address = Some prev /\
    Multihop.decode frame 1 = Ok e /\ justified sample_state e (SendFrame (bstr "b") Forwarder.relayed_frame).
Proof.
  assert (Hr : option_map snd (handle_datagram (Dig := sample_digest) false (sample_surroundings 0) sample_address
                 Forwarder.sent_frame sample_state) = Some [SendFrame (bstr "b") Forwarder.relayed_frame])
    by (vm_compute; reflexivity).
  destruct (handle_datagram (Dig := sample_digest) false (sample_surroundings 0) sample_address
              Forwarder.sent_frame sample_state) as [[st' effects]|] eqn:E; [|discriminate Hr].
  injection Hr as Heff.
  destruct (effects_authenticated (Dig := sample_digest) false (sample_surroundings 0) sample_address
    Forwarder.sent_frame sample_state st' effects (SendFrame (bstr "b") Forwarder.relayed_frame) E)
    as (prev & frame & e & Hp & _ & Hd & Hj & _); [rewrite Heff; constructor|].
  exists prev, frame, e. split; [exact Hp|]. split; [exact Hd|exact Hj].
Defined.

Definition sample_envelope : Multihop.MultiHopEnvelope :=
  match Multihop.decode sample_frame 1 with Ok e => e | Err _ => Multihop.sample end.

Definition sample_acknowledgement : bytes :=
  match overlay_acknowledgement (Multihop.set_hop_index sample_envelope 1) with
  | Some (Ok (_, frame)) => frame | _ => [] end.

Definition carried_acknowledgement := Forwarder.receive 0 Forwarder.engine_r (bstr "b") sample_acknowledgement.
Definition final_acknowledgement :=
  Forwarder.receive 0 Forwarder.engine_a (bstr "r") (forwarded_frame carried_acknowledgement.2).

Definition source_state : ReceiveState :=
  {| endpoints := no_endpoints; forwarder := Forwarder.engine_a; reassembler := Fragments.reassembler_new;
     pending_acknowledgements := {[ (Overlay.path_topology_epoch Instances.sample_path, Forwarder.sample_pid, 5,
                                     Overlay.node_id (Overlay.target Instances.sample_path)) := 7%nat ]};
     counters := fun _ => 0 |}.

Lemma sample_acknowledgement_ready :
  Forwarder.chain_ready 0 [Forwarder.engine_r; Forwarder.engine_a] (bstr "b")
    (acknowledgement_of (Multihop.set_hop_index sample_envelope 1)).
Proof.
  assert (E1 : carried_acknowledgement = (carried_acknowledgement.1,
    Ok (Forwarder.Forward (bstr "a") (forwarded_frame carried_acknowledgement.2)))) by (apply pair_snd; by vm_compute).
  assert (E2 : final_acknowledgement = (final_acknowledgement.1, Ok (Forwarder.Deliver (bstr "b") OVERLAY_ACK_PAYLOAD)))
    by (apply pair_snd; by vm_compute).
  destruct (Forwarder.receive_ready _ _ _ _ _ _ (acknowledgement_of (Multihop.set_hop_index sample_envelope 1)) E1) as [H1 H2];
    [by vm_compute|].
  destruct (Forwarder.receive_ready _ _ _ _ _ _
    (Forwarder.advanced (acknowledgement_of (Multihop.set_hop_index sample_envelope 1))) E2) as [H3 H4]; [by vm_compute|].
  assert (Hr : Forwarder.local_node Forwarder.engine_r = bstr "r") by by vm_compute.
  cbn [Forwarder.chain_ready]. rewrite Hr. exact (conj H1 (conj H2 (conj H3 (conj H4 I)))).
Qed.

Lemma acknowledgement_returns_witness :
  exists first ack prev frame st',
    overlay_acknowledgement (Multihop.set_hop_index sample_envelope 1) = Some (Ok (first, ack)) /\
    carry 0 [Forwarder.engine_r] (bstr "a") (bstr "b") ack = Some (prev, frame) /\
    handle_frame (sample_surroundings 0) prev frame source_state = (st', [WakeWaiter 7]).
Proof.
  destruct (acknowledgement_returns 0 Forwarder.engine_a Instances.sample_path Forwarder.Primary Forwarder.sample_pid 5
    sample_inner sample_sent.1 (bstr "r") sample_frame sample_envelope [Forwarder.engine_r] source_state
    (sample_surroundings 0) 7) as (first & ack & prev & frame & st' & H1 & _ & H2 & H3 & _).
  - apply pair_snd. vm_compute. reflexivity.
  - unfold in_width. vm_compute. split; [discriminate|reflexivity].
  - reflexivity.
  - unfold in_width. lia.
  - vm_compute. discriminate.
  - vm_compute. reflexivity.
  - vm_compute. reflexivity.
  - exact sample_acknowledgement_ready.
  - apply lookup_singleton_eq.
  - exists first, ack, prev, frame, st'. split; [exact H1|]. split; [exact H2|exact H3].
Defined.

End Transit.
