(* ===== verification/OverlayClient.v ===== *)
(** * Sending with failover (crates/ipars-agent/src/overlay_transit.rs)

    [OverlayTransitClient]: a datagram is tried on the primary path, awaits the
    acknowledgement of its target and is retried once on the secondary path. The client
    shares its state with every other task of the node: at each suspension point the
    others may change it, which the model takes as an argument, as it does the clock, the
    socket and the arrival of acknowledgements. *)

From S2P Require Import Prelude RustStd Endpoints OverlayTypes Instances Multihop ReplayWindow OverlayForwarder Hashing OverlayFragments OverlayTransit.

Module Client.

Definition MAX_OVERLAY_ACK_TIMEOUT_PATH_HOPS : Z := 32.
Definition MAX_OVERLAY_PRIMARY_IN_FLIGHT_PER_NEXT_HOP : Z := 16.
(** 5 seconds in nanoseconds. *)
Definition OVERLAY_PRIMARY_FAILURE_BACKOFF : Z := 5 * 10 ^ 9.
(** [Duration::MAX] in nanoseconds. *)
Definition DURATION_MAX : Z := 2 ^ 64 * 10 ^ 9 - 1.

Definition overlay_acknowledgement_timeout (base_timeout selected_path_node_count : Z) : Z :=
  let path_hops := Z.max (saturating_sub selected_path_node_count 1) 1 in
  let multiplier := Z.min (if path_hops <? 2 ^ 32 then path_hops else MAX_OVERLAY_ACK_TIMEOUT_PATH_HOPS)
                      MAX_OVERLAY_ACK_TIMEOUT_PATH_HOPS in
  Z.min (base_timeout * multiplier) DURATION_MAX.

Inductive OverlayNeighborSendError : Type :=
  | UnknownNeighbor (node : NodeId)
  | Io (next_hop : NodeId) (endpoint : SocketAddr).

Inductive OverlayPathAttemptError : Type :=
  | Send (e : OverlayNeighborSendError)
  | AcknowledgementTimeout (remote : NodeId) (timeout_millis : Z)
  | AcknowledgementWaiterClosed (remote : NodeId)
  | AcknowledgementCapacity (maximum : Z)
  | DuplicateAcknowledgement (remote : NodeId).

Inductive OverlayTransitError : Type :=
  | ForwarderError (e : Forwarder.OverlayForwarderError)
  | NoPrimaryNextHop
  | SendError (e : OverlayNeighborSendError)
  | FailoverPreparation (primary : OverlayPathAttemptError) (secondary : Forwarder.OverlayForwarderError)
  | BothPathsFailed (primary secondary : OverlayPathAttemptError)
  | SuppressedSecondaryFailed (e : OverlayPathAttemptError)
  | SequenceOverflow (sequence : Z)
  | DirectNeighborRequiresDataplane (peer : NodeId).

Record OverlaySendOutcome : Type := {
  selection : Forwarder.OverlayPathSelection;
  sequence : Z
}.

(** How the wait for an acknowledgement ends. *)
Inductive wait : Type := Acknowledged | WaiterDropped | TimedOut.

(** Epoch and primary next hop. *)
Abbreviation route_key := (Z * NodeId)%type.

(** A frame handed to the socket of a neighbor. *)
Abbreviation handed := (NodeId * bytes)%type.

(** How far a task gets: it returns, it waits for a permit, or it panics. *)
Inductive outcome (A : Type) : Type := Done (a : A) | Waiting | Panicked.
Arguments Done {A} a.
Arguments Waiting {A}.
Arguments Panicked {A}.

Section Client.
Context {Net : IpNetOps} {Url : UrlOps}.

Record Shared : Type := {
  forwarder : Forwarder.BoundedOverlayForwarder;
  pending : gmap Transit.acknowledgement_key nat;
  closed_waiters : gset nat;
  next_waiter : nat;
  suppressed : gmap route_key Z;
  limiters : gmap route_key nat;
  in_flight : gmap nat Z;
  next_limiter : nat;
  counters : Transit.stats
}.

Definition set_forwarder (f : Forwarder.BoundedOverlayForwarder) (s : Shared) : Shared :=
  {| forwarder := f; pending := pending s; closed_waiters := closed_waiters s; next_waiter := next_waiter s;
     suppressed := suppressed s; limiters := limiters s; in_flight := in_flight s; next_limiter := next_limiter s;
     counters := counters s |}.

Definition set_pending (p : gmap Transit.acknowledgement_key nat) (s : Shared) : Shared :=
  {| forwarder := forwarder s; pending := p; closed_waiters := closed_waiters s; next_waiter := next_waiter s;
     suppressed := suppressed s; limiters := limiters s; in_flight := in_flight s; next_limiter := next_limiter s;
     counters := counters s |}.

Definition set_waiters (closed : gset nat) (next : nat) (s : Shared) : Shared :=
  {| forwarder := forwarder s; pending := pending s; closed_waiters := closed; next_waiter := next;
     suppressed := suppressed s; limiters := limiters s; in_flight := in_flight s; next_limiter := next_limiter s;
     counters := counters s |}.

Definition set_suppressed (m : gmap route_key Z) (s : Shared) : Shared :=
  {| forwarder := forwarder s; pending := pending s; closed_waiters := closed_waiters s; next_waiter := next_waiter s;
     suppressed := m; limiters := limiters s; in_flight := in_flight s; next_limiter := next_limiter s;
     counters := counters s |}.

Definition set_limiters (m : gmap route_key nat) (used : gmap nat Z) (next : nat) (s : Shared) : Shared :=
  {| forwarder := forwarder s; pending := pending s; closed_waiters := closed_waiters s; next_waiter := next_waiter s;
     suppressed := suppressed s; limiters := m; in_flight := used; next_limiter := next; counters := counters s |}.

Definition count (which : Transit.stat) (s : Shared) : Shared :=
  {| forwarder := forwarder s; pending := pending s; closed_waiters := closed_waiters s; next_waiter := next_waiter s;
     suppressed := suppressed s; limiters := limiters s; in_flight := in_flight s; next_limiter := next_limiter s;
     counters := Transit.fetch_add which (counters s) |}.

(** The surroundings of a call, per suspension point: what the other tasks do meanwhile,
    the clock, the socket, and the end of a wait. *)
Record surroundings : Type := {
  others : nat -> Shared -> Shared;
  clock : nat -> Z;
  socket : nat -> NodeId -> bytes -> result unit OverlayNeighborSendError;
  waited : nat -> wait
}.

(** The client's configuration. *)
Record client_config : Type := {
  acknowledgement_timeout : option Z;
  max_pending_acknowledgements : Z
}.

(** ** Tasks

    A task changes the shared state and hands frames to the socket. *)

Definition task (A : Type) : Type := Shared -> list handed -> outcome (A * Shared * list handed).

Definition ret {A} (a : A) : task A := fun s log => Done (a, s, log).

Definition bind {A B} (t : task A) (k : A -> task B) : task B := fun s log =>
  match t s log with
  | Done (a, s, log) => k a s log
  | Waiting => Waiting
  | Panicked => Panicked
  end.

Definition update {A} (f : Shared -> Shared * A) : task A := fun s log => let '(s, a) := f s in Done (a, s, log).

Definition unreachable {A} : task A := fun _ _ => Panicked.
Definition blocked {A} : task A := fun _ _ => Waiting.

Notation "'let*' x ':=' t 'in' k" := (bind t (fun x => k))
  (at level 10, x pattern, t at level 200, k at level 200, format "'[v' 'let*'  x  ':='  t  'in' '/' k ']'").

Definition modify (f : Shared -> Shared) : task unit := update (fun s => (f s, tt)).

(** A suspension point. *)
Definition await (env : surroundings) (point : nat) : task unit := modify (others env point).

(** [sender.send_frame(..).await] *)
Definition hand (env : surroundings) (point : nat) (next_hop : NodeId) (frame : bytes)
  : task (result unit OverlayNeighborSendError) := fun s log =>
  Done (socket env point next_hop frame, others env point s, log ++ [(next_hop, frame)]).

(** Registers a waiter for an acknowledgement. *)
Definition register (cfg : client_config) (key : Transit.acknowledgement_key) (s : Shared)
  : Shared * result nat OverlayPathAttemptError :=
  let open := filter (fun kw => kw.2 ∉ closed_waiters s) (pending s) in
  if max_pending_acknowledgements cfg <=? Z.of_nat (size open)
  then (set_pending open s, Err (AcknowledgementCapacity (max_pending_acknowledgements cfg)))
  else match open !! key with
       | Some _ => (set_pending open s, Err (DuplicateAcknowledgement key.2))
       | None =>
           (set_waiters (closed_waiters s) (S (next_waiter s)) (set_pending (<[key := next_waiter s]> open) s),
            Ok (next_waiter s))
       end.

Definition forget (key : Transit.acknowledgement_key) (s : Shared) : Shared :=
  set_pending (delete key (pending s)) s.

(** The receiving half of a waiter is dropped. *)
Definition close (waiter : nat) (s : Shared) : Shared :=
  set_waiters ({[ waiter ]} ∪ closed_waiters s) (next_waiter s) s.

Definition send_action_with_acknowledgement (env : surroundings) (cfg : client_config) (point : nat)
    (action : Forwarder.OverlayForwardAction) (acknowledgement : Transit.acknowledgement_key)
    (selected_path : list NodeId) : task (result unit OverlayPathAttemptError) :=
  match action with
  | Forwarder.Forward next_hop datagram =>
      match acknowledgement_timeout cfg with
      | None =>
          let* sent := hand env point next_hop datagram in
          match sent with
          | Ok _ => ret (Ok tt)
          | Err e => let* _ := modify (count Transit.send_failures) in ret (Err (Send e))
          end
      | Some base_timeout =>
          let timeout := overlay_acknowledgement_timeout base_timeout (lenZ selected_path) in
          let remote := acknowledgement.2 in
          let* _ := await env point in
          let* registered := update (register cfg acknowledgement) in
          match registered with
          | Err e => ret (Err e)
          | Ok waiter =>
              let* sent := hand env (point + 1) next_hop datagram in
              match sent with
              | Err e =>
                  let* _ := await env (point + 2) in
                  let* _ := modify (fun s => close waiter (count Transit.send_failures (forget acknowledgement s))) in
                  ret (Err (Send e))
              | Ok _ =>
                  let* _ := await env (point + 3) in
                  match waited env point with
                  | Acknowledged => let* _ := modify (close waiter) in ret (Ok tt)
                  | WaiterDropped =>
                      let* _ := await env (point + 4) in
                      let* _ := modify (fun s => close waiter (forget acknowledgement s)) in
                      ret (Err (AcknowledgementWaiterClosed remote))
                  | TimedOut =>
                      let* _ := await env (point + 4) in
                      let* _ := modify (fun s =>
                        close waiter (count Transit.acknowledgement_timeouts (forget acknowledgement s))) in
                      let millis := timeout / 10 ^ 6 in
                      ret (Err (AcknowledgementTimeout remote (if millis <? 2 ^ 64 then millis else 2 ^ 64 - 1)))
                  end
              end
          end
      end
  | _ => unreachable
  end.

(** Routes whose suppression has not ended. *)
Definition primary_route_is_suppressed (env : surroundings) (point : nat) (key : route_key) : task bool :=
  let now := clock env point in
  let* _ := await env point in
  update (fun s =>
    let kept := filter (fun ku => now < ku.2) (suppressed s) in
    (set_suppressed kept s, bool_decide (is_Some (kept !! key)))).

(** [forwarder.lock().await] and an encapsulation. *)
Definition encapsulate (env : surroundings) (point : nat) (p : Overlay.OverlayPath)
    (selection : Forwarder.OverlayPathSelection) (path_id : bytes) (sequence : Z) (inner : bytes)
  : task (result Forwarder.OverlayForwardAction Forwarder.OverlayForwarderError) :=
  let* _ := await env point in
  update (fun s =>
    let '(f, r) := Forwarder.encapsulate_selected (clock env point) (forwarder s) p selection path_id sequence inner in
    (set_forwarder f s, r)).

Definition acknowledgement_key (p : Overlay.OverlayPath) (path_id : bytes) (sequence : Z) : Transit.acknowledgement_key :=
  (Overlay.path_topology_epoch p, path_id, sequence, Overlay.node_id (Overlay.target p)).

Definition send_suppressed_secondary (env : surroundings) (cfg : client_config) (point : nat)
    (p : Overlay.OverlayPath) (path_id : bytes) (sequence : Z) (inner : bytes)
  : task (result OverlaySendOutcome OverlayTransitError) :=
  match Overlay.secondary_ordered_nodes p with
  | None => ret (Err (ForwarderError Forwarder.SecondaryPathUnavailable))
  | Some secondary_path =>
      let* encapsulated := encapsulate env point p Forwarder.Secondary path_id sequence inner in
      match encapsulated with
      | Err e => ret (Err (ForwarderError e))
      | Ok secondary =>
          let* sent := send_action_with_acknowledgement env cfg (point + 1) secondary
                         (acknowledgement_key p path_id sequence) secondary_path in
          ret (match sent with
               | Ok _ => Ok {| selection := Forwarder.Secondary; sequence := sequence |}
               | Err e => Err (SuppressedSecondaryFailed e)
               end)
      end
  end.

(** *** The limiter of a primary route: a semaphore with 16 permits *)

Definition limiter_for (key : route_key) (s : Shared) : Shared * nat :=
  match limiters s !! key with
  | Some id => (s, id)
  | None =>
      let id := next_limiter s in
      (set_limiters (<[key := id]> (limiters s)) (<[id := 0]> (in_flight s)) (S id) s, id)
  end.

Definition add_in_flight (id : nat) (n : Z) (s : Shared) : Shared :=
  set_limiters (limiters s) (<[id := default 0 (in_flight s !! id) + n]> (in_flight s)) (next_limiter s) s.

Definition acquire (env : surroundings) (point : nat) (id : nat) : task unit :=
  let* _ := await env point in
  fun s log =>
    if default 0 (in_flight s !! id) <? MAX_OVERLAY_PRIMARY_IN_FLIGHT_PER_NEXT_HOP
    then Done (tt, add_in_flight id 1 s, log) else Waiting.

Definition release (id : nat) : task unit := modify (add_in_flight id (-1)).

(** The failures that keep later datagrams off a primary route for a while. *)
Definition suppresses (e : OverlayPathAttemptError) : bool :=
  match e with Send _ | AcknowledgementTimeout _ _ => true | _ => false end.

(** The retry on the secondary path after [primary] failed. *)
Definition fail_over (env : surroundings) (cfg : client_config) (p : Overlay.OverlayPath) (path_id : bytes)
    (sequence : Z) (inner : bytes) (route : route_key) (primary : OverlayPathAttemptError)
  : task (result OverlaySendOutcome OverlayTransitError) :=
  let* _ := (if suppresses primary then
               let* _ := await env 20 in
               modify (fun s => set_suppressed
                 (<[route := clock env 20 + OVERLAY_PRIMARY_FAILURE_BACKOFF]> (suppressed s)) s)
             else ret tt) in
  match checked_add 64 sequence 1 with
  | None => ret (Err (SequenceOverflow sequence))
  | Some secondary_sequence =>
      match Overlay.secondary_ordered_nodes p with
      | None => ret (Err (FailoverPreparation primary Forwarder.SecondaryPathUnavailable))
      | Some secondary_path =>
          let* secondary_result := encapsulate env 21 p Forwarder.Secondary path_id secondary_sequence inner in
          match secondary_result with
          | Err secondary => ret (Err (FailoverPreparation primary secondary))
          | Ok secondary =>
              let* sent := send_action_with_acknowledgement env cfg 22 secondary
                             (acknowledgement_key p path_id secondary_sequence) secondary_path in
              ret (match sent with
                   | Ok _ => Ok {| selection := Forwarder.Secondary; sequence := secondary_sequence |}
                   | Err secondary => Err (BothPathsFailed primary secondary)
                   end)
          end
      end
  end.

(** The attempt on the primary path, with its permit held. *)
Definition send_primary (env : surroundings) (cfg : client_config) (p : Overlay.OverlayPath) (path_id : bytes)
    (sequence : Z) (inner : bytes) (route : route_key) (limiter : nat)
  : task (result OverlaySendOutcome OverlayTransitError) :=
  let* encapsulated := encapsulate env 10 p Forwarder.Primary path_id sequence inner in
  match encapsulated with
  | Err e => let* _ := release limiter in ret (Err (ForwarderError e))
  | Ok primary =>
      let* sent := send_action_with_acknowledgement env cfg 11 primary
                     (acknowledgement_key p path_id sequence) (Overlay.ordered_nodes p) in
      let* _ := release limiter in
      match sent with
      | Ok _ => ret (Ok {| selection := Forwarder.Primary; sequence := sequence |})
      | Err primary => fail_over env cfg p path_id sequence inner route primary
      end
  end.

Definition send_with_secondary_failover (env : surroundings) (cfg : client_config) (p : Overlay.OverlayPath)
    (path_id : bytes) (sequence : Z) (inner : bytes) : task (result OverlaySendOutcome OverlayTransitError) :=
  match Overlay.validate_path p with
  | Err e => ret (Err (ForwarderError (Forwarder.InvalidOverlayPath e)))
  | Ok _ =>
      if bool_decide (length (Overlay.ordered_nodes p) = 2%nat)
      then ret (Err (DirectNeighborRequiresDataplane (Overlay.node_id (Overlay.target p))))
      else match Overlay.ordered_nodes p !! 1%nat with
      | None => ret (Err NoPrimaryNextHop)
      | Some primary_next_hop =>
          let route := (Overlay.path_topology_epoch p, primary_next_hop) in
          let has_secondary := bool_decide (is_Some (Overlay.secondary_ordered_nodes p)) in
          let* avoid := (if has_secondary then primary_route_is_suppressed env 0 route else ret false) in
          if avoid then send_suppressed_secondary env cfg 30 p path_id sequence inner
          else
            let* _ := await env 1 in
            let* limiter := update (limiter_for route) in
            let* _ := acquire env 2 limiter in
            let* avoid := (if has_secondary then primary_route_is_suppressed env 3 route else ret false) in
            if avoid then
              let* _ := release limiter in
              send_suppressed_secondary env cfg 30 p path_id sequence inner
            else send_primary env cfg p path_id sequence inner route limiter
      end
  end.

(** [OverlayTransitClient::send]: the primary path, without retry. *)
Definition send (env : surroundings) (p : Overlay.OverlayPath) (path_id : bytes) (sequence : Z) (inner : bytes)
  : task (result OverlaySendOutcome OverlayTransitError) :=
  let* encapsulated := encapsulate env 0 p Forwarder.Primary path_id sequence inner in
  match encapsulated with
  | Err e => ret (Err (ForwarderError e))
  | Ok (Forwarder.Forward next_hop datagram) =>
      let* sent := hand env 1 next_hop datagram in
      match sent with
      | Ok _ => ret (Ok {| selection := Forwarder.Primary; sequence := sequence |})
      | Err e => let* _ := modify (count Transit.send_failures) in ret (Err (SendError e))
      end
  | Ok (Forwarder.DirectNeighbor peer _) => ret (Err (DirectNeighborRequiresDataplane peer))
  | Ok (Forwarder.Deliver _ _) => unreachable
  end.

Definition update_neighbor_map (env : surroundings) (m : Overlay.NeighborMap)
  : task (result unit OverlayTransitError) :=
  let* _ := await env 0 in
  let* updated := update (fun s =>
    let topology_changed := negb (Overlay.topology_epoch (Forwarder.neighbor_map (forwarder s)) =? Overlay.topology_epoch m) in
    let '(f, r) := Forwarder.update_neighbor_map (clock env 0) (clock env 1) (forwarder s) m in
    (set_forwarder f s, match r with Ok _ => Ok topology_changed | Err e => Err (ForwarderError e) end)) in
  match updated with
  | Err e => ret (Err e)
  | Ok topology_changed =>
      if topology_changed then
        let* _ := await env 2 in
        let* _ := modify (set_suppressed ∅) in
        let* _ := await env 3 in
        let* _ := modify (fun s => set_limiters ∅ (in_flight s) (next_limiter s) s) in
        ret (Ok tt)
      else ret (Ok tt)
  end.

(** ** What goes on the wire *)

Lemma bind_done {A B} (t : task A) (k : A -> task B) s log x :
  bind t k s log = Done x <-> exists a s' log', t s log = Done (a, s', log') /\ k a s' log' = Done x.
Proof.
  unfold bind. destruct (t s log) as [[[a s'] log']| |]; split; intros; try done; [by eauto|..];
    destruct_and?; naive_solver.
Qed.

(** A frame that carries [inner] on the selected nodes of the path under a sequence number. *)
Definition frame_on (p : Overlay.OverlayPath) (selection : Forwarder.OverlayPathSelection) (path_id : bytes)
    (sequence : Z) (inner : bytes) (h : handed) : Prop :=
  exists e, Multihop.decode h.2 1 = Ok e /\ Multihop.sequence e = sequence /\ Multihop.path_id e = path_id /\
    Multihop.opaque_payload e = inner /\ head (Multihop.path e) = Some h.1 /\
    Forwarder.selected_nodes p selection = Some (Multihop.source e :: Multihop.path e ++ [Multihop.destination e]).

Lemma attempt_log env cfg point action key path s log r s' log' :
  send_action_with_acknowledgement env cfg point action key path s log = Done (r, s', log') ->
  exists next frame, action = Forwarder.Forward next frame /\
    (log' = log ++ [(next, frame)] \/ (log' = log /\ is_ok r = false)).
Proof.
  destruct action as [next frame|src payload|peer dg]; [|done..]. intros E. exists next, frame. split; [done|].
  cbn [send_action_with_acknowledgement] in E. destruct (acknowledgement_timeout cfg) as [base|].
  - cbv zeta in E. apply bind_done in E as (? & s1 & l1 & [= <- <- <-] & E).
    apply bind_done in E as (reg & s2 & l2 & E1 & E). unfold update in E1. destruct (register _ _ _) as [s3 reg'].
    injection E1 as <- <- <-. destruct reg' as [waiter|e]; [|injection E as <- <- <-; by right].
    apply bind_done in E as (sent & s4 & l4 & [= <- <- <-] & E). left. destruct (socket _ _ _ _) as [[]|e].
    + apply bind_done in E as (? & s5 & l5 & [= <- <- <-] & E). destruct (waited env point).
      all: repeat (apply bind_done in E as (? & ? & ? & [= <- <- <-] & E)); by injection E as <- <- <-.
    + repeat (apply bind_done in E as (? & ? & ? & [= <- <- <-] & E)). by injection E as <- <- <-.
  - apply bind_done in E as (sent & s1 & l1 & [= <- <- <-] & E). left. destruct (socket _ _ _ _) as [[]|e].
    + by injection E as <- <- <-.
    + apply bind_done in E as (? & s2 & l2 & [= <- <- <-] & E). by injection E as <- <- <-.
Qed.

Section Wire.
Variable p : Overlay.OverlayPath.
Variable path_id : bytes.
Variable sequence : Z.
Variable inner : bytes.
Hypothesis epoch_ok : is_u64 (Overlay.path_topology_epoch p).
Hypothesis id_ok : lenZ path_id = 16.
Hypothesis sequence_ok : is_u64 sequence.

Lemma encapsulate_done env point sel s log r s' log' :
  encapsulate env point p sel path_id sequence inner s log = Done (r, s', log') ->
  log' = log /\ forall next frame, r = Ok (Forwarder.Forward next frame) ->
    frame_on p sel path_id sequence inner (next, frame).
Proof.
  unfold encapsulate. intros E. apply bind_done in E as (? & s1 & l1 & [= <- <- <-] & E). unfold update in E.
  destruct (Forwarder.encapsulate_selected _ _ _ _ _ _ _) as [f r'] eqn:Ee. injection E as <- <- <-. split; [done|].
  intros next frame ->.
  destruct (Forwarder.encapsulate_ok _ _ _ _ _ _ _ _ _ _ Ee epoch_ok id_ok sequence_ok)
    as (e & Henc & Hty & Hwf & _ & Hpid & Hseq & _ & _ & Hpay & Hsrc & Hnodes & _ & Hat & _).
  exists e. split_and!; try done.
  - eapply Multihop.encode_then_decode; [done|apply Hwf|done].
  - pose proof (Multihop.wf_path_count _ _ Hwf). unfold Forwarder.node_at in Hat.
    destruct (Multihop.path e); simpl in *; [lia|congruence].
  - by rewrite Hsrc.
Qed.

(** The frames a task adds to the log are those of the marks, the last of which an [Ok]
    result names. *)
Definition adds (marks : list (Forwarder.OverlayPathSelection * Z)) (log log' : list handed)
    (r : result OverlaySendOutcome OverlayTransitError) : Prop :=
  exists frames, log' = log ++ frames /\ Forall2 (fun m h => frame_on p m.1 path_id m.2 inner h) marks frames /\
    forall o, r = Ok o -> last marks = Some (selection o, Client.sequence o).

Lemma adds_none log e : adds [] log log (Err e).
Proof. exists []. rewrite app_nil_r. split_and!; [done|constructor|done]. Qed.

Lemma adds_one sel seq log log' h r : log' = log ++ [h] -> frame_on p sel path_id seq inner h ->
  (forall o, r = Ok o -> o = {| selection := sel; Client.sequence := seq |}) -> adds [(sel, seq)] log log' r.
Proof. intros -> Hh Hr. exists [h]. split_and!; [done|by repeat constructor|]. by intros o ->%Hr. Qed.

Lemma suppressed_done env cfg point s log r s' log' :
  send_suppressed_secondary env cfg point p path_id sequence inner s log = Done (r, s', log') ->
  exists marks, marks ∈ [[]; [(Forwarder.Secondary, sequence)]] /\ adds marks log log' r.
Proof.
  unfold send_suppressed_secondary. destruct (Overlay.secondary_ordered_nodes p) as [nodes|].
  2:{ intros [= <- <- <-]. exists []. split; [constructor|apply adds_none]. }
  intros E. apply bind_done in E as (a & s1 & l1 & E1 & E). apply encapsulate_done in E1 as [-> Hframe].
  destruct a as [action|e]; [|injection E as <- <- <-; exists []; split; [constructor|apply adds_none]].
  apply bind_done in E as (sent & s2 & l2 & E2 & E). injection E as <- <- <-.
  apply attempt_log in E2 as (next & frame & -> & Hlog). destruct Hlog as [->|[-> Hr]].
  - exists [(Forwarder.Secondary, sequence)]. split; [repeat constructor|].
    eapply adds_one; [done|by apply Hframe|]. destruct sent; [|done]. by intros o [= <-].
  - exists []. split; [constructor|]. destruct sent; [done|]. apply adds_none.
Qed.

End Wire.

Lemma fail_over_done p path_id seq inner env cfg route primary s log r s' log' :
  is_u64 (Overlay.path_topology_epoch p) -> lenZ path_id = 16 -> is_u64 seq ->
  fail_over env cfg p path_id seq inner route primary s log = Done (r, s', log') ->
  exists marks, marks ∈ [[]; [(Forwarder.Secondary, seq + 1)]] /\ adds p path_id inner marks log log' r.
Proof.
  intros He Hid Hseq. unfold fail_over. intros E. apply bind_done in E as (? & s1 & l1 & E1 & E).
  assert (l1 = log) as -> by (destruct (suppresses primary); [apply bind_done in E1 as (? & ? & ? & [= <- <- <-] & E1)|]; by injection E1).
  clear E1. unfold checked_add in E. destruct (Z.ltb_spec (seq + 1) (2 ^ 64)) as [Hlt|].
  2:{ injection E as <- <- <-. exists []. split; [constructor|apply adds_none]. }
  destruct (Overlay.secondary_ordered_nodes p) as [nodes|].
  2:{ injection E as <- <- <-. exists []. split; [constructor|apply adds_none]. }
  apply bind_done in E as (a & s2 & l2 & E2 & E).
  apply encapsulate_done in E2 as [-> Hframe]; [|done|done|unfold in_width in *; lia].
  destruct a as [action|e]; [|injection E as <- <- <-; exists []; split; [constructor|apply adds_none]].
  apply bind_done in E as (sent & s3 & l3 & E3 & E). injection E as <- <- <-.
  apply attempt_log in E3 as (next & frame & -> & Hlog). destruct Hlog as [->|[-> Hr]].
  - exists [(Forwarder.Secondary, seq + 1)]. split; [repeat constructor|].
    eapply adds_one; [done|by apply Hframe|]. destruct sent; [|done]. by intros o [= <-].
  - exists []. split; [constructor|]. destruct sent; [done|]. apply adds_none.
Qed.

(** What one call may put on the wire, as selections with their sequence numbers. *)
Definition allowed (seq : Z) : list (list (Forwarder.OverlayPathSelection * Z)) :=
  [[]; [(Forwarder.Primary, seq)]; [(Forwarder.Secondary, seq)]; [(Forwarder.Secondary, seq + 1)];
   [(Forwarder.Primary, seq); (Forwarder.Secondary, seq + 1)]].

Lemma primary_done p path_id seq inner env cfg route limiter s log r s' log' :
  is_u64 (Overlay.path_topology_epoch p) -> lenZ path_id = 16 -> is_u64 seq ->
  send_primary env cfg p path_id seq inner route limiter s log = Done (r, s', log') ->
  exists marks, marks ∈ allowed seq /\ adds p path_id inner marks log log' r.
Proof.
  intros He Hid Hseq. unfold send_primary. intros E. apply bind_done in E as (a & s1 & l1 & E1 & E).
  apply encapsulate_done in E1 as [-> Hframe]; [|done..]. destruct a as [action|e].
  2:{ apply bind_done in E as (? & ? & ? & [= <- <- <-] & E). injection E as <- <- <-.
      exists []. split; [constructor|apply adds_none]. }
  apply bind_done in E as (sent & s2 & l2 & E2 & E). apply bind_done in E as (? & s3 & l3 & [= <- <- <-] & E).
  apply attempt_log in E2 as (next & frame & -> & Hlog). destruct sent as [u|e].
  - destruct Hlog as [->|[_ [=]]]. injection E as <- <- <-. exists [(Forwarder.Primary, seq)].
    split; [repeat constructor|]. eapply adds_one; [done|by apply Hframe|]. by intros o [= <-].
  - apply fail_over_done in E as (marks & Hin & frames & -> & Hf & Hr); [|done..].
    destruct Hlog as [->|[-> _]].
    + exists ((Forwarder.Primary, seq) :: marks). split.
      * rewrite !elem_of_cons, elem_of_nil in Hin. destruct Hin as [->|[->|[]]]; repeat constructor.
      * exists ((next, frame) :: frames). split_and!; [by rewrite <- app_assoc|constructor; [by apply Hframe|done]|].
        intros o Ho. specialize (Hr o Ho). by destruct marks.
    + exists marks. split; [|by exists frames].
      rewrite !elem_of_cons, elem_of_nil in Hin. destruct Hin as [->|[->|[]]]; repeat constructor.
Qed.

Lemma suppressed_check env point route s log b s' log' :
  primary_route_is_suppressed env point route s log = Done (b, s', log') -> log' = log.
Proof. intros E. apply bind_done in E as (? & ? & ? & [= <- <- <-] & E). by injection E. Qed.

Lemma failover_marks env cfg p path_id seq inner s r s' log :
  is_u64 (Overlay.path_topology_epoch p) -> lenZ path_id = 16 -> is_u64 seq ->
  send_with_secondary_failover env cfg p path_id seq inner s [] = Done (r, s', log) ->
  exists marks, marks ∈ allowed seq /\ NoDup (map snd marks) /\
    Forall2 (fun m h => frame_on p m.1 path_id m.2 inner h) marks log /\
    forall o, r = Ok o -> last marks = Some (selection o, Client.sequence o).
Proof.
  intros He Hid Hseq E.
  assert (Hm : exists marks, marks ∈ allowed seq /\ adds p path_id inner marks [] log r).
  2:{ destruct Hm as (marks & Hin & frames & -> & Hf & Hr). exists marks. split_and!; [done| |done|done].
      unfold allowed in Hin. rewrite !elem_of_cons, elem_of_nil in Hin.
      destruct Hin as [->|[->|[->|[->|[->|[]]]]]]; simpl; repeat constructor; rewrite ?list_elem_of_singleton, ?elem_of_nil; lia. }
  assert (Hs : forall t l, send_suppressed_secondary env cfg 30 p path_id seq inner t l = Done (r, s', log) -> l = [] ->
    exists marks, marks ∈ allowed seq /\ adds p path_id inner marks [] log r).
  { intros t l Et ->. apply suppressed_done in Et as (marks & Hin & Ha); [|done..]. exists marks. split; [|done].
    rewrite !elem_of_cons, elem_of_nil in Hin. destruct Hin as [->|[->|[]]]; repeat constructor. }
  unfold send_with_secondary_failover in E.
  destruct (Overlay.validate_path p); [|injection E as <- <- <-; exists []; split; [constructor|apply adds_none]].
  case_bool_decide; [injection E as <- <- <-; exists []; split; [constructor|apply adds_none]|].
  destruct (Overlay.ordered_nodes p !! 1%nat) as [nh|]; [|injection E as <- <- <-; exists []; split; [constructor|apply adds_none]].
  cbv zeta in E. apply bind_done in E as (avoid & s1 & l1 & E1 & E).
  assert (l1 = []) as -> by (destruct (bool_decide _); [by eapply suppressed_check|by injection E1]).
  destruct avoid; [by eapply Hs|].
  apply bind_done in E as (? & s2 & l2 & [= <- <- <-] & E). apply bind_done in E as (lim & s3 & l3 & E3 & E).
  unfold update in E3. destruct (limiter_for _ _) as [s3' lim']. injection E3 as <- <- <-.
  apply bind_done in E as (? & s4 & l4 & E4 & E).
  apply bind_done in E4 as (? & s5 & l5 & [= <- <- <-] & E4). destruct (_ <? _); [|done]. injection E4 as <- <- <-.
  apply bind_done in E as (avoid & s6 & l6 & E6 & E).
  assert (l6 = []) as -> by (destruct (bool_decide _); [by eapply suppressed_check|by injection E6]).
  destruct avoid; [|by eapply primary_done].
  apply bind_done in E as (? & s7 & l7 & [= <- <- <-] & E). by eapply Hs.
Qed.

(** Each of them carries the caller's sequence number or the next. *)
Lemma failover_sequence env cfg p path_id seq inner s r s' log h e :
  is_u64 (Overlay.path_topology_epoch p) -> lenZ path_id = 16 -> is_u64 seq ->
  send_with_secondary_failover env cfg p path_id seq inner s [] = Done (r, s', log) ->
  h ∈ log -> Multihop.decode h.2 1 = Ok e -> Multihop.sequence e = seq \/ Multihop.sequence e = seq + 1.
Proof.
  intros He Hid Hseq E Hh Hd.
  destruct (failover_marks _ _ _ _ _ _ _ _ _ _ He Hid Hseq E) as (marks & Hin & _ & Hf & _).
  apply list_elem_of_lookup in Hh as [i Hi].
  destruct (Forall2_lookup_r _ _ _ _ _ Hf Hi) as (m & Hm & e' & Hd' & Hsq & _). assert (e' = e) as -> by congruence. rewrite Hsq.
  apply list_elem_of_lookup_2 in Hm. unfold allowed in Hin. rewrite !elem_of_cons, elem_of_nil in Hin.
  destruct Hin as [->|[->|[->|[->|[->|[]]]]]]; rewrite ?elem_of_cons, ?elem_of_nil in Hm; naive_solver.
Qed.


(** ** Panics *)

Lemma encapsulate_action now f p sel pid seq inner f' a :
  Forwarder.encapsulate_selected now f p sel pid seq inner = (f', Ok a) ->
  exists nodes, Forwarder.selected_nodes p sel = Some nodes /\
    (length nodes <> 2%nat -> exists next frame, a = Forwarder.Forward next frame).
Proof.
  unfold Forwarder.encapsulate_selected. intros E.
  destruct (Forwarder.validate_inner_datagram f inner) as [[]|]; [|done].
  rewrite Forwarder.guard_pure in E. destruct E as [_ E].
  destruct (Forwarder.validate_selected_path now f p sel) as [f1 [nodes|]] eqn:Hsel; [|done].
  apply Forwarder.selected_path_ok in Hsel as (_ & Hnodes & _). exists nodes. split; [done|]. intros Hlen.
  destruct (nodes !! 1%nat) as [nh|]; [cbn [ok_or] in E|done].
  destruct (Forwarder.require_next_neighbor _ nh _) as [[]|]; [|done]. rewrite bool_decide_false in E by done.
  destruct (Forwarder.validate_relay_count _ _) as [[]|]; [|done].
  destruct (Multihop.new _ _ _ _ _ _ _ _) as [e|]; [cbn [map_err] in E|done].
  destruct (Multihop.encode e) as [fr|]; [cbn [map_err] in E|done].
  destruct (Forwarder.validate_frame_size _ _) as [[]|]; [|done].
  destruct (Forwarder.observe _ _ _ _ _) as [f2 [[]|]]; [|done]. simplify_eq. eauto.
Qed.

Definition safe {A} (t : task A) : Prop := forall s log, t s log <> Panicked.

Lemma safe_bind {A B} (t : task A) (k : A -> task B) : safe t -> (forall a, safe (k a)) -> safe (bind t k).
Proof. intros Ht Hk s log. unfold bind. specialize (Ht s log). destruct (t s log) as [[[a s'] log']| |]; [apply Hk|done|done]. Qed.

Lemma safe_update {A} (f : Shared -> Shared * A) : safe (update f).
Proof. intros s log. unfold update. by destruct (f s). Qed.

Lemma safe_ret {A} (a : A) : safe (ret a).
Proof. done. Qed.

Lemma safe_hand env point next frame : safe (hand env point next frame).
Proof. done. Qed.

Ltac safely :=
  repeat (first [apply safe_bind; [|intros ?]|apply safe_update|apply safe_ret|apply safe_hand|
                 match goal with |- safe (match ?x with _ => _ end) => destruct x end]).

Lemma safe_attempt env cfg point next frame key path :
  safe (send_action_with_acknowledgement env cfg point (Forwarder.Forward next frame) key path).
Proof.
  unfold send_action_with_acknowledgement. cbv zeta. safely.
Qed.

(** An attempt on a relayed path: encapsulate, then send. *)
Lemma safe_encapsulated {B} env cfg point point' p sel pid seq inner key path nodes
    (k : result unit OverlayPathAttemptError -> task B) (failed : Forwarder.OverlayForwarderError -> task B) :
  Forwarder.selected_nodes p sel = Some nodes -> length nodes <> 2%nat -> (forall r, safe (k r)) -> (forall e, safe (failed e)) ->
  safe (bind (encapsulate env point p sel pid seq inner) (fun r =>
    match r with
    | Err e => failed e
    | Ok a => bind (send_action_with_acknowledgement env cfg point' a key path) k
    end)).
Proof.
  intros Hn Hlen Hk Hfail s log. unfold bind at 1, encapsulate. unfold bind at 1, await, modify, update.
  destruct (Forwarder.encapsulate_selected _ _ _ _ _ _ _) as [f [a|e]] eqn:E; [|by apply Hfail].
  apply encapsulate_action in E as (nodes' & Hn' & Ha). assert (nodes' = nodes) as -> by congruence.
  destruct (Ha Hlen) as (next & frame & ->). apply safe_bind; [apply safe_attempt|done].
Qed.

Section Relayed.
Context (env : surroundings) (cfg : client_config) (p : Overlay.OverlayPath).
Hypothesis relayed : forall nodes, Overlay.secondary_ordered_nodes p = Some nodes -> length nodes <> 2%nat.

Lemma safe_suppressed point pid seq inner : safe (send_suppressed_secondary env cfg point p pid seq inner).
Proof.
  unfold send_suppressed_secondary. destruct (Overlay.secondary_ordered_nodes p) as [nodes|] eqn:En; [|apply safe_ret].
  apply (safe_encapsulated _ _ _ _ _ _ _ _ _ _ _ nodes); [done|by apply relayed|intros; apply safe_ret..].
Qed.

Lemma safe_fail_over pid seq inner route e : safe (fail_over env cfg p pid seq inner route e).
Proof.
  unfold fail_over. apply safe_bind; [destruct (suppresses e); safely|intros ?].
  destruct (checked_add 64 seq 1); [|apply safe_ret].
  destruct (Overlay.secondary_ordered_nodes p) as [nodes|] eqn:En; [|apply safe_ret].
  apply (safe_encapsulated _ _ _ _ _ _ _ _ _ _ _ nodes); [done|by apply relayed|intros; apply safe_ret..].
Qed.

Lemma safe_send pid seq inner : safe (send_with_secondary_failover env cfg p pid seq inner).
Proof.
  unfold send_with_secondary_failover. destruct (Overlay.validate_path p); [|apply safe_ret].
  case_bool_decide as Hlen; [apply safe_ret|]. destruct (Overlay.ordered_nodes p !! 1%nat) as [nh|]; [|apply safe_ret].
  cbv zeta. assert (Hcheck : forall point, safe (if bool_decide (is_Some (Overlay.secondary_ordered_nodes p))
    then primary_route_is_suppressed env point (Overlay.path_topology_epoch p, nh) else ret false)).
  { intros point. destruct (bool_decide _); unfold primary_route_is_suppressed; cbv zeta; safely. }
  apply safe_bind; [apply Hcheck|intros [|]; [apply safe_suppressed|]].
  apply safe_bind; [apply safe_update|intros ?]. apply safe_bind; [apply safe_update|intros lim].
  apply safe_bind; [|intros ?].
  { unfold acquire. apply safe_bind; [apply safe_update|]. intros ? s log. by destruct (_ <? _). }
  apply safe_bind; [apply Hcheck|intros [|]].
  { apply safe_bind; [apply safe_update|intros ?]. apply safe_suppressed. }
  unfold send_primary. apply (safe_encapsulated _ _ _ _ _ Forwarder.Primary _ _ _ _ _ (Overlay.ordered_nodes p)); [done|done| |].
  - intros r. apply safe_bind; [apply safe_update|intros ?]. destruct r; [apply safe_ret|apply safe_fail_over].
  - intros e. safely.
Qed.

End Relayed.

(** ** An avoided primary route *)

Lemma frames_of_marks p path_id inner (marks : list (Forwarder.OverlayPathSelection * Z)) sel seq log :
  marks ∈ [[]; [(sel, seq)]] -> Forall2 (fun m h => frame_on p m.1 path_id m.2 inner h) marks log ->
  Forall (frame_on p sel path_id seq inner) log.
Proof.
  rewrite !elem_of_cons, elem_of_nil. intros [->|[->|[]]] Hf; inversion Hf as [|? ? ? ? Hh Hf']; subst; [constructor|].
  inversion Hf'; subst. by repeat constructor.
Qed.

(** While a primary route is suppressed, a datagram that has a secondary path is sent
    on that path only, under the caller's sequence number. *)
Theorem suppressed_primary_unused env cfg p path_id seq inner s r s' log next_hop until :
  is_u64 (Overlay.path_topology_epoch p) -> lenZ path_id = 16 -> is_u64 seq ->
  Overlay.ordered_nodes p !! 1%nat = Some next_hop -> is_Some (Overlay.secondary_ordered_nodes p) ->
  suppressed (others env 0 s) !! (Overlay.path_topology_epoch p, next_hop) = Some until -> clock env 0 < until ->
  send_with_secondary_failover env cfg p path_id seq inner s [] = Done (r, s', log) ->
  Forall (frame_on p Forwarder.Secondary path_id seq inner) log.
Proof.
  intros He Hid Hseq Hn Hsec Hsup Hclock E. unfold send_with_secondary_failover in E.
  destruct (Overlay.validate_path p); [|by injection E as <- <- <-].
  case_bool_decide; [by injection E as <- <- <-|]. rewrite Hn, bool_decide_true in E by done.
  cbv zeta in E. apply bind_done in E as (avoid & s1 & l1 & E1 & E).
  unfold primary_route_is_suppressed in E1. cbv zeta in E1.
  apply bind_done in E1 as (? & s2 & l2 & [= <- <- <-] & E1). injection E1 as <- <- <-.
  rewrite bool_decide_true in E.
  2:{ exists until. by apply map_lookup_filter_Some. }
  apply suppressed_done in E as (marks & Hin & frames & -> & Hf & _); [|done..].
  by apply (frames_of_marks p path_id inner marks).
Qed.

End Client.

(** ** Examples *)

Definition quiet (ok : bool) (w : wait) : surroundings :=
  {| others := fun _ s => s; clock := fun _ => 0;
     socket := fun _ next _ => if ok then Ok tt else Err (UnknownNeighbor next); waited := fun _ => w |}.

Definition shared_of (f : Forwarder.BoundedOverlayForwarder) : Shared :=
  {| forwarder := f; pending := ∅; closed_waiters := ∅; next_waiter := 0; suppressed := ∅; limiters := ∅;
     in_flight := ∅; next_limiter := 0; counters := fun _ => 0 |}.

Definition sample_config : client_config :=
  {| acknowledgement_timeout := Some (250 * 10 ^ 6); max_pending_acknowledgements := 4096 |}.

Definition path_with_secondary (nodes : list NodeId) : Overlay.OverlayPath :=
  {| Overlay.path_topology_epoch := 7; Overlay.path_routing_epoch := 1;
     Overlay.path_source := bstr "a"; Overlay.destination := IpV4 167772162;
     Overlay.target := Instances.sample_node (bstr "b") 167772162;
     Overlay.ordered_nodes := [bstr "a"; bstr "r"; bstr "b"];
     Overlay.secondary_ordered_nodes := Some nodes; Overlay.path_generated_at := 0 |}.

Definition engine_two_ways : Forwarder.BoundedOverlayForwarder :=
  Forwarder.engine_of (bstr "a") [(bstr "b", 167772162); (bstr "q", 167772164); (bstr "r", 167772163)].

(** C38: Sending reaches no [unreachable!] when the secondary path, like the primary one,
    runs through a relay. But a valid path may have a direct secondary next to a relayed
    primary: when the primary attempt of such a datagram fails, the sending task panics. *)
Theorem direct_secondary_panics :
  (forall (Net : IpNetOps) (Url : UrlOps) env cfg p path_id seq inner s log,
     (forall nodes, Overlay.secondary_ordered_nodes p = Some nodes -> length nodes <> 2%nat) ->
     send_with_secondary_failover env cfg p path_id seq inner s log <> Panicked) /\
  Overlay.validate_path (path_with_secondary [bstr "a"; bstr "b"]) = Ok tt /\
  send_with_secondary_failover (quiet false Acknowledged) sample_config (path_with_secondary [bstr "a"; bstr "b"])
    Forwarder.sample_pid 5 [xaa; xbb] (shared_of engine_two_ways) [] = Panicked.
Proof.
  split; [intros Net Url env cfg p path_id seq inner s log Hp; by apply safe_send|].
  split; vm_compute; reflexivity.
Qed.

Definition sample_run (env : surroundings) (s : Shared) :=
  send_with_secondary_failover env sample_config (path_with_secondary [bstr "a"; bstr "q"; bstr "b"])
    Forwarder.sample_pid 5 [xaa; xbb] s [].


Definition suppressed_state : Shared := set_suppressed {[ (7, bstr "r") := 100 ]} (shared_of engine_two_ways).

Lemma suppressed_primary_unused_witness :
  exists r s log, sample_run (quiet true Acknowledged) suppressed_state = Done (r, s, log) /\
    length log = 1%nat /\
    Forall (frame_on (path_with_secondary [bstr "a"; bstr "q"; bstr "b"]) Forwarder.Secondary Forwarder.sample_pid 5
              [xaa; xbb]) log.
Proof.
  assert (Hl : match sample_run (quiet true Acknowledged) suppressed_state with
               | Done (_, _, log) => length log = 1%nat | _ => False end) by (vm_compute; reflexivity).
  destruct (sample_run (quiet true Acknowledged) suppressed_state) as [[[r s] log]| |] eqn:E; [|destruct Hl..].
  exists r, s, log. split; [reflexivity|]. split; [exact Hl|].
  apply (suppressed_primary_unused (quiet true Acknowledged) sample_config (path_with_secondary [bstr "a"; bstr "q"; bstr "b"])
    Forwarder.sample_pid 5 [xaa; xbb] suppressed_state r s log (bstr "r") 100).
  - unfold in_width. simpl. lia.
  - reflexivity.
  - unfold in_width. lia.
  - reflexivity.
  - eexists. reflexivity.
  - apply lookup_singleton_eq.
  - reflexivity.
  - exact E.
Defined.

End Client.
