(* ===== verification/OverlayPeer.v ===== *)
(** * The WireGuard proxy of one peer (crates/ipars-agent/src/overlay_transit.rs)

    [OverlayWireGuardPeerForwarder]: datagrams of the local WireGuard socket enter the
    overlay, each as a task of its own under two reserved sequence numbers; deliveries of
    the peer are injected into WireGuard and then acknowledged. One event of the [select!]
    loop is one step; what the sockets and the other tasks answer is part of the event. *)

From Stdlib Require Import Sorting.Sorted.
From S2P Require Import Prelude RustStd Endpoints OverlayTypes Instances Multihop ReplayWindow OverlayForwarder Hashing OverlayFragments OverlayTransit OverlayClient.

Module Peer.

Definition MAX_OVERLAY_PEER_IN_FLIGHT_SENDS : Z := 256.

Record Config : Type := {
  wireguard_endpoint : SocketAddr;
  path_id : bytes;
  initial_sequence : Z
}.

Inductive PeerError : Type :=
  | InvalidConfiguredEndpoint (endpoint : SocketAddr)
  | ZeroPathId
  | InvalidInitialPath (e : Overlay.OverlayValidationError)
  | NonLoopbackSocket (endpoint : SocketAddr)
  | Receive
  | DeliveryChannelClosed
  | SequenceOverflow (sequence : Z).

Definition validate (c : Config) : result Config PeerError :=
  if negb (is_loopback (socket_ip (wireguard_endpoint c))) || (socket_port (wireguard_endpoint c) =? 0)
  then Err (InvalidConfiguredEndpoint (wireguard_endpoint c))
  else if forallb (fun b => byteZ b =? 0) (path_id c) then Err ZeroPathId
  else Ok c.

Definition overlay_wireguard_datagram (payload : bytes) : bool :=
  if (lenZ payload <? 4) || negb (bool_decide (slice_get payload 1 4 = Some [x00; x00; x00])) then false
  else match payload with
       | [] => false
       | kind :: _ =>
           if byteZ kind =? 1 then lenZ payload =? 148
           else if byteZ kind =? 2 then lenZ payload =? 92
           else if byteZ kind =? 3 then lenZ payload =? 64
           else if byteZ kind =? 4 then (32 <=? lenZ payload) && (lenZ payload mod 16 =? 0)
           else false
       end.

Inductive peer_stat : Type :=
  | wireguard_injection_attempts | received_datagrams | overlay_datagrams_sent | secondary_failovers
  | wireguard_datagrams_injected | unexpected_sources_dropped | non_wireguard_datagrams_dropped
  | oversized_datagrams_dropped | overlay_send_failures | wireguard_injection_failures
  | delivery_acknowledgement_failures | accepted_path_updates | rejected_path_updates | sequence_overflows.

#[global] Instance peer_stat_eq_dec : EqDecision peer_stat.
Proof. solve_decision. Defined.

Section Peer.
Context {Net : IpNetOps} {Url : UrlOps}.

Definition valid_peer_path_update (candidate : Overlay.OverlayPath) (source target : NodeId) : bool :=
  is_ok (Overlay.validate_path candidate) && bool_decide (Overlay.path_source candidate = source)
  && bool_decide (Overlay.node_id (Overlay.target candidate) = target).

Record Proxy : Type := {
  config : Config;
  path : Overlay.OverlayPath;
  path_source : NodeId;
  path_target : NodeId;
  next_sequence : Z;
  path_updates_open : bool;
  sends : Z;
  counters : peer_stat -> Z
}.

(** [OverlayWireGuardPeerForwarder::new] and the beginning of [serve]. *)
Definition start (c : Config) (initial : Overlay.OverlayPath) (local_endpoint : SocketAddr)
  : result Proxy PeerError :=
  let? c := validate c in
  let? _ := map_err InvalidInitialPath (Overlay.validate_path initial) in
  if negb (is_loopback (socket_ip local_endpoint)) then Err (NonLoopbackSocket local_endpoint)
  else Ok {| config := c; path := initial; path_source := Overlay.path_source initial;
             path_target := Overlay.node_id (Overlay.target initial); next_sequence := initial_sequence c;
             path_updates_open := true; sends := 0; counters := fun _ => 0 |}.

Definition count (which : peer_stat) (p : Proxy) : Proxy :=
  {| config := config p; path := path p; path_source := path_source p; path_target := path_target p;
     next_sequence := next_sequence p; path_updates_open := path_updates_open p; sends := sends p;
     counters := fun other => if decide (other = which) then as_width 64 (counters p other + 1) else counters p other |}.

Definition set_path (x : Overlay.OverlayPath) (p : Proxy) : Proxy :=
  {| config := config p; path := x; path_source := path_source p; path_target := path_target p;
     next_sequence := next_sequence p; path_updates_open := path_updates_open p; sends := sends p;
     counters := counters p |}.

Definition close_updates (p : Proxy) : Proxy :=
  {| config := config p; path := path p; path_source := path_source p; path_target := path_target p;
     next_sequence := next_sequence p; path_updates_open := false; sends := sends p; counters := counters p |}.

Definition set_sends (next n : Z) (p : Proxy) : Proxy :=
  {| config := config p; path := path p; path_source := path_source p; path_target := path_target p;
     next_sequence := next; path_updates_open := path_updates_open p; sends := n; counters := counters p |}.

(** What ends a wait of the loop, with the answers the step needs. *)
Inductive event : Type :=
  | ShutdownChanged (stop : bool)
  | PathChanged (candidate : option Overlay.OverlayPath)
  | Delivered (delivery : option (NodeId * bytes)) (injected acknowledged : bool)
  | SendCompleted (r : option Client.OverlaySendOutcome)
  | Received (datagram : option (bytes * SocketAddr)).

Inductive effect : Type :=
  | Inject (source : NodeId) (payload : bytes)
  | Acknowledge (source : NodeId) (payload : bytes)
  | Spawn (on : Overlay.OverlayPath) (sequence : Z) (payload : bytes).

(** A step goes on with a new state or returns from [serve]. *)
Inductive progress : Type :=
  | Continue (p : Proxy) (effects : list effect)
  | Return (p : Proxy) (r : result unit PeerError).

Definition on_delivery (p : Proxy) (source : NodeId) (payload : bytes) (injected acknowledged : bool) : progress :=
  if bool_decide (source <> path_target p) then Continue (count unexpected_sources_dropped p) []
  else if Multihop.MAX_MULTIHOP_PAYLOAD_BYTES <? lenZ payload then Continue (count oversized_datagrams_dropped p) []
  else if negb (overlay_wireguard_datagram payload) then Continue (count non_wireguard_datagrams_dropped p) []
  else
    let p := count wireguard_injection_attempts p in
    if injected then
      let p := count wireguard_datagrams_injected p in
      Continue (if acknowledged then p else count delivery_acknowledgement_failures p)
        [Inject source payload; Acknowledge source payload]
    else Continue (count wireguard_injection_failures p) [Inject source payload].

Definition on_datagram (p : Proxy) (received : bytes) (source : SocketAddr) : progress :=
  let datagram := take (Z.to_nat (Multihop.MAX_MULTIHOP_PAYLOAD_BYTES + 1)) received in
  let p := count received_datagrams p in
  if bool_decide (source <> wireguard_endpoint (config p)) then Continue (count unexpected_sources_dropped p) []
  else if Multihop.MAX_MULTIHOP_PAYLOAD_BYTES <? lenZ datagram then Continue (count oversized_datagrams_dropped p) []
  else if negb (overlay_wireguard_datagram datagram) then Continue (count non_wireguard_datagrams_dropped p) []
  else match checked_add 64 (next_sequence p) 1 with
       | None => Return (count sequence_overflows p) (Err (SequenceOverflow (next_sequence p)))
       | Some reserved_limit =>
           let sequence := next_sequence p in
           Continue (set_sends (default reserved_limit (checked_add 64 reserved_limit 1)) (sends p + 1) p)
             [Spawn (path p) sequence datagram]
       end.

(** One iteration of the loop; [None] when the event is not being waited for. *)
Definition step (p : Proxy) (e : event) : option progress :=
  match e with
  | ShutdownChanged stop => Some (if stop then Return p (Ok tt) else Continue p [])
  | PathChanged candidate =>
      if negb (path_updates_open p) then None
      else Some (match candidate with
           | None => Continue (close_updates p) []
           | Some candidate =>
               if valid_peer_path_update candidate (path_source p) (path_target p)
               then Continue (count accepted_path_updates (set_path candidate p)) []
               else Continue (count rejected_path_updates p) []
           end)
  | Delivered delivery injected acknowledged =>
      Some (match delivery with
            | None => Return p (Err DeliveryChannelClosed)
            | Some (source, payload) => on_delivery p source payload injected acknowledged
            end)
  | SendCompleted r =>
      if sends p =? 0 then None
      else
        let p := set_sends (next_sequence p) (sends p - 1) p in
        Some (match r with
              | Some o =>
                  let p := count overlay_datagrams_sent p in
                  Continue (match Client.selection o with
                            | Forwarder.Secondary => count secondary_failovers p
                            | Forwarder.Primary => p
                            end) []
              | None => Continue (count overlay_send_failures p) []
              end)
  | Received datagram =>
      if sends p <? MAX_OVERLAY_PEER_IN_FLIGHT_SENDS then
        Some (match datagram with
              | None => Return p (Err Receive)
              | Some (received, source) => on_datagram p received source
              end)
      else None
  end.

(** The loop on a sequence of events; events that are not being waited for do not occur. *)
Fixpoint serve (p : Proxy) (es : list event) : Proxy * list effect :=
  match es with
  | [] => (p, [])
  | e :: es =>
      match step p e with
      | Some (Continue p effects) => let '(p, more) := serve p es in (p, effects ++ more)
      | Some (Return p _) => (p, [])
      | None => serve p es
      end
  end.

(** ** Sequence numbers *)

Definition spawned (fx : list effect) : list (Overlay.OverlayPath * Z * bytes) :=
  omap (fun x => match x with Spawn q s d => Some (q, s, d) | _ => None end) fx.

(** A step either spawns nothing and leaves the next sequence number alone, or spawns one
    task with it. *)
Lemma step_sequence p e p' fx : is_u64 (next_sequence p) -> step p e = Some (Continue p' fx) ->
  is_u64 (next_sequence p') /\
  (spawned fx = [] /\ next_sequence p' = next_sequence p \/
   exists d, spawned fx = [(path p, next_sequence p, d)] /\ next_sequence p + 1 < 2 ^ 64 /\
     forall s, next_sequence p' <= s -> s + 1 < 2 ^ 64 -> next_sequence p + 1 < s).
Proof.
  intros Hn. destruct e as [stop|candidate|delivery injected acknowledged|r|datagram]; cbn [step].
  - destruct stop; [done|]. intros [= <- <-]. split; [done|by left].
  - destruct (negb _); [done|]. destruct candidate as [c|]; [destruct (valid_peer_path_update _ _ _)|];
      intros [= <- <-]; (split; [done|by left]).
  - destruct delivery as [[source payload]|]; [|done]. unfold on_delivery.
    do 3 (match goal with |- context [if ?b then Continue _ _ else _] => destruct b end; [intros [= <- <-]; split; [done|by left]|]).
    destruct injected; [destruct acknowledged|]; intros [= <- <-]; (split; [done|by left]).
  - destruct (_ =? _); [done|]. destruct r as [o|]; [destruct (Client.selection o)|]; intros [= <- <-]; (split; [done|by left]).
  - destruct (_ <? _); [|done]. destruct datagram as [[received source]|]; [|done]. unfold on_datagram.
    do 3 (match goal with |- context [if ?b then Continue _ _ else _] => destruct b end; [intros [= <- <-]; split; [done|by left]|]).
    cbn [next_sequence count]. unfold checked_add. destruct (Z.ltb_spec (next_sequence p + 1) (2 ^ 64)); [|done].
    intros [= <- <-]. cbn [next_sequence set_sends]. unfold in_width in *.
    destruct (Z.ltb_spec (next_sequence p + 1 + 1) (2 ^ 64)); cbn [default]; (split; [simpl; lia|]); right; eexists; (split; [done|]);
      (split; [done|]); simpl; lia.
Qed.

Lemma serve_sequences es p p' fx : is_u64 (next_sequence p) -> serve p es = (p', fx) ->
  Forall (fun t => next_sequence p <= t.1.2 /\ t.1.2 + 1 < 2 ^ 64) (spawned fx) /\
  StronglySorted (fun t u => t.1.2 + 1 < u.1.2) (spawned fx).
Proof.
  revert p p' fx. induction es as [|e es IH]; intros p p' fx Hn; cbn [serve]; [intros [= <- <-]; split; constructor|].
  destruct (step p e) as [[p1 f1|p1 r]|] eqn:E; [|intros [= <- <-]; split; constructor|by apply IH].
  destruct (serve p1 es) as [p2 f2] eqn:E2. intros [= <- <-].
  destruct (step_sequence p e p1 f1 Hn E) as [Hn1 Hcase]. destruct (IH p1 p2 f2 Hn1 E2) as [Hb Hs].
  unfold spawned in *. rewrite omap_app. destruct Hcase as [[-> Heq]|(d & -> & Hlt & Hfar)]; cbn [app].
  - by rewrite <- Heq.
  - split; [constructor; [simpl; lia|]|constructor; [done|]]; eapply Forall_impl; try exact Hb; simpl; intros t [H1 H2];
      specialize (Hfar _ H1 H2); lia.
Qed.

Lemma sorted_lookup {A} (R : A -> A -> Prop) l i j x y :
  StronglySorted R l -> (i < j)%nat -> l !! i = Some x -> l !! j = Some y -> R x y.
Proof.
  intros Hs. revert i j. induction Hs as [|a l Hs IH Ha]; intros i j Hij Hi Hj; [done|].
  destruct j as [|j]; [lia|]. destruct i as [|i]; simpl in *.
  - injection Hi as ->. rewrite Forall_forall in Ha. by apply Ha, (list_elem_of_lookup_2 _ j).
  - apply (IH i j); [lia|done|done].
Qed.

(** No sequence number is used twice. However the events of a proxy are interleaved and
    whatever happens to the tasks it spawns, two frames that different tasks put on the
    wire carry different sequence numbers. *)
Theorem sequences_never_reused p es p' fx i j q1 s1 d1 q2 s2 d2
    env1 cfg1 st1 r1 st1' log1 env2 cfg2 st2 r2 st2' log2 h1 h2 e1 e2 :
  is_u64 (next_sequence p) -> lenZ (path_id (config p)) = 16 -> serve p es = (p', fx) ->
  i <> j -> spawned fx !! i = Some (q1, s1, d1) -> spawned fx !! j = Some (q2, s2, d2) ->
  is_u64 (Overlay.path_topology_epoch q1) -> is_u64 (Overlay.path_topology_epoch q2) ->
  Client.send_with_secondary_failover env1 cfg1 q1 (path_id (config p)) s1 d1 st1 [] = Client.Done (r1, st1', log1) ->
  Client.send_with_secondary_failover env2 cfg2 q2 (path_id (config p)) s2 d2 st2 [] = Client.Done (r2, st2', log2) ->
  h1 ∈ log1 -> h2 ∈ log2 -> Multihop.decode h1.2 1 = Ok e1 -> Multihop.decode h2.2 1 = Ok e2 ->
  Multihop.sequence e1 <> Multihop.sequence e2.
Proof.
  intros Hn Hid Hrun Hij Hi Hj He1 He2 R1 R2 Hh1 Hh2 Hd1 Hd2.
  destruct (serve_sequences es p p' fx Hn Hrun) as [Hb Hs].
  pose proof (Forall_lookup_1 _ _ _ _ Hb Hi) as [Hb1 Hc1]. pose proof (Forall_lookup_1 _ _ _ _ Hb Hj) as [Hb2 Hc2].
  unfold in_width in Hn. simpl in *.
  assert (Hs1 : is_u64 s1) by (unfold in_width; lia). assert (Hs2 : is_u64 s2) by (unfold in_width; lia).
  pose proof (Client.failover_sequence _ _ _ _ _ _ _ _ _ _ _ _ He1 Hid Hs1 R1 Hh1 Hd1) as F1.
  pose proof (Client.failover_sequence _ _ _ _ _ _ _ _ _ _ _ _ He2 Hid Hs2 R2 Hh2 Hd2) as F2.
  destruct (Nat.lt_ge_cases i j) as [Hlt|Hge].
  - pose proof (sorted_lookup _ _ _ _ _ _ Hs Hlt Hi Hj) as Hfar. simpl in Hfar. lia.
  - assert (Hlt : (j < i)%nat) by lia. pose proof (sorted_lookup _ _ _ _ _ _ Hs Hlt Hj Hi) as Hfar. simpl in Hfar. lia.
Qed.

(** ** What the proxy lets through *)

Definition proxied (d : bytes) : Prop :=
  overlay_wireguard_datagram d = true /\ lenZ d <= Multihop.MAX_MULTIHOP_PAYLOAD_BYTES.

Definition path_between (source target : NodeId) (q : Overlay.OverlayPath) : Prop :=
  Overlay.validate_path q = Ok tt /\ Overlay.path_source q = source /\ Overlay.node_id (Overlay.target q) = target.

Definition lawful (source target : NodeId) (x : effect) : Prop :=
  match x with
  | Inject from d | Acknowledge from d => from = target /\ proxied d
  | Spawn q _ d => path_between source target q /\ proxied d
  end.

Record proxy_ok (source target : NodeId) (p : Proxy) : Prop := {
  px_sends : 0 <= sends p <= MAX_OVERLAY_PEER_IN_FLIGHT_SENDS;
  px_path : path_between source target (path p);
  px_source : path_source p = source;
  px_target : path_target p = target
}.

Lemma proxy_ok_count source target which p : proxy_ok source target p -> proxy_ok source target (count which p).
Proof. by intros [? ? ? ?]. Qed.

Lemma delivery_lawful source target p from payload injected acknowledged p' fx :
  proxy_ok source target p -> on_delivery p from payload injected acknowledged = Continue p' fx ->
  proxy_ok source target p' /\ Forall (lawful source target) fx.
Proof.
  intros Hp. unfold on_delivery. destruct (bool_decide _) eqn:Es; [intros [= <- <-]; by split; [apply proxy_ok_count|]|].
  destruct (_ <? _) eqn:El; [intros [= <- <-]; by split; [apply proxy_ok_count|]|].
  destruct (negb _) eqn:Ew; [intros [= <- <-]; by split; [apply proxy_ok_count|]|].
  rewrite bool_decide_ne_false, (px_target _ _ _ Hp) in Es. apply Z.ltb_ge in El. apply negb_false_iff in Ew.
  assert (Hd : from = target /\ proxied payload) by (split; [done|by split]).
  destruct injected; [destruct acknowledged|]; intros [= <- <-]; (split; [by repeat apply proxy_ok_count|repeat (constructor; [done|]); constructor]).
Qed.

Lemma datagram_lawful source target p received from p' fx :
  proxy_ok source target p -> sends p < MAX_OVERLAY_PEER_IN_FLIGHT_SENDS ->
  on_datagram p received from = Continue p' fx ->
  proxy_ok source target p' /\ Forall (lawful source target) fx.
Proof.
  intros Hp Hn. unfold on_datagram. cbv zeta.
  destruct (bool_decide _); [intros [= <- <-]; by split; [repeat apply proxy_ok_count|]|].
  destruct (_ <? _) eqn:El; [intros [= <- <-]; by split; [repeat apply proxy_ok_count|]|].
  destruct (negb _) eqn:Ew; [intros [= <- <-]; by split; [repeat apply proxy_ok_count|]|].
  destruct (checked_add _ _ _); [|done]. intros [= <- <-]. apply Z.ltb_ge in El. apply negb_false_iff in Ew.
  destruct Hp as [P1 P2 P3 P4]. split; [split; simpl; try done; lia|]. constructor; [|done]. done.
Qed.

Lemma step_lawful source target p e p' fx :
  proxy_ok source target p -> step p e = Some (Continue p' fx) ->
  proxy_ok source target p' /\ Forall (lawful source target) fx.
Proof.
  intros Hp. destruct e as [stop|candidate|delivery injected acknowledged|r|datagram]; cbn [step].
  - destruct stop; [done|]. by intros [= <- <-].
  - destruct (negb _); [done|]. destruct candidate as [c|].
    + destruct (valid_peer_path_update _ _ _) eqn:Ev; intros [= <- <-]; (split; [|done]); [|by apply proxy_ok_count].
      unfold valid_peer_path_update in Ev. destruct (Overlay.validate_path c) as [[]|] eqn:Ec; [|done]. simpl in Ev.
      apply andb_true_iff in Ev as [E1 E2]. apply bool_decide_eq_true in E1, E2.
      destruct Hp as [P1 P2 P3 P4]. split; simpl; try done. by rewrite <- P3, <- P4.
    + intros [= <- <-]. split; [by destruct Hp|done].
  - destruct delivery as [[from payload]|]; [|done]. intros [= E]. by eapply delivery_lawful.
  - destruct (_ =? _) eqn:Es; [done|]. apply Z.eqb_neq in Es.
    assert (Hp' : proxy_ok source target (set_sends (next_sequence p) (sends p - 1) p)).
    { destruct Hp as [P1 P2 P3 P4]. split; simpl; try done; lia. }
    destruct r as [o|]; [destruct (Client.selection o)|]; intros [= <- <-]; (split; [by repeat apply proxy_ok_count|done]).
  - destruct (Z.ltb_spec (sends p) MAX_OVERLAY_PEER_IN_FLIGHT_SENDS); [|done].
    destruct datagram as [[received from]|]; [|done]. intros [= E]. by eapply datagram_lawful.
Qed.

Lemma return_ok source target p e p' r :
  proxy_ok source target p -> step p e = Some (Return p' r) -> proxy_ok source target p'.
Proof.
  intros Hp. destruct e as [stop|candidate|delivery injected acknowledged|r'|datagram]; cbn [step].
  - destruct stop; [|done]. by intros [= <- <-].
  - destruct (negb _); [done|]. destruct candidate as [c|]; [|done]. by destruct (valid_peer_path_update _ _ _).
  - destruct delivery as [[from payload]|]; [|by intros [= <- <-]]. unfold on_delivery.
    repeat (destruct (bool_decide _); [done|]). destruct (_ <? _); [done|]. destruct (negb _); [done|]. by destruct injected.
  - destruct (_ =? _); [done|]. by destruct r'.
  - destruct (_ <? _); [|done]. destruct datagram as [[received from]|]; [|by intros [= <- <-]]. unfold on_datagram. cbv zeta.
    destruct (bool_decide _); [done|]. destruct (_ <? _); [done|]. destruct (negb _); [done|].
    destruct (checked_add _ _ _); [done|]. intros [= <- <-]. by repeat apply proxy_ok_count.
Qed.

(** From its start on, whatever events it meets, a proxy keeps a valid path between its
    two nodes and at most [MAX_OVERLAY_PEER_IN_FLIGHT_SENDS] tasks; it injects and
    acknowledges only deliveries of its peer, and both ways only datagrams of WireGuard's
    message formats pass. *)
Theorem proxy_lawful c initial local p0 es p fx
    (source := Overlay.path_source initial) (target := Overlay.node_id (Overlay.target initial)) :
  start c initial local = Ok p0 -> serve p0 es = (p, fx) ->
  proxy_ok source target p /\ Forall (lawful source target) fx.
Proof.
  intros Hstart. assert (H0 : proxy_ok source target p0).
  { unfold start in Hstart. destruct (validate c) as [c'|]; [|done].
    destruct (Overlay.validate_path initial) as [[]|] eqn:Ev; [|done]. cbn [map_err] in Hstart.
    destruct (negb _); [done|]. injection Hstart as <-. split; simpl; [|by split_and!|done|done].
    unfold MAX_OVERLAY_PEER_IN_FLIGHT_SENDS. lia. }
  clear Hstart. clearbody source target. revert p0 p fx H0. induction es as [|e es IH]; intros p0 p fx H0; cbn [serve].
  { intros [= <- <-]. by split. }
  destruct (step p0 e) as [[p1 f1|p1 r]|] eqn:E; [| |by apply IH].
  - destruct (serve p1 es) as [p2 f2] eqn:E2. intros [= <- <-].
    destruct (step_lawful _ _ _ _ _ _ H0 E) as [H1 Hf1]. destruct (IH p1 p2 f2 H1 E2) as [H2 Hf2].
    split; [done|]. apply Forall_app. by split.
  - intros [= <- <-]. split; [|done]. by eapply return_ok.
Qed.

End Peer.

(** ** Example *)

Definition sample_config : Config :=
  {| wireguard_endpoint := SockV4 2130706433 51820; path_id := Forwarder.sample_pid; initial_sequence := 100 |}.

(** A WireGuard transport message of the least length. *)
Definition sample_datagram : bytes := [x04; x00; x00; x00] ++ replicate 28 xaa.

Definition sample_route : Overlay.OverlayPath := Client.path_with_secondary [bstr "a"; bstr "q"; bstr "b"].

Definition sample_proxy : Proxy :=
  match start sample_config sample_route (SockV4 2130706433 40000) with
  | Ok p => p
  | Err _ => {| config := sample_config; path := sample_route; path_source := []; path_target := [];
                next_sequence := 0; path_updates_open := true; sends := 0; counters := fun _ => 0 |}
  end.

Lemma sample_started : start sample_config sample_route (SockV4 2130706433 40000) = Ok sample_proxy.
Proof.
  assert (H : is_ok (start sample_config sample_route (SockV4 2130706433 40000)) = true) by (vm_compute; reflexivity).
  unfold sample_proxy. by destruct (start _ _ _).
Qed.

Definition sample_events : list event :=
  [Received (Some (sample_datagram, SockV4 2130706433 51820)); Delivered (Some (bstr "b", sample_datagram)) true true;
   SendCompleted None; Received (Some (sample_datagram, SockV4 2130706433 51820))].

Lemma proxy_lawful_witness :
  exists p, proxy_ok (bstr "a") (bstr "b") p /\
    Forall (lawful (bstr "a") (bstr "b"))
      [Spawn sample_route 100 sample_datagram; Inject (bstr "b") sample_datagram;
       Acknowledge (bstr "b") sample_datagram; Spawn sample_route 102 sample_datagram].
Proof.
  exists (serve sample_proxy sample_events).1.
  apply (proxy_lawful sample_config sample_route (SockV4 2130706433 40000) sample_proxy sample_events
           (serve sample_proxy sample_events).1).
  - exact sample_started.
  - apply pair_snd. reflexivity.
Defined.

Definition sample_task (sequence : Z) :=
  Client.send_with_secondary_failover (Client.quiet true Client.TimedOut) Client.sample_config sample_route
    Forwarder.sample_pid sequence sample_datagram (Client.shared_of Client.engine_two_ways) [].

Definition sample_log (sequence : Z) : list Client.handed :=
  match sample_task sequence with Client.Done (_, _, log) => log | _ => [] end.

Definition sample_result (sequence : Z) : result Client.OverlaySendOutcome Client.OverlayTransitError * Client.Shared :=
  match sample_task sequence with
  | Client.Done (r, s, _) => (r, s)
  | _ => (Err Client.NoPrimaryNextHop, Client.shared_of Client.engine_two_ways)
  end.

Lemma sample_done sequence :
  match sample_task sequence with Client.Done _ => True | _ => False end ->
  sample_task sequence = Client.Done ((sample_result sequence).1, (sample_result sequence).2, sample_log sequence).
Proof. unfold sample_result, sample_log. by destruct (sample_task sequence) as [[[? ?] ?]| |]. Qed.

Definition sample_frame (sequence : Z) (i : nat) : Client.handed := default (bstr "q", []) (sample_log sequence !! i).

Definition sample_envelope (sequence : Z) (i : nat) : Multihop.MultiHopEnvelope :=
  match Multihop.decode (sample_frame sequence i).2 1 with Ok e => e | Err _ => Multihop.sample end.

(** The retry of the first datagram and the first attempt of the second one. *)
Lemma sequences_never_reused_witness :
  Multihop.sequence (sample_envelope 100 1) <> Multihop.sequence (sample_envelope 102 0).
Proof.
  apply (sequences_never_reused sample_proxy sample_events (serve sample_proxy sample_events).1
    (serve sample_proxy sample_events).2 0 1 sample_route 100 sample_datagram sample_route 102 sample_datagram
    (Client.quiet true Client.TimedOut) Client.sample_config (Client.shared_of Client.engine_two_ways)
    (sample_result 100).1 (sample_result 100).2 (sample_log 100)
    (Client.quiet true Client.TimedOut) Client.sample_config (Client.shared_of Client.engine_two_ways)
    (sample_result 102).1 (sample_result 102).2 (sample_log 102) (sample_frame 100 1) (sample_frame 102 0)).
  - split; [discriminate|reflexivity].
  - reflexivity.
  - apply surjective_pairing.
  - discriminate.
  - reflexivity.
  - reflexivity.
  - split; [discriminate|reflexivity].
  - split; [discriminate|reflexivity].
  - apply sample_done. vm_compute. exact I.
  - apply sample_done. vm_compute. exact I.
  - apply (list_elem_of_lookup_2 _ 1). vm_compute. reflexivity.
  - apply (list_elem_of_lookup_2 _ 0). vm_compute. reflexivity.
  - vm_compute. reflexivity.
  - vm_compute. reflexivity.
Defined.

End Peer.
