(* ===== verification/Quorum.v ===== *)
(** * Frozen-majority authorisation (crates/ipars-quorum/src/lib.rs)

    The manifest of a signing group, the claims of a capability and the bytes that are
    signed for them, the mutations a capability may authorise, and the verification of a
    capability. The threshold scheme (crate [frost-ed25519]) and plain Ed25519 signatures
    (crate [ed25519-dalek]) are interfaces. *)

From S2P Require Import Prelude RustStd Endpoints BTree SortBy Hashing.

(** ** Interfaces *)

(** What the crate uses of [frost-ed25519]. A deserialised package, key or signature is a
    value of its type; randomness is an argument. *)
Class FrostOps : Type := {
  Identifier : Type;
  #[global] Identifier_eq_dec :: EqDecision Identifier;
  #[global] Identifier_countable :: Countable Identifier;
  identifier_try_from : Z -> option Identifier;
  FrostKey : Type;
  #[global] FrostKey_eq_dec :: EqDecision FrostKey;
  VerifyingShare : Type;
  #[global] VerifyingShare_eq_dec :: EqDecision VerifyingShare;
  PublicKeyPackage : Type;
  package_deserialize : bytes -> option PublicKeyPackage;
  package_serialize : PublicKeyPackage -> option bytes;
  min_signers : PublicKeyPackage -> option Z;
  verifying_shares : PublicKeyPackage -> gmap Identifier VerifyingShare;
  verifying_key : PublicKeyPackage -> FrostKey;
  FrostSignature : Type;
  frost_signature : bytes -> option FrostSignature;
  frost_verify : FrostKey -> bytes -> FrostSignature -> bool;
  SigningShare : Type;
  share_public : SigningShare -> VerifyingShare;
  KeyPackage : Type;
  key_identifier : KeyPackage -> Identifier;
  key_min_signers : KeyPackage -> Z;
  key_verifying_key : KeyPackage -> FrostKey;
  key_verifying_share : KeyPackage -> VerifyingShare;
  key_signing_share : KeyPackage -> SigningShare;
  SigningNonces : Type;
  SigningCommitments : Type;
  #[global] SigningCommitments_eq_dec :: EqDecision SigningCommitments;
  frost_commit : SigningShare -> bytes -> SigningNonces * SigningCommitments;
  SigningPackage : Type;
  signing_commitments : SigningPackage -> gmap Identifier SigningCommitments;
  signing_message : SigningPackage -> bytes;
  signing_package_serialize : SigningPackage -> option bytes;
  SignatureShare : Type;
  frost_sign : SigningPackage -> SigningNonces -> KeyPackage -> option SignatureShare
}.

(** What the crate uses of [ed25519-dalek]. *)
Class EdOps : Type := {
  EdKey : Type;
  ed_key : bytes -> option EdKey;
  ed_weak : EdKey -> bool;
  EdSignature : Type;
  ed_signature : bytes -> option EdSignature;
  ed_verify_strict : EdKey -> bytes -> EdSignature -> bool
}.

(** [url::Url::origin().ascii_serialization()] *)
Class UrlOriginOps `{UrlOps} : Type := { url_origin : Url -> bytes }.

Module Quorum.

Definition SCHEMA_VERSION : Z := 1.
Definition MAX_CAPABILITY_TTL_SECS : Z := 300.

Inductive Error : Type :=
  | BadManifest | Claims | Time | Proof | Key | Capacity | Session | Package | BadSignature | Random.

#[global] Instance Error_eq_dec : EqDecision Error.
Proof. solve_decision. Defined.

Record Member : Type := {
  node_id : bytes;
  identifier : Z;
  endpoint : bytes
}.

Record Manifest : Type := {
  schema_version : Z;
  cluster_id : bytes;
  epoch : Z;
  members : list Member;
  public_key_package : bytes
}.

Definition valid_id (value : bytes) : bool :=
  negb (bool_decide (value = [])) && (lenZ value <=? 256)
  && forallb (fun b => is_ascii_alphanumeric b || bool_decide (b ∈ [x2d; x5f; x2e])) value.

(** [field(&mut out, value)]: what is appended. *)
Definition field (value : bytes) : bytes := be_bytes 8 (as_width 64 (lenZ value)) ++ value.

Record CapabilityClaims : Type := {
  claims_schema : Z;
  claims_cluster : bytes;
  claims_epoch : Z;
  manifest_digest : bytes;
  method : bytes;
  path : bytes;
  body_sha256 : bytes;
  requester_public_key : bytes;
  request_id : bytes;
  issued_at : Z;
  expires_at : Z
}.

(** A string literal ended by a zero byte. *)
Definition domain (s : bytes) : bytes := s ++ [x00].

Definition CAPABILITY_DOMAIN : bytes := Eval vm_compute in domain (bstr "heteronetwork-quorum-capability-v1").
Definition PROOF_DOMAIN : bytes := Eval vm_compute in domain (bstr "heteronetwork-quorum-request-proof-v1").
Definition MANIFEST_DOMAIN : bytes := Eval vm_compute in domain (bstr "heteronetwork-quorum-manifest-v1").

Definition signing_bytes (c : CapabilityClaims) : bytes :=
  CAPABILITY_DOMAIN ++ be_bytes 4 (claims_schema c) ++ field (claims_cluster c) ++ be_bytes 8 (claims_epoch c)
  ++ field (manifest_digest c) ++ field (method c) ++ field (path c) ++ body_sha256 c
  ++ requester_public_key c ++ request_id c ++ be_bytes 8 (issued_at c) ++ be_bytes 8 (expires_at c).

Definition proof_bytes (c : CapabilityClaims) : bytes := PROOF_DOMAIN ++ field (signing_bytes c).

(** [str::split('/')] *)
Fixpoint split_slash (l : bytes) : list bytes :=
  match l with
  | [] => [[]]
  | b :: l =>
      if bool_decide (b = x2f) then [] :: split_slash l
      else match split_slash l with
           | [] => [[b]]
           | part :: parts => (b :: part) :: parts
           end
  end.

(** A node identifier that is not a path segment with a meaning of its own. *)
Definition plain_node (node : bytes) : bool :=
  valid_id node && negb (bool_decide (node = bstr ".")) && negb (bool_decide (node = bstr "..")).

Definition allowed_mutation (method path : bytes) : bool :=
  match split_slash path with
  | root :: v1 :: admin :: parts =>
      if bool_decide (root = []) && bool_decide (v1 = bstr "v1") && bool_decide (admin = bstr "admin") then
        match parts with
        | [a] =>
            (bool_decide (method = bstr "POST")
             && (bool_decide (a = bstr "enrollment") || bool_decide (a = bstr "client-enrollment")))
            || (bool_decide (method = bstr "PUT") && bool_decide (a = bstr "policy"))
        | [a; b] =>
            (bool_decide (method = bstr "POST") && bool_decide (a = bstr "quorum") && bool_decide (b = bstr "revocations"))
            || (bool_decide (method = bstr "DELETE") && bool_decide (a = bstr "nodes") && plain_node b)
        | [a; b; c] =>
            bool_decide (method = bstr "PUT") && bool_decide (a = bstr "nodes") && bool_decide (c = bstr "display-name")
            && plain_node b
        | [a; b; c; d] =>
            bool_decide (method = bstr "POST") && bool_decide (a = bstr "paths") && bool_decide (d = bstr "pin")
            && plain_node b && plain_node c
        | _ => false
        end
      else false
  | _ => false
  end.

Definition RequestProof : Type := bytes.

Record CapabilityToken : Type := {
  token_claims : CapabilityClaims;
  token_signature : bytes
}.

(** ** Unique reading

    Fields of known width and fields that carry their length can be read back from what
    they begin. *)

Lemma fixed_app_inj (a b x y : bytes) : length a = length b -> a ++ x = b ++ y -> a = b /\ x = y.
Proof. intros Hl H. by apply app_inj_1 in H. Qed.

Lemma be_app_inj n a b (x y : bytes) :
  0 <= a < 2 ^ (8 * Z.of_nat n) -> 0 <= b < 2 ^ (8 * Z.of_nat n) ->
  be_bytes n a ++ x = be_bytes n b ++ y -> a = b /\ x = y.
Proof.
  intros Ha Hb H. apply app_inj_1 in H as [H ->]; [|by rewrite !length_be_bytes].
  split; [|done]. by apply (be_bytes_inj n).
Qed.

(** A byte string that fits the address space. *)
Definition fits (l : bytes) : Prop := lenZ l < 2 ^ 64.

Lemma field_app_inj a b (x y : bytes) : fits a -> fits b -> field a ++ x = field b ++ y -> a = b /\ x = y.
Proof.
  unfold field, fits. intros Ha Hb H. rewrite !as_width_id, <- !app_assoc in H by (unfold in_width; lia).
  apply be_app_inj in H as [Hl H]; [|lia..]. apply app_inj_1 in H; [done|lia].
Qed.

(** Encodings that can be read back from the front of a byte string, and lists of them of
    known length. *)
Definition readable {A} (P : A -> Prop) (enc : A -> bytes) : Prop :=
  forall a b x y, P a -> P b -> enc a ++ x = enc b ++ y -> a = b /\ x = y.

Lemma readable_list {A} (P : A -> Prop) (enc : A -> bytes) : readable P enc -> forall l l' x y,
  Forall P l -> Forall P l' -> length l = length l' ->
  concat (map enc l) ++ x = concat (map enc l') ++ y -> l = l' /\ x = y.
Proof.
  intros Henc. induction l as [|a l IH]; intros [|b l'] x y Hl Hl' E H; try done. simpl in *.
  rewrite <- !app_assoc in H. inversion Hl; inversion Hl'; subst.
  apply Henc in H as [-> H]; [|done..]. apply IH in H as [-> ->]; auto.
Qed.

Ltac read_field :=
  match goal with
  | H : field _ ++ _ = field _ ++ _ |- _ => apply field_app_inj in H as [? H]; [|done..]
  | H : be_bytes _ _ ++ _ = be_bytes _ _ ++ _ |- _ => apply be_app_inj in H as [? H]; [|done..]
  | H : be_bytes _ _ = be_bytes _ _ |- _ => apply be_bytes_inj in H; [|done..]
  | H : ?a ++ _ = ?b ++ _ |- _ => apply fixed_app_inj in H as [? H]; [|congruence]
  end.

Record claims_typed (c : CapabilityClaims) : Prop := {
  ct_schema : is_u32 (claims_schema c);
  ct_cluster : fits (claims_cluster c);
  ct_epoch : is_u64 (claims_epoch c);
  ct_digest : fits (manifest_digest c);
  ct_method : fits (method c);
  ct_path : fits (path c);
  ct_body : length (body_sha256 c) = 32%nat;
  ct_key : length (requester_public_key c) = 32%nat;
  ct_request : length (request_id c) = 32%nat;
  ct_issued : is_u64 (issued_at c);
  ct_expires : is_u64 (expires_at c)
}.

Lemma valid_id_fits s : valid_id s = true -> fits s.
Proof. unfold valid_id, fits. intros. bool_to_prop. lia. Qed.

(** The signed bytes determine the claims. *)
Lemma signing_bytes_inj c d : claims_typed c -> claims_typed d -> signing_bytes c = signing_bytes d -> c = d.
Proof.
  intros [] [] H. unfold signing_bytes in H. apply app_inv_head in H.
  repeat read_field. destruct c, d; simpl in *. congruence.
Qed.

(** ** The paths of mutations *)

Lemma split_slash_nonempty l : split_slash l <> [].
Proof. destruct l as [|b l]; [done|]. simpl. case_bool_decide; [done|]. by destruct (split_slash l). Qed.

(** Parts with a slash before each. *)
Definition joined (parts : list bytes) : bytes := concat (map (cons x2f) parts).

Lemma split_joined l : exists part parts, split_slash l = part :: parts /\ l = part ++ joined parts.
Proof.
  induction l as [|b l (part & parts & E & ->)]; [by exists [], []|]. simpl.
  case_bool_decide as Hb.
  - subst b. exists [], (part :: parts). rewrite E. done.
  - rewrite E. by exists (b :: part), parts.
Qed.

Lemma split_no_slash part l : x2f ∉ part -> split_slash (part ++ x2f :: l) = part :: split_slash l.
Proof.
  induction part as [|b part IH]; intros Hp; simpl; [done|].
  apply not_elem_of_cons in Hp as [Hb Hp]. rewrite bool_decide_false by congruence. by rewrite IH.
Qed.

Lemma split_last part : x2f ∉ part -> split_slash part = [part].
Proof.
  induction part as [|b part IH]; intros Hp; simpl; [done|].
  apply not_elem_of_cons in Hp as [Hb Hp]. rewrite bool_decide_false by congruence. by rewrite IH.
Qed.

Lemma split_of_joined part parts : Forall (fun p => x2f ∉ p) (part :: parts) -> split_slash (part ++ joined parts) = part :: parts.
Proof.
  revert part. induction parts as [|q parts IH]; intros part [Hp Hps]%Forall_cons.
  - unfold joined. simpl. rewrite app_nil_r. by apply split_last.
  - unfold joined. cbn [map concat app]. rewrite split_no_slash by done. f_equal. by apply IH.
Qed.

Lemma plain_node_no_slash node : plain_node node = true -> x2f ∉ node.
Proof.
  unfold plain_node, valid_id. intros H Hin. bool_to_prop. rewrite forallb_Forall, Forall_forall in *.
  match goal with H : forall x, x ∈ node -> _ |- _ => specialize (H _ Hin) end. done.
Qed.

(** The mutations of the administrative interface, by method and path below [/v1/admin]. *)
Inductive mutation : bytes -> list bytes -> Prop :=
  | mut_enroll : mutation (bstr "POST") [bstr "enrollment"]
  | mut_client_enroll : mutation (bstr "POST") [bstr "client-enrollment"]
  | mut_policy : mutation (bstr "PUT") [bstr "policy"]
  | mut_revocations : mutation (bstr "POST") [bstr "quorum"; bstr "revocations"]
  | mut_delete_node node : plain_node node = true -> mutation (bstr "DELETE") [bstr "nodes"; node]
  | mut_display_name node : plain_node node = true -> mutation (bstr "PUT") [bstr "nodes"; node; bstr "display-name"]
  | mut_pin local remote : plain_node local = true -> plain_node remote = true ->
      mutation (bstr "POST") [bstr "paths"; local; remote; bstr "pin"].

Definition admin_path (parts : list bytes) : bytes := joined (bstr "v1" :: bstr "admin" :: parts).

Lemma mutation_no_slash m parts : mutation m parts -> Forall (fun p => x2f ∉ p) parts.
Proof.
  intros []; repeat constructor; try by apply plain_node_no_slash.
  all: by apply (bool_decide_unpack _); vm_compute.
Qed.

Lemma mutation_allowed m parts : mutation m parts -> allowed_mutation m (admin_path parts) = true.
Proof.
  intros Hm. unfold allowed_mutation, admin_path.
  assert (E : split_slash (joined (bstr "v1" :: bstr "admin" :: parts)) = [] :: bstr "v1" :: bstr "admin" :: parts).
  { apply (split_of_joined [] (bstr "v1" :: bstr "admin" :: parts)). constructor; [apply not_elem_of_nil|].
    repeat constructor; [by apply (bool_decide_unpack _); vm_compute..|by eapply mutation_no_slash]. }
  rewrite E. destruct Hm as [| | | |node Hn|node Hn|local remote Hl Hr]; rewrite ?Hn, ?Hl, ?Hr; done.
Qed.

Ltac split_tests H :=
  repeat match type of H with
  | (_ || _)%bool = true => apply orb_true_iff in H as [H|H]
  | (_ && _)%bool = true => let H' := fresh "H" in apply andb_true_iff in H as [H H']; split_tests H'
  | bool_decide (_ = _) = true => apply bool_decide_eq_true in H; subst
  end.

Lemma allowed_is_mutation m p : allowed_mutation m p = true -> exists parts, p = admin_path parts /\ mutation m parts.
Proof.
  unfold allowed_mutation, admin_path. destruct (split_joined p) as (part & parts & -> & ->).
  destruct parts as [|v1 [|admin parts]]; [done..|]. destruct (_ && _ && _)%bool eqn:E; [|done]. bool_to_prop. subst.
  intros H. exists parts. split; [done|].
  destruct parts as [|a [|b [|c [|d [|]]]]]; try done; split_tests H; by constructor.
Qed.

Section Core.
Context {UO : UrlOps} {OO : @UrlOriginOps UO} {DO : DigestOps} {FO : FrostOps} {EO : EdOps}.

Definition hex_digest (bs : bytes) : bytes := concat (map hex_of_byte (sha256 bs)).

Definition public_keys (m : Manifest) : result PublicKeyPackage Error :=
  if 262144 <? lenZ (public_key_package m) then Err BadManifest
  else ok_or (package_deserialize (public_key_package m)) BadManifest.

Definition threshold (m : Manifest) : Z := as_width 16 (lenZ (members m) / 2 + 1).

Definition endpoint_ok (u : Url) : bool :=
  (bool_decide (url_scheme u = bstr "http") || bool_decide (url_scheme u = bstr "https"))
  && negb (bool_decide (url_host u = None)) && bool_decide (url_username u = [])
  && bool_decide (url_password u = None) && bool_decide (url_query u = None)
  && bool_decide (url_fragment u = None) && bool_decide (url_path u = bstr "/").

(** The loop over the members with the sets it has filled. *)
Fixpoint validate_members (keys : PublicKeyPackage) (nodes : gset bytes) (ids : gset Identifier)
    (origins : gset bytes) (l : list Member) : result unit Error :=
  match l with
  | [] => Ok tt
  | member :: l =>
      let? id := ok_or (identifier_try_from (identifier member)) BadManifest in
      let? u := ok_or (url_parse (endpoint member)) BadManifest in
      if negb (valid_id (node_id member)) || bool_decide (node_id member ∈ nodes) || bool_decide (id ∈ ids)
         || bool_decide (verifying_shares keys !! id = None) || negb (endpoint_ok u)
         || bool_decide (url_origin u ∈ origins)
      then Err BadManifest
      else validate_members keys ({[ node_id member ]} ∪ nodes) ({[ id ]} ∪ ids) ({[ url_origin u ]} ∪ origins) l
  end.

Definition validate_manifest (m : Manifest) : result unit Error :=
  if negb (schema_version m =? SCHEMA_VERSION) || (epoch m =? 0) || negb (valid_id (cluster_id m))
     || negb ((2 <=? lenZ (members m)) && (lenZ (members m) <=? 1024))
  then Err BadManifest
  else
    let? keys := public_keys m in
    if bool_decide (min_signers keys <> Some (threshold m))
       || negb (Z.of_nat (size (verifying_shares keys)) =? lenZ (members m))
    then Err BadManifest
    else validate_members keys ∅ ∅ ∅ (members m).

Definition member_bytes (m : Member) : bytes :=
  field (node_id m) ++ be_bytes 2 (identifier m) ++ field (endpoint m).

Definition digest (m : Manifest) : result bytes Error :=
  let? _ := validate_manifest m in
  let sorted := sort_by (fun a b => identifier a ?= identifier b) (members m) in
  let? keys := public_keys m in
  let? canonical_keys := ok_or (package_serialize keys) BadManifest in
  Ok (hex_digest (MANIFEST_DOMAIN ++ be_bytes 4 (schema_version m) ++ field (cluster_id m) ++ be_bytes 8 (epoch m)
                  ++ be_bytes 8 (lenZ sorted) ++ concat (map member_bytes sorted) ++ field canonical_keys)).

Definition validate_claims (c : CapabilityClaims) (m : Manifest) (now : Z) : result unit Error :=
  if negb (claims_schema c =? SCHEMA_VERSION) || bool_decide (claims_cluster c <> cluster_id m)
     || negb (claims_epoch c =? epoch m)
  then Err Claims
  else
    let? d := digest m in
    if bool_decide (manifest_digest c <> d) || bool_decide (request_id c = replicate 32 x00)
       || negb (allowed_mutation (method c) (path c))
    then Err Claims
    else if (now <? issued_at c) || (expires_at c <=? now) || (expires_at c <=? issued_at c)
            || (MAX_CAPABILITY_TTL_SECS <? expires_at c - issued_at c)
    then Err Time
    else Ok tt.

Definition verify_proof (signature : RequestProof) (c : CapabilityClaims) : result unit Error :=
  let? key := ok_or (ed_key (requester_public_key c)) Proof in
  let? s := ok_or (ed_signature signature) Proof in
  if ed_weak key then Err Proof
  else if ed_verify_strict key (proof_bytes c) s then Ok tt else Err Proof.

(** The threshold signature of a group on a message. *)
Definition verify_group (m : Manifest) (message signature : bytes) : result unit Error :=
  let? s := ok_or (frost_signature signature) BadSignature in
  let? keys := public_keys m in
  if frost_verify (verifying_key keys) message s then Ok tt else Err BadSignature.

Definition verify_capability (m : Manifest) (token : CapabilityToken) (proof : RequestProof)
    (meth pth body : bytes) (now : Z) : result unit Error :=
  let? _ := validate_claims (token_claims token) m now in
  if bool_decide (method (token_claims token) <> meth) || bool_decide (path (token_claims token) <> pth)
     || bool_decide (body_sha256 (token_claims token) <> sha256 body)
  then Err Claims
  else
    let? _ := verify_proof proof (token_claims token) in
    verify_group m (signing_bytes (token_claims token)) (token_signature token).

(** ** Well-formed manifests *)

(** What a member's entry is read as: its identifier in the scheme and its endpoint. *)
Definition member_read (m : Member) (r : Identifier * Url) : Prop :=
  identifier_try_from (identifier m) = Some r.1 /\ url_parse (endpoint m) = Some r.2.

Record manifest_wf (m : Manifest) (keys : PublicKeyPackage) (rs : list (Identifier * Url)) : Prop := {
  mw_schema : schema_version m = SCHEMA_VERSION;
  mw_epoch : epoch m <> 0;
  mw_cluster : valid_id (cluster_id m) = true;
  mw_count : 2 <= lenZ (members m) <= 1024;
  mw_keys : public_keys m = Ok keys;
  mw_threshold : min_signers keys = Some (threshold m);
  mw_shares : Z.of_nat (size (verifying_shares keys)) = lenZ (members m);
  mw_read : Forall2 member_read (members m) rs;
  mw_nodes : Forall (fun x => valid_id (node_id x) = true) (members m) /\ NoDup (map node_id (members m));
  mw_ids : Forall (fun r => is_Some (verifying_shares keys !! r.1)) rs /\ NoDup (map fst rs);
  mw_endpoints : Forall (fun r => endpoint_ok r.2 = true) rs /\ NoDup (map (fun r => url_origin r.2) rs)
}.

Lemma validate_members_ok keys nodes ids origins l :
  validate_members keys nodes ids origins l = Ok tt <->
  exists rs, Forall2 member_read l rs /\
    (Forall (fun x => valid_id (node_id x) = true) l /\ NoDup (map node_id l)) /\
    (Forall (fun r => is_Some (verifying_shares keys !! r.1)) rs /\ NoDup (map fst rs)) /\
    (Forall (fun r => endpoint_ok r.2 = true) rs /\ NoDup (map (fun r => url_origin r.2) rs)) /\
    Forall (fun x => node_id x ∉ nodes) l /\ Forall (fun r => r.1 ∉ ids) rs /\
    Forall (fun r => url_origin r.2 ∉ origins) rs.
Proof.
  revert nodes ids origins. induction l as [|m l IH]; intros nodes ids origins; cbn [validate_members].
  { split; [intros _; exists []; split_and!; constructor|done]. }
  rewrite bind_ok. setoid_rewrite bind_ok. setoid_rewrite guard_ok. setoid_rewrite IH. setoid_rewrite ok_or_ok. split.
  - intros (id & Hid & u & Hu & Hg & rs & Hr & [H1 H2] & [H3 H4] & [H5 H6] & H7 & H8 & H9).
    apply Forall_fresh in H7 as [? ?], H8 as [? ?], H9 as [? ?]. bool_to_prop.
    exists ((id, u) :: rs). cbn [map fst snd]. rewrite !NoDup_cons. split_and!; try (constructor; done); try done.
    constructor; [|done]. simpl. by apply not_eq_None_Some.
  - intros (rs & Hr & [H1 H2] & [H3 H4] & [H5 H6] & H7 & H8 & H9).
    inversion Hr as [|? [id u] ? rs' [Hid Hu] Hr']; subst. cbn [map fst snd] in *.
    rewrite NoDup_cons in H2. rewrite NoDup_cons in H4. rewrite NoDup_cons in H6. rewrite !Forall_cons in *. destruct_and!. simpl in *.
    exists id. split; [done|]. exists u. split; [done|]. split.
    + repeat match goal with H : is_Some _ |- _ => destruct H as [? H]; rewrite H end.
      rewrite !bool_decide_eq_false_2 by done.
      repeat match goal with H : _ = true |- _ => rewrite H; clear H end. done.
    + exists rs'. rewrite !Forall_fresh. by split_and!.
Qed.

Lemma validate_manifest_ok m : validate_manifest m = Ok tt <-> exists keys rs, manifest_wf m keys rs.
Proof.
  unfold validate_manifest. rewrite guard_ok, bind_ok. setoid_rewrite guard_ok. setoid_rewrite validate_members_ok.
  split.
  - intros (Hg & keys & Hk & Ht & rs & Hr & Hn & Hi & He & _). bool_to_prop. exists keys, rs.
    split; try done; try lia; by apply guard_ok || apply dec_stable.
  - intros (keys & rs & []). split.
    + rewrite mw_schema0, mw_cluster0. unfold SCHEMA_VERSION. lia.
    + exists keys. split; [by apply guard_ok in mw_keys0|]. rewrite mw_threshold0, mw_shares0. rewrite bool_decide_eq_false_2 by tauto.
      rewrite Z.eqb_refl. split; [done|]. exists rs. split_and!; try done; apply Forall_fresh_empty || tauto.
Qed.

(** The threshold of a valid manifest is a strict majority of its members. *)
Lemma threshold_majority m : lenZ (members m) <= 1024 -> threshold m = lenZ (members m) / 2 + 1.
Proof. intros H. apply as_width_id. unfold in_width. dlia. Qed.

Lemma digest_valid m d : digest m = Ok d -> validate_manifest m = Ok tt.
Proof. unfold digest. intros ([] & H & _)%bind_ok. done. Qed.

(** ** What verification accepts *)

(** An accepted Ed25519 signature: the key is well formed and not of small order. *)
Definition ed_signed (key message signature : bytes) : Prop :=
  exists k s, ed_key key = Some k /\ ed_weak k = false /\ ed_signature signature = Some s /\
    ed_verify_strict k message s = true.

(** An accepted signature of the group of a manifest. *)
Definition group_signed (m : Manifest) (message signature : bytes) : Prop :=
  exists keys s, public_keys m = Ok keys /\ frost_signature signature = Some s /\
    frost_verify (verifying_key keys) message s = true.

Lemma check_ok {E} (b : bool) (e : E) : (if b then Ok tt else Err e) = Ok tt <-> b = true.
Proof. by destruct b. Qed.

Lemma verify_proof_ok signature c :
  verify_proof signature c = Ok tt <-> ed_signed (requester_public_key c) (proof_bytes c) signature.
Proof.
  unfold verify_proof, ed_signed. rewrite bind_ok. setoid_rewrite bind_ok. setoid_rewrite guard_ok.
  setoid_rewrite check_ok. setoid_rewrite ok_or_ok. naive_solver.
Qed.

Lemma verify_group_ok m message signature :
  verify_group m message signature = Ok tt <-> group_signed m message signature.
Proof.
  unfold verify_group, group_signed. rewrite bind_ok. setoid_rewrite bind_ok.
  setoid_rewrite check_ok. setoid_rewrite ok_or_ok. naive_solver.
Qed.

(** A lifetime of at most [ttl] seconds that has begun and not ended. *)
Definition live (ttl issued expires now : Z) : Prop := issued <= now < expires /\ expires - issued <= ttl.

Record claims_ok (c : CapabilityClaims) (m : Manifest) (now : Z) : Prop := {
  co_schema : claims_schema c = SCHEMA_VERSION;
  co_cluster : claims_cluster c = cluster_id m;
  co_epoch : claims_epoch c = epoch m;
  co_digest : digest m = Ok (manifest_digest c);
  co_request : request_id c <> replicate 32 x00;
  co_mutation : exists parts, path c = admin_path parts /\ mutation (method c) parts;
  co_live : live MAX_CAPABILITY_TTL_SECS (issued_at c) (expires_at c) now
}.

Lemma allowed_mutation_iff m p :
  allowed_mutation m p = true <-> exists parts, p = admin_path parts /\ mutation m parts.
Proof. split; [apply allowed_is_mutation|]. intros (parts & -> & Hm). by apply mutation_allowed. Qed.

Lemma validate_claims_ok c m now : validate_claims c m now = Ok tt <-> claims_ok c m now.
Proof.
  unfold validate_claims. rewrite guard_ok, bind_ok. setoid_rewrite guard_ok. setoid_rewrite guard_ok. split.
  - intros (H1 & d & Hd & H2 & H3 & _). bool_to_prop.
    split; try (by apply dec_stable); try done.
    + rewrite Hd. f_equal. symmetry. by apply dec_stable.
    + by apply allowed_mutation_iff.
  - intros [H1 H2 H3 H4 H5 H6 H7]. unfold live in H7. apply allowed_mutation_iff in H6.
    rewrite H1, H2, H3, H6. rewrite bool_decide_eq_false_2 by tauto. unfold SCHEMA_VERSION.
    split; [lia|]. exists (manifest_digest c). rewrite H4, !bool_decide_eq_false_2 by tauto.
    split_and!; done || lia.
Qed.

End Core.

(** [verify_capability] accepts a request exactly when the claims are for the valid
    manifest at hand (cluster, epoch and digest), are live for at most five minutes, name
    this method, path and body, the method and path are one of the seven administrative
    mutations in which a node is named by a plain identifier, the requester's key signed
    these claims and the group signed them. *)
Theorem capability_verified_iff {UO : UrlOps} {OO : @UrlOriginOps UO} {DO : DigestOps} {FO : FrostOps} {EO : EdOps}
    m token proof meth pth body now :
  verify_capability m token proof meth pth body now = Ok tt <->
  let c := token_claims token in
  claims_ok c m now /\ method c = meth /\ path c = pth /\ body_sha256 c = sha256 body /\
  ed_signed (requester_public_key c) (proof_bytes c) proof /\
  group_signed m (signing_bytes c) (token_signature token) /\ exists keys rs, manifest_wf m keys rs.
Proof.
  cbv zeta. rewrite <- validate_claims_ok, <- verify_proof_ok, <- verify_group_ok, <- validate_manifest_ok.
  unfold verify_capability. split.
  - intros ([] & H1 & [H2 ([] & H3 & H4)%bind_ok]%guard_ok)%bind_ok. bool_to_prop.
    split_and!; try done; try by apply dec_stable. apply validate_claims_ok in H1. by eapply digest_valid, co_digest.
  - intros (H1 & <- & <- & -> & H2 & H3 & _). rewrite H1, H2, !bool_decide_eq_false_2 by tauto. done.
Qed.

End Quorum.
