(* ===== verification/QuorumInstances.v ===== *)
(** * Concrete signature schemes for the quorum examples

    A toy threshold scheme, a toy signature scheme and a URL parser that accepts every
    string with the scheme [https]. The theorems quantify over every instance of the
    interfaces; the examples evaluate them at these. *)

From S2P Require Import Prelude RustStd Endpoints Hashing Quorum.

Module QuorumInstances.

#[export] Instance quorum_urls : UrlOps := {|
  Url := bytes;
  url_parse := fun s => if starts_with s (bstr "https://") then Some s else None;
  url_scheme := fun _ => bstr "https";
  url_username := fun _ => [];
  url_password := fun _ => None;
  url_query := fun _ => None;
  url_fragment := fun _ => None;
  url_path := fun _ => bstr "/";
  url_host := fun _ => Some (HostIpv4 0);
  url_port := fun _ => None;
  url_port_or_known_default := fun _ => Some 443;
  url_as_str := fun u => u
|}.

#[export] Instance quorum_origins : UrlOriginOps := {| url_origin := fun u : Url => u |}.

#[export] Instance quorum_digest : DigestOps := sample_digest.

(** A package is the number of participants and a label; its key is the package. *)
Definition package_size (p : bytes) : Z := match p with b :: _ => byteZ b | [] => 0 end.

Definition toy_share (p : bytes) (id : Z) : bytes := Zbyte id :: p.

Definition toy_signature (key message : bytes) : bytes := sample_hash key ++ sample_hash message.

#[export] Instance toy_frost : FrostOps := {|
  Identifier := Z;
  identifier_try_from := fun z => if z =? 0 then None else Some z;
  FrostKey := bytes;
  VerifyingShare := bytes;
  PublicKeyPackage := bytes;
  package_deserialize := fun p => if bool_decide (p = []) then None else Some p;
  package_serialize := Some;
  min_signers := fun p => Some (package_size p / 2 + 1);
  verifying_shares := fun p =>
    list_to_map (map (fun i => (Z.of_nat i, toy_share p (Z.of_nat i))) (seq 1 (Z.to_nat (package_size p))));
  verifying_key := fun p => p;
  FrostSignature := bytes;
  frost_signature := Some;
  frost_verify := fun key m s => bool_decide (s = toy_signature key m);
  SigningShare := bytes;
  share_public := fun s => s;
  KeyPackage := Z * bytes;
  key_identifier := fst;
  key_min_signers := fun k => package_size k.2 / 2 + 1;
  key_verifying_key := snd;
  key_verifying_share := fun k => toy_share k.2 k.1;
  key_signing_share := fun k => toy_share k.2 k.1;
  SigningNonces := bytes;
  SigningCommitments := bytes;
  frost_commit := fun share r => (r, share ++ r);
  SigningPackage := gmap Z bytes * bytes;
  signing_commitments := fst;
  signing_message := snd;
  signing_package_serialize := fun p => Some p.2;
  SignatureShare := bytes;
  frost_sign := fun p nonces key => Some (nonces ++ p.2)
|}.

#[export] Instance toy_ed : EdOps := {|
  EdKey := bytes;
  ed_key := Some;
  ed_weak := fun k => bool_decide (k = replicate 32 x00);
  EdSignature := bytes;
  ed_signature := Some;
  ed_verify_strict := fun key m s => bool_decide (s = toy_signature key m)
|}.

(** A cluster of three signers in a given epoch. *)
Definition sample_manifest (epoch : Z) : Quorum.Manifest := {|
  Quorum.schema_version := 1; Quorum.cluster_id := bstr "c"; Quorum.epoch := epoch;
  Quorum.members := [
    {| Quorum.node_id := bstr "a"; Quorum.identifier := 1; Quorum.endpoint := bstr "https://a/" |};
    {| Quorum.node_id := bstr "b"; Quorum.identifier := 2; Quorum.endpoint := bstr "https://b/" |};
    {| Quorum.node_id := bstr "d"; Quorum.identifier := 3; Quorum.endpoint := bstr "https://d/" |}];
  Quorum.public_key_package := [x03; Zbyte epoch] |}.

Lemma sample_manifest_valid : Quorum.validate_manifest (sample_manifest 1) = Ok tt.
Proof. by vm_compute. Qed.

End QuorumInstances.
