(* ===== verification/QuorumRotation.v ===== *)
(** * Rotation of the signing group (crates/ipars-quorum/src/rotation.rs)

    A transition names the manifest it replaces and carries the manifest it installs; it is
    accepted when both groups signed it. *)

From S2P Require Import Prelude RustStd Endpoints Hashing Quorum QuorumInstances.

Module Rotation.
Import Quorum.

Record ManifestTransition : Type := {
  old_manifest_digest : bytes;
  new_manifest : Manifest;
  transition_request : bytes;
  transition_issued : Z;
  transition_expires : Z
}.

Record ManifestRotation : Type := {
  transition : ManifestTransition;
  old_signature : bytes;
  new_signature : bytes
}.

Record VerifiedRotation : Type := {
  old_manifest : Manifest;
  rotation : ManifestRotation
}.

Definition TRANSITION_DOMAIN : bytes :=
  Eval vm_compute in domain (bstr "heteronetwork-quorum-manifest-transition-v1").

Section Core.
Context {UO : UrlOps} {OO : @UrlOriginOps UO} {DO : DigestOps} {FO : FrostOps} {EO : EdOps}.

Definition validate_transition (t : ManifestTransition) (old : Manifest) (now : Z) : result unit Error :=
  let? d := digest old in
  if bool_decide (d <> old_manifest_digest t) || bool_decide (cluster_id (new_manifest t) <> cluster_id old)
     || bool_decide (checked_add 64 (epoch old) 1 <> Some (epoch (new_manifest t)))
     || bool_decide (transition_request t = replicate 32 x00)
  then Err BadManifest
  else
    let? _ := validate_manifest (new_manifest t) in
    let? old_keys := public_keys old in
    let? new_keys := public_keys (new_manifest t) in
    if bool_decide (verifying_key old_keys = verifying_key new_keys) then Err Key
    else if (now <? transition_issued t) || (transition_expires t <=? now)
            || (transition_expires t <=? transition_issued t)
            || (MAX_CAPABILITY_TTL_SECS <? transition_expires t - transition_issued t)
    then Err Time
    else Ok tt.

Definition transition_bytes (t : ManifestTransition) : result bytes Error :=
  let? new_digest := digest (new_manifest t) in
  Ok (TRANSITION_DOMAIN ++ field (old_manifest_digest t) ++ field new_digest ++ field (cluster_id (new_manifest t))
      ++ be_bytes 8 (epoch (new_manifest t)) ++ transition_request t ++ be_bytes 8 (transition_issued t)
      ++ be_bytes 8 (transition_expires t)).

Definition validate_at (v : VerifiedRotation) (now : Z) : result unit Error :=
  validate_transition (transition (rotation v)) (old_manifest v) now.

Definition verify_rotation (old : Manifest) (r : ManifestRotation) (now : Z) : result VerifiedRotation Error :=
  let? _ := validate_transition (transition r) old now in
  let? message := transition_bytes (transition r) in
  let? _ := verify_group old message (old_signature r) in
  let? _ := verify_group (new_manifest (transition r)) message (new_signature r) in
  Ok {| old_manifest := old; rotation := r |}.

Record transition_ok (t : ManifestTransition) (old : Manifest) (now : Z) : Prop := {
  to_old : digest old = Ok (old_manifest_digest t);
  to_cluster : cluster_id (new_manifest t) = cluster_id old;
  to_epoch : epoch (new_manifest t) = epoch old + 1 /\ epoch old + 1 < 2 ^ 64;
  to_request : transition_request t <> replicate 32 x00;
  to_new : exists keys rs, manifest_wf (new_manifest t) keys rs;
  to_key : forall old_keys new_keys, public_keys old = Ok old_keys ->
    public_keys (new_manifest t) = Ok new_keys -> verifying_key old_keys <> verifying_key new_keys;
  to_live : live MAX_CAPABILITY_TTL_SECS (transition_issued t) (transition_expires t) now
}.

Lemma checked_succ a b : checked_add 64 a 1 = Some b <-> b = a + 1 /\ a + 1 < 2 ^ 64.
Proof. unfold checked_add. destruct (_ <? _) eqn:E; split; intros H; simplify_eq; lia || done || f_equal; lia. Qed.

Lemma valid_keys m : validate_manifest m = Ok tt -> exists keys, public_keys m = Ok keys.
Proof. intros (keys & rs & H)%validate_manifest_ok. exists keys. by eapply mw_keys. Qed.

Lemma validate_transition_ok t old now : validate_transition t old now = Ok tt <-> transition_ok t old now.
Proof.
  unfold validate_transition. split.
  - intros (d & Hd & [H1 ([] & H2 & (ok & Ho & (nk & Hn & [H3 [H4 _]%guard_ok]%guard_ok)%bind_ok)%bind_ok)%bind_ok]%guard_ok)%bind_ok.
    bool_to_prop. split; try done; try by apply dec_stable.
    + rewrite Hd. f_equal. by apply dec_stable.
    + apply checked_succ. by apply dec_stable.
    + by apply validate_manifest_ok.
    + intros ? ? Ho' Hn'. congruence.
  - intros [H1 H2 H3%checked_succ H4 H5%validate_manifest_ok H6 H7].
    destruct (valid_keys old) as [ok Ho]; [by eapply digest_valid|].
    destruct (valid_keys (new_manifest t)) as [nk Hn]; [done|]. unfold live in H7.
    rewrite H1, H2, H3, H5, Ho, Hn, !bool_decide_eq_false_2 by (tauto || by eapply H6). simpl. by skip_guards.
Qed.

(** What a verified rotation attests. *)
Record rotation_ok (old : Manifest) (r : ManifestRotation) (now : Z) : Prop := {
  ro_transition : transition_ok (transition r) old now;
  ro_signed : exists message, transition_bytes (transition r) = Ok message /\
    group_signed old message (old_signature r) /\ group_signed (new_manifest (transition r)) message (new_signature r)
}.

Lemma verify_rotation_ok old r now v :
  verify_rotation old r now = Ok v <-> v = {| old_manifest := old; rotation := r |} /\ rotation_ok old r now.
Proof.
  unfold verify_rotation. split.
  - intros ([] & H1 & (msg & H2 & ([] & H3 & ([] & H4 & [= <-])%bind_ok)%bind_ok)%bind_ok)%bind_ok.
    split; [done|]. split; [by apply validate_transition_ok|]. exists msg. by rewrite <- !verify_group_ok.
  - intros (-> & [H1 (msg & H2 & H3 & H4)]). rewrite <- verify_group_ok in H3, H4.
    apply validate_transition_ok in H1. by rewrite H1, H2, H3, H4.
Qed.

(** Rotations verified one after the other, each against the manifest installed by the one
    before. *)
Fixpoint follow (m : Manifest) (steps : list (ManifestRotation * Z)) : result Manifest Error :=
  match steps with
  | [] => Ok m
  | (r, now) :: steps => let? v := verify_rotation m r now in follow (new_manifest (transition (rotation v))) steps
  end.

Lemma follow_facts m steps m' : follow m steps = Ok m' ->
  epoch m' = epoch m + lenZ steps /\ cluster_id m' = cluster_id m /\
  (validate_manifest m = Ok tt -> validate_manifest m' = Ok tt) /\
  (steps <> [] -> epoch m + lenZ steps < 2 ^ 64).
Proof.
  revert m. induction steps as [|[r now] steps IH]; intros m; cbn [follow].
  { intros [= <-]. cbn [length]. split_and!; done || lia. }
  intros (v & [-> [[H1 H2 H3 H4 H5 H6 H7] _]]%verify_rotation_ok & Hf)%bind_ok. simpl in Hf.
  apply IH in Hf as (E & C & V & L). cbn [length]. rewrite C, E. split_and!; try done; try lia.
  - intros _. by apply V, validate_manifest_ok.
  - intros _. destruct steps; [simpl; lia|]. specialize (L ltac:(done)). lia.
Qed.

End Core.

(** Trust moves forward only. Along any sequence of rotations, each verified against
    the manifest the one before installed, the epoch grows by exactly one per rotation and
    never wraps, the cluster stays the same and every manifest reached is valid; so no
    manifest is ever installed again. Each rotation was signed by the group it retires and
    by the group it installs, over the same bytes, and the two have different keys. *)
Theorem rotations_move_forward {UO : UrlOps} {OO : @UrlOriginOps UO} {DO : DigestOps} {FO : FrostOps}
    m before r now after m1 m2 m3 :
  follow m before = Ok m1 -> follow m1 [(r, now)] = Ok m2 -> follow m2 after = Ok m3 ->
  epoch m3 = epoch m + lenZ before + 1 + lenZ after /\ epoch m3 < 2 ^ 64 /\ cluster_id m3 = cluster_id m /\
  validate_manifest m3 = Ok tt /\ m3 <> m1 /\ m2 = new_manifest (transition r) /\ rotation_ok m1 r now.
Proof.
  intros H1 H2 H3. pose proof H2 as (v & [-> Hr]%verify_rotation_ok & [= E])%bind_ok. simpl in E.
  pose proof (to_new _ _ _ (ro_transition _ _ _ Hr)) as V%validate_manifest_ok. rewrite E in V.
  apply follow_facts in H1 as (E1 & C1 & _ & _). apply follow_facts in H2 as (E2 & C2 & _ & L2).
  apply follow_facts in H3 as (E3 & C3 & V3 & L3). cbn [length] in *. specialize (L2 ltac:(done)).
  assert (L : epoch m3 < 2 ^ 64) by (destruct after; [simpl in E3; lia|]; specialize (L3 ltac:(done)); lia).
  split_and!; try done; try congruence; try lia; [by apply V3|]. intros ->. lia.
Qed.

(** The first group hands over to a second one, which hands over to a third. *)
Module RotationExample.
Import QuorumInstances.

Definition hand_over (epoch : Z) : ManifestRotation :=
  let t := {| old_manifest_digest := match digest (sample_manifest epoch) with Ok d => d | Err _ => [] end;
              new_manifest := sample_manifest (epoch + 1); transition_request := replicate 32 x07;
              transition_issued := 10; transition_expires := 40 |} in
  let message := match transition_bytes t with Ok m => m | Err _ => [] end in
  {| transition := t; old_signature := toy_signature [x03; Zbyte epoch] message;
     new_signature := toy_signature [x03; Zbyte (epoch + 1)] message |}.

Lemma rotations_move_forward_witness :
  epoch (sample_manifest 3) = epoch (sample_manifest 1) + 2 /\ rotation_ok (sample_manifest 2) (hand_over 2) 25.
Proof.
  destruct (rotations_move_forward (sample_manifest 1) [(hand_over 1, 20)] (hand_over 2) 25 []
              (sample_manifest 2) (sample_manifest 3) (sample_manifest 3)) as (E & _ & _ & _ & _ & _ & H).
  - by vm_compute.
  - by vm_compute.
  - reflexivity.
  - split; [reflexivity|exact H].
Defined.

End RotationExample.
End Rotation.
