(* ===== verification/QuorumSudo.v ===== *)
(** * Privilege grants of the quorum (crates/ipars-quorum/src/sudo.rs)

    The policy that says who may become root where, the grant a host attests, the challenge
    the signing group approves and the redemption of the resulting token on the host. *)

From S2P Require Import Prelude RustStd Endpoints BTree Hashing Quorum QuorumInstances.

Module Sudo.
Import Quorum.

Definition SUDO_SCHEMA_VERSION : Z := 2.
Definition MAX_SUDO_TTL_SECS : Z := 60.
Definition MAX_POLICY_BYTES : Z := 1048576.

Record SudoIdentity : Type := {
  issuer : bytes;
  subject : bytes
}.

#[global] Instance SudoIdentity_eq_dec : EqDecision SudoIdentity.
Proof. solve_decision. Defined.

Record SudoHostPolicy : Type := {
  attestation_key_epoch : Z;
  attestation_public_key : bytes;
  callers : btree Z SudoIdentity
}.

Record SudoPolicy : Type := {
  policy_schema : Z;
  policy_manifest : Manifest;
  hosts : btree bytes SudoHostPolicy
}.

Record SudoGrant : Type := {
  grant_schema : Z;
  grant_cluster : bytes;
  host_node_id : bytes;
  caller_uid : Z;
  runas_uid : Z;
  grant_identity : SudoIdentity;
  grant_key_epoch : Z;
  grant_requester_key : bytes;
  manifest_epoch : Z;
  grant_manifest_digest : bytes;
  policy_digest : bytes;
  nonce : bytes;
  grant_issued : Z;
  grant_expires : Z
}.

Record SudoChallenge : Type := {
  grant : SudoGrant;
  host_signature : bytes
}.

Record SudoToken : Type := {
  challenge : SudoChallenge;
  sudo_signature : bytes
}.

Record SudoLocalInvocation : Type := {
  invocation_host : bytes;
  invocation_caller : Z;
  invocation_runas : Z;
  invocation_nonce : bytes;
  invocation_issued : Z;
  invocation_expires : Z
}.

Record VerifiedSudoGrant : Type := {
  verified_grant : SudoGrant;
  invocation : SudoLocalInvocation
}.

Definition POLICY_DOMAIN : bytes := Eval vm_compute in domain (bstr "heteronetwork-sudo-policy-v2").
Definition ATTESTATION_DOMAIN : bytes := Eval vm_compute in domain (bstr "heteronetwork-sudo-host-attestation-v2").
Definition GRANT_DOMAIN : bytes := Eval vm_compute in domain (bstr "heteronetwork-sudo-privilege-grant-v2").
Definition ROUND1_DOMAIN : bytes := Eval vm_compute in domain (bstr "heteronetwork-sudo-round1-pop-v2").
Definition ROUND2_DOMAIN : bytes := Eval vm_compute in domain (bstr "heteronetwork-sudo-round2-pop-v2").
Definition REDEMPTION_DOMAIN : bytes := Eval vm_compute in domain (bstr "heteronetwork-sudo-redemption-pop-v2").

Definition append (i : SudoIdentity) : bytes := field (issuer i) ++ field (subject i).

Definition lifetime (issued expires now : Z) : result unit Error :=
  if (now <? issued) || (expires <=? now) || (expires <=? issued) || (MAX_SUDO_TTL_SECS <? expires - issued)
  then Err Time else Ok tt.

(** A digest in lower-case hexadecimal. *)
Definition digest_shape (d : bytes) : bool :=
  (lenZ d =? 64) && forallb (fun b => is_ascii_digit b || byte_in 97 102 b) d.

Section Core.
Context {UO : UrlOps} {OO : @UrlOriginOps UO} {DO : DigestOps} {FO : FrostOps} {EO : EdOps}.

Definition validate_identity (i : SudoIdentity) : result unit Error :=
  if (2048 <? lenZ (issuer i)) || negb (starts_with (issuer i) (bstr "https://")) || has_whitespace (issuer i)
     || bool_decide (subject i = []) || (256 <? lenZ (subject i)) || has_control_char (subject i)
  then Err Claims
  else
    let? u := ok_or (url_parse (issuer i)) Claims in
    if bool_decide (url_scheme u <> bstr "https") || bool_decide (url_host u = None)
       || negb (bool_decide (url_username u = [])) || negb (bool_decide (url_password u = None))
       || negb (bool_decide (url_query u = None)) || negb (bool_decide (url_fragment u = None))
    then Err Claims else Ok tt.

Definition strong_key (key : bytes) : result EdKey Error :=
  let? k := ok_or (ed_key key) Key in
  if ed_weak k then Err Key else Ok k.

Definition verify_ed25519 (key message signature : bytes) : result unit Error :=
  let? k := map_err (fun _ => Proof) (strong_key key) in
  let? s := ok_or (ed_signature signature) Proof in
  if ed_verify_strict k message s then Ok tt else Err Proof.

(** The two loops of [canonical_bytes]: over the callers of a host, and over the hosts. *)
Fixpoint policy_callers (out : bytes) (l : list (Z * SudoIdentity)) : result bytes Error :=
  match l with
  | [] => Ok out
  | (uid, i) :: l =>
      if uid =? 0 then Err Claims
      else
        let? _ := validate_identity i in
        let out := out ++ be_bytes 4 uid ++ append i in
        if MAX_POLICY_BYTES <? lenZ out then Err Capacity else policy_callers out l
  end.

Fixpoint policy_hosts (m : Manifest) (out : bytes) (count : Z) (host_keys : gset bytes)
    (l : list (bytes * SudoHostPolicy)) : result bytes Error :=
  match l with
  | [] => Ok out
  | (node, host) :: l =>
      if negb (existsb (fun x => bool_decide (node_id x = node)) (members m)) || (attestation_key_epoch host =? 0)
         || bool_decide (callers host = []) || (256 <? lenZ (callers host))
      then Err BadManifest
      else
        let? _ := strong_key (attestation_public_key host) in
        if bool_decide (attestation_public_key host ∈ host_keys) then Err Key
        else
          let out := out ++ field node ++ be_bytes 8 (attestation_key_epoch host) ++ attestation_public_key host
                     ++ be_bytes 8 (lenZ (callers host)) in
          let count := count + lenZ (callers host) in
          if 4096 <? count then Err Capacity
          else
            let? out := policy_callers out (callers host) in
            policy_hosts m out count ({[ attestation_public_key host ]} ∪ host_keys) l
  end.

Definition canonical_bytes (p : SudoPolicy) : result bytes Error :=
  let? _ := validate_manifest (policy_manifest p) in
  if negb (policy_schema p =? SUDO_SCHEMA_VERSION) || bool_decide (hosts p = [])
     || (lenZ (members (policy_manifest p)) <? lenZ (hosts p))
  then Err BadManifest
  else
    let? d := digest (policy_manifest p) in
    policy_hosts (policy_manifest p) (POLICY_DOMAIN ++ be_bytes 4 (policy_schema p) ++ field d ++ be_bytes 8 (lenZ (hosts p)))
      0 ∅ (hosts p).

Definition policy_validate (p : SudoPolicy) : result unit Error :=
  let? _ := canonical_bytes p in Ok tt.

Definition policy_hash (p : SudoPolicy) : result bytes Error :=
  let? bs := canonical_bytes p in Ok (hex_digest bs).

Definition shape (g : SudoGrant) : result unit Error :=
  if negb (grant_schema g =? SUDO_SCHEMA_VERSION) || negb (valid_id (grant_cluster g)) || negb (valid_id (host_node_id g))
     || (caller_uid g =? 0) || negb (runas_uid g =? 0) || (grant_key_epoch g =? 0) || (manifest_epoch g =? 0)
     || bool_decide (nonce g = replicate 32 x00)
     || negb (digest_shape (grant_manifest_digest g)) || negb (digest_shape (policy_digest g))
  then Err Claims
  else
    let? _ := validate_identity (grant_identity g) in
    let? _ := strong_key (grant_requester_key g) in
    Ok tt.

Definition validate_grant (g : SudoGrant) (p : SudoPolicy) (now : Z) : result unit Error :=
  let? _ := shape g in
  let? d := policy_hash p in
  if bool_decide (policy_digest g <> d) || bool_decide (grant_cluster g <> cluster_id (policy_manifest p))
     || negb (manifest_epoch g =? epoch (policy_manifest p))
  then Err Claims
  else
    let? md := digest (policy_manifest p) in
    if bool_decide (grant_manifest_digest g <> md) then Err Claims
    else
      let? host := ok_or (bt_get (host_node_id g) (hosts p)) Claims in
      if negb (grant_key_epoch g =? attestation_key_epoch host)
         || bool_decide (bt_get (caller_uid g) (callers host) <> Some (grant_identity g))
      then Err Claims
      else lifetime (grant_issued g) (grant_expires g) now.

Definition attestation_bytes (g : SudoGrant) : result bytes Error :=
  let? _ := shape g in
  Ok (ATTESTATION_DOMAIN ++ be_bytes 4 (grant_schema g) ++ field (grant_cluster g) ++ field (host_node_id g)
      ++ be_bytes 4 (caller_uid g) ++ be_bytes 4 (runas_uid g) ++ append (grant_identity g)
      ++ be_bytes 8 (grant_key_epoch g) ++ grant_requester_key g ++ be_bytes 8 (manifest_epoch g)
      ++ field (grant_manifest_digest g) ++ field (policy_digest g) ++ nonce g ++ be_bytes 8 (grant_issued g)
      ++ be_bytes 8 (grant_expires g)).

Definition validate_challenge (c : SudoChallenge) (p : SudoPolicy) (now : Z) : result unit Error :=
  let? _ := validate_grant (grant c) p now in
  let? host := ok_or (bt_get (host_node_id (grant c)) (hosts p)) Claims in
  let? bs := attestation_bytes (grant c) in
  verify_ed25519 (attestation_public_key host) bs (host_signature c).

Definition challenge_bytes (c : SudoChallenge) : result bytes Error :=
  if negb (lenZ (host_signature c) =? 64) then Err Proof
  else
    let? bs := attestation_bytes (grant c) in
    Ok (GRANT_DOMAIN ++ field bs ++ field (host_signature c)).

Definition redemption_bytes (i : SudoLocalInvocation) (t : SudoToken) : result bytes Error :=
  if negb (valid_id (invocation_host i)) || (invocation_caller i =? 0) || negb (invocation_runas i =? 0)
     || bool_decide (invocation_nonce i = replicate 32 x00) || negb (lenZ (sudo_signature t) =? 64)
  then Err Claims
  else
    let? bs := challenge_bytes (challenge t) in
    Ok (REDEMPTION_DOMAIN ++ field bs ++ field (sudo_signature t) ++ field (invocation_host i)
        ++ be_bytes 4 (invocation_caller i) ++ be_bytes 4 (invocation_runas i) ++ invocation_nonce i
        ++ be_bytes 8 (invocation_issued i) ++ be_bytes 8 (invocation_expires i)).

Definition validate_verified_at (v : VerifiedSudoGrant) (now : Z) : result unit Error :=
  let? _ := lifetime (grant_issued (verified_grant v)) (grant_expires (verified_grant v)) now in
  lifetime (invocation_issued (invocation v)) (invocation_expires (invocation v)) now.

Definition verify_sudo_redemption (p : SudoPolicy) (t : SudoToken) (i : SudoLocalInvocation) (requester_proof : bytes)
    (now : Z) : result VerifiedSudoGrant Error :=
  let? _ := validate_challenge (challenge t) p now in
  let g := grant (challenge t) in
  if bool_decide (invocation_host i <> host_node_id g) || negb (invocation_caller i =? caller_uid g)
     || negb (invocation_runas i =? runas_uid g) || bool_decide (invocation_nonce i = nonce g)
     || (invocation_issued i <? grant_issued g) || (grant_expires g <? invocation_expires i)
  then Err Claims
  else
    let? _ := lifetime (invocation_issued i) (invocation_expires i) now in
    let? pop := redemption_bytes i t in
    let? _ := verify_ed25519 (grant_requester_key g) pop requester_proof in
    let? s := ok_or (frost_signature (sudo_signature t)) BadSignature in
    let? keys := public_keys (policy_manifest p) in
    let? message := challenge_bytes (challenge t) in
    if frost_verify (verifying_key keys) message s
    then Ok {| verified_grant := g; invocation := i |} else Err BadSignature.

(** ** What redemption accepts *)

Lemma lifetime_ok issued expires now : lifetime issued expires now = Ok tt <-> live MAX_SUDO_TTL_SECS issued expires now.
Proof. unfold lifetime, live. rewrite guard_ok. split; [|intros; split; [|done]]; lia. Qed.

Lemma strong_key_ok key k : strong_key key = Ok k <-> ed_key key = Some k /\ ed_weak k = false.
Proof. unfold strong_key. rewrite bind_ok. setoid_rewrite guard_ok. setoid_rewrite ok_or_ok. naive_solver. Qed.

Lemma verify_ed25519_ok key message signature :
  verify_ed25519 key message signature = Ok tt <-> ed_signed key message signature.
Proof.
  unfold verify_ed25519, ed_signed. rewrite bind_ok. setoid_rewrite map_err_ok. setoid_rewrite strong_key_ok.
  setoid_rewrite bind_ok. setoid_rewrite ok_or_ok. setoid_rewrite check_ok. naive_solver.
Qed.

(** The identities OpenID Connect may give: an HTTPS issuer without credentials, query or
    fragment, and a printable subject. *)
Record identity_ok (i : SudoIdentity) : Prop := {
  io_issuer : lenZ (issuer i) <= 2048 /\ starts_with (issuer i) (bstr "https://") = true /\ has_whitespace (issuer i) = false;
  io_subject : subject i <> [] /\ lenZ (subject i) <= 256 /\ has_control_char (subject i) = false;
  io_url : exists u, url_parse (issuer i) = Some u /\ url_scheme u = bstr "https" /\ url_host u <> None /\
    url_username u = [] /\ url_password u = None /\ url_query u = None /\ url_fragment u = None
}.

Lemma validate_identity_ok i : validate_identity i = Ok tt <-> identity_ok i.
Proof.
  unfold validate_identity. split.
  - intros [H1 (u & Hu%ok_or_ok & [H2 _]%guard_ok)%bind_ok]%guard_ok. bool_to_prop.
    split; [done..|]. exists u. split_and!; try done. by apply dec_stable.
  - intros [(H1 & H2 & H3) (H4 & H5 & H6) (u & Hu & H7 & H8 & H9 & H10 & H11 & H12)].
    rewrite H2, H3, H6, Hu. cbn [ok_or]. rewrite H7, H9, H10, H11, H12. rewrite !bool_decide_eq_false_2 by tauto.
    cbn [negb orb]. by skip_guards.
Qed.

Record shape_ok (g : SudoGrant) : Prop := {
  so_schema : grant_schema g = SUDO_SCHEMA_VERSION;
  so_ids : valid_id (grant_cluster g) = true /\ valid_id (host_node_id g) = true;
  so_caller : caller_uid g <> 0;
  so_runas : runas_uid g = 0;
  so_epochs : grant_key_epoch g <> 0 /\ manifest_epoch g <> 0;
  so_nonce : nonce g <> replicate 32 x00;
  so_digests : digest_shape (grant_manifest_digest g) = true /\ digest_shape (policy_digest g) = true;
  so_identity : identity_ok (grant_identity g);
  so_key : exists k, ed_key (grant_requester_key g) = Some k /\ ed_weak k = false
}.

Lemma shape_iff g : shape g = Ok tt <-> shape_ok g.
Proof.
  unfold shape. split.
  - intros [H1 ([] & H2%validate_identity_ok & (k & H3%strong_key_ok & _)%bind_ok)%bind_ok]%guard_ok. bool_to_prop.
    split; by eauto.
  - intros [H1 [H2 H2'] H3 H4 [H5 H5'] H6 [H7 H7'] H8%validate_identity_ok [k H9%strong_key_ok]].
    rewrite H2, H2', H4, H7, H7', H8, H9, H1. rewrite bool_decide_eq_false_2 by done. unfold SUDO_SCHEMA_VERSION.
    by skip_guards.
Qed.

(** A grant under a policy at a host it lists. *)
Record grant_ok (g : SudoGrant) (p : SudoPolicy) (h : SudoHostPolicy) (now : Z) : Prop := {
  go_shape : shape_ok g;
  go_policy : policy_hash p = Ok (policy_digest g);
  go_cluster : grant_cluster g = cluster_id (policy_manifest p);
  go_epoch : manifest_epoch g = epoch (policy_manifest p);
  go_manifest : digest (policy_manifest p) = Ok (grant_manifest_digest g);
  go_host : bt_get (host_node_id g) (hosts p) = Some h;
  go_key_epoch : grant_key_epoch g = attestation_key_epoch h;
  go_caller : bt_get (caller_uid g) (callers h) = Some (grant_identity g);
  go_live : live MAX_SUDO_TTL_SECS (grant_issued g) (grant_expires g) now
}.

Lemma validate_grant_ok g p now : validate_grant g p now = Ok tt <-> exists h, grant_ok g p h now.
Proof.
  unfold validate_grant. split.
  - intros ([] & H1%shape_iff & (d & H2 & [H3 (md & H4 & [H5 (h & H6%ok_or_ok & [H7 H8%lifetime_ok]%guard_ok)%bind_ok]%guard_ok)%bind_ok]%guard_ok)%bind_ok)%bind_ok.
    bool_to_prop. exists h. split; try done; try by apply dec_stable.
    + rewrite H2. f_equal. symmetry. by apply dec_stable.
    + rewrite H4. f_equal. symmetry. by apply dec_stable.
  - intros (h & [H1%shape_iff H2 H3 H4 H5 H6 H7 H8 H9%lifetime_ok]).
    rewrite H1, H2, H3, H4, H5, H6. cbn [ok_or]. rewrite H7, H8, !Z.eqb_refl. rewrite !bool_decide_eq_false_2 by tauto.
    done.
Qed.

Lemma validate_challenge_ok c p now :
  validate_challenge c p now = Ok tt <->
  exists h bs, grant_ok (grant c) p h now /\ attestation_bytes (grant c) = Ok bs /\
    ed_signed (attestation_public_key h) bs (host_signature c).
Proof.
  unfold validate_challenge. split.
  - intros ([] & (h & H1)%validate_grant_ok & (h' & H2%ok_or_ok & (bs & H3 & H4%verify_ed25519_ok)%bind_ok)%bind_ok)%bind_ok.
    rewrite (go_host _ _ _ _ H1) in H2. simplify_eq. eauto.
  - intros (h & bs & H1 & H2 & H3%verify_ed25519_ok).
    assert (H4 : validate_grant (grant c) p now = Ok tt) by (apply validate_grant_ok; eauto).
    by rewrite H4, (go_host _ _ _ _ H1), H2.
Qed.

(** What a redemption attests: the grant under the policy, the three signatures and an
    invocation within the grant. *)
Record redemption_ok (p : SudoPolicy) (t : SudoToken) (i : SudoLocalInvocation) (proof : bytes) (now : Z) : Prop := {
  re_host : exists h bs, grant_ok (grant (challenge t)) p h now /\ attestation_bytes (grant (challenge t)) = Ok bs /\
    ed_signed (attestation_public_key h) bs (host_signature (challenge t));
  re_group : exists message, challenge_bytes (challenge t) = Ok message /\
    group_signed (policy_manifest p) message (sudo_signature t);
  re_requester : exists pop, redemption_bytes i t = Ok pop /\
    ed_signed (grant_requester_key (grant (challenge t))) pop proof;
  re_same : invocation_host i = host_node_id (grant (challenge t)) /\
    invocation_caller i = caller_uid (grant (challenge t)) /\ invocation_runas i = runas_uid (grant (challenge t));
  re_nonce : invocation_nonce i <> nonce (grant (challenge t));
  re_within : grant_issued (grant (challenge t)) <= invocation_issued i /\
    invocation_expires i <= grant_expires (grant (challenge t));
  re_live : live MAX_SUDO_TTL_SECS (invocation_issued i) (invocation_expires i) now
}.

Lemma verify_sudo_redemption_ok p t i proof now v :
  verify_sudo_redemption p t i proof now = Ok v <->
  v = {| verified_grant := grant (challenge t); invocation := i |} /\ redemption_ok p t i proof now.
Proof.
  unfold verify_sudo_redemption. split.
  - intros ([] & H1%validate_challenge_ok & [H2 ([] & H3%lifetime_ok & (pop & H4 & ([] & H5%verify_ed25519_ok &
      (s & H6%ok_or_ok & (keys & H7 & (message & H8 & H9)%bind_ok)%bind_ok)%bind_ok)%bind_ok)%bind_ok)%bind_ok]%guard_ok)%bind_ok.
    destruct (frost_verify _ _ _) eqn:Ev; [|done]. apply Ok_inj in H9 as <-. bool_to_prop. split; [done|].
    split; try done; [by exists message; split; [|exists keys, s]|by exists pop|].
    split_and!; try done. by apply dec_stable.
  - intros (-> & [H1%validate_challenge_ok (message & H2 & keys & s & H3 & H4 & H5) (pop & H6 & H7%verify_ed25519_ok)
      (H8 & H9 & H10) H11 [H12 H13] H14%lifetime_ok]).
    rewrite H1, H8, H9, H10, !Z.eqb_refl, !bool_decide_eq_false_2 by tauto. cbn [negb orb]. skip_guards.
    rewrite H14, H6, H7, H4, H3, H2. cbn [ok_or]. by rewrite H5.
Qed.

(** ** Unique reading of grants and policies *)

Record grant_typed (g : SudoGrant) : Prop := {
  gt_schema : is_u32 (grant_schema g);
  gt_uids : is_u32 (caller_uid g) /\ is_u32 (runas_uid g);
  gt_epochs : is_u64 (grant_key_epoch g) /\ is_u64 (manifest_epoch g);
  gt_key : length (grant_requester_key g) = 32%nat;
  gt_nonce : length (nonce g) = 32%nat;
  gt_times : is_u64 (grant_issued g) /\ is_u64 (grant_expires g)
}.

Lemma append_readable : readable identity_ok append.
Proof.
  intros a b x y [(Ha & _) (_ & Ha' & _) _] [(Hb & _) (_ & Hb' & _) _] H. unfold append in H. rewrite <- !app_assoc in H.
  apply field_app_inj in H as [E1 H]; [|unfold fits; lia..]. apply field_app_inj in H as [E2 H]; [|unfold fits; lia..].
  destruct a, b; simpl in *; by subst.
Qed.

Lemma digest_shape_fits d : digest_shape d = true -> fits d.
Proof. unfold digest_shape, fits. intros. bool_to_prop. lia. Qed.

Lemma attestation_bytes_inj g h bs : grant_typed g -> grant_typed h ->
  attestation_bytes g = Ok bs -> attestation_bytes h = Ok bs -> g = h.
Proof.
  intros [] [] ([] & []%shape_iff & E%Ok_inj)%bind_ok ([] & []%shape_iff & H%Ok_inj)%bind_ok. rewrite <- E in H.
  clear E. destruct_and!.
  repeat match goal with H : valid_id _ = true |- _ => apply valid_id_fits in H
                       | H : digest_shape _ = true |- _ => apply digest_shape_fits in H end.
  apply app_inv_head in H. do 5 read_field. apply append_readable in H as [? H]; [|done..]. repeat read_field.
  destruct g, h; cbn in *. subst. done.
Qed.

(** The bytes of a caller and of a host in the policy. *)
Definition caller_bytes (c : Z * SudoIdentity) : bytes := be_bytes 4 c.1 ++ append c.2.

Definition host_bytes (h : bytes * SudoHostPolicy) : bytes :=
  field h.1 ++ be_bytes 8 (attestation_key_epoch h.2) ++ attestation_public_key h.2
  ++ be_bytes 8 (lenZ (callers h.2)) ++ concat (map caller_bytes (callers h.2)).

Record host_typed (h : bytes * SudoHostPolicy) : Prop := {
  ht_node : fits h.1;
  ht_epoch : is_u64 (attestation_key_epoch h.2);
  ht_key : length (attestation_public_key h.2) = 32%nat;
  ht_uids : Forall (fun c => is_u32 c.1) (callers h.2)
}.

Record policy_typed (p : SudoPolicy) : Prop := {
  pt_schema : is_u32 (policy_schema p);
  pt_hosts : Forall host_typed (hosts p)
}.

Definition callers_ok (h : SudoHostPolicy) : Prop :=
  lenZ (callers h) <= 256 /\ Forall (fun c => c.1 <> 0 /\ identity_ok c.2) (callers h).

Lemma policy_callers_ok out l bs : policy_callers out l = Ok bs ->
  bs = out ++ concat (map caller_bytes l) /\ Forall (fun c => c.1 <> 0 /\ identity_ok c.2) l.
Proof.
  revert out. induction l as [|[uid i] l IH]; intros out; cbn [policy_callers].
  { intros [= <-]. simpl. by rewrite app_nil_r. }
  intros [H1 ([] & H2%validate_identity_ok & [H3 [-> H4]%IH]%guard_ok)%bind_ok]%guard_ok.
  split; [unfold caller_bytes; cbn [map concat fst snd]; by rewrite <- !app_assoc|]. constructor; [|done]. split; [simpl; lia|done].
Qed.

Lemma policy_hosts_ok m out count keys l bs : policy_hosts m out count keys l = Ok bs ->
  bs = out ++ concat (map host_bytes l) /\ Forall (fun h => callers_ok h.2) l.
Proof.
  revert out count keys. induction l as [|[node h] l IH]; intros out count keys; cbn [policy_hosts].
  { intros [= <-]. simpl. by rewrite app_nil_r. }
  intros [H1 (k & _ & [_ [_ (out' & [-> H2]%policy_callers_ok & [-> H3]%IH)%bind_ok]%guard_ok]%guard_ok)%bind_ok]%guard_ok.
  bool_to_prop. split; [unfold host_bytes; cbn [map concat fst snd]; by rewrite <- !app_assoc|]. constructor; [by split|done].
Qed.

Lemma caller_readable : readable (fun c => is_u32 c.1 /\ identity_ok c.2) caller_bytes.
Proof.
  intros [u i] [v j] x y [Hu Hi] [Hv Hj] H. unfold caller_bytes in H. cbn [fst snd] in *. rewrite <- !app_assoc in H.
  read_field. apply append_readable in H as [-> ->]; [|done..]. by subst.
Qed.

Lemma host_readable : readable (fun h => host_typed h /\ callers_ok h.2) host_bytes.
Proof.
  intros [n h] [n' h'] x y [[Hn He Hk Hu] [Hc Hi]] [[Hn' He' Hk' Hu'] [Hc' Hi']] H. unfold host_bytes in H. cbn [fst snd] in *.
  rewrite <- !app_assoc in H. do 3 read_field. apply be_app_inj in H as [Hl H]; [|lia..].
  assert (J : forall l, Forall (fun c => is_u32 c.1) l -> Forall (fun c => c.1 <> 0 /\ identity_ok c.2) l ->
    Forall (fun c => is_u32 c.1 /\ identity_ok c.2) l).
  { intros l. rewrite !Forall_forall. naive_solver. }
  apply (readable_list _ _ caller_readable) in H as [Ec ->]; [|auto; lia..].
  destruct h, h'; simpl in *. by subst.
Qed.

Lemma hex_digest_fits bs : fits (hex_digest bs).
Proof. unfold fits, hex_digest. by rewrite Hashing.concat_hex_length, sha256_length. Qed.

Lemma digest_fits m d : digest m = Ok d -> fits d.
Proof.
  intros (u & _ & (keys & _ & (canonical & _ & <-%Ok_inj)%bind_ok)%bind_ok)%bind_ok. apply hex_digest_fits.
Qed.

(** The bytes under a policy's digest determine the policy, its manifest by its digest. *)
Lemma canonical_bytes_inj p q bs : policy_typed p -> policy_typed q ->
  canonical_bytes p = Ok bs -> canonical_bytes q = Ok bs ->
  policy_schema p = policy_schema q /\ hosts p = hosts q /\ digest (policy_manifest p) = digest (policy_manifest q).
Proof.
  unfold canonical_bytes.
  intros [Hs Ht] [Hs' Ht'] ([] & V & [H1 (d & Hd & [-> Hc]%policy_hosts_ok)%bind_ok]%guard_ok)%bind_ok
    ([] & V' & [H1' (d' & Hd' & [H Hc']%policy_hosts_ok)%bind_ok]%guard_ok)%bind_ok. bool_to_prop.
  apply validate_manifest_ok in V as (? & ? & []), V' as (? & ? & []).
  rewrite <- !app_assoc in H. apply app_inv_head in H. read_field.
  apply field_app_inj in H as [-> H]; [|by eapply digest_fits..]. apply be_app_inj in H as [Hl H]; [|lia..].
  rewrite <- (app_nil_r (concat _)) in H. rewrite <- (app_nil_r (concat (map _ (hosts q)))) in H.
  assert (J : forall l, Forall host_typed l -> Forall (fun h : bytes * SudoHostPolicy => callers_ok h.2) l ->
    Forall (fun h => host_typed h /\ callers_ok h.2) l).
  { intros l. rewrite !Forall_forall. naive_solver. }
  apply (readable_list _ _ host_readable) in H as [E _]; [|auto; lia..]. split_and!; congruence.
Qed.

End Core.

(** A token is redeemed exactly when: the grant is well formed (never for root, always
    to root), was made under this very policy and manifest, for a host the policy lists and
    the identity it assigns to that user on that host; the host's pinned key attested it,
    the signing group approved the attested challenge and the requester's key signed this
    invocation; the invocation is for the same host and users, uses a nonce of its own, and
    both it and the grant around it are live and last at most a minute. *)
Theorem redemption_verified_iff {UO : UrlOps} {OO : @UrlOriginOps UO} {DO : DigestOps} {FO : FrostOps} {EO : EdOps}
    p t i proof now v :
  verify_sudo_redemption p t i proof now = Ok v <->
  v = {| verified_grant := grant (challenge t); invocation := i |} /\ redemption_ok p t i proof now.
Proof. apply verify_sudo_redemption_ok. Qed.

End Sudo.
