(* ===== verification/QuorumEngine.v ===== *)
(** * The signer of a frozen group (crates/ipars-quorum: SignerEngine)

    One signer takes part in the two rounds of the threshold scheme for capabilities
    (lib.rs), rotations (rotation.rs) and privilege grants (sudo.rs). It keeps the nonces of
    a bounded number of sessions. The operating system's random numbers are arguments. *)

From S2P Require Import Prelude RustStd Endpoints BTree Hashing Quorum QuorumInstances QuorumRotation QuorumSudo.

Module Engine.
Import Quorum.
Import Rotation.
Import Sudo.

Section Core.
Context {UO : UrlOps} {OO : @UrlOriginOps UO} {DO : DigestOps} {FO : FrostOps} {EO : EdOps}.

Record Round1Response : Type := {
  response_session : bytes;
  response_identifier : Z;
  response_commitments : SigningCommitments
}.

Record Pending : Type := {
  message : bytes;
  created_at : Z;
  pending_expires : Z;
  nonces : SigningNonces;
  commitments : SigningCommitments
}.

Record SignerEngine : Type := {
  manifest : Manifest;
  key : KeyPackage;
  engine_identifier : Z;
  max_pending : Z;
  pending_ttl_secs : Z;
  pending : btree bytes Pending
}.

Definition set_pending (e : SignerEngine) (p : btree bytes Pending) : SignerEngine := {|
  manifest := manifest e; key := key e; engine_identifier := engine_identifier e; max_pending := max_pending e;
  pending_ttl_secs := pending_ttl_secs e; pending := p |}.

(** What the operating system answers: 32 bytes for the session unless it fails, and the
    randomness of the commitment. *)
Record Draw : Type := {
  session_draw : option bytes;
  commit_draw : bytes
}.

Record SudoRound1Request : Type := {
  round1_identifier : Z;
  round1_challenge : SudoChallenge;
  round1_proof : bytes
}.

Record SudoRound2Request : Type := {
  round2_identifier : Z;
  round2_session : bytes;
  round2_challenge : SudoChallenge;
  round2_package : SigningPackage;
  round2_proof : bytes
}.

Definition round1_bytes (r : SudoRound1Request) : result bytes Error :=
  let? bs := challenge_bytes (round1_challenge r) in
  Ok (ROUND1_DOMAIN ++ be_bytes 2 (round1_identifier r) ++ field bs).

Definition round2_bytes (r : SudoRound2Request) : result bytes Error :=
  if (1024 <? Z.of_nat (size (signing_commitments (round2_package r)))) || (8192 <? lenZ (signing_message (round2_package r)))
  then Err Package
  else
    let? bs := challenge_bytes (round2_challenge r) in
    let? package := ok_or (signing_package_serialize (round2_package r)) Package in
    Ok (ROUND2_DOMAIN ++ be_bytes 2 (round2_identifier r) ++ round2_session r ++ field bs ++ field package).

Definition new (m : Manifest) (node : bytes) (key_package : KeyPackage) (max ttl : Z) : result SignerEngine Error :=
  let? _ := validate_manifest m in
  if negb ((1 <=? max) && (max <=? 1024)) || negb ((1 <=? ttl) && (ttl <=? 300)) then Err Capacity
  else
    let? member := ok_or (find (fun x => bool_decide (node_id x = node)) (members m)) Key in
    let? id := ok_or (identifier_try_from (identifier member)) Key in
    let? public := public_keys m in
    if bool_decide (key_identifier key_package <> id) || negb (key_min_signers key_package =? threshold m)
       || bool_decide (key_verifying_key key_package <> verifying_key public)
       || bool_decide (verifying_shares public !! id <> Some (key_verifying_share key_package))
       || bool_decide (share_public (key_signing_share key_package) <> key_verifying_share key_package)
    then Err Key
    else Ok {| manifest := m; key := key_package; engine_identifier := identifier member; max_pending := max;
               pending_ttl_secs := ttl; pending := [] |}.

(** [self.pending.retain(..)]: sessions outside their window are forgotten. *)
Definition retain (e : SignerEngine) (now : Z) : SignerEngine :=
  set_pending e (bt_retain (fun _ p => (created_at p <=? now) && (now <? pending_expires p)) (pending e)).

Definition allocate_pending (e : SignerEngine) (msg : bytes) (expires now : Z) (d : Draw)
  : SignerEngine * result Round1Response Error :=
  let e := retain e now in
  if max_pending e <=? lenZ (pending e) then (e, Err Capacity)
  else
    match session_draw d with
    | None => (e, Err Random)
    | Some sid =>
        if bool_decide (sid = replicate 32 x00) || negb (bool_decide (bt_get sid (pending e) = None))
        then (e, Err Random)
        else
          let '(ns, cs) := frost_commit (key_signing_share (key e)) (commit_draw d) in
          (set_pending e (bt_insert sid
             {| message := msg; created_at := now;
                pending_expires := Z.min (saturating_add 64 now (pending_ttl_secs e)) expires;
                nonces := ns; commitments := cs |} (pending e)),
           Ok {| response_session := sid; response_identifier := engine_identifier e; response_commitments := cs |})
    end.

(** A share is given for the approved message and a package of a majority of members that
    carries this signer's commitments. *)
Definition sign_pending (e : SignerEngine) (p : Pending) (msg : bytes) (package : SigningPackage) (now : Z)
  : result SignatureShare Error :=
  if (now <? created_at p) || (pending_expires p <=? now) then Err Time
  else
    let cs := signing_commitments package in
    let? public := public_keys (manifest e) in
    if bool_decide (message p <> msg) || bool_decide (signing_message package <> msg)
       || (Z.of_nat (size cs) <? threshold (manifest e)) || (lenZ (members (manifest e)) <? Z.of_nat (size cs))
       || negb (bool_decide (map_Forall (fun id _ => is_Some (verifying_shares public !! id)) cs))
       || bool_decide (cs !! key_identifier (key e) <> Some (commitments p))
    then Err Package
    else ok_or (frost_sign package (nonces p) (key e)) Package.

(** [self.pending.remove(..).ok_or(Error::Session)?] before anything else: the session is
    consumed whatever follows. *)
Definition consume (e : SignerEngine) (sid : bytes) (k : SignerEngine -> Pending -> result SignatureShare Error)
  : SignerEngine * result SignatureShare Error :=
  match bt_get sid (pending e) with
  | None => (e, Err Session)
  | Some p => let e := set_pending e (bt_remove sid (pending e)) in (e, k e p)
  end.

Definition round1 (e : SignerEngine) (c : CapabilityClaims) (proof : RequestProof) (now : Z) (d : Draw)
  : SignerEngine * result Round1Response Error :=
  let e := retain e now in
  let! e, _ := (e, validate_claims c (manifest e) now) in
  let! e, _ := (e, verify_proof proof c) in
  allocate_pending e (signing_bytes c) (expires_at c) now d.

Definition round2 (e : SignerEngine) (sid : bytes) (c : CapabilityClaims) (package : SigningPackage) (now : Z)
  : SignerEngine * result SignatureShare Error :=
  consume e sid (fun e p =>
    if (now <? created_at p) || (pending_expires p <=? now) then Err Time
    else
      let? _ := validate_claims c (manifest e) now in
      sign_pending e p (signing_bytes c) package now).

Definition validate_rotation_group (e : SignerEngine) (old : Manifest) (t : ManifestTransition) (now : Z)
  : result unit Error :=
  let? _ := validate_transition t old now in
  let? d := digest (manifest e) in
  if bool_decide (d <> old_manifest_digest t) then
    let? nd := digest (new_manifest t) in
    if bool_decide (d <> nd) then Err BadManifest else Ok tt
  else Ok tt.

Definition round1_rotation (e : SignerEngine) (old : Manifest) (t : ManifestTransition) (now : Z) (d : Draw)
  : SignerEngine * result Round1Response Error :=
  let! e, _ := (e, validate_rotation_group e old t now) in
  let! e, msg := (e, transition_bytes t) in
  allocate_pending e msg (transition_expires t) now d.

Definition round2_rotation (e : SignerEngine) (sid : bytes) (old : Manifest) (t : ManifestTransition)
    (package : SigningPackage) (now : Z) : SignerEngine * result SignatureShare Error :=
  consume e sid (fun e p =>
    let? _ := validate_rotation_group e old t now in
    let? msg := transition_bytes t in
    sign_pending e p msg package now).

Definition validate_sudo_identity (e : SignerEngine) (p : SudoPolicy) (authenticated : SudoIdentity)
    (c : SudoChallenge) (now : Z) : result unit Error :=
  let? d := digest (manifest e) in
  let? pd := digest (policy_manifest p) in
  if bool_decide (d <> pd) then Err BadManifest
  else
    let? _ := validate_challenge c p now in
    if bool_decide (authenticated <> grant_identity (grant c)) then Err Proof else Ok tt.

Definition round1_sudo (e : SignerEngine) (p : SudoPolicy) (authenticated : SudoIdentity) (r : SudoRound1Request)
    (now : Z) (d : Draw) : SignerEngine * result Round1Response Error :=
  let! e, _ := (e, validate_sudo_identity e p authenticated (round1_challenge r) now) in
  if negb (round1_identifier r =? engine_identifier e) then (e, Err Proof)
  else
    let! e, pop := (e, round1_bytes r) in
    let! e, _ := (e, verify_ed25519 (grant_requester_key (grant (round1_challenge r))) pop (round1_proof r)) in
    let! e, msg := (e, challenge_bytes (round1_challenge r)) in
    allocate_pending e msg (grant_expires (grant (round1_challenge r))) now d.

Definition round2_sudo (e : SignerEngine) (p : SudoPolicy) (authenticated : SudoIdentity) (r : SudoRound2Request)
    (now : Z) : SignerEngine * result SignatureShare Error :=
  consume e (round2_session r) (fun e pend =>
    let? _ := validate_sudo_identity e p authenticated (round2_challenge r) now in
    if negb (round2_identifier r =? engine_identifier e) then Err Proof
    else
      let? pop := round2_bytes r in
      let? _ := verify_ed25519 (grant_requester_key (grant (round2_challenge r))) pop (round2_proof r) in
      let? msg := challenge_bytes (round2_challenge r) in
      sign_pending e pend msg (round2_package r) now).

(** ** Requests to a signer *)

Inductive Request : Type :=
  | Round1 (c : CapabilityClaims) (proof : RequestProof) (now : Z) (d : Draw)
  | Round2 (sid : bytes) (c : CapabilityClaims) (package : SigningPackage) (now : Z)
  | Round1Rotation (old : Manifest) (t : ManifestTransition) (now : Z) (d : Draw)
  | Round2Rotation (sid : bytes) (old : Manifest) (t : ManifestTransition) (package : SigningPackage) (now : Z)
  | Round1Sudo (p : SudoPolicy) (authenticated : SudoIdentity) (r : SudoRound1Request) (now : Z) (d : Draw)
  | Round2Sudo (p : SudoPolicy) (authenticated : SudoIdentity) (r : SudoRound2Request) (now : Z).

Inductive Answer : Type :=
  | Committed (r : Round1Response)
  | Share (s : SignatureShare).

Definition map_ok {A B E} (f : A -> B) (r : result A E) : result B E :=
  match r with Ok a => Ok (f a) | Err e => Err e end.

Definition committed (x : SignerEngine * result Round1Response Error) : SignerEngine * result Answer Error :=
  (x.1, map_ok Committed x.2).

Definition shared (x : SignerEngine * result SignatureShare Error) : SignerEngine * result Answer Error :=
  (x.1, map_ok Share x.2).

Definition handle (e : SignerEngine) (r : Request) : SignerEngine * result Answer Error :=
  match r with
  | Round1 c proof now d => committed (round1 e c proof now d)
  | Round2 sid c package now => shared (round2 e sid c package now)
  | Round1Rotation old t now d => committed (round1_rotation e old t now d)
  | Round2Rotation sid old t package now => shared (round2_rotation e sid old t package now)
  | Round1Sudo p a r now d => committed (round1_sudo e p a r now d)
  | Round2Sudo p a r now => shared (round2_sudo e p a r now)
  end.

(** Requests one after the other, with the answers. *)
Inductive steps (e : SignerEngine) : list (Request * result Answer Error) -> SignerEngine -> Prop :=
  | steps_nil : steps e [] e
  | steps_snoc h e1 r e2 a : steps e h e1 -> handle e1 r = (e2, a) -> steps e (h ++ [(r, a)]) e2.

(** What a request asks the group to approve. *)
Inductive Approval : Type :=
  | Mutation (c : CapabilityClaims)
  | Transition (old : Manifest) (t : ManifestTransition)
  | Privilege (p : SudoPolicy) (authenticated : SudoIdentity) (c : SudoChallenge).

Definition request_approval (r : Request) : Approval :=
  match r with
  | Round1 c _ _ _ | Round2 _ c _ _ => Mutation c
  | Round1Rotation old t _ _ | Round2Rotation _ old t _ _ => Transition old t
  | Round1Sudo p a r _ _ => Privilege p a (round1_challenge r)
  | Round2Sudo p a r _ => Privilege p a (round2_challenge r)
  end.

Definition request_now (r : Request) : Z :=
  match r with
  | Round1 _ _ now _ | Round2 _ _ _ now | Round1Rotation _ _ now _ | Round2Rotation _ _ _ _ now
  | Round1Sudo _ _ _ now _ | Round2Sudo _ _ _ now => now
  end.

(** First-round requests carry a draw; second-round requests a session and a package. *)
Definition request_draw (r : Request) : option Draw :=
  match r with
  | Round1 _ _ _ d | Round1Rotation _ _ _ d | Round1Sudo _ _ _ _ d => Some d
  | _ => None
  end.

Definition request_round2 (r : Request) : option (bytes * SigningPackage) :=
  match r with
  | Round2 sid _ package _ | Round2Rotation sid _ _ package _ => Some (sid, package)
  | Round2Sudo _ _ r _ => Some (round2_session r, round2_package r)
  | _ => None
  end.

Definition approval_message (a : Approval) : result bytes Error :=
  match a with
  | Mutation c => Ok (signing_bytes c)
  | Transition _ t => transition_bytes t
  | Privilege _ _ c => challenge_bytes c
  end.

Definition approval_expiry (a : Approval) : Z :=
  match a with
  | Mutation c => expires_at c
  | Transition _ t => transition_expires t
  | Privilege _ _ c => grant_expires (grant c)
  end.

(** The checks of the approval itself, and those of the one who asks for it. *)
Definition approved (e : SignerEngine) (a : Approval) (now : Z) : result unit Error :=
  match a with
  | Mutation c => validate_claims c (manifest e) now
  | Transition old t => validate_rotation_group e old t now
  | Privilege p authenticated c => validate_sudo_identity e p authenticated c now
  end.

Definition possession (e : SignerEngine) (r : Request) : Prop :=
  match r with
  | Round1 c proof _ _ => verify_proof proof c = Ok tt
  | Round1Sudo _ _ r _ _ => round1_identifier r = engine_identifier e /\ exists pop, round1_bytes r = Ok pop /\
      ed_signed (grant_requester_key (grant (round1_challenge r))) pop (round1_proof r)
  | Round2Sudo _ _ r _ => round2_identifier r = engine_identifier e /\ exists pop, round2_bytes r = Ok pop /\
      ed_signed (grant_requester_key (grant (round2_challenge r))) pop (round2_proof r)
  | _ => True
  end.

(** Everything of a signer but its sessions. *)
Definition same_signer (e e' : SignerEngine) : Prop := e' = set_pending e (pending e').

(** The session that a first-round request opens. *)
Definition opened (e : SignerEngine) (r : Request) (sid : bytes) (p : Pending) : Prop :=
  approved e (request_approval r) (request_now r) = Ok tt /\ possession e r /\
  approval_message (request_approval r) = Ok (message p) /\ created_at p = request_now r /\
  pending_expires p = Z.min (saturating_add 64 (request_now r) (pending_ttl_secs e)) (approval_expiry (request_approval r)) /\
  exists d, request_draw r = Some d /\ session_draw d = Some sid /\
    (nonces p, commitments p) = frost_commit (key_signing_share (key e)) (commit_draw d).

(** A signing package of a majority of the members with this signer's commitments. *)
Definition majority (e : SignerEngine) (package : SigningPackage) (cs : SigningCommitments) : Prop :=
  threshold (manifest e) <= Z.of_nat (size (signing_commitments package)) <= lenZ (members (manifest e)) /\
  (exists public, public_keys (manifest e) = Ok public /\
    map_Forall (fun id _ => is_Some (verifying_shares public !! id)) (signing_commitments package)) /\
  signing_commitments package !! key_identifier (key e) = Some cs.

Lemma sign_pending_ok e p msg package now s :
  sign_pending e p msg package now = Ok s <->
  created_at p <= now < pending_expires p /\ message p = msg /\ signing_message package = msg /\
  majority e package (commitments p) /\ frost_sign package (nonces p) (key e) = Some s.
Proof.
  unfold sign_pending, majority. cbv zeta. split.
  - intros [H1 (public & H2 & [H3 H4%ok_or_ok]%guard_ok)%bind_ok]%guard_ok. bool_to_prop.
    split_and!; try done; try lia; try by apply dec_stable. by exists public.
  - intros (H1 & H2 & H3 & (H4 & (public & H5 & H6) & H7) & H8). subst msg.
    rewrite H5, H3, H7, H8, !(bool_decide_eq_false_2 (_ <> _)) by tauto. rewrite bool_decide_eq_true_2 by done.
    cbn [negb orb ok_or]. by skip_guards.
Qed.

(** ** One request *)

Lemma set_set e p q : set_pending (set_pending e p) q = set_pending e q.
Proof. done. Qed.

Lemma retain_retain e now : retain (retain e now) now = retain e now.
Proof.
  unfold retain. rewrite set_set. f_equal. cbn [pending set_pending]. unfold bt_retain.
  induction (pending e) as [|kv l IH]; simpl; [done|]. destruct (_ && _)%bool eqn:E; simpl; [by rewrite E, IH|done].
Qed.

Lemma allocate_pending_ok e msg expires now d e' c :
  allocate_pending e msg expires now d = (e', Ok c) <->
  exists p, message p = msg /\ created_at p = now /\
    pending_expires p = Z.min (saturating_add 64 now (pending_ttl_secs e)) expires /\
    (nonces p, commitments p) = frost_commit (key_signing_share (key e)) (commit_draw d) /\
    session_draw d = Some (response_session c) /\ response_session c <> replicate 32 x00 /\
    response_identifier c = engine_identifier e /\ response_commitments c = commitments p /\
    lenZ (pending (retain e now)) < max_pending e /\
    bt_get (response_session c) (pending (retain e now)) = None /\
    e' = set_pending e (bt_insert (response_session c) p (pending (retain e now))).
Proof.
  unfold allocate_pending. cbv zeta. destruct (frost_commit _ _) as [ns cs] eqn:Ef. split.
  - intros H. destruct (_ <=? _) eqn:E1; [done|]. destruct (session_draw d) as [sid|] eqn:Ed; [|done].
    destruct (_ || _)%bool eqn:E2; [done|]. simplify_eq. bool_to_prop.
    exists {| message := msg; created_at := now; nonces := ns; commitments := cs;
              pending_expires := Z.min (saturating_add 64 now (pending_ttl_secs e)) expires |}.
    cbn [message created_at pending_expires nonces commitments response_session response_identifier response_commitments].
    split_and!; done.
  - intros (p & <- & <- & Hx & Hf & Hs & Hz & Hi & Hc & Hl & Hn & ->). rewrite Hs, Hn. cbn in Hl |- *.
    rewrite bool_decide_eq_false_2 by done. destruct (_ <=? _) eqn:E1; [lia|]. cbn.
    destruct p, c; cbn in *. by simplify_eq.
Qed.

Lemma allocate_pending_err e msg expires now d e' x :
  allocate_pending e msg expires now d = (e', Err x) -> e' = retain e now.
Proof.
  unfold allocate_pending. intros H. repeat case_match; by simplify_eq.
Qed.

(** A session opened by a first-round request, and the engine that has it. *)
Definition opens (e : SignerEngine) (r : Request) (c : Round1Response) (p : Pending) (e' : SignerEngine) : Prop :=
  opened e r (response_session c) p /\ response_session c <> replicate 32 x00 /\
  response_identifier c = engine_identifier e /\ response_commitments c = commitments p /\
  lenZ (pending (retain e (request_now r))) < max_pending e /\
  bt_get (response_session c) (pending (retain e (request_now r))) = None /\
  e' = set_pending e (bt_insert (response_session c) p (pending (retain e (request_now r)))).

Lemma allocate_opens e0 e r msg d e' a :
  e0 = e \/ e0 = retain e (request_now r) -> request_draw r = Some d ->
  approved e (request_approval r) (request_now r) = Ok tt -> possession e r ->
  approval_message (request_approval r) = Ok msg ->
  committed (allocate_pending e0 msg (approval_expiry (request_approval r)) (request_now r) d) = (e', a) ->
  match a with
  | Ok (Committed c) => exists p, opens e r c p e'
  | Ok (Share _) => False
  | Err _ => e' = retain e (request_now r)
  end.
Proof.
  intros He Hd Ha Hp Hm. assert (Hr : retain e0 (request_now r) = retain e (request_now r)).
  { destruct He as [->| ->]; [done|apply retain_retain]. }
  unfold committed. destruct (allocate_pending _ _ _ _ _) as [e1 [c|x]] eqn:E; simpl; intros [= <- <-].
  - apply allocate_pending_ok in E as (p & <- & Hc & Hx & Hf & Hs & Hz & Hi & Hcs & Hl & Hn & ->). exists p.
    rewrite Hr in *. unfold opens, opened.
    assert (S : set_pending e0 = set_pending e /\ key e0 = key e /\ pending_ttl_secs e0 = pending_ttl_secs e /\
      max_pending e0 = max_pending e /\ engine_identifier e0 = engine_identifier e) by by destruct He as [->| ->].
    destruct S as (-> & S2 & S3 & S4 & S5). rewrite S2, S3, S4, S5 in *. split_and!; try done. by exists d.
  - by apply allocate_pending_err in E as ->.
Qed.

Lemma handle_first e r d e' a : request_draw r = Some d -> handle e r = (e', a) ->
  match a with
  | Ok (Committed c) => exists p, opens e r c p e'
  | Ok (Share _) => False
  | Err _ => e' = e \/ e' = retain e (request_now r)
  end.
Proof.
  intros Hd H.
  assert (K : forall e0 msg, e0 = e \/ e0 = retain e (request_now r) ->
    approved e (request_approval r) (request_now r) = Ok tt -> possession e r ->
    approval_message (request_approval r) = Ok msg ->
    committed (allocate_pending e0 msg (approval_expiry (request_approval r)) (request_now r) d) = (e', a) ->
    match a with Ok (Committed c) => exists p, opens e r c p e' | Ok (Share _) => False
               | Err _ => e' = e \/ e' = retain e (request_now r) end).
  { intros e0 msg He Ha Hp Hm Hc. pose proof (allocate_opens _ _ _ _ _ _ _ He Hd Ha Hp Hm Hc). repeat case_match; auto. }
  destruct r as [c proof now d'| |old t now d'| |p au q now d'|]; simpl in Hd; simplify_eq; cbn [handle] in H.
  - unfold round1 in H. cbv zeta in H. change (manifest (retain e now)) with (manifest e) in H.
    destruct (validate_claims _ _ _) as [[]|x] eqn:E1; [|injection H as <- <-; auto].
    destruct (verify_proof _ _) as [[]|x] eqn:E2; [|injection H as <- <-; auto].
    eapply K, H; simpl; auto.
  - unfold round1_rotation in H. destruct (validate_rotation_group _ _ _ _) as [[]|x] eqn:E1; [|injection H as <- <-; auto].
    destruct (transition_bytes _) as [msg|x] eqn:E2; [|injection H as <- <-; auto].
    eapply K, H; simpl; auto.
  - unfold round1_sudo in H. destruct (validate_sudo_identity _ _ _ _ _) as [[]|x] eqn:E1; [|injection H as <- <-; auto].
    destruct (negb _) eqn:E2; [injection H as <- <-; auto|]. bool_to_prop.
    destruct (round1_bytes _) as [pop|x] eqn:E3; [|injection H as <- <-; auto].
    destruct (verify_ed25519 _ _ _) as [[]|x] eqn:E4; [|injection H as <- <-; auto]. apply verify_ed25519_ok in E4.
    destruct (challenge_bytes _) as [msg|x] eqn:E5; [|injection H as <- <-; auto].
    eapply K, H; simpl; eauto.
Qed.

(** When a second-round request is answered with a share. *)
Definition signs (e : SignerEngine) (r : Request) (p : Pending) (package : SigningPackage) (s : SignatureShare) : Prop :=
  approved e (request_approval r) (request_now r) = Ok tt /\ possession e r /\
  approval_message (request_approval r) = Ok (message p) /\ created_at p <= request_now r < pending_expires p /\
  signing_message package = message p /\ majority e package (commitments p) /\
  frost_sign package (nonces p) (key e) = Some s.

Lemma consume_signs e sid k p e' a : bt_get sid (pending e) = Some p -> shared (consume e sid k) = (e', a) ->
  e' = set_pending e (bt_remove sid (pending e)) /\ a = map_ok Share (k e' p).
Proof. unfold shared, consume. intros ->. by intros [= <- <-]. Qed.

Lemma map_share_ok (x : result SignatureShare Error) s : map_ok Share x = Ok (Share s) <-> x = Ok s.
Proof. destruct x; simpl; split; congruence. Qed.

Lemma handle_second e r sid package p e' a :
  request_round2 r = Some (sid, package) -> bt_get sid (pending e) = Some p -> handle e r = (e', a) ->
  e' = set_pending e (bt_remove sid (pending e)) /\ (forall s, a = Ok (Share s) <-> signs e r p package s) /\
  (forall c, a <> Ok (Committed c)).
Proof.
  intros Hr Hp H. unfold signs.
  destruct r as [|sid' c pk now| |sid' old t pk now| |po au q now]; simpl in Hr; simplify_eq; cbn [handle] in H;
    apply (consume_signs _ _ _ _ _ _ Hp) in H as [-> ->]; (split; [done|]);
    (split; [|intros c'; by destruct (_ : result SignatureShare Error)]); intros s; rewrite map_share_ok;
    cbn [request_approval request_now approved possession approval_message].
  - split.
    + intros [H1 ([] & H2 & (H3 & H4 & H5 & H6)%sign_pending_ok)%bind_ok]%guard_ok. split_and!; try done; try congruence; tauto || apply H6.
    + intros (H1 & _ & H2%Ok_inj & H3 & H4 & H5 & H6). skip_guards. cbn [manifest set_pending]. rewrite H1.
      apply sign_pending_ok. split_and!; try done; congruence || lia.
  - split.
    + intros ([] & H1 & (msg & H2 & (H3 & <- & H5 & H6)%sign_pending_ok)%bind_ok)%bind_ok. done.
    + intros (H1 & _ & H2 & H3 & H4 & H5 & H6). change (validate_rotation_group (set_pending e _)) with (validate_rotation_group e).
      rewrite H1, H2. by apply sign_pending_ok.
  - split.
    + intros ([] & H1 & [H2 (pop & H3 & ([] & H4%verify_ed25519_ok & (msg & H5 & (H6 & <- & H7)%sign_pending_ok)%bind_ok)%bind_ok)%bind_ok]%guard_ok)%bind_ok.
      bool_to_prop. split_and!; try done; try lia; try tauto. by exists pop.
    + intros (H1 & [Hi (pop & H2 & H3%verify_ed25519_ok)] & H4 & H5 & H6 & H7).
      change (validate_sudo_identity (set_pending e _)) with (validate_sudo_identity e).
      rewrite H1, Hi, H2, H3, H4. cbn [engine_identifier set_pending]. rewrite Z.eqb_refl. by apply sign_pending_ok.
Qed.

Lemma handle_unknown e r sid package e' a :
  request_round2 r = Some (sid, package) -> bt_get sid (pending e) = None -> handle e r = (e', a) ->
  e' = e /\ a = Err Session.
Proof.
  intros Hr Hp H. destruct r; simpl in Hr; simplify_eq; cbn [handle] in H;
    unfold round2, round2_rotation, round2_sudo, consume, shared in H; rewrite Hp in H; by simplify_eq/=.
Qed.

Lemma request_kind r : (exists d, request_draw r = Some d) \/ (exists sid package, request_round2 r = Some (sid, package)).
Proof. destruct r; simpl; eauto. Qed.

(** ** Runs *)

Definition history : Type := list (Request * result Answer Error).

(** Entry [j] of a history opened the session [p]. *)
Definition opened_at (e : SignerEngine) (h : history) (j : nat) (sid : bytes) (p : Pending) : Prop :=
  exists r c, h !! j = Some (r, Ok (Committed c)) /\ response_session c = sid /\
    response_commitments c = commitments p /\ opened e r sid p.

(** Entry [k] gave a share for the session that entry [j] opened: both requests passed all
    checks of their own, at times within the session's window, and ask for the same message. *)
Definition consented (e : SignerEngine) (h : history) (k j : nat) : Prop :=
  (j < k)%nat /\ exists sid p r package s, opened_at e h j sid p /\ h !! k = Some (r, Ok (Share s)) /\
    request_round2 r = Some (sid, package) /\ signs e r p package s.

Definition is_share (h : history) (k : nat) : Prop := exists r s, h !! k = Some (r, Ok (Share s)).

(** The sessions held come from entries that no share has used, and every share from an
    entry of its own. *)
Record run_inv (e : SignerEngine) (h : history) (e' : SignerEngine) (porg : bytes -> nat) (sorg : nat -> nat) : Prop := {
  ri_signer : same_signer e e';
  ri_wf : bt_wf (pending e');
  ri_bound : lenZ (pending e') <= max_pending e;
  ri_pending : forall sid p, bt_get sid (pending e') = Some p -> opened_at e h (porg sid) sid p;
  ri_shares : forall k, is_share h k -> consented e h k (sorg k);
  ri_once : forall k k', is_share h k -> is_share h k' -> sorg k = sorg k' -> k = k';
  ri_unused : forall sid p k, bt_get sid (pending e') = Some p -> is_share h k -> sorg k <> porg sid
}.

Lemma opened_at_mono e h x j sid p : opened_at e h j sid p -> opened_at e (h ++ [x]) j sid p.
Proof. intros (r & c & H & ?). exists r, c. split; [by apply lookup_app_l_Some|done]. Qed.

Lemma consented_mono e h x k j : consented e h k j -> consented e (h ++ [x]) k j.
Proof.
  intros (Hj & sid & p & r & pk & s & Ho & Hk & ?). split; [done|]. exists sid, p, r, pk, s.
  split; [by apply opened_at_mono|]. split; [by apply lookup_app_l_Some|done].
Qed.

Lemma is_share_app h x k : is_share (h ++ [x]) k -> is_share h k \/ (k = length h /\ exists s, x.2 = Ok (Share s)).
Proof.
  intros (r & s & H). apply lookup_snoc_Some in H as [[_ H]|[-> ->]]; [left; by exists r, s|right; eauto].
Qed.

Lemma is_share_lt h k : is_share h k -> (k < length h)%nat.
Proof. intros (r & s & H). by apply lookup_lt_Some in H. Qed.

Lemma same_signer_set e e' p : same_signer e e' -> same_signer e (set_pending e' p).
Proof. unfold same_signer. intros ->. done. Qed.

Lemma same_signer_refl e : same_signer e e.
Proof. by destruct e. Qed.

Lemma same_signer_opened e e' r sid p : same_signer e e' -> opened e' r sid p -> opened e r sid p.
Proof. unfold same_signer. intros ->. destruct r; done. Qed.

Lemma same_signer_signs e e' r p pk s : same_signer e e' -> signs e' r p pk s -> signs e r p pk s.
Proof. unfold same_signer. intros ->. destruct r; done. Qed.

(** A step that opens no session and gives no share may only drop sessions. *)
Lemma run_inv_drop e h e1 porg sorg r a e2 :
  run_inv e h e1 porg sorg -> same_signer e1 e2 -> bt_wf (pending e2) -> lenZ (pending e2) <= lenZ (pending e1) ->
  (forall sid p, bt_get sid (pending e2) = Some p -> bt_get sid (pending e1) = Some p) -> (forall s, a <> Ok (Share s)) ->
  run_inv e (h ++ [(r, a)]) e2 porg sorg.
Proof.
  intros [] Hs Hw Hl Hg Ha.
  assert (Hold : forall k, is_share (h ++ [(r, a)]) k -> is_share h k).
  { intros k [?|[_ [s ?]]]%is_share_app; [done|]. by destruct (Ha s). }
  split; eauto using opened_at_mono, consented_mono; [|lia].
  unfold same_signer in *. by rewrite Hs, ri_signer0.
Qed.

Lemma retain_get e now sid p : bt_wf (pending e) ->
  bt_get sid (pending (retain e now)) = Some p <->
  bt_get sid (pending e) = Some p /\ created_at p <= now < pending_expires p.
Proof.
  intros Hw. cbn [retain set_pending pending]. rewrite bt_get_retain by done.
  destruct (bt_get sid (pending e)) as [q|]; [|naive_solver]. destruct (_ && _)%bool eqn:E.
  - split; [intros [= ->]; split; [done|lia]|by intros [? _]].
  - split; [done|]. intros [[= ->] ?]. lia.
Qed.

Lemma retain_wf e now : bt_wf (pending e) -> bt_wf (pending (retain e now)).
Proof. apply bt_wf_retain. Qed.

Lemma retain_length e now : lenZ (pending (retain e now)) <= lenZ (pending e).
Proof. apply Nat2Z.inj_le, bt_retain_length. Qed.

Lemma remove_length e sid : lenZ (bt_remove sid (pending e)) <= lenZ (pending e).
Proof. rewrite <- !bt_sum_length. by apply bt_sum_remove. Qed.

Lemma remove_get e sid sid' p : bt_wf (pending e) ->
  bt_get sid' (bt_remove sid (pending e)) = Some p -> sid' <> sid /\ bt_get sid' (pending e) = Some p.
Proof.
  intros Hw H. destruct (decide (sid' = sid)) as [->|Hne]; [by rewrite bt_get_remove in H|].
  by rewrite bt_get_remove_ne in H.
Qed.

Lemma run_inv_open e h e1 porg sorg r c p e2 :
  run_inv e h e1 porg sorg -> opens e1 r c p e2 ->
  run_inv e (h ++ [(r, Ok (Committed c))]) e2
    (fun sid => if decide (sid = response_session c) then length h else porg sid) sorg.
Proof.
  intros [] (Ho & Hz & Hi & Hc & Hl & Hn & ->).
  assert (Hold : forall k, is_share (h ++ [(r, Ok (Committed c))]) k -> is_share h k).
  { by intros k [?|[_ [s ?]]]%is_share_app. }
  split; eauto using consented_mono.
  - by apply same_signer_set.
  - by apply bt_wf_insert, retain_wf.
  - rewrite <- bt_sum_length. cbn [pending set_pending]. rewrite bt_sum_insert, Hn, bt_sum_length.
    assert (max_pending e1 = max_pending e) by by rewrite ri_signer0. lia.
  - intros sid q. cbn [pending set_pending]. case_decide as Hd; [subst sid; rewrite bt_get_insert|rewrite bt_get_insert_ne by congruence].
    + intros [= <-]. exists r, c. split; [by apply list_lookup_middle|].
      split_and!; try done. by eapply same_signer_opened.
    + intros [Hq _]%retain_get; [|done]. by apply opened_at_mono, ri_pending0.
  - intros sid q k. cbn [pending set_pending]. case_decide as Hd; [subst sid; rewrite bt_get_insert|rewrite bt_get_insert_ne by congruence].
    + intros _ Hk%Hold. apply ri_shares0 in Hk as Hk'. destruct Hk' as [Hlt _]. apply is_share_lt in Hk. lia.
    + intros [Hq _]%retain_get Hk%Hold; [|done]. by eapply ri_unused0.
Qed.

Lemma run_inv_share e h e1 porg sorg r sid package p s :
  run_inv e h e1 porg sorg -> request_round2 r = Some (sid, package) -> bt_get sid (pending e1) = Some p ->
  signs e1 r p package s ->
  run_inv e (h ++ [(r, Ok (Share s))]) (set_pending e1 (bt_remove sid (pending e1))) porg
    (fun k => if decide (k = length h) then porg sid else sorg k).
Proof.
  intros [] Hr Hp Hs. set (h' := h ++ [(r, Ok (Share s))]).
  assert (Hcase : forall k, is_share h' k -> (k <> length h /\ is_share h k) \/ k = length h).
  { intros k Hk. apply is_share_app in Hk as [Hk|[-> _]]; [left|by right].
    apply is_share_lt in Hk as Hlt. split; [lia|done]. }
  assert (Hget : forall sid' q, bt_get sid' (bt_remove sid (pending e1)) = Some q ->
    sid' <> sid /\ bt_get sid' (pending e1) = Some q) by (intros; by apply remove_get).
  split.
  - by apply same_signer_set.
  - by apply bt_wf_remove.
  - pose proof (remove_length e1 sid). cbn [pending set_pending]. lia.
  - intros sid' q [_ Hq]%Hget. by apply opened_at_mono, ri_pending0.
  - intros k [[Hne Hk]| ->]%Hcase; case_decide; try done; [by apply consented_mono, ri_shares0|].
    pose proof (ri_pending0 _ _ Hp) as Ho. split.
    + destruct Ho as (? & ? & Hj & _). by apply lookup_lt_Some in Hj.
    + exists sid, p, r, package, s. split; [by apply opened_at_mono|]. split; [by apply list_lookup_middle|].
      split; [done|]. by eapply same_signer_signs.
  - intros k k' [[Hne Hk]| ->]%Hcase [[Hne' Hk']| ->]%Hcase; repeat case_decide; try done; eauto.
    + intros E. by destruct (ri_unused0 _ _ _ Hp Hk).
    + intros E. by destruct (ri_unused0 _ _ _ Hp Hk').
  - intros sid' q k [Hne Hq]%Hget [[Hk' Hk]| ->]%Hcase; case_decide; try done; [by eapply ri_unused0|].
    apply ri_pending0 in Hq as (r1 & c1 & Hj1 & <- & _), Hp as (r2 & c2 & Hj2 & <- & _).
    intros E. rewrite E in Hj2. congruence.
Qed.

Lemma run_inv_step e h e1 porg sorg r a e2 : run_inv e h e1 porg sorg -> handle e1 r = (e2, a) ->
  exists porg' sorg', run_inv e (h ++ [(r, a)]) e2 porg' sorg'.
Proof.
  intros Hi H. pose proof (ri_wf _ _ _ _ _ Hi) as Hw.
  destruct (request_kind r) as [[d Hd]|(sid & pk & Hr)].
  - apply (handle_first _ _ _ _ _ Hd) in H. destruct a as [[c|s]|x]; [|done|].
    + destruct H as [p Ho]. eauto using run_inv_open.
    + exists porg, sorg. destruct H as [->| ->]; eapply run_inv_drop; eauto using same_signer_refl; try done.
      * by apply retain_wf.
      * apply retain_length.
      * intros sid p Hg%retain_get; tauto.
  - destruct (bt_get sid (pending e1)) as [p|] eqn:Ep.
    + destruct (handle_second _ _ _ _ _ _ _ Hr Ep H) as (-> & Hs & Hc).
      destruct a as [[c|s]|x]; [by destruct (Hc c)| |].
      * assert (signs e1 r p pk s) by by apply Hs. eauto using run_inv_share.
      * exists porg, sorg. eapply run_inv_drop; eauto; try done; [by apply bt_wf_remove|apply remove_length|].
        intros sid' q ?%remove_get; tauto.
    + destruct (handle_unknown _ _ _ _ _ _ Hr Ep H) as [-> ->]. exists porg, sorg.
      eapply run_inv_drop; eauto using same_signer_refl; done.
Qed.

Lemma new_facts m node kp max ttl e : new m node kp max ttl = Ok e ->
  pending e = [] /\ manifest e = m /\ key e = kp /\ max_pending e = max /\ 1 <= max <= 1024 /\ 1 <= ttl <= 300 /\
  validate_manifest m = Ok tt.
Proof.
  unfold new. intros ([] & Hv & [H1 (x & _ & (id & _ & (public & _ & [_ [= <-]]%guard_ok)%bind_ok)%bind_ok)%bind_ok]%guard_ok)%bind_ok.
  simpl. split_and!; try done; lia.
Qed.

Lemma run_inv_start e : pending e = [] -> 0 <= max_pending e -> run_inv e [] e (fun _ => O) (fun _ => O).
Proof.
  intros Hp Hm. assert (Hn : forall k, is_share [] k -> False) by by intros k (? & ? & ?).
  split; rewrite ?Hp; try (by intros ? []%Hn || intros ? ? []%Hn); try (apply same_signer_refl || apply bt_wf_nil); done.
Qed.

Lemma steps_inv m node kp max ttl e h e' : new m node kp max ttl = Ok e -> steps e h e' ->
  exists porg sorg, run_inv e h e' porg sorg.
Proof.
  intros (Hp & _ & _ & Hm & Hb & _)%new_facts Hs. induction Hs as [|h e1 r e2 a Hs (porg & sorg & IH) H].
  - exists (fun _ => O), (fun _ => O). apply run_inv_start; [done|lia].
  - by eapply run_inv_step.
Qed.

(** ** An open session stays open *)

(** A request that leaves session [sid] alone: it is not addressed to it, or it is a first
    round within the session's window. *)
Definition leaves (sid : bytes) (from till : Z) (r : Request) : Prop :=
  match request_round2 r with
  | Some (sid', _) => sid' <> sid
  | None => from <= request_now r < till
  end.

Lemma handle_keeps e r e' a sid p : bt_wf (pending e) -> handle e r = (e', a) -> leaves sid (created_at p) (pending_expires p) r ->
  bt_get sid (pending e) = Some p -> same_signer e e' /\ bt_wf (pending e') /\ bt_get sid (pending e') = Some p.
Proof.
  intros Hw H Hl Hg. destruct (request_kind r) as [[d Hd]|(sid' & pk & Hr)].
  - assert (Hwin : created_at p <= request_now r < pending_expires p) by (unfold leaves in Hl; by destruct r).
    assert (Hk : bt_get sid (pending (retain e (request_now r))) = Some p) by by apply retain_get.
    apply (handle_first _ _ _ _ _ Hd) in H. destruct a as [[c|s]|x]; [|done|].
    + destruct H as (q & _ & _ & _ & _ & _ & Hn & ->). split; [done|]. split; [by apply bt_wf_insert, retain_wf|].
      cbn [pending set_pending]. rewrite bt_get_insert_ne; [done|]. intros E. rewrite E in Hn. congruence.
    + destruct H as [->| ->]; [by split; [apply same_signer_refl|]|]. split; [done|]. split; [by apply retain_wf|done].
  - unfold leaves in Hl. rewrite Hr in Hl. destruct (bt_get sid' (pending e)) as [q|] eqn:Eq.
    + destruct (handle_second _ _ _ _ _ _ _ Hr Eq H) as (-> & _ & _). split; [done|].
      split; [by apply bt_wf_remove|]. cbn [pending set_pending]. by rewrite bt_get_remove_ne.
    + destruct (handle_unknown _ _ _ _ _ _ Hr Eq H) as [-> ->]. by split; [apply same_signer_refl|].
Qed.

Lemma steps_keep e h e' sid p : bt_wf (pending e) -> bt_get sid (pending e) = Some p -> steps e h e' ->
  Forall (fun x => leaves sid (created_at p) (pending_expires p) x.1) h -> same_signer e e' /\ bt_wf (pending e') /\ bt_get sid (pending e') = Some p.
Proof.
  intros Hw Hg Hs. induction Hs as [|h e1 r e2 a Hs IH H]; intros Hl; [by split; [apply same_signer_refl|]|].
  apply Forall_app in Hl as [Hl Hr]. rewrite Forall_singleton in Hr. destruct (IH Hl) as (S & W & G).
  destruct (handle_keeps _ _ _ _ _ _ W H Hr G) as (S' & W' & G'). split_and!; try done.
  unfold same_signer in *. by rewrite S', S.
Qed.

(** ** Majorities *)

Lemma majority_meets m keys rs (A B : gset Identifier) :
  manifest_wf m keys rs -> A ⊆ dom (verifying_shares keys) -> B ⊆ dom (verifying_shares keys) ->
  threshold m <= Z.of_nat (size A) -> threshold m <= Z.of_nat (size B) ->
  exists x id, x ∈ members m /\ identifier_try_from (identifier x) = Some id /\ id ∈ A /\ id ∈ B.
Proof.
  intros [] HA HB Ha Hb. rewrite threshold_majority in Ha, Hb by lia.
  set (D := dom (verifying_shares keys)) in *.
  assert (HD : Z.of_nat (size D) = lenZ (members m)) by (unfold D; by rewrite size_dom).
  assert (Hids : list_to_set (map fst rs) = D).
  { destruct mw_ids0 as [Hin Hnd]. apply set_subseteq_size_eq.
    - intros id Hid. apply elem_of_list_to_set, list_elem_of_fmap in Hid as (r & -> & Hr).
      apply elem_of_dom. rewrite Forall_forall in Hin. by apply Hin.
    - rewrite size_list_to_set by done. apply Nat2Z.inj_le. rewrite HD, length_map.
      by rewrite (Forall2_length _ _ _ mw_read0). }
  assert (Hne : A ∩ B ≢ ∅).
  { intros He. assert (Hd : A ## B) by set_solver. pose proof (size_union _ _ Hd) as Hu.
    assert (Hs : A ∪ B ⊆ D) by set_solver. apply subseteq_size in Hs. dlia. }
  apply set_choose in Hne as [id [Hi Hi']%elem_of_intersection].
  assert (Hd : id ∈ D) by set_solver. rewrite <- Hids in Hd.
  apply elem_of_list_to_set, list_elem_of_fmap in Hd as ([id' u] & -> & Hr).
  apply list_elem_of_lookup in Hr as [n Hn]. destruct (Forall2_lookup_r _ _ _ _ _ mw_read0 Hn) as (x & Hx & Hid & _).
  exists x, id'. split; [by eapply list_elem_of_lookup_2|done].
Qed.

Lemma share_majority m node kp max ttl e h e' r s sid package :
  new m node kp max ttl = Ok e -> steps e h e' -> (r, Ok (Share s)) ∈ h -> request_round2 r = Some (sid, package) ->
  threshold m <= Z.of_nat (size (signing_commitments package)) /\
  exists public, public_keys m = Ok public /\
    map_Forall (fun id _ => is_Some (verifying_shares public !! id)) (signing_commitments package).
Proof.
  intros Hn Hs [k Hk]%list_elem_of_lookup Hr. pose proof (new_facts _ _ _ _ _ _ Hn) as (_ & <- & _).
  destruct (steps_inv _ _ _ _ _ _ _ _ Hn Hs) as (porg & sorg & Hi).
  destruct (ri_shares _ _ _ _ _ Hi k) as (_ & sid' & p & r' & pk & s' & _ & Hk' & Hr' & Hsig); [by exists r, s|].
  unfold history in *. simplify_eq. destruct Hsig as (_ & _ & _ & _ & _ & (Hb & Hp & _) & _). split; [lia|done].
Qed.

Lemma shares_cover (keys : PublicKeyPackage) (cs : gmap Identifier SigningCommitments) :
  map_Forall (fun id _ => is_Some (verifying_shares keys !! id)) cs -> dom cs ⊆@{gset Identifier} dom (verifying_shares keys).
Proof. intros H id [c Hc]%elem_of_dom. apply elem_of_dom. by eapply H. Qed.

(** ** Everything that is signed *)

Inductive Statement : Type :=
  | Approve (a : Approval)
  | ProveRequest (c : CapabilityClaims)
  | Attest (g : SudoGrant)
  | ProveRound1 (r : SudoRound1Request)
  | ProveRound2 (r : SudoRound2Request)
  | Redeem (i : SudoLocalInvocation) (t : SudoToken).

Definition statement_bytes (s : Statement) : result bytes Error :=
  match s with
  | Approve a => approval_message a
  | ProveRequest c => Ok (proof_bytes c)
  | Attest g => attestation_bytes g
  | ProveRound1 r => round1_bytes r
  | ProveRound2 r => round2_bytes r
  | Redeem i t => redemption_bytes i t
  end.

Definition statement_name (s : Statement) : bytes :=
  match s with
  | Approve (Mutation _) => bstr "heteronetwork-quorum-capability-v1"
  | Approve (Transition _ _) => bstr "heteronetwork-quorum-manifest-transition-v1"
  | Approve (Privilege _ _ _) => bstr "heteronetwork-sudo-privilege-grant-v2"
  | ProveRequest _ => bstr "heteronetwork-quorum-request-proof-v1"
  | Attest _ => bstr "heteronetwork-sudo-host-attestation-v2"
  | ProveRound1 _ => bstr "heteronetwork-sudo-round1-pop-v2"
  | ProveRound2 _ => bstr "heteronetwork-sudo-round2-pop-v2"
  | Redeem _ _ => bstr "heteronetwork-sudo-redemption-pop-v2"
  end.

(** Two statements that say the same. A manifest is named by its digest, a signing package
    by its serialisation; what is not part of the statement may differ. *)
Inductive same_statement : Statement -> Statement -> Prop :=
  | same_mutation c : same_statement (Approve (Mutation c)) (Approve (Mutation c))
  | same_transition o o' t t' :
      old_manifest_digest t = old_manifest_digest t' -> digest (new_manifest t) = digest (new_manifest t') ->
      cluster_id (new_manifest t) = cluster_id (new_manifest t') -> epoch (new_manifest t) = epoch (new_manifest t') ->
      transition_request t = transition_request t' -> transition_issued t = transition_issued t' ->
      transition_expires t = transition_expires t' ->
      same_statement (Approve (Transition o t)) (Approve (Transition o' t'))
  | same_privilege p p' a a' c : same_statement (Approve (Privilege p a c)) (Approve (Privilege p' a' c))
  | same_request c : same_statement (ProveRequest c) (ProveRequest c)
  | same_attestation g : same_statement (Attest g) (Attest g)
  | same_round1 r r' : round1_identifier r = round1_identifier r' -> round1_challenge r = round1_challenge r' ->
      same_statement (ProveRound1 r) (ProveRound1 r')
  | same_round2 r r' : round2_identifier r = round2_identifier r' -> round2_session r = round2_session r' ->
      round2_challenge r = round2_challenge r' ->
      signing_package_serialize (round2_package r) = signing_package_serialize (round2_package r') ->
      same_statement (ProveRound2 r) (ProveRound2 r')
  | same_redemption i t : same_statement (Redeem i t) (Redeem i t).

(** The ranges that the fields have by their types. *)
Definition transition_typed (t : ManifestTransition) : Prop :=
  fits (old_manifest_digest t) /\ fits (cluster_id (new_manifest t)) /\ is_u64 (epoch (new_manifest t)) /\
  length (transition_request t) = 32%nat /\ is_u64 (transition_issued t) /\ is_u64 (transition_expires t).

Definition invocation_typed (i : SudoLocalInvocation) : Prop :=
  is_u32 (invocation_caller i) /\ is_u32 (invocation_runas i) /\ length (invocation_nonce i) = 32%nat /\
  is_u64 (invocation_issued i) /\ is_u64 (invocation_expires i).

Definition statement_typed (s : Statement) : Prop :=
  match s with
  | Approve (Mutation c) => claims_typed c
  | ProveRequest c => claims_typed c /\ fits (signing_bytes c)
  | Approve (Transition _ t) => transition_typed t
  | Approve (Privilege _ _ c) => grant_typed (grant c)
  | Attest g => grant_typed g
  | ProveRound1 r => is_u16 (round1_identifier r) /\ grant_typed (grant (round1_challenge r))
  | ProveRound2 r => is_u16 (round2_identifier r) /\ length (round2_session r) = 32%nat /\
      grant_typed (grant (round2_challenge r)) /\
      (forall bs, signing_package_serialize (round2_package r) = Some bs -> fits bs)
  | Redeem i t => invocation_typed i /\ grant_typed (grant (challenge t))
  end.

Lemma name_app_inj (a b x y : bytes) : x00 ∉ a -> x00 ∉ b -> a ++ x00 :: x = b ++ x00 :: y -> a = b /\ x = y.
Proof.
  revert b. induction a as [|c a IH]; intros [|d b] Ha Hb H; first [injection H as E H|injection H as H].
  - by subst.
  - subst d. by destruct (Hb (list_elem_of_here _ _)).
  - subst c. by destruct (Ha (list_elem_of_here _ _)).
  - apply IH in H as [-> ->]; [by subst|by apply not_elem_of_cons in Ha as [_ ?]|by apply not_elem_of_cons in Hb as [_ ?]].
Qed.

Lemma statement_named s bs : statement_bytes s = Ok bs -> exists body, bs = statement_name s ++ x00 :: body.
Proof.
  intros H. enough (exists body, bs = domain (statement_name s) ++ body) as [body ->].
  { exists body. unfold domain. by rewrite <- app_assoc. }
  destruct s as [[c|o t|p a c]|c|g|r|r|i t]; cbn [statement_bytes approval_message statement_name] in *.
  - apply Ok_inj in H as <-. by eexists.
  - apply bind_ok in H as (? & _ & <-%Ok_inj). by eexists.
  - apply guard_ok in H as [_ (? & _ & <-%Ok_inj)%bind_ok]. by eexists.
  - apply Ok_inj in H as <-. by eexists.
  - apply bind_ok in H as (? & _ & <-%Ok_inj). by eexists.
  - apply bind_ok in H as (? & _ & <-%Ok_inj). by eexists.
  - apply guard_ok in H as [_ (? & _ & (? & _ & <-%Ok_inj)%bind_ok)%bind_ok]. by eexists.
  - apply guard_ok in H as [_ (? & _ & <-%Ok_inj)%bind_ok]. by eexists.
Qed.

Lemma statement_name_plain s : x00 ∉ statement_name s.
Proof. destruct s as [[]| | | | |]; by apply (bool_decide_unpack _); vm_compute. Qed.

Lemma same_bytes_same_name s s' bs : statement_bytes s = Ok bs -> statement_bytes s' = Ok bs ->
  statement_name s = statement_name s'.
Proof.
  intros [b ->]%statement_named [b' H]%statement_named. by apply name_app_inj in H as [? _]; [|apply statement_name_plain..].
Qed.

Lemma transition_same o o' t t' bs : transition_typed t -> transition_typed t' ->
  transition_bytes t = Ok bs -> transition_bytes t' = Ok bs ->
  same_statement (Approve (Transition o t)) (Approve (Transition o' t')).
Proof.
  intros (Ho & Hc & He & Hr & Hi & Hx) (Ho' & Hc' & He' & Hr' & Hi' & Hx') (d & Hd & <-%Ok_inj)%bind_ok
    (d' & Hd' & H%Ok_inj)%bind_ok.
  assert (fits d) by by eapply digest_fits. assert (fits d') by by eapply digest_fits.
  apply app_inv_head in H. repeat read_field. constructor; congruence.
Qed.

(** Attested grants and challenges are of bounded size. *)
Lemma attestation_size g bs : grant_typed g -> attestation_bytes g = Ok bs -> lenZ bs <= 4096.
Proof.
  intros [] ([] & []%shape_iff & <-%Ok_inj)%bind_ok. destruct_and!.
  destruct so_identity0 as [(Hi & _) (_ & Hs & _) _].
  repeat match goal with H : valid_id _ = true |- _ => unfold valid_id in H
                       | H : digest_shape _ = true |- _ => unfold digest_shape in H end. bool_to_prop.
  unfold append, field. repeat rewrite length_app. rewrite !length_be_bytes. change (length ATTESTATION_DOMAIN) with 39%nat.
  lia.
Qed.

Lemma challenge_size c bs : grant_typed (grant c) -> challenge_bytes c = Ok bs -> lenZ bs <= 8192.
Proof.
  intros Ht [Hl (a & Ha & <-%Ok_inj)%bind_ok]%guard_ok. bool_to_prop. apply attestation_size in Ha; [|done].
  unfold field. repeat rewrite length_app. rewrite !length_be_bytes. change (length GRANT_DOMAIN) with 38%nat. lia.
Qed.

Lemma challenge_bytes_inj c c' bs : grant_typed (grant c) -> grant_typed (grant c') ->
  challenge_bytes c = Ok bs -> challenge_bytes c' = Ok bs -> c = c'.
Proof.
  intros Ht Ht' [Hl (a & Ha & <-%Ok_inj)%bind_ok]%guard_ok [Hl' (a' & Ha' & H%Ok_inj)%bind_ok]%guard_ok. bool_to_prop.
  apply attestation_size in Ha as Hs; [|done]. apply attestation_size in Ha' as Hs'; [|done].
  apply app_inv_head in H. rewrite <- (app_nil_r (field (host_signature c))), <- (app_nil_r (field (host_signature c'))) in H.
  apply field_app_inj in H as [-> H]; [|unfold fits; lia..]. apply field_app_inj in H as [E _]; [|unfold fits; lia..].
  destruct c as [g hs], c' as [g' hs']. simpl in *. f_equal; [|done]. by eapply attestation_bytes_inj.
Qed.

Lemma field_inj a b : fits a -> fits b -> field a = field b -> a = b.
Proof.
  intros Ha Hb H. rewrite <- (app_nil_r (field a)), <- (app_nil_r (field b)) in H.
  by apply field_app_inj in H as [? _].
Qed.

Lemma round1_same r r' bs : statement_typed (ProveRound1 r) -> statement_typed (ProveRound1 r') ->
  round1_bytes r = Ok bs -> round1_bytes r' = Ok bs -> same_statement (ProveRound1 r) (ProveRound1 r').
Proof.
  intros [Hi Ht] [Hi' Ht'] (a & Ha & <-%Ok_inj)%bind_ok (a' & Ha' & H%Ok_inj)%bind_ok.
  apply challenge_size in Ha as Hs; [|done]. apply challenge_size in Ha' as Hs'; [|done].
  apply app_inv_head in H. read_field. apply field_inj in H; [|unfold fits; lia..]. subst a'.
  constructor; [done|]. by eapply challenge_bytes_inj.
Qed.

Lemma round2_same r r' bs : statement_typed (ProveRound2 r) -> statement_typed (ProveRound2 r') ->
  round2_bytes r = Ok bs -> round2_bytes r' = Ok bs -> same_statement (ProveRound2 r) (ProveRound2 r').
Proof.
  intros (Hi & Hs & Ht & Hp) (Hi' & Hs' & Ht' & Hp') [_ (a & Ha & (k & Hk%ok_or_ok & <-%Ok_inj)%bind_ok)%bind_ok]%guard_ok
    [_ (a' & Ha' & (k' & Hk'%ok_or_ok & H%Ok_inj)%bind_ok)%bind_ok]%guard_ok.
  apply challenge_size in Ha as Hz; [|done]. apply challenge_size in Ha' as Hz'; [|done].
  apply app_inv_head in H. do 2 read_field. apply field_app_inj in H as [-> H]; [|unfold fits; lia..].
  apply field_inj in H; [|auto..]. constructor; try congruence. by eapply challenge_bytes_inj.
Qed.

Lemma redeem_same i t i' t' bs : statement_typed (Redeem i t) -> statement_typed (Redeem i' t') ->
  redemption_bytes i t = Ok bs -> redemption_bytes i' t' = Ok bs -> same_statement (Redeem i t) (Redeem i' t').
Proof.
  intros [(Hc & Hr & Hn & Hi & Hx) Ht] [(Hc' & Hr' & Hn' & Hi' & Hx') Ht'] [Hg (a & Ha & <-%Ok_inj)%bind_ok]%guard_ok
    [Hg' (a' & Ha' & H%Ok_inj)%bind_ok]%guard_ok. bool_to_prop.
  apply challenge_size in Ha as Hz; [|done]. apply challenge_size in Ha' as Hz'; [|done].
  repeat match goal with H : valid_id _ = true |- _ => apply valid_id_fits in H end.
  apply app_inv_head in H. apply field_app_inj in H as [-> H]; [|unfold fits; lia..].
  apply field_app_inj in H as [Es H]; [|unfold fits; lia..]. repeat read_field.
  assert (challenge t = challenge t') by by eapply challenge_bytes_inj.
  destruct i, i', t, t'; simpl in *. subst. constructor.
Qed.

Lemma same_bytes_same_statement s s' bs : statement_typed s -> statement_typed s' ->
  statement_bytes s = Ok bs -> statement_bytes s' = Ok bs -> same_statement s s'.
Proof.
  intros Ht Ht' H H'. pose proof (same_bytes_same_name _ _ _ H H') as Hn.
  destruct s as [[c|o t|p a c]|c|g|r|r|i t], s' as [[c'|o' t'|p' a' c']|c'|g'|r'|r'|i' t']; try discriminate Hn; clear Hn;
    cbn [statement_bytes approval_message statement_typed] in *.
  - rewrite (signing_bytes_inj c c'); [constructor|done..|congruence].
  - by eapply transition_same.
  - rewrite (challenge_bytes_inj c c' bs) by done. constructor.
  - destruct Ht as [Ht Hf], Ht' as [Ht' Hf']. rewrite <- H' in H. apply Ok_inj, app_inv_head, field_inj in H; [|done..].
    rewrite (signing_bytes_inj c c') by done. constructor.
  - rewrite (attestation_bytes_inj g g' bs) by done. constructor.
  - by eapply round1_same.
  - by eapply round2_same.
  - by eapply redeem_same.
Qed.

End Core.

(** Nothing is signed that can be taken for something else. Over everything the group,
    the hosts and the requesters sign (capabilities, rotations, privilege grants, proofs of
    possession in either round, attestations and redemptions), equal bytes are the same
    statement: of the same kind, and equal in every field. *)
Theorem signed_bytes_unambiguous {UO : UrlOps} {OO : @UrlOriginOps UO} {DO : DigestOps} {FO : FrostOps} {EO : EdOps}
    s s' bs :
  statement_typed s -> statement_typed s' -> statement_bytes s = Ok bs -> statement_bytes s' = Ok bs ->
  same_statement s s'.
Proof. apply same_bytes_same_statement. Qed.

(** C7: A signer gives a share only for what it approved itself, and uses every nonce once.
    In any run of a new signer each share answers a request that passed every check of its
    kind at its time, for a session opened by an earlier request that passed every check too,
    within the session's window, for the same bytes, in a package of a majority of the
    members that carries the commitments of that session, with the nonces drawn for it; no
    two shares use the same session, and the sessions held never exceed their limit. *)
Theorem signer_consents {UO : UrlOps} {OO : @UrlOriginOps UO} {DO : DigestOps} {FO : FrostOps} {EO : EdOps}
    m node kp max ttl e h e' :
  new m node kp max ttl = Ok e -> steps e h e' ->
  lenZ (pending e') <= max /\
  exists origin, (forall k, is_share h k -> consented e h k (origin k)) /\
    (forall k k', is_share h k -> is_share h k' -> origin k = origin k' -> k = k').
Proof.
  intros Hn Hs. pose proof (new_facts _ _ _ _ _ _ Hn) as (_ & _ & _ & Hm & _).
  destruct (steps_inv _ _ _ _ _ _ _ _ Hn Hs) as (porg & sorg & []). split; [lia|]. by exists sorg.
Qed.

(** A session that was opened can be completed. Whatever happened before, and whatever
    other requests arrive in between (within the window, and not for this session), the
    second round answers with the share when it comes in time, passes its own checks, asks
    for the same bytes and brings a package of a majority with the commitments given out. *)
Theorem open_session_signs {UO : UrlOps} {OO : @UrlOriginOps UO} {DO : DigestOps} {FO : FrostOps} {EO : EdOps}
    m node kp max ttl e h e1 r1 c d e2 h' e3 r2 package msg s :
  new m node kp max ttl = Ok e -> steps e h e1 -> handle e1 r1 = (e2, Ok (Committed c)) -> request_draw r1 = Some d ->
  let till := Z.min (saturating_add 64 (request_now r1) (pending_ttl_secs e)) (approval_expiry (request_approval r1)) in
  steps e2 h' e3 -> Forall (fun x => leaves (response_session c) (request_now r1) till x.1) h' ->
  request_round2 r2 = Some (response_session c, package) -> request_now r1 <= request_now r2 < till ->
  approved e (request_approval r2) (request_now r2) = Ok tt -> possession e r2 ->
  approval_message (request_approval r1) = Ok msg -> approval_message (request_approval r2) = Ok msg ->
  signing_message package = msg -> majority e package (response_commitments c) ->
  frost_sign package (frost_commit (key_signing_share kp) (commit_draw d)).1 kp = Some s ->
  exists e4, handle e3 r2 = (e4, Ok (Share s)).
Proof.
  intros Hn Hs Hr Hd till Hs' Hl Hr2 Hw Ha Hp Hm1 Hm2 Hpm Hmaj Hf.
  pose proof (new_facts _ _ _ _ _ _ Hn) as (_ & _ & <- & _).
  destruct (steps_inv _ _ _ _ _ _ _ _ Hn Hs) as (porg & sorg & [Hsig Hwf _ _ _ _ _]).
  destruct (handle_first _ _ _ _ _ Hd Hr) as (p & ((_ & _ & Hpm1 & Hc & Hx & d' & Hd' & _ & Hfc) & _ & _ & Hrc & _ & _ & ->)).
  rewrite Hd in Hd'. apply (inj Some) in Hd' as <-. rewrite Hpm1 in Hm1. apply Ok_inj in Hm1 as <-.
  assert (Hsame : pending_ttl_secs e1 = pending_ttl_secs e /\ key e1 = key e) by by rewrite Hsig.
  destruct Hsame as [Et Ek]. rewrite Et in Hx. rewrite Ek in Hfc.
  apply (steps_keep _ _ _ (response_session c) p) in Hs' as (S & W & G);
    [|by apply (bt_wf_insert _ _ _ (retain_wf _ (request_now r1) Hwf))|apply bt_get_insert|by rewrite Hc, Hx].
  assert (Hsig3 : same_signer e3 e).
  { unfold same_signer in *. rewrite S. cbn [set_pending pending manifest key engine_identifier max_pending pending_ttl_secs].
    rewrite Hsig. by destruct e. }
  destruct (handle e3 r2) as [e4 a] eqn:E. exists e4. f_equal.
  apply (handle_second _ _ _ _ _ _ _ Hr2 G E). apply (same_signer_signs _ e); [done|].
  rewrite <- Hfc in Hf. unfold signs. rewrite Hc, Hx, <- Hrc. done.
Qed.

(** C33: Two decisions of the same group overlap: whenever two signers of a manifest gave
    shares, in any runs, some member of the manifest takes part in both signing packages. *)
Theorem decisions_overlap {UO : UrlOps} {OO : @UrlOriginOps UO} {DO : DigestOps} {FO : FrostOps} {EO : EdOps}
    m n1 k1 x1 t1 e1 h1 e1' n2 k2 x2 t2 e2 h2 e2' r1 s1 sid1 p1 r2 s2 sid2 p2 :
  new m n1 k1 x1 t1 = Ok e1 -> steps e1 h1 e1' -> new m n2 k2 x2 t2 = Ok e2 -> steps e2 h2 e2' ->
  (r1, Ok (Share s1)) ∈ h1 -> request_round2 r1 = Some (sid1, p1) ->
  (r2, Ok (Share s2)) ∈ h2 -> request_round2 r2 = Some (sid2, p2) ->
  exists x id, x ∈ members m /\ identifier_try_from (identifier x) = Some id /\
    is_Some (signing_commitments p1 !! id) /\ is_Some (signing_commitments p2 !! id).
Proof.
  intros N1 S1 N2 S2 I1 R1 I2 R2.
  assert (M1 := share_majority _ _ _ _ _ _ _ _ _ _ _ _ N1 S1 I1 R1).
  assert (M2 := share_majority _ _ _ _ _ _ _ _ _ _ _ _ N2 S2 I2 R2).
  pose proof (new_facts _ _ _ _ _ _ N1) as (_ & _ & _ & _ & _ & _ & (keys & rs & Hm)%validate_manifest_ok).
  destruct M1 as (T1 & public & P1 & F1), M2 as (T2 & public' & P2 & F2).
  pose proof (mw_keys _ _ _ Hm) as Hk. rewrite Hk in P1, P2. apply Ok_inj in P1 as <-, P2 as <-.
  destruct (majority_meets m keys rs (dom (signing_commitments p1)) (dom (signing_commitments p2)))
    as (x & id & Hx & Hid & H1 & H2); try done; [by apply shares_cover..|by rewrite size_dom|by rewrite size_dom|].
  exists x, id. by rewrite <- !elem_of_dom.
Qed.

(** Two of three signers approve the enrollment of a node. *)
Section Runs.
Context {UO : UrlOps} {OO : @UrlOriginOps UO} {DO : DigestOps} {FO : FrostOps} {EO : EdOps}.

(** The history and the engine after a list of requests. *)
Definition run (e : SignerEngine) (rs : list Request) : history * SignerEngine :=
  foldl (fun '(h, e) r => let '(e', a) := handle e r in (h ++ [(r, a)], e')) ([], e) rs.

Lemma run_steps e rs : steps e (run e rs).1 (run e rs).2.
Proof.
  unfold run. assert (G : forall h e1, steps e h e1 ->
    steps e (foldl (fun '(h, e) r => let '(e', a) := handle e r in (h ++ [(r, a)], e')) (h, e1) rs).1
            (foldl (fun '(h, e) r => let '(e', a) := handle e r in (h ++ [(r, a)], e')) (h, e1) rs).2).
  { induction rs as [|r rs IH]; intros h e1 Hs; [done|]. simpl. destruct (handle e1 r) as [e2 a] eqn:E.
    by apply IH, (steps_snoc _ _ e1). }
  apply G. constructor.
Qed.

End Runs.

Module EngineExample.
Import QuorumInstances.

Definition digest_of_sample : bytes :=
  Eval vm_compute in match digest (sample_manifest 1) with Ok d => d | Err _ => [] end.

Definition enroll : CapabilityClaims := {|
  claims_schema := 1; claims_cluster := bstr "c"; claims_epoch := 1;
  Quorum.manifest_digest := digest_of_sample;
  method := bstr "POST"; path := bstr "/v1/admin/enrollment"; body_sha256 := replicate 32 x01;
  requester_public_key := replicate 32 x02; request_id := replicate 32 x03; issued_at := 10; expires_at := 100 |}.

Definition proof_of_requester : bytes :=
  Eval vm_compute in toy_signature (requester_public_key enroll) (proof_bytes enroll).

Definition draw_of (b : byte) : Draw := {| session_draw := Some (replicate 32 b); commit_draw := [b] |}.

Definition signer (id : Z) : SignerEngine := {|
  manifest := sample_manifest 1; key := (id, [x03; x01]); engine_identifier := id; max_pending := 4;
  pending_ttl_secs := 30; pending := [] |}.

(** The commitments of signers 1 and 2 from their draws 5 and 6. *)
Definition both : SigningPackage (FrostOps := toy_frost) :=
  ({[ 1 := toy_share [x03; x01] 1 ++ [x05]; 2 := toy_share [x03; x01] 2 ++ [x06] ]}, signing_bytes enroll).

Definition first_of (b : byte) (now : Z) : Request := Round1 enroll proof_of_requester now (draw_of b).
Definition second_of (b : byte) (now : Z) : Request := Round2 (replicate 32 b) enroll both now.

Definition run_a : history := (run (signer 1) [first_of x05 20; first_of x07 22; second_of x05 25]).1.
Definition run_b : history := (run (signer 2) [first_of x06 21; second_of x06 24]).1.

Lemma new_a : new (sample_manifest 1) (bstr "a") (1, [x03; x01]) 4 30 = Ok (signer 1).
Proof. reflexivity. Qed.

Lemma new_b : new (sample_manifest 1) (bstr "b") (2, [x03; x01]) 4 30 = Ok (signer 2).
Proof. reflexivity. Qed.

Lemma signed_bytes_unambiguous_witness : same_statement (Approve (Mutation enroll)) (Approve (Mutation enroll)).
Proof.
  assert (T : claims_typed enroll) by (split; vm_compute; done || (split; done)).
  exact (signed_bytes_unambiguous (Approve (Mutation enroll)) (Approve (Mutation enroll)) _ T T eq_refl eq_refl).
Defined.

Lemma signer_consents_witness : exists j, consented (signer 1) run_a 2 j.
Proof.
  destruct (signer_consents _ _ _ _ _ _ run_a _ new_a (run_steps _ _)) as (_ & origin & H & _).
  exists (origin 2%nat). apply H. exists (second_of x05 25), ([x05] ++ signing_bytes enroll). reflexivity.
Defined.

Lemma decisions_overlap_witness : exists id : Z,
  is_Some (signing_commitments both !! id) /\ is_Some (signing_commitments both !! id).
Proof.
  destruct (decisions_overlap _ _ _ _ _ _ run_a _ _ _ _ _ _ run_b _ (second_of x05 25) ([x05] ++ signing_bytes enroll)
              (replicate 32 x05) both (second_of x06 24) ([x06] ++ signing_bytes enroll) (replicate 32 x06) both
              new_a (run_steps _ _) new_b (run_steps _ _)) as (x & id & _ & _ & H).
  - apply (list_elem_of_lookup_2 _ 2). reflexivity.
  - done.
  - apply (list_elem_of_lookup_2 _ 1). reflexivity.
  - done.
  - by exists id.
Defined.

Definition answer_a : Round1Response (FO := toy_frost) := {|
  response_session := replicate 32 x05; response_identifier := 1;
  response_commitments := (toy_share [x03; x01] 1 ++ [x05] : SigningCommitments (FrostOps := toy_frost)) |}.

Definition opened_a : SignerEngine := (handle (signer 1) (first_of x05 20)).1.
Definition between : history * SignerEngine := run opened_a [first_of x07 22].

Lemma open_session_signs_witness :
  exists e4, handle between.2 (second_of x05 25) = (e4, Ok (Share ([x05] ++ signing_bytes enroll))).
Proof.
  apply (open_session_signs _ _ _ _ _ _ [] _ (first_of x05 20) answer_a (draw_of x05) opened_a between.1 _
    (second_of x05 25) both (signing_bytes enroll) _ new_a (steps_nil _)); try reflexivity.
  - apply run_steps.
  - by apply Forall_singleton.
  - done.
  - split; [done|]. split; [|done]. eexists. split; [reflexivity|]. apply map_Forall_insert_2; [done|].
    by apply map_Forall_singleton.
Defined.

End EngineExample.
End Engine.
