(* ===== verification/RelayWire.v ===== *)
(** * Relay datagrams (crates/ipars-relay/src/lib.rs)

    The four versions of the frame that a client sends to a relay, with their encoders
    and the decoder; the size and identifier checks; the constant-time comparison of
    session tokens; the recognition of raw WireGuard messages and their indices. *)

From S2P Require Import Prelude RustStd BTree.

Module RelayWire.

Inductive RelayError : Type :=
  | InvalidAdmissionRequest
  | AdmissionDenied
  | NodeSessionLimitExceeded
  | UnknownSession
  | SessionExpired
  | InvalidSessionCredential
  | RateLimited
  | MalformedFrame
  | FrameTooLarge
  | Socket.

#[global] Instance RelayError_eq_dec : EqDecision RelayError.
Proof. solve_decision. Defined.

(** [RelaySessionId] wraps a [String]; its derived order is the order of strings. *)
Definition RelaySessionId : Type := bytes.

Definition session_id_new (left right : NodeId) : RelaySessionId :=
  match kcmp left right with
  | Lt | Eq => left ++ bstr ":" ++ right
  | Gt => right ++ bstr ":" ++ left
  end.

Record RelayFrame : Type := {
  rf_session_id : RelaySessionId;
  rf_session_token : bytes;
  rf_source : NodeId;
  rf_destination : NodeId;
  rf_ciphertext_payload : bytes
}.

Record RelayDatagram : Type := {
  session_id : RelaySessionId;
  session_token : bytes;
  source : option NodeId;
  destination : option NodeId;
  ciphertext_payload : bytes;
  endpoint_announcement : bool
}.

#[global] Instance RelayDatagram_eq_dec : EqDecision RelayDatagram.
Proof. solve_decision. Defined.

Definition RELAY_FRAME_MAGIC : bytes := Eval vm_compute in bstr "IPARS-RLY1".
Definition RELAY_FRAME_MAGIC_V2 : bytes := Eval vm_compute in bstr "IPARS-RLY2".
Definition RELAY_FRAME_MAGIC_V3 : bytes := Eval vm_compute in bstr "IPARS-RLY3".
Definition RELAY_FRAME_MAGIC_V4 : bytes := Eval vm_compute in bstr "IPARS-RLY4".
Definition MAX_RELAY_SESSION_ID_BYTES : Z := 4096.
Definition MAX_RELAY_SESSION_TOKEN_BYTES : Z := 256.
Definition MAX_RELAY_NODE_ID_BYTES : Z := 128.
Definition MAX_RELAY_CIPHERTEXT_PAYLOAD_BYTES : Z := 131072.
Definition MAX_WIREGUARD_SENDER_INDICES_PER_SIDE : nat := 8.

(** ** Checks on sizes and identifiers *)

Definition node_id_byte (b : byte) : bool :=
  is_ascii_alphanumeric b
  || bool_decide (b = x2e) || bool_decide (b = x5f) || bool_decide (b = x2d).

Definition relay_node_id_is_valid (node_id : bytes) : bool :=
  bool_decide (node_id <> [])
  && (lenZ node_id <=? MAX_RELAY_NODE_ID_BYTES)
  && negb (bool_decide (node_id = bstr ".") || bool_decide (node_id = bstr ".."))
  && negb (starts_with node_id (bstr "-"))
  && forallb node_id_byte node_id.

Definition validate_relay_admission_node_id (node_id : NodeId) : result unit RelayError :=
  if relay_node_id_is_valid node_id then Ok tt else Err InvalidAdmissionRequest.

Definition validate_relay_frame_node_id (node_id : bytes) : result unit RelayError :=
  if relay_node_id_is_valid node_id then Ok tt else Err MalformedFrame.

Definition validate_relay_frame_sizes_with_options
    (session_id_len session_token_len ciphertext_payload_len : Z) (allow_empty_payload : bool)
  : result unit RelayError :=
  if (session_id_len =? 0) || (session_token_len =? 0)
     || (negb allow_empty_payload && (ciphertext_payload_len =? 0))
  then Err MalformedFrame
  else if (MAX_RELAY_SESSION_ID_BYTES <? session_id_len)
          || (MAX_RELAY_SESSION_TOKEN_BYTES <? session_token_len)
          || (MAX_RELAY_CIPHERTEXT_PAYLOAD_BYTES <? ciphertext_payload_len)
  then Err FrameTooLarge
  else if (65535 <? session_id_len) || (65535 <? session_token_len)
  then Err FrameTooLarge
  else Ok tt.

Definition validate_relay_frame_sizes (sid_len token_len payload_len : Z)
  : result unit RelayError :=
  validate_relay_frame_sizes_with_options sid_len token_len payload_len false.

Definition validate_relay_frame_sizes_allow_empty (sid_len token_len payload_len : Z)
  : result unit RelayError :=
  validate_relay_frame_sizes_with_options sid_len token_len payload_len true.

Definition validate_relay_node_id_size (node_id_len : Z) : result unit RelayError :=
  if (node_id_len =? 0) || (MAX_RELAY_NODE_ID_BYTES <? node_id_len) || (65535 <? node_id_len)
  then Err FrameTooLarge
  else Ok tt.

(** ** Encoders *)

Definition u16_be (len : Z) : bytes := be_bytes 2 (as_width 16 len).

Definition encode_relay_datagram (sid token payload : bytes) : result bytes RelayError :=
  if bool_decide (sid = []) || bool_decide (token = []) || bool_decide (payload = [])
  then Err MalformedFrame else
  let? _ := validate_relay_frame_sizes (lenZ sid) (lenZ token) (lenZ payload) in
  Ok (RELAY_FRAME_MAGIC ++ u16_be (lenZ sid) ++ u16_be (lenZ token)
      ++ sid ++ token ++ payload).

(** The layout of versions 2 to 4: four lengths, the four strings, the payload. *)
Definition routed_frame (magic sid token src dst payload : bytes) : bytes :=
  magic ++ u16_be (lenZ sid) ++ u16_be (lenZ token) ++ u16_be (lenZ src) ++ u16_be (lenZ dst)
  ++ sid ++ token ++ src ++ dst ++ payload.

Definition encode_relay_datagram_with_route (sid token : bytes) (src dst : NodeId)
    (payload : bytes) : result bytes RelayError :=
  if bool_decide (sid = []) || bool_decide (token = []) || bool_decide (src = [])
     || bool_decide (dst = []) || bool_decide (payload = [])
  then Err MalformedFrame else
  let? _ := validate_relay_frame_sizes (lenZ sid) (lenZ token) (lenZ payload) in
  let? _ := validate_relay_frame_node_id src in
  let? _ := validate_relay_frame_node_id dst in
  Ok (routed_frame RELAY_FRAME_MAGIC_V2 sid token src dst payload).

Definition encode_relay_endpoint_announcement (sid token : bytes) (src dst : NodeId)
  : result bytes RelayError :=
  if bool_decide (sid = []) || bool_decide (token = []) || bool_decide (src = [])
     || bool_decide (dst = [])
  then Err MalformedFrame else
  let? _ := validate_relay_frame_sizes_allow_empty (lenZ sid) (lenZ token) 0 in
  let? _ := validate_relay_frame_node_id src in
  let? _ := validate_relay_frame_node_id dst in
  Ok (routed_frame RELAY_FRAME_MAGIC_V3 sid token src dst []).

(** [packet[..magic.len()].copy_from_slice(magic)] *)
Definition replace_magic (magic packet : bytes) : bytes :=
  magic ++ drop (length magic) packet.

Definition encode_relay_endpoint_probe (sid token : bytes) (src dst : NodeId)
  : result bytes RelayError :=
  let? packet := encode_relay_endpoint_announcement sid token src dst in
  Ok (replace_magic RELAY_FRAME_MAGIC_V4 packet).

(** ** The decoder *)

Definition u16_at (d : bytes) (offset : Z) : Z := be_value (slice d offset (offset + 2)).

Definition from_utf8 (bs : bytes) : result bytes RelayError :=
  if utf8_valid bs then Ok bs else Err MalformedFrame.

Definition decode_relay_datagram_v1 (d : bytes) : result RelayDatagram RelayError :=
  let fixed_header_len := lenZ RELAY_FRAME_MAGIC + 4 in
  if (lenZ d <=? fixed_header_len) || negb (starts_with d RELAY_FRAME_MAGIC)
  then Err MalformedFrame else
  let session_len_offset := lenZ RELAY_FRAME_MAGIC in
  let token_len_offset := session_len_offset + 2 in
  let session_len := u16_at d session_len_offset in
  let token_len := u16_at d token_len_offset in
  let session_start := fixed_header_len in
  let token_start := session_start + session_len in
  let payload_start := token_start + token_len in
  if (session_len =? 0) || (token_len =? 0) then Err MalformedFrame else
  let? _ := validate_relay_frame_sizes session_len token_len
              (saturating_sub (lenZ d) payload_start) in
  if (lenZ d <? token_start) || (lenZ d <=? payload_start) then Err MalformedFrame else
  let? sid := from_utf8 (slice d session_start token_start) in
  let? token := from_utf8 (slice d token_start payload_start) in
  Ok {| session_id := sid; session_token := token; source := None; destination := None;
        ciphertext_payload := drop (Z.to_nat payload_start) d;
        endpoint_announcement := false |}.

Definition decode_relay_datagram_v2_with_options (d magic : bytes) (announcement : bool)
  : result RelayDatagram RelayError :=
  let fixed_header_len := lenZ magic + 8 in
  if (lenZ d <? fixed_header_len) || negb (starts_with d magic) then Err MalformedFrame else
  let session_len_offset := lenZ magic in
  let token_len_offset := session_len_offset + 2 in
  let source_len_offset := token_len_offset + 2 in
  let destination_len_offset := source_len_offset + 2 in
  let session_len := u16_at d session_len_offset in
  let token_len := u16_at d token_len_offset in
  let source_len := u16_at d source_len_offset in
  let destination_len := u16_at d destination_len_offset in
  let session_start := fixed_header_len in
  let token_start := session_start + session_len in
  let source_start := token_start + token_len in
  let destination_start := source_start + source_len in
  let payload_start := destination_start + destination_len in
  if (session_len =? 0) || (token_len =? 0) || (source_len =? 0) || (destination_len =? 0)
  then Err MalformedFrame else
  let? _ := if announcement
            then validate_relay_frame_sizes_allow_empty session_len token_len
                   (saturating_sub (lenZ d) payload_start)
            else validate_relay_frame_sizes session_len token_len
                   (saturating_sub (lenZ d) payload_start) in
  let? _ := validate_relay_node_id_size source_len in
  let? _ := validate_relay_node_id_size destination_len in
  if (lenZ d <? token_start) || (lenZ d <? source_start) || (lenZ d <? destination_start)
     || (lenZ d <? payload_start) || (negb announcement && (payload_start =? lenZ d))
  then Err MalformedFrame else
  let? sid := from_utf8 (slice d session_start token_start) in
  let? token := from_utf8 (slice d token_start source_start) in
  let? src := from_utf8 (slice d source_start destination_start) in
  let? dst := from_utf8 (slice d destination_start payload_start) in
  let? _ := validate_relay_frame_node_id src in
  let? _ := validate_relay_frame_node_id dst in
  Ok {| session_id := sid; session_token := token; source := Some src;
        destination := Some dst; ciphertext_payload := drop (Z.to_nat payload_start) d;
        endpoint_announcement := announcement |}.

Definition decode_relay_datagram_v2 (d : bytes) : result RelayDatagram RelayError :=
  decode_relay_datagram_v2_with_options d RELAY_FRAME_MAGIC_V2 false.

Definition decode_relay_datagram_v3 (d : bytes) : result RelayDatagram RelayError :=
  decode_relay_datagram_v2_with_options d RELAY_FRAME_MAGIC_V3 true.

(** A version-4 datagram is decoded as the version-3 datagram with the same contents; the
    rewritten copy starts with the version-3 magic, so the recursive call of the code
    takes its second branch. *)
Definition decode_relay_datagram (d : bytes) : result RelayDatagram RelayError :=
  if starts_with d RELAY_FRAME_MAGIC_V4
  then decode_relay_datagram_v3 (replace_magic RELAY_FRAME_MAGIC_V3 d)
  else if starts_with d RELAY_FRAME_MAGIC_V3 then decode_relay_datagram_v3 d
  else if starts_with d RELAY_FRAME_MAGIC_V2 then decode_relay_datagram_v2 d
  else decode_relay_datagram_v1 d.

(** ** Session tokens *)

(** The loop reads 256 positions of both strings, zero beyond their ends. *)
Definition token_byte (s : bytes) (index : nat) : Z :=
  match s !! index with Some b => byteZ b | None => 0 end.

Definition relay_session_token_matches (expected provided : bytes) : bool :=
  if (MAX_RELAY_SESSION_TOKEN_BYTES <? lenZ expected)
     || (MAX_RELAY_SESSION_TOKEN_BYTES <? lenZ provided)
  then false
  else
    let diff := Z.lxor (lenZ expected) (lenZ provided) in
    foldl (fun diff index =>
             Z.lor diff (Z.lxor (token_byte expected index) (token_byte provided index)))
      diff (seq 0 (Z.to_nat MAX_RELAY_SESSION_TOKEN_BYTES)) =? 0.

(** ** WireGuard messages *)

Definition wireguard_datagram_payload (payload : bytes) : bool :=
  if (lenZ payload <? 4)
     || bool_decide (slice_get payload 1 4 <> Some [x00; x00; x00])
  then false
  else
    match payload with
    | [] => false
    | kind :: _ =>
        match byteZ kind with
        | 1 => lenZ payload =? 148
        | 2 => lenZ payload =? 92
        | 3 => lenZ payload =? 64
        | 4 => (32 <=? lenZ payload) && (lenZ payload mod 16 =? 0)
        | _ => false
        end
    end.

Definition read_wireguard_index (payload : bytes) (offset : Z) : option Z :=
  match slice_get payload offset (offset + 4) with
  | Some bs => Some (le_value bs)
  | None => None
  end.

Definition wireguard_sender_index (payload : bytes) : option Z :=
  match payload with
  | [] => None
  | kind :: _ =>
      if wireguard_datagram_payload payload then
        match byteZ kind with
        | 1 | 2 => read_wireguard_index payload 4
        | _ => None
        end
      else None
  end.

Definition wireguard_receiver_index (payload : bytes) : option Z :=
  match payload with
  | [] => None
  | kind :: _ =>
      if wireguard_datagram_payload payload then
        match byteZ kind with
        | 2 => read_wireguard_index payload 8
        | 3 | 4 => read_wireguard_index payload 4
        | _ => None
        end
      else None
  end.

(** ** Token comparison *)

Lemma foldl_lor_zero {A} (f : A -> Z) (l : list A) (d : Z) :
  foldl (fun d x => Z.lor d (f x)) d l = 0 <-> d = 0 /\ Forall (fun x => f x = 0) l.
Proof.
  revert d. induction l as [|x l IH]; intros d; simpl; [rewrite Forall_nil; tauto|].
  rewrite IH, Forall_cons, Z.lor_eq_0_iff. tauto.
Qed.

Lemma token_byte_inj (s t : bytes) :
  length s = length t ->
  (forall i, (i < length s)%nat -> token_byte s i = token_byte t i) -> s = t.
Proof.
  intros Hl Hb. apply list_eq_same_length with (length s); [done|done|].
  intros i x y Hi Hx Hy. specialize (Hb i Hi). unfold token_byte in Hb.
  rewrite Hx, Hy in Hb. by apply byteZ_inj.
Qed.

Lemma token_matches_spec (s t : bytes) :
  relay_session_token_matches s t = true <-> s = t /\ lenZ s <= 256.
Proof.
  unfold relay_session_token_matches, MAX_RELAY_SESSION_TOKEN_BYTES.
  destruct (_ || _)%bool eqn:E; [split; [done|intros [-> Hl]]; bool_to_prop; lia|].
  bool_to_prop. rewrite Z.eqb_eq, foldl_lor_zero, Z.lxor_eq_0_iff, Forall_forall.
  split.
  - intros [Hl Hall]. split; [|done]. apply token_byte_inj; [lia|].
    intros i Hi. apply Z.lxor_eq. apply Hall. apply elem_of_seq. lia.
  - intros [-> _]. split; [done|]. intros. apply Z.lxor_nilpotent.
Qed.

(** The constant-time comparison of session tokens decides equality: it accepts exactly
    the token of the session, for tokens of the admitted length. *)
Theorem constant_time_compare_is_equality (expected provided : bytes) :
  relay_session_token_matches expected provided = true <->
  expected = provided /\ lenZ expected <= 256.
Proof. apply token_matches_spec. Qed.

(** ** Inversion of the checks *)

Lemma sizes_ok a b c o :
  validate_relay_frame_sizes_with_options a b c o = Ok tt <->
  a <> 0 /\ b <> 0 /\ (o = false -> c <> 0) /\ a <= 4096 /\ b <= 256 /\ c <= 131072.
Proof.
  unfold validate_relay_frame_sizes_with_options, MAX_RELAY_SESSION_ID_BYTES,
    MAX_RELAY_SESSION_TOKEN_BYTES, MAX_RELAY_CIPHERTEXT_PAYLOAD_BYTES.
  rewrite !guard_ok. destruct o; simpl; reflect_rw; intuition lia.
Qed.

Lemma node_id_size_ok n : validate_relay_node_id_size n = Ok tt <-> n <> 0 /\ n <= 128.
Proof.
  unfold validate_relay_node_id_size, MAX_RELAY_NODE_ID_BYTES. rewrite guard_ok. reflect_rw.
  intuition lia.
Qed.

Lemma frame_node_id_ok n :
  validate_relay_frame_node_id n = Ok tt <-> relay_node_id_is_valid n = true.
Proof. unfold validate_relay_frame_node_id. by destruct (relay_node_id_is_valid n). Qed.

Lemma node_id_byte_ascii b : node_id_byte b = true -> is_ascii b = true.
Proof.
  unfold node_id_byte. rewrite !orb_true_iff, !bool_decide_eq_true.
  intros [[[H| ->]| ->]| ->]; [|done..]. by apply is_ascii_alphanumeric_ascii.
Qed.

Lemma node_id_valid_inv n :
  relay_node_id_is_valid n = true ->
  n <> [] /\ lenZ n <= 128 /\ Forall (fun b => node_id_byte b = true) n.
Proof.
  unfold relay_node_id_is_valid, MAX_RELAY_NODE_ID_BYTES. intros H.
  apply andb_true_iff in H as [[[[H1 H2]%andb_true_iff _]%andb_true_iff _]%andb_true_iff H3].
  rewrite bool_decide_eq_true in H1. rewrite Z.leb_le in H2. by rewrite forallb_Forall in H3.
Qed.

Lemma node_id_valid_utf8 n : relay_node_id_is_valid n = true -> utf8_valid n = true.
Proof.
  intros (_ & _ & H)%node_id_valid_inv. apply utf8_valid_ascii, forallb_Forall.
  eapply Forall_impl; [done|]. apply node_id_byte_ascii.
Qed.

Lemma from_utf8_ok s t : from_utf8 s = Ok t <-> s = t /\ utf8_valid s = true.
Proof. unfold from_utf8. destruct (utf8_valid s); split; intuition congruence. Qed.

(** ** The layout of frames *)

Lemma u16_at_split d o :
  0 <= o -> o + 2 <= lenZ d ->
  drop (Z.to_nat o) d = u16_be (u16_at d o) ++ drop (Z.to_nat (o + 2)) d /\
  0 <= u16_at d o < 65536.
Proof.
  intros Ho Hl. destruct (slice_split d o (o + 2)) as [Hd Hs]; [lia|lia|].
  unfold u16_be, u16_at. pose proof (be_value_bound (slice d o (o + 2))) as Hb.
  rewrite Hs in Hb. replace (o + 2 - o) with 2 in * by lia. change (2 ^ (8 * 2)) with 65536 in Hb.
  split; [|lia]. rewrite as_width_id by done.
  rewrite be_bytes_be_value by lia. done.
Qed.

Lemma u16_at_read d o n r :
  0 <= o -> 0 <= n < 65536 -> drop (Z.to_nat o) d = u16_be n ++ r ->
  u16_at d o = n /\ drop (Z.to_nat (o + 2)) d = r.
Proof.
  intros Ho Hn Hd. unfold u16_be in Hd. rewrite as_width_id in Hd by done.
  destruct (slice_at d _ r o (o + 2) Ho Hd) as [Hs Hr].
  { by rewrite length_be_bytes. }
  unfold u16_at. rewrite Hs. split; [|done]. by apply be_value_be_bytes.
Qed.

Lemma length_u16_be n : lenZ (u16_be n) = 2.
Proof. unfold u16_be. by rewrite length_be_bytes. Qed.

(** What the decoder demands of the four strings and the payload of a frame. *)
Definition strings_ok (sid token : bytes) : Prop :=
  1 <= lenZ sid <= 4096 /\ 1 <= lenZ token <= 256 /\
  utf8_valid sid = true /\ utf8_valid token = true.

Lemma decode_v1_complete sid token payload :
  strings_ok sid token -> 1 <= lenZ payload <= 131072 ->
  decode_relay_datagram_v1
    (RELAY_FRAME_MAGIC ++ u16_be (lenZ sid) ++ u16_be (lenZ token) ++ sid ++ token ++ payload) =
  Ok {| session_id := sid; session_token := token; source := None; destination := None;
        ciphertext_payload := payload; endpoint_announcement := false |}.
Proof.
  intros (Hs & Ht & Us & Ut) Hp. remember (RELAY_FRAME_MAGIC ++ _) as d eqn:Ed.
  assert (H10 : drop (Z.to_nat 10) d
                = u16_be (lenZ sid) ++ u16_be (lenZ token) ++ sid ++ token ++ payload)
    by by rewrite Ed, drop_app_length'.
  assert (Hl : lenZ d = 14 + lenZ sid + lenZ token + lenZ payload).
  { rewrite Ed, !length_app, !Nat2Z.inj_add, !length_u16_be.
    change (lenZ RELAY_FRAME_MAGIC) with 10. lia. }
  apply u16_at_read in H10 as [E1 H12]; [|lia..].
  apply u16_at_read in H12 as [E2 H14]; [|lia..].
  edestruct (slice_at d sid) as [E3 Htok]; [|exact H14|reflexivity|]; [lia|].
  edestruct (slice_at d token) as [E4 Hpay]; [|exact Htok|reflexivity|]; [lia|].
  unfold decode_relay_datagram_v1. change (lenZ RELAY_FRAME_MAGIC) with 10.
  rewrite E1, E2. change (10 + 4) with 14. change (10 + 2 + 2) with 14 in *.
  rewrite E3, E4, Hpay. unfold from_utf8. rewrite Us, Ut.
  assert (Hm : starts_with d RELAY_FRAME_MAGIC = true) by by rewrite Ed, starts_with_app.
  rewrite Hm. unfold validate_relay_frame_sizes.
  rewrite (proj2 (sizes_ok _ _ _ _)) by (unfold saturating_sub; lia).
  clear - Hl Hs Ht Hp. skip_guards. done.
Qed.

Lemma decode_v1_sound d f :
  decode_relay_datagram_v1 d = Ok f ->
  exists sid token payload,
    d = RELAY_FRAME_MAGIC ++ u16_be (lenZ sid) ++ u16_be (lenZ token)
        ++ sid ++ token ++ payload /\
    strings_ok sid token /\ 1 <= lenZ payload <= 131072 /\
    f = {| session_id := sid; session_token := token; source := None; destination := None;
           ciphertext_payload := payload; endpoint_announcement := false |}.
Proof.
  unfold decode_relay_datagram_v1. change (lenZ RELAY_FRAME_MAGIC) with 10.
  rewrite guard_ok. intros [G1 H]. rewrite guard_ok in H. destruct H as [G2 H].
  rewrite bind_ok in H. destruct H as ([] & G3 & H). rewrite guard_ok in H.
  destruct H as [G4 H]. rewrite bind_ok in H. destruct H as (sid & [<- Us]%from_utf8_ok & H).
  rewrite bind_ok in H. destruct H as (token & [<- Ut]%from_utf8_ok & H).
  apply Ok_inj in H. apply sizes_ok in G3.
  apply orb_false_iff in G1 as [Gl Gm]. apply negb_false_iff, starts_with_true in Gm.
  rewrite Z.leb_gt in Gl. change (length RELAY_FRAME_MAGIC) with (Z.to_nat 10) in Gm.
  destruct (u16_at_split d 10) as [D1 B1]; [lia..|].
  destruct (u16_at_split d (10 + 2)) as [D2 B2]; [lia..|].
  remember (u16_at d 10) as n1. remember (u16_at d (10 + 2)) as n2.
  unfold saturating_sub in G3. bool_to_prop. change (10 + 2 + 2) with 14 in *.
  change (10 + 4) with 14 in *.
  destruct (slice_split d 14 (14 + n1)) as [D3 L3]; [lia..|].
  destruct (slice_split d (14 + n1) (14 + n1 + n2)) as [D4 L4]; [lia..|].
  remember (slice d 14 (14 + n1)) as sid. remember (slice d (14 + n1) (14 + n1 + n2)) as token.
  exists sid, token, (drop (Z.to_nat (14 + n1 + n2)) d).
  split; [|split; [|split; [|done]]].
  - rewrite L3, L4. replace (14 + n1 - 14) with n1 by lia.
    replace (14 + n1 + n2 - (14 + n1)) with n2 by lia. congruence.
  - unfold strings_ok. rewrite L3, L4. split_and!; try done; lia.
  - rewrite length_drop. lia.
Qed.

(** Versions 2 and 3 share the layout of [routed_frame]. *)
Lemma decode_routed_complete magic ann sid token src dst payload :
  strings_ok sid token ->
  relay_node_id_is_valid src = true -> relay_node_id_is_valid dst = true ->
  lenZ payload <= 131072 -> (ann = false -> payload <> []) ->
  decode_relay_datagram_v2_with_options (routed_frame magic sid token src dst payload) magic ann =
  Ok {| session_id := sid; session_token := token; source := Some src; destination := Some dst;
        ciphertext_payload := payload; endpoint_announcement := ann |}.
Proof.
  intros (Hs & Ht & Us & Ut) Vsrc Vdst Hp Hann.
  pose proof (node_id_valid_utf8 _ Vsrc) as Uu. pose proof (node_id_valid_utf8 _ Vdst) as Ud.
  pose proof (node_id_valid_inv _ Vsrc) as (Nsrc%lenZ_pos & Lsrc & _).
  pose proof (node_id_valid_inv _ Vdst) as (Ndst%lenZ_pos & Ldst & _).
  remember (routed_frame magic sid token src dst payload) as d eqn:Ed.
  assert (H0 : drop (Z.to_nat (lenZ magic)) d = u16_be (lenZ sid) ++ u16_be (lenZ token)
     ++ u16_be (lenZ src) ++ u16_be (lenZ dst) ++ sid ++ token ++ src ++ dst ++ payload)
    by by rewrite Ed, Nat2Z.id; unfold routed_frame; rewrite drop_app_length.
  assert (Hl : lenZ d = lenZ magic + 8 + lenZ sid + lenZ token + lenZ src + lenZ dst
                        + lenZ payload).
  { rewrite Ed. unfold routed_frame. rewrite !length_app, !Nat2Z.inj_add, !length_u16_be. lia. }
  apply u16_at_read in H0 as [E1 H0]; [|lia..]. apply u16_at_read in H0 as [E2 H0]; [|lia..].
  apply u16_at_read in H0 as [E3 H0]; [|lia..]. apply u16_at_read in H0 as [E4 H0]; [|lia..].
  replace (lenZ magic + 2 + 2 + 2 + 2) with (lenZ magic + 8) in H0 by lia.
  edestruct (slice_at d sid) as [S1 K1]; [|exact H0|reflexivity|]; [lia|].
  edestruct (slice_at d token) as [S2 K2]; [|exact K1|reflexivity|]; [lia|].
  edestruct (slice_at d src) as [S3 K3]; [|exact K2|reflexivity|]; [lia|].
  edestruct (slice_at d dst) as [S4 K4]; [|exact K3|reflexivity|]; [lia|].
  unfold decode_relay_datagram_v2_with_options.
  rewrite E1, E2, E3, E4, S1, S2, S3, S4, K4. unfold from_utf8. rewrite Us, Ut, Uu, Ud.
  rewrite !(proj2 (frame_node_id_ok _)), !(proj2 (node_id_size_ok _)) by (done || lia).
  unfold validate_relay_frame_sizes_allow_empty, validate_relay_frame_sizes.
  assert (Hm : starts_with d magic = true) by (rewrite Ed; apply starts_with_app). rewrite Hm.
  assert (Hpos : ann = false -> 1 <= lenZ payload) by (intros; by apply lenZ_pos, Hann).
  clear - Hl Hs Ht Nsrc Ndst Lsrc Ldst Hp Hpos.
  destruct ann; rewrite (proj2 (sizes_ok _ _ _ _)) by (unfold saturating_sub; lia);
    skip_guards; done.
Qed.

Lemma decode_routed_sound magic ann d f :
  decode_relay_datagram_v2_with_options d magic ann = Ok f ->
  exists sid token src dst payload,
    d = routed_frame magic sid token src dst payload /\ strings_ok sid token /\
    relay_node_id_is_valid src = true /\ relay_node_id_is_valid dst = true /\
    lenZ payload <= 131072 /\ (ann = false -> payload <> []) /\
    f = {| session_id := sid; session_token := token; source := Some src;
           destination := Some dst; ciphertext_payload := payload;
           endpoint_announcement := ann |}.
Proof.
  unfold decode_relay_datagram_v2_with_options. rewrite guard_ok. intros [G1 H].
  rewrite guard_ok in H. destruct H as [_ H].
  rewrite bind_ok in H. destruct H as ([] & G2 & H).
  rewrite !bind_ok in H. destruct H as ([] & _ & H). rewrite bind_ok in H.
  destruct H as ([] & _ & H). rewrite guard_ok in H. destruct H as [G3 H].
  rewrite bind_ok in H. destruct H as (sid & [Es Us]%from_utf8_ok & H).
  rewrite bind_ok in H. destruct H as (token & [Et Ut]%from_utf8_ok & H).
  rewrite bind_ok in H. destruct H as (src & [Eu _]%from_utf8_ok & H).
  rewrite bind_ok in H. destruct H as (dst & [Ed _]%from_utf8_ok & H).
  rewrite bind_ok in H. destruct H as ([] & Vsrc%frame_node_id_ok & H).
  rewrite bind_ok in H. destruct H as ([] & Vdst%frame_node_id_ok & H). apply Ok_inj in H.
  rewrite Es in Us. rewrite Et in Ut.
  assert (Gs : validate_relay_frame_sizes_with_options (u16_at d (lenZ magic))
    (u16_at d (lenZ magic + 2)) (saturating_sub (lenZ d) (lenZ magic + 8 + u16_at d (lenZ magic)
      + u16_at d (lenZ magic + 2) + u16_at d (lenZ magic + 2 + 2)
      + u16_at d (lenZ magic + 2 + 2 + 2))) ann = Ok tt) by by destruct ann.
  clear G2. apply sizes_ok in Gs. unfold saturating_sub in Gs.
  apply orb_false_iff in G1 as [Gl Gm]. apply negb_false_iff, starts_with_true in Gm.
  rewrite Z.ltb_ge in Gl. rewrite <- (Nat2Z.id (length magic)) in Gm.
  pose proof (Nat2Z.is_nonneg (length magic)) as Hpos.
  remember (lenZ magic) as m eqn:Em. clear Em.
  destruct (u16_at_split d m) as [D1 B1]; [lia..|].
  destruct (u16_at_split d (m + 2)) as [D2 B2]; [lia..|].
  destruct (u16_at_split d (m + 2 + 2)) as [D3 B3]; [lia..|].
  destruct (u16_at_split d (m + 2 + 2 + 2)) as [D4 B4]; [lia..|].
  remember (u16_at d m) as n1. remember (u16_at d (m + 2)) as n2.
  remember (u16_at d (m + 2 + 2)) as n3. remember (u16_at d (m + 2 + 2 + 2)) as n4.
  replace (m + 2 + 2 + 2 + 2) with (m + 8) in D4 by lia. bool_to_prop.
  destruct (slice_split d (m + 8) (m + 8 + n1)) as [K1 L1]; [lia..|].
  destruct (slice_split d (m + 8 + n1) (m + 8 + n1 + n2)) as [K2 L2]; [lia..|].
  destruct (slice_split d (m + 8 + n1 + n2) (m + 8 + n1 + n2 + n3)) as [K3 L3]; [lia..|].
  destruct (slice_split d (m + 8 + n1 + n2 + n3) (m + 8 + n1 + n2 + n3 + n4)) as [K4 L4]; [lia..|].
  rewrite Es in K1, L1. rewrite Et in K2, L2. rewrite Eu in K3, L3. rewrite Ed in K4, L4.
  exists sid, token, src, dst, (drop (Z.to_nat (m + 8 + n1 + n2 + n3 + n4)) d).
  split; [|split; [|split; [done|split; [done|split; [|split; [|done]]]]]].
  - unfold routed_frame. replace (lenZ sid) with n1 by lia. replace (lenZ token) with n2 by lia.
    replace (lenZ src) with n3 by lia. replace (lenZ dst) with n4 by lia. congruence.
  - unfold strings_ok. split_and!; try done; lia.
  - rewrite length_drop. lia.
  - intros ->. apply lenZ_pos. rewrite length_drop. lia.
Qed.

Lemma starts_with_magic (m m' r : bytes) :
  length m = length m' -> starts_with (m ++ r) m' = bool_decide (m = m').
Proof. intros Hl. unfold starts_with. by rewrite <- Hl, take_app_length. Qed.

Lemma decode_magic (m r : bytes) :
  m ∈ [RELAY_FRAME_MAGIC; RELAY_FRAME_MAGIC_V2; RELAY_FRAME_MAGIC_V3; RELAY_FRAME_MAGIC_V4] ->
  decode_relay_datagram (m ++ r) =
  if bool_decide (m = RELAY_FRAME_MAGIC) then decode_relay_datagram_v1 (m ++ r)
  else if bool_decide (m = RELAY_FRAME_MAGIC_V2) then decode_relay_datagram_v2 (m ++ r)
  else decode_relay_datagram_v3 (RELAY_FRAME_MAGIC_V3 ++ r).
Proof.
  intros Hm. unfold decode_relay_datagram. rewrite !elem_of_cons in Hm.
  destruct Hm as [->|[->|[->|[->|[]%not_elem_of_nil]]]];
    rewrite !starts_with_magic by done; reflexivity.
Qed.

(** The equation the code is written with: version 4 calls the decoder again. *)
Lemma decode_relay_datagram_eq d :
  decode_relay_datagram d =
  if starts_with d RELAY_FRAME_MAGIC_V4
  then decode_relay_datagram (replace_magic RELAY_FRAME_MAGIC_V3 d)
  else if starts_with d RELAY_FRAME_MAGIC_V3 then decode_relay_datagram_v3 d
  else if starts_with d RELAY_FRAME_MAGIC_V2 then decode_relay_datagram_v2 d
  else decode_relay_datagram_v1 d.
Proof.
  unfold replace_magic. rewrite (decode_magic RELAY_FRAME_MAGIC_V3) by (rewrite !elem_of_cons; auto).
  unfold decode_relay_datagram at 1. by destruct (starts_with d RELAY_FRAME_MAGIC_V4).
Qed.

Lemma encode_v1_ok sid token payload d :
  encode_relay_datagram sid token payload = Ok d <->
  d = RELAY_FRAME_MAGIC ++ u16_be (lenZ sid) ++ u16_be (lenZ token) ++ sid ++ token ++ payload /\
  1 <= lenZ sid <= 4096 /\ 1 <= lenZ token <= 256 /\ 1 <= lenZ payload <= 131072.
Proof.
  unfold encode_relay_datagram. rewrite guard_ok, bind_ok. split.
  - intros (_ & [] & G & H). apply Ok_inj in H. apply sizes_ok in G. split; [done|]. lia.
  - intros (-> & Hs & Ht & Hp). split; [|exists tt; split; [apply sizes_ok; lia|done]].
    destruct sid, token, payload; simpl in Hs, Ht, Hp; try lia; done.
Qed.

Lemma encode_v2_ok sid token src dst payload d :
  encode_relay_datagram_with_route sid token src dst payload = Ok d <->
  d = routed_frame RELAY_FRAME_MAGIC_V2 sid token src dst payload /\
  1 <= lenZ sid <= 4096 /\ 1 <= lenZ token <= 256 /\ 1 <= lenZ payload <= 131072 /\
  relay_node_id_is_valid src = true /\ relay_node_id_is_valid dst = true.
Proof.
  unfold encode_relay_datagram_with_route. rewrite guard_ok, bind_ok. split.
  - intros (_ & [] & G & H). rewrite bind_ok in H. destruct H as ([] & V1%frame_node_id_ok & H).
    rewrite bind_ok in H. destruct H as ([] & V2%frame_node_id_ok & H).
    apply Ok_inj in H. apply sizes_ok in G. split; [done|]. split_and!; try done; lia.
  - intros (-> & Hs & Ht & Hp & V1 & V2).
    split; [|exists tt; split; [apply sizes_ok; lia|]].
    + destruct sid, token, payload, src, dst; simpl in Hs, Ht, Hp; try lia; done.
    + by rewrite !(proj2 (frame_node_id_ok _)).
Qed.

Lemma encode_v3_ok sid token src dst d :
  encode_relay_endpoint_announcement sid token src dst = Ok d <->
  d = routed_frame RELAY_FRAME_MAGIC_V3 sid token src dst [] /\
  1 <= lenZ sid <= 4096 /\ 1 <= lenZ token <= 256 /\
  relay_node_id_is_valid src = true /\ relay_node_id_is_valid dst = true.
Proof.
  unfold encode_relay_endpoint_announcement. rewrite guard_ok, bind_ok. split.
  - intros (_ & [] & G & H). rewrite bind_ok in H. destruct H as ([] & V1%frame_node_id_ok & H).
    rewrite bind_ok in H. destruct H as ([] & V2%frame_node_id_ok & H).
    apply Ok_inj in H. apply sizes_ok in G. split; [done|]. split_and!; try done; lia.
  - intros (-> & Hs & Ht & V1 & V2). split; [|exists tt; split; [apply sizes_ok; lia|]].
    + destruct sid, token, src, dst; simpl in Hs, Ht; try lia; done.
    + by rewrite !(proj2 (frame_node_id_ok _)).
Qed.

Lemma replace_magic_routed m m' sid token src dst payload :
  length m = length m' ->
  replace_magic m (routed_frame m' sid token src dst payload) =
  routed_frame m sid token src dst payload.
Proof. intros Hl. unfold replace_magic, routed_frame. by rewrite drop_app_length'. Qed.

Lemma encode_v4_ok sid token src dst d :
  encode_relay_endpoint_probe sid token src dst = Ok d <->
  d = routed_frame RELAY_FRAME_MAGIC_V4 sid token src dst [] /\
  1 <= lenZ sid <= 4096 /\ 1 <= lenZ token <= 256 /\
  relay_node_id_is_valid src = true /\ relay_node_id_is_valid dst = true.
Proof.
  unfold encode_relay_endpoint_probe. rewrite bind_ok. split.
  - intros (p & (-> & Hok)%encode_v3_ok & H). apply Ok_inj in H.
    by rewrite <- H, replace_magic_routed.
  - intros (-> & Hok). exists (routed_frame RELAY_FRAME_MAGIC_V3 sid token src dst []).
    rewrite replace_magic_routed by done. split; [|done]. by apply encode_v3_ok.
Qed.

(** The encoders that a decoded datagram can come from. *)
Definition encodings (f : RelayDatagram) : list (result bytes RelayError) :=
  match source f, destination f, endpoint_announcement f with
  | None, None, false =>
      [encode_relay_datagram (session_id f) (session_token f) (ciphertext_payload f)]
  | Some src, Some dst, false =>
      [encode_relay_datagram_with_route (session_id f) (session_token f) src dst
         (ciphertext_payload f)]
  | Some src, Some dst, true =>
      [encode_relay_endpoint_announcement (session_id f) (session_token f) src dst;
       encode_relay_endpoint_probe (session_id f) (session_token f) src dst]
  | _, _, _ => []
  end.

Lemma decode_announcement_sound (m r : bytes) f :
  length m = length RELAY_FRAME_MAGIC_V3 ->
  decode_relay_datagram_v3 (RELAY_FRAME_MAGIC_V3 ++ r) = Ok f ->
  exists sid token src dst payload,
    m ++ r = routed_frame m sid token src dst payload /\ strings_ok sid token /\
    relay_node_id_is_valid src = true /\ relay_node_id_is_valid dst = true /\
    f = {| session_id := sid; session_token := token; source := Some src;
           destination := Some dst; ciphertext_payload := payload;
           endpoint_announcement := true |}.
Proof.
  intros Hm H. apply decode_routed_sound in H as (sid & token & src & dst & p & Hd & H).
  exists sid, token, src, dst, p. unfold routed_frame in Hd. apply app_inv_head in Hd as ->.
  split; [done|]. tauto.
Qed.

Lemma decode_sound d f :
  decode_relay_datagram d = Ok f ->
  (endpoint_announcement f = true -> ciphertext_payload f = []) ->
  Ok d ∈ encodings f /\ utf8_valid (session_id f) = true /\ utf8_valid (session_token f) = true.
Proof.
  unfold decode_relay_datagram. intros H Hann.
  destruct (starts_with d RELAY_FRAME_MAGIC_V4) eqn:E4;
    [|destruct (starts_with d RELAY_FRAME_MAGIC_V3) eqn:E3;
      [|destruct (starts_with d RELAY_FRAME_MAGIC_V2) eqn:E2]].
  - apply starts_with_true in E4. unfold replace_magic in H.
    apply (decode_announcement_sound RELAY_FRAME_MAGIC_V4) in H; [|done].
    change (length RELAY_FRAME_MAGIC_V3) with (length RELAY_FRAME_MAGIC_V4) in H.
    rewrite <- E4 in H.
    destruct H as (sid & token & src & dst & p & -> & (Hs & Ht & Us & Ut) & V1 & V2 & ->).
    simpl in Hann |- *. rewrite (Hann eq_refl). split; [|done]. apply elem_of_cons; right.
    apply list_elem_of_singleton. symmetry. by apply encode_v4_ok.
  - apply starts_with_true in E3. rewrite E3 in H.
    apply (decode_announcement_sound RELAY_FRAME_MAGIC_V3) in H; [|done]. rewrite <- E3 in H.
    destruct H as (sid & token & src & dst & p & -> & (Hs & Ht & Us & Ut) & V1 & V2 & ->).
    simpl in Hann |- *. rewrite (Hann eq_refl). split; [|done]. apply elem_of_cons; left.
    symmetry. by apply encode_v3_ok.
  - apply decode_routed_sound in H as
      (sid & token & src & dst & p & -> & (Hs & Ht & Us & Ut) & V1 & V2 & Hp & Hne & ->).
    cbn. split; [|done]. apply list_elem_of_singleton. symmetry. apply encode_v2_ok.
    pose proof (proj1 (lenZ_pos p) (Hne eq_refl)). done.
  - apply decode_v1_sound in H as (sid & token & p & -> & (Hs & Ht & Us & Ut) & Hp & ->).
    cbn. split; [|done]. apply list_elem_of_singleton. symmetry. by apply encode_v1_ok.
Qed.

Lemma decode_complete d f :
  Ok d ∈ encodings f -> utf8_valid (session_id f) = true -> utf8_valid (session_token f) = true ->
  (endpoint_announcement f = true -> ciphertext_payload f = []) ->
  decode_relay_datagram d = Ok f.
Proof.
  destruct f as [sid token src dst p ann]. unfold encodings. simpl.
  destruct src as [src|], dst as [dst|], ann; try by intros ?%not_elem_of_nil.
  - intros [H|H%list_elem_of_singleton]%elem_of_cons Us Ut Hp; rewrite (Hp eq_refl); symmetry in H.
    + apply encode_v3_ok in H as (-> & Hs & Ht & V1 & V2). unfold routed_frame at 1.
      rewrite decode_magic by (rewrite !elem_of_cons; auto).
      by apply decode_routed_complete.
    + apply encode_v4_ok in H as (-> & Hs & Ht & V1 & V2). unfold routed_frame at 1.
      rewrite decode_magic by (rewrite !elem_of_cons; auto).
      by apply decode_routed_complete.
  - intros H%list_elem_of_singleton Us Ut _. symmetry in H.
    apply encode_v2_ok in H as (-> & Hs & Ht & Hp & V1 & V2). unfold routed_frame at 1.
    rewrite decode_magic by (rewrite !elem_of_cons; auto).
    apply decode_routed_complete; try done; [lia|]. intros _. apply lenZ_pos. lia.
  - intros H%list_elem_of_singleton Us Ut _. symmetry in H.
    apply encode_v1_ok in H as (-> & Hs & Ht & Hp).
    rewrite decode_magic by (rewrite !elem_of_cons; auto). by apply decode_v1_complete.
Qed.

(** Relay datagrams round trip in both directions: the decoder accepts a datagram as
    [f] exactly when it is what one of the four encoders writes for the fields of [f].
    Endpoint announcements that carry a payload are the only other datagrams it
    accepts. *)
Theorem relay_decode_iff_encoded (d : bytes) (f : RelayDatagram) :
  (decode_relay_datagram d = Ok f /\
   (endpoint_announcement f = true -> ciphertext_payload f = [])) <->
  (Ok d ∈ encodings f /\
   utf8_valid (session_id f) = true /\ utf8_valid (session_token f) = true /\
   (endpoint_announcement f = true -> ciphertext_payload f = [])).
Proof.
  split.
  - intros [Hd Hann]. pose proof (decode_sound _ _ Hd Hann). tauto.
  - intros (Hin & Us & Ut & Hann). split; [|done]. by apply decode_complete.
Qed.

(** An endpoint announcement with bytes after its header is decoded with those bytes as
    payload, although no encoder writes such a datagram. *)
Lemma announcement_payload_decoded (sid token payload : bytes) (src dst : NodeId) :
  strings_ok sid token ->
  relay_node_id_is_valid src = true -> relay_node_id_is_valid dst = true ->
  lenZ payload <= 131072 ->
  decode_relay_datagram (routed_frame RELAY_FRAME_MAGIC_V3 sid token src dst payload) =
  Ok {| session_id := sid; session_token := token; source := Some src;
        destination := Some dst; ciphertext_payload := payload;
        endpoint_announcement := true |}.
Proof.
  intros Hs V1 V2 Hp. unfold routed_frame at 1.
  rewrite decode_magic by (rewrite !elem_of_cons; auto). by apply decode_routed_complete.
Qed.

(** ** Session identifiers *)

Lemma colon_split (a b c d : bytes) :
  (x3a ∉ a) -> (x3a ∉ c) -> a ++ bstr ":" ++ b = c ++ bstr ":" ++ d -> a = c /\ b = d.
Proof.
  revert c. induction a as [|x a IH]; intros [|y c] Ha Hc; simpl.
  - by intros [= ->].
  - intros [= <- _]. by destruct Hc; constructor.
  - intros [= -> _]. by destruct Ha; constructor.
  - intros [= -> H]. rewrite not_elem_of_cons in Ha, Hc.
    destruct (IH c) as [-> ->]; try tauto.
Qed.

Lemma node_id_no_colon n : relay_node_id_is_valid n = true -> x3a ∉ n.
Proof.
  intros (_ & _ & H)%node_id_valid_inv Hin. rewrite Forall_forall in H.
  by apply H in Hin.
Qed.

Lemma session_id_new_comm a b : session_id_new a b = session_id_new b a.
Proof.
  unfold session_id_new. rewrite (kcmp_flip b a). destruct (kcmp b a) eqn:E; simpl; try done.
  by apply kcmp_eq in E as ->.
Qed.

Lemma session_id_new_inj a b c d :
  relay_node_id_is_valid a = true -> relay_node_id_is_valid b = true ->
  relay_node_id_is_valid c = true -> relay_node_id_is_valid d = true ->
  session_id_new a b = session_id_new c d -> (a = c /\ b = d) \/ (a = d /\ b = c).
Proof.
  intros Ha%node_id_no_colon Hb%node_id_no_colon Hc%node_id_no_colon Hd%node_id_no_colon.
  unfold session_id_new. destruct (kcmp a b), (kcmp c d); intros H;
    apply colon_split in H; tauto.
Qed.

(** Session identifiers name pairs of nodes: two pairs of valid node identifiers have the
    same session identifier exactly when they are the same pair in some order. *)
Theorem session_id_identifies_pair (a b c d : NodeId) :
  relay_node_id_is_valid a = true -> relay_node_id_is_valid b = true ->
  relay_node_id_is_valid c = true -> relay_node_id_is_valid d = true ->
  session_id_new a b = session_id_new c d <-> (a = c /\ b = d) \/ (a = d /\ b = c).
Proof.
  intros Ha Hb Hc Hd. split; [by apply session_id_new_inj|].
  intros [[-> ->]|[-> ->]]; [done|apply session_id_new_comm].
Qed.

Lemma session_id_identifies_pair_witness :
  session_id_new (bstr "a") (bstr "b") = session_id_new (bstr "b") (bstr "a") <->
  (bstr "a" = bstr "b" /\ bstr "b" = bstr "a") \/ (bstr "a" = bstr "a" /\ bstr "b" = bstr "b").
Proof. apply session_id_identifies_pair; reflexivity. Defined.

End RelayWire.
