(* ===== verification/RelayTable.v ===== *)
(** * The relay session table (crates/ipars-relay/src/lib.rs)

    [RelayTable]: admission of sessions, forwarding of framed datagrams and of raw
    WireGuard return traffic, expiry, rate limiting and the dataplane counters, as the
    methods of the code on an explicit table. Times and durations are nanoseconds; a
    method that reads the clock takes the reading as an argument. *)

From S2P Require Import Prelude RustStd BTree Endpoints OverlayTypes Instances RelayWire.

Module RelayTable.
Import RelayWire.

Definition second : Z := 1000000000.
Definition millisecond : Z := 1000000.
Definition DEFAULT_SESSION_TTL_SECONDS : Z := 300.
Definition default_session_ttl : Z := DEFAULT_SESSION_TTL_SECONDS * second.

(** ** Data *)

Record RelaySession : Type := {
  rs_id : RelaySessionId;
  rs_session_token : bytes;
  left : NodeId;
  right : NodeId;
  left_addr : SocketAddr;
  right_addr : SocketAddr;
  created_at : Z;
  expires_at : Z;
  bytes_forwarded : Z;
  left_addr_learned : bool;
  right_addr_learned : bool;
  left_wireguard_sender_indices : list Z;
  right_wireguard_sender_indices : list Z;
  window_started_at : Z;
  window_bytes : Z;
  max_bytes_per_second : Z
}.

Record RelaySessionCredentials : Type := {
  cred_session_id : RelaySessionId;
  cred_session_token : bytes;
  cred_expires_at : Z
}.

Record RelaySessionAdmission : Type := {
  adm_left : NodeId;
  adm_right : NodeId;
  adm_left_addr : SocketAddr;
  adm_right_addr : SocketAddr;
  adm_session_token : bytes;
  adm_session_ttl : Z
}.

Inductive RelaySessionSide : Type := Left | Right.

#[global] Instance RelaySessionSide_eq_dec : EqDecision RelaySessionSide.
Proof. solve_decision. Defined.

Record WireGuardReturnRoute : Type := {
  route_session_id : RelaySessionId;
  source_side : RelaySessionSide;
  source_ip : IpAddr
}.

Record RelayDatagramForward : Type := {
  target : SocketAddr;
  payload : bytes;
  should_forward : bool
}.

Inductive RelayDataplaneDropReason : Type :=
  | DropAdmissionDenied
  | DropUnknownSession
  | DropSessionExpired
  | DropInvalidSessionCredential
  | DropRateLimited
  | DropMalformedFrame
  | DropFrameTooLarge
  | DropSocketError.

Definition drop_reason_index (r : RelayDataplaneDropReason) : Z :=
  match r with
  | DropAdmissionDenied => 0 | DropUnknownSession => 1 | DropSessionExpired => 2
  | DropInvalidSessionCredential => 3 | DropRateLimited => 4 | DropMalformedFrame => 5
  | DropFrameTooLarge => 6 | DropSocketError => 7
  end.

#[global] Instance drop_reason_ord : KeyOrd RelayDataplaneDropReason.
Proof. apply (ord_by drop_reason_index). by intros [] []. Defined.

Record RelayDataplaneMetrics : Type := {
  datagrams_received : Z;
  datagrams_forwarded : Z;
  datagrams_dropped : Z;
  datagram_bytes_received : Z;
  payload_bytes_forwarded : Z;
  datagram_bytes_dropped : Z;
  drops_by_reason : btree RelayDataplaneDropReason Z
}.

Record RelayTable : Type := {
  sessions : btree RelaySessionId RelaySession;
  wireguard_return_routes : btree Z (list WireGuardReturnRoute);
  dataplane : RelayDataplaneMetrics
}.

Definition metrics_default : RelayDataplaneMetrics :=
  {| datagrams_received := 0; datagrams_forwarded := 0; datagrams_dropped := 0;
     datagram_bytes_received := 0; payload_bytes_forwarded := 0;
     datagram_bytes_dropped := 0; drops_by_reason := [] |}.

Definition table_default : RelayTable :=
  {| sessions := []; wireguard_return_routes := []; dataplane := metrics_default |}.

(** ** Counters *)

Definition record_received (datagram_bytes : Z) (m : RelayDataplaneMetrics)
  : RelayDataplaneMetrics :=
  {| datagrams_received := saturating_add 64 (datagrams_received m) 1;
     datagrams_forwarded := datagrams_forwarded m;
     datagrams_dropped := datagrams_dropped m;
     datagram_bytes_received := saturating_add 64 (datagram_bytes_received m) datagram_bytes;
     payload_bytes_forwarded := payload_bytes_forwarded m;
     datagram_bytes_dropped := datagram_bytes_dropped m;
     drops_by_reason := drops_by_reason m |}.

Definition record_forwarded (payload_bytes : Z) (m : RelayDataplaneMetrics)
  : RelayDataplaneMetrics :=
  {| datagrams_received := datagrams_received m;
     datagrams_forwarded := saturating_add 64 (datagrams_forwarded m) 1;
     datagrams_dropped := datagrams_dropped m;
     datagram_bytes_received := datagram_bytes_received m;
     payload_bytes_forwarded := saturating_add 64 (payload_bytes_forwarded m) payload_bytes;
     datagram_bytes_dropped := datagram_bytes_dropped m;
     drops_by_reason := drops_by_reason m |}.

Definition record_drop (reason : RelayDataplaneDropReason) (datagram_bytes : Z)
    (m : RelayDataplaneMetrics) : RelayDataplaneMetrics :=
  {| datagrams_received := datagrams_received m;
     datagrams_forwarded := datagrams_forwarded m;
     datagrams_dropped := saturating_add 64 (datagrams_dropped m) 1;
     datagram_bytes_received := datagram_bytes_received m;
     payload_bytes_forwarded := payload_bytes_forwarded m;
     datagram_bytes_dropped := saturating_add 64 (datagram_bytes_dropped m) datagram_bytes;
     drops_by_reason := bt_entry 0 (fun count => saturating_add 64 count 1) reason
                          (drops_by_reason m) |}.

Definition relay_error_drop_reason (error : RelayError) : RelayDataplaneDropReason :=
  match error with
  | InvalidAdmissionRequest => DropAdmissionDenied
  | AdmissionDenied => DropAdmissionDenied
  | NodeSessionLimitExceeded => DropAdmissionDenied
  | UnknownSession => DropUnknownSession
  | SessionExpired => DropSessionExpired
  | InvalidSessionCredential => DropInvalidSessionCredential
  | RateLimited => DropRateLimited
  | MalformedFrame => DropMalformedFrame
  | FrameTooLarge => DropFrameTooLarge
  | Socket => DropSocketError
  end.

(** ** Sessions *)

Definition with_addrs (s : RelaySession) (la ra : SocketAddr) (ll rl : bool) : RelaySession :=
  {| rs_id := rs_id s; rs_session_token := rs_session_token s; left := left s;
     right := right s; left_addr := la; right_addr := ra; created_at := created_at s;
     expires_at := expires_at s; bytes_forwarded := bytes_forwarded s; left_addr_learned := ll;
     right_addr_learned := rl;
     left_wireguard_sender_indices := left_wireguard_sender_indices s;
     right_wireguard_sender_indices := right_wireguard_sender_indices s;
     window_started_at := window_started_at s; window_bytes := window_bytes s;
     max_bytes_per_second := max_bytes_per_second s |}.

Definition with_window (s : RelaySession) (start used : Z) : RelaySession :=
  {| rs_id := rs_id s; rs_session_token := rs_session_token s; left := left s;
     right := right s; left_addr := left_addr s; right_addr := right_addr s;
     created_at := created_at s; expires_at := expires_at s;
     bytes_forwarded := bytes_forwarded s; left_addr_learned := left_addr_learned s;
     right_addr_learned := right_addr_learned s;
     left_wireguard_sender_indices := left_wireguard_sender_indices s;
     right_wireguard_sender_indices := right_wireguard_sender_indices s;
     window_started_at := start; window_bytes := used;
     max_bytes_per_second := max_bytes_per_second s |}.

Definition with_indices (s : RelaySession) (li ri : list Z) : RelaySession :=
  {| rs_id := rs_id s; rs_session_token := rs_session_token s; left := left s;
     right := right s; left_addr := left_addr s; right_addr := right_addr s;
     created_at := created_at s; expires_at := expires_at s;
     bytes_forwarded := bytes_forwarded s; left_addr_learned := left_addr_learned s;
     right_addr_learned := right_addr_learned s; left_wireguard_sender_indices := li;
     right_wireguard_sender_indices := ri; window_started_at := window_started_at s;
     window_bytes := window_bytes s; max_bytes_per_second := max_bytes_per_second s |}.

Definition with_forwarded (s : RelaySession) (n : Z) : RelaySession :=
  {| rs_id := rs_id s; rs_session_token := rs_session_token s; left := left s;
     right := right s; left_addr := left_addr s; right_addr := right_addr s;
     created_at := created_at s; expires_at := expires_at s; bytes_forwarded := n;
     left_addr_learned := left_addr_learned s; right_addr_learned := right_addr_learned s;
     left_wireguard_sender_indices := left_wireguard_sender_indices s;
     right_wireguard_sender_indices := right_wireguard_sender_indices s;
     window_started_at := window_started_at s; window_bytes := window_bytes s;
     max_bytes_per_second := max_bytes_per_second s |}.

Definition with_admission (s : RelaySession) (la ra : SocketAddr) (expires rate : Z) : RelaySession :=
  {| rs_id := rs_id s; rs_session_token := rs_session_token s; left := left s;
     right := right s; left_addr := la; right_addr := ra; created_at := created_at s;
     expires_at := expires; bytes_forwarded := bytes_forwarded s;
     left_addr_learned := left_addr_learned s; right_addr_learned := right_addr_learned s;
     left_wireguard_sender_indices := left_wireguard_sender_indices s;
     right_wireguard_sender_indices := right_wireguard_sender_indices s;
     window_started_at := window_started_at s; window_bytes := window_bytes s;
     max_bytes_per_second := rate |}.

Definition is_expired (s : RelaySession) (now : Z) : bool := expires_at s <=? now.

Definition verify_token (s : RelaySession) (token : bytes) : result unit RelayError :=
  if relay_session_token_matches (rs_session_token s) token then Ok tt
  else Err InvalidSessionCredential.

Definition side_indices (s : RelaySession) (side : RelaySessionSide) : list Z :=
  match side with
  | Left => left_wireguard_sender_indices s
  | Right => right_wireguard_sender_indices s
  end.

Definition set_side_indices (s : RelaySession) (side : RelaySessionSide) (l : list Z)
  : RelaySession :=
  match side with
  | Left => with_indices s l (right_wireguard_sender_indices s)
  | Right => with_indices s (left_wireguard_sender_indices s) l
  end.

(** The bookkeeping of [record_wireguard_sender_index] on the list of one side: an index
    seen before moves to the end, and the oldest index leaves a full list. *)
Definition push_index (index : Z) (indices : list Z) : list Z * option Z :=
  let indices := match list_find (eq index) indices with
                 | Some (existing, _) => delete existing indices
                 | None => indices
                 end in
  match indices with
  | oldest :: rest =>
      if (MAX_WIREGUARD_SENDER_INDICES_PER_SIDE <=? length indices)%nat
      then (rest ++ [index], Some oldest)
      else (indices ++ [index], None)
  | [] => ([index], None)
  end.

Definition record_wireguard_sender_index (s : RelaySession) (side : RelaySessionSide)
    (payload : bytes) : RelaySession * option (Z * option Z) :=
  match wireguard_sender_index payload with
  | None => (s, None)
  | Some sender_index =>
      let '(indices, evicted) := push_index sender_index (side_indices s side) in
      (set_side_indices s side indices, Some (sender_index, evicted))
  end.

Definition consume_rate_limit (s : RelaySession) (payload_len now : Z)
  : RelaySession * result unit RelayError :=
  let s := if second <=? now - window_started_at s then with_window s now 0 else s in
  if max_bytes_per_second s <? saturating_add 64 (window_bytes s) payload_len
  then (s, Err RateLimited)
  else (with_window s (window_started_at s) (saturating_add 64 (window_bytes s) payload_len),
        Ok tt).

Definition megabits_to_bytes_per_second (max_mbps : Z) : Z :=
  saturating_mul 64 max_mbps 1000000 / 8.

(** ** Return routes *)

Definition set_sessions (t : RelayTable) (m : btree RelaySessionId RelaySession) : RelayTable :=
  {| sessions := m; wireguard_return_routes := wireguard_return_routes t;
     dataplane := dataplane t |}.

Definition set_routes (t : RelayTable) (m : btree Z (list WireGuardReturnRoute)) : RelayTable :=
  {| sessions := sessions t; wireguard_return_routes := m; dataplane := dataplane t |}.

Definition set_dataplane (t : RelayTable) (m : RelayDataplaneMetrics) : RelayTable :=
  {| sessions := sessions t; wireguard_return_routes := wireguard_return_routes t;
     dataplane := m |}.

Definition push_route (r : WireGuardReturnRoute) (m : btree Z (list WireGuardReturnRoute))
    (index : Z) : btree Z (list WireGuardReturnRoute) :=
  bt_entry [] (fun routes => routes ++ [r]) index m.

Definition rebuild_session (m : btree Z (list WireGuardReturnRoute))
    (entry : RelaySessionId * RelaySession) : btree Z (list WireGuardReturnRoute) :=
  let '(sid, s) := entry in
  let m := foldl (push_route {| route_session_id := sid; source_side := Right;
                                source_ip := socket_ip (right_addr s) |})
             m (left_wireguard_sender_indices s) in
  foldl (push_route {| route_session_id := sid; source_side := Left;
                       source_ip := socket_ip (left_addr s) |})
    m (right_wireguard_sender_indices s).

Definition rebuild_wireguard_return_routes (t : RelayTable) : RelayTable :=
  set_routes t (foldl rebuild_session [] (sessions t)).

(** The test of both [retain] calls: a route of another session or of the other side. *)
Definition other_route (route existing : WireGuardReturnRoute) : bool :=
  bool_decide (route_session_id existing <> route_session_id route)
  || bool_decide (source_side existing <> source_side route).

Definition upsert_wireguard_return_route (receiver_index : Z) (evicted_index : option Z)
    (route : WireGuardReturnRoute) (t : RelayTable) : RelayTable :=
  let t :=
    match evicted_index with
    | None => t
    | Some evicted =>
        match bt_get evicted (wireguard_return_routes t) with
        | None => t
        | Some routes =>
            let routes := List.filter (other_route route) routes in
            set_routes t
              (if bool_decide (routes = [])
               then bt_remove evicted (bt_insert evicted routes (wireguard_return_routes t))
               else bt_insert evicted routes (wireguard_return_routes t))
        end
    end in
  set_routes t (bt_entry [] (fun routes => List.filter (other_route route) routes ++ [route])
                  receiver_index (wireguard_return_routes t)).

(** ** Expiry *)

Definition purge_expired (now : Z) (t : RelayTable) : RelayTable * Z :=
  let before := lenZ (sessions t) in
  let t := set_sessions t (bt_retain (fun _ s => negb (is_expired s now)) (sessions t)) in
  let removed := saturating_sub before (lenZ (sessions t)) in
  (if 0 <? removed then rebuild_wireguard_return_routes t else t, removed).

Definition remove_expired_session (sid : RelaySessionId) (now : Z) (t : RelayTable)
  : RelayTable * result unit RelayError :=
  let expired := match bt_get sid (sessions t) with
                 | Some s => is_expired s now | None => false end in
  if expired
  then (rebuild_wireguard_return_routes (set_sessions t (bt_remove sid (sessions t))),
        Err SessionExpired)
  else (t, Ok tt).

(** ** Admission *)

Definition validate_relay_session_admission (admission : RelaySessionAdmission)
    (sid : RelaySessionId) : result unit RelayError :=
  let? _ := validate_relay_admission_node_id (adm_left admission) in
  let? _ := validate_relay_admission_node_id (adm_right admission) in
  if bool_decide (adm_left admission = adm_right admission)
     || bool_decide (adm_left_addr admission = adm_right_addr admission)
  then Err AdmissionDenied
  else if negb (Endpoints.endpoint_addr_is_usable (adm_left_addr admission))
          || negb (Endpoints.endpoint_addr_is_usable (adm_right_addr admission))
  then Err AdmissionDenied
  else if MAX_RELAY_SESSION_ID_BYTES <? lenZ sid then Err AdmissionDenied
  else if bool_decide (adm_session_token admission = [])
          || (MAX_RELAY_SESSION_TOKEN_BYTES <? lenZ (adm_session_token admission))
  then Err InvalidSessionCredential
  else Ok tt.

(** A session between the two nodes, in either orientation. *)
Definition pair_matches (l r : NodeId) (s : RelaySession) : bool :=
  (bool_decide (left s = l) && bool_decide (right s = r))
  || (bool_decide (left s = r) && bool_decide (right s = l)).

Section Admission.
  Context `{UrlOps}.

Definition admit_with_options (now : Z) (capability : Overlay.RelayCapability)
    (admission : RelaySessionAdmission) (t : RelayTable)
  : RelayTable * result RelaySessionCredentials RelayError :=
  let t := (purge_expired now t).1 in
  let sid := session_id_new (adm_left admission) (adm_right admission) in
  match validate_relay_session_admission admission sid with
  | Err e => (t, Err e)
  | Ok _ =>
      let expires := now + Z.max (adm_session_ttl admission) millisecond in
      let rate := megabits_to_bytes_per_second (Overlay.max_mbps capability) in
      match bt_find (pair_matches (adm_left admission) (adm_right admission)) (sessions t) with
      | Some (key, existing) =>
          let '(la, ra) := if bool_decide (left existing = adm_left admission)
                           then (adm_left_addr admission, adm_right_addr admission)
                           else (adm_right_addr admission, adm_left_addr admission) in
          let la := if left_addr_learned existing then left_addr existing else la in
          let ra := if right_addr_learned existing then right_addr existing else ra in
          let t := set_sessions t
                     (bt_insert key (with_admission existing la ra expires rate) (sessions t)) in
          (rebuild_wireguard_return_routes t,
           Ok {| cred_session_id := rs_id existing;
                 cred_session_token := rs_session_token existing;
                 cred_expires_at := expires |})
      | None =>
          if negb (Overlay.can_admit capability) then (t, Err AdmissionDenied)
          else
            (set_sessions t
               (bt_insert sid
                  {| rs_id := sid; rs_session_token := adm_session_token admission;
                     left := adm_left admission; right := adm_right admission;
                     left_addr := adm_left_addr admission;
                     right_addr := adm_right_addr admission;
                     created_at := now; expires_at := expires; bytes_forwarded := 0;
                     left_addr_learned := false; right_addr_learned := false;
                     left_wireguard_sender_indices := []; right_wireguard_sender_indices := [];
                     window_started_at := now; window_bytes := 0;
                     max_bytes_per_second := rate |} (sessions t)),
             Ok {| cred_session_id := sid; cred_session_token := adm_session_token admission;
                   cred_expires_at := expires |})
      end
  end.

Definition admit_with_token (now : Z) (capability : Overlay.RelayCapability) (l r : NodeId)
    (la ra : SocketAddr) (token : bytes) (t : RelayTable)
  : RelayTable * result RelaySessionCredentials RelayError :=
  admit_with_options now capability
    {| adm_left := l; adm_right := r; adm_left_addr := la; adm_right_addr := ra;
       adm_session_token := token; adm_session_ttl := default_session_ttl |} t.

(** [RelayTable::admit] draws the token from [Uuid::new_v4()], here the argument [uuid]. *)
Definition admit_session (now : Z) (uuid : bytes) (capability : Overlay.RelayCapability) (l r : NodeId)
    (la ra : SocketAddr) (t : RelayTable)
  : RelayTable * result RelaySessionCredentials RelayError :=
  admit_with_options now capability
    {| adm_left := l; adm_right := r; adm_left_addr := la; adm_right_addr := ra;
       adm_session_token := uuid; adm_session_ttl := default_session_ttl |} t.

End Admission.

Definition authorize_http_announcement (now : Z) (node : NodeId) (packet : bytes)
    (t : RelayTable) : RelayTable * result (bytes * Z) RelayError :=
  match decode_relay_datagram packet with
  | Err e => (t, Err e)
  | Ok f =>
      if negb (endpoint_announcement f) || bool_decide (source f <> Some node)
      then (t, Err InvalidSessionCredential) else
      let! t, _ := remove_expired_session (session_id f) now t in
      match bt_get (session_id f) (sessions t) with
      | None => (t, Err UnknownSession)
      | Some s =>
          (t,
           let? _ := verify_token s (session_token f) in
           if negb ((bool_decide (source f = Some (left s))
                     && bool_decide (destination f = Some (right s)))
                    || (bool_decide (source f = Some (right s))
                        && bool_decide (destination f = Some (left s))))
           then Err InvalidSessionCredential
           else Ok (rs_id s, expires_at s))
      end
  end.

(** ** Forwarding of frames with a route *)

Definition session_forward_target (now : Z) (f : RelayFrame) (s : RelaySession)
  : RelaySession * result SocketAddr RelayError :=
  match verify_token s (rf_session_token f) with
  | Err e => (s, Err e)
  | Ok _ =>
      let target :=
        if bool_decide (rf_source f = left s) && bool_decide (rf_destination f = right s)
        then Some (right_addr s)
        else if bool_decide (rf_source f = right s) && bool_decide (rf_destination f = left s)
        then Some (left_addr s)
        else None in
      match target with
      | None => (s, Err UnknownSession)
      | Some target =>
          let len := lenZ (rf_ciphertext_payload f) in
          let! s, _ := consume_rate_limit s len now in
          (with_forwarded s (saturating_add 64 (bytes_forwarded s) len), Ok target)
      end
  end.

Definition forward_target_at_inner (now : Z) (f : RelayFrame) (t : RelayTable)
  : RelayTable * result SocketAddr RelayError :=
  match validate_relay_frame_sizes (lenZ (rf_session_id f)) (lenZ (rf_session_token f))
          (lenZ (rf_ciphertext_payload f)) with
  | Err e => (t, Err e)
  | Ok _ =>
      let! t, _ := remove_expired_session (rf_session_id f) now t in
      match bt_get (rf_session_id f) (sessions t) with
      | None => (t, Err UnknownSession)
      | Some s =>
          let '(s, r) := session_forward_target now f s in
          (set_sessions t (bt_insert (rf_session_id f) s (sessions t)), r)
      end
  end.

Definition forward_target_at (now : Z) (f : RelayFrame) (t : RelayTable)
  : RelayTable * result SocketAddr RelayError :=
  let len := lenZ (rf_ciphertext_payload f) in
  let t := set_dataplane t (record_received len (dataplane t)) in
  match forward_target_at_inner now f t with
  | (t, Ok target) => (set_dataplane t (record_forwarded len (dataplane t)), Ok target)
  | (t, Err error) =>
      (set_dataplane t (record_drop (relay_error_drop_reason error) len (dataplane t)),
       Err error)
  end.

(** ** Forwarding of datagrams *)

(** The target of a datagram and the side it comes from; a frame that names its route
    teaches the session the address of its sender. *)
Definition resolve_route (s : RelaySession) (source_addr : SocketAddr) (d : RelayDatagram)
  : RelaySession * option (SocketAddr * RelaySessionSide) :=
  match source d, destination d with
  | Some src, Some dst =>
      if bool_decide (src = left s) && bool_decide (dst = right s)
      then (with_addrs s source_addr (right_addr s) true (right_addr_learned s),
            Some (right_addr s, Left))
      else if bool_decide (src = right s) && bool_decide (dst = left s)
      then (with_addrs s (left_addr s) source_addr (left_addr_learned s) true,
            Some (left_addr s, Right))
      else (s, None)
  | _, _ =>
      if bool_decide (left_addr s = source_addr) then (s, Some (right_addr s, Left))
      else if bool_decide (right_addr s = source_addr) then (s, Some (left_addr s, Right))
      else (s, None)
  end.

Definition other_side (side : RelaySessionSide) : RelaySessionSide :=
  match side with Left => Right | Right => Left end.

Definition side_addr (s : RelaySession) (side : RelaySessionSide) : SocketAddr :=
  match side with Left => left_addr s | Right => right_addr s end.

Definition session_forward_datagram (now : Z) (source_addr : SocketAddr) (d : RelayDatagram)
    (s : RelaySession)
  : RelaySession * result (RelayDatagramForward * option (Z * option Z * WireGuardReturnRoute))
                          RelayError :=
  match verify_token s (session_token d) with
  | Err e => (s, Err e)
  | Ok _ =>
      match resolve_route s source_addr d with
      | (s, None) => (s, Err UnknownSession)
      | (s, Some (target, side)) =>
          let len := lenZ (ciphertext_payload d) in
          let! s, _ := consume_rate_limit s len now in
          let '(s, recorded) :=
            if endpoint_announcement d then (s, None)
            else record_wireguard_sender_index s side (ciphertext_payload d) in
          let route_update :=
            match recorded with
            | None => None
            | Some (receiver_index, evicted_index) =>
                Some (receiver_index, evicted_index,
                      {| route_session_id := session_id d; source_side := other_side side;
                         source_ip := socket_ip (side_addr s (other_side side)) |})
            end in
          (with_forwarded s (saturating_add 64 (bytes_forwarded s) len),
           Ok ({| target := target; payload := ciphertext_payload d;
                  should_forward := negb (endpoint_announcement d) |}, route_update))
      end
  end.

(** The loop over the routes of a receiver index: [Err] when two of them match. *)
Fixpoint match_route (t : RelayTable) (ip : IpAddr)
    (found : option (RelaySessionId * RelaySessionSide)) (routes : list WireGuardReturnRoute)
  : result (option (RelaySessionId * RelaySessionSide)) RelayError :=
  match routes with
  | [] => Ok found
  | route :: routes =>
      if negb (bool_decide (source_ip route = ip)) then match_route t ip found routes
      else
        match bt_get (route_session_id route) (sessions t) with
        | None => match_route t ip found routes
        | Some s =>
            let authenticated := match source_side route with
                                 | Left => right_addr_learned s
                                 | Right => left_addr_learned s
                                 end in
            if negb authenticated then match_route t ip found routes
            else
              match found with
              | Some _ => Err UnknownSession
              | None => match_route t ip (Some (route_session_id route, source_side route)) routes
              end
        end
  end.

Definition session_return_datagram (now : Z) (source_addr : SocketAddr)
    (side : RelaySessionSide) (d : bytes) (s : RelaySession)
  : RelaySession * result RelayDatagramForward RelayError :=
  let! s, _ := consume_rate_limit s (lenZ d) now in
  let '(s, target) :=
    match side with
    | Left => (with_addrs s source_addr (right_addr s) (left_addr_learned s)
                 (right_addr_learned s), right_addr s)
    | Right => (with_addrs s (left_addr s) source_addr (left_addr_learned s)
                  (right_addr_learned s), left_addr s)
    end in
  (with_forwarded s (saturating_add 64 (bytes_forwarded s) (lenZ d)),
   Ok {| target := target; payload := d; should_forward := true |}).

Definition forward_wireguard_return_datagram (now : Z) (source_addr : SocketAddr) (d : bytes)
    (t : RelayTable) : RelayTable * result RelayDatagramForward RelayError :=
  match wireguard_receiver_index d with
  | None => (t, Err MalformedFrame)
  | Some receiver_index =>
      let t := (purge_expired now t).1 in
      match match_route t (socket_ip source_addr) None
              (default [] (bt_get receiver_index (wireguard_return_routes t))) with
      | Err e => (t, Err e)
      | Ok None => (t, Err UnknownSession)
      | Ok (Some (sid, side)) =>
          match bt_get sid (sessions t) with
          | None => (t, Err UnknownSession)
          | Some s =>
              let '(s, r) := session_return_datagram now source_addr side d s in
              (set_sessions t (bt_insert sid s (sessions t)), r)
          end
      end
  end.

Definition forward_framed_datagram (now : Z) (source_addr : SocketAddr) (d : RelayDatagram)
    (t : RelayTable) : RelayTable * result RelayDatagramForward RelayError :=
  let! t, _ := remove_expired_session (session_id d) now t in
  match bt_get (session_id d) (sessions t) with
  | None => (t, Err UnknownSession)
  | Some s =>
      let '(s, r) := session_forward_datagram now source_addr d s in
      let t := set_sessions t (bt_insert (session_id d) s (sessions t)) in
      match r with
      | Err e => (t, Err e)
      | Ok (forward, None) => (t, Ok forward)
      | Ok (forward, Some (receiver_index, evicted_index, route)) =>
          (upsert_wireguard_return_route receiver_index evicted_index route t, Ok forward)
      end
  end.

Definition forward_datagram_for_addr_at_inner (now : Z) (source_addr : SocketAddr) (d : bytes)
    (t : RelayTable) : RelayTable * result RelayDatagramForward RelayError :=
  match decode_relay_datagram d with
  | Ok dg => forward_framed_datagram now source_addr dg t
  | Err MalformedFrame =>
      if wireguard_datagram_payload d
      then forward_wireguard_return_datagram now source_addr d t
      else (t, Err MalformedFrame)
  | Err e => (t, Err e)
  end.

Definition forward_datagram_for_addr_at (now : Z) (source_addr : SocketAddr) (d : bytes)
    (t : RelayTable) : RelayTable * result (SocketAddr * bytes) RelayError :=
  let t := set_dataplane t (record_received (lenZ d) (dataplane t)) in
  match forward_datagram_for_addr_at_inner now source_addr d t with
  | (t, Ok forward) =>
      (if should_forward forward
       then set_dataplane t (record_forwarded (lenZ (payload forward)) (dataplane t)) else t,
       Ok (target forward, payload forward))
  | (t, Err error) =>
      (set_dataplane t (record_drop (relay_error_drop_reason error) (lenZ d) (dataplane t)),
       Err error)
  end.

(** ** Queries *)

Definition session_count (t : RelayTable) : Z := lenZ (sessions t).

Definition session_of_node (node : NodeId) (s : RelaySession) : bool :=
  bool_decide (left s = node) || bool_decide (right s = node).

Definition active_session_count_for_node (t : RelayTable) (node : NodeId) : Z :=
  lenZ (List.filter (session_of_node node) (bt_values (sessions t))).

Definition has_session_pair (t : RelayTable) (l r : NodeId) : bool :=
  existsb (pair_matches l r) (bt_values (sessions t)).

(** ** The UDP server

    One packet of [UdpRelay::serve]: the table after it and what is sent. *)
Definition serve_packet (now : Z) (peer : SocketAddr) (packet : bytes) (t : RelayTable)
  : RelayTable * list (SocketAddr * bytes) :=
  match forward_datagram_for_addr_at now peer packet t with
  | (t, Err _) => (t, [])
  | (t, Ok (target, payload)) =>
      (t, if bool_decide (payload <> []) then [(target, payload)]
          else if starts_with packet RELAY_FRAME_MAGIC_V4 then [(peer, packet)]
          else [])
  end.

(** ** The invariant of the table *)

Definition route_key (r : WireGuardReturnRoute) : RelaySessionId * RelaySessionSide :=
  (route_session_id r, source_side r).

Definition routes_in (m : btree Z (list WireGuardReturnRoute)) (index : Z)
  : list WireGuardReturnRoute := default [] (bt_get index m).

Record session_wf (key : RelaySessionId) (s : RelaySession) : Prop := {
  sw_key : key = rs_id s;
  sw_id : rs_id s = session_id_new (left s) (right s);
  sw_left : relay_node_id_is_valid (left s) = true;
  sw_right : relay_node_id_is_valid (right s) = true;
  sw_distinct : left s <> right s;
  sw_token : 1 <= lenZ (rs_session_token s) <= 256;
  sw_indices : forall side,
    NoDup (side_indices s side) /\ (length (side_indices s side) <= 8)%nat
}.

(** The return routes list, for every WireGuard index, exactly the live sessions in which
    one side has used the index as its sender index, once each. *)
Definition routes_wf (live : btree RelaySessionId RelaySession)
    (m : btree Z (list WireGuardReturnRoute)) : Prop :=
  forall index,
    bt_get index m <> Some [] /\ NoDup (map route_key (routes_in m index)) /\
    forall sid side,
      (sid, side) ∈ map route_key (routes_in m index) <->
      exists s, bt_get sid live = Some s /\ index ∈ side_indices s (other_side side).

Record table_wf (t : RelayTable) : Prop := {
  tw_sessions : bt_wf (sessions t);
  tw_routes_order : bt_wf (wireguard_return_routes t);
  tw_each : forall key s, bt_get key (sessions t) = Some s -> session_wf key s;
  tw_routes : routes_wf (sessions t) (wireguard_return_routes t)
}.

(** ** Rebuilding the routes *)

Lemma routes_in_push r m index i :
  routes_in (push_route r m index) i = routes_in m i ++ (if decide (index = i) then [r] else []).
Proof.
  unfold routes_in, push_route. rewrite (bt_get_entry_case _ _ _ _ m).
  destruct (decide (index = i)) as [->|]; [done|]. by rewrite app_nil_r.
Qed.

Lemma routes_in_push_all r l m i :
  NoDup l ->
  routes_in (foldl (push_route r) m l) i
  = routes_in m i ++ (if decide (i ∈ l) then [r] else []).
Proof.
  revert m. induction l as [|x l IH]; intros m; simpl.
  { intros _. destruct (decide (i ∈ [])) as [H|_]; [by apply not_elem_of_nil in H|].
    by rewrite app_nil_r. }
  intros [Hx Hl]%NoDup_cons. rewrite IH, routes_in_push, <- app_assoc by done. f_equal.
  destruct (decide (x = i)) as [->|Hne].
  - rewrite decide_False by done. by rewrite decide_True by constructor.
  - simpl. apply decide_ext. rewrite elem_of_cons. intuition congruence.
Qed.

(** The routes that one session contributes to an index. *)
Definition session_routes (i : Z) (entry : RelaySessionId * RelaySession)
  : list WireGuardReturnRoute :=
  (if decide (i ∈ left_wireguard_sender_indices entry.2)
   then [{| route_session_id := entry.1; source_side := Right;
            source_ip := socket_ip (right_addr entry.2) |}] else []) ++
  (if decide (i ∈ right_wireguard_sender_indices entry.2)
   then [{| route_session_id := entry.1; source_side := Left;
            source_ip := socket_ip (left_addr entry.2) |}] else []).

Lemma routes_in_rebuild l m i :
  Forall (fun e => forall side, NoDup (side_indices e.2 side)) l ->
  routes_in (foldl rebuild_session m l) i
  = routes_in m i ++ concat (map (session_routes i) l).
Proof.
  revert m. induction l as [|[sid s] l IH]; intros m; simpl; [by rewrite app_nil_r|].
  intros [Hs Hl]%Forall_cons. rewrite IH by done. unfold rebuild_session.
  rewrite !routes_in_push_all by (apply (Hs Left) || apply (Hs Right)).
  unfold session_routes. by rewrite <- !app_assoc.
Qed.

Lemma session_routes_keys i e sid side :
  (sid, side) ∈ map route_key (session_routes i e) <->
  sid = e.1 /\ i ∈ side_indices e.2 (other_side side).
Proof.
  unfold session_routes. rewrite map_app, elem_of_app.
  destruct side; simpl; destruct (decide _), (decide _); simpl; unfold route_key; simpl;
    rewrite ?list_elem_of_singleton; intuition (try congruence);
    by match goal with H : _ ∈ [] |- _ => apply not_elem_of_nil in H end.
Qed.

Lemma session_routes_nodup i e : NoDup (map route_key (session_routes i e)).
Proof.
  unfold session_routes. destruct (decide _), (decide _); simpl; repeat constructor;
    rewrite ?list_elem_of_singleton; try apply not_elem_of_nil. done.
Qed.

Lemma concat_routes_keys i l sid side :
  (sid, side) ∈ map route_key (concat (map (session_routes i) l)) <->
  exists s, (sid, s) ∈ l /\ i ∈ side_indices s (other_side side).
Proof.
  induction l as [|[k s] l IH]; simpl.
  { split; [by intros ?%not_elem_of_nil|by intros (? & ?%not_elem_of_nil & _)]. }
  rewrite map_app, elem_of_app, IH, session_routes_keys. simpl. split.
  - intros [[-> Hi]|(s' & Hs' & Hi)]; [exists s|exists s']; split; try done; by constructor.
  - intros (s' & [[= -> ->]|Hs']%elem_of_cons & Hi); [left|right]; eauto.
Qed.

Lemma concat_routes_nodup i (l : btree RelaySessionId RelaySession) :
  bt_wf l -> NoDup (map route_key (concat (map (session_routes i) l))).
Proof.
  induction l as [|[k s] l IH]; simpl; [constructor|].
  intros [Hl Hall]%bt_wf_cons. rewrite map_app. apply NoDup_app. split_and!.
  - apply session_routes_nodup.
  - intros [sid side] [-> _]%session_routes_keys (s' & Hs' & _)%concat_routes_keys.
    by apply Hall, kcmp_lt_ne in Hs'.
  - auto.
Qed.

(** Route lists are never empty after a push. *)
Lemma push_route_nonempty r m index i :
  bt_get i m <> Some [] -> bt_get i (push_route r m index) <> Some [].
Proof.
  intros Hm. unfold push_route. rewrite (bt_get_entry_case _ _ _ _ m).
  destruct (decide (index = i)); [|done]. intros [= [_ ?]%app_nil]; done.
Qed.

Lemma push_all_keeps r l m :
  bt_wf m -> (forall i, bt_get i m <> Some []) ->
  bt_wf (foldl (push_route r) m l) /\ forall i, bt_get i (foldl (push_route r) m l) <> Some [].
Proof.
  revert m. induction l as [|x l IH]; intros m Hm Hne; simpl; [done|].
  apply IH; [by apply bt_wf_entry|]. intros i. by apply push_route_nonempty.
Qed.

Lemma rebuild_keeps l m :
  bt_wf m -> (forall i, bt_get i m <> Some []) ->
  bt_wf (foldl rebuild_session m l) /\ forall i, bt_get i (foldl rebuild_session m l) <> Some [].
Proof.
  revert m. induction l as [|[sid s] l IH]; intros m Hm Hne; simpl; [done|].
  unfold rebuild_session.
  destruct (push_all_keeps {| route_session_id := sid; source_side := Right;
    source_ip := socket_ip (right_addr s) |} (left_wireguard_sender_indices s) m) as [H1 H2];
    [done..|].
  destruct (push_all_keeps {| route_session_id := sid; source_side := Left;
    source_ip := socket_ip (left_addr s) |} (right_wireguard_sender_indices s) _ H1 H2)
    as [H3 H4]. by apply IH.
Qed.

Definition sessions_wf (m : btree RelaySessionId RelaySession) : Prop :=
  bt_wf m /\ forall key s, bt_get key m = Some s -> session_wf key s.

Lemma rebuild_wf t : sessions_wf (sessions t) -> table_wf (rebuild_wireguard_return_routes t).
Proof.
  intros [Hwf Heach].
  destruct (rebuild_keeps (sessions t) []) as [Hb Hne]; [apply bt_wf_nil|done|].
  split; simpl; [done|done|done|]. intros i. split; [done|].
  assert (Hnd : Forall (fun e => forall side, NoDup (side_indices e.2 side)) (sessions t)).
  { apply Forall_forall. intros [k s] Hin%bt_get_elem side; [|done].
    apply (sw_indices _ _ (Heach _ _ Hin) side). }
  rewrite routes_in_rebuild by done.
  split; [by apply concat_routes_nodup|]. intros sid side. simpl.
  rewrite concat_routes_keys. by setoid_rewrite bt_get_elem.
Qed.

Lemma table_sessions_wf t : table_wf t -> sessions_wf (sessions t).
Proof. intros [??? ?]. done. Qed.

Lemma sessions_wf_retain p m : sessions_wf m -> sessions_wf (bt_retain p m).
Proof.
  intros [Hm Heach]. split; [by apply bt_wf_retain|]. intros k s. rewrite bt_get_retain by done.
  destruct (bt_get k m) eqn:E; [|done]. destruct (p k r); [|done]. intros [= <-]. auto.
Qed.

Lemma sessions_wf_remove k m : sessions_wf m -> sessions_wf (bt_remove k m).
Proof.
  intros [Hm Heach]. split; [by apply bt_wf_remove|]. intros k' s.
  destruct (decide (k = k')) as [->|Hne]; [by rewrite bt_get_remove|].
  rewrite bt_get_remove_ne by done. auto.
Qed.

Lemma sessions_wf_insert k s m :
  sessions_wf m -> session_wf k s -> sessions_wf (bt_insert k s m).
Proof.
  intros [Hm Heach] Hs. split; [by apply bt_wf_insert|]. intros k' s'.
  destruct (decide (k = k')) as [<-|Hne]; [rewrite bt_get_insert; by intros [= <-]|].
  rewrite bt_get_insert_ne by done. auto.
Qed.

#[local] Hint Resolve table_sessions_wf sessions_wf_retain sessions_wf_remove : ipars.

Lemma purge_expired_wf now t : table_wf t -> table_wf (purge_expired now t).1.
Proof.
  intros Ht. unfold purge_expired. simpl.
  destruct (0 <? _) eqn:E.
  - apply rebuild_wf. simpl. auto with ipars.
  - unfold saturating_sub in E. pose proof (bt_retain_length (fun _ s => negb (is_expired s now))
      (sessions t)). rewrite bt_retain_same_length by lia. by destruct t.
Qed.

Lemma remove_expired_wf sid now t : table_wf t -> table_wf (remove_expired_session sid now t).1.
Proof.
  intros Ht. unfold remove_expired_session. 
  destruct (bt_get sid (sessions t)) as [s|]; [|done]. destruct (is_expired s now); [|done].
  apply rebuild_wf. simpl. auto with ipars.
Qed.

(** ** Updates of one session *)

(** What every update of a session except the recording of an index leaves unchanged. *)
Definition same_core (s s' : RelaySession) : Prop :=
  rs_id s' = rs_id s /\ rs_session_token s' = rs_session_token s /\
  left s' = left s /\ right s' = right s /\
  forall side, side_indices s' side = side_indices s side.

#[global] Instance same_core_preorder : PreOrder same_core.
Proof.
  split; [by intros s|]. intros s1 s2 s3 (? & ? & ? & ? & Hi) (? & ? & ? & ? & Hj).
  repeat split; try congruence.
Qed.

Lemma same_core_wf k s s' : same_core s s' -> session_wf k s -> session_wf k s'.
Proof.
  intros (Hid & Htok & Hl & Hr & Hi) [????? ? Hind].
  split; rewrite ?Hid, ?Htok, ?Hl, ?Hr; try done. intros side. rewrite Hi. apply Hind.
Qed.

Lemma update_session_wf t k s s' :
  table_wf t -> bt_get k (sessions t) = Some s -> same_core s s' ->
  table_wf (set_sessions t (bt_insert k s' (sessions t))).
Proof.
  intros Ht Hk Hc. pose proof Ht as [Hs Hr Heach Hrt].
  destruct (sessions_wf_insert k s' (sessions t)) as [Hs' Heach'].
  { auto with ipars. } { eauto using same_core_wf. }
  split; simpl; [done|done|done|]. intros i. destruct (Hrt i) as (Hne & Hnd & Hin).
  split_and!; [done|done|]. intros sid side. rewrite Hin.
  destruct Hc as (_ & _ & _ & _ & Hi).
  destruct (decide (k = sid)) as [<-|Hne'].
  - rewrite bt_get_insert, Hk. split; intros (? & [= <-] & H); eexists; split; try done.
    + by rewrite Hi.
    + by rewrite Hi in H.
  - by rewrite bt_get_insert_ne.
Qed.

Lemma same_core_consume s n now : same_core s (consume_rate_limit s n now).1.
Proof. unfold consume_rate_limit. destruct (_ <=? _), (_ <? _); by repeat split; intros []. Qed.

Lemma same_core_forwarded s n : same_core s (with_forwarded s n).
Proof. by repeat split; intros []. Qed.

Lemma same_core_addrs s la ra ll rl : same_core s (with_addrs s la ra ll rl).
Proof. by repeat split; intros []. Qed.

Lemma same_core_admission s la ra e m : same_core s (with_admission s la ra e m).
Proof. by repeat split; intros []. Qed.

Lemma same_core_resolve s a d : same_core s (resolve_route s a d).1.
Proof.
  unfold resolve_route. repeat case_match; apply same_core_addrs || reflexivity.
Qed.

(** ** Recording a sender index *)

Lemma remove_found (i : Z) (l : list Z) :
  NoDup l ->
  let l' := match list_find (eq i) l with Some (k, _) => delete k l | None => l end in
  NoDup l' /\ (length l' <= length l)%nat /\ forall x, x ∈ l' <-> x ∈ l /\ x <> i.
Proof.
  intros Hnd. simpl. destruct (list_find (eq i) l) as [[k y]|] eqn:E.
  - apply list_find_Some in E as (Hk & <- & _).
    pose proof (take_drop_middle l k i Hk) as Hmid. rewrite <- Hmid in Hnd.
    apply NoDup_app in Hnd as (H1 & H2 & [H3 H4]%NoDup_cons).
    rewrite delete_take_drop. split_and!.
    + apply NoDup_app. split_and!; [done| |done]. intros x Hx Hx'.
      apply (H2 x Hx). by constructor.
    + rewrite length_app, length_take, length_drop. lia.
    + intros x. rewrite <- Hmid at 3. rewrite !elem_of_app, elem_of_cons.
      split; [|naive_solver]. intros [Hx|Hx]; split; auto; intros ->; [|done].
      apply (H2 i Hx). by constructor.
  - apply list_find_None in E. rewrite Forall_forall in E. split_and!; [done|done|].
    intros x. split; [|tauto]. intros Hx. split; [done|]. intros ->. by apply (E i).
Qed.

Lemma push_index_spec i l l' evicted :
  push_index i l = (l', evicted) -> NoDup l -> (length l <= 8)%nat ->
  NoDup l' /\ (length l' <= 8)%nat /\
  (forall x, x ∈ l' <-> x = i \/ (x ∈ l /\ evicted <> Some x)) /\
  evicted <> Some i.
Proof.
  unfold push_index, MAX_WIREGUARD_SENDER_INDICES_PER_SIDE. intros H Hnd Hlen.
  destruct (remove_found i l Hnd) as (Hn & Hl & Hin). cbv zeta in *.
  remember (match list_find (eq i) l with Some (k, _) => delete k l | None => l end) as l1.
  assert (Hi : i ∉ l1) by (rewrite Hin; tauto). clear Heql1.
  assert (Happ : forall l2 : list Z, NoDup l2 -> (i ∉ l2) -> NoDup (l2 ++ [i])).
  { intros l2 Hn2 Hi2. apply NoDup_app. split_and!; [done| |apply NoDup_singleton].
    intros x Hx ->%list_elem_of_singleton. done. }
  destruct l1 as [|o rest].
  { simplify_eq. split_and!; [apply NoDup_singleton|simpl; lia| |done].
    intros x. rewrite list_elem_of_singleton. specialize (Hin x).
    rewrite elem_of_nil in Hin. destruct (decide (x = i)); [tauto|].
    split; [tauto|]. intros [?|[? _]]; [done|]. tauto. }
  apply NoDup_cons in Hn as [Ho Hr]. rewrite not_elem_of_cons in Hi. destruct Hi as [Hio Hir].
  revert H. destruct (8 <=? length (o :: rest))%nat eqn:E; intros [= <- <-].
  - split_and!; [by apply Happ| | |congruence].
    + rewrite length_app. simpl in *. lia.
    + intros x. specialize (Hin x). rewrite elem_of_cons in Hin.
      rewrite elem_of_app, list_elem_of_singleton.
      destruct (decide (x = i)) as [->|]; [tauto|]. destruct (decide (x = o)) as [->|].
      { split; [tauto|]. intros [?|[_ ?]]; [done|]. congruence. }
      split; [intros [?|?]; [right; split; [tauto|congruence]|tauto]|tauto].
  - apply Nat.leb_gt in E. change (o :: rest ++ [i]) with ((o :: rest) ++ [i]).
    split_and!; [|rewrite length_app; simpl in *; lia| |done].
    + apply Happ; [by apply NoDup_cons|]. by rewrite not_elem_of_cons.
    + intros x. rewrite elem_of_app, list_elem_of_singleton, Hin.
      destruct (decide (x = i)); [tauto|]. split; [intros [[]|]; auto|tauto].
Qed.

Lemma routes_in_upsert t index evicted route i :
  bt_wf (wireguard_return_routes t) ->
  evicted <> Some index ->
  routes_in (wireguard_return_routes (upsert_wireguard_return_route index evicted route t)) i =
  if decide (i = index)
  then List.filter (other_route route) (routes_in (wireguard_return_routes t) i) ++ [route]
  else if decide (evicted = Some i)
  then List.filter (other_route route) (routes_in (wireguard_return_routes t) i)
  else routes_in (wireguard_return_routes t) i.
Proof.
  intros Hwf Hne. unfold upsert_wireguard_return_route.
  set (t1 := match evicted with None => t | _ => _ end).
  assert (H1 : forall j, routes_in (wireguard_return_routes t1) j =
    if decide (evicted = Some j)
    then List.filter (other_route route) (routes_in (wireguard_return_routes t) j)
    else routes_in (wireguard_return_routes t) j).
  { intros j. subst t1. destruct evicted as [e|]; [|by rewrite decide_False].
    unfold routes_in. destruct (bt_get e (wireguard_return_routes t)) as [rs|] eqn:E; simpl.
    - destruct (decide (Some e = Some j)) as [[= <-]|Hj].
      + rewrite E. simpl. case_bool_decide as Hn.
        * by rewrite bt_get_remove, Hn by auto with ipars.
        * by rewrite bt_get_insert.
      + case_bool_decide; rewrite ?bt_get_remove_ne, bt_get_insert_ne by
          (congruence || auto with ipars); done.
    - destruct (decide (Some e = Some j)) as [[= <-]|Hj]; [by rewrite E|done]. }
  unfold set_routes at 1. simpl. unfold routes_in at 1.
  rewrite (bt_get_entry_case _ _ _ _ (wireguard_return_routes t1)).
  fold (routes_in (wireguard_return_routes t1) index). destruct (decide (index = i)) as [<-|Hi].
  - simpl. rewrite decide_True, H1, decide_False by done. done.
  - rewrite (decide_False (P := i = index)) by congruence. apply H1.
Qed.

Lemma other_route_key route r :
  other_route route r = true <-> route_key r <> route_key route.
Proof.
  unfold other_route, route_key. rewrite orb_true_iff, !bool_decide_eq_true.
  destruct (decide (route_session_id r = route_session_id route)),
    (decide (source_side r = source_side route)); intuition congruence.
Qed.

Lemma keys_filter route l k :
  k ∈ map route_key (List.filter (other_route route) l) <->
  k ∈ map route_key l /\ k <> route_key route.
Proof.
  rewrite !list_elem_of_In, !in_map_iff. split.
  - intros (r & <- & [Hr Ho%other_route_key]%filter_In). eauto.
  - intros ((r & <- & Hr) & Hne). exists r. split; [done|]. apply filter_In.
    by rewrite other_route_key.
Qed.

Lemma nodup_keys_filter route l :
  NoDup (map route_key l) -> NoDup (map route_key (List.filter (other_route route) l)).
Proof.
  induction l as [|r l IH]; simpl; [done|]. intros [Hr Hl]%NoDup_cons.
  destruct (other_route route r); simpl; [|auto]. constructor; [|auto].
  rewrite keys_filter. tauto.
Qed.

Lemma upsert_keeps t index evicted route :
  bt_wf (wireguard_return_routes t) ->
  (forall i, bt_get i (wireguard_return_routes t) <> Some []) ->
  let m := wireguard_return_routes (upsert_wireguard_return_route index evicted route t) in
  bt_wf m /\ forall i, bt_get i m <> Some [].
Proof.
  intros Hwf Hne. unfold upsert_wireguard_return_route.
  set (t1 := match evicted with None => t | _ => _ end).
  assert (H1 : bt_wf (wireguard_return_routes t1) /\
               forall i, bt_get i (wireguard_return_routes t1) <> Some []).
  { subst t1. destruct evicted as [e|]; [|done].
    destruct (bt_get e (wireguard_return_routes t)); [|done]. simpl.
    case_bool_decide as Hn; (split; [auto with ipars|]); intros i;
      destruct (decide (e = i)) as [<-|Hi];
      rewrite ?bt_get_remove, ?bt_get_remove_ne, ?bt_get_insert, ?bt_get_insert_ne
        by auto with ipars; congruence || done. }
  destruct H1 as [H1 H2]. simpl. split; [by apply bt_wf_entry|]. intros i.
  rewrite (bt_get_entry_case _ _ _ _ (wireguard_return_routes t1)).
  destruct (decide (index = i)); [|done]. by intros [= [_ ?]%app_nil].
Qed.

Lemma other_side_inj a b : other_side a = other_side b -> a = b.
Proof. by destruct a, b. Qed.

Lemma other_side_invol a : other_side (other_side a) = a.
Proof. by destruct a. Qed.

(** Membership of a key in the routes of an index after an upsert. *)
Lemma upsert_keys t index evicted route i k :
  bt_wf (wireguard_return_routes t) -> evicted <> Some index ->
  k ∈ map route_key
        (routes_in (wireguard_return_routes (upsert_wireguard_return_route index evicted route t)) i)
  <-> if decide (k = route_key route)
      then i = index \/ (k ∈ map route_key (routes_in (wireguard_return_routes t) i) /\
                         evicted <> Some i)
      else k ∈ map route_key (routes_in (wireguard_return_routes t) i).
Proof.
  intros Hwf Hne. rewrite routes_in_upsert by done.
  destruct (decide (i = index)) as [->|Hi].
  - rewrite map_app, elem_of_app, keys_filter. simpl. rewrite list_elem_of_singleton.
    destruct (decide (k = route_key route)); intuition.
  - destruct (decide (evicted = Some i)) as [->|He]; [rewrite keys_filter|];
      destruct (decide (k = route_key route)); intuition.
Qed.

Lemma upsert_nodup t index evicted route i :
  bt_wf (wireguard_return_routes t) -> evicted <> Some index ->
  NoDup (map route_key (routes_in (wireguard_return_routes t) i)) ->
  NoDup (map route_key (routes_in
    (wireguard_return_routes (upsert_wireguard_return_route index evicted route t)) i)).
Proof.
  intros Hwf Hne Hnd. rewrite routes_in_upsert by done.
  destruct (decide (i = index)); [|destruct (decide _); [by apply nodup_keys_filter|done]].
  rewrite map_app. apply NoDup_app. split_and!; [by apply nodup_keys_filter| |].
  - intros k [_ Hk]%keys_filter. simpl. by rewrite list_elem_of_singleton.
  - simpl. apply NoDup_singleton.
Qed.

Lemma upsert_sessions t index evicted route :
  sessions (upsert_wireguard_return_route index evicted route t) = sessions t.
Proof.
  unfold upsert_wireguard_return_route. simpl. destruct evicted as [e|]; [|done].
  by destruct (bt_get e (wireguard_return_routes t)).
Qed.

(** Recording index [i] for one side of a session and adding its route. *)
Lemma record_index_wf t sid s s' side i evicted indices ip :
  table_wf t -> bt_get sid (sessions t) = Some s -> session_wf sid s' ->
  push_index i (side_indices s side) = (indices, evicted) ->
  side_indices s' side = indices ->
  side_indices s' (other_side side) = side_indices s (other_side side) ->
  table_wf (upsert_wireguard_return_route i evicted
              {| route_session_id := sid; source_side := other_side side; source_ip := ip |}
              (set_sessions t (bt_insert sid s' (sessions t)))).
Proof.
  intros Ht Hg Hs' Hpush Hi1 Hi2. pose proof Ht as [Hs Hr Heach Hrt].
  destruct (sw_indices _ _ (Heach _ _ Hg) side) as [Hnd Hlen].
  destruct (push_index_spec _ _ _ _ Hpush Hnd Hlen) as (_ & _ & Hin & Hev).
  set (route := {| route_session_id := sid; source_side := other_side side; source_ip := ip |}).
  set (t1 := set_sessions t _).
  destruct (sessions_wf_insert sid s' (sessions t)) as [Hb1 Heach1]; [by auto with ipars|done|].
  destruct (upsert_keeps t1 i evicted route) as [K1 K2]; [done|intros j; apply (Hrt j)|].
  split; rewrite ?upsert_sessions; [done|done|done|]. intros j.
  destruct (Hrt j) as (Hne & Hnodup & Hkeys). split; [done|].
  split; [by apply upsert_nodup|]. intros sid' side'. rewrite upsert_keys by done.
  change (wireguard_return_routes t1) with (wireguard_return_routes t).
  change (sessions t1) with (bt_insert sid s' (sessions t)).
  destruct (decide ((sid', side') = route_key route)) as [[= -> ->]|Hk]; rewrite Hkeys.
  - rewrite bt_get_insert, Hg, other_side_invol. split.
    + intros [->|((? & [= <-] & Hj) & Hnj)]; exists s'; (split; [done|]);
        rewrite Hi1; apply Hin; auto.
    + intros (? & [= <-] & Hj). rewrite Hi1 in Hj. apply Hin in Hj as [->|[Hj Hnj]]; eauto.
  - destruct (decide (sid = sid')) as [<-|Hsid]; [|by rewrite bt_get_insert_ne].
    assert (other_side side' = other_side side) as ->.
    { destruct side, side'; try done; destruct Hk; done. }
    rewrite bt_get_insert, Hg.
    split; intros (? & [= <-] & Hj); eexists; (split; [done|]); congruence.
Qed.

(** How a forwarded datagram changes its session: nothing of the core, or one more sender
    index for the side it came from. *)
Definition records_index (sid : RelaySessionId) (s s' : RelaySession)
    (update : option (Z * option Z * WireGuardReturnRoute)) : Prop :=
  match update with
  | None => same_core s s'
  | Some (i, evicted, route) =>
      exists side indices s1 ip,
        same_core s s1 /\ push_index i (side_indices s side) = (indices, evicted) /\
        same_core (set_side_indices s1 side indices) s' /\
        route = {| route_session_id := sid; source_side := other_side side; source_ip := ip |}
  end.

Lemma same_core_indices s s' side : same_core s s' -> side_indices s' side = side_indices s side.
Proof. intros (_ & _ & _ & _ & H). apply H. Qed.

Lemma session_forward_datagram_update now a d s :
  match session_forward_datagram now a d s with
  | (s', Ok (_, update)) => records_index (session_id d) s s' update
  | (s', Err _) => same_core s s'
  end.
Proof.
  unfold session_forward_datagram. destruct (verify_token s _); [|done].
  pose proof (same_core_resolve s a d) as H1.
  destruct (resolve_route s a d) as [s1 [[tgt side]|]]; simpl in *; [|done].
  pose proof (same_core_consume s1 (lenZ (ciphertext_payload d)) now) as H2.
  destruct (consume_rate_limit s1 _ now) as [s2 [[]|e]]; simpl in *; [|by transitivity s1].
  assert (H12 : same_core s s2) by by transitivity s1.
  destruct (endpoint_announcement d); simpl.
  { transitivity s2; [done|apply same_core_forwarded]. }
  unfold record_wireguard_sender_index. destruct (wireguard_sender_index _) as [i|]; simpl.
  2:{ transitivity s2; [done|apply same_core_forwarded]. }
  rewrite (same_core_indices s s2) by done.
  destruct (push_index i (side_indices s side)) as [indices evicted] eqn:E. simpl.
  eexists side, indices, s2, _. split_and!; [done|done|apply same_core_forwarded|done].
Qed.

Lemma set_side_indices_same s side l : side_indices (set_side_indices s side l) side = l.
Proof. by destruct side. Qed.

Lemma set_side_indices_other s side l :
  side_indices (set_side_indices s side l) (other_side side) = side_indices s (other_side side).
Proof. by destruct side. Qed.

Lemma set_side_indices_wf k s side l :
  session_wf k s -> NoDup l -> (length l <= 8)%nat -> session_wf k (set_side_indices s side l).
Proof.
  intros [????? ? Hi] Hn Hl. split; try by destruct side.
  intros side'. destruct (decide (side = side')) as [<-|Hne]; [by rewrite set_side_indices_same|].
  assert (side' = other_side side) as -> by by destruct side, side'.
  rewrite set_side_indices_other. apply Hi.
Qed.

Lemma records_index_wf t sid s s' i evicted route :
  table_wf t -> bt_get sid (sessions t) = Some s ->
  records_index sid s s' (Some (i, evicted, route)) ->
  table_wf (upsert_wireguard_return_route i evicted route
              (set_sessions t (bt_insert sid s' (sessions t)))).
Proof.
  intros Ht Hg (side & indices & s1 & ip & H1 & Hp & H2 & ->).
  pose proof (tw_each _ Ht _ _ Hg) as Hs. destruct (sw_indices _ _ Hs side) as [Hnd Hlen].
  destruct (push_index_spec _ _ _ _ Hp Hnd Hlen) as (Hnd' & Hlen' & _).
  apply (record_index_wf t sid s s' side i evicted indices ip); try done.
  - eapply same_core_wf; [done|]. apply set_side_indices_wf; try done. by eapply same_core_wf.
  - by rewrite (same_core_indices _ _ side H2), set_side_indices_same.
  - by rewrite (same_core_indices _ _ _ H2), set_side_indices_other, (same_core_indices _ _ _ H1).
Qed.

Lemma remove_expired_ok sid now t t' :
  remove_expired_session sid now t = (t', Ok tt) ->
  t' = t /\ (forall s, bt_get sid (sessions t) = Some s -> is_expired s now = false).
Proof.
  unfold remove_expired_session. destruct (bt_get sid (sessions t)) as [s|]; [|by intros [= <-]].
  destruct (is_expired s now) eqn:E; [done|]. intros [= <-]. split; [done|]. by intros ? [= <-].
Qed.

Lemma forward_framed_wf now a d t : table_wf t -> table_wf (forward_framed_datagram now a d t).1.
Proof.
  intros Ht. unfold forward_framed_datagram.
  pose proof (remove_expired_wf (session_id d) now t Ht) as Hr.
  destruct (remove_expired_session (session_id d) now t) as [t1 [[]|]] eqn:Er; [|done].
  destruct (bt_get (session_id d) (sessions t1)) as [s|] eqn:Eg; [|done].
  pose proof (session_forward_datagram_update now a d s) as Hu.
  destruct (session_forward_datagram now a d s) as [s' [[fwd [[[i ev] route]|]]|e]]; simpl in *.
  - by eapply records_index_wf.
  - by eapply update_session_wf.
  - by eapply update_session_wf.
Qed.

Lemma same_core_return now a side d s : same_core s (session_return_datagram now a side d s).1.
Proof.
  unfold session_return_datagram. pose proof (same_core_consume s (lenZ d) now) as H.
  destruct (consume_rate_limit s (lenZ d) now) as [s1 [[]|]]; simpl in *; [|done].
  destruct side; simpl; (etransitivity; [|apply same_core_forwarded]);
    (etransitivity; [done|apply same_core_addrs]).
Qed.

Lemma forward_return_wf now a d t :
  table_wf t -> table_wf (forward_wireguard_return_datagram now a d t).1.
Proof.
  intros Ht. unfold forward_wireguard_return_datagram.
  destruct (wireguard_receiver_index d) as [i|]; [|done].
  pose proof (purge_expired_wf now t Ht) as Hp.
  destruct (match_route _ _ _ _) as [[[sid side]|]|]; [|done..].
  destruct (bt_get sid (sessions (purge_expired now t).1)) as [s|] eqn:Eg; [|done].
  pose proof (same_core_return now a side d s) as Hc.
  destruct (session_return_datagram now a side d s) as [s' r]. by eapply update_session_wf.
Qed.

Lemma set_dataplane_wf t m : table_wf t -> table_wf (set_dataplane t m).
Proof. intros [????]. done. Qed.

Lemma forward_datagram_wf now a d t :
  table_wf t -> table_wf (forward_datagram_for_addr_at now a d t).1.
Proof.
  intros Ht. unfold forward_datagram_for_addr_at.
  set (t0 := set_dataplane t _). assert (Ht0 : table_wf t0) by by apply set_dataplane_wf.
  assert (Hi : table_wf (forward_datagram_for_addr_at_inner now a d t0).1).
  { unfold forward_datagram_for_addr_at_inner. destruct (decode_relay_datagram d) as [dg|[]];
      try done; [by apply forward_framed_wf|].
    destruct (wireguard_datagram_payload d); [by apply forward_return_wf|done]. }
  destruct (forward_datagram_for_addr_at_inner now a d t0) as [t1 [fwd|e]]; simpl in *;
    [destruct (should_forward fwd)|]; try done; by apply set_dataplane_wf.
Qed.

Lemma same_core_target now f s : same_core s (session_forward_target now f s).1.
Proof.
  unfold session_forward_target. destruct (verify_token s _); [|done].
  destruct (match _ with true => Some (right_addr s) | false => _ end); [|done].
  pose proof (same_core_consume s (lenZ (rf_ciphertext_payload f)) now) as H.
  destruct (consume_rate_limit s _ now) as [s1 [[]|]]; simpl in *; [|done].
  etransitivity; [done|apply same_core_forwarded].
Qed.

Lemma forward_target_wf now f t : table_wf t -> table_wf (forward_target_at now f t).1.
Proof.
  intros Ht. unfold forward_target_at.
  set (t0 := set_dataplane t _). assert (Ht0 : table_wf t0) by by apply set_dataplane_wf.
  assert (Hi : table_wf (forward_target_at_inner now f t0).1).
  { unfold forward_target_at_inner. destruct (validate_relay_frame_sizes _ _ _); [|done].
    pose proof (remove_expired_wf (rf_session_id f) now t0 Ht0) as Hr.
    destruct (remove_expired_session _ now t0) as [t1 [[]|]]; [|done].
    destruct (bt_get (rf_session_id f) (sessions t1)) as [s|] eqn:Eg; [|done].
    pose proof (same_core_target now f s) as Hc.
    destruct (session_forward_target now f s) as [s' r]. by eapply update_session_wf. }
  destruct (forward_target_at_inner now f t0) as [t1 [tgt|e]]; by apply set_dataplane_wf.
Qed.

Lemma authorize_wf now node p t :
  table_wf t -> table_wf (authorize_http_announcement now node p t).1.
Proof.
  intros Ht. unfold authorize_http_announcement. destruct (decode_relay_datagram p) as [f|]; [|done].
  destruct (_ || _)%bool; [done|].
  pose proof (remove_expired_wf (session_id f) now t Ht) as Hr.
  destruct (remove_expired_session _ now t) as [t1 [[]|]]; [|done].
  by destruct (bt_get (session_id f) (sessions t1)).
Qed.

(** ** Admission keeps the invariant *)

Lemma validate_admission_ok adm sid :
  validate_relay_session_admission adm sid = Ok tt <->
  relay_node_id_is_valid (adm_left adm) = true /\ relay_node_id_is_valid (adm_right adm) = true /\
  adm_left adm <> adm_right adm /\ adm_left_addr adm <> adm_right_addr adm /\
  Endpoints.endpoint_addr_is_usable (adm_left_addr adm) = true /\
  Endpoints.endpoint_addr_is_usable (adm_right_addr adm) = true /\
  lenZ sid <= 4096 /\ 1 <= lenZ (adm_session_token adm) <= 256.
Proof.
  unfold validate_relay_session_admission, validate_relay_admission_node_id.
  destruct (relay_node_id_is_valid (adm_left adm)); [|split; [done|intros [? _]; done]].
  destruct (relay_node_id_is_valid (adm_right adm)); [|split; [done|intros (_ & ? & _); done]].
  rewrite !guard_ok, !orb_false_iff, !bool_decide_eq_false, !negb_false_iff, !Z.ltb_ge, lenZ_pos.
  unfold MAX_RELAY_SESSION_ID_BYTES, MAX_RELAY_SESSION_TOKEN_BYTES. intuition.
Qed.

Lemma pair_matches_id s l r :
  rs_id s = session_id_new (left s) (right s) ->
  pair_matches l r s = true -> rs_id s = session_id_new l r.
Proof.
  unfold pair_matches. intros ->. rewrite orb_true_iff, !andb_true_iff, !bool_decide_eq_true.
  intros [[-> ->]|[-> ->]]; [done|apply session_id_new_comm].
Qed.

(** A session under the identifier of a pair is a session of that pair. *)
Lemma id_pair_matches t l r s :
  table_wf t -> relay_node_id_is_valid l = true -> relay_node_id_is_valid r = true ->
  bt_get (session_id_new l r) (sessions t) = Some s -> pair_matches l r s = true.
Proof.
  intros Ht Vl Vr Hg. destruct (tw_each _ Ht _ _ Hg) as [Hk Hid Sl Sr _ _ _].
  rewrite Hid in Hk. apply session_id_new_inj in Hk; [|done..].
  unfold pair_matches. rewrite orb_true_iff, !andb_true_iff, !bool_decide_eq_true. intuition.
Qed.

(** Adding a session that has not seen any WireGuard index. *)
Lemma insert_fresh_wf t sid s :
  table_wf t -> bt_get sid (sessions t) = None -> session_wf sid s ->
  (forall side, side_indices s side = []) ->
  table_wf (set_sessions t (bt_insert sid s (sessions t))).
Proof.
  intros Ht Hg Hs Hi. pose proof Ht as [Hb Hr Heach Hrt].
  destruct (sessions_wf_insert sid s (sessions t)) as [Hb' Heach']; [by auto with ipars|done|].
  split; simpl; [done|done|done|]. intros i. destruct (Hrt i) as (Hne & Hnd & Hin).
  split_and!; [done|done|]. intros sid' side. rewrite Hin.
  destruct (decide (sid = sid')) as [<-|Hne']; [|by rewrite bt_get_insert_ne].
  rewrite bt_get_insert, Hg. split; [by intros (? & ? & _)|].
  intros (? & [= <-] & H). rewrite Hi in H. by apply not_elem_of_nil in H.
Qed.

Section AdmissionProofs.
  Context `{UrlOps}.

Lemma admit_with_options_wf now capability adm t :
  table_wf t -> table_wf (admit_with_options now capability adm t).1.
Proof.
  intros Ht. unfold admit_with_options. pose proof (purge_expired_wf now t Ht) as Hp.
  set (t1 := (purge_expired now t).1) in *.
  destruct (validate_relay_session_admission adm _) as [[]|e] eqn:Ev; [|done].
  apply validate_admission_ok in Ev as (V1 & V2 & Vne & _ & _ & _ & _ & Vt).
  destruct (bt_find _ (sessions t1)) as [[key s]|] eqn:Ef.
  - apply bt_find_some in Ef as [Hg _]; [|apply Hp].
    destruct (if bool_decide (left s = adm_left adm) then _ else _) as [la ra]. simpl.
    apply rebuild_wf. simpl. apply sessions_wf_insert; [auto with ipars|].
    eapply same_core_wf; [apply same_core_admission|]. by apply Hp.
  - destruct (negb (Overlay.can_admit capability)); [done|]. simpl.
    apply insert_fresh_wf; [done| | |by intros []].
    + destruct (bt_get _ (sessions t1)) as [s|] eqn:Eg; [|done]. exfalso.
      pose proof (bt_find_none _ _ _ _ (tw_sessions _ Hp) Ef Eg) as Hn.
      by rewrite (id_pair_matches t1 _ _ s) in Hn.
    + split; simpl; try done. intros []; simpl; split; (apply NoDup_nil_2 || lia).
Qed.

(** ** Reachable tables *)

(** The public methods of the table that change it. *)
Inductive table_step : RelayTable -> RelayTable -> Prop :=
  | step_admit now capability adm t :
      table_step t (admit_with_options now capability adm t).1
  | step_authorize now node packet t :
      table_step t (authorize_http_announcement now node packet t).1
  | step_forward_target now f t : table_step t (forward_target_at now f t).1
  | step_forward_datagram now a d t : table_step t (forward_datagram_for_addr_at now a d t).1
  | step_purge now t : table_step t (purge_expired now t).1.

Definition reachable (t : RelayTable) : Prop := rtc table_step table_default t.

Lemma table_default_wf : table_wf table_default.
Proof.
  split; simpl; [apply bt_wf_nil|apply bt_wf_nil|done|]. intros i.
  split_and!; [done|constructor|]. intros sid side. simpl.
  split; [by intros ?%not_elem_of_nil|by intros (? & ? & _)].
Qed.

Lemma table_step_wf t t' : table_wf t -> table_step t t' -> table_wf t'.
Proof.
  intros Ht Hs. revert Ht. destruct Hs; intros Ht;
    [by apply admit_with_options_wf|by apply authorize_wf|by apply forward_target_wf
    |by apply forward_datagram_wf|by apply purge_expired_wf].
Qed.

Lemma reachable_wf t : reachable t -> table_wf t.
Proof.
  unfold reachable. assert (Hgen : forall a, table_wf a -> rtc table_step a t -> table_wf t).
  { intros a Ha Hr. induction Hr; eauto using table_step_wf. }
  apply Hgen, table_default_wf.
Qed.

(** C30: Every reachable session table is consistent: sessions are stored under the
    identifier of their pair of valid, distinct nodes; each side has at most eight
    distinct WireGuard indices; and the return routes of an index are exactly the live
    sessions that use it, once per side, with no empty entry left behind by evictions,
    expiry or re-admission. *)
Theorem relay_table_invariant (t : RelayTable) : reachable t -> table_wf t.
Proof. apply reachable_wf. Qed.

End AdmissionProofs.

(** ** Forwarding decisions *)

(** The peer that a datagram of a session is for: by the nodes it names, or by the address
    it comes from when it names none. *)
Definition addressed_to (s : RelaySession) (a : SocketAddr) (d : RelayDatagram)
    (tgt : SocketAddr) : Prop :=
  match source d, destination d with
  | Some src, Some dst =>
      (src = left s /\ dst = right s /\ tgt = right_addr s) \/
      (src = right s /\ dst = left s /\ tgt = left_addr s)
  | _, _ =>
      (a = left_addr s /\ tgt = right_addr s) \/
      (a <> left_addr s /\ a = right_addr s /\ tgt = left_addr s)
  end.

(** The bytes already counted in the window that contains [now]. *)
Definition window_used (s : RelaySession) (now : Z) : Z :=
  if second <=? now - window_started_at s then 0 else window_bytes s.

Definition within_rate (s : RelaySession) (n now : Z) : Prop :=
  saturating_add 64 (window_used s now) n <= max_bytes_per_second s.

Lemma consume_ok s n now :
  (consume_rate_limit s n now).2 = Ok tt <-> within_rate s n now.
Proof.
  unfold consume_rate_limit, within_rate, window_used.
  destruct (second <=? _); simpl; destruct (_ <? _) eqn:E; bool_to_prop; simpl;
    split; intros; (done || lia).
Qed.

Lemma within_rate_addrs s la ra ll rl n now :
  within_rate (with_addrs s la ra ll rl) n now <-> within_rate s n now.
Proof. done. Qed.

Lemma verify_token_ok k s token :
  session_wf k s -> verify_token s token = Ok tt <-> rs_session_token s = token.
Proof.
  intros [_ _ _ _ _ Ht _]. unfold verify_token.
  destruct (relay_session_token_matches (rs_session_token s) token) eqn:E.
  - apply token_matches_spec in E. tauto.
  - split; [done|]. intros <-. apply not_true_iff_false in E. destruct E.
    apply token_matches_spec. split; [done|lia].
Qed.

Lemma resolve_route_ok k s a d tgt :
  session_wf k s ->
  fst <$> (resolve_route s a d).2 = Some tgt <-> addressed_to s a d tgt.
Proof.
  intros [_ _ _ _ Hne _ _]. unfold resolve_route, addressed_to.
  destruct (source d) as [src|], (destination d) as [dst|];
    repeat case_bool_decide; simpl; subst; intuition congruence.
Qed.

Lemma resolve_route_rate s a d n now :
  within_rate (resolve_route s a d).1 n now <-> within_rate s n now.
Proof. unfold resolve_route. by repeat case_match. Qed.

Lemma session_forward_ok k s now a d tgt p :
  session_wf k s ->
  (exists s' ann update, session_forward_datagram now a d s =
     (s', Ok ({| target := tgt; payload := p; should_forward := ann |}, update))) <->
  rs_session_token s = session_token d /\ addressed_to s a d tgt /\
  within_rate s (lenZ (ciphertext_payload d)) now /\ p = ciphertext_payload d.
Proof.
  intros Hs. rewrite <- (verify_token_ok _ _ _ Hs), <- (resolve_route_ok _ _ _ _ _ Hs).
  rewrite <- (resolve_route_rate s a d), <- consume_ok.
  unfold session_forward_datagram. destruct (verify_token s (session_token d)) as [[]|];
    [|split; [by intros (? & ? & ? & ?)|by intros [? _]]].
  destruct (resolve_route s a d) as [s1 [[tgt1 side]|]]; simpl;
    [|split; [by intros (? & ? & ? & ?)|by intros (_ & ? & _)]].
  destruct (consume_rate_limit s1 _ now) as [s2 [[]|]]; simpl;
    [|split; [by intros (? & ? & ? & ?)|by intros (_ & _ & ? & _)]].
  destruct (if endpoint_announcement d then _ else _) as [s3 recorded]. split.
  - by intros (? & ? & ? & [= _ <- <- _]).
  - intros (_ & [= ->] & _ & ->). by eexists _, _, _.
Qed.

Lemma forward_framed_ok t now a d tgt p :
  table_wf t ->
  (exists t' ann, forward_framed_datagram now a d t =
     (t', Ok {| target := tgt; payload := p; should_forward := ann |})) <->
  exists s, bt_get (session_id d) (sessions t) = Some s /\ now < expires_at s /\
    rs_session_token s = session_token d /\ addressed_to s a d tgt /\
    within_rate s (lenZ (ciphertext_payload d)) now /\ p = ciphertext_payload d.
Proof.
  intros Ht. unfold forward_framed_datagram.
  destruct (bt_get (session_id d) (sessions t)) as [s|] eqn:Eg; cycle 1.
  { unfold remove_expired_session. rewrite Eg, Eg. split; [by intros (? & ? & ?)|].
    by intros (? & ? & _). }
  pose proof (session_forward_ok _ s now a d tgt p (tw_each _ Ht _ _ Eg)) as Hok.
  destruct (is_expired s now) eqn:Ex; unfold is_expired in Ex; bool_to_prop.
  { unfold remove_expired_session. rewrite Eg. unfold is_expired.
    replace (expires_at s <=? now) with true by lia. split; [by intros (? & ? & ?)|].
    intros (? & [= <-] & ? & _). lia. }
  unfold remove_expired_session. rewrite Eg. unfold is_expired.
  replace (expires_at s <=? now) with false by lia. rewrite Eg. split.
  - intros (t' & ann & H). exists s. do 2 (split; [done|]). apply Hok.
    destruct (session_forward_datagram now a d s) as [s' [[fwd [[[i ev] r]|]]|e]];
      simplify_eq; eauto.
  - intros (? & [= <-] & _ & H). apply Hok in H as (s' & ann & update & ->).
    destruct update as [[[i ev] r]|]; eauto.
Qed.

(** A relay forwards a frame exactly when its session is live and unexpired, the frame
    carries the session's token, names the session's two nodes as source and destination
    (or, in the first version of the frame, comes from the address of one of them), and
    fits in the session's rate; the payload then goes, unchanged, to the other peer. *)
Theorem forward_datagram_iff (t : RelayTable) (now : Z) (a : SocketAddr) (d : bytes)
    (dg : RelayDatagram) (tgt : SocketAddr) (p : bytes) :
  table_wf t -> decode_relay_datagram d = Ok dg ->
  (forward_datagram_for_addr_at now a d t).2 = Ok (tgt, p) <->
  exists s, bt_get (session_id dg) (sessions t) = Some s /\ now < expires_at s /\
    rs_session_token s = session_token dg /\ addressed_to s a dg tgt /\
    within_rate s (lenZ (ciphertext_payload dg)) now /\ p = ciphertext_payload dg.
Proof.
  intros Ht Hd. unfold forward_datagram_for_addr_at, forward_datagram_for_addr_at_inner.
  rewrite Hd. set (t0 := set_dataplane t _).
  pose proof (forward_framed_ok t0 now a dg tgt p (set_dataplane_wf _ _ Ht)) as Hf.
  change (sessions t0) with (sessions t) in Hf. rewrite <- Hf.
  destruct (forward_framed_datagram now a dg t0) as [t' [[tgt' p' sf]|e]]; simpl; split.
  - intros [= -> ->]. eauto.
  - by intros (? & ? & [= _ -> -> _]).
  - done.
  - by intros (? & ? & ?).
Qed.

(** ** Raw WireGuard return traffic *)

Definition side_learned (s : RelaySession) (side : RelaySessionSide) : bool :=
  match side with Left => left_addr_learned s | Right => right_addr_learned s end.

Definition route_matches (t : RelayTable) (ip : IpAddr) (r : WireGuardReturnRoute) : bool :=
  bool_decide (source_ip r = ip)
  && match bt_get (route_session_id r) (sessions t) with
     | Some s => side_learned s (other_side (source_side r))
     | None => false
     end.

(** The loop finds the only matching route and refuses two of them. *)
Lemma match_route_spec t ip found routes :
  match_route t ip found routes =
  match found, List.filter (route_matches t ip) routes with
  | _, [] => Ok found
  | None, [r] => Ok (Some (route_key r))
  | _, _ => Err UnknownSession
  end.
Proof.
  revert found. induction routes as [|r routes IH]; intros found; [by destruct found|].
  assert (Hstep : match_route t ip found (r :: routes) =
    if route_matches t ip r
    then match found with Some _ => Err UnknownSession
         | None => match_route t ip (Some (route_key r)) routes end
    else match_route t ip found routes).
  { simpl. unfold route_matches. destruct (bool_decide (source_ip r = ip)); simpl; [|done].
    destruct (bt_get (route_session_id r) (sessions t)) as [s|]; [|done].
    unfold route_key. destruct (source_side r); simpl;
      [destruct (right_addr_learned s)|destruct (left_addr_learned s)]; done. }
  rewrite Hstep. simpl. destruct (route_matches t ip r); [|apply IH].
  destruct found; [done|]. rewrite IH. by destruct (List.filter _ routes).
Qed.

Lemma purge_expired_sessions now t :
  sessions (purge_expired now t).1
  = bt_retain (fun _ s => negb (is_expired s now)) (sessions t).
Proof. unfold purge_expired. simpl. by destruct (0 <? _). Qed.

Lemma purge_expired_get now t k s :
  table_wf t ->
  bt_get k (sessions (purge_expired now t).1) = Some s <->
  bt_get k (sessions t) = Some s /\ now < expires_at s.
Proof.
  intros Ht. rewrite purge_expired_sessions, bt_get_retain by apply Ht.
  destruct (bt_get k (sessions t)) as [s'|]; [|intuition congruence].
  unfold is_expired. destruct (expires_at s' <=? now) eqn:E; bool_to_prop; simpl.
  - split; [done|]. intros [[= <-] ?]. lia.
  - split; [by intros [= <-]|tauto].
Qed.

Lemma session_return_ok now a side d s s' fwd :
  session_return_datagram now a side d s = (s', Ok fwd) ->
  target fwd = side_addr s (other_side side) /\ payload fwd = d /\
  within_rate s (lenZ d) now.
Proof.
  unfold session_return_datagram. pose proof (consume_ok s (lenZ d) now) as Hc.
  destruct (consume_rate_limit s (lenZ d) now) as [s1 [[]|]] eqn:E; [|done].
  assert (Ha : forall sd, side_addr s1 sd = side_addr s sd).
  { unfold consume_rate_limit in E. inv_res E; by intros []. }
  intros H. rewrite <- Ha. destruct side; simplify_eq; simpl; tauto.
Qed.

(** ** Rate limiting over time *)

(** The bytes accepted by a run of [consume_rate_limit] calls [(payload_len, now)]. *)
Fixpoint accepted_bytes (s : RelaySession) (calls : list (Z * Z)) : Z :=
  match calls with
  | [] => 0
  | (n, now) :: calls =>
      match consume_rate_limit s n now with
      | (s, Ok _) => n + accepted_bytes s calls
      | (s, Err _) => accepted_bytes s calls
      end
  end.

Definition rate_ok (s : RelaySession) : Prop :=
  0 <= window_bytes s <= max_bytes_per_second s /\ max_bytes_per_second s < 2 ^ 64 - 1.

Lemma consume_step s n now :
  rate_ok s -> 0 <= n ->
  let s' := (consume_rate_limit s n now).1 in
  let reset := second <=? now - window_started_at s in
  rate_ok s' /\ max_bytes_per_second s' = max_bytes_per_second s /\
  window_started_at s' = (if reset then now else window_started_at s) /\
  window_bytes s' = (if reset then 0 else window_bytes s)
                    + (if is_ok (consume_rate_limit s n now).2 then n else 0).
Proof.
  intros [Hw Hm] Hn. unfold consume_rate_limit, rate_ok, saturating_add.
  destruct (second <=? now - window_started_at s); simpl;
    destruct (_ <? _) eqn:E; bool_to_prop; simpl; split_and!; lia.
Qed.

Lemma accepted_bytes_bound calls s last :
  rate_ok s -> window_started_at s <= last ->
  Forall (fun c => 0 <= c.1 /\ c.2 <= last) calls ->
  accepted_bytes s calls + window_bytes s
  <= max_bytes_per_second s * (1 + (last - window_started_at s) / second).
Proof.
  revert s. induction calls as [|[n now] calls IH]; intros s Hs Hlast Hall; simpl.
  { pose proof (Z.div_pos (last - window_started_at s) second). unfold second in *.
    destruct Hs as [? _]. nia. }
  apply Forall_cons in Hall as [[Hn Hnow] Hall]. simpl in Hn, Hnow.
  destruct (consume_step s n now Hs Hn) as (Hs' & Hm' & Hst & Hw).
  assert (Hlast' : window_started_at (consume_rate_limit s n now).1 <= last)
    by (rewrite Hst; destruct (second <=? _); lia).
  specialize (IH _ Hs' Hlast' Hall). rewrite Hm', Hst, Hw in IH.
  destruct (consume_rate_limit s n now) as [s' [[]|]]; simpl in *;
    destruct (second <=? now - window_started_at s) eqn:E; try lia.
  all: assert (1 + (last - now) / second <= (last - window_started_at s) / second)
    by (unfold second in *; dlia).
  all: destruct Hs as [? _]; nia.
Qed.

(** Whatever datagrams arrive and however they are timed, a session relays at most its
    configured bytes per second for each second that has begun since its window started:
    [max * (1 + elapsed seconds)], the bytes already counted in the window included. *)
Theorem session_rate_bound (s : RelaySession) (calls : list (Z * Z)) (last : Z) :
  rate_ok s -> window_started_at s <= last ->
  Forall (fun c => 0 <= c.1 /\ c.2 <= last) calls ->
  accepted_bytes s calls + window_bytes s
  <= max_bytes_per_second s * (1 + (last - window_started_at s) / second).
Proof. apply accepted_bytes_bound. Qed.

(** The rate of a session is within the bound for every 32-bit capability. *)
Lemma megabits_bound m : is_u32 m -> 0 <= megabits_to_bytes_per_second m < 2 ^ 64 - 1.
Proof.
  unfold in_width, megabits_to_bytes_per_second, saturating_mul. intros Hm.
  assert (0 <= Z.min (m * 1000000) (2 ^ 64 - 1) <= m * 1000000) by lia.
  revert H. generalize (Z.min (m * 1000000) (2 ^ 64 - 1)). intros x Hx. dlia.
Qed.

(** ** Counters *)

Lemma upsert_dataplane i ev r t :
  dataplane (upsert_wireguard_return_route i ev r t) = dataplane t.
Proof.
  unfold upsert_wireguard_return_route. simpl. destruct ev as [e|]; [|done].
  by destruct (bt_get e (wireguard_return_routes t)).
Qed.

Lemma purge_dataplane now t : dataplane (purge_expired now t).1 = dataplane t.
Proof. unfold purge_expired. simpl. by destruct (0 <? _). Qed.

Lemma remove_expired_dataplane sid now t :
  dataplane (remove_expired_session sid now t).1 = dataplane t.
Proof. unfold remove_expired_session. by destruct (if _ : bool then _ else _) as [? []] eqn:E; inv_res E. Qed.

Lemma forward_framed_dataplane now a d t :
  dataplane (forward_framed_datagram now a d t).1 = dataplane t.
Proof.
  unfold forward_framed_datagram. pose proof (remove_expired_dataplane (session_id d) now t) as H.
  destruct (remove_expired_session _ now t) as [t1 [[]|]]; simpl in *; [|done].
  destruct (bt_get (session_id d) (sessions t1)) as [s|]; [|done].
  destruct (session_forward_datagram now a d s) as [s' [[fwd [[[i ev] r]|]]|e]]; [|done..].
  cbn [fst]. by rewrite upsert_dataplane.
Qed.

Lemma forward_return_dataplane now a d t :
  dataplane (forward_wireguard_return_datagram now a d t).1 = dataplane t.
Proof.
  unfold forward_wireguard_return_datagram. destruct (wireguard_receiver_index d); [|done].
  pose proof (purge_dataplane now t) as H.
  destruct (match_route _ _ _ _) as [[[sid side]|]|]; [|done..].
  destruct (bt_get sid _) as [s|]; [|done].
  by destruct (session_return_datagram now a side d s).
Qed.

Lemma forward_inner_dataplane now a d t :
  dataplane (forward_datagram_for_addr_at_inner now a d t).1 = dataplane t.
Proof.
  unfold forward_datagram_for_addr_at_inner. destruct (decode_relay_datagram d) as [dg|[]]; try done.
  - apply forward_framed_dataplane.
  - destruct (wireguard_datagram_payload d); [apply forward_return_dataplane|done].
Qed.

Definition sum_values {K} (m : btree K Z) : Z := bt_sum (fun c => c) m.

(** The table and the results after a sequence of datagrams [(now, source, datagram)]. *)
Fixpoint forward_all (packets : list (Z * SocketAddr * bytes)) (t : RelayTable)
  : RelayTable * list (result (SocketAddr * bytes) RelayError) :=
  match packets with
  | [] => (t, [])
  | (now, a, d) :: packets =>
      let '(t, r) := forward_datagram_for_addr_at now a d t in
      let '(t, rs) := forward_all packets t in
      (t, r :: rs)
  end.

Definition count_err {A E} (rs : list (result A E)) : Z :=
  lenZ (List.filter (fun r => negb (is_ok r)) rs).

(** Counters that have counted [n] datagrams, [e] of them dropped. *)
Record counted (n e : Z) (m : RelayDataplaneMetrics) : Prop := {
  counted_received : datagrams_received m = n;
  counted_dropped : datagrams_dropped m = e;
  counted_forwarded : 0 <= datagrams_forwarded m <= n - e;
  counted_reasons : sum_values (drops_by_reason m) = e;
  counted_reasons_wf : bt_wf (drops_by_reason m);
  counted_reasons_pos : forall r c, bt_get r (drops_by_reason m) = Some c -> 0 <= c
}.

Lemma sum_values_ge {K} `{KeyOrd K} (m : btree K Z) k :
  bt_wf m -> (forall r c, bt_get r m = Some c -> 0 <= c) ->
  0 <= default 0 (bt_get k m) <= sum_values m.
Proof.
  intros Hwf Hpos.
  assert (Hall : Forall (fun kv => 0 <= kv.2) m).
  { apply Forall_forall. intros [k' c] Hin%bt_get_elem; [|done]. by apply Hpos in Hin. }
  clear Hpos. unfold sum_values. induction m as [|[k' v'] m IH]; simpl; [lia|].
  apply bt_wf_cons in Hwf as [Hm _]. apply Forall_cons in Hall as [Hv Hall]. simpl in Hv.
  specialize (IH Hm Hall). destruct (kcmp k k'); simpl; lia.
Qed.

Lemma counted_drop n e b reason m :
  0 <= e -> e <= n < 2 ^ 64 - 1 -> counted n e m ->
  counted (n + 1) (e + 1) (record_drop reason b (record_received b m)).
Proof.
  intros He Hn [H1 H2 H3 H4 H5 H6]. pose proof (sum_values_ge _ reason H5 H6) as Hc.
  assert (Hs : forall x, 0 <= x <= n -> saturating_add 64 x 1 = x + 1)
    by (intros; unfold saturating_add; lia).
  split; simpl; try (rewrite Hs by lia); try lia; auto with ipars.
  - unfold bt_entry, sum_values in *. rewrite bt_sum_insert, Hs by lia.
    destruct (bt_get reason (drops_by_reason m)); simpl in *; lia.
  - intros r c. destruct (kcmp reason r) eqn:E.
    + apply kcmp_eq in E as ->. unfold bt_entry. rewrite bt_get_insert, Hs by lia.
      intros [= <-]. lia.
    + unfold bt_entry. rewrite bt_get_insert_ne by (by apply kcmp_lt_ne). apply H6.
    + unfold bt_entry. rewrite bt_get_insert_ne; [apply H6|].
      apply kcmp_gt, kcmp_lt_ne in E. congruence.
Qed.

Lemma counted_received_step n e b m :
  0 <= e <= n -> n < 2 ^ 64 - 1 -> counted n e m -> counted (n + 1) e (record_received b m).
Proof.
  intros He Hn [H1 H2 H3 H4 H5 H6]. split; simpl; try done; try lia.
  unfold saturating_add. lia.
Qed.

Lemma counted_forward_step n e b c m :
  0 <= e <= n -> n < 2 ^ 64 - 1 -> counted n e m ->
  counted (n + 1) e (record_forwarded c (record_received b m)).
Proof.
  intros He Hn [H1 H2 H3 H4 H5 H6]. split; simpl; try done; unfold saturating_add; lia.
Qed.

Lemma forward_counted now a d t n e :
  0 <= e <= n -> n < 2 ^ 64 - 1 -> counted n e (dataplane t) ->
  let '(t', r) := forward_datagram_for_addr_at now a d t in
  counted (n + 1) (e + count_err [r]) (dataplane t').
Proof.
  intros He Hn Hc. unfold forward_datagram_for_addr_at. set (t0 := set_dataplane t _).
  pose proof (forward_inner_dataplane now a d t0) as Hi.
  destruct (forward_datagram_for_addr_at_inner now a d t0) as [t1 [fwd|err]]; simpl in *.
  - unfold count_err. simpl. rewrite Z.add_0_r.
    destruct (should_forward fwd); simpl; rewrite Hi;
      [by apply counted_forward_step|by apply counted_received_step].
  - unfold count_err. simpl. rewrite Hi. apply counted_drop; done || lia.
Qed.

Lemma forward_all_counted packets t n e :
  0 <= e <= n -> n + lenZ packets < 2 ^ 64 -> counted n e (dataplane t) ->
  let '(t', rs) := forward_all packets t in
  counted (n + lenZ packets) (e + count_err rs) (dataplane t') /\ length rs = length packets.
Proof.
  revert t n e. induction packets as [|[[now a] d] packets IH]; intros t n e He Hn Hc.
  { unfold count_err. simpl. rewrite !Z.add_0_r. done. }
  simpl. pose proof (forward_counted now a d t n e He) as H1.
  destruct (forward_datagram_for_addr_at now a d t) as [t1 r].
  cbn [length] in Hn. specialize (H1 ltac:(lia) Hc).
  assert (0 <= count_err [r] <= 1) by (unfold count_err; simpl; destruct (negb _); simpl; lia).
  specialize (IH t1 (n + 1) (e + count_err [r]) ltac:(lia) ltac:(lia) H1).
  destruct (forward_all packets t1) as [t2 rs]. destruct IH as [IH Hl].
  split; [|simpl; lia].
  replace (n + Z.of_nat (S (length packets))) with (n + 1 + lenZ packets) by lia.
  replace (e + count_err (r :: rs)) with (e + count_err [r] + count_err rs); [done|].
  unfold count_err. simpl. destruct (negb (is_ok r)); simpl; lia.
Qed.

(** The dataplane counters add up: after any sequence of fewer than [2^64] datagrams, each
    is counted as received, the dropped counter is the number of datagrams that were
    refused, its breakdown by reason sums to it, and no refused datagram is counted as
    forwarded. *)
Theorem dataplane_accounting (packets : list (Z * SocketAddr * bytes)) :
  lenZ packets < 2 ^ 64 ->
  let '(t, results) := forward_all packets table_default in
  datagrams_received (dataplane t) = lenZ packets /\
  datagrams_dropped (dataplane t) = count_err results /\
  sum_values (drops_by_reason (dataplane t)) = count_err results /\
  0 <= datagrams_forwarded (dataplane t) <= lenZ packets - count_err results.
Proof.
  intros Hlen. pose proof (forward_all_counted packets table_default 0 0) as H.
  destruct (forward_all packets table_default) as [t rs].
  destruct H as [[H1 H2 H3 H4 _ _] _]; [lia|lia|by split; simpl; (lia || done || apply bt_wf_nil)|].
  rewrite !Z.add_0_l in *. done.
Qed.

(** ** From admission to delivery *)

Lemma session_id_utf8 l r :
  relay_node_id_is_valid l = true -> relay_node_id_is_valid r = true ->
  utf8_valid (session_id_new l r) = true.
Proof.
  intros (_ & _ & Hl)%node_id_valid_inv (_ & _ & Hr)%node_id_valid_inv.
  apply utf8_valid_ascii, forallb_Forall. unfold session_id_new.
  assert (Ha : forall a b, Forall (fun x => node_id_byte x = true) a ->
    Forall (fun x => node_id_byte x = true) b ->
    Forall (fun x => is_ascii x = true) (a ++ bstr ":" ++ b)).
  { intros a b Ha Hb. apply Forall_app. split; [|apply Forall_app; split; [by repeat constructor|]];
      (eapply Forall_impl; [done|]; apply node_id_byte_ascii). }
  destruct (kcmp l r); by apply Ha.
Qed.

Section Delivery.
  Context `{UrlOps}.

Lemma admit_grants now c adm t t' cred :
  table_wf t -> admit_with_options now c adm t = (t', Ok cred) ->
  exists s, bt_get (cred_session_id cred) (sessions t') = Some s /\
    rs_session_token s = cred_session_token cred /\ expires_at s = cred_expires_at cred /\
    now < expires_at s /\ pair_matches (adm_left adm) (adm_right adm) s = true /\
    cred_session_id cred = session_id_new (adm_left adm) (adm_right adm).
Proof.
  intros Ht. unfold admit_with_options. pose proof (purge_expired_wf now t Ht) as Hp.
  set (t1 := (purge_expired now t).1) in *.
  assert (Httl : forall x, now < now + Z.max x millisecond) by (unfold millisecond; lia).
  destruct (validate_relay_session_admission adm _) as [[]|]; [|done].
  destruct (bt_find _ (sessions t1)) as [[key s]|] eqn:Ef.
  - apply bt_find_some in Ef as [Hg Hm]; [|apply Hp].
    destruct (tw_each _ Hp _ _ Hg) as [Hk Hid _ _ _ _ _].
    destruct (if bool_decide (left s = adm_left adm) then _ else _) as [la ra].
    intros [= <- <-]. simpl. rewrite <- Hk, bt_get_insert. eexists. split; [done|]. simpl.
    split_and!; try done. rewrite Hk. by apply pair_matches_id.
  - destruct (negb (Overlay.can_admit c)); [done|]. intros [= <- <-]. simpl.
    rewrite bt_get_insert. eexists. split; [done|]. simpl. split_and!; try done.
    unfold pair_matches. simpl. by rewrite !bool_decide_eq_true_2 by done.
Qed.

(** Admission is enough to communicate: with the credentials of a granted admission, a
    frame from either admitted peer to the other, encoded by the client before the
    credentials expire and within the session's rate, is forwarded unchanged to the
    address of the other peer. *)
Theorem admitted_frame_delivered (now now' : Z) (c : Overlay.RelayCapability)
    (adm : RelaySessionAdmission) (t t' : RelayTable) (cred : RelaySessionCredentials)
    (a : SocketAddr) (payload d : bytes) :
  table_wf t -> admit_with_options now c adm t = (t', Ok cred) ->
  utf8_valid (cred_session_token cred) = true ->
  encode_relay_datagram_with_route (cred_session_id cred) (cred_session_token cred)
    (adm_left adm) (adm_right adm) payload = Ok d ->
  now' < cred_expires_at cred ->
  (forall s, bt_get (cred_session_id cred) (sessions t') = Some s ->
     within_rate s (lenZ payload) now') ->
  exists s, bt_get (cred_session_id cred) (sessions t') = Some s /\
    (forward_datagram_for_addr_at now' a d t').2 =
    Ok (if bool_decide (left s = adm_left adm) then right_addr s else left_addr s, payload).
Proof.
  intros Ht Ha Ut Hd Hx Hrate. pose proof (admit_with_options_wf now c adm t Ht) as Hw.
  rewrite Ha in Hw. cbn [fst] in Hw.
  destruct (admit_grants _ _ _ _ _ _ Ht Ha) as (s & Hg & Htok & Hexp & _ & Hpair & Hid).
  exists s. split; [done|].
  pose proof Hd as (_ & _ & _ & _ & V1 & V2)%encode_v2_ok.
  set (dg := {| session_id := cred_session_id cred; session_token := cred_session_token cred;
                source := Some (adm_left adm); destination := Some (adm_right adm);
                ciphertext_payload := payload; endpoint_announcement := false |}).
  assert (Hdec : decode_relay_datagram d = Ok dg).
  { apply decode_complete; [|simpl; rewrite Hid; by apply session_id_utf8|done|done].
    unfold encodings, dg. simpl. rewrite Hd. apply list_elem_of_singleton. done. }
  destruct (forward_framed_ok (set_dataplane t' (record_received (lenZ d) (dataplane t'))) now' a dg
    (if bool_decide (left s = adm_left adm) then right_addr s else left_addr s) payload)
    as [_ Hf]; [by apply set_dataplane_wf|].
  destruct Hf as (t2 & ann & Hf).
  { exists s. simpl. rewrite Hexp. split_and!; try done; [|by apply Hrate].
    unfold addressed_to. simpl. unfold pair_matches in Hpair.
    apply orb_true_iff in Hpair as [[E1 E2]%andb_true_iff|[E1 E2]%andb_true_iff];
      rewrite !bool_decide_eq_true in *.
    - left. rewrite bool_decide_eq_true_2 by done. done.
    - right. rewrite bool_decide_eq_false_2; [done|].
      intros E. destruct (sw_distinct _ _ (tw_each _ Hw _ _ Hg)). congruence. }
  unfold forward_datagram_for_addr_at, forward_datagram_for_addr_at_inner. rewrite Hdec, Hf.
  by destruct ann.
Qed.

End Delivery.

(** ** Examples *)

Definition sample_admission : RelaySessionAdmission :=
  {| adm_left := bstr "a"; adm_right := bstr "b"; adm_left_addr := SockV4 3221225985 1000;
     adm_right_addr := SockV4 3221225986 2000; adm_session_token := bstr "token";
     adm_session_ttl := 60 * second |}.

Definition sample_table : RelayTable :=
  (@admit_with_options Instances.relay_url_ops 0 Instances.sample_capability sample_admission
     table_default).1.

(** A WireGuard handshake initiation with sender index 7, framed by [a] for [b]. *)
Definition handshake (kind : byte) (len : nat) : bytes :=
  [kind; x00; x00; x00; x07; x00; x00; x00] ++ repeat x00 (len - 8).

Definition framed (src dst : NodeId) (p : bytes) : bytes :=
  routed_frame RELAY_FRAME_MAGIC_V2 (bstr "a:b") (bstr "token") src dst p.

Definition sample_learned : RelayTable :=
  (forward_datagram_for_addr_at 5 (SockV4 3221225985 1001)
     (framed (bstr "a") (bstr "b") (handshake x01 148)) sample_table).1.

Lemma sample_table_reachable : @reachable Instances.relay_url_ops sample_table.
Proof. apply rtc_once. apply step_admit. Defined.

Lemma sample_learned_reachable : @reachable Instances.relay_url_ops sample_learned.
Proof. eapply rtc_r; [apply sample_table_reachable|]. apply step_forward_datagram. Defined.

Lemma relay_table_invariant_witness : table_wf sample_learned.
Proof. apply (@relay_table_invariant Instances.relay_url_ops). apply sample_learned_reachable. Defined.

Lemma forward_datagram_iff_witness :
  exists dg,
    decode_relay_datagram (framed (bstr "a") (bstr "b") (handshake x01 148)) = Ok dg /\
    ((forward_datagram_for_addr_at 5 (SockV4 3221225985 1001)
        (framed (bstr "a") (bstr "b") (handshake x01 148)) sample_table).2
     = Ok (SockV4 3221225986 2000, handshake x01 148) <->
     exists s, bt_get (session_id dg) (sessions sample_table) = Some s /\ 5 < expires_at s /\
       rs_session_token s = session_token dg /\
       addressed_to s (SockV4 3221225985 1001) dg (SockV4 3221225986 2000) /\
       within_rate s (lenZ (ciphertext_payload dg)) 5 /\
       handshake x01 148 = ciphertext_payload dg).
Proof.
  eexists. split; [vm_compute; reflexivity|].
  apply forward_datagram_iff; [apply (@reachable_wf Instances.relay_url_ops), sample_table_reachable|vm_compute; reflexivity].
Defined.

Lemma session_rate_bound_witness :
  exists s, bt_get (bstr "a:b") (sessions sample_table) = Some s /\
    accepted_bytes s [(600000, 0); (600000, 1); (600000, 1500000000)] + window_bytes s
    <= max_bytes_per_second s * (1 + (1500000000 - window_started_at s) / second).
Proof.
  eexists. split; [vm_compute; reflexivity|].
  apply session_rate_bound; [split; vm_compute; intuition congruence|vm_compute; congruence|].
  repeat constructor; vm_compute; congruence.
Defined.

Lemma dataplane_accounting_witness :
  let '(t, results) := forward_all [(0, SockV4 1 1, [x00])] table_default in
  datagrams_received (dataplane t) = 1 /\ datagrams_dropped (dataplane t) = count_err results /\
  sum_values (drops_by_reason (dataplane t)) = count_err results /\
  0 <= datagrams_forwarded (dataplane t) <= 1 - count_err results.
Proof. apply (dataplane_accounting [(0, SockV4 1 1, [x00])]). reflexivity. Defined.

Lemma admitted_frame_delivered_witness :
  exists s, bt_get (bstr "a:b") (sessions sample_table) = Some s /\
    (forward_datagram_for_addr_at 5 (SockV4 1 1) (framed (bstr "a") (bstr "b") (bstr "hello"))
       sample_table).2 =
    Ok (if bool_decide (left s = bstr "a") then right_addr s else left_addr s, bstr "hello").
Proof.
  apply (@admitted_frame_delivered Instances.relay_url_ops 0 5 Instances.sample_capability
    sample_admission table_default sample_table
    {| cred_session_id := bstr "a:b"; cred_session_token := bstr "token";
       cred_expires_at := 60 * second |}).
  - apply table_default_wf.
  - vm_compute. reflexivity.
  - reflexivity.
  - vm_compute. reflexivity.
  - reflexivity.
  - intros s Hs. vm_compute in Hs. injection Hs as <-. vm_compute. discriminate.
Defined.

(** An endpoint announcement that carries a payload is sent on to the other peer by the
    server, although it is an announcement "without forwarding payload", and neither the
    forwarded datagrams nor the forwarded bytes count it. *)
Theorem announcement_payload_relayed_uncounted :
  let packet := routed_frame RELAY_FRAME_MAGIC_V3 (bstr "a:b") (bstr "token") (bstr "a")
                  (bstr "b") (bstr "payload") in
  let '(t, sent) := serve_packet 5 (SockV4 3221225985 1001) packet sample_table in
  sent = [(SockV4 3221225986 2000, bstr "payload")] /\
  datagrams_forwarded (dataplane t) = 0 /\ payload_bytes_forwarded (dataplane t) = 0.
Proof. vm_compute. done. Qed.

End RelayTable.
