(* ===== verification/RelayHistory.v ===== *)
(** * Where the relay's addresses come from (crates/ipars-relay/src/lib.rs)

    The session table of RelayTable as the result of the calls made on it. Every address,
    WireGuard index and return route of a live session is traced to an admission of the
    session's pair or to a frame with the session's token, and raw return traffic, which
    carries no token of its own, is shown to be relayed only along such a trace. *)

From S2P Require Import Prelude RustStd BTree Endpoints OverlayTypes Instances RelayWire RelayTable.

Module RelayHistory.
Import RelayWire RelayTable.

(** ** Histories *)

(** The calls that change the table. *)
Inductive TableCall : Type :=
  | Admission (now : Z) (capability : Overlay.RelayCapability) (adm : RelaySessionAdmission)
  | Announcement (now : Z) (node : NodeId) (packet : bytes)
  | Frame (now : Z) (f : RelayFrame)
  | Datagram (now : Z) (a : SocketAddr) (d : bytes)
  | Purge (now : Z).

Section Histories.
  Context `{UrlOps}.

Definition perform (t : RelayTable) (c : TableCall) : RelayTable :=
  match c with
  | Admission now capability adm => (admit_with_options now capability adm t).1
  | Announcement now node packet => (authorize_http_announcement now node packet t).1
  | Frame now f => (forward_target_at now f t).1
  | Datagram now a d => (forward_datagram_for_addr_at now a d t).1
  | Purge now => (purge_expired now t).1
  end.

(** The table of a relay that has started and has served the calls [h]. *)
Definition table_after (h : list TableCall) : RelayTable := foldl perform table_default h.

Lemma table_after_snoc h c : table_after (h ++ [c]) = perform (table_after h) c.
Proof. unfold table_after. by rewrite foldl_app. Qed.

Lemma table_after_reachable h : reachable (table_after h).
Proof.
  induction h as [|c h IH] using rev_ind; [apply rtc_refl|].
  rewrite table_after_snoc. eapply rtc_r; [apply IH|]. destruct c; constructor.
Qed.

Lemma table_after_wf h : table_wf (table_after h).
Proof. apply reachable_wf, table_after_reachable. Qed.

(** ** Provenance *)

(** What identifies a session for its peers: the pair and the token. *)
Record SessionName : Type := {
  sn_id : RelaySessionId;
  sn_token : bytes;
  sn_left : NodeId;
  sn_right : NodeId
}.

Definition name_of (s : RelaySession) : SessionName :=
  {| sn_id := rs_id s; sn_token := rs_session_token s; sn_left := left s; sn_right := right s |}.

Definition side_node (w : SessionName) (side : RelaySessionSide) : NodeId :=
  match side with Left => sn_left w | Right => sn_right w end.

(** An admission that the relay granted. *)
Definition granted (h : list TableCall) (adm : RelaySessionAdmission) : Prop :=
  exists h1 h2 now capability cred,
    h = h1 ++ Admission now capability adm :: h2 /\
    (admit_with_options now capability adm (table_after h1)).2 = Ok cred.

(** A granted admission of the pair gave [a] as the address of the node of [side]. *)
Definition admitted_at (h : list TableCall) (w : SessionName) (side : RelaySessionSide)
    (a : SocketAddr) : Prop :=
  exists adm, granted h adm /\
    ((adm_left adm = side_node w side /\ adm_right adm = side_node w (other_side side) /\
      adm_left_addr adm = a) \/
     (adm_right adm = side_node w side /\ adm_left adm = side_node w (other_side side) /\
      adm_right_addr adm = a)).

(** [dg] came from [a], and bears the identifier and the token of the session. *)
Definition token_frame (h : list TableCall) (w : SessionName) (a : SocketAddr)
    (dg : RelayDatagram) : Prop :=
  exists now d, Datagram now a d ∈ h /\ decode_relay_datagram d = Ok dg /\
    session_id dg = sn_id w /\ session_token dg = sn_token w.

(** A frame with the session's token came from [a] and named the node of [side] as its
    source and the other node as its destination. *)
Definition authenticated_at (h : list TableCall) (w : SessionName) (side : RelaySessionSide)
    (a : SocketAddr) : Prop :=
  exists dg, token_frame h w a dg /\ source dg = Some (side_node w side) /\
    destination dg = Some (side_node w (other_side side)).

(** The IP addresses known to be of a side: of its granted admissions and of its
    authenticated frames. *)
Definition vouched (h : list TableCall) (w : SessionName) (side : RelaySessionSide)
    (ip : IpAddr) : Prop :=
  exists a, socket_ip a = ip /\ (admitted_at h w side a \/ authenticated_at h w side a).

(** The side a frame is taken to come from: the one it names, or, in the first format,
    which names none, the one whose IP address it comes from. *)
Definition from_side (h : list TableCall) (w : SessionName) (side : RelaySessionSide)
    (a : SocketAddr) (dg : RelayDatagram) : Prop :=
  match source dg, destination dg with
  | Some src, Some dst => src = side_node w side /\ dst = side_node w (other_side side)
  | _, _ => vouched h w side (socket_ip a)
  end.

(** The side sent a WireGuard message with sender index [i] in a frame with the token. *)
Definition announced (h : list TableCall) (w : SessionName) (side : RelaySessionSide) (i : Z)
  : Prop :=
  exists a dg, token_frame h w a dg /\ from_side h w side a dg /\
    endpoint_announcement dg = false /\ wireguard_sender_index (ciphertext_payload dg) = Some i.

(** A granted admission of the pair created the session with this token. *)
Definition created (h : list TableCall) (w : SessionName) : Prop :=
  exists adm, granted h adm /\ adm_left adm = sn_left w /\ adm_right adm = sn_right w /\
    adm_session_token adm = sn_token w.

Record traced (h : list TableCall) (s : RelaySession) : Prop := {
  tr_created : created h (name_of s);
  tr_learned : forall side, side_learned s side = true ->
    exists a, authenticated_at h (name_of s) side a;
  tr_addr : forall side, vouched h (name_of s) side (socket_ip (side_addr s side));
  tr_indices : forall side i, i ∈ side_indices s side -> announced h (name_of s) side i
}.

Definition sessions_traced (h : list TableCall) (m : btree RelaySessionId RelaySession) : Prop :=
  forall k s, bt_get k m = Some s -> traced h s.

(** Every session is traced, and so is the IP address that each of its return routes
    expects traffic from. *)
Definition table_traced (h : list TableCall) (t : RelayTable) : Prop :=
  sessions_traced h (sessions t) /\
  forall i r s, r ∈ routes_in (wireguard_return_routes t) i ->
    bt_get (route_session_id r) (sessions t) = Some s ->
    vouched h (name_of s) (source_side r) (source_ip r).

(** ** Later calls keep what was traced *)

Lemma granted_mono h l adm : granted h adm -> granted (h ++ l) adm.
Proof.
  intros (h1 & h2 & now & c & cred & -> & Hok). exists h1, (h2 ++ l), now, c, cred.
  by rewrite <- app_assoc.
Qed.

Lemma granted_last h now c adm cred :
  (admit_with_options now c adm (table_after h)).2 = Ok cred ->
  granted (h ++ [Admission now c adm]) adm.
Proof. intros Hok. by exists h, [], now, c, cred. Qed.

Lemma token_frame_mono h l w a dg : token_frame h w a dg -> token_frame (h ++ l) w a dg.
Proof.
  intros (now & d & Hin & Hrest). exists now, d. split; [|done]. apply elem_of_app. by left.
Qed.

Lemma authenticated_mono h l w side a :
  authenticated_at h w side a -> authenticated_at (h ++ l) w side a.
Proof. intros (dg & Hf & Hr). exists dg. split; [by apply token_frame_mono|done]. Qed.

Lemma vouched_mono h l w side ip : vouched h w side ip -> vouched (h ++ l) w side ip.
Proof.
  intros (a & Ha & [(adm & Hg & Hr)|Hr]); exists a; (split; [done|]); [left|right].
  - exists adm. split; [by apply granted_mono|done].
  - by apply authenticated_mono.
Qed.

Lemma announced_mono h l w side i : announced h w side i -> announced (h ++ l) w side i.
Proof.
  intros (a & dg & Hf & Hs & Hr). exists a, dg. split; [by apply token_frame_mono|].
  split; [|done]. unfold from_side in *.
  destruct (source dg), (destination dg); try done; by apply vouched_mono.
Qed.

Lemma traced_mono h l s : traced h s -> traced (h ++ l) s.
Proof.
  intros [(adm & Hg & Hc) Hl Ha Hi]. split.
  - exists adm. split; [by apply granted_mono|done].
  - intros side [a Hau]%Hl. exists a. by apply authenticated_mono.
  - intros side. apply vouched_mono, Ha.
  - intros side i Hin%Hi. by apply announced_mono.
Qed.

Lemma table_traced_mono h l t : table_traced h t -> table_traced (h ++ l) t.
Proof.
  intros [Hs Hr]. split.
  - intros k s Hk%Hs. by apply traced_mono.
  - intros i r s Hin Hg. apply vouched_mono. by eapply Hr.
Qed.

(** ** Updates of the table *)

(** An update that leaves the pair, the token, the addresses and the indices alone. *)
Definition same_sides (s s' : RelaySession) : Prop :=
  same_core s s' /\
  forall side, side_addr s' side = side_addr s side /\ side_learned s' side = side_learned s side.

Lemma same_core_name s s' : same_core s s' -> name_of s' = name_of s.
Proof. intros (H1 & H2 & H3 & H4 & _). unfold name_of. congruence. Qed.

#[local] Instance same_sides_preorder : PreOrder same_sides.
Proof.
  split; [by intros s|]. intros s1 s2 s3 [Hc1 H1] [Hc2 H2]. split; [by transitivity s2|].
  intros side. destruct (H1 side), (H2 side). split; congruence.
Qed.

Lemma same_sides_traced h s s' : same_sides s s' -> traced h s -> traced h s'.
Proof.
  intros [Hc Hs] [Hcr Hl Ha Hi]. split; rewrite (same_core_name _ _ Hc); [done|..].
  - intros side. destruct (Hs side) as [_ ->]. apply Hl.
  - intros side. destruct (Hs side) as [-> _]. apply Ha.
  - intros side i. rewrite (same_core_indices _ _ _ Hc). apply Hi.
Qed.

Lemma same_sides_consume s n now : same_sides s (consume_rate_limit s n now).1.
Proof.
  split; [apply same_core_consume|]. unfold consume_rate_limit.
  by destruct (_ <=? _), (_ <? _); intros [].
Qed.

Lemma same_sides_forwarded s n : same_sides s (with_forwarded s n).
Proof. split; [apply same_core_forwarded|]. by intros []. Qed.

(** New addresses of a session: each is the old one with its flag, or one vouched for
    whose flag is set only when its peer has been authenticated. *)
Lemma addrs_traced h s la ra ll rl :
  traced h s ->
  vouched h (name_of s) Left (socket_ip la) -> vouched h (name_of s) Right (socket_ip ra) ->
  (ll = true -> exists a, authenticated_at h (name_of s) Left a) ->
  (rl = true -> exists a, authenticated_at h (name_of s) Right a) ->
  traced h (with_addrs s la ra ll rl).
Proof.
  intros [Hcr Hl Ha Hi] Hla Hra Hll Hrl.
  split; change (name_of (with_addrs s la ra ll rl)) with (name_of s); [done|by intros []..|].
  intros side i. rewrite (same_core_indices s) by apply same_core_addrs. apply Hi.
Qed.

Lemma sessions_traced_insert h k s m :
  traced h s -> sessions_traced h m -> sessions_traced h (bt_insert k s m).
Proof.
  intros Hs Hm k' s'. destruct (decide (k = k')) as [<-|Hne].
  - rewrite bt_get_insert. by intros [= <-].
  - rewrite bt_get_insert_ne by done. apply Hm.
Qed.

Lemma session_routes_ip i entry r :
  r ∈ session_routes i entry ->
  route_session_id r = entry.1 /\ source_ip r = socket_ip (side_addr entry.2 (source_side r)).
Proof.
  unfold session_routes. rewrite elem_of_app.
  destruct (decide _), (decide _); rewrite ?list_elem_of_singleton, ?elem_of_nil;
    intros [Hr|Hr]; subst; done.
Qed.

Lemma rebuild_traced h t :
  sessions_wf (sessions t) -> sessions_traced h (sessions t) ->
  table_traced h (rebuild_wireguard_return_routes t).
Proof.
  intros [Hwf Heach] Hs. split; [done|]. intros i r s. simpl.
  rewrite routes_in_rebuild.
  2:{ apply Forall_forall. intros [k e] Hin%bt_get_elem side; [|done].
      apply (sw_indices _ _ (Heach _ _ Hin) side). }
  rewrite elem_of_app. intros [Hn|Hr] Hg; [by apply not_elem_of_nil in Hn|].
  apply list_elem_of_In, in_concat in Hr as (l & Hl & Hr). apply in_map_iff in Hl as ([k e] & <- & Hin). apply list_elem_of_In, session_routes_ip in Hr.
  destruct Hr as [Hk ->]. simpl in *. apply list_elem_of_In, bt_get_elem in Hin; [|done].
  rewrite Hk in Hg. assert (e = s) as -> by congruence. apply (Hs _ _ Hin).
Qed.

(** Replacing one live session keeps the routes, which only know its name. *)
Lemma update_traced h t k s s' :
  bt_get k (sessions t) = Some s -> name_of s' = name_of s -> traced h s' ->
  table_traced h t -> table_traced h (set_sessions t (bt_insert k s' (sessions t))).
Proof.
  intros Hk Hn Hs' [Hs Hr]. split; [by apply sessions_traced_insert|].
  intros i r s1 Hin. simpl. destruct (decide (k = route_session_id r)) as [->|Hne].
  - rewrite bt_get_insert. intros [= <-]. rewrite Hn. by eapply Hr.
  - rewrite bt_get_insert_ne by done. by eapply Hr.
Qed.

Lemma insert_traced h t k s :
  table_wf t -> bt_get k (sessions t) = None -> traced h s -> table_traced h t ->
  table_traced h (set_sessions t (bt_insert k s (sessions t))).
Proof.
  intros Ht Hk Hs' [Hs Hr]. split; [by apply sessions_traced_insert|].
  intros i r s1 Hin. simpl. destruct (decide (k = route_session_id r)) as [->|Hne].
  - pose proof (list_elem_of_fmap_2 route_key _ _ Hin) as Hkey.
    apply (tw_routes _ Ht i) in Hkey as (s2 & Hg & _). congruence.
  - rewrite bt_get_insert_ne by done. by eapply Hr.
Qed.

Lemma upsert_traced h t index evicted route s :
  bt_wf (wireguard_return_routes t) -> evicted <> Some index ->
  bt_get (route_session_id route) (sessions t) = Some s ->
  vouched h (name_of s) (source_side route) (source_ip route) ->
  table_traced h t ->
  table_traced h (upsert_wireguard_return_route index evicted route t).
Proof.
  intros Ht He Hg Hv [Hs Hr]. split; rewrite upsert_sessions; [done|].
  intros i r s1. rewrite routes_in_upsert by done. intros Hin Hg1.
  assert (Hold : r ∈ routes_in (wireguard_return_routes t) i \/ r = route).
  { destruct (decide (i = index)); [|destruct (decide _)];
      rewrite ?elem_of_app, ?list_elem_of_singleton, ?list_elem_of_In, ?filter_In in *;
      intuition. }
  destruct Hold as [Hin'| ->]; [by eapply Hr|]. congruence.
Qed.

(** ** The calls *)

Lemma purge_traced h now t : table_wf t -> table_traced h t -> table_traced h (purge_expired now t).1.
Proof.
  intros Ht [Hs Hr].
  assert (Hsub : forall k s, bt_get k (sessions (purge_expired now t).1) = Some s ->
                             bt_get k (sessions t) = Some s)
    by (intros k s Hg; by apply purge_expired_get in Hg as [Hg _]).
  unfold purge_expired in *. simpl in *. destruct (0 <? _).
  - apply rebuild_traced; [apply sessions_wf_retain, table_sessions_wf, Ht|].
    intros k s Hg%Hsub. by eapply Hs.
  - split; [intros k s Hg%Hsub; by eapply Hs|]. intros i r s Hin Hg%Hsub. by eapply Hr.
Qed.

Lemma remove_expired_traced h sid now t :
  table_wf t -> table_traced h t -> table_traced h (remove_expired_session sid now t).1.
Proof.
  intros Ht Htr. unfold remove_expired_session.
  destruct (bt_get sid (sessions t)) as [s|]; [|done]. destruct (is_expired s now); [|done].
  apply rebuild_traced; [apply sessions_wf_remove, table_sessions_wf, Ht|]. simpl. intros k s'.
  destruct (decide (sid = k)) as [->|Hne]; [by rewrite bt_get_remove by apply Ht|].
  rewrite bt_get_remove_ne by (done || apply Ht). apply Htr.
Qed.

Lemma announcement_traced h now node p t :
  table_wf t -> table_traced h t -> table_traced h (authorize_http_announcement now node p t).1.
Proof.
  intros Ht Htr. unfold authorize_http_announcement.
  destruct (decode_relay_datagram p) as [f|]; [|done]. destruct (_ || _)%bool; [done|].
  pose proof (remove_expired_traced h (session_id f) now t Ht Htr) as Hr.
  destruct (remove_expired_session _ now t) as [t1 [[]|]]; [|done].
  by destruct (bt_get (session_id f) (sessions t1)).
Qed.

Lemma same_sides_target now f s : same_sides s (session_forward_target now f s).1.
Proof.
  unfold session_forward_target. destruct (verify_token s _); [|done].
  destruct (match _ with true => Some (right_addr s) | false => _ end); [|done].
  pose proof (same_sides_consume s (lenZ (rf_ciphertext_payload f)) now) as Hc.
  destruct (consume_rate_limit s _ now) as [s1 [[]|]]; simpl in *; [|done].
  etransitivity; [done|apply same_sides_forwarded].
Qed.

Lemma frame_traced h now f t :
  table_wf t -> table_traced h t -> table_traced h (forward_target_at now f t).1.
Proof.
  intros Ht Htr. unfold forward_target_at. set (t0 := set_dataplane t _).
  assert (Hi : table_traced h (forward_target_at_inner now f t0).1).
  { unfold forward_target_at_inner. destruct (validate_relay_frame_sizes _ _ _); [|done].
    pose proof (remove_expired_traced h (rf_session_id f) now t0
      (set_dataplane_wf _ _ Ht) Htr) as Hr.
    destruct (remove_expired_session _ now t0) as [t1 [[]|]]; [|done].
    destruct (bt_get (rf_session_id f) (sessions t1)) as [s|] eqn:Eg; [|done].
    pose proof (same_sides_target now f s) as Hc.
    destruct (session_forward_target now f s) as [s' r].
    apply (update_traced h t1 _ s); [done|by apply same_core_name, Hc| |done].
    eapply same_sides_traced; [done|]. by eapply Hr. }
  by destruct (forward_target_at_inner now f t0) as [t1 [tgt|e]].
Qed.

(** An admission of the pair of a session vouches for both of its addresses. *)
Lemma admission_vouches h now c adm cred s :
  (admit_with_options now c adm (table_after h)).2 = Ok cred ->
  pair_matches (adm_left adm) (adm_right adm) s = true ->
  let '(la, ra) := if bool_decide (left s = adm_left adm)
                   then (adm_left_addr adm, adm_right_addr adm)
                   else (adm_right_addr adm, adm_left_addr adm) in
  let h' := h ++ [Admission now c adm] in
  vouched h' (name_of s) Left (socket_ip la) /\ vouched h' (name_of s) Right (socket_ip ra).
Proof.
  intros Hok Hp. pose proof (granted_last _ _ _ _ _ Hok) as Hg. unfold pair_matches in Hp.
  rewrite orb_true_iff, !andb_true_iff, !bool_decide_eq_true in Hp.
  case_bool_decide as Hl; split; eexists; (split; [done|]); left; exists adm; (split; [done|]);
    simpl; intuition congruence.
Qed.

Lemma readmitted_traced h s la ra e m :
  traced h s -> vouched h (name_of s) Left (socket_ip la) ->
  vouched h (name_of s) Right (socket_ip ra) -> traced h (with_admission s la ra e m).
Proof.
  intros Hs Hla Hra.
  apply (same_sides_traced _ (with_addrs s la ra (left_addr_learned s) (right_addr_learned s)));
    [by repeat split; destruct side|].
  apply addrs_traced; [done..|apply (tr_learned _ _ Hs Left)|apply (tr_learned _ _ Hs Right)].
Qed.

Lemma admission_traced h now c adm :
  table_traced h (table_after h) ->
  table_traced (h ++ [Admission now c adm]) (admit_with_options now c adm (table_after h)).1.
Proof.
  intros Htr. pose proof (table_after_wf h) as Ht. set (h' := h ++ [Admission now c adm]).
  pose proof (purge_traced h' now _ Ht (table_traced_mono _ _ _ Htr)) as Hp.
  pose proof (purge_expired_wf now _ Ht) as Hw.
  pose proof (admission_vouches h now c adm) as Hv.
  pose proof (granted_last h now c adm) as Hg. unfold admit_with_options in *.
  set (t1 := (purge_expired now (table_after h)).1) in *.
  destruct (validate_relay_session_admission adm _) as [[]|e] eqn:Ev; [|done].
  apply validate_admission_ok in Ev as (V1 & V2 & _).
  destruct (bt_find _ (sessions t1)) as [[key s]|] eqn:Ef.
  - apply bt_find_some in Ef as [Hk Hm]; [|apply Hw]. pose proof (proj1 Hp _ _ Hk) as Hs.
    destruct (if bool_decide (left s = adm_left adm) then _ else _) as [la ra] eqn:Ea.
    specialize (Hv _ s eq_refl Hm). rewrite Ea in Hv. cbv zeta in Hv. destruct Hv as [Hla Hra].
    apply rebuild_traced; simpl.
    + apply sessions_wf_insert; [by apply table_sessions_wf|].
      eapply same_core_wf; [apply same_core_admission|]. by apply Hw.
    + apply sessions_traced_insert; [|apply Hp]. apply readmitted_traced; [done|..];
        [destruct (left_addr_learned s)|destruct (right_addr_learned s)]; try done;
        [apply (tr_addr _ _ Hs Left)|apply (tr_addr _ _ Hs Right)].
  - destruct (negb (Overlay.can_admit c)); [done|]. simpl in *.
    specialize (Hg _ eq_refl). apply insert_traced; [done| |split; simpl|done].
    + destruct (bt_get _ (sessions t1)) as [s|] eqn:Eg; [|done]. exfalso.
      pose proof (bt_find_none _ _ _ _ (tw_sessions _ Hw) Ef Eg) as Hn.
      by rewrite (id_pair_matches t1 _ _ s) in Hn.
    + by exists adm.
    + by intros [].
    + intros []; eexists; (split; [done|]); left; exists adm; (split; [done|]); simpl; auto.
    + intros [] i Hi; by apply not_elem_of_nil in Hi.
Qed.

(** ** Datagrams *)

(** The route of a frame: what it teaches is traced to the frame itself. *)
Lemma resolve_traced h now a d dg s :
  Datagram now a d ∈ h -> decode_relay_datagram d = Ok dg ->
  session_id dg = rs_id s -> session_token dg = rs_session_token s -> traced h s ->
  match resolve_route s a dg with
  | (s1, r) => traced h s1 /\ name_of s1 = name_of s /\
      forall tgt side, r = Some (tgt, side) -> from_side h (name_of s) side a dg
  end.
Proof.
  intros Hin Hd Hid Htok Hs.
  assert (Hf : token_frame h (name_of s) a dg) by by exists now, d.
  pose proof (tr_addr _ _ Hs) as Ha. unfold resolve_route, from_side.
  destruct (source dg) as [src|] eqn:Esrc, (destination dg) as [dst|] eqn:Edst.
  2-4: case_bool_decide as E1; [|case_bool_decide as E2];
    (split; [done|]); (split; [done|]); try done; intros tgt side [= <- <-];
    (rewrite <- E1; apply (Ha Left)) || (rewrite <- E2; apply (Ha Right)).
  assert (Hau : forall side, src = side_node (name_of s) side ->
    dst = side_node (name_of s) (other_side side) ->
    authenticated_at h (name_of s) side a).
  { intros side -> ->. by exists dg. }
  destruct (bool_decide (src = left s) && _) eqn:E1.
  { apply andb_true_iff in E1 as [E1 E2]. rewrite !bool_decide_eq_true in *.
    pose proof (Hau Left E1 E2) as Hl. split; [|split; [done|by intros ?? [= <- <-]]].
    apply addrs_traced; [done|exists a; auto|apply (Ha Right)|eauto
                        |apply (tr_learned _ _ Hs Right)]. }
  destruct (bool_decide (src = right s) && _) eqn:E2; [|by split_and!].
  apply andb_true_iff in E2 as [E2 E3]. rewrite !bool_decide_eq_true in *.
  pose proof (Hau Right E2 E3) as Hl. split; [|split; [done|by intros ?? [= <- <-]]].
  apply addrs_traced; [done|apply (Ha Left)|exists a; auto|apply (tr_learned _ _ Hs Left)|eauto].
Qed.

(** Recording the sender index of a frame. *)
Lemma index_traced h k s side indices evicted i a dg :
  session_wf k s -> traced h s -> token_frame h (name_of s) a dg ->
  from_side h (name_of s) side a dg -> endpoint_announcement dg = false ->
  wireguard_sender_index (ciphertext_payload dg) = Some i ->
  push_index i (side_indices s side) = (indices, evicted) ->
  traced h (set_side_indices s side indices) /\ evicted <> Some i.
Proof.
  intros Hw [Hcr Hl Ha Hi] Hf Hside Hann Hix Hpush.
  destruct (sw_indices _ _ Hw side) as [Hnd Hlen].
  destruct (push_index_spec _ _ _ _ Hpush Hnd Hlen) as (_ & _ & Hin & Hev).
  assert (Hn : name_of (set_side_indices s side indices) = name_of s) by by destruct side.
  split; [|done]. split; rewrite Hn; [done|by destruct side..|]. intros side' j Hj.
  destruct (decide (side' = side)) as [->|Hne].
  - rewrite set_side_indices_same in Hj. apply Hin in Hj as [->|[Hj _]]; [|by apply Hi].
    by exists a, dg.
  - assert (side' = other_side side) as -> by by destruct side, side'.
    rewrite set_side_indices_other in Hj. by apply Hi.
Qed.

(** A frame with the token of a session leaves it traced, and its route update too. *)
Lemma session_datagram_traced h now a d dg k s :
  Datagram now a d ∈ h -> decode_relay_datagram d = Ok dg -> session_id dg = rs_id s ->
  session_wf k s -> traced h s ->
  match session_forward_datagram now a dg s with
  | (s', r) => traced h s' /\ name_of s' = name_of s /\
      forall fwd i ev route, r = Ok (fwd, Some (i, ev, route)) ->
        ev <> Some i /\ route_session_id route = session_id dg /\
        vouched h (name_of s) (source_side route) (source_ip route)
  end.
Proof.
  intros Hin Hd Hid Hw Hs. unfold session_forward_datagram.
  destruct (verify_token s (session_token dg)) as [[]|] eqn:Ev; [|done].
  apply (verify_token_ok k) in Ev; [|done]. symmetry in Ev.
  pose proof (resolve_traced h now a d dg s Hin Hd Hid Ev Hs) as Hr.
  pose proof (same_core_resolve s a dg) as Hc1.
  assert (Hf : token_frame h (name_of s) a dg) by by exists now, d.
  destruct (resolve_route s a dg) as [s1 [[tgt side]|]]; destruct Hr as (H1 & Hn1 & Hside);
    [|done]. specialize (Hside _ _ eq_refl).
  pose proof (same_sides_consume s1 (lenZ (ciphertext_payload dg)) now) as Hc.
  destruct (consume_rate_limit s1 _ now) as [s2 [[]|e]]; simpl in *;
    pose proof (same_sides_traced h _ _ Hc H1) as H2;
    pose proof (same_core_name _ _ (proj1 Hc)) as Hn2; rewrite Hn1 in Hn2; [|done].
  assert (Hw2 : session_wf k s2).
  { eapply same_core_wf; [apply Hc|]. by eapply same_core_wf. }
  assert (Hfwd : forall s3 n, traced h s3 -> name_of s3 = name_of s ->
    traced h (with_forwarded s3 n) /\ name_of (with_forwarded s3 n) = name_of s).
  { intros s3 n H3 Hn3. split; [|done]. by eapply same_sides_traced; [apply same_sides_forwarded|]. }
  destruct (endpoint_announcement dg) eqn:Ean; simpl.
  { destruct (Hfwd s2 (saturating_add 64 (bytes_forwarded s2) (lenZ (ciphertext_payload dg)))
      H2 Hn2). by split_and!. }
  unfold record_wireguard_sender_index.
  destruct (wireguard_sender_index _) as [i|] eqn:Ei; simpl.
  2:{ destruct (Hfwd s2 (saturating_add 64 (bytes_forwarded s2) (lenZ (ciphertext_payload dg)))
        H2 Hn2). by split_and!. }
  destruct (push_index i (side_indices s2 side)) as [indices evicted] eqn:Ep.
  rewrite <- Hn2 in Hf, Hside.
  destruct (index_traced h k s2 side indices evicted i a dg) as [H3 Hev]; [done..|].
  assert (Hn3 : name_of (set_side_indices s2 side indices) = name_of s)
    by (rewrite <- Hn2; by destruct side).
  simpl. set (s3 := set_side_indices s2 side indices) in *.
  destruct (Hfwd s3 (saturating_add 64 (bytes_forwarded s3) (lenZ (ciphertext_payload dg))) H3 Hn3).
  split_and!; [done..|]. intros fwd j ev route [= _ <- <- <-]. split_and!; [done..|]. simpl.
  rewrite <- Hn3. apply H3.
Qed.

Lemma framed_traced h now a d dg t :
  Datagram now a d ∈ h -> decode_relay_datagram d = Ok dg -> table_wf t -> table_traced h t ->
  table_traced h (forward_framed_datagram now a dg t).1.
Proof.
  intros Hin Hd Ht Htr. pose proof (forward_framed_wf now a dg t Ht) as Hw'.
  unfold forward_framed_datagram in *.
  pose proof (remove_expired_wf (session_id dg) now t Ht) as Hw.
  pose proof (remove_expired_traced h (session_id dg) now t Ht Htr) as Hr.
  destruct (remove_expired_session (session_id dg) now t) as [t1 [[]|]]; [|done].
  destruct (bt_get (session_id dg) (sessions t1)) as [s|] eqn:Eg; [|done]. simpl in *.
  pose proof (tw_each _ Hw _ _ Eg) as Hsw.
  pose proof (session_datagram_traced h now a d dg _ s Hin Hd (sw_key _ _ Hsw) Hsw
    (proj1 Hr _ _ Eg)) as Hu.
  pose proof (session_forward_datagram_update now a dg s) as Hc.
  destruct (session_forward_datagram now a dg s) as [s' r]. destruct Hu as (Hs' & Hn & Hup).
  pose proof (update_traced h t1 _ s s' Eg Hn Hs' Hr) as Hset.
  destruct r as [[fwd [[[i ev] route]|]]|]; [|done..]. simpl in *.
  destruct (Hup _ _ _ _ eq_refl) as (Hev & Hid & Hv).
  apply (upsert_traced h _ i ev route s'); [|done|simpl|by rewrite Hn|done].
  - apply Hw.
  - by rewrite Hid, bt_get_insert.
Qed.

(** The only route that matches a raw datagram. *)
Lemma matched_route t ip i sid side :
  table_wf t ->
  match_route t ip None (routes_in (wireguard_return_routes t) i) = Ok (Some (sid, side)) ->
  exists r s,
    List.filter (route_matches t ip) (routes_in (wireguard_return_routes t) i) = [r] /\
    r ∈ routes_in (wireguard_return_routes t) i /\ source_ip r = ip /\
    route_session_id r = sid /\ source_side r = side /\
    bt_get sid (sessions t) = Some s /\ side_learned s (other_side side) = true /\
    i ∈ side_indices s (other_side side).
Proof.
  intros Ht. rewrite match_route_spec.
  destruct (List.filter _ _) as [|r [|]] eqn:Ef; [done| |done]. intros [= <- <-].
  assert (Hr : r ∈ routes_in (wireguard_return_routes t) i /\ route_matches t ip r = true).
  { rewrite list_elem_of_In. apply filter_In. rewrite Ef. by left. }
  destruct Hr as [Hr Hm]. unfold route_matches in Hm. apply andb_true_iff in Hm as [Hip Hm].
  apply bool_decide_eq_true in Hip.
  pose proof (list_elem_of_fmap_2 route_key _ _ Hr) as Hkey.
  apply (tw_routes _ Ht i) in Hkey as (s & Hg & Hi). rewrite Hg in Hm. by exists r, s.
Qed.

Lemma session_return_traced h now a side d s :
  traced h s -> vouched h (name_of s) side (socket_ip a) ->
  traced h (session_return_datagram now a side d s).1.
Proof.
  intros Hs Ha. unfold session_return_datagram.
  pose proof (same_sides_consume s (lenZ d) now) as Hc.
  destruct (consume_rate_limit s (lenZ d) now) as [s1 [[]|]]; simpl in *;
    pose proof (same_sides_traced h _ _ Hc Hs) as H1; [|done].
  rewrite <- (same_core_name _ _ (proj1 Hc)) in Ha.
  destruct side; simpl; (eapply same_sides_traced; [apply same_sides_forwarded|]);
    apply addrs_traced; try done;
    apply (tr_addr _ _ H1 Left) || apply (tr_addr _ _ H1 Right)
    || apply (tr_learned _ _ H1 Left) || apply (tr_learned _ _ H1 Right).
Qed.

Lemma return_traced h now a d t :
  table_wf t -> table_traced h t ->
  table_traced h (forward_wireguard_return_datagram now a d t).1.
Proof.
  intros Ht Htr. unfold forward_wireguard_return_datagram.
  destruct (wireguard_receiver_index d) as [i|]; [|done].
  pose proof (purge_expired_wf now t Ht) as Hw. pose proof (purge_traced h now t Ht Htr) as Hp.
  fold (routes_in (wireguard_return_routes (purge_expired now t).1) i).
  destruct (match_route _ _ _ _) as [[[sid side]|]|] eqn:Em; [|done..].
  destruct (matched_route _ _ _ _ _ Hw Em) as (r & s & _ & Hr & Hip & Hid & Hside & Hg & _).
  rewrite Hg. pose proof (same_core_return now a side d s) as Hc.
  pose proof (session_return_traced h now a side d s (proj1 Hp _ _ Hg)) as Hs.
  destruct (session_return_datagram now a side d s) as [s' res].
  apply (update_traced h _ _ s); [done|by apply same_core_name| |done].
  apply Hs. rewrite <- Hip, <- Hside. eapply Hp; [done|]. by rewrite Hid.
Qed.

Lemma datagram_traced h now a d t :
  Datagram now a d ∈ h -> table_wf t -> table_traced h t ->
  table_traced h (forward_datagram_for_addr_at now a d t).1.
Proof.
  intros Hin Ht Htr. unfold forward_datagram_for_addr_at. set (t0 := set_dataplane t _).
  assert (Ht0 : table_wf t0) by by apply set_dataplane_wf.
  assert (Hi : table_traced h (forward_datagram_for_addr_at_inner now a d t0).1).
  { unfold forward_datagram_for_addr_at_inner.
    destruct (decode_relay_datagram d) as [dg|[]] eqn:Ed; try done; [by eapply framed_traced|].
    destruct (wireguard_datagram_payload d); [by apply return_traced|done]. }
  destruct (forward_datagram_for_addr_at_inner now a d t0) as [t1 [fwd|e]]; [|done].
  simpl. by destruct (should_forward fwd).
Qed.

(** Every address, index and route of the table is traced to the calls made on it. *)
Lemma table_after_traced h : table_traced h (table_after h).
Proof.
  induction h as [|c h IH] using rev_ind.
  { split; [by intros k s|]. intros i r s Hr. by apply not_elem_of_nil in Hr. }
  rewrite table_after_snoc. pose proof (table_after_wf h) as Ht.
  pose proof (table_traced_mono _ [c] _ IH) as Hm. destruct c; simpl.
  - by apply admission_traced.
  - by apply announcement_traced.
  - by apply frame_traced.
  - apply datagram_traced; [|done..]. apply elem_of_app. right. by constructor.
  - by apply purge_traced.
Qed.

(** ** Raw return traffic *)

(** In table [t], [side] of the live session [s] waits for raw datagrams with receiver
    index [i] from [ip]: it has authenticated itself, and [ip] is the address its return
    route expects the other side at. *)
Definition expects (t : RelayTable) (i : Z) (ip : IpAddr) (s : RelaySession)
    (side : RelaySessionSide) : Prop :=
  bt_get (rs_id s) (sessions t) = Some s /\ side_learned s side = true /\
  {| route_session_id := rs_id s; source_side := other_side side; source_ip := ip |}
    ∈ routes_in (wireguard_return_routes t) i.

Lemma expected_alone t i ip r s side :
  List.filter (route_matches t ip) (routes_in (wireguard_return_routes t) i) = [r] ->
  expects t i ip s side ->
  r = {| route_session_id := rs_id s; source_side := other_side side; source_ip := ip |}.
Proof.
  intros Hf (Hg & Hl & Hin). apply list_elem_of_In in Hin.
  assert (Hm : In {| route_session_id := rs_id s; source_side := other_side side;
                     source_ip := ip |} [r]).
  { rewrite <- Hf. apply filter_In. split; [done|]. unfold route_matches. simpl.
    by rewrite bool_decide_eq_true_2, Hg, other_side_invol. }
  by destruct Hm as [Hm|[]].
Qed.

Lemma session_return_moves now a side d s s' fwd :
  session_return_datagram now a side d s = (s', Ok fwd) -> side_addr s' side = a.
Proof.
  unfold session_return_datagram. destruct (consume_rate_limit s (lenZ d) now) as [s1 [[]|]];
    [|done]. destruct side; by intros [= <- _].
Qed.

(** What the relaying of a raw datagram goes through, on the table without its expired
    sessions. *)
Lemma raw_relayed now a d t t' fwd :
  table_wf t -> forward_wireguard_return_datagram now a d t = (t', Ok fwd) ->
  let live := (purge_expired now t).1 in
  exists i s side s',
    wireguard_receiver_index d = Some i /\ bt_get (rs_id s) (sessions live) = Some s /\
    expects live i (socket_ip a) s side /\
    (forall s1 side1, expects live i (socket_ip a) s1 side1 -> s1 = s /\ side1 = side) /\
    i ∈ side_indices s side /\
    session_return_datagram now a (other_side side) d s = (s', Ok fwd) /\
    sessions t' = bt_insert (rs_id s) s' (sessions live).
Proof.
  intros Ht. unfold forward_wireguard_return_datagram. cbv zeta.
  set (live := (purge_expired now t).1).
  assert (Hw : table_wf live) by by apply purge_expired_wf.
  destruct (wireguard_receiver_index d) as [i|]; [|done].
  fold (routes_in (wireguard_return_routes live) i).
  destruct (match_route _ _ _ _) as [[[sid side]|]|] eqn:Em; [|done..].
  destruct (matched_route _ _ _ _ _ Hw Em) as (r & s & Hf & Hr & Hip & Hid & Hside & Hg & Hl & Hi).
  rewrite Hg. pose proof (sw_key _ _ (tw_each _ Hw _ _ Hg)) as Hk. rewrite Hk in *.
  destruct (session_return_datagram now a side d s) as [s' res] eqn:Es. intros [= <- ->].
  assert (He : expects live i (socket_ip a) s (other_side side)).
  { split_and!; [done..|]. rewrite other_side_invol.
    replace {| route_session_id := _ |} with r; [done|]. destruct r. simpl in *. congruence. }
  exists i, s, (other_side side), s'. rewrite other_side_invol. split_and!; try done.
  intros s1 side1 He1. pose proof (expected_alone _ _ _ _ _ _ Hf He1) as Hr1.
  assert (Hid1 : rs_id s1 = rs_id s) by (rewrite <- Hid, Hr1; done).
  destruct He1 as [Hg1 _]. rewrite Hid1, Hg in Hg1. split; [congruence|].
  rewrite <- Hside, Hr1. simpl. by rewrite other_side_invol.
Qed.

(** Counting a datagram does not matter to what is live. *)
Lemma purge_counted now t m :
  (purge_expired now (set_dataplane t m)).1 = set_dataplane (purge_expired now t).1 m.
Proof. unfold purge_expired. simpl. by destruct (0 <? _). Qed.

(** C31: A raw WireGuard datagram, which carries no token, is relayed only inside a live session
    that a granted admission of its pair created with its token. The peer it goes to has
    authenticated itself with a frame that bears that token, and has itself sent the
    receiver index of the datagram as its sender index in such a frame; no other peer of a
    live session that authenticated itself waits for that index from the sender's IP address. The IP address it comes
    from is one of the other peer's and the one it goes to is one of the receiving peer's:
    given in a granted admission of the pair, or the source of a frame with the token. It
    is within the session's rate, is passed on unchanged to the address stored for the
    receiving peer, and its own source becomes the address stored for the other one. *)
Theorem return_traffic_authenticated (h : list TableCall) (now : Z) (a : SocketAddr) (d : bytes)
    (tgt : SocketAddr) (p : bytes) :
  is_ok (decode_relay_datagram d) = false ->
  (forward_datagram_for_addr_at now a d (table_after h)).2 = Ok (tgt, p) ->
  exists index s side s',
    wireguard_receiver_index d = Some index /\
    bt_get (rs_id s) (sessions (table_after h)) = Some s /\ now < expires_at s /\
    created h (name_of s) /\
    announced h (name_of s) side index /\
    (exists b, authenticated_at h (name_of s) side b) /\
    (let live := (purge_expired now (table_after h)).1 in
     expects live index (socket_ip a) s side /\
     forall s1 side1, expects live index (socket_ip a) s1 side1 -> s1 = s /\ side1 = side) /\
    vouched h (name_of s) (other_side side) (socket_ip a) /\
    vouched h (name_of s) side (socket_ip tgt) /\
    tgt = side_addr s side /\ within_rate s (lenZ d) now /\ p = d /\
    bt_get (rs_id s) (sessions (forward_datagram_for_addr_at now a d (table_after h)).1)
      = Some s' /\ name_of s' = name_of s /\ side_addr s' (other_side side) = a.
Proof.
  intros Hd. pose proof (table_after_wf h) as Ht. pose proof (table_after_traced h) as Htr.
  set (t := table_after h) in *.
  unfold forward_datagram_for_addr_at, forward_datagram_for_addr_at_inner.
  destruct (decode_relay_datagram d) as [|[]]; try done.
  destruct (wireguard_datagram_payload d); [|done]. set (m := record_received _ _).
  destruct (forward_wireguard_return_datagram now a d (set_dataplane t m)) as [t' [fwd|]] eqn:Ef;
    [|done].
  apply raw_relayed in Ef as (i & s & side & s' & Hi & Hg & He & Hone & Hix & Hret & Hset);
    [|by apply set_dataplane_wf].
  rewrite purge_counted in *. set (live := (purge_expired now t).1) in *.
  change (sessions (set_dataplane live m)) with (sessions live) in *.
  pose proof (purge_traced h now t Ht Htr : table_traced h live) as [Hls Hlr].
  pose proof (Hls _ _ Hg) as Hs. pose proof (session_return_moves _ _ _ _ _ _ _ Hret) as Hmv.
  pose proof (same_core_return now a (other_side side) d s) as Hc. rewrite Hret in Hc.
  apply session_return_ok in Hret as (Htgt & Hpay & Hrate). rewrite other_side_invol in Htgt.
  pose proof Hg as [Hg0 Hx]%purge_expired_get; [|done]. pose proof He as (_ & Hl & Hr).
  assert (Hend : forall u, sessions u = sessions t' ->
    bt_get (rs_id s) (sessions u) = Some s') by (intros u ->; by rewrite Hset, bt_get_insert).
  simpl. intros [= <- <-]. exists i, s, side, s'.
  split_and!; try done; [apply Hs|by apply Hs..| | |apply Hend; by destruct (should_forward fwd)|].
  - apply (Hlr i _ s Hr Hg).
  - rewrite Htgt. apply Hs.
  - by apply same_core_name.
Qed.

End Histories.

(** ** Example *)

(** Node [a] and node [b] are admitted, and [a] sends a handshake initiation to [b]. *)
Definition sample_history : list TableCall :=
  [Admission 0 Instances.sample_capability sample_admission;
   Datagram 5 (SockV4 3221225985 1001) (framed (bstr "a") (bstr "b") (handshake x01 148))].

Lemma return_traffic_authenticated_witness :
  let t := @table_after Instances.relay_url_ops sample_history in
  let a := SockV4 3221225986 2001 in
  let d := handshake x04 32 in
  is_ok (decode_relay_datagram d) = false /\
  (forward_datagram_for_addr_at 6 a d t).2 = Ok (SockV4 3221225985 1001, d) /\
  exists index s side, wireguard_receiver_index d = Some index /\
    bt_get (rs_id s) (sessions t) = Some s /\
    @announced Instances.relay_url_ops sample_history (name_of s) side index /\
    @vouched Instances.relay_url_ops sample_history (name_of s) (other_side side) (socket_ip a) /\
    @vouched Instances.relay_url_ops sample_history (name_of s) side
      (socket_ip (SockV4 3221225985 1001)).
Proof.
  cbv zeta.
  assert (Hd : is_ok (decode_relay_datagram (handshake x04 32)) = false)
    by (vm_compute; reflexivity).
  assert (Hf : (forward_datagram_for_addr_at 6 (SockV4 3221225986 2001) (handshake x04 32)
                  (@table_after Instances.relay_url_ops sample_history)).2
               = Ok (SockV4 3221225985 1001, handshake x04 32)) by (vm_compute; reflexivity).
  split; [exact Hd|split; [exact Hf|]].
  destruct (@return_traffic_authenticated Instances.relay_url_ops sample_history 6
    (SockV4 3221225986 2001) (handshake x04 32) _ _ Hd Hf)
    as (i & s & side & s' & Hi & Hg & _ & _ & Ha & _ & _ & Hv & Hv' & _).
  exists i, s, side. split_and!; assumption.
Defined.

End RelayHistory.
