(* ===== verification/RelayService.v ===== *)
(** * The relay service (crates/ipars-relay/src/lib.rs)

    [RelayService]: admission with its request limiter, the limit of sessions per node,
    the capacity of the relay and the admission counters, on top of the session table
    that the data plane shares. An admission runs with the capability and the table
    locked, so it is one step; every reading of the clock and the fresh token are
    arguments. *)

From S2P Require Import Prelude RustStd BTree Endpoints OverlayTypes Instances RelayWire RelayTable.

Module RelayService.
Import RelayWire RelayTable.

Inductive RelayAdmissionFailureReason : Type :=
  | FailUnauthorized
  | FailInvalidAdmissionRequest
  | FailAdmissionDenied
  | FailNodeSessionLimitExceeded
  | FailRateLimited
  | FailInvalidSessionCredential
  | FailSocketError
  | FailInternalError.

Definition failure_reason_index (r : RelayAdmissionFailureReason) : Z :=
  match r with
  | FailUnauthorized => 0 | FailInvalidAdmissionRequest => 1 | FailAdmissionDenied => 2
  | FailNodeSessionLimitExceeded => 3 | FailRateLimited => 4
  | FailInvalidSessionCredential => 5 | FailSocketError => 6 | FailInternalError => 7
  end.

#[global] Instance failure_reason_ord : KeyOrd RelayAdmissionFailureReason.
Proof. apply (ord_by failure_reason_index). by intros [] []. Defined.

Definition relay_error_admission_failure_reason (error : RelayError)
  : RelayAdmissionFailureReason :=
  match error with
  | InvalidAdmissionRequest => FailInvalidAdmissionRequest
  | AdmissionDenied => FailAdmissionDenied
  | NodeSessionLimitExceeded => FailNodeSessionLimitExceeded
  | RateLimited => FailRateLimited
  | InvalidSessionCredential => FailInvalidSessionCredential
  | Socket => FailSocketError
  | UnknownSession | SessionExpired | MalformedFrame | FrameTooLarge => FailInternalError
  end.

Definition ALL : list RelayAdmissionFailureReason :=
  [FailUnauthorized; FailInvalidAdmissionRequest; FailAdmissionDenied;
   FailNodeSessionLimitExceeded; FailRateLimited; FailInvalidSessionCredential;
   FailSocketError; FailInternalError].

Definition ALL_drop : list RelayDataplaneDropReason :=
  [DropAdmissionDenied; DropUnknownSession; DropSessionExpired; DropInvalidSessionCredential;
   DropRateLimited; DropMalformedFrame; DropFrameTooLarge; DropSocketError].

(** [collect] into a [BTreeMap]. *)
Definition zero_filled {K} `{KeyOrd K} (all : list K) (observed : btree K Z) : btree K Z :=
  foldl (fun m reason => bt_insert reason (default 0 (bt_get reason observed)) m) [] all.

Definition zero_filled_admission_failure_reasons
    (observed : btree RelayAdmissionFailureReason Z) : btree RelayAdmissionFailureReason Z :=
  zero_filled ALL observed.

Definition zero_filled_dataplane_metrics (m : RelayDataplaneMetrics) : RelayDataplaneMetrics :=
  {| datagrams_received := datagrams_received m; datagrams_forwarded := datagrams_forwarded m;
     datagrams_dropped := datagrams_dropped m;
     datagram_bytes_received := datagram_bytes_received m;
     payload_bytes_forwarded := payload_bytes_forwarded m;
     datagram_bytes_dropped := datagram_bytes_dropped m;
     drops_by_reason := zero_filled ALL_drop (drops_by_reason m) |}.

Record RelayAdmissionRateLimit : Type := { max_attempts : Z; limit_window : Z }.
Record RelayAdmissionRateWindow : Type := { started_at : Z; attempts : Z }.

Record RelayAdmissionRequest : Type := {
  req_left : NodeId; req_right : NodeId;
  req_left_addr : SocketAddr; req_right_addr : SocketAddr
}.

Record RelayAdmissionResponse : Type := {
  resp_relay_node : NodeId; resp_session_id : bytes; resp_session_token : bytes;
  resp_expires_at : Z; resp_left : NodeId; resp_right : NodeId;
  resp_left_addr : SocketAddr; resp_right_addr : SocketAddr
}.

(** The fields of [RelayService]; locks and atomics hold the values here. *)
Record RelayService : Type := {
  relay_node : NodeId;
  capability : Overlay.RelayCapability;
  table : RelayTable;
  session_ttl : Z;
  admission_rate_limit : option RelayAdmissionRateLimit;
  max_sessions_per_node : option Z;
  admission_rate_window : RelayAdmissionRateWindow;
  admission_attempts : Z;
  admission_successes : Z;
  admission_failures : Z;
  admission_failures_by_reason : btree RelayAdmissionFailureReason Z
}.

Definition set_core (s : RelayService) (c : Overlay.RelayCapability) (t : RelayTable)
  : RelayService :=
  {| relay_node := relay_node s; capability := c; table := t; session_ttl := session_ttl s;
     admission_rate_limit := admission_rate_limit s;
     max_sessions_per_node := max_sessions_per_node s;
     admission_rate_window := admission_rate_window s;
     admission_attempts := admission_attempts s; admission_successes := admission_successes s;
     admission_failures := admission_failures s;
     admission_failures_by_reason := admission_failures_by_reason s |}.

Definition set_window (s : RelayService) (w : RelayAdmissionRateWindow) : RelayService :=
  {| relay_node := relay_node s; capability := capability s; table := table s;
     session_ttl := session_ttl s; admission_rate_limit := admission_rate_limit s;
     max_sessions_per_node := max_sessions_per_node s; admission_rate_window := w;
     admission_attempts := admission_attempts s; admission_successes := admission_successes s;
     admission_failures := admission_failures s;
     admission_failures_by_reason := admission_failures_by_reason s |}.

Definition set_counts (s : RelayService) (att succ fail : Z)
    (reasons : btree RelayAdmissionFailureReason Z) : RelayService :=
  {| relay_node := relay_node s; capability := capability s; table := table s;
     session_ttl := session_ttl s; admission_rate_limit := admission_rate_limit s;
     max_sessions_per_node := max_sessions_per_node s;
     admission_rate_window := admission_rate_window s;
     admission_attempts := att; admission_successes := succ; admission_failures := fail;
     admission_failures_by_reason := reasons |}.

(** ** Constructors *)

Definition with_session_ttl_admission_controls (now : Z) (node : NodeId)
    (c : Overlay.RelayCapability) (ttl : Z) (limit : option RelayAdmissionRateLimit)
    (per_node : option Z) : RelayService :=
  {| relay_node := node; capability := c; table := table_default;
     session_ttl := Z.max ttl millisecond; admission_rate_limit := limit;
     max_sessions_per_node := match per_node with
                              | Some n => if 0 <? n then Some n else None | None => None end;
     admission_rate_window := {| started_at := now; attempts := 0 |};
     admission_attempts := 0; admission_successes := 0; admission_failures := 0;
     admission_failures_by_reason := [] |}.

Definition with_session_ttl_and_admission_rate_limit (now : Z) (node : NodeId)
    (c : Overlay.RelayCapability) (ttl : Z) (limit : option RelayAdmissionRateLimit)
  : RelayService := with_session_ttl_admission_controls now node c ttl limit None.

Definition with_session_ttl (now : Z) (node : NodeId) (c : Overlay.RelayCapability) (ttl : Z)
  : RelayService := with_session_ttl_and_admission_rate_limit now node c ttl None.

Definition new (now : Z) (node : NodeId) (c : Overlay.RelayCapability) : RelayService :=
  with_session_ttl now node c default_session_ttl.

(** ** Admission *)

(** [fetch_add(1)] on an [AtomicU64] wraps around. *)
Definition fetch_add (n : Z) : Z := as_width 64 (n + 1).

Definition record_admission_attempt_for_limit (now : Z) (s : RelayService)
  : RelayService * result unit RelayError :=
  match admission_rate_limit s with
  | None => (s, Ok tt)
  | Some limit =>
      if (max_attempts limit =? 0) || (limit_window limit <=? 0) then (s, Ok tt) else
      let w := admission_rate_window s in
      let w := if limit_window limit <=? now - started_at w
               then {| started_at := now; attempts := 0 |} else w in
      if max_attempts limit <=? attempts w then (set_window s w, Err RateLimited)
      else (set_window s {| started_at := started_at w;
                            attempts := saturating_add 32 (attempts w) 1 |}, Ok tt)
  end.

Definition record_admission_failure (reason : RelayAdmissionFailureReason) (s : RelayService)
  : RelayService :=
  set_counts s (admission_attempts s) (admission_successes s) (fetch_add (admission_failures s))
    (bt_entry 0 (fun count => saturating_add 64 count 1) reason (admission_failures_by_reason s)).

Definition node_session_limit_exceeded (s : RelayService) (t : RelayTable) (node : NodeId) : bool :=
  match max_sessions_per_node s with
  | Some limit => limit <=? active_session_count_for_node t node
  | None => false
  end.

Definition set_active (c : Overlay.RelayCapability) (n : Z) : Overlay.RelayCapability :=
  {| Overlay.enabled_by_policy := Overlay.enabled_by_policy c;
     Overlay.public_endpoint := Overlay.public_endpoint c;
     Overlay.admission_url := Overlay.admission_url c;
     Overlay.max_sessions := Overlay.max_sessions c;
     Overlay.active_sessions := as_width 32 n;
     Overlay.max_mbps := Overlay.max_mbps c; Overlay.e2e_only := Overlay.e2e_only c |}.

Section Admit.
  Context `{UrlOps}.

Definition admit_inner (now1 now2 : Z) (uuid : bytes) (request : RelayAdmissionRequest)
    (s : RelayService) : RelayService * result RelayAdmissionResponse RelayError :=
  if bool_decide (req_left request = relay_node s)
     || bool_decide (req_right request = relay_node s)
  then (s, Err AdmissionDenied) else
  let t := (purge_expired now1 (table s)).1 in
  let c := set_active (capability s) (session_count t) in
  let s := set_core s c t in
  let admission :=
    {| adm_left := req_left request; adm_right := req_right request;
       adm_left_addr := req_left_addr request; adm_right_addr := req_right_addr request;
       adm_session_token := uuid; adm_session_ttl := session_ttl s |} in
  let sid := session_id_new (adm_left admission) (adm_right admission) in
  match validate_relay_session_admission admission sid with
  | Err e => (s, Err e)
  | Ok _ =>
      if negb (has_session_pair t (adm_left admission) (adm_right admission))
         && (node_session_limit_exceeded s t (adm_left admission)
             || node_session_limit_exceeded s t (adm_right admission))
      then (s, Err NodeSessionLimitExceeded)
      else
        match admit_with_options now2 c admission t with
        | (t, Err e) => (set_core s c t, Err e)
        | (t, Ok credentials) =>
            (set_core s (set_active c (session_count t)) t,
             Ok {| resp_relay_node := relay_node s;
                   resp_session_id := cred_session_id credentials;
                   resp_session_token := cred_session_token credentials;
                   resp_expires_at := cred_expires_at credentials;
                   resp_left := req_left request; resp_right := req_right request;
                   resp_left_addr := req_left_addr request;
                   resp_right_addr := req_right_addr request |})
        end
  end.

Definition admit_request (now0 now1 now2 : Z) (uuid : bytes) (request : RelayAdmissionRequest)
    (s : RelayService) : RelayService * result RelayAdmissionResponse RelayError :=
  let s := set_counts s (fetch_add (admission_attempts s)) (admission_successes s)
             (admission_failures s) (admission_failures_by_reason s) in
  let '(s, result) :=
    match record_admission_attempt_for_limit now0 s with
    | (s, Ok _) => admit_inner now1 now2 uuid request s
    | (s, Err e) => (s, Err e)
    end in
  match result with
  | Ok _ => (set_counts s (admission_attempts s) (fetch_add (admission_successes s))
               (admission_failures s) (admission_failures_by_reason s), result)
  | Err e => (record_admission_failure (relay_error_admission_failure_reason e) s, result)
  end.

Definition record_unauthorized_admission_attempt (now : Z) (s : RelayService)
  : RelayService * result unit RelayError :=
  let s := set_counts s (fetch_add (admission_attempts s)) (admission_successes s)
             (admission_failures s) (admission_failures_by_reason s) in
  match record_admission_attempt_for_limit now s with
  | (s, Ok _) => (record_admission_failure FailUnauthorized s, Ok tt)
  | (s, Err e) => (record_admission_failure (relay_error_admission_failure_reason e) s, Err e)
  end.

(** The counters and the capability of [RelayStatusResponse]; its other fields are
    constants of the constructor. *)
Record RelayStatusResponse : Type := {
  st_relay_node : NodeId; st_capability : Overlay.RelayCapability;
  st_admission_attempt_count : Z; st_admission_success_count : Z;
  st_admission_failure_count : Z;
  st_admission_failures_by_reason : btree RelayAdmissionFailureReason Z;
  st_max_sessions_per_node : option Z; st_dataplane : RelayDataplaneMetrics;
  st_generated_at : Z
}.

Definition status (now : Z) (s : RelayService) : RelayService * RelayStatusResponse :=
  let t := (purge_expired now (table s)).1 in
  let c := set_active (capability s) (session_count t) in
  let s := set_core s c t in
  (s, {| st_relay_node := relay_node s; st_capability := c;
         st_admission_attempt_count := admission_attempts s;
         st_admission_success_count := admission_successes s;
         st_admission_failure_count := admission_failures s;
         st_admission_failures_by_reason :=
           zero_filled_admission_failure_reasons (admission_failures_by_reason s);
         st_max_sessions_per_node := max_sessions_per_node s;
         st_dataplane := zero_filled_dataplane_metrics (dataplane t);
         st_generated_at := now |}).

End Admit.

(** ** Sums over sessions *)

(** Measures of a session that depend only on its pair of nodes. *)
Definition pair_measure (f : RelaySession -> Z) : Prop :=
  (forall s, 0 <= f s) /\
  (forall s s', pair_matches (left s') (right s') s = true -> f s = f s').

(** No measure of the sessions has grown. *)
Definition shrinks (t t' : RelayTable) : Prop :=
  forall f, pair_measure f -> bt_sum f (sessions t') <= bt_sum f (sessions t).

#[global] Instance shrinks_preorder : PreOrder shrinks.
Proof.
  split; [intros t f _; lia|]. intros t1 t2 t3 H1 H2 f Hf.
  specialize (H1 f Hf). specialize (H2 f Hf). lia.
Qed.

Lemma pair_measure_one : pair_measure (fun _ => 1).
Proof. split; [lia|done]. Qed.

Lemma pair_measure_node node :
  pair_measure (fun s => if session_of_node node s then 1 else 0).
Proof.
  split; [intros s; destruct (session_of_node node s); lia|].
  intros s s'. unfold pair_matches, session_of_node.
  rewrite orb_true_iff, !andb_true_iff, !bool_decide_eq_true. intros [[-> ->]|[-> ->]]; [done|].
  by rewrite orb_comm.
Qed.

Lemma pair_matches_refl s s' : left s' = left s -> right s' = right s ->
  pair_matches (left s') (right s') s = true.
Proof. intros -> ->. unfold pair_matches. by rewrite !bool_decide_eq_true_2 by done. Qed.

Lemma shrinks_sessions t t' : sessions t' = sessions t -> shrinks t t'.
Proof. intros H f _. rewrite H. lia. Qed.

Lemma shrinks_purge now t : shrinks t (purge_expired now t).1.
Proof. intros f [Hf _]. rewrite purge_expired_sessions. by apply bt_sum_retain. Qed.

Lemma shrinks_remove_expired sid now t : shrinks t (remove_expired_session sid now t).1.
Proof.
  unfold remove_expired_session. intros f [Hf _].
  destruct (bt_get sid (sessions t)) as [s|]; [|simpl; lia].
  destruct (is_expired s now); simpl; [by apply bt_sum_remove|lia].
Qed.

Lemma shrinks_update t k s s' :
  bt_get k (sessions t) = Some s -> left s' = left s -> right s' = right s ->
  shrinks t (set_sessions t (bt_insert k s' (sessions t))).
Proof.
  intros Hg Hl Hr f [_ Hf]. simpl. rewrite bt_sum_insert, Hg.
  rewrite (Hf s s') by by apply pair_matches_refl. lia.
Qed.

Lemma same_core_pair s s' : same_core s s' -> left s' = left s /\ right s' = right s.
Proof. intros (_ & _ & ? & ? & _). done. Qed.

Lemma records_index_pair sid s s' u :
  records_index sid s s' u -> left s' = left s /\ right s' = right s.
Proof.
  destruct u as [[[i ev] r]|]; [|apply same_core_pair].
  intros (side & l & s1 & ip & [H1 H2]%same_core_pair & _ & [H3 H4]%same_core_pair & _).
  destruct side; simpl in *; split; congruence.
Qed.

Lemma shrinks_framed now a d t : shrinks t (forward_framed_datagram now a d t).1.
Proof.
  unfold forward_framed_datagram. etransitivity; [apply (shrinks_remove_expired (session_id d) now)|].
  destruct (remove_expired_session (session_id d) now t) as [t1 [[]|]]; [|reflexivity].
  destruct (bt_get (session_id d) (sessions t1)) as [s|] eqn:Eg; [|reflexivity].
  pose proof (session_forward_datagram_update now a d s) as Hu.
  destruct (session_forward_datagram now a d s) as [s' [[fwd u]|e]].
  - apply records_index_pair in Hu as [Hl Hr]. destruct u as [[[i ev] r]|];
      [|by apply (shrinks_update t1 _ s)].
    etransitivity; [by apply (shrinks_update t1 (session_id d) s s')|]. apply shrinks_sessions.
    apply upsert_sessions.
  - apply same_core_pair in Hu as [Hl Hr]. by apply (shrinks_update t1 _ s).
Qed.

Lemma shrinks_return now a d t : shrinks t (forward_wireguard_return_datagram now a d t).1.
Proof.
  unfold forward_wireguard_return_datagram. destruct (wireguard_receiver_index d); [|reflexivity].
  etransitivity; [apply (shrinks_purge now)|].
  destruct (match_route _ _ _ _) as [[[sid side]|]|]; [|reflexivity..].
  destruct (bt_get sid _) as [s|] eqn:Eg; [|reflexivity].
  pose proof (same_core_pair _ _ (same_core_return now a side d s)) as [Hl Hr].
  destruct (session_return_datagram now a side d s) as [s' r]. by apply (shrinks_update _ _ s).
Qed.

Lemma shrinks_forward now a d t : shrinks t (forward_datagram_for_addr_at now a d t).1.
Proof.
  unfold forward_datagram_for_addr_at. set (t0 := set_dataplane t _).
  assert (Hi : shrinks t (forward_datagram_for_addr_at_inner now a d t0).1).
  { transitivity t0; [by apply shrinks_sessions|]. unfold forward_datagram_for_addr_at_inner.
    destruct (decode_relay_datagram d) as [dg|[]]; try reflexivity; [apply shrinks_framed|].
    destruct (wireguard_datagram_payload d); [apply shrinks_return|reflexivity]. }
  destruct (forward_datagram_for_addr_at_inner now a d t0) as [t1 [fwd|e]];
    [destruct (should_forward fwd)|]; done.
Qed.

Lemma shrinks_target now f t : shrinks t (forward_target_at now f t).1.
Proof.
  unfold forward_target_at. set (t0 := set_dataplane t _).
  assert (Hi : shrinks t (forward_target_at_inner now f t0).1).
  { transitivity t0; [by apply shrinks_sessions|]. unfold forward_target_at_inner.
    destruct (validate_relay_frame_sizes _ _ _); [|reflexivity].
    etransitivity; [apply (shrinks_remove_expired (rf_session_id f) now)|].
    destruct (remove_expired_session _ now t0) as [t1 [[]|]]; [|reflexivity].
    destruct (bt_get (rf_session_id f) (sessions t1)) as [s|] eqn:Eg; [|reflexivity].
    pose proof (same_core_pair _ _ (same_core_target now f s)) as [Hl Hr].
    destruct (session_forward_target now f s) as [s' r]. by apply (shrinks_update _ _ s). }
  destruct (forward_target_at_inner now f t0) as [t1 [tgt|e]]; done.
Qed.

Lemma shrinks_authorize now node p t : shrinks t (authorize_http_announcement now node p t).1.
Proof.
  unfold authorize_http_announcement. destruct (decode_relay_datagram p) as [f|]; [|reflexivity].
  destruct (_ || _)%bool; [reflexivity|].
  etransitivity; [apply (shrinks_remove_expired (session_id f) now)|].
  destruct (remove_expired_session _ now t) as [t1 [[]|]]; [|reflexivity].
  destruct (bt_get (session_id f) (sessions t1)); reflexivity.
Qed.

(** ** What an admission adds *)

Section AdmissionProofs.
  Context `{UrlOps}.

Lemma has_session_pair_true t l r :
  table_wf t -> has_session_pair t l r = true ->
  exists k s, bt_get k (sessions t) = Some s /\ pair_matches l r s = true.
Proof.
  intros Ht. unfold has_session_pair, bt_values. intros (s & Hin & Hp)%existsb_exists.
  apply in_map_iff in Hin as ([k s'] & Hs' & Hin). simpl in Hs'. subst s'. exists k, s. split; [|done].
  apply bt_get_elem; [apply Ht|]. by apply list_elem_of_In.
Qed.

(** An admission refreshes a session, or adds one when the relay has capacity; the new
    session takes the place of an expired one of the same pair if the table had it. *)
Lemma admit_growth now c adm t :
  table_wf t ->
  let t' := (admit_with_options now c adm t).1 in
  shrinks t t' \/
  (has_session_pair t (adm_left adm) (adm_right adm) = false /\ Overlay.can_admit c = true /\
   validate_relay_session_admission adm (session_id_new (adm_left adm) (adm_right adm)) = Ok tt /\
   exists s, left s = adm_left adm /\ right s = adm_right adm /\
     forall f, pair_measure f -> bt_sum f (sessions t') <= bt_sum f (sessions t) + f s).
Proof.
  intros Ht. unfold admit_with_options. pose proof (purge_expired_wf now t Ht) as Hp.
  pose proof (shrinks_purge now t) as Hsh. pose proof (purge_expired_sessions now t) as Hps.
  set (t1 := (purge_expired now t).1) in *.
  destruct (validate_relay_session_admission adm _) as [[]|e] eqn:Ev; [|by left].
  destruct (bt_find _ (sessions t1)) as [[key s]|] eqn:Ef.
  { apply bt_find_some in Ef as [Hg _]; [|apply Hp]. left.
    destruct (if bool_decide (left s = adm_left adm) then _ else _) as [la ra]. simpl.
    etransitivity; [done|].
    exact (shrinks_update t1 key s (with_admission s _ _ _ _) Hg eq_refl eq_refl). }
  destruct (Overlay.can_admit c); simpl; [|by left].
  set (s := Build_RelaySession _ _ _ _ _ _ _ _ _ _ _ _ _ _ _ _).
  assert (Hsum : forall f, pair_measure f ->
            bt_sum f (bt_insert (session_id_new (adm_left adm) (adm_right adm)) s (sessions t1))
            <= bt_sum f (sessions t1) + f s).
  { intros f [Hf _]. rewrite bt_sum_insert. destruct (bt_get _ (sessions t1)) as [s'|]; [|lia].
    specialize (Hf s'). lia. }
  destruct (has_session_pair t (adm_left adm) (adm_right adm)) eqn:Eh.
  - left. intros f Hf. simpl. specialize (Hsum f Hf).
    apply has_session_pair_true in Eh as (k & s0 & Hg & Hpm); [|done].
    destruct (is_expired s0 now) eqn:Ex; cycle 1.
    { exfalso. rewrite (bt_find_none _ _ k s0 (tw_sessions _ Hp) Ef) in Hpm; [done|].
      rewrite Hps, bt_get_retain, Hg, Ex by apply Ht. done. }
    assert (Hdrop : bt_sum f (sessions t1) + f s0 <= bt_sum f (sessions t)).
    { rewrite Hps. eapply bt_sum_retain_drop; [apply Hf|done|]. by rewrite Ex. }
    destruct Hf as [_ Hf]. rewrite (Hf s0 s Hpm) in Hdrop. lia.
  - right. split_and!; [done..|]. exists s. split_and!; [done..|]. intros f Hf.
    specialize (Hsum f Hf). specialize (Hsh f Hf). simpl. lia.
Qed.

(** ** The invariant of the service *)

(** [pending] admissions have been counted as attempts and not yet as a success or a
    failure. *)
Record service_wf (pending : Z) (s : RelayService) : Prop := {
  sv_table : table_wf (table s);
  sv_max : is_u32 (Overlay.max_sessions (capability s));
  sv_capacity : session_count (table s) <= Overlay.max_sessions (capability s);
  sv_per_node : forall limit node,
    max_sessions_per_node s = Some limit -> active_session_count_for_node (table s) node <= limit;
  sv_self : active_session_count_for_node (table s) (relay_node s) = 0;
  sv_counts : admission_attempts s = as_width 64 (admission_successes s + admission_failures s + pending)
}.

Lemma session_count_sum t : session_count t = bt_sum (fun _ => 1) (sessions t).
Proof. unfold session_count. by rewrite bt_sum_length. Qed.

Lemma node_count_sum t node :
  active_session_count_for_node t node =
  bt_sum (fun s => if session_of_node node s then 1 else 0) (sessions t).
Proof. unfold active_session_count_for_node. by rewrite bt_sum_filter. Qed.

Lemma node_count_nonneg t node : 0 <= active_session_count_for_node t node.
Proof. unfold active_session_count_for_node. lia. Qed.

Lemma shrinks_counts t t' :
  shrinks t t' ->
  session_count t' <= session_count t /\
  forall node, active_session_count_for_node t' node <= active_session_count_for_node t node.
Proof.
  intros Hs. split; [rewrite !session_count_sum; apply Hs, pair_measure_one|].
  intros node. rewrite !node_count_sum. apply Hs, pair_measure_node.
Qed.

Lemma service_shrink p s c t :
  service_wf p s -> table_wf t -> shrinks (table s) t ->
  Overlay.max_sessions c = Overlay.max_sessions (capability s) -> service_wf p (set_core s c t).
Proof.
  intros [H1 H2 H3 H4 H5 H6] Ht [Hc Hn]%shrinks_counts Hm. split; simpl; rewrite ?Hm; try done.
  - lia.
  - intros limit node Hl. specialize (Hn node). specialize (H4 limit node Hl). lia.
  - specialize (Hn (relay_node s)). pose proof (node_count_nonneg t (relay_node s)). lia.
Qed.

(** Adding one session below the capacity and below the limits of its nodes. *)
Lemma service_grow p s c t sess :
  service_wf p s -> table_wf t ->
  (forall f, pair_measure f -> bt_sum f (sessions t) <= bt_sum f (sessions (table s)) + f sess) ->
  Overlay.max_sessions c = Overlay.max_sessions (capability s) ->
  session_count (table s) < Overlay.max_sessions (capability s) ->
  (forall limit node, max_sessions_per_node s = Some limit -> session_of_node node sess = true ->
     active_session_count_for_node (table s) node < limit) ->
  session_of_node (relay_node s) sess = false ->
  service_wf p (set_core s c t).
Proof.
  intros [H1 H2 H3 H4 H5 H6] Ht Hsum Hm Hcap Hlim Hself. split; simpl; rewrite ?Hm; try done.
  - pose proof (Hsum _ pair_measure_one) as Hs. rewrite <- !session_count_sum in Hs. lia.
  - intros limit node Hl. specialize (Hlim limit node Hl). specialize (H4 limit node Hl).
    pose proof (Hsum _ (pair_measure_node node)) as Hs. rewrite <- !node_count_sum in Hs.
    destruct (session_of_node node sess); [specialize (Hlim eq_refl)|]; lia.
  - pose proof (Hsum _ (pair_measure_node (relay_node s))) as Hs.
    rewrite <- !node_count_sum, Hself in Hs.
    pose proof (node_count_nonneg t (relay_node s)). lia.
Qed.

Lemma can_admit_room c n :
  0 <= n -> n < 2 ^ 32 -> Overlay.can_admit (set_active c n) = true -> n < Overlay.max_sessions c.
Proof.
  intros H0 Hn. unfold Overlay.can_admit, Overlay.available_capacity, saturating_sub. simpl.
  rewrite as_width_id by done. rewrite andb_true_iff, Z.ltb_lt. lia.
Qed.

Lemma admit_inner_wf p now1 now2 uuid req s :
  service_wf p s -> service_wf p (admit_inner now1 now2 uuid req s).1.
Proof.
  intros Hs. unfold admit_inner. destruct (_ || _)%bool eqn:Eself; [done|].
  apply orb_false_iff in Eself as [Hl%bool_decide_eq_false Hr%bool_decide_eq_false].
  set (t1 := (purge_expired now1 (table s)).1).
  assert (Ht1 : table_wf t1) by (apply purge_expired_wf, Hs).
  set (c := set_active (capability s) (session_count t1)).
  assert (Hs1 : service_wf p (set_core s c t1))
    by (apply service_shrink; [done|done|apply shrinks_purge|done]).
  set (adm := Build_RelaySessionAdmission _ _ _ _ _ _).
  destruct (validate_relay_session_admission adm _) as [[]|]; [|done].
  destruct (_ && _)%bool eqn:Elim; [done|].
  pose proof (admit_growth now2 c adm t1 Ht1) as Hg.
  pose proof (admit_with_options_wf now2 c adm t1 Ht1) as Hw.
  destruct (admit_with_options now2 c adm t1) as [t2 r]. cbn [fst] in Hg, Hw.
  assert (Hfin : forall c', Overlay.max_sessions c' = Overlay.max_sessions (capability s) ->
                 service_wf p (set_core (set_core s c t1) c' t2)).
  { intros c' Hc'. destruct Hg as [Hsh|(Hpair & Hcan & _ & sess & El & Er & Hsum)].
    { by apply service_shrink. }
    rewrite Hpair in Elim. simpl in Elim. apply orb_false_iff in Elim as [L1 L2].
    pose proof (sv_capacity _ _ Hs1) as Hcap. pose proof (sv_max _ _ Hs1) as Hmax. simpl in Hcap, Hmax.
    apply can_admit_room in Hcan; [|unfold session_count; lia|unfold in_width in Hmax; lia].
    apply (service_grow _ _ _ _ sess); try done.
    - unfold node_session_limit_exceeded in L1, L2. simpl in *. intros limit node Hlim Hn.
      rewrite Hlim in L1, L2. unfold session_of_node in Hn. rewrite El, Er in Hn.
      rewrite Z.leb_gt in L1, L2.
      apply orb_true_iff in Hn as [<-%bool_decide_eq_true|<-%bool_decide_eq_true]; done.
    - unfold session_of_node. rewrite El, Er. simpl. by rewrite !bool_decide_eq_false_2. }
  destruct r; by apply Hfin.
Qed.

Lemma limiter_wf p now s :
  service_wf p s -> service_wf p (record_admission_attempt_for_limit now s).1.
Proof.
  unfold record_admission_attempt_for_limit. destruct (admission_rate_limit s) as [limit|]; [|done].
  destruct (_ || _)%bool; [done|]. destruct (max_attempts limit <=? _); by intros [].
Qed.

Lemma fetch_add_sum a b : as_width 64 (fetch_add a + b) = as_width 64 (a + b + 1).
Proof. unfold fetch_add, as_width. rewrite Z.add_mod_idemp_l by lia. f_equal. lia. Qed.

Lemma attempt_wf s :
  service_wf 0 s ->
  service_wf 1 (set_counts s (fetch_add (admission_attempts s)) (admission_successes s)
                  (admission_failures s) (admission_failures_by_reason s)).
Proof.
  intros [H1 H2 H3 H4 H5 H6]. split; try done. simpl. rewrite H6. unfold fetch_add, as_width.
  rewrite Z.add_mod_idemp_l by lia. f_equal. lia.
Qed.

Lemma success_wf s :
  service_wf 1 s ->
  service_wf 0 (set_counts s (admission_attempts s) (fetch_add (admission_successes s))
                  (admission_failures s) (admission_failures_by_reason s)).
Proof.
  intros [H1 H2 H3 H4 H5 H6]. split; try done. simpl.
  by rewrite H6, Z.add_0_r, fetch_add_sum.
Qed.

Lemma failure_wf reason s : service_wf 1 s -> service_wf 0 (record_admission_failure reason s).
Proof.
  intros [H1 H2 H3 H4 H5 H6]. split; try done. simpl.
  rewrite H6, Z.add_0_r, (Z.add_comm (admission_successes s) (fetch_add _)), fetch_add_sum.
  f_equal. lia.
Qed.

Lemma admit_wf now0 now1 now2 uuid req s :
  service_wf 0 s -> service_wf 0 (admit_request now0 now1 now2 uuid req s).1.
Proof.
  intros Hs%attempt_wf. unfold admit_request. apply (limiter_wf 1 now0) in Hs.
  destruct (record_admission_attempt_for_limit now0 _) as [s1 [[]|e]]; simpl in Hs.
  - apply (admit_inner_wf 1 now1 now2 uuid req) in Hs.
    destruct (admit_inner now1 now2 uuid req s1) as [s2 [resp|e]];
      [by apply success_wf|by apply failure_wf].
  - by apply failure_wf.
Qed.

Lemma unauthorized_wf now s :
  service_wf 0 s -> service_wf 0 (record_unauthorized_admission_attempt now s).1.
Proof.
  intros Hs%attempt_wf. unfold record_unauthorized_admission_attempt.
  apply (limiter_wf 1 now) in Hs.
  destruct (record_admission_attempt_for_limit now _) as [s1 [[]|e]]; by apply failure_wf.
Qed.

(** ** Reachable services *)

(** The operations of the data plane on the shared table. *)
Inductive data_step : RelayTable -> RelayTable -> Prop :=
  | data_forward now a d t : data_step t (forward_datagram_for_addr_at now a d t).1
  | data_target now f t : data_step t (forward_target_at now f t).1
  | data_authorize now node packet t :
      data_step t (authorize_http_announcement now node packet t).1
  | data_purge now t : data_step t (purge_expired now t).1.

Inductive service_step : RelayService -> RelayService -> Prop :=
  | service_admit now0 now1 now2 uuid request s :
      service_step s (admit_request now0 now1 now2 uuid request s).1
  | service_unauthorized now s :
      service_step s (record_unauthorized_admission_attempt now s).1
  | service_status now s : service_step s (status now s).1
  | service_data s t : data_step (table s) t -> service_step s (set_core s (capability s) t).

Lemma data_step_shrinks t t' : data_step t t' -> shrinks t t'.
Proof.
  intros []; [apply shrinks_forward|apply shrinks_target|apply shrinks_authorize|apply shrinks_purge].
Qed.

Lemma data_step_wf t t' : table_wf t -> data_step t t' -> table_wf t'.
Proof.
  intros Ht Hs. revert Ht. destruct Hs; intros Ht;
    [by apply forward_datagram_wf|by apply forward_target_wf|by apply authorize_wf
    |by apply purge_expired_wf].
Qed.

Lemma service_step_wf s s' : service_wf 0 s -> service_step s s' -> service_wf 0 s'.
Proof.
  intros Hs Hst. revert Hs. destruct Hst as [| |now s|s t Hd]; intros Hs.
  - by apply admit_wf.
  - by apply unauthorized_wf.
  - unfold status. simpl. apply service_shrink; try done; [|apply shrinks_purge].
    apply purge_expired_wf, Hs.
  - apply service_shrink; try done; [eapply data_step_wf; [apply Hs|done]|by apply data_step_shrinks].
Qed.

Lemma new_service_wf now node c ttl limit per_node :
  is_u32 (Overlay.max_sessions c) ->
  service_wf 0 (with_session_ttl_admission_controls now node c ttl limit per_node).
Proof.
  intros Hm. split; simpl; try done; [apply table_default_wf|unfold in_width in Hm; apply Hm|].
  intros l n Hl. destruct per_node as [k|]; [|done]. destruct (0 <? k) eqn:E; [|done].
  simplify_eq. unfold active_session_count_for_node. simpl. lia.
Qed.

(** A relay service never admits more than it announces: from its construction, through
    any interleaving of admissions, refused admissions, status reports and data-plane
    operations, the sessions stay within the relay's capacity, no node has more than the
    configured number of sessions, the relay is never a peer of its own sessions, the
    session table keeps its invariant, and every admission attempt is counted as exactly
    one success or failure. *)
Theorem relay_service_invariant (now ttl : Z) (node : NodeId) (c : Overlay.RelayCapability)
    (limit : option RelayAdmissionRateLimit) (per_node : option Z) (s : RelayService) :
  is_u32 (Overlay.max_sessions c) ->
  rtc service_step (with_session_ttl_admission_controls now node c ttl limit per_node) s ->
  service_wf 0 s.
Proof.
  intros Hm Hr. apply new_service_wf with (now := now) (node := node) (ttl := ttl)
    (limit := limit) (per_node := per_node) in Hm.
  induction Hr; eauto using service_step_wf.
Qed.

End AdmissionProofs.

(** ** The request limiter over time *)

(** How many of a run of attempts at the given times pass the limiter. *)
Fixpoint attempts_passed (s : RelayService) (times : list Z) : Z :=
  match times with
  | [] => 0
  | now :: times =>
      let '(s, r) := record_admission_attempt_for_limit now s in
      (if is_ok r then 1 else 0) + attempts_passed s times
  end.

Lemma limiter_step now s limit :
  admission_rate_limit s = Some limit -> 0 < max_attempts limit < 2 ^ 32 ->
  0 < limit_window limit -> 0 <= attempts (admission_rate_window s) <= max_attempts limit ->
  let '(s', r) := record_admission_attempt_for_limit now s in
  let w := admission_rate_window s in
  let w' := admission_rate_window s' in
  let reset := limit_window limit <=? now - started_at w in
  admission_rate_limit s' = Some limit /\
  started_at w' = (if reset then now else started_at w) /\
  attempts w' = (if reset then 0 else attempts w) + (if is_ok r then 1 else 0) /\
  0 <= attempts w' <= max_attempts limit.
Proof.
  intros Hl Hm Hw Ha. unfold record_admission_attempt_for_limit. rewrite Hl.
  destruct (_ || _)%bool eqn:E0; [lia|]. clear E0. unfold saturating_add.
  destruct (limit_window limit <=? _); simpl; destruct (max_attempts limit <=? _) eqn:E; simpl;
    bool_to_prop; split_and!; done || lia.
Qed.

Lemma attempts_passed_bound limit times s last :
  admission_rate_limit s = Some limit -> 0 < max_attempts limit < 2 ^ 32 ->
  0 < limit_window limit -> 0 <= attempts (admission_rate_window s) <= max_attempts limit ->
  started_at (admission_rate_window s) <= last -> Forall (fun now => now <= last) times ->
  attempts_passed s times + attempts (admission_rate_window s)
  <= max_attempts limit
     * (1 + (last - started_at (admission_rate_window s)) / limit_window limit).
Proof.
  revert s. induction times as [|now times IH]; intros s Hl Hm Hw Ha Hst Hall; simpl.
  { pose proof (Z.div_pos (last - started_at (admission_rate_window s)) (limit_window limit)). nia. }
  apply Forall_cons in Hall as [Hnow Hall].
  pose proof (limiter_step now s limit Hl Hm Hw Ha) as Hstep.
  destruct (record_admission_attempt_for_limit now s) as [s' r].
  destruct Hstep as (Hl' & Hst' & Hat & Ha').
  assert (Hlast : started_at (admission_rate_window s') <= last)
    by (rewrite Hst'; destruct (limit_window limit <=? _); lia).
  specialize (IH s' Hl' Hm Hw Ha' Hlast Hall). rewrite Hst', Hat in IH.
  destruct (limit_window limit <=? now - started_at (admission_rate_window s)) eqn:E; [|lia].
  assert (1 + (last - now) / limit_window limit
          <= (last - started_at (admission_rate_window s)) / limit_window limit).
  { rewrite <- (Z.div_add_l 1) by lia. apply Z.div_le_mono; lia. }
  nia.
Qed.

(** The admission limiter holds over time: however the attempts are timed, at most
    [max_attempts] of them pass for each limiter window that has begun. *)
Theorem admission_rate_bound (limit : RelayAdmissionRateLimit) (times : list Z)
    (s : RelayService) (last : Z) :
  admission_rate_limit s = Some limit -> 0 < max_attempts limit < 2 ^ 32 ->
  0 < limit_window limit -> 0 <= attempts (admission_rate_window s) <= max_attempts limit ->
  started_at (admission_rate_window s) <= last -> Forall (fun now => now <= last) times ->
  attempts_passed s times + attempts (admission_rate_window s)
  <= max_attempts limit
     * (1 + (last - started_at (admission_rate_window s)) / limit_window limit).
Proof. apply attempts_passed_bound. Qed.

(** ** Examples *)

Definition sample_limit : RelayAdmissionRateLimit :=
  {| max_attempts := 2; limit_window := second |}.

Definition sample_service : RelayService :=
  with_session_ttl_admission_controls 0 (bstr "r") Instances.sample_capability (60 * second)
    (Some sample_limit) (Some 1).

Definition sample_request : RelayAdmissionRequest :=
  {| req_left := bstr "a"; req_right := bstr "b"; req_left_addr := SockV4 3221225985 1000;
     req_right_addr := SockV4 3221225986 2000 |}.

Lemma relay_service_invariant_witness :
  service_wf 0 (@admit_request Instances.relay_url_ops 1 2 3 (bstr "token") sample_request sample_service).1.
Proof.
  apply (@relay_service_invariant Instances.relay_url_ops 0 (60 * second) (bstr "r")
    Instances.sample_capability (Some sample_limit) (Some 1)); [by vm_compute|].
  apply rtc_once. apply service_admit.
Defined.

Lemma admission_rate_bound_witness :
  attempts_passed sample_service [0; 1; 2; 1500000000] + 0 <= 2 * (1 + (1500000000 - 0) / second).
Proof.
  apply (admission_rate_bound sample_limit [0; 1; 2; 1500000000] sample_service 1500000000);
    [done|by vm_compute|by vm_compute|by vm_compute|by vm_compute|].
  repeat constructor; vm_compute; congruence.
Defined.

End RelayService.
