(* ===== verification/Bfs.v ===== *)
(** * Breadth-first search

    The loop that the topology code writes out for distances, predecessors and labels: a
    map of what has been discovered, a queue, and for each node taken from the queue a
    pass over its neighbors that records and enqueues the undiscovered ones. The search
    here carries the predecessor and the distance of every node; the searches of the code
    are its projections. *)

From S2P Require Import Prelude BTree.

Section Search.
  Context {A V : Type} `{KeyOrd A}.
  Variable nbrs : A -> list A.
  (** The value recorded for a node discovered from [cur], whose own value is [v]. *)
  Variable value : A -> V -> V.

Definition discover (cur : A) (v : V) (st : btree A V * list A) (n : A) : btree A V * list A :=
  match bt_get n st.1 with
  | Some _ => st
  | None => (bt_insert n (value cur v) st.1, st.2 ++ [n])
  end.

(** [None] when the fuel runs out. *)
Fixpoint bfs (fuel : nat) (m : btree A V) (queue : list A) : option (btree A V) :=
  match fuel with
  | O => None
  | S fuel =>
      match queue with
      | [] => Some m
      | cur :: queue =>
          match bt_get cur m with
          | None => bfs fuel m queue
          | Some v =>
              let '(m, queue) := foldl (discover cur v) (m, queue) (nbrs cur) in
              bfs fuel m queue
          end
      end
  end.

(** *** Termination *)

Definition keys_in (m : btree A V) (U : list A) : Prop :=
  bt_wf m /\ forall n, is_Some (bt_get n m) -> n ∈ U.

Lemma keys_in_length m U : keys_in m U -> (length m <= length U)%nat.
Proof.
  intros [Hwf Hin]. rewrite <- (length_map fst m).
  apply submseteq_length, NoDup_submseteq; [by apply bt_keys_nodup|].
  intros n Hn. apply Hin. apply list_elem_of_fmap in Hn as ([k v] & -> & Hk).
  exists v. by apply bt_get_elem.
Qed.

Lemma bt_insert_length_new k (v : V) m :
  bt_get k m = None -> length (bt_insert k v m) = S (length m).
Proof.
  induction m as [|[k' v'] m IH]; simpl; [done|].
  destruct (kcmp k k'); simpl; [done|done|]. intros Hg. by rewrite IH.
Qed.

Lemma discover_all_length cur v ns m q U :
  keys_in m U -> (forall n, n ∈ ns -> n ∈ U) ->
  let '(m', q') := foldl (discover cur v) (m, q) ns in
  keys_in m' U /\ (length q' + length m = length q + length m')%nat.
Proof.
  revert m q. induction ns as [|n ns IH]; intros m q Hm Hns; simpl; [done|].
  unfold discover at 2. simpl. destruct (bt_get n m) as [w|] eqn:E.
  - apply IH; [done|]. intros x Hx. apply Hns. by constructor.
  - specialize (IH (bt_insert n (value cur v) m) (q ++ [n])).
    destruct (foldl (discover cur v) (bt_insert n (value cur v) m, q ++ [n]) ns) as [m' q'].
    destruct IH as [IH1 IH2].
    + destruct Hm as [Hwf Hin]. split; [by apply bt_wf_insert|]. intros x [w Hx].
      destruct (kcmp n x) eqn:Ec.
      * apply kcmp_eq in Ec as ->. apply Hns. by constructor.
      * apply Hin. exists w. by rewrite bt_get_insert_ne in Hx by by apply kcmp_lt_ne.
      * apply Hin. exists w. rewrite bt_get_insert_ne in Hx; [done|].
        apply kcmp_gt, kcmp_lt_ne in Ec. congruence.
    + intros x Hx. apply Hns. by constructor.
    + split; [done|]. rewrite length_app, (bt_insert_length_new _ _ _ E) in IH2. simpl in IH2. lia.
Qed.

(** With one unit of fuel for every queued or undiscovered node, the search ends. *)
Lemma bfs_terminates fuel m q U :
  keys_in m U -> (forall n x, x ∈ nbrs n -> x ∈ U) ->
  (length q + length U < fuel + length m)%nat -> is_Some (bfs fuel m q).
Proof.
  intros Hm Hn. revert m q Hm. induction fuel as [|fuel IH]; intros m q Hm Hf; simpl.
  - pose proof (keys_in_length m U Hm). lia.
  - destruct q as [|cur q]; [eauto|]. simpl in Hf.
    destruct (bt_get cur m) as [v|]; [|apply IH; [done|lia]].
    pose proof (discover_all_length cur v (nbrs cur) m q U Hm (Hn cur)) as Hd.
    destruct (foldl (discover cur v) (m, q) (nbrs cur)) as [m' q']. destruct Hd as [Hm' Hl].
    apply IH; [done|]. lia.
Qed.

(** More fuel does not change the result. *)
Lemma bfs_mono fuel fuel' m q r : bfs fuel m q = Some r -> (fuel <= fuel')%nat -> bfs fuel' m q = Some r.
Proof.
  revert fuel' m q. induction fuel as [|fuel IH]; intros fuel' m q; simpl; [done|].
  intros Hb Hf. destruct fuel' as [|fuel']; [lia|]. simpl.
  destruct q as [|cur q]; [done|]. destruct (bt_get cur m) as [v|]; [|apply IH; [done|lia]].
  destruct (foldl (discover cur v) (m, q) (nbrs cur)) as [m' q']. apply IH; [done|lia].
Qed.

Lemma bfs_fuel_irrelevant fuel fuel' m q r r' :
  bfs fuel m q = Some r -> bfs fuel' m q = Some r' -> r = r'.
Proof.
  intros H1 H2. apply (bfs_mono _ (fuel + fuel')) in H1; [|lia]. apply (bfs_mono _ (fuel + fuel')) in H2; [|lia].
  congruence.
Qed.

(** What has been recorded stays. *)
Lemma discover_all_keeps cur v ns m q n w :
  bt_get n m = Some w -> bt_get n (foldl (discover cur v) (m, q) ns).1 = Some w.
Proof.
  revert m q. induction ns as [|x ns IH]; intros m q Hg; simpl; [done|].
  unfold discover at 2. simpl. destruct (bt_get x m) as [y|] eqn:E; [by apply IH|].
  apply IH. rewrite bt_get_insert_ne; [done|]. intros ->. congruence.
Qed.

Lemma bfs_keeps fuel m q r n w : bfs fuel m q = Some r -> bt_get n m = Some w -> bt_get n r = Some w.
Proof.
  revert m q. induction fuel as [|fuel IH]; intros m q; simpl; [done|].
  destruct q as [|cur q]; [by intros [= <-]|]. destruct (bt_get cur m) as [v|]; [|apply IH].
  intros Hb Hg. pose proof (discover_all_keeps cur v (nbrs cur) m q n w Hg) as Hk.
  destruct (foldl (discover cur v) (m, q) (nbrs cur)) as [m' q']. by eapply IH.
Qed.

(** *** Reachability from any set of starting nodes *)

Variable P : A -> V -> Prop.
Hypothesis P_step : forall cur v n, P cur v -> n ∈ nbrs cur -> P n (value cur v).

Definition found (m : btree A V) (n : A) : Prop := is_Some (bt_get n m).

Definition reach_inv (todo : A -> A -> Prop) (m : btree A V) (q : list A) : Prop :=
  (forall n v, bt_get n m = Some v -> P n v) /\
  (forall u n, found m u -> u ∉ q -> n ∈ nbrs u -> todo u n \/ found m n).

Lemma discover_found cur v m q n x :
  found (discover cur v (m, q) n).1 x <-> found m x \/ x = n.
Proof.
  unfold discover, found. cbn [fst]. destruct (bt_get n m) as [w|] eqn:E; cbn [fst].
  - split; [by left|]. intros [?| ->]; [done|by rewrite E].
  - destruct (kcmp n x) eqn:K.
    + apply kcmp_eq in K as ->. rewrite bt_get_insert. split; [by right|by eexists].
    + apply kcmp_lt_ne in K. rewrite bt_get_insert_ne by done. split; [by left|]. intros [?| ->]; done.
    + apply kcmp_gt, kcmp_lt_ne in K. rewrite bt_get_insert_ne by congruence.
      split; [by left|]. intros [?| ->]; done.
Qed.

Lemma reach_discover cur v n rest m q :
  P cur v -> n ∈ nbrs cur ->
  reach_inv (fun u x => u = cur /\ x ∈ n :: rest) m q ->
  reach_inv (fun u x => u = cur /\ x ∈ rest) (discover cur v (m, q) n).1 (discover cur v (m, q) n).2.
Proof.
  intros Hv Hn [Hp Hc]. split.
  - intros x w. unfold discover. cbn [fst]. destruct (bt_get n m) as [y|] eqn:E; [by apply Hp|].
    cbn [fst]. destruct (kcmp n x) eqn:K.
    + apply kcmp_eq in K as ->. rewrite bt_get_insert. intros [= <-]. by apply P_step.
    + rewrite bt_get_insert_ne by by apply kcmp_lt_ne. apply Hp.
    + apply kcmp_gt, kcmp_lt_ne in K. rewrite bt_get_insert_ne by congruence. apply Hp.
  - intros u x Hu Hq Hx. rewrite discover_found in Hu |- *.
    assert (Hq' : u ∉ q /\ (found m u \/ ~ found m n)).
    { unfold discover, found in *. cbn [fst] in *. destruct (bt_get n m) as [y|] eqn:E; cbn [snd] in Hq.
      - split; [done|]. destruct Hu as [?| ->]; [by left|]. left. by rewrite E.
      - rewrite elem_of_app in Hq. split; [tauto|]. right. by intros []. }
    destruct Hu as [Hu| ->].
    + destruct (Hc u x Hu (proj1 Hq') Hx) as [[-> [->|?]%elem_of_cons]|?]; tauto.
    + destruct Hq' as [Hnq [Hf|Hf]].
      * destruct (Hc n x Hf Hnq Hx) as [[-> [->|?]%elem_of_cons]|?]; tauto.
      * exfalso. apply Hq. unfold discover, found in *. cbn [fst] in *.
        destruct (bt_get n m); [by destruct Hf; eexists|]. cbn [snd]. rewrite elem_of_app. right. constructor.
Qed.

Lemma reach_expand cur v ns rest m q :
  P cur v -> (forall n, n ∈ ns -> n ∈ nbrs cur) ->
  reach_inv (fun u x => u = cur /\ x ∈ ns ++ rest) m q ->
  reach_inv (fun u x => u = cur /\ x ∈ rest) (foldl (discover cur v) (m, q) ns).1
    (foldl (discover cur v) (m, q) ns).2.
Proof.
  intros Hv. revert m q. induction ns as [|n ns IH]; intros m q Hns Hinv; [done|]. cbn [foldl].
  pose proof (reach_discover cur v n (ns ++ rest) m q Hv) as Hd.
  destruct (discover cur v (m, q) n) as [m1 q1]. apply IH; [|apply Hd; [apply Hns; constructor|done]].
  intros x Hx. apply Hns. by constructor.
Qed.

Lemma bfs_reach fuel m q r :
  reach_inv (fun _ _ => False) m q -> bfs fuel m q = Some r ->
  (forall n v, bt_get n r = Some v -> P n v) /\
  (forall u n, found r u -> n ∈ nbrs u -> found r n).
Proof.
  revert m q. induction fuel as [|fuel IH]; intros m q Hinv; simpl; [done|].
  destruct q as [|cur q].
  { intros [= <-]. destruct Hinv as [Hp Hc]. split; [done|]. intros u n Hu Hn.
    destruct (Hc u n Hu (not_elem_of_nil u) Hn) as [[]|?]. done. }
  destruct Hinv as [Hp Hc].
  assert (Hpop : reach_inv (fun u x => u = cur /\ x ∈ nbrs cur ++ []) m q).
  { split; [done|]. intros u n Hu Hq Hn. destruct (kcmp u cur) eqn:K.
    - apply kcmp_eq in K as ->. left. by rewrite app_nil_r.
    - right. destruct (Hc u n Hu) as [[]|?]; [|done|done].
      rewrite not_elem_of_cons. split; [by apply kcmp_lt_ne|done].
    - right. destruct (Hc u n Hu) as [[]|?]; [|done|done].
      rewrite not_elem_of_cons. split; [|done]. apply kcmp_gt, kcmp_lt_ne in K. congruence. }
  destruct (bt_get cur m) as [v|] eqn:E.
  - pose proof (reach_expand cur v (nbrs cur) [] m q (Hp _ _ E) (fun n Hn => Hn) Hpop) as He.
    destruct (foldl (discover cur v) (m, q) (nbrs cur)) as [m' q']. apply IH.
    destruct He as [Hp' Hc']. split; [done|]. intros u n Hu Hq Hn.
    destruct (Hc' u n Hu Hq Hn) as [[_ []%not_elem_of_nil]|?]. by right.
  - apply IH. destruct Hpop as [_ Hc']. split; [done|]. intros u n Hu Hq Hn.
    destruct (Hc' u n Hu Hq Hn) as [[-> _]|?]; [|by right]. destruct Hu as [y Hy]. congruence.
Qed.

End Search.

Lemma bfs_ext {A V} `{KeyOrd A} (nbrs nbrs' : A -> list A) (value : A -> V -> V) fuel m q :
  (forall n, nbrs n = nbrs' n) -> bfs nbrs value fuel m q = bfs nbrs' value fuel m q.
Proof.
  intros Hn. revert m q. induction fuel as [|fuel IH]; intros m q; simpl; [done|].
  destruct q as [|cur q]; [done|]. destruct (bt_get cur m) as [v|]; [|apply IH]. rewrite Hn.
  destruct (foldl (discover value cur v) (m, q) (nbrs' cur)) as [m' q']. apply IH.
Qed.

(** *** Projections *)

Section Projection.
  Context {A V W : Type} `{KeyOrd A}.
  Variable nbrs : A -> list A.
  Variable (f : V -> W) (value : A -> V -> V) (value' : A -> W -> W).
  Hypothesis commutes : forall cur v, f (value cur v) = value' cur (f v).

Lemma discover_map cur v n m q :
  discover value' cur (f v) (bt_map f m, q) n =
  (bt_map f (discover value cur v (m, q) n).1, (discover value cur v (m, q) n).2).
Proof.
  unfold discover. simpl. rewrite bt_get_map. destruct (bt_get n m); simpl; [done|].
  by rewrite bt_map_insert, commutes.
Qed.

Lemma discover_all_map cur v ns m q :
  foldl (discover value' cur (f v)) (bt_map f m, q) ns =
  (bt_map f (foldl (discover value cur v) (m, q) ns).1,
   (foldl (discover value cur v) (m, q) ns).2).
Proof.
  revert m q. induction ns as [|n ns IH]; intros m q; [done|]. cbn [foldl].
  rewrite discover_map, IH. by destruct (discover value cur v (m, q) n).
Qed.

Lemma bfs_map fuel m q :
  bfs nbrs value' fuel (bt_map f m) q = bt_map f <$> bfs nbrs value fuel m q.
Proof.
  revert m q. induction fuel as [|fuel IH]; intros m q; simpl; [done|].
  destruct q as [|cur q]; [done|]. rewrite bt_get_map.
  destruct (bt_get cur m) as [v|]; simpl; [|apply IH].
  rewrite discover_all_map. destruct (foldl (discover value cur v) (m, q) (nbrs cur)) as [m' q'].
  apply IH.
Qed.

End Projection.

(** *** Correctness of the search with predecessors and distances *)

Section Distances.
  Context {A : Type} `{KeyOrd A}.
  Variable nbrs : A -> list A.
  Variable source : A.

Definition tracked (cur : A) (v : A * nat) : A * nat := (cur, S v.2).

(** Walks of a given length from the source. *)
Inductive walk : nat -> A -> Prop :=
  | walk_source : walk 0 source
  | walk_step n u v : walk n u -> v ∈ nbrs u -> walk (S n) v.

(** The state of the search: [todo u v] holds for the edges of the node being expanded
    that are still to be examined; the queue holds nodes at distance [level] followed by
    nodes at distance [level + 1]. *)
Record search_inv (level : nat) (todo : A -> A -> Prop) (m : btree A (A * nat)) (q : list A)
  : Prop := {
  si_wf : bt_wf m;
  si_source : bt_get source m = Some (source, O);
  si_walk : forall n p d, bt_get n m = Some (p, d) -> walk d n;
  si_pred : forall n p d, bt_get n m = Some (p, d) ->
    n = source \/ exists p' d', bt_get p m = Some (p', d') /\ d = S d' /\ n ∈ nbrs p;
  si_queue : exists q1 q2, q = q1 ++ q2 /\
    Forall (fun n => exists p, bt_get n m = Some (p, level)) q1 /\
    Forall (fun n => exists p, bt_get n m = Some (p, S level)) q2;
  si_level : forall n p d, bt_get n m = Some (p, d) -> (d <= S level)%nat;
  si_closed : forall u pu du v, bt_get u m = Some (pu, du) -> (u ∉ q) -> v ∈ nbrs u ->
    todo u v \/ exists pv dv, bt_get v m = Some (pv, dv) /\ (dv <= S du)%nat
}.

Lemma search_inv_start : search_inv 0 (fun _ _ => False) [(source, (source, O))] [source].
Proof.
  assert (Hg : forall n w, bt_get n [(source, (source, O))] = Some w -> n = source /\ w = (source, O)).
  { intros n w. simpl. destruct (kcmp n source) eqn:E; try done.
    apply kcmp_eq in E as ->. by intros [= <-]. }
  split.
  - apply bt_wf_cons_2; [constructor|by intros ? ?%not_elem_of_nil].
  - simpl. by rewrite kcmp_refl.
  - intros n p d [-> [= -> ->]]%Hg. constructor.
  - intros n p d [-> _]%Hg. by left.
  - exists [source], []. split_and!; [done| |done]. repeat constructor. exists source.
    simpl. by rewrite kcmp_refl.
  - intros n p d [_ [= -> ->]]%Hg. lia.
  - intros u pu du v [-> _]%Hg Hu. destruct Hu. by constructor.
Qed.

Lemma search_inv_pop level m cur q :
  search_inv level (fun _ _ => False) m (cur :: q) ->
  exists p d, bt_get cur m = Some (p, d) /\
    search_inv d (fun u v => u = cur /\ v ∈ nbrs cur) m q.
Proof.
  intros [H1 H2 H3 H4 (q1 & q2 & Hq & Hq1 & Hq2) H6 H7].
  assert (Hcl : forall u pu du v, bt_get u m = Some (pu, du) -> (u ∉ q) -> v ∈ nbrs u ->
    (u = cur /\ v ∈ nbrs cur) \/ exists pv dv, bt_get v m = Some (pv, dv) /\ (dv <= S du)%nat).
  { intros u pu du v Hu Hnq Hv. destruct (kcmp u cur) eqn:E.
    - apply kcmp_eq in E as ->. by left.
    - destruct (H7 u pu du v Hu) as [[]|?]; [|done|by right].
      rewrite not_elem_of_cons. split; [by apply kcmp_lt_ne|done].
    - destruct (H7 u pu du v Hu) as [[]|?]; [|done|by right].
      rewrite not_elem_of_cons. split; [|done]. apply kcmp_gt, kcmp_lt_ne in E. congruence. }
  destruct q1 as [|x q1]; simpl in Hq.
  - subst q2. apply Forall_cons in Hq2 as [[p Hp] Hq2]. exists p, (S level). split; [done|].
    split; try done.
    + exists q, []. split_and!; [by rewrite app_nil_r|done|done].
    + intros n p' d Hn. apply H6 in Hn. lia.
  - injection Hq as <- ->. apply Forall_cons in Hq1 as [[p Hp] Hq1]. exists p, level.
    split; [done|]. split; try done. by exists q1, q2.
Qed.

Lemma search_inv_discover level cur pc n rest m q :
  bt_get cur m = Some (pc, level) -> n ∈ nbrs cur ->
  search_inv level (fun u v => u = cur /\ v ∈ n :: rest) m q ->
  let '(m', q') := discover tracked cur (pc, level) (m, q) n in
  bt_get cur m' = Some (pc, level) /\
  search_inv level (fun u v => u = cur /\ v ∈ rest) m' q'.
Proof.
  intros Hcur Hn [H1 H2 H3 H4 (q1 & q2 & Hq & Hq1 & Hq2) H6 H7].
  unfold discover. simpl. destruct (bt_get n m) as [[pn dn]|] eqn:En.
  { split; [done|]. split; try done; [by exists q1, q2|]. intros u pu du v Hu Hnq Hv.
    destruct (H7 u pu du v Hu Hnq Hv) as [[-> [->|Hr]%elem_of_cons]|?]; [|by left|by right].
    right. exists pn, dn. split; [done|]. apply H6 in En. rewrite Hcur in Hu. by simplify_eq. }
  assert (Hne : forall x w, bt_get x m = Some w -> bt_get x (bt_insert n (cur, S level) m) = Some w).
  { intros x w Hx. rewrite bt_get_insert_ne; [done|]. intros ->. congruence. }
  assert (Hnew : forall x w, bt_get x (bt_insert n (cur, S level) m) = Some w ->
    (x = n /\ w = (cur, S level)) \/ bt_get x m = Some w).
  { intros x w. destruct (kcmp n x) eqn:E.
    - apply kcmp_eq in E as ->. rewrite bt_get_insert. intros [= <-]. by left.
    - rewrite bt_get_insert_ne by by apply kcmp_lt_ne. by right.
    - rewrite bt_get_insert_ne; [by right|]. apply kcmp_gt, kcmp_lt_ne in E. congruence. }
  split; [by apply Hne|]. split.
  - by apply bt_wf_insert.
  - by apply Hne.
  - intros x p d [[-> [= -> ->]]|Hx]%Hnew; [|by eapply H3]. econstructor; [by eapply H3|done].
  - intros x p d [[-> [= -> ->]]|Hx]%Hnew.
    + right. exists pc, level. split_and!; [by apply Hne|done|done].
    + destruct (H4 x p d Hx) as [?|(p' & d' & Hp & ? & ?)]; [by left|]. right. exists p', d'. eauto.
  - exists q1, (q2 ++ [n]). split_and!; [by rewrite Hq, app_assoc| |].
    + eapply Forall_impl; [done|]. intros x [p Hx]. eauto.
    + apply Forall_app. split.
      * eapply Forall_impl; [done|]. intros x [p Hx]. eauto.
      * repeat constructor. exists cur. by rewrite bt_get_insert.
  - intros x p d [[-> [= -> ->]]|Hx]%Hnew; [lia|by eapply H6].
  - intros u pu du v Hu Hnq Hv. rewrite elem_of_app, list_elem_of_singleton in Hnq.
    apply Hnew in Hu as [[-> _]|Hu]; [tauto|].
    destruct (H7 u pu du v Hu) as [[-> [->|Hr]%elem_of_cons]|(pv & dv & Hgv & Hd)]; try tauto.
    + right. exists cur, (S level). rewrite bt_get_insert. split; [done|].
      rewrite Hcur in Hu. simplify_eq. lia.
    + right. exists pv, dv. eauto.
Qed.

Lemma search_inv_expand_app level cur pc ns rest m q :
  bt_get cur m = Some (pc, level) -> (forall n, n ∈ ns -> n ∈ nbrs cur) ->
  search_inv level (fun u v => u = cur /\ v ∈ ns ++ rest) m q ->
  let '(m', q') := foldl (discover tracked cur (pc, level)) (m, q) ns in
  search_inv level (fun u v => u = cur /\ v ∈ rest) m' q'.
Proof.
  revert m q. induction ns as [|n ns IH]; intros m q Hcur Hns Hinv; [done|]. cbn [foldl].
  pose proof (search_inv_discover level cur pc n (ns ++ rest) m q Hcur) as Hd.
  destruct (discover tracked cur (pc, level) (m, q) n) as [m1 q1].
  destruct Hd as [Hcur1 Hinv1]; [apply Hns; by constructor|done|].
  apply IH; [done| |done]. intros x Hx. apply Hns. by constructor.
Qed.

Lemma search_inv_finish level cur m q :
  search_inv level (fun u v => u = cur /\ v ∈ []) m q -> search_inv level (fun _ _ => False) m q.
Proof.
  intros [H1 H2 H3 H4 H5 H6 H7]. split; try done. intros u pu du v Hu Hnq Hv.
  destruct (H7 u pu du v Hu Hnq Hv) as [[_ []%not_elem_of_nil]|?]. by right.
Qed.

Lemma search_inv_expand level cur pc m q :
  bt_get cur m = Some (pc, level) ->
  search_inv level (fun u v => u = cur /\ v ∈ nbrs cur) m q ->
  let '(m', q') := foldl (discover tracked cur (pc, level)) (m, q) (nbrs cur) in
  search_inv level (fun _ _ => False) m' q'.
Proof.
  intros Hcur Hinv.
  pose proof (search_inv_expand_app level cur pc (nbrs cur) [] m q Hcur (fun n Hn => Hn)) as He.
  rewrite app_nil_r in He. specialize (He Hinv).
  destruct (foldl (discover tracked cur (pc, level)) (m, q) (nbrs cur)) as [m' q'].
  by eapply search_inv_finish.
Qed.

Lemma bfs_inv fuel level m q r :
  search_inv level (fun _ _ => False) m q -> bfs nbrs tracked fuel m q = Some r ->
  exists level', search_inv level' (fun _ _ => False) r [].
Proof.
  revert level m q. induction fuel as [|fuel IH]; intros level m q Hinv; simpl; [done|].
  destruct q as [|cur q]; [intros [= <-]; eauto|].
  destruct (search_inv_pop level m cur q Hinv) as (p & d & Hg & Hpop). rewrite Hg.
  pose proof (search_inv_expand d cur p m q Hg Hpop) as He.
  destruct (foldl (discover tracked cur (p, d)) (m, q) (nbrs cur)) as [m' q'].
  by apply (IH d).
Qed.

(** What a finished search has found: the nodes with a walk from the source, each with the
    length of a shortest walk, and a predecessor one step closer. *)
Record search_result (m : btree A (A * nat)) : Prop := {
  sr_wf : bt_wf m;
  sr_source : bt_get source m = Some (source, O);
  sr_found : forall n k, walk k n -> is_Some (bt_get n m);
  sr_walk : forall n p d, bt_get n m = Some (p, d) -> walk d n;
  sr_shortest : forall n p d k, bt_get n m = Some (p, d) -> walk k n -> (d <= k)%nat;
  sr_pred : forall n p d, bt_get n m = Some (p, d) -> n <> source ->
    exists p' d', bt_get p m = Some (p', d') /\ d = S d' /\ n ∈ nbrs p
}.

Lemma search_inv_result level m : search_inv level (fun _ _ => False) m [] -> search_result m.
Proof.
  intros [H1 H2 H3 H4 _ _ H7].
  assert (Hcl : forall u pu du v, bt_get u m = Some (pu, du) -> v ∈ nbrs u ->
    exists pv dv, bt_get v m = Some (pv, dv) /\ (dv <= S du)%nat).
  { intros u pu du v Hu Hv. destruct (H7 u pu du v Hu (not_elem_of_nil u) Hv) as [[]|?]. done. }
  assert (Hfound : forall n k, walk k n -> exists p d, bt_get n m = Some (p, d) /\ (d <= k)%nat).
  { intros n k Hw. induction Hw as [|k u v Hw (p & d & Hg & Hd) Hv]; [eauto|].
    destruct (Hcl u p d v Hg Hv) as (pv & dv & Hgv & Hdv). exists pv, dv. split; [done|lia]. }
  split; try done.
  - intros n k Hw. destruct (Hfound n k Hw) as (p & d & -> & _). eauto.
  - intros n p d k Hg Hw. destruct (Hfound n k Hw) as (p' & d' & Hg' & Hd). congruence.
  - intros n p d Hg Hne. destruct (H4 n p d Hg) as [?|?]; [done|done].
Qed.

Lemma bfs_correct fuel r :
  bfs nbrs tracked fuel [(source, (source, O))] [source] = Some r -> search_result r.
Proof.
  intros Hb. destruct (bfs_inv _ _ _ _ _ search_inv_start Hb) as [level Hinv].
  by eapply search_inv_result.
Qed.

Lemma bfs_total fuel U :
  source ∈ U -> (forall n x, x ∈ nbrs n -> x ∈ U) -> (length U < fuel)%nat ->
  is_Some (bfs nbrs tracked fuel [(source, (source, O))] [source]).
Proof.
  intros Hs Hn Hf. apply (bfs_terminates nbrs tracked fuel _ _ U); [|done|simpl; lia].
  split; [apply (si_wf _ _ _ _ search_inv_start)|]. intros n [w Hw]. simpl in Hw.
  destruct (kcmp n source) eqn:E; try done. apply kcmp_eq in E. by subst.
Qed.

End Distances.
