(* ===== verification/IndexedSearch.v ===== *)
(** * Breadth-first search over node indexes

    The searches that the topology runs on its routing tables write their results into a
    vector with one slot per node. Each of them simulates the search of [Bfs.v] over the
    nodes themselves, whatever the slots hold. *)

From S2P Require Import Prelude BTree Bfs.

Section IndexedSearch.
  Context {V : Type}.
  (** The indexes to examine from a node; [None] for an index out of range. *)
  Variable nbrs : nat -> option (list nat).
  (** What a node discovered from [cur] gets, given the slot of [cur]; nothing is
      discovered when there is no such value. *)
  Variable value : nat -> option V -> option V.

(** One neighbor; [None] for a slot out of range. *)
Definition mark (v : V) (st : list (option V) * list nat) (n : nat)
  : option (list (option V) * list nat) :=
  match st.1 !! n with
  | None => None
  | Some (Some _) => Some st
  | Some None => Some (<[n := Some v]> st.1, st.2 ++ [n])
  end.

Fixpoint mark_all (v : V) (st : list (option V) * list nat) (ns : list nat)
  : option (list (option V) * list nat) :=
  match ns with
  | [] => Some st
  | n :: ns => st ← mark v st n; mark_all v st ns
  end.

(** [None] for an index out of range or when the fuel runs out. *)
Fixpoint indexed_search (fuel : nat) (slots : list (option V)) (queue : list nat)
  : option (list (option V)) :=
  match fuel with
  | O => None
  | S fuel =>
      match queue with
      | [] => Some slots
      | cur :: queue =>
          slot ← slots !! cur;
          ns ← nbrs cur;
          match value cur slot with
          | None => indexed_search fuel slots queue
          | Some v => '(slots, queue) ← mark_all v (slots, queue) ns; indexed_search fuel slots queue
          end
      end
  end.

Lemma mark_all_length v st ns st' : mark_all v st ns = Some st' -> length st'.1 = length st.1.
Proof.
  revert st. induction ns as [|n ns IH]; intros st; simpl; [by intros [= ->]|].
  unfold mark. destruct (st.1 !! n) as [[x|]|] eqn:E; cbn [mbind option_bind]; [by apply IH| |done].
  intros H%IH. rewrite H. simpl. apply length_insert.
Qed.

Lemma indexed_search_length fuel slots queue slots' :
  indexed_search fuel slots queue = Some slots' -> length slots' = length slots.
Proof.
  revert slots queue. induction fuel as [|fuel IH]; intros slots queue; simpl; [done|].
  destruct queue as [|cur queue]; [by intros [= ->]|]. destruct (slots !! cur) as [slot|]; [|done].
  cbn [mbind option_bind]. destruct (nbrs cur) as [ns|]; [|done]. cbn [mbind option_bind].
  destruct (value cur slot) as [v|]; [|apply IH].
  destruct (mark_all v (slots, queue) ns) as [[s q]|] eqn:E; [|done]. cbn [mbind option_bind].
  intros H%IH. apply mark_all_length in E. simpl in E. congruence.
Qed.

End IndexedSearch.

(** ** Simulation *)

Section Simulation.
  Context {A V W : Type} `{KeyOrd A}.
  Variable ids : list A.
  Hypothesis ids_nodup : NoDup ids.
  Variables (inbrs : nat -> option (list nat)) (nbrs : A -> list A).
  Hypothesis nbrs_ok : forall i n, ids !! i = Some n ->
    exists ns, inbrs i = Some ns /\ Forall2 (fun j x => ids !! j = Some x) ns (nbrs n).
  Variables (ivalue : nat -> option V -> option V) (value : A -> W -> W).
  (** How slots and recorded values correspond after [k] steps. *)
  Variable R : nat -> V -> W -> Prop.
  Variable limit : nat.
  Hypothesis R_mono : forall k v w, R k v w -> R (S k) v w.
  Hypothesis R_value : forall k i n v w, (k < limit)%nat -> ids !! i = Some n -> R k v w ->
    exists v', ivalue i (Some v) = Some v' /\ R (S k) v' (value n w).

Definition slots_ok (k : nat) (slots : list (option V)) (m : btree A W) : Prop :=
  forall i n, ids !! i = Some n -> exists o, slots !! i = Some o /\ option_Forall2 (R k) o (bt_get n m).

Definition queue_ok (m : btree A W) (q : list nat) (q' : list A) : Prop :=
  Forall2 (fun i n => ids !! i = Some n) q q' /\ Forall (fun n => is_Some (bt_get n m)) q'.

Lemma slots_ok_mono k slots m : slots_ok k slots m -> slots_ok (S k) slots m.
Proof.
  intros Hs i n Hi. destruct (Hs i n Hi) as (o & Ho & HR). exists o. split; [done|].
  destruct HR; constructor; eauto.
Qed.

Lemma slots_ok_insert k slots m j x v w :
  ids !! j = Some x -> R k v w -> slots_ok k slots m ->
  slots_ok k (<[j := Some v]> slots) (bt_insert x w m).
Proof.
  intros Hj HR Hs i n Hi. destruct (decide (i = j)) as [->|Hne].
  - rewrite Hj in Hi. injection Hi as ->. destruct (Hs j n Hj) as (o & Ho & _). exists (Some v).
    rewrite list_lookup_insert_eq by (by eapply lookup_lt_Some). rewrite bt_get_insert.
    split; [done|]. by constructor.
  - rewrite list_lookup_insert_ne by done. rewrite bt_get_insert_ne; [by apply Hs|].
    intros ->. apply Hne. by eapply NoDup_lookup.
Qed.

Lemma queue_ok_push m q q' j x w :
  ids !! j = Some x -> queue_ok m q q' -> queue_ok (bt_insert x w m) (q ++ [j]) (q' ++ [x]).
Proof.
  intros Hj [Hq Hq']. split; [apply Forall2_app; [done|by repeat constructor]|].
  apply Forall_app. split; [|repeat constructor; by rewrite bt_get_insert].
  eapply Forall_impl; [done|]. intros n [y Hy].
  destruct (kcmp x n) eqn:E; [apply kcmp_eq in E as ->; by rewrite bt_get_insert|..];
    rewrite bt_get_insert_ne; try by eexists.
  - by apply kcmp_lt_ne.
  - apply kcmp_gt, kcmp_lt_ne in E. congruence.
Qed.

Lemma mark_sim k v w cur wcur slots m q q' j x :
  w = value cur wcur -> R k v w -> ids !! j = Some x -> slots_ok k slots m -> queue_ok m q q' ->
  exists slots' q1, mark v (slots, q) j = Some (slots', q1) /\
    slots_ok k slots' (discover value cur wcur (m, q') x).1 /\
    queue_ok (discover value cur wcur (m, q') x).1 q1 (discover value cur wcur (m, q') x).2.
Proof.
  intros Hw HR Hj Hs Hq. destruct (Hs j x Hj) as (o & Ho & HRo). unfold mark, discover.
  cbn [fst snd]. rewrite Ho. destruct HRo as [vj wj HRj|]; [by exists slots, q|].
  rewrite <- Hw. exists (<[j:=Some v]> slots), (q ++ [j]).
  split_and!; [done|by apply slots_ok_insert|by apply queue_ok_push].
Qed.

Lemma mark_all_sim k v w cur wcur ns xs slots m q q' :
  w = value cur wcur -> R k v w -> Forall2 (fun j x => ids !! j = Some x) ns xs ->
  slots_ok k slots m -> queue_ok m q q' ->
  exists slots' q1, mark_all v (slots, q) ns = Some (slots', q1) /\
    slots_ok k slots' (foldl (discover value cur wcur) (m, q') xs).1 /\
    queue_ok (foldl (discover value cur wcur) (m, q') xs).1 q1 (foldl (discover value cur wcur) (m, q') xs).2.
Proof.
  intros Hw HR Hns. revert slots m q q'. induction Hns as [|j x ns xs Hj _ IH]; intros slots m q q' Hs Hq.
  - by exists slots, q.
  - destruct (mark_sim k v w cur wcur slots m q q' j x Hw HR Hj Hs Hq) as (s1 & q1 & Hm & Hs1 & Hq1).
    cbn [mark_all foldl]. rewrite Hm. cbn [mbind option_bind].
    destruct (discover value cur wcur (m, q') x) as [m1 q1']. by apply IH.
Qed.

(** The search over indexes finds what the search over nodes finds, without ever leaving
    the vector. *)
Lemma indexed_search_sim fuel k slots m q q' r :
  (k + fuel <= limit)%nat -> slots_ok k slots m -> queue_ok m q q' ->
  bfs nbrs value fuel m q' = Some r ->
  exists slots', indexed_search inbrs ivalue fuel slots q = Some slots' /\ slots_ok limit slots' r.
Proof.
  revert k slots m q q'. induction fuel as [|fuel IH]; intros k slots m q q' Hk Hs Hq; simpl; [done|].
  destruct Hq as [Hq Hq']. destruct Hq as [|i n q q' Hi Hq].
  - intros [= <-]. exists slots. split; [done|]. clear - Hs Hk R_mono.
    assert (Hle : exists d, limit = (d + k)%nat) by (exists (limit - k)%nat; lia). destruct Hle as [d ->].
    clear Hk. induction d; [done|]. by apply slots_ok_mono.
  - apply Forall_cons in Hq' as [[w Hw] Hq']. rewrite Hw.
    destruct (Hs i n Hi) as (o & Ho & HRo). rewrite Hw in HRo. inversion HRo as [v w' HR Hv Hw'|]; subst.
    rewrite Ho. cbn [mbind option_bind]. destruct (nbrs_ok i n Hi) as (ns & -> & Hns).
    cbn [mbind option_bind]. destruct (R_value k i n v w) as (v' & -> & HR'); [lia|done|done|].
    destruct (mark_all_sim (S k) v' _ n w ns (nbrs n) slots m q q' eq_refl HR' Hns)
      as (s1 & q1 & -> & Hs1 & Hq1); [by apply slots_ok_mono|done|].
    cbn [mbind option_bind]. destruct (foldl (discover value n w) (m, q') (nbrs n)) as [m1 q1'].
    apply (IH (S k)); [lia|done|done].
Qed.

End Simulation.
