(* ===== verification/TopologyGraph.v ===== *)
(** * Paths in the relay backbone (crates/ipars-control-plane/src/bounded_topology.rs)

    The adjacency of the backbone as an ordered map of ordered sets, and what the control
    plane computes on it: shortest paths that avoid failed nodes and links, disjoint
    secondary paths, distances, connectivity, the recorded invariants and the lower bound
    of the diameter. *)

From S2P Require Import Prelude RustStd BTree Bfs.

Module TopologyGraph.

(** ** Edges *)

Record TopologyEdge : Type := { first : NodeId; second : NodeId }.

Definition edge_new (a b : NodeId) : option TopologyEdge :=
  if bool_decide (a = b) then None
  else match kcmp a b with
       | Lt => Some {| first := a; second := b |}
       | _ => Some {| first := b; second := a |}
       end.

#[global] Instance edge_ord : KeyOrd TopologyEdge.
Proof.
  apply (ord_by (fun e => (first e, second e))). by intros [] [] [= -> ->].
Defined.

Definition edge_is_unavailable (a b : NodeId) (unavailable_edges : btset TopologyEdge) : bool :=
  match edge_new a b with
  | Some e => bs_mem e unavailable_edges
  | None => false
  end.

(** The pairs of [path.windows(2)]. *)
Fixpoint windows2 {A} (l : list A) : list (A * A) :=
  match l with
  | a :: (b :: _) as rest => (a, b) :: windows2 rest
  | _ => []
  end.

Definition path_edges (path : list NodeId) : btset TopologyEdge :=
  bs_of_list (omap (fun '(a, b) => edge_new a b) (windows2 path)).

(** ** Adjacency *)

Abbreviation adjacency_map := (btree NodeId (btset NodeId)).

Definition neighbors (adj : adjacency_map) (n : NodeId) : list NodeId :=
  match bt_get n adj with Some s => bt_keys s | None => [] end.

Definition add_undirected_edge (adj : adjacency_map) (a b : NodeId) : adjacency_map :=
  if bool_decide (a = b) then adj else
  let adj := match bt_get a adj with
             | Some s => bt_insert a (bs_insert b s) adj | None => adj end in
  match bt_get b adj with
  | Some s => bt_insert b (bs_insert a s) adj | None => adj end.

(** Enough for one visit of every node that the map mentions. *)
Definition search_fuel (adj : adjacency_map) : nat :=
  S (S (length adj + length (concat (map (fun kv => bt_keys kv.2) adj)))).

(** ** Shortest paths *)

Fixpoint reconstruct_loop (fuel : nat) (source cursor : NodeId)
    (predecessor : btree NodeId NodeId) (path : list NodeId) : option (list NodeId) :=
  match fuel with
  | O => None
  | S fuel =>
      if bool_decide (cursor = source) then Some path
      else match bt_get cursor predecessor with
           | None => None
           | Some p => reconstruct_loop fuel source p predecessor (p :: path)
           end
  end.

Definition reconstruct_path (source destination : NodeId) (predecessor : btree NodeId NodeId)
  : option (list NodeId) :=
  reconstruct_loop (S (length predecessor)) source destination predecessor [destination].

Record search : Type := {
  visited : btset NodeId;
  predecessor : btree NodeId NodeId;
  queue : list NodeId
}.

Section Paths.
  Variable adj : adjacency_map.

(** The loop over the neighbors of [current]: the path as soon as the destination is
    discovered, or the search to continue with. *)
Fixpoint scan_neighbors (source destination : NodeId) (unavailable_nodes : btset NodeId)
    (unavailable_edges : btset TopologyEdge) (current : NodeId) (ns : list NodeId) (st : search)
  : option (list NodeId) + search :=
  match ns with
  | [] => inr st
  | n :: ns =>
      if bs_mem n unavailable_nodes || edge_is_unavailable current n unavailable_edges
         || bs_mem n (visited st)
      then scan_neighbors source destination unavailable_nodes unavailable_edges current ns st
      else
        let visited := bs_insert n (visited st) in
        let predecessor := bt_insert n current (predecessor st) in
        if bool_decide (n = destination)
        then inl (reconstruct_path source destination predecessor)
        else scan_neighbors source destination unavailable_nodes unavailable_edges current ns
               {| visited := visited; predecessor := predecessor; queue := queue st ++ [n] |}
  end.

(** [None] when the fuel runs out. *)
Fixpoint search_loop (fuel : nat) (source destination : NodeId) (unavailable_nodes : btset NodeId)
    (unavailable_edges : btset TopologyEdge) (st : search) : option (option (list NodeId)) :=
  match fuel with
  | O => None
  | S fuel =>
      match queue st with
      | [] => Some None
      | current :: q =>
          let st := {| visited := visited st; predecessor := predecessor st; queue := q |} in
          match scan_neighbors source destination unavailable_nodes unavailable_edges current
                  (neighbors adj current) st with
          | inl result => Some result
          | inr st => search_loop fuel source destination unavailable_nodes unavailable_edges st
          end
      end
  end.

Definition contains_key {V} (k : NodeId) (m : btree NodeId V) : bool :=
  match bt_get k m with Some _ => true | None => false end.

Definition shortest_path_avoiding (source destination : NodeId)
    (unavailable_nodes : btset NodeId) (unavailable_edges : btset TopologyEdge)
  : option (list NodeId) :=
  if negb (contains_key source adj) || negb (contains_key destination adj)
     || bs_mem source unavailable_nodes || bs_mem destination unavailable_nodes
  then None
  else if bool_decide (source = destination) then Some [source]
  else default None
         (search_loop (search_fuel adj) source destination unavailable_nodes unavailable_edges
            {| visited := bs_of_list [source]; predecessor := []; queue := [source] |}).

Definition shortest_path (source destination : NodeId) : option (list NodeId) :=
  shortest_path_avoiding source destination [] [].

(** ** Secondary paths *)

Inductive SecondaryPathKind : Type := VertexDisjoint | EdgeDisjoint.

Record SecondaryPath : Type := { kind : SecondaryPathKind; nodes : list NodeId }.

Record TopologyPaths : Type := { primary : list NodeId; secondary : option SecondaryPath }.

(** [path.iter().skip(1).take(path.len().saturating_sub(2))] *)
Definition internal_nodes (path : list NodeId) : list NodeId :=
  take (length path - 2) (drop 1 path).

Definition secondary_path (source destination : NodeId) (primary : list NodeId)
  : option SecondaryPath :=
  let primary_edges := path_edges primary in
  let primary_internal_nodes := bs_of_list (internal_nodes primary) in
  match shortest_path_avoiding source destination primary_internal_nodes primary_edges with
  | Some nodes => Some {| kind := VertexDisjoint; nodes := nodes |}
  | None =>
      match shortest_path_avoiding source destination [] primary_edges with
      | Some nodes => Some {| kind := EdgeDisjoint; nodes := nodes |}
      | None => None
      end
  end.

Definition paths_avoiding (source destination : NodeId) (unavailable_nodes : btset NodeId)
  : option TopologyPaths :=
  match shortest_path_avoiding source destination unavailable_nodes [] with
  | None => None
  | Some primary =>
      if bool_decide (source = destination)
      then Some {| primary := primary; secondary := None |}
      else
        let primary_edges := path_edges primary in
        let unavailable_for_secondary :=
          foldl (fun s n => bs_insert n s) unavailable_nodes (internal_nodes primary) in
        let secondary :=
          match shortest_path_avoiding source destination unavailable_for_secondary
                  primary_edges with
          | Some nodes => Some {| kind := VertexDisjoint; nodes := nodes |}
          | None =>
              match shortest_path_avoiding source destination unavailable_nodes
                      primary_edges with
              | Some nodes => Some {| kind := EdgeDisjoint; nodes := nodes |}
              | None => None
              end
          end in
        Some {| primary := primary; secondary := secondary |}
  end.

(** ** Distances *)

Definition distances_from (source : NodeId) : btree NodeId Z :=
  default [] (bfs (neighbors adj) (fun _ d => d + 1) (search_fuel adj) [(source, 0)] [source]).

Definition graph_is_connected : bool :=
  match adj with
  | [] => true
  | (start, _) :: _ => lenZ (distances_from start) =? lenZ adj
  end.

Record TopologyInvariants : Type := {
  node_count : Z;
  edge_count : Z;
  max_observed_degree : Z;
  connected : bool;
  symmetric : bool;
  no_self_loops : bool;
  within_degree_bound : bool
}.

Definition are_satisfied (i : TopologyInvariants) : bool :=
  connected i && symmetric i && no_self_loops i && within_degree_bound i.

Definition inspect_invariants (max_degree : Z) : TopologyInvariants :=
  let no_self_loops := forallb (fun '(n, ns) => negb (bs_mem n ns)) adj in
  let symmetric :=
    forallb (fun '(n, ns) =>
      forallb (fun k => match bt_get k adj with
                        | Some reverse => bs_mem n reverse | None => false end)
        (bt_keys ns)) adj in
  let max_observed_degree := foldl Z.max 0 (map (fun ns => lenZ ns) (bt_values adj)) in
  let edges := bs_of_list
    (concat (map (fun '(n, ns) => omap (edge_new n) (bt_keys ns)) adj)) in
  {| node_count := lenZ adj; edge_count := lenZ edges;
     max_observed_degree := max_observed_degree; connected := graph_is_connected;
     symmetric := symmetric; no_self_loops := no_self_loops;
     within_degree_bound := max_observed_degree <=? max_degree |}.

(** [max_by] on (distance, node); the later of equal elements wins. *)
Definition farther (best x : NodeId * Z) : NodeId * Z :=
  match kcmp (best.2, best.1) (x.2, x.1) with Gt => best | _ => x end.

Definition farthest (distances : btree NodeId Z) : option (NodeId * Z) :=
  match distances with
  | [] => None
  | x :: rest => Some (foldl farther x rest)
  end.

Fixpoint diameter_sweeps (sweeps : nat) (source : NodeId) (lower_bound : Z) : option Z :=
  match sweeps with
  | O => Some lower_bound
  | S sweeps =>
      let distances := distances_from source in
      if negb (lenZ distances =? lenZ adj) then None
      else match farthest distances with
           | None => None
           | Some (n, distance) =>
               if distance <=? lower_bound then Some lower_bound
               else diameter_sweeps sweeps n distance
           end
  end.

Definition calculate_diameter_lower_bound : option Z :=
  match adj with
  | [] => None
  | (source, _) :: _ => diameter_sweeps 4 source 0
  end.

End Paths.

(** ** Walks and paths *)

(** Each node of the list is a neighbor of the one before it. *)
Fixpoint chain (nb : NodeId -> list NodeId) (p : list NodeId) : Prop :=
  match p with
  | u :: (v :: _) as rest => v ∈ nb u /\ chain nb rest
  | _ => True
  end.

Lemma chain_snoc nb p u v : chain nb (p ++ [u]) -> v ∈ nb u -> chain nb (p ++ [u; v]).
Proof.
  induction p as [|a [|b p] IH]; simpl; [tauto|tauto|]. intros [Ha Hp] Hv.
  split; [done|]. by apply IH.
Qed.

Lemma chain_app_inv nb p u v : chain nb (p ++ [u; v]) -> chain nb (p ++ [u]) /\ v ∈ nb u.
Proof.
  induction p as [|a [|b p] IH]; simpl; [tauto|tauto|]. intros [Ha Hp].
  apply IH in Hp as [Hp Hv]. tauto.
Qed.

Lemma chain_mono (nb nb' : NodeId -> list NodeId) p :
  (forall u v, v ∈ nb u -> v ∈ nb' u) -> chain nb p -> chain nb' p.
Proof.
  intros Hnb. induction p as [|a [|b p] IH]; simpl; [done|done|]. intros [Hb Hc].
  split; [by apply Hnb|by apply IH].
Qed.

Lemma chain_walk nb s p d :
  head p = Some s -> last p = Some d -> chain nb p -> walk nb s (length p - 1) d.
Proof.
  revert d. induction p as [|v p IH] using rev_ind; intros d Hh Hl Hc; [done|].
  rewrite last_snoc in Hl. injection Hl as ->. rewrite length_app. simpl.
  destruct p as [|w p' _] using rev_ind; simpl in *.
  { injection Hh as ->. constructor. }
  rewrite <- app_assoc in Hc. simpl in Hc. apply chain_app_inv in Hc as [Hc Hd].
  replace (length (p' ++ [w]) + 1 - 1)%nat with (S (length (p' ++ [w]) - 1))
    by (rewrite length_app; simpl; lia).
  econstructor; [|done]. apply IH; [|by rewrite last_snoc|done].
  by destruct p'.
Qed.

Section PathProofs.
  Variable adj : adjacency_map.
  Variables source destination : NodeId.
  Variables (un : btset NodeId) (ue : btset TopologyEdge).

Definition usable_step (u v : NodeId) : bool :=
  negb (bs_mem v un) && negb (edge_is_unavailable u v ue).

Definition allowed (u : NodeId) : list NodeId := List.filter (usable_step u) (neighbors adj u).

Abbreviation tmap := (btree NodeId (NodeId * nat)).

(** The nodes discovered from a node. *)
Definition children (m : tmap) (u : NodeId) : list NodeId :=
  map fst (List.filter (fun kv => bool_decide (kv.2.1 = u)) m).

Lemma children_in m u v : bt_wf m -> v ∈ children m u <-> exists d, bt_get v m = Some (u, d).
Proof.
  intros Hwf. unfold children. rewrite list_elem_of_In, in_map_iff. setoid_rewrite filter_In. split.
  - intros ([v' [p d]] & <- & Hin & Hp%bool_decide_eq_true). simpl in *. subst p. exists d.
    apply bt_get_elem; [done|]. by apply list_elem_of_In.
  - intros [d Hd]. exists (v, (u, d)). split_and!; [done| |by apply bool_decide_eq_true].
    apply list_elem_of_In. by apply bt_get_elem.
Qed.

(** The predecessors that the code keeps for the nodes discovered so far. *)
Definition preds_ok (m : tmap) (pred : btree NodeId NodeId) : Prop :=
  bt_wf pred /\
  forall n p d, n <> source -> bt_get n m = Some (p, d) -> bt_get n pred = Some p.

Record sim (st : search) (m : tmap) (q : list NodeId) : Prop := {
  sim_visited : forall n, bs_mem n (visited st) = true <-> is_Some (bt_get n m);
  sim_preds : preds_ok m (predecessor st);
  sim_queue : queue st = q
}.

Lemma preds_ok_insert m pred n cur d :
  preds_ok m pred -> bt_get n m = None -> preds_ok (bt_insert n (cur, d) m) (bt_insert n cur pred).
Proof.
  intros [Hwf Hp] Hn. split; [by apply bt_wf_insert|]. intros x p d' Hx.
  destruct (decide (n = x)) as [<-|Hne]; [rewrite !bt_get_insert; by intros [= -> ->]|].
  rewrite !bt_get_insert_ne by done. by apply Hp.
Qed.

Lemma scan_neighbors_sim cur pc level ns st m q :
  sim st m q -> bt_get destination m = None ->
  match scan_neighbors source destination un ue cur ns st with
  | inr st' =>
      let '(m', q') := foldl (discover tracked cur (pc, level)) (m, q)
                         (List.filter (usable_step cur) ns) in
      sim st' m' q' /\ bt_get destination m' = None
  | inl r =>
      exists a b m1 q1 pred1,
        List.filter (usable_step cur) ns = (a ++ [destination]) ++ b /\
        foldl (discover tracked cur (pc, level)) (m, q) (a ++ [destination]) = (m1, q1) /\
        is_Some (bt_get destination m1) /\
        preds_ok m1 pred1 /\ r = reconstruct_path source destination pred1
  end.
Proof.
  revert st m q. induction ns as [|n ns IH]; intros st m q Hs Hd; [done|].
  cbn [scan_neighbors List.filter].
  assert (Hcond : (bs_mem n un || edge_is_unavailable cur n ue)%bool = negb (usable_step cur n))
    by (unfold usable_step; by rewrite <- negb_orb, negb_involutive).
  rewrite Hcond. destruct (usable_step cur n); cbn [negb orb]; [|by apply IH].
  destruct (bs_mem n (visited st)) eqn:Ev.
  - apply (sim_visited _ _ _ Hs) in Ev as [w Hw].
    assert (Hdisc : discover tracked cur (pc, level) (m, q) n = (m, q))
      by (unfold discover; simpl; by rewrite Hw).
    specialize (IH st m q Hs Hd).
    destruct (scan_neighbors source destination un ue cur ns st) as [r|st'].
    + destruct IH as (a & b & m1 & q1 & pred1 & Hf & Hfold & Hrest).
      exists (n :: a), b, m1, q1, pred1. rewrite Hf. split; [done|]. simpl. by rewrite Hdisc.
    + cbn [foldl]. by rewrite Hdisc.
  - assert (Hn : bt_get n m = None).
    { destruct (bt_get n m) as [w|] eqn:E; [|done]. exfalso.
      apply not_true_iff_false in Ev. apply Ev, (sim_visited _ _ _ Hs). eauto. }
    assert (Hdisc : discover tracked cur (pc, level) (m, q) n
                    = (bt_insert n (cur, S level) m, q ++ [n]))
      by (unfold discover; simpl; by rewrite Hn).
    case_bool_decide as Hnd.
    + subst n. exists [], (List.filter (usable_step cur) ns), (bt_insert destination (cur, S level) m),
        (q ++ [destination]), (bt_insert destination cur (predecessor st)).
      split; [done|]. split; [done|]. rewrite bt_get_insert. split_and!; [done| |done].
      apply preds_ok_insert; [apply Hs|done].
    + set (st1 := Build_search _ _ _).
      assert (Hs1 : sim st1 (bt_insert n (cur, S level) m) (q ++ [n])).
      { destruct Hs as [Hv Hp Hq]. split; simpl.
        - intros x. rewrite bs_mem_insert, Hv. destruct (decide (n = x)) as [<-|Hne].
          + rewrite bt_get_insert. split; [done|by left].
          + rewrite bt_get_insert_ne by done. intuition congruence.
        - by apply preds_ok_insert.
        - by rewrite Hq. }
      specialize (IH st1 _ _ Hs1). rewrite bt_get_insert_ne in IH by done. specialize (IH Hd).
      destruct (scan_neighbors source destination un ue cur ns st1) as [r|st'].
      * destruct IH as (a & b & m1 & q1 & pred1 & Hf & Hfold & Hrest).
        exists (n :: a), b, m1, q1, pred1. rewrite Hf. split; [done|]. simpl. by rewrite Hdisc.
      * cbn [foldl]. by rewrite Hdisc.
Qed.

(** ** Following the predecessors back to the source *)

(** The nodes before [n] on the path the predecessors describe. *)
Lemma predecessor_chain (m : tmap) pred :
  bt_wf m -> bt_get source m = Some (source, O) ->
  (forall n p d, bt_get n m = Some (p, d) -> walk allowed source d n) ->
  (forall n p d, bt_get n m = Some (p, d) ->
     n = source \/ exists p' d', bt_get p m = Some (p', d') /\ d = S d' /\ n ∈ allowed p) ->
  preds_ok m pred ->
  forall d n p, bt_get n m = Some (p, d) ->
  exists l, length l = d /\ head (l ++ [n]) = Some source /\ chain allowed (l ++ [n]) /\
    (forall i x, (l ++ [n]) !! i = Some x -> exists px, bt_get x m = Some (px, i)) /\
    chain (children m) (l ++ [n]) /\
    forall fuel path, (d < fuel)%nat ->
      reconstruct_loop fuel source n pred path = Some (l ++ path).
Proof.
  intros Hwf Hs Hw Hp [_ Hok]. induction d as [|d IH]; intros n p Hn.
  - apply Hw in Hn as Hn0. inversion Hn0; subst. exists []. split_and!; try done.
    + intros [|i] x; simpl; [intros [= <-]; eauto|done].
    + intros [|fuel] path Hf; [lia|]. simpl. by rewrite bool_decide_eq_true_2.
  - assert (Hne : n <> source) by (intros ->; congruence).
    destruct (Hp n p (S d) Hn) as [?|(p' & d' & Hgp & [= <-] & Hin)]; [done|].
    destruct (IH p p' Hgp) as (l & Hlen & Hh & Hc & Hidx & Hch & Hloop).
    exists (l ++ [p]). split_and!.
    + rewrite length_app. simpl. lia.
    + by destruct l.
    + rewrite <- app_assoc. by apply chain_snoc.
    + intros i x Hi. apply lookup_app_Some in Hi as [Hi|[Hge Hi]]; [by apply Hidx|].
      rewrite length_app in *. simpl in *. rewrite list_lookup_singleton_Some in Hi.
      destruct Hi as [Hi <-]. exists p. rewrite Hn. do 2 f_equal. lia.
    + rewrite <- app_assoc. apply chain_snoc; [done|]. apply children_in; [done|]. by exists (S d).
    + intros [|fuel] path Hf; [lia|]. simpl. rewrite bool_decide_eq_false_2 by done.
      rewrite (Hok n p (S d)), Hloop by (done || lia). by rewrite <- app_assoc.
Qed.

Lemma indexed_nodup (m : tmap) (l : list NodeId) :
  (forall i x, l !! i = Some x -> exists px, bt_get x m = Some (px, i)) -> NoDup l.
Proof.
  intros Hidx. apply NoDup_alt. intros i j x Hi Hj.
  destruct (Hidx i x Hi) as [p1 H1]. destruct (Hidx j x Hj) as [p2 H2]. congruence.
Qed.

Lemma reconstruct_path_ok (m : tmap) pred n p d :
  bt_wf m -> bt_get source m = Some (source, O) ->
  (forall n p d, bt_get n m = Some (p, d) -> walk allowed source d n) ->
  (forall n p d, bt_get n m = Some (p, d) ->
     n = source \/ exists p' d', bt_get p m = Some (p', d') /\ d = S d' /\ n ∈ allowed p) ->
  preds_ok m pred -> bt_get n m = Some (p, d) ->
  exists path, reconstruct_path source n pred = Some path /\ length path = S d /\
    head path = Some source /\ last path = Some n /\ chain allowed path /\ NoDup path /\
    chain (children m) path.
Proof.
  intros Hwfm Hs Hw Hp Hok Hn.
  destruct (predecessor_chain m pred Hwfm Hs Hw Hp Hok d n p Hn) as (l & Hlen & Hh & Hc & Hidx & Hch & Hloop).
  pose proof (indexed_nodup m _ Hidx) as Hnd. exists (l ++ [n]).
  split_and!; try done; [|rewrite length_app; simpl; lia|by rewrite last_snoc].
  apply Hloop. enough (d <= length pred)%nat by lia.
  assert (Hsub : drop 1 (l ++ [n]) ⊆+ bt_keys pred).
  { apply NoDup_submseteq.
    { rewrite <- (take_drop 1 (l ++ [n])) in Hnd. by apply NoDup_app in Hnd as (_ & _ & ?). }
    intros x Hx.
    apply list_elem_of_lookup in Hx as [i Hi]. rewrite lookup_drop in Hi.
    destruct (Hidx _ x Hi) as [px Hpx]. destruct Hok as [Hwf Hok].
    assert (Hxs : x <> source) by (intros ->; rewrite Hs in Hpx; simplify_eq).
    apply (Hok x px _ Hxs), bt_get_elem in Hpx; [|done].
    by apply (list_elem_of_fmap_2 fst) in Hpx. }
  apply submseteq_length in Hsub. rewrite length_drop, length_app in Hsub.
  unfold bt_keys in Hsub. rewrite length_map in Hsub. simpl in Hsub. lia.
Qed.

(** ** The search of the code against the search with distances *)

Lemma search_loop_spec fuel level m q st r :
  search_inv allowed source level (fun _ _ => False) m q -> sim st m q ->
  bt_get destination m = None -> source <> destination -> bt_wf r ->
  bfs allowed tracked fuel m q = Some r ->
  match search_loop adj fuel source destination un ue st with
  | None => False
  | Some None => bt_get destination r = None
  | Some (Some path) =>
      exists p d, bt_get destination r = Some (p, d) /\ length path = S d /\
        head path = Some source /\ last path = Some destination /\ chain allowed path /\
        NoDup path /\ chain (children r) path
  end.
Proof.
  revert level m q st. induction fuel as [|fuel IH]; intros level m q st Hinv Hsim Hd Hne Hwfr; simpl;
    [done|].
  rewrite (sim_queue _ _ _ Hsim). destruct q as [|cur q]; [by intros [= <-]|].
  destruct (search_inv_pop _ _ _ _ _ _ Hinv) as (pc & lc & Hg & Hpop). rewrite Hg. intros Hb.
  set (st1 := Build_search _ _ _).
  assert (Hsim1 : sim st1 m q) by (destruct Hsim; by split).
  pose proof (scan_neighbors_sim cur pc lc (neighbors adj cur) st1 m q Hsim1 Hd) as Hscan.
  fold (allowed cur) in Hscan.
  destruct (scan_neighbors source destination un ue cur (neighbors adj cur) st1) as [res|st2].
  - destruct Hscan as (a & b & m1 & q1 & pred1 & Hf & Hfold & [[pd dd] Hdest] & Hpreds & ->).
    assert (Hinv1 : search_inv allowed source lc (fun u v => u = cur /\ v ∈ b) m1 q1).
    { pose proof (search_inv_expand_app allowed source lc cur pc (a ++ [destination]) b m q Hg) as He.
      rewrite Hfold in He. apply He; [|by rewrite <- Hf].
      intros n Hn. rewrite Hf. apply elem_of_app. by left. }
    destruct Hinv1 as [I1 I2 I3 I4 _ _ _].
    destruct (reconstruct_path_ok m1 pred1 destination pd dd I1 I2 I3 I4 Hpreds Hdest)
      as (path & -> & Hlen & Hh & Hl & Hc & Hnd & Hch). exists pd, dd.
    rewrite Hf, foldl_app, Hfold in Hb.
    assert (Hkeep : forall n w, bt_get n m1 = Some w -> bt_get n r = Some w).
    { intros n w Hn. pose proof (discover_all_keeps tracked cur (pc, lc) b m1 q1 n _ Hn) as Hk.
      destruct (foldl (discover tracked cur (pc, lc)) (m1, q1) b) as [m2 q2]. by eapply bfs_keeps. }
    split_and!; [by apply Hkeep|done..|]. eapply chain_mono; [|exact Hch].
    intros u v [d Hd']%children_in; [|done]. apply children_in; [done|]. exists d. by apply Hkeep.
  - pose proof (search_inv_expand _ _ _ _ _ _ _ Hg Hpop) as He.
    destruct (foldl (discover tracked cur (pc, lc)) (m, q) (allowed cur)) as [m' q'].
    destruct Hscan as [Hsim2 Hd2]. by apply (IH lc m' q').
Qed.

Definition universe : list NodeId :=
  source :: concat (map (fun kv => bt_keys kv.2) adj).

Lemma neighbors_in_universe n x : x ∈ neighbors adj n -> x ∈ concat (map (fun kv => bt_keys kv.2) adj).
Proof.
  unfold neighbors. intros Hx.
  destruct (bt_get n adj) as [s|] eqn:E; [|by apply not_elem_of_nil in Hx].
  apply bt_get_in, list_elem_of_In in E. apply list_elem_of_In in Hx.
  apply list_elem_of_In, in_concat. exists (bt_keys s).
  split; [|done]. apply in_map_iff. exists (n, s). done.
Qed.

Lemma allowed_neighbors n x : x ∈ allowed n -> x ∈ neighbors adj n /\ usable_step n x = true.
Proof. unfold allowed. rewrite !list_elem_of_In, filter_In. done. Qed.

Lemma search_total :
  is_Some (bfs allowed tracked (search_fuel adj) [(source, (source, O))] [source]).
Proof.
  apply (bfs_total allowed source _ universe); [by constructor| |].
  - intros n x [Hx _]%allowed_neighbors. constructor. by eapply neighbors_in_universe.
  - unfold universe, search_fuel. simpl. lia.
Qed.

Lemma sim_start :
  sim {| visited := bs_of_list [source]; predecessor := []; queue := [source] |}
    [(source, (source, O))] [source].
Proof.
  split; [|split; [apply bt_wf_nil|]|done].
  - intros n. cbn [visited]. rewrite bs_of_list_mem, list_elem_of_singleton. cbn [bt_get].
    destruct (kcmp n source) eqn:E.
    + apply kcmp_eq in E as ->. split; [by eexists|done].
    + apply kcmp_lt_ne in E. split; [done|by intros []].
    + apply kcmp_gt, kcmp_lt_ne in E. split; [congruence|by intros []].
  - intros n p d Hn. cbn [bt_get]. destruct (kcmp n source) eqn:E; try done. by apply kcmp_eq in E.
Qed.

(** ** What the path search returns *)

(** A path from the source to the destination along usable links, with usable nodes. *)
Definition route (p : list NodeId) : Prop :=
  is_Some (bt_get source adj) /\ is_Some (bt_get destination adj) /\
  head p = Some source /\ last p = Some destination /\ chain allowed p /\
  Forall (fun n => bs_mem n un = false) p.

Lemma chain_allowed_usable p :
  chain allowed p -> (forall s, head p = Some s -> bs_mem s un = false) ->
  Forall (fun n => bs_mem n un = false) p.
Proof.
  induction p as [|u [|v p] IH]; intros Hc Hs; [done|repeat constructor; auto|].
  destruct Hc as [Hv Hc]. constructor; [auto|]. apply IH; [done|]. intros s [= <-].
  apply allowed_neighbors in Hv as [_ Hv]. unfold usable_step in Hv.
  by apply andb_true_iff in Hv as [?%negb_true_iff _].
Qed.

Lemma route_walk p : route p -> walk allowed source (length p - 1) destination.
Proof. intros (_ & _ & Hh & Hl & Hc & _). by apply chain_walk. Qed.

(** The path search is exact: it returns a loop-free path from the source to the
    destination over usable links and nodes that is no longer than any other such path,
    and it returns nothing only when there is none. *)
Lemma shortest_path_avoiding_spec :
  match shortest_path_avoiding adj source destination un ue with
  | Some p => route p /\ NoDup p /\ forall p', route p' -> (length p <= length p')%nat
  | None => forall p, ~ route p
  end.
Proof.
  unfold shortest_path_avoiding, contains_key.
  destruct (bt_get source adj) as [ns|] eqn:Es; cbn [negb orb];
    [|intros p ([? ?] & _); congruence].
  destruct (bt_get destination adj) as [nd|] eqn:Ed; cbn [negb orb];
    [|intros p (_ & [? ?] & _); congruence].
  destruct (bs_mem source un) eqn:Us; cbn [orb].
  { intros p (_ & _ & Hh & _ & _ & Hu). destruct p; [done|]. injection Hh as ->.
    apply Forall_cons in Hu as [Hu _]. congruence. }
  destruct (bs_mem destination un) eqn:Ud.
  { intros p (_ & _ & _ & Hl & _ & Hu). apply last_Some in Hl as [p' ->].
    apply Forall_app in Hu as [_ Hu]. apply Forall_cons in Hu as [Hu _]. congruence. }
  case_bool_decide as Hsd.
  { split_and!.
    - unfold route. rewrite Es, Ed. rewrite <- Hsd. split_and!; eauto. repeat constructor.
    - apply NoDup_singleton.
    - intros p' (_ & _ & Hh & _). destruct p'; [done|]. simpl. lia. }
  destruct search_total as [r Hb].
  pose proof (bfs_correct _ _ _ _ Hb) as Hr.
  assert (Hd0 : bt_get destination [(source, (source, O))] = None).
  { cbn [bt_get]. destruct (kcmp destination source) eqn:E; try done. by apply kcmp_eq in E. }
  pose proof (search_loop_spec _ _ _ _ _ r (search_inv_start allowed source) sim_start Hd0 Hsd (sr_wf _ _ _ Hr) Hb)
    as Hl.
  destruct (search_loop adj (search_fuel adj) source destination un ue _) as [[p|]|]; [| |done].
  - destruct Hl as (pd & d & Hg & Hlen & Hh & Hlast & Hc & Hnd & _). simpl. split_and!; [|done|].
    + split_and!; eauto. apply chain_allowed_usable; [done|]. intros s. rewrite Hh. by intros [= <-].
    + intros p' Hp'. apply route_walk in Hp' as Hw.
      pose proof (sr_shortest _ _ _ Hr _ _ _ _ Hg Hw).
      destruct Hp' as (_ & _ & Hh' & _). destruct p'; [done|]. simpl in *. lia.
  - simpl. intros p Hp%route_walk. apply (sr_found _ _ _ Hr) in Hp as [? ?]. congruence.
Qed.

(** The path follows the predecessors of the search. *)
Lemma shortest_path_avoiding_tree p r :
  shortest_path_avoiding adj source destination un ue = Some p -> source <> destination ->
  bfs allowed tracked (search_fuel adj) [(source, (source, O))] [source] = Some r ->
  chain (children r) p.
Proof.
  unfold shortest_path_avoiding. intros Hp Hsd Hb.
  destruct (_ || _ || bs_mem destination un) eqn:E in Hp; [done|]. rewrite bool_decide_false in Hp by done.
  pose proof (bfs_correct _ _ _ _ Hb) as Hr.
  assert (Hd0 : bt_get destination [(source, (source, O))] = None).
  { cbn [bt_get]. destruct (kcmp destination source) eqn:Ek; try done. by apply kcmp_eq in Ek. }
  pose proof (search_loop_spec _ _ _ _ _ r (search_inv_start allowed source) sim_start Hd0 Hsd (sr_wf _ _ _ Hr) Hb)
    as Hl.
  destruct (search_loop adj (search_fuel adj) source destination un ue _) as [[q|]|]; [|done..].
  simpl in Hp. injection Hp as ->. by destruct Hl as (_ & _ & _ & _ & _ & _ & _ & _ & ?).
Qed.

End PathProofs.

(** ** Disjoint paths *)

Definition edges_of (p : list NodeId) : list TopologyEdge :=
  omap (fun '(a, b) => edge_new a b) (windows2 p).

Definition edge_disjoint (p q : list NodeId) : Prop :=
  forall e, e ∈ edges_of p -> e ∈ edges_of q -> False.

(** The two paths share no node but the endpoints of [p]. *)
Definition internally_disjoint (p q : list NodeId) : Prop :=
  forall n, n ∈ internal_nodes p -> n ∉ q.

Lemma path_edges_mem p e : bs_mem e (path_edges p) = true <-> e ∈ edges_of p.
Proof. apply bs_of_list_mem. Qed.

Lemma chain_windows nb p u v : chain nb p -> (u, v) ∈ windows2 p -> v ∈ nb u.
Proof.
  induction p as [|a [|b p] IH]; simpl; [by intros _ ?%not_elem_of_nil..|].
  intros [Hb Hc] [[= -> ->]|Hin]%elem_of_cons; [done|]. auto.
Qed.

Lemma chain_edge_disjoint adj un p q : chain (allowed adj un (path_edges p)) q -> edge_disjoint p q.
Proof.
  intros Hc e He Hq. unfold edges_of in Hq. apply list_elem_of_omap in Hq as ([u v] & Hw & Hn).
  apply (chain_windows _ _ _ _ Hc), allowed_neighbors in Hw as [_ Hu].
  unfold usable_step, edge_is_unavailable in Hu. rewrite Hn in Hu.
  apply andb_true_iff in Hu as [_ Hu%negb_true_iff]. apply path_edges_mem in He. congruence.
Qed.

Lemma bs_insert_all_mem l (s : btset NodeId) n :
  bs_mem n (foldl (fun s n => bs_insert n s) s l) = true <-> n ∈ l \/ bs_mem n s = true.
Proof.
  revert s. induction l as [|x l IH]; intros s; simpl; [rewrite elem_of_nil; tauto|].
  rewrite IH, bs_mem_insert, elem_of_cons. tauto.
Qed.

(** More unavailable nodes and links leave fewer routes. *)
Lemma route_mono adj s d un ue un' ue' p :
  (forall n, bs_mem n un' = true -> bs_mem n un = true) ->
  (forall e, bs_mem e ue' = true -> bs_mem e ue = true) ->
  route adj s d un ue p -> route adj s d un' ue' p.
Proof.
  intros Hn He (H1 & H2 & H3 & H4 & H5 & H6). split_and!; try done.
  - eapply chain_mono; [|done]. intros u v [Hv Hu]%allowed_neighbors.
    unfold allowed. apply list_elem_of_In, filter_In. split; [by apply list_elem_of_In|].
    unfold usable_step, edge_is_unavailable in *. apply andb_true_iff in Hu as [U1 U2].
    rewrite negb_true_iff in U1, U2. rewrite andb_true_iff, !negb_true_iff. split.
    + apply not_true_iff_false. intros ?%Hn. congruence.
    + destruct (edge_new u v) as [e|]; [|done]. apply not_true_iff_false. intros ?%He. congruence.
  - eapply Forall_impl; [done|]. intros n Hf. apply not_true_iff_false. intros ?%Hn. congruence.
Qed.

Lemma route_nodes_avoid adj s d un ue p n : route adj s d un ue p -> bs_mem n un = true -> n ∉ p.
Proof.
  intros (_ & _ & _ & _ & _ & H) Hn Hin. rewrite Forall_forall in H. apply H in Hin. congruence.
Qed.

(** The choice of a secondary path around a given primary path. *)
Lemma secondary_choice adj s d un p :
  let blocked := foldl (fun s n => bs_insert n s) un (internal_nodes p) in
  match shortest_path_avoiding adj s d blocked (path_edges p) with
  | Some q => route adj s d un [] q /\ NoDup q /\ edge_disjoint p q /\ internally_disjoint p q
  | None =>
      match shortest_path_avoiding adj s d un (path_edges p) with
      | Some q => route adj s d un [] q /\ NoDup q /\ edge_disjoint p q
      | None => forall q, ~ (route adj s d un (path_edges p) q)
      end
  end.
Proof.
  intros blocked. pose proof (shortest_path_avoiding_spec adj s d blocked (path_edges p)) as H1.
  destruct (shortest_path_avoiding adj s d blocked (path_edges p)) as [q|].
  - destruct H1 as (Hr & Hnd & _). split_and!; [|done| |].
    + eapply route_mono; [| |done]; [|done]. intros n Hn. apply bs_insert_all_mem. by right.
    + by eapply chain_edge_disjoint, Hr.
    + intros n Hn. eapply route_nodes_avoid; [done|]. apply bs_insert_all_mem. by left.
  - pose proof (shortest_path_avoiding_spec adj s d un (path_edges p)) as H2.
    destruct (shortest_path_avoiding adj s d un (path_edges p)) as [q|]; [|done].
    destruct H2 as (Hr & Hnd & _). split_and!; [|done|by eapply chain_edge_disjoint, Hr].
    by eapply route_mono; [| |done].
Qed.

(** The paths handed out around failed nodes: the primary is a shortest path that avoids
    them; the secondary avoids them too, uses no link of the primary and, when it is
    called vertex disjoint, none of its relays; without a secondary there is no path that
    avoids the primary's links. *)
Theorem paths_avoiding_spec adj s d un :
  match paths_avoiding adj s d un with
  | None => forall p, ~ route adj s d un [] p
  | Some ps =>
      route adj s d un [] (primary ps) /\ NoDup (primary ps) /\
      (forall p, route adj s d un [] p -> (length (primary ps) <= length p)%nat) /\
      match secondary ps with
      | Some sp =>
          route adj s d un [] (nodes sp) /\ NoDup (nodes sp) /\
          edge_disjoint (primary ps) (nodes sp) /\
          (kind sp = VertexDisjoint -> internally_disjoint (primary ps) (nodes sp))
      | None => s = d \/ forall q, ~ route adj s d un (path_edges (primary ps)) q
      end
  end.
Proof.
  unfold paths_avoiding. pose proof (shortest_path_avoiding_spec adj s d un []) as H1.
  destruct (shortest_path_avoiding adj s d un []) as [p|]; [|done].
  destruct H1 as (Hr & Hnd & Hs). case_bool_decide as Hsd; simpl; [by split_and!; auto|].
  split_and!; [done..|]. pose proof (secondary_choice adj s d un p) as Hc. simpl in Hc.
  destruct (shortest_path_avoiding adj s d _ (path_edges p)) as [q|]; simpl; [tauto|].
  destruct (shortest_path_avoiding adj s d un (path_edges p)) as [q|]; simpl.
  - destruct Hc as (? & ? & ?). split_and!; done.
  - by right.
Qed.

(** ** Distances *)

Lemma allowed_all adj u : allowed adj [] [] u = neighbors adj u.
Proof.
  unfold allowed. induction (neighbors adj u) as [|v l IH]; [done|]. simpl.
  unfold usable_step at 1, edge_is_unavailable. destruct (edge_new u v); simpl; by rewrite IH.
Qed.

Lemma distances_total adj s :
  is_Some (bfs (neighbors adj) tracked (search_fuel adj) [(s, (s, O))] [s]).
Proof.
  apply (bfs_total (neighbors adj) s _ (universe adj s)); [by constructor| |].
  - intros n x Hx. constructor. by eapply neighbors_in_universe.
  - unfold universe, search_fuel. simpl. lia.
Qed.

Lemma distances_from_search adj s :
  exists r, distances_from adj s = bt_map (fun v => Z.of_nat v.2) r /\
            search_result (neighbors adj) s r.
Proof.
  destruct (distances_total adj s) as [r Hr]. exists r. split; [|by eapply bfs_correct].
  unfold distances_from. change [(s, 0)] with (bt_map (fun v : NodeId * nat => Z.of_nat v.2) [(s, (s, O))]).
  rewrite (bfs_map (neighbors adj) (fun v => Z.of_nat v.2) tracked (fun _ d => d + 1)), Hr; [done|].
  intros cur [p d]. simpl. lia.
Qed.

(** The distance of two nodes: the length of a shortest walk. *)
Definition distance (adj : adjacency_map) (a b : NodeId) (k : nat) : Prop :=
  walk (neighbors adj) a k b /\ forall k', walk (neighbors adj) a k' b -> (k <= k')%nat.

Lemma distances_from_spec adj s n z :
  bt_get n (distances_from adj s) = Some z <-> exists k, z = Z.of_nat k /\ distance adj s n k.
Proof.
  destruct (distances_from_search adj s) as (r & -> & Hr). rewrite bt_get_map. split.
  - destruct (bt_get n r) as [[p k]|] eqn:E; [|done]. intros [= <-]. exists k. split; [done|].
    split; [by eapply sr_walk|]. intros k' Hk. exact (sr_shortest _ _ _ Hr _ _ _ _ E Hk).
  - intros (k & -> & Hw & Hmin). destruct (sr_found _ _ _ Hr n k Hw) as [[p d] E]. rewrite E.
    simpl. do 2 f_equal. apply (sr_walk _ _ _ Hr) in E as Hd.
    pose proof (sr_shortest _ _ _ Hr _ _ _ _ E Hw). apply Hmin in Hd. lia.
Qed.

Lemma distances_from_wf adj s : bt_wf (distances_from adj s).
Proof.
  destruct (distances_from_search adj s) as (r & -> & Hr). pose proof (sr_wf _ _ _ Hr) as Hwf.
  clear Hr. unfold bt_map. induction r as [|[k v] r IH]; simpl; [constructor|].
  apply bt_wf_cons in Hwf as [Hwf Hall]. apply bt_wf_cons_2; [auto|].
  intros kv ([k' v'] & -> & Hin)%list_elem_of_fmap. by apply Hall in Hin.
Qed.

(** ** Connectivity *)

Definition reaches (adj : adjacency_map) (a b : NodeId) : Prop :=
  exists k, walk (neighbors adj) a k b.

Lemma reaches_refl adj a : reaches adj a a.
Proof. exists O. constructor. Qed.

Lemma reaches_step adj a b c : reaches adj a b -> c ∈ neighbors adj b -> reaches adj a c.
Proof. intros [k Hk] Hc. exists (S k). by econstructor. Qed.

Lemma reaches_trans adj a b c : reaches adj a b -> reaches adj b c -> reaches adj a c.
Proof. intros Hab [k Hk]. induction Hk; [done|]. eapply reaches_step; eauto. Qed.

Lemma reaches_sym adj a b :
  (forall u v, v ∈ neighbors adj u -> u ∈ neighbors adj v) -> reaches adj a b -> reaches adj b a.
Proof.
  intros Hsym [k Hk]. induction Hk as [|k u v Hk IH Hv]; [apply reaches_refl|].
  eapply reaches_trans; [|exact IH]. eapply reaches_step; [apply reaches_refl|]. by apply Hsym.
Qed.

Lemma walk_chain nb s k d :
  walk nb s k d -> exists p, head p = Some s /\ last p = Some d /\ chain nb p.
Proof.
  induction 1 as [|k u v Hk (p & Hh & Hl & Hc) Hv]; [by exists [s]|].
  exists (p ++ [v]). split_and!; [by destruct p|by rewrite last_snoc|].
  apply last_Some in Hl as [p' ->]. rewrite <- app_assoc. by apply chain_snoc.
Qed.

Lemma shortest_path_reaches adj a b :
  is_Some (bt_get a adj) -> is_Some (bt_get b adj) ->
  is_Some (shortest_path adj a b) <-> reaches adj a b.
Proof.
  intros Ha Hb. unfold shortest_path.
  pose proof (shortest_path_avoiding_spec adj a b [] []) as Hs.
  assert (Hch : forall p, chain (allowed adj [] []) p <-> chain (neighbors adj) p).
  { intros p. split; apply chain_mono; intros u v; by rewrite allowed_all. }
  destruct (shortest_path_avoiding adj a b [] []) as [p|].
  - split; [|by eexists]. intros _. destruct Hs as [(_ & _ & Hh & Hl & Hc & _) _].
    eexists. eapply chain_walk; [done..|]. by apply Hch.
  - split; [by intros []|]. intros [k Hk]. destruct (walk_chain _ _ _ _ Hk) as (p & Hh & Hl & Hc).
    destruct (Hs p). split_and!; try done; [by apply Hch|]. by apply Forall_true.
Qed.

(** The maps that the code can build: both levels ordered, links between nodes of the map. *)
Record graph_wf (adj : adjacency_map) : Prop := {
  gw_order : bt_wf adj;
  gw_sets : forall n s, bt_get n adj = Some s -> bt_wf s;
  gw_closed : forall u v, v ∈ neighbors adj u -> is_Some (bt_get v adj)
}.

Lemma reaches_key adj a b : graph_wf adj -> is_Some (bt_get a adj) -> reaches adj a b -> is_Some (bt_get b adj).
Proof. intros Hg Ha [k Hk]. induction Hk; [done|]. by eapply gw_closed. Qed.

(** Counting the reached nodes decides whether all nodes are reached. *)
Lemma all_reached_iff adj s :
  graph_wf adj -> is_Some (bt_get s adj) ->
  lenZ (distances_from adj s) = lenZ adj <->
  forall n, is_Some (bt_get n adj) -> reaches adj s n.
Proof.
  intros Hg Hs. set (ds := distances_from adj s).
  assert (Hin : forall n, n ∈ bt_keys ds <-> reaches adj s n).
  { intros n. split.
    - intros ([k z] & -> & Hk)%list_elem_of_fmap. apply bt_get_elem in Hk; [|apply distances_from_wf].
      apply distances_from_spec in Hk as (k' & _ & Hw & _). by exists k'.
    - intros [k Hk]. destruct (distances_from_search adj s) as (r & Hr & Hres).
      destruct (sr_found _ _ _ Hres n k Hk) as [v Hv].
      assert (Hd : bt_get n ds = Some (Z.of_nat v.2)) by (unfold ds; by rewrite Hr, bt_get_map, Hv).
      apply bt_get_in in Hd. by apply (list_elem_of_fmap_2 fst) in Hd. }
  assert (Hkeys : forall n, n ∈ bt_keys adj <-> is_Some (bt_get n adj))
    by (intros; apply bt_keys_get, Hg).
  assert (Hsub : bt_keys ds ⊆+ bt_keys adj).
  { apply NoDup_submseteq; [apply bt_keys_nodup, distances_from_wf|].
    intros n Hn%Hin. apply Hkeys. by eapply reaches_key. }
  rewrite <- (length_map fst ds), <- (length_map fst adj). fold (bt_keys ds) (bt_keys adj). split.
  - intros Hl n Hn%Hkeys. apply Hin.
    rewrite (submseteq_length_Permutation _ _ Hsub) by lia. done.
  - intros Hall. apply submseteq_length in Hsub as Hle.
    assert (Hsup : bt_keys adj ⊆+ bt_keys ds).
    { apply NoDup_submseteq; [apply bt_keys_nodup, Hg|]. intros n Hn%Hkeys. by apply Hin, Hall. }
    apply submseteq_length in Hsup. lia.
Qed.

Definition pairwise_connected (adj : adjacency_map) : Prop :=
  forall a b, is_Some (bt_get a adj) -> is_Some (bt_get b adj) -> is_Some (shortest_path adj a b).

Lemma connected_iff adj :
  graph_wf adj -> (forall u v, v ∈ neighbors adj u -> u ∈ neighbors adj v) ->
  graph_is_connected adj = true <-> pairwise_connected adj.
Proof.
  intros Hg Hsym. unfold graph_is_connected. destruct adj as [|[s ns] rest] eqn:Eadj.
  { split; [|done]. intros _ a b [? ?]. done. }
  rewrite <- Eadj in *. assert (Hs : is_Some (bt_get s adj)).
  { exists ns. apply bt_get_elem; [apply Hg|]. rewrite Eadj. by constructor. }
  rewrite Z.eqb_eq, all_reached_iff by done. split.
  - intros Hall a b Ha Hb. apply shortest_path_reaches; [done..|].
    eapply reaches_trans; [|by apply Hall]. apply reaches_sym; [done|]. by apply Hall.
  - intros Hp n Hn. by apply shortest_path_reaches, Hp.
Qed.

(** ** The recorded invariants *)

(** Both levels of the map ordered, as the standard maps and sets keep them. *)
Definition ordered (adj : adjacency_map) : Prop :=
  bt_wf adj /\ forall n s, bt_get n adj = Some s -> bt_wf s.

Lemma neighbors_mem adj a b :
  ordered adj -> b ∈ neighbors adj a <-> exists s, bt_get a adj = Some s /\ bs_mem b s = true.
Proof.
  intros [_ Hsets]. unfold neighbors. destruct (bt_get a adj) as [s|] eqn:E.
  - rewrite <- bs_mem_keys by by eapply Hsets. split; [eauto|]. by intros (? & [= <-] & ?).
  - split; [by intros ?%not_elem_of_nil|by intros (? & ? & _)].
Qed.

Lemma ordered_insert adj n s : ordered adj -> bt_wf s -> ordered (bt_insert n s adj).
Proof.
  intros [Hwf Hsets] Hs. split; [by apply bt_wf_insert|]. intros n' s'.
  destruct (decide (n = n')) as [<-|Hne].
  - rewrite bt_get_insert. by intros [= <-].
  - rewrite bt_get_insert_ne by done. apply Hsets.
Qed.

Lemma add_undirected_edge_ordered adj a b : ordered adj -> ordered (add_undirected_edge adj a b).
Proof.
  assert (Hstep : forall adj a b, ordered adj ->
    ordered (match bt_get a adj with
             | Some s => bt_insert a (bs_insert b s) adj | None => adj end)).
  { intros adj' x y Ho. destruct (bt_get x adj') as [s|] eqn:E; [|done].
    apply ordered_insert; [done|]. apply bt_wf_insert. by eapply Ho. }
  intros Ho. unfold add_undirected_edge. case_bool_decide; [done|]. by do 2 apply Hstep.
Qed.

Lemma no_self_loops_iff adj :
  ordered adj ->
  forallb (fun '(n, ns) => negb (bs_mem n ns)) adj = true <-> forall a, a ∉ neighbors adj a.
Proof.
  intros Ho. pose proof Ho as [Hwf _]. rewrite forallb_Forall, Forall_forall. split.
  - intros Hall a (s & Hs & Hm)%neighbors_mem; [|done]. apply bt_get_in in Hs.
    apply Hall in Hs. simpl in Hs. by rewrite Hm in Hs.
  - intros Hno [n s] Hin%bt_get_elem; [|done]. rewrite negb_true_iff. apply not_true_iff_false.
    intros Hm. apply (Hno n), neighbors_mem; eauto.
Qed.

Lemma symmetric_iff adj :
  ordered adj ->
  forallb (fun '(n, ns) =>
    forallb (fun k => match bt_get k adj with
                      | Some reverse => bs_mem n reverse | None => false end)
      (bt_keys ns)) adj = true <->
  forall a b, b ∈ neighbors adj a -> a ∈ neighbors adj b.
Proof.
  intros Ho. pose proof Ho as [Hwf _]. rewrite forallb_Forall, Forall_forall. split.
  - intros Hall a b. unfold neighbors at 1. destruct (bt_get a adj) as [s|] eqn:Ea;
      [|by intros ?%not_elem_of_nil].
    apply bt_get_in in Ea. specialize (Hall _ Ea). simpl in Hall. rewrite forallb_Forall in Hall.
    intros Hb. rewrite Forall_forall in Hall. specialize (Hall b Hb).
    apply neighbors_mem; [done|]. destruct (bt_get b adj); [eauto|done].
  - intros Hsym [n s] Hin%bt_get_elem; [|done]. rewrite forallb_Forall, Forall_forall.
    intros k Hk. assert (Hn : k ∈ neighbors adj n) by (unfold neighbors; by rewrite Hin).
    apply Hsym, neighbors_mem in Hn as (r & -> & Hr); done.
Qed.

Lemma foldl_max_le l z bound :
  foldl Z.max z l <= bound <-> z <= bound /\ Forall (fun x => x <= bound) l.
Proof.
  revert z. induction l as [|x l IH]; intros z; simpl; [rewrite Forall_nil; tauto|].
  rewrite IH, Forall_cons, Z.max_lub_iff. tauto.
Qed.

Lemma degree_bound_iff adj bound :
  bt_wf adj -> 0 <= bound ->
  foldl Z.max 0 (map (fun ns : btset NodeId => lenZ ns) (bt_values adj)) <= bound <->
  forall a, lenZ (neighbors adj a) <= bound.
Proof.
  intros Hwf Hb. rewrite foldl_max_le, Forall_map. unfold bt_values. rewrite Forall_map, Forall_forall.
  split.
  - intros [_ Hall] a. unfold neighbors. destruct (bt_get a adj) as [s|] eqn:E; [|simpl; lia].
    apply bt_get_in, Hall in E. simpl in E. unfold bt_keys. by rewrite length_map.
  - intros Hall. split; [done|]. intros [n s] Hin%bt_get_elem; [|done]. simpl.
    specialize (Hall n). unfold neighbors in Hall. rewrite Hin in Hall. unfold bt_keys in Hall.
    by rewrite length_map in Hall.
Qed.

(** The invariants that topology synthesis requires before it publishes a graph are
    satisfied exactly when links are symmetric, no node links to itself, no node has more
    neighbors than the configured maximum, and every two nodes have a path between
    them. *)
Lemma inspect_invariants_iff adj max_degree :
  ordered adj -> 0 <= max_degree ->
  are_satisfied (inspect_invariants adj max_degree) = true <->
  (forall a b, b ∈ neighbors adj a -> a ∈ neighbors adj b) /\
  (forall a, a ∉ neighbors adj a) /\
  (forall a, lenZ (neighbors adj a) <= max_degree) /\
  pairwise_connected adj.
Proof.
  intros Ho Hb. pose proof Ho as [Hwf Hsets]. unfold are_satisfied, inspect_invariants. cbn [connected symmetric
    no_self_loops within_degree_bound max_observed_degree].
  rewrite !andb_true_iff, symmetric_iff, no_self_loops_iff, Z.leb_le, degree_bound_iff by done.
  assert (Hcon : (forall a b, b ∈ neighbors adj a -> a ∈ neighbors adj b) ->
                 graph_is_connected adj = true <-> pairwise_connected adj).
  { intros Hsym. apply connected_iff; [|done]. split; [done|done|]. intros u v Hv.
    apply Hsym, neighbors_mem in Hv as (s & -> & _); [by eexists|done]. }
  split; intros H; (split_and!; try tauto); apply Hcon; tauto.
Qed.

(** ** The diameter *)

Lemma farther_in best rest : foldl farther best rest ∈ best :: rest.
Proof.
  revert best. induction rest as [|x rest IH]; intros best; simpl; [by constructor|].
  specialize (IH (farther best x)). rewrite elem_of_cons in *. rewrite elem_of_cons.
  unfold farther in *. destruct (kcmp (best.2, best.1) (x.2, x.1)); tauto.
Qed.

Lemma farthest_distance adj s n z :
  farthest (distances_from adj s) = Some (n, z) ->
  exists k, z = Z.of_nat k /\ distance adj s n k.
Proof.
  pose proof (distances_from_wf adj s) as Hwf. intros Hf. apply distances_from_spec.
  apply bt_get_elem; [done|]. unfold farthest in Hf.
  destruct (distances_from adj s) as [|x rest]; [done|]. injection Hf as Hf.
  rewrite <- Hf. apply farther_in.
Qed.

Lemma diameter_sweeps_distance adj sweeps s lb bound :
  (exists a b k, lb = Z.of_nat k /\ distance adj a b k) ->
  diameter_sweeps adj sweeps s lb = Some bound ->
  exists a b k, bound = Z.of_nat k /\ distance adj a b k.
Proof.
  revert s lb. induction sweeps as [|sweeps IH]; intros s lb Hlb; simpl; [by intros [= <-]|].
  destruct (negb _); [done|]. destruct (farthest (distances_from adj s)) as [[n z]|] eqn:Ef; [|done].
  destruct (z <=? lb); [by intros [= <-]|]. intros Hd. eapply IH; [|exact Hd].
  apply farthest_distance in Ef as (k & -> & Hk). eauto.
Qed.

(** The reported lower bound of the diameter is the distance of two nodes of the
    graph, so no routing that reaches every node can use fewer hops in the worst case. *)
Theorem diameter_lower_bound_attained adj bound :
  calculate_diameter_lower_bound adj = Some bound ->
  exists a b k, bound = Z.of_nat k /\ distance adj a b k.
Proof.
  unfold calculate_diameter_lower_bound. destruct adj as [|[s ns] rest] eqn:E; [done|].
  rewrite <- E. intros Hd. eapply diameter_sweeps_distance; [|exact Hd].
  exists s, s, O. split; [done|]. split; [constructor|]. lia.
Qed.

(** ** A sample backbone *)

(** Four nodes in a cycle, built as the synthesis builds leaf cycles. *)
Definition sample_nodes : list NodeId := [[x61]; [x62]; [x63]; [x64]].

Definition sample_graph : adjacency_map :=
  foldl (fun adj '(a, b) => add_undirected_edge adj a b)
    (foldl (fun m n => bt_insert n [] m) [] sample_nodes)
    [([x61], [x62]); ([x62], [x63]); ([x63], [x64]); ([x64], [x61])].

Lemma sample_graph_ordered : ordered sample_graph.
Proof.
  do 4 apply add_undirected_edge_ordered. do 4 (apply ordered_insert; [|constructor]).
  split; [constructor|done].
Qed.

Lemma diameter_lower_bound_attained_witness :
  exists a b k, 2 = Z.of_nat k /\ distance sample_graph a b k.
Proof. apply diameter_lower_bound_attained. vm_compute. reflexivity. Defined.

End TopologyGraph.
