(* ===== verification/Articulation.v ===== *)
(** * Surviving one failed node (crates/ipars-control-plane/src/bounded_topology.rs)

    The depth-first search [articulation_dfs] that synthesis runs before it publishes a
    backbone, and the theorem that its low-link test decides what it is for: after the
    failure of any single node the remaining nodes still reach each other. *)

From S2P Require Import Prelude RustStd BTree Bfs TopologyGraph.

Module Articulation.
Import TopologyGraph.

(** ** The search *)

Record dfs_state : Type := {
  discovery : btree NodeId Z;
  low : btree NodeId Z;
  time : Z
}.

(** [if let Some(node_low) = low.get_mut(node) { *node_low = min(...) }] *)
Definition lower (node : NodeId) (v : Z) (st : dfs_state) : dfs_state :=
  match bt_get node (low st) with
  | Some l => {| discovery := discovery st; low := bt_insert node (Z.min l v) (low st);
                 time := time st |}
  | None => st
  end.

Definition discover_node (node : NodeId) (st : dfs_state) : dfs_state :=
  {| discovery := bt_insert node (time st) (discovery st);
     low := bt_insert node (time st) (low st); time := time st + 1 |}.

(** The loop over the neighbors; [rec] is the recursive call. *)
Fixpoint visit_neighbors
    (rec : NodeId -> option NodeId -> dfs_state -> option (bool * dfs_state))
    (node : NodeId) (parent : option NodeId) (discovered_at : Z) (ns : list NodeId)
    (child_count : Z) (st : dfs_state) : option (bool * dfs_state) :=
  match ns with
  | [] => Some (bool_decide (parent = None) && (1 <? child_count), st)
  | neighbor :: ns =>
      if bool_decide (parent = Some neighbor)
      then visit_neighbors rec node parent discovered_at ns child_count st
      else match bt_get neighbor (discovery st) with
      | Some neighbor_discovery =>
          visit_neighbors rec node parent discovered_at ns child_count
            (lower node neighbor_discovery st)
      | None =>
          match rec neighbor (Some node) st with
          | None => None
          | Some (true, st) => Some (true, st)
          | Some (false, st) =>
              let neighbor_low := default discovered_at (bt_get neighbor (low st)) in
              if negb (bool_decide (parent = None)) && (discovered_at <=? neighbor_low)
              then Some (true, st)
              else visit_neighbors rec node parent discovered_at ns (child_count + 1)
                     (lower node neighbor_low st)
          end
      end
  end.

(** [None] when the fuel runs out. *)
Fixpoint articulation_dfs (fuel : nat) (adj : adjacency_map) (node : NodeId)
    (parent : option NodeId) (st : dfs_state) : option (bool * dfs_state) :=
  match fuel with
  | O => None
  | S fuel =>
      let discovered_at := time st in
      let st := discover_node node st in
      match bt_get node adj with
      | None => Some (false, st)
      | Some ns =>
          visit_neighbors (articulation_dfs fuel adj) node parent discovered_at (bt_keys ns) 0 st
      end
  end.

(** A nested call enters a node that was not discovered, so the depth is bounded by the
    number of nodes. *)
Definition graph_has_no_articulation_points (adj : adjacency_map) : option bool :=
  if lenZ adj <=? 2 then Some true
  else match adj with
  | [] => Some true
  | (root, _) :: _ =>
      match articulation_dfs (S (length adj)) adj root None
              {| discovery := []; low := []; time := 0 |} with
      | None => None
      | Some (true, _) => Some false
      | Some (false, st) => Some (lenZ (discovery st) =? lenZ adj)
      end
  end.

(** The reference that the unit tests compare with: fail each node in turn. *)
Definition distances_from_avoiding (adj : adjacency_map) (source unavailable : NodeId)
  : btree NodeId Z :=
  if bool_decide (source = unavailable) || negb (contains_key source adj) then []
  else default [] (bfs (fun n => List.filter (fun k => negb (bool_decide (k = unavailable))) (neighbors adj n))
                     (fun _ d => d + 1) (search_fuel adj) [(source, 0)] [source]).

Definition graph_survives_any_single_node_failure (adj : adjacency_map) : bool :=
  if lenZ adj <=? 2 then true
  else forallb (fun failed =>
         match List.find (fun n => negb (bool_decide (n = failed))) (bt_keys adj) with
         | None => true
         | Some start => lenZ (distances_from_avoiding adj start failed) =? lenZ adj - 1
         end) (bt_keys adj).

(** ** Cuts *)

Section Search.
  Variable adj : adjacency_map.
  Hypothesis adj_sym : forall u v, v ∈ neighbors adj u -> u ∈ neighbors adj v.

Abbreviation nodeset := (NodeId -> Prop).

Lemma adj_closed u v : v ∈ neighbors adj u -> is_Some (bt_get v adj).
Proof.
  intros Hu%adj_sym. unfold neighbors in Hu. destruct (bt_get v adj); [by eexists|].
  by apply not_elem_of_nil in Hu.
Qed.

(** A path from [a] to [b] inside [X]. *)
Inductive conn (X : nodeset) (a : NodeId) : NodeId -> Prop :=
| conn_refl : X a -> conn X a a
| conn_step b c : conn X a b -> c ∈ neighbors adj b -> X c -> conn X a c.

Lemma conn_ends X a b : conn X a b -> X a /\ X b.
Proof. induction 1; tauto. Qed.

Lemma conn_mono (X Y : nodeset) a b : (forall n, X n -> Y n) -> conn X a b -> conn Y a b.
Proof. intros HXY. induction 1; [apply conn_refl|eapply conn_step]; eauto. Qed.

Lemma conn_trans X a b c : conn X a b -> conn X b c -> conn X a c.
Proof. intros Hab. induction 1; [done|]. eapply conn_step; eauto. Qed.

Lemma conn_sym X a b : conn X a b -> conn X b a.
Proof.
  induction 1 as [|b c Hb IH Hc HX]; [by apply conn_refl|].
  eapply conn_trans; [|exact IH]. eapply conn_step; [by apply conn_refl|by apply adj_sym|exact (proj2 (conn_ends _ _ _ Hb))].
Qed.

(** [X] is a side of [v]: every link out of it ends in [v]. *)
Definition side (v : NodeId) (X : nodeset) : Prop :=
  ~ X v /\ forall u w, X u -> w ∈ neighbors adj u -> X w \/ w = v.

(** Without [v], the node [x] does not reach [y]. *)
Definition cut (v : NodeId) : Prop :=
  exists X x y, side v X /\ X x /\ ~ X y /\ y <> v /\
    is_Some (bt_get x adj) /\ is_Some (bt_get y adj).

Lemma conn_key X a b : is_Some (bt_get a adj) -> conn X a b -> is_Some (bt_get b adj).
Proof. intros Ha. destruct 1 as [|b c Hb Hc HX]; [done|]. by eapply adj_closed. Qed.

(** ** What a call has established *)

Definition known (st : dfs_state) (x : NodeId) : Prop := is_Some (bt_get x (discovery st)).

(** Discovered between two states. *)
Definition fresh (st0 st : dfs_state) (x : NodeId) : Prop :=
  bt_get x (discovery st0) = None /\ known st x.

Definition without (X : nodeset) (v : NodeId) : nodeset := fun n => X n /\ n <> v.

Record state_ok (st : dfs_state) : Prop := {
  so_wf : bt_wf (discovery st);
  so_time : forall x d, bt_get x (discovery st) = Some d -> d < time st;
  so_low : forall x, known st x -> is_Some (bt_get x (low st))
}.

Record extends (st0 st : dfs_state) : Prop := {
  ex_disc : forall x d, bt_get x (discovery st0) = Some d -> bt_get x (discovery st) = Some d;
  ex_low : forall x, known st0 x -> bt_get x (low st) = bt_get x (low st0);
  ex_time : time st0 < time st;
  ex_fresh : forall x d, bt_get x (discovery st0) = None ->
    bt_get x (discovery st) = Some d -> time st0 <= d
}.

Record call_ok (n : NodeId) (parent : option NodeId) (st0 : dfs_state) : Prop := {
  co_state : state_ok st0;
  co_new : bt_get n (discovery st0) = None;
  co_key : is_Some (bt_get n adj);
  co_parent : match parent with
              | Some p => known st0 p /\ n ∈ neighbors adj p
              | None => forall x, bt_get x (discovery st0) = None
              end
}.

(** The value [l] of the low link: the discovery time of some node linked to the subtree
    other than by the link to the parent, and the least of those outside the subtree. *)
Definition low_link (n : NodeId) (parent : option NodeId) (st0 st : dfs_state)
    (seen : list NodeId) (l : Z) : Prop :=
  l <= time st0 /\
  (l = time st0 \/
   exists u w, fresh st0 st u /\ w ∈ neighbors adj u /\ bt_get w (discovery st) = Some l) /\
  (forall u w d, fresh st0 st u -> w ∈ neighbors adj u -> (u = n -> w ∈ seen) ->
     bt_get w (discovery st0) = Some d -> parent = Some w \/ l <= d).

(** The call on [n] has handled the neighbors [seen] and entered [cc] children. *)
Record shape (n : NodeId) (parent : option NodeId) (st0 st : dfs_state)
    (seen : list NodeId) (cc : Z) : Prop := {
  pr_ok : state_ok st;
  pr_ext : extends st0 st;
  pr_at : bt_get n (discovery st) = Some (time st0);
  pr_conn : forall x, fresh st0 st x -> conn (fresh st0 st) n x;
  pr_closed : forall u w, fresh st0 st u -> w ∈ neighbors adj u -> (u = n -> w ∈ seen) -> known st w;
  pr_removal : forall v x, fresh st0 st v -> fresh st0 st x -> x <> v ->
    (v = n -> parent <> None) ->
    (v <> n /\ conn (without (fresh st0 st) v) x n) \/
    exists u w, conn (without (fresh st0 st) v) x u /\ w ∈ neighbors adj u /\ known st0 w;
  pr_children : parent = None ->
    (cc = 0 /\ forall x, fresh st0 st x -> x = n) \/
    (cc = 1 /\ exists c, without (fresh st0 st) n c /\
       forall x, without (fresh st0 st) n x -> conn (without (fresh st0 st) n) c x) \/
    (1 < cc /\ cut n)
}.

Definition progress (n : NodeId) (parent : option NodeId) (st0 st : dfs_state)
    (seen : list NodeId) (cc : Z) : Prop :=
  shape n parent st0 st seen cc /\
  exists l, bt_get n (low st) = Some l /\ low_link n parent st0 st seen l.

Lemma known_ext st0 st x : extends st0 st -> known st0 x -> known st x.
Proof. intros He [d Hd]. eexists. by eapply ex_disc. Qed.

Lemma known_cases st0 st x : known st x -> known st0 x \/ fresh st0 st x.
Proof. unfold fresh, known. destruct (bt_get x (discovery st0)); eauto. Qed.

Lemma known_fresh st0 st x : known st0 x -> ~ fresh st0 st x.
Proof. intros [d Hd] [Hn _]. congruence. Qed.

(** *** Entering the node *)

Lemma discover_ok n st0 : state_ok st0 -> state_ok (discover_node n st0).
Proof.
  intros [Hwf Ht Hl]. split; simpl.
  - by apply bt_wf_insert.
  - intros x d. destruct (decide (n = x)) as [<-|Hne].
    + rewrite bt_get_insert. intros [= <-]. lia.
    + rewrite bt_get_insert_ne by done. intros Hd%Ht. lia.
  - intros x. unfold known. simpl. destruct (decide (n = x)) as [<-|Hne].
    + rewrite !bt_get_insert. by eexists.
    + rewrite !bt_get_insert_ne by done. apply Hl.
Qed.

Lemma discover_fresh n st0 x :
  bt_get n (discovery st0) = None -> fresh st0 (discover_node n st0) x <-> x = n.
Proof.
  intros Hn. unfold fresh, known. simpl. destruct (decide (n = x)) as [<-|Hne].
  - rewrite bt_get_insert. split; [done|]. intros _. split; [done|by eexists].
  - rewrite bt_get_insert_ne by done. split; [|congruence]. intros [E [d Hd]]. congruence.
Qed.

Lemma discover_extends n st0 :
  bt_get n (discovery st0) = None -> extends st0 (discover_node n st0).
Proof.
  intros Hn. split; simpl; [| |lia|].
  - intros x d Hd. rewrite bt_get_insert_ne; [done|congruence].
  - intros x [d Hd]. rewrite bt_get_insert_ne; [done|congruence].
  - intros x d. destruct (decide (n = x)) as [<-|Hne].
    + rewrite bt_get_insert. intros _ [= <-]. lia.
    + rewrite bt_get_insert_ne by done. congruence.
Qed.

Lemma progress_start n parent st0 :
  call_ok n parent st0 -> progress n parent st0 (discover_node n st0) [] 0.
Proof.
  intros [Hs Hn Hk Hp]. assert (Hf : forall x, fresh st0 (discover_node n st0) x <-> x = n)
    by (intros; by apply discover_fresh).
  split; [split; [by apply discover_ok|by apply discover_extends|simpl; by rewrite bt_get_insert| | | |]|].
  - intros x ->%Hf. apply conn_refl. by apply Hf.
  - intros u w ->%Hf _ Hw. by destruct (not_elem_of_nil w (Hw eq_refl)).
  - intros v x ->%Hf ->%Hf. congruence.
  - intros _. left. split; [done|]. by intros x ->%Hf.
  - exists (time st0). simpl. rewrite bt_get_insert. split; [done|]. split_and!; [lia|by left|].
    intros u w d ->%Hf _ Hw. by destruct (not_elem_of_nil w (Hw eq_refl)).
Qed.

(** *** Handling a neighbor that was discovered before *)

Lemma shape_seen n parent st0 st seen cc w :
  shape n parent st0 st seen cc -> known st w -> shape n parent st0 st (w :: seen) cc.
Proof.
  intros Hs Hw. destruct Hs as [H1 H2 H3 H4 H5 H6 H7]. split; try done.
  intros u x Hu Hx Hseen. destruct (decide (x = w)) as [->|Hne]; [done|].
  eapply H5; [done..|]. intros ->. specialize (Hseen eq_refl).
  by apply elem_of_cons in Hseen as [?|?].
Qed.

Lemma fresh_root n parent st0 st seen cc :
  call_ok n parent st0 -> shape n parent st0 st seen cc -> fresh st0 st n.
Proof. intros Hc Hs. split; [apply Hc|]. eexists. by eapply pr_at. Qed.

Lemma lower_eq n v st l :
  bt_get n (low st) = Some l ->
  lower n v st = {| discovery := discovery st; low := bt_insert n (Z.min l v) (low st);
                    time := time st |}.
Proof. unfold lower. by intros ->. Qed.

Lemma shape_lower n parent st0 st seen cc v :
  call_ok n parent st0 -> shape n parent st0 st seen cc ->
  shape n parent st0 (lower n v st) seen cc.
Proof.
  intros Hc Hs. unfold lower. destruct (bt_get n (low st)) as [l|] eqn:El; [|done].
  destruct Hs as [[W T L] [E1 E2 E3 E4] H3 H4 H5 H6 H7]. split; try done.
  - split; simpl; [done..|]. intros x Hx. destruct (decide (n = x)) as [<-|Hne].
    + rewrite bt_get_insert. by eexists.
    + rewrite bt_get_insert_ne by done. by apply L.
  - split; simpl; [done| |done..]. intros x Hx. rewrite bt_get_insert_ne; [by apply E2|].
    intros <-. destruct Hx as [d Hd]. rewrite (co_new _ _ _ Hc) in Hd. done.
Qed.

Lemma progress_parent n p st0 st seen cc :
  call_ok n (Some p) st0 -> progress n (Some p) st0 st seen cc ->
  progress n (Some p) st0 st (p :: seen) cc.
Proof.
  intros Hc [Hs (l & Hl & L1 & L2 & L3)]. split.
  - apply shape_seen; [done|]. eapply known_ext; [apply Hs|]. apply Hc.
  - exists l. split; [done|]. split_and!; [done..|]. intros u w d Hu Hw Hseen Hd.
    destruct (decide (w = p)) as [->|Hne]; [by left|]. eapply L3; [done..| |done].
    intros ->. specialize (Hseen eq_refl). by apply elem_of_cons in Hseen as [?|?].
Qed.

Lemma progress_known n parent st0 st seen cc w d :
  call_ok n parent st0 -> progress n parent st0 st seen cc ->
  w ∈ neighbors adj n -> bt_get w (discovery st) = Some d ->
  progress n parent st0 (lower n d st) (w :: seen) cc.
Proof.
  intros Hc [Hs (l & Hl & L1 & L2 & L3)] Hw Hd. split.
  { apply shape_lower; [done|]. apply shape_seen; [done|]. by eexists. }
  rewrite (lower_eq _ _ _ _ Hl). simpl. exists (Z.min l d). rewrite bt_get_insert.
  split; [done|]. split_and!; [lia| |].
  - destruct (Z.min_spec l d) as [[_ ->]|[_ ->]]; [done|]. right. exists n, w.
    split; [exact (fresh_root _ _ _ _ _ _ Hc Hs)|done].
  - intros u x d' Hu Hx Hseen Hd'. destruct (decide (x = w)) as [->|Hne].
    + right. eapply ex_disc in Hd'; [|apply Hs]. rewrite Hd in Hd'. injection Hd' as ->. lia.
    + destruct (L3 u x d') as [?|?]; [done..| |done|by left|right; lia].
      intros ->. specialize (Hseen eq_refl). by apply elem_of_cons in Hseen as [?|?].
Qed.

(** *** Returning from a child *)

Section Child.
  Variables (n c : NodeId) (parent : option NodeId) (st0 st1 st2 : dfs_state).
  Variables (seen : list NodeId) (cc cc' : Z).
  Hypothesis Hcall : call_ok n parent st0.
  Hypothesis Hn : shape n parent st0 st1 seen cc.
  Hypothesis Hedge : c ∈ neighbors adj n.
  Hypothesis Hnew : bt_get c (discovery st1) = None.
  Hypothesis Hchild : shape c (Some n) st1 st2 (neighbors adj c) cc'.

Lemma child_call : call_ok c (Some n) st1.
Proof.
  split; [apply Hn|done|by eapply adj_closed|]. split; [|done]. eexists. by eapply pr_at.
Qed.

Lemma child_fresh x : fresh st0 st2 x <-> fresh st0 st1 x \/ fresh st1 st2 x.
Proof.
  split.
  - intros [H0 H2]. destruct (known_cases st1 _ _ H2); [left|by right]. done.
  - intros [[H0 H1]|[H1 H2]].
    + split; [done|]. eapply known_ext; [apply Hchild|done].
    + split; [|done]. destruct (bt_get x (discovery st0)) as [d|] eqn:E; [|done].
      eapply ex_disc in E; [|apply Hn]. congruence.
Qed.

Lemma child_disjoint x : fresh st0 st1 x -> ~ fresh st1 st2 x.
Proof. intros [_ Hx]. by apply known_fresh. Qed.

Lemma child_conn x : fresh st1 st2 x -> conn (fresh st1 st2) c x.
Proof. apply Hchild. Qed.

Lemma root_fresh : fresh st0 st1 n.
Proof. by eapply fresh_root. Qed.

Lemma child_root_fresh : fresh st1 st2 c.
Proof. eapply fresh_root; [apply child_call|done]. Qed.

Lemma child_not_root : c <> n.
Proof.
  intros E. eapply child_disjoint; [apply root_fresh|]. rewrite <- E. apply child_root_fresh.
Qed.

(** Links between the child's subtree and what the call on [n] found before it end in
    [n]. *)
Lemma child_side u w :
  fresh st1 st2 u -> w ∈ neighbors adj u -> fresh st0 st1 w -> w = n.
Proof.
  intros Hu Hw Hf. destruct (decide (w = n)) as [E|Hne]; [done|]. exfalso.
  eapply known_fresh; [|exact Hu]. eapply (pr_closed _ _ _ _ _ _ Hn); [done|by apply adj_sym|].
  done.
Qed.

Lemma child_extends : extends st0 st2.
Proof.
  destruct (pr_ext _ _ _ _ _ _ Hn) as [A1 A2 A3 A4], (pr_ext _ _ _ _ _ _ Hchild) as [B1 B2 B3 B4].
  split; [auto| |lia|].
  - intros x Hx. rewrite B2; [by apply A2|]. eapply known_ext; [apply Hn|done].
  - intros x d Hx Hd. destruct (bt_get x (discovery st1)) as [d1|] eqn:E.
    + apply B1 in E as E'. rewrite Hd in E'. injection E' as ->. by eapply A4.
    + pose proof (B4 x d E Hd). lia.
Qed.

Lemma conn_through X x :
  (forall y, fresh st1 st2 y -> X y) -> X n -> fresh st1 st2 x -> conn X x n.
Proof.
  intros HX Xn Hx. apply (conn_step X x c); [|by apply adj_sym|done].
  apply conn_sym. eapply conn_mono; [exact HX|]. by apply child_conn.
Qed.

Lemma without_old v y : without (fresh st0 st1) v y -> without (fresh st0 st2) v y.
Proof. intros [Hy ?]. split; [by apply child_fresh; left|done]. Qed.

Lemma without_child v y : without (fresh st1 st2) v y -> without (fresh st0 st2) v y.
Proof. intros [Hy ?]. split; [by apply child_fresh; right|done]. Qed.

(** Without a node of the child's subtree, the rest of what [n] found still reaches [n]. *)
Lemma old_reaches v y :
  fresh st1 st2 v -> fresh st0 st1 y -> conn (without (fresh st0 st2) v) y n.
Proof.
  intros Hv Hy. apply conn_sym.
  apply (conn_mono (fresh st0 st1)); [|by apply (pr_conn _ _ _ _ _ _ Hn)].
  intros z Hz. apply without_old. split; [done|]. intros ->. by eapply child_disjoint.
Qed.

(** Without a node found before, the child's subtree reaches [n], or what [n] came from. *)
Lemma child_reaches v x :
  (parent <> None -> exists u w d, fresh st1 st2 u /\ w ∈ neighbors adj u /\
     bt_get w (discovery st2) = Some d /\ d < time st0) ->
  fresh st0 st1 v -> fresh st1 st2 x -> (v = n -> parent <> None) ->
  (v <> n /\ conn (without (fresh st0 st2) v) x n) \/
  exists u w, conn (without (fresh st0 st2) v) x u /\ w ∈ neighbors adj u /\ known st0 w.
Proof.
  intros Hesc Hv Hx Hroot.
  assert (HC : forall y, fresh st1 st2 y -> without (fresh st0 st2) v y).
  { intros y Hy. split; [by apply child_fresh; right|]. intros ->. by eapply child_disjoint. }
  destruct (decide (v = n)) as [Evn|Hvn].
  - right. destruct Hesc as (u & w & d & Hu & Hw & Hd & Hlt); [auto|]. exists u, w. split_and!.
    + eapply conn_mono; [exact HC|]. eapply conn_trans; [apply conn_sym|]; by apply child_conn.
    + done.
    + unfold known. destruct (bt_get w (discovery st0)) as [d'|] eqn:E; [by eexists|].
      pose proof (ex_fresh _ _ child_extends w d E Hd). lia.
  - left. split; [done|]. apply conn_through; [done| |done].
    apply without_old. split; [apply root_fresh|auto].
Qed.

(** The call on [n] is done unless the child only reaches [n]. *)
Lemma child_removal :
  (parent <> None -> exists u w d, fresh st1 st2 u /\ w ∈ neighbors adj u /\
     bt_get w (discovery st2) = Some d /\ d < time st0) ->
  forall v x, fresh st0 st2 v -> fresh st0 st2 x -> x <> v -> (v = n -> parent <> None) ->
    (v <> n /\ conn (without (fresh st0 st2) v) x n) \/
    exists u w, conn (without (fresh st0 st2) v) x u /\ w ∈ neighbors adj u /\ known st0 w.
Proof.
  intros Hesc v x Hv Hx Hne Hroot.
  apply child_fresh in Hv as [Hv|Hv].
  - apply child_fresh in Hx as [Hx|Hx]; [|by apply child_reaches].
    destruct (pr_removal _ _ _ _ _ _ Hn v x) as [[? Hc]|(u & w & Hc & Hw & Hk)]; try done.
    + left. split; [done|]. eapply conn_mono; [apply without_old|done].
    + right. exists u, w. split; [eapply conn_mono; [apply without_old|done]|done].
  - assert (Hvn : v <> n)
      by (intros E; eapply child_disjoint; [apply root_fresh|by rewrite <- E]).
    apply child_fresh in Hx as [Hx|Hx]; [left; split; [done|by apply old_reaches]|].
    destruct (pr_removal _ _ _ _ _ _ Hchild v x) as [[? Hc]|(u & w & Hc & Hw & Hk)]; try done.
    + left. split; [done|]. eapply conn_step;
        [eapply conn_mono; [apply without_child|exact Hc]|by apply adj_sym|].
      apply without_old. split; [apply root_fresh|done].
    + destruct (known_cases st0 st1 w Hk) as [Hk0|Hf].
      * right. exists u, w. split; [eapply conn_mono; [apply without_child|done]|done].
      * left. split; [done|]. eapply conn_trans; [|by apply old_reaches].
        eapply conn_step; [eapply conn_mono; [apply without_child|exact Hc]|done|].
        apply (proj1 (conn_ends _ _ _ (old_reaches _ _ Hv Hf))).
Qed.

Lemma child_cut y :
  (forall w, known st2 w -> (exists u, fresh st1 st2 u /\ w ∈ neighbors adj u) ->
     fresh st1 st2 w \/ fresh st0 st1 w \/ w = n) ->
  known st1 y -> y <> n -> is_Some (bt_get y adj) -> cut n.
Proof.
  intros Hout Hy Hyn Hkey. exists (fresh st1 st2), c, y. split_and!.
  - split.
    + intros Hnf. eapply child_disjoint; [apply root_fresh|done].
    + intros u w Hu Hw. destruct (Hout w) as [?|[?|?]]; [|by exists u|by left| |by right].
      * eapply (pr_closed _ _ _ _ _ _ Hchild); [done..|]. by intros ->.
      * right. by eapply child_side.
  - apply child_root_fresh.
  - by apply known_fresh.
  - done.
  - by eapply adj_closed.
  - done.
Qed.

Lemma child_children :
  parent = None ->
  (cc + 1 = 0 /\ forall x, fresh st0 st2 x -> x = n) \/
  (cc + 1 = 1 /\ exists c, without (fresh st0 st2) n c /\
     forall x, without (fresh st0 st2) n x -> conn (without (fresh st0 st2) n) c x) \/
  (1 < cc + 1 /\ cut n).
Proof.
  intros Hroot. assert (Hempty : forall x, bt_get x (discovery st0) = None)
    by (destruct Hcall as [_ _ _ Hp]; by rewrite Hroot in Hp).
  destruct (pr_children _ _ _ _ _ _ Hn Hroot) as [[E0 Hall]|[[E0 (c0 & [Hc0 Hne] & _)]|[? ?]]].
  - right; left. split; [lia|].
    assert (HC : forall x, fresh st1 st2 x -> without (fresh st0 st2) n x).
    { intros x Hx. split; [by apply child_fresh; right|]. intros E.
      eapply child_disjoint; [apply root_fresh|by rewrite <- E]. }
    exists c. split; [apply HC, child_root_fresh|]. intros x [Hx Hxn].
    apply child_fresh in Hx as [Hx|Hx]; [by destruct (Hxn (Hall x Hx))|].
    eapply conn_mono; [exact HC|]. by apply child_conn.
  - right; right. split; [lia|]. apply (child_cut c0); [|apply Hc0|done|].
    + intros w Hw _. destruct (known_cases st1 st2 w Hw) as [Hk|?]; [|by left].
      right; left. by split.
    + eapply conn_key; [apply Hcall|]. by apply (pr_conn _ _ _ _ _ _ Hn).
  - right; right. split; [lia|done].
Qed.

Lemma child_shape :
  (parent <> None -> exists u w d, fresh st1 st2 u /\ w ∈ neighbors adj u /\
     bt_get w (discovery st2) = Some d /\ d < time st0) ->
  shape n parent st0 st2 (c :: seen) (cc + 1).
Proof.
  intros Hesc. split.
  - apply Hchild.
  - apply child_extends.
  - apply (ex_disc st1 st2); [apply Hchild|]. apply (pr_at _ _ _ _ _ _ Hn).
  - assert (HC : forall y, fresh st1 st2 y -> fresh st0 st2 y) by (intros; apply child_fresh; by right).
    assert (HN : forall y, fresh st0 st1 y -> fresh st0 st2 y) by (intros; apply child_fresh; by left).
    intros x [Hx|Hx]%child_fresh.
    + eapply conn_mono; [exact HN|]. by apply (pr_conn _ _ _ _ _ _ Hn).
    + apply conn_sym. apply conn_through; [done|apply HN, root_fresh|done].
  - intros u w [Hu|Hu]%child_fresh Hw Hs.
    + destruct (decide (w = c)) as [Ewc|Hne]; [rewrite Ewc; apply child_root_fresh|].
      eapply known_ext; [apply Hchild|]. eapply (pr_closed _ _ _ _ _ _ Hn); [done..|].
      intros E. specialize (Hs E). by apply elem_of_cons in Hs as [?|?].
    + eapply (pr_closed _ _ _ _ _ _ Hchild); [done..|]. by intros ->.
  - by apply child_removal.
  - apply child_children.
Qed.

(** The low link of the child is the time of a node known before [n] when it is less than
    the time of [n]. *)
Lemma child_escape nlow :
  low_link c (Some n) st1 st2 (neighbors adj c) nlow -> nlow < time st0 ->
  exists u w d, fresh st1 st2 u /\ w ∈ neighbors adj u /\
    bt_get w (discovery st2) = Some d /\ d < time st0.
Proof.
  intros (_ & [E|(u & w & Hu & Hw & Hd)] & _) Hlt.
  - pose proof (ex_time _ _ (pr_ext _ _ _ _ _ _ Hn)). lia.
  - by exists u, w, nlow.
Qed.

Lemma child_low_link l nlow :
  low_link n parent st0 st1 seen l -> low_link c (Some n) st1 st2 (neighbors adj c) nlow ->
  low_link n parent st0 st2 (c :: seen) (Z.min l nlow).
Proof.
  intros (L1 & L2 & L3) (C1 & C2 & C3). split_and!; [lia| |].
  - pose proof (ex_time _ _ (pr_ext _ _ _ _ _ _ Hn)).
    destruct (Z.min_spec l nlow) as [[_ ->]|[? ->]].
    + destruct L2 as [?|(u & w & Hu & Hw & Hd)]; [by left|]. right. exists u, w. split_and!; [|done|].
      * apply child_fresh. by left.
      * eapply ex_disc; [apply Hchild|done].
    + destruct C2 as [?|(u & w & Hu & Hw & Hd)]; [left; lia|]. right. exists u, w.
      split_and!; [|done..]. apply child_fresh. by right.
  - intros u w d [Hu|Hu]%child_fresh Hw Hs Hd.
    + destruct (L3 u w d) as [?|?]; [done..| |done|by left|right; lia].
      intros E. specialize (Hs E). apply elem_of_cons in Hs as [Ew|?]; [|done].
      eapply ex_disc in Hd; [|apply Hn]. congruence.
    + destruct (C3 u w d) as [E|?]; [done..|by intros ->| | |right; lia].
      * eapply ex_disc; [apply Hn|done].
      * injection E as E. rewrite <- E in Hd. destruct root_fresh. congruence.
Qed.

(** A child that reaches nothing above [n] is cut off by [n]. *)
Lemma child_low_cut nlow p :
  parent = Some p -> low_link c (Some n) st1 st2 (neighbors adj c) nlow -> time st0 <= nlow ->
  cut n.
Proof.
  intros Hp (_ & _ & C3) Hle. pose proof (co_parent _ _ _ Hcall) as Hpar.
  rewrite Hp in Hpar. destruct Hpar as [Hkp Hnp]. apply (child_cut p).
  - intros w Hw (u & Hu & Huw). destruct (known_cases st1 st2 w Hw) as [[d Hd]|?]; [|by left].
    destruct (C3 u w d) as [E|Hge]; [done..|by intros ->|done|right; right; congruence|].
    right; left. split; [|by eexists]. destruct (bt_get w (discovery st0)) as [d0|] eqn:E0; [|done].
    pose proof (so_time _ (co_state _ _ _ Hcall) w d0 E0).
    apply (ex_disc _ _ (pr_ext _ _ _ _ _ _ Hn)) in E0. rewrite Hd in E0. injection E0 as ->. lia.
  - eapply known_ext; [apply Hn|done].
  - intros E. destruct Hkp as [d Hd]. rewrite E, (co_new _ _ _ Hcall) in Hd. done.
  - eapply adj_closed, adj_sym, Hnp.
Qed.

End Child.

(** *** The whole call *)

Definition call_spec (n : NodeId) (parent : option NodeId) (st0 : dfs_state)
    (r : bool * dfs_state) : Prop :=
  let '(found, st) := r in
  if found then exists v, cut v
  else exists cc, progress n parent st0 st (neighbors adj n) cc /\ (parent = None -> cc <= 1).

Definition undiscovered (st : dfs_state) : nat :=
  length (filter (fun x => bt_get x (discovery st) = None) (bt_keys adj)).

Lemma undiscovered_le st0 st :
  (forall x, known st0 x -> known st x) -> (undiscovered st <= undiscovered st0)%nat.
Proof.
  intros He. unfold undiscovered.
  rewrite <- (list_filter_filter_l _ (fun x => bt_get x (discovery st0) = None)); [apply length_filter|].
  intros x Hx. destruct (bt_get x (discovery st0)) as [d|] eqn:E; [|done].
  destruct (He x) as [d' Hd']; [by eexists|]. congruence.
Qed.

Lemma undiscovered_lt n st :
  is_Some (bt_get n adj) -> bt_get n (discovery st) = None ->
  (undiscovered (discover_node n st) < undiscovered st)%nat.
Proof.
  intros [s Hs%bt_get_in%(list_elem_of_fmap_2 fst)] Hn. unfold undiscovered.
  rewrite <- (list_filter_filter_l _ (fun x => bt_get x (discovery st) = None)).
  - apply (length_filter_lt _ _ n); [by apply list_elem_of_filter|].
    simpl. by rewrite bt_get_insert.
  - intros x. simpl. destruct (decide (n = x)) as [<-|Hne]; [done|]. by rewrite bt_get_insert_ne.
Qed.

Lemma progress_done n parent st0 st seen cc :
  progress n parent st0 st seen cc -> (forall w, w ∈ neighbors adj n -> w ∈ seen) ->
  progress n parent st0 st (neighbors adj n) cc.
Proof.
  intros [[H1 H2 H3 H4 H5 H6 H7] (l & Hl & L1 & L2 & L3)] Hall. split.
  - split; try done. intros u w Hu Hw Hs. eapply H5; [done..|]. auto.
  - exists l. split; [done|]. split_and!; [done..|]. intros u w d Hu Hw Hs. eapply L3; [done..|]. auto.
Qed.

Section Visit.
  Variables (n : NodeId) (parent : option NodeId) (st0 : dfs_state) (fuel : nat).
  Variable rec : NodeId -> option NodeId -> dfs_state -> option (bool * dfs_state).
  Hypothesis Hcall : call_ok n parent st0.
  Hypothesis Hfuel : (undiscovered (discover_node n st0) <= fuel)%nat.
  Hypothesis Hrec : forall c p st, call_ok c p st -> (undiscovered st <= fuel)%nat ->
    exists r, rec c p st = Some r /\ call_spec c p st r.

Lemma progress_fuel st seen cc : progress n parent st0 st seen cc -> (undiscovered st <= fuel)%nat.
Proof.
  intros [Hs _]. eapply Nat.le_trans; [|exact Hfuel]. apply undiscovered_le. intros x Hx.
  destruct (decide (n = x)) as [<-|Hne]; [eexists; exact (pr_at _ _ _ _ _ _ Hs)|].
  unfold known in Hx. simpl in Hx. rewrite bt_get_insert_ne in Hx by done.
  eapply known_ext; [apply Hs|done].
Qed.

Lemma visit_child c st seen cc :
  progress n parent st0 st seen cc -> c ∈ neighbors adj n -> bt_get c (discovery st) = None ->
  exists r, rec c (Some n) st = Some r /\
    let '(found, st2) := r in
    if found then exists v, cut v
    else exists nlow, bt_get c (low st2) = Some nlow /\
      if negb (bool_decide (parent = None)) && (time st0 <=? nlow) then cut n
      else progress n parent st0 (lower n nlow st2) (c :: seen) (cc + 1).
Proof.
  intros Hp Hc Hnew. pose proof Hp as [Hs (l & Hl & Hlink)].
  assert (Hcc : call_ok c (Some n) st) by (by eapply child_call).
  destruct (Hrec c (Some n) st Hcc) as ([found st2] & Hr & Hspec); [by eapply progress_fuel|].
  exists (found, st2). split; [done|]. destruct found; [done|].
  destruct Hspec as (cc' & [Hchild (nlow & Hnlow & Hcl)] & _). exists nlow. split; [done|].
  destruct (negb (bool_decide (parent = None)) && (time st0 <=? nlow)) eqn:Et.
  - apply andb_true_iff in Et as [Et Hle]. destruct parent as [p|] eqn:Ep; [|done].
    eapply child_low_cut; [exact Hcall|done..|lia].
  - assert (Hln : bt_get n (low st2) = Some l).
    { rewrite <- Hl. apply (pr_ext _ _ _ _ _ _ Hchild). eexists. exact (pr_at _ _ _ _ _ _ Hs). }
    split.
    + apply shape_lower; [done|]. eapply child_shape; [done..|]. intros Hpar.
      eapply child_escape; [done..|]. rewrite bool_decide_false in Et by done. simpl in Et. lia.
    + rewrite (lower_eq _ _ _ _ Hln). simpl. exists (Z.min l nlow). rewrite bt_get_insert.
      split; [done|]. exact (child_low_link _ _ _ _ _ _ _ _ _ Hcall Hs Hnew Hchild _ _ Hlink Hcl).
Qed.

Lemma visit_spec ns st seen cc :
  progress n parent st0 st seen cc ->
  (forall w, w ∈ ns -> w ∈ neighbors adj n) ->
  (forall w, w ∈ neighbors adj n -> w ∈ seen \/ w ∈ ns) ->
  exists r, visit_neighbors rec n parent (time st0) ns cc st = Some r /\ call_spec n parent st0 r.
Proof.
  revert st seen cc. induction ns as [|w ns IH]; intros st seen cc Hp Hns Hcov.
  { simpl. eexists. split; [done|]. simpl. destruct (bool_decide (parent = None)) eqn:Ep; simpl.
    - apply bool_decide_eq_true in Ep. destruct (1 <? cc) eqn:Ecc.
      + exists n. destruct (pr_children _ _ _ _ _ _ (proj1 Hp) Ep) as [[? _]|[[? _]|[_ ?]]]; [lia..|done].
      + exists cc. split; [|lia]. eapply progress_done; [done|]. intros w Hw.
        destruct (Hcov w Hw) as [?|?%not_elem_of_nil]; done.
    - exists cc. apply bool_decide_eq_false in Ep. split; [|done]. eapply progress_done; [done|].
      intros w Hw. destruct (Hcov w Hw) as [?|?%not_elem_of_nil]; done. }
  assert (Hw : w ∈ neighbors adj n) by (apply Hns; constructor).
  assert (Hns' : forall x, x ∈ ns -> x ∈ neighbors adj n) by (intros; apply Hns; by constructor).
  assert (Hcov' : forall x, x ∈ neighbors adj n -> x ∈ w :: seen \/ x ∈ ns).
  { intros x Hx. rewrite elem_of_cons. destruct (Hcov x Hx) as [?|Hin]; [tauto|].
    apply elem_of_cons in Hin. tauto. }
  cbn [visit_neighbors]. case_bool_decide as Epar.
  { eapply IH; [|done..]. revert Hp. revert Hcall. rewrite Epar. apply progress_parent. }
  destruct (bt_get w (discovery st)) as [d|] eqn:Ed.
  { eapply IH; [|done..]. by eapply progress_known. }
  destruct (visit_child w st seen cc Hp Hw Ed) as ([found st2] & -> & Hv). destruct found.
  { by eexists. }
  destruct Hv as (nlow & -> & Hv). simpl.
  destruct (negb (bool_decide (parent = None)) && (time st0 <=? nlow)).
  - eexists. split; [done|]. by exists n.
  - by eapply IH.
Qed.

End Visit.

Lemma dfs_spec fuel n parent st0 :
  call_ok n parent st0 -> (undiscovered st0 <= fuel)%nat ->
  exists r, articulation_dfs fuel adj n parent st0 = Some r /\ call_spec n parent st0 r.
Proof.
  revert n parent st0. induction fuel as [|fuel IH]; intros n parent st0 Hcall Hf.
  - pose proof (undiscovered_lt n st0 (co_key _ _ _ Hcall) (co_new _ _ _ Hcall)). lia.
  - pose proof (undiscovered_lt n st0 (co_key _ _ _ Hcall) (co_new _ _ _ Hcall)).
    simpl. destruct (co_key _ _ _ Hcall) as [ns Hns] eqn:E. rewrite Hns.
    assert (Hnb : bt_keys ns = neighbors adj n) by (unfold neighbors; by rewrite Hns).
    rewrite Hnb. eapply (visit_spec n parent st0 fuel); [done|lia|exact IH|by apply progress_start|done|].
    intros w Hw. by right.
Qed.

(** ** Failures *)

(** After the failure of [v] the nodes that remain reach each other. *)
Definition survives (v : NodeId) : Prop :=
  forall a b, is_Some (bt_get a adj) -> is_Some (bt_get b adj) -> a <> v -> b <> v ->
    is_Some (shortest_path_avoiding adj a b (bs_of_list [v]) []).

Lemma bs_single (v x : NodeId) : bs_mem x (bs_of_list [v]) = true <-> x = v.
Proof. rewrite bs_of_list_mem, list_elem_of_singleton. done. Qed.

Lemma allowed_single v a b :
  b ∈ allowed adj (bs_of_list [v]) [] a <-> b ∈ neighbors adj a /\ b <> v.
Proof.
  unfold allowed. rewrite list_elem_of_In, filter_In, <- list_elem_of_In.
  assert (Hu : usable_step (bs_of_list [v]) [] a b = true <-> b <> v); [|tauto].
  unfold usable_step, edge_is_unavailable. rewrite <- (bs_single v b), not_true_iff_false.
  destruct (edge_new a b), (bs_mem b (bs_of_list [v])); simpl; split; congruence.
Qed.

Lemma conn_chain (X : nodeset) a b v :
  (forall x, X x -> x <> v) -> conn X a b ->
  exists p, head p = Some a /\ last p = Some b /\ chain (allowed adj (bs_of_list [v]) []) p /\
    Forall (fun n => bs_mem n (bs_of_list [v]) = false) p.
Proof.
  intros Hv. assert (Hf : forall x, X x -> bs_mem x (bs_of_list [v]) = false).
  { intros x Hx. apply not_true_iff_false. rewrite bs_single. auto. }
  induction 1 as [Ha|b c Hb (p & Hh & Hl & Hc & Hu) Hbc HX].
  - exists [a]. split_and!; [done..|]. constructor; auto.
  - exists (p ++ [c]). apply last_Some in Hl as [p' ->]. split_and!.
    + by destruct p'.
    + by rewrite last_snoc.
    + rewrite <- app_assoc. apply chain_snoc; [done|]. apply allowed_single. auto.
    + apply Forall_app. split; [done|]. constructor; auto.
Qed.

Lemma conn_path X a b v :
  (forall x, X x -> x <> v) -> is_Some (bt_get a adj) -> is_Some (bt_get b adj) -> conn X a b ->
  is_Some (shortest_path_avoiding adj a b (bs_of_list [v]) []).
Proof.
  intros Hv Ha Hb Hc. destruct (conn_chain X a b v Hv Hc) as (p & Hh & Hl & Hch & Hu).
  pose proof (shortest_path_avoiding_spec adj a b (bs_of_list [v]) []) as Hs.
  destruct (shortest_path_avoiding adj a b (bs_of_list [v]) []); [by eexists|].
  destruct (Hs p). split_and!; done.
Qed.

Lemma side_chain v X p x :
  side v X -> head p = Some x -> X x -> chain (allowed adj (bs_of_list [v]) []) p -> Forall X p.
Proof.
  intros [Hv Hs]. revert x. induction p as [|u [|w p] IH]; intros x Hh Hx Hc; [done| |].
  - injection Hh as ->. by constructor.
  - injection Hh as ->. destruct Hc as [[Hw Hwv]%allowed_single Hc]. constructor; [done|].
    apply (IH w); [done| |done]. destruct (Hs x w Hx Hw); done.
Qed.

Lemma cut_fails v : cut v -> ~ survives v.
Proof.
  intros (X & x & y & Hside & Hx & Hy & Hyv & Kx & Ky) Hsurv.
  assert (Hxv : x <> v) by (intros ->; by destruct Hside).
  destruct (Hsurv x y Kx Ky Hxv Hyv) as [p Hp].
  pose proof (shortest_path_avoiding_spec adj x y (bs_of_list [v]) []) as Hs. rewrite Hp in Hs.
  destruct Hs as [(_ & _ & Hh & Hl & Hc & _) _].
  pose proof (side_chain v X p x Hside Hh Hx Hc) as Hall. apply last_Some in Hl as [p' ->].
  apply Forall_app in Hall as [_ Hall]. by apply Forall_cons in Hall as [? _].
Qed.

Section Connected.
  Hypothesis adj_ordered : ordered adj.
  Hypothesis adj_connected : pairwise_connected adj.

Lemma keys_conn a b :
  is_Some (bt_get a adj) -> is_Some (bt_get b adj) -> conn (fun x => is_Some (bt_get x adj)) a b.
Proof.
  intros Ha Hb. pose proof (adj_connected a b Ha Hb) as Hp.
  apply shortest_path_reaches in Hp as [k Hk]; [|done..]. clear Hb.
  induction Hk as [|k u w Hk IH Hw]; [by apply conn_refl|].
  eapply conn_step; [exact IH|done|by eapply adj_closed].
Qed.

Lemma survives_other v : ~ is_Some (bt_get v adj) -> survives v.
Proof.
  intros Hv a b Ha Hb _ _. apply (conn_path (fun x => is_Some (bt_get x adj)));
    [by intros x Hx ->|done..|by apply keys_conn].
Qed.

Section Root.
  Variables (root : NodeId) (st : dfs_state) (cc : Z).
  Abbreviation start := {| discovery := []; low := []; time := 0 |}.
  Hypothesis Hroot : progress root None start st (neighbors adj root) cc.
  Hypothesis Hcc : cc <= 1.
  Hypothesis Hkey : is_Some (bt_get root adj).

Lemma root_all x : fresh start st x <-> is_Some (bt_get x adj).
Proof.
  destruct Hroot as [Hs _]. split.
  - intros Hx. eapply conn_key; [done|]. by apply (pr_conn _ _ _ _ _ _ Hs).
  - intros Hx. pose proof (keys_conn root x Hkey Hx) as Hc.
    induction Hc as [_|b c Hb IH Hc HX].
    + split; [done|]. eexists. exact (pr_at _ _ _ _ _ _ Hs).
    + split; [done|]. eapply (pr_closed _ _ _ _ _ _ Hs); [|done|by intros ->].
      apply IH. exact (proj2 (conn_ends _ _ _ Hb)).
Qed.

Lemma root_survives v : survives v.
Proof.
  destruct (bt_get v adj) as [s|] eqn:Ev; [|apply survives_other; rewrite Ev; by intros []].
  assert (Hv : fresh start st v) by (apply root_all; by eexists). destruct Hroot as [Hs _].
  intros a b Ha Hb Hav Hbv. apply (conn_path (without (fresh start st) v)); [by intros x []|done..|].
  apply root_all in Ha, Hb. destruct (decide (v = root)) as [->|Hvr].
  - destruct (pr_children _ _ _ _ _ _ Hs eq_refl) as [[_ Hall]|[[_ (c & _ & Hall)]|[? _]]]; [|..|lia].
    + by destruct (Hav (Hall a Ha)).
    + eapply conn_trans; [apply conn_sym|]; by apply Hall.
  - assert (Hto : forall x, fresh start st x -> x <> v -> conn (without (fresh start st) v) x root).
    { intros x Hx Hxv. destruct (pr_removal _ _ _ _ _ _ Hs v x) as [[_ ?]|(u & w & _ & _ & [d Hd])];
        try done. }
    eapply conn_trans; [|apply conn_sym]; by apply Hto.
Qed.

Lemma root_count : lenZ (discovery st) = lenZ adj.
Proof.
  pose proof root_all as Hall. destruct Hroot as [Hs _].
  assert (Hk : bt_keys (discovery st) ≡ₚ bt_keys adj).
  { apply NoDup_Permutation; [apply bt_keys_nodup, Hs|apply bt_keys_nodup, adj_ordered|].
    intros x. rewrite !bt_keys_get by (apply Hs || apply adj_ordered). rewrite <- Hall.
    split; [by split|by intros []]. }
  apply Permutation_length in Hk. unfold bt_keys in Hk. rewrite !length_map in Hk. lia.
Qed.

End Root.

(** With at most two nodes, those that remain after a failure are one. *)
Lemma small_graph a b v :
  lenZ adj <= 2 -> is_Some (bt_get v adj) -> is_Some (bt_get a adj) -> is_Some (bt_get b adj) ->
  a <> v -> b <> v -> a = b.
Proof.
  intros Hlen Hv Ha Hb Hav Hbv. destruct (decide (a = b)) as [|Hab]; [done|]. exfalso.
  assert (Hsub : [v; a; b] ⊆+ bt_keys adj).
  { apply NoDup_submseteq; [|].
    - repeat constructor; rewrite ?elem_of_cons, ?elem_of_nil; naive_solver.
    - intros x Hx. apply bt_keys_get; [apply adj_ordered|].
      rewrite !elem_of_cons, elem_of_nil in Hx. naive_solver. }
  apply submseteq_length in Hsub. unfold bt_keys in Hsub. rewrite length_map in Hsub. simpl in Hsub. lia.
Qed.

Lemma small_survives v : lenZ adj <= 2 -> survives v.
Proof.
  intros Hlen. destruct (bt_get v adj) as [s|] eqn:Ev; [|apply survives_other; rewrite Ev; by intros []].
  intros a b Ha Hb Hav Hbv. assert (a = b) as ->.
  { eapply (small_graph a b v); try done; by eexists. }
  eapply (conn_path (fun x => x = b)); [by intros x ->|done..|]. by apply conn_refl.
Qed.

Lemma start_call root : is_Some (bt_get root adj) -> call_ok root None {| discovery := []; low := []; time := 0 |}.
Proof. intros Hr. split; [split|..]; try done. constructor. Qed.

End Connected.
End Search.

(** The low-link test of topology synthesis decides exactly whether the backbone
    survives any single failure: it always ends, and it accepts a connected symmetric
    graph if and only if, whichever node fails, every two of the remaining nodes still
    have a path that avoids it. *)
Lemma articulation_test_exact adj :
  ordered adj -> (forall u v, v ∈ neighbors adj u -> u ∈ neighbors adj v) ->
  pairwise_connected adj ->
  exists accepted, graph_has_no_articulation_points adj = Some accepted /\
    (accepted = true <-> forall failed, survives adj failed).
Proof.
  intros Ho Hsym Hcon. unfold graph_has_no_articulation_points.
  destruct (lenZ adj <=? 2) eqn:Elen.
  { exists true. split; [done|]. split; [|done]. intros _ v. apply small_survives; by (done || lia). }
  destruct adj as [|[root ns] rest] eqn:Eadj; [done|]. rewrite <- Eadj in *.
  assert (Hkey : is_Some (bt_get root adj)).
  { exists ns. apply bt_get_elem; [apply Ho|]. rewrite Eadj. constructor. }
  destruct (dfs_spec adj Hsym (S (length adj)) root None {| discovery := []; low := []; time := 0 |})
    as ([found st] & -> & Hspec); [by apply start_call| |].
  { unfold undiscovered. etransitivity; [apply length_filter|]. unfold bt_keys. rewrite length_map. lia. }
  destruct found; simpl in Hspec.
  - exists false. split; [done|]. split; [done|]. intros Hall. destruct Hspec as [v Hv].
    by destruct (cut_fails adj v Hv (Hall v)).
  - destruct Hspec as (cc & Hp & Hcc). exists true. split.
    + rewrite (root_count adj Hsym Ho Hcon root st cc Hp Hkey). by rewrite Z.eqb_refl.
    + split; [|done]. intros _ v. eapply root_survives; eauto.
Qed.

(** Around a failed node a loop-free way remains. *)
Lemma survives_way adj failed x y :
  survives adj failed -> is_Some (bt_get x adj) -> is_Some (bt_get y adj) -> x <> failed -> y <> failed ->
  exists l, head l = Some x /\ last l = Some y /\ chain (neighbors adj) l /\ failed ∉ l /\ NoDup l.
Proof.
  intros Hs Hx Hy Hxf Hyf. destruct (Hs x y Hx Hy Hxf Hyf) as [l Hl].
  pose proof (shortest_path_avoiding_spec adj x y (bs_of_list [failed]) []) as Hp. rewrite Hl in Hp.
  destruct Hp as [(_ & _ & Hh & Hla & Hc & Hf) [Hnd _]]. exists l. split_and!; [done..| | |done].
  - clear - Hc. induction l as [|u [|v l] IH]; [done..|]. destruct Hc as [Hv Hc].
    split; [by apply allowed_single in Hv as [? _]|by apply IH].
  - intros Hin. rewrite Forall_forall in Hf. specialize (Hf _ Hin). by rewrite (proj2 (bs_single failed failed)) in Hf.
Qed.

(** A third node, if there are three. *)
Lemma third_node adj a p : ordered adj -> 3 <= lenZ adj -> exists w, is_Some (bt_get w adj) /\ w <> a /\ w <> p.
Proof.
  intros Hord HN. destruct (filter (fun w => w <> a /\ w <> p) (bt_keys adj)) as [|w l] eqn:E.
  - exfalso. assert (Hsub : bt_keys adj ⊆+ [a; p]).
    { apply NoDup_submseteq; [apply bt_keys_nodup, Hord|]. intros w Hw. rewrite !elem_of_cons.
      destruct (decide (w = a)); [by left|]. destruct (decide (w = p)); [tauto|].
      assert (Hf : w ∈ filter (fun w => w <> a /\ w <> p) (bt_keys adj)) by (by apply list_elem_of_filter).
      rewrite E in Hf. by apply not_elem_of_nil in Hf. }
    apply submseteq_length in Hsub. unfold bt_keys in Hsub. rewrite length_map in Hsub. simpl in Hsub. lia.
  - exists w. assert (Hf : w ∈ filter (fun w => w <> a /\ w <> p) (bt_keys adj)) by (rewrite E; constructor).
    apply list_elem_of_filter in Hf as [? Hf]. apply bt_keys_get in Hf; [done|apply Hord].
Qed.

(** ** The reference of the unit tests *)

Lemma filter_absent (x : NodeId) l :
  x ∉ l -> List.filter (fun k => negb (bool_decide (k = x))) l = l.
Proof.
  induction l as [|y l IH]; [done|]. intros [Hy Hl]%not_elem_of_cons. simpl.
  rewrite bool_decide_false by congruence. simpl. by rewrite IH.
Qed.

Lemma length_others (x : NodeId) l :
  NoDup l -> x ∈ l -> S (length (List.filter (fun k => negb (bool_decide (k = x))) l)) = length l.
Proof.
  intros Hnd Hx. induction Hx as [x l|x y l Hx IH]; apply NoDup_cons in Hnd as [Hy Hnd]; simpl.
  - rewrite bool_decide_true by done. simpl. by rewrite filter_absent.
  - rewrite bool_decide_false by congruence. simpl. by rewrite IH.
Qed.

Section Reference.
Variables (adj : adjacency_map) (start failed : NodeId).
Hypothesis Hord : ordered adj.
Hypothesis Hsym : forall u v, v ∈ neighbors adj u -> u ∈ neighbors adj v.
Hypothesis Hstart : is_Some (bt_get start adj).
Hypothesis Hne : start <> failed.

Definition others (n : NodeId) : list NodeId :=
  List.filter (fun k => negb (bool_decide (k = failed))) (neighbors adj n).

Lemma others_in n k : k ∈ others n <-> k ∈ neighbors adj n /\ k <> failed.
Proof.
  unfold others. rewrite list_elem_of_In, filter_In, <- list_elem_of_In, negb_true_iff, bool_decide_eq_false.
  done.
Qed.

Abbreviation remaining := (fun n => is_Some (bt_get n adj) /\ n <> failed).

Lemma walk_conn k n : walk others start k n <-> walk others start k n /\ conn adj remaining start n.
Proof.
  split; [|tauto]. intros Hw. split; [done|].
  induction Hw as [|k u v Hw IH Hv]; [by apply conn_refl|]. apply others_in in Hv as [Hv Hvf].
  eapply conn_step; [exact IH|done|]. split; [by eapply adj_closed|done].
Qed.

Lemma conn_walk n : conn adj remaining start n -> exists k, walk others start k n.
Proof.
  induction 1 as [|b c Hb [k Hk] Hc [_ HX]]; [exists O; constructor|].
  exists (S k). econstructor; [done|]. by apply others_in.
Qed.

Lemma avoiding_search :
  bt_wf (distances_from_avoiding adj start failed) /\
  forall n, n ∈ bt_keys (distances_from_avoiding adj start failed) <-> conn adj remaining start n.
Proof.
  destruct (bfs_total others start (search_fuel adj) (universe adj start)) as [r Hr].
  { constructor. }
  { intros n x [Hx _]%others_in. constructor. by eapply neighbors_in_universe. }
  { unfold universe, search_fuel. simpl. lia. }
  pose proof (bfs_correct others start _ _ Hr) as Hres.
  assert (Hd : distances_from_avoiding adj start failed = bt_map (fun v => Z.of_nat v.2) r).
  { unfold distances_from_avoiding, contains_key. destruct Hstart as [s ->].
    rewrite bool_decide_false by done. simpl orb. cbv iota. fold others.
    change [(start, 0)] with (bt_map (fun v : NodeId * nat => Z.of_nat v.2) [(start, (start, O))]).
    rewrite (bfs_map others (fun v => Z.of_nat v.2) tracked (fun _ d => d + 1)), Hr; [done|].
    intros cur [p d]. simpl. lia. }
  assert (Hwf : bt_wf (bt_map (fun v : NodeId * nat => Z.of_nat v.2) r)).
  { pose proof (sr_wf _ _ _ Hres) as Hw. clear - Hw. unfold bt_map.
    induction r as [|[k v] r IH]; simpl; [constructor|]. apply bt_wf_cons in Hw as [Hw Hall].
    apply bt_wf_cons_2; [auto|]. intros kv ([k' v'] & -> & Hin)%list_elem_of_fmap. by apply Hall in Hin. }
  rewrite Hd. split; [done|]. intros n. rewrite bt_keys_get by done. rewrite bt_get_map. split.
  - destruct (bt_get n r) as [[p d]|] eqn:E; [|by intros []]. intros _.
    apply (sr_walk _ _ _ Hres), walk_conn in E as [_ ?]. done.
  - intros [k Hk]%conn_walk. destruct (sr_found _ _ _ Hres n k Hk) as [v ->]. by eexists.
Qed.

Lemma avoiding_count :
  is_Some (bt_get failed adj) ->
  lenZ (distances_from_avoiding adj start failed) = lenZ adj - 1 <->
  forall n, is_Some (bt_get n adj) -> n <> failed -> conn adj remaining start n.
Proof.
  intros Hf. destruct avoiding_search as [Hwf Hin]. set (ds := distances_from_avoiding adj start failed) in *.
  set (ks := List.filter (fun k => negb (bool_decide (k = failed))) (bt_keys adj)).
  assert (Hks : forall n, n ∈ ks <-> is_Some (bt_get n adj) /\ n <> failed).
  { intros n. unfold ks. rewrite list_elem_of_In, filter_In, <- list_elem_of_In, bt_keys_get by apply Hord.
    by rewrite negb_true_iff, bool_decide_eq_false. }
  assert (Hnd : NoDup (bt_keys adj)) by apply bt_keys_nodup, Hord.
  assert (Hlen : (S (length ks) = length adj)%nat).
  { apply bt_keys_get in Hf; [|apply Hord]. unfold ks.
    rewrite length_others by done. apply length_map. }
  assert (Hsub : bt_keys ds ⊆+ ks).
  { apply NoDup_submseteq; [by apply bt_keys_nodup|]. intros n Hn%Hin. apply Hks.
    apply conn_ends in Hn. tauto. }
  assert (Hds : length (bt_keys ds) = length ds) by apply length_map. split.
  - intros Hl n Hn Hnf. apply Hin. rewrite (submseteq_length_Permutation _ _ Hsub) by lia. by apply Hks.
  - intros Hall. apply submseteq_length in Hsub as Hle.
    assert (Hsup : ks ⊆+ bt_keys ds).
    { apply NoDup_submseteq; [by apply NoDup_ListNoDup, List.NoDup_filter, NoDup_ListNoDup|].
      intros n [? ?]%Hks. by apply Hin, Hall. }
    apply submseteq_length in Hsup. lia.
Qed.

Lemma survives_conn :
  survives adj failed <->
  forall n, is_Some (bt_get n adj) -> n <> failed -> conn adj remaining start n.
Proof.
  split.
  - intros Hs n Hn Hnf. destruct (Hs start n Hstart Hn Hne Hnf) as [p Hp].
    pose proof (shortest_path_avoiding_spec adj start n (bs_of_list [failed]) []) as Hr. rewrite Hp in Hr.
    destruct Hr as [(_ & _ & Hh & Hl & Hc & _) _]. pose proof (chain_walk _ _ _ _ Hh Hl Hc) as Hw.
    assert (Hw' : walk others start (length p - 1) n).
    { clear - Hw. induction Hw as [|k u v Hw IH Hv]; [constructor|]. econstructor; [done|].
      apply others_in. by apply allowed_single in Hv. }
    by apply walk_conn in Hw' as [_ ?].
  - intros Hall a b Ha Hb Haf Hbf. apply (conn_path adj remaining); [by intros x []|done..|].
    eapply conn_trans; [apply conn_sym; [done|]|]; by apply Hall.
Qed.

End Reference.

(** The linear low-link test that synthesis runs gives the same answer as the
    reference of the unit tests, which fails every node in turn and searches again: on
    every connected symmetric graph both say whether it survives any single failure. *)
Theorem articulation_matches_reference adj :
  ordered adj -> (forall u v, v ∈ neighbors adj u -> u ∈ neighbors adj v) ->
  pairwise_connected adj ->
  graph_has_no_articulation_points adj = Some (graph_survives_any_single_node_failure adj).
Proof.
  intros Ho Hsym Hcon. destruct (articulation_test_exact adj Ho Hsym Hcon) as (b & -> & Hb). f_equal.
  apply eq_true_iff_eq. rewrite Hb. unfold graph_survives_any_single_node_failure.
  destruct (lenZ adj <=? 2) eqn:El.
  { split; [done|]. intros _ v. apply small_survives; by (done || lia). }
  rewrite forallb_Forall, Forall_forall.
  assert (Hone : forall failed, is_Some (bt_get failed adj) ->
    match List.find (fun n => negb (bool_decide (n = failed))) (bt_keys adj) with
    | None => true
    | Some start => lenZ (distances_from_avoiding adj start failed) =? lenZ adj - 1
    end = true <-> survives adj failed).
  { intros f Hf. destruct (List.find _ (bt_keys adj)) as [s|] eqn:Es.
    - apply find_some in Es as [Hs Hsf]. apply negb_true_iff, bool_decide_eq_false in Hsf.
      apply list_elem_of_In, bt_keys_get in Hs; [|apply Ho].
      rewrite Z.eqb_eq, avoiding_count, survives_conn by done. done.
    - split; [|done]. intros _ a b' Ha _ Haf. exfalso. apply bt_keys_get, list_elem_of_In in Ha; [|apply Ho].
      pose proof (find_none _ _ Es a Ha) as Hn. cbv beta in Hn. by rewrite bool_decide_false in Hn. }
  split.
  - intros Hall f Hf. apply bt_keys_get in Hf; [|apply Ho]. by apply Hone.
  - intros Hall f. destruct (bt_get f adj) as [x|] eqn:Ef; [|apply survives_other; [done..|by rewrite Ef; intros []]].
    apply Hone; [by rewrite Ef|]. apply Hall. apply bt_keys_get; [apply Ho|by rewrite Ef].
Qed.

Lemma articulation_matches_reference_witness :
  graph_has_no_articulation_points sample_graph =
    Some (graph_survives_any_single_node_failure sample_graph).
Proof.
  pose proof sample_graph_ordered as Ho.
  assert (Hsym : forall u v, v ∈ neighbors sample_graph u -> u ∈ neighbors sample_graph v)
    by (apply symmetric_iff; [exact Ho|vm_compute; reflexivity]).
  apply articulation_matches_reference; [exact Ho|exact Hsym|].
  apply connected_iff; [|exact Hsym|vm_compute; reflexivity].
  split; [apply Ho|apply Ho|]. intros u v. apply adj_closed. exact Hsym.
Defined.

End Articulation.
