(* ===== verification/TopologySynthesis.v ===== *)
(** * Synthesis of the relay backbone (crates/ipars-control-plane/src/bounded_topology.rs)

    The hash-prefix hierarchy, leaf cycles, representatives, block rings and the checks
    that [BoundedTopology::synthesize] makes before it publishes a graph. A [None] result
    stands for an exhausted search bound or a panicking index; synthesis never gives one. *)

From S2P Require Import Prelude RustStd BTree SortBy Hashing Endpoints OverlayTypes Bfs TopologyGraph Articulation.
From Stdlib Require Import Sorting.Sorted.

Module Synthesis.
Import TopologyGraph Articulation Hashing.

(** ** Configuration and results *)

Definition TOPOLOGY_ALGORITHM_VERSION : bytes := bstr "recursive-hash-prefix-block-ring-v3".
Definition DEFAULT_PERMUTATION_SEED : bytes := bstr "ipars-bounded-backbone".
Definition MAX_HASH_PREFIX_PROBES : Z := 256.
Definition SUPPORTED_MAX_DEGREES : list Z := [4; 6].
Definition MIN_OVERLAY_BLOCK_SIZE : Z := 4.
Definition MAX_OVERLAY_BLOCK_SIZE : Z := 64.
Definition DEFAULT_OVERLAY_BLOCK_SIZE : Z := 4.
Definition MIN_HIERARCHICAL_BLOCK_SIZE : Z := 4.

Record BoundedTopologyConfig : Type := {
  max_degree : Z;
  block_size : Z;
  permutation_seed : bytes
}.

Definition config_new (max_degree : Z) : BoundedTopologyConfig :=
  {| max_degree := max_degree; block_size := DEFAULT_OVERLAY_BLOCK_SIZE;
     permutation_seed := DEFAULT_PERMUTATION_SEED |}.

Definition with_block_size (c : BoundedTopologyConfig) (block_size : Z) : BoundedTopologyConfig :=
  {| max_degree := max_degree c; block_size := block_size; permutation_seed := permutation_seed c |}.

Definition with_permutation_seed (c : BoundedTopologyConfig) (seed : bytes) : BoundedTopologyConfig :=
  {| max_degree := max_degree c; block_size := block_size c; permutation_seed := seed |}.

Record TopologyRepresentative : Type := { rep_node_id : NodeId; rep_plane : Z }.

Record HierarchyGroup : Type := {
  block_id : bytes;
  node_ids : list NodeId;
  parent_block_id : option bytes;
  child_block_ids : list bytes;
  depth : Z;
  representatives : list TopologyRepresentative
}.

Record TopologyGroup : Type := {
  group_id : bytes;
  group_node_ids : list NodeId;
  parent_group_id : option bytes;
  child_group_ids : list bytes;
  group_depth : Z;
  group_representatives : list TopologyRepresentative
}.

Definition into_group (g : HierarchyGroup) : TopologyGroup :=
  {| group_id := block_id g; group_node_ids := node_ids g; parent_group_id := parent_block_id g;
     child_group_ids := child_block_ids g; group_depth := depth g;
     group_representatives := representatives g |}.

Definition is_leaf (g : TopologyGroup) : bool := bool_decide (child_group_ids g = []).

Inductive TopologyEdgeKind : Type := LeafCycle | HierarchyLink.

Record TopologyEdgePlacement : Type := {
  level : Z;
  plane : Z;
  edge_kind : TopologyEdgeKind;
  placement_group_id : bytes
}.

(** The derived order: fields in turn, [LeafCycle] before [HierarchyLink]. *)
#[global] Instance placement_ord : KeyOrd TopologyEdgePlacement.
Proof.
  apply (ord_by (fun p => (level p, (plane p,
    (match edge_kind p with LeafCycle => 0 | HierarchyLink => 1 end, placement_group_id p))))).
  intros [l p k g] [l' p' k' g']; simpl. destruct k, k'; by intros [= -> -> ->].
Defined.

Inductive BoundedTopologyError : Type :=
| UnsupportedMaxDegree (max_degree : Z)
| InvalidBlockSize (block_size minimum maximum : Z)
| DuplicateNodeId (node_id : NodeId)
| InvariantViolation (reason : bytes)
| RepresentativeCapacity (group_id : bytes).

Abbreviation placements := (btree TopologyEdge (btset TopologyEdgePlacement)).

Record BoundedTopology : Type := {
  topology_epoch : Z;
  topology_max_degree : Z;
  fanout : Z;
  groups : list TopologyGroup;
  edge_placements : placements;
  adjacency : adjacency_map;
  invariants : TopologyInvariants;
  diameter_lower_bound : option Z;
  routing_node_ids : list NodeId;
  routing_node_indexes : btree NodeId nat;
  indexed_adjacency : list (list nat)
}.

(** Fallible steps that may also panic: [None]. *)
Definition bind_step {A B} (c : option (result A BoundedTopologyError))
    (k : A -> option (result B BoundedTopologyError)) : option (result B BoundedTopologyError) :=
  match c with
  | None => None
  | Some (Err e) => Some (Err e)
  | Some (Ok a) => k a
  end.

Notation "'let*' x ':=' c 'in' k" := (bind_step c (fun x => k))
  (at level 10, x pattern, c at level 200, k at level 200).

(** [vec[i]]: panics out of range. *)
Definition index_or_panic {A E} (l : list A) (i : nat) : option (result A E) :=
  match l !! i with Some x => Some (Ok x) | None => None end.

Section Synthesis.
Context `{DigestOps}.
Variable config : BoundedTopologyConfig.

(** ** The hierarchy *)

Definition hash_prefix_digit (node_id : NodeId) (hash_depth : Z) : Z :=
  hash_fields [bstr "ipars-hierarchy-prefix"; TOPOLOGY_ALGORITHM_VERSION;
    permutation_seed config; u64_to_string hash_depth; node_id] mod block_size config.

Definition hierarchy_group_id (prefix : list (Z * Z)) : bytes :=
  bstr "group-" ++ format_016x (hash_fields
    ([bstr "ipars-hierarchy-group"; TOPOLOGY_ALGORITHM_VERSION; permutation_seed config] ++
     concat (map (fun '(depth, digit) => [u64_to_string depth; u64_to_string digit]) prefix))).

Definition bucketize (ids : list NodeId) (probe : Z) : btree Z (list NodeId) :=
  foldl (fun buckets n => bt_entry [] (fun l => l ++ [n]) (hash_prefix_digit n probe) buckets)
    [] ids.

(** The first probe that separates the nodes. *)
Fixpoint find_split (probes : nat) (ids : list NodeId) (probe : Z)
  : option (Z * btree Z (list NodeId)) :=
  match probes with
  | O => None
  | S probes =>
      let buckets := bucketize ids probe in
      if 1 <? lenZ buckets then Some (probe, buckets) else find_split probes ids (probe + 1)
  end.

Definition probe_count (hash_depth : Z) : nat :=
  Z.to_nat (saturating_add 64 hash_depth MAX_HASH_PREFIX_PROBES - hash_depth).

Definition child_spec : Type := Z * bytes * list (Z * Z) * list NodeId.

Definition child_specs (prefix : list (Z * Z)) (split_depth : Z)
    (buckets : btree Z (list NodeId)) : list child_spec :=
  map (fun '(digit, members) =>
    let child_prefix := prefix ++ [(split_depth, digit)] in
    (digit, hierarchy_group_id child_prefix, child_prefix, members)) buckets.

(** The loop over the children; [rec] is the recursive call. *)
Fixpoint build_children
    (rec : list NodeId -> bytes -> list (Z * Z) -> list HierarchyGroup ->
           option (result (list HierarchyGroup) BoundedTopologyError))
    (specs : list child_spec) (gs : list HierarchyGroup)
  : option (result (list HierarchyGroup) BoundedTopologyError) :=
  match specs with
  | [] => Some (Ok gs)
  | (_, child_id, child_prefix, members) :: specs =>
      let* gs := rec members child_id child_prefix gs in
      build_children rec specs gs
  end.

Fixpoint build_hierarchy_group (fuel : nat) (ids : list NodeId) (parent : option bytes)
    (id : bytes) (depth hash_depth : Z) (prefix : list (Z * Z)) (gs : list HierarchyGroup)
  : option (result (list HierarchyGroup) BoundedTopologyError) :=
  match fuel with
  | O => None
  | S fuel =>
      let ids := vec_sort ids in
      if lenZ ids <=? block_size config
      then Some (Ok (gs ++ [{| block_id := id; node_ids := ids; parent_block_id := parent;
                              child_block_ids := []; depth := depth; representatives := [] |}]))
      else match find_split (probe_count hash_depth) ids hash_depth with
      | None => Some (Err (InvariantViolation
                  (bstr "hash-prefix hierarchy could not split an oversized leaf")))
      | Some (split_depth, buckets) =>
          let specs := child_specs prefix split_depth buckets in
          let gs := gs ++ [{| block_id := id; node_ids := ids; parent_block_id := parent;
                              child_block_ids := map (fun '(_, child_id, _, _) => child_id) specs;
                              depth := depth; representatives := [] |}] in
          build_children
            (fun members child_id child_prefix gs =>
               build_hierarchy_group fuel members (Some id) child_id (depth + 1)
                 (split_depth + 1) child_prefix gs)
            specs gs
      end
  end.

(** By depth, then by identifier. *)
Definition group_cmp (l r : HierarchyGroup) : comparison :=
  match depth l ?= depth r with Eq => kcmp (block_id l) (block_id r) | c => c end.

(** A child has fewer members than its parent: the number of nodes bounds the depth. *)
Definition build_hierarchy (ids : list NodeId)
  : option (result (list HierarchyGroup) BoundedTopologyError) :=
  match ids with
  | [] => Some (Ok [])
  | _ =>
      let* gs := build_hierarchy_group (S (length ids)) ids None (bstr "group-root") 0 0 [] [] in
      Some (Ok (sort_by group_cmp gs))
  end.

(** ** Links *)

Definition edges_state : Type := adjacency_map * placements.

(** A link with its place in the hierarchy. *)
Definition add_placed_edge (placement : TopologyEdgePlacement) (st : edges_state) (a b : NodeId)
  : edges_state :=
  let '(adj, pl) := st in
  (add_undirected_edge adj a b,
   match edge_new a b with
   | Some e => bt_entry [] (bs_insert placement) e pl
   | None => pl
   end).

(** The pairs [(cycle[i], cycle[(i + 1) % len])] of the cycle. *)
Definition cycle_pairs {A} (cycle : list A) : list (A * A) :=
  zip cycle (drop 1 cycle ++ take 1 cycle).

Definition add_placed_cycle (st : edges_state) (cycle : list NodeId)
    (placement : TopologyEdgePlacement) : edges_state :=
  if lenZ cycle <? 2 then st
  else
    let edge_count := if lenZ cycle =? 2 then 1%nat else length cycle in
    foldl (fun st '(a, b) => add_placed_edge placement st a b) st
      (take edge_count (cycle_pairs cycle)).

Definition add_leaf_cycles (hierarchy : list HierarchyGroup) (st : edges_state) : edges_state :=
  foldl (fun st g => add_placed_cycle st (node_ids g)
           {| level := depth g; plane := 0; edge_kind := LeafCycle; placement_group_id := block_id g |})
    st (List.filter (fun g => bool_decide (child_block_ids g = [])) hierarchy).

(** ** Representatives *)

Definition representative_score (group_id : bytes) (plane : Z) (node_id : NodeId) : Z :=
  hash_fields [bstr "ipars-hierarchy-representative"; TOPOLOGY_ALGORITHM_VERSION;
    permutation_seed config; group_id; u64_to_string plane; node_id].

Definition degree (adj : adjacency_map) (n : NodeId) : Z :=
  match bt_get n adj with Some ns => lenZ ns | None => 0 end.

Definition reserved_degree (reserved : btree NodeId Z) (n : NodeId) : Z :=
  default 0 (bt_get n reserved).

(** [max_by_key]: the last of the greatest elements. *)
Definition better {K} `{KeyOrd K} {A} (key : A -> K) (best : option A) (x : A) : option A :=
  match best with
  | None => Some x
  | Some b => match kcmp (key b) (key x) with Gt => Some b | _ => Some x end
  end.

Definition max_by_key {K} `{KeyOrd K} {A} (key : A -> K) (l : list A) : option A :=
  foldl (better key) None l.

Definition select_candidate (group_id : bytes) (candidates : list NodeId) (role_degree : Z)
    (reserved : btree NodeId Z) (adj : adjacency_map) (plane : Z)
    (selected : list TopologyRepresentative) : option NodeId :=
  max_by_key (fun n => (representative_score group_id plane n, n))
    (List.filter (fun n => degree adj n + reserved_degree reserved n + role_degree
                           <=? max_degree config)
      (List.filter (fun n => negb (existsb (fun r => bool_decide (rep_node_id r = n)) selected))
        candidates)).

Definition select_group_representatives (group_id : bytes) (candidates : list NodeId)
    (role_degree : Z) (reserved : btree NodeId Z) (adj : adjacency_map)
  : result (list TopologyRepresentative) BoundedTopologyError :=
  match candidates with
  | [n] =>
      if max_degree config <? degree adj n + reserved_degree reserved n + 2 * role_degree
      then Err (RepresentativeCapacity group_id)
      else Ok [{| rep_node_id := n; rep_plane := 0 |}; {| rep_node_id := n; rep_plane := 1 |}]
  | _ =>
      let? first := ok_or (select_candidate group_id candidates role_degree reserved adj 0 [])
                      (RepresentativeCapacity group_id) in
      let selected := [{| rep_node_id := first; rep_plane := 0 |}] in
      let? second := ok_or (select_candidate group_id candidates role_degree reserved adj 1 selected)
                       (RepresentativeCapacity group_id) in
      Ok (selected ++ [{| rep_node_id := second; rep_plane := 1 |}])
  end.

Definition set_representatives (g : HierarchyGroup) (reps : list TopologyRepresentative)
  : HierarchyGroup :=
  {| block_id := block_id g; node_ids := node_ids g; parent_block_id := parent_block_id g;
     child_block_ids := child_block_ids g; depth := depth g; representatives := reps |}.

(** Deepest groups first, then by identifier; the root has no representatives. *)
Definition order_cmp (l r : Z * bytes * nat) : comparison :=
  match r.1.1 ?= l.1.1 with Eq => kcmp l.1.2 r.1.2 | c => c end.

Definition group_order (hierarchy : list HierarchyGroup) : list (Z * bytes * nat) :=
  sort_by order_cmp
    (omap (fun '(i, g) => if bool_decide (parent_block_id g = None) then None
                          else Some (depth g, block_id g, i))
       (imap (fun i g => (i, g)) hierarchy)).

Fixpoint allocate_representatives (order : list (Z * bytes * nat))
    (hierarchy : list HierarchyGroup) (reserved : btree NodeId Z) (adj : adjacency_map)
  : option (result (list HierarchyGroup * btree NodeId Z) BoundedTopologyError) :=
  match order with
  | [] => Some (Ok (hierarchy, reserved))
  | (_, _, group_index) :: order =>
      let role_degree := 1 in
      let* g := index_or_panic hierarchy group_index in
      let* reps := Some (select_group_representatives (block_id g) (node_ids g) role_degree
                           reserved adj) in
      let reserved := foldl (fun m r => bt_entry 0 (fun d => d + role_degree) (rep_node_id r) m)
                        reserved reps in
      allocate_representatives order (<[group_index := set_representatives g reps]> hierarchy)
        reserved adj
  end.

Definition representative_for_plane (g : HierarchyGroup) (plane : Z)
  : result NodeId BoundedTopologyError :=
  ok_or (rep_node_id <$> List.find (fun r => rep_plane r =? plane) (representatives g))
    (RepresentativeCapacity (block_id g)).

(** [hierarchy[index_by_id[id]]] *)
Definition group_by_id (hierarchy : list HierarchyGroup) (index_by_id : btree bytes nat)
    (id : bytes) : option (result HierarchyGroup BoundedTopologyError) :=
  match bt_get id index_by_id with
  | Some i => index_or_panic hierarchy i
  | None => None
  end.

Fixpoint add_ring_links (hierarchy : list HierarchyGroup) (index_by_id : btree bytes nat)
    (pairs : list (bytes * bytes)) (placement : TopologyEdgePlacement) (st : edges_state)
  : option (result edges_state BoundedTopologyError) :=
  match pairs with
  | [] => Some (Ok st)
  | (source_id, target_id) :: pairs =>
      let* source_child := group_by_id hierarchy index_by_id source_id in
      let* target_child := group_by_id hierarchy index_by_id target_id in
      let* source := Some (representative_for_plane source_child 1) in
      let* target := Some (representative_for_plane target_child 0) in
      add_ring_links hierarchy index_by_id pairs placement
        (add_placed_edge placement st source target)
  end.

Definition add_hierarchy_block_ring (hierarchy : list HierarchyGroup)
    (index_by_id : btree bytes nat) (child_ids : list bytes) (st : edges_state)
    (placement : TopologyEdgePlacement) : option (result edges_state BoundedTopologyError) :=
  add_ring_links hierarchy index_by_id (cycle_pairs child_ids) placement st.

Fixpoint add_rings (hierarchy : list HierarchyGroup) (index_by_id : btree bytes nat)
    (parent_ids : list bytes) (st : edges_state) : option (result edges_state BoundedTopologyError) :=
  match parent_ids with
  | [] => Some (Ok st)
  | parent_id :: parent_ids =>
      let* parent := group_by_id hierarchy index_by_id parent_id in
      let* st := add_hierarchy_block_ring hierarchy index_by_id (child_block_ids parent) st
                   {| level := depth parent; plane := 0; edge_kind := HierarchyLink;
                      placement_group_id := parent_id |} in
      add_rings hierarchy index_by_id parent_ids st
  end.

(** Collecting into a map: of equal keys the last wins. *)
Definition index_by_id_of (hierarchy : list HierarchyGroup) : btree bytes nat :=
  foldl (fun m '(i, g) => bt_insert (block_id g) i m) [] (imap (fun i g => (i, g)) hierarchy).

Definition allocate_representatives_and_hierarchy_edges (hierarchy : list HierarchyGroup)
    (reserved : btree NodeId Z) (st : edges_state)
  : option (result (list HierarchyGroup * edges_state) BoundedTopologyError) :=
  let index_by_id := index_by_id_of hierarchy in
  let* (hierarchy, reserved) :=
    allocate_representatives (group_order hierarchy) hierarchy reserved st.1 in
  let parent_ids := map block_id (List.filter (fun g => 2 <=? lenZ (child_block_ids g)) hierarchy) in
  let* st := add_rings hierarchy index_by_id parent_ids st in
  Some (Ok (hierarchy, st)).

(** ** Synthesis *)

Definition canonical_node_ids (nodes : list NodeId) : result (list NodeId) BoundedTopologyError :=
  let ids := vec_sort nodes in
  match List.find (fun '(a, b) => bool_decide (a = b)) (windows2 ids) with
  | Some (a, _) => Err (DuplicateNodeId a)
  | None => Ok ids
  end.

Definition compute_epoch (ids : list NodeId) : Z :=
  hash_fields ([TOPOLOGY_ALGORITHM_VERSION; u64_to_string (max_degree config);
    u64_to_string (block_size config); permutation_seed config; u64_to_string (lenZ ids)] ++ ids).

(** The first violated invariant. *)
Definition check_invariants (i : TopologyInvariants) : result unit BoundedTopologyError :=
  if negb (connected i) then Err (InvariantViolation (bstr "graph is disconnected"))
  else if negb (symmetric i) then Err (InvariantViolation (bstr "adjacency is asymmetric"))
  else if negb (no_self_loops i) then Err (InvariantViolation (bstr "graph contains a self-loop"))
  else if negb (within_degree_bound i)
       then Err (InvariantViolation (bstr "graph exceeds the configured maximum degree"))
  else Ok tt.

Definition check_config : result unit BoundedTopologyError :=
  let minimum := Z.max MIN_OVERLAY_BLOCK_SIZE MIN_HIERARCHICAL_BLOCK_SIZE in
  if negb (existsb (Z.eqb (max_degree config)) SUPPORTED_MAX_DEGREES)
  then Err (UnsupportedMaxDegree (max_degree config))
  else if negb ((minimum <=? block_size config) && (block_size config <=? MAX_OVERLAY_BLOCK_SIZE))
       then Err (InvalidBlockSize (block_size config) minimum MAX_OVERLAY_BLOCK_SIZE)
  else Ok tt.

Definition index_nodes (ids : list NodeId) : btree NodeId nat :=
  foldl (fun m '(i, n) => bt_insert n i m) [] (imap pair ids).

Definition index_adjacency (adj : adjacency_map) (indexes : btree NodeId nat) (ids : list NodeId)
  : list (list nat) :=
  map (fun n => omap (fun k => bt_get k indexes) (neighbors adj n)) ids.

Definition empty_adjacency (ids : list NodeId) : adjacency_map :=
  foldl (fun m n => bt_insert n [] m) [] ids.

Definition synthesize_ids (nodes : list NodeId) : option (result BoundedTopology BoundedTopologyError) :=
  let* _ := Some check_config in
  let* ids := Some (canonical_node_ids nodes) in
  let* hierarchy := build_hierarchy ids in
  let st := add_leaf_cycles hierarchy (empty_adjacency ids, []) in
  let* (hierarchy, (adj, pl)) := allocate_representatives_and_hierarchy_edges hierarchy [] st in
  let inv := inspect_invariants adj (max_degree config) in
  let* _ := Some (check_invariants inv) in
  match graph_has_no_articulation_points adj with
  | None => None
  | Some false => Some (Err (InvariantViolation
                    (bstr "a single node failure disconnects the remaining graph")))
  | Some true =>
      let indexes := index_nodes ids in
      Some (Ok {| topology_epoch := compute_epoch ids; topology_max_degree := max_degree config;
        fanout := block_size config; groups := map into_group hierarchy; edge_placements := pl;
        adjacency := adj; invariants := inv;
        diameter_lower_bound := calculate_diameter_lower_bound adj; routing_node_ids := ids;
        routing_node_indexes := indexes; indexed_adjacency := index_adjacency adj indexes ids |})
  end.

Definition synthesize `{IpNetOps} (nodes : list Overlay.NodeRecord)
  : option (result BoundedTopology BoundedTopologyError) :=
  synthesize_ids (map Overlay.node_id nodes).

End Synthesis.

(** Six nodes: one more split than a single block of four. *)
Definition sample_members : list NodeId :=
  map (fun i => bstr "node-" ++ u64_to_string (Z.of_nat i)) (seq 0 6).

End Synthesis.
