(* ===== verification/TopologyHierarchy.v ===== *)
(** * The hierarchy of groups is a tree of bounded blocks

    Splitting by hash digits ends, and the groups it pushes are those of a tree: leaves
    of at most the block size, internal groups with two to block size many children that
    partition the members of their parent. *)

From S2P Require Import Prelude RustStd BTree SortBy Hashing TopologyGraph TopologySynthesis.
From Stdlib Require Import Sorting.Sorted.

#[local] Set Warnings "-register-all".

Module Hierarchy.
Import Synthesis Hashing.

(** ** Buckets *)

Lemma values_entry {K} `{KeyOrd K} {A} (x : A) k (m : btree K (list A)) :
  concat (bt_values (bt_entry [] (fun l => l ++ [x]) k m)) ≡ₚ x :: concat (bt_values m).
Proof.
  unfold bt_entry, bt_values. induction m as [|[k' v] m IH]; simpl; [done|].
  destruct (kcmp k k') eqn:E; simpl.
  - rewrite <- app_assoc. simpl. by rewrite <- Permutation_middle.
  - done.
  - rewrite IH. by rewrite <- Permutation_middle.
Qed.

Lemma list_filter_perm {A} (f : A -> bool) l l' : l ≡ₚ l' -> List.filter f l ≡ₚ List.filter f l'.
Proof.
  induction 1 as [|x l l' _ IH|x y l|l1 l2 l3 _ IH1 _ IH2]; simpl; [done| | |by rewrite IH1].
  - destruct (f x); by rewrite IH.
  - destruct (f x), (f y); try done. constructor.
Qed.

Section Tree.
Context `{DigestOps}.
Variable config : BoundedTopologyConfig.

(** Each bucket holds the nodes of one digit, and none is empty. *)
Record buckets_ok (probe : Z) (ids : list NodeId) (b : btree Z (list NodeId)) : Prop := {
  bo_wf : bt_wf b;
  bo_perm : concat (bt_values b) ≡ₚ ids;
  bo_digit : forall d ns, bt_get d b = Some ns ->
    ns <> [] /\ forall n, n ∈ ns -> hash_prefix_digit config n probe = d
}.

Lemma bucketize_snoc ids n probe :
  bucketize config (ids ++ [n]) probe =
  bt_entry [] (fun l => l ++ [n]) (hash_prefix_digit config n probe) (bucketize config ids probe).
Proof. unfold bucketize. by rewrite foldl_app. Qed.

Lemma bucketize_ok ids probe : buckets_ok probe ids (bucketize config ids probe).
Proof.
  induction ids as [|n ids IH] using rev_ind; [by split; [constructor|..]|].
  destruct IH as [Hwf Hp Hd]. rewrite bucketize_snoc. split.
  - by apply bt_wf_insert.
  - rewrite values_entry, Hp. apply Permutation_cons_append.
  - intros d ns. unfold bt_entry. set (k := hash_prefix_digit config n probe).
    destruct (decide (k = d)) as [<-|Hne].
    + rewrite bt_get_insert. intros [= <-]. split; [by intros [_ ?]%app_eq_nil|].
      intros x. rewrite elem_of_app, list_elem_of_singleton. intros [Hx| ->]; [|done].
      destruct (bt_get k (bucketize config ids probe)) as [l|] eqn:E; simpl in Hx;
        [|by apply not_elem_of_nil in Hx]. by eapply Hd.
    + rewrite bt_get_insert_ne by done. apply Hd.
Qed.

Lemma find_split_ok probes ids probe split b :
  find_split config probes ids probe = Some (split, b) -> buckets_ok split ids b /\ 1 < lenZ b.
Proof.
  revert probe. induction probes as [|probes IH]; intros probe; simpl; [done|].
  destruct (1 <? lenZ (bucketize config ids probe)) eqn:E; [|apply IH].
  intros [= <- <-]. split; [apply bucketize_ok|lia].
Qed.

(** With two buckets, each is smaller than the whole. *)
Lemma bucket_smaller probe ids b d ns :
  buckets_ok probe ids b -> 1 < lenZ b -> (d, ns) ∈ b -> (length ns < length ids)%nat.
Proof.
  intros [Hwf Hp Hd] Hlen Hin. rewrite <- Hp.
  assert (Hne : forall kv, kv ∈ b -> (1 <= length kv.2)%nat).
  { intros [k v] Hk. apply bt_get_elem, Hd in Hk as [Hv _]; [|done]. destruct v; [done|simpl; lia]. }
  apply list_elem_of_split in Hin as (l1 & l2 & ->). unfold bt_values. rewrite map_app, concat_app. simpl.
  rewrite !length_app in *. simpl in Hlen. destruct l1 as [|kv l1].
  - destruct l2 as [|kv l2]; [simpl in Hlen; lia|]. simpl. rewrite length_app.
    pose proof (Hne kv). specialize (H0 ltac:(set_solver)). lia.
  - simpl. rewrite length_app. pose proof (Hne kv ltac:(set_solver)). lia.
Qed.

(** At most one bucket per digit. *)
Lemma bucket_count probe ids b :
  1 <= block_size config -> buckets_ok probe ids b -> lenZ b <= block_size config.
Proof.
  intros Hbs [Hwf Hp Hd]. assert (Hk : bt_keys b ⊆+ map Z.of_nat (seq 0 (Z.to_nat (block_size config)))).
  { apply NoDup_submseteq; [by apply bt_keys_nodup|]. intros d [ns Hns]%bt_keys_get; [|done].
    apply Hd in Hns as [Hne Hdig]. destruct ns as [|n ns]; [done|].
    specialize (Hdig n ltac:(constructor)). unfold hash_prefix_digit in Hdig.
    pose proof (Z.mod_pos_bound (hash_fields [bstr "ipars-hierarchy-prefix";
      TOPOLOGY_ALGORITHM_VERSION; permutation_seed config; u64_to_string probe; n])
      (block_size config)) as Hm.
    apply list_elem_of_fmap. exists (Z.to_nat d). split; [lia|]. apply elem_of_seq. lia. }
  apply submseteq_length in Hk. unfold bt_keys in Hk. rewrite !length_map, length_seq in Hk. lia.
Qed.

(** ** Trees of groups *)

Inductive htree : Type := HTree (g : HierarchyGroup) (children : list htree).

Definition root (t : htree) : HierarchyGroup := let '(HTree g _) := t in g.

(** The groups in the order they are pushed. *)
Fixpoint flatten (t : htree) : list HierarchyGroup :=
  let '(HTree g cs) := t in g :: concat (map flatten cs).

Definition group_ok (g : HierarchyGroup) : Prop :=
  StronglySorted (le_by kcmp) (node_ids g) /\ representatives g = [].

Inductive tree_ok : htree -> Prop :=
| tree_leaf g :
    group_ok g -> child_block_ids g = [] -> node_ids g <> [] ->
    lenZ (node_ids g) <= block_size config -> tree_ok (HTree g [])
| tree_node g cs :
    group_ok g -> block_size config < lenZ (node_ids g) ->
    2 <= lenZ cs <= block_size config ->
    child_block_ids g = map (fun c => block_id (root c)) cs ->
    node_ids g ≡ₚ concat (map (fun c => node_ids (root c)) cs) ->
    Forall (fun c => parent_block_id (root c) = Some (block_id g) /\ depth (root c) = depth g + 1) cs ->
    Forall tree_ok cs -> tree_ok (HTree g cs).

Lemma tree_ok_ind' (P : htree -> Prop) :
  (forall g, tree_ok (HTree g []) -> child_block_ids g = [] -> P (HTree g [])) ->
  (forall g cs, tree_ok (HTree g cs) ->
     child_block_ids g = map (fun c => block_id (root c)) cs ->
     Forall tree_ok cs -> Forall P cs -> P (HTree g cs)) ->
  forall t, tree_ok t -> P t.
Proof.
  intros Hleaf Hnode. fix IH 2. intros t Ht. destruct Ht as [g Hg Hc Hn Hl|g cs Hg Hb Hl Hc Hn Hp Hall].
  - apply Hleaf; [by constructor|done].
  - apply Hnode; [by constructor|done..|].
    clear - IH Hall. induction Hall as [|c cs Hc Hall IHl]; constructor; [by apply IH|exact IHl].
Qed.

Definition split_error : BoundedTopologyError :=
  InvariantViolation (bstr "hash-prefix hierarchy could not split an oversized leaf").

Definition root_is (t : htree) (ids : list NodeId) (parent : option bytes) (id : bytes) (d : Z) : Prop :=
  node_ids (root t) = vec_sort ids /\ parent_block_id (root t) = parent /\
  block_id (root t) = id /\ depth (root t) = d.

(** What a call that appends groups returns: more groups, or the failed split. *)
Definition appends (gs : list HierarchyGroup) (P : list htree -> Prop)
    (r : option (result (list HierarchyGroup) BoundedTopologyError)) : Prop :=
  match r with
  | None => False
  | Some (Ok gs') => exists ts, gs' = gs ++ concat (map flatten ts) /\ P ts
  | Some (Err e) => e = split_error
  end.

Lemma build_children_ok rec (Q : child_spec -> htree -> Prop) specs gs :
  (forall s gs, s ∈ specs -> let '(_, id, prefix, members) := s in
     appends gs (fun ts => exists t, ts = [t] /\ Q s t) (rec members id prefix gs)) ->
  appends gs (fun ts => Forall2 Q specs ts) (build_children rec specs gs).
Proof.
  revert gs. induction specs as [|s specs IH]; intros gs Hrec.
  { exists []. split; [by rewrite app_nil_r|constructor]. }
  pose proof (Hrec s gs ltac:(constructor)) as Hs. destruct s as [[[d id] prefix] members]. simpl.
  destruct (rec members id prefix gs) as [[gs1|e]|]; [|done..].
  destruct Hs as (ts & -> & t & -> & HQ). simpl.
  specialize (IH (gs ++ concat (map flatten [t]))). destruct (build_children rec specs _) as [[gs2|e]|].
  - destruct IH as (ts & -> & HF); [intros; apply Hrec; by constructor|].
    exists (t :: ts). split; [|by constructor]. simpl. by rewrite app_nil_r, <- app_assoc.
  - apply IH. intros. apply Hrec. by constructor.
  - apply IH. intros. apply Hrec. by constructor.
Qed.

Lemma appends_parent gs g P Q r :
  appends (gs ++ [g]) P r -> (forall ts, P ts -> Q (HTree g ts)) ->
  appends gs (fun ts => exists t, ts = [t] /\ Q t) r.
Proof.
  intros Hr HQ. destruct r as [[gs'|e]|]; [|done..]. destruct Hr as (ts & -> & HP).
  exists [HTree g ts]. split; [simpl; by rewrite app_nil_r, <- app_assoc|]. eauto.
Qed.

Lemma bucket_nonempty probe ids b d ns : buckets_ok probe ids b -> (d, ns) ∈ b -> ns <> [].
Proof. intros [Hwf _ Hd] Hin. apply bt_get_elem, Hd in Hin as [? _]; done. Qed.

Definition spec_tree (parent : bytes) (d : Z) (s : child_spec) (t : htree) : Prop :=
  let '(_, id, _, members) := s in tree_ok t /\ root_is t members (Some parent) id d.

Lemma spec_trees_root prefix split b parent d ts :
  Forall2 (spec_tree parent d) (child_specs config prefix split b) ts ->
  map (fun '(_, child_id, _, _) => child_id) (child_specs config prefix split b) =
    map (fun c => block_id (root c)) ts /\
  concat (map (fun c => node_ids (root c)) ts) ≡ₚ concat (bt_values b) /\
  Forall (fun c => parent_block_id (root c) = Some parent /\ depth (root c) = d) ts /\
  Forall tree_ok ts /\ length ts = length b.
Proof.
  revert ts. induction b as [|[k v] b IH]; intros ts HF; simpl in HF.
  { apply Forall2_nil_inv_l in HF as ->. simpl. by repeat constructor. }
  apply Forall2_cons_inv_l in HF as (t & ts' & [Hok (R1 & R2 & R3 & R4)] & HF & ->).
  destruct (IH _ HF) as (H1 & H2 & H3 & H4 & H5). simpl. rewrite H1, R1, R3, H5. split_and!; try done.
  - unfold bt_values. simpl. rewrite H2. unfold vec_sort. by rewrite sort_by_perm.
  - by constructor.
  - by constructor.
Qed.

Lemma build_hierarchy_group_ok fuel ids parent id d hd prefix gs :
  1 <= block_size config -> ids <> [] -> (length ids < fuel)%nat ->
  appends gs (fun ts => exists t, ts = [t] /\ tree_ok t /\ root_is t ids parent id d)
    (build_hierarchy_group config fuel ids parent id d hd prefix gs).
Proof.
  intros Hbs. revert ids parent id d hd prefix gs.
  induction fuel as [|fuel IH]; intros ids parent id d hd prefix gs Hne Hlen; [lia|].
  cbn [build_hierarchy_group]. cbv zeta. pose proof (sort_by_perm kcmp ids) as Hperm. fold (vec_sort ids) in Hperm.
  assert (Hlen' : length (vec_sort ids) = length ids) by (by rewrite Hperm).
  destruct (lenZ (vec_sort ids) <=? block_size config) eqn:Esmall.
  { set (g := {| block_id := id |}). exists [HTree g []]. split; [done|]. eexists. split; [done|].
    split; [|done]. constructor; [split; [apply sort_sorted|done]|done| |simpl; lia].
    simpl. intros E. rewrite E in Hlen'. by destruct ids. }
  destruct (find_split config (probe_count hd) (vec_sort ids) hd) as [[split b]|] eqn:Es; [|done].
  apply find_split_ok in Es as [Hb Hb2].
  set (specs := child_specs config prefix split b).
  set (g := {| block_id := id; node_ids := vec_sort ids; parent_block_id := parent;
               child_block_ids := map (fun '(_, child_id, _, _) => child_id) specs;
               depth := d; representatives := [] |}).
  assert (Hch : appends (gs ++ [g]) (fun ts => Forall2 (spec_tree id (d + 1)) specs ts)
    (build_children (fun members child_id child_prefix gs =>
       build_hierarchy_group config fuel members (Some id) child_id (d + 1) (split + 1)
         child_prefix gs) specs (gs ++ [g]))).
  { apply build_children_ok. intros s gs0 Hs.
    apply list_elem_of_fmap in Hs as ([digit ns] & -> & Hin).
    apply IH; [by eapply bucket_nonempty|].
    pose proof (bucket_smaller split (vec_sort ids) b digit ns Hb Hb2 Hin). lia. }
  eapply appends_parent; [exact Hch|]. intros ts HF.
  destruct (spec_trees_root _ _ _ _ _ _ HF) as (H1 & H2 & H3 & H4 & H5).
  pose proof (bucket_count split (vec_sort ids) b Hbs Hb).
  split; [|done]. constructor; try done; simpl; [split; [apply sort_sorted|done]|lia|lia|].
  rewrite H2. symmetry. apply Hb.
Qed.

(** ** Subtrees *)

Inductive subtree (c : htree) : htree -> Prop :=
| sub_refl : subtree c c
| sub_child g cs c' : c' ∈ cs -> subtree c c' -> subtree c (HTree g cs).

Lemma htree_ind' (P : htree -> Prop) :
  (forall g cs, Forall P cs -> P (HTree g cs)) -> forall t, P t.
Proof.
  intros HP. fix IH 1. intros [g cs]. apply HP.
  induction cs as [|c cs IHcs]; constructor; [apply IH|exact IHcs].
Qed.

Lemma elem_of_concat_map {A B} (f : A -> list B) (x : B) l :
  x ∈ concat (map f l) <-> exists a, a ∈ l /\ x ∈ f a.
Proof.
  rewrite list_elem_of_In, in_concat. split.
  - intros (m & Hm & Hx). apply in_map_iff in Hm as (a & <- & Ha).
    exists a. by rewrite !list_elem_of_In.
  - intros (a & Ha & Hx). exists (f a). rewrite <- !list_elem_of_In. split; [|done].
    by apply list_elem_of_fmap_2.
Qed.

Lemma flatten_subtree t h : h ∈ flatten t -> exists c, subtree c t /\ root c = h.
Proof.
  induction t as [g cs IH] using htree_ind'. simpl. rewrite elem_of_cons.
  intros [->|(c' & Hc' & Hh)%elem_of_concat_map].
  { exists (HTree g cs). split; [constructor|done]. }
  rewrite Forall_forall in IH. destruct (IH c' Hc' Hh) as (c & Hc & Hr).
  exists c. split; [by eapply sub_child|done].
Qed.

Lemma subtree_ok c t : tree_ok t -> subtree c t -> tree_ok c.
Proof.
  intros Hok Hs. revert Hok. induction Hs as [|g cs c' Hin Hs IH]; [done|]. intros Hok. apply IH.
  inversion Hok as [|? ? ? ? ? ? ? ? Hall]; subst; [by apply not_elem_of_nil in Hin|].
  rewrite Forall_forall in Hall. by apply Hall.
Qed.

Lemma subtree_flatten c t h : subtree c t -> h ∈ flatten c -> h ∈ flatten t.
Proof.
  induction 1 as [|g cs c' Hin Hs IH]; [done|]. intros Hh. simpl. right.
  apply elem_of_concat_map. eauto.
Qed.

Lemma root_flatten t : root t ∈ flatten t.
Proof. destruct t. constructor. Qed.

Lemma child_nodes g cs c n :
  tree_ok (HTree g cs) -> c ∈ cs -> n ∈ node_ids (root c) -> n ∈ node_ids g.
Proof.
  intros Hok Hc Hn. inversion Hok as [|? ? ? ? ? ? Hp ? ?]; subst; [by apply not_elem_of_nil in Hc|].
  rewrite Hp. apply elem_of_concat_map. eauto.
Qed.

Lemma subtree_nodes c t n : tree_ok t -> subtree c t -> n ∈ node_ids (root c) -> n ∈ node_ids (root t).
Proof.
  intros Hok Hs. revert Hok. induction Hs as [|g cs c' Hin Hs IH]; [done|]. intros Hok Hn.
  eapply child_nodes; [done..|]. apply IH; [|done]. eapply subtree_ok; [done|]. econstructor; [done|constructor].
Qed.

Lemma flatten_nodes t h n : tree_ok t -> h ∈ flatten t -> n ∈ node_ids h -> n ∈ node_ids (root t).
Proof. intros Hok (c & Hc & <-)%flatten_subtree. by apply subtree_nodes. Qed.

Lemma child_depth g cs c : tree_ok (HTree g cs) -> c ∈ cs -> depth (root c) = depth g + 1.
Proof.
  intros Hok Hc. inversion Hok as [|? ? ? ? ? ? ? Hall ?]; subst; [by apply not_elem_of_nil in Hc|].
  rewrite Forall_forall in Hall. by apply Hall.
Qed.

Lemma child_ok g cs c : tree_ok (HTree g cs) -> c ∈ cs -> tree_ok c.
Proof. intros Hok Hc. eapply subtree_ok; [done|]. econstructor; [done|constructor]. Qed.

Lemma subtree_depth c t : tree_ok t -> subtree c t -> c = t \/ depth (root t) < depth (root c).
Proof.
  intros Hok Hs. revert Hok. induction Hs as [|g cs c' Hin Hs IH]; [by left|]. intros Hok. right.
  pose proof (child_depth _ _ _ Hok Hin). simpl. destruct (IH (child_ok _ _ _ Hok Hin)) as [->|?]; lia.
Qed.

(** Siblings share no node. *)
Lemma siblings_disjoint g cs c1 c2 n :
  tree_ok (HTree g cs) -> NoDup (node_ids g) -> c1 ∈ cs -> c2 ∈ cs ->
  n ∈ node_ids (root c1) -> n ∈ node_ids (root c2) -> c1 = c2.
Proof.
  intros Hok Hnd H1 H2 Hn1 Hn2.
  inversion Hok as [|? ? ? ? ? ? Hp ? ?]; subst; [by apply not_elem_of_nil in H1|].
  rewrite Hp in Hnd. clear - Hnd H1 H2 Hn1 Hn2.
  induction cs as [|c cs IH]; [by apply not_elem_of_nil in H1|]. simpl in Hnd.
  apply NoDup_app in Hnd as (Hn & Hdis & Hnd).
  apply elem_of_cons in H1 as [->|H1], H2 as [->|H2]; [done| | |by apply IH].
  - destruct (Hdis n Hn1). apply elem_of_concat_map. eauto.
  - destruct (Hdis n Hn2). apply elem_of_concat_map. eauto.
Qed.

Lemma child_nodup g cs c : tree_ok (HTree g cs) -> NoDup (node_ids g) -> c ∈ cs -> NoDup (node_ids (root c)).
Proof.
  intros Hok Hnd Hc. inversion Hok as [|? ? ? ? ? ? Hp ? ?]; subst; [by apply not_elem_of_nil in Hc|].
  rewrite Hp in Hnd. clear - Hnd Hc. induction cs as [|c' cs IH]; [by apply not_elem_of_nil in Hc|].
  simpl in Hnd. apply NoDup_app in Hnd as (Hn & _ & Hnd). apply elem_of_cons in Hc as [->|Hc]; auto.
Qed.

Lemma subtree_nodup c t : tree_ok t -> NoDup (node_ids (root t)) -> subtree c t -> NoDup (node_ids (root c)).
Proof.
  intros Hok Hnd Hs. revert Hok Hnd. induction Hs as [|g cs c' Hin Hs IH]; [done|]. intros Hok Hnd.
  apply IH; [by eapply child_ok|by eapply child_nodup].
Qed.

(** A group as deep as [c] that shares a node with it belongs to its subtree. *)
Lemma shared_node_subtree t c h n :
  tree_ok t -> NoDup (node_ids (root t)) -> subtree c t -> h ∈ flatten t ->
  depth (root c) <= depth h -> n ∈ node_ids h -> n ∈ node_ids (root c) -> h ∈ flatten c.
Proof.
  intros Hok Hnd Hs. revert Hok Hnd. induction Hs as [|g cs c' Hin Hs IH]; [done|].
  intros Hok Hnd Hh Hd Hn Hnc.
  pose proof (child_ok _ _ _ Hok Hin) as Hok'. pose proof (child_depth _ _ _ Hok Hin) as Hd'.
  apply IH; [done|by eapply child_nodup| |done..].
  simpl in Hh. apply elem_of_cons in Hh as [->|Hh].
  { destruct (subtree_depth c c' Hok' Hs) as [->|?]; lia. }
  apply elem_of_concat_map in Hh as (c2 & Hc2 & Hh).
  assert (c2 = c') as ->; [|done].
  eapply (siblings_disjoint g cs c2 c' n); [done..| |by eapply subtree_nodes].
  eapply flatten_nodes; [by eapply child_ok|done..].
Qed.

(** ** Counting groups against nodes *)

Definition sumZ {A} (f : A -> Z) (l : list A) : Z := foldr (fun x acc => f x + acc) 0 l.

Lemma sumZ_app {A} (f : A -> Z) l l' : sumZ f (l ++ l') = sumZ f l + sumZ f l'.
Proof. induction l as [|x l IH]; simpl; lia. Qed.

Lemma sumZ_perm {A} (f : A -> Z) l l' : l ≡ₚ l' -> sumZ f l = sumZ f l'.
Proof. induction 1; simpl; lia. Qed.

(** When every leaf has room for four roles, every subtree has room for two roles of each
    of its groups and two more. *)
Lemma subtree_capacity (cap : NodeId -> Z) t :
  tree_ok t ->
  (forall g, g ∈ flatten t -> child_block_ids g = [] -> 4 <= sumZ cap (node_ids g)) ->
  2 * lenZ (flatten t) + 2 <= sumZ cap (node_ids (root t)).
Proof.
  revert t. apply (tree_ok_ind' (fun t => (forall g, g ∈ flatten t -> child_block_ids g = [] ->
    4 <= sumZ cap (node_ids g)) -> 2 * lenZ (flatten t) + 2 <= sumZ cap (node_ids (root t)))).
  - intros g _ Hc Hcap. simpl. specialize (Hcap g ltac:(constructor) Hc). lia.
  - intros g cs Hok _ _ IH Hcap. inversion Hok as [|? ? ? ? Hlen ? Hp ? ?]; subst; simpl.
    { specialize (Hcap g ltac:(constructor) ltac:(done)). lia. }
    rewrite (sumZ_perm _ _ _ Hp).
    assert (Hsum : 2 * lenZ (concat (map flatten cs)) + 2 * lenZ cs <=
                   sumZ cap (concat (map (fun c => node_ids (root c)) cs))); [|lia].
    assert (Hcs : forall h, h ∈ concat (map flatten cs) -> child_block_ids h = [] -> 4 <= sumZ cap (node_ids h))
      by (intros h Hh; apply Hcap; by constructor).
    clear - IH Hcs. induction IH as [|c cs Hc _ IHcs]; simpl; [lia|].
    rewrite sumZ_app, length_app. simpl in Hcs.
    pose proof (Hc ltac:(intros; apply Hcs; [rewrite elem_of_app; by left|done])).
    pose proof (IHcs ltac:(intros; apply Hcs; [rewrite elem_of_app; by right|done])). lia.
Qed.

(** ** Leaves and children *)

Lemma leaf_size t g :
  tree_ok t -> g ∈ flatten t -> child_block_ids g = [] ->
  node_ids g <> [] /\ lenZ (node_ids g) <= block_size config.
Proof.
  intros Hok (c & Hc & <-)%flatten_subtree Hleaf. apply (subtree_ok c t) in Hok; [|done].
  destruct Hok as [g ? ? ? ?|g cs ? ? Hlen Hids ? ? ?]; [done|]. simpl in *. rewrite Hids in Hleaf.
  destruct cs; [simpl in Hlen; lia|done].
Qed.

(** The leaves partition the nodes. *)
Lemma tree_leaves t :
  tree_ok t ->
  concat (map node_ids (List.filter (fun g => bool_decide (child_block_ids g = [])) (flatten t)))
  ≡ₚ node_ids (root t).
Proof.
  revert t. apply (tree_ok_ind' (fun t =>
    concat (map node_ids (List.filter (fun g => bool_decide (child_block_ids g = [])) (flatten t)))
    ≡ₚ node_ids (root t))).
  - intros g _ Hc. simpl. rewrite bool_decide_true by done. simpl. by rewrite app_nil_r.
  - intros g cs Hok Hids _ IH. simpl. inversion Hok as [|? ? ? ? Hlen ? Hp ? ?]; subst; simpl.
    { rewrite bool_decide_true by done. simpl. by rewrite app_nil_r. }
    rewrite bool_decide_false by (rewrite Hids; destruct cs; [simpl in Hlen; lia|done]).
    rewrite Hp. clear - IH. induction IH as [|c cs Hc _ IHcs]; [done|]. simpl.
    by rewrite List.filter_app, map_app, concat_app, Hc, IHcs.
Qed.

(** Every group but the root is a child of exactly one group. *)
Lemma tree_children t :
  tree_ok t -> map block_id (flatten t) ≡ₚ block_id (root t) :: concat (map child_block_ids (flatten t)).
Proof.
  revert t. apply (tree_ok_ind' (fun t =>
    map block_id (flatten t) ≡ₚ block_id (root t) :: concat (map child_block_ids (flatten t)))).
  - intros g _ Hc. simpl. by rewrite Hc.
  - intros g cs _ Hids _ IH. simpl. rewrite Hids. constructor. clear Hids.
    induction IH as [|c cs Hc _ IHcs]; [done|]. simpl.
    rewrite map_app, Hc, IHcs, map_app, concat_app. simpl. constructor.
    rewrite !app_assoc. apply Permutation_app_tail. apply Permutation_app_comm.
Qed.

Lemma tree_group_ok t g : tree_ok t -> g ∈ flatten t -> group_ok g.
Proof.
  intros Hok (c & Hc & <-)%flatten_subtree. apply (subtree_ok c t) in Hok; [|done].
  by destruct Hok.
Qed.

(** Only the root has no parent. *)
Lemma tree_parents t g :
  tree_ok t -> g ∈ flatten t -> g = root t \/ parent_block_id g <> None.
Proof.
  intros Hok (c & Hc & <-)%flatten_subtree. revert Hok.
  induction Hc as [|g cs c' Hin Hs IH]; intros Hok; [by left|]. right.
  destruct (IH (child_ok _ _ _ Hok Hin)) as [E|?]; [|done].
  inversion Hok as [|? ? ? ? ? ? ? Hall ?]; subst; [by apply not_elem_of_nil in Hin|].
  rewrite Forall_forall in Hall. destruct (Hall c' Hin) as [Hpar _]. congruence.
Qed.

Lemma build_hierarchy_tree ids :
  1 <= block_size config -> ids <> [] ->
  match build_hierarchy config ids with
  | None => False
  | Some (Err e) => e = split_error
  | Some (Ok gs) =>
      exists t, gs ≡ₚ flatten t /\ tree_ok t /\ root_is t ids None (bstr "group-root") 0
  end.
Proof.
  intros Hbs Hne. unfold build_hierarchy. destruct ids as [|x ids'] eqn:E; [done|]. rewrite <- E in *.
  pose proof (build_hierarchy_group_ok (S (length ids)) ids None (bstr "group-root") 0 0 [] []
                Hbs ltac:(congruence) ltac:(lia)) as Hb.
  destruct (build_hierarchy_group config _ ids None (bstr "group-root") 0 0 [] []) as [[gs|e]|]; [|done..].
  destruct Hb as (ts & -> & t & -> & Hok & Hr). exists t. split_and!; [|done..].
  simpl. rewrite sort_by_perm. by rewrite app_nil_r.
Qed.

(** The hierarchy of a nonempty membership is a tree of blocks: it is built in
    finitely many steps unless no hash digit separates an oversized group, its leaves
    partition the nodes into blocks of at most the configured size, and every other group
    has at least two and at most that many children, which partition its members. *)
Theorem hierarchy_is_block_tree ids :
  1 <= block_size config -> ids <> [] ->
  match build_hierarchy config ids with
  | None => False
  | Some (Err e) => e = split_error
  | Some (Ok gs) =>
      (exists t, gs ≡ₚ flatten t /\ tree_ok t /\ root_is t ids None (bstr "group-root") 0) /\
      concat (map node_ids (List.filter (fun g => bool_decide (child_block_ids g = [])) gs)) ≡ₚ ids
  end.
Proof.
  intros Hbs Hne. pose proof (build_hierarchy_tree ids Hbs Hne) as Hb.
  destruct (build_hierarchy config ids) as [[gs|e]|]; [|done..].
  destruct Hb as (t & Hp & Hok & Hr). split; [by exists t|].
  assert (Hperm : List.filter (fun g => bool_decide (child_block_ids g = [])) gs ≡ₚ
                  List.filter (fun g => bool_decide (child_block_ids g = [])) (flatten t))
    by by apply list_filter_perm.
  rewrite Hperm, tree_leaves by done. destruct Hr as [-> _]. apply sort_by_perm.
Qed.

End Tree.

Lemma hierarchy_is_block_tree_witness :
  exists gs, @build_hierarchy sample_digest (config_new 4) sample_members = Some (Ok gs) /\
  concat (map node_ids (List.filter (fun g => bool_decide (child_block_ids g = [])) gs)) ≡ₚ sample_members.
Proof.
  pose proof (@hierarchy_is_block_tree sample_digest (config_new 4) sample_members
                ltac:(vm_compute; congruence) ltac:(vm_compute; congruence)) as Ht.
  assert (Hr : match @build_hierarchy sample_digest (config_new 4) sample_members with
               | Some (Ok _) => true | _ => false end = true) by (vm_compute; reflexivity).
  destruct (@build_hierarchy sample_digest (config_new 4) sample_members) as [[gs|e]|];
    [|discriminate Hr|discriminate Hr].
  exists gs. split; [reflexivity|apply Ht].
Defined.

End Hierarchy.
