(* ===== verification/TopologyLinks.v ===== *)
(** * Adding links to the backbone

    What a sequence of [add_undirected_edge] calls does to the adjacency: the nodes stay,
    both levels stay ordered, the neighbors grow by exactly the added pairs, and a degree
    grows by at most one for each pair that names the node. *)

From S2P Require Import Prelude RustStd BTree SortBy Hashing Bfs TopologyGraph TopologySynthesis.

Module Links.
Import TopologyGraph Synthesis.

Abbreviation link := (NodeId * NodeId)%type.

Definition link_all (adj : adjacency_map) (l : list link) : adjacency_map :=
  foldl (fun adj '(a, b) => add_undirected_edge adj a b) adj l.

Definition times (n : NodeId) (l : list NodeId) : Z := lenZ (filter (fun x => x = n) l).

(** The nodes that the links name, one entry per end. *)
Definition link_ends (l : list link) : list NodeId := map fst l ++ map snd l.

Lemma link_all_app adj l l' : link_all adj (l ++ l') = link_all (link_all adj l) l'.
Proof. apply foldl_app. Qed.

(** ** The nodes of the map *)

Lemma keys_insert_present {V} k (v v' : V) (m : btree NodeId V) :
  bt_get k m = Some v' -> bt_keys (bt_insert k v m) = bt_keys m.
Proof.
  unfold bt_keys. induction m as [|[k' x] m IH]; [done|]. cbn [bt_get bt_insert].
  destruct (kcmp k k') eqn:E; simpl; [|done|].
  - apply kcmp_eq in E as ->. done.
  - intros Hk. by rewrite IH.
Qed.

(** One direction of a link. *)
Definition half_link (adj : adjacency_map) (a b : NodeId) : adjacency_map :=
  match bt_get a adj with
  | Some s => bt_insert a (bs_insert b s) adj
  | None => adj
  end.

Lemma add_undirected_halves adj a b :
  add_undirected_edge adj a b = if bool_decide (a = b) then adj else half_link (half_link adj a b) b a.
Proof. done. Qed.

Lemma half_link_keys adj a b : bt_keys (half_link adj a b) = bt_keys adj.
Proof. unfold half_link. destruct (bt_get a adj) eqn:E; [|done]. by eapply keys_insert_present. Qed.

Lemma half_link_ordered adj a b : ordered adj -> ordered (half_link adj a b).
Proof.
  intros Ho. unfold half_link. destruct (bt_get a adj) as [s|] eqn:E; [|done].
  apply ordered_insert; [done|]. apply bt_wf_insert. by eapply Ho.
Qed.

Lemma key_in adj n : ordered adj -> is_Some (bt_get n adj) <-> n ∈ bt_keys adj.
Proof. intros [Hwf _]. by rewrite bt_keys_get. Qed.

Lemma half_link_mem adj a b x y :
  ordered adj -> a ∈ bt_keys adj ->
  y ∈ neighbors (half_link adj a b) x <-> y ∈ neighbors adj x \/ (x = a /\ y = b).
Proof.
  intros Ho Ha. pose proof (half_link_ordered adj a b Ho) as Ho'.
  apply key_in in Ha as [s Hs]; [|done].
  rewrite !neighbors_mem by done. unfold half_link in *. rewrite Hs in *.
  destruct (decide (a = x)) as [<-|Hne].
  - rewrite bt_get_insert. split.
    + intros (? & [= <-] & [->|Hy]%bs_mem_insert); [by right|left; eauto].
    + intros [(s' & Hs' & Hy)|[_ ->]].
      * rewrite Hs in Hs'. injection Hs' as <-. eexists. split; [done|]. apply bs_mem_insert. by right.
      * eexists. split; [done|]. apply bs_mem_insert. by left.
  - rewrite bt_get_insert_ne by done. split; [by left|]. intros [?|[? _]]; congruence.
Qed.

Lemma add_link_mem adj a b x y :
  ordered adj -> a ∈ bt_keys adj -> b ∈ bt_keys adj ->
  y ∈ neighbors (add_undirected_edge adj a b) x <->
  y ∈ neighbors adj x \/ (x <> y /\ ((x, y) = (a, b) \/ (y, x) = (a, b))).
Proof.
  intros Ho Ha Hb. rewrite add_undirected_halves. case_bool_decide as E.
  - subst b. split; [by left|]. intros [?|[? [[= -> ->]|[= -> ->]]]]; done.
  - rewrite half_link_mem, half_link_mem; [|done..|by apply half_link_ordered|by rewrite half_link_keys].
    split.
    + intros [[?|[-> ->]]|[-> ->]]; [by left|right; auto..].
    + intros [?|[? [[= -> ->]|[= -> ->]]]]; auto.
Qed.

Lemma link_all_keys adj l : bt_keys (link_all adj l) = bt_keys adj.
Proof.
  revert adj. induction l as [|[a b] l IH]; intros adj; [done|]. simpl. rewrite IH.
  rewrite add_undirected_halves. case_bool_decide; [done|]. by rewrite !half_link_keys.
Qed.

Lemma link_all_ordered adj l : ordered adj -> ordered (link_all adj l).
Proof.
  revert adj. induction l as [|[a b] l IH]; intros adj Ho; [done|]. simpl.
  by apply IH, add_undirected_edge_ordered.
Qed.

Lemma link_all_mem adj l x y :
  ordered adj -> (forall a b, (a, b) ∈ l -> a ∈ bt_keys adj /\ b ∈ bt_keys adj) ->
  y ∈ neighbors (link_all adj l) x <->
  y ∈ neighbors adj x \/ (x <> y /\ ((x, y) ∈ l \/ (y, x) ∈ l)).
Proof.
  revert adj. induction l as [|[a b] l IH]; intros adj Ho Hk; simpl.
  { split; [by left|]. intros [?|[_ [?%not_elem_of_nil|?%not_elem_of_nil]]]; done. }
  destruct (Hk a b) as [Ha Hb]; [by constructor|].
  rewrite IH, add_link_mem, !elem_of_cons; [tauto|done..| |].
  - by apply add_undirected_edge_ordered.
  - intros c d Hcd. pose proof (link_all_keys adj [(a, b)]) as E. simpl in E. rewrite E.
    apply Hk. by constructor.
Qed.

(** ** Degrees *)

Lemma insert_length k (s : btset NodeId) : lenZ (bs_insert k s) <= lenZ s + 1.
Proof.
  unfold bs_insert. induction s as [|[k' []] s IH]; [simpl; lia|]. cbn [bt_insert].
  destruct (kcmp k k'); simpl in *; lia.
Qed.

Lemma half_link_degree adj a b n :
  degree (half_link adj a b) n <= degree adj n + (if decide (a = n) then 1 else 0).
Proof.
  unfold half_link, degree. destruct (bt_get a adj) as [s|] eqn:E; [|case_decide; lia].
  case_decide as Hn.
  - subst n. rewrite bt_get_insert, E. apply insert_length.
  - rewrite bt_get_insert_ne by done. lia.
Qed.

Lemma times_cons n x l : times n (x :: l) = (if decide (x = n) then 1 else 0) + times n l.
Proof. unfold times. rewrite filter_cons. case_decide; simpl; lia. Qed.

Lemma times_app n l l' : times n (l ++ l') = times n l + times n l'.
Proof. unfold times. rewrite filter_app, length_app. lia. Qed.

Lemma times_perm n l l' : l ≡ₚ l' -> times n l = times n l'.
Proof. intros Hp. unfold times. by rewrite Hp. Qed.

Lemma times_pos n l : 0 <= times n l.
Proof. unfold times. lia. Qed.

Lemma times_not_in n l : n ∉ l -> times n l = 0.
Proof.
  induction l as [|x l IH]; [done|]. rewrite not_elem_of_cons, times_cons. intros [Hx Hl].
  rewrite decide_False, IH by auto. done.
Qed.

Lemma times_nodup n l : NoDup l -> times n l <= 1.
Proof.
  induction 1 as [|x l Hx Hl IH]; [done|]. rewrite times_cons. case_decide as E; [|lia].
  subst x. rewrite times_not_in by done. lia.
Qed.

Lemma link_all_degree adj l n : degree (link_all adj l) n <= degree adj n + times n (link_ends l).
Proof.
  revert adj. induction l as [|[a b] l IH]; intros adj; [simpl; unfold times; simpl; lia|].
  simpl link_all. etransitivity; [apply IH|].
  assert (Hstep : degree (add_undirected_edge adj a b) n <=
                  degree adj n + (if decide (a = n) then 1 else 0) + (if decide (b = n) then 1 else 0)).
  { rewrite add_undirected_halves. case_bool_decide; [repeat case_decide; lia|].
    pose proof (half_link_degree (half_link adj a b) b a n). pose proof (half_link_degree adj a b n). lia. }
  unfold link_ends in *. simpl. rewrite times_cons, !times_app, times_cons. lia.
Qed.

(** ** The code's loops as sequences of links *)

Definition cycle_links (cycle : list NodeId) : list link :=
  if lenZ cycle <? 2 then []
  else take (if lenZ cycle =? 2 then 1%nat else length cycle) (cycle_pairs cycle).

Definition leaf_groups (hs : list HierarchyGroup) : list HierarchyGroup :=
  List.filter (fun g => bool_decide (child_block_ids g = [])) hs.

Definition leaf_links (hs : list HierarchyGroup) : list link :=
  concat (map (fun g => cycle_links (node_ids g)) (leaf_groups hs)).

Lemma placed_edges_links placement l st :
  (foldl (fun st '(a, b) => add_placed_edge placement st a b) st l).1 = link_all st.1 l.
Proof.
  revert st. induction l as [|[a b] l IH]; intros [adj pl]; [done|]. simpl. by rewrite IH.
Qed.

Lemma add_placed_cycle_links st cycle placement :
  (add_placed_cycle st cycle placement).1 = link_all st.1 (cycle_links cycle).
Proof.
  unfold add_placed_cycle, cycle_links. destruct (lenZ cycle <? 2); [done|]. apply placed_edges_links.
Qed.

Lemma add_leaf_cycles_links hs st : (add_leaf_cycles hs st).1 = link_all st.1 (leaf_links hs).
Proof.
  unfold add_leaf_cycles, leaf_links. fold (leaf_groups hs). revert st.
  induction (leaf_groups hs) as [|g gs IH]; intros st; [done|]. simpl.
  by rewrite IH, add_placed_cycle_links, link_all_app.
Qed.

End Links.
