(* ===== verification/TopologyRepresentatives.v ===== *)
(** * The allocation of representatives

    Groups are served from the deepest up. The degrees of the leaf cycles leave room for
    two roles of every group, so each group finds its two ports, distinct whenever it has
    two members, and no node takes more roles than its degree allows. *)

From S2P Require Import Prelude RustStd BTree SortBy Hashing Bfs TopologyGraph TopologySynthesis TopologyLinks TopologyHierarchy.
From Stdlib Require Import Sorting.Sorted.

Module Representatives.
Import TopologyGraph Synthesis Links Hierarchy.

(** ** Selection *)

Lemma max_by_key_in {K} `{KeyOrd K} {A} (key : A -> K) l x : max_by_key key l = Some x -> x ∈ l.
Proof.
  unfold max_by_key. assert (Hgen : forall l b, foldl (better key) b l = Some x -> b = Some x \/ x ∈ l).
  { clear l. induction l as [|y l IH]; intros b Hb; simpl in Hb; [by left|].
    apply IH in Hb as [Hb|Hb]; [|right; by constructor]. unfold better in Hb.
    destruct b as [b|]; [|injection Hb as ->; right; constructor].
    destruct (kcmp (key b) (key y)); injection Hb as ->; [right; constructor|right; constructor|by left]. }
  intros Hx. apply Hgen in Hx as [?|?]; done.
Qed.

Lemma max_by_key_some {K} `{KeyOrd K} {A} (key : A -> K) l x : x ∈ l -> is_Some (max_by_key key l).
Proof.
  unfold max_by_key. intros Hx. destruct l as [|y l]; [by apply not_elem_of_nil in Hx|].
  clear Hx x. simpl. revert y. induction l as [|z l IH]; intros y; simpl; [by eexists|].
  destruct (kcmp (key y) (key z)); apply IH.
Qed.

Definition role_nodes (g : HierarchyGroup) : list NodeId := map rep_node_id (representatives g).

(** The ports of a group: two members, the same one only in a group of one. *)
Definition reps_ok (g : HierarchyGroup) : Prop :=
  exists x y, representatives g = [{| rep_node_id := x; rep_plane := 0 |};
                                  {| rep_node_id := y; rep_plane := 1 |}] /\
    x ∈ node_ids g /\ y ∈ node_ids g /\ (x = y -> node_ids g = [x]).

Definition strip (g : HierarchyGroup) : HierarchyGroup := set_representatives g [].

Section Select.
Context `{DigestOps}.
Variables (config : BoundedTopologyConfig) (adj : adjacency_map) (reserved : btree NodeId Z).

(** Room for one more role. *)
Definition room (n : NodeId) : Prop :=
  degree adj n + reserved_degree reserved n + 1 <= max_degree config.

Lemma select_candidate_iff id candidates plane selected :
  (forall x, select_candidate config id candidates 1 reserved adj plane selected = Some x ->
     x ∈ candidates /\ room x /\ x ∉ map rep_node_id selected) /\
  (forall x, x ∈ candidates -> room x -> x ∉ map rep_node_id selected ->
     is_Some (select_candidate config id candidates 1 reserved adj plane selected)).
Proof.
  unfold select_candidate.
  assert (Hin : forall x, x ∈ List.filter (fun n => degree adj n + reserved_degree reserved n + 1 <=?
        max_degree config) (List.filter (fun n => negb (existsb (fun r =>
        bool_decide (rep_node_id r = n)) selected)) candidates) <->
      x ∈ candidates /\ room x /\ x ∉ map rep_node_id selected).
  { intros x. rewrite list_elem_of_In, !filter_In, <- list_elem_of_In, Z.leb_le, negb_true_iff.
    assert (Hsel : existsb (fun r => bool_decide (rep_node_id r = x)) selected = false <->
                   x ∉ map rep_node_id selected); [|unfold room; tauto].
    rewrite <- not_true_iff_false, existsb_exists, list_elem_of_fmap. apply not_iff_compat.
    split; intros (r & H1 & H2).
    - exists r. apply bool_decide_eq_true in H2. by rewrite list_elem_of_In.
    - exists r. rewrite <- list_elem_of_In. by rewrite bool_decide_eq_true. }
  split.
  - intros x Hx%max_by_key_in. by apply Hin.
  - intros x Hc Hr Hs. apply (max_by_key_some _ _ x). by apply Hin.
Qed.

Lemma select_two id candidates a b :
  a ∈ candidates -> b ∈ candidates -> a <> b -> room a -> room b ->
  exists x y, select_group_representatives config id candidates 1 reserved adj =
      Ok [{| rep_node_id := x; rep_plane := 0 |}; {| rep_node_id := y; rep_plane := 1 |}] /\
    x ∈ candidates /\ y ∈ candidates /\ x <> y /\ room x /\ room y.
Proof.
  intros Ha Hb Hab Ra Rb.
  destruct (select_candidate_iff id candidates 0 []) as [I1 E1].
  destruct (E1 a Ha Ra) as [x Hx]; [by apply not_elem_of_nil|]. destruct (I1 x Hx) as (Cx & Rx & _).
  destruct (select_candidate_iff id candidates 1 [{| rep_node_id := x; rep_plane := 0 |}]) as [I2 E2].
  assert (Hy : is_Some (select_candidate config id candidates 1 reserved adj 1
                          [{| rep_node_id := x; rep_plane := 0 |}])).
  { destruct (decide (a = x)) as [->|Hax].
    - apply (E2 b Hb Rb). simpl. rewrite list_elem_of_singleton. congruence.
    - apply (E2 a Ha Ra). simpl. by rewrite list_elem_of_singleton. }
  destruct Hy as [y Hy]. destruct (I2 y Hy) as (Cy & Ry & Hne). simpl in Hne.
  rewrite list_elem_of_singleton in Hne. exists x, y. split; [|by split_and!].
  unfold select_group_representatives. destruct candidates as [|n [|n' candidates]].
  - by apply not_elem_of_nil in Ha.
  - apply list_elem_of_singleton in Ha, Hb. congruence.
  - by rewrite Hx; simpl; rewrite Hy.
Qed.

Lemma reserve_roles reps n :
  reserved_degree (foldl (fun m r => bt_entry 0 (fun d => d + 1) (rep_node_id r) m) reserved reps) n =
  reserved_degree reserved n + times n (map rep_node_id reps).
Proof.
  generalize reserved. induction reps as [|r reps IH]; intros res; simpl; [unfold times; simpl; lia|].
  rewrite IH, times_cons. unfold reserved_degree, bt_entry. case_decide as E.
  - subst n. rewrite bt_get_insert. simpl. lia.
  - rewrite bt_get_insert_ne by done. lia.
Qed.

End Select.

(** ** Counting roles *)

Lemma sumZ_ge {A} (f : A -> Z) c l : (forall x, x ∈ l -> c <= f x) -> lenZ l * c <= sumZ f l.
Proof.
  induction l as [|x l IH]; intros Hall; [simpl; lia|].
  pose proof (Hall x ltac:(constructor)).
  pose proof (IH ltac:(intros; apply Hall; by constructor)). rewrite length_cons. simpl sumZ. lia.
Qed.

Lemma sumZ_positive {A} (f : A -> Z) l : 0 < sumZ f l -> exists x, x ∈ l /\ 0 < f x.
Proof.
  induction l as [|x l IH]; simpl; [lia|]. intros Hs. destruct (Z.lt_ge_cases 0 (f x)) as [?|?].
  - exists x. split; [constructor|done].
  - destruct IH as (y & Hy & Hf); [lia|]. exists y. split; [by constructor|done].
Qed.

Lemma sumZ_sub {A} (f g : A -> Z) l : sumZ (fun x => f x - g x) l = sumZ f l - sumZ g l.
Proof. induction l as [|x l IH]; simpl; lia. Qed.

(** Counting the entries of [l] that lie in [s], from both sides. *)
Lemma sum_times s l : NoDup s -> sumZ (fun n => times n l) s = lenZ (filter (fun x => x ∈ s) l).
Proof.
  intros Hnd. induction l as [|x l IH].
  { clear. simpl. induction s as [|y s IHs]; [done|].
    change (times y [] + sumZ (fun n => times n []) s = 0). by rewrite IHs. }
  assert (Hone : sumZ (fun n => if decide (x = n) then 1 else 0) s = if decide (x ∈ s) then 1 else 0).
  { clear IH. induction Hnd as [|y s Hy Hnd IHs]; [done|]. simpl. rewrite IHs.
    destruct (decide (x = y)) as [->|Hne].
    - rewrite (decide_False (P := y ∈ s)), decide_True by (done || constructor). lia.
    - destruct (decide (x ∈ s)) as [Hin|Hin].
      + rewrite decide_True by by constructor. lia.
      + rewrite decide_False; [lia|]. rewrite elem_of_cons. tauto. }
  assert (Hsplit : sumZ (fun n => times n (x :: l)) s =
                   sumZ (fun n => if decide (x = n) then 1 else 0) s + sumZ (fun n => times n l) s).
  { clear. induction s as [|y s IHs]; [done|]. unfold sumZ in *. cbn [foldr]. rewrite IHs, times_cons. lia. }
  rewrite Hsplit, Hone, IH, filter_cons. case_decide; simpl; lia.
Qed.

Section Allocation.
Context `{DigestOps}.
Variables (config : BoundedTopologyConfig) (adj : adjacency_map).
Variables (t : htree) (hs : list HierarchyGroup).

(** The degree of a node in the cycle of a leaf of [m] nodes. *)
Definition leaf_degree (m : Z) : Z := if m <=? 1 then 0 else if m =? 2 then 1 else 2.

Hypothesis Hok : tree_ok config t.
Hypothesis Hperm : hs ≡ₚ flatten t.
Hypothesis Hids : NoDup (map block_id hs).
Hypothesis Hnodes : NoDup (node_ids (root t)).
Hypothesis HD : 4 <= max_degree config.
Hypothesis Hdeg : forall g n, g ∈ hs -> child_block_ids g = [] -> n ∈ node_ids g ->
  degree adj n <= leaf_degree (lenZ (node_ids g)).

Definition capacity (n : NodeId) : Z := max_degree config - degree adj n.

Lemma leaf_capacity g : g ∈ hs -> child_block_ids g = [] -> 4 <= sumZ capacity (node_ids g).
Proof.
  intros Hg Hl. assert (Hne : node_ids g <> []).
  { apply (leaf_size config t g) in Hok as [? _]; [done| |done]. by rewrite <- Hperm. }
  pose proof (sumZ_ge capacity (max_degree config - leaf_degree (lenZ (node_ids g))) (node_ids g)) as Hs.
  assert (Hall : forall n, n ∈ node_ids g -> max_degree config - leaf_degree (lenZ (node_ids g)) <= capacity n).
  { intros n Hn. unfold capacity. pose proof (Hdeg g n Hg Hl Hn). lia. }
  specialize (Hs Hall). apply lenZ_pos in Hne. unfold leaf_degree in Hs.
  destruct (lenZ (node_ids g) <=? 1) eqn:E1; [nia|]. destruct (lenZ (node_ids g) =? 2) eqn:E2; nia.
Qed.

Lemma subtree_room c : subtree c t -> 2 * lenZ (flatten c) + 2 <= sumZ capacity (node_ids (root c)).
Proof.
  intros Hc. apply (subtree_capacity config); [by eapply subtree_ok|].
  intros g Hg Hl. apply leaf_capacity; [|done]. rewrite Hperm. by eapply subtree_flatten.
Qed.

Definition roles (finished : list HierarchyGroup) : list NodeId := concat (map role_nodes finished).

Lemma role_member g n : reps_ok g -> n ∈ role_nodes g -> n ∈ node_ids g.
Proof.
  intros (x & y & Hr & Hx & Hy & _). unfold role_nodes. rewrite Hr. simpl.
  rewrite !elem_of_cons, elem_of_nil. naive_solver.
Qed.

(** The groups served so far: groups of the tree with their ports, each once. *)
Definition served (finished : list HierarchyGroup) : Prop :=
  NoDup (map block_id finished) /\ forall g, g ∈ finished -> strip g ∈ flatten t /\ reps_ok g.

(** Only the groups of its subtree take roles from the nodes of [c]. *)
Lemma roles_in_subtree c finished :
  subtree c t -> served finished ->
  (forall g n, g ∈ finished -> n ∈ node_ids g -> n ∈ node_ids (root c) -> strip g ∈ flatten c) ->
  sumZ (fun n => times n (roles finished)) (node_ids (root c)) <= 2 * lenZ (flatten c).
Proof.
  intros Hc [Hnd Hf] Hin. rewrite sum_times by by eapply subtree_nodup.
  set (inside g := bool_decide (block_id g ∈ map block_id (flatten c))).
  assert (Hle : lenZ (filter (fun x => x ∈ node_ids (root c)) (roles finished)) <=
                2 * lenZ (List.filter inside finished)).
  { clear Hnd. unfold roles. induction finished as [|g l IH]; [done|]. simpl map. cbn [concat].
    rewrite filter_app, length_app. simpl List.filter.
    specialize (IH ltac:(intros; apply Hf; by constructor)
                   ltac:(intros; eapply Hin; [by constructor|done..])).
    destruct (Hf g ltac:(constructor)) as [_ Hg]. destruct (inside g) eqn:Eg.
    - destruct Hg as (x & y & Hr & _). unfold role_nodes at 1. rewrite Hr.
      pose proof (length_filter (fun x => x ∈ node_ids (root c)) [x; y]). simpl in *. lia.
    - assert (Hnone : filter (fun x => x ∈ node_ids (root c)) (role_nodes g) = []); [|rewrite Hnone; simpl; lia].
      destruct (filter (fun x => x ∈ node_ids (root c)) (role_nodes g)) as [|z rest] eqn:Ez; [done|].
      assert (Hz : z ∈ filter (fun x => x ∈ node_ids (root c)) (role_nodes g)) by (rewrite Ez; constructor).
      apply list_elem_of_filter in Hz as [Hz1 Hz2]. apply bool_decide_eq_false in Eg. destruct Eg.
      apply role_member in Hz2; [|done]. specialize (Hin g z ltac:(constructor) Hz2 Hz1).
      by apply (list_elem_of_fmap_2 block_id) in Hin. }
  assert (Hcount : (length (List.filter inside finished) <= length (flatten c))%nat); [|lia].
  rewrite <- (length_map block_id (flatten c)), <- (length_map block_id (List.filter inside finished)).
  apply submseteq_length, NoDup_submseteq.
  - clear - Hnd. induction finished as [|g l IH]; [constructor|]. simpl in *.
    apply NoDup_cons in Hnd as [Hg Hnd]. destruct (inside g); simpl; [|auto].
    apply NoDup_cons. split; [|auto]. intros Hb. apply Hg.
    apply list_elem_of_fmap in Hb as (g' & Hg' & Hin). apply list_elem_of_fmap. exists g'.
    split; [done|]. apply list_elem_of_In, filter_In in Hin as [Hin _]. by apply list_elem_of_In.
  - intros id Hid. apply list_elem_of_fmap in Hid as (g & -> & Hg).
    apply list_elem_of_In, filter_In in Hg as [_ Hg]. by apply bool_decide_eq_true in Hg.
Qed.

(** ** One group *)

(** The reservations are the roles handed out, within the degree bound. *)
Definition books (finished : list HierarchyGroup) (reserved : btree NodeId Z) : Prop :=
  (forall n, reserved_degree reserved n = times n (roles finished)) /\
  (forall n, degree adj n + reserved_degree reserved n <= max_degree config).

Section Serve.
Variables (finished : list HierarchyGroup) (reserved : btree NodeId Z) (g : HierarchyGroup).
Hypothesis Hserved : served finished.
Hypothesis Hbooks : books finished reserved.
Hypothesis Hg : g ∈ flatten t.
Hypothesis Hnew : block_id g ∉ map block_id finished.
Hypothesis Hdepth : forall h, h ∈ finished -> depth g <= depth h.

Lemma finished_other h c :
  subtree c t -> root c = g -> h ∈ finished -> forall n, n ∈ node_ids h -> n ∈ node_ids g ->
  strip h ∈ flatten c /\ strip h <> g.
Proof.
  intros Hc Hr Hh n Hn Hng. destruct Hserved as [_ Hf]. destruct (Hf h Hh) as [Hin _]. split.
  - eapply (shared_node_subtree config t c (strip h) n); [done..| |done|by rewrite Hr].
    rewrite Hr. exact (Hdepth h Hh).
  - intros E. apply Hnew. rewrite <- E. change (block_id (strip h)) with (block_id h).
    by apply list_elem_of_fmap_2.
Qed.

Lemma child_room cs c :
  subtree (HTree g cs) t -> c ∈ cs -> exists n, n ∈ node_ids (root c) /\ room config adj reserved n.
Proof.
  intros Hsub Hc. assert (Hok' : tree_ok config (HTree g cs)) by by eapply subtree_ok.
  assert (Hct : subtree c t).
  { clear - Hsub Hc. induction Hsub; [econstructor; [done|constructor]|]. by eapply sub_child. }
  assert (Hcap := subtree_room c Hct).
  assert (Hroles : sumZ (fun n => times n (roles finished)) (node_ids (root c)) <= 2 * lenZ (flatten c)).
  { apply roles_in_subtree; [done..|]. intros h n Hh Hn Hnc.
    assert (Hng : n ∈ node_ids g) by by eapply (child_nodes config).
    destruct (finished_other h (HTree g cs) Hsub eq_refl Hh n Hn Hng) as [Hin Hne].
    simpl in Hin. apply elem_of_cons in Hin as [?|Hin]; [done|].
    apply elem_of_concat_map in Hin as (c' & Hc' & Hin).
    assert (c' = c) as ->; [|done].
    eapply (siblings_disjoint config g cs c' c n); [done| |done|done| |done].
    - exact (subtree_nodup config _ _ Hok Hnodes Hsub).
    - eapply (flatten_nodes config); [by eapply child_ok|done..]. }
  destruct (sumZ_positive (fun n => capacity n - times n (roles finished)) (node_ids (root c)))
    as (n & Hn & Hpos); [rewrite sumZ_sub; lia|].
  exists n. split; [done|]. unfold room. destruct Hbooks as [-> _]. unfold capacity in Hpos. lia.
Qed.

Lemma leaf_untouched n :
  subtree (HTree g []) t -> n ∈ node_ids g -> reserved_degree reserved n = 0.
Proof.
  intros Hsub Hn. destruct Hbooks as [-> _]. apply times_not_in. intros Hin.
  apply elem_of_concat_map in Hin as (h & Hh & Hin). pose proof Hserved as [_ Hf].
  destruct (Hf h Hh) as [_ Hr]. apply role_member in Hin; [|done].
  destruct (finished_other h (HTree g []) Hsub eq_refl Hh n Hin Hn) as [Hs Hne].
  simpl in Hs. apply list_elem_of_singleton in Hs. done.
Qed.

Lemma two_ports a b :
  a ∈ node_ids g -> b ∈ node_ids g -> a <> b ->
  room config adj reserved a -> room config adj reserved b ->
  exists reps, select_group_representatives config (block_id g) (node_ids g) 1 reserved adj = Ok reps /\
    reps_ok (set_representatives g reps) /\
    forall n, degree adj n + (reserved_degree reserved n + times n (map rep_node_id reps)) <= max_degree config.
Proof.
  intros Ha Hb Hab Ra Rb.
  destruct (select_two config adj reserved (block_id g) (node_ids g) a b Ha Hb Hab Ra Rb)
    as (x & y & Hsel & Hx & Hy & Hxy & Rx & Ry).
  eexists. split; [exact Hsel|]. split.
  - exists x, y. split_and!; [done..|]. by intros ->.
  - intros n. simpl. rewrite !times_cons. unfold times at 1. simpl.
    destruct Hbooks as [_ Hb2]. specialize (Hb2 n). unfold room in *.
    destruct (decide (x = n)) as [->|?], (decide (y = n)) as [->|?]; try done; lia.
Qed.

Lemma single_port n :
  subtree (HTree g []) t -> child_block_ids g = [] -> node_ids g = [n] ->
  exists reps, select_group_representatives config (block_id g) (node_ids g) 1 reserved adj = Ok reps /\
    reps_ok (set_representatives g reps) /\
    forall n, degree adj n + (reserved_degree reserved n + times n (map rep_node_id reps)) <= max_degree config.
Proof.
  intros Hsub Hl En. assert (Hn : n ∈ node_ids g) by (rewrite En; constructor).
  pose proof (leaf_untouched n Hsub Hn) as H0. assert (Hgh : g ∈ hs) by by rewrite Hperm.
  pose proof (Hdeg g n Hgh Hl Hn) as Hd. rewrite En in Hd |- *. change (degree adj n <= 0) in Hd.
  unfold select_group_representatives. rewrite H0.
  destruct (max_degree config <? degree adj n + 0 + 2 * 1) eqn:E; [lia|].
  eexists. split; [done|]. split.
  - exists n, n. simpl. rewrite En. split_and!; [done|constructor..|done].
  - intros m. simpl. rewrite !times_cons. unfold times at 1. simpl.
    destruct Hbooks as [_ Hb2]. specialize (Hb2 m).
    destruct (decide (n = m)) as [->|?]; lia.
Qed.

(** Every group finds its ports. *)
Lemma serve_group :
  exists reps, select_group_representatives config (block_id g) (node_ids g) 1 reserved adj = Ok reps /\
    reps_ok (set_representatives g reps) /\
    forall n, degree adj n + (reserved_degree reserved n + times n (map rep_node_id reps)) <= max_degree config.
Proof.
  destruct (flatten_subtree t g Hg) as ([g' cs] & Hsub & Er). simpl in Er. subst g'.
  pose proof (subtree_ok config _ _ Hok Hsub) as Hok'.
  inversion Hok' as [? ? Hl Hne Hlen|? ? ? ? Hlen Hch Hp ? ?]; subst.
  - destruct (node_ids g) as [|a [|b rest]] eqn:En; [done| |].
    + rewrite <- En. by apply (single_port a).
    + rewrite <- En. assert (Hroom : forall n, n ∈ node_ids g -> room config adj reserved n).
      { intros n Hn. unfold room. rewrite leaf_untouched by done.
        assert (Hgh : g ∈ hs) by by rewrite Hperm. pose proof (Hdeg g n Hgh Hl Hn) as Hd.
        unfold leaf_degree in Hd. repeat case_match; lia. }
      assert (Hnd : NoDup (node_ids g)) by (by apply (subtree_nodup config (HTree g []) t)).
      assert (Ha : a ∈ node_ids g) by (rewrite En; constructor).
      assert (Hb : b ∈ node_ids g) by (rewrite En; do 2 constructor).
      apply (two_ports a b); [done..| |by apply Hroom|by apply Hroom].
      rewrite En in Hnd. apply NoDup_cons in Hnd as [Hnd _]. intros ->. apply Hnd. constructor.
  - destruct cs as [|c1 [|c2 cs]]; [simpl in Hlen; lia..|].
    destruct (child_room (c1 :: c2 :: cs) c1 Hsub ltac:(constructor)) as (a & Ha & Ra).
    destruct (child_room (c1 :: c2 :: cs) c2 Hsub ltac:(do 2 constructor)) as (b & Hb & Rb).
    apply (two_ports a b); [| | |done..].
    + eapply (child_nodes config); [exact Hok'| |done]. constructor.
    + eapply (child_nodes config); [exact Hok'| |done]. do 2 constructor.
    + intros ->. assert (Hnd : NoDup (node_ids g)) by exact (subtree_nodup config _ _ Hok Hnodes Hsub).
      rewrite Hp in Hnd. simpl in Hnd. apply NoDup_app in Hnd as (_ & Hdis & _).
      apply (Hdis b Ha). rewrite elem_of_app. by left.
Qed.

End Serve.

(** ** The loop over the groups *)

Definition non_root (g : HierarchyGroup) : bool := negb (bool_decide (parent_block_id g = None)).

Record alloc_inv (finished : list HierarchyGroup) (order : list (Z * bytes * nat))
    (hierarchy : list HierarchyGroup) (reserved : btree NodeId Z) : Prop := {
  ai_served : served finished;
  ai_books : books finished reserved;
  ai_groups : forall i h0, hs !! i = Some h0 -> exists h, hierarchy !! i = Some h /\ strip h = h0 /\
    (h ∈ finished \/ (h = h0 /\ block_id h0 ∉ map block_id finished));
  ai_length : length hierarchy = length hs;
  ai_order : forall d id i, (d, id, i) ∈ order ->
    exists h0, hs !! i = Some h0 /\ depth h0 = d /\ block_id h0 = id;
  ai_fresh : NoDup (map block_id finished ++ map (fun x => x.1.2) order);
  ai_sorted : StronglySorted (fun a b => b.1.1 <= a.1.1) order;
  ai_deeper : forall f x, f ∈ finished -> x ∈ order -> x.1.1 <= depth f
}.

Lemma strip_set g reps : strip (set_representatives g reps) = strip g.
Proof. done. Qed.

Lemma hs_strip g : g ∈ hs -> strip g = g.
Proof.
  intros Hg. rewrite Hperm in Hg. apply (tree_group_ok config) in Hg as [_ Hr]; [|done].
  destruct g. simpl in *. unfold strip, set_representatives. simpl. by rewrite Hr.
Qed.

Lemma served_snoc finished g reps :
  served finished -> g ∈ flatten t -> block_id g ∉ map block_id finished -> strip g = g ->
  reps_ok (set_representatives g reps) -> served (set_representatives g reps :: finished).
Proof.
  intros [Hnd Hf] Hg Hnew Hst Hr. split; [by apply NoDup_cons|].
  intros h [->|Hh]%elem_of_cons; [|by apply Hf]. split; [by rewrite strip_set, Hst|done].
Qed.

Lemma alloc_step finished d id i order hierarchy reserved :
  alloc_inv finished ((d, id, i) :: order) hierarchy reserved ->
  exists g reps, hierarchy !! i = Some g /\
    select_group_representatives config (block_id g) (node_ids g) 1 reserved adj = Ok reps /\
    alloc_inv (set_representatives g reps :: finished) order
      (<[i := set_representatives g reps]> hierarchy)
      (foldl (fun m r => bt_entry 0 (fun d => d + 1) (rep_node_id r) m) reserved reps).
Proof.
  intros [A1 A2 A3 A4 A5 A6 A7 A8]. destruct (A5 d id i ltac:(constructor)) as (g & Hi & Hd & Hid).
  assert (Hg : g ∈ hs) by by eapply list_elem_of_lookup_2.
  assert (Hgt : g ∈ flatten t) by by rewrite <- Hperm.
  simpl in A6. rewrite <- Permutation_middle in A6. apply NoDup_cons in A6 as [Hnew A6].
  assert (Hnf : block_id g ∉ map block_id finished).
  { rewrite Hid. intros Hin. apply Hnew. rewrite elem_of_app. by left. }
  destruct (A3 i g Hi) as (h & Hh & _ & [Hfin|[-> _]]).
  { destruct Hnf. destruct (A3 i g Hi) as (h' & Hh' & Hs & _). rewrite Hh in Hh'. injection Hh' as <-.
    rewrite <- Hs. change (block_id (strip h)) with (block_id h). by apply list_elem_of_fmap_2. }
  destruct (serve_group finished reserved g A1 A2 Hgt Hnf) as (reps & Hsel & Hrok & Hbook).
  { intros h Hin. specialize (A8 h (d, id, i) Hin ltac:(constructor)). simpl in A8. lia. }
  exists g, reps. split_and!; [done..|].
  assert (Hstrip : strip g = g) by by apply hs_strip. split.
  - by apply served_snoc.
  - destruct A2 as [B1 B2]. split; intros n; rewrite reserve_roles; [|apply Hbook].
    unfold roles. simpl. rewrite times_app, B1. unfold roles, role_nodes. simpl. lia.
  - intros j h0 Hj. destruct (decide (i = j)) as [<-|Hij].
    + rewrite Hi in Hj. injection Hj as <-. exists (set_representatives g reps).
      rewrite list_lookup_insert_eq by (by eapply lookup_lt_Some). split_and!; [done|done|left; constructor].
    + rewrite list_lookup_insert_ne by done. destruct (A3 j h0 Hj) as (h & Hh' & Hs & Hc).
      exists h. split_and!; [done..|]. destruct Hc as [Hc|[-> Hc]]; [left; by constructor|]. right.
      split; [done|]. simpl. rewrite not_elem_of_cons. split; [|done]. intros E.
      apply Hij. eapply (NoDup_lookup (map block_id hs)); [exact Hids| |].
      * by rewrite list_lookup_fmap, Hi.
      * rewrite list_lookup_fmap, Hj. simpl. by rewrite E.
  - by rewrite length_insert.
  - intros d' id' i' Hin. apply A5. by constructor.
  - simpl. apply NoDup_cons. rewrite <- Hid in Hnew. done.
  - by inversion A7.
  - intros f x Hf Hx. apply elem_of_cons in Hf as [->|Hf].
    + simpl. inversion A7 as [|? ? _ Hall]; subst. rewrite Forall_forall in Hall. apply (Hall x Hx).
    + apply A8; [done|by constructor].
Qed.

Lemma allocate_ok finished order hierarchy reserved :
  alloc_inv finished order hierarchy reserved ->
  exists finished' hierarchy' reserved',
    allocate_representatives config order hierarchy reserved adj = Some (Ok (hierarchy', reserved')) /\
    alloc_inv finished' [] hierarchy' reserved' /\
    map block_id finished' ≡ₚ map block_id finished ++ map (fun x => x.1.2) order.
Proof.
  revert finished hierarchy reserved. induction order as [|[[d id] i] order IH]; intros finished hierarchy reserved Hinv.
  { exists finished, hierarchy, reserved. split_and!; [done..|]. simpl. by rewrite app_nil_r. }
  pose proof (ai_order _ _ _ _ Hinv d id i ltac:(constructor)) as (h0 & Hi0 & _ & Hid).
  destruct (alloc_step _ _ _ _ _ _ _ Hinv) as (g & reps & Hi & Hsel & Hinv').
  destruct (IH _ _ _ Hinv') as (f' & h' & r' & Hrun & Hfinal & Hperm').
  exists f', h', r'. split_and!; [|done|].
  - simpl. unfold index_or_panic. rewrite Hi. simpl. by rewrite Hsel.
  - rewrite Hperm'. simpl. rewrite <- Permutation_middle.
    destruct (ai_groups _ _ _ _ Hinv i h0 Hi0) as (h & Hh & Hs & _).
    rewrite Hi in Hh. injection Hh as <-. rewrite <- Hid, <- Hs. done.
Qed.

(** *** The order of service *)

Lemma order_flip (x y : Z * bytes * nat) : order_cmp x y = Gt -> order_cmp y x <> Gt.
Proof.
  unfold order_cmp. rewrite (Z.compare_antisym x.1.1 y.1.1).
  destruct (x.1.1 ?= y.1.1) eqn:E; cbn [CompOpp]; [apply kcmp_flip_gt|done..].
Qed.

Lemma order_trans x y z : le_by order_cmp x y -> le_by order_cmp y z -> le_by order_cmp x z.
Proof.
  unfold le_by, order_cmp. intros Hxy Hyz.
  destruct (Z.compare_spec y.1.1 x.1.1), (Z.compare_spec z.1.1 y.1.1), (Z.compare_spec z.1.1 x.1.1);
    try done; try lia.
  by apply (kcmp_le_trans x.1.2 y.1.2 z.1.2).
Qed.

Lemma group_order_sorted : StronglySorted (fun a b => b.1.1 <= a.1.1) (group_order hs).
Proof.
  unfold group_order. set (l := omap _ _).
  pose proof (sort_by_sorted order_cmp order_flip order_trans l) as Hs.
  induction Hs as [|x s Hs IH Hall]; constructor; [done|].
  eapply Forall_impl; [exact Hall|]. intros y Hy. unfold le_by, order_cmp in Hy. simpl.
  destruct (Z.compare_spec y.1.1 x.1.1); [lia|lia|done].
Qed.

Definition order_entry (p : nat * HierarchyGroup) : option (Z * bytes * nat) :=
  let '(i, g) := p in
  if bool_decide (parent_block_id g = None) then None else Some (depth g, block_id g, i).

Lemma group_order_in d id i :
  (d, id, i) ∈ group_order hs -> exists h, hs !! i = Some h /\ depth h = d /\ block_id h = id.
Proof.
  unfold group_order. rewrite elem_of_sort_by, list_elem_of_omap. intros ([j h] & Hin & He).
  apply elem_of_lookup_imap in Hin as (j' & h' & [= -> ->] & Hl).
  destruct (bool_decide (parent_block_id h' = None)); [done|]. injection He as <- <- <-. eauto.
Qed.

Lemma group_order_ids :
  map (fun x => x.1.2) (group_order hs) ≡ₚ map block_id (List.filter non_root hs).
Proof.
  unfold group_order. rewrite sort_by_perm. fold order_entry.
  assert (Hgen : forall k (l : list HierarchyGroup),
    map (fun x => x.1.2) (omap order_entry (imap (fun i g => ((k + i)%nat, g)) l)) =
    map block_id (List.filter non_root l)).
  { clear. intros k l. revert k. induction l as [|g l IH]; intros k; [done|].
    cbn [imap omap list_omap order_entry List.filter]. unfold non_root at 1.
    specialize (IH (S k)). assert (Hi : imap ((fun i g => ((k + i)%nat, g)) ∘ S) l =
                                        imap (fun i g => ((S k + i)%nat, g)) l)
      by (apply imap_ext; intros; simpl; f_equal; lia).
    rewrite Hi. unfold order_entry at 1. destruct (bool_decide (parent_block_id g = None)); [exact IH|].
    cbn [negb map]. f_equal. exact IH. }
  rewrite <- (Hgen O hs). done.
Qed.

Lemma alloc_start :
  (forall n, degree adj n <= max_degree config) -> alloc_inv [] (group_order hs) hs [].
Proof.
  intros Hall. split.
  - split; [constructor|]. by intros g ?%not_elem_of_nil.
  - split; intros n; unfold reserved_degree; simpl; [done|]. specialize (Hall n). lia.
  - intros i h0 Hi. exists h0. split_and!; [done| |].
    + apply hs_strip. by eapply list_elem_of_lookup_2.
    + right. split; [done|]. by apply not_elem_of_nil.
  - done.
  - apply group_order_in.
  - simpl. rewrite group_order_ids. clear - Hids. induction hs as [|g l IH]; [constructor|]. simpl in *.
    apply NoDup_cons in Hids as [Hg Hnd]. destruct (non_root g); simpl; [|auto].
    apply NoDup_cons. split; [|auto]. intros Hin. apply Hg.
    apply list_elem_of_fmap in Hin as (h & Eh & Hin). apply list_elem_of_fmap. exists h.
    split; [done|]. apply list_elem_of_In, filter_In in Hin as [Hin _]. by apply list_elem_of_In.
  - apply group_order_sorted.
  - by intros f x ?%not_elem_of_nil.
Qed.

(** The outcome of the allocation. *)
Lemma allocation_ok :
  (forall n, degree adj n <= max_degree config) ->
  exists hierarchy reserved,
    allocate_representatives config (group_order hs) hs [] adj = Some (Ok (hierarchy, reserved)) /\
    map strip hierarchy = hs /\
    (forall g, g ∈ hierarchy -> non_root g = true -> reps_ok g) /\
    (forall n, degree adj n + times n (roles (List.filter non_root hierarchy)) <= max_degree config).
Proof.
  intros Hall. destruct (allocate_ok _ _ _ _ (alloc_start Hall)) as (fin & h & r & Hrun & Hinv & Hfin).
  simpl in Hfin. rewrite group_order_ids in Hfin.
  assert (Hmap : map strip h = hs).
  { apply list_eq. intros i. rewrite list_lookup_fmap. destruct (hs !! i) as [h0|] eqn:Ei.
    - destruct (ai_groups _ _ _ _ Hinv i h0 Ei) as (g & -> & <- & _). done.
    - apply lookup_ge_None in Ei. rewrite (lookup_ge_None_2 h); [done|]. rewrite (ai_length _ _ _ _ Hinv). lia. }
  assert (Hin : forall g, g ∈ h -> non_root g = true -> g ∈ fin).
  { intros g [i Hi]%list_elem_of_lookup Hnr. assert (Hs : hs !! i = Some (strip g))
      by (by rewrite <- Hmap, list_lookup_fmap, Hi).
    destruct (ai_groups _ _ _ _ Hinv i _ Hs) as (g' & Hg' & _ & [?|[_ Hn]]); rewrite Hi in Hg'.
    { by injection Hg' as ->. }
    destruct Hn. rewrite Hfin. apply list_elem_of_fmap_2, list_elem_of_In, filter_In. split; [|done].
    apply list_elem_of_In. by eapply list_elem_of_lookup_2. }
  assert (Hperm' : List.filter non_root h ≡ₚ fin).
  { assert (Hids' : map block_id (List.filter non_root h) ≡ₚ map block_id fin).
    { rewrite Hfin, <- Hmap. clear. induction h as [|g l IH]; [done|]. simpl.
      change (non_root (strip g)) with (non_root g). destruct (non_root g); simpl; by rewrite IH. }
    pose proof (ai_served _ _ _ _ Hinv) as [Hnd _].
    apply submseteq_length_Permutation; [|].
    - apply NoDup_submseteq; [eapply (NoDup_fmap_1 block_id); by rewrite Hids'|].
      intros g Hg. apply list_elem_of_In, filter_In in Hg as [Hg Hnr]. apply Hin; [|done].
      by apply list_elem_of_In.
    - apply Permutation_length in Hids'. rewrite !length_map in Hids'. lia. }
  exists h, r. split_and!; [done..| |].
  - intros g Hg Hnr. apply (ai_served _ _ _ _ Hinv). by apply Hin.
  - intros n. destruct (ai_books _ _ _ _ Hinv) as [B1 B2]. specialize (B2 n). rewrite B1 in B2.
    assert (Hroles : roles (List.filter non_root h) ≡ₚ roles fin).
    { unfold roles. by rewrite Hperm'. }
    by rewrite (times_perm _ _ _ Hroles).
Qed.

End Allocation.
End Representatives.
