(* ===== verification/TopologyRings.v ===== *)
(** * Cycles of nodes and rings of blocks

    The links of the leaf cycles and of the block rings as lists of pairs, how often they
    name a node, and that the ring loops of synthesis add exactly these links. *)

From S2P Require Import Prelude RustStd BTree SortBy Hashing Bfs TopologyGraph TopologySynthesis TopologyLinks TopologyHierarchy TopologyRepresentatives.

Module Rings.
Import TopologyGraph Synthesis Links Hierarchy Representatives.

(** ** Cycles *)

Lemma cycle_pairs_windows {A} (x : A) l : cycle_pairs (x :: l) = windows2 (x :: l ++ [x]).
Proof.
  assert (Hgen : forall y x, zip (x :: l) (l ++ [y]) = windows2 (x :: l ++ [y])); [|apply (Hgen x x)].
  intros y. induction l as [|z l IH]; intros x'; [done|].
  change (zip (x' :: z :: l) ((z :: l) ++ [y])) with ((x', z) :: zip (z :: l) (l ++ [y])).
  by rewrite IH.
Qed.

Lemma windows2_app {A} (l : list A) x l' :
  windows2 (l ++ x :: l') = windows2 (l ++ [x]) ++ windows2 (x :: l').
Proof.
  induction l as [|a [|b l] IH]; [done|done|].
  change (windows2 ((a :: b :: l) ++ x :: l')) with ((a, b) :: windows2 ((b :: l) ++ x :: l')).
  by rewrite IH.
Qed.

Lemma windows2_extend {A} (l : list A) x p : p ∈ windows2 l -> p ∈ windows2 (l ++ [x]).
Proof.
  intros Hp. destruct l as [|z l _] using rev_ind; [by apply not_elem_of_nil in Hp|].
  rewrite <- app_assoc. simpl. rewrite windows2_app, elem_of_app. by left.
Qed.

(** Starting the cycle elsewhere changes the order of its pairs only. *)
Lemma cycle_pairs_rotate {A} (l l' : list A) : cycle_pairs (l ++ l') ≡ₚ cycle_pairs (l' ++ l).
Proof.
  destruct l as [|x l]; [by rewrite app_nil_r|]. destruct l' as [|y l']; [by rewrite app_nil_r|].
  simpl app. rewrite !cycle_pairs_windows.
  replace (x :: (l ++ y :: l') ++ [x]) with ((x :: l) ++ y :: (l' ++ [x])) by (simpl; by rewrite <- app_assoc).
  replace (y :: (l' ++ x :: l) ++ [y]) with ((y :: l') ++ x :: (l ++ [y])) by (simpl; by rewrite <- app_assoc).
  rewrite (windows2_app (x :: l) y), (windows2_app (y :: l') x). simpl app. apply Permutation_app_comm.
Qed.

Lemma cycle_pairs_fst {A} (l : list A) : map fst (cycle_pairs l) = l.
Proof.
  destruct l as [|x l]; [done|]. rewrite cycle_pairs_windows.
  assert (Hs : forall y x, map fst (windows2 (x :: l ++ [y])) = x :: l); [|apply (Hs x x)].
  intros y. induction l as [|z l IH]; intros x'; [done|].
  change (windows2 (x' :: (z :: l) ++ [y])) with ((x', z) :: windows2 (z :: l ++ [y])).
  cbn [map fst]. by rewrite IH.
Qed.

Lemma cycle_pairs_snd {A} (l : list A) : map snd (cycle_pairs l) ≡ₚ l.
Proof.
  destruct l as [|x l]; [done|]. rewrite cycle_pairs_windows.
  assert (Hs : forall y x, map snd (windows2 (x :: l ++ [y])) = l ++ [y]).
  { intros y. induction l as [|z l IH]; intros x'; [done|].
    change (windows2 (x' :: (z :: l) ++ [y])) with ((x', z) :: windows2 (z :: l ++ [y])).
    cbn [map snd]. by rewrite IH. }
  rewrite Hs. symmetry. apply Permutation_cons_append.
Qed.

(** ** Leaf cycles *)

Lemma cycle_links_ends n cycle :
  NoDup cycle -> times n (link_ends (cycle_links cycle)) <= leaf_degree (lenZ cycle).
Proof.
  intros Hnd. unfold cycle_links, leaf_degree.
  destruct cycle as [|a [|b [|c rest]]]; [done|done| |].
  - simpl. unfold link_ends. simpl. rewrite !times_cons. unfold times. simpl.
    apply NoDup_cons in Hnd as [Hab _]. rewrite list_elem_of_singleton in Hab.
    destruct (decide (a = n)), (decide (b = n)); subst; try lia. done.
  - set (l := a :: b :: c :: rest) in *.
    assert (Hlen : 3 <= lenZ l) by (unfold l; simpl; lia).
    destruct (lenZ l <? 2) eqn:E2; [lia|]. destruct (lenZ l =? 2) eqn:E3; [lia|].
    destruct (lenZ l <=? 1) eqn:E1; [lia|].
    rewrite take_ge by (unfold cycle_pairs; rewrite length_zip_with; lia).
    unfold link_ends. rewrite times_app, cycle_pairs_fst, (times_perm _ _ _ (cycle_pairs_snd l)).
    pose proof (times_nodup n l Hnd). lia.
Qed.

Lemma cycle_links_in cycle a b : (a, b) ∈ cycle_links cycle -> a ∈ cycle /\ b ∈ cycle.
Proof.
  unfold cycle_links. destruct (lenZ cycle <? 2); [by intros ?%not_elem_of_nil|].
  intros Hin. apply (subseteq_take _ (cycle_pairs cycle)) in Hin. split.
  - apply (list_elem_of_fmap_2 fst) in Hin. by rewrite <- (cycle_pairs_fst cycle).
  - apply (list_elem_of_fmap_2 snd) in Hin. simpl in Hin. by rewrite <- (cycle_pairs_snd cycle).
Qed.

(** The consecutive nodes of a cycle are linked, whichever node is left out. *)
Lemma cycle_links_windows l a b : (a, b) ∈ windows2 l -> (a, b) ∈ cycle_links l.
Proof.
  unfold cycle_links. destruct l as [|x [|y l]]; [by intros ?%not_elem_of_nil..|].
  set (m := x :: y :: l). assert (Hlen : 2 <= lenZ m) by (unfold m; simpl; lia).
  destruct (lenZ m <? 2) eqn:E; [lia|]. destruct (lenZ m =? 2) eqn:E2.
  - unfold m in *. destruct l; [|cbn [length] in E2; lia]. done.
  - rewrite take_ge by (unfold cycle_pairs; rewrite length_zip_with; lia). intros Hin.
    unfold m in *. rewrite cycle_pairs_windows. by apply (windows2_extend (x :: y :: l)).
Qed.

Lemma cycle_links_without l1 v l2 a b :
  (a, b) ∈ windows2 (l2 ++ l1) -> (a, b) ∈ cycle_links (l1 ++ v :: l2).
Proof.
  intros Hin. unfold cycle_links.
  assert (Hlen : lenZ (l1 ++ v :: l2) = lenZ (l2 ++ l1) + 1) by (rewrite !length_app; simpl; lia).
  destruct (l2 ++ l1) as [|x [|y r]] eqn:E; [by apply not_elem_of_nil in Hin..|].
  simpl in Hlen. destruct (lenZ (l1 ++ v :: l2) <? 2) eqn:E1; [lia|].
  destruct (lenZ (l1 ++ v :: l2) =? 2) eqn:E2; [lia|].
  rewrite take_ge by (unfold cycle_pairs; rewrite length_zip_with; lia).
  rewrite cycle_pairs_rotate. simpl app. rewrite cycle_pairs_windows, E. right.
  by apply (windows2_extend (x :: y :: r)).
Qed.

(** ** The adjacency after the leaf cycles *)

Lemma empty_adjacency_snoc ids n : empty_adjacency (ids ++ [n]) = bt_insert n [] (empty_adjacency ids).
Proof. unfold empty_adjacency. by rewrite foldl_app. Qed.

Lemma empty_adjacency_ordered ids : ordered (empty_adjacency ids).
Proof.
  induction ids as [|n ids IH] using rev_ind; [split; [constructor|done]|].
  rewrite empty_adjacency_snoc. apply ordered_insert; [done|constructor].
Qed.

Lemma empty_adjacency_get ids n :
  bt_get n (empty_adjacency ids) = if decide (n ∈ ids) then Some [] else None.
Proof.
  induction ids as [|x ids IH] using rev_ind; [done|]. rewrite empty_adjacency_snoc.
  destruct (decide (x = n)) as [<-|Hne].
  - rewrite bt_get_insert, decide_True; [done|]. rewrite elem_of_app. right. constructor.
  - rewrite bt_get_insert_ne, IH by done.
    destruct (decide (n ∈ ids)) as [Hin|Hin].
    + rewrite decide_True; [done|]. rewrite elem_of_app. by left.
    + rewrite decide_False; [done|]. rewrite elem_of_app, list_elem_of_singleton. intros [?|?]; congruence.
Qed.

Lemma empty_adjacency_keys ids n : n ∈ bt_keys (empty_adjacency ids) <-> n ∈ ids.
Proof.
  rewrite <- key_in by apply empty_adjacency_ordered. rewrite empty_adjacency_get.
  destruct (decide (n ∈ ids)); split; [done|by eexists|by intros []|done].
Qed.

Lemma empty_adjacency_neighbors ids n : neighbors (empty_adjacency ids) n = [].
Proof. unfold neighbors. rewrite empty_adjacency_get. by destruct (decide (n ∈ ids)). Qed.

Lemma empty_adjacency_degree ids n : degree (empty_adjacency ids) n = 0.
Proof. unfold degree. rewrite empty_adjacency_get. by destruct (decide (n ∈ ids)). Qed.

Lemma times_link_ends_app n l l' :
  times n (link_ends (l ++ l')) = times n (link_ends l) + times n (link_ends l').
Proof. unfold link_ends. rewrite !map_app, !times_app. lia. Qed.

Lemma cycle_links_outside n cycle : n ∉ cycle -> times n (link_ends (cycle_links cycle)) = 0.
Proof.
  intros Hn. apply times_not_in. unfold link_ends. rewrite elem_of_app, !list_elem_of_fmap.
  intros [([a b] & -> & Hin)|([a b] & -> & Hin)]; apply cycle_links_in in Hin as [? ?]; done.
Qed.

Lemma leaves_outside n gs :
  n ∉ concat (map node_ids gs) ->
  times n (link_ends (concat (map (fun g => cycle_links (node_ids g)) gs))) = 0.
Proof.
  induction gs as [|g gs IH]; [done|]. simpl. rewrite elem_of_app, times_link_ends_app. intros Hn.
  rewrite cycle_links_outside, IH; [done|tauto..].
Qed.

Lemma leaves_inside n g gs :
  NoDup (concat (map node_ids gs)) -> g ∈ gs -> n ∈ node_ids g ->
  times n (link_ends (concat (map (fun g => cycle_links (node_ids g)) gs))) <= leaf_degree (lenZ (node_ids g)).
Proof.
  intros Hnd Hg Hn. apply list_elem_of_split in Hg as (l1 & l2 & ->).
  rewrite map_app, concat_app in Hnd |- *. simpl in Hnd |- *.
  apply NoDup_app in Hnd as (_ & Hd1 & Hnd). apply NoDup_app in Hnd as (Hgn & Hd2 & _).
  rewrite !times_link_ends_app.
  rewrite (leaves_outside n l1), (leaves_outside n l2).
  - pose proof (cycle_links_ends n (node_ids g) Hgn). lia.
  - intros ?. by eapply Hd2.
  - intros Hin. apply (Hd1 n Hin). rewrite elem_of_app. by left.
Qed.

Section Tree.
Context `{DigestOps}.
Variables (config : BoundedTopologyConfig) (t : htree) (hs : list HierarchyGroup) (ids : list NodeId).
Hypothesis Hok : tree_ok config t.
Hypothesis Hperm : hs ≡ₚ flatten t.
Hypothesis Hnodes : NoDup (node_ids (root t)).
Hypothesis Hmembers : forall n, n ∈ ids <-> n ∈ node_ids (root t).

Definition leaf_adjacency : adjacency_map := link_all (empty_adjacency ids) (leaf_links hs).

Lemma leaves_nodes : concat (map node_ids (leaf_groups hs)) ≡ₚ node_ids (root t).
Proof. unfold leaf_groups. rewrite <- (tree_leaves config t Hok), (list_filter_perm _ _ _ Hperm). done. Qed.

Lemma leaf_adjacency_degree g n :
  g ∈ hs -> child_block_ids g = [] -> n ∈ node_ids g ->
  degree leaf_adjacency n <= leaf_degree (lenZ (node_ids g)).
Proof.
  intros Hg Hl Hn. unfold leaf_adjacency, leaf_links. etransitivity; [apply link_all_degree|].
  rewrite empty_adjacency_degree. apply leaves_inside; [by rewrite leaves_nodes| |done].
  unfold leaf_groups. apply list_elem_of_In, filter_In. rewrite bool_decide_eq_true.
  split; [by apply list_elem_of_In|done].
Qed.

Lemma leaf_adjacency_bound n : degree leaf_adjacency n <= 2.
Proof.
  unfold leaf_adjacency, leaf_links. etransitivity; [apply link_all_degree|].
  rewrite empty_adjacency_degree.
  destruct (decide (n ∈ concat (map node_ids (leaf_groups hs)))) as [Hin|Hin].
  - apply elem_of_concat_map in Hin as (g & Hg & Hn). etransitivity.
    + apply Z.add_le_mono_l. eapply leaves_inside; [by rewrite leaves_nodes|done..].
    + unfold leaf_degree. repeat case_match; lia.
  - rewrite leaves_outside by done. lia.
Qed.

Lemma leaf_links_nodes a b : (a, b) ∈ leaf_links hs -> a ∈ ids /\ b ∈ ids.
Proof.
  unfold leaf_links. intros (g & Hg & Hin)%elem_of_concat_map. apply cycle_links_in in Hin as [Ha Hb].
  assert (Hall : forall n, n ∈ node_ids g -> n ∈ ids); [|auto].
  intros n Hn. rewrite Hmembers, <- leaves_nodes. apply elem_of_concat_map. eauto.
Qed.

Lemma leaf_adjacency_ordered : ordered leaf_adjacency.
Proof. apply link_all_ordered, empty_adjacency_ordered. Qed.

Lemma leaf_adjacency_keys n : n ∈ bt_keys leaf_adjacency <-> n ∈ ids.
Proof. unfold leaf_adjacency. rewrite link_all_keys. apply empty_adjacency_keys. Qed.

Lemma leaf_adjacency_mem x y :
  y ∈ neighbors leaf_adjacency x <-> x <> y /\ ((x, y) ∈ leaf_links hs \/ (y, x) ∈ leaf_links hs).
Proof.
  unfold leaf_adjacency. rewrite link_all_mem; [|apply empty_adjacency_ordered|].
  - rewrite empty_adjacency_neighbors, elem_of_nil. tauto.
  - intros a b Hab%leaf_links_nodes. by rewrite !empty_adjacency_keys.
Qed.

End Tree.

(** ** Looking groups up *)

Section Lookup.
Variables (hs hierarchy : list HierarchyGroup).
Hypothesis Hsame : map block_id hierarchy = map block_id hs.

Lemma index_by_id_snoc l g :
  index_by_id_of (l ++ [g]) = bt_insert (block_id g) (length l) (index_by_id_of l).
Proof. unfold index_by_id_of. rewrite imap_app, foldl_app. simpl. by rewrite Nat.add_0_r. Qed.

Lemma index_by_id_get l id :
  match bt_get id (index_by_id_of l) with
  | Some i => exists g, l !! i = Some g /\ block_id g = id
  | None => id ∉ map block_id l
  end.
Proof.
  induction l as [|g l IH] using rev_ind; [by apply not_elem_of_nil|]. rewrite index_by_id_snoc.
  destruct (decide (block_id g = id)) as [<-|Hne].
  - rewrite bt_get_insert. exists g. by rewrite list_lookup_middle.
  - rewrite bt_get_insert_ne by done. destruct (bt_get id (index_by_id_of l)) as [i|].
    + destruct IH as (h & Hi & Hh). exists h. split; [by apply lookup_app_l_Some|done].
    + rewrite map_app. simpl. rewrite elem_of_app, list_elem_of_singleton. intros [?|?]; congruence.
Qed.

Lemma group_by_id_ok id :
  id ∈ map block_id hs ->
  exists g, group_by_id hierarchy (index_by_id_of hs) id = Some (Ok g) /\ g ∈ hierarchy /\ block_id g = id.
Proof.
  intros Hid. unfold group_by_id, index_or_panic. pose proof (index_by_id_get hs id) as Hg.
  destruct (bt_get id (index_by_id_of hs)) as [i|]; [|done]. destruct Hg as (g0 & Hi & Hg0).
  assert (Hl : map block_id hierarchy !! i = Some id) by (by rewrite Hsame, list_lookup_fmap, Hi, <- Hg0).
  rewrite list_lookup_fmap in Hl. destruct (hierarchy !! i) as [g|] eqn:Eg; [|done].
  injection Hl as Hl. exists g. split_and!; [done| |done]. by eapply list_elem_of_lookup_2.
Qed.

Lemma add_ring_links_total pairs placement st :
  (forall a b, (a, b) ∈ pairs -> a ∈ map block_id hs /\ b ∈ map block_id hs) ->
  match add_ring_links hierarchy (index_by_id_of hs) pairs placement st with
  | None => False
  | Some (Err _) => True
  | Some (Ok st') => exists l, st'.1 = link_all st.1 l
  end.
Proof.
  revert st. induction pairs as [|[s d] pairs IH]; intros st Hin; simpl; [by exists []|].
  destruct (Hin s d ltac:(constructor)) as [Hs Hd].
  destruct (group_by_id_ok s Hs) as (gs & -> & _). destruct (group_by_id_ok d Hd) as (gd & -> & _). simpl.
  destruct (representative_for_plane gs 1) as [a|]; simpl; [|done].
  destruct (representative_for_plane gd 0) as [b|]; simpl; [|done].
  specialize (IH (add_placed_edge placement st a b) ltac:(intros; apply Hin; by constructor)).
  destruct (add_ring_links _ _ pairs _ _) as [[st'|]|]; [|done..].
  destruct IH as [l ->]. exists ((a, b) :: l). by destruct st.
Qed.

Lemma add_rings_total parents st :
  (forall g a b, g ∈ hierarchy -> (a, b) ∈ cycle_pairs (child_block_ids g) ->
     a ∈ map block_id hs /\ b ∈ map block_id hs) ->
  (forall id, id ∈ parents -> id ∈ map block_id hs) ->
  match add_rings hierarchy (index_by_id_of hs) parents st with
  | None => False
  | Some (Err _) => True
  | Some (Ok st') => exists l, st'.1 = link_all st.1 l
  end.
Proof.
  intros Hch. revert st. induction parents as [|id parents IH]; intros st Hin; simpl; [by exists []|].
  destruct (group_by_id_ok id) as (g & -> & Hg & _); [apply Hin; constructor|]. simpl.
  unfold add_hierarchy_block_ring.
  pose proof (add_ring_links_total (cycle_pairs (child_block_ids g))
    {| level := depth g; plane := 0; edge_kind := HierarchyLink; placement_group_id := id |} st
    ltac:(intros; by eapply Hch)) as Hr.
  destruct (add_ring_links _ _ _ _ st) as [[st1|]|]; simpl; [|done..]. destruct Hr as [l1 Hl1].
  specialize (IH st1 ltac:(intros; apply Hin; by constructor)).
  destruct (add_rings _ _ parents st1) as [[st2|]|]; [|done..]. destruct IH as [l2 Hl2].
  exists (l1 ++ l2). by rewrite link_all_app, <- Hl1.
Qed.

End Lookup.

(** ** The links of the rings *)

Definition port (hierarchy : list HierarchyGroup) (plane : Z) (id : bytes) : NodeId :=
  match List.find (fun g => bool_decide (block_id g = id)) hierarchy with
  | Some g => match representative_for_plane g plane with Ok n => n | Err _ => [] end
  | None => []
  end.

Definition ring_links (hierarchy : list HierarchyGroup) (child_ids : list bytes) : list link :=
  map (fun '(s, d) => (port hierarchy 1 s, port hierarchy 0 d)) (cycle_pairs child_ids).

Section Ports.
Variables (hs hierarchy : list HierarchyGroup).
Hypothesis Hsame : map block_id hierarchy = map block_id hs.
Hypothesis Hids : NoDup (map block_id hs).
Hypothesis Hreps : forall g, g ∈ hierarchy -> non_root g = true -> reps_ok g.

Lemma find_group g :
  g ∈ hierarchy -> List.find (fun h => bool_decide (block_id h = block_id g)) hierarchy = Some g.
Proof.
  rewrite <- Hsame in Hids. clear Hsame Hreps. intros Hg. induction hierarchy as [|h l IH];
    [by apply not_elem_of_nil in Hg|]. simpl in *. apply NoDup_cons in Hids as [Hh Hnd].
  apply elem_of_cons in Hg as [->|Hg]; [by rewrite bool_decide_true|].
  rewrite bool_decide_false; [by apply IH|]. intros E. apply Hh. rewrite E. by apply list_elem_of_fmap_2.
Qed.

Lemma group_unique g g' : g ∈ hierarchy -> g' ∈ hierarchy -> block_id g = block_id g' -> g = g'.
Proof.
  intros Hg Hg' E. pose proof (find_group g Hg) as E1. pose proof (find_group g' Hg') as E2.
  rewrite E, E2 in E1. by injection E1.
Qed.

Lemma port_rep g x y :
  g ∈ hierarchy ->
  representatives g = [{| rep_node_id := x; rep_plane := 0 |}; {| rep_node_id := y; rep_plane := 1 |}] ->
  port hierarchy 0 (block_id g) = x /\ port hierarchy 1 (block_id g) = y /\
  representative_for_plane g 0 = Ok x /\ representative_for_plane g 1 = Ok y.
Proof. intros Hg Hr. unfold port. rewrite find_group by done. unfold representative_for_plane. by rewrite Hr. Qed.

Definition child_id (id : bytes) : Prop :=
  exists g, g ∈ hierarchy /\ block_id g = id /\ non_root g = true.

Lemma add_ring_links_exact pairs placement st :
  (forall a b, (a, b) ∈ pairs -> child_id a /\ child_id b) ->
  exists st', add_ring_links hierarchy (index_by_id_of hs) pairs placement st = Some (Ok st') /\
    st'.1 = link_all st.1 (map (fun '(s, d) => (port hierarchy 1 s, port hierarchy 0 d)) pairs).
Proof.
  assert (Hfind : forall id, child_id id -> exists g x y,
    group_by_id hierarchy (index_by_id_of hs) id = Some (Ok g) /\
    representative_for_plane g 0 = Ok x /\ representative_for_plane g 1 = Ok y /\
    port hierarchy 0 id = x /\ port hierarchy 1 id = y).
  { intros id (g & Hg & Hid & Hnr).
    destruct (group_by_id_ok hs hierarchy Hsame id) as (g' & Hgb & Hg' & Hid').
    { rewrite <- Hsame, <- Hid. by apply list_elem_of_fmap_2. }
    assert (g' = g) as -> by (apply group_unique; congruence).
    destruct (Hreps g Hg Hnr) as (x & y & Hr & _). destruct (port_rep g x y Hg Hr) as (P0 & P1 & R0 & R1).
    rewrite Hid in P0, P1. by exists g, x, y. }
  revert st. induction pairs as [|[s d] pairs IH]; intros st Hin; simpl; [by exists st|].
  destruct (Hin s d ltac:(constructor)) as [Hs Hd].
  destruct (Hfind s Hs) as (gs & xs & ys & -> & _ & R1 & _ & P1).
  destruct (Hfind d Hd) as (gd & xd & yd & -> & R0 & _ & P0 & _). simpl. rewrite R1, R0. simpl. rewrite P1, P0.
  destruct (IH (add_placed_edge placement st ys xd)) as (st' & -> & Hst');
    [intros; apply Hin; by constructor|].
  exists st'. split; [done|]. rewrite Hst'. by destruct st.
Qed.

Lemma add_rings_exact parents st :
  (forall g a b, g ∈ parents -> g ∈ hierarchy /\
     ((a, b) ∈ cycle_pairs (child_block_ids g) -> child_id a /\ child_id b)) ->
  exists st', add_rings hierarchy (index_by_id_of hs) (map block_id parents) st = Some (Ok st') /\
    st'.1 = link_all st.1 (concat (map (fun g => ring_links hierarchy (child_block_ids g)) parents)).
Proof.
  revert st. induction parents as [|g parents IH]; intros st Hin; simpl; [by exists st|].
  destruct (Hin g [] [] ltac:(constructor)) as [Hg _].
  destruct (group_by_id_ok hs hierarchy Hsame (block_id g)) as (g' & -> & Hg' & Hid').
  { rewrite <- Hsame. by apply list_elem_of_fmap_2. }
  assert (g' = g) as -> by by apply group_unique.
  simpl. unfold add_hierarchy_block_ring.
  destruct (add_ring_links_exact (cycle_pairs (child_block_ids g))
    {| level := depth g; plane := 0; edge_kind := HierarchyLink; placement_group_id := block_id g |} st)
    as (st1 & -> & Hst1); [intros a b Hab; by apply (Hin g a b ltac:(constructor))|]. simpl.
  destruct (IH st1) as (st2 & -> & Hst2); [intros; apply Hin; by constructor|].
  exists st2. split; [done|]. by rewrite Hst2, Hst1, link_all_app.
Qed.

End Ports.

End Rings.
