(* ===== verification/TopologyBlocks.v ===== *)
(** * Blocks that survive a failure

    A set of nodes is a block when the removal of any node leaves the rest of it
    connected. Cycles of nodes are blocks, and blocks joined in a ring by distinct ports
    form a block. *)

From S2P Require Import Prelude RustStd BTree Bfs TopologyGraph Articulation TopologySynthesis TopologyLinks TopologyHierarchy TopologyRings.

Module Blocks.
Import TopologyGraph Articulation Synthesis Links Hierarchy Rings.

Section Blocks.
Variable adj : adjacency_map.
Hypothesis adj_sym : forall u v, v ∈ neighbors adj u -> u ∈ neighbors adj v.

Definition block (s : NodeId -> Prop) : Prop :=
  forall v a b, s a -> s b -> a <> v -> b <> v -> conn adj (without s v) a b.

(** ** Cycles *)

Lemma windows_conn (X : NodeId -> Prop) l a b :
  (forall x, x ∈ l -> X x) -> (forall x y, (x, y) ∈ windows2 l -> y ∈ neighbors adj x) ->
  a ∈ l -> b ∈ l -> conn adj X a b.
Proof.
  intros HX Hw. assert (Hhead : forall h, head l = Some h -> forall c, c ∈ l -> conn adj X h c).
  { induction l as [|x [|y l] IH]; intros h [= <-] c Hc.
    - apply list_elem_of_singleton in Hc as ->. apply conn_refl, HX. constructor.
    - apply elem_of_cons in Hc as [->|Hc]; [apply conn_refl, HX; constructor|].
      apply (conn_trans adj X x y); [|apply IH; [|..|done|done]].
      + eapply conn_step; [apply conn_refl, HX; constructor| |apply HX; do 2 constructor].
        apply Hw. constructor.
      + intros; apply HX; by constructor.
      + intros; apply Hw; by constructor. }
  intros Ha Hb. destruct l as [|h l]; [by apply not_elem_of_nil in Ha|].
  eapply conn_trans; [apply conn_sym; [done|]|]; by apply (Hhead h).
Qed.

Lemma windows2_in {A} (l : list A) a b : (a, b) ∈ windows2 l -> a ∈ l /\ b ∈ l.
Proof.
  induction l as [|x [|y l] IH]; [by intros ?%not_elem_of_nil..|].
  change (windows2 (x :: y :: l)) with ((x, y) :: windows2 (y :: l)).
  intros [[= -> ->]|[? ?]%IH]%elem_of_cons; split; [constructor|do 2 constructor|by constructor..].
Qed.

Lemma windows2_ne {A} (l : list A) a b : NoDup l -> (a, b) ∈ windows2 l -> a <> b.
Proof.
  induction l as [|x [|y l] IH]; [by intros _ ?%not_elem_of_nil..|]. intros Hnd.
  change (windows2 (x :: y :: l)) with ((x, y) :: windows2 (y :: l)).
  apply NoDup_cons in Hnd as [Hx Hnd]. intros [[= -> ->]|Hin]%elem_of_cons; [|by apply IH].
  intros ->. apply Hx. constructor.
Qed.

Lemma cycle_block ids :
  NoDup ids ->
  (forall a b, (a, b) ∈ cycle_links ids -> a <> b -> b ∈ neighbors adj a) ->
  block (fun n => n ∈ ids).
Proof.
  intros Hnd Hl v a b Ha Hb Hav Hbv. destruct (decide (v ∈ ids)) as [Hv|Hv].
  - apply list_elem_of_split in Hv as (l1 & l2 & ->).
    assert (Hnd' : NoDup (l2 ++ l1) /\ v ∉ l2 ++ l1).
    { rewrite <- Permutation_middle, (Permutation_app_comm l1 l2) in Hnd.
      apply NoDup_cons in Hnd as [? ?]. done. }
    destruct Hnd' as [Hnd' Hv']. apply (windows_conn _ (l2 ++ l1)).
    + intros x Hx. split; [set_solver|]. intros ->. done.
    + intros x y Hxy. apply Hl; [by apply cycle_links_without|by eapply windows2_ne].
    + set_solver.
    + set_solver.
  - apply (windows_conn _ ids); [| |done..].
    + intros x Hx. split; [done|]. intros ->. done.
    + intros x y Hxy. apply Hl; [by apply cycle_links_windows|by eapply windows2_ne].
Qed.

(** ** Rings *)

Section Ring.
Context {B : Type} (nodes : B -> list NodeId) (p0 p1 : B -> NodeId).
Variable bs : list B.

Abbreviation all := (concat (map nodes bs)).

Hypothesis Hblock : forall b, b ∈ bs -> block (fun n => n ∈ nodes b).
Hypothesis Hp0 : forall b, b ∈ bs -> p0 b ∈ nodes b.
Hypothesis Hp1 : forall b, b ∈ bs -> p1 b ∈ nodes b.
Hypothesis Hports : forall b, b ∈ bs -> p0 b = p1 b -> nodes b = [p0 b].
Hypothesis Hlinks : forall b c, (b, c) ∈ cycle_pairs bs -> p0 c ∈ neighbors adj (p1 b).
Hypothesis Hnd : NoDup all.
Hypothesis Hlen : 2 <= lenZ bs.

(** Blocks in a row, each connected inside [X]. *)
Lemma row_conn (X : NodeId -> Prop) l b c x y :
  (forall b, b ∈ l -> b ∈ bs) ->
  (forall b x y, b ∈ l -> x ∈ nodes b -> y ∈ nodes b -> conn adj X x y) ->
  (forall b c, (b, c) ∈ windows2 l -> (b, c) ∈ cycle_pairs bs) ->
  b ∈ l -> x ∈ nodes b -> c ∈ l -> y ∈ nodes c -> conn adj X x y.
Proof.
  intros Hsub Hin Hw. assert (Hhead : forall h, head l = Some h -> forall b x, b ∈ l -> x ∈ nodes b ->
    conn adj X (p1 h) x).
  { clear b c x y. induction l as [|h [|k l] IH]; intros h' [= <-] b x Hb Hx.
    - apply list_elem_of_singleton in Hb as ->. apply (Hin h); [constructor| |done].
      apply Hp1, Hsub. constructor.
    - assert (Hh : h ∈ bs) by (apply Hsub; constructor).
      assert (Hk : k ∈ bs) by (apply Hsub; do 2 constructor).
      apply elem_of_cons in Hb as [->|Hb]; [apply (Hin h); [constructor|by apply Hp1|done]|].
      assert (Hkk : conn adj X (p0 k) (p1 k))
        by (apply (Hin k); [do 2 constructor|by apply Hp0|by apply Hp1]).
      assert (Hhh : conn adj X (p1 h) (p1 h)) by (apply (Hin h); [constructor|by apply Hp1..]).
      apply (conn_trans adj X (p1 h) (p0 k)); [|apply (conn_trans adj X (p0 k) (p1 k)); [done|]].
      + eapply conn_step; [done| |exact (proj1 (conn_ends _ _ _ _ Hkk))].
        apply Hlinks, Hw. constructor.
      + apply (IH ltac:(intros; apply Hsub; by constructor) ltac:(intros; eapply Hin; [by constructor|done..])
          ltac:(intros; apply Hw; by constructor) k eq_refl b x Hb Hx). }
  intros Hb Hx Hc Hy. destruct l as [|h l]; [by apply not_elem_of_nil in Hb|].
  eapply conn_trans; [apply conn_sym; [done|]; exact (Hhead h eq_refl b x Hb Hx)|].
  exact (Hhead h eq_refl c y Hc Hy).
Qed.

Lemma in_all b n : b ∈ bs -> n ∈ nodes b -> n ∈ all.
Proof. intros. apply elem_of_concat_map. eauto. Qed.

(** Without a node of none of the blocks of a row, they stay connected. *)
Lemma intact_block v b x y :
  b ∈ bs -> v ∉ nodes b -> x ∈ nodes b -> y ∈ nodes b -> conn adj (without (fun n => n ∈ all) v) x y.
Proof.
  intros Hb Hv Hx Hy. apply (conn_mono adj (without (fun n => n ∈ nodes b) v)).
  - intros n [Hn ?]. split; [by eapply in_all|done].
  - apply Hblock; [done..| |]; by intros ->.
Qed.

Section Failure.
Variables (l1 l2 : list B) (c : B) (v : NodeId).
Hypothesis Ebs : bs = l1 ++ c :: l2.
Hypothesis Hv : v ∈ nodes c.

Abbreviation rest := (l2 ++ l1).
Abbreviation left_over := (without (fun n => n ∈ all) v).

Lemma failed_in : c ∈ bs.
Proof. rewrite Ebs. set_solver. Qed.

Lemma rest_in b : b ∈ rest -> b ∈ bs.
Proof. rewrite Ebs. set_solver. Qed.

Lemma rest_nonempty : rest <> [].
Proof.
  intros E. apply (f_equal length) in E. rewrite Ebs in Hlen. rewrite length_app in *. simpl in *. lia.
Qed.

Lemma all_split : all ≡ₚ nodes c ++ concat (map nodes rest).
Proof.
  rewrite Ebs, map_app, concat_app. simpl. rewrite map_app, concat_app.
  rewrite app_assoc, (Permutation_app_comm (concat (map nodes l1))), <- app_assoc.
  apply Permutation_app_head, Permutation_app_comm.
Qed.

Lemma rest_conn b x y : b ∈ rest -> x ∈ nodes b -> y ∈ nodes b -> conn adj left_over x y.
Proof.
  intros Hb. apply intact_block; [by apply rest_in|]. intros Hvb. pose proof Hnd as Hnd'.
  rewrite all_split in Hnd'. apply NoDup_app in Hnd' as (_ & Hd & _).
  apply (Hd v Hv). apply elem_of_concat_map. eauto.
Qed.

Lemma rest_node b x : b ∈ rest -> x ∈ nodes b -> left_over x.
Proof. intros Hb Hx. exact (proj1 (conn_ends _ _ _ _ (rest_conn b x x Hb Hx Hx))). Qed.

Lemma ring_pairs : cycle_pairs bs ≡ₚ windows2 (c :: rest ++ [c]).
Proof. rewrite Ebs, cycle_pairs_rotate. simpl. by rewrite cycle_pairs_windows. Qed.

Lemma rest_windows b b' : (b, b') ∈ windows2 rest -> (b, b') ∈ cycle_pairs bs.
Proof.
  intros Hw. rewrite ring_pairs. destruct rest as [|x r]; [by apply not_elem_of_nil in Hw|].
  right. by apply (windows2_extend (x :: r)).
Qed.

Lemma ring_next : exists z, z ∈ rest /\ (c, z) ∈ cycle_pairs bs.
Proof.
  pose proof rest_nonempty. setoid_rewrite ring_pairs. destruct rest as [|z r]; [done|].
  exists z. split; constructor.
Qed.

Lemma ring_previous : exists z, z ∈ rest /\ (z, c) ∈ cycle_pairs bs.
Proof.
  pose proof rest_nonempty. setoid_rewrite ring_pairs.
  destruct rest as [|z r _] using rev_ind; [done|]. exists z. split; [rewrite elem_of_app; right; constructor|].
  change (windows2 (c :: (r ++ [z]) ++ [c])) with (windows2 ((c :: r ++ [z]) ++ [c])).
  replace ((c :: r ++ [z]) ++ [c]) with ((c :: r) ++ z :: [c]) by (simpl; by rewrite <- app_assoc).
  rewrite windows2_app, elem_of_app. right. constructor.
Qed.

(** What is left of the block of [v] still has one of its ports. *)
Lemma failed_block_reaches a :
  a ∈ nodes c -> a <> v -> exists b x, b ∈ rest /\ x ∈ nodes b /\ conn adj left_over a x.
Proof.
  intros Ha Hav. pose proof failed_in as Hc.
  assert (Hmono : forall n, without (fun n => n ∈ nodes c) v n -> left_over n)
    by (intros n [Hn ?]; split; [by eapply in_all|done]).
  assert (Hport : forall p, p ∈ nodes c -> p <> v -> conn adj left_over a p).
  { intros p Hp Hpv. eapply conn_mono; [exact Hmono|]. by apply (Hblock c Hc v a p). }
  destruct (decide (p1 c = v)) as [E1|E1].
  - assert (E0 : p0 c <> v).
    { intros E0. pose proof (Hports c Hc ltac:(congruence)) as Hone. rewrite Hone in Ha.
      apply list_elem_of_singleton in Ha. congruence. }
    destruct ring_previous as (z & Hz & Hzc). assert (Hp : p1 z ∈ nodes z) by by apply Hp1, rest_in.
    exists z, (p1 z). split_and!; [done..|].
    eapply conn_step; [apply (Hport (p0 c)); [by apply Hp0|done]| |by eapply rest_node].
    by apply adj_sym, Hlinks.
  - destruct ring_next as (z & Hz & Hzc). assert (Hp : p0 z ∈ nodes z) by by apply Hp0, rest_in.
    exists z, (p0 z). split_and!; [done..|].
    eapply conn_step; [apply (Hport (p1 c)); [by apply Hp1|done]| |by eapply rest_node].
    by apply Hlinks.
Qed.

Lemma left_over_reaches a :
  a ∈ all -> a <> v -> exists b x, b ∈ rest /\ x ∈ nodes b /\ conn adj left_over a x.
Proof.
  intros Ha Hav. rewrite all_split, elem_of_app in Ha. destruct Ha as [Ha|Ha].
  - by apply failed_block_reaches.
  - apply elem_of_concat_map in Ha as (b & Hb & Ha). exists b, a. split_and!; [done..|]. by eapply rest_conn.
Qed.

Lemma left_over_conn a a' : a ∈ all -> a' ∈ all -> a <> v -> a' <> v -> conn adj left_over a a'.
Proof.
  intros Ha Ha' Hav Hav'. destruct (left_over_reaches a Ha Hav) as (b & x & Hb & Hx & Hax).
  destruct (left_over_reaches a' Ha' Hav') as (b' & x' & Hb' & Hx' & Hax').
  eapply conn_trans; [exact Hax|]. eapply conn_trans; [|by apply conn_sym].
  eapply (row_conn _ rest b b'); [apply rest_in| |apply rest_windows|done..].
  intros b0 y y' Hb0. by apply rest_conn.
Qed.

End Failure.

Lemma ring_block : block (fun n => n ∈ all).
Proof.
  intros v a b Ha Hb Hav Hbv. destruct (decide (v ∈ all)) as [Hv|Hv].
  - apply elem_of_concat_map in Hv as (c & Hc & Hv). apply list_elem_of_split in Hc as (l1 & l2 & Ebs).
    by apply (left_over_conn l1 l2 c v).
  - apply elem_of_concat_map in Ha as (b1 & Hb1 & Ha), Hb as (b2 & Hb2 & Hb).
    apply (row_conn _ bs b1 b2); try done.
    + intros b0 x y Hb0. apply intact_block; [done|]. intros ?. apply Hv. by eapply in_all.
    + intros x y Hxy. destruct bs as [|z r]; [by apply not_elem_of_nil in Hxy|].
      rewrite cycle_pairs_windows. by apply (windows2_extend (z :: r)).
Qed.

End Ring.
End Blocks.
End Blocks.
