(* ===== verification/TopologySound.v ===== *)
(** * Synthesis publishes exactly the graphs it promises

    The checks before publication decide a specification of the backbone; what synthesis
    returns meets it over the given nodes; and synthesis succeeds whenever hash digits
    separate the nodes and group identifiers do not collide. *)

From S2P Require Import Prelude RustStd BTree SortBy Hashing Bfs TopologyGraph Articulation TopologySynthesis TopologyLinks TopologyHierarchy TopologyRepresentatives TopologyRings TopologyBlocks.
From Stdlib Require Import Sorting.Sorted.

Module Sound.
Import TopologyGraph Articulation Synthesis Links Hierarchy Representatives Rings Blocks.

(** ** The specification of a backbone *)

Record good_backbone (adj : adjacency_map) (d : Z) : Prop := {
  gb_symmetric : forall a b, b ∈ neighbors adj a -> a ∈ neighbors adj b;
  gb_loop_free : forall a, a ∉ neighbors adj a;
  gb_degree : forall a, lenZ (neighbors adj a) <= d;
  gb_connected : pairwise_connected adj;
  gb_survives : forall failed, survives adj failed
}.

Lemma check_invariants_ok i : check_invariants i = Ok tt <-> are_satisfied i = true.
Proof.
  unfold check_invariants, are_satisfied.
  destruct (connected i), (symmetric i), (no_self_loops i), (within_degree_bound i); simpl; done.
Qed.

Lemma checks_iff adj d :
  ordered adj -> 0 <= d ->
  check_invariants (inspect_invariants adj d) = Ok tt /\ graph_has_no_articulation_points adj = Some true <->
  good_backbone adj d.
Proof.
  intros Ho Hd. rewrite check_invariants_ok, inspect_invariants_iff by done. split.
  - intros [(Hs & Hl & Hdeg & Hc) Ha]. destruct (articulation_test_exact adj Ho Hs Hc) as (b & Hb & Hsurv).
    split; try done. apply Hsurv. congruence.
  - intros [Hs Hl Hdeg Hc Hf]. split; [done|].
    destruct (articulation_test_exact adj Ho Hs Hc) as (b & Hb & Hsurv).
    rewrite Hb. f_equal. by apply Hsurv.
Qed.

Lemma checks_total adj d :
  ordered adj -> 0 <= d -> check_invariants (inspect_invariants adj d) = Ok tt ->
  is_Some (graph_has_no_articulation_points adj).
Proof.
  intros Ho Hd. rewrite check_invariants_ok, inspect_invariants_iff by done.
  intros (Hs & Hl & Hdeg & Hc). destruct (articulation_test_exact adj Ho Hs Hc) as (b & -> & _). by eexists.
Qed.

(** ** Node identifiers *)

Lemma windows2_sorted (l : list NodeId) :
  StronglySorted (le_by kcmp) l ->
  List.find (fun '(a, b) => bool_decide (a = b)) (windows2 l) = None <-> NoDup l.
Proof.
  induction 1 as [|x l Hl IH Hall]; [split; [constructor|done]|].
  destruct l as [|y l]; [split; [|done]; intros _; apply NoDup_singleton|].
  change (windows2 (x :: y :: l)) with ((x, y) :: windows2 (y :: l)). simpl List.find.
  case_bool_decide as E.
  - subst y. split; [done|]. intros [Hx _]%NoDup_cons. destruct Hx. constructor.
  - etransitivity; [exact IH|]. rewrite (NoDup_cons x). split; [|by intros [_ ?]]. intros Hnd. split; [|done].
    intros [?|Hin]%elem_of_cons; [done|]. apply Forall_cons in Hall as [Hxy _].
    inversion Hl as [|? ? _ Hall']; subst. rewrite Forall_forall in Hall'. specialize (Hall' x Hin).
    unfold le_by in *. destruct (kcmp x y) eqn:Exy; [by apply kcmp_eq in Exy| |done].
    rewrite kcmp_flip, Exy in Hall'. done.
Qed.

Lemma canonical_node_ids_ok nodes ids :
  canonical_node_ids nodes = Ok ids <-> NoDup nodes /\ ids = vec_sort nodes.
Proof.
  unfold canonical_node_ids. pose proof (windows2_sorted _ (sort_sorted nodes)) as Hw.
  assert (Hnd : NoDup (vec_sort nodes) <-> NoDup nodes) by (unfold vec_sort; by rewrite sort_by_perm).
  destruct (List.find _ (windows2 (vec_sort nodes))) as [[a b]|].
  - split; [done|]. intros [Hn _]. apply Hnd, Hw in Hn. done.
  - split; [intros [= <-]; split; [by apply Hnd, Hw|done]|by intros [_ ->]].
Qed.

(** ** No step panics *)

Section Total.
Context `{DigestOps}.
Variable config : BoundedTopologyConfig.

Lemma allocate_total order hierarchy reserved adj :
  (forall d id i, (d, id, i) ∈ order -> (i < length hierarchy)%nat) ->
  match allocate_representatives config order hierarchy reserved adj with
  | None => False
  | Some (Err _) => True
  | Some (Ok (h, _)) => map strip h = map strip hierarchy
  end.
Proof.
  revert hierarchy reserved. induction order as [|[[d id] i] order IH]; intros hierarchy reserved Hin; [done|].
  simpl. unfold index_or_panic.
  destruct (lookup_lt_is_Some_2 hierarchy i) as [g Hg]; [eapply Hin; constructor|]. rewrite Hg. simpl.
  destruct (select_group_representatives config _ _ _ _ _) as [reps|e]; simpl; [|done].
  set (r' := foldl _ reserved reps).
  specialize (IH (<[i := set_representatives g reps]> hierarchy) r').
  destruct (allocate_representatives config order _ r' adj) as [[[h r]|e]|].
  - rewrite IH by (intros; rewrite length_insert; eapply Hin; by constructor).
    rewrite <- (list_insert_id hierarchy i g Hg) at 2. rewrite !list_fmap_insert. by rewrite strip_set.
  - done.
  - apply IH. intros. rewrite length_insert. eapply Hin. by constructor.
Qed.

Lemma strip_same {A} (f : HierarchyGroup -> A) h hs :
  (forall g, f (strip g) = f g) -> map strip h = map strip hs -> map f h = map f hs.
Proof.
  intros Hf E. apply (f_equal (map f)) in E. rewrite !map_map in E.
  rewrite <- (map_ext _ _ Hf h), <- (map_ext _ _ Hf hs). done.
Qed.

Lemma links_total t hs st :
  tree_ok config t -> hs ≡ₚ flatten t ->
  match allocate_representatives_and_hierarchy_edges config hs [] st with
  | None => False
  | Some (Err _) => True
  | Some (Ok (_, st')) => exists l, st'.1 = link_all st.1 l
  end.
Proof.
  intros Hok Hperm. unfold allocate_representatives_and_hierarchy_edges.
  assert (Hrange : forall d id i, (d, id, i) ∈ group_order hs -> (i < length hs)%nat)
    by (intros d id i (g & Hi & _)%group_order_in; by eapply lookup_lt_Some).
  pose proof (allocate_total (group_order hs) hs [] st.1 Hrange) as Ha.
  destruct (allocate_representatives config (group_order hs) hs [] st.1) as [[[h r]|e]|]; simpl; [|done..].
  assert (Hids : map block_id h = map block_id hs) by by apply strip_same.
  assert (Hch : map child_block_ids h = map child_block_ids hs) by by apply strip_same.
  assert (Hchild : forall g x, g ∈ h -> x ∈ child_block_ids g -> x ∈ map block_id hs).
  { intros g x Hg Hx. rewrite Hperm, (tree_children config t Hok), <- Hperm, <- Hch. right.
    apply elem_of_concat_map. eauto. }
  assert (Hpairs : forall g a b, g ∈ h -> (a, b) ∈ cycle_pairs (child_block_ids g) ->
                   a ∈ map block_id hs /\ b ∈ map block_id hs).
  { intros g a b Hg Hab. split; eapply Hchild; try done.
    - apply (list_elem_of_fmap_2 fst) in Hab. by rewrite <- (cycle_pairs_fst (child_block_ids g)).
    - apply (list_elem_of_fmap_2 snd) in Hab. by rewrite <- (cycle_pairs_snd (child_block_ids g)). }
  assert (Hpar : forall id, id ∈ map block_id (List.filter (fun g => 2 <=? lenZ (child_block_ids g)) h) ->
                 id ∈ map block_id hs).
  { intros id (g & -> & Hg)%list_elem_of_fmap. rewrite <- Hids. apply list_elem_of_fmap_2.
    apply list_elem_of_In, filter_In in Hg as [Hg _]. by apply list_elem_of_In. }
  pose proof (add_rings_total hs h Hids _ st Hpairs Hpar) as Hr.
  by destruct (add_rings _ _ _ st) as [[st'|e]|].
Qed.

Lemma check_config_ok :
  check_config config = Ok tt <->
  (max_degree config = 4 \/ max_degree config = 6) /\ 4 <= block_size config <= 64.
Proof.
  unfold check_config. simpl existsb.
  change (Z.max MIN_OVERLAY_BLOCK_SIZE MIN_HIERARCHICAL_BLOCK_SIZE) with 4.
  change MAX_OVERLAY_BLOCK_SIZE with 64.
  destruct (max_degree config =? 4) eqn:E4, (max_degree config =? 6) eqn:E6; cbn [negb orb];
    destruct ((4 <=? block_size config) && (block_size config <=? 64)) eqn:Eb; cbn [negb]; split;
    try done; intros; lia.
Qed.

(** The stages of a synthesis that succeeds. *)
Definition published (nodes : list NodeId) (t : BoundedTopology) : Prop :=
  check_config config = Ok tt /\ NoDup nodes /\
  routing_node_ids t = vec_sort nodes /\
  (exists l, adjacency t = link_all (empty_adjacency (vec_sort nodes)) l) /\
  check_invariants (inspect_invariants (adjacency t) (max_degree config)) = Ok tt /\
  graph_has_no_articulation_points (adjacency t) = Some true /\
  invariants t = inspect_invariants (adjacency t) (max_degree config) /\
  routing_node_indexes t = index_nodes (vec_sort nodes) /\
  indexed_adjacency t = index_adjacency (adjacency t) (index_nodes (vec_sort nodes)) (vec_sort nodes).

Lemma hierarchy_links ids hs st :
  4 <= block_size config -> build_hierarchy config ids = Some (Ok hs) ->
  match allocate_representatives_and_hierarchy_edges config hs [] st with
  | None => False
  | Some (Err _) => True
  | Some (Ok (_, st')) => exists l, st'.1 = link_all st.1 l
  end.
Proof.
  intros Hbs Hb. destruct ids as [|x ids'] eqn:E.
  - injection Hb as <-. simpl. by exists [].
  - rewrite <- E in Hb. pose proof (build_hierarchy_tree config ids ltac:(lia) ltac:(congruence)) as Ht.
    rewrite Hb in Ht. destruct Ht as (t & Hp & Hok & _). by eapply links_total.
Qed.

Lemma synthesize_stages nodes :
  match synthesize_ids config nodes with
  | None => False
  | Some (Err _) => True
  | Some (Ok t) => published nodes t
  end.
Proof.
  unfold synthesize_ids, bind_step. destruct (check_config config) as [[]|e] eqn:Ec; [|done].
  pose proof Ec as [Hd Hbs]%check_config_ok.
  destruct (canonical_node_ids nodes) as [ids|e] eqn:Ei; [|done].
  apply canonical_node_ids_ok in Ei as [Hnd ->]. set (ids := vec_sort nodes).
  destruct (build_hierarchy config ids) as [[hs|e]|] eqn:Eb; [|done|].
  2: { destruct ids as [|x l] eqn:E; [done|]. rewrite <- E in Eb.
       pose proof (build_hierarchy_tree config ids ltac:(lia) ltac:(congruence)) as Ht. by rewrite Eb in Ht. }
  pose proof (hierarchy_links ids hs (add_leaf_cycles hs (empty_adjacency ids, [])) ltac:(lia) Eb) as Hl.
  destruct (allocate_representatives_and_hierarchy_edges config hs [] _) as [[[hs' [adj pl]]|e]|]; [|done..].
  destruct Hl as [l Hl]. cbn [fst] in Hl. rewrite add_leaf_cycles_links in Hl. cbn [fst] in Hl.
  rewrite <- link_all_app in Hl.
  assert (Ho : ordered adj) by (rewrite Hl; apply link_all_ordered, empty_adjacency_ordered).
  destruct (check_invariants (inspect_invariants adj (max_degree config))) as [[]|e] eqn:Eci; [|done].
  destruct (checks_total adj (max_degree config) Ho ltac:(lia) Eci) as [b Hb]. rewrite Hb.
  destruct b; [|done]. unfold published. simpl. split_and!; try done. by eexists.
Qed.

Lemma adjacency_nodes nodes l n :
  is_Some (bt_get n (link_all (empty_adjacency (vec_sort nodes)) l)) <-> n ∈ nodes.
Proof.
  rewrite key_in by apply link_all_ordered, empty_adjacency_ordered.
  rewrite link_all_keys, empty_adjacency_keys. apply elem_of_sort_by.
Qed.

(** C32: Topology synthesis always answers: it neither loops nor panics, whatever nodes
    and configuration it is given. *)
Theorem synthesize_total nodes : is_Some (synthesize_ids config nodes).
Proof.
  pose proof (synthesize_stages nodes) as Hs. destruct (synthesize_ids config nodes); [by eexists|done].
Qed.

(** C3: A published topology is what the control plane promises: over exactly the given,
    pairwise distinct nodes, its links are symmetric and loop free, no node has more than
    the configured number of neighbors, all nodes are connected, and they stay connected
    whichever single node fails. *)
Theorem synthesize_sound nodes t :
  synthesize_ids config nodes = Some (Ok t) ->
  NoDup nodes /\ routing_node_ids t ≡ₚ nodes /\
  (forall n, is_Some (bt_get n (adjacency t)) <-> n ∈ nodes) /\
  (max_degree config = 4 \/ max_degree config = 6) /\
  good_backbone (adjacency t) (max_degree config).
Proof.
  intros Hs. pose proof (synthesize_stages nodes) as Hp. rewrite Hs in Hp.
  destruct Hp as (Hc & Hnd & Hr & [l Hl] & Hi & Ha & _). apply check_config_ok in Hc as [Hd _].
  split_and!; [done| | |done|].
  - rewrite Hr. apply sort_by_perm.
  - intros n. rewrite Hl. apply adjacency_nodes.
  - apply checks_iff; [|lia|done]. rewrite Hl. apply link_all_ordered, empty_adjacency_ordered.
Qed.

End Total.

(** ** Synthesis succeeds *)

Lemma cycle_pairs_map {A B} (f : A -> B) l :
  cycle_pairs (map f l) = map (fun '(a, b) => (f a, f b)) (cycle_pairs l).
Proof.
  destruct l as [|x l]; [done|]. simpl map. rewrite !cycle_pairs_windows.
  change (f x :: map f l ++ [f x]) with (map f (x :: l) ++ map f [x]). rewrite <- map_app.
  simpl app. generalize (x :: l ++ [x]) as m. induction m as [|a [|b m] IH]; [done|done|].
  change (windows2 (map f (a :: b :: m))) with ((f a, f b) :: windows2 (map f (b :: m))). by rewrite IH.
Qed.

Lemma cycle_pairs_ne {A} (l : list A) a b :
  NoDup l -> 2 <= lenZ l -> (a, b) ∈ cycle_pairs l -> a <> b.
Proof.
  intros Hnd Hlen Hin. destruct l as [|x l]; [simpl in Hlen; lia|]. rewrite cycle_pairs_windows in Hin.
  destruct l as [|z l _] using rev_ind; [simpl in Hlen; lia|].
  change (x :: (l ++ [z]) ++ [x]) with ((x :: l ++ [z]) ++ [x]) in Hin.
  replace ((x :: l ++ [z]) ++ [x]) with ((x :: l) ++ z :: [x]) in Hin by (simpl; by rewrite <- app_assoc).
  rewrite windows2_app, elem_of_app in Hin. destruct Hin as [Hin|Hin].
  - eapply windows2_ne; [|exact Hin]. done.
  - apply list_elem_of_singleton in Hin as [= -> ->]. apply NoDup_cons in Hnd as [Hx _].
    intros ->. apply Hx. rewrite elem_of_app. right. constructor.
Qed.

Section Success.
Context `{DigestOps}.
Variables (config : BoundedTopologyConfig) (t : htree) (hs hierarchy : list HierarchyGroup).
Variable ids : list NodeId.

Hypothesis Hok : tree_ok config t.
Hypothesis Hperm : hs ≡ₚ flatten t.
Hypothesis Hids : NoDup (map block_id hs).
Hypothesis Hnodes : NoDup (node_ids (root t)).
Hypothesis Hmembers : forall n, n ∈ ids <-> n ∈ node_ids (root t).
Hypothesis Hroot : parent_block_id (root t) = None.
Hypothesis Hstrip : map strip hierarchy = hs.
Hypothesis Hreps : forall g, g ∈ hierarchy -> non_root g = true -> reps_ok g.

Definition all_ring_links : list link :=
  concat (map (fun g => ring_links hierarchy (child_block_ids g))
    (List.filter (fun g => 2 <=? lenZ (child_block_ids g)) hierarchy)).

Definition final_adjacency : adjacency_map := link_all (leaf_adjacency hs ids) all_ring_links.

Lemma same_ids : map block_id hierarchy = map block_id hs.
Proof. rewrite <- Hstrip, map_map. done. Qed.

Lemma hierarchy_strip g : g ∈ hierarchy -> strip g ∈ flatten t.
Proof. intros Hg. rewrite <- Hperm, <- Hstrip. by apply list_elem_of_fmap_2. Qed.

Lemma hierarchy_of g : g ∈ flatten t -> exists h, h ∈ hierarchy /\ strip h = g.
Proof.
  rewrite <- Hperm, <- Hstrip. intros (h & -> & Hh)%list_elem_of_fmap. by exists h.
Qed.

Lemma child_non_root g cs c :
  subtree (HTree g cs) t -> c ∈ cs -> root c ∈ flatten t /\ parent_block_id (root c) <> None.
Proof.
  intros Hsub Hc. pose proof (subtree_ok config _ _ Hok Hsub) as Hok'. split.
  - eapply subtree_flatten; [exact Hsub|]. simpl. right. apply elem_of_concat_map.
    exists c. split; [done|apply root_flatten].
  - inversion Hok' as [|? ? ? ? ? ? ? Hall ?]; subst; [by apply not_elem_of_nil in Hc|].
    rewrite Forall_forall in Hall. destruct (Hall c Hc) as [-> _]. done.
Qed.

(** The ports of a group are members of it, the same one only in a group of one. *)
Lemma port_facts g :
  g ∈ flatten t -> parent_block_id g <> None ->
  let p0 := port hierarchy 0 (block_id g) in let p1 := port hierarchy 1 (block_id g) in
  p0 ∈ node_ids g /\ p1 ∈ node_ids g /\ (p0 = p1 -> node_ids g = [p0]).
Proof.
  intros Hg Hp. destruct (hierarchy_of g Hg) as (h & Hh & <-).
  assert (Hnr : non_root h = true) by (unfold non_root; by rewrite bool_decide_false).
  destruct (Hreps h Hh Hnr) as (x & y & Hr & Hx & Hy & Hxy).
  destruct (port_rep hs hierarchy same_ids Hids h x y Hh Hr) as (P0 & P1 & _). simpl.
  by rewrite P0, P1.
Qed.

Lemma children_ids g cs : tree_ok config (HTree g cs) -> child_block_ids g = map (fun c => block_id (root c)) cs.
Proof. intros Hg. by inversion Hg. Qed.

Lemma child_member h id :
  h ∈ hierarchy -> id ∈ child_block_ids h -> exists g cs c, subtree (HTree g cs) t /\ strip h = g /\
    c ∈ cs /\ id = block_id (root c).
Proof.
  intros Hh Hid. destruct (flatten_subtree t _ (hierarchy_strip h Hh)) as ([g cs] & Hsub & Hr).
  simpl in Hr. subst g. pose proof (children_ids _ _ (subtree_ok config _ _ Hok Hsub)) as Hch.
  change (child_block_ids (strip h)) with (child_block_ids h) in Hch. rewrite Hch in Hid.
  apply list_elem_of_fmap in Hid as (c & -> & Hc). by exists (strip h), cs, c.
Qed.

Lemma child_ids_found h id :
  h ∈ hierarchy -> id ∈ child_block_ids h -> child_id hierarchy id.
Proof.
  intros Hh Hid. destruct (child_member h id Hh Hid) as (g & cs & c & Hsub & _ & Hc & ->).
  destruct (child_non_root g cs c Hsub Hc) as [Hf Hp]. destruct (hierarchy_of _ Hf) as (h' & Hh' & Hs).
  exists h'. split_and!; [done|by rewrite <- Hs|]. unfold non_root.
  change (parent_block_id h') with (parent_block_id (strip h')). rewrite Hs. by rewrite bool_decide_false.
Qed.

Lemma ring_nodes a b : (a, b) ∈ all_ring_links -> a ∈ ids /\ b ∈ ids.
Proof.
  intros (h & Hh & Hin)%elem_of_concat_map. apply list_elem_of_In, filter_In in Hh as [Hh _].
  apply list_elem_of_In in Hh. apply list_elem_of_fmap in Hin as ([s d] & [= -> ->] & Hin).
  assert (Hp : forall id pl, id ∈ child_block_ids h -> pl = 0 \/ pl = 1 -> port hierarchy pl id ∈ ids).
  { intros id pl Hid Hpl. destruct (child_member h id Hh Hid) as (g & cs & c & Hsub & _ & Hc & ->).
    destruct (child_non_root g cs c Hsub Hc) as [Hf Hpar]. destruct (port_facts _ Hf Hpar) as (P0 & P1 & _).
    apply Hmembers. eapply (flatten_nodes config); [done|exact Hf|]. by destruct Hpl as [->| ->]. }
  split; apply Hp; try lia.
  - apply (list_elem_of_fmap_2 fst) in Hin. by rewrite <- (cycle_pairs_fst (child_block_ids h)).
  - apply (list_elem_of_fmap_2 snd) in Hin. by rewrite <- (cycle_pairs_snd (child_block_ids h)).
Qed.

Lemma final_mem x y :
  y ∈ neighbors final_adjacency x <->
  x <> y /\ ((x, y) ∈ leaf_links hs ++ all_ring_links \/ (y, x) ∈ leaf_links hs ++ all_ring_links).
Proof.
  unfold final_adjacency. rewrite link_all_mem; [|apply leaf_adjacency_ordered|].
  - rewrite (leaf_adjacency_mem config t) by done. rewrite !elem_of_app. tauto.
  - intros a b Hab%ring_nodes. rewrite !leaf_adjacency_keys. done.
Qed.

Lemma final_sym x y : y ∈ neighbors final_adjacency x -> x ∈ neighbors final_adjacency y.
Proof. rewrite !final_mem. intros [? ?]. split; [done|tauto]. Qed.

(** *** Every subtree is a block *)

Lemma tree_nonempty c : tree_ok config c -> node_ids (root c) <> [].
Proof.
  intros Hc. destruct Hc as [g ? ? ? ?|g cs Hg Hbs Hlen _ _ _ _]; simpl; [done|]. intros E.
  rewrite E in Hbs. simpl in Hbs. lia.
Qed.

Lemma nodup_concat {A B} (f : A -> list B) l :
  (forall x, x ∈ l -> f x <> []) -> NoDup (concat (map f l)) -> NoDup l.
Proof.
  induction l as [|x l IH]; intros Hne Hnd; [constructor|]. simpl in Hnd.
  apply NoDup_app in Hnd as (_ & Hd & Hnd). apply NoDup_cons. split.
  - intros Hx. pose proof (Hne x ltac:(constructor)) as Hfx. destruct (f x) as [|y ys] eqn:E; [done|].
    apply (Hd y); [constructor|]. apply elem_of_concat_map. exists x. rewrite E. split; [done|constructor].
  - apply IH; [|done]. intros y Hy. apply Hne. by constructor.
Qed.

Lemma block_ext adj (s s' : NodeId -> Prop) : (forall n, s n <-> s' n) -> block adj s -> block adj s'.
Proof.
  intros He Hb v x y Hx Hy Hxv Hyv. apply (conn_mono adj (without s v)); [intros n [? ?]; split; [by apply He|done]|].
  apply Hb; by try apply He.
Qed.

Lemma ring_linked g cs b c :
  subtree (HTree g cs) t -> (b, c) ∈ cycle_pairs cs ->
  port hierarchy 0 (block_id (root c)) ∈
    neighbors final_adjacency (port hierarchy 1 (block_id (root b))).
Proof.
  intros Hsub Hbc. pose proof (subtree_ok config _ _ Hok Hsub) as Hok'.
  assert (Hin : b ∈ cs /\ c ∈ cs).
  { split; [apply (list_elem_of_fmap_2 fst) in Hbc; by rewrite <- (cycle_pairs_fst cs)|].
    apply (list_elem_of_fmap_2 snd) in Hbc. by rewrite <- (cycle_pairs_snd cs). }
  destruct Hin as [Hb Hc].
  destruct (child_non_root g cs b Hsub Hb) as [Fb Pb], (child_non_root g cs c Hsub Hc) as [Fc Pc].
  destruct (port_facts _ Fb Pb) as (_ & B1 & _), (port_facts _ Fc Pc) as (C0 & _ & _).
  assert (Hnd : NoDup (node_ids g)) by exact (subtree_nodup config _ _ Hok Hnodes Hsub).
  inversion Hok' as [|? ? ? ? Hlen Hch Hp ? Hall]; subst; [by apply not_elem_of_nil in Hb|].
  rewrite Forall_forall in Hall. apply final_mem. split.
  - intros E. rewrite <- E in C0. pose proof (siblings_disjoint config g cs b c _ Hok' Hnd Hb Hc B1 C0) as ->.
    eapply (cycle_pairs_ne cs c c); [|lia|done..]. eapply (nodup_concat (fun c => node_ids (root c)));
      [intros x Hx; by apply tree_nonempty, Hall|by rewrite <- Hp].
  - left. apply elem_of_app. right. apply elem_of_concat_map.
    assert (Hg : g ∈ flatten t) by (eapply subtree_flatten; [exact Hsub|apply (root_flatten (HTree g cs))]).
    destruct (hierarchy_of g Hg) as (h & Hh & Hs). exists h.
    assert (Ech : child_block_ids h = map (fun c => block_id (root c)) cs)
      by (change (child_block_ids h) with (child_block_ids (strip h)); by rewrite Hs).
    split.
    + apply list_elem_of_In, filter_In. rewrite Ech, length_map. split; [by apply list_elem_of_In|lia].
    + unfold ring_links. rewrite Ech, cycle_pairs_map. apply list_elem_of_fmap.
      exists (block_id (root b), block_id (root c)). split; [done|].
      apply list_elem_of_fmap. by exists (b, c).
Qed.

Lemma leaf_block g cs :
  subtree (HTree g cs) t -> child_block_ids g = [] -> block final_adjacency (fun n => n ∈ node_ids g).
Proof.
  intros Hsub Hl. apply cycle_block; [apply final_sym|exact (subtree_nodup config _ _ Hok Hnodes Hsub)|].
  intros a b Hab Hne. apply final_mem. split; [done|]. left. apply elem_of_app. left.
  apply elem_of_concat_map. exists g. split; [|done]. unfold leaf_groups.
  apply list_elem_of_In, filter_In. rewrite bool_decide_eq_true. split; [|done].
  apply list_elem_of_In. rewrite Hperm. eapply subtree_flatten; [exact Hsub|constructor].
Qed.

Lemma subtree_block c : subtree c t -> block final_adjacency (fun n => n ∈ node_ids (root c)).
Proof.
  intros Hsub. pose proof (subtree_ok config _ _ Hok Hsub) as Hc. revert c Hc Hsub.
  apply (tree_ok_ind' config (fun c => subtree c t -> block final_adjacency (fun n => n ∈ node_ids (root c)))).
  - intros g Hg Hl Hsub. by eapply leaf_block.
  - intros g cs Hg Hch Hall IH Hsub. simpl.
    inversion Hg as [? ? Hl Hne Hlen|? ? ? ? Hlen _ Hp ? _]; subst.
    { by eapply leaf_block. }
    apply (block_ext _ (fun n => n ∈ concat (map (fun c => node_ids (root c)) cs))).
    { intros n. by rewrite Hp. }
    assert (Hchild : forall c, c ∈ cs -> subtree c t).
    { intros c Hc. clear - Hsub Hc. induction Hsub; [econstructor; [done|constructor]|]. by eapply sub_child. }
    assert (Hport : forall c, c ∈ cs -> let p0 := port hierarchy 0 (block_id (root c)) in
      let p1 := port hierarchy 1 (block_id (root c)) in
      p0 ∈ node_ids (root c) /\ p1 ∈ node_ids (root c) /\ (p0 = p1 -> node_ids (root c) = [p0])).
    { intros c Hc. destruct (child_non_root g cs c Hsub Hc). by apply port_facts. }
    rewrite Forall_forall in IH.
    apply (ring_block final_adjacency final_sym (fun c => node_ids (root c))
      (fun c => port hierarchy 0 (block_id (root c))) (fun c => port hierarchy 1 (block_id (root c))) cs).
    + intros c Hc. apply IH; auto.
    + intros c Hc. apply (Hport c Hc).
    + intros c Hc. apply (Hport c Hc).
    + intros c Hc. apply (Hport c Hc).
    + intros c c' Hcc. by eapply ring_linked.
    + rewrite <- Hp. exact (subtree_nodup config _ _ Hok Hnodes Hsub).
    + lia.
Qed.

(** *** Degrees *)

Lemma ring_links_ends n child_ids :
  times n (link_ends (ring_links hierarchy child_ids)) =
  times n (map (port hierarchy 1) child_ids) + times n (map (port hierarchy 0) child_ids).
Proof.
  unfold link_ends, ring_links. rewrite times_app. f_equal.
  - rewrite <- (cycle_pairs_fst child_ids) at 2. rewrite !map_map. f_equal. by apply map_ext; intros [].
  - assert (Hp : map (port hierarchy 0) child_ids ≡ₚ map (port hierarchy 0) (map snd (cycle_pairs child_ids)))
      by by rewrite cycle_pairs_snd.
    rewrite (times_perm _ _ _ Hp), !map_map. f_equal. by apply map_ext; intros [].
Qed.

Lemma rings_ends n l :
  (forall h, h ∈ l -> 2 <=? lenZ (child_block_ids h) = false -> child_block_ids h = []) ->
  times n (link_ends (concat (map (fun g => ring_links hierarchy (child_block_ids g))
    (List.filter (fun g => 2 <=? lenZ (child_block_ids g)) l)))) =
  times n (map (port hierarchy 1) (concat (map child_block_ids l))) +
  times n (map (port hierarchy 0) (concat (map child_block_ids l))).
Proof.
  induction l as [|h l IH]; intros Hfew; [done|]. simpl. rewrite !map_app, !times_app.
  specialize (IH ltac:(intros; apply Hfew; [by constructor|done])).
  destruct (2 <=? lenZ (child_block_ids h)) eqn:E; simpl.
  - rewrite times_link_ends_app, ring_links_ends, IH. lia.
  - rewrite (Hfew h ltac:(constructor) E). simpl. rewrite IH. unfold times at 3 5. simpl. lia.
Qed.

Lemma roles_ports n l :
  (forall h, h ∈ l -> h ∈ hierarchy /\ non_root h = true) ->
  times n (roles l) = times n (map (port hierarchy 1) (map block_id l)) +
                      times n (map (port hierarchy 0) (map block_id l)).
Proof.
  induction l as [|h l IH]; intros Hin; [done|]. unfold roles in *. simpl. rewrite times_app.
  rewrite IH by (intros; apply Hin; by constructor). rewrite !times_cons.
  destruct (Hin h ltac:(constructor)) as [Hh Hnr]. destruct (Hreps h Hh Hnr) as (x & y & Hr & _).
  destruct (port_rep hs hierarchy same_ids Hids h x y Hh Hr) as (P0 & P1 & _).
  unfold role_nodes. rewrite Hr, P0, P1. simpl. rewrite !times_cons. unfold times at 1. simpl. lia.
Qed.

(** The children of all groups are the groups with a parent. *)
Lemma children_non_root :
  concat (map child_block_ids hierarchy) ≡ₚ map block_id (List.filter non_root hierarchy).
Proof.
  assert (E1 : map child_block_ids hierarchy = map child_block_ids hs) by (rewrite <- Hstrip, map_map; done).
  assert (E2 : map block_id (List.filter non_root hierarchy) = map block_id (List.filter non_root hs)).
  { rewrite <- Hstrip. clear. induction hierarchy as [|g l IH]; [done|]. simpl.
    change (non_root (strip g)) with (non_root g). destruct (non_root g); simpl; by rewrite IH. }
  rewrite E1, E2, (list_filter_perm non_root _ _ Hperm), Hperm.
  pose proof (tree_children config t Hok) as Hch. rewrite Hperm in Hids.
  assert (Hpar : forall g, g ∈ flatten t -> g = root t \/ parent_block_id g <> None)
    by (intros; by eapply tree_parents).
  destruct t as [r cs]. simpl in *.
  apply Permutation_cons_inv in Hch. unfold non_root at 1. rewrite bool_decide_true by done. simpl.
  rewrite <- Hch. f_equiv. symmetry. apply NoDup_cons in Hids as [Hr _].
  assert (Hall : forall g, g ∈ concat (map flatten cs) -> non_root g = true).
  { intros g Hg. unfold non_root. destruct (Hpar g ltac:(by constructor)) as [->|Hp]; [|by rewrite bool_decide_false].
    destruct Hr. by apply list_elem_of_fmap_2. }
  clear - Hall. induction (concat (map flatten cs)) as [|g l IH]; [done|]. simpl.
  rewrite Hall by constructor. rewrite IH; [done|]. intros. apply Hall. by constructor.
Qed.

Lemma final_degree n :
  degree final_adjacency n <= degree (leaf_adjacency hs ids) n + times n (roles (List.filter non_root hierarchy)).
Proof.
  unfold final_adjacency. etransitivity; [apply link_all_degree|]. apply Z.add_le_mono_l.
  unfold all_ring_links. rewrite rings_ends.
  - rewrite roles_ports.
    + rewrite !(times_perm n _ _ (Permutation_map _ children_non_root)). lia.
    + intros h Hh. apply list_elem_of_In, filter_In in Hh as [Hh ?]. by rewrite list_elem_of_In.
  - intros h Hh Hlt. destruct (flatten_subtree t _ (hierarchy_strip h Hh)) as ([g cs] & Hsub & Hr).
    simpl in Hr. subst g. pose proof (subtree_ok config _ _ Hok Hsub) as Hok'.
    inversion Hok' as [? ? Hl|? ? ? ? Hlen Hch]; subst; [done|]. exfalso.
    change (child_block_ids (strip h)) with (child_block_ids h) in Hch. rewrite Hch, length_map in Hlt. lia.
Qed.

Lemma final_good d :
  (forall n, degree (leaf_adjacency hs ids) n + times n (roles (List.filter non_root hierarchy)) <= d) ->
  good_backbone final_adjacency d.
Proof.
  intros Hd. pose proof (subtree_block t (sub_refl t)) as Hb.
  assert (Hkeys : forall n, is_Some (bt_get n final_adjacency) <-> n ∈ node_ids (root t)).
  { intros n. unfold final_adjacency. rewrite key_in by apply link_all_ordered, leaf_adjacency_ordered.
    rewrite link_all_keys, leaf_adjacency_keys. apply Hmembers. }
  assert (Hsurv : forall v, survives final_adjacency v).
  { intros v a b Ha Hb' Hav Hbv.
    apply (conn_path _ (without (fun n => n ∈ node_ids (root t)) v)); [by intros x []|done..|].
    apply Hb; by try apply Hkeys. }
  split; [apply final_sym| | | |done].
  - intros a [Haa _]%final_mem. done.
  - intros a. etransitivity; [|apply (Hd a)]. etransitivity; [|apply final_degree].
    unfold neighbors, degree, bt_keys. destruct (bt_get a final_adjacency); [by rewrite length_map|done].
  - intros a b Ha Hb'. apply shortest_path_reaches; [done..|].
    (* a node outside the graph fails *)
    set (v := concat (node_ids (root t)) ++ [x00]).
    assert (Hv : v ∉ node_ids (root t)).
    { intros Hin. assert (Hle : forall l : list NodeId, v ∈ l -> (length v <= length (concat l))%nat).
      { clear. induction l as [|x l IH]; [by intros ?%not_elem_of_nil|]. simpl. rewrite length_app.
        intros [<-|Hin]%elem_of_cons; [lia|]. specialize (IH Hin). lia. }
      specialize (Hle _ Hin). unfold v in Hle. rewrite length_app in Hle. simpl in Hle. lia. }
    apply Hkeys in Ha, Hb'.
    assert (Hc : conn final_adjacency (without (fun n => n ∈ node_ids (root t)) v) a b)
      by (apply Hb; [done..| |]; congruence).
    clear - Hc. induction Hc as [|x y Hx IH Hy HX]; [apply reaches_refl|]. by eapply reaches_step.
Qed.

End Success.
Section Liveness.
Context `{DigestOps}.
Variable config : BoundedTopologyConfig.

Lemma links_succeed t hs ids :
  check_config config = Ok tt -> tree_ok config t -> hs ≡ₚ flatten t -> NoDup (map block_id hs) ->
  NoDup (node_ids (root t)) -> (forall n, n ∈ ids <-> n ∈ node_ids (root t)) ->
  parent_block_id (root t) = None ->
  exists h st, allocate_representatives_and_hierarchy_edges config hs []
      (add_leaf_cycles hs (empty_adjacency ids, [])) = Some (Ok (h, st)) /\
    good_backbone st.1 (max_degree config) /\ ordered st.1.
Proof.
  intros Hc Hok Hperm Hids Hnodes Hmem Hroot. apply check_config_ok in Hc as [Hd _].
  unfold allocate_representatives_and_hierarchy_edges.
  set (st0 := add_leaf_cycles hs (empty_adjacency ids, [])).
  assert (Hst0 : st0.1 = leaf_adjacency hs ids) by apply add_leaf_cycles_links. rewrite Hst0.
  destruct (allocation_ok config (leaf_adjacency hs ids) t hs Hok Hperm Hids Hnodes ltac:(lia))
    as (h & r & -> & Hstrip & Hreps & Hdeg).
  - intros g n Hg Hl Hn. by apply (leaf_adjacency_degree config t).
  - intros n. pose proof (leaf_adjacency_bound config t hs ids Hok Hperm Hnodes n). lia.
  - simpl. assert (Hsame : map block_id h = map block_id hs) by (rewrite <- Hstrip, map_map; done).
    destruct (add_rings_exact hs h Hsame Hids Hreps
      (List.filter (fun g => 2 <=? lenZ (child_block_ids g)) h) st0) as (st & -> & Hst).
    + intros g a b Hg. apply list_elem_of_In, filter_In in Hg as [Hg _]. apply list_elem_of_In in Hg.
      split; [done|]. intros Hab. split; eapply (child_ids_found config t hs h); try done.
      * apply (list_elem_of_fmap_2 fst) in Hab. by rewrite <- (cycle_pairs_fst (child_block_ids g)).
      * apply (list_elem_of_fmap_2 snd) in Hab. by rewrite <- (cycle_pairs_snd (child_block_ids g)).
    + simpl. exists h, st. split; [done|]. rewrite Hst, Hst0. split.
      * by apply (final_good config t hs h ids).
      * apply link_all_ordered, leaf_adjacency_ordered.
Qed.

(** C2: Topology synthesis succeeds: for a supported configuration and distinct nodes, once
    hash digits split the nodes into blocks and the group identifiers do not collide, a
    topology is published. Ports are found for every group within the degree bound, and
    the final checks never reject what was built. *)
Theorem synthesize_succeeds nodes hs :
  check_config config = Ok tt -> NoDup nodes ->
  build_hierarchy config (vec_sort nodes) = Some (Ok hs) -> NoDup (map block_id hs) ->
  exists t, synthesize_ids config nodes = Some (Ok t).
Proof.
  intros Hc Hnd Hb Hids. pose proof Hc as [Hd Hbs]%check_config_ok.
  assert (Hcan : canonical_node_ids nodes = Ok (vec_sort nodes)) by by apply canonical_node_ids_ok.
  unfold synthesize_ids. rewrite Hc, Hcan. unfold bind_step at 1 2. rewrite Hb. unfold bind_step at 1.
  assert (Hlinks : exists h st, allocate_representatives_and_hierarchy_edges config hs []
      (add_leaf_cycles hs (empty_adjacency (vec_sort nodes), [])) = Some (Ok (h, st)) /\
    good_backbone st.1 (max_degree config) /\ ordered st.1).
  { destruct (vec_sort nodes) as [|x l] eqn:E.
    - injection Hb as <-. simpl. exists [], ([], []). split; [done|]. split; [|split; [constructor|done]].
      split; [by intros a b ?%not_elem_of_nil|by intros a ?%not_elem_of_nil| |by intros a b []|by intros v a b []].
      intros a. change (0 <= max_degree config). lia.
    - assert (Hne : vec_sort nodes <> []) by (by rewrite E). rewrite <- E in Hb |- *.
      pose proof (build_hierarchy_tree config (vec_sort nodes) ltac:(lia) Hne) as Ht.
      rewrite Hb in Ht. destruct Ht as (t & Hp & Hok & Hr & Hpar & _).
      assert (Hsort : node_ids (root t) ≡ₚ vec_sort nodes) by (rewrite Hr; apply sort_by_perm).
      eapply (links_succeed t hs); try done; [|by intros n; rewrite Hsort].
      rewrite Hsort. unfold vec_sort. by rewrite sort_by_perm. }
  destruct Hlinks as (h & [adj pl] & -> & Hgood & Ho). unfold bind_step at 1. cbn [fst] in Hgood, Ho.
  apply checks_iff in Hgood as [Hi Ha]; [|done|lia]. rewrite Hi. unfold bind_step. rewrite Ha. by eexists.
Qed.

End Liveness.

Lemma synthesize_sound_witness :
  exists t, @synthesize_ids sample_digest (config_new 4) sample_members = Some (Ok t) /\
    good_backbone (adjacency t) 4.
Proof.
  assert (Hr : match @synthesize_ids sample_digest (config_new 4) sample_members with
               | Some (Ok _) => true | _ => false end = true) by (vm_compute; reflexivity).
  destruct (@synthesize_ids sample_digest (config_new 4) sample_members) as [[t|e]|] eqn:E;
    [|discriminate Hr|discriminate Hr].
  exists t. split; [reflexivity|].
  exact (proj2 (proj2 (proj2 (proj2 (@synthesize_sound sample_digest (config_new 4) sample_members t E))))).
Defined.

Lemma synthesize_succeeds_witness :
  exists t, @synthesize_ids sample_digest (config_new 4) sample_members = Some (Ok t).
Proof.
  assert (Hr : match @build_hierarchy sample_digest (config_new 4) (vec_sort sample_members) with
               | Some (Ok hs) => bool_decide (NoDup (map block_id hs)) | _ => false end = true)
    by (vm_compute; reflexivity).
  destruct (@build_hierarchy sample_digest (config_new 4) (vec_sort sample_members)) as [[hs|e]|] eqn:E;
    [|discriminate Hr|discriminate Hr].
  apply (@synthesize_succeeds sample_digest (config_new 4) sample_members hs).
  - vm_compute. reflexivity.
  - apply (bool_decide_eq_true_1 (NoDup sample_members)). vm_compute. reflexivity.
  - exact E.
  - exact (bool_decide_eq_true_1 _ Hr).
Defined.

End Sound.
