(* ===== verification/TopologyRouting.v ===== *)
(** * Next hops over the published backbone (crates/ipars-control-plane/src/bounded_topology.rs)

    The table of primary and alternate first hops that the control plane computes for a
    node, over the indexes of the published topology, and its cache. A [None] result
    stands for a panic (an index out of range, an overflow) or an exhausted search bound;
    the optional results of the code are values inside it. *)

From S2P Require Import Prelude RustStd BTree SortBy Hashing Endpoints OverlayTypes Bfs IndexedSearch TopologyGraph Articulation TopologySynthesis TopologyHierarchy TopologyLinks TopologyRings TopologySound.
From Stdlib Require Import Sorting.Sorted.

Module Routing.
Import TopologyGraph Articulation Synthesis Links Rings Sound.

Record CompactNextHops : Type := { hop_primary : Z; hop_secondary : option Z }.

Abbreviation next_hops := (list (option CompactNextHops)).

(** [u32::try_from] of an index. *)
Definition u32_try_from (i : nat) : option Z :=
  if Z.of_nat i <? 2 ^ 32 then Some (Z.of_nat i) else None.

(** [slots[i] = Some(v)] *)
Definition set_slot {V} (slots : list (option V)) (i : nat) (v : V) : option (list (option V)) :=
  if (i <? length slots)%nat then Some (<[i := Some v]> slots) else None.

Definition routing_fuel (t : BoundedTopology) : nat := S (length (routing_node_ids t)).

Definition indexed_distances_from_avoiding (t : BoundedTopology) (source_index unavailable_index : nat)
  : option (list (option Z)) :=
  distances ← set_slot (replicate (length (routing_node_ids t)) None) source_index 0;
  indexed_search
    (fun current => ns ← indexed_adjacency t !! current;
                    Some (List.filter (fun n => negb (bool_decide (n = unavailable_index))) ns))
    (fun _ distance => d ← distance; checked_add 32 d 1)
    (routing_fuel t) distances [source_index].

(** The labels of the source's neighbors; no queue when a label does not fit and the
    function returns early. *)
Fixpoint first_hop_labels (terminal_index : nat) (ns : list nat) (labels : list (option Z))
    (queue : list nat) : option (list (option Z) * option (list nat)) :=
  match ns with
  | [] => Some (labels, Some queue)
  | n :: ns =>
      if bool_decide (n = terminal_index) then first_hop_labels terminal_index ns labels queue
      else match u32_try_from n with
           | None => Some (labels, None)
           | Some label =>
               labels ← set_slot labels n label;
               first_hop_labels terminal_index ns labels (queue ++ [n])
           end
  end.

Definition alternate_first_hop_labels (t : BoundedTopology) (source_index terminal_index : nat)
  : option (list (option Z)) :=
  ns ← indexed_adjacency t !! source_index;
  '(labels, queue) ← first_hop_labels terminal_index ns
                       (replicate (length (routing_node_ids t)) None) [];
  match queue with
  | None => Some labels
  | Some queue =>
      indexed_search
        (fun current =>
           if bool_decide (current = terminal_index) then Some []
           else ns ← indexed_adjacency t !! current;
                Some (List.filter (fun n => negb (bool_decide (n = source_index))) ns))
        (fun _ label => label)
        (routing_fuel t) labels queue
  end.

(** One entry for every neighbor whose index fits. *)
Fixpoint for_neighbors {A} (f : nat -> option A) (ns : list nat) : option (list (Z * A)) :=
  match ns with
  | [] => Some []
  | n :: ns =>
      match u32_try_from n with
      | None => for_neighbors f ns
      | Some k => v ← f n; rest ← for_neighbors f ns; Some ((k, v) :: rest)
      end
  end.

(** The distances to a destination through each neighbor that reaches it. *)
Fixpoint candidates_for (candidate_distances : list (Z * list (option Z))) (destination_index : nat)
  : option (list (Z * Z)) :=
  match candidate_distances with
  | [] => Some []
  | (neighbor, distances) :: rest =>
      slot ← distances !! destination_index;
      rest ← candidates_for rest destination_index;
      match slot with
      | None => Some rest
      | Some distance => d ← checked_add 32 distance 1; Some ((d, neighbor) :: rest)
      end
  end.

(** The first candidate with an alternate. *)
Fixpoint reliable_pair (alternate_labels : btree Z (list (option Z))) (destination_index : nat)
    (candidates : list (Z * Z)) : option (Z * Z) :=
  match candidates with
  | [] => None
  | (_, primary) :: rest =>
      match (labels ← bt_get primary alternate_labels; label ← labels !! destination_index; label) with
      | Some secondary =>
          if bool_decide (secondary = primary) then reliable_pair alternate_labels destination_index rest
          else Some (primary, secondary)
      | None => reliable_pair alternate_labels destination_index rest
      end
  end.

(** The hops to one destination; the inner [None] when no neighbor reaches it. *)
Definition destination_hops (candidate_distances : list (Z * list (option Z)))
    (alternate_labels : btree Z (list (option Z))) (destination_index : nat)
  : option (option CompactNextHops) :=
  candidates ← candidates_for candidate_distances destination_index;
  match vec_sort candidates with
  | [] => Some None
  | ((_, fallback_primary) :: _) as candidates =>
      Some (Some match reliable_pair alternate_labels destination_index candidates with
                 | Some (primary, secondary) =>
                     {| hop_primary := primary; hop_secondary := Some secondary |}
                 | None => {| hop_primary := fallback_primary; hop_secondary := None |}
                 end)
  end.

Fixpoint fill_table (candidate_distances : list (Z * list (option Z)))
    (alternate_labels : btree Z (list (option Z))) (source_index : nat) (destinations : list nat)
    (table : next_hops) : option (option next_hops) :=
  match destinations with
  | [] => Some (Some table)
  | destination_index :: rest =>
      if bool_decide (destination_index = source_index)
      then fill_table candidate_distances alternate_labels source_index rest table
      else
        hops ← destination_hops candidate_distances alternate_labels destination_index;
        match hops with
        | None => Some None
        | Some hops =>
            table ← set_slot table destination_index hops;
            fill_table candidate_distances alternate_labels source_index rest table
        end
  end.

Definition compute_next_hops_from (t : BoundedTopology) (source_index : nat)
  : option (option next_hops) :=
  match indexed_adjacency t !! source_index with
  | None => Some None
  | Some source_neighbors =>
      candidate_distances ←
        for_neighbors (fun n => indexed_distances_from_avoiding t n source_index) source_neighbors;
      alternate_labels ←
        for_neighbors (fun n => alternate_first_hop_labels t source_index n) source_neighbors;
      let n := length (routing_node_ids t) in
      fill_table candidate_distances
        (foldl (fun m '(k, labels) => bt_insert k labels m) [] alternate_labels)
        source_index (seq 0 n) (replicate n None)
  end.

(** ** The cache *)

Abbreviation hop_cache := (btree nat next_hops).

Definition cached_next_hops_from (t : BoundedTopology) (source_index : nat) (cache : hop_cache)
  : option (option next_hops * hop_cache) :=
  match bt_get source_index cache with
  | Some cached => Some (Some cached, cache)
  | None =>
      computed ← compute_next_hops_from t source_index;
      match computed with
      | None => Some (None, cache)
      | Some computed =>
          Some (Some computed,
                match bt_get source_index cache with
                | Some _ => cache
                | None => bt_insert source_index computed cache
                end)
      end
  end.

Definition next_hop_table (t : BoundedTopology) (source : NodeId) (cache : hop_cache)
  : option (option next_hops * hop_cache) :=
  match bt_get source (routing_node_indexes t) with
  | None => Some (None, cache)
  | Some source_index => cached_next_hops_from t source_index cache
  end.

Definition table_get (t : BoundedTopology) (compact : next_hops) (destination : NodeId)
  : option (NodeId * option NodeId) :=
  destination_index ← bt_get destination (routing_node_indexes t);
  slot ← compact !! destination_index;
  hops ← slot;
  primary ← routing_node_ids t !! Z.to_nat (hop_primary hops);
  Some (primary, index ← hop_secondary hops; routing_node_ids t !! Z.to_nat index).

Definition next_hops_from (t : BoundedTopology) (source : NodeId) (cache : hop_cache)
  : option (option (btree NodeId (NodeId * option NodeId)) * hop_cache) :=
  '(table, cache) ← next_hop_table t source cache;
  match table with
  | None => Some (None, cache)
  | Some compact =>
      Some (Some (foldl (fun m destination =>
                           match table_get t compact destination with
                           | Some hops => bt_insert destination hops m
                           | None => m
                           end) [] (routing_node_ids t)), cache)
  end.

(** ** Indexes and nodes *)

Lemma index_nodes_snoc l n : index_nodes (l ++ [n]) = bt_insert n (length l) (index_nodes l).
Proof. unfold index_nodes. rewrite imap_app, foldl_app. simpl. by rewrite Nat.add_0_r. Qed.

Lemma index_nodes_lookup ids n i : NoDup ids -> bt_get n (index_nodes ids) = Some i <-> ids !! i = Some n.
Proof.
  revert i. induction ids as [|x ids IH] using rev_ind; intros i Hnd; [done|].
  apply NoDup_app in Hnd as (Hnd & Hx & _). specialize (IH i Hnd). rewrite index_nodes_snoc.
  assert (Hnx : forall j, ids !! j <> Some x).
  { intros j Hj. apply (Hx x); [by eapply list_elem_of_lookup_2|constructor]. }
  destruct (decide (x = n)) as [->|Hne].
  - rewrite bt_get_insert. split; [intros [= <-]; by apply list_lookup_middle|].
    intros [Hi|[Hi Hn]]%lookup_app_Some; [by destruct (Hnx i)|].
    apply list_lookup_singleton_Some in Hn as [Hn _]. f_equal. lia.
  - rewrite bt_get_insert_ne by done. rewrite IH, lookup_app_Some, list_lookup_singleton_Some.
    split; [by left|]. intros [?|(_ & _ & ?)]; congruence.
Qed.

Lemma Forall2_filter {A B} (R : A -> B -> Prop) p q l k :
  (forall x y, R x y -> p x = q y) -> Forall2 R l k -> Forall2 R (List.filter p l) (List.filter q k).
Proof.
  intros Hpq. induction 1 as [|x y l k Hxy _ IH]; simpl; [constructor|].
  rewrite (Hpq x y Hxy). destruct (q y); [by constructor|done].
Qed.

(** What a published topology gives the routing code. *)
Record routing_ok (t : BoundedTopology) : Prop := {
  ro_nodup : NoDup (routing_node_ids t);
  ro_ordered : ordered (adjacency t);
  ro_nodes : forall n, n ∈ routing_node_ids t <-> is_Some (bt_get n (adjacency t));
  ro_symmetric : forall a b, b ∈ neighbors (adjacency t) a -> a ∈ neighbors (adjacency t) b;
  ro_loop_free : forall a, a ∉ neighbors (adjacency t) a;
  ro_connected : pairwise_connected (adjacency t);
  ro_survives : forall failed, survives (adjacency t) failed;
  ro_indexes : routing_node_indexes t = index_nodes (routing_node_ids t);
  ro_indexed : indexed_adjacency t =
    index_adjacency (adjacency t) (routing_node_indexes t) (routing_node_ids t)
}.

Lemma published_routing `{DigestOps} config nodes t :
  synthesize_ids config nodes = Some (Ok t) -> routing_ok t /\ routing_node_ids t ≡ₚ nodes.
Proof.
  intros Hs. pose proof (synthesize_stages config nodes) as Hp. rewrite Hs in Hp.
  destruct Hp as (Hc & Hnd & Hr & [l Hl] & Hi & Ha & _ & Hix & Had).
  assert (Ho : ordered (adjacency t)) by (rewrite Hl; apply link_all_ordered, empty_adjacency_ordered).
  assert (Hg : good_backbone (adjacency t) (max_degree config)).
  { apply check_config_ok in Hc as [Hd _]. apply checks_iff; [done|lia|done]. }
  rewrite Hr. split; [|apply sort_by_perm]. destruct Hg as [H1 H2 H3 H4 H5]. split; try done; rewrite Hr.
  - unfold vec_sort. by rewrite sort_by_perm.
  - intros n. rewrite Hl, adjacency_nodes. apply elem_of_sort_by.
  - done.
  - by rewrite Hix.
Qed.

Section Routes.
Variable t : BoundedTopology.
Hypothesis Hok : routing_ok t.
Hypothesis Hsize : lenZ (routing_node_ids t) < 2 ^ 31.

Abbreviation adj := (adjacency t).
Abbreviation ids := (routing_node_ids t).
Abbreviation at_index i n := (routing_node_ids t !! i = Some n).
Abbreviation in_order := (Forall2 (fun (i : nat) (n : NodeId) => routing_node_ids t !! i = Some n)).

Lemma at_index_eq i j a b : at_index i a -> at_index j b -> bool_decide (i = j) = bool_decide (a = b).
Proof.
  intros Hi Hj. apply bool_decide_ext. split; [intros ->; congruence|].
  intros ->. by eapply NoDup_lookup; [apply Hok|..].
Qed.

Lemma at_index_small i a : at_index i a -> u32_try_from i = Some (Z.of_nat i).
Proof.
  intros Hi%lookup_lt_Some. unfold u32_try_from. destruct (Z.ltb_spec (Z.of_nat i) (2 ^ 32)); [done|].
  clear - Hi Hsize H. lia.
Qed.

Lemma node_index n : is_Some (bt_get n adj) -> exists i, at_index i n /\ bt_get n (routing_node_indexes t) = Some i.
Proof.
  intros Hn. apply (ro_nodes t Hok), list_elem_of_lookup_1 in Hn as [i Hi]. exists i. split; [done|].
  rewrite (ro_indexes t Hok). by apply index_nodes_lookup; [apply Hok|].
Qed.

Lemma neighbor_key a b : b ∈ neighbors adj a -> is_Some (bt_get b adj).
Proof. apply adj_closed. intros u v. apply Hok. Qed.

Lemma indexed_neighbors i n :
  at_index i n -> exists ns, indexed_adjacency t !! i = Some ns /\ in_order ns (neighbors adj n).
Proof.
  intros Hi. rewrite (ro_indexed t Hok). unfold index_adjacency. rewrite list_lookup_fmap, Hi.
  eexists. split; [done|].
  assert (Hall : forall x, x ∈ neighbors adj n -> is_Some (bt_get x adj)) by (intros x; apply neighbor_key).
  revert Hall. generalize (neighbors adj n) as xs. induction xs as [|x xs IH]; intros Hall; simpl; [constructor|].
  destruct (node_index x) as (j & Hj & ->); [apply Hall; constructor|]. constructor; [done|].
  apply IH. intros y Hy. apply Hall. by constructor.
Qed.

Lemma start_slots {V W} (R : nat -> V -> W -> Prop) k : slots_ok ids R k (replicate (length ids) None) [].
Proof.
  intros i n Hi. exists None. split; [|constructor]. apply lookup_replicate_2. by eapply lookup_lt_Some.
Qed.

Lemma set_slot_in {V} (slots : list (option V)) i n v :
  (forall j x, at_index j x -> is_Some (slots !! j)) -> at_index i n ->
  set_slot slots i v = Some (<[i := Some v]> slots).
Proof.
  intros Hs Hi. destruct (Hs i n Hi) as [o Ho%lookup_lt_Some]. unfold set_slot.
  by rewrite (proj2 (Nat.ltb_lt _ _) Ho).
Qed.

Lemma slots_in {V W} (R : nat -> V -> W -> Prop) k slots m :
  slots_ok ids R k slots m -> forall j x, at_index j x -> is_Some (slots !! j).
Proof. intros Hs j x Hj. destruct (Hs j x Hj) as (o & -> & _). by eexists. Qed.

(** *** Distances around a node *)

(** [o] is the length of a shortest way from [a] to [n] around [b]. *)
Definition distance_around (a b n : NodeId) (o : option Z) : Prop :=
  match o with
  | None => forall k, ~ walk (others adj b) a k n
  | Some d => d <= lenZ ids + 1 /\ exists k, d = Z.of_nat k /\ walk (others adj b) a k n /\
                forall k', walk (others adj b) a k' n -> (k <= k')%nat
  end.

Lemma indexed_others i n j b :
  at_index i n -> at_index j b ->
  exists ns, (ns ← indexed_adjacency t !! i;
              Some (List.filter (fun n => negb (bool_decide (n = j))) ns)) = Some ns /\
    in_order ns (others adj b n).
Proof.
  intros Hi Hj. destruct (indexed_neighbors i n Hi) as (ns & -> & Hns). eexists. split; [done|].
  eapply Forall2_filter; [|exact Hns]. intros x y Hx. cbv beta. by rewrite (at_index_eq x j y b).
Qed.

Lemma distances_ok s u a b :
  at_index s a -> at_index u b ->
  exists ds, indexed_distances_from_avoiding t s u = Some ds /\
    forall i n, at_index i n -> exists o, ds !! i = Some o /\ distance_around a b n o.
Proof.
  intros Hs Hu. unfold indexed_distances_from_avoiding.
  set (R := fun k (d : Z) (w : NodeId * nat) => d = Z.of_nat w.2 /\ (w.2 <= k)%nat).
  rewrite (set_slot_in _ s a) by (done || exact (slots_in R 0 _ [] (start_slots R 0))).
  cbn [mbind option_bind].
  destruct (bfs_total (others adj b) a (routing_fuel t) ids) as [r Hr].
  { by eapply list_elem_of_lookup_2. }
  { intros n x [Hx _]%others_in. apply (ro_nodes t Hok). by eapply neighbor_key. }
  { unfold routing_fuel. lia. }
  pose proof (bfs_correct _ _ _ _ Hr) as Hres.
  destruct (indexed_search_sim ids (ro_nodup t Hok)
    (fun current => ns ← indexed_adjacency t !! current;
                    Some (List.filter (fun n => negb (bool_decide (n = u))) ns))
    (others adj b) (fun i n Hi => indexed_others i n u b Hi Hu)
    (fun _ distance => d ← distance; checked_add 32 d 1) tracked R (routing_fuel t))
    with (fuel := routing_fuel t) (k := O) (slots := <[s := Some 0]> (replicate (length ids) (@None Z)))
         (m := [(a, (a, O))]) (q := [s]) (q' := [a]) (r := r) as (ds & Hds & Hsl).
  - unfold R. intros k v w [-> Hw]. split; [done|lia].
  - unfold R. intros k i n v [p d] Hk Hi [-> Hd]. simpl in Hd. exists (Z.of_nat d + 1). simpl.
    unfold checked_add. unfold routing_fuel in Hk. destruct (Z.ltb_spec (Z.of_nat d + 1) (2 ^ 32)); [|lia].
    split; [done|]. simpl. lia.
  - lia.
  - apply (slots_ok_insert ids (ro_nodup t Hok) R O _ [] s a 0 (a, O)); [done|by split|apply start_slots].
  - apply (queue_ok_push ids [] [] [] s a (a, O)); [done|]. by split.
  - done.
  - exists ds. split; [done|]. intros i n Hi. destruct (Hsl i n Hi) as (o & Ho & HR). exists o. split; [done|].
    inversion HR as [d w [-> Hw] Hod Hgw|Hod Hgw]; subst.
    + destruct w as [p k]. split; [unfold routing_fuel in Hw; simpl in *; lia|]. exists k.
      split_and!; [done|by eapply (sr_walk _ _ _ Hres)|]. intros k' Hk'. by eapply (sr_shortest _ _ _ Hres).
    + intros k Hk. destruct (sr_found _ _ _ Hres n k Hk) as [w Hw]. congruence.
Qed.

(** *** Alternate first hops *)

Section Alternate.
Variables a p : NodeId.
Hypothesis Hap : a <> p.

Definition between (n : NodeId) : Prop := is_Some (bt_get n adj) /\ n <> a /\ n <> p.

(** From the neighbor [s] of [a] there is a way to [n] that avoids [a] and meets [p] at
    most at its end. *)
Definition alternate (s n : NodeId) : Prop :=
  s ∈ neighbors adj a /\ s <> p /\
  (conn adj between s n \/ n = p /\ exists u, conn adj between s u /\ p ∈ neighbors adj u).

Definition label_nbrs (n : NodeId) : list NodeId := if bool_decide (n = p) then [] else others adj a n.

Lemma label_nbrs_in n x : x ∈ label_nbrs n <-> n <> p /\ x ∈ neighbors adj n /\ x <> a.
Proof.
  unfold label_nbrs. case_bool_decide; [split; [by intros ?%not_elem_of_nil|tauto]|].
  rewrite others_in. tauto.
Qed.

Lemma alternate_first s : s ∈ neighbors adj a -> s <> p -> alternate s s.
Proof.
  intros Hs Hp. split_and!; [done..|]. left. apply conn_refl. split_and!; [by eapply neighbor_key| |done].
  intros ->. by apply (ro_loop_free t Hok) in Hs.
Qed.

Lemma alternate_step cur s n : alternate s cur -> n ∈ label_nbrs cur -> alternate s n.
Proof.
  intros (Hs & Hsp & Hc) (Hcp & Hn & Hna)%label_nbrs_in. split_and!; [done..|].
  destruct Hc as [Hc|[? _]]; [|done]. destruct (decide (n = p)) as [->|Hnp]; [right; eauto|].
  left. eapply conn_step; [done..|]. split_and!; [by eapply neighbor_key|done..].
Qed.

Definition insert_self (m : btree NodeId NodeId) (x : NodeId) : btree NodeId NodeId := bt_insert x x m.

Definition label_R (k : nat) (l : Z) (x : NodeId) : Prop := exists j, l = Z.of_nat j /\ at_index j x.

Lemma first_labels u ns xs slots m q q' :
  at_index u p -> in_order ns xs -> slots_ok ids label_R O slots m -> queue_ok ids m q q' ->
  exists slots' q1, first_hop_labels u ns slots q = Some (slots', Some q1) /\
    slots_ok ids label_R O slots' (foldl insert_self m (List.filter (fun x => negb (bool_decide (x = p))) xs)) /\
    queue_ok ids (foldl insert_self m (List.filter (fun x => negb (bool_decide (x = p))) xs)) q1
      (q' ++ List.filter (fun x => negb (bool_decide (x = p))) xs).
Proof.
  intros Hu Hns. revert slots m q q'. induction Hns as [|j x ns xs Hj _ IH]; intros slots m q q' Hs Hq.
  - exists slots, q. simpl. by rewrite app_nil_r.
  - cbn [first_hop_labels List.filter]. rewrite (at_index_eq j u x p) by done.
    destruct (bool_decide (x = p)); simpl negb; cbv iota; [by apply IH|].
    rewrite (at_index_small j x) by done. rewrite (set_slot_in _ j x) by (done || by eapply slots_in).
    cbn [mbind option_bind foldl].
    destruct (IH (<[j:=Some (Z.of_nat j)]> slots) (insert_self m x) (q ++ [j]) (q' ++ [x]))
      as (s1 & q1 & H1 & H2 & H3).
    + apply slots_ok_insert; [apply Hok|done| |done]. by exists j.
    + by apply queue_ok_push.
    + exists s1, q1. by rewrite <- app_assoc in H3.
Qed.

Definition start_labels : btree NodeId NodeId :=
  foldl insert_self [] (List.filter (fun x => negb (bool_decide (x = p))) (neighbors adj a)).

Lemma insert_selfs_get l m n s :
  bt_get n (foldl insert_self m l) = Some s -> n = s /\ n ∈ l \/ bt_get n m = Some s.
Proof.
  revert m. induction l as [|x l IH]; intros m; simpl; [by right|]. intros [[-> ?]|Hg]%IH; [left; by split; [|constructor]|].
  unfold insert_self in Hg. destruct (decide (x = n)) as [->|Hne].
  - rewrite bt_get_insert in Hg. injection Hg as ->. left. by split; [|constructor].
  - rewrite bt_get_insert_ne in Hg by done. by right.
Qed.

Lemma insert_selfs_length l m :
  bt_wf m -> NoDup l -> (forall x, x ∈ l -> bt_get x m = None) ->
  bt_wf (foldl insert_self m l) /\ length (foldl insert_self m l) = (length l + length m)%nat.
Proof.
  revert m. induction l as [|x l IH]; intros m Hm Hnd Hx; simpl; [done|].
  apply NoDup_cons in Hnd as [Hxl Hnd]. unfold insert_self at 2 4.
  destruct (IH (bt_insert x x m)) as [H1 H2]; [by apply bt_wf_insert|done| |].
  - intros y Hy. rewrite bt_get_insert_ne by (intros ->; done). apply Hx. by constructor.
  - split; [done|]. rewrite H2, bt_insert_length_new; [lia|]. apply Hx. constructor.
Qed.

Lemma indexed_label_nbrs su u i n :
  at_index su a -> at_index u p -> at_index i n ->
  exists ns, (if bool_decide (i = u) then Some []
              else ns ← indexed_adjacency t !! i;
                   Some (List.filter (fun n => negb (bool_decide (n = su))) ns)) = Some ns /\
    in_order ns (label_nbrs n).
Proof.
  intros Hs Hu Hi. rewrite (at_index_eq i u n p) by done. unfold label_nbrs.
  destruct (bool_decide (n = p)); [by exists []; split; [|constructor]|]. by apply indexed_others.
Qed.

Lemma neighbors_nodup n : NoDup (neighbors adj n).
Proof.
  unfold neighbors. destruct (bt_get n adj) as [s|] eqn:E; [|constructor].
  apply bt_keys_nodup. by eapply (ro_ordered t Hok).
Qed.

Lemma start_labels_found x : x ∈ neighbors adj a -> x <> p -> bt_get x start_labels = Some x.
Proof.
  intros Hx Hxp. unfold start_labels.
  assert (Hin : x ∈ List.filter (fun x => negb (bool_decide (x = p))) (neighbors adj a)).
  { rewrite list_elem_of_In, filter_In, <- list_elem_of_In, negb_true_iff, bool_decide_eq_false. done. }
  revert Hin. generalize (@nil (NodeId * NodeId)) as m.
  induction (List.filter _ _) as [|y l IH]; intros m Hin; [by apply not_elem_of_nil in Hin|].
  simpl. destruct (decide (x ∈ l)) as [Hl|Hl]; [by apply IH|].
  apply elem_of_cons in Hin as [->|?]; [|done]. clear IH.
  assert (Hkeep : forall m, bt_get y m = Some y -> bt_get y (foldl insert_self m l) = Some y).
  { clear m. induction l as [|z l IHl]; intros m Hm; [done|]. simpl. apply not_elem_of_cons in Hl as [? ?].
    apply IHl; [done|]. unfold insert_self. by rewrite bt_get_insert_ne by congruence. }
  apply Hkeep. unfold insert_self. apply bt_get_insert.
Qed.

(** What the labels mean: each names an alternate first hop, and the labelled nodes are
    closed under the links that avoid [a] and do not leave [p]. *)
Lemma labels_ok s u :
  at_index s a -> at_index u p ->
  exists ls r, alternate_first_hop_labels t s u = Some ls /\
    slots_ok ids label_R (routing_fuel t) ls r /\
    (forall n x, bt_get n r = Some x -> alternate x n) /\
    (forall x, x ∈ neighbors adj a -> x <> p -> found r x) /\
    (forall c n, found r c -> n ∈ label_nbrs c -> found r n).
Proof.
  intros Hs Hu. unfold alternate_first_hop_labels.
  destruct (indexed_neighbors s a Hs) as (ns & -> & Hns). cbn [mbind option_bind].
  destruct (first_labels u ns (neighbors adj a) (replicate (length ids) None) [] [] [] Hu Hns)
    as (slots & q & -> & Hsl & Hq); [apply start_slots|by split|].
  cbn [mbind option_bind]. cbv beta iota. simpl app in Hq. fold start_labels in Hsl, Hq.
  set (xs := List.filter (fun x => negb (bool_decide (x = p))) (neighbors adj a)) in *.
  assert (Hxs : forall x, x ∈ xs -> x ∈ neighbors adj a /\ x <> p).
  { intros x. unfold xs. rewrite list_elem_of_In, filter_In, <- list_elem_of_In, negb_true_iff, bool_decide_eq_false. done. }
  destruct (insert_selfs_length xs []) as [Hwf Hlen]; [constructor| |done|].
  { apply NoDup_ListNoDup, List.NoDup_filter, NoDup_ListNoDup, neighbors_nodup. }
  change (foldl insert_self [] xs) with start_labels in *.
  assert (Hstart : forall n w, bt_get n start_labels = Some w -> n = w /\ n ∈ xs).
  { intros n w [?|?]%insert_selfs_get; done. }
  destruct (bfs_terminates label_nbrs (fun _ w => w) (routing_fuel t) start_labels xs ids) as [r Hr].
  { split; [done|]. intros n [w [_ Hn%Hxs]%Hstart]. apply (ro_nodes t Hok). eapply neighbor_key. apply Hn. }
  { intros n x (_ & Hx & _)%label_nbrs_in. apply (ro_nodes t Hok). by eapply neighbor_key. }
  { rewrite Hlen. unfold routing_fuel. simpl. lia. }
  destruct (bfs_reach label_nbrs (fun _ w => w) (fun n w => alternate w n)
    (fun cur w n => alternate_step cur w n) (routing_fuel t) start_labels xs r) as [Hp Hc]; [|done|].
  { split.
    - intros n w [-> Hn%Hxs]%Hstart. destruct Hn. by apply alternate_first.
    - intros c n [w [_ Hc]%Hstart] Hnc. done. }
  destruct (indexed_search_sim ids (ro_nodup t Hok) _ label_nbrs
    (fun i n Hi => indexed_label_nbrs s u i n Hs Hu Hi) (fun _ label => label) (fun _ w => w) label_R
    (routing_fuel t)) with (fuel := routing_fuel t) (k := O) (slots := slots) (m := start_labels)
      (q := q) (q' := xs) (r := r) as (ls & Hls & Hok'); try done; [by eauto|].
  exists ls, r. split_and!; [done..| |done].
  intros x Hx Hxp. eexists. eapply bfs_keeps; [exact Hr|]. by apply start_labels_found.
Qed.

Lemma found_along (r : btree NodeId NodeId) x l :
  (forall c n, found r c -> n ∈ label_nbrs c -> found r n) ->
  found r x -> chain (neighbors adj) (x :: l) -> a ∉ l -> p ∉ removelast (x :: l) ->
  Forall (found r) (x :: l).
Proof.
  intros Hc. revert x. induction l as [|y l IH]; intros x Hx Hch Ha Hp; [by constructor|].
  destruct Hch as [Hy Hch]. apply not_elem_of_cons in Ha as [Hya Ha].
  change (p ∉ x :: removelast (y :: l)) in Hp. apply not_elem_of_cons in Hp as [Hxp Hp].
  constructor; [done|]. apply IH; [|done..]. apply (Hc x); [done|]. by apply label_nbrs_in.
Qed.

End Alternate.

Lemma nodes_length : lenZ ids = lenZ adj.
Proof.
  assert (Hp : ids ≡ₚ bt_keys adj).
  { apply NoDup_Permutation; [apply Hok|apply bt_keys_nodup, (ro_ordered t Hok)|].
    intros n. rewrite (ro_nodes t Hok), bt_keys_get; [done|apply (ro_ordered t Hok)]. }
  rewrite Hp. unfold bt_keys. by rewrite length_map.
Qed.

Lemma removelast_app_last {A} (l : list A) x : last l = Some x -> l = removelast l ++ [x].
Proof. intros [l' ->]%last_Some. by rewrite removelast_last. Qed.

(** Every other node gets a label. *)
Lemma labels_complete a p (r : btree NodeId NodeId) n :
  3 <= lenZ ids -> p ∈ neighbors adj a -> is_Some (bt_get n adj) -> n <> a ->
  (forall x, x ∈ neighbors adj a -> x <> p -> found r x) ->
  (forall c x, found r c -> x ∈ label_nbrs a p c -> found r x) ->
  found r n.
Proof.
  intros HN Hp Hn Hna Hfirst Hclosed.
  assert (Ha : is_Some (bt_get a adj)) by (eapply neighbor_key, Hok, Hp).
  assert (Hap : a <> p) by (intros ->; by apply (ro_loop_free t Hok) in Hp).
  assert (Hother : forall w, is_Some (bt_get w adj) -> w <> a -> w <> p ->
    exists s l, last (s :: l) = Some w /\ s ∈ neighbors adj a /\ s <> p /\ chain (neighbors adj) (s :: l) /\
      a ∉ s :: l /\ p ∉ s :: l).
  { intros w Hw Hwa Hwp. destruct (survives_way adj p a w (ro_survives t Hok p) Ha Hw Hap Hwp) as ([|a' [|s l]] & Hh & Hl & Hc & Hpl & Hnd).
    - done.
    - injection Hh as ->. injection Hl as ->. done.
    - injection Hh as ->. destruct Hc as [Hs Hc]. apply NoDup_cons in Hnd as [Hal Hnd].
      apply not_elem_of_cons in Hpl as [_ Hpl]. exists s, l. split_and!; try done.
      intros ->. apply Hpl. constructor. }
  destruct (decide (n = p)) as [->|Hnp].
  - destruct (third_node adj a p (ro_ordered t Hok)) as (w & Hw & Hwa & Hwp).
    { by rewrite <- nodes_length. }
    destruct (Hother w Hw Hwa Hwp) as (s & l0 & _ & Hs & Hsp & _ & Hal & _).
    assert (Hsa : s <> a) by (intros ->; apply Hal; constructor).
    destruct (survives_way adj a s p (ro_survives t Hok a) (neighbor_key a s Hs) Hn Hsa Hna) as ([|s' l] & Hh & Hl & Hc & Hal' & Hnd); [done|].
    injection Hh as ->. apply not_elem_of_cons in Hal' as [_ Hal'].
    assert (Hall : Forall (found r) (s :: l)).
    { eapply (found_along a p); try done; [by apply Hfirst|]. rewrite (removelast_app_last _ _ Hl) in Hnd.
      apply NoDup_app in Hnd as (_ & Hd & _). intros Hin. apply (Hd p Hin). constructor. }
    rewrite Forall_forall in Hall. apply Hall. by eapply last_Some_elem_of.
  - destruct (Hother n Hn Hna Hnp) as (s & l & Hl & Hs & Hsp & Hc & Hal & Hpl).
    apply not_elem_of_cons in Hal as [_ Hal].
    assert (Hall : Forall (found r) (s :: l)).
    { eapply (found_along a p); try done; [by apply Hfirst|]. intros Hin. apply Hpl.
      rewrite (removelast_app_last _ _ Hl), elem_of_app. by left. }
    rewrite Forall_forall in Hall. apply Hall. by eapply last_Some_elem_of.
Qed.

(** *** The candidates for a destination *)

Lemma for_neighbors_ok {A} (f : nat -> option A) (Q : NodeId -> A -> Prop) ns xs :
  in_order ns xs -> (forall j x, at_index j x -> x ∈ xs -> exists v, f j = Some v /\ Q x v) ->
  exists l, for_neighbors f ns = Some l /\
    Forall2 (fun kv x => exists j, at_index j x /\ kv.1 = Z.of_nat j /\ Q x kv.2) l xs.
Proof.
  induction 1 as [|j x ns xs Hj _ IH]; intros Hf; [by exists []|]. simpl.
  rewrite (at_index_small j x Hj). destruct (Hf j x Hj) as (v & -> & Hv); [constructor|].
  cbn [mbind option_bind]. destruct IH as (l & -> & Hl).
  { intros j' x' Hj' Hx'. apply Hf; [done|by constructor]. }
  eexists. split; [done|]. constructor; [by exists j|done].
Qed.

Definition distances_to (a x : NodeId) (ds : list (option Z)) : Prop :=
  forall i n, at_index i n -> exists o, ds !! i = Some o /\ distance_around x a n o.

Definition candidate (a n : NodeId) (c : Z * Z) (x : NodeId) : Prop :=
  exists j d, at_index j x /\ c = (d + 1, Z.of_nat j) /\ distance_around x a n (Some d).

Lemma candidates_ok a n i cd xs :
  at_index i n ->
  Forall2 (fun kv x => exists j, at_index j x /\ kv.1 = Z.of_nat j /\ distances_to a x kv.2) cd xs ->
  exists cs, candidates_for cd i = Some cs /\
    (forall c, c ∈ cs -> exists x, x ∈ xs /\ candidate a n c x) /\
    (forall x k, x ∈ xs -> walk (others adj a) x k n -> exists c, c ∈ cs /\ candidate a n c x).
Proof.
  intros Hi. induction 1 as [|[k ds] x cd xs (j & Hj & Hk & Hds) _ IH].
  { exists []. split_and!; [done|by intros c ?%not_elem_of_nil|by intros x k ?%not_elem_of_nil]. }
  simpl in Hk, Hds. subst k. destruct (Hds i n Hi) as (o & Ho & Hd). destruct IH as (cs & Hcs & H1 & H2).
  simpl. rewrite Ho. cbn [mbind option_bind]. rewrite Hcs. cbn [mbind option_bind]. destruct o as [d|].
  - pose proof Hd as [Hmax (k & -> & _)]. unfold checked_add at 1.
    destruct (Z.ltb_spec (Z.of_nat k + 1) (2 ^ 32)); [|lia]. cbn [mbind option_bind].
    assert (Hc : candidate a n (Z.of_nat k + 1, Z.of_nat j) x) by (by exists j, (Z.of_nat k)).
    eexists. split_and!; [done| |].
    + intros c [->|(y & Hy & ?)%H1]%elem_of_cons; [exists x|exists y]; (split; [|done]); [constructor|by constructor].
    + intros y k' [->|Hy]%elem_of_cons Hw; [eexists; split; [constructor|done]|].
      destruct (H2 y k' Hy Hw) as (c & ? & ?). exists c. split; [by constructor|done].
  - exists cs. split_and!; [done| |].
    + intros c (y & Hy & ?)%H1. exists y. split; [by constructor|done].
    + intros y k' [->|Hy]%elem_of_cons Hw; [by destruct (Hd k')|by eapply H2].
Qed.

(** The last departure from [a] of a path leads to a neighbor that reaches the end
    without coming back. *)
Lemma last_departure a n l :
  head l = Some a -> last l = Some n -> n <> a -> chain (neighbors adj) l ->
  exists x k, x ∈ neighbors adj a /\ walk (others adj a) x k n /\ (k + 2 <= length l)%nat.
Proof.
  intros Hh Hl Hna Hc.
  assert (Hgen : forall l, last l = Some n -> chain (neighbors adj) l -> forall y, head l = Some y ->
    (a ∉ l /\ exists k, walk (others adj a) y k n /\ (k + 1 <= length l)%nat) \/
    exists x k, x ∈ neighbors adj a /\ walk (others adj a) x k n /\ (k + 2 <= length l)%nat).
  { clear l Hh Hl Hc. induction l as [|y l IH]; intros Hl Hc z Hz; [done|]. injection Hz as <-.
    destruct l as [|w l].
    - injection Hl as ->. left. split; [by rewrite list_elem_of_singleton|]. exists O. split; [constructor|simpl; lia].
    - destruct Hc as [Hw Hc]. destruct (IH Hl Hc w eq_refl) as [(Ha & k & Hk & Hle)|(x & k & Hx & Hk & Hle)].
      + destruct (decide (y = a)) as [->|Hya].
        * right. exists w, k. split_and!; [done..|]. simpl in *. lia.
        * left. split; [by apply not_elem_of_cons|]. exists (S k). split; [|simpl in *; lia].
          assert (Hcat : forall k n, walk (others adj a) w k n -> walk (others adj a) y (S k) n).
          { clear - Hw Ha. induction 1 as [|k u v Hu IHu Hv]; [|by econstructor].
            econstructor; [constructor|]. apply others_in. split; [done|].
            intros ->. apply Ha. constructor. }
          by apply Hcat.
      + right. exists x, k. split_and!; [done..|]. simpl in *. lia. }
  destruct (Hgen l Hl Hc a Hh) as [[Ha _]|?]; [|done]. destruct Ha.
  destruct l; [done|]. injection Hh as ->. constructor.
Qed.

Lemma walk_route a x k n :
  x <> a -> walk (others adj a) x k n ->
  exists l, head l = Some x /\ last l = Some n /\ chain (neighbors adj) l /\ a ∉ l /\ length l = S k.
Proof.
  intros Hxa. induction 1 as [|k u v Hu (l & Hh & Hl & Hc & Ha & Hlen) Hv].
  - exists [x]. split_and!; try done. by rewrite list_elem_of_singleton.
  - apply others_in in Hv as [Hv Hva]. exists (l ++ [v]). apply last_Some in Hl as [l' ->].
    split_and!; [by destruct l'|by rewrite last_snoc| | |].
    + rewrite <- app_assoc. by apply chain_snoc.
    + rewrite elem_of_app, list_elem_of_singleton. intros [?| ->]; done.
    + rewrite length_app. simpl. lia.
Qed.

Lemma sorted_least (cs rest : list (Z * Z)) c c' :
  vec_sort cs = c :: rest -> c' ∈ cs -> c.1 <= c'.1.
Proof.
  intros Hs Hin. pose proof (sort_sorted cs) as Hso. rewrite Hs in Hso.
  assert (Hin' : c' ∈ vec_sort cs) by by apply elem_of_sort_by. rewrite Hs in Hin'.
  apply elem_of_cons in Hin' as [->|Hin']; [done|]. apply StronglySorted_inv in Hso as [_ Hall].
  rewrite Forall_forall in Hall. specialize (Hall c' Hin'). unfold le_by in Hall.
  cbn [kcmp prod_ord Z_ord] in Hall. destruct (Z.compare_spec c.1 c'.1); [lia|lia|done].
Qed.

(** *** What the table says *)

(** [p] starts a shortest way from [a] to [n]. *)
Definition shortest_via (a p n : NodeId) : Prop :=
  exists l, head l = Some p /\ last l = Some n /\ chain (neighbors adj) l /\ a ∉ l /\
    forall l', head l' = Some a -> last l' = Some n -> chain (neighbors adj) l' ->
      (S (length l) <= length l')%nat.

(** [s] starts a way to [n] that comes through neither [a] nor [p]. *)
Definition detour (a p s n : NodeId) : Prop :=
  exists l, head l = Some s /\ last l = Some n /\ chain (neighbors adj) l /\ a ∉ l /\ p ∉ removelast l.

Definition reliable_hops (a p s n : NodeId) : Prop :=
  p ∈ neighbors adj a /\ s ∈ neighbors adj a /\ s <> p /\ shortest_via a p n /\ detour a p s n.

Definition hops_ok (a n : NodeId) (h : CompactNextHops) : Prop :=
  exists jp js p s, at_index jp p /\ at_index js s /\
    h = {| hop_primary := Z.of_nat jp; hop_secondary := Some (Z.of_nat js) |} /\ reliable_hops a p s n.

Lemma conn_route X s n :
  conn adj X s n ->
  exists l, head (l ++ [n]) = Some s /\ chain (neighbors adj) (l ++ [n]) /\ Forall X (l ++ [n]).
Proof.
  induction 1 as [|b c Hb (l & Hh & Hc & HX) Hn Xc]; [exists []; by repeat constructor|].
  exists (l ++ [b]). split_and!; [by destruct l|rewrite <- app_assoc; by apply chain_snoc|].
  apply Forall_app. split; [done|by repeat constructor].
Qed.

Lemma between_avoids a p l : Forall (between a p) l -> a ∉ l /\ p ∉ l.
Proof. rewrite Forall_forall. intros Hl. split; intros (_ & ? & ?)%Hl; done. Qed.

Lemma alternate_detour a p s n : a <> p -> alternate a p s n -> detour a p s n.
Proof.
  intros Hap (_ & _ & [(l & Hh & Hc & Hb)%conn_route|(-> & u & (l & Hh & Hc & Hb)%conn_route & Hp)]).
  - exists (l ++ [n]). apply between_avoids in Hb as [Ha Hp]. split_and!; [done|by rewrite last_snoc|done..|].
    rewrite removelast_last. intros ?. apply Hp, elem_of_app. by left.
  - exists ((l ++ [u]) ++ [p]). apply between_avoids in Hb as [Ha Hpl].
    split_and!; [by destruct l|by rewrite last_snoc|rewrite <- app_assoc; by apply chain_snoc| |by rewrite removelast_last].
    rewrite elem_of_app, list_elem_of_singleton. intros [?|?]; done.
Qed.

Definition labels_for (a x : NodeId) (ls : list (option Z)) : Prop :=
  forall i n, at_index i n -> n <> a ->
    exists j s, ls !! i = Some (Some (Z.of_nat j)) /\ at_index j s /\ alternate a x s n.

Lemma alternate_labels_ok s a x u :
  3 <= lenZ ids -> at_index s a -> at_index u x -> x ∈ neighbors adj a ->
  exists ls, alternate_first_hop_labels t s u = Some ls /\ labels_for a x ls.
Proof.
  intros HN Hs Hu Hx. assert (Hax : a <> x) by (intros ->; by apply (ro_loop_free t Hok) in Hx).
  destruct (labels_ok a x s u Hs Hu) as (ls & r & Hls & Hsl & Halt & Hfirst & Hclosed).
  exists ls. split; [done|]. intros i n Hi Hn. destruct (Hsl i n Hi) as (o & Ho & HR).
  destruct (labels_complete a x r n) as [w Hw]; try done.
  { apply (ro_nodes t Hok). by eapply list_elem_of_lookup_2. }
  rewrite Hw in HR. inversion HR as [l w' (j & -> & Hj) Hl Hw'|]; subst. exists j, w. eauto.
Qed.

Lemma destination_ok a n i cd al :
  at_index i n -> n <> a -> is_Some (bt_get a adj) ->
  Forall2 (fun kv x => exists j, at_index j x /\ kv.1 = Z.of_nat j /\ distances_to a x kv.2)
    cd (neighbors adj a) ->
  (forall j x, at_index j x -> x ∈ neighbors adj a ->
     exists ls, bt_get (Z.of_nat j) al = Some ls /\ labels_for a x ls) ->
  exists h, destination_hops cd al i = Some (Some h) /\ hops_ok a n h.
Proof.
  intros Hi Hna Ha Hcd Hal. destruct (candidates_ok a n i cd _ Hi Hcd) as (cs & Hcs & Hc1 & Hc2).
  assert (Hleast : forall l, head l = Some a -> last l = Some n -> chain (neighbors adj) l ->
    exists c x, c ∈ cs /\ candidate a n c x /\ c.1 + 1 <= lenZ l).
  { intros l Hh Hl Hc. destruct (last_departure a n l Hh Hl Hna Hc) as (x & k & Hx & Hk & Hle).
    destruct (Hc2 x k Hx Hk) as (c & Hin & Hcand). exists c, x. split_and!; [done..|].
    destruct Hcand as (j & d & _ & -> & _ & k' & -> & _ & Hmin). specialize (Hmin k Hk). simpl. lia. }
  assert (Hsome : exists c, c ∈ cs).
  { assert (Hn : is_Some (bt_get n adj)) by (apply (ro_nodes t Hok); by eapply list_elem_of_lookup_2).
    destruct (ro_connected t Hok a n Ha Hn) as [l Hl].
    pose proof (shortest_path_avoiding_spec adj a n [] []) as Hs. unfold shortest_path in Hl. rewrite Hl in Hs.
    destruct Hs as [(_ & _ & Hh & Hla & Hch & _) _].
    destruct (Hleast l Hh Hla) as (c & x & ? & _); [|by exists c].
    clear - Hch. induction l as [|u [|v l] IH]; [done..|]. destruct Hch as [Hv Hch].
    split; [by apply allowed_neighbors in Hv as [? _]|by apply IH]. }
  unfold destination_hops. rewrite Hcs. cbn [mbind option_bind].
  destruct (vec_sort cs) as [|[d k] rest] eqn:Es.
  { destruct Hsome as [c Hc]. apply (elem_of_sort_by kcmp) in Hc. unfold vec_sort in Es. rewrite Es in Hc.
    by apply not_elem_of_nil in Hc. }
  assert (Hin : (d, k) ∈ cs) by (apply (elem_of_sort_by kcmp); unfold vec_sort in Es; rewrite Es; constructor).
  destruct (Hc1 _ Hin) as (p & Hp & jp & d0 & Hjp & [= -> ->] & Hmax & k0 & -> & Hw & Hmin).
  destruct (Hal jp p Hjp Hp) as (ls & Hls & Hlab). destruct (Hlab i n Hi Hna) as (js & s & Hlsi & Hjs & Halt).
  assert (Hap : p <> a) by (intros ->; by apply (ro_loop_free t Hok) in Hp).
  eexists. split; [done|]. exists jp, js, p, s. split_and!; [done..| |].
  - cbn [reliable_pair]. rewrite Hls. cbn [mbind option_bind]. rewrite Hlsi. cbn [mbind option_bind].
    rewrite bool_decide_false; [done|]. intros Heq%Nat2Z.inj. subst js. destruct Halt as (_ & Hsp & _). congruence.
  - destruct Halt as (Hs & Hsp & Hrest) eqn:Ealt. split_and!; [done..| |by apply alternate_detour].
    destruct (walk_route a p k0 n Hap Hw) as (l & Hh & Hl & Hch & Hal' & Hlen). exists l.
    split_and!; [done..|]. intros l' Hh' Hl' Hc'. destruct (Hleast l' Hh' Hl' Hc') as (c & x & Hc & _ & Hle).
    pose proof (sorted_least cs rest _ c Es Hc) as Hmin'. simpl in Hmin'. lia.
Qed.

(** *** The table *)

Lemma fill_table_ok cd al source (Q : nat -> CompactNextHops -> Prop) l table :
  (forall i, i ∈ l -> (i < length table)%nat) ->
  (forall i, i ∈ l -> i <> source -> exists h, destination_hops cd al i = Some (Some h) /\ Q i h) ->
  exists table', fill_table cd al source l table = Some (Some table') /\ length table' = length table /\
    forall i, i ∈ l -> i <> source -> exists h, table' !! i = Some (Some h) /\ Q i h.
Proof.
  intros Hlen Hq.
  assert (Hgen : exists table', fill_table cd al source l table = Some (Some table') /\
    length table' = length table /\ (forall i, i ∉ l -> table' !! i = table !! i) /\
    forall i, i ∈ l -> i <> source -> exists h, table' !! i = Some (Some h) /\ Q i h).
  { revert table Hlen. induction l as [|j l IH]; intros table Hlen; simpl.
    { exists table. split_and!; [done..|]. by intros i ?%not_elem_of_nil. }
    assert (IH' : forall table', length table' = length table -> exists table'',
      fill_table cd al source l table' = Some (Some table'') /\ length table'' = length table' /\
      (forall i, i ∉ l -> table'' !! i = table' !! i) /\
      forall i, i ∈ l -> i <> source -> exists h, table'' !! i = Some (Some h) /\ Q i h).
    { intros table' Hl. apply IH; [intros; apply Hq; [by constructor|done]|].
      intros i Hi. rewrite Hl. apply Hlen. by constructor. }
    case_bool_decide as Hj.
    - subst j. destruct (IH' table eq_refl) as (t' & Ht & Hl & Hout & Hin). exists t'. split_and!; [done..| |].
      + intros i [_ Hi]%not_elem_of_cons. by apply Hout.
      + intros i [->|Hi]%elem_of_cons Hne; [done|by apply Hin].
    - destruct (Hq j) as (h & -> & Hh); [constructor|done|]. cbn [mbind option_bind]. cbv iota.
      unfold set_slot. rewrite (proj2 (Nat.ltb_lt _ _) (Hlen j ltac:(constructor))). cbn [mbind option_bind].
      destruct (IH' (<[j:=Some h]> table)) as (t' & Ht & Hl & Hout & Hin); [by rewrite length_insert|].
      exists t'. rewrite length_insert in Hl. split_and!; [done..| |].
      + intros i [Hij Hi]%not_elem_of_cons. rewrite Hout by done. by rewrite list_lookup_insert_ne by congruence.
      + intros i Hi Hne. destruct (decide (i ∈ l)) as [Hil|Hil]; [by apply Hin|].
        apply elem_of_cons in Hi as [->|?]; [|done]. exists h. rewrite Hout by done.
        rewrite list_lookup_insert_eq; [done|]. apply Hlen. constructor. }
  destruct Hgen as (t' & ? & ? & _ & ?). by exists t'.
Qed.

Lemma collect_get {A} (l : list (Z * A)) k v :
  (k, v) ∈ l -> exists v', bt_get k (foldl (fun m '(k, v) => bt_insert k v m) [] l) = Some v' /\ (k, v') ∈ l.
Proof.
  induction l as [|[k' v'] l IH] using rev_ind; intros Hin; [by apply not_elem_of_nil in Hin|].
  rewrite foldl_app. simpl. destruct (decide (k' = k)) as [->|Hne].
  - exists v'. rewrite bt_get_insert, elem_of_app, list_elem_of_singleton. split; [done|by right].
  - rewrite bt_get_insert_ne by done. rewrite elem_of_app, list_elem_of_singleton in Hin.
    destruct IH as (w & Hw & Hin'); [destruct Hin as [?|?]; [done|congruence]|]. exists w.
    split; [done|]. rewrite elem_of_app. by left.
Qed.

Definition table_ok (a : NodeId) (table : next_hops) : Prop :=
  forall i n, at_index i n -> n <> a -> exists h, table !! i = Some (Some h) /\ hops_ok a n h.

Lemma compute_ok s a :
  3 <= lenZ ids -> at_index s a ->
  exists table, compute_next_hops_from t s = Some (Some table) /\ table_ok a table.
Proof.
  intros HN Hs. destruct (indexed_neighbors s a Hs) as (ns & Hns & Hin). unfold compute_next_hops_from.
  rewrite Hns. destruct (for_neighbors_ok (fun n => indexed_distances_from_avoiding t n s)
    (distances_to a) ns _ Hin) as (cd & -> & Hcd).
  { intros j x Hj _. by apply distances_ok. }
  destruct (for_neighbors_ok (fun n => alternate_first_hop_labels t s n)
    (labels_for a) ns _ Hin) as (al & -> & Hal).
  { intros j x Hj Hx. by apply alternate_labels_ok. }
  cbn [mbind option_bind].
  destruct (fill_table_ok cd (foldl (fun m '(k, labels) => bt_insert k labels m) [] al) s
    (fun i h => forall n, at_index i n -> hops_ok a n h) (seq 0 (length ids)) (replicate (length ids) None))
    as (table & Ht & _ & Hq).
  - intros i Hi%elem_of_seq. rewrite length_replicate. lia.
  - intros i Hi%elem_of_seq Hne. destruct (lookup_lt_is_Some_2 ids i) as [n Hn]; [lia|].
    destruct (destination_ok a n i cd (foldl (fun m '(k, labels) => bt_insert k labels m) [] al))
      as (h & Hh & Hhok); [done| | |done| |].
    + intros ->. apply Hne. by eapply NoDup_lookup; [apply Hok|..].
    + apply (ro_nodes t Hok). by eapply list_elem_of_lookup_2.
    + intros j x Hj Hx. apply list_elem_of_lookup_1 in Hx as [m Hm].
      destruct (Forall2_lookup_r _ _ _ _ _ Hal Hm) as ([k v] & Hkv & j' & Hj' & Hk & Hv).
      simpl in Hk. subst k. assert (j' = j) as -> by (eapply NoDup_lookup; [apply Hok|done..]).
      apply list_elem_of_lookup_2 in Hkv. destruct (collect_get al (Z.of_nat j) v Hkv) as (v' & Hg & Hin').
      exists v'. split; [done|]. apply list_elem_of_lookup_1 in Hin' as [m' Hm'].
      destruct (Forall2_lookup_l _ _ _ _ _ Hal Hm') as (x' & _ & j' & Hjx & Hk & Hv').
      simpl in Hk. apply Nat2Z.inj in Hk as <-. rewrite Hj in Hjx. by injection Hjx as <-.
    + exists h. split; [done|]. intros n' Hn'. rewrite Hn in Hn'. by injection Hn' as <-.
  - exists table. split; [done|]. intros i n Hi Hna. destruct (Hq i) as (h & Hh & Hhq).
    + apply elem_of_seq. apply lookup_lt_Some in Hi. lia.
    + intros ->. congruence.
    + exists h. auto.
Qed.

(** ** Queries and the cache *)

Definition cache_ok (cache : hop_cache) : Prop :=
  forall i table, bt_get i cache = Some table -> compute_next_hops_from t i = Some (Some table).

Lemma cached_spec i cache :
  cache_ok cache ->
  cached_next_hops_from t i cache = None \/
  exists table cache', cached_next_hops_from t i cache = Some (table, cache') /\ cache_ok cache' /\
    compute_next_hops_from t i = Some table.
Proof.
  intros Hc. unfold cached_next_hops_from. destruct (bt_get i cache) as [table|] eqn:E.
  { right. exists (Some table), cache. split_and!; [done..|by apply Hc]. }
  destruct (compute_next_hops_from t i) as [[table|]|] eqn:Ec; simpl; [right|right|by left].
  - eexists _, _. split_and!; [done| |done]. intros j table' Hj. destruct (decide (i = j)) as [->|Hne].
    + rewrite bt_get_insert in Hj. by injection Hj as <-.
    + rewrite bt_get_insert_ne in Hj by done. by apply Hc.
  - by exists None, cache.
Qed.

Lemma table_get_ok a table n :
  table_ok a table -> is_Some (bt_get n adj) -> n <> a ->
  exists p s, table_get t table n = Some (p, Some s) /\ reliable_hops a p s n.
Proof.
  intros Ht Hn Hna. destruct (node_index n Hn) as (i & Hi & Hix). unfold table_get. rewrite Hix.
  cbn [mbind option_bind]. destruct (Ht i n Hi Hna) as (h & -> & jp & js & p & s & Hp & Hs & -> & Hr).
  exists p, s. cbn [mbind option_bind hop_primary hop_secondary]. rewrite !Nat2Z.id, Hp.
  cbn [mbind option_bind]. by rewrite Hs.
Qed.

End Routes.

(** The caches that queries leave behind. *)
Inductive cache_reachable (t : BoundedTopology) : hop_cache -> Prop :=
| cache_empty : cache_reachable t []
| cache_query source cache table cache' :
    cache_reachable t cache -> next_hop_table t source cache = Some (table, cache') ->
    cache_reachable t cache'.

Lemma cache_reachable_ok t cache : cache_reachable t cache -> cache_ok t cache.
Proof.
  induction 1 as [|source cache table cache' _ IH Hq]; [by intros i table|].
  unfold next_hop_table in Hq. destruct (bt_get source (routing_node_indexes t)) as [i|]; [|by simplify_eq].
  destruct (cached_spec t i cache IH) as [Hn|(table' & c & Hc & Hok & _)]; [congruence|].
  rewrite Hc in Hq. by simplify_eq.
Qed.

Lemma collect_hops t compact l n h m :
  n ∈ l -> table_get t compact n = Some h ->
  bt_get n (foldl (fun m d => match table_get t compact d with
                              | Some hops => bt_insert d hops m | None => m end) m l) = Some h.
Proof.
  induction l as [|x l IH] using rev_ind; intros Hin Hh; [by apply not_elem_of_nil in Hin|].
  rewrite foldl_app. simpl. destruct (decide (x = n)) as [->|Hne]; [rewrite Hh; by rewrite bt_get_insert|].
  rewrite elem_of_app, list_elem_of_singleton in Hin. destruct Hin as [Hin|?]; [|congruence].
  destruct (table_get t compact x); [rewrite bt_get_insert_ne by done|]; by apply IH.
Qed.

(** C5: In a published topology of three or more nodes every node gets, for every other
    node, a primary next hop on a shortest path and a different alternate next hop whose
    path passes through neither the node itself nor the primary: whichever next hop
    fails, the other one still leads to the destination. The answer is the same from any
    cache that earlier queries left behind. *)
Theorem next_hops_reliable `{DigestOps} config nodes t cache source :
  synthesize_ids config nodes = Some (Ok t) -> 3 <= lenZ nodes < 2 ^ 31 ->
  cache_reachable t cache -> source ∈ nodes ->
  exists hops cache', next_hops_from t source cache = Some (Some hops, cache') /\
    forall destination, destination ∈ nodes -> destination <> source ->
      exists p s, bt_get destination hops = Some (p, Some s) /\ reliable_hops t source p s destination.
Proof.
  intros Hs HN Hc Hsrc. destruct (published_routing config nodes t Hs) as [Hok Hperm].
  assert (Hlen : lenZ (routing_node_ids t) = lenZ nodes) by (by rewrite Hperm).
  rewrite <- Hlen in HN. destruct HN as [HN Hmax].
  assert (Hkey : forall n, n ∈ nodes -> is_Some (bt_get n (adjacency t))).
  { intros n Hn. apply (ro_nodes t Hok). by rewrite Hperm. }
  destruct (node_index t Hok source (Hkey _ Hsrc)) as (i & Hi & Hix).
  destruct (compute_ok t Hok Hmax i source HN Hi) as (table & Ht & Htok).
  unfold next_hops_from, next_hop_table. rewrite Hix.
  destruct (cached_spec t i cache (cache_reachable_ok t cache Hc)) as [Hn|(table' & c & Hcc & _ & Hcomp)].
  - unfold cached_next_hops_from in Hn. destruct (bt_get i cache); [done|]. by rewrite Ht in Hn.
  - rewrite Hcc. rewrite Ht in Hcomp. injection Hcomp as <-. cbn [mbind option_bind].
    eexists _, _. split; [done|]. intros n Hn Hne.
    destruct (table_get_ok t Hok source table n Htok (Hkey n Hn) Hne) as (p & s & Hg & Hr).
    exists p, s. split; [|done]. apply collect_hops; [by rewrite Hperm|done].
Qed.

Lemma next_hops_reliable_witness :
  exists t hops cache, @synthesize_ids sample_digest (config_new 4) sample_members = Some (Ok t) /\
    next_hops_from t (bstr "node-0") [] = Some (Some hops, cache) /\
    exists p s, bt_get (bstr "node-3") hops = Some (p, Some s) /\
      reliable_hops t (bstr "node-0") p s (bstr "node-3").
Proof.
  assert (Hr : match @synthesize_ids sample_digest (config_new 4) sample_members with
               | Some (Ok _) => true | _ => false end = true) by (vm_compute; reflexivity).
  destruct (@synthesize_ids sample_digest (config_new 4) sample_members) as [[t|e]|] eqn:E;
    [|discriminate Hr|discriminate Hr].
  destruct (@next_hops_reliable sample_digest (config_new 4) sample_members t [] (bstr "node-0") E)
    as (hops & cache & Hq & Hall).
  - vm_compute. split; congruence.
  - constructor.
  - apply (bool_decide_eq_true_1 (bstr "node-0" ∈ sample_members)). vm_compute. reflexivity.
  - exists t, hops, cache. split_and!; [done..|]. apply Hall; [|done].
    apply (bool_decide_eq_true_1 (bstr "node-3" ∈ sample_members)). vm_compute. reflexivity.
Defined.

End Routing.
