(* ===== verification/Flow.v ===== *)
(** * Unit flows in a residual graph (crates/ipars-control-plane/src/bounded_topology.rs)

    The residual graph that the search for two disjoint paths works on: arcs with their
    reverse arcs, augmentation along a shortest residual path, and extraction of a path
    from the flow. A [None] result stands for a panic (an index out of range, an
    arithmetic overflow) or an exhausted search bound. *)

From S2P Require Import Prelude BTree.

Module Flow.

Record ResidualEdge : Type := {
  edge_to : nat;
  reverse_index : nat;
  capacity : Z;
  initial_capacity : Z
}.

Abbreviation residual := (list (list ResidualEdge)).

Definition add_residual_edge (graph : residual) (from to : nat) (cap : Z) : option residual :=
  to_edges ← graph !! to;
  from_edges ← graph !! from;
  let graph := <[from := from_edges ++ [{| edge_to := to; reverse_index := length to_edges;
                   capacity := cap; initial_capacity := cap |}]]> graph in
  to_edges' ← graph !! to;
  Some (<[to := to_edges' ++ [{| edge_to := from; reverse_index := length from_edges;
            capacity := 0; initial_capacity := 0 |}]]> graph).

(** ** The search *)

Abbreviation predecessors := (list (option (nat * Z))).

Section Search.
  (** Whether the arc at an index of a node may be used. *)
  Variable usable : nat -> nat -> ResidualEdge -> option bool.
  Variable graph : residual.
  Variable sink : nat.

(** The arcs of [current] from index [i] on; stops when the sink is reached. *)
Fixpoint scan_edges (current i : nat) (edges : list ResidualEdge) (pred : predecessors)
    (queue : list nat) : option (predecessors * list nat) :=
  match edges with
  | [] => Some (pred, queue)
  | edge :: edges =>
      ok ← usable current i edge;
      if negb ok then scan_edges current (S i) edges pred queue
      else
        slot ← pred !! edge_to edge;
        match slot with
        | Some _ => scan_edges current (S i) edges pred queue
        | None =>
            let pred := <[edge_to edge := Some (current, Z.of_nat i)]> pred in
            if bool_decide (edge_to edge = sink) then Some (pred, queue)
            else scan_edges current (S i) edges pred (queue ++ [edge_to edge])
        end
  end.

Fixpoint flow_search (fuel : nat) (pred : predecessors) (queue : list nat) : option predecessors :=
  match fuel with
  | O => None
  | S fuel =>
      match queue with
      | [] => Some pred
      | current :: queue =>
          edges ← graph !! current;
          '(pred, queue) ← scan_edges current 0 edges pred queue;
          slot ← pred !! sink;
          match slot with
          | Some _ => Some pred
          | None => flow_search fuel pred queue
          end
      end
  end.

(** [usize::MAX] marks the source. *)
Definition search_from (source : nat) : option predecessors :=
  if (source <? length graph)%nat
  then flow_search (S (length graph))
         (<[source := Some (source, 2 ^ 64 - 1)]> (replicate (length graph) None)) [source]
  else None.

End Search.

(** ** Augmentation *)

Definition set_capacity (e : ResidualEdge) (c : Z) : ResidualEdge :=
  {| edge_to := edge_to e; reverse_index := reverse_index e; capacity := c;
     initial_capacity := initial_capacity e |}.

(** [graph[u][i].capacity = f(graph[u][i].capacity)], with [u8] arithmetic. *)
Definition update_capacity (graph : residual) (u i : nat) (delta : Z) : option residual :=
  edges ← graph !! u;
  edge ← edges !! i;
  if (0 <=? capacity edge + delta) && (capacity edge + delta <? 256)
  then Some (<[u := <[i := set_capacity edge (capacity edge + delta)]> edges]> graph)
  else None.

Fixpoint push_path (fuel : nat) (graph : residual) (pred : predecessors) (source cursor : nat)
  : option (bool * residual) :=
  if bool_decide (cursor = source) then Some (true, graph)
  else match fuel with
       | O => None
       | S fuel =>
           slot ← pred !! cursor;
           match slot with
           | None => Some (false, graph)
           | Some (previous, edge_index) =>
               edges ← graph !! previous;
               edge ← edges !! Z.to_nat edge_index;
               graph ← update_capacity graph previous (Z.to_nat edge_index) (-1);
               graph ← update_capacity graph cursor (reverse_index edge) 1;
               push_path fuel graph pred source previous
           end
       end.

Definition augment_unit_flow (graph : residual) (source sink : nat) : option (bool * residual) :=
  pred ← search_from (fun _ _ edge => Some (negb (capacity edge =? 0))) graph sink source;
  slot ← pred !! sink;
  match slot with
  | None => Some (false, graph)
  | Some _ => push_path (length graph) graph pred source sink
  end.

(** ** Extraction *)

Abbreviation flows := (list (list Z)).

Definition flow_at (remaining : flows) (u i : nat) : option Z := row ← remaining !! u; row !! i.

(** [remaining[u][i] -= 1] *)
Definition take_flow (remaining : flows) (u i : nat) : option flows :=
  row ← remaining !! u;
  flow ← row !! i;
  if 1 <=? flow then Some (<[u := <[i := flow - 1]> row]> remaining) else None.

(** The inner [None] when a predecessor is missing. *)
Fixpoint extract_path (fuel : nat) (remaining : flows) (pred : predecessors) (source cursor : nat)
    (reversed : list nat) : option (option (list nat) * flows) :=
  if bool_decide (cursor = source) then Some (Some (rev reversed), remaining)
  else match fuel with
       | O => None
       | S fuel =>
           slot ← pred !! cursor;
           match slot with
           | None => Some (None, remaining)
           | Some (previous, edge_index) =>
               remaining ← take_flow remaining previous (Z.to_nat edge_index);
               extract_path fuel remaining pred source previous (reversed ++ [previous])
           end
       end.

Definition extract_flow_path (graph : residual) (remaining : flows) (source sink : nat)
  : option (option (list nat) * flows) :=
  pred ← search_from (fun u i _ => flow ← flow_at remaining u i; Some (negb (flow =? 0)))
           graph sink source;
  slot ← pred !! sink;
  match slot with
  | None => Some (None, remaining)
  | Some _ => extract_path (length graph) remaining pred source sink [sink]
  end.

(** [initial_capacity.saturating_sub(capacity)] of every arc. *)
Definition remaining_flow (graph : residual) : flows :=
  map (map (fun edge => saturating_sub (initial_capacity edge) (capacity edge))) graph.

(** ** What the search finds *)

Definition arc_at (graph : residual) (u i : nat) : option ResidualEdge := edges ← graph !! u; edges !! i.

Definition marked (pred : predecessors) (v : nat) : Prop := exists x, pred !! v = Some (Some x).

#[global] Instance marked_dec pred v : Decision (marked pred v).
Proof.
  destruct (pred !! v) as [[x|]|] eqn:E; [left; by exists x|right..]; intros [y Hy]; congruence.
Defined.

Definition unmarked_count (pred : predecessors) : nat := length (filter (fun o => o = None) pred).

Lemma unmarked_insert pred v x :
  pred !! v = Some None -> S (unmarked_count (<[v := Some x]> pred)) = unmarked_count pred.
Proof.
  unfold unmarked_count. revert v. induction pred as [|o pred IH]; intros [|v]; simpl; try done.
  - intros [= ->]. rewrite !filter_cons. by rewrite decide_False, decide_True.
  - intros Hv. rewrite !filter_cons. specialize (IH v Hv). destruct (decide (o = None)); simpl; lia.
Qed.

Lemma marked_insert pred v x w :
  (v < length pred)%nat -> marked (<[v := Some x]> pred) w <-> marked pred w \/ w = v.
Proof.
  intros Hv. unfold marked. destruct (decide (w = v)) as [->|Hne].
  - rewrite list_lookup_insert_eq by done. split; [by right|by eexists].
  - rewrite list_lookup_insert_ne by congruence. split; [by left|]. by intros [?|?].
Qed.

Section SearchSpec.
Variables (graph : residual) (source sink : nat).
Variable usable : nat -> nat -> ResidualEdge -> option bool.
Variable use : nat -> nat -> bool.
Hypothesis usable_ok : forall u i e, arc_at graph u i = Some e -> usable u i e = Some (use u i).
Hypothesis heads_ok : forall u i e, arc_at graph u i = Some e -> (edge_to e < length graph)%nat.
Hypothesis source_ok : (source < length graph)%nat.
Hypothesis sink_ok : (sink < length graph)%nat.
Hypothesis source_ne_sink : source <> sink.

(** Every discovered node other than the source has a usable arc from its predecessor,
    which is one step closer to the source. *)
Record tree_ok (pred : predecessors) (depth : nat -> nat) : Prop := {
  tr_length : length pred = length graph;
  tr_source : marked pred source;
  tr_root : depth source = O;
  tr_pred : forall v u k, pred !! v = Some (Some (u, k)) -> v <> source ->
    exists i e, k = Z.of_nat i /\ arc_at graph u i = Some e /\ edge_to e = v /\ use u i = true /\
      marked pred u /\ depth v = S (depth u)
}.

Definition closed_but (pred : predecessors) (queue : list nat) (todo : nat -> nat -> Prop) : Prop :=
  forall u i e, marked pred u -> u ∉ queue -> arc_at graph u i = Some e -> use u i = true ->
    todo u i \/ marked pred (edge_to e).

Lemma tree_insert pred depth current i e :
  tree_ok pred depth -> marked pred current -> arc_at graph current i = Some e -> use current i = true ->
  ~ marked pred (edge_to e) ->
  exists depth', tree_ok (<[edge_to e := Some (current, Z.of_nat i)]> pred) depth'.
Proof.
  intros [H1 H2 H0 H3] Hc He Hu Hn. set (v := edge_to e) in *.
  assert (Hv : (v < length pred)%nat) by (rewrite H1; by eapply heads_ok).
  exists (fun x => if decide (x = v) then S (depth current) else depth x). split.
  - by rewrite length_insert.
  - apply marked_insert; [done|by left].
  - rewrite decide_False; [done|]. intros ->. done.
  - intros x u k Hx Hxs. assert (Hcv : current <> v) by (intros ->; done).
    destruct (decide (x = v)) as [->|Hxv].
    + rewrite list_lookup_insert_eq in Hx by done. injection Hx as <- <-. exists i, e.
      split_and!; [done..| |]; [apply marked_insert; [done|by left]|]. by rewrite decide_False.
    + rewrite list_lookup_insert_ne in Hx by congruence.
      destruct (H3 x u k Hx Hxs) as (j & f & -> & Hf & Hto & Huse & Hm & Hd). exists j, f.
      split_and!; [done..| |]; [apply marked_insert; [done|by left]|].
      rewrite decide_False; [done|]. intros ->. done.
Qed.

Lemma scan_spec current all edges i pred queue depth :
  graph !! current = Some all -> drop i all = edges ->
  tree_ok pred depth -> marked pred current -> Forall (marked pred) queue -> ~ marked pred sink ->
  closed_but pred queue (fun u j => u = current /\ (i <= j)%nat) ->
  exists pred' queue' depth', scan_edges usable sink current i edges pred queue = Some (pred', queue') /\
    tree_ok pred' depth' /\
    (length queue' + unmarked_count pred' <= length queue + unmarked_count pred)%nat /\
    (marked pred' sink \/
     ~ marked pred' sink /\ Forall (marked pred') queue' /\ closed_but pred' queue' (fun _ _ => False)).
Proof.
  intros Hall. revert i pred queue depth. induction edges as [|e edges IH]; intros i pred queue depth Hd Ht Hc Hq Hs Hcl.
  { exists pred, queue, depth. split_and!; [done..|]. right. split_and!; [done..|].
    intros u j f Hu Hnq Hf Huse. destruct (Hcl u j f Hu Hnq Hf Huse) as [[-> Hj]|?]; [|by right].
    unfold arc_at in Hf. rewrite Hall in Hf. apply lookup_lt_Some in Hf.
    assert (Hl : length (drop i all) = O) by (by rewrite Hd). rewrite length_drop in Hl. lia. }
  assert (He : arc_at graph current i = Some e).
  { unfold arc_at. rewrite Hall. change (all !! i = Some e).
    pose proof (lookup_drop all i 0) as Hld. rewrite Hd, Nat.add_0_r in Hld. by rewrite <- Hld. }
  assert (Hd' : drop (S i) all = edges).
  { replace (S i) with (i + 1)%nat by lia. by rewrite <- drop_drop, Hd. }
  cbn [scan_edges]. rewrite (usable_ok _ _ _ He). cbn [mbind option_bind].
  destruct (use current i) eqn:Huse; simpl negb; cbv iota.
  2:{ eapply IH; try done. intros u j f Hu Hnq Hf Hus.
      destruct (Hcl u j f Hu Hnq Hf Hus) as [[-> Hj]|?]; [|by right].
      destruct (decide (j = i)) as [->|]; [congruence|]. left. split; [done|lia]. }
  pose proof (tr_length _ _ Ht) as H1.
  destruct (lookup_lt_is_Some_2 pred (edge_to e)) as [slot Hslot]; [rewrite H1; by eapply heads_ok|].
  rewrite Hslot. cbn [mbind option_bind]. destruct slot as [x|].
  { eapply IH; try done. intros u j f Hu Hnq Hf Hus.
    destruct (Hcl u j f Hu Hnq Hf Hus) as [[-> Hj]|?]; [|by right].
    destruct (decide (j = i)) as [->|]; [|left; split; [done|lia]]. right. rewrite He in Hf.
    injection Hf as <-. by exists x. }
  assert (Hn : ~ marked pred (edge_to e)) by (intros [y Hy]; congruence).
  destruct (tree_insert pred depth current i e Ht Hc He Huse Hn) as [depth' Ht'].
  assert (Hlt : (edge_to e < length pred)%nat) by by eapply lookup_lt_Some.
  pose proof (unmarked_insert pred (edge_to e) (current, Z.of_nat i) Hslot) as Hcount.
  case_bool_decide as Hsink.
  { eexists _, _, depth'. split_and!; [done..|lia|]. left. apply marked_insert; [done|]. by right. }
  edestruct (IH (S i) _ (queue ++ [edge_to e]) depth' Hd' Ht') as (p' & q' & d' & H4 & H5 & H6 & H7).
  - apply marked_insert; [done|by left].
  - apply Forall_app. split; [|repeat constructor; apply marked_insert; [done|by right]].
    eapply Forall_impl; [done|]. intros y Hy. apply marked_insert; [done|by left].
  - rewrite marked_insert by done. intros [?|?]; [done|congruence].
  - intros u j f Hu Hnq Hf Hus. rewrite marked_insert in Hu |- * by done.
    rewrite elem_of_app, list_elem_of_singleton in Hnq. destruct Hu as [Hu|?]; [|tauto].
    destruct (Hcl u j f Hu) as [[-> Hj]|?]; [tauto|done|done| |right; by left].
    destruct (decide (j = i)) as [->|]; [|left; split; [done|lia]]. right. rewrite He in Hf.
    injection Hf as <-. by right.
  - exists p', q', d'. split_and!; [done..| |done]. rewrite length_app in H6. simpl in H6. lia.
Qed.

Lemma flow_search_spec fuel pred queue depth :
  tree_ok pred depth -> Forall (marked pred) queue -> ~ marked pred sink ->
  closed_but pred queue (fun _ _ => False) -> (length queue + unmarked_count pred < fuel)%nat ->
  exists pred' depth', flow_search usable graph sink fuel pred queue = Some pred' /\ tree_ok pred' depth' /\
    (marked pred' sink \/ ~ marked pred' sink /\ closed_but pred' [] (fun _ _ => False)).
Proof.
  revert pred queue depth. induction fuel as [|fuel IH]; intros pred queue depth Ht Hq Hs Hcl Hf; [lia|].
  cbn [flow_search]. destruct queue as [|current queue]; [by exists pred, depth; auto|].
  apply Forall_cons in Hq as [Hc Hq]. pose proof Hc as [x Hx]. apply lookup_lt_Some in Hx.
  rewrite (tr_length _ _ Ht) in Hx. destruct (lookup_lt_is_Some_2 graph current Hx) as [all Hall].
  rewrite Hall. cbn [mbind option_bind].
  destruct (scan_spec current all all 0 pred queue depth Hall eq_refl Ht Hc Hq Hs)
    as (p' & q' & d' & -> & Ht' & Hle & Hcase).
  { intros u i e Hu Hnq He Huse. destruct (decide (u = current)) as [->|]; [left; split; [done|lia]|].
    right. destruct (Hcl u i e Hu) as [[]|?]; [by apply not_elem_of_cons|done..]. }
  cbn [mbind option_bind].
  destruct (lookup_lt_is_Some_2 p' sink) as [slot Hslot]; [by rewrite (tr_length _ _ Ht')|].
  rewrite Hslot. cbn [mbind option_bind]. destruct slot as [y|].
  - exists p', d'. split_and!; [done..|]. left. by exists y.
  - destruct Hcase as [[y Hy]|(Hs' & Hq' & Hcl')]; [congruence|]. simpl in Hf. apply (IH p' q' d'); try done. lia.
Qed.

Lemma search_from_spec :
  exists pred depth, search_from usable graph sink source = Some pred /\ tree_ok pred depth /\
    (marked pred sink \/ ~ marked pred sink /\ closed_but pred [] (fun _ _ => False)).
Proof.
  unfold search_from. rewrite (proj2 (Nat.ltb_lt _ _) source_ok).
  assert (Hm : forall v, marked (<[source:=Some (source, 2 ^ 64 - 1)]> (replicate (length graph) None)) v <-> v = source).
  { intros v. rewrite marked_insert by by rewrite length_replicate. split; [|by right]. intros [[x Hx]|?]; [|done].
    apply lookup_replicate_1 in Hx as [? _]. done. }
  apply (flow_search_spec _ _ _ (fun _ => O)).
  - split; [by rewrite length_insert, length_replicate|by apply Hm|done|]. intros v u k Hv Hne.
    destruct Hne. apply Hm. by exists (u, k).
  - repeat constructor. by apply Hm.
  - rewrite Hm. congruence.
  - intros u i e ->%Hm Hnq. destruct Hnq. constructor.
  - assert (Hc : S (unmarked_count (<[source:=Some (source, 2 ^ 64 - 1)]> (replicate (length graph) None))) = length graph).
    { rewrite unmarked_insert by by apply lookup_replicate_2. unfold unmarked_count.
      clear. induction (length graph) as [|n IH]; [done|]. cbn [replicate]. rewrite filter_cons_True by done.
      simpl. by rewrite IH. }
    simpl. lia.
Qed.

(** The way back to the source meets every node at most once. *)
Lemma depth_bound pred depth v : tree_ok pred depth -> marked pred v -> (depth v < length graph)%nat.
Proof.
  clear source_ok sink_ok source_ne_sink. intros Ht Hv. pose proof (tr_root _ _ Ht) as Hds.
  assert (Hl : forall d v, marked pred v -> depth v = d ->
    exists l, length l = S d /\ NoDup l /\ Forall (fun x => marked pred x /\ (depth x <= d)%nat) l).
  { clear v Hv. induction d as [|d IH]; intros v Hv Hd.
    - exists [v]. split_and!; [done|apply NoDup_singleton|]. repeat constructor; [done|lia].
    - pose proof Hv as [[u k] Hp]. destruct (tr_pred _ _ Ht v u k Hp) as (i & e & _ & _ & _ & _ & Hu & Hdu).
      { intros ->. lia. }
      destruct (IH u Hu) as (l & Hlen & Hnd & Hall); [lia|]. exists (v :: l). split_and!; [simpl; lia| |].
      + apply NoDup_cons. split; [|done]. intros Hin. rewrite Forall_forall in Hall. apply Hall in Hin. lia.
      + constructor; [split; [done|lia]|]. eapply Forall_impl; [done|]. intros x [? ?]. split; [done|lia]. }
  destruct (Hl (depth v) v Hv eq_refl) as (l & Hlen & Hnd & Hall).
  assert (Hsub : l ⊆+ seq 0 (length graph)).
  { apply NoDup_submseteq; [done|]. intros x Hx. rewrite Forall_forall in Hall. destruct (Hall x Hx) as [[y Hy] _].
    apply lookup_lt_Some in Hy. rewrite (tr_length _ _ Ht) in Hy. apply elem_of_seq. lia. }
  apply submseteq_length in Hsub. rewrite length_seq in Hsub. lia.
Qed.

End SearchSpec.

(** ** Flow across a cut *)

Definition sum {A} (f : A -> Z) (l : list A) : Z := foldr (fun x z => f x + z) 0 l.

Lemma sum_app {A} (f : A -> Z) l k : sum f (l ++ k) = sum f l + sum f k.
Proof. induction l as [|x l IH]; simpl; [done|]. rewrite IH. lia. Qed.

#[global] Instance sum_perm {A} (f : A -> Z) : Proper (Permutation ==> eq) (sum f).
Proof. induction 1; simpl; lia. Qed.

Lemma sum_ext {A} (f g : A -> Z) l : (forall x, x ∈ l -> f x = g x) -> sum f l = sum g l.
Proof.
  induction l as [|x l IH]; simpl; [done|]. intros Hfg. rewrite (Hfg x) by constructor.
  rewrite IH; [done|]. intros y Hy. apply Hfg. by constructor.
Qed.

Lemma sum_map {A B} (f : B -> Z) (g : A -> B) l : sum f (map g l) = sum (fun x => f (g x)) l.
Proof. induction l as [|x l IH]; simpl; [done|]. by rewrite IH. Qed.

Lemma sum_plus {A} (f g : A -> Z) l : sum (fun x => f x + g x) l = sum f l + sum g l.
Proof. induction l as [|x l IH]; simpl; [done|]. rewrite IH. lia. Qed.

Lemma sum_opp {A} (f : A -> Z) l : sum (fun x => - f x) l = - sum f l.
Proof. induction l as [|x l IH]; simpl; [done|]. rewrite IH. lia. Qed.

Lemma sum_zero {A} (f : A -> Z) l : (forall x, x ∈ l -> f x = 0) -> sum f l = 0.
Proof.
  induction l as [|x l IH]; simpl; [done|]. intros Hf. rewrite (Hf x) by constructor.
  rewrite IH; [done|]. intros y Hy. apply Hf. by constructor.
Qed.

Lemma sum_one {A} `{EqDecision A} (f : A -> Z) l x :
  NoDup l -> x ∈ l -> (forall y, y ∈ l -> y <> x -> f y = 0) -> sum f l = f x.
Proof.
  intros Hnd Hx Hf. apply list_elem_of_split in Hx as (l1 & l2 & ->). rewrite sum_app. simpl.
  apply NoDup_app in Hnd as (_ & Hd & Hnd). apply NoDup_cons in Hnd as [Hx _].
  rewrite !sum_zero; [lia|..]; intros y Hy; apply Hf; rewrite ?elem_of_app, ?elem_of_cons; auto.
  - intros ->. done.
  - intros ->. apply (Hd x Hy). constructor.
Qed.

Lemma sum_nonneg {A} (f : A -> Z) l : (forall x, x ∈ l -> 0 <= f x) -> 0 <= sum f l.
Proof.
  induction l as [|x l IH]; simpl; [done|]. intros Hf. pose proof (Hf x ltac:(constructor)).
  assert (0 <= sum f l); [|lia]. apply IH. intros y Hy. apply Hf. by constructor.
Qed.

Lemma sum_filter_split {A} (f : A -> Z) p l :
  sum f l = sum f (List.filter p l) + sum f (List.filter (fun x => negb (p x)) l).
Proof. induction l as [|x l IH]; simpl; [done|]. rewrite IH. destruct (p x); simpl; lia. Qed.

Section Cut.
Variables (arcs : list (nat * nat)) (target : nat * nat -> nat) (back : nat * nat -> nat * nat).
Hypothesis arcs_nodup : NoDup arcs.
Hypothesis back_in : forall a, a ∈ arcs -> back a ∈ arcs.
Hypothesis back_back : forall a, a ∈ arcs -> back (back a) = a.
Hypothesis back_tail : forall a, a ∈ arcs -> (back a).1 = target a.
Hypothesis back_target : forall a, a ∈ arcs -> target (back a) = a.1.
Variable f : nat * nat -> Z.
Hypothesis antisymmetric : forall a, a ∈ arcs -> f (back a) = - f a.

Definition net_flow (u : nat) : Z := sum f (List.filter (fun a => bool_decide (a.1 = u)) arcs).

Definition crossing (S : nat -> bool) : list (nat * nat) :=
  List.filter (fun a => negb (S (target a))) (List.filter (fun a => S a.1) arcs).

Lemma filter_in {A} (p : A -> bool) l x : x ∈ List.filter p l <-> x ∈ l /\ p x = true.
Proof. by rewrite list_elem_of_In, filter_In, <- list_elem_of_In. Qed.

Lemma inside_cancels S :
  sum f (List.filter (fun a => S (target a)) (List.filter (fun a => S a.1) arcs)) = 0.
Proof.
  set (L := List.filter _ _).
  assert (HL : forall a, a ∈ L <-> a ∈ arcs /\ S a.1 = true /\ S (target a) = true).
  { intros a. unfold L. rewrite !filter_in. tauto. }
  assert (Hnd : NoDup L) by (apply NoDup_ListNoDup; do 2 apply List.NoDup_filter; by apply NoDup_ListNoDup).
  assert (Hperm : map back L ≡ₚ L).
  { apply submseteq_length_Permutation; [|by rewrite length_map].
    apply NoDup_submseteq.
    - apply NoDup_fmap_2_strong; [|done]. intros a b Ha%HL Hb%HL Hab.
      rewrite <- (back_back a), <- (back_back b), Hab by tauto. done.
    - intros a (b & -> & (Hb & H1 & H2)%HL)%list_elem_of_fmap. apply HL.
      rewrite back_tail, back_target by done. eauto. }
  assert (Hs : sum f L = - sum f L); [|lia].
  rewrite <- Hperm at 1. rewrite sum_map, <- sum_opp. apply sum_ext. intros a [Ha _]%HL. by apply antisymmetric.
Qed.

Lemma net_flow_sum S n :
  (forall a, a ∈ arcs -> (a.1 < n)%nat) ->
  sum net_flow (List.filter S (seq 0 n)) = sum f (List.filter (fun a => S a.1) arcs).
Proof.
  unfold net_flow. clear. induction arcs as [|a l IH]; intros Hn; simpl.
  { by apply sum_zero. }
  transitivity (sum (fun u => (if bool_decide (a.1 = u) then f a else 0) +
    sum f (List.filter (fun a => bool_decide (a.1 = u)) l)) (List.filter S (seq 0 n))).
  { apply sum_ext. intros u _. by destruct (bool_decide (a.1 = u)). }
  rewrite sum_plus, IH by (intros b Hb; apply Hn; by constructor).
  assert (Ha : (a.1 < n)%nat) by (apply Hn; constructor).
  destruct (S a.1) eqn:E; simpl.
  - rewrite (sum_one _ _ a.1); [by rewrite bool_decide_true| | |].
    + apply NoDup_ListNoDup, List.NoDup_filter, NoDup_ListNoDup, NoDup_seq.
    + apply filter_in. rewrite elem_of_seq. split; [lia|done].
    + intros y _ Hy. by rewrite bool_decide_false by congruence.
  - rewrite sum_zero; [lia|]. intros u [_ Hu]%filter_in. rewrite bool_decide_false; [done|congruence].
Qed.

(** The flow that leaves the source crosses every cut between source and sink. *)
Lemma cut_value S n source sink :
  (forall a, a ∈ arcs -> (a.1 < n)%nat) -> (source < n)%nat -> S source = true -> S sink = false ->
  (forall u, u <> source -> u <> sink -> net_flow u = 0) ->
  sum f (crossing S) = net_flow source.
Proof.
  intros Hn Hs HS HT Hc. unfold crossing.
  pose proof (sum_filter_split f (fun a => S (target a)) (List.filter (fun a => S a.1) arcs)) as Hsplit.
  rewrite inside_cancels, <- (net_flow_sum S n Hn) in Hsplit.
  rewrite (sum_one _ _ source) in Hsplit; [lia|..].
  - apply NoDup_ListNoDup, List.NoDup_filter, NoDup_ListNoDup, NoDup_seq.
  - apply filter_in. rewrite elem_of_seq. split; [lia|done].
  - intros u [_ Hu]%filter_in Hne. apply Hc; [done|congruence].
Qed.

End Cut.

(** ** The residual graph *)

(** The part of the graph that augmentation leaves alone. *)
Definition shape (graph : residual) : list (list (nat * nat * Z)) :=
  map (map (fun e => (edge_to e, reverse_index e, initial_capacity e))) graph.

Definition arc_ids {A} (rows : list (list A)) : list (nat * nat) :=
  concat (imap (fun u row => map (pair u) (seq 0 (length row))) rows).

Lemma arc_ids_in {A} (rows : list (list A)) u i :
  (u, i) ∈ arc_ids rows <-> exists row, rows !! u = Some row /\ (i < length row)%nat.
Proof.
  unfold arc_ids. rewrite list_elem_of_In, in_concat. setoid_rewrite <- list_elem_of_In. split.
  - intros (l & (v & row & -> & Hrow)%elem_of_lookup_imap_1 & Hin).
    apply list_elem_of_fmap in Hin as (j & [= -> ->] & Hj%elem_of_seq). exists row. split; [done|lia].
  - intros (row & Hrow & Hi). eexists. split; [apply elem_of_lookup_imap_2; exact Hrow|].
    apply list_elem_of_fmap. exists i. split; [done|]. apply elem_of_seq. lia.
Qed.

Lemma arc_ids_nodup {A} (rows : list (list A)) : NoDup (arc_ids rows).
Proof.
  unfold arc_ids. assert (Hgen : forall k, NoDup (concat (imap (fun u row => map (pair (u + k)%nat) (seq 0 (length row))) rows)) /\
    forall u i, (u, i) ∈ concat (imap (fun u row => map (pair (u + k)%nat) (seq 0 (length row))) rows) -> (k <= u)%nat).
  { induction rows as [|row rows IH]; intros k; simpl; [split; [constructor|by intros u i ?%not_elem_of_nil]|].
    assert (Heq : imap ((fun u row => map (pair (u + k)%nat) (seq 0 (length row))) ∘ S) rows =
                  imap (fun u row => map (pair (u + S k)%nat) (seq 0 (length row))) rows).
    { apply imap_ext. intros u r _. simpl. by replace (u + S k)%nat with (S (u + k)) by lia. }
    rewrite Heq. destruct (IH (S k)) as [Hnd Hk]. split.
    - apply NoDup_app. split_and!; [apply NoDup_fmap_2; [by intros ? ? [= ->]|apply NoDup_seq]| |done].
      intros [u i] (j & [= -> ->] & _)%list_elem_of_fmap Hin. apply Hk in Hin. lia.
    - intros u i [(j & [= -> ->] & _)%list_elem_of_fmap|Hin]%elem_of_app; [lia|]. apply Hk in Hin. lia. }
  destruct (Hgen O) as [Hnd _]. erewrite imap_ext; [exact Hnd|]. intros u r _. simpl. by rewrite Nat.add_0_r.
Qed.

Lemma shape_at graph u i :
  (row ← shape graph !! u; row !! i) =
  (fun e => (edge_to e, reverse_index e, initial_capacity e)) <$> arc_at graph u i.
Proof.
  unfold shape, arc_at. rewrite list_lookup_fmap. destruct (graph !! u) as [es|]; simpl; [|done].
  apply list_lookup_fmap.
Qed.

Definition target (sh : list (list (nat * nat * Z))) (a : nat * nat) : nat :=
  match (row ← sh !! a.1; row !! a.2) with Some (v, _, _) => v | None => a.1 end.

Definition back (sh : list (list (nat * nat * Z))) (a : nat * nat) : nat * nat :=
  match (row ← sh !! a.1; row !! a.2) with Some (v, r, _) => (v, r) | None => a end.

Definition flow_on (graph : residual) (a : nat * nat) : Z :=
  match arc_at graph a.1 a.2 with Some e => initial_capacity e - capacity e | None => 0 end.

(** Every arc has a reverse arc; together they carry one unit. *)
Definition residual_ok (graph : residual) : Prop :=
  forall u i e, arc_at graph u i = Some e ->
    u <> edge_to e /\ 0 <= capacity e /\ 0 <= initial_capacity e /\
    exists r, arc_at graph (edge_to e) (reverse_index e) = Some r /\ edge_to r = u /\
      reverse_index r = i /\ capacity e + capacity r = 1 /\ initial_capacity e + initial_capacity r = 1.

Lemma arcs_at graph u i : (u, i) ∈ arc_ids (shape graph) <-> exists e, arc_at graph u i = Some e.
Proof.
  rewrite arc_ids_in. unfold shape, arc_at. split.
  - intros (row & Hrow & Hi). rewrite list_lookup_fmap in Hrow. destruct (graph !! u) as [es|]; [|done].
    injection Hrow as <-. rewrite length_map in Hi. by destruct (lookup_lt_is_Some_2 es i Hi) as [e He]; exists e.
  - intros (e & He). rewrite list_lookup_fmap. destruct (graph !! u) as [es|]; [|done].
    eexists. split; [done|]. rewrite length_map. by eapply lookup_lt_Some.
Qed.

Lemma target_at graph u i e : arc_at graph u i = Some e -> target (shape graph) (u, i) = edge_to e.
Proof. intros He. unfold target. cbn [fst snd]. by rewrite shape_at, He. Qed.

Lemma back_at graph u i e :
  arc_at graph u i = Some e -> back (shape graph) (u, i) = (edge_to e, reverse_index e).
Proof. intros He. unfold back. cbn [fst snd]. by rewrite shape_at, He. Qed.

Section Residual.
Variable graph : residual.
Hypothesis Hok : residual_ok graph.
Abbreviation sh := (shape graph).

Lemma arc_facts a : a ∈ arc_ids sh ->
  exists e r, arc_at graph a.1 a.2 = Some e /\ arc_at graph (back sh a).1 (back sh a).2 = Some r /\
    target sh a = edge_to e /\ back sh a = (edge_to e, reverse_index e) /\ edge_to r = a.1 /\ reverse_index r = a.2 /\
    capacity e + capacity r = 1 /\ initial_capacity e + initial_capacity r = 1.
Proof.
  destruct a as [u i]. intros [e He]%arcs_at. destruct (Hok u i e He) as (_ & _ & _ & r & Hr & H1 & H2 & H3 & H4).
  exists e, r. rewrite (target_at _ _ _ _ He), (back_at _ _ _ _ He). done.
Qed.

Lemma back_in' a : a ∈ arc_ids sh -> back sh a ∈ arc_ids sh.
Proof.
  intros (e & r & _ & Hr & _)%arc_facts. destruct (back sh a) as [v j]. apply arcs_at. by exists r.
Qed.

Lemma back_back' a : a ∈ arc_ids sh -> back sh (back sh a) = a.
Proof.
  intros (e & r & _ & Hr & _ & Hb & H1 & H2 & _)%arc_facts. destruct (back sh a) as [v j] eqn:E.
  cbn [fst snd] in Hr. rewrite (back_at _ _ _ _ Hr), H1, H2. by destruct a.
Qed.

Lemma back_tail' a : a ∈ arc_ids sh -> (back sh a).1 = target sh a.
Proof. intros (e & r & _ & _ & -> & -> & _)%arc_facts. done. Qed.

Lemma back_target' a : a ∈ arc_ids sh -> target sh (back sh a) = a.1.
Proof.
  intros (e & r & _ & Hr & _ & _ & H1 & _)%arc_facts. destruct (back sh a) as [v j].
  cbn [fst snd] in Hr. by rewrite (target_at _ _ _ _ Hr).
Qed.

Lemma flow_antisymmetric a : a ∈ arc_ids sh -> flow_on graph (back sh a) = - flow_on graph a.
Proof. intros (e & r & He & Hr & _ & _ & _ & _ & H1 & H2)%arc_facts. unfold flow_on. rewrite He, Hr. lia. Qed.

End Residual.

(** *** One unit along one arc *)

Lemma update_capacity_spec graph u i e delta :
  arc_at graph u i = Some e -> 0 <= capacity e + delta < 256 ->
  exists graph', update_capacity graph u i delta = Some graph' /\ length graph' = length graph /\
    shape graph' = shape graph /\
    forall x j, arc_at graph' x j =
      if decide ((x, j) = (u, i)) then Some (set_capacity e (capacity e + delta)) else arc_at graph x j.
Proof.
  unfold update_capacity, arc_at. destruct (graph !! u) as [es|] eqn:Eu; cbn [mbind option_bind]; [|done].
  intros He Hd. rewrite He. cbn [mbind option_bind].
  destruct (Z.leb_spec 0 (capacity e + delta)), (Z.ltb_spec (capacity e + delta) 256); try lia. simpl andb. cbv iota.
  eexists. split_and!; [done|by rewrite length_insert| |].
  - unfold shape. change (map ?f) with (fmap (M:=list) f). rewrite list_fmap_insert.
    apply list_insert_id. rewrite list_lookup_fmap, Eu. simpl. f_equal.
    change (map ?f) with (fmap (M:=list) f). rewrite list_fmap_insert. symmetry. apply list_insert_id.
    by rewrite list_lookup_fmap, He.
  - intros x j. destruct (decide (x = u)) as [->|Hx].
    + rewrite list_lookup_insert_eq by by eapply lookup_lt_Some. cbn [mbind option_bind].
      destruct (decide (j = i)) as [->|Hj].
      * rewrite decide_True by done. by rewrite list_lookup_insert_eq by by eapply lookup_lt_Some.
      * rewrite decide_False by congruence. rewrite Eu. by rewrite list_lookup_insert_ne by congruence.
    + rewrite decide_False by congruence. by rewrite list_lookup_insert_ne by congruence.
Qed.

Definition net (graph : residual) (u : nat) : Z := net_flow (arc_ids (shape graph)) (flow_on graph) u.

Definition indicator (b : bool) : Z := if b then 1 else 0.

Lemma net_flow_add arcs f f' a z u :
  NoDup arcs -> a ∈ arcs -> (forall b, b ∈ arcs -> f' b = f b + (if decide (b = a) then z else 0)) ->
  net_flow arcs f' u = net_flow arcs f u + z * indicator (bool_decide (a.1 = u)).
Proof.
  intros Hnd Ha Hf. unfold net_flow.
  rewrite (sum_ext f' (fun b => f b + (if decide (b = a) then z else 0))) by (intros b [Hb _]%filter_in; auto).
  rewrite sum_plus. f_equal. case_bool_decide as Hu; simpl.
  - rewrite (sum_one _ _ a); [rewrite decide_True by done; lia| | |].
    + by apply NoDup_ListNoDup, List.NoDup_filter, NoDup_ListNoDup.
    + apply filter_in. by rewrite bool_decide_true.
    + intros b _ Hb. by rewrite decide_False.
  - rewrite sum_zero; [lia|]. intros b [_ Hb%bool_decide_eq_true]%filter_in. rewrite decide_False; [done|congruence].
Qed.

Lemma push_arc graph u i e :
  residual_ok graph -> arc_at graph u i = Some e -> capacity e <> 0 ->
  exists g1 g2, update_capacity graph u i (-1) = Some g1 /\
    update_capacity g1 (edge_to e) (reverse_index e) 1 = Some g2 /\
    residual_ok g2 /\ shape g2 = shape graph /\ length g2 = length graph /\
    (forall x j, x <> u -> x <> edge_to e -> arc_at g2 x j = arc_at graph x j) /\
    (forall x, net g2 x = net graph x + indicator (bool_decide (u = x)) - indicator (bool_decide (edge_to e = x))).
Proof.
  intros Hok He Hc. destruct (Hok u i e He) as (Hne & Hc0 & Hi0 & r & Hr & Hr1 & Hr2 & Hcs & His).
  destruct (Hok _ _ _ Hr) as (_ & Hrc & Hri & _).
  destruct (update_capacity_spec graph u i e (-1) He) as (g1 & Hg1 & Hl1 & Hs1 & Ha1); [lia|].
  assert (Hr' : arc_at g1 (edge_to e) (reverse_index e) = Some r) by (rewrite Ha1, decide_False by congruence; done).
  destruct (update_capacity_spec g1 _ _ r 1 Hr') as (g2 & Hg2 & Hl2 & Hs2 & Ha2); [lia|].
  assert (Hat : forall x j, arc_at g2 x j =
    if decide ((x, j) = (edge_to e, reverse_index e)) then Some (set_capacity r (capacity r + 1))
    else if decide ((x, j) = (u, i)) then Some (set_capacity e (capacity e + -1)) else arc_at graph x j).
  { intros x j. rewrite Ha2. case_decide; [done|]. by rewrite Ha1. }
  assert (Hsh : shape g2 = shape graph) by congruence.
  exists g1, g2. split_and!; [done..| |done|congruence| |].
  - intros x j f Hf. rewrite Hat in Hf. case_decide as H1.
    { injection H1 as -> ->. injection Hf as <-. simpl. split_and!; [congruence|lia|done|].
      exists (set_capacity e (capacity e + -1)). simpl. rewrite Hat, Hr1, Hr2.
      rewrite decide_False by congruence. rewrite decide_True by done. split_and!; [done..|lia|lia]. }
    case_decide as H2.
    { injection H2 as -> ->. injection Hf as <-. simpl. split_and!; [done|lia|done|].
      exists (set_capacity r (capacity r + 1)). simpl. rewrite Hat, decide_True by done.
      split_and!; [done..|lia|lia]. }
    destruct (Hok x j f Hf) as (Hx & Hx1 & Hx2 & r' & Hr'' & Hx3 & Hx4 & Hx5). split_and!; [done..|].
    exists r'. split; [|done]. rewrite Hat. rewrite !decide_False; [done|..].
    + intros [= E1 E2]. apply H1. rewrite E1, E2, He in Hr''. injection Hr'' as <-. congruence.
    + intros [= E1 E2]. apply H2. rewrite E1, E2, Hr in Hr''. injection Hr'' as <-. congruence.
  - intros x j Hx1 Hx2. rewrite Hat. rewrite !decide_False by congruence. done.
  - intros x. unfold net. rewrite Hsh. set (arcs := arc_ids (shape graph)).
    assert (Hin1 : (u, i) ∈ arcs) by (apply arcs_at; by exists e).
    assert (Hin2 : (edge_to e, reverse_index e) ∈ arcs) by (apply arcs_at; by exists r).
    set (f1 := fun b => flow_on graph b + (if decide (b = (u, i)) then 1 else 0)).
    rewrite (net_flow_add arcs f1 (flow_on g2) (edge_to e, reverse_index e) (-1) x);
      [|apply arc_ids_nodup|done|].
    + rewrite (net_flow_add arcs (flow_on graph) f1 (u, i) 1 x); [|apply arc_ids_nodup|done|by intros b _].
      cbn [fst]. lia.
    + intros [y k] _. unfold f1, flow_on. cbn [fst snd]. rewrite Hat. repeat case_decide; simplify_eq; rewrite ?He, ?Hr; simpl; lia.
Qed.

(** *** Augmentation *)

Definition residual_use (graph : residual) (u i : nat) : bool :=
  match arc_at graph u i with Some e => negb (capacity e =? 0) | None => false end.

Lemma push_path_spec g0 source pred depth fuel graph cursor :
  tree_ok g0 source (residual_use g0) pred depth -> marked pred cursor -> (depth cursor <= fuel)%nat ->
  residual_ok graph -> shape graph = shape g0 ->
  (forall x j, marked pred x -> (depth x < depth cursor)%nat -> arc_at graph x j = arc_at g0 x j) ->
  exists graph', push_path fuel graph pred source cursor = Some (true, graph') /\
    residual_ok graph' /\ shape graph' = shape graph /\
    forall x, net graph' x = net graph x + indicator (bool_decide (source = x)) - indicator (bool_decide (cursor = x)).
Proof.
  intros Ht. revert graph cursor. induction fuel as [|fuel IH]; intros graph cursor Hm Hf Hok Hsh Hsame; simpl.
  - destruct (decide (cursor = source)) as [->|Hne].
    + rewrite bool_decide_true by done. exists graph. split_and!; [done..|]. intros x. lia.
    + pose proof Hm as [[u k] Hk]. destruct (tr_pred _ _ _ _ _ Ht _ _ _ Hk Hne) as (i & e & _ & _ & _ & _ & _ & Hd). lia.
  - destruct (decide (cursor = source)) as [->|Hne].
    { rewrite bool_decide_true by done. exists graph. split_and!; [done..|]. intros x. lia. }
    rewrite bool_decide_false by done. pose proof Hm as [[u k] Hk].
    destruct (tr_pred _ _ _ _ _ Ht _ _ _ Hk Hne) as (i & e & -> & He & Hto & Huse & Hu & Hd).
    rewrite Hk. cbn [mbind option_bind]. rewrite Nat2Z.id.
    assert (He' : arc_at graph u i = Some e) by (rewrite Hsame; [done..|lia]).
    unfold residual_use in Huse. rewrite He in Huse. apply negb_true_iff, Z.eqb_neq in Huse.
    destruct (push_arc graph u i e Hok He' Huse) as (g1 & g2 & Hg1 & Hg2 & Hok2 & Hsh2 & Hl & Hat & Hnet).
    unfold arc_at in He'. destruct (graph !! u) as [es|] eqn:Eu; [|done]. cbn [mbind option_bind] in He' |- *.
    rewrite He'. cbn [mbind option_bind]. rewrite Hg1. cbn [mbind option_bind]. rewrite <- Hto, Hg2. cbn [mbind option_bind].
    destruct (IH g2 u Hu) as (g' & Hp & Hok' & Hsh' & Hnet'); [lia|done|congruence| |].
    + intros x j Hx Hdx. rewrite Hat; [apply Hsame; [done|lia]|..]; intros ->; [lia|]. rewrite Hto in Hdx. lia.
    + exists g'. split_and!; [done..|congruence|]. intros x. rewrite Hnet', Hnet. lia.
Qed.

(** Augmentation either pushes one unit from the source to the sink, or leaves the graph
    alone and finds that the nodes reachable in it are cut off from the sink. *)
Lemma augment_spec graph source sink :
  residual_ok graph -> (source < length graph)%nat -> (sink < length graph)%nat -> source <> sink ->
  exists ok graph', augment_unit_flow graph source sink = Some (ok, graph') /\ residual_ok graph' /\
    shape graph' = shape graph /\
    if ok : bool then
      forall x, net graph' x = net graph x + indicator (bool_decide (source = x)) - indicator (bool_decide (sink = x))
    else graph' = graph /\ exists S : nat -> bool, S source = true /\ S sink = false /\
      forall u i e, arc_at graph u i = Some e -> S u = true -> S (edge_to e) = false -> capacity e = 0.
Proof.
  intros Hok Hs Ht Hne. unfold augment_unit_flow.
  destruct (search_from_spec graph source sink (fun _ _ edge => Some (negb (capacity edge =? 0)))
    (residual_use graph)) as (pred & depth & -> & Htree & Hcase); try done.
  { intros u i e He. unfold residual_use. by rewrite He. }
  { intros u i e He. destruct (Hok u i e He) as (_ & _ & _ & r & Hr & _). unfold arc_at in Hr.
    destruct (graph !! edge_to e) eqn:E; [|done]. by eapply lookup_lt_Some. }
  cbn [mbind option_bind].
  destruct (lookup_lt_is_Some_2 pred sink) as [slot Hslot]; [by rewrite (tr_length _ _ _ _ _ Htree)|].
  rewrite Hslot. cbn [mbind option_bind]. destruct slot as [x|].
  - assert (Hm : marked pred sink) by by exists x.
    destruct (push_path_spec graph source pred depth (length graph) graph sink) as (g' & -> & H1 & H2 & H3); try done.
    { apply Nat.lt_le_incl. by eapply depth_bound. }
    by exists true, g'.
  - exists false, graph. split_and!; [done..|]. destruct Hcase as [[y Hy]|[Hns Hcl]]; [congruence|].
    exists (fun v => bool_decide (marked pred v)). split_and!.
    + apply bool_decide_eq_true, Htree.
    + by apply bool_decide_eq_false.
    + intros u i e He Hu%bool_decide_eq_true Hv%bool_decide_eq_false.
      destruct (Z.eqb_spec (capacity e) 0) as [|Hc]; [done|].
      destruct (Hcl u i e Hu (not_elem_of_nil u) He) as [[]|?]; [|done].
      unfold residual_use. rewrite He. by apply negb_true_iff, Z.eqb_neq.
Qed.

(** *** Extraction *)

Fixpoint chained (R : nat -> nat -> Prop) (l : list nat) : Prop :=
  match l with
  | u :: (v :: _) as rest => R u v /\ chained R rest
  | _ => True
  end.

Lemma chained_snoc R l u v : chained R (l ++ [u]) -> R u v -> chained R ((l ++ [u]) ++ [v]).
Proof.
  induction l as [|x [|y l] IH]; simpl; [done|tauto|]. intros [? ?] ?. split; [done|]. by apply IH.
Qed.

Lemma chained_mono (R R' : nat -> nat -> Prop) l :
  (forall u v, u ∈ l -> R u v -> R' u v) -> chained R l -> chained R' l.
Proof.
  induction l as [|u [|v l] IH]; [done..|]. intros HR [Huv Hc]. split; [by apply HR; [constructor|]|].
  apply IH; [|done]. intros x y Hx. apply HR. by constructor.
Qed.

Section Extraction.
Variable graph : residual.
Hypothesis Hok : residual_ok graph.
Variables source sink : nat.
Hypothesis source_ok : (source < length graph)%nat.
Hypothesis sink_ok : (sink < length graph)%nat.
Hypothesis source_ne_sink : source <> sink.

Abbreviation arcs := (arc_ids (shape graph)).

(** What is left on the arcs: at most their initial capacity. *)
Definition flows_ok (r : flows) : Prop :=
  forall u i e, arc_at graph u i = Some e -> exists z, flow_at r u i = Some z /\ 0 <= z <= initial_capacity e.

Definition left_on (r : flows) (a : nat * nat) : Z := default 0 (flow_at r a.1 a.2).

Definition net_left (r : flows) (u : nat) : Z :=
  net_flow arcs (fun a => left_on r a - left_on r (back (shape graph) a)) u.

Definition use_left (r : flows) (u i : nat) : bool := negb (left_on r (u, i) =? 0).

Lemma take_flow_spec r u i e :
  flows_ok r -> arc_at graph u i = Some e -> left_on r (u, i) <> 0 ->
  exists r', take_flow r u i = Some r' /\ flows_ok r' /\
    (forall x j, flow_at r' x j = if decide ((x, j) = (u, i)) then Some (left_on r (u, i) - 1) else flow_at r x j) /\
    (forall x, net_left r' x = net_left r x - indicator (bool_decide (u = x)) + indicator (bool_decide (edge_to e = x))).
Proof.
  intros Hr He Hz. destruct (Hr u i e He) as (z & Hf & Hz0). unfold left_on in *. cbn [fst snd] in *.
  rewrite Hf in *. cbn [default] in *. unfold take_flow. unfold flow_at in Hf.
  destruct (r !! u) as [row|] eqn:Eu; [|done]. cbn [mbind option_bind] in *. rewrite Hf. cbn [mbind option_bind].
  destruct (Z.leb_spec 1 z); [|simpl in Hz; lia].
  assert (Hat : forall x j, flow_at (<[u := <[i := z - 1]> row]> r) x j =
    if decide ((x, j) = (u, i)) then Some (z - 1) else flow_at r x j).
  { intros x j. unfold flow_at. destruct (decide (x = u)) as [->|Hx].
    - rewrite list_lookup_insert_eq by by eapply lookup_lt_Some. cbn [mbind option_bind].
      destruct (decide (j = i)) as [->|Hj].
      + rewrite decide_True by done. by rewrite list_lookup_insert_eq by by eapply lookup_lt_Some.
      + rewrite decide_False by congruence. rewrite Eu. by rewrite list_lookup_insert_ne by congruence.
    - rewrite decide_False by congruence. by rewrite list_lookup_insert_ne by congruence. }
  eexists. split_and!; [done| |done|].
  - intros x j f Hfx. rewrite Hat. case_decide as Hd; [|by apply Hr].
    injection Hd as -> ->. rewrite He in Hfx. injection Hfx as <-. exists (z - 1). split; [done|lia].
  - intros x. unfold net_left.
    destruct (Hok u i e He) as (Hne & _ & _ & rv & Hrv & Hrv1 & Hrv2 & _).
    assert (Hin : (u, i) ∈ arcs) by (apply arcs_at; by exists e).
    assert (Hb : back (shape graph) (u, i) = (edge_to e, reverse_index e)) by by apply back_at.
    set (f0 := fun a => left_on r a - left_on r (back (shape graph) a)).
    set (f1 := fun b => f0 b + (if decide (b = (u, i)) then -1 else 0)).
    rewrite (net_flow_add arcs f1 _ (edge_to e, reverse_index e) 1 x); [|apply arc_ids_nodup|by apply arcs_at; exists rv|].
    + rewrite (net_flow_add arcs f0 f1 (u, i) (-1) x); [|apply arc_ids_nodup|done|by intros b _]. cbn [fst]. lia.
    + intros b Hbin. unfold f1, f0, left_on. rewrite !Hat. rewrite <- !surjective_pairing.
      assert (Hz' : flow_at r u i = Some z) by (unfold flow_at; by rewrite Eu).
      assert (Hbb : back (shape graph) b = (u, i) <-> b = (edge_to e, reverse_index e)).
      { split; [|intros ->; rewrite <- Hb; by apply back_back'].
        intros Hbk. rewrite <- (back_back' graph Hok b Hbin), Hbk. done. }
      destruct (decide (b = (u, i))) as [->|Hb1].
      * rewrite (decide_False (P := (u, i) = (edge_to e, _))) by congruence.
        rewrite (decide_False (P := back _ _ = _)) by (rewrite Hb; congruence). cbn [fst snd]. rewrite Hz'. simpl. lia.
      * destruct (decide (b = (edge_to e, reverse_index e))) as [->|Hb2].
        -- rewrite (proj2 Hbb eq_refl), decide_True by done. cbn [fst snd]. rewrite Hz'. simpl. lia.
        -- rewrite decide_False by (rewrite Hbb; done). lia.
Qed.

(** The arc from [u] to [v] carried flow before and has lost it. *)
Definition consumed (r r' : flows) (u v : nat) : Prop :=
  exists i e, arc_at graph u i = Some e /\ edge_to e = v /\ left_on r (u, i) <> 0 /\
    left_on r' (u, i) = left_on r (u, i) - 1.

Lemma extract_path_spec r0 pred depth fuel r cursor pre :
  tree_ok graph source (use_left r0) pred depth -> marked pred cursor -> (depth cursor <= fuel)%nat ->
  flows_ok r -> (forall x j, marked pred x -> (depth x < depth cursor)%nat -> flow_at r x j = flow_at r0 x j) ->
  exists l r', extract_path fuel r pred source cursor (pre ++ [cursor]) = Some (Some (l ++ [cursor] ++ rev pre), r') /\
    head (l ++ [cursor]) = Some source /\ NoDup (l ++ [cursor]) /\
    Forall (fun x => marked pred x /\ (depth x < depth cursor)%nat) l /\
    chained (consumed r0 r') (l ++ [cursor]) /\ flows_ok r' /\
    (forall x j, ~ (marked pred x /\ (depth x < depth cursor)%nat) -> flow_at r' x j = flow_at r x j) /\
    (forall x j, left_on r' (x, j) <= left_on r (x, j)) /\
    (forall x, net_left r' x = net_left r x - indicator (bool_decide (source = x)) + indicator (bool_decide (cursor = x))).
Proof.
  intros Ht. revert r cursor pre. induction fuel as [|fuel IH]; intros r cursor pre Hm Hf Hr Hsame.
  all: destruct (decide (cursor = source)) as [Heq|Hne].
  1, 3: exists [], r; cbn [extract_path]; rewrite (bool_decide_true (cursor = source)) by done;
    rewrite rev_app_distr; rewrite <- Heq; (split_and!; try done; [apply NoDup_singleton|intros x; lia]).
  - pose proof Hm as [[u k] Hk]. destruct (tr_pred _ _ _ _ _ Ht _ _ _ Hk Hne) as (i & e & _ & _ & _ & _ & _ & Hd). lia.
  - cbn [extract_path]. rewrite bool_decide_false by done. pose proof Hm as [[u k] Hk].
    destruct (tr_pred _ _ _ _ _ Ht _ _ _ Hk Hne) as (i & e & -> & He & Hto & Huse & Hu & Hd).
    rewrite Hk. cbn [mbind option_bind]. rewrite Nat2Z.id.
    assert (Hl0 : left_on r (u, i) = left_on r0 (u, i)) by (unfold left_on; simpl; rewrite Hsame; [done..|lia]).
    unfold use_left in Huse. apply negb_true_iff, Z.eqb_neq in Huse. rewrite <- Hl0 in Huse.
    destruct (take_flow_spec r u i e Hr He Huse) as (r1 & -> & Hr1 & Hat1 & Hnet1). cbn [mbind option_bind].
    assert (Hle1 : forall x j, left_on r1 (x, j) <= left_on r (x, j)).
    { intros x j. unfold left_on at 1. simpl. rewrite Hat1. case_decide as E; [injection E as -> ->; simpl; lia|done]. }
    destruct (IH r1 u (pre ++ [cursor]) Hu) as (l & r' & Hex & Hh & Hnd & Hall & Hch & Hr' & Hout & Hle & Hnet); [lia|done| |].
    { intros x j Hx Hdx. rewrite Hat1, decide_False; [apply Hsame; [done|lia]|]. intros [= -> ->]. lia. }
    exists (l ++ [u]), r'. rewrite rev_app_distr in Hex. simpl in Hex.
    assert (Hfu : forall j, flow_at r' u j = flow_at r1 u j) by (intros j; apply Hout; lia).
    split_and!.
    + rewrite Hex, <- app_assoc. done.
    + by destruct l.
    + apply NoDup_app. split_and!; [done| |apply NoDup_singleton]. intros x Hx ->%list_elem_of_singleton.
      apply elem_of_app in Hx as [Hx|Hx%list_elem_of_singleton]; [|subst; lia].
      rewrite Forall_forall in Hall. apply Hall in Hx. lia.
    + apply Forall_app. split; [|repeat constructor; [done|lia]].
      eapply Forall_impl; [done|]. intros x [? ?]. split; [done|lia].
    + apply chained_snoc; [done|]. exists i, e. split_and!; [done..|congruence|].
      unfold left_on at 1. simpl. rewrite Hfu, Hat1, decide_True by done. simpl. by rewrite Hl0.
    + done.
    + intros x j Hx. rewrite Hout by (intros [? ?]; apply Hx; split; [done|lia]). rewrite Hat1, decide_False; [done|].
      intros [= -> ->]. apply Hx. split; [done|lia].
    + intros x j. etrans; [apply Hle|apply Hle1].
    + intros x. rewrite Hnet, Hnet1, Hto. lia.
Qed.

Lemma left_antisymmetric r a : a ∈ arcs ->
  left_on r (back (shape graph) a) - left_on r (back (shape graph) (back (shape graph) a)) =
  - (left_on r a - left_on r (back (shape graph) a)).
Proof. intros Ha. rewrite back_back' by done. lia. Qed.

(** While flow leaves the source, a path can be extracted. *)
Lemma extract_spec r :
  flows_ok r -> 0 < net_left r source ->
  (forall u, u <> source -> u <> sink -> net_left r u = 0) ->
  exists l r', extract_flow_path graph r source sink = Some (Some l, r') /\
    head l = Some source /\ last l = Some sink /\ NoDup l /\ chained (consumed r r') l /\ flows_ok r' /\
    (forall x j, left_on r' (x, j) <= left_on r (x, j)) /\
    (forall x, net_left r' x = net_left r x - indicator (bool_decide (source = x)) + indicator (bool_decide (sink = x))).
Proof.
  intros Hr Hpos Hcons. unfold extract_flow_path.
  assert (Hheads : forall u i e, arc_at graph u i = Some e -> (edge_to e < length graph)%nat).
  { intros u i e He. destruct (Hok u i e He) as (_ & _ & _ & v & Hv & _). unfold arc_at in Hv.
    destruct (graph !! edge_to e) eqn:E; [|done]. by eapply lookup_lt_Some. }
  destruct (search_from_spec graph source sink
    (fun u i _ => flow ← flow_at r u i; Some (negb (flow =? 0))) (use_left r))
    as (pred & depth & -> & Htree & Hcase); try done.
  { intros u i e He. destruct (Hr u i e He) as (z & Hz & _). unfold use_left, left_on. simpl. by rewrite Hz. }
  cbn [mbind option_bind].
  destruct (lookup_lt_is_Some_2 pred sink) as [slot Hslot]; [by rewrite (tr_length _ _ _ _ _ Htree)|].
  rewrite Hslot. cbn [mbind option_bind]. destruct slot as [x|].
  - assert (Hm : marked pred sink) by by exists x.
    destruct (extract_path_spec r pred depth (length graph) r sink []) as (l & r' & Hex & Hh & Hnd & _ & Hch & Hr' & _ & Hle & Hnet); try done.
    { apply Nat.lt_le_incl. by eapply depth_bound. }
    rewrite app_nil_r in Hex. exists (l ++ [sink]), r'. split_and!; try done. apply last_snoc.
  - exfalso. destruct Hcase as [[y Hy]|[Hns Hcl]]; [congruence|].
    set (S := fun v => bool_decide (marked pred v)).
    pose proof (cut_value arcs (target (shape graph)) (back (shape graph)) (arc_ids_nodup _)
      (back_in' graph Hok) (back_back' graph Hok) (back_tail' graph Hok) (back_target' graph Hok)
      (fun a => left_on r a - left_on r (back (shape graph) a)) (left_antisymmetric r) S (length graph) source sink) as Hcut.
    unfold net_left in Hpos. rewrite <- Hcut in Hpos; clear Hcut; try done.
    + assert (Hneg : forall a, a ∈ crossing arcs (target (shape graph)) S -> 0 <= - (left_on r a - left_on r (back (shape graph) a))).
      { intros [u i] Ha. unfold crossing in Ha. rewrite !filter_in in Ha. destruct Ha as [[Hin Hu] Hv].
        apply bool_decide_eq_true in Hu. apply negb_true_iff, bool_decide_eq_false in Hv.
        pose proof Hin as [e He]%arcs_at. rewrite (target_at _ _ _ _ He) in Hv. simpl in Hu.
        assert (Hz : left_on r (u, i) = 0).
        { destruct (Z.eqb_spec (left_on r (u, i)) 0) as [|Hc]; [done|].
          destruct (Hcl u i e Hu (not_elem_of_nil u) He) as [[]|?]; [|done].
          unfold use_left. by apply negb_true_iff, Z.eqb_neq. }
        pose proof (back_in' graph Hok _ Hin) as Hbin. destruct (back (shape graph) (u, i)) as [v j].
        apply arcs_at in Hbin as [f Hf]. destruct (Hr v j f Hf) as (z & Hz' & ?). unfold left_on in *. simpl in *.
        rewrite Hz'. simpl. lia. }
      apply sum_nonneg in Hneg. rewrite sum_opp in Hneg. lia.
    + intros [u i] [e He]%arcs_at. simpl. unfold arc_at in He. destruct (graph !! u) eqn:E; [|done]. by eapply lookup_lt_Some.
    + apply bool_decide_eq_true, Htree.
    + by apply bool_decide_eq_false.
Qed.

Lemma remaining_flow_at u i :
  flow_at (remaining_flow graph) u i =
  (fun e => saturating_sub (initial_capacity e) (capacity e)) <$> arc_at graph u i.
Proof.
  unfold flow_at, remaining_flow, arc_at. rewrite list_lookup_fmap. destruct (graph !! u); [|done].
  simpl. apply list_lookup_fmap.
Qed.

Lemma remaining_flow_ok : flows_ok (remaining_flow graph).
Proof.
  clear source_ok sink_ok source_ne_sink.
  intros u i e He. rewrite remaining_flow_at, He. eexists. split; [done|].
  destruct (Hok u i e He) as (_ & ? & ? & _). unfold saturating_sub. lia.
Qed.

Lemma remaining_flow_net u : net_left (remaining_flow graph) u = net graph u.
Proof.
  clear source_ok sink_ok source_ne_sink.
  unfold net_left, net, net_flow. apply sum_ext. intros a [Ha _]%filter_in.
  destruct (arc_facts graph Hok a Ha) as (e & r & He & Hr & _ & _ & _ & _ & Hc & Hi).
  unfold left_on, flow_on. rewrite !remaining_flow_at, He, Hr. simpl.
  destruct a as [x j]. destruct (Hok _ _ _ He) as (_ & ? & ? & _). destruct (Hok _ _ _ Hr) as (_ & ? & ? & _).
  unfold saturating_sub. lia.
Qed.

End Extraction.

(** *** Building the graph *)

(** The graph has exactly the given arcs, each once, and carries no flow. *)
Record built (graph : residual) (l : list (nat * nat)) : Prop := {
  b_ok : residual_ok graph;
  b_idle : forall u i e, arc_at graph u i = Some e -> capacity e = initial_capacity e;
  b_arc : forall u v, (u, v) ∈ l <->
    exists i e, arc_at graph u i = Some e /\ edge_to e = v /\ initial_capacity e = 1;
  b_unique : forall u i j e f, arc_at graph u i = Some e -> arc_at graph u j = Some f ->
    initial_capacity e = 1 -> initial_capacity f = 1 -> edge_to e = edge_to f -> i = j
}.

Lemma built_empty n : built (replicate n []) [].
Proof.
  assert (Hno : forall u i, arc_at (replicate n []) u i = None).
  { intros u i. unfold arc_at. destruct (replicate n [] !! u) as [es|] eqn:E; [|done].
    by apply lookup_replicate_1 in E as [-> _]. }
  split.
  - intros u i e He. by rewrite Hno in He.
  - intros u i e He. by rewrite Hno in He.
  - intros u v. split; [by intros ?%not_elem_of_nil|]. intros (i & e & He & _). by rewrite Hno in He.
  - intros u i j e f He. by rewrite Hno in He.
Qed.

Lemma add_residual_edge_spec graph u v :
  u <> v -> (u < length graph)%nat -> (v < length graph)%nat ->
  exists graph' ku kv, add_residual_edge graph u v 1 = Some graph' /\ length graph' = length graph /\
    arc_at graph u ku = None /\ arc_at graph v kv = None /\
    forall x j, arc_at graph' x j =
      if decide ((x, j) = (u, ku)) then
        Some {| edge_to := v; reverse_index := kv; capacity := 1; initial_capacity := 1 |}
      else if decide ((x, j) = (v, kv)) then
        Some {| edge_to := u; reverse_index := ku; capacity := 0; initial_capacity := 0 |}
      else arc_at graph x j.
Proof.
  intros Hne Hu Hv. destruct (lookup_lt_is_Some_2 graph u Hu) as [eu Eu], (lookup_lt_is_Some_2 graph v Hv) as [ev Ev].
  unfold add_residual_edge. rewrite Ev. cbn [mbind option_bind]. rewrite Eu. cbn [mbind option_bind].
  rewrite list_lookup_insert_ne, Ev by done. cbn [mbind option_bind].
  assert (Hsnoc : forall (l : list ResidualEdge) e j, (l ++ [e]) !! j = if decide (j = length l) then Some e else l !! j).
  { intros l e j. case_decide as Hj; [subst; by apply list_lookup_middle|]. destruct (decide (j < length l)%nat).
    - by apply lookup_app_l.
    - rewrite !lookup_ge_None_2; [done|lia|rewrite length_app; simpl; lia]. }
  eexists _, (length eu), (length ev). split_and!; [done|by rewrite !length_insert| | |].
  - unfold arc_at. rewrite Eu. cbn [mbind option_bind]. by apply lookup_ge_None_2.
  - unfold arc_at. rewrite Ev. cbn [mbind option_bind]. by apply lookup_ge_None_2.
  - intros x j. unfold arc_at. destruct (decide (x = v)) as [->|Hxv].
    + rewrite list_lookup_insert_eq by by rewrite length_insert. cbn [mbind option_bind].
      rewrite Hsnoc, Ev. rewrite (decide_False (P := (v, j) = (u, _))) by congruence.
      destruct (decide (j = length ev)) as [->|]; [by rewrite decide_True|]. by rewrite decide_False by congruence.
    + rewrite list_lookup_insert_ne by congruence. rewrite (decide_False (P := (x, j) = (v, _))) by congruence.
      destruct (decide (x = u)) as [->|Hxu].
      * rewrite list_lookup_insert_eq by done. cbn [mbind option_bind]. rewrite Hsnoc, Eu.
        destruct (decide (j = length eu)) as [->|]; [by rewrite decide_True|]. by rewrite decide_False by congruence.
      * rewrite list_lookup_insert_ne by congruence. by rewrite decide_False by congruence.
Qed.

Lemma add_built graph l u v :
  built graph l -> u <> v -> (u < length graph)%nat -> (v < length graph)%nat -> (u, v) ∉ l ->
  exists graph', add_residual_edge graph u v 1 = Some graph' /\ length graph' = length graph /\
    built graph' (l ++ [(u, v)]).
Proof.
  intros [H1 H2 H3 H4] Hne Hu Hv Hl.
  destruct (add_residual_edge_spec graph u v Hne Hu Hv) as (g & ku & kv & -> & Hlen & Hnu & Hnv & Hat).
  exists g. split_and!; [done..|].
  set (fe := {| edge_to := v; reverse_index := kv; capacity := 1; initial_capacity := 1 |}) in *.
  set (be := {| edge_to := u; reverse_index := ku; capacity := 0; initial_capacity := 0 |}) in *.
  assert (Hf : arc_at g u ku = Some fe) by (rewrite Hat, decide_True; done).
  assert (Hb : arc_at g v kv = Some be) by (rewrite Hat, decide_False, decide_True by congruence; done).
  assert (Hold : forall x j e, arc_at graph x j = Some e -> arc_at g x j = Some e).
  { intros x j e He. rewrite Hat, !decide_False; [done|..]; intros [= -> ->]; congruence. }
  assert (Hcase : forall x j e, arc_at g x j = Some e ->
    (x = u /\ j = ku /\ e = fe) \/ (x = v /\ j = kv /\ e = be) \/ arc_at graph x j = Some e).
  { intros x j e. rewrite Hat. case_decide as D1; [injection D1 as -> ->; intros [= <-]; auto|].
    case_decide as D2; [injection D2 as -> ->; intros [= <-]; auto|]. auto. }
  split.
  - intros x j e [(-> & -> & ->)|[(-> & -> & ->)|He]]%Hcase.
    + split_and!; [done|done|done|]. exists be. by split_and!.
    + split_and!; [simpl; congruence|done|done|]. exists fe. by split_and!.
    + destruct (H1 x j e He) as (? & ? & ? & r & Hr & ?). split_and!; [done..|]. exists r. split; [by apply Hold|done].
  - intros x j e [(-> & -> & ->)|[(-> & -> & ->)|He]]%Hcase; [done..|]. by eapply H2.
  - intros x y. rewrite elem_of_app, list_elem_of_singleton, H3. split.
    + intros [(i & e & He & ?)|[= -> ->]]; [exists i, e; split; [by apply Hold|done]|]. by exists ku, fe.
    + intros (i & e & He & Hto & Hi). apply Hcase in He as [(-> & -> & ->)|[(-> & -> & ->)|He]]; [|done|].
      * right. simpl in Hto. congruence.
      * left. by exists i, e.
  - intros x i j e f He Hf' Hie Hif Hto.
    apply Hcase in He as [(-> & -> & ->)|[(-> & -> & ->)|He]], Hf' as [(E1 & E2 & E3)|[(E1 & E2 & E3)|Hf']];
      subst; try done; try (by eapply H4).
    + exfalso. apply Hl, H3. by exists j, f.
    + exfalso. apply Hl, H3. by exists i, e.
Qed.

Lemma built_net graph l u : built graph l -> net graph u = 0.
Proof.
  intros Hb. unfold net, net_flow. apply sum_zero. intros [x j] [_ _]%filter_in. unfold flow_on. simpl.
  destruct (arc_at graph x j) as [e|] eqn:E; [|done]. rewrite (b_idle _ _ Hb _ _ _ E). lia.
Qed.

(** ** Two units *)

Lemma sum_two {A} (f : A -> Z) l a b :
  a <> b -> a ∈ l -> b ∈ l -> f a = 1 -> f b = 1 -> (forall x, x ∈ l -> 0 <= f x) -> 2 <= sum f l.
Proof.
  intros Hab Ha Hb Hfa Hfb Hpos. apply list_elem_of_split in Ha as (l1 & l2 & ->).
  assert (Hb' : b ∈ l1 ++ l2).
  { rewrite elem_of_app, elem_of_cons in Hb. rewrite elem_of_app. destruct Hb as [?|[?|?]]; [by left|congruence|by right]. }
  apply list_elem_of_split in Hb' as (k1 & k2 & Hk). rewrite <- Permutation_middle, Hk, <- Permutation_middle. simpl.
  assert (0 <= sum f (k1 ++ k2)); [|lia]. apply sum_nonneg. intros x Hx. apply Hpos.
  rewrite <- Permutation_middle, Hk, <- Permutation_middle. by do 2 constructor.
Qed.

(** In a graph that carries one unit, a cut without residual capacity is crossed by arcs
    of the given list with the same ends only. *)
Section UnitCut.
Variables (graph g1 : residual) (l : list (nat * nat)) (source sink : nat) (S : nat -> bool).
Hypothesis Hb : built graph l.
Hypothesis Hok : residual_ok g1.
Hypothesis Hsh : shape g1 = shape graph.
Hypothesis Hs : (source < length g1)%nat.
Hypothesis Hne : source <> sink.
Hypothesis Hnet : forall x, net g1 x = indicator (bool_decide (source = x)) - indicator (bool_decide (sink = x)).
Hypothesis HS : S source = true.
Hypothesis HT : S sink = false.
Hypothesis Hcut : forall u i e, arc_at g1 u i = Some e -> S u = true -> S (edge_to e) = false -> capacity e = 0.

Abbreviation across := (crossing (arc_ids (shape g1)) (target (shape g1)) S).

Lemma across_value : sum (flow_on g1) across = 1.
Proof.
  rewrite (cut_value _ _ (back (shape g1)) (arc_ids_nodup _) (back_in' g1 Hok) (back_back' g1 Hok)
    (back_tail' g1 Hok) (back_target' g1 Hok) (flow_on g1) (flow_antisymmetric g1 Hok) S (length g1) source sink); try done.
  - change (net g1 source = 1). rewrite Hnet.
    rewrite (bool_decide_true (source = source)), (bool_decide_false (sink = source)) by congruence. done.
  - intros [u i] [e He]%arcs_at. simpl. unfold arc_at in He. destruct (g1 !! u) eqn:E; [|done]. by eapply lookup_lt_Some.
  - intros u Hu1 Hu2. change (net g1 u = 0). rewrite Hnet. by rewrite !bool_decide_false by congruence.
Qed.

Lemma across_flow a : a ∈ across ->
  exists e, arc_at g1 a.1 a.2 = Some e /\ flow_on g1 a = initial_capacity e /\ 0 <= initial_capacity e.
Proof.
  destruct a as [u i]. unfold crossing. rewrite !filter_in. intros [[[e He]%arcs_at Hu] Hv].
  apply negb_true_iff in Hv. rewrite (target_at _ _ _ _ He) in Hv. exists e. split; [done|].
  unfold flow_on. simpl. rewrite He, (Hcut u i e He Hu Hv). destruct (Hok u i e He) as (_ & _ & ? & _). lia.
Qed.

Lemma across_arc x y : (x, y) ∈ l -> S x = true -> S y = false ->
  exists i, (x, i) ∈ across /\ flow_on g1 (x, i) = 1 /\ target (shape g1) (x, i) = y.
Proof.
  intros (i & e & He & <- & Hi)%(b_arc _ _ Hb) Hx Hy. exists i.
  pose proof (shape_at graph x i) as Hsa. rewrite He, <- Hsh, shape_at in Hsa.
  destruct (arc_at g1 x i) as [e1|] eqn:E1; [|done]. injection Hsa as Hto _ Hini.
  pose proof (target_at _ _ _ _ E1) as Htg.
  assert (Hc : (x, i) ∈ across).
  { unfold crossing. rewrite !filter_in, Htg, Hto. cbn [fst]. rewrite Hx, Hy.
    split_and!; [|done..]. apply arcs_at. by exists e1. }
  destruct (across_flow _ Hc) as (e' & He' & Hfl & _). simpl in He'. rewrite E1 in He'. injection He' as <-.
  split_and!; [done|congruence|congruence].
Qed.

Lemma across_same x y x' y' :
  (x, y) ∈ l -> (x', y') ∈ l -> S x = true -> S y = false -> S x' = true -> S y' = false -> x = x' /\ y = y'.
Proof.
  intros H1 H2 Hx Hy Hx' Hy'.
  destruct (across_arc x y H1 Hx Hy) as (i & Hi & Hfi & Hti), (across_arc x' y' H2 Hx' Hy') as (i' & Hi' & Hfi' & Hti').
  destruct (decide ((x, i) = (x', i'))) as [[= -> ->]|Hd]; [split; congruence|]. exfalso.
  assert (2 <= 1); [|lia]. rewrite <- across_value. apply (sum_two _ _ _ _ Hd); [done..|].
  intros a Ha. destruct (across_flow a Ha) as (e & _ & -> & ?). done.
Qed.

End UnitCut.

(** Either two units flow from the source to the sink, or the arcs across some cut that
    separates them all have the same ends. *)
Lemma two_units graph l source sink :
  built graph l -> (source < length graph)%nat -> (sink < length graph)%nat -> source <> sink ->
  (exists g1 g2, augment_unit_flow graph source sink = Some (true, g1) /\
     augment_unit_flow g1 source sink = Some (true, g2) /\ residual_ok g2 /\ shape g2 = shape graph /\
     forall x, net g2 x = 2 * indicator (bool_decide (source = x)) - 2 * indicator (bool_decide (sink = x))) \/
  ((augment_unit_flow graph source sink = Some (false, graph) \/
    exists g1, augment_unit_flow graph source sink = Some (true, g1) /\
      augment_unit_flow g1 source sink = Some (false, g1)) /\
   exists S : nat -> bool, S source = true /\ S sink = false /\
     forall x y x' y', (x, y) ∈ l -> (x', y') ∈ l -> S x = true -> S y = false -> S x' = true -> S y' = false ->
       x = x' /\ y = y').
Proof.
  intros Hb Hs Ht Hne.
  destruct (augment_spec graph source sink (b_ok _ _ Hb) Hs Ht Hne) as (ok1 & g1 & Ha1 & Hok1 & Hsh1 & Hr1).
  destruct ok1.
  2:{ destruct Hr1 as [-> (S & HS & HT & Hcut)]. right. split; [by left|]. exists S. split_and!; [done..|].
      intros x y x' y' Hxy _ Hx Hy _ _. apply (b_arc _ _ Hb) in Hxy as (i & e & He & <- & Hi).
      pose proof (Hcut x i e He Hx Hy). rewrite (b_idle _ _ Hb _ _ _ He) in *. lia. }
  assert (Hl1 : length g1 = length graph).
  { pose proof (f_equal length Hsh1) as Hl. unfold shape in Hl. by rewrite !length_map in Hl. }
  assert (Hnet1 : forall x, net g1 x = indicator (bool_decide (source = x)) - indicator (bool_decide (sink = x))).
  { intros x. rewrite Hr1, (built_net graph l) by done. lia. }
  destruct (augment_spec g1 source sink Hok1) as (ok2 & g2 & Ha2 & Hok2 & Hsh2 & Hr2); [lia..|done|].
  destruct ok2.
  - left. exists g1, g2. split_and!; [done..|congruence|]. intros x. rewrite Hr2, Hnet1. lia.
  - destruct Hr2 as [-> (S & HS & HT & Hcut)]. right. split; [right; by exists g1|]. exists S. split_and!; [done..|].
    apply (across_same graph g1 l source sink S Hb Hok1 Hsh1); [lia|done..].
Qed.

End Flow.
