(* ===== verification/TopologyDisjoint.v ===== *)
(** * Two disjoint paths (crates/ipars-control-plane/src/bounded_topology.rs)

    The search for two internally vertex-disjoint paths: every node but the two ends is
    split into an entry and an exit joined by an arc of capacity one, two units of flow are
    pushed, and the two paths are read off the flow. The search is exact, and on a
    published topology it never comes back empty handed. *)

From S2P Require Import Prelude RustStd BTree SortBy Hashing Endpoints OverlayTypes Bfs TopologyGraph Articulation TopologySynthesis TopologyBlocks TopologyRouting Flow.
From Stdlib Require Import Sorting.Sorted.

Module Disjoint.
Import TopologyGraph Articulation Synthesis Blocks Routing Flow.

Definition in_index (index : nat) : nat := (index * 2)%nat.
Definition out_index (index : nat) : nat := (index * 2 + 1)%nat.

(** [add_residual_edge] with capacity 1 for each pair in turn. *)
Fixpoint add_unit_edges (graph : residual) (l : list (nat * nat)) : option residual :=
  match l with
  | [] => Some graph
  | (from, to) :: l => graph ← add_residual_edge graph from to 1; add_unit_edges graph l
  end.

Definition node_edges (n source_index destination_index : nat) : list (nat * nat) :=
  map (fun i => (in_index i, out_index i))
    (List.filter (fun i => negb (bool_decide (i = source_index)) && negb (bool_decide (i = destination_index)))
       (seq 0 n)).

(** The links of one node; [None] when a neighbor is unknown. *)
Fixpoint neighbor_edges (indexes : btree NodeId nat) (source_index from_index : nat) (ns : list NodeId)
  : option (list (nat * nat)) :=
  match ns with
  | [] => Some []
  | n :: ns =>
      to_index ← bt_get n indexes;
      rest ← neighbor_edges indexes source_index from_index ns;
      Some (if bool_decide (to_index = source_index) then rest
            else (out_index from_index, in_index to_index) :: rest)
  end.

Fixpoint link_edges (indexes : btree NodeId nat) (source_index destination_index : nat)
    (rows : adjacency_map) : option (list (nat * nat)) :=
  match rows with
  | [] => Some []
  | (node_id, ns) :: rows =>
      from_index ← bt_get node_id indexes;
      if bool_decide (from_index = destination_index)
      then link_edges indexes source_index destination_index rows
      else
        edges ← neighbor_edges indexes source_index from_index (bt_keys ns);
        rest ← link_edges indexes source_index destination_index rows;
        Some (edges ++ rest)
  end.

(** The nodes entered by a path through the network; [None] for an index out of range. *)
Fixpoint entered_nodes (node_ids : list NodeId) (steps : list (nat * nat)) : option (list NodeId) :=
  match steps with
  | [] => Some []
  | (u, v) :: steps =>
      if Nat.odd u && Nat.even v
      then n ← node_ids !! (v / 2)%nat; rest ← entered_nodes node_ids steps; Some (n :: rest)
      else entered_nodes node_ids steps
  end.

Definition path_cmp (l r : list NodeId) : comparison :=
  match Nat.compare (length l) (length r) with Eq => kcmp l r | c => c end.

(** Reads [k] paths off the flow; the inner [None] when one is missing. *)
Fixpoint read_paths (k : nat) (node_ids : list NodeId) (source destination : NodeId) (graph : residual)
    (flow_source flow_sink : nat) (remaining : flows) : option (option (list (list NodeId))) :=
  match k with
  | O => Some (Some [])
  | S k =>
      '(flow_path, remaining) ← extract_flow_path graph remaining flow_source flow_sink;
      match flow_path with
      | None => Some None
      | Some flow_path =>
          entered ← entered_nodes node_ids (windows2 flow_path);
          let node_path := source :: entered in
          if bool_decide (last node_path = Some destination)
          then rest ← read_paths k node_ids source destination graph flow_source flow_sink remaining;
               Some (match rest with Some paths => Some (node_path :: paths) | None => None end)
          else Some None
      end
  end.

Definition two_internally_vertex_disjoint_paths (adj : adjacency_map) (source destination : NodeId)
  : option (option (list NodeId * list NodeId)) :=
  if bool_decide (source = destination) || (lenZ adj <? 3) then Some None
  else
    let node_ids := bt_keys adj in
    let indexes := index_nodes node_ids in
    match bt_get source indexes, bt_get destination indexes with
    | Some source_index, Some destination_index =>
        graph ← add_unit_edges (replicate (length node_ids * 2) [])
                  (node_edges (length node_ids) source_index destination_index);
        match link_edges indexes source_index destination_index adj with
        | None => Some None
        | Some links =>
            graph ← add_unit_edges graph links;
            let flow_source := out_index source_index in
            let flow_sink := in_index destination_index in
            '(ok, graph) ← augment_unit_flow graph flow_source flow_sink;
            if negb ok then Some None
            else
              '(ok, graph) ← augment_unit_flow graph flow_source flow_sink;
              if negb ok then Some None
              else
                paths ← read_paths 2 node_ids source destination graph flow_source flow_sink
                          (remaining_flow graph);
                Some (match option_map (sort_by path_cmp) paths with
                      | Some [primary; secondary] => Some (primary, secondary)
                      | _ => None
                      end)
        end
    | _, _ => Some None
    end.

(** ** The network *)

Lemma add_unit_edges_built graph l k :
  built graph l -> NoDup (l ++ k) ->
  (forall u v, (u, v) ∈ k -> u <> v /\ (u < length graph)%nat /\ (v < length graph)%nat) ->
  exists graph', add_unit_edges graph k = Some graph' /\ length graph' = length graph /\ built graph' (l ++ k).
Proof.
  revert graph l. induction k as [|[u v] k IH]; intros graph l Hb Hnd Hk; simpl.
  { exists graph. by rewrite app_nil_r. }
  destruct (Hk u v) as (Hne & Hu & Hv); [constructor|].
  destruct (add_built graph l u v Hb Hne Hu Hv) as (g & -> & Hlen & Hb').
  { apply NoDup_app in Hnd as (_ & Hd & _). intros Hin. apply (Hd _ Hin). constructor. }
  cbn [mbind option_bind]. destruct (IH g (l ++ [(u, v)])) as (g' & ? & ? & ?); [done| | |].
  - by rewrite <- app_assoc.
  - rewrite Hlen. intros x y Hxy. apply Hk. by constructor.
  - exists g'. rewrite <- app_assoc in *. split_and!; [done|congruence|done].
Qed.

(** ** Disjoint paths *)

Definition path_between (adj : adjacency_map) (a b : NodeId) (p : list NodeId) : Prop :=
  head p = Some a /\ last p = Some b /\ chain (neighbors adj) p /\ NoDup p.

(** Two different paths without a common relay. *)
Definition disjoint_pair (adj : adjacency_map) (a b : NodeId) (p q : list NodeId) : Prop :=
  path_between adj a b p /\ path_between adj a b q /\ p <> q /\
  forall n, n ∈ internal_nodes p -> n ∉ internal_nodes q.

Lemma path_shape (a b : NodeId) p :
  head p = Some a -> last p = Some b -> a <> b -> exists m, p = a :: m ++ [b] /\ internal_nodes p = m.
Proof.
  intros Hh [q ->]%last_Some Hne. destruct q as [|x m]; [by injection Hh|]. injection Hh as ->.
  exists m. split; [done|]. unfold internal_nodes. simpl. rewrite drop_0, length_app. simpl.
  by replace (length m + 1 - 1)%nat with (length m) by lia; rewrite take_app_length.
Qed.

Lemma internal_iff (a b : NodeId) p n :
  head p = Some a -> last p = Some b -> a <> b -> NoDup p ->
  n ∈ internal_nodes p <-> n ∈ p /\ n <> a /\ n <> b.
Proof.
  intros Hh Hl Hne Hnd. destruct (path_shape a b p Hh Hl Hne) as (m & -> & ->).
  apply NoDup_cons in Hnd as [Ha Hnd]. apply NoDup_app in Hnd as (_ & Hb & _).
  rewrite elem_of_cons, elem_of_app, list_elem_of_singleton. split.
  - intros Hn. split_and!; [tauto| |]; intros ->; [apply Ha, elem_of_app; by left|].
    apply (Hb b Hn). constructor.
  - tauto.
Qed.

Lemma windows2_cons {A} (x y : A) l : windows2 (x :: y :: l) = (x, y) :: windows2 (y :: l).
Proof. done. Qed.

(** The only link of a loop-free path that leaves its start leads to the second node. *)
Lemma first_window (a w x : NodeId) l : NoDup (a :: x :: l) -> (a, w) ∈ windows2 (a :: x :: l) -> w = x.
Proof.
  intros Hnd. rewrite windows2_cons. intros [[= ->]|Hin]%elem_of_cons; [done|].
  apply NoDup_cons in Hnd as [Ha _]. destruct Ha.
  by apply windows2_in in Hin as [? _].
Qed.

Section Network.
Variables (adj : adjacency_map) (a b : NodeId) (s d : nat).
Hypothesis Hord : ordered adj.
Hypothesis Hsym : forall u v, v ∈ neighbors adj u -> u ∈ neighbors adj v.
Abbreviation ids := (bt_keys adj).
Hypothesis Hs : bt_keys adj !! s = Some a.
Hypothesis Hd : bt_keys adj !! d = Some b.
Hypothesis Hab : a <> b.

Lemma ids_nodup : NoDup ids.
Proof. apply bt_keys_nodup, Hord. Qed.

Lemma ids_index n : is_Some (bt_get n adj) -> exists i, ids !! i = Some n /\ bt_get n (index_nodes ids) = Some i.
Proof.
  intros Hn. apply bt_keys_get, list_elem_of_lookup_1 in Hn as [i Hi]; [|apply Hord]. exists i.
  split; [done|]. apply index_nodes_lookup; [apply ids_nodup|done].
Qed.

Lemma ids_inj i j n : ids !! i = Some n -> ids !! j = Some n -> i = j.
Proof. intros Hi Hj. eapply NoDup_lookup; [apply ids_nodup|done..]. Qed.

Lemma node_edges_in x y :
  (x, y) ∈ node_edges (length ids) s d <->
  exists i n, ids !! i = Some n /\ n <> a /\ n <> b /\ x = in_index i /\ y = out_index i.
Proof.
  unfold node_edges. rewrite list_elem_of_fmap. setoid_rewrite filter_in. split.
  - intros (i & [= -> ->] & [_ Hi]%elem_of_seq & Hf). rewrite andb_true_iff, !negb_true_iff, !bool_decide_eq_false in Hf.
    destruct (lookup_lt_is_Some_2 ids i Hi) as [n Hn]. exists i, n. destruct Hf as [H1 H2].
    split_and!; [done| | |done|done]; intros ->; [apply H1|apply H2]; by eapply ids_inj.
  - intros (i & n & Hi & Ha & Hb & -> & ->). exists i. split; [done|]. split.
    + apply elem_of_seq. apply lookup_lt_Some in Hi. lia.
    + rewrite !bool_decide_false; [done|..]; intros ->; congruence.
Qed.

Lemma node_edges_nodup : NoDup (node_edges (length ids) s d).
Proof.
  unfold node_edges. apply NoDup_fmap_2_strong.
  - intros i j _ _ [= H _]. unfold in_index in H. lia.
  - apply NoDup_ListNoDup, List.NoDup_filter, NoDup_ListNoDup, NoDup_seq.
Qed.

Lemma neighbor_edges_spec from ns :
  (forall n, n ∈ ns -> is_Some (bt_get n adj)) ->
  exists l, neighbor_edges (index_nodes ids) s from ns = Some l /\
    (forall x y, (x, y) ∈ l <->
       exists w j, w ∈ ns /\ ids !! j = Some w /\ w <> a /\ x = out_index from /\ y = in_index j) /\
    (NoDup ns -> NoDup l).
Proof.
  induction ns as [|n ns IH]; intros Hns; simpl.
  { exists []. split_and!; [done| |constructor]. intros x y. split; [by intros ?%not_elem_of_nil|].
    by intros (w & j & ?%not_elem_of_nil & _). }
  destruct (ids_index n) as (i & Hi & ->); [apply Hns; constructor|]. cbn [mbind option_bind].
  destruct IH as (l & -> & Hin & Hnd); [intros; apply Hns; by constructor|]. cbn [mbind option_bind].
  eexists. split; [done|]. case_bool_decide as His.
  - subst i. assert (n = a) as -> by congruence. split; [|by intros [_ ?]%NoDup_cons; auto].
    intros x y. rewrite Hin. setoid_rewrite elem_of_cons. split; [intros (w & j & ? & ?); exists w, j; tauto|].
    intros (w & j & [->|?] & Hj & Hwa & ?); [done|]. exists w, j. tauto.
  - assert (Hna : n <> a) by (intros ->; apply His; by eapply ids_inj). split.
    + intros x y. rewrite elem_of_cons, Hin. setoid_rewrite elem_of_cons. split.
      * intros [[= -> ->]|(w & j & ? & ?)]; [exists n, i|exists w, j]; tauto.
      * intros (w & j & [->|Hw] & Hj & Hwa & -> & ->); [left; f_equal; f_equal; by eapply ids_inj|].
        right. exists w, j. tauto.
    + intros [Hn Hnd']%NoDup_cons. apply NoDup_cons. split; [|auto].
      rewrite Hin. intros (w & j & Hw & Hj & _ & _ & Hij). unfold in_index in Hij.
      assert (j = i) as -> by lia. assert (w = n) as -> by congruence. done.
Qed.

Lemma link_edges_spec rows :
  (forall u ns, (u, ns) ∈ rows -> bt_get u adj = Some ns) -> NoDup (map fst rows) ->
  exists l, link_edges (index_nodes ids) s d rows = Some l /\
    (forall x y, (x, y) ∈ l <-> exists u ns i w j, (u, ns) ∈ rows /\ ids !! i = Some u /\ u <> b /\
       w ∈ bt_keys ns /\ ids !! j = Some w /\ w <> a /\ x = out_index i /\ y = in_index j) /\
    NoDup l.
Proof.
  induction rows as [|[u ns] rows IH]; intros Hrows Hnd; simpl.
  { exists []. split_and!; [done| |constructor]. intros x y. split; [by intros ?%not_elem_of_nil|].
    by intros (u & ns & i & w & j & ?%not_elem_of_nil & _). }
  apply NoDup_cons in Hnd as [Hu Hnd].
  assert (Hg : bt_get u adj = Some ns) by (apply Hrows; constructor).
  destruct (ids_index u) as (i & Hi & ->); [by rewrite Hg|]. cbn [mbind option_bind].
  destruct IH as (l & Hl & Hin & Hndl); [intros; apply Hrows; by constructor|done|].
  case_bool_decide as Hid.
  - subst i. assert (u = b) as -> by congruence. exists l. split_and!; [done| |done].
    intros x y. rewrite Hin. setoid_rewrite elem_of_cons. split.
    + intros (u & ns' & i & w & j & ? & ?). exists u, ns', i, w, j. tauto.
    + intros (u & ns' & i & w & j & [[= -> ->]|?] & ? & ? & ?); [done|]. exists u, ns', i, w, j. tauto.
  - assert (Hub : u <> b) by (intros ->; apply Hid; by eapply ids_inj).
    assert (Hnk : forall n, n ∈ bt_keys ns -> is_Some (bt_get n adj)).
    { intros n Hn. apply (adj_closed adj Hsym u). unfold neighbors. by rewrite Hg. }
    destruct (neighbor_edges_spec i (bt_keys ns) Hnk) as (k & -> & Hk & Hndk). rewrite Hl. cbn [mbind option_bind].
    eexists. split; [done|]. split.
    + intros x y. rewrite elem_of_app, Hk, Hin. setoid_rewrite elem_of_cons. split.
      * intros [(w & j & ? & ? & ? & -> & ->)|(u' & ns' & i' & w & j & ? & ?)];
          [exists u, ns, i, w, j|exists u', ns', i', w, j]; tauto.
      * intros (u' & ns' & i' & w & j & [[= -> ->]|Hr] & Hi' & Hub' & Hw & Hj & Hwa & -> & ->).
        -- left. exists w, j. split_and!; [done..| |done]. f_equal. by eapply ids_inj.
        -- right. exists u', ns', i', w, j. tauto.
    + apply NoDup_app. split_and!; [apply Hndk, bt_keys_nodup; by eapply Hord| |done].
      intros [x y] (w & j & _ & _ & _ & -> & _)%Hk (u' & ns' & i' & _ & _ & Hr & Hi' & _ & _ & _ & _ & Hx & _)%Hin.
      unfold out_index in Hx. assert (i' = i) as -> by lia. assert (u' = u) as -> by congruence.
      apply Hu. apply list_elem_of_fmap. by exists (u, ns').
Qed.

(** The arcs of the network: through each inner node and along each link. *)
Inductive network : nat -> nat -> Prop :=
| network_node i n : ids !! i = Some n -> n <> a -> n <> b -> network (in_index i) (out_index i)
| network_link i j u w : ids !! i = Some u -> ids !! j = Some w -> w ∈ neighbors adj u -> u <> b -> w <> a ->
    network (out_index i) (in_index j).

Lemma network_built :
  exists g0 links g1, add_unit_edges (replicate (length ids * 2) []) (node_edges (length ids) s d) = Some g0 /\
    link_edges (index_nodes ids) s d adj = Some links /\ add_unit_edges g0 links = Some g1 /\
    length g1 = (length ids * 2)%nat /\
    exists l, built g1 l /\ forall x y, (x, y) ∈ l <-> network x y.
Proof.
  assert (Hlt : forall i n, ids !! i = Some n -> (i < length ids)%nat) by (intros i n; apply lookup_lt_Some).
  destruct (add_unit_edges_built (replicate (length ids * 2) []) [] (node_edges (length ids) s d))
    as (g0 & Hg0 & Hl0 & Hb0); [apply built_empty|apply node_edges_nodup| |].
  { rewrite length_replicate. intros x y (i & n & Hi%Hlt & _ & _ & -> & ->)%node_edges_in. unfold in_index, out_index. lia. }
  rewrite length_replicate in Hl0. simpl in Hb0.
  destruct (link_edges_spec adj) as (links & Hlinks & Hin & Hnd).
  { intros u ns Hu. by apply bt_get_elem; [apply Hord|]. }
  { apply ids_nodup. }
  destruct (add_unit_edges_built g0 _ links Hb0) as (g1 & Hg1 & Hl1 & Hb1).
  { apply NoDup_app. split_and!; [apply node_edges_nodup| |done].
    intros [x y] (i & n & _ & _ & _ & -> & _)%node_edges_in (u & ns & i' & w & j & _ & _ & _ & _ & _ & _ & Hx & _)%Hin.
    unfold in_index, out_index in Hx. lia. }
  { rewrite Hl0. intros x y (u & ns & i & w & j & _ & Hi%Hlt & _ & _ & Hj%Hlt & _ & -> & ->)%Hin.
    unfold in_index, out_index. lia. }
  exists g0, links, g1. split_and!; [done..|congruence|]. eexists. split; [exact Hb1|]. intros x y.
  rewrite elem_of_app, node_edges_in, Hin. split.
  - intros [(i & n & Hi & Hna & Hnb & -> & ->)|(u & ns & i & w & j & Hu & Hi & Hub & Hw & Hj & Hwa & -> & ->)].
    + by eapply network_node.
    + apply bt_get_elem in Hu; [|apply Hord]. eapply network_link; try done. unfold neighbors. by rewrite Hu.
  - destruct 1 as [i n Hi Hna Hnb|i j u w Hi Hj Hw Hub Hwa]; [left; by exists i, n|]. right.
    unfold neighbors in Hw. destruct (bt_get u adj) as [ns|] eqn:E; [|by apply not_elem_of_nil in Hw].
    exists u, ns, i, w, j. split_and!; try done. by apply bt_get_in.
Qed.

(** *** Paths cross every cut *)

Definition crosses (p : list NodeId) (x y : nat) : Prop :=
  (exists i v, ids !! i = Some v /\ v ∈ internal_nodes p /\ x = in_index i /\ y = out_index i) \/
  (exists i j u w, ids !! i = Some u /\ ids !! j = Some w /\ (u, w) ∈ windows2 p /\
     x = out_index i /\ y = in_index j).

Lemma path_node p n : path_between adj a b p -> n ∈ p -> exists i, ids !! i = Some n.
Proof.
  intros (Hh & Hl & Hc & _) Hn.
  assert (Hall : Forall (fun n => exists i, ids !! i = Some n) p).
  { destruct p as [|x p]; [done|]. injection Hh as ->. clear Hl Hn.
    assert (Ha : exists i, ids !! i = Some a) by by exists s. revert Hc Ha. generalize a as x.
    induction p as [|y p IH]; intros x Hc Hx; [by constructor|]. destruct Hc as [Hy Hc]. constructor; [done|].
    apply IH; [done|]. destruct (ids_index y) as (i & Hi & _); [by eapply adj_closed|]. by exists i. }
  rewrite Forall_forall in Hall. by apply Hall.
Qed.

Lemma path_crosses (S : nat -> bool) p :
  path_between adj a b p -> S (out_index s) = true -> S (in_index d) = false ->
  exists x y, network x y /\ S x = true /\ S y = false /\ crosses p x y.
Proof.
  intros Hp HS HT. pose proof Hp as (Hh & Hl & Hc & Hnd).
  assert (Hgen : forall l u i, (forall e, e ∈ windows2 (u :: l) -> e ∈ windows2 p) -> (forall n, n ∈ u :: l -> n ∈ p) ->
    last (u :: l) = Some b -> u <> b -> a ∉ l -> NoDup (u :: l) -> chain (neighbors adj) (u :: l) ->
    ids !! i = Some u -> S (out_index i) = true ->
    exists x y, network x y /\ S x = true /\ S y = false /\ crosses p x y).
  { induction l as [|w l IH]; intros u i Hw Hin Hlast Hub Ha Hndl Hch Hi HSi; [by injection Hlast|].
    apply not_elem_of_cons in Ha as [Haw Ha]. destruct Hch as [Hwu Hch].
    destruct (path_node p w Hp) as [j Hj]; [apply Hin; by do 2 constructor|].
    destruct (S (in_index j)) eqn:Ej.
    - assert (Hwb : w <> b) by (intros ->; assert (j = d) as -> by (by eapply ids_inj); congruence).
      destruct (S (out_index j)) eqn:Eo.
      + apply (IH w j); try done.
        * intros e He. apply Hw. rewrite windows2_cons. by constructor.
        * intros n Hn. apply Hin. by constructor.
        * by apply NoDup_cons in Hndl as [_ ?].
      + exists (in_index j), (out_index j). split_and!; [by eapply network_node|done..|]. left. exists j, w.
        split_and!; [done| |done..]. apply (internal_iff a b); try done. split_and!; [|done..].
        apply Hin. by do 2 constructor.
    - exists (out_index i), (in_index j). split_and!; [by eapply network_link|done..|]. right. exists i, j, u, w.
      split_and!; try done. apply Hw. rewrite windows2_cons. constructor. }
  destruct p as [|x p]; [done|]. injection Hh as ->. apply (Hgen p a s); try done.
  by apply NoDup_cons in Hnd as [? _].
Qed.

Lemma crosses_link p u w :
  path_between adj a b p -> (u, w) ∈ windows2 p ->
  (u <> a -> u ∈ internal_nodes p) /\ (w <> b -> w ∈ internal_nodes p).
Proof.
  intros (Hh & Hl & Hc & Hnd) Hw. pose proof (windows2_in _ _ _ Hw) as [Hu Hwp].
  destruct (path_shape a b p Hh Hl Hab) as (m & -> & Hm). split; intros Hne; apply (internal_iff a b); try done.
  - split_and!; [done..|]. intros ->. change (a :: m ++ [b]) with ((a :: m) ++ [b]) in Hw, Hnd.
    apply NoDup_app in Hnd as (_ & Hd' & _).
    assert (Hin : b ∈ a :: m); [|apply (Hd' b Hin); constructor].
    revert Hw. generalize (a :: m) as q. induction q as [|x q IH]; intros Hq; [by apply not_elem_of_nil in Hq|].
    destruct q as [|y q]; [apply list_elem_of_singleton in Hq as [= -> _]; constructor|].
    change ((x :: y :: q) ++ [b]) with (x :: y :: q ++ [b]) in Hq. rewrite windows2_cons in Hq.
    apply elem_of_cons in Hq as [[= -> _]|Hq]; [constructor|]. constructor. by apply IH.
  - split_and!; [done| |done]. intros ->. apply NoDup_cons in Hnd as [Ha _]. apply Ha.
    destruct (m ++ [b]) as [|y q]; [by apply not_elem_of_nil in Hw|]. rewrite windows2_cons in Hw.
    apply elem_of_cons in Hw as [[= _ ->]|Hw]; [constructor|]. by apply windows2_in in Hw as [_ ?].
Qed.

Lemma in_out i j : in_index i <> out_index j.
Proof. unfold in_index, out_index. lia. Qed.

(** Across a cut that all network arcs cross at the same place, no two paths are disjoint. *)
Lemma cut_not_disjoint S p q :
  (forall x y x' y', network x y -> network x' y' -> S x = true -> S y = false -> S x' = true -> S y' = false ->
     x = x' /\ y = y') ->
  S (out_index s) = true -> S (in_index d) = false -> ~ disjoint_pair adj a b p q.
Proof.
  intros Hu HS HT (Hp & Hq & Hpq & Hdis).
  destruct (path_crosses S p Hp HS HT) as (x & y & Hn & Hx & Hy & Hcp).
  destruct (path_crosses S q Hq HS HT) as (x' & y' & Hn' & Hx' & Hy' & Hcq).
  destruct (Hu x y x' y' Hn Hn' Hx Hy Hx' Hy') as [<- <-].
  destruct Hcp as [(i & v & Hi & Hv & -> & ->)|(i & j & u & w & Hi & Hj & Hw & -> & ->)],
    Hcq as [(i' & v' & Hi' & Hv' & Ex & Ey)|(i' & j' & u' & w' & Hi' & Hj' & Hw' & Ex & Ey)].
  - unfold in_index in Ex. assert (i' = i) as -> by lia. assert (v' = v) as -> by congruence. by apply (Hdis v).
  - by apply in_out in Ex.
  - symmetry in Ex. by apply in_out in Ex.
  - unfold in_index, out_index in Ex, Ey. assert (i' = i) as -> by lia. assert (j' = j) as -> by lia.
    assert (u' = u) as -> by congruence. assert (w' = w) as -> by congruence.
    pose proof (crosses_link p u w Hp Hw) as [Hpu Hpw]. pose proof (crosses_link q u w Hq Hw') as [Hqu Hqw].
    destruct (decide (u = a)) as [->|]; [|by apply (Hdis u); auto].
    destruct (decide (w = b)) as [->|]; [|by apply (Hdis w); auto].
    assert (Hdirect : forall r, path_between adj a b r -> (a, b) ∈ windows2 r -> r = [a; b]).
    { intros r (Hh & Hl & _ & Hnd) Hin. destruct r as [|x [|y r]]; [done|by apply not_elem_of_nil in Hin|].
      injection Hh as ->. pose proof (first_window a b y r Hnd Hin) as <-. destruct r as [|z r]; [done|].
      apply NoDup_cons in Hnd as [_ [Hb _]%NoDup_cons]. destruct Hb. by eapply last_Some_elem_of. }
    apply Hpq. by rewrite (Hdirect p), (Hdirect q).
Qed.

(** A graph that survives every single failure has no such cut. *)
Lemma cut_not_survivable S :
  (forall failed, survives adj failed) -> 3 <= lenZ adj ->
  (forall x y x' y', network x y -> network x' y' -> S x = true -> S y = false -> S x' = true -> S y' = false ->
     x = x' /\ y = y') ->
  S (out_index s) = true -> S (in_index d) = false -> False.
Proof.
  intros Hsv HN Hu HS HT.
  assert (Ha : is_Some (bt_get a adj)) by (apply bt_keys_get; [apply Hord|by eapply list_elem_of_lookup_2]).
  assert (Hb : is_Some (bt_get b adj)) by (apply bt_keys_get; [apply Hord|by eapply list_elem_of_lookup_2]).
  assert (Haround : forall f, f <> a -> f <> b -> exists p, path_between adj a b p /\ f ∉ p).
  { intros f Hfa Hfb. destruct (survives_way adj f a b (Hsv f) Ha Hb) as (p & ? & ? & ? & ? & ?); [congruence..|].
    by exists p. }
  destruct (third_node adj a b Hord HN) as (c & Hc & Hca & Hcb).
  destruct (Haround c Hca Hcb) as (p & Hp & _).
  destruct (path_crosses S p Hp HS HT) as (x & y & Hn & Hx & Hy & Hcr).
  assert (Hsame : forall q, path_between adj a b q -> crosses q x y).
  { intros q Hq. destruct (path_crosses S q Hq HS HT) as (x' & y' & Hn' & Hx' & Hy' & Hcq).
    by destruct (Hu x y x' y' Hn Hn' Hx Hy Hx' Hy') as [-> ->]. }
  assert (Hlink : forall q i j u w, ids !! i = Some u -> ids !! j = Some w -> path_between adj a b q ->
    x = out_index i -> y = in_index j -> (u, w) ∈ windows2 q).
  { intros q i j u w Hi Hj Hq -> ->. destruct (Hsame q Hq) as [(i' & v & _ & _ & Ex & _)|(i' & j' & u' & w' & Hi' & Hj' & Hw & Ex & Ey)].
    - symmetry in Ex. by apply in_out in Ex.
    - unfold in_index, out_index in Ex, Ey. assert (i' = i) as -> by lia. assert (j' = j) as -> by lia.
      assert (u' = u) as -> by congruence. assert (w' = w) as -> by congruence. done. }
  destruct Hcr as [(i & v & Hi & Hv & Ex & Ey)|(i & j & u & w & Hi & Hj & Hw & Ex & Ey)].
  - apply (internal_iff a b) in Hv as (Hvp & Hva & Hvb); [|apply Hp|apply Hp|done|apply Hp].
    destruct (Haround v Hva Hvb) as (q & Hq & Hvq).
    destruct (Hsame q Hq) as [(i' & v' & Hi' & Hv' & Ex' & _)|(i' & j' & u' & w' & _ & _ & _ & Ex' & _)].
    + rewrite Ex in Ex'. unfold in_index in Ex'. assert (i' = i) as -> by lia. assert (v' = v) as -> by congruence.
      apply (internal_iff a b) in Hv' as (? & _); [done|apply Hq|apply Hq|done|apply Hq].
    + rewrite Ex in Ex'. by apply in_out in Ex'.
  - destruct (crosses_link p u w Hp Hw) as [Hpu Hpw].
    assert (Hiff : forall v, v ∈ internal_nodes p -> v <> a /\ v <> b).
    { intros v Hv. apply (internal_iff a b) in Hv as (_ & ? & ?); [done|apply Hp|apply Hp|done|apply Hp]. }
    destruct (decide (u = a)) as [->|Hua].
    2:{ destruct (Hiff u (Hpu Hua)) as [H1 H2]. destruct (Haround u H1 H2) as (q & Hq & Huq). apply Huq.
        by apply (Hlink q i j u w), windows2_in in Hq as [? _]. }
    destruct (decide (w = b)) as [->|Hwb].
    2:{ destruct (Hiff w (Hpw Hwb)) as [H1 H2]. destruct (Haround w H1 H2) as (q & Hq & Huq). apply Huq.
        by apply (Hlink q i j a w), windows2_in in Hq as [_ ?]. }
    destruct (survives_way adj b a c (Hsv b) Ha Hc Hab Hcb) as ([|a' [|z l]] & Hh & Hl & Hch & Hbl & Hnd); [done|..].
    { injection Hh as ->. injection Hl as ->. done. }
    injection Hh as ->. destruct Hch as [Hz _].
    assert (Hzb : z <> b) by (intros ->; apply Hbl; by do 2 constructor).
    assert (Hza : z <> a) by (intros ->; apply NoDup_cons in Hnd as [Hnd _]; apply Hnd; constructor).
    destruct (survives_way adj a z b (Hsv a)) as ([|z' q] & Hh & Hlq & Hchq & Haq & Hndq); try done;
      [by eapply adj_closed|]. injection Hh as ->.
    assert (Hq : path_between adj a b (a :: z :: q)) by (split_and!; [done..|by apply NoDup_cons]).
    apply Hzb. symmetry. apply (first_window a b z q); [apply Hq|]. by apply (Hlink _ i j a b).
Qed.

(** *** Reading the paths *)

Lemma network_from_out i u y : ids !! i = Some u -> network (out_index i) y ->
  exists j w, ids !! j = Some w /\ w ∈ neighbors adj u /\ w <> a /\ y = in_index j.
Proof.
  intros Hi Hn. inversion Hn as [i' n Hi' Hna Hnb Ex|i' j u' w Hi' Hj Hw Hub Hwa Ex]; subst.
  - by apply in_out in Ex.
  - unfold out_index in Ex. assert (i' = i) as -> by lia. assert (u' = u) as -> by congruence.
    by exists j, w.
Qed.

Lemma network_from_in j w z : ids !! j = Some w -> network (in_index j) z -> w <> b /\ z = out_index j.
Proof.
  intros Hj Hn. inversion Hn as [i' n Hi' Hna Hnb Ex|i' j' u' w' Hi' Hj' Hw Hub Hwa Ex]; subst.
  - unfold in_index in Ex. assert (i' = j) as -> by lia. split; [congruence|done].
  - symmetry in Ex. by apply in_out in Ex.
Qed.

Lemma index_parity i : Nat.odd (out_index i) = true /\ Nat.even (in_index i) = true /\
  Nat.odd (in_index i) = false /\ (in_index i / 2 = i)%nat.
Proof.
  unfold in_index, out_index. split_and!.
  - rewrite Nat.odd_spec. exists i. lia.
  - rewrite Nat.even_spec. exists i. lia.
  - rewrite <- Nat.negb_even. apply negb_false_iff, Nat.even_spec. exists i. lia.
  - by rewrite Nat.div_mul.
Qed.

Lemma read_network n l i u :
  (length l <= n)%nat -> ids !! i = Some u -> head l = Some (out_index i) -> last l = Some (in_index d) ->
  NoDup l -> chained network l ->
  exists vs, entered_nodes ids (windows2 l) = Some vs /\ last (u :: vs) = Some b /\
    chain (neighbors adj) (u :: vs) /\ NoDup vs /\ a ∉ vs /\
    (forall v, v ∈ vs -> exists j, ids !! j = Some v /\ in_index j ∈ l /\
       (v = b \/ (in_index j, out_index j) ∈ windows2 l)) /\
    (vs = [b] -> (out_index i, in_index d) ∈ windows2 l).
Proof.
  revert l i u. induction n as [|n IH]; intros l i u Hn Hi Hh Hl Hnd Hc; [by destruct l; [|simpl in Hn; lia]|].
  destruct l as [|x [|y l]]; [done|by injection Hh as ->; injection Hl as Hl; symmetry in Hl; apply in_out in Hl|].
  injection Hh as ->. destruct Hc as [Hxy Hc]. apply NoDup_cons in Hnd as [Hx Hnd].
  destruct (network_from_out i u y Hi Hxy) as (j & w & Hj & Hw & Hwa & ->).
  destruct (index_parity i) as (Ho & _ & _ & _), (index_parity j) as (_ & He & Hoj & Hdiv).
  rewrite windows2_cons. cbn [entered_nodes]. rewrite Ho, He, Hdiv, Hj. cbn [andb mbind option_bind].
  destruct l as [|z l].
  - injection Hl as Hl. assert (j = d) as -> by (unfold in_index in Hl; lia). assert (w = b) as -> by congruence.
    exists [b]. cbn [windows2 entered_nodes mbind option_bind]. split_and!; try done.
    + apply NoDup_singleton.
    + by rewrite list_elem_of_singleton.
    + intros v ->%list_elem_of_singleton. exists d. split_and!; [done|by do 2 constructor|by left].
    + intros _. constructor.
  - destruct Hc as [Hyz Hc]. apply NoDup_cons in Hnd as [Hy Hnd].
    destruct (network_from_in j w z Hj Hyz) as [Hwb ->].
    destruct (IH (out_index j :: l) j w) as (vs & Hvs & Hlast & Hch & Hndv & Hav & Hin & _); try done; [simpl in *; lia|].
    rewrite windows2_cons. cbn [entered_nodes]. rewrite Hoj. cbn [andb]. rewrite Hvs. cbn [mbind option_bind].
    exists (w :: vs). split_and!; try done.
    + apply NoDup_cons. split; [|done]. intros (j' & Hj' & Hinj & _)%Hin.
      assert (j' = j) as -> by (by eapply ids_inj). done.
    + by apply not_elem_of_cons.
    + intros v [->|Hv]%elem_of_cons.
      * exists j. split_and!; [done|by do 2 constructor|]. right. do 2 constructor.
      * destruct (Hin v Hv) as (j' & ? & ? & Hor). exists j'. split_and!; [done|by do 2 constructor|].
        destruct Hor as [?|?]; [by left|]. right. by do 2 constructor.
    + intros [= -> ->]. done.
Qed.

(** *** The two paths *)

Section Reading.
Variables (g1 g2 : residual) (l : list (nat * nat)).
Hypothesis Hb : built g1 l.
Hypothesis Hl : forall x y, (x, y) ∈ l <-> network x y.
Hypothesis Hok : residual_ok g2.
Hypothesis Hsh : shape g2 = shape g1.
Hypothesis Hlen : length g1 = (length ids * 2)%nat.

Lemma shape_back u i e : arc_at g2 u i = Some e ->
  exists e', arc_at g1 u i = Some e' /\ edge_to e' = edge_to e /\ initial_capacity e' = initial_capacity e.
Proof.
  intros He. pose proof (shape_at g2 u i) as Hs2. rewrite He, Hsh, shape_at in Hs2.
  destruct (arc_at g1 u i) as [e'|]; [|done]. injection Hs2 as ? _ ?. by exists e'.
Qed.

Lemma consumed_facts r r' u v : flows_ok g2 r -> consumed g2 r r' u v ->
  network u v /\ exists i e, arc_at g1 u i = Some e /\ edge_to e = v /\ initial_capacity e = 1 /\
    left_on r (u, i) = 1 /\ left_on r' (u, i) = 0.
Proof.
  intros Hr (i & e & He & Hto & Hne & Hr'). destruct (Hr u i e He) as (z & Hz & Hz1).
  destruct (shape_back u i e He) as (e' & He' & Hto' & Hi').
  destruct (b_ok _ _ Hb u i e' He') as (_ & Hc0 & Hi0 & f & Hf & _ & _ & Hc & Hi).
  destruct (b_ok _ _ Hb _ _ _ Hf) as (_ & _ & Hf0 & _).
  assert (Hlz : left_on r (u, i) = z) by (unfold left_on; simpl; by rewrite Hz).
  assert (Hone : initial_capacity e' = 1) by lia. split.
  - apply Hl, (b_arc _ _ Hb). exists i, e'. split_and!; [done|congruence|done].
  - exists i, e'. split_and!; [done|congruence|done|lia|lia].
Qed.

Lemma step_once r r1 r2 l1 l2 u v :
  flows_ok g2 r -> flows_ok g2 r1 -> chained (consumed g2 r r1) l1 -> chained (consumed g2 r1 r2) l2 ->
  (u, v) ∈ windows2 l1 -> (u, v) ∈ windows2 l2 -> False.
Proof.
  intros Hr Hr1 H1 H2 Hw1 Hw2.
  assert (Hgen : forall R l, chained R l -> (u, v) ∈ windows2 l -> R u v).
  { clear. intros R. induction l as [|x [|y l] IH]; intros Hc Hw; try by apply not_elem_of_nil in Hw.
    destruct Hc as [Hxy Hc]. rewrite windows2_cons in Hw. apply elem_of_cons in Hw as [[= -> ->]|Hw]; auto. }
  destruct (consumed_facts _ _ _ _ Hr (Hgen _ _ H1 Hw1)) as (_ & i & e & He & Hto & Hi & _ & Hz).
  destruct (consumed_facts _ _ _ _ Hr1 (Hgen _ _ H2 Hw2)) as (_ & j & f & Hf & Hto' & Hj & Hz' & _).
  assert (i = j) as -> by (eapply (b_unique _ _ Hb); try done; congruence). lia.
Qed.

Lemma chained_network r r' k : flows_ok g2 r -> chained (consumed g2 r r') k -> chained network k.
Proof. intros Hr. apply chained_mono. intros u v _ Hc. by apply consumed_facts in Hc as [? _]. Qed.

Lemma read_paths_spec :
  (forall x, net g2 x = 2 * indicator (bool_decide (out_index s = x)) - 2 * indicator (bool_decide (in_index d = x))) ->
  exists p q, read_paths 2 ids a b g2 (out_index s) (in_index d) (remaining_flow g2) = Some (Some [p; q]) /\
    disjoint_pair adj a b p q.
Proof.
  intros Hnet. set (r0 := remaining_flow g2).
  assert (Hr0 : flows_ok g2 r0) by by apply remaining_flow_ok.
  assert (Hlen2 : length g2 = (length ids * 2)%nat).
  { rewrite <- Hlen. pose proof (f_equal length Hsh) as H. unfold shape in H. by rewrite !length_map in H. }
  assert (Hso : (out_index s < length g2)%nat) by (apply lookup_lt_Some in Hs; unfold out_index; lia).
  assert (Hdo : (in_index d < length g2)%nat) by (apply lookup_lt_Some in Hd; unfold in_index; lia).
  assert (Hne : out_index s <> in_index d) by (intros E; symmetry in E; by apply in_out in E).
  assert (Hn0 : forall x, net_left g2 r0 x = 2 * indicator (bool_decide (out_index s = x)) - 2 * indicator (bool_decide (in_index d = x))).
  { intros x. unfold r0. by rewrite remaining_flow_net. }
  destruct (extract_spec g2 Hok _ _ Hso Hdo Hne r0 Hr0) as (l1 & r1 & Hx1 & Hh1 & Hl1 & Hnd1 & Hc1 & Hr1 & _ & Hn1).
  { rewrite Hn0, bool_decide_true, bool_decide_false by congruence. simpl. lia. }
  { intros u Hu1 Hu2. rewrite Hn0, !bool_decide_false by congruence. done. }
  destruct (extract_spec g2 Hok _ _ Hso Hdo Hne r1 Hr1) as (l2 & r2 & Hx2 & Hh2 & Hl2 & Hnd2 & Hc2 & Hr2 & _ & _).
  { rewrite Hn1, Hn0, bool_decide_true, bool_decide_false by congruence. simpl. lia. }
  { intros u Hu1 Hu2. rewrite Hn1, Hn0, !bool_decide_false by congruence. done. }
  destruct (read_network _ l1 s a (le_n _) Hs Hh1 Hl1 Hnd1 (chained_network _ _ _ Hr0 Hc1))
    as (v1 & Hv1 & Hla1 & Hch1 & Hndv1 & Hav1 & Hin1 & Hdir1).
  destruct (read_network _ l2 s a (le_n _) Hs Hh2 Hl2 Hnd2 (chained_network _ _ _ Hr1 Hc2))
    as (v2 & Hv2 & Hla2 & Hch2 & Hndv2 & Hav2 & Hin2 & Hdir2).
  exists (a :: v1), (a :: v2). split.
  - cbn [read_paths]. rewrite Hx1. cbn [mbind option_bind]. rewrite Hv1. cbn [mbind option_bind].
    rewrite bool_decide_true by done. rewrite Hx2. cbn [mbind option_bind]. rewrite Hv2. cbn [mbind option_bind].
    by rewrite bool_decide_true.
  - assert (Hp1 : path_between adj a b (a :: v1)) by (split_and!; [done..|by apply NoDup_cons]).
    assert (Hp2 : path_between adj a b (a :: v2)) by (split_and!; [done..|by apply NoDup_cons]).
    assert (Hdis : forall n, n ∈ internal_nodes (a :: v1) -> n ∉ internal_nodes (a :: v2)).
    { intros n H1 H2. apply (internal_iff a b) in H1 as (H1 & Hna & Hnb); [|apply Hp1|apply Hp1|done|apply Hp1].
      apply (internal_iff a b) in H2 as (H2 & _); [|apply Hp2|apply Hp2|done|apply Hp2].
      apply elem_of_cons in H1 as [?|H1]; [done|]. apply elem_of_cons in H2 as [?|H2]; [done|].
      destruct (Hin1 n H1) as (j & Hj & _ & [?|Hw1]); [done|]. destruct (Hin2 n H2) as (j' & Hj' & _ & [?|Hw2]); [done|].
      assert (j' = j) as -> by (by eapply ids_inj). by eapply (step_once r0 r1 r2 l1 l2). }
    split_and!; [done..| |done]. intros [= Heq]. subst v2.
    destruct (path_shape a b (a :: v1)) as (m & Hm & Hint); [apply Hp1|apply Hp1|done|]. injection Hm as ->.
    destruct m as [|n m]; [eapply (step_once r0 r1 r2 l1 l2); try done; [by apply Hdir1|by apply Hdir2]|].
    rewrite Hint in Hdis. apply (Hdis n); constructor.
Qed.

End Reading.

(** The network arcs across some cut between the ends all have the same ends. *)
Definition bottleneck : Prop :=
  exists S : nat -> bool, S (out_index s) = true /\ S (in_index d) = false /\
    forall x y x' y', network x y -> network x' y' -> S x = true -> S y = false -> S x' = true -> S y' = false ->
      x = x' /\ y = y'.

Lemma sort_pair (p q : list NodeId) :
  exists p' q', sort_by path_cmp [p; q] = [p'; q'] /\ (length p' <= length q')%nat /\
    (p' = p /\ q' = q \/ p' = q /\ q' = p).
Proof.
  simpl. unfold path_cmp at 1. destruct (Nat.compare_spec (length p) (length q)) as [E|E|E].
  - destruct (kcmp p q); [exists p, q|exists p, q|exists q, p]; split_and!; auto; lia.
  - exists p, q. split_and!; auto; lia.
  - exists q, p. split_and!; auto; lia.
Qed.

Lemma disjoint_pair_sym p q : disjoint_pair adj a b p q -> disjoint_pair adj a b q p.
Proof. intros (? & ? & ? & Hd'). split_and!; [done..|congruence|]. intros n Hq Hp. by apply (Hd' n). Qed.

Lemma two_paths_cases :
  3 <= lenZ adj ->
  (exists p q, two_internally_vertex_disjoint_paths adj a b = Some (Some (p, q)) /\
     disjoint_pair adj a b p q /\ (length p <= length q)%nat) \/
  (two_internally_vertex_disjoint_paths adj a b = Some None /\ bottleneck).
Proof.
  intros HN. unfold two_internally_vertex_disjoint_paths.
  rewrite bool_decide_false by done. destruct (Z.ltb_spec (lenZ adj) 3); [lia|]. cbn [orb].
  rewrite (proj2 (index_nodes_lookup ids a s ids_nodup) Hs), (proj2 (index_nodes_lookup ids b d ids_nodup) Hd).
  destruct network_built as (g0 & links & g1 & -> & -> & Hg1 & Hlen & l & Hb & Hl). cbn [mbind option_bind].
  rewrite Hg1. cbn [mbind option_bind].
  assert (Hso : (out_index s < length g1)%nat) by (apply lookup_lt_Some in Hs; unfold out_index; lia).
  assert (Hdo : (in_index d < length g1)%nat) by (apply lookup_lt_Some in Hd; unfold in_index; lia).
  assert (Hne : out_index s <> in_index d) by (intros E; symmetry in E; by apply in_out in E).
  destruct (two_units g1 l _ _ Hb Hso Hdo Hne) as [(h1 & h2 & -> & H2 & Hok & Hsh & Hnet)|[Hfail (S & HS & HT & Hcut)]].
  - left. cbn [mbind option_bind negb]. rewrite H2. cbn [mbind option_bind negb].
    destruct (read_paths_spec g1 h2 l Hb Hl Hok Hsh Hlen Hnet) as (p & q & -> & Hdis). cbn [mbind option_bind option_map].
    destruct (sort_pair p q) as (p' & q' & -> & Hle & [[-> ->]|[-> ->]]); eexists _, _; split_and!; try done.
    by apply disjoint_pair_sym.
  - right. split.
    + destruct Hfail as [->|(h1 & -> & Hf)]; cbn [mbind option_bind negb]; [done|]. by rewrite Hf.
    + exists S. split_and!; [done..|]. intros x y x' y' Hxy%Hl Hxy'%Hl. by apply Hcut.
Qed.

End Network.

Lemma chain_keys adj x l :
  (forall u v, v ∈ neighbors adj u -> u ∈ neighbors adj v) -> is_Some (bt_get x adj) ->
  chain (neighbors adj) (x :: l) -> Forall (fun n => is_Some (bt_get n adj)) (x :: l).
Proof.
  intros Hsym. revert x. induction l as [|y l IH]; intros x Hx Hc; [by constructor|].
  destruct Hc as [Hy Hc]. constructor; [done|]. apply IH; [by eapply adj_closed|done].
Qed.

Lemma path_keys adj a b p n :
  (forall u v, v ∈ neighbors adj u -> u ∈ neighbors adj v) -> a <> b -> path_between adj a b p -> n ∈ p ->
  is_Some (bt_get n adj).
Proof.
  intros Hsym Hab (Hh & Hl & Hc & _) Hn. destruct p as [|x [|y p]]; [done|by simplify_eq/=|].
  assert (Hx : is_Some (bt_get x adj)) by (destruct Hc as [Hy _]; by eapply adj_closed, Hsym).
  pose proof (chain_keys adj x (y :: p) Hsym Hx Hc) as Hall. rewrite Forall_forall in Hall. by apply Hall.
Qed.

Lemma same_end_not_disjoint adj a p q : ~ disjoint_pair adj a a p q.
Proof.
  intros (Hp & Hq & Hne & _). apply Hne.
  assert (H : forall r, path_between adj a a r -> r = [a]).
  { intros r (Hh & Hl & _ & Hnd). destruct r as [|x [|y r]]; [done|by injection Hh as ->|].
    injection Hh as ->. apply NoDup_cons in Hnd as [Hnd _]. destruct Hnd. by eapply last_Some_elem_of. }
  by rewrite (H p), (H q).
Qed.

Lemma small_not_disjoint adj a b p q :
  (forall u v, v ∈ neighbors adj u -> u ∈ neighbors adj v) -> ordered adj -> lenZ adj < 3 ->
  ~ disjoint_pair adj a b p q.
Proof.
  intros Hsym Hord HN Hdp. destruct (decide (a = b)) as [->|Hab]; [by apply same_end_not_disjoint in Hdp|].
  destruct Hdp as (Hp & Hq & Hne & _). apply Hne.
  assert (H : forall r, path_between adj a b r -> r = [a; b]).
  { intros r Hr. pose proof Hr as (Hh & Hl & _ & Hnd). destruct (path_shape a b r Hh Hl Hab) as ([|n m] & -> & Hint); [done|].
    exfalso. destruct (proj1 (internal_iff a b _ n Hh Hl Hab Hnd)) as (Hn & Hna & Hnb); [rewrite Hint; constructor|].
    assert (Hsub : [a; b; n] ⊆+ bt_keys adj).
    { apply NoDup_submseteq.
      - repeat (apply NoDup_cons; split); [| | |constructor]; rewrite ?elem_of_cons, ?elem_of_nil; naive_solver.
      - intros x Hx. apply bt_keys_get; [apply Hord|]. eapply (path_keys adj a b); try done.
        rewrite !elem_of_cons, elem_of_nil in Hx. destruct Hx as [->|[->|[->|[]]]]; [by constructor| |done].
        apply (last_Some_elem_of _ _ Hl). }
    apply submseteq_length in Hsub. unfold bt_keys in Hsub. rewrite length_map in Hsub. simpl in Hsub. lia. }
  by rewrite (H p), (H q).
Qed.

(** The search for two disjoint paths is exact on every undirected graph: it ends
    without panicking, what it returns are two different loop-free paths between the two
    nodes without a common relay, the shorter one first, and it returns nothing only when
    there are no two such paths. *)
Theorem two_disjoint_paths_exact adj a b :
  ordered adj -> (forall u v, v ∈ neighbors adj u -> u ∈ neighbors adj v) ->
  match two_internally_vertex_disjoint_paths adj a b with
  | None => False
  | Some (Some (p, q)) => disjoint_pair adj a b p q /\ (length p <= length q)%nat
  | Some None => forall p q, ~ disjoint_pair adj a b p q
  end.
Proof.
  intros Hord Hsym. destruct (decide (a = b)) as [->|Hab].
  { unfold two_internally_vertex_disjoint_paths. rewrite bool_decide_true by done. cbn [orb].
    intros p q. apply same_end_not_disjoint. }
  destruct (Z.ltb_spec (lenZ adj) 3) as [HN|HN].
  { unfold two_internally_vertex_disjoint_paths. rewrite (proj2 (Z.ltb_lt _ _) HN), orb_true_r.
    intros p q. by apply small_not_disjoint. }
  destruct (decide (a ∈ bt_keys adj /\ b ∈ bt_keys adj)) as [[Ha Hb]|Hno].
  - apply list_elem_of_lookup_1 in Ha as [s Hs], Hb as [d Hd].
    destruct (two_paths_cases adj a b s d Hord Hsym Hs Hd Hab HN) as [(p & q & -> & ? & ?)|[-> (S & HS & HT & Hcut)]]; [done|].
    intros p q. by eapply (cut_not_disjoint adj a b s d Hord Hsym Hs Hd Hab S p q).
  - assert (Hnp : forall p q, ~ disjoint_pair adj a b p q).
    { intros p q (Hp & _). apply Hno. pose proof Hp as (Hh & Hl & _). rewrite !bt_keys_get by apply Hord.
      split; eapply (path_keys adj a b p); try done; [by destruct p; [|injection Hh as ->; constructor]|].
      by eapply last_Some_elem_of. }
    unfold two_internally_vertex_disjoint_paths. rewrite bool_decide_false by done.
    destruct (Z.ltb_spec (lenZ adj) 3); [lia|]. cbn [orb].
    destruct (bt_get a (index_nodes (bt_keys adj))) as [i|] eqn:Ei; [|done].
    destruct (bt_get b (index_nodes (bt_keys adj))) as [j|] eqn:Ej; [|done].
    exfalso. apply Hno. apply index_nodes_lookup in Ei, Ej; try apply ids_nodup, Hord.
    split; by eapply list_elem_of_lookup_2.
Qed.

Lemma two_disjoint_paths_exact_witness :
  exists p q, two_internally_vertex_disjoint_paths sample_graph (bstr "a") (bstr "c") = Some (Some (p, q)) /\
    disjoint_pair sample_graph (bstr "a") (bstr "c") p q.
Proof.
  assert (Hsym : forall u v, v ∈ neighbors sample_graph u -> u ∈ neighbors sample_graph v)
    by (apply symmetric_iff; [exact sample_graph_ordered|vm_compute; reflexivity]).
  pose proof (two_disjoint_paths_exact sample_graph (bstr "a") (bstr "c") sample_graph_ordered Hsym) as Hx.
  destruct (two_internally_vertex_disjoint_paths sample_graph (bstr "a") (bstr "c")) as [[[p q]|]|] eqn:E.
  - exists p, q. split; [reflexivity|exact (proj1 Hx)].
  - vm_compute in E. discriminate E.
  - destruct Hx.
Defined.

End Disjoint.
