(* ===== verification/TopologyPaths.v ===== *)
(** * Cached paths over the published backbone (crates/ipars-control-plane/src/bounded_topology.rs)

    The query for a primary and a secondary path: predecessors per source and paths per
    pair are computed over node indexes once and kept. The cached query gives the answer of
    the uncached reference, and on a published topology of three or more nodes that answer
    is always a pair of vertex-disjoint paths. [None] stands for a panic or an exhausted
    bound; the optional results of the code are values inside it. *)

From S2P Require Import Prelude RustStd BTree SortBy Hashing Endpoints OverlayTypes Bfs IndexedSearch TopologyGraph Articulation TopologySynthesis TopologyBlocks TopologyRouting Flow TopologyDisjoint.

Module Paths.
Import TopologyGraph Articulation Synthesis Blocks Routing Disjoint.

Record IndexedSecondaryPath : Type := { indexed_kind : SecondaryPathKind; indexed_nodes : list nat }.

Record IndexedTopologyPaths : Type := {
  indexed_primary : list nat;
  indexed_secondary : option IndexedSecondaryPath
}.

Definition index_path (path : list NodeId) (node_indexes : btree NodeId nat) : option (list nat) :=
  mapM (fun n => bt_get n node_indexes) path.

Definition materialize_indexed_path (path : list nat) (node_ids : list NodeId) : option (list NodeId) :=
  mapM (fun i => node_ids !! i) path.

Definition from_paths (paths : TopologyPaths) (node_indexes : btree NodeId nat)
  : option IndexedTopologyPaths :=
  primary ← index_path (primary paths) node_indexes;
  secondary ← match secondary paths with
              | Some sp => nodes ← index_path (nodes sp) node_indexes;
                           Some (Some {| indexed_kind := kind sp; indexed_nodes := nodes |})
              | None => Some None
              end;
  Some {| indexed_primary := primary; indexed_secondary := secondary |}.

Definition materialize (paths : IndexedTopologyPaths) (node_ids : list NodeId) : option TopologyPaths :=
  primary ← materialize_indexed_path (indexed_primary paths) node_ids;
  secondary ← match indexed_secondary paths with
              | Some sp => nodes ← materialize_indexed_path (indexed_nodes sp) node_ids;
                           Some (Some {| kind := indexed_kind sp; nodes := nodes |})
              | None => Some None
              end;
  Some {| primary := primary; secondary := secondary |}.

(** The walk back along the predecessors; the inner [None] when one is missing. *)
Fixpoint reconstruct_indexed_loop (fuel source_index cursor : nat) (predecessors : list (option nat))
    (reversed : list nat) : option (option (list nat)) :=
  if bool_decide (cursor = source_index) then Some (Some (rev reversed))
  else match fuel with
       | O => None
       | S fuel =>
           match mjoin (predecessors !! cursor) with
           | None => Some None
           | Some cursor => reconstruct_indexed_loop fuel source_index cursor predecessors (reversed ++ [cursor])
           end
       end.

Definition reconstruct_indexed_path (source_index destination_index : nat) (predecessors : list (option nat))
  : option (option (list nat)) :=
  reconstruct_indexed_loop (length predecessors) source_index destination_index predecessors [destination_index].

(** The cache: a slot per source, and in it a slot per destination. *)
Record CachedSourcePaths : Type := {
  cached_predecessors : list (option nat);
  by_destination : list (option (option IndexedTopologyPaths))
}.

Abbreviation path_cache := (list (option CachedSourcePaths)).

Definition path_cache_new (node_count : nat) : path_cache := replicate node_count None.

Section Queries.
  Variable t : BoundedTopology.

Definition indexed_shortest_path_predecessors (source_index : nat) : option (option (list (option nat))) :=
  match indexed_adjacency t !! source_index with
  | None => Some None
  | Some _ =>
      predecessors ← set_slot (replicate (length (indexed_adjacency t)) None) source_index source_index;
      predecessors ← indexed_search (fun current => indexed_adjacency t !! current)
                       (fun current _ => Some current)
                       (S (length (indexed_adjacency t))) predecessors [source_index];
      Some (Some predecessors)
  end.

Definition paths_from_primary (source destination : NodeId) (primary : list NodeId) : option TopologyPaths :=
  if bool_decide (source = destination) then Some {| primary := primary; secondary := None |}
  else
    let secondary := secondary_path (adjacency t) source destination primary in
    match secondary with
    | Some {| kind := VertexDisjoint |} => Some {| primary := primary; secondary := secondary |}
    | _ =>
        two ← two_internally_vertex_disjoint_paths (adjacency t) source destination;
        Some match two with
             | Some (p, q) => {| primary := p; secondary := Some {| kind := VertexDisjoint; nodes := q |} |}
             | None => {| primary := primary; secondary := secondary |}
             end
    end.

(** The reference that the unit tests compare with. *)
Definition uncached_paths (source destination : NodeId) : option (option TopologyPaths) :=
  match shortest_path (adjacency t) source destination with
  | None => Some None
  | Some primary => ps ← paths_from_primary source destination primary; Some (Some ps)
  end.

Definition compute_pair_paths (source_index destination_index : nat) (predecessors : list (option nat))
  : option (option IndexedTopologyPaths) :=
  match routing_node_ids t !! source_index, routing_node_ids t !! destination_index with
  | Some source, Some destination =>
      indexes ← reconstruct_indexed_path source_index destination_index predecessors;
      match indexes ≫= (fun l => materialize_indexed_path l (routing_node_ids t)) with
      | None => Some None
      | Some primary =>
          ps ← paths_from_primary source destination primary;
          Some (from_paths ps (routing_node_indexes t))
      end
  | _, _ => Some None
  end.

Definition compute_paths_from (source_index : nat) : option CachedSourcePaths :=
  predecessors ← indexed_shortest_path_predecessors source_index;
  Some {| cached_predecessors := default [] predecessors;
          by_destination := replicate (length (routing_node_ids t)) None |}.

Definition cached_paths_from (source_index : nat) (cache : path_cache)
  : option (option CachedSourcePaths * path_cache) :=
  match cache !! source_index with
  | None => Some (None, cache)
  | Some (Some cached) => Some (Some cached, cache)
  | Some None =>
      computed ← compute_paths_from source_index;
      Some (Some computed, <[source_index := Some computed]> cache)
  end.

(** [get_or_init] on the slot of a pair, in the entry that the cache shares. *)
Definition pair_paths (source_index destination_index : nat) (source_paths : CachedSourcePaths)
    (cache : path_cache) : option (option IndexedTopologyPaths * path_cache) :=
  match by_destination source_paths !! destination_index with
  | None => Some (None, cache)
  | Some (Some cached) => Some (cached, cache)
  | Some None =>
      computed ← compute_pair_paths source_index destination_index (cached_predecessors source_paths);
      Some (computed,
            <[source_index := Some
                {| cached_predecessors := cached_predecessors source_paths;
                   by_destination := <[destination_index := Some computed]> (by_destination source_paths) |}]> cache)
  end.

Definition paths (source destination : NodeId) (cache : path_cache)
  : option (option TopologyPaths * path_cache) :=
  match bt_get source (routing_node_indexes t), bt_get destination (routing_node_indexes t) with
  | Some source_index, Some destination_index =>
      '(source_paths, cache) ← cached_paths_from source_index cache;
      match source_paths with
      | None => Some (None, cache)
      | Some source_paths =>
          '(indexed, cache) ← pair_paths source_index destination_index source_paths cache;
          Some (indexed ≫= (fun ps => materialize ps (routing_node_ids t)), cache)
      end
  | _, _ => Some (None, cache)
  end.

(** ** The walk back over indexes *)

Hypothesis Hok : routing_ok t.
Abbreviation adj := (adjacency t).
Abbreviation ids := (routing_node_ids t).
Abbreviation in_order := (Forall2 (fun (i : nat) (n : NodeId) => routing_node_ids t !! i = Some n)).

Lemma materialize_in_order l p : in_order l p -> materialize_indexed_path l ids = Some p.
Proof. intros H. by apply mapM_Some. Qed.

Lemma index_in_order p : (forall n, n ∈ p -> is_Some (bt_get n adj)) ->
  exists l, index_path p (routing_node_indexes t) = Some l /\ in_order l p.
Proof.
  induction p as [|n p IH]; intros Hp; [by exists []|].
  destruct (node_index t Hok n) as (i & Hi & Hix); [apply Hp; constructor|].
  destruct IH as (l & Hl & Hin); [intros; apply Hp; by constructor|].
  exists (i :: l). split; [|by constructor]. unfold index_path in *. simpl. by rewrite Hix, Hl.
Qed.

(** Indexing a result and reading it back changes nothing. *)
Lemma from_paths_roundtrip ps :
  (forall n, n ∈ primary ps -> is_Some (bt_get n adj)) ->
  (forall sp n, secondary ps = Some sp -> n ∈ nodes sp -> is_Some (bt_get n adj)) ->
  exists ips, from_paths ps (routing_node_indexes t) = Some ips /\ materialize ips ids = Some ps.
Proof.
  intros H1 H2. destruct ps as [p [[k q]|]]; unfold from_paths; cbn [primary secondary kind nodes] in *.
  - destruct (index_in_order p H1) as (l & -> & Hl). destruct (index_in_order q (fun n => H2 _ n eq_refl)) as (m & -> & Hm).
    cbn [mbind option_bind]. eexists. split; [done|]. unfold materialize.
    cbn [indexed_primary indexed_secondary indexed_nodes indexed_kind].
    rewrite (materialize_in_order l p), (materialize_in_order m q) by done. done.
  - destruct (index_in_order p H1) as (l & -> & Hl). cbn [mbind option_bind]. eexists. split; [done|].
    unfold materialize. cbn [indexed_primary indexed_secondary]. by rewrite (materialize_in_order l p).
Qed.

(** The predecessors of a search from [a], by index. *)
Definition predecessors_of (a : NodeId) (r : btree NodeId (NodeId * nat)) (preds : list (option nat)) : Prop :=
  slots_ok ids (fun _ i (w : NodeId * nat) => ids !! i = Some w.1) (routing_fuel t) preds r /\
  length preds = length ids.

Lemma indexed_length : length (indexed_adjacency t) = length ids.
Proof. rewrite (ro_indexed t Hok). apply length_map. Qed.

Lemma predecessors_ok s a :
  ids !! s = Some a ->
  exists preds r, indexed_shortest_path_predecessors s = Some (Some preds) /\ predecessors_of a r preds /\
    bfs (neighbors adj) tracked (search_fuel adj) [(a, (a, O))] [a] = Some r.
Proof.
  intros Hs. unfold indexed_shortest_path_predecessors. rewrite indexed_length.
  destruct (indexed_neighbors t Hok s a Hs) as (ns & -> & _).
  set (R := fun (_ : nat) (i : nat) (w : NodeId * nat) => ids !! i = Some w.1).
  rewrite (set_slot_in t _ s a) by (done || exact (slots_in t R 0 _ [] (start_slots t R 0))).
  cbn [mbind option_bind].
  destruct (bfs_total (neighbors adj) a (S (length ids)) ids) as [r Hr].
  { by eapply list_elem_of_lookup_2. }
  { intros n x Hx. apply (ro_nodes t Hok). by eapply neighbor_key. }
  { lia. }
  destruct (indexed_search_sim ids (ro_nodup t Hok) (fun current => indexed_adjacency t !! current)
    (neighbors adj) (indexed_neighbors t Hok) (fun current _ => Some current) tracked R (routing_fuel t))
    with (fuel := S (length ids)) (k := O) (slots := <[s := Some s]> (replicate (length ids) (@None nat)))
         (m := [(a, (a, O))]) (q := [s]) (q' := [a]) (r := r) as (preds & Hp & Hsl).
  - done.
  - intros k i n v w _ Hi _. exists i. split; [done|]. exact Hi.
  - unfold routing_fuel. lia.
  - apply (slots_ok_insert ids (ro_nodup t Hok) R O _ [] s a s (a, O)); [done|exact Hs|apply start_slots].
  - apply (queue_ok_push ids [] [] [] s a (a, O)); [done|]. by split.
  - done.
  - rewrite Hp. cbn [mbind option_bind]. exists preds, r.
    destruct (distances_total adj a) as [r' Hr'].
    rewrite (bfs_fuel_irrelevant _ _ _ _ _ _ _ _ Hr' Hr) in Hr'. split_and!; try done. split; [done|].
    apply indexed_search_length in Hp. by rewrite Hp, length_insert, length_replicate.
Qed.

(** The walk back over indexes gives the indexes of the path that follows the predecessors. *)
Lemma reconstruct_loop_ok s a r preds fuel l x i rest :
  ids !! s = Some a -> bt_wf r -> predecessors_of a r preds ->
  head (l ++ [x]) = Some a -> NoDup (l ++ [x]) -> chain (children r) (l ++ [x]) -> ids !! i = Some x ->
  (length l <= fuel)%nat ->
  exists k, reconstruct_indexed_loop fuel s i preds (rest ++ [i]) = Some (Some (k ++ [i] ++ rev rest)) /\ in_order k l.
Proof.
  intros Hs Hwf [Hsl Hlen]. revert fuel x i rest. induction l as [|y l IH] using rev_ind; intros fuel x i rest Hh Hnd Hc Hi Hf.
  - injection Hh as ->. assert (i = s) as -> by (eapply NoDup_lookup; [apply Hok|done..]). exists [].
    destruct fuel; cbn [reconstruct_indexed_loop]; rewrite bool_decide_true by done; by rewrite rev_app_distr.
  - rewrite length_app in Hf. simpl in Hf. destruct fuel as [|fuel]; [lia|]. cbn [reconstruct_indexed_loop].
    apply NoDup_app in Hnd as (Hnd & Hdis & _).
    assert (Hxa : x <> a).
    { intros ->. apply (Hdis a); [|constructor]. destruct l; injection Hh as ->; constructor. }
    rewrite bool_decide_false by (intros ->; congruence).
    rewrite <- app_assoc in Hc. apply chain_app_inv in Hc as [Hc [d Hd]%children_in]; [|done].
    destruct (Hsl i x Hi) as (o & Ho & HR). rewrite Hd in HR. inversion HR as [j w Hj Hoj Hw|]; subst.
    rewrite Ho. cbn [mjoin option_join]. simpl in Hj.
    destruct (IH fuel y j (rest ++ [i])) as (k & Hk & Hin); try done; [by destruct l|lia|].
    exists (k ++ [j]). split; [|apply Forall2_app; [done|by repeat constructor]].
    rewrite Hk, rev_app_distr, <- app_assoc. done.
Qed.

Lemma reconstruct_ok s a j b preds r p :
  ids !! s = Some a -> ids !! j = Some b -> predecessors_of a r preds ->
  bfs (neighbors adj) tracked (search_fuel adj) [(a, (a, O))] [a] = Some r ->
  shortest_path adj a b = Some p ->
  exists l, reconstruct_indexed_path s j preds = Some (Some l) /\ in_order l p.
Proof.
  intros Hs Hj Hp Hr Hpath. pose proof Hp as [_ Hlen]. unfold reconstruct_indexed_path.
  pose proof (shortest_path_avoiding_spec adj a b [] []) as Hspec. unfold shortest_path in Hpath. rewrite Hpath in Hspec.
  destruct Hspec as [(Ha & Hb & Hh & Hl & Hc & _) [Hnd _]].
  assert (Htree : chain (children r) p).
  { destruct (decide (a = b)) as [<-|Hab].
    - destruct p as [|x [|y p]]; [done..|]. injection Hh as ->. apply NoDup_cons in Hnd as [Hnd _]. destruct Hnd.
      by eapply last_Some_elem_of.
    - eapply (shortest_path_avoiding_tree adj a b [] []); try done.
      rewrite <- Hr. apply bfs_ext. intros u. apply allowed_all. }
  apply last_Some in Hl as [l ->].
  destruct (reconstruct_loop_ok s a r preds (length preds) l b j []) as (k & Hk & Hin); try done.
  { by eapply (sr_wf _ _ _ (bfs_correct _ _ _ _ Hr)). }
  { assert (Hsub : l ++ [b] ⊆+ ids).
    { apply NoDup_submseteq; [done|]. intros n Hn. apply (ro_nodes t Hok).
      assert (Hc' : chain (neighbors adj) (l ++ [b])).
      { eapply chain_mono; [|exact Hc]. intros u v Hv. by rewrite allowed_all in Hv. }
      destruct (l ++ [b]) as [|x m]; [done|]. injection Hh as ->.
      pose proof (chain_keys adj a m (ro_symmetric t Hok) Ha Hc') as Hall. rewrite Forall_forall in Hall. auto. }
    apply submseteq_length in Hsub. rewrite length_app in Hsub. simpl in Hsub. lia. }
  simpl in Hk. exists (k ++ [j]). split; [done|]. apply Forall2_app; [done|by repeat constructor].
Qed.

(** ** The paths of a pair *)

Definition known_paths (ps : TopologyPaths) : Prop :=
  (forall n, n ∈ primary ps -> is_Some (bt_get n adj)) /\
  (forall sp n, secondary ps = Some sp -> n ∈ nodes sp -> is_Some (bt_get n adj)).

Lemma route_known un ue a b p n : route adj a b un ue p -> n ∈ p -> is_Some (bt_get n adj).
Proof.
  intros (Ha & _ & Hh & _ & Hc & _) Hn. destruct p as [|x p]; [done|]. injection Hh as ->.
  assert (Hc' : chain (neighbors adj) (a :: p)).
  { eapply chain_mono; [|exact Hc]. intros u v Hv. by apply allowed_neighbors in Hv as [? _]. }
  pose proof (chain_keys adj a p (ro_symmetric t Hok) Ha Hc') as Hall. rewrite Forall_forall in Hall. auto.
Qed.

Lemma shortest_route a b p : shortest_path adj a b = Some p -> route adj a b [] [] p /\ NoDup p.
Proof.
  intros Hp. pose proof (shortest_path_avoiding_spec adj a b [] []) as Hs. unfold shortest_path in Hp.
  rewrite Hp in Hs. tauto.
Qed.

Lemma secondary_known a b p sp n :
  secondary_path adj a b p = Some sp -> n ∈ nodes sp -> is_Some (bt_get n adj).
Proof.
  unfold secondary_path.
  pose proof (shortest_path_avoiding_spec adj a b (bs_of_list (internal_nodes p)) (path_edges p)) as H1.
  destruct (shortest_path_avoiding adj a b (bs_of_list _) _) as [q|].
  - intros [= <-] Hn. by eapply route_known; [apply H1|].
  - pose proof (shortest_path_avoiding_spec adj a b [] (path_edges p)) as H2.
    destruct (shortest_path_avoiding adj a b [] _) as [q|]; [|done].
    intros [= <-] Hn. by eapply route_known; [apply H2|].
Qed.

(** A vertex-disjoint secondary path makes a disjoint pair. *)
Lemma secondary_disjoint a b p q :
  a <> b -> shortest_path adj a b = Some p ->
  secondary_path adj a b p = Some {| kind := VertexDisjoint; nodes := q |} -> disjoint_pair adj a b p q.
Proof.
  intros Hab Hp%shortest_route Hq. destruct Hp as [Hr Hnd]. unfold secondary_path in Hq.
  pose proof (shortest_path_avoiding_spec adj a b (bs_of_list (internal_nodes p)) (path_edges p)) as H1.
  destruct (shortest_path_avoiding adj a b (bs_of_list _) _) as [q'|];
    [injection Hq as ->|by destruct (shortest_path_avoiding adj a b [] _)].
  destruct H1 as [Hrq [Hndq _]].
  assert (Hch : forall un ue l, chain (allowed adj un ue) l -> chain (neighbors adj) l).
  { intros un ue l. apply chain_mono. intros u v Hv. by apply allowed_neighbors in Hv as [? _]. }
  pose proof Hr as (_ & _ & Hh & Hl & Hc & _). pose proof Hrq as (_ & _ & Hhq & Hlq & Hcq & Hun).
  split_and!.
  - split_and!; [done..|by eapply Hch|done].
  - split_and!; [done..|by eapply Hch|done].
  - intros <-. pose proof (chain_edge_disjoint _ _ _ _ Hcq) as Hd.
    destruct p as [|x [|y p]]; [done|injection Hh as ->; by injection Hl|].
    assert (Hxy : x <> y) by (apply NoDup_cons in Hnd as [Hx _]; intros ->; apply Hx; constructor).
    assert (He : exists e, edge_new x y = Some e).
    { unfold edge_new. rewrite bool_decide_false by done. by destruct (kcmp x y); eexists. }
    destruct He as [e E].
    apply (Hd e); apply list_elem_of_omap; exists (x, y); (split; [constructor|done]).
  - intros n Hn Hnq. rewrite Forall_forall in Hun.
    assert (Hin : n ∈ q) by (by apply (internal_iff a b) in Hnq as [? _]).
    specialize (Hun n Hin). assert (Hmem : bs_mem n (bs_of_list (internal_nodes p)) = true) by by apply bs_of_list_mem.
    congruence.
Qed.

Lemma disjoint_known a b p q : a <> b -> disjoint_pair adj a b p q ->
  known_paths {| primary := p; secondary := Some {| kind := VertexDisjoint; nodes := q |} |}.
Proof.
  intros Hab (Hp & Hq & _). split; cbn [primary secondary].
  - intros n Hn. by eapply (path_keys adj a b p); [apply Hok|..].
  - intros sp n [= <-] Hn. by eapply (path_keys adj a b q); [apply Hok|..].
Qed.

Lemma two_paths_published a b :
  a <> b -> is_Some (bt_get a adj) -> is_Some (bt_get b adj) ->
  (3 <= lenZ ids /\ exists p q, two_internally_vertex_disjoint_paths adj a b = Some (Some (p, q)) /\
     disjoint_pair adj a b p q) \/
  (lenZ ids < 3 /\ two_internally_vertex_disjoint_paths adj a b = Some None).
Proof.
  intros Hab Ha Hb. rewrite (nodes_length t Hok). destruct (Z.ltb_spec (lenZ adj) 3) as [HN|HN].
  { right. split; [done|]. unfold two_internally_vertex_disjoint_paths. by rewrite (proj2 (Z.ltb_lt _ _) HN), orb_true_r. }
  left. split; [done|]. pose proof (ro_ordered t Hok) as Hord.
  apply bt_keys_get, list_elem_of_lookup_1 in Ha as [s Hs]; [|apply Hord].
  apply bt_keys_get, list_elem_of_lookup_1 in Hb as [d Hd]; [|apply Hord].
  destruct (two_paths_cases adj a b s d Hord (ro_symmetric t Hok) Hs Hd Hab HN) as [(p & q & H1 & H2 & _)|[_ (S & HS & HT & Hcut)]].
  - by exists p, q.
  - exfalso. by eapply (cut_not_survivable adj a b s d Hord (ro_symmetric t Hok) Hs Hd Hab S (ro_survives t Hok)).
Qed.

(** The result for a pair: always known nodes, and vertex disjoint from three nodes on. *)
Lemma paths_from_primary_ok a b p :
  is_Some (bt_get a adj) -> is_Some (bt_get b adj) -> shortest_path adj a b = Some p ->
  exists ps, paths_from_primary a b p = Some ps /\ known_paths ps /\
    (a <> b -> 3 <= lenZ ids -> exists p' q, ps = {| primary := p'; secondary := Some {| kind := VertexDisjoint; nodes := q |} |} /\
       disjoint_pair adj a b p' q).
Proof.
  intros Ha Hb Hp. pose proof (shortest_route a b p Hp) as [Hr _].
  assert (Hkp : forall n, n ∈ p -> is_Some (bt_get n adj)) by (intros n; by eapply route_known).
  unfold paths_from_primary. case_bool_decide as Hab; [eexists; split_and!; [done|split; [done|done]|done]|].
  assert (Htwo : exists ps, (two ← two_internally_vertex_disjoint_paths adj a b;
      Some match two with
           | Some (p, q) => {| primary := p; secondary := Some {| kind := VertexDisjoint; nodes := q |} |}
           | None => {| primary := p; secondary := secondary_path adj a b p |}
           end) = Some ps /\ known_paths ps /\
    (a <> b -> 3 <= lenZ ids -> exists p' q, ps = {| primary := p'; secondary := Some {| kind := VertexDisjoint; nodes := q |} |} /\
       disjoint_pair adj a b p' q)).
  { destruct (two_paths_published a b Hab Ha Hb) as [(_ & p' & q & -> & Hd)|[HN ->]]; cbn [mbind option_bind]; eexists.
    - split_and!; [done|by eapply disjoint_known|]. intros _ _. by exists p', q.
    - split_and!; [done| |lia]. split; [done|]. intros sp n. apply secondary_known. }
  destruct (secondary_path adj a b p) as [[k q]|] eqn:Es; [|exact Htwo]. destruct k; [|exact Htwo].
  pose proof (secondary_disjoint a b p q Hab Hp Es) as Hd.
  eexists. split_and!; [done|by eapply disjoint_known|]. intros _ _. by exists p, q.
Qed.

Lemma pair_ok s j a b preds r :
  ids !! s = Some a -> ids !! j = Some b -> predecessors_of a r preds ->
  bfs (neighbors adj) tracked (search_fuel adj) [(a, (a, O))] [a] = Some r ->
  exists ips ps, compute_pair_paths s j preds = Some (Some ips) /\ materialize ips ids = Some ps /\
    uncached_paths a b = Some (Some ps).
Proof.
  intros Hs Hj Hp Hr.
  assert (Ha : is_Some (bt_get a adj)) by (apply (ro_nodes t Hok); by eapply list_elem_of_lookup_2).
  assert (Hb : is_Some (bt_get b adj)) by (apply (ro_nodes t Hok); by eapply list_elem_of_lookup_2).
  destruct (ro_connected t Hok a b Ha Hb) as [p Hpath].
  destruct (reconstruct_ok s a j b preds r p Hs Hj Hp Hr Hpath) as (l & Hl & Hin).
  destruct (paths_from_primary_ok a b p Ha Hb Hpath) as (ps & Hps & [Hk1 Hk2] & _).
  destruct (from_paths_roundtrip ps Hk1 Hk2) as (ips & Hips & Hm). exists ips, ps.
  unfold compute_pair_paths, uncached_paths. rewrite Hs, Hj, Hl, Hpath. cbn [mbind option_bind].
  rewrite (materialize_in_order l p Hin), Hps. cbn [mbind option_bind]. by rewrite Hips.
Qed.

(** ** Queries *)

Definition source_ok (s : nat) (c : CachedSourcePaths) : Prop :=
  exists a r, ids !! s = Some a /\ predecessors_of a r (cached_predecessors c) /\
    bfs (neighbors adj) tracked (search_fuel adj) [(a, (a, O))] [a] = Some r /\
    length (by_destination c) = length ids /\
    forall j o, by_destination c !! j = Some (Some o) ->
      compute_pair_paths s j (cached_predecessors c) = Some o.

Definition path_cache_ok (cache : path_cache) : Prop :=
  length cache = length ids /\ forall s c, cache !! s = Some (Some c) -> source_ok s c.

Lemma path_cache_insert cache s c :
  path_cache_ok cache -> source_ok s c -> path_cache_ok (<[s := Some c]> cache).
Proof.
  intros [Hl Hc] Hs. split; [by rewrite length_insert|]. intros s' c' H.
  destruct (decide (s = s')) as [<-|Hne].
  - destruct (lookup_lt_is_Some_2 cache s) as [x Hx].
    { apply lookup_lt_Some in H. by rewrite length_insert in H. }
    rewrite list_lookup_insert_eq in H by by eapply lookup_lt_Some. by injection H as <-.
  - rewrite list_lookup_insert_ne in H by done. by apply Hc.
Qed.

Lemma cached_paths_ok s a cache :
  path_cache_ok cache -> ids !! s = Some a ->
  exists c cache', cached_paths_from s cache = Some (Some c, cache') /\ source_ok s c /\ path_cache_ok cache'.
Proof.
  intros Hc Hs. pose proof Hc as [Hl Hcc]. unfold cached_paths_from.
  destruct (lookup_lt_is_Some_2 cache s) as [slot Hslot]; [rewrite Hl; by eapply lookup_lt_Some|].
  rewrite Hslot. destruct slot as [c|]; [exists c, cache; split_and!; [done|by apply Hcc|done]|].
  destruct (predecessors_ok s a Hs) as (preds & r & Hp & Hpo & Hr). unfold compute_paths_from. rewrite Hp.
  cbn [mbind option_bind default].
  set (c := {| cached_predecessors := preds; by_destination := replicate (length ids) None |}).
  assert (Hsc : source_ok s c).
  { exists a, r. split_and!; [done..|apply length_replicate|]. intros j o Hj.
    by apply lookup_replicate_1 in Hj as [? _]. }
  exists c, (<[s := Some c]> cache). split_and!; [done..|by apply path_cache_insert].
Qed.

Lemma pair_paths_ok s j b c cache :
  source_ok s c -> path_cache_ok cache -> ids !! j = Some b ->
  exists ips cache', pair_paths s j c cache = Some (Some ips, cache') /\ path_cache_ok cache' /\
    compute_pair_paths s j (cached_predecessors c) = Some (Some ips).
Proof.
  intros Hs Hc Hj. pose proof Hs as (a & r & Ha & Hp & Hr & Hl & Hby). unfold pair_paths.
  destruct (lookup_lt_is_Some_2 (by_destination c) j) as [slot Hslot]; [rewrite Hl; by eapply lookup_lt_Some|].
  destruct (pair_ok s j a b _ r Ha Hj Hp Hr) as (ips & ps & Hcomp & _). rewrite Hslot. destruct slot as [o|].
  - pose proof (Hby j o Hslot) as Ho. rewrite Hcomp in Ho. injection Ho as <-. by exists ips, cache.
  - rewrite Hcomp. cbn [mbind option_bind]. eexists ips, _. split_and!; [done| |done].
    apply path_cache_insert; [done|]. exists a, r. cbn [cached_predecessors by_destination].
    split_and!; [done..|by rewrite length_insert|]. intros j' o Hj'. destruct (decide (j = j')) as [<-|Hne].
    + rewrite list_lookup_insert_eq in Hj' by by eapply lookup_lt_Some. by injection Hj' as <-.
    + rewrite list_lookup_insert_ne in Hj' by done. by apply Hby.
Qed.

Lemma paths_ok a b cache :
  path_cache_ok cache ->
  exists res cache', paths a b cache = Some (res, cache') /\ path_cache_ok cache' /\ uncached_paths a b = Some res.
Proof.
  intros Hc. unfold paths. rewrite (ro_indexes t Hok).
  assert (Hno : forall n, bt_get n (index_nodes ids) = None -> bt_get n adj = None).
  { intros n Hn. destruct (bt_get n adj) as [x|] eqn:E; [|done].
    destruct (node_index t Hok n) as (i & _ & Hi); [by rewrite E|]. rewrite (ro_indexes t Hok) in Hi. congruence. }
  destruct (bt_get a (index_nodes ids)) as [s|] eqn:Ea.
  2:{ exists None, cache. split_and!; [done..|]. unfold uncached_paths, shortest_path, shortest_path_avoiding, contains_key.
      by rewrite (Hno a Ea). }
  destruct (bt_get b (index_nodes ids)) as [j|] eqn:Eb.
  2:{ exists None, cache. split_and!; [done..|]. unfold uncached_paths, shortest_path, shortest_path_avoiding, contains_key.
      rewrite (Hno b Eb). by rewrite orb_true_r. }
  apply index_nodes_lookup in Ea, Eb; try apply Hok.
  destruct (cached_paths_ok s a cache Hc Ea) as (c & cache1 & -> & Hs & Hc1). cbn [mbind option_bind].
  destruct (pair_paths_ok s j b c cache1 Hs Hc1 Eb) as (ips & cache2 & -> & Hc2 & Hcomp). cbn [mbind option_bind].
  destruct Hs as (a' & r & Ha' & Hp & Hr & _). rewrite Ea in Ha'. injection Ha' as <-.
  destruct (pair_ok s j a b _ r Ea Eb Hp Hr) as (ips' & ps & Hcomp' & Hm & Hu).
  rewrite Hcomp in Hcomp'. injection Hcomp' as <-. exists (Some ps), cache2. by rewrite Hm.
Qed.

End Queries.

(** The caches that queries leave behind. *)
Inductive path_cache_reachable (t : BoundedTopology) : path_cache -> Prop :=
| path_cache_start : path_cache_reachable t (path_cache_new (length (routing_node_ids t)))
| path_cache_query source destination cache result cache' :
    path_cache_reachable t cache -> paths t source destination cache = Some (result, cache') ->
    path_cache_reachable t cache'.

Lemma path_cache_reachable_ok t cache : routing_ok t -> path_cache_reachable t cache -> path_cache_ok t cache.
Proof.
  intros Hok. induction 1 as [|a b cache res cache' _ IH Hq].
  - split; [apply length_replicate|]. intros s c Hs. by apply lookup_replicate_1 in Hs as [? _].
  - destruct (paths_ok t Hok a b cache IH) as (res' & c & Hp & Hc & _). congruence.
Qed.

(** C34: On a published topology the cached path query over node indexes never panics and,
    from every cache that earlier queries left behind, gives the answer of the uncached
    reference over node identifiers. *)
Theorem paths_match_reference `{DigestOps} config nodes t cache a b :
  synthesize_ids config nodes = Some (Ok t) -> path_cache_reachable t cache ->
  exists result cache', paths t a b cache = Some (result, cache') /\ uncached_paths t a b = Some result.
Proof.
  intros [Hok _]%published_routing Hc.
  destruct (paths_ok t Hok a b cache (path_cache_reachable_ok t cache Hok Hc)) as (res & c & Hp & _ & Hu). eauto.
Qed.

(** C4: On a published topology of three or more nodes, every two different nodes get two
    loop-free paths that share no relay: whichever relay fails, one of them survives. *)
Theorem paths_vertex_disjoint `{DigestOps} config nodes t cache a b :
  synthesize_ids config nodes = Some (Ok t) -> 3 <= lenZ nodes -> path_cache_reachable t cache ->
  a ∈ nodes -> b ∈ nodes -> a <> b ->
  exists p q cache', paths t a b cache =
      Some (Some {| primary := p; secondary := Some {| kind := VertexDisjoint; nodes := q |} |}, cache') /\
    disjoint_pair (adjacency t) a b p q.
Proof.
  intros [Hok Hperm]%published_routing HN Hc Ha Hb Hab.
  assert (Hkey : forall n, n ∈ nodes -> is_Some (bt_get n (adjacency t))).
  { intros n Hn. apply (ro_nodes t Hok). by rewrite Hperm. }
  destruct (paths_ok t Hok a b cache (path_cache_reachable_ok t cache Hok Hc)) as (res & c & -> & _ & Hu).
  unfold uncached_paths in Hu. destruct (ro_connected t Hok a b (Hkey a Ha) (Hkey b Hb)) as [p Hp]. rewrite Hp in Hu.
  destruct (paths_from_primary_ok t Hok a b p (Hkey a Ha) (Hkey b Hb) Hp) as (ps & Hps & _ & Hd). rewrite Hps in Hu.
  injection Hu as <-. destruct (Hd Hab) as (p' & q & -> & Hpair); [by rewrite Hperm|]. by exists p', q, c.
Qed.

Lemma paths_match_reference_witness :
  exists t res cache, @synthesize_ids sample_digest (config_new 4) sample_members = Some (Ok t) /\
    paths t (bstr "node-0") (bstr "node-3") (path_cache_new (length (routing_node_ids t))) = Some (res, cache) /\
    uncached_paths t (bstr "node-0") (bstr "node-3") = Some res.
Proof.
  assert (Hr : match @synthesize_ids sample_digest (config_new 4) sample_members with
               | Some (Ok _) => true | _ => false end = true) by (vm_compute; reflexivity).
  destruct (@synthesize_ids sample_digest (config_new 4) sample_members) as [[t|e]|] eqn:E;
    [|discriminate Hr|discriminate Hr].
  destruct (@paths_match_reference sample_digest (config_new 4) sample_members t _ (bstr "node-0") (bstr "node-3") E
    (path_cache_start t)) as (res & cache & H1 & H2).
  exists t, res, cache. split_and!; [reflexivity|exact H1|exact H2].
Defined.

Lemma paths_vertex_disjoint_witness :
  exists t p q cache, @synthesize_ids sample_digest (config_new 4) sample_members = Some (Ok t) /\
    paths t (bstr "node-0") (bstr "node-3") (path_cache_new (length (routing_node_ids t))) =
      Some (Some {| primary := p; secondary := Some {| kind := VertexDisjoint; nodes := q |} |}, cache) /\
    disjoint_pair (adjacency t) (bstr "node-0") (bstr "node-3") p q.
Proof.
  assert (Hr : match @synthesize_ids sample_digest (config_new 4) sample_members with
               | Some (Ok _) => true | _ => false end = true) by (vm_compute; reflexivity).
  destruct (@synthesize_ids sample_digest (config_new 4) sample_members) as [[t|e]|] eqn:E;
    [|discriminate Hr|discriminate Hr].
  destruct (@paths_vertex_disjoint sample_digest (config_new 4) sample_members t (path_cache_new (length (routing_node_ids t))) (bstr "node-0") (bstr "node-3") E)
    as (p & q & cache & H1 & H2).
  - vm_compute. congruence.
  - apply path_cache_start.
  - apply (bool_decide_eq_true_1 (bstr "node-0" ∈ sample_members)). vm_compute. reflexivity.
  - apply (bool_decide_eq_true_1 (bstr "node-3" ∈ sample_members)). vm_compute. reflexivity.
  - discriminate.
  - exists t, p, q, cache. split_and!; [reflexivity|exact H1|exact H2].
Defined.

End Paths.
