(* ===== verification/JoinTokens.v ===== *)
(** * Join tokens (crates/ipars-types/src/lib.rs)

    The claims of a join token, the checks on their shape, the envelope of the signature and
    the ledger's record of a token. Times are nanoseconds; the [base64] crate is an interface. *)

From S2P Require Import Prelude RustStd Endpoints OverlayTypes BTree Signal.

(** The two engines of the [base64] crate the sources use: the standard alphabet with padding
    and the URL-safe one without. *)
Class Base64Ops : Type := {
  b64_encode : bytes -> bytes;
  b64_decode : bytes -> option bytes;
  b64url_encode : bytes -> bytes;
  b64url_decode : bytes -> option bytes
}.

(** What the crate documents: decoding gives back what was encoded, and an encoding with
    padding takes four characters for three bytes. *)
Class Base64Laws {B : Base64Ops} : Prop := {
  b64_roundtrip : forall bs, b64_decode (b64_encode bs) = Some bs;
  b64_length : forall bs, lenZ (b64_encode bs) = (lenZ bs + 2) / 3 * 4
}.

Module JoinTokens.
Import Endpoints.

Definition MAX_JOIN_TOKEN_TAGS : Z := 64.
Definition MAX_JOIN_TOKEN_ALLOWED_ROUTES : Z := 256.
Definition MAX_JOIN_TOKEN_TTL_SECONDS : Z := 30 * 24 * 60 * 60.
Definition JOIN_TOKEN_NOT_BEFORE_SKEW_SECONDS : Z := 5.
Definition MAX_JOIN_TOKEN_VALIDITY_SECONDS : Z := MAX_JOIN_TOKEN_TTL_SECONDS + JOIN_TOKEN_NOT_BEFORE_SKEW_SECONDS.
Definition ED25519_SIGNATURE_BYTES : Z := 64.
Definition ED25519_SIGNATURE_BASE64_BYTES : Z := 88.

Inductive claim_label : Type :=
  | ClusterIdLabel | IssuerLabel | KeyIdLabel | RoleLabel | NonceLabel | TagLabel | AllowedTagLabel.

Inductive restricted_reason : Type := Unrestricted | Unspecified | Loopback | LinkLocal | Multicast | Broadcast.

(** The envelope of a signature: [Ed25519SignatureValidationError]. *)
Inductive signature_error : Type := SignatureLength | SignatureBase64 | SignatureDecodes (length : Z) | SignatureNotCanonical.

Section Tokens.
Context {Net : IpNetOps} {Build : IpNetBuildOps} {UO : UrlOps} {B64 : Base64Ops}.

Record JoinTokenClaims : Type := {
  cluster_id : bytes;
  bootstrap_endpoints : list BootstrapEndpoint;
  expires_at : Z;
  not_before : Z;
  role : bytes;
  tags : list bytes;
  issuer : NodeId;
  key_id : bytes;
  policy : Overlay.TokenPolicy;
  nonce : bytes
}.

(** The texts of [JoinTokenClaimsValidationError]. *)
Inductive claims_error : Type :=
  | IdentifierEmpty (label : claim_label)
  | IdentifierTooLong (label : claim_label)
  | IdentifierCharacters (label : claim_label)
  | TooManyTags (label : claim_label) (count : Z)
  | TooManyRoutes (count : Z)
  | RouteRestricted (index : Z) (reason : restricted_reason) (route : IpNet)
  | RouteNotCanonical (index : Z) (canonical route : IpNet)
  | RouteDuplicate (index : Z) (canonical : IpNet)
  | RouteOverlaps (canonical overlap : IpNet)
  | ExpiresBeforeStart
  | ValidityTooLong
  | BootstrapInvalid (reason : JoinTokenBootstrapValidationError).

Definition is_time_valid (c : JoinTokenClaims) (now : Z) : bool := (not_before c <=? now) && (now <? expires_at c).

Definition claim_byte (b : byte) : bool := is_ascii_alphanumeric b || bool_decide (b ∈ [x5f; x2e; x2d]).

Definition validate_join_token_claim_identifier (value : bytes) (label : claim_label) : result unit claims_error :=
  if bool_decide (value = []) then Err (IdentifierEmpty label)
  else if Overlay.MAX_JOIN_TOKEN_IDENTIFIER_BYTES <? lenZ value then Err (IdentifierTooLong label)
  else if negb (forallb claim_byte value) then Err (IdentifierCharacters label)
  else Ok tt.

Fixpoint claim_tags_loop (label : claim_label) (tags : list bytes) : result unit claims_error :=
  match tags with
  | [] => Ok tt
  | tag :: tags => let? _ := validate_join_token_claim_identifier tag label in claim_tags_loop label tags
  end.

Definition validate_join_token_claim_tags (tags : list bytes) (label : claim_label) : result unit claims_error :=
  if MAX_JOIN_TOKEN_TAGS <? lenZ tags then Err (TooManyTags label (lenZ tags)) else claim_tags_loop label tags.

(** [join_token_ipv4_route_cidrs_overlap] and [join_token_ipv6_route_cidrs_overlap] *)
Definition same_family_overlap (l r : IpNet) : bool :=
  ipnet_contains l (ipnet_network r) || ipnet_contains l (ipnet_broadcast r)
  || ipnet_contains r (ipnet_network l) || ipnet_contains r (ipnet_broadcast l).

Definition join_token_route_cidrs_overlap (l r : IpNet) : bool :=
  eqb (ipnet_is_v4 l) (ipnet_is_v4 r) && same_family_overlap l r.

Definition first_restricted (network : IpNet) (restricted : list (IpNet * restricted_reason)) : option restricted_reason :=
  snd <$> List.find (fun r => same_family_overlap network r.1) restricted.

Definition restricted_join_token_ipv4_route_cidr_reason (network : IpNet) : option restricted_reason :=
  first_restricted network
    [(ipnet_new_assert (IpV4 0) 8, Unspecified); (ipnet_new_assert (IpV4 0x7F000000) 8, Loopback);
     (ipnet_new_assert (IpV4 0xA9FE0000) 16, LinkLocal); (ipnet_new_assert (IpV4 0xE0000000) 4, Multicast);
     (ipnet_new_assert (IpV4 0xFFFFFFFF) 32, Broadcast)].

Definition restricted_join_token_ipv6_route_cidr_reason (network : IpNet) : option restricted_reason :=
  first_restricted network
    [(ipnet_new_assert (IpV6 0) 128, Unspecified); (ipnet_new_assert (IpV6 1) 128, Loopback);
     (ipnet_new_assert (IpV6 0xFE800000000000000000000000000000) 10, LinkLocal);
     (ipnet_new_assert (IpV6 0xFF000000000000000000000000000000) 8, Multicast)].

Definition restricted_join_token_route_cidr_reason (cidr : IpNet) : option restricted_reason :=
  if ipnet_prefix_len cidr =? 0 then Some Unrestricted
  else if ipnet_is_v4 cidr then restricted_join_token_ipv4_route_cidr_reason cidr
  else restricted_join_token_ipv6_route_cidr_reason cidr.

Fixpoint allowed_routes_loop (index : Z) (accepted routes : list IpNet) : result unit claims_error :=
  match routes with
  | [] => Ok tt
  | route :: routes =>
      match restricted_join_token_route_cidr_reason route with
      | Some reason => Err (RouteRestricted index reason route)
      | None =>
          let canonical := ipnet_trunc route in
          if negb (bool_decide (route = canonical)) then Err (RouteNotCanonical index canonical route)
          else if bool_decide (canonical ∈ accepted) then Err (RouteDuplicate index canonical)
          else match List.find (fun existing => join_token_route_cidrs_overlap existing canonical) accepted with
               | Some overlap => Err (RouteOverlaps canonical overlap)
               | None => allowed_routes_loop (index + 1) (accepted ++ [canonical]) routes
               end
      end
  end.

(** The set [seen] of the code has the elements of [accepted]. *)
Definition validate_join_token_allowed_routes (routes : list IpNet) : result unit claims_error :=
  if MAX_JOIN_TOKEN_ALLOWED_ROUTES <? lenZ routes then Err (TooManyRoutes (lenZ routes))
  else allowed_routes_loop 0 [] routes.

Definition validate_claims_shape (c : JoinTokenClaims) : result unit claims_error :=
  let? _ := validate_join_token_claim_identifier (cluster_id c) ClusterIdLabel in
  let? _ := validate_join_token_claim_identifier (issuer c) IssuerLabel in
  let? _ := validate_join_token_claim_identifier (key_id c) KeyIdLabel in
  let? _ := validate_join_token_claim_identifier (role c) RoleLabel in
  let? _ := validate_join_token_claim_identifier (nonce c) NonceLabel in
  let? _ := validate_join_token_claim_tags (tags c) TagLabel in
  let? _ := validate_join_token_claim_tags (Overlay.allowed_tags (policy c)) AllowedTagLabel in
  let? _ := validate_join_token_allowed_routes (Overlay.allowed_routes (policy c)) in
  if expires_at c <=? not_before c then Err ExpiresBeforeStart
  else if MAX_JOIN_TOKEN_VALIDITY_SECONDS * Signal.SECOND <? expires_at c - not_before c then Err ValidityTooLong
  else map_err BootstrapInvalid (validate_join_token_bootstrap_endpoints (bootstrap_endpoints c)).

(** ** Signatures *)

Definition decode_ed25519_signature (value : bytes) : result bytes signature_error :=
  if negb (lenZ value =? ED25519_SIGNATURE_BASE64_BYTES) then Err SignatureLength
  else
    let? decoded := ok_or (b64_decode value) SignatureBase64 in
    if negb (lenZ decoded =? ED25519_SIGNATURE_BYTES) then Err (SignatureDecodes (lenZ decoded))
    else if negb (bool_decide (b64_encode decoded = value)) then Err SignatureNotCanonical
    else Ok decoded.

Record SignedJoinToken : Type := { claims : JoinTokenClaims; signature : bytes }.

(** [SignedJoinTokenValidationError] *)
Inductive token_error : Type := TokenSignature (reason : signature_error) | TokenClaims (reason : claims_error).

Definition signature_bytes (t : SignedJoinToken) : result bytes token_error :=
  map_err TokenSignature (decode_ed25519_signature (signature t)).

Definition validate_token_shape (t : SignedJoinToken) : result unit token_error :=
  let? _ := signature_bytes t in map_err TokenClaims (validate_claims_shape (claims t)).

(** ** Records of the ledger *)

Inductive TokenStatus : Type := Active | Revoked | Expired | Exhausted.

Record TokenLedgerRecord : Type := {
  rec_cluster_id : bytes;
  rec_nonce : bytes;
  token_claims : option JoinTokenClaims;
  rec_issuer : NodeId;
  rec_key_id : bytes;
  rec_role : bytes;
  rec_tags : list bytes;
  rec_expires_at : Z;
  max_uses : option Z;
  uses : Z;
  revoked_at : option Z;
  created_at : Z
}.

Record TokenRevocationRecord : Type := {
  rev_cluster_id : bytes;
  rev_nonce : bytes;
  rev_issuer : NodeId;
  rev_key_id : bytes;
  rev_revoked_at : Z
}.

Definition from_claims (c : JoinTokenClaims) (created_at : Z) : TokenLedgerRecord := {|
  rec_cluster_id := cluster_id c; rec_nonce := nonce c; token_claims := Some c; rec_issuer := issuer c;
  rec_key_id := key_id c; rec_role := role c; rec_tags := tags c; rec_expires_at := expires_at c;
  max_uses := Overlay.max_token_uses (policy c); uses := 0; revoked_at := None; created_at := created_at |}.

Definition status (r : TokenLedgerRecord) (now : Z) : TokenStatus :=
  if bool_decide (is_Some (revoked_at r)) then Revoked
  else if rec_expires_at r <=? now then Expired
  else if match max_uses r with Some max_uses => max_uses <=? uses r | None => false end then Exhausted
  else Active.

Definition remaining_uses (r : TokenLedgerRecord) : option Z :=
  (fun max_uses => saturating_sub max_uses (uses r)) <$> max_uses r.

#[global] Instance TokenPolicy_eq_dec : EqDecision Overlay.TokenPolicy.
Proof. solve_decision. Defined.

#[global] Instance JoinTokenClaims_eq_dec : EqDecision JoinTokenClaims.
Proof. solve_decision. Defined.

Definition has_same_definition (self other : TokenLedgerRecord) : bool :=
  bool_decide (rec_cluster_id self = rec_cluster_id other) && bool_decide (rec_nonce self = rec_nonce other)
  && bool_decide (rec_issuer self = rec_issuer other) && bool_decide (rec_key_id self = rec_key_id other)
  && bool_decide (rec_role self = rec_role other) && bool_decide (rec_tags self = rec_tags other)
  && (rec_expires_at self =? rec_expires_at other) && bool_decide (max_uses self = max_uses other)
  && match token_claims self, token_claims other with
     | Some stored, Some requested => bool_decide (stored = requested)
     | _, _ => true
     end.

Record TokenLedgerMetrics : Type := {
  issued_count : Z; active_count : Z; revoked_count : Z; expired_count : Z; exhausted_count : Z; use_count : Z
}.

Definition observe_record (m : TokenLedgerMetrics) (r : TokenLedgerRecord) (now : Z) : TokenLedgerMetrics :=
  let bump (s : TokenStatus) (z : Z) :=
    match s, status r now with
    | Active, Active | Revoked, Revoked | Expired, Expired | Exhausted, Exhausted => saturating_add 64 z 1
    | _, _ => z
    end in
  {| issued_count := saturating_add 64 (issued_count m) 1; active_count := bump Active (active_count m);
     revoked_count := bump Revoked (revoked_count m); expired_count := bump Expired (expired_count m);
     exhausted_count := bump Exhausted (exhausted_count m); use_count := saturating_add 64 (use_count m) (uses r) |}.

Definition observe_revocation_tombstone (m : TokenLedgerMetrics) : TokenLedgerMetrics := {|
  issued_count := saturating_add 64 (issued_count m) 1; active_count := active_count m;
  revoked_count := saturating_add 64 (revoked_count m) 1; expired_count := expired_count m;
  exhausted_count := exhausted_count m; use_count := use_count m |}.

(** ** What the checks accept *)

Definition claim_identifier_wf (value : bytes) : Prop :=
  1 <= lenZ value <= 255 /\ Forall (fun b => claim_byte b = true) value.

(** An allowed route by itself, and against another one. *)
Definition route_wf (route : IpNet) : Prop :=
  restricted_join_token_route_cidr_reason route = None /\ ipnet_trunc route = route.

Definition routes_apart (l r : IpNet) : Prop := l <> r /\ join_token_route_cidrs_overlap l r = false.

Record claims_wf (c : JoinTokenClaims) : Prop := {
  cw_ids : Forall claim_identifier_wf [cluster_id c; issuer c; key_id c; role c; nonce c];
  cw_tags : lenZ (tags c) <= 64 /\ Forall claim_identifier_wf (tags c);
  cw_allowed_tags : lenZ (Overlay.allowed_tags (policy c)) <= 64 /\ Forall claim_identifier_wf (Overlay.allowed_tags (policy c));
  cw_routes : lenZ (Overlay.allowed_routes (policy c)) <= 256 /\ Forall route_wf (Overlay.allowed_routes (policy c)) /\
    ForallOrdPairs routes_apart (Overlay.allowed_routes (policy c));
  cw_validity : not_before c < expires_at c <= not_before c + MAX_JOIN_TOKEN_VALIDITY_SECONDS * Signal.SECOND;
  cw_bootstrap : validate_join_token_bootstrap_endpoints (bootstrap_endpoints c) = Ok tt
}.

Lemma identifier_ok value label : validate_join_token_claim_identifier value label = Ok tt <-> claim_identifier_wf value.
Proof.
  unfold validate_join_token_claim_identifier, claim_identifier_wf, Overlay.MAX_JOIN_TOKEN_IDENTIFIER_BYTES.
  rewrite !guard_ok, bool_decide_eq_false, negb_false_iff, forallb_Forall, Z.ltb_ge, lenZ_pos.
  intuition lia.
Qed.

Lemma tags_ok tags label : validate_join_token_claim_tags tags label = Ok tt <-> lenZ tags <= 64 /\ Forall claim_identifier_wf tags.
Proof.
  unfold validate_join_token_claim_tags, MAX_JOIN_TOKEN_TAGS. rewrite guard_ok, Z.ltb_ge.
  assert (E : claim_tags_loop label tags = Ok tt <-> Forall claim_identifier_wf tags); [|by rewrite E].
  induction tags as [|tag tags IH]; simpl; [by split|].
  rewrite bind_ok, Forall_cons, <- IH, <- (identifier_ok tag label). split; [by intros ([] & ? & ?)|].
  intros [-> ->]. by exists tt.
Qed.

Lemma find_none_iff {A} (f : A -> bool) l : List.find f l = None <-> Forall (fun x => f x = false) l.
Proof.
  induction l as [|a l IH]; simpl; [by split|]. rewrite Forall_cons. destruct (f a); [|by rewrite <- IH; intuition].
  split; [done|by intros [? _]].
Qed.

Lemma allowed_loop_ok routes : forall index accepted, allowed_routes_loop index accepted routes = Ok tt <->
  Forall route_wf routes /\ ForallOrdPairs routes_apart routes /\ Forall (fun a => Forall (routes_apart a) routes) accepted.
Proof.
  induction routes as [|route routes IH]; intros index accepted; cbn [allowed_routes_loop].
  { split; [|done]. intros _. split_and!; [constructor..|]. apply Forall_true. constructor. }
  assert (Ha : Forall (fun a => Forall (routes_apart a) (route :: routes)) accepted <->
    route ∉ accepted /\ Forall (fun a => join_token_route_cidrs_overlap a route = false) accepted /\
    Forall (fun a => Forall (routes_apart a) routes) accepted).
  { rewrite !Forall_forall. unfold routes_apart. split.
    - intros H. split_and!; [intros Hin|..]; try (intros a Hin); apply H in Hin; inversion Hin; tauto.
    - intros (Hn & Ho & Hr) a Hin. constructor; [|by apply Hr]. split; [by intros ->|by apply Ho]. }
  rewrite Ha, Forall_cons. unfold route_wf at 1. destruct (restricted_join_token_route_cidr_reason route) eqn:E.
  { split; [done|]. by intros ([[? ?] ?] & ?). }
  rewrite !guard_ok, negb_false_iff, bool_decide_eq_true, bool_decide_eq_false.
  destruct (List.find _ accepted) eqn:Ef.
  { split; [by intros (? & ? & ?)|]. intros ([[_ Ht] _] & _ & _ & Ho & _). rewrite Ht in Ef. apply find_none_iff in Ho. congruence. }
  apply find_none_iff in Ef. rewrite IH, Forall_app, Forall_singleton.
  split.
  - intros (Ht & Hn & Hw & Hp & Hacc & Hr). rewrite <- Ht in *. split_and!; try done. by constructor.
  - intros ([[_ Ht] Hw] & Hp & Hn & Ho & Hacc). inversion Hp; subst. rewrite Ht in *. done.
Qed.

Lemma allowed_routes_ok routes : validate_join_token_allowed_routes routes = Ok tt <->
  lenZ routes <= 256 /\ Forall route_wf routes /\ ForallOrdPairs routes_apart routes.
Proof.
  unfold validate_join_token_allowed_routes, MAX_JOIN_TOKEN_ALLOWED_ROUTES. rewrite guard_ok, allowed_loop_ok, Z.ltb_ge.
  split; [tauto|]. intros (? & ? & ?). by repeat split.
Qed.

Lemma bind_unit_ok {E} (c : result unit E) (k : result unit E) :
  match c with Ok _ => k | Err e => Err e end = Ok tt <-> c = Ok tt /\ k = Ok tt.
Proof. destruct c as [[]|]; split; [done|tauto|done|by intros []]. Qed.

Lemma claims_shape_ok c : validate_claims_shape c = Ok tt <-> claims_wf c.
Proof.
  unfold validate_claims_shape. rewrite !bind_unit_ok, !identifier_ok, !tags_ok, allowed_routes_ok, !guard_ok, map_err_ok.
  rewrite Z.leb_gt, Z.ltb_ge. split.
  - intros (? & ? & ? & ? & ? & ? & ? & ? & ? & ? & ?). split; [by rewrite !Forall_cons, Forall_nil|done|done|done|lia|done].
  - intros [Hid ? ? ? ? ?]. rewrite !Forall_cons in Hid. destruct Hid as (? & ? & ? & ? & ? & _).
    assert (not_before c < expires_at c /\ expires_at c - not_before c <= MAX_JOIN_TOKEN_VALIDITY_SECONDS * Signal.SECOND) by lia.
    tauto.
Qed.

Lemma decode_signature_ok value bs : decode_ed25519_signature value = Ok bs <->
  lenZ value = 88 /\ b64_decode value = Some bs /\ lenZ bs = 64 /\ b64_encode bs = value.
Proof.
  unfold decode_ed25519_signature, ED25519_SIGNATURE_BASE64_BYTES, ED25519_SIGNATURE_BYTES.
  rewrite guard_ok, bind_ok, negb_false_iff, Z.eqb_eq. split.
  - intros (? & bs' & ?%ok_or_ok & H). rewrite !guard_ok, !negb_false_iff, Z.eqb_eq, bool_decide_eq_true in H.
    destruct H as (? & ? & [= ->]). done.
  - intros (? & H & ? & ?). split; [done|]. exists bs. rewrite H. split; [done|].
    rewrite !guard_ok, !negb_false_iff, Z.eqb_eq, bool_decide_eq_true. done.
Qed.

(** A signature that was encoded is decoded again. *)
Lemma encoded_signature {L : Base64Laws} bs : lenZ bs = 64 -> decode_ed25519_signature (b64_encode bs) = Ok bs.
Proof. intros H. apply decode_signature_ok. rewrite b64_roundtrip, b64_length, H. done. Qed.

Lemma token_shape_ok t : validate_token_shape t = Ok tt <->
  (exists bs, decode_ed25519_signature (signature t) = Ok bs) /\ claims_wf (claims t).
Proof.
  unfold validate_token_shape, signature_bytes. rewrite bind_ok. split.
  - intros (bs & H1%map_err_ok & H2%map_err_ok). split; [by exists bs|by apply claims_shape_ok].
  - intros [[bs H] Hc%claims_shape_ok]. exists bs. rewrite !map_err_ok. done.
Qed.

Lemma status_active r now : status r now = Active <->
  revoked_at r = None /\ now < rec_expires_at r /\ (forall m, max_uses r = Some m -> uses r < m).
Proof.
  unfold status. destruct (revoked_at r) as [t|]; simpl.
  { split; [done|by intros [? _]]. }
  destruct (rec_expires_at r <=? now) eqn:E; bool_to_prop; [split; [done|lia]|].
  destruct (max_uses r) as [m|]; [destruct (m <=? uses r) eqn:E'; bool_to_prop|].
  - split; [done|]. intros (_ & _ & H). specialize (H m eq_refl). lia.
  - split; [|done]. intros _. split_and!; [done|done|]. by intros ? [= <-].
  - by split.
Qed.

End Tokens.
End JoinTokens.
