(* ===== verification/Base64.v ===== *)
(** * Base64 (RFC 4648) for the examples

    An implementation of what the [base64] crate documents, with its laws. The theorems
    quantify over every [Base64Ops]; the examples evaluate them at this one. *)

From S2P Require Import Prelude RustStd JoinTokens.

Module Base64.

Definition alphabet : bytes := Eval vm_compute in bstr "ABCDEFGHIJKLMNOPQRSTUVWXYZabcdefghijklmnopqrstuvwxyz0123456789+/".
Definition pad : byte := x3d.

Definition digit (d : Z) : byte := nth (Z.to_nat d) alphabet pad.

Definition digit_of (b : byte) : option Z :=
  match list_find (fun a => a = b) alphabet with Some (i, _) => Some (Z.of_nat i) | None => None end.

Fixpoint encode (bs : bytes) : bytes :=
  match bs with
  | [] => []
  | [a] => [digit (byteZ a / 4); digit (byteZ a mod 4 * 16); pad; pad]
  | [a; b] => [digit (byteZ a / 4); digit (byteZ a mod 4 * 16 + byteZ b / 16); digit (byteZ b mod 16 * 4); pad]
  | a :: b :: c :: bs =>
      digit (byteZ a / 4) :: digit (byteZ a mod 4 * 16 + byteZ b / 16) :: digit (byteZ b mod 16 * 4 + byteZ c / 64)
      :: digit (byteZ c mod 64) :: encode bs
  end.

Fixpoint decode (s : bytes) : option bytes :=
  match s with
  | [] => Some []
  | p :: q :: r :: t :: s =>
      p ← digit_of p; q ← digit_of q;
      match digit_of r, digit_of t with
      | Some r, Some t =>
          rest ← decode s;
          Some (Zbyte (p * 4 + q / 16) :: Zbyte (q mod 16 * 16 + r / 4) :: Zbyte (r mod 4 * 64 + t) :: rest)
      | Some r, None => if bool_decide (t = pad /\ s = []) then Some [Zbyte (p * 4 + q / 16); Zbyte (q mod 16 * 16 + r / 4)] else None
      | None, None => if bool_decide (r = pad /\ t = pad /\ s = []) then Some [Zbyte (p * 4 + q / 16)] else None
      | None, Some _ => None
      end
  | _ => None
  end.

Lemma digit_of_digit d : 0 <= d < 64 -> digit_of (digit d) = Some d.
Proof.
  intros Hd. assert (H : forallb (fun i => bool_decide (digit_of (digit (Z.of_nat i)) = Some (Z.of_nat i))) (seq 0 64) = true)
    by by vm_compute.
  rewrite forallb_Forall, Forall_forall in H. specialize (H (Z.to_nat d)).
  rewrite bool_decide_eq_true, Z2Nat.id in H by lia. apply H, elem_of_seq. lia.
Qed.

Lemma digit_of_pad : digit_of pad = None.
Proof. by vm_compute. Qed.

Lemma Zbyte_eq z b : z = byteZ b -> Zbyte z = b.
Proof. intros ->. apply Zbyte_byteZ. Qed.

(** Lists by threes. *)
Lemma triple_ind (P : bytes -> Prop) : P [] -> (forall a, P [a]) -> (forall a b, P [a; b]) ->
  (forall a b c bs, P bs -> P (a :: b :: c :: bs)) -> forall bs, P bs.
Proof.
  intros H0 H1 H2 H3. fix IH 1. intros [|a [|b [|c bs]]]; [exact H0|apply H1|apply H2|]. apply H3, IH.
Qed.

Lemma decode_encode bs : decode (encode bs) = Some bs.
Proof.
  induction bs as [|a|a b|a b c bs IH] using triple_ind; [done| | |];
    pose proof (byteZ_bound a) as Ha; try pose proof (byteZ_bound b) as Hb; try pose proof (byteZ_bound c) as Hc;
    cbn [encode decode]; rewrite ?digit_of_digit, ?digit_of_pad by dlia; cbn [mbind option_bind]; rewrite ?IH;
    cbn [mbind option_bind]; rewrite ?bool_decide_true by done; repeat f_equal; apply Zbyte_eq; dlia.
Qed.

Lemma encode_length bs : lenZ (encode bs) = (lenZ bs + 2) / 3 * 4.
Proof.
  induction bs as [|a|a b|a b c bs IH] using triple_ind; [done..|]. cbn [encode length]. dlia.
Qed.

Definition to_url (b : byte) : byte := if bool_decide (b = x2b) then x2d else if bool_decide (b = x2f) then x5f else b.
Definition of_url (b : byte) : byte := if bool_decide (b = x2d) then x2b else if bool_decide (b = x5f) then x2f else b.

#[global] Instance base64 : Base64Ops := {|
  b64_encode := encode;
  b64_decode := decode;
  b64url_encode bs := map to_url (List.filter (fun b => negb (bool_decide (b = pad))) (encode bs));
  b64url_decode s :=
    if existsb (fun b => bool_decide (b ∈ [x2b; x2f; pad])) s then None
    else decode (map of_url s ++ replicate (Z.to_nat (- lenZ s mod 4)) pad)
|}.

#[global] Instance base64_laws : Base64Laws := {| b64_roundtrip := decode_encode; b64_length := encode_length |}.

End Base64.
