(* ===== verification/Crypto.v ===== *)
(** * Keys, signatures and tokens (crates/ipars-crypto/src/lib.rs)

    Keys in base64, the checks on them, and the signatures of join tokens and of requests.
    [ed25519-dalek], [x25519-dalek] and [serde_json] are interfaces. *)

From S2P Require Import Prelude RustStd Endpoints OverlayTypes Hashing Signal Quorum JoinTokens Instances QuorumInstances Base64.

(** What this crate uses of [ed25519-dalek] besides the checks of a public key: a signature is
    its 64 bytes. *)
Class EdSignOps {EO : EdOps} : Type := {
  ed_bytes : EdKey -> bytes;
  ed_verify : EdKey -> bytes -> bytes -> bool;
  EdSecret : Type;
  ed_secret : bytes -> EdSecret;
  ed_public : EdSecret -> EdKey;
  ed_sign : EdSecret -> bytes -> bytes
}.

(** What the crate documents of them. *)
Class EdSignLaws {EO : EdOps} {ES : EdSignOps} : Prop := {
  ed_bytes_length : forall k, lenZ (ed_bytes k) = 32;
  ed_sign_length : forall sk m, lenZ (ed_sign sk m) = 64;
  ed_key_bytes : forall k, ed_key (ed_bytes k) = Some k;
  ed_verify_sign : forall sk m, ed_verify (ed_public sk) m (ed_sign sk m) = true
}.

(** [x25519-dalek]: the shared secret of a secret key and a public key. *)
Class X25519Ops : Type := { diffie_hellman : bytes -> bytes -> bytes }.

(** [serde_json::to_vec] of a type. *)
Class ToJson (A : Type) : Type := to_vec : A -> option bytes.

Module Crypto.
Import JoinTokens Hashing.

Definition NODE_API_REQUEST_NONCE_BYTES : Z := 24.
Definition KEY_MATERIAL_BYTES : Z := 32.
Definition KEY_MATERIAL_BASE64_BYTES : Z := 44.

Inductive key_error : Type :=
  | KeyLength | KeyBase64 | KeyDecodes | KeyNotCanonical | KeyNotPublic | KeyWeak | KeyLowOrder | DerivedKeyWeak.

Section Crypto.
Context {Net : IpNetOps} {Build : IpNetBuildOps} {UO : UrlOps} {B64 : Base64Ops} {DO : DigestOps}.
Context {EO : EdOps} {ES : EdSignOps} {X : X25519Ops} {Json : ToJson JoinTokenClaims}.

Inductive CryptoError : Type :=
  | InvalidEd25519Key (reason : key_error)
  | InvalidWireGuardKey (reason : key_error)
  | InvalidSignature
  | InvalidSignatureEnvelope (reason : signature_error)
  | InvalidRequestNonce
  | TokenSerialization
  | InvalidJoinTokenClaims (reason : claims_error)
  | InvalidSignedJoinToken (reason : token_error)
  | TokenTime (now : Z)
  | ClusterMismatch (expected actual : bytes).

(** ** Keys *)

Definition decode_canonical_key_material (value : bytes) : result bytes key_error :=
  if negb (lenZ value =? KEY_MATERIAL_BASE64_BYTES) then Err KeyLength
  else
    let? decoded := ok_or (b64_decode value) KeyBase64 in
    if negb (lenZ decoded =? KEY_MATERIAL_BYTES) then Err KeyDecodes
    else if negb (bool_decide (b64_encode decoded = value)) then Err KeyNotCanonical
    else Ok decoded.

Definition decode_ed25519_key_b64 (value : bytes) : result bytes CryptoError :=
  map_err InvalidEd25519Key (decode_canonical_key_material value).

Definition verifying_key_from_b64 (value : bytes) : result EdKey CryptoError :=
  let? key_bytes := decode_ed25519_key_b64 value in
  let? key := ok_or (ed_key key_bytes) (InvalidEd25519Key KeyNotPublic) in
  if ed_weak key then Err (InvalidEd25519Key KeyWeak) else Ok key.

Definition decode_wireguard_public_key_b64 (value : bytes) : result bytes CryptoError :=
  let? key := map_err InvalidWireGuardKey (decode_canonical_key_material value) in
  let probe_secret := replicate 32 x42 in
  if forallb (fun b => byteZ b =? 0) (diffie_hellman probe_secret key) then Err (InvalidWireGuardKey KeyLowOrder)
  else Ok key.

Definition node_id_from_public_key_b64 (value : bytes) : result NodeId CryptoError :=
  let? key := verifying_key_from_b64 value in Ok (node_id_from_public_key (ed_bytes key)).

Definition from_signing_key_b64 (value : bytes) : result EdSecret CryptoError :=
  let? key_bytes := decode_ed25519_key_b64 value in
  let key := ed_secret key_bytes in
  if ed_weak (ed_public key) then Err (InvalidEd25519Key DerivedKeyWeak) else Ok key.

Definition public_key_b64 (key : EdSecret) : bytes := b64_encode (ed_bytes (ed_public key)).

Definition node_id (key : EdSecret) : NodeId := node_id_from_public_key (ed_bytes (ed_public key)).

(** ** Tokens *)

Definition sign_join_token (key : EdSecret) (c : JoinTokenClaims) : result SignedJoinToken CryptoError :=
  let? _ := map_err InvalidJoinTokenClaims (validate_claims_shape c) in
  let? payload := ok_or (to_vec c) TokenSerialization in
  Ok {| claims := c; signature := b64_encode (ed_sign key payload) |}.

Definition verify_join_token (token : SignedJoinToken) (issuer_public_key_b64 : bytes) (now : Z) (expected_cluster : bytes)
  : result unit CryptoError :=
  let? signature := map_err InvalidSignedJoinToken (signature_bytes token) in
  let? _ := map_err InvalidJoinTokenClaims (validate_claims_shape (claims token)) in
  if negb (is_time_valid (claims token) now) then Err (TokenTime now)
  else if negb (bool_decide (cluster_id (claims token) = expected_cluster))
       then Err (ClusterMismatch expected_cluster (cluster_id (claims token)))
  else
    let? key := verifying_key_from_b64 issuer_public_key_b64 in
    let? payload := ok_or (to_vec (claims token)) TokenSerialization in
    if ed_verify key payload signature then Ok tt else Err InvalidSignature.

(** ** Requests *)

Record NodeRequestSignature : Type := { signed_at : Z; request_signature : bytes }.

Record NodeApiRequestSignature : Type := { api_signed_at : Z; api_nonce : bytes; api_signature : bytes }.

Definition verify_ed25519_payload (payload signature public_key_b64 : bytes) : result unit CryptoError :=
  let? key := verifying_key_from_b64 public_key_b64 in
  if ed_verify key payload signature then Ok tt else Err InvalidSignature.

Definition verify_node_request_payload (payload : bytes) (s : NodeRequestSignature) (public_key_b64 : bytes)
  : result unit CryptoError :=
  let? signature := map_err InvalidSignatureEnvelope (decode_ed25519_signature (request_signature s)) in
  verify_ed25519_payload payload signature public_key_b64.

(** The body shared by the verifications of heartbeats, removals and revocations: [payload] is
    the request's [signature_payload] at the time of the signature. *)
Definition verify_signed_request {P} `{ToJson P} (payload : Z -> P) (s : option NodeRequestSignature) (public_key_b64 : bytes)
  : result unit CryptoError :=
  let? s := ok_or s InvalidSignature in
  let? payload := ok_or (to_vec (payload (signed_at s))) TokenSerialization in
  verify_node_request_payload payload s public_key_b64.

Definition validate_node_api_request_nonce (value : bytes) : result unit CryptoError :=
  let? decoded := ok_or (b64url_decode value) InvalidRequestNonce in
  if negb (lenZ decoded =? NODE_API_REQUEST_NONCE_BYTES) || negb (bool_decide (b64url_encode decoded = value))
  then Err InvalidRequestNonce else Ok tt.

Definition verify_node_api_payload (payload : bytes) (s : NodeApiRequestSignature) (public_key_b64 : bytes)
  : result unit CryptoError :=
  let? signature := map_err InvalidSignatureEnvelope (decode_ed25519_signature (api_signature s)) in
  let? _ := validate_node_api_request_nonce (api_nonce s) in
  verify_ed25519_payload payload signature public_key_b64.

(** ** What is accepted *)

(** A key of an identity: canonical base64 of a public key that is not weak. *)
Definition identity_key (value : bytes) (key : EdKey) : Prop :=
  exists bs, lenZ value = 44 /\ b64_decode value = Some bs /\ lenZ bs = 32 /\ b64_encode bs = value /\
    ed_key bs = Some key /\ ed_weak key = false.

Lemma key_material_ok value bs : decode_canonical_key_material value = Ok bs <->
  lenZ value = 44 /\ b64_decode value = Some bs /\ lenZ bs = 32 /\ b64_encode bs = value.
Proof.
  unfold decode_canonical_key_material, KEY_MATERIAL_BASE64_BYTES, KEY_MATERIAL_BYTES.
  rewrite guard_ok, bind_ok, negb_false_iff, Z.eqb_eq. split.
  - intros (? & bs' & ?%ok_or_ok & H). rewrite !guard_ok, !negb_false_iff, Z.eqb_eq, bool_decide_eq_true in H.
    destruct H as (? & ? & [= ->]). done.
  - intros (? & H & ? & ?). split; [done|]. exists bs. rewrite H. split; [done|].
    rewrite !guard_ok, !negb_false_iff, Z.eqb_eq, bool_decide_eq_true. done.
Qed.

Lemma verifying_key_ok value key : verifying_key_from_b64 value = Ok key <-> identity_key value key.
Proof.
  unfold verifying_key_from_b64, decode_ed25519_key_b64, identity_key. rewrite bind_ok. split.
  - intros (bs & (? & ? & ? & ?)%map_err_ok%key_material_ok & (k & ?%ok_or_ok & [? [= ->]]%guard_ok)%bind_ok). by exists bs.
  - intros (bs & ? & ? & ? & ? & Hk & Hw). exists bs. rewrite map_err_ok, key_material_ok, Hk. simpl. by rewrite Hw.
Qed.

(** What a token accepted under a key attests. *)
Record token_ok (t : SignedJoinToken) (key_b64 : bytes) (now : Z) (cluster : bytes) : Prop := {
  tok_shape : claims_wf (claims t);
  tok_time : not_before (claims t) <= now < expires_at (claims t);
  tok_cluster : cluster_id (claims t) = cluster;
  tok_signed : exists key signature_bs payload, identity_key key_b64 key /\
    decode_ed25519_signature (signature t) = Ok signature_bs /\ to_vec (claims t) = Some payload /\
    ed_verify key payload signature_bs = true
}.

Lemma verify_join_token_ok t key_b64 now cluster : verify_join_token t key_b64 now cluster = Ok tt <-> token_ok t key_b64 now cluster.
Proof.
  unfold verify_join_token, signature_bytes. rewrite bind_ok. split.
  - intros (s & H1%map_err_ok%map_err_ok & H). rewrite bind_unit_ok in H. destruct H as [H2%map_err_ok%claims_shape_ok H].
    rewrite !guard_ok, !negb_false_iff, bool_decide_eq_true in H. unfold is_time_valid in H.
    destruct H as (Ht & Hc & (k & Hk%verifying_key_ok & (p & Hp%ok_or_ok & Hv)%bind_ok)%bind_ok).
    bool_to_prop. split; [done|lia|done|]. exists k, s, p. by destruct (ed_verify k p s).
  - intros [H1 H2 H3 (k & s & p & Hk & Hs & Hp & Hv)]. exists s. rewrite !map_err_ok. split; [done|].
    rewrite bind_unit_ok, map_err_ok, claims_shape_ok. split; [done|].
    rewrite !guard_ok, !negb_false_iff, bool_decide_eq_true. unfold is_time_valid.
    split_and!; [lia|done|]. apply verifying_key_ok in Hk. rewrite Hk, Hp. cbn [ok_or]. by rewrite Hv.
Qed.

(** The public key of a key pair reads back. *)
Lemma public_key_reads {BL : Base64Laws} {EL : EdSignLaws} key :
  ed_weak (ed_public key) = false -> identity_key (public_key_b64 key) (ed_public key).
Proof.
  intros Hw. exists (ed_bytes (ed_public key)). unfold public_key_b64.
  by rewrite b64_length, b64_roundtrip, ed_key_bytes, ed_bytes_length.
Qed.

Lemma node_id_reads {BL : Base64Laws} {EL : EdSignLaws} key :
  ed_weak (ed_public key) = false -> node_id_from_public_key_b64 (public_key_b64 key) = Ok (node_id key).
Proof. intros Hw%public_key_reads%verifying_key_ok. unfold node_id_from_public_key_b64. by rewrite Hw. Qed.

(** A nonce of 48 bytes can commit, with its first 32, to the body of the request. *)
Definition node_query_nonce_matches_binding (nonce binding : bytes) : bool :=
  match b64url_decode nonce with
  | Some value => (lenZ value =? 48) && bool_decide (take 32 value = sha256 binding)
  | None => false
  end.

End Crypto.

(** C25: A token an issuer signs is accepted under the issuer's public key exactly while it is
    valid and for the cluster it names; and the public key names the issuer. For every key that
    is read from its base64 form, and every claims of good shape. *)
Theorem join_token_roundtrip {Net : IpNetOps} {Build : IpNetBuildOps} {UO : UrlOps} {B64 : Base64Ops} {BL : Base64Laws} {DO : DigestOps}
    {EO : EdOps} {ES : EdSignOps} {EL : EdSignLaws} {Json : ToJson JoinTokenClaims} value key c t now cluster :
  from_signing_key_b64 value = Ok key -> sign_join_token key c = Ok t ->
  claims t = c /\ node_id_from_public_key_b64 (public_key_b64 key) = Ok (node_id key) /\
  (verify_join_token t (public_key_b64 key) now cluster = Ok tt <-> not_before c <= now < expires_at c /\ cluster_id c = cluster).
Proof.
  unfold from_signing_key_b64, sign_join_token. intros (bs & _ & [Hw [= <-]]%guard_ok)%bind_ok.
  intros ([] & H1%map_err_ok%claims_shape_ok & (p & Hp%ok_or_ok & [= <-])%bind_ok)%bind_ok.
  split; [done|]. split; [by apply node_id_reads|]. rewrite verify_join_token_ok. split; [by intros []|].
  intros [Ht Hc]. split; simpl; try done. exists (ed_public (ed_secret bs)), (ed_sign (ed_secret bs) p), p.
  split_and!; [by apply public_key_reads|by apply encoded_signature, ed_sign_length|done|apply ed_verify_sign].
Qed.

(** An issuer with a toy signature scheme: a key is 32 bytes, and a signature repeats digests
    of the key and of the message. *)
Module CryptoExample.
Import Instances Base64.

Record toy_key : Type := { key_bytes : bytes; key_length : Nat.eqb (length key_bytes) 32 = true }.

Definition toy_key_of (bs : bytes) : option toy_key :=
  match Bool.bool_dec (Nat.eqb (length bs) 32) true with
  | left H => Some {| key_bytes := bs; key_length := H |}
  | right _ => None
  end.

#[export] Instance dalek : EdOps := {|
  EdKey := toy_key;
  ed_key := toy_key_of;
  ed_weak k := bool_decide (key_bytes k = replicate 32 x00);
  EdSignature := bytes;
  ed_signature := Some;
  ed_verify_strict k m s := bool_decide (s = QuorumInstances.toy_signature (key_bytes k) m)
|}.

#[export] Existing Instance sample_digest.

Lemma sample_hash_length bs : length (sample_hash bs) = 32%nat.
Proof. exact (sha256_length bs). Qed.

Lemma hash_length bs : Nat.eqb (length (sample_hash bs)) 32 = true.
Proof. by rewrite sample_hash_length. Qed.

Definition toy_public (secret : bytes) : toy_key := {| key_bytes := sample_hash secret; key_length := hash_length secret |}.

#[export] Instance dalek_sign : EdSignOps := {|
  ed_bytes k := key_bytes k;
  ed_verify k m s := bool_decide (s = QuorumInstances.toy_signature (key_bytes k) m);
  EdSecret := bytes;
  ed_secret bs := bs;
  ed_public := toy_public;
  ed_sign sk m := QuorumInstances.toy_signature (sample_hash sk) m
|}.

#[export, refine] Instance dalek_laws : EdSignLaws := {| ed_bytes_length := _ |}.
Proof.
  - intros [bs H]. simpl. apply Nat.eqb_eq in H. lia.
  - intros sk m. cbn [ed_sign dalek_sign]. unfold QuorumInstances.toy_signature. by rewrite length_app, !sample_hash_length.
  - intros [bs H]. simpl. unfold toy_key_of. destruct (Bool.bool_dec _ _) as [H'|]; [|done].
    do 2 f_equal. apply (proof_irrel H' H).
  - intros sk m. apply bool_decide_eq_true. reflexivity.
Defined.

#[export] Instance cidr_build : IpNetBuildOps := {|
  ipnet_broadcast c := to_ip (is_v4 c) (masked c (address c) + 2 ^ host_bits c - 1);
  ipnet_new_assert ip p :=
    match ip with
    | IpV4 a => {| is_v4 := true; address := a; prefix := p |}
    | IpV6 a => {| is_v4 := false; address := a; prefix := p |}
    end
|}.

#[export] Instance claims_json : ToJson JoinTokenClaims := fun c => Some (cluster_id c ++ nonce c ++ role c).

Definition sample_claims : JoinTokenClaims := {|
  cluster_id := bstr "c"; bootstrap_endpoints := []; expires_at := 3600 * Signal.SECOND; not_before := 0;
  role := bstr "edge"; tags := [bstr "t"]; issuer := bstr "issuer"; key_id := bstr "k1";
  policy := {| Overlay.allow_join := true; Overlay.allow_relay := false;
               Overlay.allowed_routes := [{| is_v4 := true; address := 0xC0A80100; prefix := 24 |}];
               Overlay.allowed_tags := []; Overlay.max_token_uses := Some 2 |};
  nonce := bstr "n-1" |}.

Definition secret_b64 : bytes := Eval vm_compute in encode (replicate 32 x07).
Definition issuer_key : EdSecret := replicate 32 x07.

Definition sample_token : SignedJoinToken :=
  Eval vm_compute in match sign_join_token issuer_key sample_claims with
                     | Ok t => t
                     | Err _ => {| claims := sample_claims; signature := [] |}
                     end.

Lemma join_token_roundtrip_witness :
  from_signing_key_b64 secret_b64 = Ok issuer_key /\ sign_join_token issuer_key sample_claims = Ok sample_token /\
  verify_join_token sample_token (public_key_b64 issuer_key) Signal.SECOND (bstr "c") = Ok tt.
Proof.
  assert (H1 : from_signing_key_b64 secret_b64 = Ok issuer_key) by (vm_cast_no_check (eq_refl (@Ok EdSecret CryptoError issuer_key))).
  assert (H2 : sign_join_token issuer_key sample_claims = Ok sample_token) by (vm_cast_no_check (eq_refl (@Ok SignedJoinToken CryptoError sample_token))).
  split; [exact H1|]. split; [exact H2|].
  destruct (join_token_roundtrip secret_b64 issuer_key sample_claims sample_token Signal.SECOND (bstr "c") H1 H2) as (_ & _ & H).
  apply (proj2 H). cbn [not_before expires_at cluster_id sample_claims]. unfold Signal.SECOND. split; [lia|reflexivity].
Defined.

End CryptoExample.
End Crypto.
