(* ===== verification/ControlTypes.v ===== *)
(** * Errors of the control plane (crates/ipars-control-plane/src/lib.rs)

    [ControlPlaneError] with the cases the modelled operations return. A text the code formats
    is the case it names, with the values in it. *)

From S2P Require Import Prelude RustStd Endpoints OverlayTypes Hashing Signal Quorum JoinTokens Crypto.

Module ControlTypes.
Import JoinTokens.

(** Why the policy of an enrollment key refuses a token. *)
Inductive policy_reason : Type :=
  | ValidityExceeds | RoleNotAllowed | ClientNotControlOnly | TagsDiffer | RoutesNotAllowed | UsesUnbounded
  | EndpointsRequired | RelaysRequired.

(** Why a relay capability is refused. *)
Inductive relay_reason : Type :=
  | EndpointRequired | EndpointUnusable | AdmissionRequired | AdmissionUnusable | NoSessions | TooManyActive | NoBandwidth
  | NotEndToEnd.

(** Why a list of advertised routes is refused. *)
Inductive routes_reason : Type :=
  | TooManyAdvertised (count : Z)
  | RouteIdEmpty | RouteIdTooLong | RouteIdDots | RouteIdCharacters
  | RouteIdRepeated (id : bytes)
  | RouteMetricZero (id : bytes)
  | RouteRestrictedCidr (id : bytes) (reason : restricted_reason)
  | RouteCidrNotCanonical (id : bytes)
  | RouteCidrRepeated (id : bytes).

(** Why a node's report on its address translation is refused. *)
Inductive nat_shape_reason : Type :=
  | NatPublicUnsupported | NatObservedUnusable | NatAssessedInFuture | NatConfidence | NatProbeServer | NatProbeReflexive
  | NatProbeInFuture | NatFilterServer | NatFilterOrigin | NatFilterOther | NatFilterInFuture.

(** Why the policy of a cluster is refused. *)
Inductive cluster_policy_reason : Type :=
  | BlockSizeRange | MaxDegreeUnsupported | ShortcutLimit | OnDemandLimit | TooManyScopes | ScopeRestricted | ScopeNotCanonical
  | ScopeOverlaps | ScopeOverlapsPool | TtlZero | ConfidencePercent | TooManyRules | RuleProtocol | RuleIdLength
  | RuleIdCharacters | RuleIdDuplicated | RuleRoutes | NodeOutsideScopes (node_id : NodeId).

Inductive store_reason : Type :=
  | RoutingEpochExhausted (cluster : bytes) | CatalogEncoding | EpochLockMissing | NoClientGateway
  | AdminClusterMismatch | AdminManifestInvalid | AdminAnchorMismatch | AdminAnchorInvalid | AdminUnanchored | AdminManifestMissing
  | AdminManifestMismatch | EnvelopeEncoding.

(** Why a request of the HTTP mesh is malformed. *)
Inductive mesh_reason : Type :=
  | MeshRequestEncoding | MeshCommitment | MeshRoutePage | MeshBatch | MeshAcknowledgement | MeshAddress | MeshPeerNotFound
  | MeshPacketEncoding | MeshNotWireGuard | MeshBatchTooLarge | MeshBatchReused.

Section Errors.
Context {Net : IpNetOps} {Build : IpNetBuildOps} {UO : UrlOps}.

(** The texts of [TokenVerification]. *)
Inductive verification_reason : Type :=
  | TokenShape (reason : token_error)
  | TokenCrypto (reason : Crypto.CryptoError)
  | TokenPolicyRejected (reason : policy_reason)
  | TokenDefinitionConflict (nonce : bytes)
  | RevocationCluster (expected actual : bytes)
  | RevocationKeyNotAuthorized
  | RevocationUnsigned
  | RevocationWindow (signed_at : Z).

(** The texts of [NodeRegistrationRejected] and [NodeUpdateRejected]. *)
Inductive node_reason : Type :=
  | IdentityKeyInvalid (reason : Crypto.CryptoError)
  | IdentityDerives (id : NodeId)
  | WireguardKeyInvalid (reason : Crypto.CryptoError)
  | CandidateOwner (id : NodeId)
  | CandidateKindInvalid (reason : Endpoints.KindAddressError)
  | CandidateObservedInFuture
  | NatShape (reason : nat_shape_reason)
  | RoutesShape (reason : routes_reason)
  | RouteAdvertisedBy (route : bytes) (id : NodeId)
  | RelayShape (reason : relay_reason)
  | RouteOutsideScopes (route : bytes)
  | RouteOverlapsPool (route : bytes)
  | AggregateScopes (count : Z)
  | GenerationChanged
  | WireguardKeyChanged
  | UseClientApi
  | RemovalSelectsGateway.

(** Why a query for a path is malformed. *)
Inductive query_error : Type := QueryFields (reason : Overlay.OverlayValidationError) | QueryProof (reason : signature_error).

(** The texts of [NodeSignatureRejected]. *)
Inductive signature_reason : Type :=
  | SignatureCrypto (reason : Crypto.CryptoError)
  | SignatureWindow (signed_at : Z)
  | SignatureNotNewer (accepted previous : Z)
  | UnsignedNotNewer
  | NotAClient
  | ClientApiRequired
  | QueryInvalid (reason : query_error).

Inductive ControlPlaneError : Type :=
  | JoinDenied
  | NodeAlreadyExists (id : NodeId)
  | VpnIpAlreadyAllocated (ip : IpAddr)
  | NodeSignatureRequired (id : NodeId)
  | NodeSignatureRejected (id : NodeId) (reason : signature_reason)
  | NodeRequestReplay (id : NodeId)
  | NodeRequestAuthenticationCapacity
  | NodeUpdateRejected (id : NodeId) (reason : node_reason)
  | NodeRegistrationRejected (id : NodeId) (reason : node_reason)
  | NodeNotFound (id : NodeId)
  | InvalidClusterPolicy (reason : cluster_policy_reason)
  | ClusterPolicyChanged
  | OverlayRouteCatalogChanged
  | NodeStateChanged (id : NodeId)
  | VpnPoolExhausted
  | RouteDenied (route : bytes)
  | RelayDenied
  | TokenRejected (nonce : bytes) (status : TokenStatus)
  | TokenNotFound (nonce : bytes)
  | IssuerKeyNotFound (issuer : NodeId) (key_id : bytes)
  | TokenVerification (reason : verification_reason)
  | HttpMeshCapacity
  | InvalidTransportQuery (reason : mesh_reason)
  | Store (reason : store_reason).

End Errors.

(** [timestamp_within_skew] and [timestamp_not_after_skew] of the control plane, with the skew
    in nanoseconds: [chrono::Duration::from_std] refuses what exceeds [i64::MAX] milliseconds.
    The configured skew is minutes, so the sums below stay dates. *)
Definition chrono_from_std (d : Z) : option Z := if d <=? (2 ^ 63 - 1) * 1000000 then Some d else None.

Definition timestamp_within_skew (timestamp now max_skew : Z) : bool :=
  match chrono_from_std max_skew with
  | Some max_skew => (now - max_skew <=? timestamp) && (timestamp <=? now + max_skew)
  | None => false
  end.

Definition timestamp_not_after_skew (timestamp now max_skew : Z) : bool :=
  match chrono_from_std max_skew with
  | Some max_skew => timestamp <=? now + max_skew
  | None => false
  end.

End ControlTypes.
