(* ===== verification/TokenLedger.v ===== *)
(** * The ledger of join tokens (crates/ipars-control-plane/src/lib.rs)

    [InMemoryTokenLedger], the admission of tokens through it, the keys that may issue tokens
    and the checks a token passes before it is admitted. Every operation of the ledger holds its
    lock from beginning to end, so a run of the service is a sequence of these operations. *)

From S2P Require Import Prelude RustStd Endpoints OverlayTypes BTree Hashing Signal Quorum JoinTokens Crypto ControlTypes Instances.

Module TokenLedger.
Import JoinTokens ControlTypes.

Definition MAX_NODE_ENROLLMENT_TOKEN_USES : Z := 1000.

Definition NODE_ENROLLMENT_ALLOWED_ROLES : list bytes := Eval vm_compute in [bstr "edge"; bstr "worker"; bstr "gateway"].

Definition node_enrollment_role_is_allowed (role : bytes) : bool := bool_decide (role ∈ NODE_ENROLLMENT_ALLOWED_ROLES).

Definition enrollment_role_is_allowed (role : bytes) : bool := node_enrollment_role_is_allowed role || Overlay.role_is_client role.

Definition token_key (cluster_id nonce : bytes) : bytes := cluster_id ++ x3a :: nonce.

Section Ledger.
Context {Net : IpNetOps} {Build : IpNetBuildOps} {UO : UrlOps}.

(** ** The ledger *)

Record InMemoryTokenLedger : Type := {
  tokens : btree bytes TokenLedgerRecord;
  revocations : btree bytes TokenRevocationRecord
}.

Definition new : InMemoryTokenLedger := {| tokens := []; revocations := [] |}.

Definition with_tokens (st : InMemoryTokenLedger) (m : btree bytes TokenLedgerRecord) : InMemoryTokenLedger :=
  {| tokens := m; revocations := revocations st |}.

Definition ensure_token_definition_matches (stored requested : TokenLedgerRecord) : result unit ControlPlaneError :=
  if has_same_definition stored requested then Ok tt
  else Err (TokenVerification (TokenDefinitionConflict (rec_nonce requested))).

Definition set_revoked (at_ : option Z) (r : TokenLedgerRecord) : TokenLedgerRecord :=
  match at_ with
  | Some t => {| rec_cluster_id := rec_cluster_id r; rec_nonce := rec_nonce r; token_claims := token_claims r;
                 rec_issuer := rec_issuer r; rec_key_id := rec_key_id r; rec_role := rec_role r; rec_tags := rec_tags r;
                 rec_expires_at := rec_expires_at r; max_uses := max_uses r; uses := uses r; revoked_at := Some t;
                 created_at := created_at r |}
  | None => r
  end.

Definition use_once (r : TokenLedgerRecord) : TokenLedgerRecord :=
  {| rec_cluster_id := rec_cluster_id r; rec_nonce := rec_nonce r; token_claims := token_claims r; rec_issuer := rec_issuer r;
     rec_key_id := rec_key_id r; rec_role := rec_role r; rec_tags := rec_tags r; rec_expires_at := rec_expires_at r;
     max_uses := max_uses r; uses := saturating_add 32 (uses r) 1; revoked_at := revoked_at r; created_at := created_at r |}.

(** [state.revocations.get(&key).map(|revocation| revocation.revoked_at)] *)
Definition revocation_time (st : InMemoryTokenLedger) (key : bytes) : option Z := rev_revoked_at <$> bt_get key (revocations st).

(** [state.tokens.entry(key).or_insert(record)] *)
Definition or_insert (key : bytes) (record : TokenLedgerRecord) (st : InMemoryTokenLedger) : InMemoryTokenLedger * TokenLedgerRecord :=
  match bt_get key (tokens st) with
  | Some stored => (st, stored)
  | None => (with_tokens st (bt_insert key record (tokens st)), record)
  end.

Definition insert_token_if_absent (st : InMemoryTokenLedger) (record : TokenLedgerRecord)
  : InMemoryTokenLedger * result TokenLedgerRecord ControlPlaneError :=
  let key := token_key (rec_cluster_id record) (rec_nonce record) in
  let revoked_at := revocation_time st key in
  let '(st, stored) := or_insert key record st in
  match ensure_token_definition_matches stored record with
  | Err e => (st, Err e)
  | Ok _ =>
      let stored := set_revoked revoked_at stored in
      (with_tokens st (bt_insert key stored (tokens st)), Ok stored)
  end.

Definition get_token (st : InMemoryTokenLedger) (cluster_id nonce : bytes) : option TokenLedgerRecord :=
  bt_get (token_key cluster_id nonce) (tokens st).

Definition admit_token (st : InMemoryTokenLedger) (record : TokenLedgerRecord) (now : Z)
  : InMemoryTokenLedger * result TokenLedgerRecord ControlPlaneError :=
  let key := token_key (rec_cluster_id record) (rec_nonce record) in
  let revoked_at := revocation_time st key in
  let '(st, stored) := or_insert key record st in
  match ensure_token_definition_matches stored record with
  | Err e => (st, Err e)
  | Ok _ =>
      let stored := set_revoked revoked_at stored in
      let st := with_tokens st (bt_insert key stored (tokens st)) in
      match status stored now with
      | Active =>
          let stored := use_once stored in
          (with_tokens st (bt_insert key stored (tokens st)), Ok stored)
      | s => (st, Err (TokenRejected (rec_nonce record) s))
      end
  end.

Definition revoke_token (st : InMemoryTokenLedger) (revocation : TokenRevocationRecord)
  : InMemoryTokenLedger * (TokenRevocationRecord * option TokenLedgerRecord) :=
  let key := token_key (rev_cluster_id revocation) (rev_nonce revocation) in
  let stored := default revocation (bt_get key (revocations st)) in
  let revocations := bt_insert key stored (revocations st) in
  match bt_get key (tokens st) with
  | Some record =>
      let record := set_revoked (Some (rev_revoked_at stored)) record in
      ({| tokens := bt_insert key record (tokens st); revocations := revocations |}, (stored, Some record))
  | None => ({| tokens := tokens st; revocations := revocations |}, (stored, None))
  end.

Definition token_metrics (st : InMemoryTokenLedger) (cluster_id : bytes) (now : Z) : TokenLedgerMetrics :=
  let m := {| issued_count := 0; active_count := 0; revoked_count := 0; expired_count := 0; exhausted_count := 0; use_count := 0 |} in
  let m := foldl (fun m record => if bool_decide (rec_cluster_id record = cluster_id) then observe_record m record now else m)
             m (bt_values (tokens st)) in
  foldl (fun m kv => if bool_decide (rev_cluster_id kv.2 = cluster_id) && negb (bool_decide (is_Some (bt_get kv.1 (tokens st))))
                     then observe_revocation_tombstone m else m)
    m (revocations st).

(** ** Admission *)

Definition issue_from_claims (st : InMemoryTokenLedger) (c : JoinTokenClaims) (created_at : Z)
  : InMemoryTokenLedger * result TokenLedgerRecord ControlPlaneError :=
  insert_token_if_absent st (from_claims c created_at).

Definition admit_join (st : InMemoryTokenLedger) (c : JoinTokenClaims) (now : Z)
  : InMemoryTokenLedger * result TokenLedgerRecord ControlPlaneError :=
  admit_token st (from_claims c now) now.

Definition validate_issued_token (st : InMemoryTokenLedger) (c : JoinTokenClaims) (now : Z) : result TokenLedgerRecord ControlPlaneError :=
  let requested := from_claims c now in
  let? stored := ok_or (get_token st (cluster_id c) (nonce c)) (TokenNotFound (nonce c)) in
  let? _ := ensure_token_definition_matches stored requested in
  match status stored now with
  | Active => Ok stored
  | s => Err (TokenRejected (nonce c) s)
  end.

(** ** A token as the cluster means it

    For every key of the ledger: the claims that were first shown under it, how often they were
    admitted and whether the key was revoked. *)

Record Token : Type := { definition : option JoinTokenClaims; spent : Z; withdrawn : bool }.

Definition fresh_token : Token := {| definition := None; spent := 0; withdrawn := false |}.

Inductive answer : Type := Accepted | Unknown | Conflict | Refused (s : TokenStatus).

Definition token_status (t : Token) (c : JoinTokenClaims) (now : Z) : TokenStatus :=
  if withdrawn t then Revoked
  else if expires_at c <=? now then Expired
  else match Overlay.max_token_uses (policy c) with
       | Some limit => if limit <=? spent t then Exhausted else Active
       | None => Active
       end.

Inductive operation : Type :=
  | Issue (c : JoinTokenClaims) (created_at : Z)
  | Admission (c : JoinTokenClaims) (now : Z)
  | Validation (c : JoinTokenClaims) (now : Z)
  | Revocation (r : TokenRevocationRecord).

Definition claims_key (c : JoinTokenClaims) : bytes := token_key (cluster_id c) (nonce c).

Definition operation_key (o : operation) : bytes :=
  match o with
  | Issue c _ | Admission c _ | Validation c _ => claims_key c
  | Revocation r => token_key (rev_cluster_id r) (rev_nonce r)
  end.

(** What the operation does to the token of its key. *)
Definition token_step (t : Token) (o : operation) : Token * answer :=
  match o with
  | Issue c _ =>
      match definition t with
      | Some d => (t, if bool_decide (d = c) then Accepted else Conflict)
      | None => ({| definition := Some c; spent := spent t; withdrawn := withdrawn t |}, Accepted)
      end
  | Admission c now =>
      let t := match definition t with
               | Some _ => t
               | None => {| definition := Some c; spent := spent t; withdrawn := withdrawn t |}
               end in
      if negb (bool_decide (definition t = Some c)) then (t, Conflict)
      else match token_status t c now with
           | Active => ({| definition := definition t; spent := spent t + 1; withdrawn := withdrawn t |}, Accepted)
           | s => (t, Refused s)
           end
  | Validation c now =>
      (t, match definition t with
          | None => Unknown
          | Some d => if negb (bool_decide (d = c)) then Conflict
                      else match token_status t c now with Active => Accepted | s => Refused s end
          end)
  | Revocation _ => ({| definition := definition t; spent := spent t; withdrawn := true |}, Accepted)
  end.

(** What the service answers. *)
Definition result_answer {A} (r : result A ControlPlaneError) : answer :=
  match r with
  | Ok _ => Accepted
  | Err (TokenNotFound _) => Unknown
  | Err (TokenRejected _ s) => Refused s
  | Err _ => Conflict
  end.

Definition perform (st : InMemoryTokenLedger) (o : operation) : InMemoryTokenLedger * answer :=
  match o with
  | Issue c created_at => let '(st, r) := issue_from_claims st c created_at in (st, result_answer r)
  | Admission c now => let '(st, r) := admit_join st c now in (st, result_answer r)
  | Validation c now => (st, result_answer (validate_issued_token st c now))
  | Revocation r => ((revoke_token st r).1, Accepted)
  end.

Fixpoint run (st : InMemoryTokenLedger) (ops : list operation) : InMemoryTokenLedger * list answer :=
  match ops with
  | [] => (st, [])
  | o :: ops => let '(st, a) := perform st o in let '(st, l) := run st ops in (st, a :: l)
  end.

Fixpoint spec_run (s : bytes -> Token) (ops : list operation) : (bytes -> Token) * list answer :=
  match ops with
  | [] => (s, [])
  | o :: ops =>
      let k := operation_key o in
      let '(t, a) := token_step (s k) o in
      let '(s, l) := spec_run (fun k' => if decide (k' = k) then t else s k') ops in (s, a :: l)
  end.

(** The claims of an operation are of the types of the code. *)
Definition operation_typed (o : operation) : Prop :=
  match o with
  | Issue c _ | Admission c _ | Validation c _ => forall m, Overlay.max_token_uses (policy c) = Some m -> is_u32 m
  | Revocation _ => True
  end.

(** ** The ledger keeps the tokens *)

(** A record made from claims. *)
Record describes (r : TokenLedgerRecord) (c : JoinTokenClaims) : Prop := {
  de_claims : token_claims r = Some c;
  de_cluster : rec_cluster_id r = cluster_id c;
  de_nonce : rec_nonce r = nonce c;
  de_issuer : rec_issuer r = issuer c;
  de_key : rec_key_id r = key_id c;
  de_role : rec_role r = role c;
  de_tags : rec_tags r = tags c;
  de_expires : rec_expires_at r = expires_at c;
  de_uses : max_uses r = Overlay.max_token_uses (policy c)
}.

Lemma describes_from c t : describes (from_claims c t) c.
Proof. done. Qed.

Lemma describes_revoked at_ r c : describes r c -> describes (set_revoked at_ r) c.
Proof. intros []. destruct at_; by split. Qed.

Lemma describes_used r c : describes r c -> describes (use_once r) c.
Proof. by intros []. Qed.

Lemma same_definition r c d t : describes r c -> has_same_definition r (from_claims d t) = bool_decide (c = d).
Proof.
  intros [Hc ? ? ? ? ? ? ? ?]. unfold has_same_definition. rewrite Hc. simpl. destruct (decide (c = d)) as [<-|Hne].
  - rewrite !bool_decide_true by congruence. rewrite !andb_true_r. simpl. apply Z.eqb_eq. congruence.
  - rewrite (bool_decide_false (c = d)) by done. apply andb_false_r.
Qed.

Lemma ensure_same r c d t : describes r c ->
  ensure_token_definition_matches r (from_claims d t) =
  if bool_decide (c = d) then Ok tt else Err (TokenVerification (TokenDefinitionConflict (nonce d))).
Proof. intros H. unfold ensure_token_definition_matches. by rewrite (same_definition r c d t H). Qed.

(** The record under a key and the token it stands for. *)
Definition record_rel (r : TokenLedgerRecord) (rv : option Z) (t : Token) : Prop :=
  exists c, definition t = Some c /\ describes r c /\ uses r = Z.min (spent t) (2 ^ 32 - 1) /\ revoked_at r = rv /\
    (forall m, Overlay.max_token_uses (policy c) = Some m -> is_u32 m).

Definition token_rel (r : option TokenLedgerRecord) (rv : option Z) (t : Token) : Prop :=
  withdrawn t = bool_decide (is_Some rv) /\ 0 <= spent t /\
  match r with
  | Some r => record_rel r rv t
  | None => definition t = None /\ spent t = 0
  end.

Definition at_key (st : InMemoryTokenLedger) (k : bytes) (t : Token) : Prop :=
  token_rel (bt_get k (tokens st)) (revocation_time st k) t.

Lemma status_rel r rv t c now : withdrawn t = bool_decide (is_Some rv) -> definition t = Some c -> record_rel r rv t ->
  status r now = token_status t c now.
Proof.
  intros Hw Hd (c' & Hd' & [] & Hu & Hr & Hm). assert (c' = c) as -> by congruence. unfold status, token_status.
  rewrite Hw, Hr, de_expires0, de_uses0. destruct (bool_decide (is_Some rv)); [done|].
  destruct (expires_at c <=? now); [done|]. destruct (Overlay.max_token_uses (policy c)) as [m|] eqn:E; [|done].
  specialize (Hm m eq_refl). unfold in_width in Hm. rewrite Hu.
  by replace (m <=? Z.min (spent t) (2 ^ 32 - 1)) with (m <=? spent t) by lia.
Qed.

(** After [or_insert], the record is that of the first claims. *)
Definition shown (t : Token) (c : JoinTokenClaims) : Token :=
  match definition t with
  | Some _ => t
  | None => {| definition := Some c; spent := spent t; withdrawn := withdrawn t |}
  end.

Lemma or_insert_rel st c now t k :
  k = claims_key c -> at_key st k t -> (forall m, Overlay.max_token_uses (policy c) = Some m -> is_u32 m) ->
  exists st' r, or_insert k (from_claims c now) st = (st', r) /\ revocations st' = revocations st /\
    bt_get k (tokens st') = Some r /\ (forall k', k' <> k -> bt_get k' (tokens st') = bt_get k' (tokens st)) /\
    (exists d, definition (shown t c) = Some d /\ describes r d /\ (d <> c -> at_key st' k (shown t c)) /\
      record_rel (set_revoked (revocation_time st k) r) (revocation_time st k) (shown t c)).
Proof.
  intros -> (Hw & Hs & Hr) Hm. unfold or_insert, shown. destruct (bt_get (claims_key c) (tokens st)) as [r|] eqn:E.
  - exists st, r. pose proof Hr as (d & Hd & Hde & Hu & Hrv & Hdm). rewrite Hd. split_and!; try done.
    exists d. split_and!; try done; [intros _; split_and!; [done..|by rewrite E]|].
    exists d. split_and!; try done; [by apply describes_revoked|by destruct (revocation_time _ _)|].
    by destruct (revocation_time st (claims_key c)).
  - destruct Hr as [Hd H0]. rewrite Hd. eexists _, _. split; [done|]. simpl. split_and!; try done.
    + apply bt_get_insert.
    + intros k' Hk. by apply bt_get_insert_ne.
    + exists c. split_and!; try done. exists c. simpl. rewrite H0.
      split_and!; try done; [by apply describes_revoked|by destruct (revocation_time _ _)..].
Qed.

Lemma revocation_time_tokens st m k : revocation_time (with_tokens st m) k = revocation_time st k.
Proof. done. Qed.

(** A record stored under a key. *)
Lemma at_key_insert st k r t : withdrawn t = bool_decide (is_Some (revocation_time st k)) -> 0 <= spent t ->
  record_rel r (revocation_time st k) t -> at_key (with_tokens st (bt_insert k r (tokens st))) k t.
Proof. intros Hw Hs Hr. unfold at_key. rewrite revocation_time_tokens. simpl. rewrite bt_get_insert. by split_and!. Qed.

Lemma shown_rel t c : withdrawn (shown t c) = withdrawn t /\ spent (shown t c) = spent t.
Proof. unfold shown. by destruct (definition t). Qed.

Lemma record_used r rv t : 0 <= spent t -> record_rel r rv t ->
  record_rel (use_once r) rv {| definition := definition t; spent := spent t + 1; withdrawn := withdrawn t |}.
Proof.
  intros Hs (c & Hd & Hde & Hu & Hr & Hm). exists c. split_and!; try done; [by apply describes_used|].
  simpl. rewrite Hu. unfold saturating_add. lia.
Qed.

(** What an operation leaves alone. *)
Definition frame (k : bytes) (st st' : InMemoryTokenLedger) : Prop :=
  forall k', k' <> k -> bt_get k' (tokens st') = bt_get k' (tokens st) /\ revocation_time st' k' = revocation_time st k'.

Lemma frame_insert k r st st' : frame k st st' -> frame k st (with_tokens st' (bt_insert k r (tokens st'))).
Proof. intros H k' Hk. destruct (H k' Hk) as [E1 E2]. by rewrite revocation_time_tokens, <- E1; simpl; rewrite bt_get_insert_ne. Qed.

(** The first half of an admission is an insertion. *)
Lemma admit_after_insert st record now :
  admit_token st record now =
  match insert_token_if_absent st record with
  | (st, Ok stored) =>
      match status stored now with
      | Active => (with_tokens st (bt_insert (token_key (rec_cluster_id record) (rec_nonce record)) (use_once stored) (tokens st)),
                   Ok (use_once stored))
      | s => (st, Err (TokenRejected (rec_nonce record) s))
      end
  | (st, Err e) => (st, Err e)
  end.
Proof.
  unfold admit_token, insert_token_if_absent. destruct (or_insert _ _ _) as [st' stored].
  by destruct (ensure_token_definition_matches _ _).
Qed.

(** Showing claims to the ledger: they conflict with those under their key, or they are those. *)
Lemma insertion_rel st c now t : at_key st (claims_key c) t ->
  (forall m, Overlay.max_token_uses (policy c) = Some m -> is_u32 m) ->
  exists st' r, insert_token_if_absent st (from_claims c now) = (st', r) /\ frame (claims_key c) st st' /\
    at_key st' (claims_key c) (shown t c) /\
    match r with
    | Ok r => definition (shown t c) = Some c /\ record_rel r (revocation_time st' (claims_key c)) (shown t c)
    | Err e => exists d, definition t = Some d /\ d <> c /\ e = TokenVerification (TokenDefinitionConflict (nonce c))
    end.
Proof.
  intros Hk Hm. unfold insert_token_if_absent. cbn [rec_cluster_id rec_nonce from_claims]. fold (claims_key c).
  destruct (or_insert_rel st c now t _ eq_refl Hk Hm) as (st' & r & -> & Erv & Eg & Hf & d & Hd & Hde & Hne & Hr).
  rewrite (ensure_same r d c now Hde).
  assert (Hfr : frame (claims_key c) st st') by (intros k' Hk'; unfold revocation_time; by rewrite Erv, Hf).
  assert (Et : revocation_time st' (claims_key c) = revocation_time st (claims_key c)) by (unfold revocation_time; by rewrite Erv).
  destruct Hk as (Hw & Hs & _). destruct (shown_rel t c) as [Ew Es]. destruct (decide (d = c)) as [->|Edc].
  - rewrite bool_decide_true by done. eexists _, _. split; [done|]. rewrite revocation_time_tokens, Et.
    split_and!; [by apply frame_insert| |done|done]. apply at_key_insert; rewrite ?Et, ?Ew, ?Es; done.
  - rewrite bool_decide_false by done. eexists _, _. split; [done|]. split_and!; [done|by apply Hne|].
    exists d. unfold shown in Hd. destruct (definition t) as [d'|] eqn:Ed; [|by destruct Edc; injection Hd].
    rewrite Ed in Hd. by rewrite Hd.
Qed.

Lemma issue_rel st c created t : at_key st (claims_key c) t -> operation_typed (Issue c created) ->
  at_key (perform st (Issue c created)).1 (claims_key c) (token_step t (Issue c created)).1 /\
  (perform st (Issue c created)).2 = (token_step t (Issue c created)).2 /\ frame (claims_key c) st (perform st (Issue c created)).1.
Proof.
  intros Hk Hm. destruct (insertion_rel st c created t Hk Hm) as (st' & r & E & Hf & Ha & Hr).
  cbn [perform token_step]. unfold issue_from_claims. rewrite E. unfold shown in *. destruct r as [r|e]; cbn [fst snd result_answer].
  - destruct Hr as [Hd _]. destruct (definition t) as [d|] eqn:Ed; [|done].
    rewrite Ed in Hd. rewrite bool_decide_true by congruence. done.
  - destruct Hr as (d & Hd & Hne & ->). rewrite Hd in *. cbn [fst snd]. by rewrite bool_decide_false.
Qed.

Lemma admission_rel st c now t : at_key st (claims_key c) t -> operation_typed (Admission c now) ->
  at_key (perform st (Admission c now)).1 (claims_key c) (token_step t (Admission c now)).1 /\
  (perform st (Admission c now)).2 = (token_step t (Admission c now)).2 /\ frame (claims_key c) st (perform st (Admission c now)).1.
Proof.
  intros Hk Hm. destruct (insertion_rel st c now t Hk Hm) as (st' & r & E & Hf & Ha & Hr).
  cbn [perform token_step]. unfold admit_join. rewrite admit_after_insert, E. fold (shown t c).
  cbn [rec_cluster_id rec_nonce from_claims]. fold (claims_key c). destruct r as [r|e].
  - destruct Hr as [Hd Hr]. rewrite bool_decide_true by done. pose proof Ha as (Hw & Hs & _).
    rewrite (status_rel _ _ _ c now Hw Hd Hr). destruct (token_status (shown t c) c now); cbn [fst snd result_answer negb]; try done.
    split_and!; [|done|by apply frame_insert]. apply at_key_insert; cbn [withdrawn spent]; [done|lia|].
    by apply record_used.
  - destruct Hr as (d & Hd & Hne & ->). rewrite bool_decide_false; [done|].
    unfold shown. rewrite Hd. congruence.
Qed.

Lemma validation_rel st c now t : at_key st (claims_key c) t ->
  result_answer (validate_issued_token st c now) = (token_step t (Validation c now)).2.
Proof.
  intros (Hw & Hs & Hr). unfold validate_issued_token, get_token. fold (claims_key c). cbn [token_step snd].
  destruct (bt_get (claims_key c) (tokens st)) as [r|]; cbn [ok_or].
  - pose proof Hr as (d & Hd & Hde & _). rewrite (ensure_same r d c now Hde), Hd.
    destruct (decide (d = c)) as [->|Hne]; [|by rewrite !bool_decide_false by done].
    rewrite !bool_decide_true by done. cbn [negb].
    rewrite (status_rel _ _ _ c now Hw Hd Hr). by destruct (token_status t c now).
  - destruct Hr as [-> _]. done.
Qed.

Lemma revocation_rel st r t : let k := token_key (rev_cluster_id r) (rev_nonce r) in at_key st k t ->
  at_key (revoke_token st r).1 k {| definition := definition t; spent := spent t; withdrawn := true |} /\
  frame k st (revoke_token st r).1.
Proof.
  intros k (Hw & Hs & Hr). unfold revoke_token. fold k. set (stored := default r (bt_get k (revocations st))).
  assert (Hrv : rev_revoked_at <$> bt_get k (bt_insert k stored (revocations st)) = Some (rev_revoked_at stored)).
  { by rewrite bt_get_insert. }
  destruct (bt_get k (tokens st)) as [record|] eqn:E; cbn [fst]; split.
  - unfold at_key, revocation_time. cbn [tokens revocations]. rewrite Hrv, bt_get_insert. split_and!; [done|done|].
    destruct Hr as (c & Hd & Hde & Hu & _ & Hm). exists c. split_and!; try done. by apply describes_revoked.
  - intros k' Hk. unfold revocation_time. cbn [tokens revocations]. by rewrite !bt_get_insert_ne by done.
  - unfold at_key, revocation_time. cbn [tokens revocations]. rewrite Hrv, E. split_and!; [done|done|apply Hr..].
  - intros k' Hk. unfold revocation_time. cbn [tokens revocations]. by rewrite bt_get_insert_ne by done.
Qed.

Lemma perform_rel st o t : at_key st (operation_key o) t -> operation_typed o ->
  at_key (perform st o).1 (operation_key o) (token_step t o).1 /\ (perform st o).2 = (token_step t o).2 /\
  frame (operation_key o) st (perform st o).1.
Proof.
  destruct o as [c created|c now|c now|r]; cbn [operation_key]; intros Hk Hm;
    [by apply issue_rel|by apply admission_rel| |].
  - split_and!; [done|by apply validation_rel|done].
  - destruct (revocation_rel st r t Hk). done.
Qed.

Lemma run_rel ops : forall st s, (forall k, at_key st k (s k)) -> Forall operation_typed ops ->
  (run st ops).2 = (spec_run s ops).2.
Proof.
  induction ops as [|o ops IH]; intros st s Hk Hm; [done|]. apply Forall_cons in Hm as [Ho Hm].
  destruct (perform_rel st o (s (operation_key o)) (Hk _) Ho) as (Ha & Ean & Hf). cbn [run spec_run].
  destruct (perform st o) as [st' a]. destruct (token_step (s (operation_key o)) o) as [t a']. cbn [fst snd] in *. subst a'.
  specialize (IH st' (fun k' => if decide (k' = operation_key o) then t else s k')).
  destruct (run st' ops), (spec_run _ ops). simpl in *. f_equal. apply IH; [|done]. intros k.
  destruct (decide (k = operation_key o)) as [->|Hne]; [done|].
  destruct (Hf k Hne) as [E1 E2]. unfold at_key. rewrite E1, E2. apply Hk.
Qed.

Lemma new_rel k : at_key new k fresh_token.
Proof. done. Qed.

(** The admissions under a key that were accepted. *)
Fixpoint admitted (k : bytes) (ops : list operation) (answers : list answer) : list (JoinTokenClaims * Z) :=
  match ops, answers with
  | Admission c now :: ops, Accepted :: answers =>
      if decide (claims_key c = k) then (c, now) :: admitted k ops answers else admitted k ops answers
  | _ :: ops, _ :: answers => admitted k ops answers
  | _, _ => []
  end.

(** How often a token can still be admitted, and with which claims: never when it is revoked. *)
Definition left_over (t : Token) (l : list (JoinTokenClaims * Z)) : Prop :=
  (withdrawn t = true -> l = []) /\
  (l = [] \/ exists c, (definition t = None \/ definition t = Some c) /\ Forall (fun a => a.1 = c /\ a.2 < expires_at c) l /\
     forall m, Overlay.max_token_uses (policy c) = Some m -> spent t + lenZ l <= m).

Lemma token_status_active t c now : token_status t c now = Active ->
  withdrawn t = false /\ now < expires_at c /\ (forall m, Overlay.max_token_uses (policy c) = Some m -> spent t < m).
Proof.
  unfold token_status. intros H. destruct (withdrawn t); [done|]. destruct (expires_at c <=? now) eqn:E; [done|]. bool_to_prop.
  split_and!; [done|done|]. intros m Hm. rewrite Hm in H. destruct (m <=? spent t) eqn:E'; [done|]. by bool_to_prop.
Qed.

Lemma left_over_shown t c l : left_over (shown t c) l -> left_over t l.
Proof.
  unfold left_over, shown. destruct (definition t) eqn:Ed; [by rewrite Ed|]. cbn [withdrawn definition spent].
  intros [Hw [->|(d & _ & Hl)]]; split; try done; [by left|]. right. exists d. split; [by left|done].
Qed.

Lemma left_over_step t o a t' l : token_step t o = (t', a) -> left_over t' l ->
  left_over t (match o, a with Admission c now, Accepted => (c, now) :: l | _, _ => l end).
Proof.
  destruct o as [c created|c now|c now|r]; cbn [token_step].
  - destruct (definition t) eqn:Ed; [by intros [= <- <-]|]. intros [= <- <-] Hl. apply (left_over_shown t c).
    unfold shown. by rewrite Ed.
  - fold (shown t c). destruct (bool_decide (definition (shown t c) = Some c)) eqn:Ed; cbn [negb];
      [|intros [= <- <-]; apply left_over_shown].
    bool_to_prop. destruct (token_status (shown t c) c now) eqn:Es; try (intros [= <- <-]; apply left_over_shown).
    intros [= <- <-] [Hw Hl]. apply (left_over_shown t c). apply token_status_active in Es as (Ew & He & Hm).
    cbn [definition spent withdrawn] in *. split; [by rewrite Ew|]. right. exists c. split; [by right|].
    destruct Hl as [->|(d & Hd & Hf & Hb)].
    + split; [by repeat constructor|]. intros m E. specialize (Hm m E). simpl. lia.
    + assert (d = c) as -> by (destruct Hd; congruence). split; [by constructor|]. intros m E. specialize (Hb m E).
      rewrite length_cons. lia.
  - by intros [= <- <-].
  - intros [= <- <-] [Hw _]. cbn [withdrawn] in Hw. rewrite Hw by done. split; [done|by left].
Qed.

Lemma admitted_cons k o ops a answers :
  admitted k (o :: ops) (a :: answers) =
  if decide (operation_key o = k)
  then match o, a with Admission c now, Accepted => (c, now) :: admitted k ops answers | _, _ => admitted k ops answers end
  else admitted k ops answers.
Proof. destruct o, a; simpl; by repeat case_decide. Qed.

Lemma spec_left_over ops : forall s k, left_over (s k) (admitted k ops (spec_run s ops).2).
Proof.
  induction ops as [|o ops IH]; intros s k; [split; [done|by left]|]. cbn [spec_run].
  destruct (token_step (s (operation_key o)) o) as [t a] eqn:E.
  set (s' := fun k' => if decide (k' = operation_key o) then t else s k'). specialize (IH s' k).
  destruct (spec_run s' ops) as [s'' l]. cbn [snd] in *. rewrite admitted_cons.
  unfold s' in IH. destruct (decide (operation_key o = k)) as [<-|Hne].
  - rewrite decide_True in IH by done. by eapply left_over_step.
  - by rewrite decide_False in IH by congruence.
Qed.

Lemma spec_run_app ops ops' : forall s, (spec_run s (ops ++ ops')).2 = (spec_run s ops).2 ++ (spec_run (spec_run s ops).1 ops').2.
Proof.
  induction ops as [|o ops IH]; intros s; [done|]. cbn [app spec_run].
  destruct (token_step (s (operation_key o)) o) as [t a].
  specialize (IH (fun k' => if decide (k' = operation_key o) then t else s k')).
  destruct (spec_run _ (ops ++ ops')), (spec_run _ ops). simpl in *. by rewrite IH.
Qed.

Lemma spec_run_length ops : forall s, length (spec_run s ops).2 = length ops.
Proof.
  induction ops as [|o ops IH]; intros s; [done|]. cbn [spec_run]. destruct (token_step (s (operation_key o)) o) as [t a].
  specialize (IH (fun k' => if decide (k' = operation_key o) then t else s k')).
  destruct (spec_run _ ops). simpl in *. by rewrite IH.
Qed.

Lemma admitted_app k ops ops' l l' : length l = length ops ->
  admitted k (ops ++ ops') (l ++ l') = admitted k ops l ++ admitted k ops' l'.
Proof.
  revert l. induction ops as [|o ops IH]; intros [|a l]; try done. intros [= El]. cbn [app].
  rewrite !admitted_cons. case_decide; [|by apply IH]. rewrite (IH l El). by destruct o, a.
Qed.

End Ledger.

(** ** Keys that issue tokens *)

Section Service.
Context {Net : IpNetOps} {Build : IpNetBuildOps} {UO : UrlOps} {B64 : Base64Ops} {DO : DigestOps}.
Context {EO : EdOps} {ES : EdSignOps} {Json : ToJson JoinTokenClaims}.

Inductive IssuerKeyPolicy : Type := UnrestrictedKey | NodeEnrollment (max_ttl_seconds : Z).

Record TrustedIssuerKey : Type := { public_key : bytes; key_policy : IssuerKeyPolicy }.

Definition IssuerKeyRing : Type := btree (NodeId * bytes) TrustedIssuerKey.

Definition insert (ring : IssuerKeyRing) (issuer : NodeId) (key_id public_key_b64 : bytes) : IssuerKeyRing :=
  bt_insert (issuer, key_id) {| public_key := public_key_b64; key_policy := UnrestrictedKey |} ring.

Definition insert_node_enrollment_key (ring : IssuerKeyRing) (issuer : NodeId) (key_id public_key_b64 : bytes) (max_ttl_seconds : Z)
  : IssuerKeyRing :=
  bt_insert (issuer, key_id) {| public_key := public_key_b64; key_policy := NodeEnrollment max_ttl_seconds |} ring.

Definition client_claims_are_control_only (c : JoinTokenClaims) : bool :=
  Overlay.role_is_client (role c) && bool_decide (tags c = []) && bool_decide (Overlay.allowed_tags (policy c) = [])
  && negb (Overlay.allow_relay (policy c)) && bool_decide (Overlay.allowed_routes (policy c) = [])
  && bool_decide (Overlay.max_token_uses (policy c) = Some 1).

Definition join_token_endpoint_count (c : JoinTokenClaims) (kind : Endpoints.BootstrapEndpointKind) : Z :=
  lenZ (bs_of_list (omap (fun e => Endpoints.canonical_bootstrap_endpoint_url (Endpoints.url e))
                      (List.filter (fun e => bool_decide (Endpoints.kind e = kind)) (bootstrap_endpoints c)))).

(** The configured lifetime fits a duration: the daemon accepts no more than that of tokens. *)
Definition validate_issuer_key_policy (c : JoinTokenClaims) (p : IssuerKeyPolicy) : result unit ControlPlaneError :=
  match p with
  | UnrestrictedKey => Ok tt
  | NodeEnrollment max_ttl_seconds =>
      let reject reason := Err (TokenVerification (TokenPolicyRejected reason)) in
      let client := Overlay.role_is_client (role c) in
      if (max_ttl_seconds <=? 0)
         || (Z.min (max_ttl_seconds + JOIN_TOKEN_NOT_BEFORE_SKEW_SECONDS) (2 ^ 63 - 1) * Signal.SECOND <? expires_at c - not_before c)
      then reject ValidityExceeds
      else if negb (enrollment_role_is_allowed (role c)) then reject RoleNotAllowed
      else if client && negb (client_claims_are_control_only c) then reject ClientNotControlOnly
      else if negb (bool_decide (tags c = Overlay.allowed_tags (policy c))) then reject TagsDiffer
      else if negb (bool_decide (Overlay.allowed_routes (policy c) = [])) then reject RoutesNotAllowed
      else if negb (match Overlay.max_token_uses (policy c) with
                    | Some uses => (1 <=? uses) && (uses <=? MAX_NODE_ENROLLMENT_TOKEN_USES)
                    | None => false
                    end) then reject UsesUnbounded
      else if existsb (fun kind => join_token_endpoint_count c kind <? 2)
                (if client then [Endpoints.ControlPlane] else [Endpoints.ControlPlane; Endpoints.Signal; Endpoints.Stun])
           then reject EndpointsRequired
      else if negb client && Overlay.allow_relay (policy c) && (join_token_endpoint_count c Endpoints.Relay <? 2)
           then reject RelaysRequired
      else Ok tt
  end.

(** [ControlPlaneJoinService]: the configuration it reads, the issuers and the ledger. *)
Record JoinService : Type := {
  service_cluster : bytes;
  signature_max_age : Z;
  issuer_keys : IssuerKeyRing
}.

Definition validate_join_token (sv : JoinService) (token : SignedJoinToken) (now : Z) : result unit ControlPlaneError :=
  let? _ := map_err (fun e => TokenVerification (TokenShape e)) (validate_token_shape token) in
  if negb (Overlay.allow_join (policy (claims token))) then Err JoinDenied
  else
    let? key := ok_or (bt_get (issuer (claims token), key_id (claims token)) (issuer_keys sv))
                  (IssuerKeyNotFound (issuer (claims token)) (key_id (claims token))) in
    let? _ := map_err (fun e => TokenVerification (TokenCrypto e))
                (Crypto.verify_join_token token (public_key key) now (service_cluster sv)) in
    validate_issuer_key_policy (claims token) (key_policy key).

Definition issue_join_token (sv : JoinService) (st : InMemoryTokenLedger) (token : SignedJoinToken) (created_at : Z)
  : InMemoryTokenLedger * result TokenLedgerRecord ControlPlaneError :=
  match validate_join_token sv token created_at with
  | Err e => (st, Err e)
  | Ok _ => issue_from_claims st (claims token) created_at
  end.

Definition validate_issued_join_token (sv : JoinService) (st : InMemoryTokenLedger) (token : SignedJoinToken) (now : Z)
  : result TokenLedgerRecord ControlPlaneError :=
  let? _ := validate_join_token sv token now in validate_issued_token st (claims token) now.

Record RevokeTokenRequest : Type := {
  revoke_cluster_id : bytes;
  revoke_nonce : bytes;
  revoke_issuer : NodeId;
  revoke_key_id : bytes;
  issuer_signature : option Crypto.NodeRequestSignature
}.

(** [RevokeTokenSignaturePayload], by its fields and the time of the signature. *)
Definition revocation_payload (r : RevokeTokenRequest) (signed_at : Z) : bytes * bytes * NodeId * bytes * Z :=
  (revoke_cluster_id r, revoke_nonce r, revoke_issuer r, revoke_key_id r, signed_at).

Context {RevokeJson : ToJson (bytes * bytes * NodeId * bytes * Z)}.

Definition service_revoke_token (sv : JoinService) (st : InMemoryTokenLedger) (r : RevokeTokenRequest) (now : Z)
  : InMemoryTokenLedger * result (TokenRevocationRecord * option TokenLedgerRecord) ControlPlaneError :=
  let reject reason := (st, Err (TokenVerification reason)) in
  if negb (bool_decide (revoke_cluster_id r = service_cluster sv))
  then reject (RevocationCluster (service_cluster sv) (revoke_cluster_id r))
  else match bt_get (revoke_issuer r, revoke_key_id r) (issuer_keys sv) with
  | None => (st, Err (IssuerKeyNotFound (revoke_issuer r) (revoke_key_id r)))
  | Some key =>
      match key_policy key with
      | NodeEnrollment _ => reject RevocationKeyNotAuthorized
      | UnrestrictedKey =>
          match issuer_signature r with
          | None => reject RevocationUnsigned
          | Some signature =>
              match Crypto.verify_signed_request (revocation_payload r) (issuer_signature r) (public_key key) with
              | Err e => reject (TokenCrypto e)
              | Ok _ =>
                  if negb (timestamp_within_skew (Crypto.signed_at signature) now (signature_max_age sv))
                  then reject (RevocationWindow (Crypto.signed_at signature))
                  else
                    let '(st, outcome) := revoke_token st {| rev_cluster_id := revoke_cluster_id r; rev_nonce := revoke_nonce r;
                                            rev_issuer := revoke_issuer r; rev_key_id := revoke_key_id r; rev_revoked_at := now |} in
                    (st, Ok outcome)
              end
          end
      end
  end.

(** What an enrollment key may sign. *)
Record enrollment_ok (c : JoinTokenClaims) (max_ttl_seconds : Z) : Prop := {
  en_ttl : 0 < max_ttl_seconds /\ expires_at c - not_before c <= (max_ttl_seconds + 5) * Signal.SECOND;
  en_role : role c ∈ bstr "client" :: NODE_ENROLLMENT_ALLOWED_ROLES;
  en_client : role c = bstr "client" -> client_claims_are_control_only c = true;
  en_tags : tags c = Overlay.allowed_tags (policy c);
  en_routes : Overlay.allowed_routes (policy c) = [];
  en_uses : exists uses, Overlay.max_token_uses (policy c) = Some uses /\ 1 <= uses <= 1000
}.

Lemma issuer_policy_ok c p : validate_issuer_key_policy c p = Ok tt ->
  match p with UnrestrictedKey => True | NodeEnrollment ttl => enrollment_ok c ttl end.
Proof.
  destruct p as [|ttl]; [done|]. unfold validate_issuer_key_policy. rewrite !guard_ok.
  intros (Ht & Hr & Hc & Htags & Hroutes & Hu & _). bool_to_prop.
  unfold JOIN_TOKEN_NOT_BEFORE_SKEW_SECONDS, MAX_NODE_ENROLLMENT_TOKEN_USES in *. split; try done.
  - unfold Signal.SECOND in *. lia.
  - unfold enrollment_role_is_allowed, node_enrollment_role_is_allowed, Overlay.role_is_client in Hr.
    apply orb_true_iff in Hr as [Hr|Hr]; bool_to_prop; apply elem_of_cons; [by right|by left].
  - intros E. unfold Overlay.role_is_client in Hc. rewrite bool_decide_true in Hc by done.
    destruct Hc as [Hc|Hc]; [done|]. by apply negb_false_iff in Hc.
  - destruct (Overlay.max_token_uses (policy c)) as [uses|]; [|done]. exists uses. split; [done|lia].
Qed.

(** A token passes exactly when it is well formed, allows joining, and was signed for this
    cluster and this time by a key the ring trusts with such a token. *)
Lemma validate_join_token_ok sv token now : validate_join_token sv token now = Ok tt <->
  Overlay.allow_join (policy (claims token)) = true /\
  exists key, bt_get (issuer (claims token), key_id (claims token)) (issuer_keys sv) = Some key /\
    Crypto.token_ok token (public_key key) now (service_cluster sv) /\
    validate_issuer_key_policy (claims token) (key_policy key) = Ok tt.
Proof.
  unfold validate_join_token. rewrite bind_unit_ok, map_err_ok, token_shape_ok, guard_ok, negb_false_iff, bind_ok. split.
  - intros (_ & Hj & key & Hk%ok_or_ok & H). rewrite bind_unit_ok, map_err_ok, Crypto.verify_join_token_ok in H.
    split; [done|]. by exists key.
  - intros (Hj & key & Hk & Ht & Hp). split; [|split; [done|]].
    + destruct Ht as [Hw _ _ (k & sb & pl & _ & Hs & _)]. split; [by exists sb|done].
    + exists key. rewrite ok_or_ok, bind_unit_ok, map_err_ok, Crypto.verify_join_token_ok. done.
Qed.

End Service.

(** C20: The ledger of join tokens keeps its promise, whatever sequence of issues, admissions,
    validations and revocations it is given: every answer is that of the specification, in which
    a key of the ledger stands for one token. The first claims shown under a key define it, other
    claims conflict; an admission is accepted exactly when the token is not revoked, not expired
    and not used up, and counts as one use; a revocation holds even when it comes before the
    token. Counters that saturate and the time a revocation is kept do not show. *)
Theorem ledger_refines {Net : IpNetOps} {Build : IpNetBuildOps} {UO : UrlOps} ops :
  Forall operation_typed ops -> (run new ops).2 = (spec_run (fun _ => fresh_token) ops).2.
Proof. apply run_rel. apply new_rel. Qed.

(** C18: A join token cannot be used more often than it says. Of the admissions under one key,
    in any run of the ledger, those accepted are all for the same claims, each before these
    expire, together no more than the uses the claims allow; and none comes after a revocation
    of the key. *)
Theorem admissions_bounded {Net : IpNetOps} {Build : IpNetBuildOps} {UO : UrlOps} ops k c now :
  Forall operation_typed ops -> (c, now) ∈ admitted k ops (run new ops).2 ->
  Forall (fun a => a.1 = c /\ a.2 < expires_at c) (admitted k ops (run new ops).2) /\
  (forall m, Overlay.max_token_uses (policy c) = Some m -> lenZ (admitted k ops (run new ops).2) <= m) /\
  (forall before r after, ops = before ++ Revocation r :: after -> operation_key (Revocation r) = k ->
     admitted k ops (run new ops).2 = admitted k before (run new before).2).
Proof.
  intros Hm Hin. assert (E : (run new ops).2 = (spec_run (fun _ => fresh_token) ops).2) by by apply run_rel.
  rewrite E in *. destruct (spec_left_over ops (fun _ => fresh_token) k) as [_ Hl].
  split_and!.
  - destruct Hl as [Hl|(d & _ & Hf & _)]; [rewrite Hl in Hin; by apply not_elem_of_nil in Hin|].
    rewrite Forall_forall in Hf. destruct (Hf _ Hin) as [<- _]. by apply Forall_forall.
  - intros m Emax. destruct Hl as [Hl|(d & _ & Hf & Hb)]; [rewrite Hl in Hin; by apply not_elem_of_nil in Hin|].
    rewrite Forall_forall in Hf. destruct (Hf _ Hin) as [Ed _]. simpl in Ed. subst d. apply (Hb m Emax).
  - intros before r after -> Ek. apply Forall_app in Hm as [Hm _].
    rewrite (run_rel before new (fun _ => fresh_token)) by (done || apply new_rel).
    rewrite spec_run_app, admitted_app by apply spec_run_length. rewrite <- (app_nil_r (admitted k before _)) at 2. f_equal.
    cbn [spec_run token_step]. rewrite Ek.
    match goal with |- context [spec_run ?s' after] => pose proof (spec_left_over after s' k) as [Hn _]; destruct (spec_run s' after) end.
    rewrite decide_True in Hn by done. by apply Hn.
Qed.

(** A token for two uses: the third admission is refused, and so is one after a revocation. *)
Module TokenExample.
Import Instances Crypto.CryptoExample.

Definition other_claims : JoinTokenClaims := {|
  cluster_id := bstr "c"; bootstrap_endpoints := []; expires_at := 3600 * Signal.SECOND; not_before := 0; role := bstr "edge";
  tags := []; issuer := bstr "issuer"; key_id := bstr "k1"; policy := policy sample_claims; nonce := bstr "n-2" |}.

Definition withdraw_other : TokenRevocationRecord :=
  {| rev_cluster_id := bstr "c"; rev_nonce := bstr "n-2"; rev_issuer := bstr "issuer"; rev_key_id := bstr "k1"; rev_revoked_at := 5 |}.

Definition sample_run : list operation :=
  [Issue sample_claims 1; Admission sample_claims 2; Admission other_claims 3; Admission sample_claims 4; Revocation withdraw_other;
   Admission sample_claims 6; Admission other_claims 7; Validation sample_claims 8].

Lemma sample_run_typed : Forall operation_typed sample_run.
Proof. repeat apply Forall_cons_2; try apply Forall_nil_2; try done; by intros m [= <-]. Qed.

Lemma ledger_refines_witness :
  (run new sample_run).2 = [Accepted; Accepted; Accepted; Accepted; Accepted; Refused Exhausted; Refused Revoked; Refused Exhausted].
Proof. rewrite (ledger_refines sample_run sample_run_typed). vm_compute. reflexivity. Defined.

Lemma sample_admitted :
  admitted (claims_key sample_claims) sample_run (run new sample_run).2 = [(sample_claims, 2); (sample_claims, 4)].
Proof. vm_cast_no_check (eq_refl [(sample_claims, 2); (sample_claims, 4)]). Qed.

Lemma admissions_bounded_witness :
  (sample_claims, 2) ∈ admitted (claims_key sample_claims) sample_run (run new sample_run).2 /\
  lenZ (admitted (claims_key sample_claims) sample_run (run new sample_run).2) <= 2.
Proof.
  assert (H : (sample_claims, 2) ∈ admitted (claims_key sample_claims) sample_run (run new sample_run).2)
    by (rewrite sample_admitted; by left).
  split; [exact H|].
  exact (proj1 (proj2 (admissions_bounded sample_run (claims_key sample_claims) sample_claims 2 sample_run_typed H)) 2 eq_refl).
Defined.

End TokenExample.
End TokenLedger.
