(* ===== verification/RequestAuth.v ===== *)
(** * Authentication of requests (crates/ipars-control-plane/src/lib.rs)

    Requests that nodes and clients sign carry a time and a nonce: the control plane checks the
    signature against the registered identity, the time against its clock, and the nonce
    against those it has accepted. Times are nanoseconds. *)

From S2P Require Import Prelude RustStd Endpoints OverlayTypes BTree Hashing Signal Quorum JoinTokens Base64 Crypto ControlTypes Instances.

Module RequestAuth.
Import JoinTokens ControlTypes.

Definition MAX_ACCEPTED_NODE_QUERY_NONCES : Z := 131072.
Definition MAX_NODE_NONCES : Z := 32768.

Inductive ControlPlaneNodeQueryKind : Type := QueryPeerMap | QueryNeighborMap | QueryPaths | QueryHttpTransport | QueryHttpMesh.

Inductive ClientRequestKind : Type := ClientPeerMap | ClientRemove.

#[global] Instance ControlPlaneNodeQueryKind_eq_dec : EqDecision ControlPlaneNodeQueryKind.
Proof. solve_decision. Defined.
#[global] Instance ClientRequestKind_eq_dec : EqDecision ClientRequestKind.
Proof. solve_decision. Defined.

Definition kind_as_str (kind : ClientRequestKind) : bytes :=
  match kind with ClientPeerMap => bstr "peer_map" | ClientRemove => bstr "remove" end.

Section Auth.
Context {Net : IpNetOps} {Build : IpNetBuildOps} {UO : UrlOps} {B64 : Base64Ops} {DO : DigestOps}.
Context {EO : EdOps} {ES : EdSignOps}.

(** [accepted_node_query_nonces]: who sent which nonce, and when it was accepted. *)
Definition NonceCache : Type := btree (NodeId * bytes) Z.

(** [now.signed_duration_since(accepted_at).to_std().map_or(true, |age| age <= max_age)] *)
Definition remembered (max_age now accepted_at : Z) : bool := (now - accepted_at <? 0) || (now - accepted_at <=? max_age).

Definition accept_node_query_nonce (max_age : Z) (cache : NonceCache) (node_id : NodeId) (signed_at : Z) (nonce : bytes) (now : Z)
  : NonceCache * result unit ControlPlaneError :=
  if negb (timestamp_within_skew signed_at now max_age) then (cache, Err (NodeSignatureRejected node_id (SignatureWindow signed_at)))
  else
    let key := (node_id, nonce) in
    let cache := bt_retain (fun _ accepted_at => remembered max_age now accepted_at) cache in
    if bool_decide (is_Some (bt_get key cache)) then (cache, Err (NodeRequestReplay node_id))
    else if MAX_ACCEPTED_NODE_QUERY_NONCES <=? lenZ cache then (cache, Err NodeRequestAuthenticationCapacity)
    else (bt_insert key now cache, Ok tt).

(** The nonces of the in-memory mesh store: for every node, until when each is kept. *)
Definition MeshNonces : Type := btree NodeId (btree bytes Z).

Definition consume_nonce (nonces : MeshNonces) (node : NodeId) (nonce : bytes) (expires_at now : Z)
  : MeshNonces * result bool ControlPlaneError :=
  let own := bt_retain (fun _ expiry => now <? expiry) (default [] (bt_get node nonces)) in
  let kept := bt_insert node own nonces in
  if bool_decide (is_Some (bt_get nonce own)) then (kept, Ok false)
  else if MAX_NODE_NONCES <=? lenZ own then (kept, Err HttpMeshCapacity)
  else (bt_insert node (bt_insert nonce expires_at own) nonces, Ok true).

(** ** Requests *)

Record ControlPlaneNodeQueryRequest : Type := {
  query_node_id : NodeId;
  query_signature : option Crypto.NodeApiRequestSignature
}.

Record OverlayPathQuery : Type := {
  query_source : NodeId;
  query_destination : IpAddr;
  source_identity_proof : Crypto.NodeApiRequestSignature
}.

Record ClientControlRequest : Type := {
  client_id : NodeId;
  active_gateway_node_id : option NodeId;
  client_signature : option Crypto.NodeApiRequestSignature
}.

(** The payloads that are signed, by their fields. *)
Context {QueryJson : ToJson (ControlPlaneNodeQueryKind * NodeId * Z * bytes)}.
Context {PathJson : ToJson (NodeId * IpAddr * Z * bytes)}.

Definition verify_control_plane_node_query_signature (r : ControlPlaneNodeQueryRequest) (kind : ControlPlaneNodeQueryKind)
    (node_public_key_b64 : bytes) : result unit Crypto.CryptoError :=
  let? s := ok_or (query_signature r) Crypto.InvalidSignature in
  let? payload := ok_or (to_vec (kind, query_node_id r, Crypto.api_signed_at s, Crypto.api_nonce s)) Crypto.TokenSerialization in
  if bool_decide (kind = QueryHttpTransport) || bool_decide (kind = QueryHttpMesh) then
    let? nonce := ok_or (b64url_decode (Crypto.api_nonce s)) Crypto.InvalidRequestNonce in
    if negb (lenZ nonce =? 48) || negb (bool_decide (b64url_encode nonce = Crypto.api_nonce s)) then Err Crypto.InvalidRequestNonce
    else
      let? signature := map_err Crypto.InvalidSignatureEnvelope (decode_ed25519_signature (Crypto.api_signature s)) in
      Crypto.verify_ed25519_payload payload signature node_public_key_b64
  else Crypto.verify_node_api_payload payload s node_public_key_b64.

Definition validate_path_query (q : OverlayPathQuery) : result unit query_error :=
  let? _ := map_err QueryFields (Overlay.validate_overlay_identifier (query_source q) (bstr "source")) in
  let? _ := map_err QueryFields (Overlay.validate_overlay_destination (query_destination q)) in
  let? _ := map_err QueryFields
              (Overlay.validate_overlay_identifier (Crypto.api_nonce (source_identity_proof q)) (bstr "source_identity_proof")) in
  let? _ := map_err QueryProof (decode_ed25519_signature (Crypto.api_signature (source_identity_proof q))) in
  Ok tt.

Definition verify_overlay_path_query_signature (q : OverlayPathQuery) (node_public_key_b64 : bytes) : result unit Crypto.CryptoError :=
  let? _ := map_err (fun _ => Crypto.InvalidSignature) (validate_path_query q) in
  let p := source_identity_proof q in
  let? payload := ok_or (to_vec (query_source q, query_destination q, Crypto.api_signed_at p, Crypto.api_nonce p)) Crypto.TokenSerialization in
  Crypto.verify_node_api_payload payload p node_public_key_b64.

(** [i64::to_string] *)
Definition i64_to_string (z : Z) : bytes := if z <? 0 then x2d :: u64_to_string (- z) else u64_to_string z.

(** The fields of a client's request, one on a line. *)
Definition lines (fields : list bytes) : bytes := concat (map (fun f => f ++ [x0a]) fields).

Definition client_signature_payload (r : ClientControlRequest) (kind : ClientRequestKind) (signed_at : Z) (nonce : bytes) : bytes :=
  let timestamp := i64_to_string (signed_at / Signal.SECOND) in
  match active_gateway_node_id r with
  | Some gateway => lines [bstr "heteronetwork-client-request-v2"; kind_as_str kind; client_id r; gateway; timestamp; nonce]
  | None => lines [bstr "heteronetwork-client-request-v1"; kind_as_str kind; client_id r; timestamp; nonce]
  end.

Definition verify_client_control_request_signature (r : ClientControlRequest) (kind : ClientRequestKind) (client_public_key_b64 : bytes)
  : result unit Crypto.CryptoError :=
  let? s := ok_or (client_signature r) Crypto.InvalidSignature in
  let? _ := Crypto.validate_node_api_request_nonce (Crypto.api_nonce s) in
  let payload := client_signature_payload r kind (Crypto.api_signed_at s) (Crypto.api_nonce s) in
  let? signature := map_err Crypto.InvalidSignatureEnvelope (decode_ed25519_signature (Crypto.api_signature s)) in
  Crypto.verify_ed25519_payload payload signature client_public_key_b64.

(** ** Handlers

    The registered nodes are those of the store at the moment of the lookup. *)

Record AuthState : Type := { nonce_cache : NonceCache; mesh_nonces : MeshNonces }.

Definition rejected_by {A} (id : NodeId) (r : result A Crypto.CryptoError) : result A ControlPlaneError :=
  map_err (fun e => NodeSignatureRejected id (SignatureCrypto e)) r.

Definition authenticate_node_query (max_age : Z) (nodes : btree NodeId Overlay.NodeRecord) (st : AuthState)
    (r : ControlPlaneNodeQueryRequest) (kind : ControlPlaneNodeQueryKind) (now : Z)
  : AuthState * result Overlay.NodeRecord ControlPlaneError :=
  let id := query_node_id r in
  match query_signature r with
  | None => (st, Err (NodeSignatureRequired id))
  | Some signature =>
      match bt_get id nodes with
      | None => (st, Err (NodeNotFound id))
      | Some node =>
          if Overlay.role_is_client (Overlay.role node) && negb (bool_decide (kind = QueryHttpMesh))
          then (st, Err (NodeSignatureRejected id ClientApiRequired))
          else match rejected_by id (verify_control_plane_node_query_signature r kind (Overlay.identity_public_key node)) with
          | Err e => (st, Err e)
          | Ok _ =>
              if negb (timestamp_within_skew (Crypto.api_signed_at signature) now max_age)
              then (st, Err (NodeSignatureRejected id (SignatureWindow (Crypto.api_signed_at signature))))
              else if bool_decide (kind = QueryHttpMesh) then
                if Overlay.is_administratively_stopped node then (st, Err RelayDenied)
                else
                  let expires := Crypto.api_signed_at signature + max_age + Signal.SECOND in
                  let '(m, r) := consume_nonce (mesh_nonces st) (Overlay.node_id node) (Crypto.api_nonce signature) expires now in
                  let st := {| nonce_cache := nonce_cache st; mesh_nonces := m |} in
                  match r with
                  | Ok true => (st, Ok node)
                  | Ok false => (st, Err (NodeRequestReplay (Overlay.node_id node)))
                  | Err e => (st, Err e)
                  end
              else
                let '(c, r) := accept_node_query_nonce max_age (nonce_cache st) id (Crypto.api_signed_at signature)
                                 (Crypto.api_nonce signature) now in
                let st := {| nonce_cache := c; mesh_nonces := mesh_nonces st |} in
                match r with Ok _ => (st, Ok node) | Err e => (st, Err e) end
          end
      end
  end.

Definition authenticate_overlay_path_query (max_age : Z) (nodes : btree NodeId Overlay.NodeRecord) (st : AuthState)
    (q : OverlayPathQuery) (now : Z) : AuthState * result Overlay.NodeRecord ControlPlaneError :=
  let id := query_source q in
  match map_err (fun e => NodeSignatureRejected id (QueryInvalid e)) (validate_path_query q) with
  | Err e => (st, Err e)
  | Ok _ =>
      match bt_get id nodes with
      | None => (st, Err (NodeNotFound id))
      | Some node =>
          if Overlay.role_is_client (Overlay.role node) then (st, Err (NodeSignatureRejected id ClientApiRequired))
          else match rejected_by id (verify_overlay_path_query_signature q (Overlay.identity_public_key node)) with
          | Err e => (st, Err e)
          | Ok _ =>
              let p := source_identity_proof q in
              let '(c, r) := accept_node_query_nonce max_age (nonce_cache st) id (Crypto.api_signed_at p) (Crypto.api_nonce p) now in
              let st := {| nonce_cache := c; mesh_nonces := mesh_nonces st |} in
              match r with Ok _ => (st, Ok node) | Err e => (st, Err e) end
          end
      end
  end.

(** The code repeats the body of [accept_node_query_nonce] here; the error of the window is the
    same one. *)
Definition authenticate_client_request (max_age : Z) (nodes : btree NodeId Overlay.NodeRecord) (st : AuthState)
    (r : ClientControlRequest) (kind : ClientRequestKind) (now : Z) : AuthState * result Overlay.NodeRecord ControlPlaneError :=
  let id := client_id r in
  if bool_decide (kind = ClientRemove) && bool_decide (is_Some (active_gateway_node_id r))
  then (st, Err (NodeUpdateRejected id RemovalSelectsGateway))
  else match client_signature r with
  | None => (st, Err (NodeSignatureRequired id))
  | Some signature =>
      match bt_get id nodes with
      | None => (st, Err (NodeNotFound id))
      | Some client =>
          if negb (Overlay.role_is_client (Overlay.role client)) then (st, Err (NodeSignatureRejected id NotAClient))
          else match rejected_by id (verify_client_control_request_signature r kind (Overlay.identity_public_key client)) with
          | Err e => (st, Err e)
          | Ok _ =>
              let '(c, r) := accept_node_query_nonce max_age (nonce_cache st) id (Crypto.api_signed_at signature)
                               (Crypto.api_nonce signature) now in
              let st := {| nonce_cache := c; mesh_nonces := mesh_nonces st |} in
              match r with Ok _ => (st, Ok client) | Err e => (st, Err e) end
          end
      end
  end.

(** ** Replays *)

(** A request as the cache sees it: who signed it, when, with which nonce, and when it came. *)
Record Presented : Type := { p_node : NodeId; p_signed : Z; p_nonce : bytes; p_now : Z }.

Definition present (max_age : Z) (cache : NonceCache) (p : Presented) : NonceCache * result unit ControlPlaneError :=
  accept_node_query_nonce max_age cache (p_node p) (p_signed p) (p_nonce p) (p_now p).

Definition serve (max_age : Z) (cache : NonceCache) (l : list Presented) : NonceCache :=
  foldl (fun cache p => (present max_age cache p).1) cache l.

Lemma within_skew timestamp now max_age : timestamp_within_skew timestamp now max_age = true <->
  max_age <= (2 ^ 63 - 1) * 1000000 /\ now - max_age <= timestamp <= now + max_age.
Proof.
  unfold timestamp_within_skew, chrono_from_std. destruct (max_age <=? _) eqn:E; bool_to_prop.
  - rewrite andb_true_iff, !Z.leb_le. lia.
  - split; [done|lia].
Qed.

Lemma present_wf max_age cache p : bt_wf cache -> bt_wf (present max_age cache p).1.
Proof.
  intros H. unfold present, accept_node_query_nonce. destruct (negb _); [done|].
  case_bool_decide; [by apply bt_wf_retain|]. destruct (_ <=? _); [by apply bt_wf_retain|].
  by apply bt_wf_insert, bt_wf_retain.
Qed.

(** A nonce accepted at [t0] stays while it is remembered. *)
Lemma present_keeps max_age cache p k t0 : bt_wf cache -> k <> (p_node p, p_nonce p) ->
  remembered max_age (p_now p) t0 = true -> bt_get k cache = Some t0 -> bt_get k (present max_age cache p).1 = Some t0.
Proof.
  intros Hw Hk Hr Hg. unfold present, accept_node_query_nonce. destruct (negb _); [done|].
  assert (E : bt_get k (bt_retain (fun _ a => remembered max_age (p_now p) a) cache) = Some t0)
    by (rewrite bt_get_retain by done; rewrite Hg; simpl; by rewrite Hr).
  case_bool_decide; [done|]. destruct (_ <=? _); [done|]. cbn [fst]. by rewrite bt_get_insert_ne.
Qed.

(** Other requests never bring a nonce back. *)
Lemma present_other max_age cache p k : bt_wf cache -> k <> (p_node p, p_nonce p) ->
  bt_get k (present max_age cache p).1 = bt_get k cache \/ bt_get k (present max_age cache p).1 = None.
Proof.
  intros Hw Hk. unfold present, accept_node_query_nonce. destruct (negb _); [by left|].
  assert (E : bt_get k (bt_retain (fun _ a => remembered max_age (p_now p) a) cache) = bt_get k cache \/
              bt_get k (bt_retain (fun _ a => remembered max_age (p_now p) a) cache) = None).
  { rewrite bt_get_retain by done. destruct (bt_get k cache) as [a|]; [|by left]. simpl. destruct (remembered _ _ _); tauto. }
  case_bool_decide; [done|]. destruct (_ <=? _); [done|]. cbn [fst]. by rewrite bt_get_insert_ne.
Qed.

Lemma serve_facts max_age l : forall cache k t0 t, bt_wf cache -> bt_get k cache = Some t0 ->
  Forall (fun p => t0 <= p_now p <= t /\ (p_node p, p_nonce p) <> k) l ->
  bt_wf (serve max_age cache l) /\
  (bt_get k (serve max_age cache l) = Some t0 \/ bt_get k (serve max_age cache l) = None) /\
  (t <= t0 + max_age -> bt_get k (serve max_age cache l) = Some t0).
Proof.
  induction l as [|p l IH]; intros cache k t0 t Hw Hg Hl; [by split_and!; try left|].
  apply Forall_cons in Hl as [[Ht Hk] Hl]. unfold serve. cbn [foldl]. fold (serve max_age (present max_age cache p).1 l).
  pose proof (present_wf max_age cache p Hw) as Hw'.
  destruct (present_other max_age cache p k Hw ltac:(done)) as [E|E].
  - rewrite Hg in E. by apply (IH _ k t0 t).
  - assert (Hlate : t0 + max_age < p_now p).
    { apply Z.nle_gt. intros Hle. enough (bt_get k (present max_age cache p).1 = Some t0) by congruence.
      apply present_keeps; try done. unfold remembered. lia. }
    assert (Hn : forall l cache, bt_wf cache -> Forall (fun p => t0 <= p_now p <= t /\ (p_node p, p_nonce p) <> k) l ->
      bt_get k cache = None -> bt_wf (serve max_age cache l) /\ bt_get k (serve max_age cache l) = None).
    { clear. induction l as [|p l IH]; intros cache Hw Hl Hg; [done|]. apply Forall_cons in Hl as [[Ht Hk] Hl].
      apply (IH (present max_age cache p).1); [by apply present_wf|done|].
      destruct (present_other max_age cache p k Hw ltac:(done)) as [E|E]; congruence. }
    destruct (Hn l _ Hw' Hl E) as [H1 H2]. split_and!; [done|by right|lia].
Qed.

(** The mesh keeps a nonce until its request has left the window. *)
Definition kept_until (nonces : MeshNonces) (node : NodeId) (nonce : bytes) : option Z :=
  bt_get nonce (default [] (bt_get node nonces)).

Definition mesh_wf (nonces : MeshNonces) : Prop := forall node own, bt_get node nonces = Some own -> bt_wf own.

Lemma mesh_own_wf nonces node : mesh_wf nonces -> bt_wf (default [] (bt_get node nonces)).
Proof. intros H. destruct (bt_get node nonces) eqn:E; [by eapply H|apply bt_wf_nil]. Qed.

Lemma mesh_insert_wf nonces node own : mesh_wf nonces -> bt_wf own -> mesh_wf (bt_insert node own nonces).
Proof.
  intros H Ho n o. destruct (decide (n = node)) as [->|Hne].
  - rewrite bt_get_insert. by intros [= <-].
  - rewrite bt_get_insert_ne by done. apply H.
Qed.

Lemma consume_wf nonces node nonce expires now : mesh_wf nonces -> mesh_wf (consume_nonce nonces node nonce expires now).1.
Proof.
  intros H. pose proof (bt_wf_retain (fun _ expiry => now <? expiry) _ (mesh_own_wf nonces node H)) as Ho.
  unfold consume_nonce. case_bool_decide; [by apply mesh_insert_wf|]. destruct (_ <=? _); [by apply mesh_insert_wf|].
  by apply mesh_insert_wf, bt_wf_insert.
Qed.

Lemma consume_keeps nonces node nonce expires now n k e : mesh_wf nonces -> now < e -> kept_until nonces n k = Some e ->
  kept_until (consume_nonce nonces node nonce expires now).1 n k = Some e.
Proof.
  intros H Hn Hk. unfold kept_until in *. destruct (decide (n = node)) as [->|Hne].
  - assert (E : bt_get k (bt_retain (fun _ expiry => now <? expiry) (default [] (bt_get node nonces))) = Some e).
    { rewrite bt_get_retain, Hk by by apply mesh_own_wf. cbn. by replace (now <? e) with true by lia. }
    unfold consume_nonce. case_bool_decide as Hs; cbn [fst]; [by rewrite bt_get_insert|].
    destruct (_ <=? _); cbn [fst]; rewrite bt_get_insert; cbn; [done|]. destruct (decide (k = nonce)) as [->|Hne].
    + by rewrite E in Hs; destruct Hs.
    + by rewrite bt_get_insert_ne.
  - unfold consume_nonce. case_bool_decide; cbn [fst]; [by rewrite bt_get_insert_ne|].
    destruct (_ <=? _); cbn [fst]; by rewrite bt_get_insert_ne.
Qed.

(** A request to the mesh is consumed once: while its time is within the window its nonce is
    kept, whatever else the mesh is asked in between. *)
Theorem mesh_request_once nonces node nonce signed_at max_age t0 nonces1 others t :
  mesh_wf nonces -> consume_nonce nonces node nonce (signed_at + max_age + Signal.SECOND) t0 = (nonces1, Ok true) ->
  t - max_age <= signed_at -> Forall (fun o : NodeId * bytes * Z * Z => o.2 <= t) others ->
  let nonces2 := foldl (fun m o => (consume_nonce m o.1.1.1 o.1.1.2 o.1.2 o.2).1) nonces1 others in
  (consume_nonce nonces2 node nonce (signed_at + max_age + Signal.SECOND) t).2 = Ok false.
Proof.
  intros Hw Hc Ht Ho.
  assert (Hw1 : mesh_wf nonces1).
  { pose proof (consume_wf nonces node nonce (signed_at + max_age + Signal.SECOND) t0 Hw) as H. by rewrite Hc in H. }
  assert (Hk : kept_until nonces1 node nonce = Some (signed_at + max_age + Signal.SECOND)).
  { unfold consume_nonce in Hc. destruct (bool_decide _); [done|]. destruct (_ <=? _); [done|]. injection Hc as <-.
    unfold kept_until. rewrite bt_get_insert. apply bt_get_insert. }
  clear Hc. revert nonces1 Hw1 Hk. induction Ho as [|o others Hot Ho IH]; intros m Hwm Hk; cbn [foldl].
  - unfold consume_nonce. assert (E : bt_get nonce (bt_retain (fun _ expiry => t <? expiry) (default [] (bt_get node m))) =
                                      Some (signed_at + max_age + Signal.SECOND)).
    { rewrite bt_get_retain by by apply mesh_own_wf. unfold kept_until in Hk. rewrite Hk.
      unfold Signal.SECOND in *. by replace (t <? _) with true by lia. }
    rewrite E, bool_decide_true by done. done.
  - apply IH; [by apply consume_wf|]. apply consume_keeps; [done| |done]. unfold Signal.SECOND. lia.
Qed.

End Auth.

(** C26: The cache of nonces lets a request be replayed in exactly one case. A request that was
    accepted at [t0] and is presented again at a later [t], with any other requests in between,
    is accepted a second time if and only if [t0 + max_age < t <= signed_at + max_age] (and the
    cache has room): its nonce has been forgotten, but its time is still within the window. So a
    request that is not signed ahead of the control plane's clock is never accepted twice, and one
    signed ahead of it can be, by anyone who recorded it. *)
Theorem replay_window {Net : IpNetOps} {Build : IpNetBuildOps} {UO : UrlOps} max_age cache p cache1 between t :
  0 <= max_age -> bt_wf cache -> present max_age cache p = (cache1, Ok tt) -> p_now p <= t ->
  Forall (fun q => p_now p <= p_now q <= t /\ (p_node q, p_nonce q) <> (p_node p, p_nonce p)) between ->
  let cache2 := serve max_age cache1 between in
  let again := {| p_node := p_node p; p_signed := p_signed p; p_nonce := p_nonce p; p_now := t |} in
  (present max_age cache2 again).2 = Ok tt <->
  p_now p + max_age < t <= p_signed p + max_age /\
  lenZ (bt_retain (fun _ accepted_at => remembered max_age t accepted_at) cache2) < MAX_ACCEPTED_NODE_QUERY_NONCES.
Proof.
  intros Hm Hw Hp Ht Hl cache2 again. unfold present, accept_node_query_nonce in Hp.
  destruct (negb _) eqn:Es; [done|]. apply negb_false_iff, within_skew in Es.
  destruct (bool_decide _) eqn:Eb; [done|]. destruct (_ <=? _); [done|]. injection Hp as <-.
  set (c1 := bt_insert (p_node p, p_nonce p) (p_now p) _) in cache2.
  assert (Hw1 : bt_wf c1) by by apply bt_wf_insert, bt_wf_retain.
  destruct (serve_facts max_age between c1 (p_node p, p_nonce p) (p_now p) t Hw1 (bt_get_insert _ _ _) Hl) as (Hw2 & Hget & Hkept).
  fold cache2 in Hw2, Hget, Hkept. unfold present, accept_node_query_nonce. subst again. cbn [p_node p_signed p_nonce p_now].
  assert (Er : bt_get (p_node p, p_nonce p) (bt_retain (fun _ a => remembered max_age t a) cache2) =
               if decide (t <= p_now p + max_age) then Some (p_now p) else None).
  { rewrite bt_get_retain by done. case_decide as Hd.
    - rewrite (Hkept Hd). cbn. replace (remembered max_age t (p_now p)) with true; [done|]. unfold remembered. lia.
    - destruct Hget as [-> | ->]; [|done]. cbn. replace (remembered max_age t (p_now p)) with false; [done|]. unfold remembered. lia. }
  rewrite Er. destruct (timestamp_within_skew (p_signed p) t max_age) eqn:Et; cbn [negb].
  - apply within_skew in Et. case_decide as Hd; [rewrite bool_decide_true by done; split; [done|lia]|].
    rewrite bool_decide_false by by apply is_Some_None. destruct (MAX_ACCEPTED_NODE_QUERY_NONCES <=? _) eqn:Ec; bool_to_prop.
    + split; [done|lia].
    + split; [lia|done].
  - split; [done|]. intros [H1 _]. assert (timestamp_within_skew (p_signed p) t max_age = true) by (apply within_skew; lia). congruence.
Qed.

(** A node whose clock is a minute ahead sends a query; whoever recorded it sends it again when
    the control plane has forgotten it. *)
Module ReplayExample.
Import Instances Base64 Crypto.CryptoExample.

#[local] Instance query_json : ToJson (ControlPlaneNodeQueryKind * NodeId * Z * bytes) := fun p => Some (p.1.1.2 ++ p.2).

Definition node_secret : EdSecret := replicate 32 x09.
Definition node_key : bytes := Eval vm_compute in Crypto.public_key_b64 node_secret.
Definition id : NodeId := Eval vm_compute in Crypto.node_id node_secret.

Definition node : Overlay.NodeRecord := {|
  Overlay.node_id := id; Overlay.display_name := None; Overlay.hostname := None; Overlay.cluster_id := bstr "c";
  Overlay.vpn_ip := IpV4 1; Overlay.identity_public_key := node_key; Overlay.wireguard_public_key := [];
  Overlay.role := bstr "edge"; Overlay.tags := []; Overlay.endpoint_candidates := []; Overlay.relay_capability := None;
  Overlay.token_policy := policy sample_claims; Overlay.routes := []; Overlay.registered_at := 0 |}.

Definition minute : Z := 60 * Signal.SECOND.
Definition nonce : bytes := Eval vm_compute in b64url_encode (replicate 24 x05).

Definition query : ControlPlaneNodeQueryRequest := {|
  query_node_id := id;
  query_signature := Some {| Crypto.api_signed_at := 11 * minute; Crypto.api_nonce := nonce;
                             Crypto.api_signature := b64_encode (ed_sign node_secret (id ++ nonce)) |} |}.

Definition ask (st : AuthState) (now : Z) : AuthState * result Overlay.NodeRecord ControlPlaneError :=
  authenticate_node_query (5 * minute) [(id, node)] st query QueryPeerMap now.

Definition start : AuthState := {| nonce_cache := []; mesh_nonces := [] |}.

(** At minute 10 it is accepted, at minute 12 it is a replay, at minute 16 it is accepted again. *)
Lemma query_replayed :
  let '(st1, r1) := ask start (10 * minute) in
  let '(st2, r2) := ask st1 (12 * minute) in
  let '(_, r3) := ask st2 (16 * minute) in
  is_ok r1 = true /\ is_ok r2 = false /\ is_ok r3 = true.
Proof. vm_cast_no_check (conj (@eq_refl bool true) (conj (@eq_refl bool false) (@eq_refl bool true))). Qed.

Definition presented : Presented := {| p_node := id; p_signed := 11 * minute; p_nonce := nonce; p_now := 10 * minute |}.

Lemma presented_accepted : present (5 * minute) [] presented = ([((id, nonce), 10 * minute)], Ok tt).
Proof. vm_cast_no_check (@eq_refl (NonceCache * result unit ControlPlaneError) ([((id, nonce), 10 * minute)], Ok tt)). Qed.

Lemma replay_window_witness :
  (present (5 * minute) [((id, nonce), 10 * minute)]
     {| p_node := id; p_signed := 11 * minute; p_nonce := nonce; p_now := 16 * minute |}).2 = Ok tt.
Proof.
  refine (proj2 (replay_window (5 * minute) [] presented [((id, nonce), 10 * minute)] [] (16 * minute) _ _ presented_accepted _ _) _).
  - by vm_compute.
  - apply bt_wf_nil.
  - by vm_compute.
  - apply Forall_nil_2.
  - split; [by vm_compute|]. vm_compute. reflexivity.
Defined.

End ReplayExample.
End RequestAuth.
