(* ===== verification/AdminLedger.v ===== *)
(** * Administrative capabilities (crates/ipars-control-plane/src/lib.rs, crates/ipars-control-plane-http/src/quorum.rs)

    The ledger of the in-memory store for quorum administration: the anchored manifest of a
    cluster, its rotations, and the capabilities that were consumed or revoked; and the
    authorization of a request by a capability and the handler of revocations. A call on the
    store that the handler gives up waiting for may have taken effect or not. Times are nanoseconds, those of the quorum
    crate seconds. *)

From S2P Require Import Prelude RustStd Endpoints OverlayTypes BTree Hashing Signal Quorum QuorumInstances QuorumRotation JoinTokens Crypto ControlTypes Instances.

Module AdminLedger.
Import ControlTypes.

Definition MAX_ADMIN_CAPABILITY_LEDGER_RECORDS : Z := 65536.
Definition ADMIN_CAPABILITY_LEDGER_GC_GRACE_SECONDS : Z := 300.

(** [u8::is_ascii_hexdigit] and [u8::is_ascii_uppercase] *)
Definition is_ascii_hexdigit (b : byte) : bool := is_ascii_digit b || byte_in 65 70 b || byte_in 97 102 b.
Definition is_ascii_uppercase (b : byte) : bool := byte_in 65 90 b.

Record AdminQuorumManifestAnchor : Type := { anchor_epoch : Z; anchor_digest : bytes }.

#[global] Instance Anchor_eq_dec : EqDecision AdminQuorumManifestAnchor.
Proof. solve_decision. Defined.

Definition hex64 (digest : bytes) : bool := (lenZ digest =? 64) && forallb is_ascii_hexdigit digest.

Definition anchor_is_valid (a : AdminQuorumManifestAnchor) : bool := hex64 (anchor_digest a).

Record AdminCapabilityUse : Type := {
  use_cluster_id : bytes;
  use_epoch : Z;
  use_digest : bytes;
  use_request_id : bytes;
  use_claims_digest : bytes;
  use_expires_at : Z;
  use_received_at : Z;
  use_method : bytes;
  use_path : bytes;
  use_requester : bytes
}.

Record AdminCapabilityRevocation : Type := {
  revoke_cluster_id : bytes;
  revoke_epoch : Z;
  revoke_digest : bytes;
  revoke_request_id : bytes;
  revoke_expires_at : Z;
  revoke_received_at : Z;
  revoke_method : bytes;
  revoke_path : bytes;
  revoke_requester : bytes
}.

Definition bounded (value : bytes) (limit : Z) : bool :=
  negb (bool_decide (value = [])) && (lenZ value <=? limit) && negb (has_control_char value).

Definition validate_for_ledger (u : AdminCapabilityUse) (now : Z) : bool :=
  bounded (use_cluster_id u) 256 && bounded (use_request_id u) 256 && hex64 (use_digest u) && hex64 (use_claims_digest u)
  && (now <? use_expires_at u) && (use_received_at u <? use_expires_at u)
  && bounded (use_method u) 16 && forallb is_ascii_uppercase (use_method u)
  && bounded (use_path u) 2048 && starts_with (use_path u) [x2f]
  && negb (existsb (fun b => bool_decide (b = x3f) || bool_decide (b = x23)) (use_path u))
  && bounded (use_requester u) 512.

Definition into_ledger_use (r : AdminCapabilityRevocation) : AdminCapabilityUse := {|
  use_cluster_id := revoke_cluster_id r; use_epoch := revoke_epoch r; use_digest := revoke_digest r;
  use_request_id := revoke_request_id r; use_claims_digest := replicate 64 x30; use_expires_at := revoke_expires_at r;
  use_received_at := revoke_received_at r; use_method := revoke_method r; use_path := revoke_path r;
  use_requester := revoke_requester r |}.

(** [serde_json::from_slice::<RevocationRequest>]: the [request_id] of a body that is one. *)
Class RevocationJsonOps : Type := { revocation_from_slice : bytes -> option bytes }.

Record AdminQuorumRotationHistory : Type := { history_rotation : Rotation.ManifestRotation; installed_at : Z }.

Record AdminCapabilityLedgerState : Type := {
  anchors : btree bytes AdminQuorumManifestAnchor;
  entries : btree (bytes * Z * bytes) (AdminCapabilityUse * bool);
  manifests : btree (bytes * bytes) Quorum.Manifest;
  rotations : btree (bytes * Z) AdminQuorumRotationHistory
}.

Definition empty : AdminCapabilityLedgerState := {| anchors := []; entries := []; manifests := []; rotations := [] |}.

(** A history of a cluster without an anchor. *)
Definition has_history (l : AdminCapabilityLedgerState) (cluster : bytes) : bool :=
  existsb (fun k => bool_decide (k.1.1 = cluster)) (bt_keys (entries l))
  || existsb (fun k => bool_decide (k.1 = cluster)) (bt_keys (manifests l))
  || existsb (fun k => bool_decide (k.1 = cluster)) (bt_keys (rotations l)).

Section Ledger.
Context {Net : IpNetOps} {Build : IpNetBuildOps} {UO : UrlOps} {OO : @UrlOriginOps UO} {DO : DigestOps} {FO : FrostOps} {EO : EdOps} {RJ : RevocationJsonOps}.

Definition store_error (r : store_reason) : ControlPlaneError := Store r.

Definition validate_admin_public_manifest (cluster : bytes) (m : Quorum.Manifest) : result AdminQuorumManifestAnchor ControlPlaneError :=
  if negb (bool_decide (cluster = Quorum.cluster_id m)) then Err (store_error AdminClusterMismatch)
  else
    let? digest := map_err (fun _ => store_error AdminManifestInvalid) (Quorum.digest m) in
    Ok {| anchor_epoch := Quorum.epoch m; anchor_digest := digest |}.

(** The key of an entry. *)
Definition use_key (u : AdminCapabilityUse) : bytes * Z * bytes := (use_cluster_id u, use_epoch u, use_request_id u).

Definition insert_admin_capability (l : AdminCapabilityLedgerState) (record : AdminCapabilityUse) (revoked : bool) (now : Z)
  : AdminCapabilityLedgerState * bool :=
  if negb (validate_for_ledger record now) then (l, false)
  else
    let anchor := {| anchor_epoch := use_epoch record; anchor_digest := use_digest record |} in
    if negb (bool_decide (bt_get (use_cluster_id record) (anchors l) = Some anchor)) then (l, false)
    else
      let cutoff := now - ADMIN_CAPABILITY_LEDGER_GC_GRACE_SECONDS * Signal.SECOND in
      let kept := bt_retain (fun _ e => cutoff <? use_expires_at e.1) (entries l) in
      let with_entries e := {| anchors := anchors l; entries := e; manifests := manifests l; rotations := rotations l |} in
      if bool_decide (is_Some (bt_get (use_key record) kept)) || (MAX_ADMIN_CAPABILITY_LEDGER_RECORDS <=? lenZ kept)
      then (with_entries kept, false)
      else (with_entries (bt_insert (use_key record) (record, revoked) kept), true).

Definition consume_admin_capability (l : AdminCapabilityLedgerState) (record : AdminCapabilityUse) (now : Z)
  : AdminCapabilityLedgerState * bool := insert_admin_capability l record false now.

Definition revoke_admin_capability (l : AdminCapabilityLedgerState) (record : AdminCapabilityRevocation) (now : Z)
  : AdminCapabilityLedgerState * bool := insert_admin_capability l (into_ledger_use record) true now.

Definition with_manifest (l : AdminCapabilityLedgerState) (cluster digest : bytes) (m : Quorum.Manifest) : AdminCapabilityLedgerState :=
  {| anchors := anchors l; entries := entries l; manifests := bt_insert (cluster, digest) m (manifests l); rotations := rotations l |}.

Definition with_anchor (l : AdminCapabilityLedgerState) (cluster : bytes) (a : AdminQuorumManifestAnchor) : AdminCapabilityLedgerState :=
  {| anchors := bt_insert cluster a (anchors l); entries := entries l; manifests := manifests l; rotations := rotations l |}.

Definition initialize_admin_quorum_manifest (l : AdminCapabilityLedgerState) (cluster : bytes) (m : Quorum.Manifest)
  : AdminCapabilityLedgerState * result unit ControlPlaneError :=
  match validate_admin_public_manifest cluster m with
  | Err e => (l, Err e)
  | Ok anchor =>
      let install := (with_anchor (with_manifest l cluster (anchor_digest anchor) m) cluster anchor, Ok tt) in
      match bt_get cluster (anchors l) with
      | Some existing => if bool_decide (existing = anchor) then install else (l, Err (store_error AdminAnchorMismatch))
      | None => if has_history l cluster then (l, Err (store_error AdminUnanchored)) else install
      end
  end.

Definition publish_admin_quorum_manifest (l : AdminCapabilityLedgerState) (cluster : bytes) (m : Quorum.Manifest)
  : AdminCapabilityLedgerState * result unit ControlPlaneError :=
  match validate_admin_public_manifest cluster m with
  | Err e => (l, Err e)
  | Ok anchor =>
      if bool_decide (bt_get cluster (anchors l) = Some anchor) then (with_manifest l cluster (anchor_digest anchor) m, Ok tt)
      else (l, Err (store_error AdminAnchorMismatch))
  end.

Definition get_active_admin_quorum_manifest (l : AdminCapabilityLedgerState) (cluster : bytes)
  : result (option Quorum.Manifest) ControlPlaneError :=
  match bt_get cluster (anchors l) with
  | None => if has_history l cluster then Err (store_error AdminUnanchored) else Ok None
  | Some anchor =>
      let? m := ok_or (bt_get (cluster, anchor_digest anchor) (manifests l)) (store_error AdminManifestMissing) in
      let? a := validate_admin_public_manifest cluster m in
      if bool_decide (a = anchor) then Ok (Some m) else Err (store_error AdminManifestMismatch)
  end.

(** Seconds of a time, as [u64]: a time before the epoch counts as zero. *)
Definition seconds (now : Z) : Z := Z.max 0 (now / Signal.SECOND).

Definition rotate_admin_quorum_manifest (l : AdminCapabilityLedgerState) (v : Rotation.VerifiedRotation) (now : Z)
  : AdminCapabilityLedgerState * result bool ControlPlaneError :=
  match Rotation.validate_at v (seconds now) with
  | Err _ => (l, Ok false)
  | Ok _ =>
      let r := Rotation.rotation v in
      let new_manifest := Rotation.new_manifest (Rotation.transition r) in
      let cluster := Quorum.cluster_id new_manifest in
      match validate_admin_public_manifest cluster (Rotation.old_manifest v) with
      | Err e => (l, Err e)
      | Ok old =>
          match validate_admin_public_manifest cluster new_manifest with
          | Err e => (l, Err e)
          | Ok new =>
              if negb (bool_decide (bt_get cluster (anchors l) = Some old))
                 || bool_decide (is_Some (bt_get (cluster, anchor_epoch new) (rotations l)))
                 || existsb (fun kv => bool_decide (kv.1.1 = cluster)
                       && bool_decide (Rotation.transition_request (Rotation.transition (history_rotation kv.2)) =
                                       Rotation.transition_request (Rotation.transition r))) (rotations l)
              then (l, Ok false)
              else
                let l := with_manifest l cluster (anchor_digest old) (Rotation.old_manifest v) in
                let l := with_manifest l cluster (anchor_digest new) new_manifest in
                let l := {| anchors := anchors l; entries := entries l; manifests := manifests l;
                            rotations := bt_insert (cluster, anchor_epoch new) {| history_rotation := r; installed_at := now |}
                                           (rotations l) |} in
                (with_anchor l cluster new, Ok true)
          end
      end
  end.

Definition list_admin_quorum_rotation_history (l : AdminCapabilityLedgerState) (cluster : bytes) (limit : Z)
  : list AdminQuorumRotationHistory :=
  map snd (take (Z.to_nat (Z.min limit 100)) (List.filter (fun kv => bool_decide (kv.1.1 = cluster)) (rev (rotations l)))).

Definition bind_admin_quorum_manifest (l : AdminCapabilityLedgerState) (cluster : bytes) (epoch : Z) (digest : bytes)
  : AdminCapabilityLedgerState * result unit ControlPlaneError :=
  let anchor := {| anchor_epoch := epoch; anchor_digest := digest |} in
  if negb (anchor_is_valid anchor) then (l, Err (store_error AdminAnchorInvalid))
  else match bt_get cluster (anchors l) with
  | Some existing => (l, if bool_decide (existing = anchor) then Ok tt else Err (store_error AdminAnchorMismatch))
  | None => if has_history l cluster then (l, Err (store_error AdminUnanchored)) else (with_anchor l cluster anchor, Ok tt)
  end.

Definition get_admin_quorum_manifest_anchor (l : AdminCapabilityLedgerState) (cluster : bytes)
  : result (option AdminQuorumManifestAnchor) ControlPlaneError :=
  let anchor := bt_get cluster (anchors l) in
  if bool_decide (anchor = None) && existsb (fun k => bool_decide (k.1.1 = cluster)) (bt_keys (entries l))
  then Err (store_error AdminUnanchored) else Ok anchor.

(** ** Authorization of a request *)

Inductive rejection : Type :=
  | NoActiveManifest | InvalidRevocation | ClockUnavailable | AuthorizationRejected
  | CapabilityUnavailable | StoreUnavailable.

Definition REVOCATIONS_PATH : bytes := bstr "/v1/admin/quorum/revocations".

(** [str::make_ascii_lowercase] *)
Definition make_ascii_lowercase (value : bytes) : bytes :=
  map (fun b => if is_ascii_uppercase b then Zbyte (byteZ b + 32) else b) value.

Definition parse_revocation (body : bytes) : result bytes rejection :=
  let? request_id := ok_or (revocation_from_slice body) InvalidRevocation in
  if negb (hex64 request_id) then Err InvalidRevocation else Ok (make_ascii_lowercase request_id).

(** How a call on the store ends for a caller that waits five seconds for it: it answers in
    time, or it does not, whether it takes effect all the same or is dropped before it does. *)
Inductive reply : Type := Answered | TimedOut (committed : bool).

(** The store and the answer after a call with this reply. *)
Definition awaited {A} (r : reply) (l : AdminCapabilityLedgerState) (call : AdminCapabilityLedgerState * A)
  : AdminCapabilityLedgerState * option A :=
  match r with
  | Answered => (call.1, Some call.2)
  | TimedOut committed => (if committed then call.1 else l, None)
  end.

Definition load_active (r : reply) (l : AdminCapabilityLedgerState) (cluster : bytes) : result Quorum.Manifest rejection :=
  match (awaited r l (l, get_active_admin_quorum_manifest l cluster)).2 with
  | Some (Ok (Some manifest)) => Ok manifest
  | _ => Err NoActiveManifest
  end.

(** [DateTime::from_timestamp(secs, 0)]: the last date chrono represents. *)
Definition from_timestamp (secs : Z) : option Z := if secs <=? 8210266876799 then Some (secs * Signal.SECOND) else None.

Definition hex_bytes (bs : bytes) : bytes := concat (map hex_of_byte bs).

Definition capability_record (cluster : bytes) (token : Quorum.CapabilityToken) (meth pth : bytes) (expires_at now : Z)
  : AdminCapabilityUse :=
  let c := Quorum.token_claims token in
  {| use_cluster_id := cluster; use_epoch := Quorum.claims_epoch c; use_digest := Quorum.manifest_digest c;
     use_request_id := hex_bytes (Quorum.request_id c); use_claims_digest := hex_bytes (sha256 (Quorum.signing_bytes c));
     use_expires_at := expires_at; use_received_at := now; use_method := meth; use_path := pth;
     use_requester := hex_bytes (Quorum.requester_public_key c) |}.

(** What [QuorumVerifier] does with a request that has a token, a proof and no query string. The
    manifest is read from the ledger in one step ([before]) and the capability consumed in a
    later one ([l]), after which the handler of the request runs. *)
Definition authorize (cluster : bytes) (before l : AdminCapabilityLedgerState) (token : Quorum.CapabilityToken)
    (proof : Quorum.RequestProof) (meth pth body : bytes) (now consumed_at : Z) (loading consuming : reply)
  : AdminCapabilityLedgerState * result AdminCapabilityUse rejection :=
  match load_active loading before cluster with
  | Err e => (l, Err e)
  | Ok manifest =>
      match (if bool_decide (pth = REVOCATIONS_PATH) then parse_revocation body else Ok []) with
      | Err e => (l, Err e)
      | Ok _ =>
          if now <? 0 then (l, Err ClockUnavailable)
          else match Quorum.verify_capability manifest token proof meth pth body (now / Signal.SECOND) with
          | Err _ => (l, Err AuthorizationRejected)
          | Ok _ =>
              match from_timestamp (Quorum.expires_at (Quorum.token_claims token)) with
              | None => (l, Err AuthorizationRejected)
              | Some expires_at =>
                  let record := capability_record cluster token meth pth expires_at now in
                  match awaited consuming l (consume_admin_capability l record consumed_at) with
                  | (l, Some true) => (l, Ok record)
                  | (l, Some false) => (l, Err CapabilityUnavailable)
                  | (l, None) => (l, Err StoreUnavailable)
                  end
              end
          end
      end
  end.

(** The tombstone the handler of a revocation writes for another request. *)
Definition revocation_record (approved : AdminCapabilityUse) (target : bytes) (now : Z) : AdminCapabilityRevocation := {|
  revoke_cluster_id := use_cluster_id approved; revoke_epoch := use_epoch approved; revoke_digest := use_digest approved;
  revoke_request_id := target; revoke_expires_at := now + Quorum.MAX_CAPABILITY_TTL_SECS * Signal.SECOND;
  revoke_received_at := now; revoke_method := use_method approved; revoke_path := use_path approved;
  revoke_requester := use_requester approved |}.

(** The handler of a revocation that was authorized. *)
Definition revoke (approved : AdminCapabilityUse) (l : AdminCapabilityLedgerState) (body : bytes) (now revoked_at : Z) (revoking : reply)
  : AdminCapabilityLedgerState * result bool rejection :=
  match parse_revocation body with
  | Err e => (l, Err e)
  | Ok target =>
      match awaited revoking l (revoke_admin_capability l (revocation_record approved target now) revoked_at) with
      | (l, Some revoked) => (l, Ok revoked)
      | (l, None) => (l, Err StoreUnavailable)
      end
  end.

(** ** Runs *)

Inductive operation : Type :=
  | Consume (record : AdminCapabilityUse)
  | Revoke (record : AdminCapabilityRevocation)
  | Initialize (cluster : bytes) (m : Quorum.Manifest)
  | Publish (cluster : bytes) (m : Quorum.Manifest)
  | Rotate (v : Rotation.VerifiedRotation)
  | Bind (cluster : bytes) (epoch : Z) (digest : bytes).

(** What an operation at a time leaves. *)
Definition step (l : AdminCapabilityLedgerState) (o : operation * Z) : AdminCapabilityLedgerState :=
  match o.1 with
  | Consume record => (consume_admin_capability l record o.2).1
  | Revoke record => (revoke_admin_capability l record o.2).1
  | Initialize cluster m => (initialize_admin_quorum_manifest l cluster m).1
  | Publish cluster m => (publish_admin_quorum_manifest l cluster m).1
  | Rotate v => (rotate_admin_quorum_manifest l v o.2).1
  | Bind cluster epoch digest => (bind_admin_quorum_manifest l cluster epoch digest).1
  end.

Definition run (l : AdminCapabilityLedgerState) (ops : list (operation * Z)) : AdminCapabilityLedgerState := foldl step l ops.

Definition GRACE : Z := ADMIN_CAPABILITY_LEDGER_GC_GRACE_SECONDS * Signal.SECOND.

(** Only insertions touch the entries. *)
Lemma step_entries l o : entries (step l o) = entries l \/
  exists record revoked, step l o = (insert_admin_capability l record revoked o.2).1.
Proof.
  destruct o as [[record|record|cluster m|cluster m|v|cluster epoch digest] now]; unfold step; cbn [fst snd].
  - right. by exists record, false.
  - right. by exists (into_ledger_use record), true.
  - left. unfold initialize_admin_quorum_manifest. by repeat (case_match; try done).
  - left. unfold publish_admin_quorum_manifest. by repeat (case_match; try done).
  - left. unfold rotate_admin_quorum_manifest. by repeat (case_match; try done).
  - left. unfold bind_admin_quorum_manifest. by repeat (case_match; try done).
Qed.

(** What an insertion does to the entries. *)
Lemma insert_entries l record revoked now : bt_wf (entries l) ->
  bt_wf (entries (insert_admin_capability l record revoked now).1) /\
  forall k e, bt_get k (entries l) = Some e -> now < use_expires_at e.1 + GRACE ->
    bt_get k (entries (insert_admin_capability l record revoked now).1) = Some e.
Proof.
  intros Hw. unfold insert_admin_capability. destruct (negb (validate_for_ledger record now)); [by split|].
  destruct (negb (bool_decide _)); [by split|].
  set (kept := bt_retain (fun _ e => now - ADMIN_CAPABILITY_LEDGER_GC_GRACE_SECONDS * Signal.SECOND <? use_expires_at e.1) (entries l)).
  assert (Hk : forall k e, bt_get k (entries l) = Some e -> now < use_expires_at e.1 + GRACE -> bt_get k kept = Some e).
  { intros k e Hg He. unfold kept. rewrite bt_get_retain, Hg by done. unfold GRACE in He. by replace (_ <? _) with true by lia. }
  destruct (bool_decide _ || _)%bool eqn:E; cbn [fst entries]; [split; [by apply bt_wf_retain|done]|].
  split; [by apply bt_wf_insert, bt_wf_retain|]. intros k e Hg He. apply orb_false_iff in E as [E _]. bool_to_prop.
  rewrite bt_get_insert_ne; [by apply Hk|]. intros <-. apply E. by rewrite (Hk _ _ Hg He).
Qed.

Lemma run_keeps ops : forall l k e, bt_wf (entries l) -> bt_get k (entries l) = Some e ->
  Forall (fun o => o.2 < use_expires_at e.1 + GRACE) ops -> bt_wf (entries (run l ops)) /\ bt_get k (entries (run l ops)) = Some e.
Proof.
  induction ops as [|o ops IH]; intros l k e Hw Hg Ho; [done|]. apply Forall_cons in Ho as [Ho Hos]. unfold run. cbn [foldl].
  fold (run (step l o) ops). destruct (step_entries l o) as [E|(record & revoked & E)].
  - apply IH; rewrite ?E; done.
  - destruct (insert_entries l record revoked o.2 Hw) as [Hw' Hk]. apply IH; rewrite ?E; [done|by apply Hk|done].
Qed.

(** What a successful insertion attests. *)
Lemma insert_ok l record revoked now l' : insert_admin_capability l record revoked now = (l', true) ->
  validate_for_ledger record now = true /\
  bt_get (use_cluster_id record) (anchors l) = Some {| anchor_epoch := use_epoch record; anchor_digest := use_digest record |} /\
  (forall e, bt_wf (entries l) -> bt_get (use_key record) (entries l) = Some e -> use_expires_at e.1 + GRACE <= now) /\
  bt_get (use_key record) (entries l') = Some (record, revoked) /\ anchors l' = anchors l.
Proof.
  unfold insert_admin_capability. destruct (validate_for_ledger record now) eqn:Ev; [|done]. cbn [negb].
  destruct (bool_decide _) eqn:Ea; [|done]. cbn [negb]. apply bool_decide_eq_true in Ea.
  destruct (bool_decide _ || _)%bool eqn:E; [done|]. intros [= <-]. apply orb_false_iff in E as [E _]. bool_to_prop.
  split_and!; try done; [|apply bt_get_insert]. intros e Hw Hg. apply Z.nlt_ge. intros Hlt. apply E.
  rewrite bt_get_retain, Hg by done. unfold GRACE in Hlt. by replace (_ <? _) with true by lia.
Qed.

Lemma insert_wf l record revoked now l' b : bt_wf (entries l) -> insert_admin_capability l record revoked now = (l', b) -> bt_wf (entries l').
Proof. intros Hw E. pose proof (proj1 (insert_entries l record revoked now Hw)) as H. by rewrite E in H. Qed.

Lemma validate_expires record now : validate_for_ledger record now = true -> now < use_expires_at record.
Proof. unfold validate_for_ledger. intros. bool_to_prop. lia. Qed.

(** A request identifier is taken until its entry expires, and a while longer. *)
Lemma taken_until l record revoked t0 l1 ops record' revoked' t l2 :
  bt_wf (entries l) -> insert_admin_capability l record revoked t0 = (l1, true) ->
  Forall (fun o => o.2 < use_expires_at record + GRACE) ops -> use_key record' = use_key record ->
  insert_admin_capability (run l1 ops) record' revoked' t = (l2, true) -> use_expires_at record + GRACE <= t.
Proof.
  intros Hw H1 Ho Hk H2. pose proof (insert_wf _ _ _ _ _ _ Hw H1) as Hw1.
  apply insert_ok in H1 as (_ & _ & _ & Hg & _).
  destruct (run_keeps ops l1 _ _ Hw1 Hg Ho) as [Hw2 Hg2]. apply insert_ok in H2 as (_ & _ & H2 & _).
  rewrite Hk in H2. exact (H2 _ Hw2 Hg2).
Qed.

(** What an authorized request attests. *)
Lemma authorize_ok cluster before l token proof meth pth body now consumed_at loading consuming l' record :
  authorize cluster before l token proof meth pth body now consumed_at loading consuming = (l', Ok record) ->
  exists manifest expires_at, get_active_admin_quorum_manifest before cluster = Ok (Some manifest) /\ 0 <= now /\
    (pth = REVOCATIONS_PATH -> exists target, parse_revocation body = Ok target) /\
    Quorum.verify_capability manifest token proof meth pth body (now / Signal.SECOND) = Ok tt /\
    from_timestamp (Quorum.expires_at (Quorum.token_claims token)) = Some expires_at /\
    record = capability_record cluster token meth pth expires_at now /\
    insert_admin_capability l record false consumed_at = (l', true).
Proof.
  unfold authorize, load_active. destruct loading; [|done]. cbn [awaited snd].
  destruct (get_active_admin_quorum_manifest before cluster) as [[m|]|]; try done.
  destruct (if bool_decide (pth = REVOCATIONS_PATH) then _ else _) as [target|] eqn:Ep; [|done].
  destruct (now <? 0) eqn:En; [done|]. bool_to_prop. destruct (Quorum.verify_capability _ _ _ _ _ _ _) as [[]|] eqn:Ev; [|done].
  destruct (from_timestamp _) as [e|] eqn:Ee; [|done]. destruct consuming; [|done]. unfold consume_admin_capability. cbn [awaited].
  destruct (insert_admin_capability _ _ _ _) as [l0 [|]] eqn:Ei; [|done]. cbn [fst snd]. intros [= <- <-]. exists m, e.
  split_and!; try done. intros ->. rewrite bool_decide_eq_true_2 in Ep by done. by exists target.
Qed.

Lemma from_timestamp_some secs t : from_timestamp secs = Some t -> t = secs * Signal.SECOND.
Proof. unfold from_timestamp. destruct (_ <=? _); congruence. Qed.

(** ** The anchor *)

(** The anchor of a manifest. *)
Definition anchors_manifest (a : AdminQuorumManifestAnchor) (m : Quorum.Manifest) : Prop :=
  Quorum.epoch m = anchor_epoch a /\ Quorum.digest m = Ok (anchor_digest a).

Lemma admin_manifest_ok cluster m a : validate_admin_public_manifest cluster m = Ok a <-> Quorum.cluster_id m = cluster /\ anchors_manifest a m.
Proof.
  unfold validate_admin_public_manifest, anchors_manifest. rewrite guard_ok, negb_false_iff, bool_decide_eq_true, bind_ok. split.
  - intros (-> & d & Hd%map_err_ok & [= <-]). done.
  - intros (<- & He & Hd). split; [done|]. exists (anchor_digest a). rewrite map_err_ok, Hd. split; [done|]. by destruct a; simpl in *; subst.
Qed.

(** Trust passes from anchor to anchor along rotations. *)
Inductive moves (cluster : bytes) : AdminQuorumManifestAnchor -> list Rotation.VerifiedRotation -> AdminQuorumManifestAnchor -> Prop :=
  | moves_nil a : moves cluster a [] a
  | moves_cons a v now b vs c :
      Rotation.transition_ok (Rotation.transition (Rotation.rotation v)) (Rotation.old_manifest v) now ->
      Quorum.cluster_id (Rotation.old_manifest v) = cluster -> anchors_manifest a (Rotation.old_manifest v) ->
      anchors_manifest b (Rotation.new_manifest (Rotation.transition (Rotation.rotation v))) ->
      moves cluster b vs c -> moves cluster a (v :: vs) c.

Lemma moves_app cluster a vs b ws c : moves cluster a vs b -> moves cluster b ws c -> moves cluster a (vs ++ ws) c.
Proof. intros H Hw. induction H; [done|]. cbn. econstructor; eauto. Qed.

Lemma moves_epoch cluster a vs b : moves cluster a vs b -> anchor_epoch b = anchor_epoch a + lenZ vs.
Proof.
  induction 1 as [a|a v now b vs c Ht Hc [Ha _] [Hb _] _ IH]; [simpl; lia|].
  destruct (Rotation.to_epoch _ _ _ Ht) as [E _]. rewrite IH, length_cons. lia.
Qed.

(** The rotations among the operations. *)
Definition rotations_of (ops : list (operation * Z)) : list Rotation.VerifiedRotation :=
  omap (fun o => match o.1 with Rotate v => Some v | _ => None end) ops.

Lemma insert_anchors l record revoked now : anchors (insert_admin_capability l record revoked now).1 = anchors l.
Proof. unfold insert_admin_capability. by repeat case_match. Qed.

Lemma anchor_insert l cluster c a b : (forall e, bt_get cluster (anchors l) = Some e -> e = b) ->
  bt_get c (anchors l) = Some a -> bt_get c (bt_insert cluster b (anchors l)) = Some a.
Proof.
  intros He Hg. destruct (decide (c = cluster)) as [->|Hne]; [|by rewrite bt_get_insert_ne].
  rewrite bt_get_insert. f_equal. symmetry. by apply He.
Qed.

(** One operation: the anchor stays, or a rotation moved it. *)
Lemma step_anchor l o c a : bt_get c (anchors l) = Some a ->
  exists b, bt_get c (anchors (step l o)) = Some b /\ (b = a \/ exists v, o.1 = Rotate v /\ moves c a [v] b).
Proof.
  intros Hg. assert (Hsame : anchors (step l o) = anchors l -> exists b, bt_get c (anchors (step l o)) = Some b /\
    (b = a \/ exists v, o.1 = Rotate v /\ moves c a [v] b)) by (intros ->; exists a; by split; [|left]).
  destruct o as [[record|record|cluster m|cluster m|v|cluster epoch digest] now]; unfold step in *; cbn [fst snd] in *.
  - apply Hsame, insert_anchors.
  - apply Hsame, insert_anchors.
  - unfold initialize_admin_quorum_manifest in *. destruct (validate_admin_public_manifest cluster m) as [b|]; [|by apply Hsame].
    destruct (bt_get cluster (anchors l)) as [e|] eqn:Ec.
    + case_bool_decide; [subst e|by apply Hsame]. exists a. cbn. split; [|by left]. apply anchor_insert; [|done]. congruence.
    + destruct (has_history l cluster); [by apply Hsame|]. exists a. cbn. split; [|by left]. apply anchor_insert; [|done]. congruence.
  - apply Hsame. unfold publish_admin_quorum_manifest. by repeat case_match.
  - unfold rotate_admin_quorum_manifest in *. destruct (Rotation.validate_at v (seconds now)) as [[]|] eqn:Ev; [|by apply Hsame].
    apply Rotation.validate_transition_ok in Ev.
    destruct (validate_admin_public_manifest _ (Rotation.old_manifest v)) as [old|] eqn:Eo; [|by apply Hsame].
    destruct (validate_admin_public_manifest _ (Rotation.new_manifest _)) as [new|] eqn:En; [|by apply Hsame].
    destruct (_ || _ || _)%bool eqn:Eg; [by apply Hsame|]. apply orb_false_iff in Eg as [[Eg _]%orb_false_iff _]. bool_to_prop.
    apply admin_manifest_ok in Eo as [Hc Ho]. apply admin_manifest_ok in En as [_ Hn]. clear Hsame. cbn.
    destruct (decide (c = Quorum.cluster_id (Rotation.new_manifest (Rotation.transition (Rotation.rotation v))))) as [->|Hne].
    + exists new. rewrite bt_get_insert. split; [done|]. right. exists v. split; [done|].
      assert (old = a) as -> by congruence. econstructor; [done|congruence|done|done|constructor].
    + exists a. rewrite bt_get_insert_ne by done. by split; [|left].
  - unfold bind_admin_quorum_manifest in *. destruct (negb _); [by apply Hsame|].
    destruct (bt_get cluster (anchors l)) as [e|] eqn:Ec; [by apply Hsame|]. destruct (has_history l cluster); [by apply Hsame|].
    exists a. cbn. split; [|by left]. apply anchor_insert; [|done]. congruence.
Qed.

Lemma run_anchor ops : forall l c a, bt_get c (anchors l) = Some a ->
  exists b vs, bt_get c (anchors (run l ops)) = Some b /\ moves c a vs b /\ sublist vs (rotations_of ops).
Proof.
  induction ops as [|o ops IH]; intros l c a Hg; [exists a, []; split_and!; [done|constructor|constructor]|].
  destruct (step_anchor l o c a Hg) as (b & Hb & Hm). destruct (IH (step l o) c b Hb) as (b' & vs & Hb' & Hm' & Hs).
  exists b'. unfold run. cbn [foldl]. destruct Hm as [->|(v & Ev & Hv)].
  - exists vs. split_and!; [done|done|]. unfold rotations_of. cbn. destruct (o.1); try done. by apply sublist_cons.
  - exists (v :: vs). split_and!; [done|by apply (moves_app c a [v] b vs b')|]. unfold rotations_of. cbn. rewrite Ev. by apply sublist_skip.
Qed.

(** An identifier is taken again only once some clock has passed the entry's expiry and the grace. *)
Lemma taken_again l record revoked t0 l1 ops record' revoked' t l2 :
  bt_wf (entries l) -> insert_admin_capability l record revoked t0 = (l1, true) -> use_key record' = use_key record ->
  insert_admin_capability (run l1 ops) record' revoked' t = (l2, true) ->
  exists clock, clock ∈ t :: map snd ops /\ use_expires_at record + GRACE <= clock.
Proof.
  intros Hw H1 Hk H2. destruct (decide (Forall (fun o => o.2 < use_expires_at record + GRACE) ops)) as [Ho|Ho].
  - exists t. split; [by constructor|]. by eapply taken_until.
  - apply not_Forall_Exists in Ho; [|apply _]. apply Exists_exists in Ho as (o & Hin & Ho). exists o.2.
    split; [constructor; by apply list_elem_of_fmap_2|]. cbn in Ho. lia.
Qed.

(** A request that was revoked is not authorized: not by a capability issued up to five minutes
    after the revocation. *)
Theorem revoked_capability_refused cluster l approved request t0 l1 ops before token proof meth pth body now at_ loading consuming :
  bt_wf (entries l) -> use_cluster_id approved = cluster -> revoke approved l request t0 t0 Answered = (l1, Ok true) ->
  Forall (fun o => o.2 < t0 + 2 * GRACE) ops -> Quorum.claims_epoch (Quorum.token_claims token) = use_epoch approved ->
  parse_revocation request = Ok (hex_bytes (Quorum.request_id (Quorum.token_claims token))) ->
  Quorum.issued_at (Quorum.token_claims token) * Signal.SECOND <= t0 + GRACE ->
  is_ok (authorize cluster before (run l1 ops) token proof meth pth body now at_ loading consuming).2 = false.
Proof.
  intros Hw Hc H1 Ho He Ht Hi. destruct (authorize _ _ (run l1 ops) _ _ _ _ _ _ _ _ _) as [l2 [record|]] eqn:H2; [|done]. exfalso.
  apply authorize_ok in H2 as (m & e & _ & _ & _ & Hv & E%from_timestamp_some & Er & Hins).
  unfold revoke in H1. rewrite Ht in H1. unfold revoke_admin_capability in H1. cbn [awaited] in H1.
  destruct (insert_admin_capability _ _ _ _) as [l0 b] eqn:Eins in H1. cbn [fst snd] in H1. injection H1 as -> ->.
  apply Quorum.capability_verified_iff in Hv as (Hok & _). destruct (Quorum.co_live _ _ _ Hok) as [_ Httl].
  pose proof (insert_ok _ _ _ _ _ Hins) as (Hlt%validate_expires & _). subst e record. cbn in Hlt.
  unfold Quorum.MAX_CAPABILITY_TTL_SECS, GRACE, ADMIN_CAPABILITY_LEDGER_GC_GRACE_SECONDS in *.
  assert (Hle : t0 + 300 * Signal.SECOND + GRACE <= at_).
  { refine (taken_until _ _ _ _ _ ops _ _ _ _ Hw Eins _ _ Hins).
    - eapply Forall_impl; [exact Ho|]. intros o. cbn [use_expires_at into_ledger_use revocation_record revoke_expires_at].
      unfold GRACE, ADMIN_CAPABILITY_LEDGER_GC_GRACE_SECONDS, Quorum.MAX_CAPABILITY_TTL_SECS. lia.
    - unfold use_key. cbn. congruence. }
  unfold GRACE, ADMIN_CAPABILITY_LEDGER_GC_GRACE_SECONDS, Signal.SECOND in *. lia.
Qed.

End Ledger.

(** C23: An administrative request is carried out only on a capability of the cluster's group,
    and the same capability is good for one request. When a request is authorized, the manifest
    that was active signed exactly this method, path and body, for now, and is still the cluster's
    anchor when the capability is consumed. Whatever operations the ledger serves afterwards, a
    request under the same request identifier of that epoch is authorized again only when a clock
    of one of them, or of the second consumption, has passed the expiry of the first capability by
    five minutes; when no clock was more than five minutes ahead of that of the second
    consumption, only a capability with a later expiry, signed anew, is. *)
Theorem capability_authorizes_once {Net : IpNetOps} {Build : IpNetBuildOps} {UO : UrlOps} {OO : @UrlOriginOps UO} {DO : DigestOps}
    {FO : FrostOps} {EO : EdOps} {RJ : RevocationJsonOps} cluster before l token proof meth pth body now at1 loading consuming l1
    record ops before' token' proof' meth' pth' body' now' at2 loading' consuming' :
  let c := Quorum.token_claims token in let c' := Quorum.token_claims token' in
  bt_wf (entries l) -> authorize cluster before l token proof meth pth body now at1 loading consuming = (l1, Ok record) ->
  Quorum.claims_epoch c' = Quorum.claims_epoch c -> Quorum.request_id c' = Quorum.request_id c ->
  (exists m, get_active_admin_quorum_manifest before cluster = Ok (Some m) /\
     bt_get cluster (anchors l) = Some {| anchor_epoch := Quorum.epoch m; anchor_digest := Quorum.manifest_digest c |} /\
     Quorum.claims_ok c m (now / Signal.SECOND) /\ Quorum.method c = meth /\ Quorum.path c = pth /\
     Quorum.body_sha256 c = sha256 body /\ Quorum.group_signed m (Quorum.signing_bytes c) (Quorum.token_signature token)) /\
  (is_ok (authorize cluster before' (run l1 ops) token' proof' meth' pth' body' now' at2 loading' consuming').2 = true ->
   at2 < Quorum.expires_at c' * Signal.SECOND /\
   (exists clock, clock ∈ at2 :: map snd ops /\ Quorum.expires_at c * Signal.SECOND + GRACE <= clock) /\
   (Forall (fun clock => clock <= at2 + GRACE) (map snd ops) -> Quorum.expires_at c < Quorum.expires_at c')).
Proof.
  intros c c' Hw H1 He Hr. apply authorize_ok in H1 as (m & e & Hm & _ & _ & Hv & E1%from_timestamp_some & Er & Hi). split.
  - exists m. split; [done|]. apply Quorum.capability_verified_iff in Hv as (Hok & ? & ? & ? & _ & ? & _).
    apply insert_ok in Hi as (_ & Ha & _). subst record. cbn in Ha. rewrite <- (Quorum.co_epoch _ _ _ Hok). done.
  - destruct (authorize _ _ (run l1 ops) _ _ _ _ _ _ _ _ _) as [l2 [record'|]] eqn:H2; [intros _|done].
    apply authorize_ok in H2 as (m' & e' & _ & _ & _ & _ & E2%from_timestamp_some & Er' & Hi').
    pose proof (insert_ok _ _ _ _ _ Hi') as (Hx%validate_expires & _).
    assert (Hk : use_key record' = use_key record) by (subst record record'; unfold use_key, c, c' in *; cbn; by rewrite Hr, He).
    destruct (taken_again _ _ _ _ _ ops _ _ _ _ Hw Hi Hk Hi') as (clock & Hin & Hc). subst e e' record record'. cbn [use_expires_at capability_record] in *. fold c c' in Hx, Hc.
    split; [done|]. split; [by exists clock|]. intros Hall. rewrite Forall_forall in Hall.
    assert (clock <= at2 + GRACE) as Hle.
    { apply elem_of_cons in Hin as [->|Hin]; [|by apply Hall]. unfold GRACE, ADMIN_CAPABILITY_LEDGER_GC_GRACE_SECONDS, Signal.SECOND. lia. }
    unfold Signal.SECOND in *. lia.
Qed.

(** C24: The anchored manifest of a cluster changes only by rotation. Over any run of the ledger,
    the anchor is reached from the one before along a chain of rotations that were given to it,
    each from the manifest anchored then to the one anchored next, signed by both groups, its epoch
    one higher; and a capability is consumed or revoked only for the epoch reached, so those of
    retired manifests are refused for good. *)
Theorem anchor_moves_by_rotation {Net : IpNetOps} {Build : IpNetBuildOps} {UO : UrlOps} {OO : @UrlOriginOps UO} {DO : DigestOps}
    {FO : FrostOps} l ops c a :
  bt_get c (anchors l) = Some a ->
  Forall (fun o => forall v, o.1 = Rotate v -> exists now,
    Rotation.verify_rotation (Rotation.old_manifest v) (Rotation.rotation v) now = Ok v) ops ->
  exists b vs, bt_get c (anchors (run l ops)) = Some b /\ moves c a vs b /\ anchor_epoch b = anchor_epoch a + lenZ vs /\
    Forall (fun v => exists now, Rotation.rotation_ok (Rotation.old_manifest v) (Rotation.rotation v) now) vs /\
    forall record revoked now l', insert_admin_capability (run l ops) record revoked now = (l', true) -> use_cluster_id record = c ->
      use_epoch record = anchor_epoch b /\ use_digest record = anchor_digest b.
Proof.
  intros Hg Hver. destruct (run_anchor ops l c a Hg) as (b & vs & Hb & Hm & Hs). exists b, vs.
  split_and!; [done|done|by eapply moves_epoch| |].
  - apply Forall_forall. intros v Hv. eapply elem_of_sublist in Hv as Hin; [|exact Hs].
    unfold rotations_of in Hin. apply list_elem_of_omap in Hin as (o & Hin & Eo). rewrite Forall_forall in Hver.
    destruct (o.1) eqn:E; try done. injection Eo as ->. destruct (Hver o Hin v E) as [now Hv']. exists now.
    by apply Rotation.verify_rotation_ok in Hv' as [_ ?].
  - intros record revoked now l' Hi Hc. apply insert_ok in Hi as (_ & Ha & _). rewrite Hc, Hb in Ha. by injection Ha as ->.
Qed.

(** A cluster anchors its first manifest; its group signs a change of the policy. *)
Module AdminExample.
Import Instances QuorumInstances Crypto.CryptoExample.

(** A reader of the one-field object that the clients write. *)
#[export] Instance toy_revocation : RevocationJsonOps := {|
  revocation_from_slice body :=
    let opening := bstr "{" ++ [x22] ++ bstr "request_id" ++ [x22; x3a; x22] in
    let request_id := take 64 (drop (length opening) body) in
    if bool_decide (body = opening ++ request_id ++ [x22] ++ bstr "}") then Some request_id else None |}.

Definition ledger : AdminCapabilityLedgerState := (initialize_admin_quorum_manifest empty (bstr "c") (sample_manifest 1)).1.

Definition claims : Quorum.CapabilityClaims := {|
  Quorum.claims_schema := 1; Quorum.claims_cluster := bstr "c"; Quorum.claims_epoch := 1;
  Quorum.manifest_digest := match Quorum.digest (sample_manifest 1) with Ok d => d | Err _ => [] end;
  Quorum.method := bstr "PUT"; Quorum.path := bstr "/v1/admin/policy"; Quorum.body_sha256 := sha256 [];
  Quorum.requester_public_key := replicate 32 x05; Quorum.request_id := replicate 32 x07;
  Quorum.issued_at := 10; Quorum.expires_at := 40 |}.

Definition token : Quorum.CapabilityToken := {|
  Quorum.token_claims := claims; Quorum.token_signature := toy_signature [x03; x01] (Quorum.signing_bytes claims) |}.

Definition proof : Quorum.RequestProof := toy_signature (replicate 32 x05) (Quorum.proof_bytes claims).

Definition submit (l : AdminCapabilityLedgerState) (now : Z) : AdminCapabilityLedgerState * result AdminCapabilityUse rejection :=
  authorize (EO := toy_ed) (bstr "c") l l token proof (bstr "PUT") (bstr "/v1/admin/policy") [] now now Answered Answered.

Definition time : Z := 20 * Signal.SECOND.

Lemma submitted : is_ok (submit ledger time).2 = true.
Proof. vm_cast_no_check (@eq_refl bool true). Qed.

Lemma ledger_wf : bt_wf (entries ledger).
Proof.
  enough (E : entries ledger = []) by (rewrite E; apply bt_wf_nil).
  vm_cast_no_check (@eq_refl (btree (bytes * Z * bytes) (AdminCapabilityUse * bool)) []).
Qed.

Lemma capability_authorizes_once_witness :
  is_ok (submit ledger time).2 = true /\ is_ok (submit (submit ledger time).1 (time + Signal.SECOND)).2 = false.
Proof.
  split; [exact submitted|]. pose proof submitted as H. unfold submit. unfold submit in H.
  destruct (authorize (bstr "c") ledger ledger token proof (bstr "PUT") (bstr "/v1/admin/policy") [] time time Answered Answered)
    as [l1 [record|]] eqn:E; [|discriminate H].
  apply not_true_is_false. intros Hagain.
  pose proof (proj2 (proj2 (proj2 (capability_authorizes_once (bstr "c") ledger ledger token proof (bstr "PUT") (bstr "/v1/admin/policy")
    [] time time Answered Answered l1 record [] l1 token proof (bstr "PUT") (bstr "/v1/admin/policy") [] (time + Signal.SECOND)
    (time + Signal.SECOND) Answered Answered ledger_wf E eq_refl eq_refl) Hagain)) (Forall_nil_2 _)) as Hlt.
  exact (Z.lt_irrefl _ Hlt).
Defined.

(** The group revokes the request: its capability is refused. *)
Definition revocation_body : bytes :=
  bstr "{" ++ [x22] ++ bstr "request_id" ++ [x22; x3a; x22] ++ hex_bytes (replicate 32 x07) ++ [x22] ++ bstr "}".

Definition approved : AdminCapabilityUse :=
  capability_record (bstr "c") token (bstr "POST") REVOCATIONS_PATH (40 * Signal.SECOND) time.

Lemma revoked_capability_refused_witness :
  let l1 := (revoke approved ledger revocation_body time time Answered).1 in is_ok (submit l1 (time + Signal.SECOND)).2 = false.
Proof.
  assert (Hok : (revoke approved ledger revocation_body time time Answered).2 = Ok true)
    by (vm_cast_no_check (@eq_refl (result bool rejection) (Ok true))).
  cbv zeta. unfold submit. destruct (revoke approved ledger revocation_body time time Answered) as [l1 r] eqn:E. cbn [fst snd] in *. subst r.
  apply (revoked_capability_refused (bstr "c") ledger approved revocation_body time l1 [] l1 token proof (bstr "PUT")
    (bstr "/v1/admin/policy") [] (time + Signal.SECOND) (time + Signal.SECOND) Answered Answered ledger_wf eq_refl E (Forall_nil_2 _) eq_refl).
  - vm_cast_no_check (@eq_refl (result bytes rejection) (Ok (hex_bytes (replicate 32 x07)))).
  - unfold time, GRACE, ADMIN_CAPABILITY_LEDGER_GC_GRACE_SECONDS, Signal.SECOND. cbn. lia.
Defined.

Definition rotated : Rotation.VerifiedRotation :=
  {| Rotation.old_manifest := sample_manifest 1; Rotation.rotation := Rotation.RotationExample.hand_over 1 |}.

Lemma rotated_verified : Rotation.verify_rotation (sample_manifest 1) (Rotation.RotationExample.hand_over 1) 20 = Ok rotated.
Proof. vm_cast_no_check (@eq_refl (result Rotation.VerifiedRotation Quorum.Error) (Ok rotated)). Qed.

Definition first_anchor : AdminQuorumManifestAnchor := {|
  anchor_epoch := 1; anchor_digest := match Quorum.digest (sample_manifest 1) with Ok d => d | Err _ => [] end |}.

Lemma ledger_anchor : bt_get (bstr "c") (anchors ledger) = Some first_anchor.
Proof. vm_cast_no_check (@eq_refl (option AdminQuorumManifestAnchor) (Some first_anchor)). Qed.

Lemma anchor_moves_by_rotation_witness :
  (anchor_epoch <$> bt_get (bstr "c") (anchors (run ledger [(Rotate rotated, time)]))) = Some 2 /\
  exists b vs, bt_get (bstr "c") (anchors (run ledger [(Rotate rotated, time)])) = Some b /\ moves (bstr "c") first_anchor vs b.
Proof.
  split; [vm_cast_no_check (@eq_refl (option Z) (Some 2))|].
  destruct (anchor_moves_by_rotation ledger [(Rotate rotated, time)] (bstr "c") first_anchor ledger_anchor) as (b & vs & Hb & Hm & _).
  { constructor; [|constructor]. intros v [= <-]. exists 20. exact rotated_verified. }
  exists b, vs. split; [exact Hb|exact Hm].
Defined.

End AdminExample.
End AdminLedger.
