(* ===== verification/ControlStore.v ===== *)
(** * The in-memory store of the control plane (crates/ipars-control-plane/src/lib.rs)

    Nodes, policies, routing epochs, health, address translation, paths and gateway selections
    of [InMemoryStore]. Every operation takes the locks it needs in one order and holds them to
    its end, so it is one atomic step. What a transport snapshot contains is never looked at
    here and is left abstract. *)

From S2P Require Import Prelude RustStd Endpoints OverlayTypes BTree SortBy Hashing F32 NatClass PathTypes Signal Quorum JoinTokens Crypto ControlTypes Instances.

Module ControlStore.
Import ControlTypes.

Definition MAX_EPOCH : Z := 2 ^ 64.

Section Store.
Context {Net : IpNetOps} {Build : IpNetBuildOps} {UO : UrlOps} {DO : DigestOps}.
Context {Snapshot : Type}.

#[global] Instance Route_eq_dec : EqDecision Overlay.Route.
Proof. solve_decision. Defined.
#[global] Instance RelayCapability_eq_dec : EqDecision Overlay.RelayCapability.
Proof. solve_decision. Defined.
#[global] Instance NodeRecord_eq_dec : EqDecision Overlay.NodeRecord.
Proof. solve_decision. Defined.
#[global] Instance AclAction_eq_dec : EqDecision PathTypes.AclAction.
Proof. solve_decision. Defined.
#[global] Instance AclRule_eq_dec : EqDecision PathTypes.AclRule.
Proof. solve_decision. Defined.
#[global] Instance ClusterPolicy_eq_dec : EqDecision PathTypes.ClusterPolicy.
Proof. solve_decision. Defined.

(** What the digest of the route catalog covers of a node. *)
Definition material : Type := NodeId * IpAddr * bytes * list bytes * bytes * list Overlay.Route.

Context {CatalogJson : ToJson (list material)}.

Record PathRecord : Type := {
  key : PathTypes.PeerPathKey;
  selected_state : PathTypes.PathState;
  path_candidate : option Endpoints.EndpointCandidate;
  relay_node : option NodeId;
  path_score : f32;
  path_reasons : list bytes;
  path_updated_at : Z;
  pinned : bool
}.

Record ClientGatewaySelection : Type := { selection_client_id : NodeId; gateway_node_id : NodeId; selected_at : Z }.

Record TransportNodeSnapshot : Type := { snapshot_node_id : NodeId; snapshot_observed_at : Z; snapshot : Snapshot }.

Record InMemoryStore : Type := {
  transport_snapshots : btree NodeId TransportNodeSnapshot;
  cluster_policies : btree bytes PathTypes.ClusterPolicy;
  overlay_routing_epochs : btree bytes Z;
  nodes : btree NodeId Overlay.NodeRecord;
  health : btree NodeId PathTypes.NodeHealth;
  heartbeat_signature_timestamps : btree NodeId Z;
  nat_classifications : btree NodeId NatClass.NatClassification;
  paths : list PathRecord;
  client_gateway_selections : btree NodeId ClientGatewaySelection
}.

Definition new : InMemoryStore := {|
  transport_snapshots := []; cluster_policies := []; overlay_routing_epochs := []; nodes := []; health := [];
  heartbeat_signature_timestamps := []; nat_classifications := []; paths := []; client_gateway_selections := [] |}.

Definition with_nodes (st : InMemoryStore) (m : btree NodeId Overlay.NodeRecord) : InMemoryStore := {|
  transport_snapshots := transport_snapshots st; cluster_policies := cluster_policies st;
  overlay_routing_epochs := overlay_routing_epochs st; nodes := m; health := health st;
  heartbeat_signature_timestamps := heartbeat_signature_timestamps st; nat_classifications := nat_classifications st;
  paths := paths st; client_gateway_selections := client_gateway_selections st |}.

Definition with_epochs (st : InMemoryStore) (m : btree bytes Z) : InMemoryStore := {|
  transport_snapshots := transport_snapshots st; cluster_policies := cluster_policies st;
  overlay_routing_epochs := m; nodes := nodes st; health := health st;
  heartbeat_signature_timestamps := heartbeat_signature_timestamps st; nat_classifications := nat_classifications st;
  paths := paths st; client_gateway_selections := client_gateway_selections st |}.

Definition with_policies (st : InMemoryStore) (m : btree bytes PathTypes.ClusterPolicy) : InMemoryStore := {|
  transport_snapshots := transport_snapshots st; cluster_policies := m;
  overlay_routing_epochs := overlay_routing_epochs st; nodes := nodes st; health := health st;
  heartbeat_signature_timestamps := heartbeat_signature_timestamps st; nat_classifications := nat_classifications st;
  paths := paths st; client_gateway_selections := client_gateway_selections st |}.

(** ** The route catalog *)

Definition overlay_epoch_digest (domain mat : bytes) : Z :=
  be_value (take 8 (sha256 (be_bytes 8 (lenZ domain) ++ domain ++ be_bytes 8 (lenZ mat) ++ mat))).

Definition node_material (n : Overlay.NodeRecord) : material :=
  (Overlay.node_id n, Overlay.vpn_ip n, Overlay.role n, Overlay.tags n, Overlay.wireguard_public_key n, Overlay.routes n).

Definition CATALOG_DOMAIN : bytes := Eval vm_compute in bstr "HeteroNetwork overlay route catalog v1".

Definition overlay_route_catalog_epoch (l : list Overlay.NodeRecord) : result Z ControlPlaneError :=
  let ordered := sort_by (fun a b => kcmp (Overlay.node_id a) (Overlay.node_id b)) l in
  let? encoded := ok_or (to_vec (map node_material ordered)) (Store CatalogEncoding) in
  Ok (overlay_epoch_digest CATALOG_DOMAIN encoded).

(** The nodes of a cluster that carry routes. *)
Definition catalog (st : InMemoryStore) (cluster : bytes) : list Overlay.NodeRecord :=
  List.filter (fun n => bool_decide (Overlay.cluster_id n = cluster) && negb (Overlay.role_is_client (Overlay.role n)))
    (bt_values (nodes st)).

(** The check of [expected_route_catalog_epoch] that the conditional operations share. *)
Definition catalog_unchanged (st : InMemoryStore) (cluster : bytes) (expected : option Z) : result unit ControlPlaneError :=
  match expected with
  | None => Ok tt
  | Some expected =>
      let? epoch := overlay_route_catalog_epoch (catalog st cluster) in
      if negb (epoch =? expected) then Err OverlayRouteCatalogChanged else Ok tt
  end.

Definition get_overlay_routing_epoch (st : InMemoryStore) (cluster : bytes) : Z := default 0 (bt_get cluster (overlay_routing_epochs st)).

(** A cluster without an entry is at epoch zero, where the addition succeeds. *)
Definition advance_in_memory_overlay_routing_epoch (st : InMemoryStore) (cluster : bytes) : result InMemoryStore ControlPlaneError :=
  let? epoch := ok_or (checked_add 64 (get_overlay_routing_epoch st cluster) 1) (Store (RoutingEpochExhausted cluster)) in
  Ok (with_epochs st (bt_insert cluster epoch (overlay_routing_epochs st))).

(** ** Policies *)

Definition get_cluster_policy (st : InMemoryStore) (cluster : bytes) : option PathTypes.ClusterPolicy := bt_get cluster (cluster_policies st).

Definition set_policy (st : InMemoryStore) (cluster : bytes) (p : PathTypes.ClusterPolicy) : InMemoryStore :=
  with_policies st (bt_insert cluster p (cluster_policies st)).

(** Operations give the store back when they fail: nothing is changed before an error. *)
Definition initialize_cluster_policy_if_absent (st : InMemoryStore) (cluster : bytes) (p : PathTypes.ClusterPolicy)
  : InMemoryStore * result PathTypes.ClusterPolicy ControlPlaneError :=
  match get_cluster_policy st cluster with
  | Some stored => (st, Ok stored)
  | None =>
      match advance_in_memory_overlay_routing_epoch st cluster with
      | Err e => (st, Err e)
      | Ok st => (set_policy st cluster p, Ok p)
      end
  end.

Definition upsert_cluster_policy (st : InMemoryStore) (cluster : bytes) (p : PathTypes.ClusterPolicy)
  : InMemoryStore * result unit ControlPlaneError :=
  if bool_decide (get_cluster_policy st cluster = Some p) then (st, Ok tt)
  else match advance_in_memory_overlay_routing_epoch st cluster with
  | Err e => (st, Err e)
  | Ok st => (set_policy st cluster p, Ok tt)
  end.

Definition upsert_cluster_policy_if_route_catalog_epoch (st : InMemoryStore) (cluster : bytes) (p : PathTypes.ClusterPolicy)
    (expected : Z) : InMemoryStore * result bool ControlPlaneError :=
  match overlay_route_catalog_epoch (catalog st cluster) with
  | Err e => (st, Err e)
  | Ok epoch =>
      if negb (epoch =? expected) then (st, Ok false)
      else if bool_decide (get_cluster_policy st cluster = Some p) then (st, Ok true)
      else match advance_in_memory_overlay_routing_epoch st cluster with
      | Err e => (st, Err e)
      | Ok st => (set_policy st cluster p, Ok true)
      end
  end.

(** ** Nodes *)

Definition put_node (st : InMemoryStore) (n : Overlay.NodeRecord) : InMemoryStore :=
  with_nodes st (bt_insert (Overlay.node_id n) n (nodes st)).

Definition get_node (st : InMemoryStore) (id : NodeId) : option Overlay.NodeRecord := bt_get id (nodes st).

Definition list_nodes (st : InMemoryStore) : list Overlay.NodeRecord := bt_values (nodes st).

Definition insert_node (st : InMemoryStore) (n : Overlay.NodeRecord) : InMemoryStore * result unit ControlPlaneError :=
  if bool_decide (is_Some (get_node st (Overlay.node_id n))) then (st, Err (NodeAlreadyExists (Overlay.node_id n)))
  else match advance_in_memory_overlay_routing_epoch st (Overlay.cluster_id n) with
  | Err e => (st, Err e)
  | Ok st => (put_node st n, Ok tt)
  end.

Definition insert_node_if_cluster_policy (st : InMemoryStore) (n : Overlay.NodeRecord) (expected_cluster_policy : option PathTypes.ClusterPolicy)
    (expected_route_catalog_epoch : option Z) : InMemoryStore * result unit ControlPlaneError :=
  if negb (bool_decide (get_cluster_policy st (Overlay.cluster_id n) = expected_cluster_policy)) then (st, Err ClusterPolicyChanged)
  else match catalog_unchanged st (Overlay.cluster_id n) expected_route_catalog_epoch with
  | Err e => (st, Err e)
  | Ok _ => insert_node st n
  end.

Record RemovedNode : Type := { removed_node : Overlay.NodeRecord; removed_path_count : Z; removed_health : bool }.

Definition remove_node (st : InMemoryStore) (id : NodeId) : InMemoryStore * result RemovedNode ControlPlaneError :=
  match get_node st id with
  | None => (st, Err (NodeNotFound id))
  | Some node =>
      match advance_in_memory_overlay_routing_epoch st (Overlay.cluster_id node) with
      | Err e => (st, Err e)
      | Ok st =>
          let keep p := negb (bool_decide (PathTypes.local (key p) = id)) && negb (bool_decide (PathTypes.remote (key p) = id)) in
          ({| transport_snapshots := bt_remove id (transport_snapshots st); cluster_policies := cluster_policies st;
              overlay_routing_epochs := overlay_routing_epochs st; nodes := bt_remove id (nodes st);
              health := bt_remove id (health st);
              heartbeat_signature_timestamps := bt_remove id (heartbeat_signature_timestamps st);
              nat_classifications := bt_remove id (nat_classifications st);
              paths := List.filter keep (paths st);
              client_gateway_selections :=
                bt_retain (fun client s => negb (bool_decide (client = id)) && negb (bool_decide (gateway_node_id s = id)))
                  (client_gateway_selections st) |},
           Ok {| removed_node := node; removed_path_count := lenZ (List.filter (fun p => negb (keep p)) (paths st));
                 removed_health := bool_decide (is_Some (bt_get id (health st))) |})
      end
  end.

Definition set_candidates (n : Overlay.NodeRecord) (c : list Endpoints.EndpointCandidate) : Overlay.NodeRecord := {|
  Overlay.node_id := Overlay.node_id n; Overlay.display_name := Overlay.display_name n; Overlay.hostname := Overlay.hostname n;
  Overlay.cluster_id := Overlay.cluster_id n; Overlay.vpn_ip := Overlay.vpn_ip n;
  Overlay.identity_public_key := Overlay.identity_public_key n; Overlay.wireguard_public_key := Overlay.wireguard_public_key n;
  Overlay.role := Overlay.role n; Overlay.tags := Overlay.tags n; Overlay.endpoint_candidates := c;
  Overlay.relay_capability := Overlay.relay_capability n; Overlay.token_policy := Overlay.token_policy n;
  Overlay.routes := Overlay.routes n; Overlay.registered_at := Overlay.registered_at n |}.

Definition set_relay (n : Overlay.NodeRecord) (r : option Overlay.RelayCapability) : Overlay.NodeRecord := {|
  Overlay.node_id := Overlay.node_id n; Overlay.display_name := Overlay.display_name n; Overlay.hostname := Overlay.hostname n;
  Overlay.cluster_id := Overlay.cluster_id n; Overlay.vpn_ip := Overlay.vpn_ip n;
  Overlay.identity_public_key := Overlay.identity_public_key n; Overlay.wireguard_public_key := Overlay.wireguard_public_key n;
  Overlay.role := Overlay.role n; Overlay.tags := Overlay.tags n; Overlay.endpoint_candidates := Overlay.endpoint_candidates n;
  Overlay.relay_capability := r; Overlay.token_policy := Overlay.token_policy n; Overlay.routes := Overlay.routes n;
  Overlay.registered_at := Overlay.registered_at n |}.

Definition set_routes (n : Overlay.NodeRecord) (r : list Overlay.Route) : Overlay.NodeRecord := {|
  Overlay.node_id := Overlay.node_id n; Overlay.display_name := Overlay.display_name n; Overlay.hostname := Overlay.hostname n;
  Overlay.cluster_id := Overlay.cluster_id n; Overlay.vpn_ip := Overlay.vpn_ip n;
  Overlay.identity_public_key := Overlay.identity_public_key n; Overlay.wireguard_public_key := Overlay.wireguard_public_key n;
  Overlay.role := Overlay.role n; Overlay.tags := Overlay.tags n; Overlay.endpoint_candidates := Overlay.endpoint_candidates n;
  Overlay.relay_capability := Overlay.relay_capability n; Overlay.token_policy := Overlay.token_policy n; Overlay.routes := r;
  Overlay.registered_at := Overlay.registered_at n |}.

Definition set_names (n : Overlay.NodeRecord) (display_name hostname : option bytes) : Overlay.NodeRecord := {|
  Overlay.node_id := Overlay.node_id n; Overlay.display_name := display_name; Overlay.hostname := hostname;
  Overlay.cluster_id := Overlay.cluster_id n; Overlay.vpn_ip := Overlay.vpn_ip n;
  Overlay.identity_public_key := Overlay.identity_public_key n; Overlay.wireguard_public_key := Overlay.wireguard_public_key n;
  Overlay.role := Overlay.role n; Overlay.tags := Overlay.tags n; Overlay.endpoint_candidates := Overlay.endpoint_candidates n;
  Overlay.relay_capability := Overlay.relay_capability n; Overlay.token_policy := Overlay.token_policy n;
  Overlay.routes := Overlay.routes n; Overlay.registered_at := Overlay.registered_at n |}.

Definition set_wireguard (n : Overlay.NodeRecord) (k : bytes) : Overlay.NodeRecord := {|
  Overlay.node_id := Overlay.node_id n; Overlay.display_name := Overlay.display_name n; Overlay.hostname := Overlay.hostname n;
  Overlay.cluster_id := Overlay.cluster_id n; Overlay.vpn_ip := Overlay.vpn_ip n;
  Overlay.identity_public_key := Overlay.identity_public_key n; Overlay.wireguard_public_key := k; Overlay.role := Overlay.role n;
  Overlay.tags := Overlay.tags n; Overlay.endpoint_candidates := Overlay.endpoint_candidates n;
  Overlay.relay_capability := Overlay.relay_capability n; Overlay.token_policy := Overlay.token_policy n;
  Overlay.routes := Overlay.routes n; Overlay.registered_at := Overlay.registered_at n |}.

(** [*nodes.get_mut(id) = n] *)
Definition update_node (st : InMemoryStore) (id : NodeId) (n : Overlay.NodeRecord) : InMemoryStore := with_nodes st (bt_insert id n (nodes st)).

Definition update_node_candidates (st : InMemoryStore) (id : NodeId) (c : list Endpoints.EndpointCandidate)
  : InMemoryStore * result unit ControlPlaneError :=
  match get_node st id with
  | None => (st, Err (NodeNotFound id))
  | Some n => (update_node st id (set_candidates n c), Ok tt)
  end.

Definition update_node_display_name (st : InMemoryStore) (id : NodeId) (display_name : option bytes)
  : InMemoryStore * result Overlay.NodeRecord ControlPlaneError :=
  match get_node st id with
  | None => (st, Err (NodeNotFound id))
  | Some n => let n := set_names n display_name (Overlay.hostname n) in (update_node st id n, Ok n)
  end.

Definition update_node_relay_capability (st : InMemoryStore) (id : NodeId) (r : option Overlay.RelayCapability)
  : InMemoryStore * result unit ControlPlaneError :=
  match get_node st id with
  | None => (st, Err (NodeNotFound id))
  | Some n => (update_node st id (set_relay n r), Ok tt)
  end.

Definition update_node_routes (st : InMemoryStore) (id : NodeId) (r : list Overlay.Route) : InMemoryStore * result unit ControlPlaneError :=
  match get_node st id with
  | None => (st, Err (NodeNotFound id))
  | Some n =>
      if bool_decide (Overlay.routes n = r) then (st, Ok tt)
      else match advance_in_memory_overlay_routing_epoch st (Overlay.cluster_id n) with
      | Err e => (st, Err e)
      | Ok st => (update_node st id (set_routes n r), Ok tt)
      end
  end.

Definition update_node_routes_if_cluster_policy (st : InMemoryStore) (cluster : bytes) (id : NodeId) (r : list Overlay.Route)
    (expected_cluster_policy : option PathTypes.ClusterPolicy) (expected_route_catalog_epoch : option Z)
  : InMemoryStore * result unit ControlPlaneError :=
  if negb (bool_decide (get_cluster_policy st cluster = expected_cluster_policy)) then (st, Err ClusterPolicyChanged)
  else match catalog_unchanged st cluster expected_route_catalog_epoch with
  | Err e => (st, Err e)
  | Ok _ =>
      match get_node st id with
      | None => (st, Err (NodeNotFound id))
      | Some n =>
          if negb (bool_decide (Overlay.cluster_id n = cluster)) then (st, Err (NodeNotFound id))
          else if bool_decide (Overlay.routes n = r) then (st, Ok tt)
          else match advance_in_memory_overlay_routing_epoch st cluster with
          | Err e => (st, Err e)
          | Ok st => (update_node st id (set_routes n r), Ok tt)
          end
      end
  end.

Record RejoinNodeStoreUpdate : Type := {
  rejoin_cluster_id : bytes;
  rejoin_expected_policy : option PathTypes.ClusterPolicy;
  rejoin_expected_epoch : option Z;
  rejoin_expected_node : Overlay.NodeRecord;
  rejoin_candidates : list Endpoints.EndpointCandidate;
  rejoin_relay : option Overlay.RelayCapability;
  rejoin_routes : list Overlay.Route
}.

Definition rejoin_node_if_cluster_policy (st : InMemoryStore) (u : RejoinNodeStoreUpdate)
  : InMemoryStore * result Overlay.NodeRecord ControlPlaneError :=
  let id := Overlay.node_id (rejoin_expected_node u) in
  if negb (bool_decide (get_cluster_policy st (rejoin_cluster_id u) = rejoin_expected_policy u)) then (st, Err ClusterPolicyChanged)
  else match catalog_unchanged st (rejoin_cluster_id u) (rejoin_expected_epoch u) with
  | Err e => (st, Err e)
  | Ok _ =>
      match get_node st id with
      | None => (st, Err (NodeNotFound id))
      | Some n =>
          if negb (bool_decide (Overlay.cluster_id n = rejoin_cluster_id u)) then (st, Err (NodeNotFound id))
          else if negb (bool_decide (n = rejoin_expected_node u)) then (st, Err (NodeStateChanged (Overlay.node_id n)))
          else
            match (if bool_decide (Overlay.routes n = rejoin_routes u) then Ok st
                   else advance_in_memory_overlay_routing_epoch st (rejoin_cluster_id u)) with
            | Err e => (st, Err e)
            | Ok st =>
                let n := set_routes (set_relay (set_candidates n (rejoin_candidates u)) (rejoin_relay u)) (rejoin_routes u) in
                (update_node st id n, Ok n)
            end
      end
  end.

Definition rotate_node_wireguard_public_key (st : InMemoryStore) (id : NodeId) (expected next : bytes)
  : InMemoryStore * result Overlay.NodeRecord ControlPlaneError :=
  match get_node st id with
  | None => (st, Err (NodeNotFound id))
  | Some n =>
      if negb (bool_decide (Overlay.wireguard_public_key n = expected)) then (st, Err (NodeUpdateRejected id WireguardKeyChanged))
      else if bool_decide (Overlay.wireguard_public_key n = next) then (st, Ok n)
      else match advance_in_memory_overlay_routing_epoch st (Overlay.cluster_id n) with
      | Err e => (st, Err e)
      | Ok st => let n := set_wireguard n next in (update_node st id n, Ok n)
      end
  end.

(** ** Reports of nodes *)

Definition upsert_health (st : InMemoryStore) (id : NodeId) (h : PathTypes.NodeHealth) : InMemoryStore := {|
  transport_snapshots := transport_snapshots st; cluster_policies := cluster_policies st;
  overlay_routing_epochs := overlay_routing_epochs st; nodes := nodes st; health := bt_insert id h (health st);
  heartbeat_signature_timestamps := heartbeat_signature_timestamps st; nat_classifications := nat_classifications st;
  paths := paths st; client_gateway_selections := client_gateway_selections st |}.

Definition upsert_nat_classification (st : InMemoryStore) (id : NodeId) (c : NatClass.NatClassification) : InMemoryStore := {|
  transport_snapshots := transport_snapshots st; cluster_policies := cluster_policies st;
  overlay_routing_epochs := overlay_routing_epochs st; nodes := nodes st; health := health st;
  heartbeat_signature_timestamps := heartbeat_signature_timestamps st;
  nat_classifications := bt_insert id c (nat_classifications st); paths := paths st;
  client_gateway_selections := client_gateway_selections st |}.

Definition with_paths (st : InMemoryStore) (l : list PathRecord) : InMemoryStore := {|
  transport_snapshots := transport_snapshots st; cluster_policies := cluster_policies st;
  overlay_routing_epochs := overlay_routing_epochs st; nodes := nodes st; health := health st;
  heartbeat_signature_timestamps := heartbeat_signature_timestamps st; nat_classifications := nat_classifications st;
  paths := l; client_gateway_selections := client_gateway_selections st |}.

Definition replace_node_paths (st : InMemoryStore) (id : NodeId) (replacement : list PathRecord) : InMemoryStore :=
  with_paths st (List.filter (fun p => negb (bool_decide (PathTypes.local (key p) = id))) (paths st) ++ replacement).

Definition upsert_transport_snapshot (st : InMemoryStore) (r : TransportNodeSnapshot) : InMemoryStore :=
  if match bt_get (snapshot_node_id r) (transport_snapshots st) with
     | Some old => snapshot_observed_at old <=? snapshot_observed_at r
     | None => true
     end
  then {| transport_snapshots := bt_insert (snapshot_node_id r) r (transport_snapshots st); cluster_policies := cluster_policies st;
          overlay_routing_epochs := overlay_routing_epochs st; nodes := nodes st; health := health st;
          heartbeat_signature_timestamps := heartbeat_signature_timestamps st; nat_classifications := nat_classifications st;
          paths := paths st; client_gateway_selections := client_gateway_selections st |}
  else st.

Record HeartbeatStoreUpdate : Type := {
  hb_cluster_id : bytes;
  hb_expected_policy : option PathTypes.ClusterPolicy;
  hb_expected_epoch : option Z;
  hb_node_id : NodeId;
  hb_expected_identity : bytes;
  hb_expected_registered_at : Z;
  hb_accepted_signature_at : option Z;
  hb_hostname : option bytes;
  hb_candidates : list Endpoints.EndpointCandidate;
  hb_nat : option NatClass.NatClassification;
  hb_relay : option Overlay.RelayCapability;
  hb_routes : option (list Overlay.Route);
  hb_health : PathTypes.NodeHealth;
  hb_paths : list PathRecord
}.

Definition ensure_matches_node_generation (u : HeartbeatStoreUpdate) (n : Overlay.NodeRecord) : result unit ControlPlaneError :=
  if negb (bool_decide (Overlay.node_id n = hb_node_id u)) || negb (bool_decide (Overlay.cluster_id n = hb_cluster_id u))
  then Err (NodeNotFound (hb_node_id u))
  else if negb (bool_decide (Overlay.identity_public_key n = hb_expected_identity u))
          || negb (Overlay.registered_at n =? hb_expected_registered_at u)
  then Err (NodeUpdateRejected (hb_node_id u) GenerationChanged)
  else Ok tt.

Definition ensure_heartbeat_is_newer (u : HeartbeatStoreUpdate) (previous_signature_at : option Z) (previous_health : option PathTypes.NodeHealth)
  : result unit ControlPlaneError :=
  match hb_accepted_signature_at u with
  | Some accepted =>
      match previous_signature_at with
      | Some previous =>
          if accepted <=? previous then Err (NodeSignatureRejected (hb_node_id u) (SignatureNotNewer accepted previous)) else Ok tt
      | None => Ok tt
      end
  | None =>
      if match previous_health with
         | Some previous => PathTypes.last_seen_at (hb_health u) <=? PathTypes.last_seen_at previous
         | None => false
         end
      then Err (NodeSignatureRejected (hb_node_id u) UnsignedNotNewer) else Ok tt
  end.

(** The assignments to the node. *)
Definition heartbeat_node (u : HeartbeatStoreUpdate) (n : Overlay.NodeRecord) : Overlay.NodeRecord :=
  let n := set_relay (set_candidates n (hb_candidates u)) (hb_relay u) in
  let n := match hb_hostname u with Some h => set_names n (Overlay.display_name n) (Some h) | None => n end in
  match hb_routes u with Some r => set_routes n r | None => n end.

(** The lock on the epochs is taken exactly when the update carries routes, so the error on its
    absence is unreachable. *)
Definition apply_heartbeat (st : InMemoryStore) (u : HeartbeatStoreUpdate) : InMemoryStore * result unit ControlPlaneError :=
  let id := hb_node_id u in
  if negb (bool_decide (get_cluster_policy st (hb_cluster_id u) = hb_expected_policy u)) then (st, Err ClusterPolicyChanged)
  else match catalog_unchanged st (hb_cluster_id u) (hb_expected_epoch u) with
  | Err e => (st, Err e)
  | Ok _ =>
      match get_node st id with
      | None => (st, Err (NodeNotFound id))
      | Some n =>
          match (let? _ := ensure_matches_node_generation u n in
                 let? _ := ensure_heartbeat_is_newer u (bt_get id (heartbeat_signature_timestamps st)) (bt_get id (health st)) in
                 if match hb_routes u with Some r => negb (bool_decide (r = Overlay.routes n)) | None => false end
                 then advance_in_memory_overlay_routing_epoch st (hb_cluster_id u) else Ok st) with
          | Err e => (st, Err e)
          | Ok st =>
              ({| transport_snapshots := transport_snapshots st; cluster_policies := cluster_policies st;
                  overlay_routing_epochs := overlay_routing_epochs st; nodes := bt_insert id (heartbeat_node u n) (nodes st);
                  health := bt_insert id (hb_health u) (health st);
                  heartbeat_signature_timestamps :=
                    match hb_accepted_signature_at u with
                    | Some t => bt_insert id t (heartbeat_signature_timestamps st)
                    | None => heartbeat_signature_timestamps st
                    end;
                  nat_classifications :=
                    match hb_nat u with Some c => bt_insert id c (nat_classifications st) | None => nat_classifications st end;
                  paths := List.filter (fun p => negb (bool_decide (PathTypes.local (key p) = id))) (paths st) ++ hb_paths u;
                  client_gateway_selections := client_gateway_selections st |}, Ok tt)
          end
      end
  end.

(** ** Runs *)

Inductive store_op : Type :=
  | InitializePolicy (cluster : bytes) (p : PathTypes.ClusterPolicy)
  | UpsertPolicy (cluster : bytes) (p : PathTypes.ClusterPolicy)
  | UpsertPolicyIf (cluster : bytes) (p : PathTypes.ClusterPolicy) (expected : Z)
  | InsertNode (n : Overlay.NodeRecord)
  | InsertNodeIf (n : Overlay.NodeRecord) (expected_policy : option PathTypes.ClusterPolicy) (expected_epoch : option Z)
  | RemoveNode (id : NodeId)
  | UpdateCandidates (id : NodeId) (c : list Endpoints.EndpointCandidate)
  | UpdateDisplayName (id : NodeId) (name : option bytes)
  | UpdateRelay (id : NodeId) (r : option Overlay.RelayCapability)
  | UpdateRoutes (id : NodeId) (r : list Overlay.Route)
  | UpdateRoutesIf (cluster : bytes) (id : NodeId) (r : list Overlay.Route) (expected_policy : option PathTypes.ClusterPolicy)
      (expected_epoch : option Z)
  | Rejoin (u : RejoinNodeStoreUpdate)
  | RotateKey (id : NodeId) (expected next : bytes)
  | UpsertHealth (id : NodeId) (h : PathTypes.NodeHealth)
  | UpsertNat (id : NodeId) (c : NatClass.NatClassification)
  | ReplacePaths (id : NodeId) (l : list PathRecord)
  | UpsertTransport (r : TransportNodeSnapshot)
  | Heartbeat (u : HeartbeatStoreUpdate).

Definition perform (st : InMemoryStore) (o : store_op) : InMemoryStore :=
  match o with
  | InitializePolicy cluster p => (initialize_cluster_policy_if_absent st cluster p).1
  | UpsertPolicy cluster p => (upsert_cluster_policy st cluster p).1
  | UpsertPolicyIf cluster p expected => (upsert_cluster_policy_if_route_catalog_epoch st cluster p expected).1
  | InsertNode n => (insert_node st n).1
  | InsertNodeIf n p e => (insert_node_if_cluster_policy st n p e).1
  | RemoveNode id => (remove_node st id).1
  | UpdateCandidates id c => (update_node_candidates st id c).1
  | UpdateDisplayName id name => (update_node_display_name st id name).1
  | UpdateRelay id r => (update_node_relay_capability st id r).1
  | UpdateRoutes id r => (update_node_routes st id r).1
  | UpdateRoutesIf cluster id r p e => (update_node_routes_if_cluster_policy st cluster id r p e).1
  | Rejoin u => (rejoin_node_if_cluster_policy st u).1
  | RotateKey id expected next => (rotate_node_wireguard_public_key st id expected next).1
  | UpsertHealth id h => upsert_health st id h
  | UpsertNat id c => upsert_nat_classification st id c
  | ReplacePaths id l => replace_node_paths st id l
  | UpsertTransport r => upsert_transport_snapshot st r
  | Heartbeat u => (apply_heartbeat st u).1
  end.

Definition run (st : InMemoryStore) (ops : list store_op) : InMemoryStore := foldl perform st ops.

(** ** What routing depends on *)

(** Of a node of the cluster: what its peers configure. *)
Definition node_view (cluster : bytes) (n : Overlay.NodeRecord) : option material :=
  if bool_decide (Overlay.cluster_id n = cluster) then Some (node_material n) else None.

Definition routing_view (st : InMemoryStore) (cluster : bytes) : option PathTypes.ClusterPolicy * list material :=
  (get_cluster_policy st cluster, omap (node_view cluster) (bt_values (nodes st))).

(** Either nothing routing depends on has changed, or the epoch is one higher. *)
Definition epoch_kept (st st' : InMemoryStore) : Prop := forall cluster,
  get_overlay_routing_epoch st' cluster = get_overlay_routing_epoch st cluster + 1 \/
  get_overlay_routing_epoch st' cluster = get_overlay_routing_epoch st cluster /\ routing_view st' cluster = routing_view st cluster.

Lemma epoch_kept_refl st : epoch_kept st st.
Proof. intros cluster. by right. Qed.

Lemma omap_update {K V B} `{KeyOrd K} (f : V -> option B) (m : btree K V) k v v' :
  bt_get k m = Some v -> f v' = f v -> omap f (bt_values (bt_insert k v' m)) = omap f (bt_values m).
Proof.
  intros Hg Hf. unfold bt_values. induction m as [|[k' w] m IH]; [done|]. cbn [bt_get bt_insert] in *.
  destruct (kcmp k k') eqn:E; [|done|]; cbn [map snd omap list_omap].
  - injection Hg as ->. by rewrite Hf.
  - by rewrite IH.
Qed.

Lemma omap_absent {K V B} `{KeyOrd K} (f : V -> option B) (m : btree K V) k v :
  bt_get k m = None -> f v = None -> omap f (bt_values (bt_insert k v m)) = omap f (bt_values m).
Proof.
  intros Hg Hf. unfold bt_values. induction m as [|[k' w] m IH]; cbn [bt_get bt_insert] in *; [cbn; by rewrite Hf|].
  destruct (kcmp k k') eqn:E; [done| |]; cbn [map snd omap list_omap]; [by rewrite Hf|]. by rewrite IH.
Qed.

Lemma omap_removed {K V B} `{KeyOrd K} (f : V -> option B) (m : btree K V) k v :
  bt_get k m = Some v -> f v = None -> omap f (bt_values (bt_remove k m)) = omap f (bt_values m).
Proof.
  intros Hg Hf. unfold bt_values. induction m as [|[k' w] m IH]; [done|]. cbn [bt_get bt_remove] in *.
  destruct (kcmp k k') eqn:E; [|done|]; cbn [map snd omap list_omap].
  - injection Hg as ->. by rewrite Hf.
  - by rewrite IH.
Qed.

(** A step that advances the epoch of one cluster and changes nothing else of the others. *)
Lemma advanced st cluster st1 st' : advance_in_memory_overlay_routing_epoch st cluster = Ok st1 ->
  overlay_routing_epochs st' = overlay_routing_epochs st1 ->
  (forall c, c <> cluster -> routing_view st' c = routing_view st1 c) -> epoch_kept st st'.
Proof.
  unfold advance_in_memory_overlay_routing_epoch. intros (e & He & [= <-])%bind_ok Eep Hv c.
  apply ok_or_ok in He. unfold checked_add in He. destruct (_ <? _); [|done]. injection He as <-.
  unfold get_overlay_routing_epoch at 1 3. rewrite Eep. cbn. destruct (decide (c = cluster)) as [->|Hne].
  - left. by rewrite bt_get_insert.
  - right. rewrite bt_get_insert_ne by done. split; [done|]. by rewrite Hv.
Qed.

Lemma advance_fields st cluster st1 : advance_in_memory_overlay_routing_epoch st cluster = Ok st1 ->
  nodes st1 = nodes st /\ cluster_policies st1 = cluster_policies st /\
  heartbeat_signature_timestamps st1 = heartbeat_signature_timestamps st.
Proof. unfold advance_in_memory_overlay_routing_epoch. by intros (e & He & [= <-])%bind_ok. Qed.

(** Changing a node without advancing, when what routing sees of it stays. *)
Lemma node_kept st id n n' st' : get_node st id = Some n -> (forall c, node_view c n' = node_view c n) ->
  nodes st' = bt_insert id n' (nodes st) -> cluster_policies st' = cluster_policies st ->
  overlay_routing_epochs st' = overlay_routing_epochs st -> epoch_kept st st'.
Proof.
  intros Hg Hv En Ep Ee c. right. unfold get_overlay_routing_epoch, routing_view, get_cluster_policy. rewrite En, Ep, Ee.
  split; [done|]. f_equal. by eapply omap_update.
Qed.

Lemma node_kept_update st id n n' : get_node st id = Some n -> (forall c, node_view c n' = node_view c n) ->
  epoch_kept st (update_node st id n').
Proof. intros Hg Hv. by eapply (node_kept st id n n'). Qed.

(** Changing a node of the cluster whose epoch advances. *)
Lemma node_advanced st cluster st1 id n n' st' : advance_in_memory_overlay_routing_epoch st cluster = Ok st1 ->
  get_node st id = Some n -> Overlay.cluster_id n = cluster -> Overlay.cluster_id n' = cluster ->
  nodes st' = bt_insert id n' (nodes st1) -> cluster_policies st' = cluster_policies st1 ->
  overlay_routing_epochs st' = overlay_routing_epochs st1 -> epoch_kept st st'.
Proof.
  intros Ha Hg Hc Hc' En Ep Ee. eapply advanced; [done|done|]. intros c Hne.
  destruct (advance_fields _ _ _ Ha) as (E1 & _). unfold routing_view, get_cluster_policy. rewrite En, Ep. f_equal.
  eapply omap_update; [by rewrite E1|]. unfold node_view. by rewrite Hc, Hc', !bool_decide_false by congruence.
Qed.

Lemma policy_advanced st cluster st1 p : advance_in_memory_overlay_routing_epoch st cluster = Ok st1 -> epoch_kept st (set_policy st1 cluster p).
Proof.
  intros Ha. eapply advanced; [done|done|]. intros c Hne. unfold routing_view, get_cluster_policy, set_policy. cbn.
  by rewrite bt_get_insert_ne.
Qed.

Lemma insert_node_epoch st n : epoch_kept st (insert_node st n).1.
Proof.
  unfold insert_node. case_bool_decide as Hs; [apply epoch_kept_refl|].
  destruct (advance_in_memory_overlay_routing_epoch st _) as [st1|] eqn:Ha; [|apply epoch_kept_refl]. cbn [fst].
  eapply advanced; [done|done|]. intros c Hne. destruct (advance_fields _ _ _ Ha) as (E1 & _).
  unfold routing_view, put_node, get_cluster_policy. cbn. f_equal. apply omap_absent.
  - rewrite E1. by apply eq_None_not_Some.
  - unfold node_view. by rewrite bool_decide_false by congruence.
Qed.

Lemma remove_node_epoch st id : epoch_kept st (remove_node st id).1.
Proof.
  unfold remove_node. destruct (get_node st id) as [n|] eqn:Hg; [|apply epoch_kept_refl].
  destruct (advance_in_memory_overlay_routing_epoch st _) as [st1|] eqn:Ha; [|apply epoch_kept_refl]. cbn [fst].
  eapply advanced; [done|done|]. intros c Hne. destruct (advance_fields _ _ _ Ha) as (E1 & _).
  unfold routing_view, get_cluster_policy. cbn. f_equal. eapply omap_removed; [by rewrite E1|].
  unfold node_view. by rewrite bool_decide_false by congruence.
Qed.

Lemma update_routes_epoch st st1 id n r : get_node st id = Some n ->
  advance_in_memory_overlay_routing_epoch st (Overlay.cluster_id n) = Ok st1 -> epoch_kept st (update_node st1 id (set_routes n r)).
Proof. intros Hg Ha. by eapply (node_advanced _ _ _ id n (set_routes n r)). Qed.

Lemma rejoin_epoch st u : epoch_kept st (rejoin_node_if_cluster_policy st u).1.
Proof.
  unfold rejoin_node_if_cluster_policy. destruct (negb _); [apply epoch_kept_refl|].
  destruct (catalog_unchanged _ _ _); [|apply epoch_kept_refl].
  destruct (get_node st _) as [n|] eqn:Hg; [|apply epoch_kept_refl].
  destruct (negb (bool_decide (Overlay.cluster_id n = rejoin_cluster_id u))) eqn:Ec; [apply epoch_kept_refl|].
  apply negb_false_iff, bool_decide_eq_true in Ec. destruct (negb _); [apply epoch_kept_refl|].
  destruct (decide (Overlay.routes n = rejoin_routes u)) as [Er|Er].
  - rewrite bool_decide_true by done. cbn [fst]. eapply node_kept; [exact Hg| |done..]. intros c.
    unfold node_view, node_material. cbn. by rewrite Er.
  - rewrite bool_decide_false by done. destruct (advance_in_memory_overlay_routing_epoch _ _) as [st1|] eqn:Ha; [|apply epoch_kept_refl].
    cbn [fst]. eapply (node_advanced _ _ _ _ n _ _ Ha Hg Ec); [|reflexivity..]. done.
Qed.

Lemma heartbeat_epoch st u : epoch_kept st (apply_heartbeat st u).1.
Proof.
  unfold apply_heartbeat. destruct (negb _); [apply epoch_kept_refl|]. destruct (catalog_unchanged _ _ _); [|apply epoch_kept_refl].
  destruct (get_node st _) as [n|] eqn:Hg; [|apply epoch_kept_refl].
  unfold ensure_matches_node_generation. destruct (_ || _)%bool eqn:Eg; [apply epoch_kept_refl|].
  apply orb_false_iff in Eg as [_ Ec]. apply negb_false_iff, bool_decide_eq_true in Ec.
  destruct (_ || _)%bool; [apply epoch_kept_refl|]. destruct (ensure_heartbeat_is_newer _ _ _); [|apply epoch_kept_refl].
  assert (Hn' : Overlay.cluster_id (heartbeat_node u n) = hb_cluster_id u)
    by (unfold heartbeat_node; destruct (hb_routes u), (hb_hostname u); done).
  destruct (match hb_routes u with Some r => _ | None => false end) eqn:Er.
  - destruct (advance_in_memory_overlay_routing_epoch _ _) as [st1|] eqn:Ha; [|apply epoch_kept_refl]. cbn [fst].
    by eapply (node_advanced _ _ _ (hb_node_id u) n (heartbeat_node u n)).
  - cbn [fst]. eapply (node_kept st (hb_node_id u) n (heartbeat_node u n)); [done| |done..]. intros c.
    unfold node_view, node_material, heartbeat_node. destruct (hb_routes u) as [r|]; [|by destruct (hb_hostname u)].
    apply negb_false_iff, bool_decide_eq_true in Er as ->. by destruct (hb_hostname u).
Qed.

Lemma perform_epoch st o : epoch_kept st (perform st o).
Proof.
  destruct o as [cluster p|cluster p|cluster p expected|n|n p e|id|id c|id name|id r|id r|cluster id r p e|u|id expected next|id h|id c|id l|r|u];
    cbn [perform]; try (intros cluster'; by right).
  - unfold initialize_cluster_policy_if_absent. destruct (get_cluster_policy st cluster); [apply epoch_kept_refl|].
    destruct (advance_in_memory_overlay_routing_epoch _ _) eqn:Ha; [by apply policy_advanced|apply epoch_kept_refl].
  - unfold upsert_cluster_policy. case_bool_decide; [apply epoch_kept_refl|].
    destruct (advance_in_memory_overlay_routing_epoch _ _) eqn:Ha; [by apply policy_advanced|apply epoch_kept_refl].
  - unfold upsert_cluster_policy_if_route_catalog_epoch. destruct (overlay_route_catalog_epoch _); [|apply epoch_kept_refl].
    destruct (negb _); [apply epoch_kept_refl|]. case_bool_decide; [apply epoch_kept_refl|].
    destruct (advance_in_memory_overlay_routing_epoch _ _) eqn:Ha; [by apply policy_advanced|apply epoch_kept_refl].
  - apply insert_node_epoch.
  - unfold insert_node_if_cluster_policy. destruct (negb _); [apply epoch_kept_refl|].
    destruct (catalog_unchanged _ _ _); [apply insert_node_epoch|apply epoch_kept_refl].
  - apply remove_node_epoch.
  - unfold update_node_candidates. destruct (get_node st id) as [n|] eqn:Hg; [|apply epoch_kept_refl]. by apply (node_kept_update st id n).
  - unfold update_node_display_name. destruct (get_node st id) as [n|] eqn:Hg; [|apply epoch_kept_refl]. by apply (node_kept_update st id n).
  - unfold update_node_relay_capability. destruct (get_node st id) as [n|] eqn:Hg; [|apply epoch_kept_refl]. by apply (node_kept_update st id n).
  - unfold update_node_routes. destruct (get_node st id) as [n|] eqn:Hg; [|apply epoch_kept_refl].
    case_bool_decide; [apply epoch_kept_refl|].
    destruct (advance_in_memory_overlay_routing_epoch _ _) eqn:Ha; [by apply update_routes_epoch|apply epoch_kept_refl].
  - unfold update_node_routes_if_cluster_policy. destruct (negb _); [apply epoch_kept_refl|].
    destruct (catalog_unchanged _ _ _); [|apply epoch_kept_refl].
    destruct (get_node st id) as [n|] eqn:Hg; [|apply epoch_kept_refl].
    destruct (negb (bool_decide (Overlay.cluster_id n = cluster))) eqn:Ec; [apply epoch_kept_refl|].
    apply negb_false_iff, bool_decide_eq_true in Ec as <-. case_bool_decide; [apply epoch_kept_refl|].
    destruct (advance_in_memory_overlay_routing_epoch _ _) eqn:Ha; [by apply update_routes_epoch|apply epoch_kept_refl].
  - apply rejoin_epoch.
  - unfold rotate_node_wireguard_public_key. destruct (get_node st id) as [n|] eqn:Hg; [|apply epoch_kept_refl].
    destruct (negb _); [apply epoch_kept_refl|]. case_bool_decide; [apply epoch_kept_refl|].
    destruct (advance_in_memory_overlay_routing_epoch _ _) as [st1|] eqn:Ha; [|apply epoch_kept_refl].
    by eapply (node_advanced _ _ _ id n (set_wireguard n next)).
  - unfold upsert_transport_snapshot. destruct (match bt_get _ _ with Some _ => _ | None => _ end); intros cluster; by right.
  - apply heartbeat_epoch.
Qed.

(** ** Heartbeats *)

Lemma advance_timestamps st cluster st1 : advance_in_memory_overlay_routing_epoch st cluster = Ok st1 ->
  heartbeat_signature_timestamps st1 = heartbeat_signature_timestamps st.
Proof. intros H. by apply advance_fields in H as (_ & _ & ->). Qed.

(** An accepted heartbeat records its time, which is later than the one before. *)
Lemma heartbeat_timestamps st u : bt_wf (heartbeat_signature_timestamps st) ->
  bt_wf (heartbeat_signature_timestamps (apply_heartbeat st u).1) /\
  forall id t, bt_get id (heartbeat_signature_timestamps st) = Some t ->
    exists t', bt_get id (heartbeat_signature_timestamps (apply_heartbeat st u).1) = Some t' /\ t <= t'.
Proof.
  intros Hw. assert (Hsame : bt_wf (heartbeat_signature_timestamps st) /\ forall id t, bt_get id (heartbeat_signature_timestamps st) = Some t ->
    exists t', bt_get id (heartbeat_signature_timestamps st) = Some t' /\ t <= t') by (split; [done|]; intros id t ->; exists t; split; [done|lia]).
  unfold apply_heartbeat. destruct (negb _); [done|]. destruct (catalog_unchanged _ _ _); [|done].
  destruct (get_node st _) as [n|]; [|done]. destruct (ensure_matches_node_generation u n); [|done].
  destruct (ensure_heartbeat_is_newer _ _ _) eqn:En; [|done].
  match goal with |- context [match ?x with Ok st => _ | Err e => (?y, Err e) end] => destruct x as [st1|] eqn:Ha; [|done] end. cbn.
  assert (E1 : heartbeat_signature_timestamps st1 = heartbeat_signature_timestamps st).
  { destruct (hb_routes u); [destruct (negb _)|]; try (by eapply advance_timestamps); by injection Ha as <-. }
  rewrite E1. destruct (hb_accepted_signature_at u) as [sa|] eqn:Es; [|done]. split; [by apply bt_wf_insert|].
  intros id t Hg. destruct (decide (id = hb_node_id u)) as [->|Hne].
  - rewrite bt_get_insert. exists sa. split; [done|]. unfold ensure_heartbeat_is_newer in En. rewrite Es, Hg in En.
    destruct (sa <=? t) eqn:E; [done|]. lia.
  - rewrite bt_get_insert_ne by done. by apply Hsame.
Qed.

(** The time of the last signed heartbeat of a node, after an operation that does not remove it. *)
Lemma perform_timestamp st o id t : bt_wf (heartbeat_signature_timestamps st) -> o <> RemoveNode id ->
  bt_get id (heartbeat_signature_timestamps st) = Some t ->
  bt_wf (heartbeat_signature_timestamps (perform st o)) /\
  exists t', bt_get id (heartbeat_signature_timestamps (perform st o)) = Some t' /\ t <= t'.
Proof.
  intros Hw Ho Hg.
  assert (Hsame : forall st', heartbeat_signature_timestamps st' = heartbeat_signature_timestamps st ->
    bt_wf (heartbeat_signature_timestamps st') /\ exists t', bt_get id (heartbeat_signature_timestamps st') = Some t' /\ t <= t').
  { intros st' ->. split; [done|]. exists t. split; [done|lia]. }
  destruct o as [cluster p|cluster p|cluster p expected|n|n p e|i|i c|i name|i r|i r|cluster i r p e|u|i expected next|i h|i c|i l|r|u];
    cbn [perform]; try (by apply Hsame).
  - apply Hsame. unfold initialize_cluster_policy_if_absent. repeat case_match; simplify_eq/=; try done. by eapply advance_timestamps.
  - apply Hsame. unfold upsert_cluster_policy. repeat case_match; simplify_eq/=; try done. by eapply advance_timestamps.
  - apply Hsame. unfold upsert_cluster_policy_if_route_catalog_epoch. repeat case_match; simplify_eq/=; try done. by eapply advance_timestamps.
  - apply Hsame. unfold insert_node. repeat case_match; simplify_eq/=; try done. by eapply advance_timestamps.
  - apply Hsame. unfold insert_node_if_cluster_policy, insert_node. repeat case_match; simplify_eq/=; try done. by eapply advance_timestamps.
  - unfold remove_node. destruct (get_node st i) as [n|]; [|by apply Hsame].
    destruct (advance_in_memory_overlay_routing_epoch _ _) as [st1|] eqn:Ha; [|by apply Hsame]. cbn.
    rewrite (advance_timestamps _ _ _ Ha). split; [by apply bt_wf_remove|]. exists t. split; [|lia].
    rewrite bt_get_remove_ne by (done || congruence). done.
  - apply Hsame. unfold update_node_candidates. by repeat case_match.
  - apply Hsame. unfold update_node_display_name. by repeat case_match.
  - apply Hsame. unfold update_node_relay_capability. by repeat case_match.
  - apply Hsame. unfold update_node_routes. repeat case_match; simplify_eq/=; try done. by eapply advance_timestamps.
  - apply Hsame. unfold update_node_routes_if_cluster_policy. repeat case_match; simplify_eq/=; try done. by eapply advance_timestamps.
  - apply Hsame. unfold rejoin_node_if_cluster_policy. repeat case_match; simplify_eq/=; try done. by eapply advance_timestamps.
  - apply Hsame. unfold rotate_node_wireguard_public_key. repeat case_match; simplify_eq/=; try done. by eapply advance_timestamps.
  - apply Hsame. unfold upsert_transport_snapshot. by repeat case_match.
  - destruct (heartbeat_timestamps st u Hw) as [Hw' Ht]. split; [done|]. by apply Ht.
Qed.

Lemma run_timestamp ops : forall st id t, bt_wf (heartbeat_signature_timestamps st) ->
  bt_get id (heartbeat_signature_timestamps st) = Some t -> Forall (fun o => o <> RemoveNode id) ops ->
  exists t', bt_get id (heartbeat_signature_timestamps (run st ops)) = Some t' /\ t <= t'.
Proof.
  induction ops as [|o ops IH]; intros st id t Hw Hg Ho; [exists t; split; [done|lia]|]. apply Forall_cons in Ho as [Ho Hos].
  destruct (perform_timestamp st o id t Hw Ho Hg) as (Hw' & t1 & Hg1 & Hle).
  destruct (IH (perform st o) id t1 Hw' Hg1 Hos) as (t' & Hg' & Hle'). exists t'. split; [done|lia].
Qed.

Lemma heartbeat_recorded st u st1 t : apply_heartbeat st u = (st1, Ok tt) -> hb_accepted_signature_at u = Some t ->
  bt_get (hb_node_id u) (heartbeat_signature_timestamps st1) = Some t.
Proof.
  unfold apply_heartbeat. destruct (negb _); [done|]. destruct (catalog_unchanged _ _ _); [|done].
  destruct (get_node st _) as [n|]; [|done].
  match goal with |- context [match ?x with Ok st => _ | Err e => (?y, Err e) end] => destruct x; [|done] end.
  intros [= <-] ->. cbn. apply bt_get_insert.
Qed.

Lemma heartbeat_needs_newer st u : is_ok (apply_heartbeat st u).2 = true ->
  ensure_heartbeat_is_newer u (bt_get (hb_node_id u) (heartbeat_signature_timestamps st)) (bt_get (hb_node_id u) (health st)) = Ok tt.
Proof.
  unfold apply_heartbeat. destruct (negb _); [done|]. destruct (catalog_unchanged _ _ _); [|done].
  destruct (get_node st _) as [n|]; [|done]. destruct (ensure_matches_node_generation u n); [|done].
  by destruct (ensure_heartbeat_is_newer _ _ _) as [[]|].
Qed.
End Store.

(** C21: The routing epoch of a cluster stands for what routing depends on. Along any run of the
    store it never goes back; and as long as it stays the same, so do the policy of the cluster
    and, of each of its nodes, the identity, address, role, tags, WireGuard key and routes that
    peers configure (not its endpoint candidates and relay capability). Every change of these moves the epoch by one, in the same step, so a view of the
    overlay computed at an epoch is valid until the next. *)
Theorem epoch_identifies_routing {Net : IpNetOps} {Build : IpNetBuildOps} {UO : UrlOps} {DO : DigestOps} {Snapshot : Type}
    {Json : ToJson (list material)} (st : @InMemoryStore Net Snapshot) before after cluster :
  let st1 := run st before in let st2 := run st (before ++ after) in
  get_overlay_routing_epoch st1 cluster <= get_overlay_routing_epoch st2 cluster <= get_overlay_routing_epoch st1 cluster + lenZ after /\
  (get_overlay_routing_epoch st2 cluster = get_overlay_routing_epoch st1 cluster -> routing_view st2 cluster = routing_view st1 cluster).
Proof.
  cbv zeta. unfold run. rewrite foldl_app. set (st1 := foldl perform st before). clearbody st1. revert st1.
  induction after as [|o after IH]; intros st1; cbn [foldl length]; [split; [lia|done]|].
  destruct (IH (perform st1 o)) as [Hle Hv]. destruct (perform_epoch st1 o cluster) as [E|[E Ev]].
  - split; [lia|]. intros E'. lia.
  - rewrite E, Ev in *. split; [lia|done].
Qed.

(** C22: A signed heartbeat is applied once. After the store has applied one for a node, no
    heartbeat of that node with the same or an earlier signature time is applied, whatever the
    store does in between, until the node is removed. *)
Theorem heartbeat_applied_once {Net : IpNetOps} {Build : IpNetBuildOps} {UO : UrlOps} {DO : DigestOps} {Snapshot : Type}
    {Json : ToJson (list material)} (st : @InMemoryStore Net Snapshot) u st1 t ops u' t' :
  bt_wf (heartbeat_signature_timestamps st) -> apply_heartbeat st u = (st1, Ok tt) -> hb_accepted_signature_at u = Some t ->
  Forall (fun o => o <> RemoveNode (hb_node_id u)) ops ->
  hb_node_id u' = hb_node_id u -> hb_accepted_signature_at u' = Some t' -> t' <= t ->
  is_ok (apply_heartbeat (run st1 ops) u').2 = false.
Proof.
  intros Hw Ha Ht Ho Hid Ht' Hle. destruct (is_ok _) eqn:E; [|done]. exfalso. apply heartbeat_needs_newer in E.
  assert (Hw1 : bt_wf (heartbeat_signature_timestamps st1)).
  { pose proof (proj1 (heartbeat_timestamps st u Hw)) as H. by rewrite Ha in H. }
  pose proof (heartbeat_recorded st u st1 t Ha Ht) as Hg.
  destruct (run_timestamp ops st1 _ t Hw1 Hg Ho) as (t2 & Hg2 & Hle2). unfold ensure_heartbeat_is_newer in E.
  rewrite Hid, Ht', Hg2 in E. destruct (t' <=? t2) eqn:E2; [done|]. lia.
Qed.

(** A node reports, and its report comes again after its display name was set. *)
Module StoreExample.
Import Instances Crypto.CryptoExample.

#[local] Instance catalog_json : ToJson (list material) := fun _ => Some [].

Definition store : @InMemoryStore cidr_ops unit := (insert_node new (sample_node (bstr "a") 1)).1.

Definition report : HeartbeatStoreUpdate := {|
  hb_cluster_id := bstr "c"; hb_expected_policy := None; hb_expected_epoch := None; hb_node_id := bstr "a"; hb_expected_identity := [];
  hb_expected_registered_at := 0; hb_accepted_signature_at := Some 100; hb_hostname := Some (bstr "host"); hb_candidates := [];
  hb_nat := None; hb_relay := None; hb_routes := Some [];
  hb_health := {| PathTypes.state := PathTypes.Healthy; PathTypes.last_seen_at := 101; PathTypes.health_latency_ms := None;
                  PathTypes.health_relay_load := None; PathTypes.message := None |};
  hb_paths := [] |}.

Lemma reported : (apply_heartbeat store report).2 = Ok tt.
Proof. vm_cast_no_check (@eq_refl (result unit ControlPlaneError) (Ok tt)). Qed.

Lemma store_wf : bt_wf (heartbeat_signature_timestamps store).
Proof. apply bt_wf_nil. Qed.

Lemma heartbeat_applied_once_witness :
  (apply_heartbeat store report).2 = Ok tt /\
  is_ok (apply_heartbeat (run (apply_heartbeat store report).1 [UpdateDisplayName (bstr "a") (Some (bstr "n"))]) report).2 = false.
Proof.
  split; [exact reported|].
  refine (heartbeat_applied_once store report _ 100 [UpdateDisplayName (bstr "a") (Some (bstr "n"))] report 100 store_wf _ eq_refl _
            eq_refl eq_refl (Z.le_refl 100)).
  - apply pair_snd, reported.
  - constructor; [discriminate|constructor].
Defined.

End StoreExample.
End ControlStore.
