(* ===== verification/ControlRules.v ===== *)
(** * What the control plane accepts (crates/ipars-control-plane/src/lib.rs)

    The checks of [ControlPlane] on policies, advertised routes, relay capabilities and
    registration requests. They are functions of their arguments; the operations that apply
    them are in ControlPlane.v. *)

From S2P Require Import Prelude RustStd Endpoints OverlayTypes BTree Hashing F32 Stun NatClass PathTypes Signal Quorum JoinTokens Crypto ControlTypes TopologySynthesis.

(** [Ipv4Net] of the ipnet crate, [IpNet::V4], [IpNet::contains] on a network and
    [IpNet::aggregate]. *)
Class Ipv4NetOps {Net : IpNetOps} : Type := {
  Ipv4Net : Type;
  ipnet_v4 : Ipv4Net -> IpNet;
  ipv4net_network : Ipv4Net -> Z;
  ipv4net_broadcast : Ipv4Net -> Z;
  ipv4net_prefix_len : Ipv4Net -> Z;
  ipnet_contains_net : IpNet -> IpNet -> bool;
  ipnet_aggregate : list IpNet -> list IpNet
}.

(** The network address has the host bits clear and the broadcast address has them set. *)
Class Ipv4NetLaws {Net : IpNetOps} (V4 : Ipv4NetOps) : Prop := {
  ipv4net_prefix_range : forall p, 0 <= ipv4net_prefix_len p <= 32;
  ipv4net_network_nonneg : forall p, 0 <= ipv4net_network p;
  ipv4net_broadcast_last : forall p, ipv4net_broadcast p = ipv4net_network p + 2 ^ (32 - ipv4net_prefix_len p) - 1;
  ipv4net_broadcast_range : forall p, ipv4net_broadcast p < 2 ^ 32
}.

Module ControlRules.
Import ControlTypes JoinTokens.

Definition MAX_OVERLAY_NODE_ROUTES : Z := 256.
Definition MAX_ROUTE_CATALOG_UPDATE_RETRIES : nat := 8.

(** [for x in l { f(x)?; }] *)
Fixpoint each {A E} (f : A -> result unit E) (l : list A) : result unit E :=
  match l with
  | [] => Ok tt
  | x :: l => let? _ := f x in each f l
  end.

Lemma each_all {A E} (f : A -> result unit E) l : each f l = Ok tt <-> Forall (fun x => f x = Ok tt) l.
Proof.
  induction l as [|x l IH]; cbn [each]; [by split; [constructor|]|]. by rewrite bind_unit_ok, IH, Forall_cons.
Qed.

Section Rules.
Context {Net : IpNetOps} {Build : IpNetBuildOps} {V4 : Ipv4NetOps} {UO : UrlOps} {B64 : Base64Ops} {DO : DigestOps}.
Context {EO : EdOps} {ES : EdSignOps} {X : X25519Ops}.

(** ** Networks *)

Definition ipnet_covers (outer inner : IpNet) : bool :=
  eqb (ipnet_is_v4 outer) (ipnet_is_v4 inner)
  && ((ipnet_prefix_len outer <=? ipnet_prefix_len inner) && ipnet_contains outer (ipnet_addr inner)).

Definition ipnets_overlap (l r : IpNet) : bool := ipnet_covers l r || ipnet_covers r l.

(** [ipv4_cidrs_overlap] and [ipv6_cidrs_overlap] *)
Definition cidrs_overlap (l r : IpNet) : bool :=
  ipnet_contains l (ipnet_network r) || ipnet_contains l (ipnet_broadcast r)
  || ipnet_contains r (ipnet_network l) || ipnet_contains r (ipnet_broadcast l).

Definition overlapping (network : IpNet) (restricted : list (IpNet * restricted_reason)) : option restricted_reason :=
  snd <$> List.find (fun r => cidrs_overlap network r.1) restricted.

Definition restricted_advertised_ipv4_route_cidr_reason (network : IpNet) : option restricted_reason :=
  overlapping network
    [(ipnet_new_assert (IpV4 0) 8, Unspecified); (ipnet_new_assert (IpV4 0x7F000000) 8, Loopback);
     (ipnet_new_assert (IpV4 0xA9FE0000) 16, LinkLocal); (ipnet_new_assert (IpV4 0xE0000000) 4, Multicast);
     (ipnet_new_assert (IpV4 0xFFFFFFFF) 32, Broadcast)].

Definition restricted_advertised_ipv6_route_cidr_reason (network : IpNet) : option restricted_reason :=
  overlapping network
    [(ipnet_new_assert (IpV6 0) 128, Unspecified); (ipnet_new_assert (IpV6 1) 128, Loopback);
     (ipnet_new_assert (IpV6 0xFE800000000000000000000000000000) 10, LinkLocal);
     (ipnet_new_assert (IpV6 0xFF000000000000000000000000000000) 8, Multicast)].

Definition restricted_advertised_route_cidr_reason (cidr : IpNet) : option restricted_reason :=
  if ipnet_prefix_len cidr =? 0 then Some Unrestricted
  else if ipnet_is_v4 cidr then restricted_advertised_ipv4_route_cidr_reason cidr
  else restricted_advertised_ipv6_route_cidr_reason cidr.

(** ** The policy of a cluster *)

(** The loop over [overlay_route_scopes], with [accepted_scopes]. *)
Fixpoint scopes_loop (accepted scopes : list IpNet) : result unit cluster_policy_reason :=
  match scopes with
  | [] => Ok tt
  | scope :: scopes =>
      match restricted_advertised_route_cidr_reason scope with
      | Some _ => Err ScopeRestricted
      | None =>
          if negb (bool_decide (scope = ipnet_trunc scope)) then Err ScopeNotCanonical
          else if existsb (fun existing => ipnets_overlap existing scope) accepted then Err ScopeOverlaps
          else scopes_loop (accepted ++ [scope]) scopes
      end
  end.

(** The loop over [acl_rules], with [rule_ids]. *)
Fixpoint rules_loop (ids : list bytes) (rules : list PathTypes.AclRule) : result unit cluster_policy_reason :=
  match rules with
  | [] => Ok tt
  | rule :: rules =>
      let id := PathTypes.acl_id rule in
      if negb (bool_decide (PathTypes.protocol rule = PathTypes.Any)) then Err RuleProtocol
      else if bool_decide (id = []) || (128 <? lenZ id) then Err RuleIdLength
      else if has_control_char id || has_whitespace id then Err RuleIdCharacters
      else if bool_decide (id ∈ ids) then Err RuleIdDuplicated
      else if 256 <? lenZ (PathTypes.acl_routes rule) then Err RuleRoutes
      else rules_loop (id :: ids) rules
  end.

Definition policy_shape (p : PathTypes.ClusterPolicy) : result unit cluster_policy_reason :=
  if negb ((Synthesis.MIN_OVERLAY_BLOCK_SIZE <=? PathTypes.overlay_block_size p) && (PathTypes.overlay_block_size p <=? Synthesis.MAX_OVERLAY_BLOCK_SIZE))
  then Err BlockSizeRange
  else if negb (existsb (Z.eqb (PathTypes.overlay_max_degree p)) Synthesis.SUPPORTED_MAX_DEGREES) then Err MaxDegreeUnsupported
  else if Overlay.MAX_OVERLAY_DEGREE <? PathTypes.overlay_direct_shortcut_limit p then Err ShortcutLimit
  else if Overlay.MAX_OVERLAY_DEGREE <? PathTypes.overlay_on_demand_peer_limit p then Err OnDemandLimit
  else if Overlay.MAX_OVERLAY_ROUTE_SCOPES <? lenZ (PathTypes.overlay_route_scopes p) then Err TooManyScopes
  else
    let? _ := scopes_loop [] (PathTypes.overlay_route_scopes p) in
    if existsb (Z.eqb 0)
         [PathTypes.idle_timeout_seconds p; PathTypes.relay_health_ttl_seconds p; PathTypes.endpoint_candidate_ttl_seconds p;
          PathTypes.path_state_ttl_seconds p; PathTypes.path_quality_observation_ttl_seconds p;
          PathTypes.nat_classification_ttl_seconds p] then Err TtlZero
    else if 100 <? PathTypes.nat_classification_min_confidence_percent p then Err ConfidencePercent
    else if 256 <? lenZ (PathTypes.acl_rules p) then Err TooManyRules
    else rules_loop [] (PathTypes.acl_rules p).

Definition validate_cluster_policy (p : PathTypes.ClusterPolicy) : result unit ControlPlaneError :=
  map_err InvalidClusterPolicy (policy_shape p).

Definition validate_overlay_route_scopes_against_vpn_pool (p : PathTypes.ClusterPolicy) (pool : Ipv4Net) : result unit ControlPlaneError :=
  if existsb (fun scope => ipnets_overlap scope (ipnet_v4 pool)) (PathTypes.overlay_route_scopes p)
  then Err (InvalidClusterPolicy ScopeOverlapsPool) else Ok tt.

(** ** Routes *)

Definition validate_routes_within_overlay_scopes (routes : list Overlay.Route) (p : PathTypes.ClusterPolicy) : result unit node_reason :=
  if bool_decide (PathTypes.overlay_route_scopes p = []) then Ok tt
  else match List.find (fun r => negb (existsb (fun scope => ipnet_covers scope (Overlay.cidr r)) (PathTypes.overlay_route_scopes p))) routes with
       | Some r => Err (RouteOutsideScopes (Overlay.route_id r))
       | None => Ok tt
       end.

Definition validate_routes_against_vpn_pool (routes : list Overlay.Route) (pool : Ipv4Net) : result unit node_reason :=
  match List.find (fun r => ipnets_overlap (Overlay.cidr r) (ipnet_v4 pool)) routes with
  | Some r => Err (RouteOverlapsPool (Overlay.route_id r))
  | None => Ok tt
  end.

Definition route_allowed_by_policy (r : Overlay.Route) (p : Overlay.TokenPolicy) : bool :=
  existsb (fun allowed => ipnet_contains_net allowed (Overlay.cidr r)) (Overlay.allowed_routes p).

Definition route_allowed (r : Overlay.Route) (c : JoinTokenClaims) : bool := route_allowed_by_policy r (policy c).

Definition route_id_byte (b : byte) : bool := is_ascii_alphanumeric b || bool_decide (b ∈ [x2e; x5f; x2d; x3a]).

Definition validate_advertised_route_id (id : bytes) : result unit routes_reason :=
  if bool_decide (id = []) then Err RouteIdEmpty
  else if 128 <? lenZ id then Err RouteIdTooLong
  else if bool_decide (id ∈ [[x2e]; [x2e; x2e]]) then Err RouteIdDots
  else if negb (forallb route_id_byte id) then Err RouteIdCharacters
  else Ok tt.

(** The loop with [seen_route_ids] and [seen_route_cidrs]. *)
Fixpoint advertised_loop (seen_ids : list bytes) (seen_cidrs : list IpNet) (routes : list Overlay.Route) : result unit routes_reason :=
  match routes with
  | [] => Ok tt
  | r :: routes =>
      let id := Overlay.route_id r in
      let? _ := validate_advertised_route_id id in
      if bool_decide (id ∈ seen_ids) then Err (RouteIdRepeated id)
      else if Overlay.metric r =? 0 then Err (RouteMetricZero id)
      else match restricted_advertised_route_cidr_reason (Overlay.cidr r) with
      | Some reason => Err (RouteRestrictedCidr id reason)
      | None =>
          if negb (bool_decide (Overlay.cidr r = ipnet_trunc (Overlay.cidr r))) then Err (RouteCidrNotCanonical id)
          else if bool_decide (Overlay.cidr r ∈ seen_cidrs) then Err (RouteCidrRepeated id)
          else advertised_loop (id :: seen_ids) (Overlay.cidr r :: seen_cidrs) routes
      end
  end.

Definition validate_advertised_routes_shape (routes : list Overlay.Route) : result unit routes_reason :=
  if MAX_OVERLAY_NODE_ROUTES <? lenZ routes then Err (TooManyAdvertised (lenZ routes)) else advertised_loop [] [] routes.

(** ** Relay capabilities *)

Definition validate_relay_capability_shape (c : Overlay.RelayCapability) : result unit relay_reason :=
  let? endpoint := ok_or (Overlay.public_endpoint c) EndpointRequired in
  if negb (Endpoints.endpoint_addr_is_usable endpoint) then Err EndpointUnusable
  else
    let? url := ok_or (Overlay.admission_url c) AdmissionRequired in
    if negb (Endpoints.relay_admission_url_is_usable url) then Err AdmissionUnusable
    else if Overlay.max_sessions c =? 0 then Err NoSessions
    else if Overlay.max_sessions c <? Overlay.active_sessions c then Err TooManyActive
    else if Overlay.max_mbps c =? 0 then Err NoBandwidth
    else if negb (Overlay.e2e_only c) then Err NotEndToEnd
    else Ok tt.

Definition enable_by_policy (c : Overlay.RelayCapability) : Overlay.RelayCapability := {|
  Overlay.enabled_by_policy := true; Overlay.public_endpoint := Overlay.public_endpoint c; Overlay.admission_url := Overlay.admission_url c;
  Overlay.max_sessions := Overlay.max_sessions c; Overlay.active_sessions := Overlay.active_sessions c; Overlay.max_mbps := Overlay.max_mbps c;
  Overlay.e2e_only := Overlay.e2e_only c |}.

Definition relay_capability_allowed (id : NodeId) (relay : option Overlay.RelayCapability) (c : JoinTokenClaims)
  : result (option Overlay.RelayCapability) ControlPlaneError :=
  match relay with
  | None => Ok None
  | Some capability =>
      if negb (Overlay.allow_relay (policy c)) then Err RelayDenied
      else
        let capability := enable_by_policy capability in
        let? _ := map_err (fun reason => NodeRegistrationRejected id (RelayShape reason)) (validate_relay_capability_shape capability) in
        Ok (Some capability)
  end.

(** ** Registration requests *)

Record RegisterNodeRequest : Type := {
  reg_node_id : NodeId;
  reg_identity_public_key : bytes;
  reg_wireguard_public_key : bytes;
  reg_candidates : list Endpoints.EndpointCandidate;
  reg_nat_classification : option NatClass.NatClassification;
  reg_relay_capability : option Overlay.RelayCapability;
  reg_requested_routes : list Overlay.Route
}.

Definition validate_addr (addr : SocketAddr) (reason : nat_shape_reason) : result unit nat_shape_reason :=
  if Endpoints.endpoint_addr_is_usable addr then Ok tt else Err reason.

Definition validate_optional_addr (addr : option SocketAddr) (reason : nat_shape_reason) : result unit nat_shape_reason :=
  match addr with Some addr => validate_addr addr reason | None => Ok tt end.

Definition validate_nat_classification_shape (c : NatClass.NatClassification) (now max_timestamp_skew : Z) : result unit nat_shape_reason :=
  let not_future t reason := if negb (timestamp_not_after_skew t now max_timestamp_skew) then Err reason else Ok tt in
  if negb (NatClass.public_state_is_supported c) then Err NatPublicUnsupported
  else
    let? _ := validate_optional_addr (NatClass.observed_endpoint c) NatObservedUnusable in
    let? _ := not_future (NatClass.assessed_at c) NatAssessedInFuture in
    if negb (F32.is_finite (NatClass.confidence c)) || negb (F32.within F32.zero F32.one (NatClass.confidence c)) then Err NatConfidence
    else
      let? _ := each (fun o =>
                  let? _ := validate_addr (Stun.stun_server o) NatProbeServer in
                  let? _ := validate_addr (Stun.reflexive_addr o) NatProbeReflexive in
                  not_future (Stun.observed_at o) NatProbeInFuture) (NatClass.class_observations c) in
      each (fun o =>
        let? _ := validate_addr (Stun.filter_server o) NatFilterServer in
        let? _ := validate_optional_addr (Stun.filter_origin o) NatFilterOrigin in
        let? _ := validate_optional_addr (Stun.filter_other o) NatFilterOther in
        not_future (Stun.filter_observed_at o) NatFilterInFuture) (NatClass.filtering_observations c).

(** The checks of [validate_registration_request] on the candidates, one loop after another. *)
Definition validate_candidates (id : NodeId) (candidates : list Endpoints.EndpointCandidate) (now max_timestamp_skew : Z) : result unit node_reason :=
  match List.find (fun c => negb (bool_decide (Endpoints.candidate_node_id c = id))) candidates with
  | Some c => Err (CandidateOwner (Endpoints.candidate_node_id c))
  | None =>
      let? _ := each (fun c => map_err CandidateKindInvalid (Endpoints.validate_kind_address c)) candidates in
      each (fun c => if negb (timestamp_not_after_skew (Endpoints.observed_at c) now max_timestamp_skew)
                     then Err CandidateObservedInFuture else Ok tt) candidates
  end.

Definition request_shape (r : RegisterNodeRequest) (now max_timestamp_skew : Z) : result unit node_reason :=
  let id := reg_node_id r in
  let? derived := map_err IdentityKeyInvalid (Crypto.node_id_from_public_key_b64 (reg_identity_public_key r)) in
  if negb (bool_decide (derived = id)) then Err (IdentityDerives derived)
  else
    let? _ := map_err WireguardKeyInvalid (Crypto.decode_wireguard_public_key_b64 (reg_wireguard_public_key r)) in
    let? _ := validate_candidates id (reg_candidates r) now max_timestamp_skew in
    let? _ := match reg_nat_classification r with
              | Some c => map_err NatShape (validate_nat_classification_shape c now max_timestamp_skew)
              | None => Ok tt
              end in
    let? _ := map_err RoutesShape (validate_advertised_routes_shape (reg_requested_routes r)) in
    match List.find (fun route => negb (bool_decide (Overlay.advertised_by route = id))) (reg_requested_routes r) with
    | Some route => Err (RouteAdvertisedBy (Overlay.route_id route) (Overlay.advertised_by route))
    | None => Ok tt
    end.

Definition validate_registration_request (r : RegisterNodeRequest) (now max_timestamp_skew : Z) : result unit ControlPlaneError :=
  map_err (NodeRegistrationRejected (reg_node_id r)) (request_shape r now max_timestamp_skew).

(** ** What the checks give *)

Definition within_scopes (p : PathTypes.ClusterPolicy) (routes : list Overlay.Route) : Prop :=
  PathTypes.overlay_route_scopes p <> [] ->
  Forall (fun r => exists scope, scope ∈ PathTypes.overlay_route_scopes p /\ ipnet_covers scope (Overlay.cidr r) = true) routes.

Definition outside_pool (pool : Ipv4Net) (routes : list Overlay.Route) : Prop :=
  Forall (fun r => ipnets_overlap (Overlay.cidr r) (ipnet_v4 pool) = false) routes.

Lemma within_scopes_ok routes p : validate_routes_within_overlay_scopes routes p = Ok tt <-> within_scopes p routes.
Proof.
  unfold validate_routes_within_overlay_scopes, within_scopes. case_bool_decide as E; [naive_solver|].
  destruct (List.find _ routes) as [r|] eqn:Ef.
  - split; [done|]. intros H. apply List.find_some in Ef as [Hin Hn]. apply negb_true_iff in Hn. specialize (H E).
    rewrite Forall_forall in H. destruct (H r) as (scope & Hs & Hc); [by apply list_elem_of_In|].
    assert (existsb (fun scope => ipnet_covers scope (Overlay.cidr r)) (PathTypes.overlay_route_scopes p) = true); [|congruence].
    apply existsb_exists. exists scope. by rewrite <- list_elem_of_In.
  - split; [|done]. intros _ _. apply find_none_iff in Ef. eapply Forall_impl; [exact Ef|]. intros r Hn.
    apply negb_false_iff, existsb_exists in Hn as (scope & Hs & Hc). exists scope. by rewrite list_elem_of_In.
Qed.

Lemma outside_pool_ok routes pool : validate_routes_against_vpn_pool routes pool = Ok tt <-> outside_pool pool routes.
Proof.
  unfold validate_routes_against_vpn_pool, outside_pool. destruct (List.find _ routes) as [r|] eqn:Ef.
  - split; [done|]. intros H. apply find_none_iff in H. congruence.
  - apply find_none_iff in Ef. done.
Qed.

Lemma within_scopes_nil p : within_scopes p [].
Proof. intros _. constructor. Qed.

Lemma outside_pool_nil pool : outside_pool pool [].
Proof. constructor. Qed.

(** A request that passes names the node its key derives. *)
Lemma request_identity r now skew : validate_registration_request r now skew = Ok tt ->
  Crypto.node_id_from_public_key_b64 (reg_identity_public_key r) = Ok (reg_node_id r) /\
  Forall (fun route => Overlay.advertised_by route = reg_node_id r) (reg_requested_routes r).
Proof.
  unfold validate_registration_request, request_shape. rewrite map_err_ok, bind_ok. intros (derived & Hd%map_err_ok & H).
  rewrite guard_ok, negb_false_iff, bool_decide_eq_true in H. destruct H as [-> H]. split; [done|].
  apply bind_ok in H as (? & _ & H). do 3 apply bind_unit_ok in H as [_ H].
  destruct (List.find _ _) eqn:Ef; [done|]. apply find_none_iff in Ef. eapply Forall_impl; [exact Ef|].
  intros route. by rewrite negb_false_iff, bool_decide_eq_true.
Qed.
End Rules.
End ControlRules.
