(* ===== verification/MeshMailbox.v ===== *)
(** * The mailbox of the HTTP mesh (crates/ipars-control-plane/src/http_mesh.rs)

    [MemoryMeshStore]: who takes part over HTTP alone, and the batches of WireGuard packets that
    wait for their recipients until they are acknowledged or expire. Every operation holds the
    lock to its end, so it is one atomic step. The nonces of the same store are in
    [RequestAuth]; waking a waiting poll changes nothing here. Times are nanoseconds. *)

From S2P Require Import Prelude RustStd Endpoints OverlayTypes BTree Hashing Signal Quorum JoinTokens Crypto ControlTypes Instances.

Module Mailbox.
Import ControlTypes.

Definition MAX_BATCH_BYTES : Z := 64 * 1024.
Definition MAX_BATCH_PACKETS : Z := 32.
Definition MAX_PENDING_BATCHES : Z := 256.
Definition MAX_PENDING_BYTES : Z := 8 * 1024 * 1024.
Definition MAX_SOURCE_BATCHES : Z := 8192.
Definition BATCH_TTL_SECONDS : Z := 120.
Definition MAX_RECEIVE_BATCHES : nat := 4.
Definition LEASE : Z := 5 * 60 * Signal.SECOND.

Record MeshAck : Type := { ack_source : NodeId; ack_batch_id : bytes }.

Record MeshEnvelope : Type := {
  source : NodeId;
  target : NodeId;
  batch_id : bytes;
  packets : list bytes;
  byte_count : Z;
  expires_at : Z
}.

Record MeshStats : Type := {
  stats_node_id : NodeId;
  sent_bytes : Z;
  received_bytes : Z;
  pending_bytes : Z;
  pending_batches : Z;
  last_poll_at : option Z
}.

Definition default_stats (id : NodeId) : MeshStats := {|
  stats_node_id := id; sent_bytes := 0; received_bytes := 0; pending_bytes := 0; pending_batches := 0; last_poll_at := None |}.

Inductive EnqueueOutcome : Type := Accepted | Duplicate | Full | Conflict.

#[global] Instance EnqueueOutcome_eq_dec : EqDecision EnqueueOutcome.
Proof. solve_decision. Defined.

Record Stored : Type := { envelope : MeshEnvelope; stored_digest : bytes; acknowledged : bool }.

(** A member: whether it is ephemeral, whether it is reached over HTTP alone, its cluster, and
    when its lease ends. *)
Definition Member : Type := bool * bool * bytes * Z.

Record MemoryState : Type := {
  members : btree NodeId Member;
  batches : btree (NodeId * bytes) Stored;
  stats : btree NodeId MeshStats
}.

Definition empty : MemoryState := {| members := []; batches := []; stats := [] |}.

Definition with_batches (st : MemoryState) (m : btree (NodeId * bytes) Stored) : MemoryState :=
  {| members := members st; batches := m; stats := stats st |}.

Definition with_stats (st : MemoryState) (m : btree NodeId MeshStats) : MemoryState :=
  {| members := members st; batches := batches st; stats := m |}.

Definition with_members (st : MemoryState) (m : btree NodeId Member) : MemoryState :=
  {| members := m; batches := batches st; stats := stats st |}.

(** [entry(id).or_insert_with(|| MeshStats { node_id, .. })] and a change of the entry. *)
Definition update_stats (id : NodeId) (f : MeshStats -> MeshStats) (st : MemoryState) : MemoryState :=
  with_stats st (bt_entry (default_stats id) f id (stats st)).

(** ** Membership *)

Definition lease (st : MemoryState) (id : NodeId) (cluster : bytes) (ephemeral http_only : bool) (now : Z) : MemoryState :=
  with_members st (bt_insert id (ephemeral, http_only, cluster, now + LEASE) (members st)).

Definition listed (cluster : bytes) (after : option NodeId) (now : Z) (id : NodeId) (m : Member) : bool :=
  let '(_, http_only, c, expires) := m in
  http_only && bool_decide (c = cluster) && (now <? expires)
  && match after with None => true | Some after => match kcmp id after with Gt => true | _ => false end end.

Definition list_members (st : MemoryState) (cluster : bytes) (after : option NodeId) (limit : nat) (now : Z) : list NodeId :=
  map fst (take limit (bt_retain (listed cluster after now) (members st))).

Definition is_http_only (st : MemoryState) (id : NodeId) : bool :=
  match bt_get id (members st) with Some (_, http_only, _, _) => http_only | None => false end.

(** ** Batches *)

Definition unexpired (now : Z) (v : Stored) : bool := now <? expires_at (envelope v).

Definition retain_batches (now : Z) (st : MemoryState) : MemoryState :=
  with_batches st (bt_retain (fun _ v => unexpired now v) (batches st)).

Definition pending (id : NodeId) (v : Stored) : bool := negb (acknowledged v) && bool_decide (target (envelope v) = id).

Definition pending_for (id : NodeId) (st : MemoryState) : list Stored := List.filter (pending id) (bt_values (batches st)).

Definition sumZ (l : list Z) : Z := foldr Z.add 0 l.

Definition key_of (e : MeshEnvelope) : NodeId * bytes := (source e, batch_id e).

Section Batches.
Context {Net : IpNetOps} {Build : IpNetBuildOps} {UO : UrlOps} {DO : DigestOps} {EnvelopeJson : ToJson (NodeId * list bytes)}.

Definition digest (e : MeshEnvelope) : result bytes ControlPlaneError :=
  let? body := ok_or (to_vec (target e, packets e)) (Store EnvelopeEncoding) in Ok (hex_encode (sha256 body)).

Definition full (st : MemoryState) (e : MeshEnvelope) : bool :=
  let waiting := pending_for (target e) st in
  (MAX_PENDING_BATCHES <=? lenZ waiting)
  || (MAX_PENDING_BYTES <? as_width 64 (sumZ (map (fun v => byte_count (envelope v)) waiting) + byte_count e))
  || (MAX_SOURCE_BATCHES <=? lenZ (List.filter (fun v => bool_decide (source (envelope v) = source e)) (bt_values (batches st)))).

Definition count_sent (n : Z) (s : MeshStats) : MeshStats := {|
  stats_node_id := stats_node_id s; sent_bytes := saturating_add 64 (sent_bytes s) n; received_bytes := received_bytes s;
  pending_bytes := pending_bytes s; pending_batches := pending_batches s; last_poll_at := last_poll_at s |}.

Definition enqueue (st : MemoryState) (e : MeshEnvelope) (now : Z) : MemoryState * result EnqueueOutcome ControlPlaneError :=
  let st := retain_batches now st in
  match digest e with
  | Err why => (st, Err why)
  | Ok d =>
      match bt_get (key_of e) (batches st) with
      | Some previous => (st, Ok (if bool_decide (stored_digest previous = d) then Duplicate else Conflict))
      | None =>
          if full st e then (st, Ok Full)
          else
            let st := update_stats (source e) (count_sent (byte_count e)) st in
            let st := update_stats (target e) (fun s => s) st in
            (with_batches st (bt_insert (key_of e) {| envelope := e; stored_digest := d; acknowledged := false |} (batches st)), Ok Accepted)
      end
  end.

(** What stays of a batch that was received: its packets are dropped. *)
Definition received (v : Stored) : Stored := {|
  envelope := {| source := source (envelope v); target := target (envelope v); batch_id := batch_id (envelope v); packets := [];
                 byte_count := byte_count (envelope v); expires_at := expires_at (envelope v) |};
  stored_digest := stored_digest v; acknowledged := true |}.

(** One turn of the loop over the acknowledgements, with the bytes received so far. *)
Definition acknowledge (id : NodeId) (p : btree (NodeId * bytes) Stored * Z) (ack : MeshAck) : btree (NodeId * bytes) Stored * Z :=
  let key := (ack_source ack, ack_batch_id ack) in
  match bt_get key p.1 with
  | Some v => if pending id v then (bt_insert key (received v) p.1, as_width 64 (p.2 + byte_count (envelope v))) else p
  | None => p
  end.

Definition count_received (now n : Z) (s : MeshStats) : MeshStats := {|
  stats_node_id := stats_node_id s; sent_bytes := sent_bytes s; received_bytes := saturating_add 64 (received_bytes s) n;
  pending_bytes := pending_bytes s; pending_batches := pending_batches s; last_poll_at := Some now |}.

Definition renew_lease (id : NodeId) (now : Z) (st : MemoryState) : MemoryState :=
  match bt_get id (members st) with
  | Some (ephemeral, http_only, cluster, _) => with_members st (bt_insert id (ephemeral, http_only, cluster, now + LEASE) (members st))
  | None => st
  end.

Definition poll (st : MemoryState) (id : NodeId) (acks : list MeshAck) (now : Z) : MemoryState * list MeshEnvelope :=
  let st := retain_batches now st in
  let '(m, n) := foldl (acknowledge id) (batches st, 0) acks in
  let st := renew_lease id now (update_stats id (count_received now n) (with_batches st m)) in
  (st, map envelope (take MAX_RECEIVE_BATCHES (pending_for id st))).

(** The statistics of the nodes asked for, with what waits for them. *)
Definition count_pending (s : MeshStats) (v : Stored) : MeshStats := {|
  stats_node_id := stats_node_id s; sent_bytes := sent_bytes s; received_bytes := received_bytes s;
  pending_bytes := as_width 64 (pending_bytes s + byte_count (envelope v)); pending_batches := as_width 64 (pending_batches s + 1);
  last_poll_at := last_poll_at s |}.

Definition mesh_stats (st : MemoryState) (ids : list NodeId) (now : Z) : list MeshStats :=
  omap (fun id =>
    s ← bt_get id (stats st);
    Some (foldl count_pending s (List.filter (fun v => pending id v && unexpired now v) (bt_values (batches st))))) ids.

(** ** Sequences of operations *)

Inductive mesh_op : Type :=
  | Lease (id : NodeId) (cluster : bytes) (ephemeral http_only : bool)
  | Enqueue (e : MeshEnvelope)
  | Poll (id : NodeId) (acks : list MeshAck).

Definition perform (st : MemoryState) (o : Z * mesh_op) : MemoryState :=
  let '(now, o) := o in
  match o with
  | Lease id cluster ephemeral http_only => lease st id cluster ephemeral http_only now
  | Enqueue e => (enqueue st e now).1
  | Poll id acks => (poll st id acks now).1
  end.

Definition run (st : MemoryState) (ops : list (Z * mesh_op)) : MemoryState := foldl perform st ops.

(** ** What the mailbox holds *)

Section Contents.
(** What holds of a batch that waits. *)
Context (P : MeshEnvelope -> Prop).

Record entry_ok (k : NodeId * bytes) (v : Stored) : Prop := {
  eo_key : k = key_of (envelope v);
  eo_bytes : 0 <= byte_count (envelope v) <= MAX_BATCH_BYTES;
  eo_waiting : acknowledged v = false -> P (envelope v)
}.

Definition waits (id : NodeId) (v : Stored) : Z := if pending id v then 1 else 0.
Definition waiting_bytes (id : NodeId) (v : Stored) : Z := if pending id v then Z.max 0 (byte_count (envelope v)) else 0.
Definition from (id : NodeId) (v : Stored) : Z := if bool_decide (source (envelope v) = id) then 1 else 0.

Record mailbox_ok (st : MemoryState) : Prop := {
  mo_wf : bt_wf (batches st);
  mo_entry : forall k v, bt_get k (batches st) = Some v -> entry_ok k v;
  mo_count : forall id, bt_sum (waits id) (batches st) <= MAX_PENDING_BATCHES;
  mo_bytes : forall id, bt_sum (waiting_bytes id) (batches st) <= MAX_PENDING_BYTES;
  mo_source : forall id, bt_sum (from id) (batches st) <= MAX_SOURCE_BATCHES
}.

Lemma waits_nonneg id v : 0 <= waits id v.
Proof. unfold waits. destruct (pending id v); lia. Qed.

Lemma waiting_bytes_nonneg id v : 0 <= waiting_bytes id v.
Proof. unfold waiting_bytes. destruct (pending id v); lia. Qed.

Lemma from_nonneg id v : 0 <= from id v.
Proof. unfold from. destruct (bool_decide _); lia. Qed.

Hint Resolve waits_nonneg waiting_bytes_nonneg from_nonneg : core.

Lemma mailbox_ok_empty : mailbox_ok empty.
Proof. constructor; cbn; try done. constructor. Qed.

Lemma mailbox_ok_batches st st' : batches st' = batches st -> mailbox_ok st -> mailbox_ok st'.
Proof. intros E [H1 H2 H3 H4 H5]. constructor; rewrite E; done. Qed.

Lemma retain_ok now st : mailbox_ok st -> mailbox_ok (retain_batches now st).
Proof.
  intros [H1 H2 H3 H4 H5]. constructor; cbn.
  - by apply bt_wf_retain.
  - intros k v. rewrite bt_get_retain by done. destruct (bt_get k _) eqn:E; [|done]. destruct (unexpired _ _); [|done]. intros [= <-]. by apply H2.
  - intros id. etrans; [by apply bt_sum_retain|apply H3].
  - intros id. etrans; [by apply bt_sum_retain|apply H4].
  - intros id. etrans; [by apply bt_sum_retain|apply H5].
Qed.

(** An acknowledgement only lowers the counts. *)
Lemma acknowledge_sum f id m n ack : (forall v, f (received v) <= f v) -> bt_sum f (acknowledge id (m, n) ack).1 <= bt_sum f m.
Proof.
  intros Hf. unfold acknowledge. cbn [fst snd]. destruct (bt_get _ m) as [v|] eqn:E; [|done]. destruct (pending id v); [|done]. cbn [fst].
  rewrite bt_sum_insert, E. specialize (Hf v). lia.
Qed.

Lemma acknowledge_ok id m n ack st : mailbox_ok (with_batches st m) -> mailbox_ok (with_batches st (acknowledge id (m, n) ack).1).
Proof.
  intros [H1 H2 H3 H4 H5]. cbn in *. constructor; cbn.
  - unfold acknowledge. cbn [fst snd]. destruct (bt_get _ m); [|done]. destruct (pending id _); [|done]. by apply bt_wf_insert.
  - intros k v. unfold acknowledge. cbn [fst snd]. destruct (bt_get _ m) as [w|] eqn:E; [|by apply H2]. destruct (pending id w); [|by apply H2].
    cbn [fst]. rewrite (bt_get_insert_case _ _ _ _ (EqDecision0 := _)). destruct (decide _) as [<-|]; [|by apply H2]. intros [= <-]. by destruct (H2 _ _ E).
  - intros t. etrans; [apply acknowledge_sum|apply H3]. intros v. apply waits_nonneg.
  - intros t. etrans; [apply acknowledge_sum|apply H4]. intros v. apply waiting_bytes_nonneg.
  - intros t. etrans; [apply acknowledge_sum|apply H5]. done.
Qed.

Lemma acknowledge_all_ok id acks : forall m n st, mailbox_ok (with_batches st m) ->
  mailbox_ok (with_batches st (foldl (acknowledge id) (m, n) acks).1).
Proof.
  induction acks as [|ack acks IH]; intros m n st Hm; [done|]. cbn [foldl].
  pose proof (acknowledge_ok id m n ack st Hm) as H. destruct (acknowledge id (m, n) ack) as [m' n']. by apply IH.
Qed.

Lemma renew_lease_batches id now st : batches (renew_lease id now st) = batches st.
Proof. unfold renew_lease. by destruct (bt_get id _) as [[[[? ?] ?] ?]|]. Qed.

Lemma poll_batches st id acks now :
  batches (poll st id acks now).1 = (foldl (acknowledge id) (batches (retain_batches now st), 0) acks).1.
Proof. unfold poll. destruct (foldl _ _ _) as [m n]. cbn [fst]. by rewrite renew_lease_batches. Qed.

Lemma poll_ok st id acks now : mailbox_ok st -> mailbox_ok (poll st id acks now).1.
Proof.
  intros Hst. apply (retain_ok now) in Hst. eapply (mailbox_ok_batches (with_batches st _)); [apply poll_batches|].
  apply acknowledge_all_ok. by eapply mailbox_ok_batches.
Qed.

Lemma pending_length st id : lenZ (pending_for id st) = bt_sum (waits id) (batches st).
Proof. symmetry. apply bt_sum_filter. Qed.

Lemma pending_bytes_sum st id : mailbox_ok st ->
  sumZ (map (fun v => byte_count (envelope v)) (pending_for id st)) = bt_sum (waiting_bytes id) (batches st).
Proof.
  intros [Hw He _ _ _]. assert (H : Forall (fun kv => 0 <= byte_count (envelope kv.2)) (batches st)).
  { apply Forall_forall. intros [k v] Hin. apply bt_get_elem in Hin; [|done]. by apply (eo_bytes _ _ (He _ _ Hin)). }
  unfold pending_for, bt_values. clear Hw He. induction H as [|[k v] m Hv Hm IH]; [done|].
  cbn [map List.filter snd] in *. rewrite bt_sum_cons, <- IH. unfold waiting_bytes, sumZ. destruct (pending id v); cbn [map foldr]; lia.
Qed.

Lemma not_full st e : mailbox_ok st -> 0 <= byte_count e <= MAX_BATCH_BYTES -> full st e = false ->
  bt_sum (waits (target e)) (batches st) < MAX_PENDING_BATCHES /\
  bt_sum (waiting_bytes (target e)) (batches st) + byte_count e <= MAX_PENDING_BYTES /\
  bt_sum (from (source e)) (batches st) < MAX_SOURCE_BATCHES.
Proof.
  intros Hst He Hf. unfold full in Hf. rewrite pending_length, pending_bytes_sum in Hf by done.
  rewrite <- (bt_sum_filter (fun v => bool_decide (source (envelope v) = source e))) in Hf.
  pose proof (mo_bytes _ Hst (target e)) as Hb. rewrite as_width_id in Hf.
  - unfold from. lia.
  - pose proof (bt_sum_nonneg (waiting_bytes (target e)) (batches st) (waiting_bytes_nonneg _)).
    unfold in_width. unfold MAX_BATCH_BYTES, MAX_PENDING_BYTES in *. lia.
Qed.

Lemma enqueue_ok st e now : mailbox_ok st -> 0 <= byte_count e <= MAX_BATCH_BYTES -> P e -> mailbox_ok (enqueue st e now).1.
Proof.
  intros Hst He Hp. unfold enqueue. apply (retain_ok now) in Hst. destruct (digest e); [|done].
  destruct (bt_get _ _) eqn:E; [done|]. destruct (full _ _) eqn:Hf; [done|]. destruct (not_full _ _ Hst He Hf) as (Hc & Hb & Hs).
  destruct Hst as [H1 H2 H3 H4 H5]. set (m := batches (retain_batches now st)) in *.
  eapply (mailbox_ok_batches (with_batches st (bt_insert (key_of e) {| envelope := e; acknowledged := false |} m))); [done|].
  constructor; cbn [with_batches batches].
  - by apply bt_wf_insert.
  - intros k v. rewrite (bt_get_insert_case _ _ _ _ (EqDecision0 := _)). destruct (decide _) as [<-|]; [|by apply H2]. by intros [= <-].
  - intros id. rewrite bt_sum_insert, E. specialize (H3 id). unfold waits at 2, pending. cbn [envelope acknowledged negb andb].
    case_bool_decide; [subst id|]; lia.
  - intros id. rewrite bt_sum_insert, E. specialize (H4 id). unfold waiting_bytes at 2, pending. cbn [envelope acknowledged negb andb].
    case_bool_decide; [subst id|]; lia.
  - intros id. rewrite bt_sum_insert, E. specialize (H5 id). unfold from at 2. cbn [envelope].
    case_bool_decide; [subst id|]; lia.
Qed.

Definition op_ok (o : mesh_op) : Prop :=
  match o with Enqueue e => 0 <= byte_count e <= MAX_BATCH_BYTES /\ P e | _ => True end.

Lemma perform_ok st o : mailbox_ok st -> op_ok o.2 -> mailbox_ok (perform st o).
Proof.
  destruct o as [now [id cluster b1 b2|e|id acks]]; intros Hst Ho.
  - by apply (mailbox_ok_batches st).
  - destruct Ho. by apply enqueue_ok.
  - by apply poll_ok.
Qed.

Lemma run_ok ops : forall st, mailbox_ok st -> Forall (fun o => op_ok o.2) ops -> mailbox_ok (run st ops).
Proof. induction ops as [|o ops IH]; intros st Hst Ho; [done|]. inv Ho. apply IH; [by apply perform_ok|done]. Qed.

End Contents.

(** ** What a batch goes through *)

(** The operation is not a poll in which the recipient acknowledges the batch. *)
Definition not_acking (k : NodeId * bytes) (id : NodeId) (o : mesh_op) : Prop :=
  match o with Poll i acks => i = id -> k ∉ map (fun a => (ack_source a, ack_batch_id a)) acks | _ => True end.

(** What stays the same of a batch, acknowledged or not. *)
Definition same_batch (v v' : Stored) : Prop :=
  stored_digest v' = stored_digest v /\ expires_at (envelope v') = expires_at (envelope v).

Lemma retain_kept now st k v : bt_wf (batches st) -> bt_get k (batches st) = Some v -> unexpired now v = true ->
  bt_get k (batches (retain_batches now st)) = Some v.
Proof. intros Hw Hg Hu. cbn. by rewrite bt_get_retain, Hg, Hu. Qed.

Lemma enqueue_kept st e now k v : bt_wf (batches st) -> bt_get k (batches st) = Some v -> unexpired now v = true ->
  bt_get k (batches (enqueue st e now).1) = Some v.
Proof.
  intros Hw Hg Hu. pose proof (retain_kept now st k v Hw Hg Hu) as H. unfold enqueue. destruct (digest e); [|done].
  destruct (bt_get (key_of e) _) eqn:E; [done|]. destruct (full _ _); [done|]. cbn [fst batches with_batches].
  rewrite bt_get_insert_ne; [done|congruence].
Qed.

Lemma acknowledge_get id m n ack k v : bt_get k m = Some v ->
  exists v', bt_get k (acknowledge id (m, n) ack).1 = Some v' /\ same_batch v v' /\
    (k <> (ack_source ack, ack_batch_id ack) \/ pending id v = false -> v' = v).
Proof.
  intros Hg. unfold acknowledge. cbn [fst snd]. destruct (bt_get (ack_source ack, _) m) as [w|] eqn:E; [|by exists v].
  destruct (pending id w) eqn:Ew; [|by exists v]. cbn [fst]. destruct (decide ((ack_source ack, ack_batch_id ack) = k)) as [<-|Hne].
  - rewrite bt_get_insert. simplify_eq. exists (received v). split_and!; [done..|]. intros [?|?]; congruence.
  - rewrite bt_get_insert_ne by done. by exists v.
Qed.

Lemma acknowledge_all_get id acks k : forall m n v, bt_get k m = Some v ->
  exists v', bt_get k (foldl (acknowledge id) (m, n) acks).1 = Some v' /\ same_batch v v' /\
    (k ∉ map (fun a => (ack_source a, ack_batch_id a)) acks \/ pending id v = false -> v' = v).
Proof.
  induction acks as [|ack acks IH]; intros m n v Hg; [by exists v|]. cbn [foldl map].
  destruct (acknowledge_get id m n ack k v Hg) as (v1 & Hg1 & [Hd1 He1] & H1). destruct (acknowledge id (m, n) ack) as [m' n'].
  destruct (IH m' n' v1 Hg1) as (v2 & Hg2 & [Hd2 He2] & H2). exists v2. split_and!; [done|split; congruence|].
  rewrite not_elem_of_cons. intros H. assert (v1 = v) as -> by (apply H1; naive_solver). apply H2. naive_solver.
Qed.

Lemma perform_get st o k v : bt_wf (batches st) -> bt_get k (batches st) = Some v -> unexpired o.1 v = true ->
  exists v', bt_get k (batches (perform st o)) = Some v' /\ same_batch v v' /\ (not_acking k (target (envelope v)) o.2 -> v' = v).
Proof.
  intros Hw Hg Hu. destruct o as [now [id cluster b1 b2|e|id acks]]; cbn [perform snd not_acking].
  - by exists v.
  - exists v. split; [by apply enqueue_kept|done].
  - rewrite poll_batches.
    destruct (acknowledge_all_get id acks k _ 0 v (retain_kept now st k v Hw Hg Hu)) as (v' & Hg' & Hs & H).
    exists v'. split_and!; [done..|]. intros Hn. apply H. destruct (pending id v) eqn:E; [|by right]. left. apply Hn.
    unfold pending in E. apply andb_prop in E as [_ E%bool_decide_eq_true]. done.
Qed.

Lemma perform_wf st o : bt_wf (batches st) -> bt_wf (batches (perform st o)).
Proof.
  intros Hw. pose proof (bt_wf_retain (fun _ v => unexpired o.1 v) _ Hw) as Hr.
  destruct o as [now [id cluster b1 b2|e|id acks]]; cbn [perform fst] in *; [done| |].
  - unfold enqueue. destruct (digest e); [|done]. destruct (bt_get _ _); [done|]. destruct (full _ _); [done|]. by apply bt_wf_insert.
  - rewrite poll_batches. change (batches (retain_batches now st)) with (bt_retain (fun _ v => unexpired now v) (batches st)).
    generalize 0. revert Hr. generalize (bt_retain (fun _ v => unexpired now v) (batches st)).
    induction acks as [|a acks IH]; intros m Hm n; [done|]. cbn [foldl]. destruct (acknowledge id (m, n) a) as [m' n'] eqn:E.
    apply IH. unfold acknowledge in E. cbn [fst snd] in E. destruct (bt_get _ m); [|by simplify_eq].
    destruct (pending _ _); simplify_eq; [by apply bt_wf_insert|done].
Qed.

Lemma run_get ops : forall st k v, bt_wf (batches st) -> bt_get k (batches st) = Some v ->
  Forall (fun o => o.1 < expires_at (envelope v)) ops ->
  bt_wf (batches (run st ops)) /\
  exists v', bt_get k (batches (run st ops)) = Some v' /\ same_batch v v' /\
    (Forall (fun o => not_acking k (target (envelope v)) o.2) ops -> v' = v).
Proof.
  induction ops as [|o ops IH]; intros st k v Hw Hg Ht; [split; [done|by exists v]|]. apply Forall_cons in Ht as [Ht0 Ht].
  destruct (perform_get st o k v Hw Hg) as (v1 & Hg1 & [Hd1 He1] & H1); [unfold unexpired; lia|].
  destruct (IH (perform st o) k v1) as (Hw2 & v2 & Hg2 & [Hd2 He2] & H2); [by apply perform_wf|done|by rewrite He1|].
  split; [done|]. exists v2. split_and!; [done|split; congruence|]. intros [Hn0 Hn]%Forall_cons.
  rewrite (H1 Hn0) in *. by apply H2.
Qed.

Lemma accepted_stored st e now st1 : enqueue st e now = (st1, Ok Accepted) -> exists d, digest e = Ok d /\
  bt_get (key_of e) (batches st1) = Some {| envelope := e; stored_digest := d; acknowledged := false |}.
Proof.
  unfold enqueue. destruct (digest e) as [d|]; [|done]. destruct (bt_get (key_of e) _); [by case_bool_decide|].
  destruct (full _ _); [done|]. intros [= <-]. exists d. split; [done|]. apply bt_get_insert.
Qed.

(** ** A recipient that acknowledges what it gets *)

Definition ack_of (e : MeshEnvelope) : MeshAck := {| ack_source := source e; ack_batch_id := batch_id e |}.

(** Polls at the given times, each acknowledging what the one before delivered. *)
Fixpoint receive_all (st : MemoryState) (id : NodeId) (acks : list MeshAck) (times : list Z) : MemoryState * list MeshEnvelope :=
  match times with
  | [] => (st, [])
  | now :: times =>
      let '(st, l) := poll st id acks now in
      let '(st, rest) := receive_all st id (map ack_of l) times in
      (st, l ++ rest)
  end.

Definition keyed (m : btree (NodeId * bytes) Stored) : Prop := bt_wf m /\ forall kv, kv ∈ m -> kv.1 = key_of (envelope kv.2).

Definition pending_in (id : NodeId) (m : btree (NodeId * bytes) Stored) : list Stored := List.filter (pending id) (bt_values m).

Lemma mailbox_keyed P st : mailbox_ok P st -> keyed (batches st).
Proof. intros [Hw He _ _ _]. split; [done|]. intros [k v] Hin. apply bt_get_elem in Hin; [|done]. by destruct (He _ _ Hin). Qed.

Lemma keyed_insert m k v v' : keyed m -> bt_get k m = Some v -> key_of (envelope v') = key_of (envelope v) -> keyed (bt_insert k v' m).
Proof.
  intros [Hw Hk] Hg Hv. split; [by apply bt_wf_insert|]. intros kv [->|?]%bt_insert_elem; [|by apply Hk].
  cbn. rewrite Hv. by apply (Hk (k, v)), bt_get_in.
Qed.

Lemma keyed_retain p m : keyed m -> keyed (bt_retain p m).
Proof.
  intros [Hw Hk]. split; [by apply bt_wf_retain|]. intros kv Hin. apply Hk. unfold bt_retain in Hin.
  rewrite list_elem_of_In, filter_In in Hin. apply list_elem_of_In, Hin.
Qed.

Lemma pending_get id m v : keyed m -> v ∈ pending_in id m -> bt_get (key_of (envelope v)) m = Some v /\ pending id v = true.
Proof.
  intros [Hw Hk]. unfold pending_in, bt_values. rewrite list_elem_of_In, filter_In, in_map_iff. intros (([k w] & <- & Hin) & Hp).
  split; [|done]. apply list_elem_of_In in Hin. pose proof (Hk _ Hin) as E. cbn in *. rewrite <- E. by apply bt_get_elem.
Qed.

Lemma get_pending id m k v : bt_wf m -> bt_get k m = Some v -> pending id v = true -> v ∈ pending_in id m.
Proof.
  intros Hw Hg Hp. unfold pending_in, bt_values. rewrite list_elem_of_In, filter_In, in_map_iff. split; [|done].
  exists (k, v). split; [done|]. by apply list_elem_of_In, bt_get_elem.
Qed.

(** Acknowledging the first batch that waits leaves the others. *)
Lemma insert_head id m : forall v rest, keyed m -> pending_in id m = v :: rest ->
  pending_in id (bt_insert (key_of (envelope v)) (received v) m) = rest.
Proof.
  induction m as [|[k w] m IH]; intros v rest [Hw Hk] Hp; [done|]. apply bt_wf_cons in Hw as [Hw Hlt].
  assert (Hm : keyed m) by (split; [done|]; intros kv Hin; apply Hk; by right).
  pose proof (Hk (k, w) (list_elem_of_here _ _)) as Ek. cbn in Ek. unfold pending_in in *. cbn [bt_values map List.filter snd] in Hp.
  destruct (pending id w) eqn:Ew; cbn [bt_insert].
  - injection Hp as -> <-. by rewrite Ek, kcmp_refl.
  - assert (Hin : v ∈ pending_in id m) by (unfold pending_in, bt_values; rewrite Hp; apply list_elem_of_here).
    destruct (pending_get id m v Hm Hin) as [Hg _]. apply bt_get_in, Hlt, kcmp_gt in Hg. cbn [fst] in Hg. rewrite Hg.
    cbn [bt_values map List.filter snd]. rewrite Ew. by apply IH.
Qed.

(** Acknowledging the first batches of the list, some of which may be gone. *)
Lemma acknowledge_front id u A : forall B m n, keyed m -> pending_in id m = List.filter u (A ++ B) ->
  (forall a, a ∈ A -> u a = false -> bt_get (key_of (envelope a)) m = None) ->
  pending_in id (foldl (acknowledge id) (m, n) (map (fun a => ack_of (envelope a)) A)).1 = List.filter u B.
Proof.
  induction A as [|a A IH]; intros B m n Hm Hp Hgone; [done|]. cbn [map foldl].
  unfold acknowledge at 2. cbn [fst snd ack_of ack_source ack_batch_id]. change (source (envelope a), batch_id (envelope a)) with (key_of (envelope a)).
  cbn [app List.filter] in Hp. destruct (u a) eqn:Eu.
  - destruct (pending_get id m a Hm) as [Hg Hpa]; [rewrite Hp; apply list_elem_of_here|]. rewrite Hg, Hpa.
    apply IH; [by eapply keyed_insert|by apply insert_head|]. intros b Hb Hub.
    rewrite bt_get_insert_ne; [apply Hgone; [by right|done]|]. intros E. rewrite E in Hg. rewrite Hgone in Hg; [done|by right|done].
  - rewrite (Hgone a (list_elem_of_here _ _) Eu). apply IH; [done|done|]. intros b Hb. apply Hgone. by right.
Qed.

Lemma pending_retain id now m : pending_in id (bt_retain (fun _ v => unexpired now v) m) = List.filter (unexpired now) (pending_in id m).
Proof.
  unfold pending_in, bt_values, bt_retain. induction m as [|[k v] m IH]; [done|]. cbn.
  destruct (unexpired now v) eqn:Eu, (pending id v) eqn:Ep; cbn; rewrite ?Eu, ?Ep, IH; done.
Qed.

(** What waits after a poll that acknowledges the first [j] of the list. *)
Lemma poll_front st id j now : keyed (batches st) ->
  let acks := map (fun a => ack_of (envelope a)) (take j (pending_for id st)) in
  pending_for id (poll st id acks now).1 = List.filter (unexpired now) (drop j (pending_for id st)).
Proof.
  intros Hk acks. unfold pending_for at 1. rewrite poll_batches. apply (acknowledge_front id (unexpired now)).
  - by apply keyed_retain.
  - rewrite take_drop. apply pending_retain.
  - intros a Ha Hu. destruct (pending_get id (batches st) a Hk) as [Hg _]; [rewrite <- (take_drop j (pending_in _ _)), elem_of_app; by left|].
    cbn. by rewrite bt_get_retain, Hg, Hu by apply Hk.
Qed.

Lemma poll_delivers st id acks now : (poll st id acks now).2 = map envelope (take MAX_RECEIVE_BATCHES (pending_for id (poll st id acks now).1)).
Proof. unfold poll. by destruct (foldl _ _ _). Qed.

Lemma poll_keyed st id acks now : keyed (batches st) -> keyed (batches (poll st id acks now).1).
Proof.
  intros Hk. rewrite poll_batches. cbn. apply (keyed_retain (fun _ v => unexpired now v)) in Hk. revert Hk. generalize 0.
  generalize (bt_retain (fun _ v => unexpired now v) (batches st)). induction acks as [|a acks IH]; intros m n Hk; [done|].
  cbn [foldl]. destruct (acknowledge id (m, n) a) as [m' n'] eqn:E. apply IH. unfold acknowledge in E. cbn [fst snd] in E.
  destruct (bt_get _ m) as [v|] eqn:Eg; [|by simplify_eq]. destruct (pending _ _); simplify_eq; [by eapply keyed_insert|done].
Qed.

Lemma mailbox_ok_mono (P Q : MeshEnvelope -> Prop) st : (forall e, P e -> Q e) -> mailbox_ok P st -> mailbox_ok Q st.
Proof.
  intros H [H1 H2 H3 H4 H5]. constructor; try done. intros k v [E1 E2 E3]%H2. constructor; [done..|]. auto.
Qed.

(** What a poll delivers is left waiting, to be acknowledged. *)
Lemma poll_waiting st id acks now e : e ∈ (poll st id acks now).2 ->
  exists v, v ∈ pending_for id (poll st id acks now).1 /\ envelope v = e.
Proof.
  unfold poll. destruct (foldl _ _ _) as [m n]. cbn [fst snd]. intros (v & -> & Hv)%list_elem_of_fmap. exists v. split; [|done].
  rewrite <- (take_drop MAX_RECEIVE_BATCHES (pending_for _ _)), elem_of_app. by left.
Qed.

(** What a poll delivers is for the node that polls. *)
Lemma poll_content P st id acks now : mailbox_ok P st -> forall e, e ∈ (poll st id acks now).2 -> target e = id /\ P e.
Proof.
  intros Hst e. rewrite poll_delivers. apply (poll_ok P st id acks now) in Hst. intros (v & -> & Hv)%list_elem_of_fmap.
  assert (Hin : v ∈ pending_in id (batches (poll st id acks now).1)).
  { rewrite <- (take_drop MAX_RECEIVE_BATCHES (pending_in id _)), elem_of_app. by left. }
  destruct (pending_get id _ v (mailbox_keyed _ _ Hst) Hin) as [Hg Hp]. destruct (mo_entry _ _ Hst _ _ Hg) as [_ _ Hc].
  unfold pending in Hp. apply andb_prop in Hp as [Ha%negb_true_iff Ht%bool_decide_eq_true]. split; [done|by apply Hc].
Qed.

Lemma filter_sublist {A B} (f : A -> B) u l : map f (List.filter u l) `sublist_of` map f l.
Proof. induction l as [|x l IH]; [done|]. cbn. destruct (u x); cbn; by constructor. Qed.

(** The polls deliver, once and in order, some of what waits, and all that does not expire
    when there are enough of them. *)
Lemma receive_all_spec id times : forall st j, keyed (batches st) ->
  let waiting := pending_for id st in
  let delivered := (receive_all st id (map (fun a => ack_of (envelope a)) (take j waiting)) times).2 in
  delivered `sublist_of` map envelope (drop j waiting) /\
  forall v, v ∈ drop j waiting -> (length (drop j waiting) <= MAX_RECEIVE_BATCHES * length times)%nat ->
    Forall (fun now => unexpired now v = true) times -> envelope v ∈ delivered.
Proof.
  induction times as [|now times IH]; intros st j Hk waiting delivered.
  { split; [apply sublist_nil_l|]. intros v Hin Hl. rewrite Nat.mul_0_r in Hl. apply Nat.le_0_r, nil_length_inv in Hl. rewrite Hl in Hin.
    by apply not_elem_of_nil in Hin. }
  subst delivered. cbn [receive_all]. set (acks := map _ (take j waiting)).
  pose proof (poll_front st id j now Hk) as Hf. cbv zeta in Hf. fold waiting acks in Hf. pose proof (poll_delivers st id acks now) as Hd.
  pose proof (poll_keyed st id acks now Hk) as Hk'. destruct (poll st id acks now) as [st1 l]. cbn [fst snd] in *. subst l.
  specialize (IH st1 MAX_RECEIVE_BATCHES Hk'). cbv zeta in IH. rewrite map_map. destruct (receive_all st1 id _ times) as [st2 rest].
  cbn [snd] in *. destruct IH as [IHs IHd]. split.
  - transitivity (map envelope (pending_for id st1)).
    + rewrite <- (take_drop MAX_RECEIVE_BATCHES (pending_for id st1)) at 2. rewrite map_app. by apply sublist_app.
    + rewrite Hf. apply filter_sublist.
  - intros v Hin Hl [Hu Ht]%Forall_cons. rewrite elem_of_app.
    assert (Hv : v ∈ pending_for id st1) by (rewrite Hf, list_elem_of_In, filter_In, <- list_elem_of_In; done).
    rewrite <- (take_drop MAX_RECEIVE_BATCHES (pending_for id st1)), elem_of_app in Hv. destruct Hv as [Hv|Hv].
    + left. apply list_elem_of_fmap. by exists v.
    + right. apply IHd; [done| |done]. rewrite length_drop, Hf. pose proof (filter_length_le (unexpired now) (drop j waiting)).
      cbn [length] in Hl. lia.
Qed.

Lemma keys_values m : keyed m -> bt_keys m = map (fun v => key_of (envelope v)) (bt_values m).
Proof.
  intros [_ Hk]. unfold bt_keys, bt_values. rewrite map_map. apply map_ext_in. intros kv Hin. by apply Hk, list_elem_of_In.
Qed.

Lemma pending_keys_nodup id st : keyed (batches st) -> NoDup (map key_of (map envelope (pending_for id st))).
Proof.
  intros Hk. rewrite map_map. eapply sublist_NoDup; [|apply filter_sublist]. rewrite <- keys_values by done. by apply bt_keys_nodup, Hk.
Qed.

Lemma run_wf ops : forall st, bt_wf (batches st) -> bt_wf (batches (run st ops)).
Proof. induction ops as [|o ops IH]; intros st Hw; [done|]. by apply IH, perform_wf. Qed.

Lemma perform_members_wf st o : bt_wf (members st) -> bt_wf (members (perform st o)).
Proof.
  intros Hw. destruct o as [now [id cluster b1 b2|e|id acks]]; cbn [perform].
  - by apply bt_wf_insert.
  - unfold enqueue. destruct (digest e); [|done]. destruct (bt_get _ _); [done|]. by destruct (full _ _).
  - unfold poll. destruct (foldl _ _ _) as [m n]. cbn [fst]. unfold renew_lease. cbn [members update_stats with_stats with_batches retain_batches].
    destruct (bt_get id (members st)) as [[[[? ?] ?] ?]|]; [by apply bt_wf_insert|done].
Qed.

Lemma run_members_wf ops : forall st, bt_wf (members st) -> bt_wf (members (run st ops)).
Proof. induction ops as [|o ops IH]; intros st Hw; [done|]. by apply IH, perform_members_wf. Qed.

Lemma enqueue_wf st e now : bt_wf (batches st) -> bt_wf (batches (enqueue st e now).1).
Proof. apply (perform_wf st (now, Enqueue e)). Qed.

End Batches.

(** C14: A batch the mailbox accepted reaches its recipient: whatever else is sent, leased and
    polled meanwhile, as long as it neither expires nor is acknowledged, 64 polls in which the
    recipient acknowledges what it got deliver it, and they deliver no batch twice. *)
Theorem accepted_delivered {Net : IpNetOps} {Build : IpNetBuildOps} {UO : UrlOps} {DO : DigestOps} {EnvelopeJson : ToJson (NodeId * list bytes)}
    before e now st1 ops times :
  Forall (fun o => op_ok (fun _ => True) o.2) (before ++ (now, Enqueue e) :: ops) ->
  enqueue (run empty before) e now = (st1, Ok Accepted) ->
  Forall (fun o => o.1 < expires_at e /\ not_acking (key_of e) (target e) o.2) ops ->
  Forall (fun t => t < expires_at e) times -> (64 <= length times)%nat ->
  let delivered := (receive_all (run st1 ops) (target e) [] times).2 in
  e ∈ delivered /\ NoDup (map key_of delivered).
Proof.
  intros Hok He Hops Ht Hl delivered. apply Forall_app in Hok as [Hb [Ho Ha]%Forall_cons].
  pose proof (run_ok _ before empty (mailbox_ok_empty _) Hb) as H0. destruct (accepted_stored _ _ _ _ He) as (d & _ & Hg).
  assert (H1 : mailbox_ok (fun _ => True) st1) by (replace st1 with (enqueue (run empty before) e now).1 by (by rewrite He); destruct Ho; by apply enqueue_ok).
  pose proof (run_ok _ ops st1 H1 Ha) as H2. apply Forall_and in Hops as [Hx Hn].
  destruct (run_get ops st1 _ _ (mo_wf _ _ H1) Hg Hx) as (Hw & v & Hg2 & _ & Hv). rewrite (Hv Hn) in Hg2.
  destruct (receive_all_spec (target e) times (run st1 ops) 0 (mailbox_keyed _ _ H2)) as [Hs Hd]. cbn [take map] in Hs, Hd. rewrite drop_0 in Hs, Hd.
  split; [|eapply sublist_NoDup; [by apply pending_keys_nodup, (mailbox_keyed _ _ H2)|by apply (fmap_sublist key_of)]].
  apply (Hd _ (get_pending (target e) _ _ _ Hw Hg2 ltac:(unfold pending; cbn; by rewrite bool_decide_true))).
  - pose proof (pending_length (run st1 ops) (target e)). pose proof (mo_count _ _ H2 (target e)).
    unfold MAX_PENDING_BATCHES, MAX_RECEIVE_BATCHES in *. lia.
  - eapply Forall_impl; [exact Ht|]. intros t H. unfold unexpired. cbn in *. lia.
Qed.

(** C17: Until a batch that was accepted expires, and also after it was received, sending under its
    identifier again changes nothing but the removal of what expired: the same target and
    packets are recognised as a duplicate, others are refused as a conflict. *)
Theorem resend_recognized {Net : IpNetOps} {Build : IpNetBuildOps} {UO : UrlOps} {DO : DigestOps} {EnvelopeJson : ToJson (NodeId * list bytes)}
    before e now st1 ops e' now' d d' :
  enqueue (run empty before) e now = (st1, Ok Accepted) ->
  Forall (fun o => o.1 < expires_at e) ops -> now' < expires_at e ->
  key_of e' = key_of e -> digest e = Ok d -> digest e' = Ok d' ->
  enqueue (run st1 ops) e' now' = (retain_batches now' (run st1 ops), Ok (if bool_decide (d = d') then Duplicate else Conflict)).
Proof.
  intros He Hops Hn Hk Hd Hd'. destruct (accepted_stored _ _ _ _ He) as (d0 & E & Hg). rewrite Hd in E. injection E as <-.
  assert (H1 : bt_wf (batches st1)) by (replace st1 with (enqueue (run empty before) e now).1 by (by rewrite He); by apply enqueue_wf, run_wf, bt_wf_nil).
  destruct (run_get ops st1 _ _ H1 Hg Hops) as (Hw & v & Hg2 & [Es Ex] & _). cbn in Es, Ex.
  unfold enqueue. rewrite Hd', Hk, (retain_kept _ _ _ _ Hw Hg2); [by rewrite Es|]. unfold unexpired. lia.
Qed.

(** ** Two senders and a recipient *)
Module MailboxExample.
Import Instances Crypto.CryptoExample.

#[local] Instance packets_json : ToJson (NodeId * list bytes) := fun p => Some (p.1 ++ concat p.2).

Definition batch (from to id : bytes) (content : list bytes) : MeshEnvelope := {|
  source := from; target := to; batch_id := id; packets := content; byte_count := 32; expires_at := 120 * Signal.SECOND |}.

Definition sample_hash_hex (e : MeshEnvelope) : bytes := default [] (match digest e with Ok d => Some d | Err _ => None end).

Definition first : MeshEnvelope := batch (bstr "b") (bstr "c") (bstr "1") [bstr "hello"].

(** Before: a lease and a batch from [a]; after: the recipient acknowledges that one, and [a] sends again. *)
Definition earlier : list (Z * mesh_op) := [(0, Lease (bstr "c") (bstr "cluster") false true); (1, Enqueue (batch (bstr "a") (bstr "c") (bstr "1") [bstr "hi"]))].
Definition later : list (Z * mesh_op) :=
  [(3, Poll (bstr "c") [ack_of (batch (bstr "a") (bstr "c") (bstr "1") [])]); (4, Enqueue (batch (bstr "a") (bstr "c") (bstr "2") [bstr "again"]))].

Definition accepted : MemoryState := Eval vm_compute in (enqueue (run empty earlier) first 2).1.

Lemma first_accepted : enqueue (run empty earlier) first 2 = (accepted, Ok Accepted).
Proof. by vm_compute. Qed.

Lemma accepted_delivered_witness :
  let delivered := (receive_all (run accepted later) (bstr "c") [] (replicate 64 5)).2 in
  first ∈ delivered /\ NoDup (map key_of delivered).
Proof.
  apply (accepted_delivered earlier first 2 accepted later (replicate 64 5)).
  - repeat constructor; cbn; try done; lia.
  - apply first_accepted.
  - repeat constructor; cbn; try done. intros _. set_solver.
  - apply Forall_replicate. by vm_compute.
  - rewrite length_replicate. done.
Defined.

(** The same batch once more, and other packets under its identifier, after it was received. *)
Lemma resend_recognized_witness :
  let ops := [(3, Poll (bstr "c") [ack_of first])] in
  (enqueue (run accepted ops) first 4).2 = Ok Duplicate /\
  (enqueue (run accepted ops) (batch (bstr "b") (bstr "c") (bstr "1") [bstr "other"]) 4).2 = Ok Conflict.
Proof.
  split.
  - rewrite (resend_recognized earlier first 2 accepted [(3, Poll (bstr "c") [ack_of first])] first 4
               (sample_hash_hex first) (sample_hash_hex first)); [|apply first_accepted|by repeat constructor|done..].
    by rewrite bool_decide_true.
  - rewrite (resend_recognized earlier first 2 accepted [(3, Poll (bstr "c") [ack_of first])] (batch (bstr "b") (bstr "c") (bstr "1") [bstr "other"]) 4
               (sample_hash_hex first) (sample_hash_hex (batch (bstr "b") (bstr "c") (bstr "1") [bstr "other"]))); [|apply first_accepted|by repeat constructor|done..].
    by vm_compute.
Defined.
End MailboxExample.

End Mailbox.
