(* ===== verification/ControlAcl.v ===== *)
(** * Access rules of the control plane (crates/ipars-control-plane/src/lib.rs)

    Which peers, routes and destinations the policy lets a node reach: the checks behind peer
    maps, path queries and the HTTP mesh. *)

From S2P Require Import Prelude RustStd Endpoints OverlayTypes F32 PathTypes Signal JoinTokens ControlTypes ControlRules Instances.

(** What [ipnet] documents of prefixes: two that share an address are nested, the one with the
    longer prefix inside the other. *)
Class IpNetLaws {Net : IpNetOps} : Prop := {
  ipnet_shared : forall a b d, ipnet_contains a d = true -> ipnet_contains b d = true -> ipnet_prefix_len a <= ipnet_prefix_len b ->
    ipnet_is_v4 a = ipnet_is_v4 b /\ ipnet_contains a (ipnet_addr b) = true;
  ipnet_nested : forall a b d, ipnet_is_v4 a = ipnet_is_v4 b -> ipnet_prefix_len a <= ipnet_prefix_len b ->
    ipnet_contains a (ipnet_addr b) = true -> ipnet_contains b d = true -> ipnet_contains a d = true
}.

Module ControlAcl.
Import PathTypes ControlRules.

Section Acl.
Context {Net : IpNetOps}.

Definition acl_rule_matches_node_selectors (rule : AclRule) (source target : Overlay.NodeRecord) : bool :=
  if negb (bool_decide (protocol rule = Any)) then false
  else if negb (bool_decide (from_roles rule = [])) && negb (bool_decide (Overlay.role source ∈ from_roles rule)) then false
  else if negb (bool_decide (to_roles rule = [])) && negb (bool_decide (Overlay.role target ∈ to_roles rule)) then false
  else if negb (bool_decide (from_tags rule = [])) && negb (Signal.intersects (from_tags rule) (Overlay.tags source)) then false
  else if negb (bool_decide (to_tags rule = [])) && negb (Signal.intersects (to_tags rule) (Overlay.tags target)) then false
  else true.

Definition acl_rule_matches (rule : AclRule) (source target : Overlay.NodeRecord) (route : option Overlay.Route) : bool :=
  if negb (acl_rule_matches_node_selectors rule source target) then false
  else match route with
       | Some route =>
           bool_decide (acl_routes rule = [])
           || existsb (fun rule_route => match action rule with
                                         | Allow => ipnet_covers rule_route (Overlay.cidr route)
                                         | Deny => ipnets_overlap rule_route (Overlay.cidr route)
                                         end) (acl_routes rule)
       | None => bool_decide (acl_routes rule = [])
       end.

Definition acl_rule_matches_destination (rule : AclRule) (source target : Overlay.NodeRecord) (destination : IpAddr) : bool :=
  acl_rule_matches_node_selectors rule source target
  && (bool_decide (acl_routes rule = []) || existsb (fun rule_route => ipnet_contains rule_route destination) (acl_routes rule)).

(** The loop over the rules, with the decision so far: a rule that denies ends it. *)
Fixpoint acl_loop (matches : AclRule -> bool) (allowed : option bool) (rules : list AclRule) : option bool :=
  match rules with
  | [] => allowed
  | rule :: rules =>
      if negb (matches rule) then acl_loop matches allowed rules
      else match action rule with Deny => Some false | Allow => acl_loop matches (Some true) rules end
  end.

Definition acl_decision (source target : Overlay.NodeRecord) (route : option Overlay.Route) (policy : ClusterPolicy) : option bool :=
  acl_loop (fun rule => acl_rule_matches rule source target route) None (acl_rules policy).

Definition acl_allows_peer (source target : Overlay.NodeRecord) (policy : ClusterPolicy) : bool :=
  if Overlay.is_administratively_stopped source || Overlay.is_administratively_stopped target then false
  else default false (acl_decision source target None policy).

Definition acl_allows_route (source target : Overlay.NodeRecord) (route : Overlay.Route) (policy : ClusterPolicy) : bool :=
  default false (acl_decision source target (Some route) policy).

(** The code passes the route along and does not look at it. *)
Definition acl_allows_route_destination (source target : Overlay.NodeRecord) (destination : IpAddr) (policy : ClusterPolicy) : bool :=
  default false (acl_loop (fun rule => acl_rule_matches_destination rule source target destination) None (acl_rules policy)).

Definition with_routes (n : Overlay.NodeRecord) (routes : list Overlay.Route) : Overlay.NodeRecord := {|
  Overlay.node_id := Overlay.node_id n; Overlay.display_name := Overlay.display_name n; Overlay.hostname := Overlay.hostname n;
  Overlay.cluster_id := Overlay.cluster_id n; Overlay.vpn_ip := Overlay.vpn_ip n;
  Overlay.identity_public_key := Overlay.identity_public_key n; Overlay.wireguard_public_key := Overlay.wireguard_public_key n;
  Overlay.role := Overlay.role n; Overlay.tags := Overlay.tags n; Overlay.endpoint_candidates := Overlay.endpoint_candidates n;
  Overlay.relay_capability := Overlay.relay_capability n; Overlay.token_policy := Overlay.token_policy n; Overlay.routes := routes;
  Overlay.registered_at := Overlay.registered_at n |}.

Definition acl_filter_peer (source target : Overlay.NodeRecord) (policy : ClusterPolicy) : option Overlay.NodeRecord :=
  if Overlay.is_administratively_stopped source || Overlay.is_administratively_stopped target then None
  else if bool_decide (acl_rules policy = []) then Some target
  else
    let peer_allowed := acl_allows_peer source target policy in
    let routes := List.filter (fun route => acl_allows_route source target route policy) (Overlay.routes target) in
    if negb peer_allowed && bool_decide (routes = []) then None else Some (with_routes target routes).

(** ** What the rules mean *)

Lemma loop_denied matches rules : forall allowed, default false (acl_loop matches allowed rules) = true ->
  forall rule, rule ∈ rules -> matches rule = true -> action rule = Allow.
Proof.
  induction rules as [|r rules IH]; intros allowed H rule Hin Hm; [by apply not_elem_of_nil in Hin|]. cbn in H.
  apply elem_of_cons in Hin as [->|Hin].
  - rewrite Hm in H. cbn in H. by destruct (action r).
  - destruct (matches r); cbn in H; [|by eapply IH]. destruct (action r); [by eapply IH|done].
Qed.

Lemma loop_allowed matches rules : forall allowed, default false (acl_loop matches allowed rules) = true ->
  allowed = Some true \/ exists rule, rule ∈ rules /\ matches rule = true.
Proof.
  induction rules as [|r rules IH]; intros allowed H; cbn in H; [left; by destruct allowed as [[]|]|].
  destruct (matches r) eqn:E; [right; exists r; split; [by left|done]|].
  destruct (IH _ H) as [?|(rule & ? & ?)]; [by left|]. right. exists rule. split; [by right|done].
Qed.

Lemma loop_grants matches rules : (forall rule, rule ∈ rules -> matches rule = true -> action rule = Allow) ->
  forall allowed, allowed = Some true \/ (exists rule, rule ∈ rules /\ matches rule = true) -> acl_loop matches allowed rules = Some true.
Proof.
  induction rules as [|r rules IH]; intros Ha allowed H; cbn.
  { destruct H as [->|(rule & Hin & _)]; [done|by apply not_elem_of_nil in Hin]. }
  assert (Ha' : forall rule, rule ∈ rules -> matches rule = true -> action rule = Allow) by (intros; apply Ha; [by right|done]).
  destruct (matches r) eqn:E; cbn.
  - rewrite (Ha r (list_elem_of_here _ _) E). apply IH; [done|by left].
  - apply IH; [done|]. destruct H as [?|(rule & [->|Hin]%elem_of_cons & Hm)]; [by left|congruence|right; by exists rule].
Qed.

(** A decision says yes exactly when some rule that matches allows and none denies. *)
Lemma loop_true matches rules : default false (acl_loop matches None rules) = true <->
  (exists rule, rule ∈ rules /\ matches rule = true /\ action rule = Allow) /\
  (forall rule, rule ∈ rules -> matches rule = true -> action rule <> Deny).
Proof.
  split.
  - intros H. pose proof (loop_denied _ _ _ H) as Hd. destruct (loop_allowed _ _ _ H) as [?|(rule & Hin & Hm)]; [done|]. split.
    + exists rule. auto.
    + intros r Hr Hmr. by rewrite (Hd r Hr Hmr).
  - intros [(rule & Hin & Hm & Ha) Hd]. rewrite (loop_grants matches rules); [done| |right; by exists rule].
    intros r Hr Hmr. specialize (Hd r Hr Hmr). by destruct (action r).
Qed.

Context {Laws : IpNetLaws}.

(** A rule that speaks of one address of a route: one that allows the whole route allows the
    address, and one that denies the address overlaps the route. *)
Lemma destination_allowed rule source target route d : action rule = Allow -> ipnet_contains (Overlay.cidr route) d = true ->
  acl_rule_matches rule source target (Some route) = true -> acl_rule_matches_destination rule source target d = true.
Proof.
  unfold acl_rule_matches, acl_rule_matches_destination. intros Ha Hc. destruct (acl_rule_matches_node_selectors _ _ _); [|done]. cbn.
  rewrite !orb_true_iff, !existsb_exists, Ha. intros [?|(r & Hr & Hcov)]; [by left|]. right. exists r. split; [done|].
  unfold ipnet_covers in Hcov. apply andb_prop in Hcov as [Hv [Hp Hin]%andb_prop]. apply eqb_prop in Hv. eapply ipnet_nested; [done|lia|done..].
Qed.

Lemma destination_denied rule source target route d : action rule = Deny -> ipnet_contains (Overlay.cidr route) d = true ->
  acl_rule_matches_destination rule source target d = true -> acl_rule_matches rule source target (Some route) = true.
Proof.
  unfold acl_rule_matches, acl_rule_matches_destination. intros Ha Hc. destruct (acl_rule_matches_node_selectors _ _ _); [|done]. cbn.
  rewrite !orb_true_iff, !existsb_exists, Ha. intros [?|(r & Hr & Hin)]; [by left|]. right. exists r. split; [done|].
  unfold ipnets_overlap, ipnet_covers. apply orb_true_iff.
  destruct (Z_le_gt_dec (ipnet_prefix_len r) (ipnet_prefix_len (Overlay.cidr route))) as [Hle|Hgt].
  - left. destruct (ipnet_shared _ _ _ Hin Hc Hle) as [-> ->]. rewrite eqb_reflx. cbn. rewrite andb_true_r. lia.
  - right. destruct (ipnet_shared _ _ _ Hc Hin) as [-> ->]; [lia|]. rewrite eqb_reflx. cbn. rewrite andb_true_r. lia.
Qed.

End Acl.

(** C16: The routes a peer map shows are good for every address in them. A node sees a peer only when
    neither is stopped; where there are rules, each route it sees is one of the peer's, some
    rule that applies allows it and none that applies denies part of it; and every address of
    such a route is also allowed as the destination of a path. *)
Theorem visible_routes_reachable {Net : IpNetOps} {Laws : IpNetLaws} source target policy seen :
  acl_filter_peer source target policy = Some seen ->
  Overlay.is_administratively_stopped source = false /\ Overlay.is_administratively_stopped target = false /\
  (acl_rules policy <> [] -> forall route, route ∈ Overlay.routes seen ->
     route ∈ Overlay.routes target /\
     (exists rule, rule ∈ acl_rules policy /\ acl_rule_matches rule source target (Some route) = true /\ action rule = Allow) /\
     (forall rule, rule ∈ acl_rules policy -> acl_rule_matches rule source target (Some route) = true -> action rule <> Deny) /\
     forall d, ipnet_contains (Overlay.cidr route) d = true -> acl_allows_route_destination source target d policy = true).
Proof.
  unfold acl_filter_peer. destruct (_ || _)%bool eqn:Es; [done|]. apply orb_false_iff in Es as [-> ->]. intros H. split_and!; [done..|].
  intros Hr route Hin. rewrite bool_decide_false in H by done. destruct (_ && _)%bool; [done|]. injection H as <-. cbn in Hin.
  rewrite list_elem_of_In, filter_In, <- list_elem_of_In in Hin. destruct Hin as [Hin Ha].
  unfold acl_allows_route, acl_decision in Ha. rewrite loop_true in Ha. destruct Ha as [(rule & Hrule & Hm & Hal) Hd]. split_and!; [done|by exists rule|done|].
  intros d Hc. unfold acl_allows_route_destination. apply loop_true. split.
  - exists rule. split_and!; [done|by eapply destination_allowed|done].
  - intros r Hin' Hmr Hdeny. apply (Hd r Hin'); [by eapply destination_denied|done].
Qed.

(** ** Two nodes, a rule that allows and one that denies *)
Module AclExample.
Import Instances.

#[local] Instance cidr_laws : IpNetLaws.
Proof. split; [apply cidr_shared|apply cidr_nested]. Qed.

Definition net (a p : Z) : Cidr := {| is_v4 := true; address := a; prefix := p |}.

(** [10.0.0.0/8] is allowed, [10.9.0.0/16] is not. *)
Definition rule (id : bytes) (n : Cidr) (what : AclAction) : AclRule := {|
  acl_id := id; from_roles := []; from_tags := []; to_roles := []; to_tags := []; acl_routes := [n]; protocol := Any; action := what |}.

Definition policy : ClusterPolicy := {|
  allow_ipv6_direct := true; allow_nat_traversal := true; allow_relay_fallback := true; idle_timeout_seconds := 300;
  overlay_block_size := 4; overlay_max_degree := 4; overlay_direct_shortcut_limit := 0; overlay_on_demand_peer_limit := 4;
  overlay_route_scopes := []; relay_health_ttl_seconds := 90; endpoint_candidate_ttl_seconds := 120;
  path_state_ttl_seconds := 600; path_quality_observation_ttl_seconds := 120; nat_classification_ttl_seconds := 300;
  nat_classification_min_confidence_percent := 50; pinned_roles := []; pinned_tags := [];
  acl_rules := [rule (bstr "in") (net (10 * 2 ^ 24) 8) Allow; rule (bstr "out") (net (10 * 2 ^ 24 + 9 * 2 ^ 16) 16) Deny] |}.

Definition route (id : bytes) (n : Cidr) : Overlay.Route := {|
  Overlay.route_id := id; Overlay.cidr := n; Overlay.advertised_by := bstr "b"; Overlay.via := None; Overlay.metric := 10; Overlay.route_tags := [] |}.

Definition good : Overlay.Route := route (bstr "good") (net (10 * 2 ^ 24 + 2 ^ 16) 16).
Definition peer : Overlay.NodeRecord := with_routes (sample_node (bstr "b") 2) [good; route (bstr "bad") (net (10 * 2 ^ 24 + 9 * 2 ^ 16) 24)].

Lemma visible_routes_reachable_witness :
  (exists seen, acl_filter_peer (sample_node (bstr "a") 1) peer policy = Some seen /\ Overlay.routes seen = [good]) /\
  acl_allows_route_destination (sample_node (bstr "a") 1) peer (IpV4 (10 * 2 ^ 24 + 2 ^ 16 + 5)) policy = true.
Proof.
  split; [by eexists|].
  destruct (visible_routes_reachable (sample_node (bstr "a") 1) peer policy (with_routes peer [good])) as (_ & _ & H); [by vm_compute|].
  apply (H ltac:(done) good (list_elem_of_here _ _)). by vm_compute.
Defined.
End AclExample.

End ControlAcl.
