(* ===== verification/ControlPlane.v ===== *)
(** * Registration, removal and policy changes (crates/ipars-control-plane/src/lib.rs)

    [ControlPlane] over the in-memory store, with the token ledger of the join service. An
    operation of [ControlPlane] is asynchronous: other operations run between any two of its
    accesses to the store, the allocator or the caches. It is a [prog], a tree of atomic
    accesses, which [run_prog] runs alone and [exec] interleaves with others. *)

From S2P Require Import Prelude RustStd Endpoints OverlayTypes BTree SortBy Hashing F32 Stun NatClass PathTypes Signal Quorum JoinTokens Crypto ControlTypes TokenLedger RequestAuth ControlStore ControlRules MeshMailbox Instances.

Module ControlPlane.
Import ControlTypes JoinTokens ControlRules ControlStore.

(** ** Atomic steps *)

Inductive prog (S A : Type) : Type :=
  | Ret (a : A)
  | Stuck
  | Atomic {B : Type} (act : S -> S * B) (k : B -> prog S A).
Arguments Ret {S A} a.
Arguments Stuck {S A}.
Arguments Atomic {S A B} act k.

Fixpoint prog_bind {S A B} (p : prog S A) (f : A -> prog S B) : prog S B :=
  match p with
  | Ret a => f a
  | Stuck => Stuck
  | Atomic act k => Atomic act (fun b => prog_bind (k b) f)
  end.

(** [p.await?] and what follows. *)
Definition prog_try {S A B E} (p : prog S (result A E)) (f : A -> prog S (result B E)) : prog S (result B E) :=
  prog_bind p (fun r => match r with Ok a => f a | Err e => Ret (Err e) end).

Declare Scope prog_scope.
Delimit Scope prog_scope with prog.
Notation "'let*' x := p 'in' k" := (prog_bind p (fun x => k)) (at level 10, x pattern, p at level 100, k at level 200) : prog_scope.
Notation "'try*' x := p 'in' k" := (prog_try p (fun x => k)) (at level 10, x pattern, p at level 100, k at level 200) : prog_scope.
Open Scope prog_scope.

Fixpoint run_prog {S A} (p : prog S A) (s : S) : option (S * A) :=
  match p with
  | Ret a => Some (s, a)
  | Stuck => None
  | Atomic act k => let '(s, b) := act s in run_prog (k b) s
  end.

Definition succeeded {S A E} (x : option (S * result A E)) : bool := match x with Some (_, r) => is_ok r | None => false end.

(** One access of the [i]-th of the operations in progress. *)
Definition exec_step {S A} (c : S * list (prog S A)) (i : nat) : S * list (prog S A) :=
  match c.2 !! i with
  | Some (Atomic act k) => let '(s, b) := act c.1 in (s, <[i := k b]> c.2)
  | _ => c
  end.

Definition exec {S A} (c : S * list (prog S A)) (schedule : list nat) : S * list (prog S A) := foldl exec_step c schedule.

(** The states an interleaving goes through. *)
Fixpoint visited {S A} (c : S * list (prog S A)) (schedule : list nat) : list S :=
  c.1 :: match schedule with [] => [] | i :: schedule => visited (exec_step c i) schedule end.

Section Plane.
Context {Net : IpNetOps} {Build : IpNetBuildOps} {V4 : Ipv4NetOps} {UO : UrlOps} {B64 : Base64Ops} {DO : DigestOps}.
Context {EO : EdOps} {ES : EdSignOps} {X : X25519Ops} {Json : ToJson JoinTokenClaims}.
Context {CatalogJson : ToJson (list material)} {RemoveJson : ToJson (NodeId * Z)}.
Context {Snapshot : Type}.

Local Abbreviation Store := (@InMemoryStore Net Snapshot).
Local Abbreviation error := ControlPlaneError.

(** ** Addresses *)

Record VpnAllocator : Type := { pool : Ipv4Net; next_host_offset : Z }.

Definition allocator_new (p : Ipv4Net) : VpnAllocator := {| pool := p; next_host_offset := 1 |}.

(** The loop of [allocate_next]: the next offset and the address. [fuel] is the number of
    offsets below the broadcast address, so the guard fails where it ends. *)
Fixpoint allocate_loop (fuel : nat) (network broadcast offset : Z) (reserved : list Z) : Z * result IpAddr error :=
  if saturating_add 32 network offset <? broadcast then
    match fuel with
    | O => (offset, Err VpnPoolExhausted)
    | S fuel =>
        let candidate := network + offset in
        if bool_decide (candidate ∈ reserved) then allocate_loop fuel network broadcast (offset + 1) reserved
        else (offset + 1, Ok (IpV4 candidate))
    end
  else (offset, Err VpnPoolExhausted).

Definition allocate_next (a : VpnAllocator) (reserved : list Z) : VpnAllocator * result IpAddr error :=
  let network := ipv4net_network (pool a) in
  let broadcast := ipv4net_broadcast (pool a) in
  let '(offset, r) := allocate_loop (Z.to_nat (broadcast - network - next_host_offset a)) network broadcast (next_host_offset a) reserved in
  ({| pool := pool a; next_host_offset := offset |}, r).

Definition assigned_ipv4_vpn_ips (nodes : list Overlay.NodeRecord) : list Z :=
  omap (fun n => match Overlay.vpn_ip n with IpV4 ip => Some ip | IpV6 _ => None end) nodes.

Definition vpn_pool_contains_usable_host (p : Ipv4Net) (ip : Z) : bool := (ipv4net_network p <? ip) && (ip <? ipv4net_broadcast p).

(** ** The state *)

Record ControlPlaneConfig : Type := {
  config_cluster_id : bytes;
  vpn_pool : Ipv4Net;
  config_cluster_policy : PathTypes.ClusterPolicy;
  require_heartbeat_signature : bool;
  heartbeat_signature_max_age : Z;
  service_ha_replica_count : Z
}.

Record AgentBuildInfo : Type := { version : bytes; commit : bytes }.

(** [ControlPlane] with its store, the mailbox in it and the ledger of the join service. Of the cached view of
    the overlay, whether there is one. *)
Record State : Type := {
  store : Store;
  ledger : TokenLedger.InMemoryTokenLedger;
  cached_policy : PathTypes.ClusterPolicy;
  snapshot_cached : bool;
  allocator : VpnAllocator;
  auth : RequestAuth.AuthState;
  mesh : Mailbox.MemoryState;
  admin_path_pins : btree (NodeId * NodeId) bool;
  agent_builds : btree NodeId AgentBuildInfo;
  node_removal_success_count : Z;
  node_removal_failure_count : Z
}.

Definition initial (config : ControlPlaneConfig) : State := {|
  store := ControlStore.new; ledger := TokenLedger.new; cached_policy := config_cluster_policy config; snapshot_cached := false;
  allocator := allocator_new (vpn_pool config); auth := {| RequestAuth.nonce_cache := []; RequestAuth.mesh_nonces := [] |};
  mesh := Mailbox.empty; admin_path_pins := []; agent_builds := []; node_removal_success_count := 0; node_removal_failure_count := 0 |}.

Definition with_store (s : State) (st : Store) : State := {|
  store := st; ledger := ledger s; cached_policy := cached_policy s; snapshot_cached := snapshot_cached s; allocator := allocator s;
  auth := auth s; mesh := mesh s; admin_path_pins := admin_path_pins s; agent_builds := agent_builds s;
  node_removal_success_count := node_removal_success_count s; node_removal_failure_count := node_removal_failure_count s |}.

Definition with_ledger (s : State) (l : TokenLedger.InMemoryTokenLedger) : State := {|
  store := store s; ledger := l; cached_policy := cached_policy s; snapshot_cached := snapshot_cached s; allocator := allocator s;
  auth := auth s; mesh := mesh s; admin_path_pins := admin_path_pins s; agent_builds := agent_builds s;
  node_removal_success_count := node_removal_success_count s; node_removal_failure_count := node_removal_failure_count s |}.

Definition with_policy (s : State) (p : PathTypes.ClusterPolicy) : State := {|
  store := store s; ledger := ledger s; cached_policy := p; snapshot_cached := snapshot_cached s; allocator := allocator s;
  auth := auth s; mesh := mesh s; admin_path_pins := admin_path_pins s; agent_builds := agent_builds s;
  node_removal_success_count := node_removal_success_count s; node_removal_failure_count := node_removal_failure_count s |}.

Definition with_allocator (s : State) (a : VpnAllocator) : State := {|
  store := store s; ledger := ledger s; cached_policy := cached_policy s; snapshot_cached := snapshot_cached s; allocator := a;
  auth := auth s; mesh := mesh s; admin_path_pins := admin_path_pins s; agent_builds := agent_builds s;
  node_removal_success_count := node_removal_success_count s; node_removal_failure_count := node_removal_failure_count s |}.

Definition with_auth (s : State) (a : RequestAuth.AuthState) : State := {|
  store := store s; ledger := ledger s; cached_policy := cached_policy s; snapshot_cached := snapshot_cached s; allocator := allocator s;
  auth := a; mesh := mesh s; admin_path_pins := admin_path_pins s; agent_builds := agent_builds s;
  node_removal_success_count := node_removal_success_count s; node_removal_failure_count := node_removal_failure_count s |}.

Definition with_mesh (s : State) (m : Mailbox.MemoryState) : State := {|
  store := store s; ledger := ledger s; cached_policy := cached_policy s; snapshot_cached := snapshot_cached s; allocator := allocator s;
  auth := auth s; mesh := m; admin_path_pins := admin_path_pins s; agent_builds := agent_builds s;
  node_removal_success_count := node_removal_success_count s; node_removal_failure_count := node_removal_failure_count s |}.

Definition invalidate_overlay_node_snapshot (s : State) : State := {|
  store := store s; ledger := ledger s; cached_policy := cached_policy s; snapshot_cached := false; allocator := allocator s;
  auth := auth s; mesh := mesh s; admin_path_pins := admin_path_pins s; agent_builds := agent_builds s;
  node_removal_success_count := node_removal_success_count s; node_removal_failure_count := node_removal_failure_count s |}.

Definition forget_build (id : NodeId) (s : State) : State := {|
  store := store s; ledger := ledger s; cached_policy := cached_policy s; snapshot_cached := snapshot_cached s; allocator := allocator s;
  auth := auth s; mesh := mesh s; admin_path_pins := admin_path_pins s; agent_builds := bt_remove id (agent_builds s);
  node_removal_success_count := node_removal_success_count s; node_removal_failure_count := node_removal_failure_count s |}.

Definition forget_pins (id : NodeId) (s : State) : State := {|
  store := store s; ledger := ledger s; cached_policy := cached_policy s; snapshot_cached := snapshot_cached s; allocator := allocator s;
  auth := auth s; mesh := mesh s;
  admin_path_pins := bt_retain (fun k _ => negb (bool_decide (k.1 = id)) && negb (bool_decide (k.2 = id))) (admin_path_pins s);
  agent_builds := agent_builds s;
  node_removal_success_count := node_removal_success_count s; node_removal_failure_count := node_removal_failure_count s |}.

Definition record_node_removal (success : bool) (s : State) : State := {|
  store := store s; ledger := ledger s; cached_policy := cached_policy s; snapshot_cached := snapshot_cached s; allocator := allocator s;
  auth := auth s; mesh := mesh s; admin_path_pins := admin_path_pins s; agent_builds := agent_builds s;
  node_removal_success_count :=
    if success then as_width 64 (node_removal_success_count s + 1) else node_removal_success_count s;
  node_removal_failure_count :=
    if success then node_removal_failure_count s else as_width 64 (node_removal_failure_count s + 1) |}.

Definition reading {B} (f : State -> B) : prog State B := Atomic (fun s => (s, f s)) Ret.

Definition changing (f : State -> State) : prog State unit := Atomic (fun s => (f s, tt)) Ret.

Definition storing {B} (f : Store -> Store * B) : prog State B :=
  Atomic (fun s => let '(st, b) := f (store s) in (with_store s st, b)) Ret.

Context (config : ControlPlaneConfig).

(** ** The policy *)

(** The two checks of a policy, always together. *)
Definition check_policy (p : PathTypes.ClusterPolicy) : result unit error :=
  let? _ := validate_cluster_policy p in validate_overlay_route_scopes_against_vpn_pool p (vpn_pool config).

Definition cluster_policy : prog State (result PathTypes.ClusterPolicy error) :=
  let* p := reading cached_policy in Ret (let? _ := check_policy p in Ok p).

Definition cache_cluster_policy (p : PathTypes.ClusterPolicy) : prog State unit := changing (fun s => with_policy s p).

Definition current_cluster_policy_state : prog State (result (PathTypes.ClusterPolicy * option PathTypes.ClusterPolicy) error) :=
  let* persisted := reading (fun s => get_cluster_policy (store s) (config_cluster_id config)) in
  match persisted with
  | Some p =>
      try* _ := Ret (check_policy p) in
      let* _ := cache_cluster_policy p in
      Ret (Ok (p, Some p))
  | None =>
      try* cached := cluster_policy in
      try* p := storing (fun st => initialize_cluster_policy_if_absent st (config_cluster_id config) cached) in
      try* _ := Ret (check_policy p) in
      let* _ := cache_cluster_policy p in
      Ret (Ok (p, Some p))
  end.

Definition current_cluster_policy : prog State (result PathTypes.ClusterPolicy error) :=
  try* (p, _) := current_cluster_policy_state in Ret (Ok p).

(** The nodes whose routes make the catalog: those of the cluster that are not clients. *)
Definition list_catalog : prog State (list Overlay.NodeRecord) := reading (fun s => catalog (store s) (config_cluster_id config)).

Definition nodes_within (p : PathTypes.ClusterPolicy) (nodes : list Overlay.NodeRecord) : result unit error :=
  if bool_decide (PathTypes.overlay_route_scopes p = []) then Ok tt
  else each (fun n => map_err (fun _ => InvalidClusterPolicy (NodeOutsideScopes (Overlay.node_id n)))
                        (validate_routes_within_overlay_scopes (Overlay.routes n) p)) nodes.

Fixpoint set_policy_loop (attempts : nat) (p : PathTypes.ClusterPolicy) : prog State (result PathTypes.ClusterPolicy error) :=
  match attempts with
  | O => Ret (Err ClusterPolicyChanged)
  | S attempts =>
      let* nodes := list_catalog in
      try* _ := Ret (nodes_within p nodes) in
      try* expected := Ret (overlay_route_catalog_epoch nodes) in
      try* accepted := storing (fun st => upsert_cluster_policy_if_route_catalog_epoch st (config_cluster_id config) p expected) in
      if accepted : bool then let* _ := cache_cluster_policy p in Ret (Ok p) else set_policy_loop attempts p
  end.

Definition set_cluster_policy (p : PathTypes.ClusterPolicy) : prog State (result PathTypes.ClusterPolicy error) :=
  try* _ := Ret (check_policy p) in set_policy_loop 3 p.

(** ** Registration *)

(** The networks a node announces for itself. *)
Definition own_cidrs (owner : NodeId) (routes : list Overlay.Route) : list IpNet :=
  map (fun r => ipnet_trunc (Overlay.cidr r))
    (List.filter (fun r => bool_decide (Overlay.advertised_by r = owner)
                           && match Overlay.via r with Some via => bool_decide (via = owner) | None => true end) routes).

Definition overlay_route_catalog_update_validation (id : NodeId) (routes : list Overlay.Route) (p : PathTypes.ClusterPolicy)
  : prog State (result (option node_reason * option Z) error) :=
  match validate_routes_against_vpn_pool routes (vpn_pool config) with
  | Err reason => Ret (Ok (Some reason, None))
  | Ok _ =>
      if negb (bool_decide (PathTypes.overlay_route_scopes p = [])) || bool_decide (routes = []) then Ret (Ok (None, None))
      else
        let* nodes := list_catalog in
        try* expected := Ret (overlay_route_catalog_epoch nodes) in
        let others := List.filter (fun n => negb (bool_decide (Overlay.node_id n = id))) nodes in
        let cidrs := concat (map (fun n => own_cidrs (Overlay.node_id n) (Overlay.routes n)) others) ++ own_cidrs id routes in
        let count := lenZ (ipnet_aggregate cidrs) in
        if Overlay.MAX_OVERLAY_ROUTE_SCOPES <? count then Ret (Ok (Some (AggregateScopes count), Some expected))
        else Ret (Ok (None, Some expected))
  end.

(** An address for a node: at random for the first attempts of a sparse allocation, which
    [uuid] gives, and the next of the allocator otherwise. *)
Definition fresh_address (sparse : bool) (uuid : Z -> Z) (attempts : Z) : prog State (result IpAddr error) :=
  if sparse && (attempts <=? 64) then
    let size := 2 ^ (32 - ipv4net_prefix_len (vpn_pool config)) in
    if size <=? 2 then Ret (Err VpnPoolExhausted)
    else
      let host := 1 + as_width 64 (uuid attempts) mod (size - 2) in
      Ret (Ok (IpV4 (ipv4net_network (vpn_pool config) + as_width 32 host)))
  else
    let* reserved := reading (fun s => assigned_ipv4_vpn_ips (list_nodes (store s))) in
    Atomic (fun s => let '(a, r) := allocate_next (allocator s) reserved in (with_allocator s a, r)) Ret.

Definition node_record (c : JoinTokenClaims) (r : RegisterNodeRequest) (relay : option Overlay.RelayCapability) (ip : IpAddr) (registered_at : Z)
  : Overlay.NodeRecord := {|
  Overlay.node_id := reg_node_id r; Overlay.display_name := None; Overlay.hostname := None; Overlay.cluster_id := cluster_id c;
  Overlay.vpn_ip := ip; Overlay.identity_public_key := reg_identity_public_key r;
  Overlay.wireguard_public_key := reg_wireguard_public_key r; Overlay.role := role c; Overlay.tags := tags c;
  Overlay.endpoint_candidates := reg_candidates r; Overlay.relay_capability := relay; Overlay.token_policy := policy c;
  Overlay.routes := reg_requested_routes r; Overlay.registered_at := registered_at |}.

(** What a registration works on: the claims, the request, the relay capability the claims
    allow, the time, and how addresses are chosen. *)
Record Registration : Type := {
  r_claims : JoinTokenClaims;
  r_request : RegisterNodeRequest;
  r_relay : option Overlay.RelayCapability;
  r_at : Z;
  r_sparse : bool;
  r_uuid : Z -> Z
}.

(** The loop of [insert_node_with_fresh_vpn_ip]; a store that refuses an address in use makes
    it try another. *)
Fixpoint insert_loop (fuel : nat) (attempts : Z) (r : Registration) (expected_policy : option PathTypes.ClusterPolicy) (expected_epoch : option Z)
  : prog State (result Overlay.NodeRecord error) :=
  match fuel with
  | O => Stuck
  | S fuel =>
      let attempts := attempts + 1 in
      try* ip := fresh_address (r_sparse r) (r_uuid r) attempts in
      let node := node_record (r_claims r) (r_request r) (r_relay r) ip (r_at r) in
      let* inserted := storing (fun st => insert_node_if_cluster_policy st node expected_policy expected_epoch) in
      match inserted with
      | Ok _ => Ret (Ok node)
      | Err (VpnIpAlreadyAllocated _) => insert_loop fuel attempts r expected_policy expected_epoch
      | Err e => Ret (Err e)
      end
  end.

(** The in-memory store accepts every address: one attempt is enough. *)
Definition ATTEMPTS : nat := 1.

Definition insert_node_with_fresh_vpn_ip (r : Registration) (expected_policy : option PathTypes.ClusterPolicy) (expected_epoch : option Z)
  : prog State (result Overlay.NodeRecord error) := insert_loop ATTEMPTS 0 r expected_policy expected_epoch.

Definition rejoin_existing_node (r : Registration) (expected_policy : option PathTypes.ClusterPolicy) (expected_epoch : option Z)
  : prog State (result Overlay.NodeRecord error) :=
  let c := r_claims r in
  let request := r_request r in
  let* existing := reading (fun s => get_node (store s) (reg_node_id request)) in
  match existing with
  | None => Ret (Err (NodeNotFound (reg_node_id request)))
  | Some existing =>
      if negb (bool_decide (Overlay.cluster_id existing = cluster_id c))
         || negb (bool_decide (Overlay.identity_public_key existing = reg_identity_public_key request))
         || negb (bool_decide (Overlay.wireguard_public_key existing = reg_wireguard_public_key request))
         || negb (bool_decide (Overlay.role existing = role c))
         || negb (bool_decide (Overlay.tags existing = tags c))
      then Ret (Err (NodeAlreadyExists (reg_node_id request)))
      else storing (fun st => rejoin_node_if_cluster_policy st
             {| rejoin_cluster_id := cluster_id c; rejoin_expected_policy := expected_policy; rejoin_expected_epoch := expected_epoch;
                rejoin_expected_node := existing; rejoin_candidates := reg_candidates request; rejoin_relay := r_relay r;
                rejoin_routes := reg_requested_routes request |})
  end.

(** The conflicts after which a registration starts over. *)
Definition is_conflict (e : error) : bool :=
  match e with ClusterPolicyChanged | OverlayRouteCatalogChanged | NodeStateChanged _ => true | _ => false end.

Definition route_epoch (r : Registration) (p : PathTypes.ClusterPolicy) : prog State (result (option Z) error) :=
  let id := reg_node_id (r_request r) in
  if bool_decide (reg_requested_routes (r_request r) = []) then Ret (Ok None)
  else
    try* (violation, expected) := overlay_route_catalog_update_validation id (reg_requested_routes (r_request r)) p in
    match violation with
    | Some reason => Ret (Err (NodeRegistrationRejected id reason))
    | None => Ret (Ok expected)
    end.

Definition insert_or_rejoin (r : Registration) (persisted : option PathTypes.ClusterPolicy) (expected_epoch : option Z)
  : prog State (result Overlay.NodeRecord error) :=
  let* inserted := insert_node_with_fresh_vpn_ip r persisted expected_epoch in
  match inserted with
  | Err (NodeAlreadyExists _) => rejoin_existing_node r persisted expected_epoch
  | inserted => Ret inserted
  end.

Fixpoint register_loop (retries : nat) (last_conflict : option error) (r : Registration) : prog State (result Overlay.NodeRecord error) :=
  match retries with
  | O => Ret (Err (default OverlayRouteCatalogChanged last_conflict))
  | S retries =>
      try* (p, persisted) := current_cluster_policy_state in
      try* _ := Ret (map_err (NodeRegistrationRejected (reg_node_id (r_request r)))
                       (validate_routes_within_overlay_scopes (reg_requested_routes (r_request r)) p)) in
      try* expected_epoch := route_epoch r p in
      let* registration := insert_or_rejoin r persisted expected_epoch in
      match registration with
      | Ok n => Ret (Ok n)
      | Err e => if is_conflict e then register_loop retries (Some e) r else Ret (Err e)
      end
  end.

(** What [register_participant_record_with_claims] checks before it looks at the store. *)
Definition admissible (c : JoinTokenClaims) (request : RegisterNodeRequest) (now : Z) : result (option Overlay.RelayCapability) error :=
  if negb (Overlay.allow_join (policy c)) then Err JoinDenied
  else
    let? _ := validate_registration_request request now (heartbeat_signature_max_age config) in
    let? _ := each (fun route => if negb (route_allowed route c) then Err (RouteDenied (Overlay.route_id route)) else Ok tt)
                (reg_requested_routes request) in
    relay_capability_allowed (reg_node_id request) (reg_relay_capability request) c.

(** [now] is the time at the start, [uuid] the identifiers a sparse allocation draws. *)
Definition register_participant_record_with_claims (c : JoinTokenClaims) (request : RegisterNodeRequest) (sparse : bool) (now : Z) (uuid : Z -> Z)
  : prog State (result Overlay.NodeRecord error) :=
  try* relay := Ret (admissible c request now) in
  try* node := register_loop MAX_ROUTE_CATALOG_UPDATE_RETRIES None
    {| r_claims := c; r_request := request; r_relay := relay; r_at := now; r_sparse := sparse; r_uuid := uuid |} in
  let* _ := match reg_nat_classification request with
            | Some classification => changing (fun s => with_store s (upsert_nat_classification (store s) (Overlay.node_id node) classification))
            | None => Ret tt
            end in
  let* _ := changing invalidate_overlay_node_snapshot in
  Ret (Ok node).

(** Of the response, the node and the policy. The maps of peers and relays are read from the
    store; on the way the policy is taken, and cached, a second time. *)
Definition registration_response_for_node (node : Overlay.NodeRecord) : prog State (result (Overlay.NodeRecord * PathTypes.ClusterPolicy) error) :=
  try* p := current_cluster_policy in
  try* _ := current_cluster_policy in
  Ret (Ok (node, p)).

Definition register_participant_with_claims (c : JoinTokenClaims) (request : RegisterNodeRequest) (now : Z) (uuid : Z -> Z)
  : prog State (result (Overlay.NodeRecord * PathTypes.ClusterPolicy) error) :=
  try* node := register_participant_record_with_claims c request false now uuid in
  registration_response_for_node node.

Definition register_with_claims (c : JoinTokenClaims) (request : RegisterNodeRequest) (now : Z) (uuid : Z -> Z)
  : prog State (result (Overlay.NodeRecord * PathTypes.ClusterPolicy) error) :=
  if Overlay.role_is_client (role c) then Ret (Err JoinDenied) else register_participant_with_claims c request now uuid.

(** The request an HTTP-only participant makes carries nothing but its keys. *)
Definition http_request_allowed (c : JoinTokenClaims) (request : RegisterNodeRequest) : bool :=
  negb (Overlay.role_is_client (role c)) && bool_decide (reg_candidates request = [])
  && negb (bool_decide (is_Some (reg_nat_classification request))) && negb (bool_decide (is_Some (reg_relay_capability request)))
  && bool_decide (reg_requested_routes request = []).

Definition HTTP_ONLY_TAG : bytes := Eval vm_compute in bstr "heteronetwork-http-only".

(** [claims.tags.insert(tag)]: tags are a set in order. *)
Definition insert_tag (tag : bytes) (c : JoinTokenClaims) : JoinTokenClaims := {|
  cluster_id := cluster_id c; bootstrap_endpoints := bootstrap_endpoints c; expires_at := expires_at c; not_before := not_before c;
  role := role c; tags := bt_keys (bs_insert tag (bs_of_list (tags c))); issuer := issuer c; key_id := key_id c; policy := policy c;
  nonce := nonce c |}.

Definition register_http_node_with_claims (c : JoinTokenClaims) (request : RegisterNodeRequest) (now : Z) (uuid : Z -> Z)
  : prog State (result Overlay.NodeRecord error) :=
  if negb (http_request_allowed c request) then Ret (Err JoinDenied)
  else register_participant_record_with_claims (insert_tag HTTP_ONLY_TAG c) request true now uuid.

Definition register_client_with_claims (c : JoinTokenClaims) (client_id : NodeId) (identity wireguard : bytes) (now : Z) (uuid : Z -> Z)
  : prog State (result (Overlay.NodeRecord * PathTypes.ClusterPolicy) error) :=
  if negb (TokenLedger.client_claims_are_control_only c) then Ret (Err JoinDenied)
  else register_participant_with_claims c
         {| reg_node_id := client_id; reg_identity_public_key := identity; reg_wireguard_public_key := wireguard; reg_candidates := [];
            reg_nat_classification := None; reg_relay_capability := None; reg_requested_routes := [] |} now uuid.

(** ** The join service *)

Context (service : TokenLedger.JoinService).

Definition admit_join (c : JoinTokenClaims) (now : Z) : prog State (result TokenLedgerRecord error) :=
  Atomic (fun s => let '(l, r) := TokenLedger.admit_join (ledger s) c now in (with_ledger s l, r)) Ret.

(** [registered_at] is the time the registration reads after the token was spent. *)
Definition join (token : SignedJoinToken) (request : RegisterNodeRequest) (now registered_at : Z) (uuid : Z -> Z)
  : prog State (result (Overlay.NodeRecord * PathTypes.ClusterPolicy) error) :=
  try* _ := Ret (TokenLedger.validate_join_token service token now) in
  if Overlay.role_is_client (role (claims token)) then Ret (Err JoinDenied)
  else
    try* _ := admit_join (claims token) now in
    register_with_claims (claims token) request registered_at uuid.

Definition join_http_node (token : SignedJoinToken) (request : RegisterNodeRequest) (now registered_at : Z) (uuid : Z -> Z)
  : prog State (result Overlay.NodeRecord error) :=
  try* _ := Ret (TokenLedger.validate_join_token service token now) in
  if negb (http_request_allowed (claims token) request) then Ret (Err JoinDenied)
  else
    try* _ := admit_join (claims token) now in
    register_http_node_with_claims (claims token) request registered_at uuid.

(** ** Removal *)

Definition reset_allocator : prog State unit := changing (fun s => with_allocator s (allocator_new (vpn_pool config))).

Definition remove_verified_node (id : NodeId) (admin : bool) : prog State (result RemovedNode error) :=
  try* removed := storing (fun st => remove_node st id) in
  let* _ := changing (forget_build id) in
  let* _ := changing invalidate_overlay_node_snapshot in
  let* _ := changing (forget_pins id) in
  let* _ := reset_allocator in
  let* _ := changing (record_node_removal admin) in
  Ret (Ok removed).

Definition admin_remove_node (id : NodeId) : prog State (result RemovedNode error) := remove_verified_node id true.

(** The client proves its key in one step with the lookup of its record. *)
Definition remove_client (request : RequestAuth.ClientControlRequest) (now : Z) : prog State (result RemovedNode error) :=
  try* _ := Atomic (fun s => let '(a, r) := RequestAuth.authenticate_client_request (heartbeat_signature_max_age config) (nodes (store s)) (auth s)
                                             request RequestAuth.ClientRemove now in (with_auth s a, r)) Ret in
  try* removed := storing (fun st => remove_node st (RequestAuth.client_id request)) in
  let* _ := changing invalidate_overlay_node_snapshot in
  let* _ := reset_allocator in
  Ret (Ok removed).

Record RemoveNodeRequest : Type := { remove_node_id : NodeId; remove_signature : option Crypto.NodeRequestSignature }.

Definition validate_remove_node_request (r : RemoveNodeRequest) (n : Overlay.NodeRecord) (now : Z) : result unit error :=
  let id := remove_node_id r in
  match remove_signature r with
  | None => Err (NodeSignatureRequired id)
  | Some signature =>
      let? _ := map_err (fun e => NodeSignatureRejected id (SignatureCrypto e))
                  (Crypto.verify_signed_request (fun signed_at => (id, signed_at)) (remove_signature r) (Overlay.identity_public_key n)) in
      if negb (timestamp_within_skew (Crypto.signed_at signature) now (heartbeat_signature_max_age config))
      then Err (NodeSignatureRejected id (SignatureWindow (Crypto.signed_at signature)))
      else Ok tt
  end.

Definition remove_node_inner (r : RemoveNodeRequest) (now : Z) : prog State (result RemovedNode error) :=
  let id := remove_node_id r in
  let* found := reading (fun s => get_node (store s) id) in
  match found with
  | None => Ret (Err (NodeNotFound id))
  | Some n =>
      if Overlay.role_is_client (Overlay.role n) then Ret (Err (NodeUpdateRejected id UseClientApi))
      else
        try* _ := Ret (validate_remove_node_request r n now) in
        try* removed := storing (fun st => ControlStore.remove_node st id) in
        let* _ := changing (forget_build id) in
        let* _ := changing invalidate_overlay_node_snapshot in
        let* _ := reset_allocator in
        Ret (Ok removed)
  end.

Definition remove_node (r : RemoveNodeRequest) (now : Z) : prog State (result RemovedNode error) :=
  let* result := remove_node_inner r now in
  let* _ := changing (record_node_removal (is_ok result)) in
  Ret result.

(** ** Operations side by side *)

Inductive call : Type :=
  | Join (token : SignedJoinToken) (request : RegisterNodeRequest) (now registered_at : Z) (uuid : Z -> Z)
  | JoinHttp (token : SignedJoinToken) (request : RegisterNodeRequest) (now registered_at : Z) (uuid : Z -> Z)
  | RegisterClient (c : JoinTokenClaims) (client_id : NodeId) (identity wireguard : bytes) (now : Z) (uuid : Z -> Z)
  | SetPolicy (p : PathTypes.ClusterPolicy)
  | AdminRemove (id : NodeId)
  | RemoveOwn (r : RemoveNodeRequest) (now : Z)
  | RemoveClient (r : RequestAuth.ClientControlRequest) (now : Z).

Definition ignore {A} (p : prog State A) : prog State unit := let* _ := p in Ret tt.

Definition thread (c : call) : prog State unit :=
  match c with
  | Join token request now at_ uuid => ignore (join token request now at_ uuid)
  | JoinHttp token request now at_ uuid => ignore (join_http_node token request now at_ uuid)
  | RegisterClient c id identity wireguard now uuid => ignore (register_client_with_claims c id identity wireguard now uuid)
  | SetPolicy p => ignore (set_cluster_policy p)
  | AdminRemove id => ignore (admin_remove_node id)
  | RemoveOwn r now => ignore (remove_node r now)
  | RemoveClient r now => ignore (remove_client r now)
  end.

(** One after the other. *)
Fixpoint run_calls (s : State) (calls : list call) : option State :=
  match calls with
  | [] => Some s
  | c :: calls => match run_prog (thread c) s with Some (s, _) => run_calls s calls | None => None end
  end.

(** *** Programs whose steps keep an invariant *)

Section Safe.
Context (I Seen : State -> Prop).

(** Whatever state a step finds, as long as it is one of [Seen] that has the invariant, the
    step keeps the invariant, the program goes on, and it ends with [Q]. *)
Fixpoint safe {A} (p : prog State A) (Q : A -> Prop) : Prop :=
  match p with
  | Ret a => Q a
  | Stuck => False
  | Atomic act k => forall s, I s -> Seen s -> I (act s).1 /\ safe (k (act s).2) Q
  end.

Lemma steps_bind {A B} (p : prog State A) (f : A -> prog State B) R Q :
  safe p R -> (forall a, R a -> safe (f a) Q) -> safe (prog_bind p f) Q.
Proof.
  intros Hp Hf. induction p as [a| |B' act k IH]; cbn in *; [by apply Hf|done|].
  intros s Hi Hs. destruct (Hp s Hi Hs). split; [done|]. by apply IH.
Qed.

Lemma safe_try {A B} (p : prog State (result A error)) (f : A -> prog State (result B error)) (R : A -> Prop) Q :
  safe p (fun r => forall a, r = Ok a -> R a) -> (forall a, R a -> safe (f a) Q) -> (forall e, Q (Err e)) -> safe (prog_try p f) Q.
Proof. intros Hp Hf He. eapply steps_bind; [exact Hp|]. intros [a|e] Ha; [apply Hf; by apply Ha|apply He]. Qed.

(** A check that touches nothing. *)
Lemma safe_check {A B} (r : result A error) (f : A -> prog State (result B error)) Q :
  (forall a, r = Ok a -> safe (f a) Q) -> (forall e, Q (Err e)) -> safe (try* a := Ret r in f a) Q.
Proof. intros Hf He. unfold prog_try. cbn. destruct r; [by apply Hf|apply He]. Qed.

Lemma safe_mono {A} (p : prog State A) (R Q : A -> Prop) : safe p R -> (forall a, R a -> Q a) -> safe p Q.
Proof.
  intros Hp H. induction p as [a| |B' act k IH]; cbn in *; [by apply H|done|].
  intros s Hi Hs. destruct (Hp s Hi Hs). split; [done|]. by apply IH.
Qed.

Lemma safe_reading {A B} (f : State -> B) (k : B -> prog State A) Q :
  (forall s, I s -> Seen s -> safe (k (f s)) Q) -> safe (prog_bind (reading f) k) Q.
Proof. intros H s Hi Hs. cbn. split; [done|]. by apply H. Qed.

Lemma safe_changing {A} (f : State -> State) (k : unit -> prog State A) Q :
  (forall s, I s -> I (f s)) -> safe (k tt) Q -> safe (prog_bind (changing f) k) Q.
Proof. intros Hf Hk s Hi _. cbn. split; [by apply Hf|done]. Qed.

(** An interleaving keeps the invariant, lets no operation hang, and gives results as they are
    claimed of each operation. *)
Lemma safe_exec {A} schedule (Qs : list (A -> Prop)) : forall c : State * list (prog State A),
  Forall Seen (visited c schedule) -> I c.1 -> Forall2 safe c.2 Qs ->
  I (exec c schedule).1 /\ Forall2 safe (exec c schedule).2 Qs.
Proof.
  induction schedule as [|i schedule IH]; intros c Hv Hi Hp; [done|]. apply Forall_cons in Hv as [Hs Hv].
  assert (H : I (exec_step c i).1 /\ Forall2 safe (exec_step c i).2 Qs).
  { unfold exec_step. destruct (c.2 !! i) as [p|] eqn:Ep; [|done].
    destruct (Forall2_lookup_l _ _ _ _ _ Hp Ep) as (Q & Eq & H1). destruct p as [a| |B act k]; [done..|].
    destruct (H1 (c.1) Hi Hs) as [Hi' Hk]. destruct (act c.1) as [s b]. split; [done|].
    rewrite <- (list_insert_id _ _ _ Eq). by apply Forall2_insert. }
  destruct H as [Hi' Hp']. by apply (IH (exec_step c i)).
Qed.
End Safe.

(** *** Routes and the policy *)

(** What a node of the catalog announces: nothing inside the VPN pool, and nothing outside
    the scopes of the policy in force. *)
Definition routes_ok (st : Store) (routes : list Overlay.Route) : Prop :=
  outside_pool (vpn_pool config) routes /\
  exists p, get_cluster_policy st (config_cluster_id config) = Some p /\ within_scopes p routes.

Record store_ok (st : Store) : Prop := {
  so_wf : bt_wf (nodes st);
  so_policy : forall p, get_cluster_policy st (config_cluster_id config) = Some p -> check_policy p = Ok tt;
  so_routes : forall n, n ∈ catalog st (config_cluster_id config) -> routes_ok st (Overlay.routes n)
}.

Lemma elem_catalog (st : Store) cluster n : bt_wf (nodes st) -> n ∈ catalog st cluster <->
  (exists id, get_node st id = Some n) /\ Overlay.cluster_id n = cluster /\ Overlay.role_is_client (Overlay.role n) = false.
Proof.
  intros Hw. unfold catalog, get_node, bt_values. rewrite list_elem_of_In, filter_In, in_map_iff, andb_true_iff, bool_decide_eq_true, negb_true_iff.
  f_equiv. split.
  - intros ([id n'] & <- & Hin). exists id. apply bt_get_elem; [done|]. by apply list_elem_of_In.
  - intros (id & Hg). exists (id, n). split; [done|]. apply list_elem_of_In. by apply bt_get_elem.
Qed.

(** A change of nodes that leaves the policies alone. *)
Lemma store_ok_nodes st st' : store_ok st -> cluster_policies st' = cluster_policies st -> bt_wf (nodes st') ->
  (forall n, n ∈ catalog st' (config_cluster_id config) -> n ∈ catalog st (config_cluster_id config) \/ routes_ok st (Overlay.routes n)) ->
  store_ok st'.
Proof.
  intros [Hw Hp Hr] Ep Hw' Hn.
  assert (E : get_cluster_policy st' (config_cluster_id config) = get_cluster_policy st (config_cluster_id config))
    by (unfold get_cluster_policy; by rewrite Ep).
  constructor; [done|intros p; rewrite E; apply Hp|]. intros n Hin. unfold routes_ok. rewrite E. destruct (Hn n Hin); [by apply Hr|done].
Qed.

Lemma store_ok_same st st' : store_ok st -> nodes st' = nodes st -> cluster_policies st' = cluster_policies st -> store_ok st'.
Proof. intros [Hw Hp Hr] En Ep. eapply store_ok_nodes; [by constructor|done|by rewrite En|]. intros n. unfold catalog. rewrite En. by left. Qed.

Lemma store_ok_put st st' id n' : store_ok st -> nodes st' = bt_insert id n' (nodes st) -> cluster_policies st' = cluster_policies st ->
  (Overlay.cluster_id n' = config_cluster_id config -> routes_ok st (Overlay.routes n')) -> store_ok st'.
Proof.
  intros Hok En Ep Hr. pose proof (so_wf _ Hok) as Hw. eapply store_ok_nodes; [done|done|rewrite En; by apply bt_wf_insert|].
  intros n. rewrite elem_catalog by (rewrite En; by apply bt_wf_insert). intros ((k & Hg) & Hc & Hcl).
  unfold get_node in Hg. rewrite En in Hg. destruct (decide (id = k)) as [->|Hne].
  - rewrite bt_get_insert in Hg. injection Hg as ->. right. by apply Hr.
  - rewrite bt_get_insert_ne in Hg by congruence. left. rewrite elem_catalog by done. split; [by exists k|done].
Qed.

Lemma store_ok_policy st st1 p : store_ok st -> advance_in_memory_overlay_routing_epoch st (config_cluster_id config) = Ok st1 ->
  check_policy p = Ok tt -> (forall n, n ∈ catalog st (config_cluster_id config) -> within_scopes p (Overlay.routes n)) ->
  store_ok (set_policy st1 (config_cluster_id config) p).
Proof.
  intros [Hw Hp Hr] Ha Hc Hs. destruct (advance_fields _ _ _ Ha) as (En & _).
  assert (E : get_cluster_policy (set_policy st1 (config_cluster_id config) p) (config_cluster_id config) = Some p) by apply bt_get_insert.
  constructor; [cbn; by rewrite En|by intros p' [= <-]%(eq_trans (eq_sym E))|]. intros n. unfold catalog. cbn. rewrite En. intros Hin.
  split; [by apply (Hr n Hin)|]. exists p. split; [done|]. by apply Hs.
Qed.

Lemma initialize_ok st p : store_ok st -> check_policy p = Ok tt ->
  store_ok (initialize_cluster_policy_if_absent st (config_cluster_id config) p).1.
Proof.
  intros Hok Hc. unfold initialize_cluster_policy_if_absent. destruct (get_cluster_policy st _) eqn:E; [done|].
  destruct (advance_in_memory_overlay_routing_epoch _ _) eqn:Ha; [|done]. cbn [fst]. apply (store_ok_policy _ _ _ Hok Ha Hc).
  intros n Hin. destruct (so_routes _ Hok n Hin) as (_ & q & Hq & _). congruence.
Qed.

Lemma inserted_ok st n persisted epoch : store_ok st -> outside_pool (vpn_pool config) (Overlay.routes n) ->
  (exists p, persisted = Some p /\ within_scopes p (Overlay.routes n)) ->
  store_ok (insert_node_if_cluster_policy st n persisted epoch).1.
Proof.
  intros Hok Ho (p & -> & Hs). unfold insert_node_if_cluster_policy, insert_node. destruct (negb _) eqn:Ep; [done|].
  apply negb_false_iff, bool_decide_eq_true in Ep. destruct (catalog_unchanged _ _ _); [|done]. case_bool_decide; [done|].
  destruct (advance_in_memory_overlay_routing_epoch _ _) eqn:Ha; [|done]. destruct (advance_fields _ _ _ Ha) as (En & Epol & _). cbn [fst].
  eapply (store_ok_put st); [done|cbn; by rewrite En|done|]. intros E. split; [done|]. exists p. rewrite <- E. done.
Qed.

Lemma rejoin_ok st u : store_ok st -> outside_pool (vpn_pool config) (rejoin_routes u) ->
  (exists p, rejoin_expected_policy u = Some p /\ within_scopes p (rejoin_routes u)) -> store_ok (rejoin_node_if_cluster_policy st u).1.
Proof.
  intros Hok Ho (p & Hp & Hs). unfold rejoin_node_if_cluster_policy. rewrite Hp. destruct (negb _) eqn:Ep; [done|].
  apply negb_false_iff, bool_decide_eq_true in Ep. destruct (catalog_unchanged _ _ _); [|done].
  destruct (get_node st _) as [n|] eqn:Hg; [|done]. destruct (negb (bool_decide (Overlay.cluster_id n = _))) eqn:Ec; [done|].
  apply negb_false_iff, bool_decide_eq_true in Ec. destruct (negb _); [done|].
  match goal with |- context [match ?x with Ok st => _ | Err e => (?y, Err e) end] => destruct x as [st1|] eqn:Ha; [|done] end.
  assert (H1 : nodes st1 = nodes st /\ cluster_policies st1 = cluster_policies st).
  { destruct (bool_decide _); [by injection Ha as <-|]. by apply advance_fields in Ha as (? & ? & _). }
  destruct H1 as [En Epol]. cbn [fst]. eapply (store_ok_put st); [done|cbn; by rewrite En|done|].
  cbn. intros E. split; [done|]. exists p. rewrite <- E, Ec. done.
Qed.

Lemma remove_ok st id : store_ok st -> store_ok (ControlStore.remove_node st id).1.
Proof.
  intros Hok. unfold ControlStore.remove_node. destruct (get_node st id) eqn:Hg; [|done].
  destruct (advance_in_memory_overlay_routing_epoch _ _) eqn:Ha; [|done]. destruct (advance_fields _ _ _ Ha) as (En & Epol & _). cbn [fst].
  pose proof (so_wf _ Hok) as Hw.
  eapply store_ok_nodes; [done|done|cbn; rewrite En; by apply bt_wf_remove|]. intros n'. left.
  rewrite elem_catalog in * by (done || (cbn; rewrite En; by apply bt_wf_remove)).
  destruct H as ((k & Hk) & ?). split; [|done]. exists k. unfold get_node in *. cbn in Hk. rewrite En in Hk.
  destruct (decide (id = k)) as [->|]; [by rewrite bt_get_remove in Hk|]. by rewrite bt_get_remove_ne in Hk.
Qed.

Lemma nodes_within_ok p l : nodes_within p l = Ok tt -> Forall (fun n => within_scopes p (Overlay.routes n)) l.
Proof.
  unfold nodes_within. case_bool_decide as E.
  - intros _. apply Forall_forall. intros n _ H. by destruct H.
  - rewrite each_all. intros H. eapply Forall_impl; [exact H|]. intros n. by rewrite map_err_ok, within_scopes_ok.
Qed.

Section Routes.
Context (Seen : State -> Prop).

(** Two catalogs with one epoch list the same nodes: the digest distinguishes the catalogs
    that occur. *)
Definition no_collision : Prop := forall s s' epoch, Seen s -> Seen s' ->
  overlay_route_catalog_epoch (catalog (store s) (config_cluster_id config)) = Ok epoch ->
  overlay_route_catalog_epoch (catalog (store s') (config_cluster_id config)) = Ok epoch ->
  map node_material (catalog (store s) (config_cluster_id config)) = map node_material (catalog (store s') (config_cluster_id config)).

Context (Hcol : no_collision).

Local Abbreviation I := (fun s => store_ok (store s)).
Local Abbreviation ok p Q := (safe I Seen p Q).

Lemma policy_upsert_ok s s0 p epoch : store_ok (store s) -> Seen s -> Seen s0 -> check_policy p = Ok tt ->
  overlay_route_catalog_epoch (catalog (store s0) (config_cluster_id config)) = Ok epoch ->
  nodes_within p (catalog (store s0) (config_cluster_id config)) = Ok tt ->
  store_ok (upsert_cluster_policy_if_route_catalog_epoch (store s) (config_cluster_id config) p epoch).1.
Proof.
  intros Hok Hs Hs0 Hc He Hn. unfold upsert_cluster_policy_if_route_catalog_epoch.
  destruct (overlay_route_catalog_epoch (catalog (store s) _)) as [epoch'|] eqn:He'; [|done]. destruct (negb _) eqn:E; [done|].
  apply negb_false_iff, Z.eqb_eq in E as ->. case_bool_decide; [done|].
  destruct (advance_in_memory_overlay_routing_epoch _ _) eqn:Ha; [|done]. cbn [fst]. apply (store_ok_policy _ _ _ Hok Ha Hc).
  intros n Hin. apply nodes_within_ok in Hn. rewrite Forall_forall in Hn.
  assert (Hm : node_material n ∈ map node_material (catalog (store s0) (config_cluster_id config))).
  { rewrite (Hcol s0 s epoch Hs0 Hs He He'). apply list_elem_of_In, in_map, list_elem_of_In, Hin. }
  apply list_elem_of_In, in_map_iff in Hm as (n0 & Em & Hin0%list_elem_of_In). injection Em as _ _ _ _ _ Er. rewrite <- Er. by apply Hn.
Qed.

Lemma safe_current_policy : ok current_cluster_policy_state (fun r => forall x, r = Ok x -> x.2 = Some x.1).
Proof.
  apply safe_reading. intros s _ _. destruct (get_cluster_policy _ _) as [p|].
  - apply safe_check; [|done]. intros [] _. apply safe_changing; [done|]. by intros x [= <-].
  - eapply (safe_try _ _ _ _ (fun p => check_policy p = Ok tt)); [..|done].
    + apply safe_reading. intros s' _ _. cbn. intros p Hp. by apply bind_ok in Hp as ([] & Hc & [= <-]).
    + intros p Hc. eapply (safe_try _ _ _ _ (fun _ => True)); [..|done].
      * intros s' Hi _. cbn. destruct (initialize_cluster_policy_if_absent _ _ _) as [st r] eqn:E. split; [|done].
        pose proof (initialize_ok _ _ Hi Hc) as H. by rewrite E in H.
      * intros q _. apply safe_check; [|done]. intros [] _. apply safe_changing; [done|]. by intros x [= <-].
Qed.

Lemma safe_policy_again : ok current_cluster_policy (fun _ => True).
Proof.
  eapply (safe_try _ _ _ _ (fun _ => True)); [|by intros [? ?]|done]. eapply safe_mono; [apply safe_current_policy|done].
Qed.

Lemma safe_set_policy p : ok (set_cluster_policy p) (fun _ => True).
Proof.
  apply safe_check; [|done]. intros [] Hc. generalize 3%nat as attempts. induction attempts as [|attempts IH]; [done|].
  cbn [set_policy_loop]. apply safe_reading. intros s0 _ Hs0. apply safe_check; [|done]. intros [] Hn. apply safe_check; [|done].
  intros epoch He. eapply (safe_try _ _ _ _ (fun _ => True)); [..|done].
  - intros s Hi Hs. cbn. destruct (upsert_cluster_policy_if_route_catalog_epoch _ _ _ _) as [st r] eqn:E. split; [|done].
    pose proof (policy_upsert_ok s s0 p epoch Hi Hs Hs0 Hc He Hn) as H. by rewrite E in H.
  - intros [] _; [|done]. by apply safe_changing.
Qed.

Lemma safe_update_validation id routes p :
  ok (overlay_route_catalog_update_validation id routes p)
    (fun r => forall x, r = Ok x -> x.1 = None -> outside_pool (vpn_pool config) routes).
Proof.
  unfold overlay_route_catalog_update_validation. destruct (validate_routes_against_vpn_pool _ _) as [[]|] eqn:Ev.
  - apply outside_pool_ok in Ev. destruct (_ || _)%bool; [by intros x [= <-]|]. apply safe_reading. intros s _ _.
    apply safe_check; [|done]. intros e _. destruct (_ <? _); by intros x [= <-].
  - by intros x [= <-].
Qed.

Lemma safe_route_epoch r p : ok (route_epoch r p)
  (fun x => forall e, x = Ok e -> outside_pool (vpn_pool config) (reg_requested_routes (r_request r))).
Proof.
  unfold route_epoch. case_bool_decide as E; [intros e _; rewrite E; apply outside_pool_nil|].
  eapply (safe_try _ _ _ _ (fun x => x.1 = None -> outside_pool (vpn_pool config) (reg_requested_routes (r_request r)))); [..|done].
  - eapply safe_mono; [apply safe_update_validation|]. done.
  - intros [[violation|] expected] H; [done|]. intros e _. by apply H.
Qed.

(** The record goes into a store whose policy covers its routes. *)
Definition covered (r : Registration) (persisted : option PathTypes.ClusterPolicy) : Prop :=
  outside_pool (vpn_pool config) (reg_requested_routes (r_request r)) /\
  exists p, persisted = Some p /\ within_scopes p (reg_requested_routes (r_request r)).

Lemma advance_error (st : Store) cluster e : advance_in_memory_overlay_routing_epoch st cluster = Err e ->
  e = ControlTypes.Store (RoutingEpochExhausted cluster).
Proof. unfold advance_in_memory_overlay_routing_epoch. destruct (checked_add _ _ _); [done|]. by intros [= <-]. Qed.

Lemma catalog_error (st : Store) cluster expected e : catalog_unchanged st cluster expected = Err e ->
  e = OverlayRouteCatalogChanged \/ e = ControlTypes.Store CatalogEncoding.
Proof.
  unfold catalog_unchanged, overlay_route_catalog_epoch. destruct expected; [|done]. destruct (to_vec _); cbn; [|intros [= <-]; by right].
  destruct (negb _); [|done]. intros [= <-]. by left.
Qed.

(** The in-memory store never refuses an address. *)
Lemma insert_accepts_address (st : Store) n p e ip : (insert_node_if_cluster_policy st n p e).2 <> Err (VpnIpAlreadyAllocated ip).
Proof.
  unfold insert_node_if_cluster_policy. destruct (negb _); [done|]. destruct (catalog_unchanged _ _ _) eqn:E.
  - unfold insert_node. case_bool_decide; [done|]. destruct (advance_in_memory_overlay_routing_epoch _ _) eqn:Ha; [done|].
    by apply advance_error in Ha as ->.
  - apply catalog_error in E. cbn. intros [= ->]. by destruct E.
Qed.

Lemma safe_fresh_address sparse uuid attempts : ok (fresh_address sparse uuid attempts) (fun _ => True).
Proof.
  unfold fresh_address. destruct (_ && _)%bool; [by destruct (_ <=? _)|]. apply safe_reading. intros s' _ _ s Hi _.
  cbn. by destruct (allocate_next _ _).
Qed.

Lemma safe_insert r persisted epoch : covered r persisted -> ok (insert_node_with_fresh_vpn_ip r persisted epoch) (fun _ => True).
Proof.
  intros (Ho & Hp). eapply (safe_try _ _ _ _ (fun _ => True)); [|intros ip _|done]; [eapply safe_mono; [apply safe_fresh_address|done]|].
  intros s Hi _. cbn. set (n := node_record _ _ _ _ _). destruct (insert_node_if_cluster_policy (store s) n persisted epoch) as [st x] eqn:E.
  cbn. split; [pose proof (inserted_ok (store s) n persisted epoch Hi Ho Hp) as H; by rewrite E in H|].
  destruct x as [|e]; [done|]. destruct e; try done. pose proof (insert_accepts_address (store s) n persisted epoch ip0) as H. by rewrite E in H.
Qed.

Lemma safe_rejoin r persisted epoch : covered r persisted -> ok (rejoin_existing_node r persisted epoch) (fun _ => True).
Proof.
  intros (Ho & Hp). apply safe_reading. intros s' _ _. destruct (get_node _ _) as [n|]; [|done]. destruct (_ || _)%bool; [done|].
  intros s Hi _. cbn. match goal with |- context [rejoin_node_if_cluster_policy _ ?u] => pose proof (rejoin_ok (store s) u Hi Ho Hp) as H end.
  by destruct (rejoin_node_if_cluster_policy _ _).
Qed.

Lemma safe_insert_or_rejoin r persisted epoch : covered r persisted -> ok (insert_or_rejoin r persisted epoch) (fun _ => True).
Proof.
  intros Hc. eapply steps_bind; [by apply safe_insert|]. intros [n|e] _; [done|]. destruct e; try done. by apply safe_rejoin.
Qed.

Lemma safe_register_loop r retries : forall last, ok (register_loop retries last r) (fun _ => True).
Proof.
  induction retries as [|retries IH]; intros last; [done|]. cbn [register_loop].
  eapply (safe_try _ _ _ _ (fun x => x.2 = Some x.1)); [apply safe_current_policy|intros [p persisted] Hp|done].
  apply safe_check; [intros [] Hs|done]. apply map_err_ok, within_scopes_ok in Hs.
  eapply (safe_try _ _ _ _ (fun _ => outside_pool (vpn_pool config) (reg_requested_routes (r_request r)))); [apply safe_route_epoch|intros epoch Ho|done].
  cbn in Hp. subst persisted. eapply steps_bind; [apply safe_insert_or_rejoin; by split; [|exists p]|].
  intros [n|e] _; [done|]. destruct (is_conflict e); [apply IH|done].
Qed.

Lemma safe_register c request sparse now uuid : ok (register_participant_record_with_claims c request sparse now uuid) (fun _ => True).
Proof.
  apply safe_check; [intros relay _|done].
  eapply (safe_try _ _ _ _ (fun _ => True)); [eapply safe_mono; [apply safe_register_loop|done]|intros n _|done].
  eapply (steps_bind _ _ _ _ (fun _ => True)).
  - destruct (reg_nat_classification request); [|done]. intros s Hi _. cbn. split; [|done]. by eapply store_ok_same.
  - intros [] _. apply safe_changing; [by intros|done].
Qed.

Lemma safe_participant c request now uuid : ok (register_participant_with_claims c request now uuid) (fun _ => True).
Proof.
  eapply (safe_try _ _ _ _ (fun _ => True)); [eapply safe_mono; [apply safe_register|done]|intros n _|done].
  eapply (safe_try _ _ _ _ (fun _ => True)); [eapply safe_mono; [apply safe_policy_again|done]|intros p _|done].
  eapply (safe_try _ _ _ _ (fun _ => True)); [eapply safe_mono; [apply safe_policy_again|done]|by intros _ _|done].
Qed.

Lemma safe_admit c now : ok (admit_join c now) (fun _ => True).
Proof. intros s Hi _. cbn. by destruct (TokenLedger.admit_join _ _ _). Qed.

Lemma safe_join token request now at_ uuid : ok (join token request now at_ uuid) (fun _ => True).
Proof.
  apply safe_check; [intros [] _|done]. unfold register_with_claims. destruct (Overlay.role_is_client _); [done|].
  eapply (safe_try _ _ _ _ (fun _ => True)); [eapply safe_mono; [apply safe_admit|done]|intros _ _; apply safe_participant|done].
Qed.

Lemma safe_join_http token request now at_ uuid : ok (join_http_node token request now at_ uuid) (fun _ => True).
Proof.
  apply safe_check; [intros [] _|done]. unfold register_http_node_with_claims. destruct (negb _); [done|].
  eapply (safe_try _ _ _ _ (fun _ => True)); [eapply safe_mono; [apply safe_admit|done]|intros _ _; apply safe_register|done].
Qed.

(** The removal of a node and the updates that follow it. *)
Lemma safe_removal {B} id (k : RemovedNode -> prog State (result B error)) : (forall x, ok (k x) (fun _ => True)) ->
  ok (try* x := storing (fun st => ControlStore.remove_node st id) in k x) (fun _ => True).
Proof.
  intros Hk. eapply (safe_try _ _ _ _ (fun _ => True)); [|intros x _; apply Hk|done].
  intros s Hi _. cbn. pose proof (remove_ok _ id Hi) as H. by destruct (ControlStore.remove_node _ _).
Qed.

Lemma safe_remove_own r now : ok (remove_node r now) (fun _ => True).
Proof.
  eapply (steps_bind _ _ _ _ (fun _ => True)); [|intros x _; by apply safe_changing].
  apply safe_reading. intros s _ _. destruct (get_node _ _); [|done]. destruct (Overlay.role_is_client _); [done|].
  apply safe_check; [intros [] _|done]. apply safe_removal. intros x. by do 3 (apply safe_changing; [done|]).
Qed.

Lemma safe_remove_client r now : ok (remove_client r now) (fun _ => True).
Proof.
  eapply (safe_try _ _ _ _ (fun _ => True)); [|intros _ _|done].
  - intros s Hi _. cbn. by destruct (RequestAuth.authenticate_client_request _ _ _ _ _ _).
  - apply safe_removal. intros x. by do 2 (apply safe_changing; [done|]).
Qed.

Lemma safe_thread c : ok (thread c) (fun _ => True).
Proof.
  destruct c; eapply (steps_bind _ _ _ _ (fun _ => True)); try done; [apply safe_join|apply safe_join_http| |apply safe_set_policy| |
    apply safe_remove_own|apply safe_remove_client].
  - unfold register_client_with_claims. destruct (negb _); [done|apply safe_participant].
  - apply safe_removal. intros x. by do 5 (apply safe_changing; [done|]).
Qed.
End Routes.

(** *** Addresses *)

Definition addresses (st : Store) : list Z := assigned_ipv4_vpn_ips (list_nodes st).

Context {Laws : Ipv4NetLaws V4}.

Lemma allocate_loop_spec fuel : forall network broadcast offset reserved next r, 0 <= network -> 0 <= offset -> broadcast < 2 ^ 32 ->
  broadcast - network - offset <= Z.of_nat fuel -> allocate_loop fuel network broadcast offset reserved = (next, r) ->
  match r with
  | Ok ip => exists a, ip = IpV4 a /\ a ∉ reserved /\ network + offset <= a < broadcast /\ next = a + 1 - network /\
      forall b, network + offset <= b < a -> b ∈ reserved
  | Err e => e = VpnPoolExhausted /\ offset <= next /\ broadcast <= network + next /\ forall b, network + offset <= b < broadcast -> b ∈ reserved
  end.
Proof.
  induction fuel as [|fuel IH]; intros network broadcast offset reserved next r Hn Ho Hb Hf; cbn [allocate_loop];
    assert (Es : (saturating_add 32 network offset <? broadcast) = (network + offset <? broadcast))
      by (unfold saturating_add; destruct (Z.ltb_spec (network + offset) broadcast); [apply Z.ltb_lt|apply Z.ltb_ge]; lia); rewrite Es.
  - destruct (Z.ltb_spec (network + offset) broadcast); [lia|]. intros [= <- <-]. split_and!; try (done || lia); intros b ?; lia.
  - destruct (Z.ltb_spec (network + offset) broadcast).
    + case_bool_decide as Hin.
      * intros H'. apply IH in H'; [|lia..]. destruct r as [ip|e].
        -- destruct H' as (a & -> & Hr & Hrange & -> & Hall). exists a. split_and!; try (done || lia). intros b Hbr.
           destruct (decide (b = network + offset)) as [->|]; [done|]. apply Hall. lia.
        -- destruct H' as (-> & ? & ? & Hall). split_and!; try (done || lia). intros b Hbr.
           destruct (decide (b = network + offset)) as [->|]; [done|]. apply Hall. lia.
      * intros [= <- <-]. exists (network + offset). split_and!; try (done || lia); intros b ?; lia.
    + intros [= <- <-]. split_and!; try (done || lia); intros b ?; lia.
Qed.

(** [allocate_next] gives the first free address from its offset on, and fails only when all
    of them are taken. *)
Lemma allocate_next_spec a reserved a' r : 0 <= next_host_offset a -> allocate_next a reserved = (a', r) ->
  let network := ipv4net_network (pool a) in let broadcast := ipv4net_broadcast (pool a) in
  pool a' = pool a /\
  match r with
  | Ok ip => exists x, ip = IpV4 x /\ x ∉ reserved /\ network + next_host_offset a <= x < broadcast /\ next_host_offset a' = x + 1 - network /\
      forall b, network + next_host_offset a <= b < x -> b ∈ reserved
  | Err e => e = VpnPoolExhausted /\ next_host_offset a <= next_host_offset a' /\ broadcast <= network + next_host_offset a' /\
      forall b, network + next_host_offset a <= b < broadcast -> b ∈ reserved
  end.
Proof.
  intros Ho. unfold allocate_next. destruct (allocate_loop _ _ _ _ _) as [next r'] eqn:E. intros [= <- <-]. split; [done|].
  apply allocate_loop_spec in E; [done|apply ipv4net_network_nonneg|done|apply ipv4net_broadcast_range|lia].
Qed.

(** The addresses of registered nodes are usable hosts of the pool, each of one node. *)
Record addresses_ok (s : State) : Prop := {
  ao_wf : bt_wf (nodes (store s));
  ao_pool : forall id n, get_node (store s) id = Some n ->
    exists a, Overlay.vpn_ip n = IpV4 a /\ vpn_pool_contains_usable_host (vpn_pool config) a = true;
  ao_distinct : forall id id' n n', get_node (store s) id = Some n -> get_node (store s) id' = Some n' ->
    Overlay.vpn_ip n = Overlay.vpn_ip n' -> id = id';
  ao_allocator : pool (allocator s) = vpn_pool config /\ 1 <= next_host_offset (allocator s)
}.

Lemma elem_addresses (st : Store) a : bt_wf (nodes st) -> a ∈ addresses st <-> exists id n, get_node st id = Some n /\ Overlay.vpn_ip n = IpV4 a.
Proof.
  intros Hw. unfold addresses, assigned_ipv4_vpn_ips, list_nodes, bt_values, get_node. rewrite list_elem_of_omap. split.
  - intros (n & Hin & Ha). apply list_elem_of_In, in_map_iff in Hin as ([id n'] & <- & Hin%list_elem_of_In). exists id, n'.
    split; [by apply bt_get_elem|]. cbn in Ha. destruct (Overlay.vpn_ip n'); congruence.
  - intros (id & n & Hg & Ha). exists n. rewrite Ha. split; [|done]. apply list_elem_of_In, in_map_iff. exists (id, n).
    split; [done|]. by apply list_elem_of_In, bt_get_elem.
Qed.

Lemma addresses_ok_insert s s' n a : addresses_ok s -> Overlay.vpn_ip n = IpV4 a -> a ∉ addresses (store s) ->
  vpn_pool_contains_usable_host (vpn_pool config) a = true ->
  nodes (store s') = bt_insert (Overlay.node_id n) n (nodes (store s)) -> allocator s' = allocator s -> addresses_ok s'.
Proof.
  intros [Hw Hp Hd Hal] Hv Ha Hu En Ea.
  assert (H : forall k m, get_node (store s') k = Some m -> k = Overlay.node_id n /\ m = n \/ get_node (store s) k = Some m).
  { intros k m. unfold get_node. rewrite En. destruct (decide (Overlay.node_id n = k)) as [->|].
    - rewrite bt_get_insert. intros [= <-]. by left.
    - rewrite bt_get_insert_ne by congruence. by right. }
  rewrite elem_addresses in Ha by done.
  constructor; [rewrite En; by apply bt_wf_insert| | |by rewrite Ea].
  - intros k m [[-> ->]|Hg]%H; [by exists a|by eapply Hp].
  - intros k k' m m' [[-> ->]|Hg]%H [[-> ->]|Hg']%H Heq; [done|exfalso..|by eapply Hd]; apply Ha; [exists k', m'|exists k, m]; split; congruence.
Qed.

(** An operation that runs alone. *)
Definition alone {A} (I : State -> Prop) (p : prog State A) (Q : A -> Prop) : Prop :=
  forall s, I s -> exists s' a, run_prog p s = Some (s', a) /\ I s' /\ Q a.

Lemma run_bind {A B} (p : prog State A) (f : A -> prog State B) : forall s,
  run_prog (prog_bind p f) s = match run_prog p s with Some (s', a) => run_prog (f a) s' | None => None end.
Proof. induction p as [a| |B' act k IH]; intros s; cbn; [done|done|]. destruct (act s). apply IH. Qed.

Lemma alone_safe {A} I (p : prog State A) Q : safe I (fun _ => True) p Q -> alone I p Q.
Proof.
  induction p as [a| |B' act k IH]; cbn; intros Hp s Hi; [by exists s, a|done|]. destruct (Hp s Hi) as [Hi' Hk]; [done|].
  cbn. destruct (act s) as [s' b]. by apply (IH b).
Qed.

Lemma alone_bind {A B} I (p : prog State A) (f : A -> prog State B) R Q :
  alone I p R -> (forall a, R a -> alone I (f a) Q) -> alone I (prog_bind p f) Q.
Proof. intros Hp Hf s Hi. destruct (Hp s Hi) as (s' & a & E & Hi' & Ha). rewrite run_bind, E. by apply Hf. Qed.

Lemma alone_try {A B} I (p : prog State (result A error)) (f : A -> prog State (result B error)) (R : A -> Prop) Q :
  alone I p (fun r => forall a, r = Ok a -> R a) -> (forall a, R a -> alone I (f a) Q) -> (forall e, Q (Err e)) -> alone I (prog_try p f) Q.
Proof.
  intros Hp Hf He. eapply alone_bind; [exact Hp|]. intros [a|e] Ha; [apply Hf; by apply Ha|]. apply alone_safe. apply He.
Qed.

Lemma alone_check {A B} I (r : result A error) (f : A -> prog State (result B error)) Q :
  (forall a, alone I (f a) Q) -> (forall e, Q (Err e)) -> alone I (try* a := Ret r in f a) Q.
Proof. intros Hf He. unfold prog_try. cbn. destruct r; [apply Hf|]. apply alone_safe. apply He. Qed.

Local Abbreviation keeps p := (safe addresses_ok (fun _ => True) p (fun _ => True)).

Lemma initialize_nodes (st : Store) cluster p : nodes (initialize_cluster_policy_if_absent st cluster p).1 = nodes st.
Proof.
  unfold initialize_cluster_policy_if_absent. destruct (get_cluster_policy _ _); [done|].
  destruct (advance_in_memory_overlay_routing_epoch _ _) eqn:Ha; [|done]. apply advance_fields in Ha as (En & _). exact En.
Qed.

Lemma upsert_policy_nodes (st : Store) cluster p e : nodes (upsert_cluster_policy_if_route_catalog_epoch st cluster p e).1 = nodes st.
Proof.
  unfold upsert_cluster_policy_if_route_catalog_epoch. destruct (overlay_route_catalog_epoch _); [|done]. destruct (negb _); [done|].
  case_bool_decide; [done|]. destruct (advance_in_memory_overlay_routing_epoch _ _) eqn:Ha; [|done]. apply advance_fields in Ha as (En & _). exact En.
Qed.

(** A step that neither allocates nor changes the address of a node. *)
Definition same_addresses (s s' : State) : Prop := allocator s' = allocator s /\
  (bt_wf (nodes (store s)) -> bt_wf (nodes (store s'))) /\
  forall id, Overlay.vpn_ip <$> get_node (store s') id = Overlay.vpn_ip <$> get_node (store s) id.

Fixpoint quiet {A} (p : prog State A) : Prop :=
  match p with
  | Ret _ => True
  | Stuck => False
  | Atomic act k => (forall s, same_addresses s (act s).1) /\ forall b, quiet (k b)
  end.

Lemma quiet_bind {A B} (p : prog State A) (f : A -> prog State B) : quiet p -> (forall a, quiet (f a)) -> quiet (prog_bind p f).
Proof. induction p as [a| |B' act k IH]; cbn; [auto|done|]. intros [Hs Hk] Hf. split; [done|]. intros b. by apply IH. Qed.

Lemma quiet_try {A B} (p : prog State (result A error)) (f : A -> prog State (result B error)) :
  quiet p -> (forall a, quiet (f a)) -> quiet (prog_try p f).
Proof. intros Hp Hf. apply quiet_bind; [done|]. by intros [a|e]. Qed.

Lemma same_nodes s s' : nodes (store s') = nodes (store s) -> allocator s' = allocator s -> same_addresses s s'.
Proof. intros En Ea. split; [done|]. unfold get_node. by rewrite En. Qed.

Lemma quiet_reading {A B} (f : State -> B) (k : B -> prog State A) : (forall b, quiet (k b)) -> quiet (prog_bind (reading f) k).
Proof. intros Hk. split; [|done]. intros s. by apply same_nodes. Qed.

Lemma quiet_storing {A B} (f : Store -> Store * B) (k : B -> prog State A) :
  (forall st, nodes (f st).1 = nodes st) -> (forall b, quiet (k b)) -> quiet (prog_bind (storing f) k).
Proof.
  intros Hf Hk. split; [|done]. intros s. cbn. pose proof (Hf (store s)) as H. destruct (f (store s)) as [st b]. by apply same_nodes.
Qed.

Lemma quiet_changing {A} (f : State -> State) (k : unit -> prog State A) :
  (forall s, nodes (store (f s)) = nodes (store s) /\ allocator (f s) = allocator s) -> quiet (k tt) -> quiet (prog_bind (changing f) k).
Proof. intros Hf Hk. split; [|by intros []]. intros s. destruct (Hf s). by apply same_nodes. Qed.

Lemma addresses_ok_quiet s s' : addresses_ok s -> same_addresses s s' -> addresses_ok s'.
Proof.
  intros [Hw Hp Hd Ha] (Ea & Hw' & Hv). assert (H : forall id n, get_node (store s') id = Some n ->
    exists n0, get_node (store s) id = Some n0 /\ Overlay.vpn_ip n = Overlay.vpn_ip n0).
  { intros id n Hg. pose proof (Hv id) as H. rewrite Hg in H. destruct (get_node (store s) id) as [n0|]; [|done].
    exists n0. split; [done|]. by injection H. }
  constructor; [by apply Hw'| | |by rewrite Ea].
  - intros id n (n0 & H0 & ->)%H. by eapply Hp.
  - intros id id' n n' (n0 & H0 & ->)%H (n0' & H0' & ->)%H. by eapply Hd.
Qed.

Lemma keeps_quiet {A} (p : prog State A) : quiet p -> keeps p.
Proof.
  induction p as [a| |B act k IH]; [done|done|]. intros [Hs Hk] s Hi _. split; [by eapply addresses_ok_quiet|]. by apply IH.
Qed.

Lemma quiet_current_policy : quiet current_cluster_policy_state.
Proof.
  apply quiet_reading. intros [p|].
  - apply quiet_try; [done|]. intros []. by apply quiet_changing.
  - apply quiet_reading. intros p. destruct (check_policy p); [|done]. apply quiet_storing; [intros; apply initialize_nodes|].
    intros [x|]; [|done]. apply quiet_try; [done|]. intros []. by apply quiet_changing.
Qed.

Lemma quiet_policy_again : quiet current_cluster_policy.
Proof. apply quiet_try; [apply quiet_current_policy|]. by intros [? ?]. Qed.

Lemma quiet_set_policy p : quiet (set_cluster_policy p).
Proof.
  apply quiet_try; [done|]. intros []. generalize 3%nat as attempts. induction attempts as [|attempts IH]; [done|].
  cbn [set_policy_loop]. apply quiet_reading. intros nodes. apply quiet_try; [done|]. intros []. apply quiet_try; [done|]. intros epoch.
  apply quiet_storing; [intros; apply upsert_policy_nodes|]. intros [[]|]; [by apply quiet_changing|done|done].
Qed.

Lemma quiet_route_epoch r p : quiet (route_epoch r p).
Proof.
  unfold route_epoch. case_bool_decide; [done|]. apply quiet_try; [|by intros [[] ?]].
  unfold overlay_route_catalog_update_validation. destruct (validate_routes_against_vpn_pool _ _); [|done].
  destruct (_ || _)%bool; [done|]. apply quiet_reading. intros nodes. apply quiet_try; [done|]. intros e. by destruct (_ <? _).
Qed.

Lemma keeps_changing {A} (f : State -> State) (k : unit -> prog State A) :
  (forall s, nodes (store (f s)) = nodes (store s) /\ allocator (f s) = allocator s) -> keeps (k tt) -> keeps (prog_bind (changing f) k).
Proof. intros Hf Hk. apply safe_changing; [|done]. intros s Hi. destruct (Hf s). by eapply addresses_ok_quiet, same_nodes. Qed.

(** Rejoining replaces a record by one with the same address. *)
Lemma rejoin_nodes (st : Store) u st' x : rejoin_node_if_cluster_policy st u = (st', x) ->
  match x with
  | Err _ => st' = st
  | Ok n' => exists n, get_node st (Overlay.node_id (rejoin_expected_node u)) = Some n /\ n = rejoin_expected_node u /\
      Overlay.cluster_id n = rejoin_cluster_id u /\
      n' = set_routes (set_relay (set_candidates n (rejoin_candidates u)) (rejoin_relay u)) (rejoin_routes u) /\
      nodes st' = bt_insert (Overlay.node_id (rejoin_expected_node u)) n' (nodes st) /\
      cluster_policies st' = cluster_policies st
  end.
Proof.
  unfold rejoin_node_if_cluster_policy. destruct (negb _); [by intros [= <- <-]|]. destruct (catalog_unchanged _ _ _); [|by intros [= <- <-]].
  destruct (get_node st _) as [m|] eqn:Hg; [|by intros [= <- <-]]. destruct (negb (bool_decide (_ = rejoin_cluster_id u))) eqn:Ec; [by intros [= <- <-]|].
  apply negb_false_iff, bool_decide_eq_true in Ec. destruct (negb _) eqn:Em; [by intros [= <- <-]|].
  apply negb_false_iff, bool_decide_eq_true in Em.
  match goal with |- context [match ?x with Ok st => _ | Err e => (?y, Err e) end] => destruct x as [st1|] eqn:Ha; [|by intros [= <- <-]] end.
  assert (En : nodes st1 = nodes st /\ cluster_policies st1 = cluster_policies st).
  { destruct (bool_decide _); [by injection Ha as <-|]. by apply advance_fields in Ha as (-> & -> & _). }
  destruct En as [En Ep]. intros [= <- <-]. exists m. cbn. rewrite En, Ep. done.
Qed.

Lemma quiet_rejoin r persisted epoch : quiet (rejoin_existing_node r persisted epoch).
Proof.
  apply quiet_reading. intros [n|]; [|done]. destruct (_ || _)%bool; [done|]. split; [|done]. intros s. cbn.
  destruct (rejoin_node_if_cluster_policy _ _) as [st x] eqn:E. apply rejoin_nodes in E. destruct x as [n'|e]; [|subst; by apply same_nodes].
  destruct E as (m & Hg & _ & _ & -> & En & _). cbn in Hg, En. split; [done|]. cbn. rewrite En. split; [apply bt_wf_insert|]. intros id.
  unfold get_node in *. cbn. rewrite En. destruct (decide (Overlay.node_id n = id)) as [<-|].
  - by rewrite bt_get_insert, Hg.
  - by rewrite bt_get_insert_ne by congruence.
Qed.

Lemma insert_nodes (st : Store) n persisted epoch st' x : insert_node_if_cluster_policy st n persisted epoch = (st', x) ->
  match x with
  | Err _ => st' = st
  | Ok _ => get_node st (Overlay.node_id n) = None /\ nodes st' = bt_insert (Overlay.node_id n) n (nodes st) /\
      cluster_policies st' = cluster_policies st
  end.
Proof.
  unfold insert_node_if_cluster_policy, insert_node. destruct (negb _); [by intros [= <- <-]|]. destruct (catalog_unchanged _ _ _); [|by intros [= <- <-]].
  case_bool_decide as Hs; [by intros [= <- <-]|]. destruct (advance_in_memory_overlay_routing_epoch _ _) as [st1|] eqn:Ha; [|by intros [= <- <-]].
  intros [= <- <-]. apply advance_fields in Ha as (En & Ep & _). cbn. rewrite En, Ep. split; [by apply eq_None_not_Some|done].
Qed.

(** Alone, an address of the allocator is still free when the record goes in. *)
Lemma alone_insert r persisted epoch : r_sparse r = false -> alone addresses_ok (insert_node_with_fresh_vpn_ip r persisted epoch) (fun _ => True).
Proof.
  intros Hsp s Hi. unfold insert_node_with_fresh_vpn_ip, ATTEMPTS. cbn [insert_loop]. unfold fresh_address. rewrite Hsp. cbn.
  destruct (allocate_next _ _) as [a x] eqn:E. pose proof (ao_allocator _ Hi) as [Hpool Hoff]. apply allocate_next_spec in E; [|lia].
  rewrite Hpool in E. destruct E as [Ep E].
  assert (Hi' : addresses_ok (with_allocator s a)).
  { destruct Hi as [Hw Hp Hd _]. constructor; [done..|]. cbn. rewrite Ep. split; [done|]. destruct x as [ip|e].
    - destruct E as (y & _ & _ & ? & -> & _). lia.
    - destruct E as (_ & ? & _). lia. }
  cbn. destruct x as [ip|e]; cbn; [|by exists (with_allocator s a), (Err e)].
  destruct E as (y & -> & Hfree & Hrange & _). set (n := node_record _ _ _ _ _).
  destruct (insert_node_if_cluster_policy (store s) n persisted epoch) as [st x] eqn:Eins. cbn.
  pose proof (insert_accepts_address (store s) n persisted epoch) as Hacc. rewrite Eins in Hacc. apply insert_nodes in Eins.
  destruct x as [[]|e].
  - eexists _, _. split; [done|]. split; [|done]. destruct Eins as (_ & En & _).
    eapply (addresses_ok_insert (with_allocator s a) _ n y); [done|done|done| |done|done].
    unfold vpn_pool_contains_usable_host. apply andb_true_iff. rewrite !Z.ltb_lt. lia.
  - subst st. assert (Hi2 : addresses_ok (with_store (with_allocator s a) (store s))) by by eapply addresses_ok_quiet, same_nodes.
    destruct e; try by eexists _, _. by destruct (Hacc ip).
Qed.

Local Abbreviation alone_keeps p := (alone addresses_ok p (fun _ => True)).

Lemma alone_register_loop r retries : r_sparse r = false -> forall last, alone_keeps (register_loop retries last r).
Proof.
  intros Hsp. induction retries as [|retries IH]; intros last; [by apply alone_safe|]. cbn [register_loop].
  eapply (alone_try _ _ _ (fun _ => True)); [apply alone_safe; eapply safe_mono; [apply keeps_quiet, quiet_current_policy|done]|intros [p persisted] _|done].
  apply alone_check; [intros []|done].
  eapply (alone_try _ _ _ (fun _ => True)); [apply alone_safe; eapply safe_mono; [apply keeps_quiet, quiet_route_epoch|done]|intros epoch _|done].
  eapply (alone_bind _ _ _ (fun _ => True)).
  - eapply alone_bind; [by apply alone_insert|]. intros [n|e] _; [by apply alone_safe|]. apply alone_safe. destruct e; try done. apply keeps_quiet, quiet_rejoin.
  - intros [n|e] _; [by apply alone_safe|]. destruct (is_conflict e); [apply IH|by apply alone_safe].
Qed.

Lemma alone_register c request now uuid : alone_keeps (register_participant_record_with_claims c request false now uuid).
Proof.
  apply alone_check; [intros relay|done].
  eapply (alone_try _ _ _ (fun _ => True)); [|intros n _; apply alone_safe|done].
  - intros s Hi. destruct (alone_register_loop {| r_claims := c; r_request := request; r_relay := relay; r_at := now; r_sparse := false; r_uuid := uuid |}
      MAX_ROUTE_CATALOG_UPDATE_RETRIES eq_refl None s Hi) as (s' & a & E & Hi' & _). by exists s', a.
  - eapply (steps_bind _ _ _ _ (fun _ => True)); [|intros [] _; by apply keeps_changing].
    destruct (reg_nat_classification request); [|done]. intros s Hi _. split; [by eapply addresses_ok_quiet, same_nodes|done].
Qed.

Lemma alone_participant c request now uuid : alone_keeps (register_participant_with_claims c request now uuid).
Proof.
  eapply (alone_try _ _ _ (fun _ => True)); [|intros n _; apply alone_safe|done].
  - intros s Hi. destruct (alone_register c request now uuid s Hi) as (s' & a & E & Hi' & _). by exists s', a.
  - eapply (safe_try _ _ _ _ (fun _ => True)); [eapply safe_mono; [apply keeps_quiet, quiet_policy_again|done]|intros p _|done].
    eapply (safe_try _ _ _ _ (fun _ => True)); [eapply safe_mono; [apply keeps_quiet, quiet_policy_again|done]|by intros _ _|done].
Qed.

Lemma keeps_reset : forall s, addresses_ok s -> addresses_ok (with_allocator s (allocator_new (vpn_pool config))).
Proof. intros s []. constructor; [done..|]. cbn. split; [done|lia]. Qed.

Lemma keeps_removal {B} id (k : RemovedNode -> prog State (result B error)) : (forall x, keeps (k x)) ->
  keeps (try* x := storing (fun st => ControlStore.remove_node st id) in k x).
Proof.
  intros Hk. eapply (safe_try _ _ _ _ (fun _ => True)); [|intros x _; apply Hk|done]. intros s Hi _. cbn. unfold ControlStore.remove_node.
  destruct (get_node _ id) eqn:Hg; [|split; [by eapply addresses_ok_quiet, same_nodes|done]].
  destruct (advance_in_memory_overlay_routing_epoch _ _) as [st1|] eqn:Ha; [|split; [by eapply addresses_ok_quiet, same_nodes|done]]. cbn. split; [|done].
  apply advance_fields in Ha as (En & _). destruct Hi as [Hw Hp Hd Hal].
  assert (H : forall k m, bt_get k (bt_remove id (nodes (store s))) = Some m -> get_node (store s) k = Some m).
  { intros k' m. destruct (decide (id = k')) as [->|]; [by rewrite bt_get_remove|by rewrite bt_get_remove_ne]. }
  constructor; unfold get_node; cbn; rewrite ?En; [by apply bt_wf_remove| | |done].
  - intros k' m Hk'%H. by eapply Hp.
  - intros k1 k2 m1 m2 H1%H H2%H. by eapply Hd.
Qed.

Definition dense (c : call) : Prop := match c with JoinHttp _ _ _ _ _ => False | _ => True end.

Lemma alone_thread c : dense c -> alone_keeps (thread c).
Proof.
  intros Hd. destruct c as [token request now at_ uuid|token request now at_ uuid|c id identity wireguard now uuid|p|id|r now|r now]; [|done|..];
    (eapply (alone_bind _ _ _ (fun _ => True)); [|intros; by apply alone_safe]).
  - apply alone_check; [intros []|done]. unfold register_with_claims. destruct (Overlay.role_is_client _); [by apply alone_safe|].
    eapply (alone_try _ _ _ (fun _ => True)); [apply alone_safe|intros _ _; apply alone_participant|done].
    intros s Hi _. cbn. destruct (TokenLedger.admit_join _ _ _). split; [by eapply addresses_ok_quiet, same_nodes|done].
  - unfold register_client_with_claims. destruct (negb _); [by apply alone_safe|apply alone_participant].
  - apply alone_safe, keeps_quiet, quiet_set_policy.
  - apply alone_safe, keeps_removal. intros x. do 3 (apply keeps_changing; [done|]). apply safe_changing; [apply keeps_reset|].
    by apply keeps_changing.
  - apply alone_safe. eapply (steps_bind _ _ _ _ (fun _ => True)); [|intros x _; by apply keeps_changing].
    apply safe_reading. intros s _ _. destruct (get_node _ _); [|done]. destruct (Overlay.role_is_client _); [done|].
    apply safe_check; [intros [] _|done]. apply keeps_removal. intros x. do 2 (apply keeps_changing; [done|]). apply safe_changing; [apply keeps_reset|done].
  - apply alone_safe. eapply (safe_try _ _ _ _ (fun _ => True)); [|intros _ _|done].
    + intros s Hi _. cbn. destruct (RequestAuth.authenticate_client_request _ _ _ _ _ _). split; [by eapply addresses_ok_quiet, same_nodes|done].
    + apply keeps_removal. intros x. apply keeps_changing; [done|]. apply safe_changing; [apply keeps_reset|done].
Qed.

Lemma initial_addresses : addresses_ok (initial config).
Proof. constructor; [apply bt_wf_nil|done..|]. cbn. split; [done|lia]. Qed.

Lemma run_addresses calls : Forall dense calls -> forall s, addresses_ok s -> exists s', run_calls s calls = Some s' /\ addresses_ok s'.
Proof.
  induction 1 as [|c calls Hc _ IH]; intros s Hi; [by exists s|]. cbn [run_calls].
  destruct (alone_thread c Hc s Hi) as (s1 & a & -> & Hi1 & _). by apply IH.
Qed.

(** *** What a join leaves behind *)

(** Partial correctness of an operation that runs alone. *)
Definition ends {A} (P : State -> Prop) (p : prog State A) (Q : A -> State -> Prop) : Prop :=
  forall s s' a, P s -> run_prog p s = Some (s', a) -> Q a s'.

Lemma ends_ret {A} (P : State -> Prop) (a : A) (Q : A -> State -> Prop) : (forall s, P s -> Q a s) -> ends P (Ret a) Q.
Proof. intros H s s' a' Hp [= <- <-]. by apply H. Qed.

Lemma ends_bind {A B} P (p : prog State A) (f : A -> prog State B) R Q :
  ends P p R -> (forall a, ends (R a) (f a) Q) -> ends P (prog_bind p f) Q.
Proof.
  intros Hp Hf s s' b Hs. rewrite run_bind. destruct (run_prog p s) as [[s1 a]|] eqn:E; [|done]. intros Hb.
  eapply Hf; [|exact Hb]. by eapply Hp.
Qed.

(** When only what a success leaves behind matters. *)
Lemma ends_try {A B} P (p : prog State (result A error)) (f : A -> prog State (result B error)) (R : A -> State -> Prop) (Q : B -> State -> Prop) :
  ends P p (fun r s => forall a, r = Ok a -> R a s) -> (forall a, ends (R a) (f a) (fun r s => forall b, r = Ok b -> Q b s)) ->
  ends P (prog_try p f) (fun r s => forall b, r = Ok b -> Q b s).
Proof.
  intros Hp Hf. eapply ends_bind; [exact Hp|]. intros [a|e] s s' r Hr Hrun; [by eapply Hf; [apply Hr|]|].
  injection Hrun as <- <-. by intros b.
Qed.

Lemma ends_weaken {A} (P P' : State -> Prop) (p : prog State A) (Q Q' : A -> State -> Prop) :
  ends P p Q -> (forall s, P' s -> P s) -> (forall a s, Q a s -> Q' a s) -> ends P' p Q'.
Proof. intros H HP HQ s s' a Hs Hr. eapply HQ, H; [by apply HP|done]. Qed.

Lemma ends_check {A B} (P : State -> Prop) (r : result A error) (f : A -> prog State (result B error)) (Q : B -> State -> Prop) :
  (forall a, r = Ok a -> ends P (f a) (fun r s => forall b, r = Ok b -> Q b s)) ->
  ends P (try* a := Ret r in f a) (fun r s => forall b, r = Ok b -> Q b s).
Proof. intros Hf. unfold prog_try. cbn. destruct r; [by apply Hf|]. by apply ends_ret. Qed.

(** Same nodes and same ledger. *)
Definition at_ (m : btree NodeId Overlay.NodeRecord) (l : TokenLedger.InMemoryTokenLedger) (s : State) : Prop :=
  nodes (store s) = m /\ ledger s = l.

Definition in_force (p : PathTypes.ClusterPolicy) (s : State) : Prop := get_cluster_policy (store s) (config_cluster_id config) = Some p.

Lemma ends_current_policy m l : ends (at_ m l) current_cluster_policy_state
  (fun r s => forall x, r = Ok x -> at_ m l s /\ x.2 = Some x.1 /\ in_force x.1 s).
Proof.
  intros s s' r [Hm Hl]. unfold current_cluster_policy_state. cbn. destruct (get_cluster_policy _ _) as [p|] eqn:Ep.
  - unfold prog_try. cbn. destruct (check_policy p); cbn; intros [= <- <-]; [|done]. by intros x [= <-].
  - unfold prog_try. cbn. destruct (check_policy _); cbn; [|by intros [= <- <-]]. unfold initialize_cluster_policy_if_absent. rewrite Ep.
    destruct (advance_in_memory_overlay_routing_epoch _ _) as [st|] eqn:Ha; cbn; [|by intros [= <- <-]].
    destruct (check_policy _); cbn; intros [= <- <-]; [|done]. intros x [= <-]. apply advance_fields in Ha as (En & _).
    split; [by split; cbn; rewrite ?En|]. split; [done|]. unfold in_force, get_cluster_policy. cbn. by rewrite bt_get_insert.
Qed.

(** Taking the policy again gives the one in force. *)
Lemma ends_policy_again m l p : ends (fun s => at_ m l s /\ in_force p s) current_cluster_policy
  (fun r s => forall x, r = Ok x -> (at_ m l s /\ in_force p s) /\ x = p).
Proof.
  intros s s' r [[Hm Hl] Hp]. unfold current_cluster_policy, current_cluster_policy_state, prog_try. cbn. unfold in_force in Hp. rewrite Hp. cbn.
  destruct (check_policy p); cbn; intros [= <- <-]; [|done]. by intros x [= <-].
Qed.

(** [route_epoch] only reads. *)
Lemma ends_route_epoch r p (P : State -> Prop) : ends P (route_epoch r p)
  (fun x s => forall e, x = Ok e -> P s /\ outside_pool (vpn_pool config) (reg_requested_routes (r_request r))).
Proof.
  intros s s' x Hs. unfold route_epoch. case_bool_decide as E.
  { intros [= <- <-]. intros e _. split; [done|]. rewrite E. apply outside_pool_nil. }
  unfold overlay_route_catalog_update_validation. destruct (validate_routes_against_vpn_pool _ _) as [[]|] eqn:Ev; [|by intros [= <- <-]].
  apply outside_pool_ok in Ev. unfold prog_try. destruct (_ || _)%bool; cbn; [by intros [= <- <-]|].
  destruct (overlay_route_catalog_epoch _); cbn; [|by intros [= <- <-]]. by destruct (_ <? _); cbn; intros [= <- <-].
Qed.

(** *** Addresses handed out side by side *)

(** Addresses are handed out in order: [given] are those below the allocator's position. *)
Definition given (s : State) (a : Z) : Prop :=
  vpn_pool_contains_usable_host (vpn_pool config) a = true /\ a < ipv4net_network (vpn_pool config) + next_host_offset (allocator s).

(** [owned] are the addresses that operations in progress have taken and not yet stored. *)
Record handed (s : State) (owned : list Z) : Prop := {
  h_wf : bt_wf (nodes (store s));
  h_allocator : pool (allocator s) = vpn_pool config /\ 1 <= next_host_offset (allocator s);
  h_given : forall id n, get_node (store s) id = Some n -> exists a, Overlay.vpn_ip n = IpV4 a /\ given s a /\ a ∉ owned;
  h_distinct : forall id id' n n', get_node (store s) id = Some n -> get_node (store s) id' = Some n' ->
    Overlay.vpn_ip n = Overlay.vpn_ip n' -> id = id';
  h_owned : NoDup owned /\ Forall (given s) owned
}.

(** An operation that has taken [own] goes on without using what the [others] have taken. *)
Fixpoint owning {A} (own : list Z) (p : prog State A) (Q : list Z -> A -> Prop) : Prop :=
  match p with
  | Ret a => Q own a
  | Stuck => False
  | Atomic act k => forall s others, handed s (own ++ others) ->
      exists own', handed (act s).1 (own' ++ others) /\ owning own' (k (act s).2) Q
  end.

Lemma owning_bind {A B} (p : prog State A) (f : A -> prog State B) R Q : forall own,
  owning own p R -> (forall own a, R own a -> owning own (f a) Q) -> owning own (prog_bind p f) Q.
Proof.
  induction p as [a| |B' act k IH]; intros own Hp Hf; cbn in *; [by apply Hf|done|]. intros s others Hh.
  destruct (Hp s others Hh) as (own' & Hh' & Hk). exists own'. split; [done|]. by apply IH.
Qed.

Lemma handed_quiet s s' owned : handed s owned -> same_addresses s s' -> handed s' owned.
Proof.
  intros [Hw Ha Hg Hd [Hn Ho]] (Ea & Hw' & Hv).
  assert (H : forall id n, get_node (store s') id = Some n -> exists n0, get_node (store s) id = Some n0 /\ Overlay.vpn_ip n = Overlay.vpn_ip n0).
  { intros id n Hget. pose proof (Hv id) as H. rewrite Hget in H. destruct (get_node (store s) id) as [n0|]; [|done].
    exists n0. split; [done|]. by injection H. }
  constructor; [by apply Hw'|by rewrite Ea| | |unfold given; by rewrite Ea].
  - intros id n (n0 & H0 & ->)%H. unfold given. rewrite Ea. by eapply Hg.
  - intros id id' n n' (n0 & H0 & ->)%H (n0' & H0' & ->)%H. by eapply Hd.
Qed.

Lemma owning_quiet {A} (p : prog State A) : quiet p -> forall own, owning own p (fun _ _ => True).
Proof.
  induction p as [a| |B act k IH]; [done|done|]. intros [Hs Hk] own s others Hh. exists own. split; [by eapply handed_quiet|]. by apply IH.
Qed.

Lemma handed_drop s own others : handed s (own ++ others) -> handed s others.
Proof.
  intros [Hw Ha Hg Hd [Hn Ho]]. apply NoDup_app in Hn as (_ & _ & Hn). apply Forall_app in Ho as [_ Ho].
  constructor; try done. intros id n (a & ? & ? & Hnot)%Hg. exists a. split_and!; try done. intros Hin. apply Hnot, elem_of_app. by right.
Qed.

(** An address from the allocator belongs to the operation that took it. *)
Lemma owning_fresh uuid attempts own : owning own (fresh_address false uuid attempts)
  (fun own x => forall ip, x = Ok ip -> exists a, ip = IpV4 a /\ own = [a]).
Proof.
  intros s others Hh%handed_drop. exists []. split; [done|]. cbn. intros s1 others1 Hh1. cbn.
  match goal with |- context [allocate_next _ ?l] => generalize l end. intros reserved. clear s others Hh.
  revert s1 others1 Hh1. intros s others Hh.
  destruct (allocate_next _ _) as [al x] eqn:E. destruct Hh as [Hw [Hpool Hoff] Hg Hd [Hn Ho]]. apply allocate_next_spec in E; [|lia].
  rewrite Hpool in E. destruct E as [Ep E].
  assert (Hmono : next_host_offset (allocator s) <= next_host_offset al).
  { destruct x; [destruct E as (y & _ & _ & ? & -> & _)|destruct E as (_ & ? & _)]; lia. }
  assert (Hgiven : forall a, given s a -> given (with_allocator s al) a) by (intros a [? ?]; split; [done|]; cbn; lia).
  assert (Hother : Forall (given (with_allocator s al)) others) by (eapply Forall_impl; [exact Ho|done]).
  destruct x as [ip|e].
  - destruct E as (a & -> & _ & Hrange & Hnext & _). exists [a]. split; [|intros ip [= <-]; by exists a].
    assert (Hnot : forall b, given s b -> b <> a) by (intros b [_ ?]; lia).
    assert (Ha : given (with_allocator s al) a).
    { split; [unfold vpn_pool_contains_usable_host; apply andb_true_iff; rewrite !Z.ltb_lt; lia|cbn; lia]. }
    constructor; [done|cbn; rewrite Ep; split; [done|lia]| |done|].
    + intros id n (b & ? & Hb & Hni)%Hg. exists b. split_and!; [done|by apply Hgiven|].
      intros [->|?]%elem_of_cons; [by destruct (Hnot a)|done].
    + split; [|by constructor]. constructor; [|done]. intros Hin. rewrite Forall_forall in Ho. by destruct (Hnot a (Ho a Hin)).
  - exists []. split; [|done]. constructor; [done|cbn; rewrite Ep; split; [done|lia]| |done|done].
    intros id n (b & ? & Hb & Hni)%Hg. exists b. split_and!; [done|by apply Hgiven|done].
Qed.

Lemma handed_insert s s' n a others : handed s (a :: others) -> Overlay.vpn_ip n = IpV4 a ->
  nodes (store s') = bt_insert (Overlay.node_id n) n (nodes (store s)) -> allocator s' = allocator s -> handed s' others.
Proof.
  intros [Hw Hal Hg Hd [Hn Ho]] Hv En Ea. apply NoDup_cons in Hn as [Hna Hn]. apply Forall_cons in Ho as [Ha Ho].
  assert (H : forall k m, get_node (store s') k = Some m -> k = Overlay.node_id n /\ m = n \/ get_node (store s) k = Some m).
  { intros k m. unfold get_node. rewrite En. destruct (decide (Overlay.node_id n = k)) as [->|].
    - rewrite bt_get_insert. intros [= <-]. by left.
    - rewrite bt_get_insert_ne by congruence. by right. }
  assert (Hnew : forall k m, get_node (store s) k = Some m -> Overlay.vpn_ip m <> Overlay.vpn_ip n).
  { intros k m (b & -> & _ & Hb)%Hg. rewrite Hv. intros [= ->]. apply Hb, elem_of_cons. by left. }
  constructor; [rewrite En; by apply bt_wf_insert|by rewrite Ea| | |unfold given; by rewrite Ea].
  - intros k m [[-> ->]|(b & ? & ? & Hb)%Hg]%H; unfold given; rewrite Ea; [by exists a|]. exists b. split; [done|]. split; [done|].
    intros Hin. apply Hb, elem_of_cons. by right.
  - intros k k' m m' [[-> ->]|H1]%H [[-> ->]|H2]%H Heq; [done| | |by eapply Hd].
    + by destruct (Hnew _ _ H2).
    + by destruct (Hnew _ _ H1).
Qed.

Lemma owning_insert r persisted epoch own : r_sparse r = false ->
  owning own (insert_node_with_fresh_vpn_ip r persisted epoch) (fun _ _ => True).
Proof.
  intros Hsp. unfold insert_node_with_fresh_vpn_ip, ATTEMPTS. cbn [insert_loop]. rewrite Hsp.
  eapply owning_bind; [apply owning_fresh|]. intros own' [ip|e] Hown; [|done]. destruct (Hown ip eq_refl) as (a & -> & ->).
  intros s others Hh. cbn. set (n := node_record _ _ _ _ _).
  destruct (insert_node_if_cluster_policy (store s) n persisted epoch) as [st x] eqn:E. exists [].
  pose proof (insert_accepts_address (store s) n persisted epoch) as Hacc. rewrite E in Hacc. apply insert_nodes in E. cbn.
  destruct x as [[]|e].
  - split; [|done]. destruct E as (_ & En & _). by eapply (handed_insert s _ n a).
  - subst st. split; [|destruct e; try done; by destruct (Hacc ip)]. eapply handed_quiet; [by apply (handed_drop s [a])|by apply same_nodes].
Qed.

Lemma owning_try {A B} (p : prog State (result A error)) (f : A -> prog State (result B error)) own :
  owning own p (fun _ _ => True) -> (forall own a, owning own (f a) (fun _ _ => True)) -> owning own (prog_try p f) (fun _ _ => True).
Proof. intros Hp Hf. eapply owning_bind; [exact Hp|]. intros own' [a|e] _; [apply Hf|done]. Qed.

Lemma owning_register_loop r retries : r_sparse r = false -> forall last own, owning own (register_loop retries last r) (fun _ _ => True).
Proof.
  intros Hsp. induction retries as [|retries IH]; intros last own; [done|]. cbn [register_loop].
  apply owning_try; [apply owning_quiet, quiet_current_policy|]. intros own1 [p persisted]. apply owning_try; [done|]. intros own2 [].
  apply owning_try; [apply owning_quiet, quiet_route_epoch|]. intros own3 epoch. eapply (owning_bind _ _ (fun _ _ => True)).
  - eapply (owning_bind _ _ (fun _ _ => True)); [by apply owning_insert|]. intros own4 [n|e] _; [done|]. destruct e; try done.
    apply owning_quiet, quiet_rejoin.
  - intros own4 [n|e] _; [done|]. destruct (is_conflict e); [apply IH|done].
Qed.

Lemma owning_participant c request now uuid own : owning own (register_participant_with_claims c request now uuid) (fun _ _ => True).
Proof.
  apply owning_try; [|intros own1 n; apply owning_quiet].
  - apply owning_try; [done|]. intros own1 relay. apply owning_try; [by apply owning_register_loop|]. intros own2 n. apply owning_quiet.
    apply quiet_bind; [|intros []; by apply quiet_changing]. destruct (reg_nat_classification request); [|done].
    split; [|done]. intros s. by apply same_nodes.
  - apply quiet_try; [apply quiet_policy_again|]. intros p. apply quiet_try; [apply quiet_policy_again|done].
Qed.

(** The operations that neither remove a node nor choose addresses at random. *)
Definition growing (c : call) : Prop := match c with Join _ _ _ _ _ | RegisterClient _ _ _ _ _ _ | SetPolicy _ => True | _ => False end.

Lemma owning_thread c own : growing c -> owning own (thread c) (fun _ _ => True).
Proof.
  intros Hg. destruct c as [token request now t uuid| |c id identity wireguard now uuid|p| | |]; try done;
    (eapply (owning_bind _ _ (fun _ _ => True)); [|done]).
  - apply owning_try; [done|]. intros own1 []. unfold register_with_claims. destruct (Overlay.role_is_client _); [done|].
    apply owning_try; [|intros own2 x; apply owning_participant]. apply owning_quiet. split; [|done]. intros s. cbn.
    destruct (TokenLedger.admit_join _ _ _). by apply same_nodes.
  - unfold register_client_with_claims. destruct (negb _); [done|]. apply owning_participant.
  - apply owning_quiet, quiet_set_policy.
Qed.

Lemma handed_perm s l l' : Permutation l l' -> handed s l -> handed s l'.
Proof.
  intros Hp [Hw Ha Hg Hd [Hn Ho]]. constructor; try done.
  - intros id n (a & ? & ? & Hni)%Hg. exists a. split_and!; try done. by rewrite <- Hp.
  - by rewrite <- Hp.
Qed.

(** Interleaving: each operation keeps to the addresses it has taken. *)
Lemma owning_exec schedule : forall (c : State * list (prog State unit)) owns, handed c.1 (concat owns) ->
  Forall2 (fun own p => owning own p (fun _ _ => True)) owns c.2 -> exists owned, handed (exec c schedule).1 owned.
Proof.
  induction schedule as [|i schedule IH]; intros [s ps] owns Hh Hf; [by exists (concat owns)|]. cbn [exec foldl].
  unfold exec_step at 2. cbn [fst snd] in *. destruct (ps !! i) as [p|] eqn:Ep; [|by eapply (IH (s, ps))].
  destruct p as [a| |B act k]; [by eapply (IH (s, ps))..|].
  destruct (Forall2_lookup_r _ _ _ _ _ Hf Ep) as (own & Eo & Hown). pose proof (take_drop_middle _ _ _ Eo) as Esplit.
  set (rest := concat (take i owns) ++ concat (drop (S i) owns)).
  assert (Hperm : forall o, Permutation (o ++ rest) (concat (take i owns ++ o :: drop (S i) owns))).
  { intros o. rewrite concat_app. cbn. unfold rest. by rewrite !(assoc_L (++)), (comm (++) o). }
  destruct (Hown s rest) as (own' & Hh' & Hk); [apply (handed_perm s (concat owns)); [|done]; by rewrite Hperm, Esplit|].
  destruct (act s) as [s' b]. cbn in *. eapply (IH (s', <[i:=k b]> ps) (<[i:=own']> owns)).
  - cbn. rewrite insert_take_drop by by eapply lookup_lt_Some. by eapply handed_perm; [apply Hperm|].
  - by apply Forall2_insert.
Qed.

(** Every record is stored under its node. *)
Definition keyed (m : btree NodeId Overlay.NodeRecord) : Prop := forall id n, bt_get id m = Some n -> Overlay.node_id n = id.

(** The record a registration leaves for its node among [m]: what the request and the claims
    say; a node that was there keeps its address, its names, its policy and its time. *)
Record registered (r : Registration) (m : btree NodeId Overlay.NodeRecord) (n : Overlay.NodeRecord) : Prop := {
  rg_id : Overlay.node_id n = reg_node_id (r_request r);
  rg_identity : Overlay.identity_public_key n = reg_identity_public_key (r_request r);
  rg_wireguard : Overlay.wireguard_public_key n = reg_wireguard_public_key (r_request r);
  rg_cluster : Overlay.cluster_id n = cluster_id (r_claims r);
  rg_role : Overlay.role n = role (r_claims r);
  rg_tags : Overlay.tags n = tags (r_claims r);
  rg_candidates : Overlay.endpoint_candidates n = reg_candidates (r_request r);
  rg_relay : Overlay.relay_capability n = r_relay r;
  rg_routes : Overlay.routes n = reg_requested_routes (r_request r);
  rg_before : match bt_get (reg_node_id (r_request r)) m with
    | Some n0 => Overlay.vpn_ip n = Overlay.vpn_ip n0 /\ Overlay.token_policy n = Overlay.token_policy n0 /\
        Overlay.display_name n = Overlay.display_name n0 /\ Overlay.hostname n = Overlay.hostname n0 /\
        Overlay.registered_at n = Overlay.registered_at n0
    | None => Overlay.token_policy n = policy (r_claims r) /\ Overlay.display_name n = None /\ Overlay.hostname n = None /\
        Overlay.registered_at n = r_at r
    end
}.

Section Join.
Context (m : btree NodeId Overlay.NodeRecord) (l : TokenLedger.InMemoryTokenLedger) (Hkeyed : keyed m).

(** The node is in and nothing else is different. *)
Definition entered (r : Registration) (p : PathTypes.ClusterPolicy) (n : Overlay.NodeRecord) (s : State) : Prop :=
  (at_ (bt_insert (reg_node_id (r_request r)) n m) l s /\ in_force p s) /\ registered r m n.

Lemma ends_insert r p epoch : ends (fun s => at_ m l s /\ in_force p s) (insert_node_with_fresh_vpn_ip r (Some p) epoch)
  (fun x s => match x with Ok n => entered r p n s | Err _ => at_ m l s /\ in_force p s end).
Proof.
  unfold insert_node_with_fresh_vpn_ip, ATTEMPTS. cbn [insert_loop]. eapply (ends_bind _ _ _ (fun _ s => at_ m l s /\ in_force p s)).
  - intros s s' x Hs. unfold fresh_address. destruct (_ && _)%bool; [destruct (_ <=? _); by intros [= <- <-]|]. cbn.
    destruct (allocate_next _ _). by intros [= <- <-].
  - intros [ip|e]; [|by apply ends_ret]. intros s s' x [[Hm Hl] Hp]. cbn. set (n := node_record _ _ _ _ _).
    destruct (insert_node_if_cluster_policy (store s) n (Some p) epoch) as [st y] eqn:E. cbn. apply insert_nodes in E. destruct y as [[]|e].
    + intros [= <- <-]. destruct E as (Hg & En & Epol). unfold get_node in Hg. rewrite Hm in *. split; [split; [by split|]|].
      * unfold in_force, get_cluster_policy in *. cbn. by rewrite Epol.
      * constructor; try done. cbn in Hg. by rewrite Hg.
    + subst st. destruct e; cbn; try (intros [= <- <-]; done).
Qed.

Lemma ends_rejoin r p epoch : ends (fun s => at_ m l s /\ in_force p s) (rejoin_existing_node r (Some p) epoch)
  (fun x s => match x with Ok n => entered r p n s | Err _ => at_ m l s /\ in_force p s end).
Proof.
  intros s s' x [[Hm Hl] Hp]. unfold rejoin_existing_node. cbn. destruct (get_node (store s) _) as [n0|] eqn:Hg; [|by intros [= <- <-]].
  destruct (_ || _)%bool eqn:Ed; [by intros [= <- <-]|]. rewrite !orb_false_iff, !negb_false_iff, !bool_decide_eq_true in Ed. cbn.
  match goal with |- context [rejoin_node_if_cluster_policy _ ?u] => destruct (rejoin_node_if_cluster_policy (store s) u) as [st y] eqn:E end.
  intros [= <- <-]. apply rejoin_nodes in E. destruct y as [n'|e]; [|by subst st]. destruct E as (n1 & _ & -> & _ & -> & En & Epol). cbn in En.
  unfold get_node in Hg. rewrite Hm in *. pose proof (Hkeyed _ _ Hg) as Hid. destruct Ed as [[[[? ?] ?] ?] ?].
  split; [split; [split; [|done]|]|].
  - cbn. by rewrite En, Hid.
  - unfold in_force, get_cluster_policy in *. cbn. by rewrite Epol.
  - constructor; try done. by rewrite Hg.
Qed.

Lemma ends_register_loop r retries : forall last, ends (at_ m l) (register_loop retries last r)
  (fun x s => forall n, x = Ok n -> exists p, entered r p n s /\ within_scopes p (reg_requested_routes (r_request r)) /\
     outside_pool (vpn_pool config) (reg_requested_routes (r_request r))).
Proof.
  induction retries as [|retries IH]; intros last; [by apply ends_ret|]. cbn [register_loop].
  eapply ends_try; [apply ends_current_policy|]. intros [p persisted].
  apply ends_check. intros [] Hs%map_err_ok%within_scopes_ok. cbn [fst snd].
  eapply ends_try; [apply (ends_route_epoch r p)|]. intros epoch s s' x ((Hat & -> & Hp) & Ho). revert s s' x Hat Hp. cbv beta.
  intros s s' x Hat Hp. revert s s' x Hat Hp.
  enough (H : ends (fun s => at_ m l s /\ in_force p s)
      (let* registration := insert_or_rejoin r (Some p) epoch in
       match registration with Ok n => Ret (Ok n) | Err e => if is_conflict e then register_loop retries (Some e) r else Ret (Err e) end)
      (fun x s => forall n, x = Ok n -> exists p, entered r p n s /\ within_scopes p (reg_requested_routes (r_request r)) /\
         outside_pool (vpn_pool config) (reg_requested_routes (r_request r)))) by (intros s s' x Hat Hp; by apply H).
  eapply (ends_bind _ _ _ (fun x s => match x with Ok n => entered r p n s | Err _ => at_ m l s /\ in_force p s end)).
  - eapply ends_bind; [apply ends_insert|]. intros [n|e]; [by apply ends_ret|]. destruct e; try by apply ends_ret. apply ends_rejoin.
  - intros [n|e]; [apply ends_ret; intros s He n' [= <-]; by exists p|]. destruct (is_conflict e); [|by apply ends_ret].
    eapply ends_weaken; [apply IH|by intros s []|done].
Qed.
End Join.

Lemma admissible_ok c request now relay : admissible c request now = Ok relay ->
  Crypto.node_id_from_public_key_b64 (reg_identity_public_key request) = Ok (reg_node_id request) /\
  Forall (fun route => Overlay.advertised_by route = reg_node_id request /\ route_allowed route c = true) (reg_requested_routes request) /\
  (is_Some relay -> Overlay.allow_relay (policy c) = true).
Proof.
  unfold admissible. rewrite guard_ok, bind_ok. intros (_ & [] & Hv & H). apply request_identity in Hv as [Hid Hadv].
  apply bind_ok in H as ([] & Hr%each_all & Hrel). split; [done|]. split.
  - apply Forall_and. split; [done|]. eapply Forall_impl; [exact Hr|]. intros route H. cbn in H. by destruct (route_allowed route c).
  - unfold relay_capability_allowed in Hrel. destruct (reg_relay_capability request); [|injection Hrel as <-; by intros []].
    by destruct (Overlay.allow_relay (policy c)).
Qed.

Lemma ends_response m l p n : ends (fun s => at_ m l s /\ in_force p s) (registration_response_for_node n)
  (fun r s => forall x, r = Ok x -> (at_ m l s /\ in_force p s) /\ x = (n, p)).
Proof.
  eapply ends_try; [apply ends_policy_again|]. intros q s s' r [HP ->] Hrun.
  refine (ends_try _ _ _ _ (fun x s => (at_ m l s /\ in_force p s) /\ x = (n, p)) (ends_policy_again m l p) _ s s' r HP Hrun).
  intros q' t t' r' [Ht _] [= <- <-]. by intros x [= <-].
Qed.

(** Registration after its checks, the response included. *)
Lemma ends_participant m l c request now uuid : keyed m -> ends (at_ m l) (register_participant_with_claims c request now uuid)
  (fun r s => forall x, r = Ok x -> exists relay, admissible c request now = Ok relay /\
     entered m l {| r_claims := c; r_request := request; r_relay := relay; r_at := now; r_sparse := false; r_uuid := uuid |} x.2 x.1 s /\
     within_scopes x.2 (reg_requested_routes request) /\ outside_pool (vpn_pool config) (reg_requested_routes request)).
Proof.
  intros Hk. unfold register_participant_with_claims, register_participant_record_with_claims.
  set (post relay n s := exists p,
     entered m l {| r_claims := c; r_request := request; r_relay := relay; r_at := now; r_sparse := false; r_uuid := uuid |} p n s /\
     within_scopes p (reg_requested_routes request) /\ outside_pool (vpn_pool config) (reg_requested_routes request)).
  eapply (ends_try _ _ _ (fun n s => exists relay, admissible c request now = Ok relay /\ post relay n s)).
  - apply ends_check. intros relay Hr. eapply (ends_try _ _ _ (post relay)); [by apply ends_register_loop|]. intros n.
    eapply (ends_bind _ _ _ (fun _ s => post relay n s)).
    + destruct (reg_nat_classification request); [|by apply ends_ret]. intros s s' [] (p & He & Hs) [= <-]. by exists p.
    + intros []. intros s s' x (p & He & Hs) [= <- <-] n' [= <-]. exists relay. split; [done|]. by exists p.
  - intros n s s' r (relay & Ha & p & [Hat Hreg] & Hs) Hrun x Hx. destruct (ends_response _ _ _ _ s s' r Hat Hrun x Hx) as [Hat' ->].
    exists relay. done.
Qed.

(** C10: What a successful join leaves behind, when nothing else runs. The token was one the
    service trusts at that time and one use of it was spent; it was not a client's. The node
    is stored under the identity its key derives, with the role, tags and cluster of the token
    and exactly the routes it asked for, each within what the token allows, outside the VPN
    pool and inside the scopes of the policy in force, which is the one returned; it relays only
    if the token lets it. A node that was there keeps its address. All other nodes are as they
    were. *)
Theorem join_sound token request now registered_at uuid s s' n p : keyed (nodes (store s)) ->
  run_prog (join token request now registered_at uuid) s = Some (s', Ok (n, p)) ->
  (TokenLedger.validate_join_token service token now = Ok tt /\ Overlay.role_is_client (role (claims token)) = false /\
   exists spent, TokenLedger.admit_join (ledger s) (claims token) now = (ledger s', Ok spent)) /\
  (get_node (store s') (reg_node_id request) = Some n /\
   Crypto.node_id_from_public_key_b64 (Overlay.identity_public_key n) = Ok (Overlay.node_id n) /\
   Overlay.node_id n = reg_node_id request /\
   (Overlay.role n, Overlay.tags n, Overlay.cluster_id n) = (role (claims token), tags (claims token), cluster_id (claims token)) /\
   Overlay.routes n = reg_requested_routes request /\
   Forall (fun route => Overlay.advertised_by route = Overlay.node_id n /\ route_allowed route (claims token) = true) (Overlay.routes n) /\
   (is_Some (Overlay.relay_capability n) -> Overlay.allow_relay (policy (claims token)) = true)) /\
  (in_force p s' /\ within_scopes p (Overlay.routes n) /\ outside_pool (vpn_pool config) (Overlay.routes n)) /\
  (forall n0, get_node (store s) (reg_node_id request) = Some n0 -> Overlay.vpn_ip n = Overlay.vpn_ip n0) /\
  (forall id, id <> reg_node_id request -> get_node (store s') id = get_node (store s) id).
Proof.
  intros Hk. unfold join, prog_try at 1. cbn [prog_bind]. destruct (TokenLedger.validate_join_token service token now) as [[]|]; [|done].
  unfold register_with_claims. destruct (Overlay.role_is_client _); [done|]. unfold prog_try at 1. rewrite run_bind. cbn.
  destruct (TokenLedger.admit_join _ _ _) as [l spent]. destruct spent as [spent|]; [|done]. intros Hrun.
  destruct (ends_participant _ l _ _ _ _ Hk (with_ledger s l) s' _ (conj eq_refl eq_refl) Hrun (n, p) eq_refl)
    as (relay & Ha & ([[Hn Hl] Hp] & Hreg) & Hs & Ho). cbn in *.
  apply admissible_ok in Ha as (Hid & Hroutes & Hrel). destruct Hreg as [Eid Eident _ Ec Er Et _ Erel Eroutes Hbefore]. cbn in *.
  rewrite Eident, Eid, Ec, Er, Et, Eroutes, Erel. unfold get_node. rewrite Hn. split_and!; try done.
  - exists spent. by rewrite Hl.
  - by rewrite bt_get_insert.
  - intros n0 H0. rewrite H0 in Hbefore. by destruct Hbefore.
  - intros id Hne. by rewrite bt_get_insert_ne.
Qed.

Lemma initial_ok : store_ok (store (initial config)).
Proof. constructor; [apply bt_wf_nil|done|]. intros n Hin. by apply not_elem_of_nil in Hin. Qed.

(** C9: However joins, client registrations, removals and changes of the policy interleave, the
    routes of the nodes follow the policy. In every state that can be reached, the policy in
    force passes all its checks; every route a node of the cluster announces lies outside the
    VPN pool and, when the policy has scopes, inside one of them. No operation hangs. The digest
    in the epoch of the route catalog is assumed to tell apart the catalogs that occur. *)
Theorem routes_follow_policy calls schedule :
  no_collision (fun s => s ∈ visited (initial config, map thread calls) schedule) ->
  let c := exec (initial config, map thread calls) schedule in
  (forall p, in_force p c.1 -> check_policy p = Ok tt) /\
  (forall n, n ∈ catalog (store c.1) (config_cluster_id config) ->
     outside_pool (vpn_pool config) (Overlay.routes n) /\ exists p, in_force p c.1 /\ within_scopes p (Overlay.routes n)) /\
  Stuck ∉ c.2.
Proof.
  intros Hc. cbv zeta. destruct (safe_exec (fun s => store_ok (store s)) _ schedule (map (fun _ _ => True) calls) (initial config, map thread calls)
    (proj2 (Forall_forall _ _) (fun s Hs => Hs)) initial_ok) as [[_ Hp Hr] Hs].
  { cbn [snd]. apply Forall2_fmap_2, Forall_Forall2_diag, Forall_forall. intros c _. by apply safe_thread. }
  split; [done|]. split; [done|]. intros (i & Hi)%list_elem_of_lookup. by destruct (Forall2_lookup_l _ _ _ _ _ Hs Hi) as (Q & _ & []).
Qed.

(** Every node has an address of its own that hosts of the pool can use. *)
Definition own_addresses (s : State) : Prop :=
  (forall id n, get_node (store s) id = Some n ->
     exists a, Overlay.vpn_ip n = IpV4 a /\ vpn_pool_contains_usable_host (vpn_pool config) a = true) /\
  (forall id id' n n', get_node (store s) id = Some n -> get_node (store s) id' = Some n' ->
     Overlay.vpn_ip n = Overlay.vpn_ip n' -> id = id').

Lemma initial_handed : handed (initial config) [].
Proof. constructor; [apply bt_wf_nil|cbn; split; [done|lia]|done..|]. split; [constructor|done]. Qed.

(** C11: No two nodes have the same VPN address, and every address is one of the pool other than
    its first and last. This holds after any sequence of joins, client registrations,
    removals and policy changes, each run to its end, and it holds at every moment of any
    interleaving of joins, client registrations and policy changes. (HTTP-only joins, which draw
    their address at random, are in neither.) *)
Theorem vpn_addresses_distinct :
  (forall calls, Forall dense calls -> exists s, run_calls (initial config) calls = Some s /\ own_addresses s) /\
  (forall calls schedule, Forall growing calls -> own_addresses (exec (initial config, map thread calls) schedule).1).
Proof.
  split.
  - intros calls Hd. destruct (run_addresses calls Hd _ initial_addresses) as (s & Hs & [_ Hp Hu _]). by exists s.
  - intros calls schedule Hg. destruct (owning_exec schedule (initial config, map thread calls) (map (fun _ => []) calls)) as (owned & H).
    + cbn. replace (concat (map (fun _ => []) calls)) with (@nil Z) by (clear; by induction calls). apply initial_handed.
    + cbn. clear schedule. induction Hg as [|c calls Hc _ IH]; constructor; [by apply owning_thread|done].
    + destruct H as [_ _ Hgiv Hd _]. split; [|done]. intros id n (a & Ha & [Hu _] & _)%Hgiv. by exists a.
Qed.

(** *** A spent allocator *)

Lemma ends_quiet {A} (p : prog State A) a : quiet p -> ends (fun s => allocator s = a) p (fun _ s => allocator s = a).
Proof.
  induction p as [x| |B act k IH]; [by intros _; apply ends_ret|done|]. intros [Hs Hk] s s' x Ha. cbn. destruct (Hs s) as [E _].
  destruct (act s) as [s1 b]. apply IH; [done|]. cbn in E. congruence.
Qed.

Definition spent (a : VpnAllocator) : Prop :=
  0 <= next_host_offset a /\ ipv4net_broadcast (pool a) <= ipv4net_network (pool a) + next_host_offset a.

Lemma allocate_spent a reserved : spent a -> allocate_next a reserved = (a, Err VpnPoolExhausted).
Proof.
  intros [Hn Hb]. unfold allocate_next. pose proof (ipv4net_network_nonneg (pool a)) as H0. pose proof (ipv4net_broadcast_range (pool a)) as H1.
  assert (E : (saturating_add 32 (ipv4net_network (pool a)) (next_host_offset a) <? ipv4net_broadcast (pool a)) = false)
    by (apply Z.ltb_ge; unfold saturating_add; lia).
  destruct (Z.to_nat _); cbn [allocate_loop]; rewrite E; by destruct a.
Qed.

Lemma ends_register_spent a r retries : spent a -> r_sparse r = false -> forall last,
  ends (fun s => allocator s = a) (register_loop retries last r) (fun x _ => forall n, x <> Ok n).
Proof.
  intros Ha Hsp. induction retries as [|retries IH]; intros last; [by apply ends_ret|]. cbn [register_loop].
  assert (Herr : forall e, ends (fun s => allocator s = a) (Ret (Err e)) (fun (x : result Overlay.NodeRecord error) _ => forall n, x <> Ok n))
    by (intros; by apply ends_ret).
  eapply ends_bind; [apply ends_quiet, quiet_current_policy|]. intros [[p persisted]|e]; [|apply Herr].
  eapply (ends_bind _ _ _ (fun _ s => allocator s = a)); [by apply ends_ret|]. intros [[]|e]; [|apply Herr].
  eapply ends_bind; [apply ends_quiet, quiet_route_epoch|]. intros [epoch|e]; [|apply Herr].
  intros s s' x Hs. unfold insert_or_rejoin, insert_node_with_fresh_vpn_ip, ATTEMPTS. cbn [insert_loop]. unfold fresh_address. rewrite Hsp. cbn.
  rewrite Hs, allocate_spent by done. cbn. by intros [= <- <-].
Qed.

Lemma ends_participant_spent a c request now uuid : spent a ->
  ends (fun s => allocator s = a) (register_participant_with_claims c request now uuid) (fun x _ => forall y, x <> Ok y).
Proof.
  intros Ha. unfold register_participant_with_claims, register_participant_record_with_claims.
  eapply (ends_bind _ _ _ (fun x _ => forall n, x <> Ok n)).
  - unfold prog_try at 1. cbn [prog_bind]. destruct (admissible c request now) as [relay|]; [|by apply ends_ret].
    eapply ends_bind; [by apply ends_register_spent|]. intros [n|e]; [intros s s' x H; by destruct (H n)|]. by apply ends_ret.
  - intros [n|e]; [intros s s' x H; by destruct (H n)|]. by apply ends_ret.
Qed.

(** C40: A join takes a position of the allocator before it looks whether the node is registered.
    Once the allocator has been moved to the end of the pool, no ordinary join and no client
    registration succeeds: not of a new node, although addresses may be free, and not of a node
    that is registered and only announces itself again. (An HTTP-only join draws its address at
    random and may still succeed.) *)
Theorem spent_allocator_refuses s : spent (allocator s) ->
  (forall token request now registered_at uuid,
     succeeded (run_prog (join token request now registered_at uuid) s) = false) /\
  (forall c client_id identity wireguard now uuid,
     succeeded (run_prog (register_client_with_claims c client_id identity wireguard now uuid) s) = false).
Proof.
  intros Hs. split.
  - intros token request now registered_at uuid. destruct (run_prog _ s) as [[s' [x|]]|] eqn:E; [|done..].
    exfalso. revert E. unfold join, prog_try at 1. cbn [prog_bind].
    destruct (TokenLedger.validate_join_token service token now) as [[]|]; [|done].
    unfold register_with_claims. destruct (Overlay.role_is_client _); [done|]. unfold prog_try at 1. rewrite run_bind. cbn.
    destruct (TokenLedger.admit_join _ _ _) as [l [r|]]; [|done]. intros E.
    exact (ends_participant_spent _ _ _ _ _ Hs (with_ledger s l) s' _ eq_refl E x eq_refl).
  - intros c client_id identity wireguard now uuid. destruct (run_prog _ s) as [[s' [x|]]|] eqn:E; [|done..].
    exfalso. revert E. unfold register_client_with_claims. destruct (negb _); [done|]. intros E.
    exact (ends_participant_spent _ _ _ _ _ Hs s s' _ eq_refl E x eq_refl).
Qed.

End Plane.

(** ** A small cluster

    A pool of six usable addresses, [100.64.0.0/29], and nodes with toy keys. *)
Module PlaneExample.
Import Instances Base64 Crypto.CryptoExample.

Definition v4_prefix (p : Z * Z) : Z := Z.max 0 (Z.min 32 p.2).
Definition v4_network (p : Z * Z) : Z := (p.1 mod 2 ^ 32) / 2 ^ (32 - v4_prefix p) * 2 ^ (32 - v4_prefix p).

Definition covers (outer inner : Cidr) : bool :=
  eqb (is_v4 outer) (is_v4 inner) && (masked outer (address outer) <=? masked inner (address inner))
  && (masked inner (address inner) + 2 ^ host_bits inner <=? masked outer (address outer) + 2 ^ host_bits outer).

#[local] Instance v4_nets : Ipv4NetOps := {|
  Ipv4Net := Z * Z;
  ipnet_v4 p := {| is_v4 := true; address := p.1 mod 2 ^ 32; prefix := v4_prefix p |};
  ipv4net_network := v4_network;
  ipv4net_broadcast p := v4_network p + 2 ^ (32 - v4_prefix p) - 1;
  ipv4net_prefix_len := v4_prefix;
  ipnet_contains_net := covers;
  ipnet_aggregate l := List.filter (fun c => negb (existsb (fun d => negb (bool_decide (c = d)) && covers d c) l)) (remove_dups l)
|}.

#[local] Instance v4_laws : Ipv4NetLaws v4_nets.
Proof.
  assert (Hp : forall p, 0 <= v4_prefix p <= 32) by (intros p; unfold v4_prefix; lia).
  assert (Hk : forall p, 0 < 2 ^ (32 - v4_prefix p)) by (intros p; apply Z.pow_pos_nonneg; specialize (Hp p); lia).
  constructor; cbn; [done| |done|].
  - intros p. unfold v4_network. specialize (Hk p). pose proof (Z.mod_pos_bound p.1 (2 ^ 32)). apply Z.mul_nonneg_nonneg; [apply Z.div_pos|]; lia.
  - intros p. unfold v4_network. specialize (Hk p). pose proof (Z.mod_pos_bound p.1 (2 ^ 32)) as Ha.
    assert (E : 2 ^ 32 = 2 ^ v4_prefix p * 2 ^ (32 - v4_prefix p)) by (rewrite <- Z.pow_add_r by (specialize (Hp p); lia); f_equal; lia).
    assert (Hq : p.1 mod 2 ^ 32 / 2 ^ (32 - v4_prefix p) < 2 ^ v4_prefix p) by (apply Z.div_lt_upper_bound; [lia|]; lia).
    set (q := p.1 mod 2 ^ 32 / 2 ^ (32 - v4_prefix p)) in *.
    assert (H : (q + 1) * 2 ^ (32 - v4_prefix p) <= 2 ^ v4_prefix p * 2 ^ (32 - v4_prefix p)) by (apply Z.mul_le_mono_nonneg_r; lia). lia.
Qed.

#[local] Instance toy_dh : X25519Ops := {| diffie_hellman _ key := key |}.

(** The toy catalog lists the nodes. *)
#[local] Instance catalog_ids : ToJson (list material) := fun l => Some (concat (map (fun x => x.1.1.1.1.1) l)).
#[local] Instance removal_json : ToJson (NodeId * Z) := fun p => Some (p.1).

Definition secret (b : byte) : EdSecret := replicate 32 b.
Definition key (b : byte) : bytes := Crypto.public_key_b64 (secret b).
Definition id (b : byte) : NodeId := Crypto.node_id (secret b).

Definition claims_of (nonce : bytes) : JoinTokenClaims := {|
  cluster_id := bstr "c"; bootstrap_endpoints := []; expires_at := 3600 * Signal.SECOND; not_before := 0;
  role := bstr "edge"; tags := [bstr "t"]; issuer := bstr "issuer"; key_id := bstr "k1";
  policy := {| Overlay.allow_join := true; Overlay.allow_relay := false; Overlay.allowed_routes := Overlay.allowed_routes (policy sample_claims);
               Overlay.allowed_tags := []; Overlay.max_token_uses := None |}; nonce := nonce |}.

Definition token : SignedJoinToken :=
  Eval vm_compute in match Crypto.sign_join_token issuer_key (claims_of (bstr "n-1")) with
                     | Ok t => t
                     | Err _ => {| claims := sample_claims; signature := [] |}
                     end.

Definition net : Cidr := {| is_v4 := true; address := 0xC0A80100; prefix := 24 |}.

Definition request (b : byte) (routed : bool) : RegisterNodeRequest := {|
  reg_node_id := id b; reg_identity_public_key := key b; reg_wireguard_public_key := b64_encode (replicate 32 b);
  reg_candidates := []; reg_nat_classification := None; reg_relay_capability := None;
  reg_requested_routes :=
    if routed then [{| Overlay.route_id := bstr "r"; Overlay.cidr := net; Overlay.advertised_by := id b; Overlay.via := None;
                       Overlay.metric := 1; Overlay.route_tags := [] |}] else [] |}.

Definition config : ControlPlaneConfig := {|
  config_cluster_id := bstr "c"; vpn_pool := (0x64400000, 29); config_cluster_policy := PathTypes.default_policy;
  require_heartbeat_signature := true; heartbeat_signature_max_age := 300 * Signal.SECOND; service_ha_replica_count := 2 |}.

Definition service : TokenLedger.JoinService := {|
  TokenLedger.service_cluster := bstr "c"; TokenLedger.signature_max_age := 300 * Signal.SECOND;
  TokenLedger.issuer_keys := TokenLedger.insert [] (bstr "issuer") (bstr "k1") (Crypto.public_key_b64 issuer_key) |}.

Definition Run : Type := @State cidr_ops v4_nets unit.

Definition start : Run := initial config.

Definition enter (b : byte) (routed : bool) : call := Join token (request b routed) Signal.SECOND Signal.SECOND (fun _ => 0).

Definition times (n i : nat) : list nat := replicate n i.

Definition threads (calls : list call) : list (prog Run unit) := map (thread config service) calls.

(** *** A join meets a change of policy *)

Definition scoped : PathTypes.ClusterPolicy := {|
  PathTypes.allow_ipv6_direct := true; PathTypes.allow_nat_traversal := true; PathTypes.allow_relay_fallback := true;
  PathTypes.idle_timeout_seconds := 300; PathTypes.overlay_block_size := 4; PathTypes.overlay_max_degree := 4;
  PathTypes.overlay_direct_shortcut_limit := 0; PathTypes.overlay_on_demand_peer_limit := 4;
  PathTypes.overlay_route_scopes := [{| is_v4 := true; address := 0xC0A80000; prefix := 16 |}]; PathTypes.relay_health_ttl_seconds := 90;
  PathTypes.endpoint_candidate_ttl_seconds := 120; PathTypes.path_state_ttl_seconds := 600;
  PathTypes.path_quality_observation_ttl_seconds := 120; PathTypes.nat_classification_ttl_seconds := 300;
  PathTypes.nat_classification_min_confidence_percent := 50; PathTypes.pinned_roles := []; PathTypes.pinned_tags := [];
  PathTypes.acl_rules := [] |}.

Definition policing : list call := [enter x01 true; SetPolicy scoped].

(** The policy changes after the join has read it and before it stores the node. *)
Definition turns : list nat := times 7 0 ++ times 1 1 ++ times 1 0 ++ times 10 1 ++ times 20 0.

Definition cluster_catalog (s : Run) : list Overlay.NodeRecord := catalog (store s) (config_cluster_id config).

Definition joined : list Overlay.NodeRecord := cluster_catalog (exec (start, threads policing) turns).1.

Lemma joined_listed : length joined = 1%nat.
Proof. vm_cast_no_check (@eq_refl nat 1%nat). Qed.

Lemma visited_catalogs :
  forallb (fun s => bool_decide (cluster_catalog s = []) || bool_decide (cluster_catalog s = joined)) (visited (start, threads policing) turns) = true.
Proof. vm_cast_no_check (@eq_refl bool true). Qed.

Lemma epochs_differ : match overlay_route_catalog_epoch [], overlay_route_catalog_epoch joined with Ok a, Ok b => a =? b | _, _ => true end = false.
Proof. vm_cast_no_check (@eq_refl bool false). Qed.

Lemma policing_no_collision : no_collision config (fun s => s ∈ visited (start, threads policing) turns).
Proof.
  pose proof visited_catalogs as Hv. apply forallb_Forall in Hv. rewrite Forall_forall in Hv.
  assert (Hd : forall e, overlay_route_catalog_epoch [] = Ok e -> overlay_route_catalog_epoch joined = Ok e -> False).
  { intros e H1 H2. pose proof epochs_differ as Hd. rewrite H1, H2, Z.eqb_refl in Hd. discriminate Hd. }
  intros s s' epoch Hs Hs'. apply Hv, orb_true_iff in Hs, Hs'. rewrite !bool_decide_eq_true in Hs, Hs'.
  change (catalog (store s) (config_cluster_id config)) with (cluster_catalog s).
  change (catalog (store s') (config_cluster_id config)) with (cluster_catalog s').
  destruct Hs as [-> | ->], Hs' as [-> | ->]; intros H1 H2; try reflexivity; [destruct (Hd epoch H1 H2)|destruct (Hd epoch H2 H1)].
Qed.

Lemma routes_follow_policy_witness :
  length joined = 1%nat /\ Forall (fun n => exists p, in_force config p (exec (start, threads policing) turns).1 /\ within_scopes p (Overlay.routes n)) joined.
Proof.
  split; [exact joined_listed|]. apply Forall_forall. intros n Hn.
  exact (proj2 (proj1 (proj2 (routes_follow_policy config service policing turns policing_no_collision)) n Hn)).
Defined.

(** *** Addresses *)

Lemma vpn_addresses_distinct_witness :
  (exists s : Run, run_calls config service start [enter x01 true; enter x02 false; AdminRemove (id x01); enter x03 false] = Some s /\
     own_addresses config s) /\
  own_addresses config (exec (start, threads [enter x01 true; enter x02 false; SetPolicy scoped]) (concat (replicate 12 [0; 1; 2]%nat))).1.
Proof.
  destruct (vpn_addresses_distinct (Snapshot := unit) config service) as [H1 H2]. split.
  - apply H1. repeat (apply Forall_cons_2; [exact I|]). apply Forall_nil_2.
  - apply H2. repeat (apply Forall_cons_2; [exact I|]). apply Forall_nil_2.
Defined.

(** While node 2 holds an address it has not stored yet, node 1 is removed and the allocator
    starts over. *)
Definition racing : list call := [enter x01 false; enter x02 false; AdminRemove (id x01); enter x03 false; enter x04 false].
Definition race : list nat := times 20 0 ++ times 5 1 ++ times 10 2 ++ times 20 3 ++ times 20 4 ++ times 20 1.

Definition enter_http (b : byte) (draw : Z) : call := JoinHttp token (request b false) Signal.SECOND Signal.SECOND (fun _ => draw).

Definition address_of (b : byte) (s : Run) : option IpAddr := Overlay.vpn_ip <$> get_node (store s) (id b).

Definition raced : Run := (exec (start, threads racing) race).1.
Definition drawn : option Run := run_calls config service start [enter x01 false; enter_http x02 6; enter_http x04 0].

Lemma raced_2 : address_of x02 raced = Some (IpV4 0x64400002).
Proof. vm_cast_no_check (@eq_refl (option IpAddr) (Some (IpV4 0x64400002))). Qed.

Lemma raced_4 : address_of x04 raced = Some (IpV4 0x64400002).
Proof. vm_cast_no_check (@eq_refl (option IpAddr) (Some (IpV4 0x64400002))). Qed.

Lemma drawn_same : (fun s => map (fun b => address_of b s) [x01; x02; x04]) <$> drawn = Some (replicate 3 (Some (IpV4 0x64400001))).
Proof. vm_cast_no_check (@eq_refl (option (list (option IpAddr))) (Some (replicate 3 (Some (IpV4 0x64400001))))). Qed.

Lemma ids_differ : bool_decide (id x02 = id x04) = false.
Proof. vm_cast_no_check (@eq_refl bool false). Qed.

(** C39: The in-memory store lets two nodes have one address. A removal makes the allocator start
    over while another join holds an address it has not stored: the same address goes to a
    later join, and both are stored. Two HTTP-only joins that draw the same host, or one that
    draws a host in use, get it as well: nothing checks that an address is free. *)
Theorem addresses_collide :
  id x02 <> id x04 /\
  (address_of x02 raced = Some (IpV4 0x64400002) /\ address_of x04 raced = Some (IpV4 0x64400002)) /\
  (exists s, drawn = Some s /\ map (fun b => address_of b s) [x01; x02; x04] = replicate 3 (Some (IpV4 0x64400001))).
Proof.
  split; [exact (bool_decide_eq_false_1 _ ids_differ)|]. split; [split; [exact raced_2|exact raced_4]|].
  destruct (fmap_Some_1 _ _ _ drawn_same) as (s & Hs & E). exists s. split; [exact Hs|exact (eq_sym E)].
Qed.

(** One node joins six times; five of the six addresses are free. *)
Definition after : Run := match run_calls config service start (replicate 6 (enter x01 false)) with Some s => s | None => start end.

Lemma after_addresses : addresses (store after) = [0x64400001].
Proof. vm_cast_no_check (@eq_refl (list Z) [0x64400001]). Qed.

Lemma after_allocator : allocator after = {| pool := (0x64400000, 29); next_host_offset := 7 |}.
Proof. vm_cast_no_check (@eq_refl VpnAllocator {| pool := (0x64400000, 29); next_host_offset := 7 |}). Qed.

Lemma spent_allocator_refuses_witness :
  addresses (store after) = [0x64400001] /\
  succeeded (run_prog (join config service token (request x01 false) Signal.SECOND Signal.SECOND (fun _ => 0)) after) = false.
Proof.
  split; [exact after_addresses|].
  assert (Hs : spent (allocator after)) by (rewrite after_allocator; split; apply Z.leb_le; reflexivity).
  exact (proj1 (spent_allocator_refuses config service (Laws := v4_laws) after Hs) token (request x01 false) Signal.SECOND Signal.SECOND
           (fun _ => 0)).
Defined.

(** *** A join *)

Lemma answered : succeeded (run_prog (join config service token (request x01 true) Signal.SECOND Signal.SECOND (fun _ => 0)) start) = true.
Proof. vm_cast_no_check (@eq_refl bool true). Qed.

Lemma succeeded_inv {S A E} (x : option (S * result A E)) : succeeded x = true -> exists s a, x = Some (s, Ok a).
Proof. destruct x as [[s [a|]]|]; [|discriminate..]. by exists s, a. Qed.

Lemma start_keyed : keyed (nodes (store start)).
Proof. intros k m Hm. discriminate Hm. Qed.

Lemma join_sound_witness : exists (s : Run) n p,
  run_prog (join config service token (request x01 true) Signal.SECOND Signal.SECOND (fun _ => 0)) start = Some (s, Ok (n, p)) /\
  get_node (store s) (reg_node_id (request x01 true)) = Some n /\
  Forall (fun route => Overlay.advertised_by route = Overlay.node_id n /\ route_allowed route (claims token) = true) (Overlay.routes n).
Proof.
  destruct (succeeded_inv _ answered) as (s & [n p] & E). exists s, n, p. split; [exact E|].
  destruct (join_sound config service _ _ _ _ _ _ _ _ _ start_keyed E) as (_ & Hn & _).
  destruct Hn as (Hg & _ & _ & _ & _ & Hr & _). split; [exact Hg|exact Hr].
Defined.

End PlaneExample.
End ControlPlane.
