(* ===== verification/TimedSteps.v ===== *)
(** * Runs with other activity (crates/ipars-control-plane/src/lib.rs)

    Requests of the control plane take their accesses to the shared state in turns, and
    between two of them other parts of the process may change that state. A run is a list of
    such moves; a position in it is a time. [timed] claims of a program what holds of every
    run, with the times at which its accesses happen. *)

From S2P Require Import Prelude RustStd ControlTypes ControlPlane.

Module TimedSteps.
Import ControlPlane.

#[local] Open Scope nat_scope.

(** The next access of one of the programs, or a change made by something else. *)
Inductive move (St : Type) : Type := Turn (i : nat) | Other (f : St -> St).
Arguments Turn {St} i.
Arguments Other {St} f.

Definition make_move {St A} (c : St * list (prog St A)) (m : move St) : St * list (prog St A) :=
  match m with Turn i => exec_step c i | Other f => (f c.1, c.2) end.

Definition play {St A} (c : St * list (prog St A)) (moves : list (move St)) : St * list (prog St A) :=
  foldl make_move c moves.

(** The states a run goes through, the first at time 0. *)
Fixpoint trace {St A} (c : St * list (prog St A)) (moves : list (move St)) : list St :=
  c.1 :: match moves with [] => [] | m :: moves => trace (make_move c m) moves end.

Lemma trace_head {St A} (c : St * list (prog St A)) moves : trace c moves !! 0 = Some c.1.
Proof. by destruct moves. Qed.

(** Turns only: an interleaving of the programs. *)
Lemma play_turns {St A} (c : St * list (prog St A)) schedule : play c (map Turn schedule) = exec c schedule.
Proof. revert c. induction schedule as [|i schedule IH]; intros c; [done|]. apply IH. Qed.

Section Timed.
Context {St : Type} (I Seen : nat -> St -> Prop).
(** What the invariant says of a state, it goes on saying. *)
Hypothesis later : forall t s, I t s -> I (S t) s.

(** From time [t] on, whatever state a step finds, as long as the run is in it at that time
    and it has the invariant, the step keeps the invariant, the program goes on, and it ends
    with [Q] of the time and the result. *)
Fixpoint timed {A} (t : nat) (p : prog St A) (Q : nat -> A -> Prop) : Prop :=
  match p with
  | Ret a => Q t a
  | Stuck => False
  | Atomic act k => forall u s, t <= u -> I u s -> Seen u s ->
      I (S u) (act s).1 /\ (Seen (S u) (act s).1 -> timed (S u) (k (act s).2) Q)
  end.

Lemma timed_bind {A B} t (p : prog St A) (f : A -> prog St B) R Q :
  timed t p R -> (forall u a, t <= u -> R u a -> timed u (f a) Q) -> timed t (prog_bind p f) Q.
Proof.
  revert t. induction p as [a| |C act k IH]; intros t Hp Hf; cbn in *; [by apply Hf|done|].
  intros u s Hu Hi Hs. destruct (Hp u s Hu Hi Hs) as [H1 H2]. split; [done|]. intros Hs'.
  apply IH; [by apply H2|]. intros v a Hv. apply Hf. lia.
Qed.

Lemma timed_mono {A} t (p : prog St A) (R Q : nat -> A -> Prop) :
  timed t p R -> (forall u a, t <= u -> R u a -> Q u a) -> timed t p Q.
Proof.
  revert t. induction p as [a| |C act k IH]; intros t Hp H; cbn in *; [by apply H|done|].
  intros u s Hu Hi Hs. destruct (Hp u s Hu Hi Hs) as [H1 H2]. split; [done|]. intros Hs'.
  apply IH; [by apply H2|]. intros v a Hv. apply H. lia.
Qed.

Definition lasting {A} (Q : nat -> A -> Prop) : Prop := forall t u a, t <= u -> Q t a -> Q u a.

Lemma timed_later {A} t u (p : prog St A) Q : lasting Q -> t <= u -> timed t p Q -> timed u p Q.
Proof.
  intros Hl Hu. destruct p as [a| |C act k]; cbn; [by apply Hl|done|].
  intros Hp v s Hv. apply Hp. lia.
Qed.

Lemma timed_try {A B E} t (p : prog St (result A E)) (f : A -> prog St (result B E)) (R : nat -> A -> Prop) Q :
  timed t p (fun u r => forall a, r = Ok a -> R u a) -> (forall u a, t <= u -> R u a -> timed u (f a) Q) ->
  (forall u e, Q u (Err e)) -> timed t (prog_try p f) Q.
Proof. intros Hp Hf He. eapply timed_bind; [exact Hp|]. intros u [a|e] Hu Ha; [by apply Hf, Ha|apply He]. Qed.

(** A check that touches nothing. *)
Lemma timed_check {A B E} t (r : result A E) (f : A -> prog St (result B E)) Q :
  (forall a, r = Ok a -> timed t (f a) Q) -> (forall u e, Q u (Err e)) -> timed t (prog_try (Ret r) f) Q.
Proof. intros Hf He. unfold prog_try. cbn. destruct r; [by apply Hf|apply He]. Qed.

Lemma timed_looking {A C} t (f : St -> C) (k : C -> prog St A) Q :
  (forall u s, t <= u -> I u s -> Seen u s -> timed (S u) (k (f s)) Q) ->
  timed t (Atomic (fun s => (s, f s)) k) Q.
Proof. intros H u s Hu Hi Hs. cbn. split; [by apply later|]. intros _. by apply H. Qed.

(** One move. *)
Lemma timed_move {A} t (Qs : list (nat -> A -> Prop)) (c : St * list (prog St A)) m :
  Forall lasting Qs -> (forall f, m = Other f -> forall t s, I t s -> I (S t) (f s)) ->
  Seen t c.1 -> Seen (S t) (make_move c m).1 -> I t c.1 -> Forall2 (timed t) c.2 Qs ->
  I (S t) (make_move c m).1 /\ Forall2 (timed (S t)) (make_move c m).2 Qs.
Proof.
  intros Hl Hm Hs Hs' Hi Hp.
  assert (Hp' : Forall2 (timed (S t)) c.2 Qs).
  { clear Hs'. induction Hp as [|p Q ps Qs H1 _ IH]; [constructor|]. apply Forall_cons in Hl as [HQ Hl].
    constructor; [|by apply IH]. apply (timed_later t); [done|lia|done]. }
  destruct m as [i|f]; cbn in *; [|split; [by apply Hm|done]]. unfold exec_step in *.
  destruct (c.2 !! i) as [p|] eqn:Ep; [|by split; [apply later|]].
  destruct (Forall2_lookup_l _ _ _ _ _ Hp Ep) as (Q & Eq & H1). destruct p as [a| |C act k]; [by split; [apply later|]..|].
  destruct (H1 t c.1 ltac:(lia) Hi Hs) as [Hi' Hk]. destruct (act c.1) as [s b]. split; [done|]. cbn in *.
  rewrite <- (list_insert_id _ _ _ Eq). apply Forall2_insert; [done|by apply Hk].
Qed.

(** A run keeps the invariant, lets no program hang, and gives results as they are claimed of
    each program, whatever the others and the rest of the process do meanwhile. *)
Lemma timed_play {A} (Qs : list (nat -> A -> Prop)) moves : Forall lasting Qs ->
  Forall (fun m => forall f, m = Other f -> forall t s, I t s -> I (S t) (f s)) moves ->
  forall t (c : St * list (prog St A)),
  (forall k s, trace c moves !! k = Some s -> Seen (t + k) s) -> I t c.1 -> Forall2 (timed t) c.2 Qs ->
  I (t + length moves) (play c moves).1 /\ Forall2 (timed (t + length moves)) (play c moves).2 Qs.
Proof.
  intros Hl. induction moves as [|m moves IH]; intros Hm t c Hv Hi Hp; [by rewrite Nat.add_0_r|].
  apply Forall_cons in Hm as [Hm Hms]. pose proof (Hv 0 c.1 eq_refl) as H0. rewrite Nat.add_0_r in H0.
  pose proof (Hv 1 _ (trace_head (make_move c m) moves)) as H1. rewrite Nat.add_1_r in H1.
  destruct (timed_move t Qs c m Hl Hm H0 H1 Hi Hp) as [Hi' Hp'].
  cbn [length]. rewrite Nat.add_succ_r, <- Nat.add_succ_l. apply (IH Hms (S t) (make_move c m)); [|done..].
  intros k s Hk. rewrite Nat.add_succ_l, <- Nat.add_succ_r. by apply Hv.
Qed.

End Timed.
End TimedSteps.
