(* ===== verification/HttpMesh.v ===== *)
(** * The HTTP mesh (crates/ipars-control-plane/src/http_mesh.rs)

    The requests of nodes that reach each other through the control plane: leases, pages of
    members, questions about peers and forwarding, and batches of WireGuard packets sent to and
    polled from the mailbox. A request is a [prog] of the control plane: other requests, and any
    other change of the nodes, the policy and the gateways, come between any two of its accesses. *)

From S2P Require Import Prelude RustStd Endpoints OverlayTypes BTree SortBy Hashing F32 Stun NatClass PathTypes Signal Quorum JoinTokens Crypto ControlTypes TokenLedger RequestAuth ControlStore ControlRules ControlAcl MeshMailbox ControlPlane TimedSteps Instances.

(** What is used of the [uuid] crate: whether [Uuid::parse_str] accepts a text. *)
Class UuidOps : Type := { uuid_parses : bytes -> bool }.

Module HttpMesh.
Import ControlTypes ControlStore ControlPlane TimedSteps.

Inductive MeshAction : Type :=
  | Lease (ephemeral http_only : bool)
  | Routes (after : option NodeId) (limit : Z)
  | Leave
  | Forward (source destination : IpAddr)
  | Peer (address : bytes)
  | Send (target : NodeId) (batch_id : bytes) (packets : list bytes)
  | Poll (acknowledgements : list Mailbox.MeshAck) (wait_ms : Z).

Record MeshRequest : Type := { query : RequestAuth.ControlPlaneNodeQueryRequest; action : MeshAction }.

(** A turn of the loop of a poll: when the mailbox is asked, whether the deadline is over then,
    and when the last acknowledgements are written. *)
Record Round : Type := { polled_at : Z; deadline_over : bool; closed_at : Z }.

(** The readings of the clock in a request. *)
Record Clock : Type := { authenticated_at : Z; served_at : Z; rounds : list Round }.

Definition MESH_BINDING : bytes := Eval vm_compute in bstr "http-mesh-v1".
Definition MESH_CONNECTED : bytes := Eval vm_compute in bstr "HTTP mesh connected".

Section Mesh.
Context {Net : IpNetOps} {Build : IpNetBuildOps} {V4 : Ipv4NetOps} {UO : UrlOps} {B64 : Base64Ops} {DO : DigestOps}.
Context {EO : EdOps} {ES : EdSignOps} {X : X25519Ops} {Json : ToJson JoinTokens.JoinTokenClaims}.
Context {CatalogJson : ToJson (list material)} {RemoveJson : ToJson (NodeId * Z)}.
Context {QueryJson : ToJson (RequestAuth.ControlPlaneNodeQueryKind * NodeId * Z * bytes)}.
Context {EnvelopeJson : ToJson (NodeId * list bytes)} {ActionJson : ToJson (bytes * MeshAction)} {Uuid : UuidOps}.
Context {Snapshot : Type} (config : ControlPlaneConfig).

Local Abbreviation State := (@State Net V4 Snapshot).
Local Abbreviation error := ControlPlaneError.
Local Abbreviation NodeRecord := Overlay.NodeRecord.

Record MeshResponse : Type := {
  response_nodes : list NodeRecord;
  next_cursor : option NodeId;
  allowed_ips : gset IpNet;
  destination : option IpAddr;
  destination_node : option NodeId;
  response_node : option NodeRecord;
  accepted : option bool;
  envelopes : list Mailbox.MeshEnvelope
}.

Definition empty_response : MeshResponse := {|
  response_nodes := []; next_cursor := None; allowed_ips := ∅; destination := None; destination_node := None; response_node := None;
  accepted := None; envelopes := [] |}.

Definition accepted_response (b : bool) : MeshResponse := {|
  response_nodes := []; next_cursor := None; allowed_ips := ∅; destination := None; destination_node := None; response_node := None;
  accepted := Some b; envelopes := [] |}.

Definition delivering (l : list Mailbox.MeshEnvelope) : MeshResponse := {|
  response_nodes := []; next_cursor := None; allowed_ips := ∅; destination := None; destination_node := None; response_node := None;
  accepted := None; envelopes := l |}.

(** ** Checks *)

Definition binding_bytes (r : MeshRequest) : option bytes := to_vec (MESH_BINDING, action r).

(** What is checked of an action before the signature. *)
Definition check_action (a : MeshAction) : result unit error :=
  match a with
  | Routes after limit =>
      if (limit =? 0) || (50 <? limit) || match after with Some id => 128 <? lenZ id | None => false end
      then Err (InvalidTransportQuery MeshRoutePage) else Ok tt
  | Send _ batch_id packets =>
      if negb (uuid_parses batch_id) || bool_decide (packets = []) || (Mailbox.MAX_BATCH_PACKETS <? lenZ packets)
         || (Mailbox.MAX_BATCH_BYTES * 4 / 3 + Mailbox.MAX_BATCH_PACKETS * 4 <? Mailbox.sumZ (map (fun p => lenZ p) packets))
      then Err (InvalidTransportQuery MeshBatch) else Ok tt
  | Poll acknowledgements wait_ms =>
      if (15000 <? wait_ms) || (64 <? lenZ acknowledgements)
         || existsb (fun ack => negb (uuid_parses (Mailbox.ack_batch_id ack)) || (128 <? lenZ (Mailbox.ack_source ack))) acknowledgements
      then Err (InvalidTransportQuery MeshAcknowledgement) else Ok tt
  | Peer address =>
      if bool_decide (address = []) || (128 <? lenZ address) then Err (InvalidTransportQuery MeshAddress) else Ok tt
  | Lease _ _ | Leave | Forward _ _ => Ok tt
  end.

Definition wireguard_packet (p : bytes) : bool :=
  negb ((lenZ p <? 4) || (65507 <? lenZ p) || negb (bool_decide (take 3 (drop 1 p) = [x00; x00; x00]))
        || negb match p with
                | x01 :: _ => lenZ p =? 148
                | x02 :: _ => lenZ p =? 92
                | x03 :: _ => lenZ p =? 64
                | x04 :: _ => 32 <=? lenZ p
                | _ => false
                end).

(** The loop over the packets of a batch: the number of their bytes. *)
Fixpoint check_packets (bytes_so_far : Z) (packets : list bytes) : result Z error :=
  match packets with
  | [] => Ok bytes_so_far
  | packet :: packets =>
      let? p := ok_or (b64_decode packet) (InvalidTransportQuery MeshPacketEncoding) in
      if negb (wireguard_packet p) then Err (InvalidTransportQuery MeshNotWireGuard)
      else check_packets (as_width 64 (bytes_so_far + lenZ p)) packets
  end.

(** ** Who may talk to whom *)

(** The condition of [authorize_mesh_pair] negated, and that of the closure [allowed]. *)
Definition pair_allowed (policy : PathTypes.ClusterPolicy) (left right : NodeRecord) : bool :=
  bool_decide (Overlay.cluster_id left = Overlay.cluster_id right)
  && negb (Overlay.is_administratively_stopped left) && negb (Overlay.is_administratively_stopped right)
  && (bool_decide (PathTypes.acl_rules policy = [])
      || (ControlAcl.acl_allows_peer left right policy && ControlAcl.acl_allows_peer right left policy)).

Definition get_client_gateway_selection (id : NodeId) : prog State (option ClientGatewaySelection) :=
  reading (fun s => bt_get id (client_gateway_selections (store s))).

(** A client goes through the gateway it selected. *)
Definition check_gateway (client : NodeRecord) (gateway : NodeId) : prog State (result unit error) :=
  if Overlay.role_is_client (Overlay.role client) then
    let* selection := get_client_gateway_selection (Overlay.node_id client) in
    match selection with
    | Some selection => if bool_decide (gateway_node_id selection = gateway) then Ret (Ok tt) else Ret (Err RelayDenied)
    | None => Ret (Err RelayDenied)
    end
  else Ret (Ok tt).

Definition authorize_mesh_pair (source target : NodeRecord) : prog State (result unit error) :=
  try* policy := current_cluster_policy config in
  if negb (pair_allowed policy source target) then Ret (Err RelayDenied)
  else
    try* _ := check_gateway source (Overlay.node_id target) in
    check_gateway target (Overlay.node_id source).

(** ** Peers *)

Definition fetch_node (id : NodeId) : prog State (option NodeRecord) := reading (fun s => get_node (store s) id).

Fixpoint get_nodes_by_ids (ids : list NodeId) : prog State (list NodeRecord) :=
  match ids with
  | [] => Ret []
  | id :: ids =>
      let* n := fetch_node id in
      let* rest := get_nodes_by_ids ids in
      Ret (match n with Some n => n :: rest | None => rest end)
  end.

Definition find_node_by_vpn_ip (ip : IpAddr) : prog State (option NodeRecord) :=
  reading (fun s => List.find (fun n => bool_decide (Overlay.vpn_ip n = ip)) (list_nodes (store s))).

Definition vpn_host_cidr (ip : IpAddr) : IpNet :=
  match ip with IpV4 _ => ipnet_new_assert ip 32 | IpV6 _ => ipnet_new_assert ip 128 end.

(** The client of the pair, if one of two different nodes is one. *)
Definition client_of (source target : NodeRecord) : option NodeRecord :=
  if Overlay.role_is_client (Overlay.role source) && negb (bool_decide (Overlay.node_id source = Overlay.node_id target)) then Some source
  else if Overlay.role_is_client (Overlay.role target) && negb (bool_decide (Overlay.node_id source = Overlay.node_id target)) then Some target
  else None.

(** The node that carries the traffic to the target: the gateway of the client, or the target. *)
Definition transport_for (source target : NodeRecord) : prog State (result NodeRecord error) :=
  match client_of source target with
  | Some client =>
      let* selection := get_client_gateway_selection (Overlay.node_id client) in
      match selection with
      | None => Ret (Err RelayDenied)
      | Some selection => let* gateway := fetch_node (gateway_node_id selection) in Ret (ok_or gateway RelayDenied)
      end
  | None => Ret (Ok target)
  end.

(** The clients behind a node that has an address of its own. *)
Definition clients_behind (transport : NodeRecord) : prog State (list NodeId) :=
  if bool_decide (Overlay.endpoint_candidates transport = []) then Ret []
  else
    let* selections := reading (fun s => client_gateway_selections (store s)) in
    Ret (bt_keys (List.filter (fun kv => bool_decide (gateway_node_id kv.2 = Overlay.node_id transport)) selections)).

Definition http_mesh_peer_response (source target : NodeRecord) : prog State (result MeshResponse error) :=
  try* policy := current_cluster_policy config in
  let same := bool_decide (Overlay.node_id source = Overlay.node_id target) in
  if negb same && negb (pair_allowed policy source target) then Ret (Err RelayDenied)
  else
    try* transport := transport_for source target in
    try* _ := if bool_decide (Overlay.node_id source = Overlay.node_id transport) then Ret (Ok tt) else authorize_mesh_pair source transport in
    let* ids := clients_behind transport in
    let* clients := get_nodes_by_ids ids in
    let prefixes := {[ vpn_host_cidr (Overlay.vpn_ip transport); vpn_host_cidr (Overlay.vpn_ip target) ]}
      ∪ list_to_set (map (fun c => vpn_host_cidr (Overlay.vpn_ip c)) (List.filter (pair_allowed policy source) clients)) in
    Ret (Ok {| response_nodes := []; next_cursor := None; allowed_ips := prefixes; destination := Some (Overlay.vpn_ip target);
               destination_node := Some (Overlay.node_id target); response_node := Some transport; accepted := None; envelopes := [] |}).

(** ** The actions *)

Definition meshing {B} (f : Mailbox.MemoryState -> Mailbox.MemoryState * B) : prog State B :=
  Atomic (fun s => let '(m, b) := f (mesh s) in (with_mesh s m, b)) Ret.

Definition serve_lease (source : NodeRecord) (ephemeral http_only : bool) (now : Z) : prog State (result MeshResponse error) :=
  if (ephemeral && negb (Overlay.is_http_only source))
     || (http_only && (Overlay.role_is_client (Overlay.role source) || negb (bool_decide (Overlay.endpoint_candidates source = []))))
  then Ret (Err RelayDenied)
  else
    let* _ := meshing (fun m => (Mailbox.lease m (Overlay.node_id source) (Overlay.cluster_id source) ephemeral http_only now, tt)) in
    Ret (Ok (accepted_response true)).

Definition serve_leave (source : NodeRecord) : prog State (result MeshResponse error) :=
  try* _ := remove_verified_node config (Overlay.node_id source) false in
  Ret (Ok (accepted_response true)).

Definition serve_forward (source : NodeRecord) (from to : IpAddr) : prog State (result MeshResponse error) :=
  if Overlay.role_is_client (Overlay.role source) || Overlay.is_http_only source then Ret (Err RelayDenied)
  else
    let* origin := find_node_by_vpn_ip from in
    try* origin := Ret (ok_or origin RelayDenied) in
    let* destination := find_node_by_vpn_ip to in
    try* destination := Ret (ok_or destination RelayDenied) in
    try* cloud := Ret match Overlay.is_http_only origin, Overlay.is_http_only destination with
                      | true, false => Ok origin
                      | false, true => Ok destination
                      | _, _ => Err RelayDenied
                      end in
    try* _ := authorize_mesh_pair source cloud in
    try* policy := current_cluster_policy config in
    if negb (bool_decide (Overlay.cluster_id origin = Overlay.cluster_id source))
       || negb (bool_decide (Overlay.cluster_id destination = Overlay.cluster_id source))
       || Overlay.is_administratively_stopped origin || Overlay.is_administratively_stopped destination
       || (negb (bool_decide (PathTypes.acl_rules policy = []))
           && (negb (ControlAcl.acl_allows_peer origin destination policy) || negb (ControlAcl.acl_allows_peer destination origin policy)))
    then Ret (Err RelayDenied)
    else
      try* _ := check_gateway origin (Overlay.node_id source) in
      try* _ := check_gateway destination (Overlay.node_id source) in
      Ret (Ok (accepted_response true)).

Definition serve_peer (source : NodeRecord) (address : bytes) : prog State (result MeshResponse error) :=
  let* target := match parse_ip_addr address with Some ip => find_node_by_vpn_ip ip | None => fetch_node address end in
  try* target := Ret (ok_or target (InvalidTransportQuery MeshPeerNotFound)) in
  http_mesh_peer_response source target.

(** A page of members: one more than the limit is asked for, to know whether there is a next page. *)
Definition member_page (m : Mailbox.MemoryState) (cluster : bytes) (after : option NodeId) (limit : Z) (now : Z)
  : list NodeId * option NodeId :=
  let ids := Mailbox.list_members m cluster after (Z.to_nat limit + 1) now in
  let page := take (Z.to_nat limit) ids in
  (page, if limit <? lenZ ids then last page else None).

Definition serve_routes (source : NodeRecord) (after : option NodeId) (limit : Z) (now : Z) : prog State (result MeshResponse error) :=
  if Overlay.role_is_client (Overlay.role source) then Ret (Err RelayDenied)
  else
    let* (ids, cursor) := reading (fun s => member_page (mesh s) (Overlay.cluster_id source) after limit now) in
    try* policy := current_cluster_policy config in
    let* found := get_nodes_by_ids (bt_keys (bs_of_list ids)) in
    let visible n :=
      negb (bool_decide (Overlay.node_id n = Overlay.node_id source)) && negb (Overlay.is_administratively_stopped n)
      && bool_decide (Overlay.cluster_id n = Overlay.cluster_id source)
      && (bool_decide (PathTypes.acl_rules policy = [])
          || (ControlAcl.acl_allows_peer source n policy && ControlAcl.acl_allows_peer n source policy)) in
    Ret (Ok {| response_nodes := List.filter visible found; next_cursor := cursor; allowed_ips := ∅; destination := None;
               destination_node := None; response_node := None; accepted := None; envelopes := [] |}).

Definition batch (source target : NodeId) (batch_id : bytes) (packets : list bytes) (size now : Z) : Mailbox.MeshEnvelope := {|
  Mailbox.source := source; Mailbox.target := target; Mailbox.batch_id := batch_id; Mailbox.packets := packets;
  Mailbox.byte_count := size; Mailbox.expires_at := now + Mailbox.BATCH_TTL_SECONDS * Signal.SECOND |}.

Definition serve_send (source : NodeRecord) (target : NodeId) (batch_id : bytes) (packets : list bytes) (now : Z)
  : prog State (result MeshResponse error) :=
  let* peer := fetch_node target in
  try* peer := Ret (ok_or peer (InvalidTransportQuery MeshPeerNotFound)) in
  try* _ := authorize_mesh_pair source peer in
  try* size := Ret (check_packets 0 packets) in
  if Mailbox.MAX_BATCH_BYTES <? size then Ret (Err (InvalidTransportQuery MeshBatchTooLarge))
  else
    try* outcome := meshing (fun m => Mailbox.enqueue m (batch (Overlay.node_id source) target batch_id packets size now) now) in
    match outcome with
    | Mailbox.Full => Ret (Err HttpMeshCapacity)
    | Mailbox.Conflict => Ret (Err (InvalidTransportQuery MeshBatchReused))
    | Mailbox.Accepted => Ret (Ok (accepted_response true))
    | Mailbox.Duplicate => Ret (Ok (accepted_response false))
    end.

(** The health a poll writes for a node that sends no heartbeats, unless it is fresh; the two
    readings of the clock are one. *)
Definition polling_health (now : Z) : PathTypes.NodeHealth := {|
  PathTypes.state := PathTypes.Healthy; PathTypes.last_seen_at := now; PathTypes.health_latency_ms := None;
  PathTypes.health_relay_load := None; PathTypes.message := Some MESH_CONNECTED |}.

Definition health_stale (now : Z) (h : option PathTypes.NodeHealth) : bool :=
  match h with
  | Some h => negb (bool_decide (PathTypes.state h = PathTypes.Healthy)) || (15 <=? Z.quot (now - PathTypes.last_seen_at h) Signal.SECOND)
  | None => true
  end.

Definition record_polling (source : NodeRecord) (now : Z) : prog State unit :=
  if negb (bool_decide (Overlay.endpoint_candidates source = [])) then Ret tt
  else
    let* http_only := reading (fun s => Mailbox.is_http_only (mesh s) (Overlay.node_id source)) in
    if negb http_only then Ret tt
    else
      let* h := reading (fun s => bt_get (Overlay.node_id source) (health (store s))) in
      if health_stale now h then changing (fun s => with_store s (upsert_health (store s) (Overlay.node_id source) (polling_health now)))
      else Ret tt.

(** The envelopes that may be delivered, and acknowledgements for those that may not. *)
Fixpoint sort_out (id : NodeId) (l : list Mailbox.MeshEnvelope) (allowed : list Mailbox.MeshEnvelope) (denied : list Mailbox.MeshAck)
  : prog State (result (list Mailbox.MeshEnvelope * list Mailbox.MeshAck) error) :=
  match l with
  | [] => Ret (Ok (allowed, denied))
  | e :: l =>
      let* current := fetch_node id in
      match current with
      | None => Ret (Err (NodeNotFound id))
      | Some current =>
          let* peer := fetch_node (Mailbox.source e) in
          let* permitted := match peer with
                            | Some peer => let* r := authorize_mesh_pair peer current in Ret (is_ok r)
                            | None => Ret false
                            end in
          if permitted : bool then sort_out id l (allowed ++ [e]) denied
          else sort_out id l allowed (denied ++ [Mailbox.ack_of e])
      end
  end.

(** The loop of a poll; it goes on after a wait, which a batch for the node may end early. *)
Fixpoint poll_loop (rounds : list Round) (id : NodeId) (acks : list Mailbox.MeshAck) : prog State (result MeshResponse error) :=
  match rounds with
  | [] => Stuck
  | r :: rounds =>
      let* l := meshing (fun m => Mailbox.poll m id acks (polled_at r)) in
      try* (allowed, denied) := sort_out id l [] [] in
      if negb (bool_decide (allowed = [])) || deadline_over r then
        let* _ := match denied with [] => Ret [] | _ :: _ => meshing (fun m => Mailbox.poll m id denied (closed_at r)) end in
        Ret (Ok (delivering allowed))
      else poll_loop rounds id denied
  end.

Definition serve (source : NodeRecord) (a : MeshAction) (clock : Clock) : prog State (result MeshResponse error) :=
  match a with
  | Lease ephemeral http_only => serve_lease source ephemeral http_only (served_at clock)
  | Leave => serve_leave source
  | Forward from to => serve_forward source from to
  | Peer address => serve_peer source address
  | Routes after limit => serve_routes source after limit (served_at clock)
  | Send target batch_id packets => serve_send source target batch_id packets (served_at clock)
  | Poll acknowledgements _ =>
      let* _ := record_polling source (served_at clock) in
      poll_loop (rounds clock) (Overlay.node_id source) acknowledgements
  end.

(** The request commits to its action with the nonce that is signed. *)
Definition commits (r : MeshRequest) : result unit error :=
  let? binding := ok_or (binding_bytes r) (InvalidTransportQuery MeshRequestEncoding) in
  match RequestAuth.query_signature (query r) with
  | Some signature =>
      if Crypto.node_query_nonce_matches_binding (Crypto.api_nonce signature) binding then Ok tt
      else Err (InvalidTransportQuery MeshCommitment)
  | None => Err (InvalidTransportQuery MeshCommitment)
  end.

(** The sender is authenticated in one step with the lookup of its record. *)
Definition authenticate (r : MeshRequest) (now : Z) : prog State (result NodeRecord error) :=
  Atomic (fun s => let '(a, n) := RequestAuth.authenticate_node_query (heartbeat_signature_max_age config) (nodes (store s)) (auth s) (query r)
                                    RequestAuth.QueryHttpMesh now in (with_auth s a, n)) Ret.

Definition http_mesh_request (r : MeshRequest) (clock : Clock) : prog State (result MeshResponse error) :=
  try* _ := Ret (commits r) in
  try* _ := Ret (check_action (action r)) in
  try* source := authenticate r (authenticated_at clock) in
  if Overlay.is_administratively_stopped source then Ret (Err RelayDenied)
  else serve source (action r) clock.

Definition http_mesh_stats (ids : list NodeId) (now : Z) : prog State (list Mailbox.MeshStats) :=
  reading (fun s => Mailbox.mesh_stats (mesh s) ids now).

(** ** What the mailbox carries and what is delivered

    The state a run is in at each time, and the requests of it. *)

Section Served.
Context (Seen : nat -> State -> Prop) (requests : list MeshRequest).

(** Something holds of the state of the run at a time between two. *)
Definition within (t1 t2 : nat) (F : State -> Prop) : Prop := exists t s, (t1 <= t <= t2)%nat /\ Seen t s /\ F s.

Definition known (t1 t2 : nat) (id : NodeId) (n : NodeRecord) : Prop := within t1 t2 (fun s => get_node (store s) id = Some n).

Definition policy_seen (t1 t2 : nat) (p : PathTypes.ClusterPolicy) : Prop :=
  within t1 t2 (fun s => get_cluster_policy (store s) (config_cluster_id config) = Some p).

Definition gateway_seen (t1 t2 : nat) (client gateway : NodeRecord) : Prop :=
  Overlay.role_is_client (Overlay.role client) = true ->
  within t1 t2 (fun s => gateway_node_id <$> bt_get (Overlay.node_id client) (client_gateway_selections (store s)) = Some (Overlay.node_id gateway)).

(** Two nodes may talk, by what was stored between two times: they are of one cluster, neither is
    stopped, the rules of the policy allow both directions, and a client talks to its gateway. *)
Definition authorized (t1 t2 : nat) (a b : NodeRecord) : Prop :=
  (exists p, policy_seen t1 t2 p /\ pair_allowed p a b = true) /\ gateway_seen t1 t2 a b /\ gateway_seen t1 t2 b a.

(** A request that a node registered at that time signed, and that says what it asks for. *)
Definition signed_by (t : nat) (r : MeshRequest) (n : NodeRecord) : Prop :=
  known t t (RequestAuth.query_node_id (query r)) n /\ Overlay.is_administratively_stopped n = false /\ commits r = Ok tt /\
  RequestAuth.verify_control_plane_node_query_signature (query r) RequestAuth.QueryHttpMesh (Overlay.identity_public_key n) = Ok tt.

(** The packets of an envelope are WireGuard packets, and its size is theirs. *)
Definition wireguard_batch (e : Mailbox.MeshEnvelope) : Prop :=
  0 < lenZ (Mailbox.packets e) <= Mailbox.MAX_BATCH_PACKETS /\
  exists ps, Forall2 (fun text p => b64_decode text = Some p /\ wireguard_packet p = true) (Mailbox.packets e) ps /\
    Mailbox.byte_count e = Mailbox.sumZ (map (fun p => lenZ p) ps).

(** A batch sent by time [t], as it is, by the node it names. Between the time the request was
    authenticated and the time the batch was stored, the node was found allowed to send it. *)
Definition carried (t : nat) (e : Mailbox.MeshEnvelope) : Prop :=
  wireguard_batch e /\
  exists t1 t2 r n target, (t1 <= t2 <= t)%nat /\ r ∈ requests /\ signed_by t1 r n /\
    action r = Send (Mailbox.target e) (Mailbox.batch_id e) (Mailbox.packets e) /\
    Mailbox.source e = Overlay.node_id n /\ known t1 t2 (Mailbox.target e) target /\ authorized t1 t2 n target.

Definition mesh_ok (t : nat) (s : State) : Prop := Mailbox.mailbox_ok (carried t) (mesh s) /\ bt_wf (nodes (store s)).

(** A batch waits for its recipient at a time. *)
Definition waiting (t : nat) (e : Mailbox.MeshEnvelope) : Prop :=
  within t t (fun s => exists v, v ∈ Mailbox.pending_for (Mailbox.target e) (mesh s) /\ Mailbox.envelope v = e).

(** What a response given at time [t] delivers: at [t1] the node it is for signed the poll; at
    [t2] it waits, sent as above; and from then until [t3] the records of the two nodes, the
    policy and the gateways are read again, and by them the two may talk. *)
Definition delivered_ok (r : MeshRequest) (t : nat) (x : result MeshResponse error) : Prop :=
  forall response, x = Ok response -> forall e, e ∈ envelopes response ->
    exists t1 t2 t3 n m peer, (t1 <= t2 <= t3)%nat /\ (t3 <= t)%nat /\
      signed_by t1 r n /\ Mailbox.target e = Overlay.node_id n /\ waiting t2 e /\ carried t2 e /\
      known t2 t3 (Mailbox.target e) m /\ known t2 t3 (Mailbox.source e) peer /\ authorized t2 t3 peer m.

(** A gateway may forward between two addresses: they are those of two nodes of its cluster, one
    of which, and only one, is reached over HTTP alone and may talk to the gateway; neither is
    stopped, the rules allow both directions, and a client among them selected this gateway. *)
Definition forward_ok (t1 t2 : nat) (gateway : NodeRecord) (from to : IpAddr) : Prop :=
  Overlay.role_is_client (Overlay.role gateway) = false /\ Overlay.is_http_only gateway = false /\
  exists origin target,
    (exists id, known t1 t2 id origin) /\ Overlay.vpn_ip origin = from /\ (exists id, known t1 t2 id target) /\ Overlay.vpn_ip target = to /\
    Overlay.is_http_only origin = negb (Overlay.is_http_only target) /\
    authorized t1 t2 gateway (if Overlay.is_http_only origin then origin else target) /\
    Overlay.cluster_id origin = Overlay.cluster_id gateway /\ Overlay.cluster_id target = Overlay.cluster_id gateway /\
    (exists p, policy_seen t1 t2 p /\ pair_allowed p origin target = true) /\
    gateway_seen t1 t2 origin gateway /\ gateway_seen t1 t2 target gateway.

Definition forwarded_ok (r : MeshRequest) (t : nat) (x : result MeshResponse error) : Prop :=
  forall from to, action r = Forward from to -> is_ok x = true ->
    exists t1 t2 t3 n, (t1 <= t2 <= t3)%nat /\ (t3 <= t)%nat /\ signed_by t1 r n /\ forward_ok t2 t3 n from to.

(** *** Longer windows *)

Lemma within_wider t1 t2 u1 u2 F : (u1 <= t1)%nat -> (t2 <= u2)%nat -> within t1 t2 F -> within u1 u2 F.
Proof. intros H1 H2 (t & s & Ht & Hs). exists t, s. split; [lia|done]. Qed.

Lemma within_at t1 t2 t s (F : State -> Prop) : Seen t s -> F s -> (t1 <= t <= t2)%nat -> within t1 t2 F.
Proof. intros Hs HF Ht. by exists t, s. Qed.

Lemma gateway_wider t1 t2 u1 u2 a b : (u1 <= t1)%nat -> (t2 <= u2)%nat -> gateway_seen t1 t2 a b -> gateway_seen u1 u2 a b.
Proof. intros H1 H2 H Hc. by eapply within_wider, H. Qed.

Lemma authorized_wider t1 t2 u1 u2 a b : (u1 <= t1)%nat -> (t2 <= u2)%nat -> authorized t1 t2 a b -> authorized u1 u2 a b.
Proof.
  intros H1 H2 ((p & Hp & Ha) & Hab & Hba). split; [exists p; split; [by eapply within_wider|done]|]. split; by eapply gateway_wider.
Qed.

Lemma carried_later t u e : (t <= u)%nat -> carried t e -> carried u e.
Proof. intros Hu (Hw & t1 & t2 & r & n & target & Ht & H). split; [done|]. exists t1, t2, r, n, target. split; [lia|done]. Qed.

Lemma mesh_ok_later t s : mesh_ok t s -> mesh_ok (S t) s.
Proof. intros [H Hw]. split; [|done]. eapply Mailbox.mailbox_ok_mono; [|exact H]. intros e. apply carried_later. lia. Qed.

Lemma delivered_lasting r : lasting (delivered_ok r).
Proof.
  intros t u x Hu H response Hx e He. destruct (H response Hx e He) as (t1 & t2 & t3 & n & m & peer & H1 & H2 & H3).
  exists t1, t2, t3, n, m, peer. split; [done|]. split; [lia|done].
Qed.

Lemma forwarded_lasting r : lasting (forwarded_ok r).
Proof.
  intros t u x Hu H from to Ha Hx. destruct (H from to Ha Hx) as (t1 & t2 & t3 & n & H1 & H2 & H3).
  exists t1, t2, t3, n. split; [done|]. split; [lia|done].
Qed.

Local Abbreviation ok := (timed mesh_ok Seen).
Local Abbreviation anything := (fun (_ : nat) _ => True).

(** *** Accesses *)

Lemma ok_reading {A B} t (f : State -> B) (k : B -> prog State A) Q :
  (forall u s, (t <= u)%nat -> mesh_ok u s -> Seen u s -> ok (S u) (k (f s)) Q) -> ok t (prog_bind (reading f) k) Q.
Proof. apply (timed_looking _ _ mesh_ok_later t f k Q). Qed.

Lemma ok_changing {A} t (f : State -> State) (k : unit -> prog State A) Q :
  (forall s, mesh (f s) = mesh s /\ nodes (store (f s)) = nodes (store s)) -> (forall u, (t <= u)%nat -> ok u (k tt) Q) ->
  ok t (prog_bind (changing f) k) Q.
Proof.
  intros Hf Hk u s Hu Hi _. cbn. apply mesh_ok_later in Hi. unfold mesh_ok in *. destruct (Hf s) as [-> ->].
  split; [done|]. intros _. apply Hk. lia.
Qed.

Lemma ok_storing {A B} t (f : InMemoryStore -> InMemoryStore * B) (k : B -> prog State A) Q :
  (forall st, bt_wf (nodes st) -> bt_wf (nodes (f st).1)) ->
  (forall u s, (t <= u)%nat -> Seen u s -> Seen (S u) (with_store s (f (store s)).1) -> ok (S u) (k (f (store s)).2) Q) ->
  ok t (prog_bind (storing f) k) Q.
Proof.
  intros Hw H u s Hu [Hi Hn]%mesh_ok_later Hs. cbn. specialize (H u s Hu Hs). apply Hw in Hn. by destruct (f (store s)) as [st b].
Qed.

Lemma ok_meshing {A B} t (f : Mailbox.MemoryState -> Mailbox.MemoryState * B) (k : B -> prog State A) Q :
  (forall u m, (t <= u)%nat -> Mailbox.mailbox_ok (carried (S u)) m -> Mailbox.mailbox_ok (carried (S u)) (f m).1 /\
     (forall s, Seen (S u) s -> mesh s = (f m).1 -> ok (S u) (k (f m).2) Q)) ->
  ok t (prog_bind (meshing f) k) Q.
Proof.
  intros H u s Hu [Hi Hn]%mesh_ok_later Hs. cbn. destruct (H u (mesh s) Hu Hi) as [H1 H2]. destruct (f (mesh s)) as [m b].
  split; [done|]. intros Hs'. by apply (H2 _ Hs').
Qed.

Lemma initialized (st : @InMemoryStore Net Snapshot) p st' q :
  initialize_cluster_policy_if_absent st (config_cluster_id config) p = (st', Ok q) ->
  get_cluster_policy st' (config_cluster_id config) = Some q.
Proof.
  unfold initialize_cluster_policy_if_absent. destruct (get_cluster_policy st _) eqn:E; [by intros [= <- <-]|].
  destruct (advance_in_memory_overlay_routing_epoch _ _); [|done]. intros [= <- <-]. apply bt_get_insert.
Qed.

Lemma initialize_wf cluster p (st : @InMemoryStore Net Snapshot) :
  bt_wf (nodes st) -> bt_wf (nodes (initialize_cluster_policy_if_absent st cluster p).1).
Proof.
  intros Hw. unfold initialize_cluster_policy_if_absent. destruct (get_cluster_policy st _); [done|].
  destruct (advance_in_memory_overlay_routing_epoch _ _) eqn:Ea; [|done]. apply advance_fields in Ea as [En _]. cbn. by rewrite En.
Qed.

Lemma ok_policy_state t : ok t (current_cluster_policy_state config) (fun u r => forall x, r = Ok x -> policy_seen t u x.1).
Proof.
  apply ok_reading. intros u s Hu _ Hs. destruct (get_cluster_policy _ _) as [p|] eqn:E.
  { apply timed_check; [|done]. intros [] _. apply ok_changing; [done|]. intros v Hv x [= <-]. apply (within_at _ _ u s); [done..|lia]. }
  eapply (timed_try _ _ _ _ _ anything); [|intros v cached Hv _|done].
  - apply ok_reading. intros v s' _ _ _ p. cbn. by destruct (check_policy _ _).
  - apply ok_storing; [apply initialize_wf|]. intros w s' Hw Hs' Hs''. pose proof (initialized (store s') cached) as Hinit.
    destruct (initialize_cluster_policy_if_absent _ _ _) as [st [p|]]; [|done]. apply timed_check; [|done]. intros [] _.
    apply ok_changing; [done|]. intros z Hz x [= <-]. apply (within_at _ _ (S w) _ _ Hs''); [by apply Hinit|cbn; lia].
Qed.

Lemma ok_policy t : ok t (current_cluster_policy config) (fun u r => forall p, r = Ok p -> policy_seen t u p).
Proof.
  eapply (timed_try _ _ _ _ _ (fun u x => policy_seen t u x.1)); [apply ok_policy_state| |done]. intros u [p x] Hu Hp q [= <-]. done.
Qed.

Lemma ok_gateway t client gateway :
  ok t (check_gateway client (Overlay.node_id gateway)) (fun u r => forall x, r = Ok x -> gateway_seen t u client gateway).
Proof.
  unfold check_gateway, gateway_seen. destruct (Overlay.role_is_client _); [|done]. apply ok_reading. intros u s Hu _ Hs.
  destruct (bt_get _ _) as [sel|] eqn:E; [|done]. case_bool_decide; [|done]. intros x _ _.
  apply (within_at _ _ u s); [done|by rewrite E; cbn; f_equal|lia].
Qed.

Lemma ok_authorize t a b : ok t (authorize_mesh_pair a b) (fun u r => forall x, r = Ok x -> authorized t u a b).
Proof.
  eapply timed_try; [apply ok_policy|intros u p Hu Hp|done]. destruct (negb (pair_allowed p a b)) eqn:E; [done|]. apply negb_false_iff in E.
  eapply (timed_try _ _ _ _ _ (fun v _ => gateway_seen u v a b)); [apply ok_gateway|intros v [] Hv Ha|done].
  eapply timed_mono; [apply ok_gateway|]. intros w r Hw H x Hx. split; [exists p; split; [eapply within_wider; [| |exact Hp]; lia|done]|].
  split; [eapply gateway_wider; [| |exact Ha]; lia|eapply gateway_wider; [| |by eapply H]; lia].
Qed.

Lemma ok_nodes t ids : ok t (get_nodes_by_ids ids) anything.
Proof.
  revert t. induction ids as [|id ids IH]; intros t; [done|]. cbn [get_nodes_by_ids]. apply ok_reading. intros u s Hu _ _.
  eapply timed_bind; [apply IH|]. by intros v a Hv _.
Qed.

(** *** The actions *)

Definition no_envelopes (x : result MeshResponse error) : Prop := forall response, x = Ok response -> envelopes response = [].

Local Abbreviation nothing := (fun (_ : nat) x => no_envelopes x).

Lemma no_envelopes_ok r t x : no_envelopes x -> delivered_ok r t x.
Proof. intros H response Hr e. rewrite (H _ Hr). by intros ?%not_elem_of_nil. Qed.

Lemma no_envelopes_err e : no_envelopes (Err e).
Proof. done. Qed.

Hint Resolve no_envelopes_err : core.

Lemma ok_lease t n ephemeral http_only now : ok t (serve_lease n ephemeral http_only now) nothing.
Proof.
  unfold serve_lease. destruct (_ || _)%bool; [done|]. apply ok_meshing. intros u m Hu Hm.
  split; [by apply (Mailbox.mailbox_ok_batches _ m)|]. by intros s _ _ response [= <-].
Qed.

Lemma removed_wf id (st : @InMemoryStore Net Snapshot) : bt_wf (nodes st) -> bt_wf (nodes (ControlStore.remove_node st id).1).
Proof.
  intros Hw. unfold ControlStore.remove_node. destruct (get_node st id); [|done].
  destruct (advance_in_memory_overlay_routing_epoch _ _) eqn:Ea; [|done]. apply advance_fields in Ea as [En _]. cbn. rewrite En. by apply bt_wf_remove.
Qed.

Lemma ok_leave t n : ok t (serve_leave n) nothing.
Proof.
  eapply (timed_try _ _ _ _ _ anything); [|by intros u _ _ _ response [= <-]|done].
  apply ok_storing; [apply removed_wf|]. intros u s _ _ _. destruct (ControlStore.remove_node _ _).2; [|done].
  repeat (apply ok_changing; [done|]; intros ? _). done.
Qed.

Lemma found_known t u s ip n : mesh_ok t s -> Seen t s -> (u <= t)%nat ->
  List.find (fun n => bool_decide (Overlay.vpn_ip n = ip)) (list_nodes (store s)) = Some n ->
  (exists id, known u t id n) /\ Overlay.vpn_ip n = ip.
Proof.
  intros [_ Hw] Hs Hu [Hin Hip%bool_decide_eq_true]%find_some. split; [|done]. apply in_map_iff in Hin as ([id n'] & <- & Hin).
  exists id. apply (within_at _ _ t s); [done| |lia]. by apply bt_get_elem, list_elem_of_In.
Qed.

Lemma ok_forward t n from to :
  ok t (serve_forward n from to) (fun u x => no_envelopes x /\ (is_ok x = true -> forward_ok t u n from to)).
Proof.
  unfold serve_forward. destruct (Overlay.role_is_client _ || _)%bool eqn:Eg; [done|]. apply orb_false_iff in Eg as [Eg1 Eg2].
  apply ok_reading. intros u1 s1 Hu1 Hi1 Hs1. apply timed_check; [|done]. intros origin Ho%ok_or_ok.
  apply (found_known u1 t) in Ho as [[id1 Ho] Hof]; [|done..].
  apply ok_reading. intros u2 s2 Hu2 Hi2 Hs2. apply timed_check; [|done]. intros target Ht%ok_or_ok.
  apply (found_known u2 t) in Ht as [[id2 Ht] Htf]; [|done || lia..].
  apply timed_check; [|done]. intros cloud Hcloud.
  assert (Hx : Overlay.is_http_only origin = negb (Overlay.is_http_only target) /\ cloud = if Overlay.is_http_only origin then origin else target)
    by (by destruct (Overlay.is_http_only origin), (Overlay.is_http_only target); inv Hcloud).
  destruct Hx as [Hx ->].
  eapply timed_try; [apply ok_authorize|intros u3 x3 Hu3 Hauth|done]. eapply timed_try; [apply ok_policy|intros u4 policy Hu4 Hp|done].
  destruct (_ || _)%bool eqn:E; [done|]. eapply timed_try; [apply ok_gateway|intros u5 x5 Hu5 H1|done].
  eapply timed_try; [apply ok_gateway|intros u6 x6 Hu6 H2|done].
  split; [by intros response [= <-]|]. intros _. rewrite !orb_false_iff, !negb_false_iff, !bool_decide_eq_true in E.
  destruct E as [[[[E1 E2] E3] E4] E5]. split_and!; [done..|]. exists origin, target. split_and!; try done.
  - exists id1. eapply within_wider; [| |exact Ho]; lia.
  - exists id2. eapply within_wider; [| |exact Ht]; lia.
  - eapply authorized_wider; [| |exact Hauth]; lia.
  - exists policy. split; [eapply within_wider; [| |exact Hp]; lia|].
    unfold pair_allowed. rewrite E3, E4, bool_decide_true by congruence. cbn. destruct (bool_decide _); [done|]. cbn in *.
    by apply orb_false_iff in E5 as [->%negb_false_iff ->%negb_false_iff].
  - eapply gateway_wider; [| |exact H1]; lia.
  - eapply gateway_wider; [| |exact H2]; lia.
Qed.

Lemma ok_transport t source target : ok t (transport_for source target) anything.
Proof.
  unfold transport_for. destruct (client_of _ _); [|done]. apply ok_reading. intros u s _ _ _. destruct (bt_get _ _); [|done].
  by apply ok_reading.
Qed.

Lemma ok_peer t n address : ok t (serve_peer n address) nothing.
Proof.
  unfold serve_peer. eapply (timed_bind _ _ _ _ _ anything).
  { destruct (parse_ip_addr address); by apply (ok_reading _ _ Ret). }
  intros u found Hu _. apply timed_check; [|done]. intros target _.
  eapply (timed_try _ _ _ _ _ anything); [eapply timed_mono; [apply ok_policy|done]|intros v policy _ _|done]. cbv zeta. destruct (_ && _)%bool; [done|].
  eapply (timed_try _ _ _ _ _ anything); [eapply timed_mono; [apply ok_transport|done]|intros w transport _ _|done].
  eapply (timed_try _ _ _ _ _ anything); [case_bool_decide; [done|]; eapply timed_mono; [apply ok_authorize|done]|intros ? _ _ _|done].
  eapply (timed_bind _ _ _ _ _ anything).
  { unfold clients_behind. case_bool_decide; [done|]. by apply ok_reading. }
  intros ? ids _ _. eapply timed_bind; [apply ok_nodes|]. by intros ? clients _ _ response [= <-].
Qed.

Lemma ok_routes t n after limit now : ok t (serve_routes n after limit now) nothing.
Proof.
  unfold serve_routes. destruct (Overlay.role_is_client _); [done|]. apply ok_reading. intros u s _ _ _. destruct (member_page _ _ _ _ _) as [ids cursor].
  eapply (timed_try _ _ _ _ _ anything); [eapply timed_mono; [apply ok_policy|done]|intros ? policy _ _|done].
  eapply timed_bind; [apply ok_nodes|]. by intros ? found _ _ response [= <-].
Qed.

Lemma packets_checked packets : forall n size, 0 <= n -> n + 65507 * lenZ packets < 2 ^ 64 -> check_packets n packets = Ok size ->
  exists ps, Forall2 (fun text p => b64_decode text = Some p /\ wireguard_packet p = true) packets ps /\
    size = n + Mailbox.sumZ (map (fun p => lenZ p) ps) /\ 0 <= Mailbox.sumZ (map (fun p => lenZ p) ps).
Proof.
  induction packets as [|text packets IH]; intros n size Hn Hb H; cbn [check_packets] in H.
  { injection H as <-. exists []. split; [constructor|]. cbn. lia. }
  destruct (b64_decode text) as [p|] eqn:Ed; [|done]. cbn [ok_or] in H. destruct (wireguard_packet p) eqn:Ew; [|done]. cbn [negb] in H.
  assert (Hl : lenZ p <= 65507) by (unfold wireguard_packet in Ew; lia). cbn [length] in Hb.
  rewrite as_width_id in H by (unfold in_width; lia). destruct (IH (n + lenZ p) size) as (ps & Hps & -> & H0); [lia..|done|].
  exists (p :: ps). split; [by constructor|]. cbn [map Mailbox.sumZ foldr]. unfold Mailbox.sumZ in *. lia.
Qed.

Lemma ok_send t0 t r n target batch_id packets now : (t0 <= t)%nat -> r ∈ requests -> signed_by t0 r n ->
  action r = Send target batch_id packets -> check_action (action r) = Ok tt -> ok t (serve_send n target batch_id packets now) nothing.
Proof.
  intros Ht Hr Hn Ha Hc. rewrite Ha in Hc. cbn in Hc. destruct (_ || _)%bool eqn:E in Hc; [done|]. clear Hc.
  rewrite !orb_false_iff in E. destruct E as [[[_ He%bool_decide_eq_false] Hl] _].
  apply ok_reading. intros u s Hu _ Hs. destruct (get_node (store s) target) as [peer|] eqn:Ep; [|done]. apply timed_check; [|done]. intros _ [= <-].
  eapply (timed_try _ _ _ _ _ (fun v _ => authorized (S u) v n peer)); [apply ok_authorize|intros v _ Hv Hauth|done].
  apply timed_check; [|done]. intros size Hsize. destruct (_ <? size) eqn:Em; [done|].
  destruct (packets_checked packets 0 size) as (ps & Hps & Es & H0); [done|unfold Mailbox.MAX_BATCH_PACKETS in Hl; lia|done|].
  apply ok_meshing. intros w m Hw Hm. split.
  - apply Mailbox.enqueue_ok; [done|cbn; lia|]. split.
    + split; [cbn; destruct packets; [done|cbn in *; lia]|]. exists ps. split; [done|]. cbn. lia.
    + exists t0, (S w), r, n, peer. split_and!; try done; [lia| |].
      * apply (within_at _ _ u s); [done..|lia].
      * eapply authorized_wider; [| |exact Hauth]; lia.
  - intros s' _ _. destruct (Mailbox.enqueue m _ now).2 as [[]|]; try done; by intros response [= <-].
Qed.

(** An envelope whose two nodes may talk, by what was read between two times. *)
Definition permitted (t1 t2 : nat) (id : NodeId) (e : Mailbox.MeshEnvelope) : Prop :=
  exists m peer, known t1 t2 id m /\ known t1 t2 (Mailbox.source e) peer /\ authorized t1 t2 peer m.

Lemma permitted_wider t1 t2 u1 u2 id e : (u1 <= t1)%nat -> (t2 <= u2)%nat -> permitted t1 t2 id e -> permitted u1 u2 id e.
Proof.
  intros H1 H2 (m & peer & Hm & Hp & Ha). exists m, peer. split_and!; [by eapply within_wider..|by eapply authorized_wider].
Qed.

Lemma ok_sort_out t1 id l : forall t allowed denied, (t1 <= t)%nat -> Forall (permitted t1 t id) allowed ->
  ok t (sort_out id l allowed denied) (fun u x => forall y, x = Ok y ->
    Forall (permitted t1 u id) y.1 /\ forall e, e ∈ y.1 -> e ∈ allowed \/ e ∈ l).
Proof.
  induction l as [|e l IH]; intros t allowed denied Ht Hp; cbn [sort_out].
  { intros y [= <-]. split; [done|by left]. }
  apply ok_reading. intros u s Hu _ Hs. destruct (get_node (store s) id) as [m|] eqn:Em; [|done]. apply ok_reading. intros u' s' Hu' _ Hs'.
  assert (Hold : forall v, (t <= v)%nat -> Forall (permitted t1 v id) allowed).
  { intros v Hv. eapply Forall_impl; [exact Hp|]. intros x. by apply permitted_wider. }
  eapply (timed_bind _ _ _ _ _ (fun v (b : bool) => b = true -> permitted t1 v id e)).
  - destruct (get_node (store s') (Mailbox.source e)) as [peer|] eqn:Ep; [|done].
    eapply timed_bind; [apply ok_authorize|]. intros v [x|] Hv Ha; [|done]. intros _. exists m, peer.
    split_and!; [apply (within_at _ _ u s); [done..|lia]|apply (within_at _ _ u' s'); [done..|lia]|].
    eapply authorized_wider; [| |by eapply Ha]; lia.
  - intros v b Hv Hb. destruct b.
    + eapply timed_mono; [apply IH; [lia|]; apply Forall_app; by split; [apply Hold; lia|repeat constructor; apply Hb]|].
      intros w x _ H y Hy. destruct (H y Hy) as [H1 H2]. split; [done|]. intros e' He'. apply H2 in He'.
      rewrite elem_of_app, list_elem_of_singleton in He'. rewrite elem_of_cons. tauto.
    + eapply timed_mono; [apply IH; [lia|]; apply Hold; lia|]. intros w x _ H y Hy. destruct (H y Hy) as [H1 H2]. split; [done|].
      intros e' He'. apply H2 in He'. rewrite elem_of_cons. tauto.
Qed.

Lemma ok_poll_loop t0 r n rs : signed_by t0 r n -> Exists (fun x => deadline_over x = true) rs -> forall t acks, (t0 <= t)%nat ->
  ok t (poll_loop rs (Overlay.node_id n) acks) (delivered_ok r).
Proof.
  intros Hn He. induction rs as [|x rs IH]; [by apply Exists_nil in He|]. intros t acks Ht. cbn [poll_loop].
  apply ok_meshing. intros u m Hu Hm. split; [by apply Mailbox.poll_ok|]. intros s Hs Hms.
  pose proof (Mailbox.poll_content _ _ (Overlay.node_id n) acks (polled_at x) Hm) as Hc.
  pose proof (Mailbox.poll_waiting m (Overlay.node_id n) acks (polled_at x)) as Hwait.
  eapply timed_try; [apply (ok_sort_out (S u)); [lia|constructor]| |done]. intros v [allowed denied] Hv [Hp Hin]. cbn [fst] in *.
  destruct (negb _ || _)%bool eqn:E.
  - eapply (timed_bind _ _ _ _ _ anything).
    { destruct denied; [done|]. apply (ok_meshing _ _ Ret). intros w m' _ Hm'. split; [by apply Mailbox.poll_ok|done]. }
    intros w _ Hw _ response [= <-] e Hd. cbn in Hd. rewrite Forall_forall in Hp. destruct (Hp e Hd) as (b & peer & Hb & Hpeer & Ha).
    destruct (Hin e Hd) as [?%not_elem_of_nil|Hl]; [done|]. destruct (Hc e Hl) as [Htg Hcar].
    exists t0, (S u), v, n, b, peer. rewrite Htg. split_and!; try done; try lia.
    apply (within_at _ _ (S u) s); [done| |lia]. rewrite Hms, Htg. by apply Hwait.
  - apply orb_false_iff in E as [_ E]. apply IH; [|lia]. apply Exists_cons in He as [He|He]; [congruence|done].
Qed.

Lemma authenticated max_age nodes st q now st' n :
  RequestAuth.authenticate_node_query max_age nodes st q RequestAuth.QueryHttpMesh now = (st', Ok n) ->
  bt_get (RequestAuth.query_node_id q) nodes = Some n /\ Overlay.is_administratively_stopped n = false /\
  RequestAuth.verify_control_plane_node_query_signature q RequestAuth.QueryHttpMesh (Overlay.identity_public_key n) = Ok tt.
Proof.
  unfold RequestAuth.authenticate_node_query. destruct (RequestAuth.query_signature q) as [signature|]; [|done].
  destruct (bt_get _ nodes) as [node|]; [|done]. destruct (_ && negb _)%bool; [done|].
  destruct (RequestAuth.verify_control_plane_node_query_signature _ _ _) as [[]|] eqn:E; [|done]. cbn [RequestAuth.rejected_by map_err].
  destruct (negb _); [done|]. rewrite bool_decide_true by done. destruct (Overlay.is_administratively_stopped node) eqn:Es; [done|].
  destruct (RequestAuth.consume_nonce _ _ _ _ _) as [m [[]|]]; try done. intros [= <- <-]. done.
Qed.

(** Time passes: a poll comes to a turn at which its deadline is over. *)
Definition clock_ok (clock : Clock) : Prop := Exists (fun x => deadline_over x = true) (rounds clock).

Lemma ok_record_polling t n now : ok t (record_polling n now) anything.
Proof.
  unfold record_polling. destruct (negb _); [done|]. apply ok_reading. intros u s _ _ _. destruct (negb _); [done|].
  apply ok_reading. intros u' s' _ _ _. destruct (health_stale _ _); [|done]. by apply (ok_changing _ _ Ret).
Qed.

Lemma ok_request t r clock : r ∈ requests -> clock_ok clock ->
  ok t (http_mesh_request r clock) (fun u x => delivered_ok r u x /\ forwarded_ok r u x).
Proof.
  intros Hr Hclock. apply timed_check; [|done]. intros [] Hc. apply timed_check; [|done]. intros [] Ha.
  eapply (timed_try _ _ _ _ _ (fun u n => exists t0, (t0 <= u)%nat /\ signed_by t0 r n)); [|intros u n Hu (t0 & Ht0 & Hn)|done].
  - intros u s Hu Hi%mesh_ok_later Hs. cbn. destruct (RequestAuth.authenticate_node_query _ _ _ _ _ _) as [a x] eqn:E. split; [done|].
    intros _ n Ex. cbn in Ex. subst x. apply authenticated in E as (Hg & Hst & Hv). exists u. split; [lia|]. split_and!; try done.
    by apply (within_at _ _ u s).
  - destruct (Overlay.is_administratively_stopped n); [done|]. unfold serve. unfold forwarded_ok. destruct (action r) eqn:Eact.
    1-3, 5-6: eapply timed_mono; [|intros v x _ Hx; split; [by apply no_envelopes_ok, Hx|done]].
    + apply ok_lease.
    + apply ok_routes.
    + apply ok_leave.
    + apply ok_peer.
    + apply (ok_send t0 u r); [done..|]. by rewrite Eact.
    + eapply timed_mono; [by apply ok_forward|]. intros v x Hv [Hx Hf]. split; [by apply no_envelopes_ok|].
      intros from to [= <- <-] Hok. exists t0, u, v, n. split; [lia|]. split; [lia|]. split; [done|]. by apply Hf.
    + eapply timed_bind; [apply ok_record_polling|]. intros v _ Hv _. eapply timed_mono; [apply (ok_poll_loop t0); [done..|lia]|done].
Qed.

End Served.

(** ** Pages of members *)

(** The pages a node gets that follows the cursors. *)
Fixpoint all_pages (fuel : nat) (m : Mailbox.MemoryState) (cluster : bytes) (after : option NodeId) (limit now : Z) : list NodeId :=
  match fuel with
  | O => []
  | S fuel =>
      let '(page, cursor) := member_page m cluster after limit now in
      page ++ match cursor with Some id => all_pages fuel m cluster (Some id) limit now | None => [] end
  end.

Lemma listed_after cluster id now m : bt_retain (Mailbox.listed cluster (Some id) now) m =
  List.filter (fun kv => match kcmp kv.1 id with Gt => true | _ => false end) (bt_retain (Mailbox.listed cluster None now) m).
Proof.
  induction m as [|[k [[[a b] c] e]] m IH]; [done|]. unfold bt_retain in *. cbn [List.filter fst snd Mailbox.listed].
  rewrite andb_true_r, IH. destruct (b && _ && _)%bool; [|done]. cbn [List.filter andb fst]. by destruct (kcmp k id).
Qed.

(** Of a list in order, what comes after one of its elements. *)
Lemma filter_after {V} (A : list (NodeId * V)) : forall B k v, bt_wf (A ++ (k, v) :: B) ->
  List.filter (fun kv => match kcmp kv.1 k with Gt => true | _ => false end) (A ++ (k, v) :: B) = B.
Proof.
  induction A as [|[k0 v0] A IH]; intros B k v Hw; cbn [app List.filter fst] in *; apply bt_wf_cons in Hw as [Hw Hlt].
  - rewrite kcmp_refl. clear Hw. induction B as [|[k1 v1] B IH]; [done|]. cbn [List.filter fst].
    assert (E : kcmp k1 k = Gt) by (apply kcmp_gt; by apply (Hlt (k1, v1)), list_elem_of_here). rewrite E. f_equal. apply IH.
    intros kv Hin. apply Hlt. by right.
  - assert (E : kcmp k0 k = Lt) by (apply (Hlt (k, v)), elem_of_app; right; by left). rewrite E. by apply IH.
Qed.

Definition all_members (m : Mailbox.MemoryState) (cluster : bytes) (now : Z) : btree NodeId Mailbox.Member :=
  bt_retain (Mailbox.listed cluster None now) (Mailbox.members m).

Lemma pages_from m cluster limit now : 0 < limit -> bt_wf (Mailbox.members m) -> forall fuel A B after,
  all_members m cluster now = A ++ B ->
  (after = None /\ A = [] \/ exists A' k v, after = Some k /\ A = A' ++ [(k, v)]) -> (length B < fuel)%nat ->
  all_pages fuel m cluster after limit now = map fst B.
Proof.
  intros Hl Hw. induction fuel as [|fuel IH]; intros A B after E Ha Hf; [lia|]. cbn [all_pages]. unfold member_page, Mailbox.list_members.
  assert (Hw' : bt_wf (all_members m cluster now)) by (by apply bt_wf_retain).
  assert (EB : bt_retain (Mailbox.listed cluster after now) (Mailbox.members m) = B).
  { destruct Ha as [[-> ->]|(A' & k & v & -> & ->)]; [done|]. rewrite listed_after. fold (all_members m cluster now).
    rewrite E in *. rewrite <- app_assoc in *. by apply filter_after. }
  rewrite EB. set (l := Z.to_nat limit). rewrite <- fmap_take, take_take, length_map, length_take.
  replace (l `min` (l + 1))%nat with l by lia. destruct (limit <? _) eqn:Ec.
  - assert (Hlen : (l < length B)%nat) by lia. pose proof (take_drop l B) as HB.
    destruct (take l B) as [|x page] using rev_ind; [exfalso; apply (f_equal length) in HB; cbn in HB; rewrite length_drop in HB; lia|].
    destruct x as [k v]. rewrite fmap_app. cbn [fmap list_fmap fst]. rewrite last_snoc.
    rewrite (IH (A ++ page ++ [(k, v)]) (drop l B)).
    + rewrite <- HB at 2. by rewrite map_app, map_app.
    + by rewrite E, <- HB at 1; rewrite <- !app_assoc.
    + right. exists (A ++ page), k, v. by rewrite app_assoc.
    + rewrite length_drop. lia.
  - rewrite take_ge by lia. by rewrite app_nil_r.
Qed.

(** ** Requests side by side *)

Definition side_by_side (s : State) (rs : list (MeshRequest * Clock)) : State * list (prog State (result MeshResponse error)) :=
  (s, map (fun r => http_mesh_request r.1 r.2) rs).

(** The state of a run of requests at a time. *)
Definition during (s : State) (rs : list (MeshRequest * Clock)) (moves : list (move State)) (t : nat) (s' : State) : Prop :=
  trace (side_by_side s rs) moves !! t = Some s'.

(** A state before any batch was sent. *)
Definition quiet_mesh (s : State) : Prop := mesh s = Mailbox.empty /\ bt_wf (nodes (store s)).

(** What else happens in the control plane: anything that leaves the mailbox alone and the nodes
    a map. It may change the policy, the nodes and their stop marks, and the gateways. *)
Definition harmless (f : State -> State) : Prop :=
  forall s, mesh (f s) = mesh s /\ (bt_wf (nodes (store s)) -> bt_wf (nodes (store (f s)))).

Definition fair_move (m : move State) : Prop := match m with Turn _ => True | Other f => harmless f end.

(** Every access a program makes is of this kind. *)
Fixpoint keeps_mesh {A} (p : prog State A) : Prop :=
  match p with
  | Ret _ | Stuck => True
  | Atomic act k => harmless (fun s => (act s).1) /\ forall b, keeps_mesh (k b)
  end.

Lemma keeps_bind {A B} (p : prog State A) (f : A -> prog State B) : keeps_mesh p -> (forall a, keeps_mesh (f a)) -> keeps_mesh (prog_bind p f).
Proof. intros Hp Hf. induction p as [a| |C act k IH]; cbn in *; [done..|]. split; [apply Hp|]. intros b. by apply IH, Hp. Qed.

Lemma keeps_try {A B} (p : prog State (result A error)) (f : A -> prog State (result B error)) :
  keeps_mesh p -> (forall a, keeps_mesh (f a)) -> keeps_mesh (prog_try p f).
Proof. intros Hp Hf. apply keeps_bind; [done|]. by intros [a|e]. Qed.

Lemma keeps_reading {B} (f : State -> B) : keeps_mesh (reading f).
Proof. split; [|done]. by intros s. Qed.

Lemma keeps_change (f : State -> State) : harmless f -> keeps_mesh (changing f).
Proof. by intros Hf. Qed.

Lemma keeps_storing {B} (f : InMemoryStore -> InMemoryStore * B) : (forall st, bt_wf (nodes st) -> bt_wf (nodes (f st).1)) -> keeps_mesh (storing f).
Proof. intros Hf. split; [|done]. intros s. specialize (Hf (store s)). by destruct (f (store s)) as [st b]. Qed.

Create HintDb mesh_steps.

Hint Resolve keeps_reading keeps_change keeps_storing initialize_wf removed_wf : mesh_steps.

Lemma advanced_wf (st st1 : @InMemoryStore Net Snapshot) cluster :
  advance_in_memory_overlay_routing_epoch st cluster = Ok st1 -> bt_wf (nodes st) -> bt_wf (nodes st1).
Proof. intros [En _]%advance_fields. by rewrite En. Qed.

Lemma policy_stored_wf cluster p expected (st : @InMemoryStore Net Snapshot) :
  bt_wf (nodes st) -> bt_wf (nodes (upsert_cluster_policy_if_route_catalog_epoch st cluster p expected).1).
Proof.
  intros Hw. unfold upsert_cluster_policy_if_route_catalog_epoch. destruct (overlay_route_catalog_epoch _); [|done].
  destruct (negb _); [done|]. destruct (bool_decide _); [done|].
  destruct (advance_in_memory_overlay_routing_epoch _ _) eqn:Ea; [|done]. exact (advanced_wf _ _ _ Ea Hw).
Qed.

Lemma inserted_wf n p e (st : @InMemoryStore Net Snapshot) : bt_wf (nodes st) -> bt_wf (nodes (insert_node_if_cluster_policy st n p e).1).
Proof.
  intros Hw. unfold insert_node_if_cluster_policy, insert_node. destruct (negb _); [done|]. destruct (catalog_unchanged _ _ _); [|done].
  destruct (bool_decide _); [done|]. destruct (advance_in_memory_overlay_routing_epoch _ _) eqn:Ea; [|done].
  apply bt_wf_insert. exact (advanced_wf _ _ _ Ea Hw).
Qed.

Lemma rejoined_wf u (st : @InMemoryStore Net Snapshot) : bt_wf (nodes st) -> bt_wf (nodes (rejoin_node_if_cluster_policy st u).1).
Proof.
  intros Hw. unfold rejoin_node_if_cluster_policy. destruct (negb _); [done|]. destruct (catalog_unchanged _ _ _); [|done].
  destruct (get_node st _); [|done]. destruct (negb _); [done|]. destruct (negb _); [done|].
  destruct (if bool_decide _ then _ else _) as [st1|] eqn:Ea; [|done]. apply bt_wf_insert.
  destruct (bool_decide _); [by injection Ea as <-|exact (advanced_wf _ _ _ Ea Hw)].
Qed.

Hint Resolve policy_stored_wf inserted_wf rejoined_wf : mesh_steps.

(** Follows a program through its accesses. *)
Ltac keep_mesh :=
  repeat (cbn beta iota; match goal with
  | |- forall _, _ => intros ?
  | |- keeps_mesh (Ret _) => exact I
  | |- keeps_mesh Stuck => exact I
  | |- keeps_mesh (prog_bind _ _) => apply keeps_bind
  | |- keeps_mesh (prog_try _ _) => apply keeps_try
  | |- keeps_mesh (reading _) => apply keeps_reading
  | |- keeps_mesh (changing _) => apply keeps_change; by intros ?
  | |- keeps_mesh (storing _) => apply keeps_storing; by auto with mesh_steps
  | |- keeps_mesh (let '(_, _) := ?x in _) => destruct x
  | |- keeps_mesh (match ?x with _ => _ end) => destruct x
  end).

Lemma keeps_policy_state : keeps_mesh (current_cluster_policy_state config).
Proof. unfold current_cluster_policy_state, cluster_policy, cache_cluster_policy. keep_mesh. Qed.

Lemma keeps_policy : keeps_mesh (current_cluster_policy config).
Proof. apply keeps_try; [apply keeps_policy_state|]. by intros []. Qed.

Lemma keeps_set_policy p : keeps_mesh (set_cluster_policy config p).
Proof.
  unfold set_cluster_policy. apply keeps_try; [done|]. intros _.
  generalize 3%nat. intros attempts. induction attempts as [|attempts IH]; [done|]. cbn [set_policy_loop]. unfold list_catalog, cache_cluster_policy. keep_mesh. exact IH.
Qed.

Lemma keeps_address sparse uuid n : keeps_mesh (fresh_address config sparse uuid n).
Proof.
  unfold fresh_address. destruct (_ && _)%bool; [by destruct (_ <=? 2)|]. apply keeps_bind; [apply keeps_reading|]. intros reserved.
  split; [|done]. intros s. by destruct (allocate_next _ _).
Qed.

Lemma keeps_insert fuel : forall n r p e, keeps_mesh (insert_loop config fuel n r p e).
Proof.
  induction fuel as [|fuel IH]; intros n r p e; [done|]. cbn [insert_loop].
  apply keeps_try; [apply keeps_address|]. keep_mesh; apply IH.
Qed.

Lemma keeps_register retries r : forall last, keeps_mesh (register_loop config retries last r).
Proof.
  induction retries as [|retries IH]; intros last; [done|]. cbn [register_loop].
  apply keeps_try; [apply keeps_policy_state|]. intros [p persisted]. apply keeps_try; [done|]. intros _.
  apply keeps_try; [unfold route_epoch, overlay_route_catalog_update_validation, list_catalog; keep_mesh|]. intros expected.
  apply keeps_bind; [|intros [n|e]; [done|]; destruct (is_conflict e); [apply IH|done]].
  unfold insert_or_rejoin, insert_node_with_fresh_vpn_ip, rejoin_existing_node. apply keeps_bind; [apply keeps_insert|]. keep_mesh.
Qed.

Lemma keeps_record c request sparse now uuid : keeps_mesh (register_participant_record_with_claims config c request sparse now uuid).
Proof.
  unfold register_participant_record_with_claims. apply keeps_try; [done|]. intros relay. apply keeps_try; [apply keeps_register|].
  intros n. keep_mesh.
Qed.

Lemma keeps_participant c request now uuid : keeps_mesh (register_participant_with_claims config c request now uuid).
Proof.
  unfold register_participant_with_claims, registration_response_for_node. apply keeps_try; [apply keeps_record|]. intros n.
  apply keeps_try; [apply keeps_policy|]. intros p. apply keeps_try; [apply keeps_policy|done].
Qed.

Lemma keeps_admit c now : keeps_mesh (admit_join (Snapshot := Snapshot) c now).
Proof. split; [|done]. intros s. by destruct (TokenLedger.admit_join _ _ _). Qed.

(** The joins, registrations, changes of the policy and removals of the control plane are among
    what may happen between two accesses of a request. *)
Theorem calls_harmless service c : keeps_mesh (thread config service c).
Proof.
  destruct c; apply keeps_bind; try done.
  - unfold join. apply keeps_try; [done|]. intros _. destruct (Overlay.role_is_client _); [done|].
    apply keeps_try; [apply keeps_admit|]. intros _. unfold register_with_claims. destruct (Overlay.role_is_client _); [done|].
    apply keeps_participant.
  - unfold join_http_node. apply keeps_try; [done|]. intros _. destruct (negb _); [done|].
    apply keeps_try; [apply keeps_admit|]. intros _. unfold register_http_node_with_claims. destruct (negb _); [done|]. apply keeps_record.
  - unfold register_client_with_claims. destruct (negb _); [done|]. apply keeps_participant.
  - apply keeps_set_policy.
  - unfold admin_remove_node, remove_verified_node, reset_allocator. keep_mesh.
  - unfold remove_node, remove_node_inner, reset_allocator. keep_mesh.
  - unfold remove_client, reset_allocator. apply keeps_try; [|keep_mesh].
    split; [|done]. intros s. by destruct (RequestAuth.authenticate_client_request _ _ _ _ _ _).
Qed.

Lemma mesh_play s rs moves : quiet_mesh s -> Forall (fun r => clock_ok r.2) rs -> Forall fair_move moves ->
  let c := play (side_by_side s rs) moves in
  let Seen := during s rs moves in
  mesh_ok Seen (map fst rs) (length moves) c.1 /\
  Forall2 (timed (mesh_ok Seen (map fst rs)) Seen (length moves)) c.2
    (map (fun r t x => delivered_ok Seen (map fst rs) r.1 t x /\ forwarded_ok Seen r.1 t x) rs).
Proof.
  intros [Hm Hw] Hc Hf. cbv zeta.
  apply (timed_play _ _ (mesh_ok_later _ _) _ moves) with (t := 0%nat).
  - apply Forall_fmap, Forall_forall. intros r _ t u x Hu [H1 H2]. split; [by eapply delivered_lasting|by eapply forwarded_lasting].
  - eapply Forall_impl; [exact Hf|]. intros m Hfair f -> t u [Hi Hn]%mesh_ok_later. destruct (Hfair u) as [E Hn'].
    unfold mesh_ok. rewrite E. split; [done|by apply Hn'].
  - done.
  - split; [|done]. cbn. rewrite Hm. apply Mailbox.mailbox_ok_empty.
  - cbn. apply Forall2_fmap_2, Forall_Forall2_diag, Forall_forall. intros [r clock] Hin. apply ok_request.
    + apply list_elem_of_fmap. by exists (r, clock).
    + rewrite Forall_forall in Hc. by apply (Hc _ Hin).
Qed.

(** C13: However requests of the mesh interleave, with each other and with changes of the policy,
    the nodes and the gateways, the mailbox stays within its bounds and carries nothing forged:
    for each recipient at most 256 batches and 8 MiB wait, each sender has at most 8192 batches,
    and every batch that waits holds 1 to 32 WireGuard packets of the size it states, as a
    registered node signed them in one of the requests, addressed to a node it was found allowed
    to talk to between the authentication of that request and the storing of the batch. No request
    hangs. *)
Theorem mailbox_safe s rs moves : quiet_mesh s -> Forall (fun r => clock_ok r.2) rs -> Forall fair_move moves ->
  let c := play (side_by_side s rs) moves in
  let m := mesh c.1 in
  (forall id, lenZ (Mailbox.pending_for id m) <= Mailbox.MAX_PENDING_BATCHES /\
     Mailbox.sumZ (map (fun v => Mailbox.byte_count (Mailbox.envelope v)) (Mailbox.pending_for id m)) <= Mailbox.MAX_PENDING_BYTES /\
     lenZ (List.filter (fun v => bool_decide (Mailbox.source (Mailbox.envelope v) = id)) (bt_values (Mailbox.batches m))) <= Mailbox.MAX_SOURCE_BATCHES /\
     forall v, v ∈ Mailbox.pending_for id m -> carried (during s rs moves) (map fst rs) (length moves) (Mailbox.envelope v)) /\
  Stuck ∉ c.2.
Proof.
  intros Hm Hc Hf. cbv zeta. destruct (mesh_play s rs moves Hm Hc Hf) as [[Hok _] Hs]. split.
  - intros id. rewrite Mailbox.pending_length, (Mailbox.pending_bytes_sum _ _ _ Hok), <- bt_sum_filter. split_and!; [apply Hok..|].
    intros v Hv. destruct (Mailbox.pending_get id _ v (Mailbox.mailbox_keyed _ _ Hok) Hv) as [Hg Hp].
    apply (Mailbox.eo_waiting _ _ _ (Mailbox.mo_entry _ _ Hok _ _ Hg)). unfold Mailbox.pending in Hp. by destruct (Mailbox.acknowledged v).
  - intros (i & Hi)%list_elem_of_lookup. by destruct (Forall2_lookup_l _ _ _ _ _ Hs Hi) as (Q & _ & []).
Qed.

(** C12: Whatever requests run side by side, and however the policy, the nodes, their stop marks
    and the gateways change meanwhile, a batch is delivered only to the node it is addressed to,
    which signed the poll, exactly as a registered node signed it in a request before. It was
    found allowed when it was sent, between the authentication of that request and the storing of
    the batch; and it is found allowed again when it is delivered: after it was taken from the
    mailbox for this poll, and before the answer, the records of both nodes, the stored policy and
    the selected gateways are read anew, and by them the two are of one cluster, neither is
    stopped, the rules allow both directions and a client talks to its own gateway. *)
Theorem delivery_authorized s rs moves i r clock response : quiet_mesh s -> Forall (fun r => clock_ok r.2) rs -> Forall fair_move moves ->
  rs !! i = Some (r, clock) -> (play (side_by_side s rs) moves).2 !! i = Some (Ret (Ok response)) ->
  let Seen := during s rs moves in
  forall e, e ∈ envelopes response ->
    exists t1 t2 t3 n m peer, (t1 <= t2 <= t3)%nat /\ (t3 <= length moves)%nat /\
      signed_by Seen t1 r n /\ Mailbox.target e = Overlay.node_id n /\ waiting Seen t2 e /\ carried Seen (map fst rs) t2 e /\
      known Seen t2 t3 (Mailbox.target e) m /\ known Seen t2 t3 (Mailbox.source e) peer /\ authorized Seen t2 t3 peer m.
Proof.
  intros Hm Hc Hf Hi Hr. cbv zeta. destruct (mesh_play s rs moves Hm Hc Hf) as [_ Hs].
  destruct (Forall2_lookup_l _ _ _ _ _ Hs Hr) as (Q & HQ & H). rewrite list_lookup_fmap, Hi in HQ. injection HQ as <-. by apply (proj1 H).
Qed.

(** C15: A gateway is told that it may forward between two addresses only when these are the
    addresses of two nodes of its cluster, of which exactly one is reached over HTTP alone and may
    talk to the gateway, neither is stopped, the rules allow the two to talk in both directions,
    and a client among them selected this gateway, by what was stored between the authentication
    of the question and the answer, whatever changes meanwhile; the gateway signed the question
    and is itself neither a client nor reached over HTTP alone. *)
Theorem forwarding_authorized s rs moves i r clock response from to : quiet_mesh s -> Forall (fun r => clock_ok r.2) rs ->
  Forall fair_move moves -> rs !! i = Some (r, clock) -> action r = Forward from to ->
  (play (side_by_side s rs) moves).2 !! i = Some (Ret (Ok response)) ->
  let Seen := during s rs moves in
  exists t1 t2 t3 gateway, (t1 <= t2 <= t3)%nat /\ (t3 <= length moves)%nat /\
    signed_by Seen t1 r gateway /\ forward_ok Seen t2 t3 gateway from to.
Proof.
  intros Hm Hc Hf Hi Ha Hr. cbv zeta. destruct (mesh_play s rs moves Hm Hc Hf) as [_ Hs].
  destruct (Forall2_lookup_l _ _ _ _ _ Hs Hr) as (Q & HQ & H). rewrite list_lookup_fmap, Hi in HQ. injection HQ as <-.
  by apply (proj2 H).
Qed.

(** The pages of the member list are complete: a node that follows the cursors gets every
    member of its cluster that is reached over HTTP alone and whose lease has not ended, each
    once and in order, whatever the page size. *)
Theorem pages_complete ops cluster limit now : 0 < limit ->
  let m := Mailbox.run Mailbox.empty ops in
  all_pages (S (length (Mailbox.members m))) m cluster None limit now =
    bt_keys (bt_retain (fun _ '(_, http_only, c, expires) => http_only && bool_decide (c = cluster) && (now <? expires)) (Mailbox.members m)) /\
  NoDup (all_pages (S (length (Mailbox.members m))) m cluster None limit now).
Proof.
  intros Hl m. assert (Hw : bt_wf (Mailbox.members m)) by (apply Mailbox.run_members_wf, bt_wf_nil).
  rewrite (pages_from m cluster limit now Hl Hw _ [] (all_members m cluster now) None); [|done|by left|].
  - split; [|by apply bt_keys_nodup, bt_wf_retain]. unfold all_members, bt_keys, bt_retain. f_equal. apply filter_ext.
    intros [k [[[a b] c] e]]. unfold Mailbox.listed. cbn. by rewrite andb_true_r.
  - pose proof (bt_retain_length (Mailbox.listed cluster None now) (Mailbox.members m)). unfold all_members. lia.
Qed.

End Mesh.

(** ** Two nodes

    One sends a packet while the other polls. *)
Module MeshExample.
Import Instances Base64 Crypto.CryptoExample PlaneExample.

#[local] Existing Instances v4_nets toy_dh catalog_ids removal_json RequestAuth.ReplayExample.query_json Mailbox.MailboxExample.packets_json.

#[local] Instance action_json : ToJson (bytes * MeshAction) := fun p =>
  Some (p.1 ++ match p.2 with
               | Send target batch_id packets => bstr "send" ++ target ++ batch_id ++ concat packets
               | Poll _ _ => bstr "poll"
               | _ => bstr "other"
               end).

(** The hyphenated form, by its length. *)
#[local] Instance uuids : UuidOps := {| uuid_parses id := lenZ id =? 36 |}.

Definition member (b : byte) (ip : Z) : Overlay.NodeRecord := {|
  Overlay.node_id := id b; Overlay.display_name := None; Overlay.hostname := None; Overlay.cluster_id := bstr "c";
  Overlay.vpn_ip := IpV4 ip; Overlay.identity_public_key := key b; Overlay.wireguard_public_key := [];
  Overlay.role := bstr "edge"; Overlay.tags := []; Overlay.endpoint_candidates := []; Overlay.relay_capability := None;
  Overlay.token_policy := JoinTokens.policy sample_claims; Overlay.routes := []; Overlay.registered_at := 0 |}.

Definition registered : Run :=
  with_store (initial config) (with_nodes ControlStore.new (bt_insert (id x01) (member x01 1) (bt_insert (id x02) (member x02 2) []))).

(** A request of the node with the secret [b], signed. *)
Definition request_of (b : byte) (a : MeshAction) : MeshRequest :=
  let nonce := b64url_encode (sha256 (default [] (to_vec (MESH_BINDING, a))) ++ replicate 16 x00) in
  {| query := {| RequestAuth.query_node_id := id b;
                 RequestAuth.query_signature := Some {| Crypto.api_signed_at := Signal.SECOND; Crypto.api_nonce := nonce;
                                                        Crypto.api_signature := b64_encode (ed_sign (secret b) (id b ++ nonce)) |} |};
     action := a |}.

Definition packet : bytes := Eval vm_compute in b64_encode (x04 :: replicate 31 x00).

Definition clock : Clock := {|
  authenticated_at := Signal.SECOND; served_at := Signal.SECOND;
  rounds := [{| polled_at := Signal.SECOND; deadline_over := false; closed_at := Signal.SECOND |};
             {| polled_at := 2 * Signal.SECOND; deadline_over := true; closed_at := 2 * Signal.SECOND |}] |}.

Definition exchange : list (MeshRequest * Clock) :=
  [(request_of x01 (Send (id x02) (bstr "00000000-0000-0000-0000-000000000001") [packet]), clock); (request_of x02 (Poll [] 1000), clock)].

(** The policy is stored anew. *)
Definition restrict (s : Run) : Run := with_store s (set_policy (store s) (config_cluster_id config) scoped).

(** The poll finds nothing, then the packet is sent, then the policy changes, then the poll goes on. *)
Definition sent : list (move Run) := map Turn (times 3 1 ++ times 12 0).
Definition received : list (move Run) := sent ++ [Other restrict] ++ map Turn (times 12 1).

Lemma sent_fair : Forall fair_move sent.
Proof. repeat constructor. Qed.

Lemma received_fair : Forall fair_move received.
Proof. apply Forall_app. split; [exact sent_fair|]. constructor; [by intros s|]. repeat constructor. Qed.

Lemma clocks : Forall (fun r => clock_ok r.2) exchange.
Proof. repeat constructor; apply Exists_cons_tl, Exists_cons_hd; done. Qed.

Lemma registered_quiet : quiet_mesh registered.
Proof. split; [reflexivity|]. unfold registered. cbn [store with_store nodes with_nodes]. apply bt_wf_insert, bt_wf_insert, bt_wf_nil. Qed.

Lemma one_waits : lenZ (Mailbox.pending_for (id x02) (mesh (play (side_by_side config registered exchange) sent).1)) = 1.
Proof. vm_cast_no_check (@eq_refl Z 1). Qed.

Lemma mailbox_safe_witness :
  let m := mesh (play (side_by_side config registered exchange) sent).1 in
  lenZ (Mailbox.pending_for (id x02) m) = 1 /\
  forall v, v ∈ Mailbox.pending_for (id x02) m ->
    carried config (during config registered exchange sent) (map fst exchange) (length sent) (Mailbox.envelope v).
Proof.
  split; [exact one_waits|]. apply (mailbox_safe config registered exchange sent); [exact registered_quiet|exact clocks|exact sent_fair].
Defined.

Definition delivered {S E} (x : option (prog S (result MeshResponse E))) : nat :=
  match x with Some (Ret (Ok r)) => length (envelopes r) | _ => 0 end.

Lemma delivered_inv {S E} (x : option (prog S (result MeshResponse E))) n : delivered x = n -> (0 < n)%nat ->
  exists r, x = Some (Ret (Ok r)) /\ length (envelopes r) = n.
Proof. destruct x as [[[r|]| |]|]; cbn; intros; try lia. by exists r. Qed.

Lemma polled : delivered ((play (side_by_side config registered exchange) received).2 !! 1%nat) = 1%nat.
Proof. vm_cast_no_check (@eq_refl nat 1%nat). Qed.

Lemma delivery_authorized_witness : exists response,
  (play (side_by_side config registered exchange) received).2 !! 1%nat = Some (Ret (Ok response)) /\ length (envelopes response) = 1%nat /\
  forall e, e ∈ envelopes response -> exists t2 t3 m peer,
    waiting (during config registered exchange received) t2 e /\ authorized config (during config registered exchange received) t2 t3 peer m.
Proof.
  destruct (delivered_inv _ _ polled ltac:(lia)) as (response & H & Hl). exists response. split; [exact H|]. split; [exact Hl|].
  intros e He.
  destruct (delivery_authorized config registered exchange received 1 _ _ response registered_quiet clocks received_fair eq_refl H e He)
    as (t1 & t2 & t3 & n & m & peer & _ & _ & _ & _ & Hw & _ & _ & _ & Ha).
  exists t2, t3, m, peer. split; [exact Hw|exact Ha].
Defined.

Definition tagged (n : Overlay.NodeRecord) (tags : list bytes) : Overlay.NodeRecord := {|
  Overlay.node_id := Overlay.node_id n; Overlay.display_name := None; Overlay.hostname := None; Overlay.cluster_id := Overlay.cluster_id n;
  Overlay.vpn_ip := Overlay.vpn_ip n; Overlay.identity_public_key := Overlay.identity_public_key n; Overlay.wireguard_public_key := [];
  Overlay.role := Overlay.role n; Overlay.tags := tags; Overlay.endpoint_candidates := []; Overlay.relay_capability := None;
  Overlay.token_policy := Overlay.token_policy n; Overlay.routes := []; Overlay.registered_at := 0 |}.

(** The sender is stopped after it sent: the batch that waits is not delivered. *)
Definition stop_sender (s : Run) : Run :=
  with_store s (with_nodes (store s) (bt_insert (id x01) (tagged (member x01 1) [bstr "heteronetwork-stopped"]) (nodes (store s)))).

Definition withdrawn : list (move Run) := sent ++ [Other stop_sender] ++ map Turn (times 12 1).

Lemma withdrawn_fair : Forall fair_move withdrawn.
Proof.
  apply Forall_app. split; [exact sent_fair|]. constructor; [|repeat constructor]. intros s. split; [done|]. apply bt_wf_insert.
Qed.

Example batch_withdrawn :
  option_map (fun p => match p with Ret (Ok r) => Some (length (envelopes r)) | _ => None end)
    ((play (side_by_side config registered exchange) withdrawn).2 !! 1%nat) = Some (Some 0%nat).
Proof. vm_cast_no_check (@eq_refl (option (option nat)) (Some (Some 0%nat))). Qed.

(** A gateway asks whether it may forward from a node on the network to one in the cloud. *)
Definition bridged : Run :=
  with_store (initial config) (with_nodes ControlStore.new
    (bt_insert (id x03) (member x03 3) (bt_insert (id x02) (tagged (member x02 2) [HTTP_ONLY_TAG]) (bt_insert (id x01) (member x01 1) [])))).

Definition question : list (MeshRequest * Clock) := [(request_of x01 (Forward (IpV4 3) (IpV4 2)), clock)].

Definition asked : list (move Run) := map Turn (times 20 0).

Lemma asked_fair : Forall fair_move asked.
Proof. repeat constructor. Qed.

Lemma bridged_quiet : quiet_mesh bridged.
Proof. split; [reflexivity|]. unfold bridged. cbn [store with_store nodes with_nodes]. apply bt_wf_insert, bt_wf_insert, bt_wf_insert, bt_wf_nil. Qed.

Definition granted {S E} (x : option (prog S (result MeshResponse E))) : option bool :=
  match x with Some (Ret (Ok r)) => accepted r | _ => None end.

Lemma granted_inv {S E} (x : option (prog S (result MeshResponse E))) : granted x = Some true -> exists r, x = Some (Ret (Ok r)).
Proof. destruct x as [[[r|]| |]|]; try done. intros _. by exists r. Qed.

Lemma question_granted : granted ((play (side_by_side config bridged question) asked).2 !! 0%nat) = Some true.
Proof. vm_cast_no_check (@eq_refl (option bool) (Some true)). Qed.

Lemma question_clocks : Forall (fun r => clock_ok r.2) question.
Proof. repeat constructor; apply Exists_cons_tl, Exists_cons_hd; done. Qed.

Lemma forwarding_authorized_witness :
  granted ((play (side_by_side config bridged question) asked).2 !! 0%nat) = Some true /\
  exists t2 t3 gateway, forward_ok config (during config bridged question asked) t2 t3 gateway (IpV4 3) (IpV4 2).
Proof.
  split; [exact question_granted|]. destruct (granted_inv _ question_granted) as (response & H).
  destruct (forwarding_authorized config bridged question asked 0 _ _ response (IpV4 3) (IpV4 2)
              bridged_quiet question_clocks asked_fair eq_refl eq_refl H) as (t1 & t2 & t3 & gateway & _ & _ & _ & Hf).
  exists t2, t3, gateway. exact Hf.
Defined.

(** Three members in pages of two. *)
Definition leases : list (Z * Mailbox.mesh_op) :=
  map (fun b => (0, Mailbox.Lease [b] (bstr "c") false true)) [x63; x61; x62].

Lemma pages_complete_witness :
  all_pages 4 (Mailbox.run Mailbox.empty leases) (bstr "c") None 2 1 = [[x61]; [x62]; [x63]].
Proof. exact (proj1 (pages_complete leases (bstr "c") 2 1 ltac:(lia))). Defined.

End MeshExample.
End HttpMesh.
